(* ===== verification/_CoqProject ===== *)
-Q . S2P
Prelude.v
Libc.v
Bitmap.v
Array.v
Queue.v
CopyInOut.v
Uio.v
Device.v
Lhd.v
SfsDisk.v
Vnode.v
Sfs.v
SfsMap.v
SfsFile.v
SfsSpec.v
SfsFault.v
SfsTrunc.v
SfsDir.v
SfsVnode.v
SfsVol.v
SfsNames.v
SfsOps.v
SfsFs.v
SfsCount.v
Printf.v
Vfs.v
VfsSpec.v
VfsTable.v
VfsCalls.v
VfsSum.v
VfsDev.v
SfsVfs.v
VfsSfs.v
Emu.v
EmuSpec.v
EmuVfs.v
EmuCard.v
Mksfs.v
ExecArgs.v
Random.v
Console.v
Terminal.v
Screen.v
Lamebus.v
Timer.v
Menu.v
Machine.v
Dumbvm.v
Trap.v
LoadElf.v
Kheap.v
Thread.v
Sched.v
Synch.v
Kernel.v
KernelStep.v
KernelSafety.v
CatLock.v
CatSem.v
