(* ===== verification/Prelude.v ===== *)
(** * Verification of the OS/161 kernel sources (REJOS/Project_4)

    OS/161 is a small teaching kernel for a simulated 32-bit MIPS.  This
    development models the parts of it that hold state and carry guarantees,
    and proves what those parts promise to each other and to the programs that
    run on the kernel.

    ** The program and its parts

    - kern/lib: bitmaps, growing arrays, ring queues, and the functions that
      copy between kernel and user memory.
    - kern/userprog/uio.c, kern/dev/lamebus/lhd.c: requests for the transfer of
      data, and the disk driver that serves them.
    - kern/fs/sfs, kern/fs/vfs/vnode.c: the file system SFS, which keeps files
      and one directory on a block device, and the reference counts of the
      objects that stand for open files.
    - kern/arch/mips/mips: the interrupt priority level, traps, interrupts and
      system calls, the context switch, and the memory of address spaces (dumbvm).
    - kern/thread: threads, the scheduler, semaphores, locks, condition
      variables, and the clock.
    - kern/lib/kheap.c: the allocator of kernel memory.
    - kern/fs/vfs: device names, mounting, path names and the operations on
      them, and devices as files; kern/dev/lamebus/emu.c: the file system of the
      emulator.
    - kern/userprog: loading a program (loadelf.c) and passing its arguments
      (proc_syscalls.c).
    - kern/dev, kern/lib/kgets.c, kern/main/menu.c: the bus, the serial port and
      the console on it, the full-screen console, the timer and the clock, the
      random devices, line input, and the menu.
    - kern/asst1: two solutions of a synchronization problem.
    - lib/libc: the string, memory and printf functions that the kernel links
      in.  sbin/mksfs: the program that makes volumes.

    The file system calls the disk through a device interface, allocates blocks
    with a bitmap, keeps its loaded vnodes in an array, and moves data with
    uiomove, which calls copyin and copyout for user memory.  The virtual file
    system calls devices, SFS and the emulator file system through the tables of
    functions of their vnodes.  The thread system
    keeps its ready threads in a queue and its sleepers in an array; the
    synchronization primitives are built on sleep and wakeup; the clock
    interrupt preempts.

    ** How the code is modelled

    A C integer is a [Z], with the wrap-around of its width written out ([u32],
    [s32], ...) wherever an expression can leave its range.  Code that changes
    state or fails is in the monad [M] of this file: an operation takes the
    state of its component and gives a [result] and the new state.  [Ret] is a
    return, [Fail e] the return of error code [e], and [Halt] an execution that
    ends: [Panic] for panic and failed assertions, [Undef] for what C leaves
    undefined, [Blocked] for waiting in a place where nothing can wake it, and
    [NoFuel] for a loop that ran out of the fuel the model gave it.  Every
    theorem about an operation says what happens in each case, and [NoFuel] is
    shown not to occur: the fuel of each loop is a bound that follows from the
    state (the length of a string, the size of a ring, the bits of an integer,
    the number of sleepers).  Each allocation takes its outcome from a list in
    the state or from an argument, so that the theorems hold whichever
    allocations fail.

    [wp m Q s] says that [m], run in [s], ends with a result and a state that
    satisfy [Q]; the specifications of the operations are lemmas about [wp]
    which the proofs of their callers apply.

    ** The files

    - Prelude.v (this file): machine integers, error codes, the monad and its
      [wp] calculus, lists indexed by integers, tactics and the hint database.
    - Libc.v: strlen, strcmp, strcpy, strcat, strchr, strrchr, strtok_r, atoi,
      memcpy, memmove, bzero.  A string is read from an object with a terminator;
      reading past the object is [None].  Theorems: the lexicographic order,
      concatenation, the words of a string, the number of a string with its
      overflow, overlapping moves.
    - Bitmap.v, Array.v, Queue.v: the containers of kern/lib.  Theorems: the
      bitmap allocates the least free bit and only that; an array refines a
      list; a ring queue refines a first-in first-out list, growing as needed.
    - CopyInOut.v, Uio.v: copyin, copyout, copyinstr, copyoutstr over a user
      memory in which any byte can fault; uiomove, uiomovezeros, mk_kuio.
      Theorems: only user memory is touched, exactly the requested bytes move,
      and what a fault leaves behind.
    - Device.v: the class [BlockDevice] of devices with d_io, and the laws
      [BlockDeviceLaws] of a disk whose reads and writes may fail;
      [ReliableWrites] is a disk whose writes do not.  Lhd.v: the driver over an
      abstract drive whose documented behaviour is the class [LhdHardwareLaws];
      it is shown to satisfy the interface of Device.v, and drives in memory, one
      of them with writes that fail, show that the laws can hold.
    - SfsDisk.v: the structures of a volume and their big-endian encoding.
      Vnode.v: vnode.c.  Sfs.v: sfs_io.c, the block map of a file
      (sfs_balloc, sfs_bfree, sfs_bmap).  SfsMap.v: its theory: which blocks a
      file owns.  SfsFile.v: sfs_partialio, sfs_blockio, sfs_io.
      SfsSpec.v: reading and writing as seen by the caller.  SfsFault.v: a write
      that fails is reported as done by sfs_rwblock, so that the theorems about
      operations that write are about disks with [ReliableWrites]; those about
      reading a file and loading a program are about all disks.  SfsTrunc.v:
      sfs_truncate, sfs_fsync.  SfsDir.v: directories as finite maps from names
      to inodes.  SfsVnode.v: loading vnodes, and the operations of a directory
      (sfs_creat, sfs_link, sfs_remove, sfs_rename, sfs_lookup).  SfsVol.v: the
      invariant [vol_ok] of a mounted volume: every block has one owner, every
      inode as many links as names, every vnode one inode.  SfsNames.v and
      SfsOps.v: the operations preserve it and change the name space as they
      should.  SfsFs.v: sfs_sync, sfs_unmount, sfs_domount; a volume that is
      synced and mounted again is the same volume.  SfsCount.v: the reference
      counts of the vnodes of a volume.
    - Printf.v: __printf.c and snprintf.c.  Theorems: what each format prints,
      that snprintf stays in its buffer, that decimal output is read back by
      atoi, and that the digit loop ends.
    - Vfs.v: vfslist.c, vfslookup.c, vfspath.c and vfscwd.c over the class
      [VnodeInterface] of vnode and file system operations.  VfsSpec.v: the laws
      [VnodeLaws] of such operations, the abstract state of the virtual file
      system (which devices, volumes, references and opens there are) and the
      specifications of path translation; VfsTable.v: of the device table and of
      mounting.  VfsCalls.v: every call of vfs.h refines a step of the abstract
      state, and stops only in a panic of a file system, which the laws allow in
      three places ([may_panic]).
      The laws are proved of devices and the null device in VfsDev.v (device.c,
      devnull.c), of the emulator file system in EmuSpec.v, and of SFS in
      SfsVfs.v; VfsSum.v shows that two implementations side by side keep the
      laws.  VfsSfs.v: mounting an SFS volume in a kernel with devices.
    - Emu.v: emu.c over an abstract card, the class [EmuHardwareLaws].
      EmuSpec.v: its theory; EmuVfs.v: adding it to the table of devices;
      EmuCard.v: a card in memory, which shows that the laws can hold.
    - Mksfs.v: sbin/mksfs.  A volume it makes can be mounted and is empty.
    - ExecArgs.v: copyin_args and copyout_args.  A program gets the arguments
      that its caller gave, at least one.
    - Random.v: random.c, pseudorand.c, lrandom.c.  The generator is the one of
      Park and Miller, and a read of the device fills the request.
    - Console.v: lser.c, console.c and console_send over an abstract serial port.
      No output is lost or reordered, under every interleaving of threads,
      interrupts and polling.  Terminal.v: kgets.c, which refines a line editor,
      and the console as a device, over the input of console.c, one character and
      a semaphore, with characters that arrive at any rate.  Screen.v: lscreen.c,
      which shows the last rows of the text.
    - Lamebus.v: lamebus.c, lamebus_mips.c, and the attachment of a driver, over
      the registers of the bus.  Its data stay well formed, drivers do not share
      slots, and an interrupt tests every slot on the register as the handlers
      before it left it.
    - Timer.v: ltimer.c, rtclock.c, beep.c and getinterval.  The clock is read
      consistently although its two registers are read one after the other.
    - Menu.v: cmd_dispatch and menu_execute.  Splitting the line in place runs
      the commands that the line says.
    - Machine.v: the state [kstate] of the running kernel, and spl.c.  A kernel
      stack is data: the list of the calls that have not returned.
    - Dumbvm.v: ram.c and dumbvm.c.  Theorems: vm_fault loads the translation of
      the address space; as_copy copies into frames nobody else has; a thread
      can only reach the memory of its own address space.
    - Trap.v: trap.c, interrupt.c, syscall.c, getpid_syscall.c: how a page fault
      and a system call are served and return.  LoadElf.v: loadelf.c, over files
      that can be read with VOP_READ (SFS files are an instance), the uio and
      dumbvm: a program is in memory as its file says, and what is not an
      executable for the machine is refused.
    - Kheap.v: kheap.c.  Blocks that are handed out do not overlap, and freeing
      one leaves the others alone.
    - Thread.v: thread.c, scheduler.c, pcb.c, and what they call of pid.c and
      file.c.  Sched.v: what these operations do to the lists of threads.
      Synch.v: synch.c, hardclock.c, the interrupt path of trap.c and
      interrupt.c, and the machine [step]: a call by a thread (of the
      primitives, their creation, or the thread functions), the return of a
      pending call, or an interrupt at any moment when interrupts are on.
    - Kernel.v: the invariant [wf] of the kernel, and that every call preserves
      it.  KernelStep.v: the same for every return and every interrupt, and for
      executions.  KernelSafety.v: the theorems about executions: mutual
      exclusion, semaphore counting, no lost wakeups, first-in first-out
      dispatch, and when the kernel can stop; and theorems that exhibit defects
      of thread.c, pid.c and synch.c.
    - CatLock.v, CatSem.v: catlock.c and catsem.c under every scheduling: safety
      and liveness of the one, and how the other goes wrong.

    ** What is not modelled

    - The memory model: objects are values or entries of finite maps, kfree
      removes an entry or is not represented, the size of a kernel stack and the
      checks of curkstack against it are not represented.
    - The reclaim operation that thread_exit can reach by dropping the last
      reference to a directory is one step, with no context switch inside.  The
      file system itself is modelled without preemption: SFS in this kernel
      takes no locks, and the theorems are about one operation at a time.
    - kern/userprog/runprogram.c takes a lock that nothing initializes;
      kern/asst1/stoplight.c and md_forkentry are empty.
    - file_syscalls.c holds merge conflict markers and does not compile;
      the rest of file.c, pid.c and proc_syscalls.c store through pointers
      that are never set or search the process table, which is undefined.
      thread_bootstrap dereferences a null pointer.
    - kern/vm/addrspace.c is a stub that is not compiled with dumbvm.  The option
      synchprobs is off (HZ is 100 and mi_threadstart does not yield).
    - The routines that probe for a card and attach a driver, but for the shape
      they share (Lamebus.v), the tracing card, the boot sequence, the commands
      of the menu, the assembly and the tests: allocation of structures, order of
      calls, and messages.  Hardware is behind classes with the behaviour the
      drivers rely on, and each class has an instance in its file or in the file
      of its theory. *)

From Stdlib Require Export ZArith Lia.
From stdpp Require Export base tactics numbers option gmap strings list list_numbers.

#[global] Set Default Goal Selector "!".

Declare Scope os_scope.
Delimit Scope os_scope with os.
#[global] Open Scope Z_scope.

(** ** Machine integers

    The kernel is compiled for 32-bit big-endian MIPS: [int] and [long] have
    32 bits, [char] 8.  A C integer is a [Z]; the wrap-around of each unsigned
    width, and the two's-complement reading of a 32-bit word, are written out
    where an expression can leave its range. *)

Definition u8 (z : Z) : Z := z mod 2 ^ 8.
Definition u16 (z : Z) : Z := z mod 2 ^ 16.
Definition u32 (z : Z) : Z := z mod 2 ^ 32.
Definition s32 (z : Z) : Z := (z + 2 ^ 31) mod 2 ^ 32 - 2 ^ 31.

Definition is_u8 (z : Z) : Prop := 0 ≤ z < 2 ^ 8.
Definition is_u16 (z : Z) : Prop := 0 ≤ z < 2 ^ 16.
Definition is_u32 (z : Z) : Prop := 0 ≤ z < 2 ^ 32.

(** [DIVROUNDUP] of kern/include/lib.h on unsigned 32-bit operands: the sum
    wraps before the division. *)
Definition DIVROUNDUP (a b : Z) : Z := u32 (a + b - 1) / b.

(** ** Error codes (kern/include/kern/errno.h) *)

Inductive errno :=
  | EINVAL | EFAULT | ENAMETOOLONG | ENOMEM | EIO | ENOENT | ENOTDIR | EISDIR
  | EEXIST | EXDEV | EAGAIN | ESPIPE | EUNIMP | ENXIO | ENODEV | EBUSY
  | EIOCTL | ENOTEMPTY | ERANGE | ENOSPC | EMFILE | ENFILE | ENOSYS | ENOEXEC
  | E2BIG | EBADF.

#[export] Instance errno_eq_dec : EqDecision errno.
Proof. solve_decision. Defined.

(** ** Outcomes

    A C function of the kernel that returns an [int] result code is a
    computation that returns a value ([Ret], the code 0), returns an error
    code ([Fail]), or stops: it calls [panic] (which [assert] does), its
    behaviour is undefined (an access outside an object), it waits for an event
    that does not come, or the fuel of the model is used up.  A user program
    stops by [exit] (which [err] and [errx] call).  An error return keeps the
    state the code has reached: nothing is rolled back. *)

Inductive stop := Panic | Undef | Blocked | NoFuel | Exited (status : Z).

Inductive result (A : Type) :=
  | Ret (a : A)
  | Fail (e : errno)
  | Halt (k : stop).
Arguments Ret {_} _.
Arguments Fail {_} _.
Arguments Halt {_} _.

Definition M (St A : Type) : Type := St → result A * St.

#[export] Instance M_ret {St} : MRet (M St) := λ A a s, (Ret a, s).
#[export] Instance M_bind {St} : MBind (M St) := λ A B f m s,
  match m s with
  | (Ret a, s') => f a s'
  | (Fail e, s') => (Fail e, s')
  | (Halt k, s') => (Halt k, s')
  end.

Section operations.
Context {St : Type}.

Definition fail {A} (e : errno) : M St A := λ s, (Fail e, s).
Definition panic {A} : M St A := λ s, (Halt Panic, s).
Definition undef {A} : M St A := λ s, (Halt Undef, s).
Definition blocked {A} : M St A := λ s, (Halt Blocked, s).
Definition nofuel {A} : M St A := λ s, (Halt NoFuel, s).
Definition exit {A} (status : Z) : M St A := λ s, (Halt (Exited status), s).
(** [assert(b)] of kern/include/lib.h. *)
Definition assert (b : bool) : M St unit := if b then mret () else panic.
Definition get : M St St := λ s, (Ret s, s).
Definition gets {A} (f : St → A) : M St A := λ s, (Ret (f s), s).
Definition put (s : St) : M St unit := λ _, (Ret (), s).
Definition modify (f : St → St) : M St unit := λ s, (Ret (), f s).

(** An array read or a pointer dereference that may leave its object. *)
Definition deref {A} (o : option A) : M St A :=
  match o with Some a => mret a | None => undef end.

(** Run [m] and hand its result code to the continuation, as in
    [result = m(); if (result) ...]. *)
Definition attempt {A} (m : M St A) : M St (A + errno) := λ s,
  match m s with
  | (Ret a, s') => (Ret (inl a), s')
  | (Fail e, s') => (Ret (inr e), s')
  | (Halt k, s') => (Halt k, s')
  end.

(** Return a previously saved result code. *)
Definition result_of {A} (r : A + errno) : M St A :=
  match r with inl a => mret a | inr e => fail e end.

(** [for (x in l) body], left when the body fails or stops. *)
Fixpoint forM {X} (l : list X) (body : X → M St unit) : M St unit :=
  match l with
  | [] => mret ()
  | x :: l' => body x ≫= λ _, forM l' body
  end.

(** [while (cond) body], with fuel. *)
Fixpoint whileM (fuel : nat) (cond : St → bool) (body : M St unit) : M St unit :=
  match fuel with
  | O => λ s, if cond s then (Halt NoFuel, s) else (Ret (), s)
  | S n => λ s, if cond s then (body ≫= λ _, whileM n cond body) s else (Ret (), s)
  end.
End operations.

(** Run a computation on a component of a larger state. *)
Definition zoom {S T A} (proj : S → T) (upd : T → S → S) (m : M T A) : M S A :=
  λ s, let '(r, t) := m (proj s) in (r, upd t s).

Definition on_fst {S T A} (m : M S A) : M (S * T) A :=
  λ p, let '(r, s) := m p.1 in (r, (s, p.2)).
Definition on_snd {S T A} (m : M T A) : M (S * T) A :=
  λ p, let '(r, t) := m p.2 in (r, (p.1, t)).

(** ** Weakest preconditions

    [wp m Q s]: run from [s], [m] ends in a result and a state that satisfy
    [Q].  A computation is a total function, so the result of an erroneous
    run is part of what [Q] speaks about. *)

Definition wp {St A} (m : M St A) (Q : result A → St → Prop) (s : St) : Prop :=
  Q (m s).1 (m s).2.

(** The postcondition of a computation that has to return a value. *)
Definition returns {St A} (Q : A → St → Prop) (r : result A) (s : St) : Prop :=
  match r with Ret a => Q a s | _ => False end.

Section wp_rules.
Context {St : Type}.
Implicit Types s : St.

Lemma wp_ret {A} (a : A) (Q : result A → St → Prop) s : Q (Ret a) s → wp (mret a) Q s.
Proof. done. Qed.

Lemma wp_bind {A B} (m : M St A) (f : A → M St B) Q s :
  wp m (λ r s', match r with
                | Ret a => wp (f a) Q s'
                | Fail e => Q (Fail e) s'
                | Halt k => Q (Halt k) s'
                end) s →
  wp (m ≫= f) Q s.
Proof. unfold wp, mbind, M_bind. destruct (m s) as [[]?]; done. Qed.

Lemma wp_mono {A} (m : M St A) (Q Q' : result A → St → Prop) s :
  wp m Q s → (∀ r s', Q r s' → Q' r s') → wp m Q' s.
Proof. unfold wp; auto. Qed.

Lemma wp_and {A} (m : M St A) (Q Q' : result A → St → Prop) s :
  wp m Q s → wp m Q' s → wp m (λ r s', Q r s' ∧ Q' r s') s.
Proof. unfold wp; auto. Qed.

Lemma wp_fail {A} e (Q : result A → St → Prop) s : Q (Fail e) s → wp (fail e) Q s.
Proof. done. Qed.

Lemma wp_get Q s : Q (Ret s) s → wp get Q s.
Proof. done. Qed.

Lemma wp_gets {A} (f : St → A) Q s : Q (Ret (f s)) s → wp (gets f) Q s.
Proof. done. Qed.

Lemma wp_put s' Q s : Q (Ret ()) s' → wp (put s') Q s.
Proof. done. Qed.

Lemma wp_modify f Q s : Q (Ret ()) (f s) → wp (modify f) Q s.
Proof. done. Qed.

Lemma wp_assert (b : bool) Q s : b = true → Q (Ret ()) s → wp (assert b) Q s.
Proof. intros ->; done. Qed.

Lemma wp_deref {A} (o : option A) a Q s : o = Some a → Q (Ret a) s → wp (deref o) Q s.
Proof. intros ->; done. Qed.

Lemma wp_attempt {A} (m : M St A) Q s :
  wp m (λ r s', match r with
                | Ret a => Q (Ret (inl a)) s'
                | Fail e => Q (Ret (inr e)) s'
                | Halt k => Q (Halt k) s'
                end) s →
  wp (attempt m) Q s.
Proof. unfold wp, attempt. destruct (m s) as [[]?]; done. Qed.

(** The rule for a counted loop: an invariant over the elements done. *)
Lemma wp_forM {X} (l : list X) (body : X → M St unit) (I : nat → St → Prop) Q s :
  I 0%nat s →
  (∀ i x s', l !! i = Some x → I i s' →
     wp (body x) (λ r s'', match r with
                           | Ret _ => I (S i) s''
                           | Fail e => Q (Fail e) s''
                           | Halt k => Q (Halt k) s''
                           end) s') →
  (∀ s', I (length l) s' → Q (Ret ()) s') →
  wp (forM l body) Q s.
Proof.
  revert s I; induction l as [|x l IH]; intros s I HI Hbody Hend; simpl.
  { apply wp_ret, Hend, HI. }
  apply wp_bind. eapply wp_mono; [apply (Hbody 0%nat x s); done|].
  intros [[]|e|k] s' H; simpl; [|done..].
  apply (IH s' (λ i, I (S i))); [done| |done].
  intros i y s'' Hy. apply (Hbody (S i)); done.
Qed.

Lemma wp_eq {A} (m : M St A) Q s r s' : m s = (r, s') → Q r s' → wp m Q s.
Proof. unfold wp. intros ->; done. Qed.

Lemma wp_run {A} (m : M St A) (Q : result A → St → Prop) s :
  wp m Q s → ∃ r s', m s = (r, s') ∧ Q r s'.
Proof. unfold wp. destruct (m s) as [r s']; eauto. Qed.

(** A run and its result, as the statements of properties show it. *)
Lemma wp_elim {A} (m : M St A) (Q : result A → St → Prop) s :
  wp m Q s → let '(r, s') := m s in Q r s'.
Proof. unfold wp. by destruct (m s). Qed.

Lemma wp_eq_intro {A} (m : M St A) (x : result A * St) s :
  wp m (λ r s', (r, s') = x) s → m s = x.
Proof. unfold wp. by destruct (m s). Qed.

Lemma wp_returns_run {A} (m : M St A) (Q : A → St → Prop) s :
  wp m (returns Q) s → ∃ a s', m s = (Ret a, s') ∧ Q a s'.
Proof. unfold wp, returns. destruct (m s) as [[] s']; naive_solver. Qed.
End wp_rules.

Lemma wp_on_fst {S T A} (m : M S A) (Q : result A → S * T → Prop) s t :
  wp m (λ r s', Q r (s', t)) s → wp (on_fst m) Q (s, t).
Proof. unfold wp, on_fst; simpl. destruct (m s); done. Qed.

Lemma wp_on_snd {S T A} (m : M T A) (Q : result A → S * T → Prop) s t :
  wp m (λ r t', Q r (s, t')) t → wp (on_snd m) Q (s, t).
Proof. unfold wp, on_snd; simpl. destruct (m t); done. Qed.

Lemma wp_zoom {S T A} (proj : S → T) upd (m : M T A) (Q : result A → S → Prop) s :
  wp m (λ r t, Q r (upd t s)) (proj s) → wp (zoom proj upd m) Q s.
Proof. unfold wp, zoom. destruct (m (proj s)); done. Qed.

(** ** C arrays

    Objects of memory are lists; an index is a [Z].  A read outside the object
    is [None], and so is a store. *)

Definition zlookup {A} (l : list A) (i : Z) : option A :=
  if decide (0 ≤ i) then l !! Z.to_nat i else None.

Definition zstore {A} (l : list A) (i : Z) (x : A) : option (list A) :=
  if decide (0 ≤ i < Z.of_nat (length l)) then Some (<[Z.to_nat i := x]> l) else None.

Notation "l !z i" := (zlookup l i) (at level 20, i at level 9) : os_scope.
#[global] Open Scope os_scope.

(** The length of a C object, as a [Z]. *)
Definition zlen {A} (l : list A) : Z := Z.of_nat (length l).

Create HintDb os.

Section carrays.
Context {A : Type}.
Implicit Types (l : list A) (x : A) (i j : Z).

Lemma zlookup_in l i : 0 ≤ i < zlen l → is_Some (l !z i).
Proof.
  unfold zlen, zlookup; intros. rewrite decide_True by lia.
  apply lookup_lt_is_Some; lia.
Qed.

Lemma zlookup_Some_range l i x : l !z i = Some x → 0 ≤ i < zlen l.
Proof.
  unfold zlen, zlookup. case_decide; [|done]. intros ?%lookup_lt_Some; lia.
Qed.

Lemma zlookup_nat l i : 0 ≤ i → l !z i = l !! Z.to_nat i.
Proof. intros. unfold zlookup. by rewrite decide_True. Qed.

Lemma zlookup_None_ge l i : zlen l ≤ i → l !z i = None.
Proof.
  unfold zlen, zlookup; intros. case_decide; [|done]. apply lookup_ge_None; lia.
Qed.

Lemma zstore_in l i x : 0 ≤ i < zlen l → zstore l i x = Some (<[Z.to_nat i := x]> l).
Proof. unfold zlen, zstore; intros. by rewrite decide_True. Qed.

Lemma zlen_insert l n x : zlen (<[n := x]> l) = zlen l.
Proof. unfold zlen. by rewrite length_insert. Qed.

Lemma zlookup_insert l i j x :
  0 ≤ i < zlen l → 0 ≤ j →
  <[Z.to_nat i := x]> l !z j = if decide (i = j) then Some x else l !z j.
Proof.
  unfold zlen; intros. rewrite !zlookup_nat by lia. case_decide.
  - subst. apply list_lookup_insert_eq; lia.
  - apply list_lookup_insert_ne; lia.
Qed.

Lemma zlen_app l l' : zlen (l ++ l') = zlen l + zlen l'.
Proof. unfold zlen. rewrite length_app; lia. Qed.

Lemma zlen_nonneg l : 0 ≤ zlen l.
Proof. unfold zlen; lia. Qed.

Lemma zlen_replicate n x : zlen (replicate n x) = Z.of_nat n.
Proof. unfold zlen. by rewrite length_replicate. Qed.
End carrays.

Lemma lookup_seqZ_inv m n i x :
  seqZ m n !! i = Some x → x = m + Z.of_nat i ∧ Z.of_nat i < n.
Proof. intros [? ?]%lookup_seqZ. lia. Qed.

Lemma length_seqZ_nat m n : length (seqZ m n) = Z.to_nat n.
Proof. apply length_seqZ. Qed.

(** Step through the monadic structure of a goal [wp m Q s]; calls of named
    operations are left for their own specifications. *)
Ltac wp_step :=
  lazymatch goal with
  | |- wp (mbind _ _) _ _ => apply wp_bind
  | |- wp (mret _) _ _ => apply wp_ret; cbn beta iota zeta
  | |- wp (fail _) _ _ => apply wp_fail; cbn beta iota zeta
  | |- wp (gets _) _ _ => apply wp_gets; cbn beta iota zeta
  | |- wp get _ _ => apply wp_get; cbn beta iota zeta
  | |- wp (put _) _ _ => apply wp_put; cbn beta iota zeta
  | |- wp (modify _) _ _ => apply wp_modify; cbn beta iota zeta
  | |- wp (attempt _) _ _ => apply wp_attempt
  | |- wp (on_fst _) _ _ => apply wp_on_fst
  | |- wp (on_snd _) _ _ => apply wp_on_snd
  | |- wp (zoom _ _ _) _ _ => apply wp_zoom
  end.
Ltac wp_steps := repeat wp_step.

(** ** Bits *)

Lemma u8_range z : is_u8 (u8 z).
Proof. unfold is_u8, u8. apply Z.mod_pos_bound; lia. Qed.

Lemma u32_range z : is_u32 (u32 z).
Proof. unfold is_u32, u32. apply Z.mod_pos_bound; lia. Qed.

Lemma u8_small z : is_u8 z → u8 z = z.
Proof. apply Z.mod_small. Qed.

Lemma u16_small z : is_u16 z → u16 z = z.
Proof. apply Z.mod_small. Qed.

Lemma u32_small z : is_u32 z → u32 z = z.
Proof. apply Z.mod_small. Qed.

Lemma s32_small z : - 2 ^ 31 ≤ z < 2 ^ 31 → s32 z = z.
Proof. intros. unfold s32. rewrite Z.mod_small; lia. Qed.

Lemma s32_range z : - 2 ^ 31 ≤ s32 z < 2 ^ 31.
Proof. unfold s32. pose proof (Z.mod_pos_bound (z + 2 ^ 31) (2 ^ 32)). lia. Qed.

Lemma u8_bit z k : 0 ≤ k < 8 → Z.testbit (u8 z) k = Z.testbit z k.
Proof. intros. unfold u8. apply Z.mod_pow2_bits_low; lia. Qed.

Lemma is_u8_bit_high z k : is_u8 z → 8 ≤ k → Z.testbit z k = false.
Proof.
  intros Hz Hk. rewrite <- (u8_small z Hz). unfold u8. apply Z.mod_pow2_bits_high; lia.
Qed.

Lemma u8_mask k : 0 ≤ k < 8 → u8 (Z.shiftl 1 k) = 2 ^ k.
Proof.
  intros. rewrite Z.shiftl_1_l. apply u8_small. split; [lia|].
  apply Z.pow_lt_mono_r; lia.
Qed.

Lemma land_pow2_zero w k : 0 ≤ k → (Z.land w (2 ^ k) =? 0) = negb (Z.testbit w k).
Proof.
  intros Hk. apply eq_bool_prop_intro. rewrite Is_true_true, Z.eqb_eq, Is_true_true.
  rewrite negb_true_iff. split; intros H.
  - assert (Z.testbit (Z.land w (2 ^ k)) k = false) as Hb by (rewrite H; apply Z.bits_0).
    rewrite Z.land_spec, Z.pow2_bits_true, andb_true_r in Hb by lia. done.
  - apply Z.bits_inj'; intros j Hj. rewrite Z.land_spec, Z.bits_0.
    destruct (decide (j = k)) as [->|Hne]; [by rewrite H|].
    rewrite Z.pow2_bits_false by lia. apply andb_false_r.
Qed.

Lemma u8_lor_bit w k j :
  0 ≤ k < 8 → 0 ≤ j < 8 →
  Z.testbit (u8 (Z.lor w (2 ^ k))) j = Z.testbit w j || (j =? k).
Proof.
  intros. rewrite u8_bit, Z.lor_spec, Z.pow2_bits_eqb by lia. f_equal. apply Z.eqb_sym.
Qed.

Lemma u8_clear_bit w k j :
  0 ≤ k < 8 → 0 ≤ j < 8 →
  Z.testbit (u8 (Z.land w (Z.lnot (2 ^ k)))) j = Z.testbit w j && negb (j =? k).
Proof.
  intros. rewrite u8_bit, Z.land_spec, Z.lnot_spec, Z.pow2_bits_eqb by lia.
  f_equal. f_equal. apply Z.eqb_sym.
Qed.

Lemma u8_not_all_ones w :
  is_u8 w → w ≠ 255 → ∃ k, 0 ≤ k < 8 ∧ Z.testbit w k = false.
Proof.
  intros Hw Hne.
  destruct (decide (Exists (λ k, Z.testbit w k = false) (seqZ 0 8))) as [Hex|Hno].
  { apply Exists_exists in Hex as (k & Hk%elem_of_seqZ & ?). eauto with lia. }
  exfalso; apply Hne. apply Z.bits_inj'; intros j Hj.
  change 255 with (Z.ones 8). destruct (decide (j < 8)).
  - rewrite Z.ones_spec_low by lia. apply not_false_is_true. intros Hf.
    apply Hno, Exists_exists. exists j. rewrite elem_of_seqZ. auto with lia.
  - rewrite Z.ones_spec_high by lia. apply is_u8_bit_high; [done|lia].
Qed.
