(* ===== verification/Libc.v ===== *)
(** * String and memory functions (lib/libc)

    The functions the kernel takes from libc.  An object of memory is a list of
    bytes; a [char *] into it is the rest of the object from there on, so that
    a function that runs off the end of the object has no result.  A [char] is
    signed on this machine. *)

From S2P Require Import Prelude.

(** The value of the byte [c] as a [char]. *)
Definition s8 (c : Z) : Z := (c + 2 ^ 7) mod 2 ^ 8 - 2 ^ 7.
#[global] Arguments s8 : simpl never.

Fixpoint strlen (s : list Z) : option Z :=
  match s with
  | [] => None
  | c :: s' => if c =? 0 then Some 0 else n ← strlen s'; Some (n + 1)
  end.

Fixpoint strcmp (a b : list Z) : option Z :=
  match a, b with
  | ca :: a', cb :: b' =>
      if negb (ca =? 0) && (ca =? cb) then strcmp a' b'
      else Some (if s8 ca >? s8 cb then 1 else if s8 ca =? s8 cb then 0 else -1)
  | _, _ => None
  end.

Fixpoint strcpy (dest src : list Z) : option (list Z) :=
  match src, dest with
  | c :: src', _ :: dest' =>
      if c =? 0 then Some (0 :: dest') else d ← strcpy dest' src'; Some (c :: d)
  | _, _ => None
  end.

Definition strcat (dest src : list Z) : option (list Z) :=
  offset ← strlen dest;
  d ← strcpy (drop (Z.to_nat offset) dest) src;
  Some (take (Z.to_nat offset) dest ++ d).

(** The result of [strchr] is [NULL] or a position. *)
Fixpoint strchr (s : list Z) (ch : Z) : option (option nat) :=
  match s with
  | [] => None
  | c :: s' =>
      if c =? 0 then Some (if s8 c =? ch then Some O else None)
      else if s8 c =? ch then Some (Some O)
      else r ← strchr s' ch; Some (fmap (M:=option) S r)
  end.

(** The loop from position [i] down. *)
Fixpoint strrchr_from (s : list Z) (ch : Z) (i : nat) : option (option nat) :=
  match i with
  | O => Some None
  | S i' => c ← s !! i'; if s8 c =? ch then Some (Some i') else strrchr_from s ch i'
  end.
Definition strrchr (s : list Z) (ch : Z) : option (option nat) :=
  n ← strlen s; strrchr_from s ch (Z.to_nat (n + 1)).

(** ** [strtok_r] *)

(** Number of characters from the start of [s] on that are separators (for
    [want] true) or not; it ends at the terminator. *)
Fixpoint span_seps (want : bool) (seps s : list Z) : option nat :=
  match s with
  | [] => None
  | c :: s' =>
      if c =? 0 then Some O
      else r ← strchr seps (s8 c);
           if Bool.eqb want (bool_decide (is_Some r)) then n ← span_seps want seps s'; Some (S n)
           else Some O
  end.

(** The string and the context, a position in it; the result is the position of
    the next word.  [start] is the first argument, [NULL] or the string. *)
Definition strtok_r (start : bool) (seps : list Z) : M (list Z * option nat) (option nat) :=
  p ← get;
  let '(buf, context) := p in
  match (if start then Some O else context) with
  | None => mret None
  | Some h0 =>
      n ← deref (span_seps true seps (drop h0 buf));
      let head := (h0 + n)%nat in
      c ← deref (buf !! head);
      if c =? 0 then _ ← put (buf, None); mret None
      else
        m ← deref (span_seps false seps (drop head buf));
        let tail := (head + m)%nat in
        c ← deref (buf !! tail);
        if c =? 0 then _ ← put (buf, None); mret (Some head)
        else _ ← put (<[tail := 0]> buf, Some (S tail)); mret (Some head)
  end.

(** ** [atoi] *)

Definition digits : list Z := [48; 49; 50; 51; 52; 53; 54; 55; 56; 57; 0].

Fixpoint atoi_space (s : list Z) : option (list Z) :=
  match s with
  | [] => None
  | c :: s' => if (c =? 32) || (c =? 9) then atoi_space s' else Some s
  end.

Fixpoint atoi_digits (s : list Z) (val : Z) : option Z :=
  match s with
  | [] => None
  | c :: s' =>
      if c =? 0 then Some val
      else r ← strchr digits (s8 c);
           match r with
           | None => Some val
           | Some d => atoi_digits s' (u32 (u32 (val * 10) + Z.of_nat d))
           end
  end.

Definition atoi (s : list Z) : option Z :=
  s ← atoi_space s;
  match s with
  | [] => None
  | c :: s' =>
      if c =? 45 then val ← atoi_digits s' 0; Some (s32 (- val))
      else val ← atoi_digits s 0; Some (s32 val)
  end.

(** ** Blocks of memory

    Bytes by address; an access to an address that is not there is undefined.
    A [long] is read as a whole before it is written. *)

Definition load_unit (m : gmap Z Z) (a : Z) (n : nat) : option (list Z) :=
  mapM (λ k, m !! (a + k)) (seqZ 0 (Z.of_nat n)).

Fixpoint store_unit (m : gmap Z Z) (a : Z) (bs : list Z) : option (gmap Z Z) :=
  match bs with
  | [] => Some m
  | b :: bs' => _ ← m !! a; store_unit (<[a := b]> m) (a + 1) bs'
  end.

(** [d[i] = s[i]] on elements of [n] bytes. *)
Definition copy_unit (n : nat) (dst src : Z) (i : nat) (m : gmap Z Z) : option (gmap Z Z) :=
  bs ← load_unit m (src + Z.of_nat (i * n)) n; store_unit m (dst + Z.of_nat (i * n)) bs.

Fixpoint copy_up (n : nat) (dst src : Z) (i cnt : nat) (m : gmap Z Z) : option (gmap Z Z) :=
  match cnt with
  | O => Some m
  | S cnt' => m' ← copy_unit n dst src i m; copy_up n dst src (S i) cnt' m'
  end.

Fixpoint copy_down (n : nat) (dst src : Z) (i : nat) (m : gmap Z Z) : option (gmap Z Z) :=
  match i with
  | O => Some m
  | S i' => m' ← copy_unit n dst src i' m; copy_down n dst src i' m'
  end.

Definition word_aligned (dst src len : Z) : bool :=
  (dst mod 4 =? 0) && (src mod 4 =? 0) && (len mod 4 =? 0).

Definition memcpy (dst src len : Z) (m : gmap Z Z) : option (gmap Z Z) :=
  if word_aligned dst src len then copy_up 4 dst src 0 (Z.to_nat (len / 4)) m
  else copy_up 1 dst src 0 (Z.to_nat len) m.

Definition memmove (dst src len : Z) (m : gmap Z Z) : option (gmap Z Z) :=
  if dst <? src then memcpy dst src len m
  else if word_aligned dst src len then copy_down 4 dst src (Z.to_nat (len / 4)) m
  else copy_down 1 dst src (Z.to_nat len) m.

(** [bzero] writes zeros, by words when it can. *)
Fixpoint zero_units (n : nat) (a : Z) (i cnt : nat) (m : gmap Z Z) : option (gmap Z Z) :=
  match cnt with
  | O => Some m
  | S cnt' => m' ← store_unit m (a + Z.of_nat (i * n)) (replicate n 0); zero_units n a (S i) cnt' m'
  end.

Definition bzero (a len : Z) (m : gmap Z Z) : option (gmap Z Z) :=
  if (a mod 4 =? 0) && (len mod 4 =? 0) then zero_units 4 a 0 (Z.to_nat (len / 4)) m
  else zero_units 1 a 0 (Z.to_nat len) m.

(** ** C strings *)

(** The object [a] starts with the string [s]. *)
Definition cstr (a s : list Z) : Prop :=
  Forall (λ c, c ≠ 0) s ∧ ∃ rest, a = s ++ 0 :: rest.

Lemma cstr_cons c a s : cstr (c :: a) s → c ≠ 0 → ∃ s', s = c :: s' ∧ cstr a s'.
Proof.
  intros [Hs [rest Ha]] Hc. destruct s as [|c' s]; simplify_eq/=.
  apply Forall_cons in Hs as [? ?]. exists s. split; [done|]. split; [done|]. by exists rest.
Qed.

Lemma cstr_nil a : cstr (0 :: a) [].
Proof. split; [done|]. by exists a. Qed.

Lemma cstr_zero a s : cstr (0 :: a) s → s = [].
Proof. intros [Hs [rest Ha]]. destruct s; [done|]. apply Forall_cons in Hs as [? _]. by simplify_eq/=. Qed.

Lemma cstr_push c a s : c ≠ 0 → cstr a s → cstr (c :: a) (c :: s).
Proof. intros ? [? [rest ->]]. split; [by constructor|]. by exists rest. Qed.

Lemma cstr_inj a s t : cstr a s → cstr a t → s = t.
Proof.
  revert s t. induction a as [|c a IH]; intros s t Hs Ht.
  { destruct Hs as [_ [? Hs]]. by destruct s. }
  destruct (decide (c = 0)) as [->|Hc]; [by rewrite (cstr_zero _ _ Hs), (cstr_zero _ _ Ht)|].
  destruct (cstr_cons _ _ _ Hs Hc) as (s' & -> & ?). destruct (cstr_cons _ _ _ Ht Hc) as (t' & -> & ?).
  f_equal. auto.
Qed.

Lemma strlen_cstr a s : cstr a s → strlen a = Some (zlen s).
Proof.
  revert s. induction a as [|c a IH]; intros s Hs; [by destruct Hs as [_ [? Hs]]; destruct s|].
  simpl. destruct (Z.eqb_spec c 0) as [->|Hc]; [by rewrite (cstr_zero _ _ Hs)|].
  destruct (cstr_cons _ _ _ Hs Hc) as (s' & -> & Hs'). rewrite (IH _ Hs'). simpl.
  f_equal. unfold zlen. simpl. lia.
Qed.

Lemma s8_inj c d : is_u8 c → is_u8 d → s8 c = s8 d → c = d.
Proof.
  unfold is_u8, s8. change (2 ^ 7) with 128. change (2 ^ 8) with 256.
  intros Hc Hd Heq. Z.div_mod_to_equations. lia.
Qed.

Lemma s8_ascii c : 0 ≤ c < 128 → s8 c = c.
Proof. intros. unfold s8. rewrite Z.mod_small; lia. Qed.

(** Lexicographic order of strings of [char]s. *)
Fixpoint str_lt (s t : list Z) : Prop :=
  match s, t with
  | c :: s', d :: t' => s8 c < s8 d ∨ c = d ∧ str_lt s' t'
  | [], d :: _ => 0 < s8 d
  | c :: _, [] => s8 c < 0
  | [], [] => False
  end.

Lemma strcmp_spec a b s t :
  cstr a s → cstr b t → Forall is_u8 s → Forall is_u8 t →
  ∃ r, strcmp a b = Some r ∧ (r = 0 ↔ s = t) ∧ (r < 0 ↔ str_lt s t).
Proof.
  revert b s t. induction a as [|c a IH]; intros b s t Hs Ht Hus Hut.
  { destruct Hs as [_ [? Hs]]. by destruct s. }
  destruct b as [|d b]; [destruct Ht as [_ [? Ht]]; by destruct t|]. cbn [strcmp].
  destruct (decide (c = 0)) as [->|Hc].
  - rewrite (cstr_zero _ _ Hs) in *. destruct (decide (d = 0)) as [->|Hd].
    { rewrite (cstr_zero _ _ Ht). exists 0. done. }
    destruct (cstr_cons _ _ _ Ht Hd) as (t' & -> & _). apply Forall_cons in Hut as [Hud _].
    assert (s8 0 ≠ s8 d) as Hne by (intros Heq; apply Hd; symmetry; by apply s8_inj).
    change (s8 0) with 0 in *. change (negb (0 =? 0)) with false. cbn [andb str_lt]. rewrite Z.gtb_ltb.
    destruct (Z.ltb_spec (s8 d) 0), (Z.eqb_spec 0 (s8 d)); try lia;
      (eexists; split; [done|]); split; split; intros; try done; lia.
  - destruct (cstr_cons _ _ _ Hs Hc) as (s' & -> & Hs'). apply Forall_cons in Hus as [Huc Hus].
    rewrite (proj2 (Z.eqb_neq c 0) Hc). simpl.
    destruct (Z.eqb_spec c d) as [->|Hcd].
    + destruct (cstr_cons _ _ _ Ht Hc) as (t' & -> & Ht'). apply Forall_cons in Hut as [_ Hut].
      destruct (IH b s' t') as (r & Hr & H0 & Hlt); [done..|]. exists r. split; [done|]. simpl.
      split; [rewrite H0; naive_solver|]. rewrite Hlt. split; [auto|intros [?|[_ ?]]; [lia|done]].
    + assert (is_u8 d) as Hud.
      { destruct (decide (d = 0)) as [->|Hd]; [done|].
        destruct (cstr_cons _ _ _ Ht Hd) as (t' & -> & _). by apply Forall_cons in Hut as [? _]. }
      assert (s8 c ≠ s8 d) as Hne by (intros Heq; apply Hcd; by apply s8_inj).
      assert (str_lt (c :: s') t ↔ s8 c < s8 d) as Hord.
      { destruct (decide (d = 0)) as [->|Hd]; [by rewrite (cstr_zero _ _ Ht)|].
        destruct (cstr_cons _ _ _ Ht Hd) as (t' & -> & _). simpl. naive_solver. }
      assert (c :: s' ≠ t) as Hst.
      { intros <-. destruct (decide (d = 0)) as [->|Hd]; [by apply cstr_zero in Ht|].
        destruct (cstr_cons _ _ _ Ht Hd) as (t' & ? & _). congruence. }
      rewrite Z.gtb_ltb. destruct (Z.ltb_spec (s8 d) (s8 c)), (Z.eqb_spec (s8 c) (s8 d)); try lia;
        (eexists; split; [done|]); rewrite Hord; split; split; intros; try done; lia.
Qed.

(** [strcmp] decides the order of two strings: its result is 0 exactly when
    they are equal, negative exactly when the first comes before the second in
    the lexicographic order of [char]s, and it reads neither of them past its
    terminator. *)
Theorem strcmp_correct a b s t :
  cstr a s → cstr b t → Forall is_u8 s → Forall is_u8 t →
  ∃ r, strcmp a b = Some r ∧ (r = 0 ↔ s = t) ∧ (r < 0 ↔ str_lt s t).
Proof. apply strcmp_spec. Qed.

Lemma strcmp_correct_witness :
  ∃ r, strcmp [104; 105; 0; 7] [104; 111; 0] = Some r ∧ (r = 0 ↔ [104; 105] = [104; 111]) ∧
       (r < 0 ↔ str_lt [104; 105] [104; 111]).
Proof.
  apply (strcmp_correct [104; 105; 0; 7] [104; 111; 0] [104; 105] [104; 111]).
  - split; [repeat constructor; discriminate|by exists [7]].
  - split; [repeat constructor; discriminate|by exists []].
  - repeat constructor; discriminate.
  - repeat constructor; discriminate.
Defined.

(** ** Copying *)

Lemma strcpy_spec dest src s :
  cstr src s → zlen s < zlen dest →
  strcpy dest src = Some (s ++ 0 :: drop (S (length s)) dest).
Proof.
  revert dest s. induction src as [|c src IH]; intros dest s Hs Hlen.
  { destruct Hs as [_ [? Hs]]. by destruct s. }
  destruct dest as [|d dest]; [unfold zlen in Hlen; simpl in Hlen; lia|]. simpl.
  destruct (Z.eqb_spec c 0) as [->|Hc]; [by rewrite (cstr_zero _ _ Hs), drop_0|].
  destruct (cstr_cons _ _ _ Hs Hc) as (s' & -> & Hs').
  rewrite (IH dest s' Hs') by (unfold zlen in *; simpl in Hlen; lia). done.
Qed.

Lemma strcpy_short dest src s : cstr src s → zlen dest ≤ zlen s → strcpy dest src = None.
Proof.
  revert dest s. induction src as [|c src IH]; intros dest s Hs Hlen; [by destruct Hs as [_ [? Hs]]; destruct s|].
  destruct dest as [|d dest]; [done|]. simpl.
  destruct (Z.eqb_spec c 0) as [->|Hc].
  { rewrite (cstr_zero _ _ Hs) in Hlen. unfold zlen in Hlen. simpl in Hlen. lia. }
  destruct (cstr_cons _ _ _ Hs Hc) as (s' & -> & Hs').
  by rewrite (IH dest s' Hs') by (unfold zlen in *; simpl in Hlen; lia).
Qed.

Lemma cstr_app s rest : Forall (λ c, c ≠ 0) s → cstr (s ++ 0 :: rest) s.
Proof. intros. split; [done|]. by exists rest. Qed.

(** [strcat] appends.  When the destination object has room for both
    strings and one terminator it then starts with their concatenation, its
    bytes beyond the new terminator are unchanged, and its size is the same;
    when it has not, the copy runs off the object. *)
Theorem strcat_correct dest src s t :
  cstr dest s → cstr src t →
  if decide (zlen s + zlen t < zlen dest) then
    ∃ d, strcat dest src = Some d ∧ cstr d (s ++ t) ∧ zlen d = zlen dest ∧
      ∀ i, zlen s + zlen t < i → d !z i = dest !z i
  else strcat dest src = None.
Proof.
  intros Hs Ht. unfold strcat. rewrite (strlen_cstr _ _ Hs). simpl.
  assert (Z.to_nat (zlen s) = length s) as -> by (unfold zlen; lia).
  destruct (Hs) as [Hs0 [rest ->]]. rewrite drop_app_length, take_app_length. pose proof (zlen_nonneg t) as Ht0.
  assert (zlen (0 :: rest) = zlen rest + 1) as Hr by (unfold zlen; rewrite length_cons; lia).
  rewrite zlen_app, Hr. case_decide as Hfit.
  - rewrite (strcpy_spec _ _ _ Ht) by lia. simpl.
    eexists. split; [done|]. rewrite app_assoc. split_and!.
    + apply cstr_app. apply Forall_app. split; [done|apply Ht].
    + rewrite !zlen_app. unfold zlen in *. simpl. rewrite length_drop. lia.
    + intros i Hi. unfold zlen in *. rewrite !zlookup_nat by lia.
      rewrite lookup_app_r by (rewrite length_app; lia). rewrite length_app.
      rewrite lookup_app_r by lia.
      replace (Z.to_nat i - (length s + length t))%nat with (S (Z.to_nat i - length s - length t - 1)) by lia.
      replace (Z.to_nat i - length s)%nat with (S (length t + (Z.to_nat i - length s - length t - 1))) by lia.
      simpl. rewrite lookup_drop. f_equal. lia.
  - by rewrite (strcpy_short _ _ _ Ht) by lia.
Qed.

Lemma strcat_correct_witness :
  ∃ d, strcat [104; 0; 7; 8; 9] [105; 0] = Some d ∧ cstr d [104; 105] ∧ zlen d = 5 ∧
      ∀ i, 1 + 1 < i → d !z i = [104; 0; 7; 8; 9] !z i.
Proof.
  assert (cstr [104; 0; 7; 8; 9] [104]) as H1 by (split; [repeat constructor; discriminate|by exists [7; 8; 9]]).
  assert (cstr [105; 0] [105]) as H2 by (split; [repeat constructor; discriminate|by exists []]).
  exact (strcat_correct [104; 0; 7; 8; 9] [105; 0] [104] [105] H1 H2).
Defined.

(** ** Searching *)

Lemma strchr_None a s ch :
  cstr a s → ch ≠ 0 → (∀ c, c ∈ s → s8 c ≠ ch) → strchr a ch = Some None.
Proof.
  revert s. induction a as [|c a IH]; intros s Hs Hch Hno; [by destruct Hs as [_ [? Hs]]; destruct s|].
  simpl. destruct (Z.eqb_spec c 0) as [->|Hc].
  { change (s8 0) with 0. by rewrite (proj2 (Z.eqb_neq 0 ch)) by done. }
  destruct (cstr_cons _ _ _ Hs Hc) as (s' & -> & Hs').
  rewrite (proj2 (Z.eqb_neq (s8 c) ch)) by (apply Hno; left).
  rewrite (IH s' Hs' Hch); [done|]. intros d Hd. apply Hno. by right.
Qed.

Lemma strchr_Some a s1 c s2 ch :
  cstr a (s1 ++ c :: s2) → s8 c = ch → (∀ d, d ∈ s1 → s8 d ≠ ch) →
  strchr a ch = Some (Some (length s1)).
Proof.
  revert s1. induction a as [|x a IH]; intros s1 Hs Hc Hno; [by destruct Hs as [_ [? Hs]]; destruct s1|].
  assert (x ≠ 0) as Hx by (intros ->; apply cstr_zero in Hs; by destruct s1).
  destruct (cstr_cons _ _ _ Hs Hx) as (s' & Heq & Hs'). simpl. rewrite (proj2 (Z.eqb_neq x 0)) by done.
  destruct s1 as [|y s1]; simplify_eq/=; [by rewrite Z.eqb_refl|].
  rewrite (proj2 (Z.eqb_neq _ (s8 c))) by (apply Hno; left).
  rewrite (IH s1); [done|done|done|]. intros d Hd. apply Hno. by right.
Qed.

(** Membership, as the tokenizer and [atoi] use it. *)
Lemma strchr_mem a s ch :
  cstr a s → ch ≠ 0 → ∃ r, strchr a ch = Some r ∧ (is_Some r ↔ ∃ c, c ∈ s ∧ s8 c = ch).
Proof.
  revert s. induction a as [|c a IH]; intros s Hs Hch; [by destruct Hs as [_ [? Hs]]; destruct s|].
  simpl. destruct (Z.eqb_spec c 0) as [->|Hc].
  { rewrite (cstr_zero _ _ Hs). change (s8 0) with 0. rewrite (proj2 (Z.eqb_neq 0 ch)) by done.
    exists None. split; [done|]. split; [by intros []|]. by intros (c & Hc%elem_of_nil & _). }
  destruct (cstr_cons _ _ _ Hs Hc) as (s' & -> & Hs'). destruct (Z.eqb_spec (s8 c) ch) as [He|Hne].
  - exists (Some O). split; [done|]. split; [|done]. intros _. exists c. split; [left|done].
  - destruct (IH s' Hs' Hch) as (r & -> & Hr). simpl. eexists. split; [done|].
    rewrite fmap_is_Some, Hr. setoid_rewrite elem_of_cons. naive_solver.
Qed.

(** ** Words *)

(** [is_sep seps c]: the character is one of the separators. *)
Definition is_sep (seps : list Z) (c : Z) : bool := bool_decide (c ∈ seps).

(** The words of a string, with separators skipped in front of each. *)
Fixpoint words_from (seps : list Z) (s : list Z) (word : list Z) : list (list Z) :=
  match s with
  | [] => match word with [] => [] | _ => [word] end
  | c :: s' =>
      if is_sep seps c then
        match word with [] => words_from seps s' [] | _ => word :: words_from seps s' [] end
      else words_from seps s' (word ++ [c])
  end.
Definition words (seps s : list Z) : list (list Z) := words_from seps s [].

Lemma words_sep seps c s : is_sep seps c = true → words seps (c :: s) = words seps s.
Proof. intros Hc. unfold words. simpl. by rewrite Hc. Qed.

Lemma words_from_word seps w s word :
  Forall (λ c, is_sep seps c = false) w → words_from seps (w ++ s) word = words_from seps s (word ++ w).
Proof.
  intros Hw. revert word. induction Hw as [|c w Hc Hw IH]; intros word; simpl; [by rewrite app_nil_r|].
  rewrite Hc, IH. by rewrite <- app_assoc.
Qed.

Lemma words_word seps w c s :
  w ≠ [] → Forall (λ c, is_sep seps c = false) w → is_sep seps c = true →
  words seps (w ++ c :: s) = w :: words seps s.
Proof.
  intros Hne Hw Hc. unfold words. rewrite words_from_word by done. simpl. rewrite Hc. by destruct w.
Qed.

Lemma words_last seps w : w ≠ [] → Forall (λ c, is_sep seps c = false) w → words seps w = [w].
Proof.
  intros Hne Hw. unfold words. rewrite <- (app_nil_r w) at 1. rewrite words_from_word by done.
  simpl. by destruct w.
Qed.

Lemma s8_zero c : is_u8 c → c ≠ 0 → s8 c ≠ 0.
Proof. intros Hu Hc Heq. apply Hc. by apply s8_inj. Qed.

(** The scans of [strtok_r] split the string. *)
Lemma span_seps_spec want seps sp a s :
  cstr seps sp → Forall is_u8 sp → cstr a s → Forall is_u8 s →
  ∃ s1 s2, s = s1 ++ s2 ∧ span_seps want seps a = Some (length s1) ∧ cstr (drop (length s1) a) s2 ∧
    Forall (λ c, is_sep sp c = want) s1 ∧
    (∀ c s3, s2 = c :: s3 → is_sep sp c = negb want).
Proof.
  intros Hsp Husp. revert s. induction a as [|c a IH]; intros s Hs Hus; [by destruct Hs as [_ [? Hs]]; destruct s|].
  simpl. destruct (Z.eqb_spec c 0) as [->|Hc].
  { pose proof (cstr_zero _ _ Hs) as ->. exists [], []. split_and!; try done. }
  destruct (cstr_cons _ _ _ Hs Hc) as (s' & -> & Hs'). apply Forall_cons in Hus as [Huc Hus].
  destruct (strchr_mem seps sp (s8 c) Hsp (s8_zero c Huc Hc)) as (r & -> & Hr). simpl.
  assert (bool_decide (is_Some r) = is_sep sp c) as ->.
  { unfold is_sep. apply bool_decide_ext. rewrite Hr. split; [|by exists c].
    intros (d & Hd & Heq). rewrite Forall_forall in Husp. by rewrite <- (s8_inj d c); auto. }
  destruct (Bool.eqb want (is_sep sp c)) eqn:Hw.
  - apply eqb_prop in Hw. destruct (IH s' Hs' Hus) as (s1 & s2 & -> & -> & Hd & Hall & Hnext). simpl.
    exists (c :: s1), s2. split_and!; try done. by constructor.
  - exists [], (c :: s'). split_and!; try done. intros d s3 [= <- <-].
    by destruct want, (is_sep sp c).
Qed.

(** What is left to tokenize: [s], from the context on. *)
Definition tok_rest (st : list Z * option nat) (s : list Z) : Prop :=
  match st.2 with
  | None => s = []
  | Some h => cstr (drop h st.1) s ∧ (h < length st.1)%nat
  end.

Lemma cstr_head a s : cstr a s → ∃ c, a !! 0%nat = Some c ∧ (c = 0 ↔ s = []) ∧ ∀ d s', s = d :: s' → c = d.
Proof. intros [Hs [rest ->]]. destruct s as [|d s]; [by exists 0|]. exists d. apply Forall_cons in Hs as [? _]. split; naive_solver. Qed.

Lemma cstr_skip a s1 s2 : cstr a (s1 ++ s2) → cstr (drop (length s1) a) s2.
Proof.
  intros [[_ Hs2]%Forall_app [rest ->]]. rewrite <- app_assoc, drop_app_length. by apply cstr_app.
Qed.

Lemma strtok_head buf h s1 s2 :
  cstr (drop h buf) (s1 ++ s2) → (h < length buf)%nat →
  ∃ c, buf !! (h + length s1)%nat = Some c ∧ (c = 0 ↔ s2 = []) ∧ cstr (drop (h + length s1) buf) s2.
Proof.
  intros Hs Hh. apply cstr_skip in Hs. rewrite drop_drop in Hs.
  destruct (cstr_head _ _ Hs) as (c & Hc & Hz & _). exists c. split; [|done].
  rewrite lookup_drop in Hc. rewrite <- Hc. f_equal. lia.
Qed.

Lemma words_skip sp s1 s2 : Forall (λ c, is_sep sp c = true) s1 → words sp (s1 ++ s2) = words sp s2.
Proof. induction 1 as [|c s1 Hc _ IH]; [done|]. simpl. by rewrite words_sep. Qed.

(** Ending a word in place. *)
Lemma strtok_cut buf head w c s :
  cstr (drop head buf) (w ++ c :: s) → (head < length buf)%nat →
  let buf' := <[(head + length w)%nat := 0]> buf in
  cstr (drop head buf') w ∧ cstr (drop (S (head + length w)) buf') s ∧ take head buf' = take head buf ∧
  (S (head + length w) < length buf')%nat.
Proof.
  intros [Hall [rest Heq]] Hlen buf'. apply Forall_app in Hall as [Hw Hcs].
  apply Forall_cons in Hcs as [_ Hs].
  assert (drop head buf' = w ++ 0 :: s ++ 0 :: rest) as Hd.
  { unfold buf'. rewrite drop_insert_ge by lia. rewrite Heq, <- app_assoc.
    replace (head + length w - head)%nat with (length w + 0)%nat by lia.
    rewrite insert_app_r. done. }
  split_and!.
  - rewrite Hd. by apply cstr_app.
  - replace (S (head + length w)) with (head + S (length w))%nat by lia. rewrite <- drop_drop, Hd.
    change (0 :: s ++ 0 :: rest) with ([0] ++ s ++ 0 :: rest). rewrite app_assoc, drop_app_length'.
    + by apply cstr_app.
    + rewrite length_app. simpl. lia.
  - unfold buf'. apply take_insert_ge. lia.
  - pose proof (f_equal length Hd) as Hl. rewrite length_drop, length_app, length_cons, length_app, length_cons in Hl. lia.
Qed.

(** Where a word was found and what was written: it starts at or after the
    context [h0], the string it is in ends where it did, and nothing behind that
    end changes. *)
Definition tok_moved (h0 : nat) (s buf : list Z) (h : nat) (w s' buf' : list Z) (ctx' : option nat) : Prop :=
  (h0 ≤ h)%nat ∧ length buf' = length buf ∧
  drop (h0 + length s) buf' = drop (h0 + length s) buf ∧ (length s' < length s)%nat ∧
  match ctx' with
  | None => (h + length w = h0 + length s)%nat
  | Some c => (h + length w < c)%nat ∧ (c + length s' = h0 + length s)%nat
  end.

Lemma strtok_r_spec start seps sp buf ctx s Q :
  cstr seps sp → Forall is_u8 sp → Forall is_u8 s →
  tok_rest (buf, if (start : bool) then Some O else ctx) s →
  (words sp s = [] → Q (Ret None) (buf, None)) →
  (∀ h0 h w s' buf' ctx', words sp s = w :: words sp s' → cstr (drop h buf') w →
     take h buf' = take h buf → tok_rest (buf', ctx') s' → Forall is_u8 s' →
     (if start then Some O else ctx) = Some h0 → tok_moved h0 s buf h w s' buf' ctx' →
     Q (Ret (Some h)) (buf', ctx')) →
  wp (strtok_r start seps) Q (buf, ctx).
Proof.
  intros Hsp Husp Hus Hrest HN HS. unfold strtok_r. wp_step. wp_step.
  destruct (if start then Some O else ctx) as [h0|] eqn:Hctx.
  2: { unfold tok_rest in Hrest. cbn [snd] in Hrest. subst s. wp_step. destruct start; [done|]. subst ctx. by apply HN. }
  destruct Hrest as [Hs Hlen]. simpl in Hs, Hlen.
  destruct (span_seps_spec true seps sp _ _ Hsp Husp Hs Hus) as (s1 & s2 & -> & Hn & Hs2 & Hsep1 & Hnext).
  wp_step. eapply wp_deref; [done|]. wp_step.
  destruct (strtok_head _ _ _ _ Hs Hlen) as (c & Hc & Hz & Hs2'). eapply wp_deref; [done|].
  rewrite (words_skip sp s1 s2 Hsep1) in HN, HS. apply Forall_app in Hus as [_ Hus2].
  pose proof (lookup_lt_Some _ _ _ Hc) as Hlt.
  destruct (Z.eqb_spec c 0) as [->|Hc0].
  { wp_steps. apply HN. by rewrite (proj1 Hz eq_refl). }
  destruct (span_seps_spec false seps sp _ _ Hsp Husp Hs2' Hus2) as (w & s3 & -> & Hm & _ & Hw & Hnext3).
  assert (w ≠ []) as Hne.
  { intros ->. destruct s3 as [|d s3]; [by apply Hc0, Hz|].
    specialize (Hnext d s3 eq_refl). specialize (Hnext3 d s3 eq_refl). simpl in *. congruence. }
  wp_step. eapply wp_deref; [done|]. wp_step.
  destruct (strtok_head _ _ _ _ Hs2' Hlt) as (c' & Hc' & Hz' & Hs3). eapply wp_deref; [done|].
  destruct (Z.eqb_spec c' 0) as [->|Hc'0]; wp_steps.
  - pose proof (proj1 Hz' eq_refl) as ->. rewrite app_nil_r in *.
    apply (HS h0 _ w []); [by apply words_last|done..|done|done|done|].
    unfold tok_moved. rewrite length_app. destruct w; [done|]. simpl. split_and!; lia || done.
  - destruct s3 as [|d s3]; [by destruct Hc'0; apply Hz'|].
    destruct (strtok_cut buf (h0 + length s1) w d s3 Hs2' Hlt) as (Hcw & Hcs & Htk & Hle).
    apply Forall_app in Hus2 as [_ [_ Hus3]%Forall_cons].
    apply (HS h0 _ w s3); [apply words_word; [done|done|by apply (Hnext3 d s3)]|done|done|by split|done|done|].
    unfold tok_moved. rewrite !length_app, length_insert. simpl. split_and!; [lia|done| |lia..].
    apply drop_insert_lt. lia.
Qed.

(** [strtok_r] splits a string into its words.  Called with a string, or
    again with the context of the call before, it returns [NULL] when no word is
    left, and otherwise the position of a string that is the next word of what
    was left; what is left afterwards has the remaining words, and the words
    found before are not disturbed.  It never leaves the string. *)
Theorem strtok_r_correct start seps sp buf ctx s :
  cstr seps sp → Forall is_u8 sp → Forall is_u8 s →
  tok_rest (buf, if (start : bool) then Some O else ctx) s →
  match strtok_r start seps (buf, ctx) with
  | (Ret None, st') => words sp s = [] ∧ st' = (buf, None)
  | (Ret (Some h), st') =>
      ∃ w s', words sp s = w :: words sp s' ∧ cstr (drop h st'.1) w ∧ tok_rest st' s' ∧
              take h st'.1 = take h buf
  | _ => False
  end.
Proof.
  intros Hsp Husp Hus Hrest.
  eapply (wp_elim (strtok_r start seps)
    (λ r st', match r with Ret None => _ | Ret (Some h) => _ | _ => False end)).
  eapply strtok_r_spec; [done..| |]; [done|]. intros h0 h w s' buf' ctx' ? ? ? ? _ _ _. by exists w, s'.
Qed.

Lemma strtok_r_correct_witness :
  match strtok_r true [32; 0] ([32; 97; 98; 32; 99; 0], None) with
  | (Ret None, st') => words [32] [32; 97; 98; 32; 99] = [] ∧ st' = ([32; 97; 98; 32; 99; 0], None)
  | (Ret (Some h), st') =>
      ∃ w s', words [32] [32; 97; 98; 32; 99] = w :: words [32] s' ∧ cstr (drop h st'.1) w ∧ tok_rest st' s' ∧
              take h st'.1 = take h [32; 97; 98; 32; 99; 0]
  | _ => False
  end.
Proof.
  apply (strtok_r_correct true [32; 0] [32] [32; 97; 98; 32; 99; 0] None [32; 97; 98; 32; 99]).
  - split; [repeat constructor; discriminate|by exists []].
  - repeat constructor; discriminate.
  - repeat constructor; discriminate.
  - split; [|simpl; lia]. split; [repeat constructor; discriminate|by exists []].
Defined.

(** ** Numbers *)

Definition is_digit (c : Z) : Prop := 48 ≤ c ≤ 57.

(** The value of a string of decimal digits. *)
Definition dec_value (ds : list Z) : Z := foldl (λ v c, v * 10 + (c - 48)) 0 ds.

Lemma strchr_digit c : is_digit c → strchr digits (s8 c) = Some (Some (Z.to_nat (c - 48))).
Proof.
  unfold is_digit. intros Hc. rewrite s8_ascii by lia.
  assert (∃ k, c = 48 + Z.of_nat k ∧ (k < 10)%nat) as (k & -> & Hk) by (exists (Z.to_nat (c - 48)); lia).
  do 10 (destruct k as [|k]; [done|]). lia.
Qed.

Lemma strchr_not_digit c : is_u8 c → c ≠ 0 → ¬ is_digit c → strchr digits (s8 c) = Some None.
Proof.
  intros Hu Hc Hd. apply (strchr_None digits [48; 49; 50; 51; 52; 53; 54; 55; 56; 57]).
  - split; [repeat constructor; discriminate|by exists []].
  - by apply s8_zero.
  - intros d Hin Heq. apply Hd. assert (d = c) as <-.
    { apply s8_inj; [|done|done]. revert Hin. rewrite !elem_of_cons, elem_of_nil. unfold is_u8. lia. }
    revert Hin. rewrite !elem_of_cons, elem_of_nil. unfold is_digit. lia.
Qed.

Lemma u32_step v w k : u32 v = u32 w → u32 (u32 (v * 10) + k) = u32 (w * 10 + k).
Proof.
  unfold u32. intros Heq. rewrite Zplus_mod_idemp_l, Zplus_mod, Zmult_mod, Heq.
  by rewrite <- Zmult_mod, <- Zplus_mod.
Qed.

Lemma atoi_digits_spec a ds rest v w :
  cstr a (ds ++ rest) → Forall is_digit ds → Forall is_u8 rest →
  (∀ c r, rest = c :: r → ¬ is_digit c) → u32 v = v → u32 w = v →
  atoi_digits a v = Some (u32 (foldl (λ v c, v * 10 + (c - 48)) w ds)).
Proof.
  revert ds v w. induction a as [|c a IH]; intros ds v w Hs Hds Hur Hrest Hv Hw.
  { destruct Hs as [_ [? Hs]]. by destruct ds, rest. }
  cbn [atoi_digits]. destruct (Z.eqb_spec c 0) as [->|Hc].
  { apply cstr_zero in Hs. apply app_eq_nil in Hs as [-> ->]. simpl. congruence. }
  destruct (cstr_cons _ _ _ Hs Hc) as (s' & Heq & Hs'). destruct ds as [|d ds]; cbn [app] in Heq; simplify_eq.
  - rewrite strchr_not_digit; [simpl; congruence| |done|by eapply Hrest]. by apply Forall_cons in Hur as [? _].
  - apply Forall_cons in Hds as [Hd Hds]. rewrite strchr_digit by done. simpl.
    rewrite Z2Nat.id by (unfold is_digit in Hd; lia).
    apply IH; [done..| |].
    + unfold u32. by rewrite Zmod_mod.
    + symmetry. apply u32_step. congruence.
Qed.

Lemma atoi_space_spec a sp s c r :
  cstr a (sp ++ s) → Forall (λ c, c = 32 ∨ c = 9) sp → s = c :: r → c ≠ 32 → c ≠ 9 →
  ∃ a', atoi_space a = Some a' ∧ cstr a' s.
Proof.
  intros Hs Hsp -> H32 H9. revert sp Hs Hsp. induction a as [|x a IH]; intros sp Hs Hsp.
  { destruct Hs as [_ [? Hs]]. by destruct sp. }
  assert (x ≠ 0) as Hx by (intros ->; apply cstr_zero in Hs; by destruct sp).
  destruct (cstr_cons _ _ _ Hs Hx) as (s' & Heq & Hs'). simpl. destruct sp as [|y sp]; simplify_eq/=.
  - rewrite (proj2 (Z.eqb_neq _ 32)), (proj2 (Z.eqb_neq _ 9)) by done. eauto.
  - apply Forall_cons in Hsp as [Hy Hsp]. destruct Hy as [-> | ->]; simpl; by eapply IH.
Qed.

Lemma atoi_spec a sp (neg : bool) ds rest :
  cstr a (sp ++ (if neg then [45] else []) ++ ds ++ rest) →
  Forall (λ c, c = 32 ∨ c = 9) sp → Forall is_digit ds → ds ≠ [] → Forall is_u8 rest →
  (∀ c r, rest = c :: r → ¬ is_digit c) →
  atoi a = Some (s32 (if neg then - u32 (dec_value ds) else u32 (dec_value ds))).
Proof.
  intros Hs Hsp Hds Hne Hur Hrest. destruct ds as [|d ds]; [done|]. apply Forall_cons in Hds as [Hd Hds].
  unfold is_digit in Hd. unfold atoi. destruct neg.
  - destruct (atoi_space_spec a sp ([45] ++ (d :: ds) ++ rest) 45 ((d :: ds) ++ rest)) as (a' & -> & Ha'); [done..|].
    destruct a' as [|x a']; [by destruct Ha' as [_ [? ?]]|].
    destruct (decide (x = 0)) as [->|Hx]; [by apply cstr_zero in Ha'|].
    destruct (cstr_cons _ _ _ Ha' Hx) as (s' & [= <- <-] & Hs'). simpl mbind. cbn [Z.eqb Pos.eqb].
    rewrite (atoi_digits_spec a' (d :: ds) rest 0 0) by (done || by constructor). done.
  - destruct (atoi_space_spec a sp ((d :: ds) ++ rest) d (ds ++ rest)) as (a' & -> & Ha'); [done|done|done|lia|lia|].
    destruct a' as [|x a']; [by destruct Ha' as [_ [? ?]]|].
    assert (x ≠ 0) as Hx by (intros ->; by apply cstr_zero in Ha').
    destruct (cstr_cons _ _ _ Ha' Hx) as (s' & [= <- <-] & Hs').
    cbn [mbind option_bind]. rewrite (proj2 (Z.eqb_neq d 45)) by lia.
    rewrite (atoi_digits_spec (d :: a') (d :: ds) rest 0 0) by (done || by constructor). done.
Qed.

(** [atoi] reads a decimal number.  Blanks and tabs in front are skipped, a
    minus sign negates, the digits end at the first other character; the result
    is the number whenever it fits an [int], and otherwise the number modulo 2^32. *)
Theorem atoi_correct a sp (neg : bool) ds rest :
  cstr a (sp ++ (if neg then [45] else []) ++ ds ++ rest) →
  Forall (λ c, c = 32 ∨ c = 9) sp → Forall is_digit ds → ds ≠ [] → Forall is_u8 rest →
  (∀ c r, rest = c :: r → ¬ is_digit c) →
  let n := if neg then - dec_value ds else dec_value ds in
  ∃ v, atoi a = Some v ∧ - 2 ^ 31 ≤ v < 2 ^ 31 ∧ (v - n) mod 2 ^ 32 = 0 ∧
       (- 2 ^ 31 ≤ n < 2 ^ 31 → v = n).
Proof.
  intros Hs Hsp Hds Hne Hur Hrest n. pose proof (atoi_spec _ _ _ _ _ Hs Hsp Hds Hne Hur Hrest) as Ha.
  assert (s32 (if neg then - u32 (dec_value ds) else u32 (dec_value ds)) = s32 n) as He.
  { unfold n. clear. destruct neg; unfold s32, u32; change (2 ^ 31) with 2147483648;
      change (2 ^ 32) with 4294967296; Z.div_mod_to_equations; lia. }
  rewrite He in Ha. exists (s32 n). split_and!; [done|apply s32_range..| |apply s32_small].
  unfold s32. change (2 ^ 31) with 2147483648. change (2 ^ 32) with 4294967296. clear.
  Z.div_mod_to_equations. lia.
Qed.

Lemma atoi_correct_witness :
  ∃ v, atoi [32; 45; 52; 50; 120; 0] = Some v ∧ - 2 ^ 31 ≤ v < 2 ^ 31 ∧ (v - - 42) mod 2 ^ 32 = 0 ∧
       (- 2 ^ 31 ≤ - 42 < 2 ^ 31 → v = - 42).
Proof.
  apply (atoi_correct [32; 45; 52; 50; 120; 0] [32] true [52; 50] [120]).
  - split; [repeat constructor; discriminate|by exists []].
  - repeat constructor.
  - repeat constructor; discriminate.
  - discriminate.
  - repeat constructor; discriminate.
  - intros c r [= <- <-] [? Hd]. by apply Hd.
Defined.

(** ** Moving memory *)

(** [m'] is [m] with [len] bytes at [dst] replaced by the bytes of [m0] at
    [src]. *)
Definition moved (m0 m m' : gmap Z Z) (dst src len : Z) : Prop :=
  ∀ a, m' !! a = if decide (dst ≤ a < dst + len) then m0 !! (src + (a - dst)) else m !! a.

Definition mapped (m : gmap Z Z) (a len : Z) : Prop := ∀ k, 0 ≤ k < len → is_Some (m !! (a + k)).

Lemma load_unit_spec m a n :
  mapped m a (Z.of_nat n) →
  ∃ bs, load_unit m a n = Some bs ∧ length bs = n ∧ ∀ k, 0 ≤ k < Z.of_nat n → bs !z k = m !! (a + k).
Proof.
  intros Hm. unfold load_unit.
  assert (is_Some (mapM (λ k, m !! (a + k)) (seqZ 0 (Z.of_nat n)))) as [bs Hbs].
  { apply mapM_is_Some_2. apply Forall_forall. intros k Hk%elem_of_seqZ. apply Hm. lia. }
  exists bs. pose proof (proj1 (mapM_Some _ _ _) Hbs) as Hf.
  pose proof (Forall2_length _ _ _ Hf) as Hl. rewrite length_seqZ, Nat2Z.id in Hl.
  split; [done|]. split; [done|]. intros k Hk. rewrite zlookup_nat by lia.
  destruct (lookup_lt_is_Some_2 bs (Z.to_nat k)) as [b Hb]; [lia|]. rewrite Hb.
  destruct (Forall2_lookup_r _ _ _ _ _ Hf Hb) as (j & [-> _]%lookup_seqZ & Hj). rewrite <- Hj.
  f_equal. lia.
Qed.

Lemma store_unit_spec bs : ∀ m a,
  mapped m a (zlen bs) →
  ∃ m', store_unit m a bs = Some m' ∧
    ∀ x, m' !! x = if decide (a ≤ x < a + zlen bs) then bs !z (x - a) else m !! x.
Proof.
  induction bs as [|b bs IH]; intros m a Hm; cbn [store_unit].
  { exists m. split; [done|]. intros x. change (zlen []) with 0. by rewrite decide_False by lia. }
  assert (zlen (b :: bs) = zlen bs + 1) as Hl by (unfold zlen; simpl; lia). rewrite Hl in *.
  pose proof (zlen_nonneg bs).
  destruct (Hm 0) as [b0 Hb0]; [lia|]. rewrite Z.add_0_r in Hb0. rewrite Hb0. cbn [mbind option_bind].
  destruct (IH (<[a := b]> m) (a + 1)) as (m' & -> & Hm').
  { intros k Hk. destruct (Hm (k + 1)) as [c Hc]; [lia|].
    rewrite lookup_insert_ne by lia. exists c. rewrite <- Hc. f_equal. lia. }
  exists m'. split; [done|]. intros x. rewrite Hm'. destruct (decide (x = a)) as [->|Hne].
  - rewrite decide_False, decide_True by lia. rewrite lookup_insert_eq, Z.sub_diag. done.
  - rewrite lookup_insert_ne by done. rewrite (decide_ext (a + 1 ≤ x < a + 1 + zlen bs) (a ≤ x < a + (zlen bs + 1))) by lia.
    case_decide; [|done]. rewrite !zlookup_nat by lia.
    by replace (Z.to_nat (x - a)) with (S (Z.to_nat (x - (a + 1)))) by lia.
Qed.

(** One element: in a memory that still holds the source element. *)
Lemma copy_unit_spec n dst src i m :
  mapped m (src + Z.of_nat (i * n)) (Z.of_nat n) → mapped m (dst + Z.of_nat (i * n)) (Z.of_nat n) →
  ∃ m', copy_unit n dst src i m = Some m' ∧
        moved m m m' (dst + Z.of_nat (i * n)) (src + Z.of_nat (i * n)) (Z.of_nat n).
Proof.
  intros Hs Hd. unfold copy_unit.
  destruct (load_unit_spec m (src + Z.of_nat (i * n)) n) as (bs & -> & Hl & Hbs); [done|].
  cbn [mbind option_bind].
  destruct (store_unit_spec bs m (dst + Z.of_nat (i * n))) as (m' & -> & Hm'); [unfold zlen; by rewrite Hl|].
  exists m'. split; [done|]. intros x. rewrite Hm'. unfold zlen. rewrite Hl. case_decide; [|done].
  rewrite Hbs by lia. done.
Qed.

Lemma moved_mapped m0 m m' dst src len a n :
  moved m0 m m' dst src len → mapped m0 src len → mapped m a n → mapped m' a n.
Proof.
  intros Hmv H0 Hm k Hk. rewrite Hmv. case_decide; [apply H0; lia|auto].
Qed.

(** Upwards is right when the destination is below the source. *)
Lemma copy_up_spec n dst src m0 cnt : dst ≤ src → ∀ i m,
  mapped m0 src (Z.of_nat ((i + cnt) * n)) → mapped m0 dst (Z.of_nat ((i + cnt) * n)) →
  moved m0 m0 m dst src (Z.of_nat (i * n)) →
  ∃ m', copy_up n dst src i cnt m = Some m' ∧ moved m0 m0 m' dst src (Z.of_nat ((i + cnt) * n)).
Proof.
  intros Hle. induction cnt as [|cnt IH]; intros i m Hs Hd Hmv; cbn [copy_up].
  { exists m. by rewrite Nat.add_0_r. }
  assert (mapped m0 src (Z.of_nat (i * n))) as Hsi by (intros k Hk; apply Hs; nia).
  assert (mapped m (src + Z.of_nat (i * n)) (Z.of_nat n)) as Hms.
  { eapply moved_mapped; [exact Hmv|done|]. intros k Hk. rewrite <- Z.add_assoc. apply Hs. nia. }
  assert (mapped m (dst + Z.of_nat (i * n)) (Z.of_nat n)) as Hmd.
  { eapply moved_mapped; [exact Hmv|done|]. intros k Hk. rewrite <- Z.add_assoc. apply Hd. nia. }
  destruct (copy_unit_spec n dst src i m Hms Hmd) as (m' & -> & Hm'). cbn [mbind option_bind].
  replace (i + S cnt)%nat with (S i + cnt)%nat in * by lia. apply IH; [done|done|].
  intros a. rewrite Hm'. case_decide as Ha.
  - rewrite decide_True by nia. rewrite Hmv, decide_False by lia. f_equal. lia.
  - rewrite Hmv. destruct (decide (dst ≤ a < dst + Z.of_nat (i * n))).
    + by rewrite decide_True by nia.
    + by rewrite decide_False by nia.
Qed.

(** Downwards when it is above. *)
Lemma copy_down_spec n dst src m0 total : src ≤ dst → ∀ i m, (i ≤ total)%nat →
  mapped m0 src (Z.of_nat (total * n)) → mapped m0 dst (Z.of_nat (total * n)) →
  (∀ a, m !! a = if decide (dst + Z.of_nat (i * n) ≤ a < dst + Z.of_nat (total * n))
                 then m0 !! (src + (a - dst)) else m0 !! a) →
  ∃ m', copy_down n dst src i m = Some m' ∧ moved m0 m0 m' dst src (Z.of_nat (total * n)).
Proof.
  intros Hle. induction i as [|i IH]; intros m Hi Hs Hd Hmv; cbn [copy_down].
  { exists m. split; [done|]. intros a. rewrite Hmv. by rewrite Z.add_0_r. }
  assert (∀ b, (∀ k, 0 ≤ k < Z.of_nat (total * n) → is_Some (m0 !! (b + k))) →
    mapped m (b + Z.of_nat (i * n)) (Z.of_nat n)) as Hmap.
  { intros b Hb k Hk. rewrite Hmv. case_decide; [apply Hs; nia|]. rewrite <- Z.add_assoc. apply Hb. nia. }
  destruct (copy_unit_spec n dst src i m (Hmap src Hs) (Hmap dst Hd)) as (m' & -> & Hm'). cbn [mbind option_bind].
  apply IH; [lia|done|done|]. intros a. rewrite Hm'. case_decide as Ha.
  - rewrite decide_True by nia. rewrite Hmv, decide_False by nia. f_equal. lia.
  - rewrite Hmv. destruct (decide (dst + Z.of_nat (S i * n) ≤ a < dst + Z.of_nat (total * n))).
    + by rewrite decide_True by nia.
    + by rewrite decide_False by nia.
Qed.

Lemma aligned_len dst src len :
  0 ≤ len → word_aligned dst src len = true → Z.of_nat (Z.to_nat (len / 4) * 4) = len.
Proof. unfold word_aligned. intros Hl Ha. assert (len mod 4 = 0) by lia. Z.div_mod_to_equations. lia. Qed.

Lemma byte_len len : 0 ≤ len → Z.of_nat (Z.to_nat len * 1) = len.
Proof. lia. Qed.

Lemma moved_refl m dst src : moved m m m dst src 0.
Proof. intros a. by rewrite decide_False by lia. Qed.

Lemma memcpy_up dst src len m :
  0 ≤ len → dst ≤ src → mapped m src len → mapped m dst len →
  ∃ m', memcpy dst src len m = Some m' ∧ moved m m m' dst src len.
Proof.
  intros Hlen Hle Hs Hd. unfold memcpy. destruct (word_aligned dst src len) eqn:Ha.
  - pose proof (aligned_len _ _ _ Hlen Ha) as Hl.
    pose proof (copy_up_spec 4 dst src m (Z.to_nat (len / 4)) Hle 0 m) as Hup.
    simpl Nat.add in Hup. rewrite Hl in Hup. apply Hup; [done..|apply moved_refl].
  - pose proof (copy_up_spec 1 dst src m (Z.to_nat len) Hle 0 m) as Hup.
    simpl Nat.add in Hup. rewrite byte_len in Hup by done. apply Hup; [done..|apply moved_refl].
Qed.

(** [memmove] moves memory, also when the two regions overlap in either
    direction and whether it copies bytes or words: the destination afterwards
    holds what the source held before the call, and no other byte changes. *)
Theorem memmove_correct dst src len m :
  0 ≤ len → mapped m src len → mapped m dst len →
  ∃ m', memmove dst src len m = Some m' ∧
    ∀ a, m' !! a = if decide (dst ≤ a < dst + len) then m !! (src + (a - dst)) else m !! a.
Proof.
  intros Hlen Hs Hd. unfold memmove. destruct (Z.ltb_spec dst src).
  { apply memcpy_up; [done|lia|done..]. }
  assert (∀ k, m !! k = if decide (dst + len ≤ k < dst + len) then m !! (src + (k - dst)) else m !! k) as Hinit.
  { intros k. by rewrite decide_False by lia. }
  destruct (word_aligned dst src len) eqn:Ha.
  - pose proof (aligned_len _ _ _ Hlen Ha) as Hl.
    pose proof (copy_down_spec 4 dst src m (Z.to_nat (len / 4)) ltac:(lia) (Z.to_nat (len / 4)) m) as Hdn.
    rewrite Hl in Hdn. by apply Hdn.
  - pose proof (copy_down_spec 1 dst src m (Z.to_nat len) ltac:(lia) (Z.to_nat len) m) as Hdn.
    rewrite byte_len in Hdn by done. by apply Hdn.
Qed.

(** Eight bytes at 0; the two regions overlap. *)
Definition eight_bytes : gmap Z Z := list_to_map ((λ k, (k, k + 65)) <$> seqZ 0 8).

Lemma eight_mapped a len : 0 ≤ a → a + len ≤ 8 → mapped eight_bytes a len.
Proof.
  intros Ha Hl k Hk. assert (∃ n, a + k = Z.of_nat n ∧ (n < 8)%nat) as (n & -> & Hn)
    by (exists (Z.to_nat (a + k)); lia).
  do 8 (destruct n as [|n]; [vm_compute; eauto|]). lia.
Qed.

Lemma memmove_correct_witness :
  ∃ m', memmove 2 0 6 eight_bytes = Some m' ∧
    ∀ a, m' !! a = if decide (2 ≤ a < 2 + 6) then eight_bytes !! (0 + (a - 2)) else eight_bytes !! a.
Proof.
  apply (memmove_correct 2 0 6 eight_bytes); [discriminate|apply eight_mapped; discriminate..].
Defined.

(** [bzero] *)
Lemma zero_units_spec n a m0 cnt : ∀ i m,
  mapped m0 a (Z.of_nat ((i + cnt) * n)) →
  (∀ x, m !! x = if decide (a ≤ x < a + Z.of_nat (i * n)) then Some 0 else m0 !! x) →
  ∃ m', zero_units n a i cnt m = Some m' ∧
    ∀ x, m' !! x = if decide (a ≤ x < a + Z.of_nat ((i + cnt) * n)) then Some 0 else m0 !! x.
Proof.
  induction cnt as [|cnt IH]; intros i m Hm Hz; cbn [zero_units].
  { exists m. by rewrite Nat.add_0_r. }
  destruct (store_unit_spec (replicate n 0) m (a + Z.of_nat (i * n))) as (m' & -> & Hm').
  { rewrite zlen_replicate. intros k Hk. rewrite Hz. case_decide; [done|]. rewrite <- Z.add_assoc. apply Hm. nia. }
  cbn [mbind option_bind]. replace (i + S cnt)%nat with (S i + cnt)%nat in * by lia. apply IH; [done|].
  intros x. rewrite Hm', zlen_replicate. case_decide as Hx.
  - rewrite decide_True by nia. rewrite zlookup_nat by lia. apply lookup_replicate_2. lia.
  - rewrite Hz. destruct (decide (a ≤ x < a + Z.of_nat (i * n))).
    + by rewrite decide_True by nia.
    + by rewrite decide_False by nia.
Qed.

Lemma bzero_spec a len m :
  0 ≤ len → mapped m a len →
  ∃ m', bzero a len m = Some m' ∧ ∀ x, m' !! x = if decide (a ≤ x < a + len) then Some 0 else m !! x.
Proof.
  intros Hlen Hm. unfold bzero.
  assert (∀ x, m !! x = if decide (a ≤ x < a + Z.of_nat 0) then Some 0 else m !! x) as Hinit.
  { intros x. by rewrite decide_False by lia. }
  destruct ((a mod 4 =? 0) && (len mod 4 =? 0)) eqn:Ha.
  - pose proof (zero_units_spec 4 a m (Z.to_nat (len / 4)) 0 m) as Hz. simpl Nat.add in Hz.
    assert (Z.of_nat (Z.to_nat (len / 4) * 4) = len) as Hl.
    { assert (len mod 4 = 0) by lia. Z.div_mod_to_equations. lia. }
    rewrite Hl in Hz. by apply Hz.
  - pose proof (zero_units_spec 1 a m (Z.to_nat len) 0 m) as Hz. simpl Nat.add in Hz.
    rewrite byte_len in Hz by done. by apply Hz.
Qed.
