(* ===== verification/Bitmap.v ===== *)
(** * Bitmaps (kern/lib/bitmap.c)

    An array of [nbits] bits kept in bytes.  The invariant [bitmap_wf] says
    that the byte array has exactly the bytes needed and that the bits past
    [nbits] in the last byte are set, which is what makes the assertions of
    [bitmap_alloc] hold.  The abstract view of a bitmap is the predicate
    [bit b i]; every operation is specified by its effect on it. *)

From S2P Require Import Prelude.

Definition BITS_PER_WORD : Z := 8.
Definition WORD_ALLBITS : Z := 255.

Record bitmap := { nbits : Z; v : list Z }.

Definition set_v (b : bitmap) (v' : list Z) : bitmap := {| nbits := nbits b; v := v' |}.

(** [b->v[ix] = w], a store of an [unsigned char]. *)
Definition store_word (ix w : Z) : M bitmap unit :=
  b ← get; v' ← deref (zstore (v b) ix (u8 w)); put (set_v b v').

(** The two arguments are the outcomes of the two calls of [kmalloc]. *)
Definition bitmap_create (kmalloc1 kmalloc2 : bool) (n : Z) : result (option bitmap) :=
  let words := DIVROUNDUP n BITS_PER_WORD in
  if negb kmalloc1 then Ret None
  else if negb kmalloc2 then Ret None
  else
    let b := {| nbits := n; v := replicate (Z.to_nat words) 0 |} in
    let body : M bitmap unit :=
      if n / BITS_PER_WORD <? words then
        let ix := words - 1 in
        let overbits := u32 (n - ix * BITS_PER_WORD) in
        _ ← assert (n / BITS_PER_WORD =? words - 1);
        _ ← assert ((0 <? overbits) && (overbits <? BITS_PER_WORD));
        forM (seqZ overbits (BITS_PER_WORD - overbits)) (λ j,
          b ← get; w ← deref (v b !z ix); store_word ix (Z.lor w (Z.shiftl 1 j)))
      else mret () in
    match body b with
    | (Ret _, b') => Ret (Some b')
    | (Fail e, _) => Fail e
    | (Halt k, _) => Halt k
    end.

Definition bitmap_getdata (b : bitmap) : list Z := v b.

(** The inner loop of [bitmap_alloc], over the offsets of word [ix]. *)
Fixpoint bitmap_alloc_word (ix : Z) (offsets : list Z) : M bitmap Z :=
  match offsets with
  | [] => panic
  | offset :: rest =>
      let mask := u8 (Z.shiftl 1 offset) in
      b ← get;
      w ← deref (v b !z ix);
      if Z.land w mask =? 0 then
        _ ← store_word ix (Z.lor w mask);
        let index := u32 (ix * BITS_PER_WORD + offset) in
        _ ← assert (index <? nbits b);
        mret index
      else bitmap_alloc_word ix rest
  end.

(** The outer loop, over the words. *)
Fixpoint bitmap_alloc_words (words : list Z) : M bitmap Z :=
  match words with
  | [] => fail ENOSPC
  | ix :: rest =>
      b ← get;
      w ← deref (v b !z ix);
      if negb (w =? WORD_ALLBITS) then bitmap_alloc_word ix (seqZ 0 BITS_PER_WORD)
      else bitmap_alloc_words rest
  end.

Definition bitmap_alloc : M bitmap Z :=
  b ← get; bitmap_alloc_words (seqZ 0 (DIVROUNDUP (nbits b) BITS_PER_WORD)).

(** The word index and the mask of a bit. *)
Definition bitmap_translate (bitno : Z) : Z * Z :=
  (bitno / BITS_PER_WORD, u8 (Z.shiftl 1 (bitno mod BITS_PER_WORD))).

Definition bitmap_mark (index : Z) : M bitmap unit :=
  b ← get;
  _ ← assert (index <? nbits b);
  let '(ix, mask) := bitmap_translate index in
  w ← deref (v b !z ix);
  _ ← assert (Z.land w mask =? 0);
  store_word ix (Z.lor w mask).

Definition bitmap_unmark (index : Z) : M bitmap unit :=
  b ← get;
  _ ← assert (index <? nbits b);
  let '(ix, mask) := bitmap_translate index in
  w ← deref (v b !z ix);
  _ ← assert (negb (Z.land w mask =? 0));
  store_word ix (Z.land w (Z.lnot mask)).

(** The bits of the word under the mask; nonzero means set. *)
Definition bitmap_isset (index : Z) : M bitmap Z :=
  b ← get;
  let '(ix, mask) := bitmap_translate index in
  w ← deref (v b !z ix);
  mret (Z.land w mask).

(** ** Abstract view and invariant *)

Definition bit (b : bitmap) (i : Z) : bool :=
  match v b !z (i / BITS_PER_WORD) with
  | Some w => Z.testbit w (i mod BITS_PER_WORD)
  | None => false
  end.

Record bitmap_wf (b : bitmap) : Prop := {
  wf_nbits : 0 ≤ nbits b ≤ 2 ^ 32 - 8;
  wf_words : zlen (v b) = (nbits b + 7) / 8;
  wf_bytes : Forall is_u8 (v b);
  wf_tail : ∀ i, nbits b ≤ i < 8 * zlen (v b) → bit b i = true;
}.

(** ** Lemmas *)

Lemma divroundup_8 n : 0 ≤ n ≤ 2 ^ 32 - 8 → DIVROUNDUP n BITS_PER_WORD = (n + 7) / 8.
Proof.
  intros. unfold DIVROUNDUP, BITS_PER_WORD. rewrite u32_small; [f_equal; lia|].
  unfold is_u32; lia.
Qed.

Lemma word_index i n : 0 ≤ i < n → 0 ≤ i / 8 < (n + 7) / 8.
Proof. intros. Z.div_mod_to_equations; lia. Qed.

Lemma bit_word b i w :
  v b !z (i / 8) = Some w → bit b i = Z.testbit w (i mod 8).
Proof. unfold bit, BITS_PER_WORD. by intros ->. Qed.

Lemma wf_word b ix : bitmap_wf b → 0 ≤ ix < zlen (v b) →
  ∃ w, v b !z ix = Some w ∧ is_u8 w.
Proof.
  intros Hwf Hix. destruct (zlookup_in (v b) ix Hix) as [w Hw]. exists w; split; [done|].
  rewrite zlookup_nat in Hw by lia.
  by eapply Forall_lookup_1; [apply (wf_bytes b)|].
Qed.

(** The word of a bit below [nbits]. *)
Lemma wf_bit_word b i : bitmap_wf b → 0 ≤ i < nbits b →
  ∃ w, v b !z (i / 8) = Some w ∧ is_u8 w ∧ 0 ≤ i / 8 < zlen (v b).
Proof.
  intros Hwf Hi. assert (0 ≤ i / 8 < zlen (v b)) as Hix.
  { rewrite (wf_words b Hwf). by apply word_index. }
  destruct (wf_word b (i / 8) Hwf Hix) as (w & ? & ?). eauto.
Qed.

(** The effect of a store of one word on the bits. *)
Lemma bit_store b ix w i :
  0 ≤ ix < zlen (v b) → 0 ≤ i →
  bit (set_v b (<[Z.to_nat ix := w]> (v b))) i =
    if decide (i / 8 = ix) then Z.testbit w (i mod 8) else bit b i.
Proof.
  intros Hix Hi. unfold bit, set_v, BITS_PER_WORD; simpl.
  rewrite zlookup_insert by (try done; Z.div_mod_to_equations; lia).
  repeat case_decide; subst; done.
Qed.

Lemma wp_store_word ix w Q b :
  0 ≤ ix < zlen (v b) →
  Q (Ret ()) (set_v b (<[Z.to_nat ix := u8 w]> (v b))) →
  wp (store_word ix w) Q b.
Proof.
  intros Hix HQ. unfold store_word. wp_steps.
  eapply wp_deref; [by apply zstore_in|]. done.
Qed.

(** A store that keeps the bits past the end set keeps the invariant. *)
Lemma bitmap_wf_store b ix w :
  bitmap_wf b → 0 ≤ ix < zlen (v b) → is_u8 w →
  (∀ i, i / 8 = ix → nbits b ≤ i < 8 * zlen (v b) → Z.testbit w (i mod 8) = true) →
  bitmap_wf (set_v b (<[Z.to_nat ix := w]> (v b))).
Proof.
  intros [Hn Hw Hb Ht] Hix Hu8 Htail. split; simpl.
  - done.
  - by rewrite zlen_insert.
  - by apply Forall_insert.
  - intros i. rewrite zlen_insert. intros Hi. rewrite bit_store by lia.
    case_decide; auto.
Qed.

Definition set_bit (b b' : bitmap) (i : Z) (x : bool) : Prop :=
  nbits b' = nbits b ∧
  ∀ j, 0 ≤ j → bit b' j = if decide (j = i) then x else bit b j.

Lemma set_bit_word_eq i j : 0 ≤ i → 0 ≤ j → i / 8 = j / 8 → (i mod 8 =? j mod 8) = bool_decide (i = j).
Proof.
  intros. case_bool_decide; [subst; apply Z.eqb_refl|].
  apply Z.eqb_neq. intros ?. Z.div_mod_to_equations; lia.
Qed.

Lemma bitmap_mark_word b i w :
  bitmap_wf b → 0 ≤ i < nbits b → v b !z (i / 8) = Some w →
  let b' := set_v b (<[Z.to_nat (i / 8) := u8 (Z.lor w (2 ^ (i mod 8)))]> (v b)) in
  bitmap_wf b' ∧ set_bit b b' i true.
Proof.
  intros Hwf Hi Hw b'.
  destruct (wf_bit_word b i Hwf Hi) as (w' & Hw' & Hu & Hix); simplify_eq.
  assert (0 ≤ i mod 8 < 8) by (apply Z.mod_pos_bound; lia).
  split.
  - apply bitmap_wf_store; [done..|apply u8_range|].
    intros j Hj Hjr. rewrite u8_lor_bit by (try done; apply Z.mod_pos_bound; lia).
    rewrite <- (bit_word b j) by (by rewrite Hj).
    by rewrite (wf_tail b Hwf).
  - split; [done|]. intros j Hj. unfold b'. rewrite bit_store by lia.
    case_decide as Hji.
    + rewrite u8_lor_bit by (try done; apply Z.mod_pos_bound; lia).
      rewrite set_bit_word_eq by lia. rewrite <- (bit_word b j) by (by rewrite Hji).
      case_bool_decide; case_decide; try done;
        by rewrite ?orb_true_r, ?orb_false_r, ?andb_true_r, ?andb_false_r.
    + case_decide; [by subst|done].
Qed.

Lemma bitmap_unmark_word b i w :
  bitmap_wf b → 0 ≤ i < nbits b → v b !z (i / 8) = Some w →
  let b' := set_v b (<[Z.to_nat (i / 8) := u8 (Z.land w (Z.lnot (2 ^ (i mod 8))))]> (v b)) in
  bitmap_wf b' ∧ set_bit b b' i false.
Proof.
  intros Hwf Hi Hw b'.
  destruct (wf_bit_word b i Hwf Hi) as (w' & Hw' & Hu & Hix); simplify_eq.
  assert (0 ≤ i mod 8 < 8) by (apply Z.mod_pos_bound; lia).
  split.
  - apply bitmap_wf_store; [done..|apply u8_range|].
    intros j Hj Hjr. rewrite u8_clear_bit by (try done; apply Z.mod_pos_bound; lia).
    rewrite set_bit_word_eq by lia. rewrite <- (bit_word b j) by (by rewrite Hj).
    rewrite (wf_tail b Hwf) by done. case_bool_decide; [lia|done].
  - split; [done|]. intros j Hj. unfold b'. rewrite bit_store by lia.
    case_decide as Hji.
    + rewrite u8_clear_bit by (try done; apply Z.mod_pos_bound; lia).
      rewrite set_bit_word_eq by lia. rewrite <- (bit_word b j) by (by rewrite Hji).
      case_bool_decide; case_decide; try done;
        by rewrite ?orb_true_r, ?orb_false_r, ?andb_true_r, ?andb_false_r.
    + case_decide; [by subst|done].
Qed.

(** ** Specifications *)

Lemma bit_clear_mask b i w :
  0 ≤ i → v b !z (i / 8) = Some w →
  (Z.land w (u8 (Z.shiftl 1 (i mod 8))) =? 0) = negb (bit b i).
Proof.
  intros Hi Hw.
  rewrite u8_mask by (apply Z.mod_pos_bound; lia).
  rewrite land_pow2_zero by (apply Z.mod_pos_bound; lia).
  by rewrite (bit_word b i w).
Qed.

Lemma bitmap_mark_spec b i Q :
  bitmap_wf b → 0 ≤ i < nbits b → bit b i = false →
  (∀ b', bitmap_wf b' → set_bit b b' i true → Q (Ret ()) b') →
  wp (bitmap_mark i) Q b.
Proof.
  intros Hwf Hi Hbit HQ. destruct (wf_bit_word b i Hwf Hi) as (w & Hw & Hu & Hix).
  destruct (bitmap_mark_word b i w Hwf Hi Hw) as [??].
  unfold bitmap_mark. wp_steps. apply wp_assert; [lia|].
  unfold bitmap_translate, BITS_PER_WORD. wp_steps. eapply wp_deref; [done|].
  wp_steps. apply wp_assert.
  { rewrite (bit_clear_mask b) by lia || done. by rewrite Hbit. }
  rewrite u8_mask by (apply Z.mod_pos_bound; lia).
  apply wp_store_word; auto.
Qed.

Lemma bitmap_unmark_spec b i Q :
  bitmap_wf b → 0 ≤ i < nbits b → bit b i = true →
  (∀ b', bitmap_wf b' → set_bit b b' i false → Q (Ret ()) b') →
  wp (bitmap_unmark i) Q b.
Proof.
  intros Hwf Hi Hbit HQ. destruct (wf_bit_word b i Hwf Hi) as (w & Hw & Hu & Hix).
  destruct (bitmap_unmark_word b i w Hwf Hi Hw) as [??].
  unfold bitmap_unmark. wp_steps. apply wp_assert; [lia|].
  unfold bitmap_translate, BITS_PER_WORD. wp_steps. eapply wp_deref; [done|].
  wp_steps. apply wp_assert.
  { rewrite (bit_clear_mask b) by lia || done. by rewrite Hbit. }
  rewrite u8_mask by (apply Z.mod_pos_bound; lia).
  apply wp_store_word; auto.
Qed.

Lemma bitmap_isset_spec b i Q :
  bitmap_wf b → 0 ≤ i < nbits b →
  (∀ z, (z =? 0) = negb (bit b i) → Q (Ret z) b) →
  wp (bitmap_isset i) Q b.
Proof.
  intros Hwf Hi HQ. destruct (wf_bit_word b i Hwf Hi) as (w & Hw & Hu & Hix).
  unfold bitmap_isset. wp_steps.
  unfold bitmap_translate, BITS_PER_WORD. wp_steps. eapply wp_deref; [done|]. wp_steps. apply HQ.
  rewrite (bit_clear_mask b) by lia || done. done.
Qed.

(** Scanning the offsets from [k] of a word that has a clear bit there finds
    the least one. *)
Lemma bitmap_alloc_word_spec b ix w n k Q :
  bitmap_wf b → 0 ≤ ix < zlen (v b) → v b !z ix = Some w →
  0 ≤ k → k + Z.of_nat n = 8 →
  (∃ m, k ≤ m < 8 ∧ Z.testbit w m = false) →
  (∀ i b', k ≤ i < 8 → bit b (8 * ix + i) = false →
     (∀ j, k ≤ j < i → bit b (8 * ix + j) = true) →
     8 * ix + i < nbits b →
     bitmap_wf b' → set_bit b b' (8 * ix + i) true → Q (Ret (8 * ix + i)) b') →
  wp (bitmap_alloc_word ix (seqZ k (Z.of_nat n))) Q b.
Proof.
  intros Hwf Hix Hw.
  assert (∀ j, 0 ≤ j < 8 → bit b (8 * ix + j) = Z.testbit w j) as Hbit.
  { intros j Hj. assert ((8 * ix + j) / 8 = ix ∧ (8 * ix + j) mod 8 = j) as [Hd Hm].
    { Z.div_mod_to_equations; lia. }
    rewrite (bit_word b _ w) by (by rewrite Hd). by rewrite Hm. }
  revert k. induction n as [|n IH]; intros k Hk Hn (m & Hm & Hclear) HQ; [lia|].
  rewrite seqZ_cons by lia. simpl. wp_steps. eapply wp_deref; [done|].
  rewrite u8_mask, land_pow2_zero by lia.
  destruct (Z.testbit w k) eqn:Hwk; simpl.
  - rewrite Nat2Z.inj_succ, Z.pred_succ. apply IH; [lia..| |].
    + exists m. split; [|done]. assert (m ≠ k) by congruence. lia.
    + intros i b' Hi Hb Hall Hlt ??. apply HQ; [lia|done| |done..].
      intros j Hj. destruct (decide (j = k)) as [->|]; [by rewrite Hbit by lia|].
      apply Hall; lia.
  - set (i := 8 * ix + k). assert (i / 8 = ix ∧ i mod 8 = k) as [Hd Hmo].
    { unfold i. Z.div_mod_to_equations; lia. }
    assert (0 ≤ i < nbits b) as Hi.
    { split; [lia|]. destruct (decide (i < nbits b)); [done|].
      assert (bit b i = true) by (apply (wf_tail b Hwf); lia).
      unfold i in *. rewrite Hbit in * by lia. congruence. }
    destruct (bitmap_mark_word b i w Hwf Hi) as [Hwf' Hset].
    { by rewrite Hd. }
    rewrite Hd, Hmo in Hwf', Hset.
    wp_steps. apply wp_store_word; [done|]. wp_steps.
    rewrite u32_small by (pose proof (wf_nbits b Hwf); unfold is_u32, BITS_PER_WORD; lia).
    unfold BITS_PER_WORD. replace (ix * 8 + k) with i by lia.
    apply wp_assert; [lia|]. wp_steps. apply HQ; [lia| | |lia|done..].
    + by rewrite Hbit by lia.
    + lia.
Qed.

Lemma bitmap_alloc_words_spec b n k Q :
  bitmap_wf b → 0 ≤ k → k + Z.of_nat n = zlen (v b) →
  (∀ i b', 8 * k ≤ i < nbits b → bit b i = false →
     (∀ j, 8 * k ≤ j < i → bit b j = true) →
     bitmap_wf b' → set_bit b b' i true → Q (Ret i) b') →
  ((∀ j, 8 * k ≤ j < nbits b → bit b j = true) → Q (Fail ENOSPC) b) →
  wp (bitmap_alloc_words (seqZ k (Z.of_nat n))) Q b.
Proof.
  intros Hwf. revert k. induction n as [|n IH]; intros k Hk Hn HQ HF.
  { simpl. apply wp_fail, HF. intros j Hj. pose proof (wf_words b Hwf).
    Z.div_mod_to_equations; lia. }
  assert (0 ≤ k < zlen (v b)) as Hix by lia.
  destruct (wf_word b k Hwf Hix) as (w & Hw & Hu).
  rewrite seqZ_cons by lia. simpl. wp_steps. eapply wp_deref; [done|].
  destruct (w =? WORD_ALLBITS) eqn:Hall; simpl.
  - apply Z.eqb_eq in Hall. assert (∀ j, 8 * k ≤ j < 8 * (k + 1) → bit b j = true) as Hones.
    { intros j Hj. assert (j / 8 = k) as Hd by (Z.div_mod_to_equations; lia).
      rewrite (bit_word b j w) by (by rewrite Hd). subst w. change WORD_ALLBITS with (Z.ones 8).
      apply Z.ones_spec_low. apply Z.mod_pos_bound; lia. }
    rewrite Nat2Z.inj_succ, Z.pred_succ. apply IH; [lia..| |].
    + intros i b' Hi Hb Hlow. apply HQ; [lia|done|].
      intros j Hj. destruct (decide (j < 8 * (k + 1))); [apply Hones|apply Hlow]; lia.
    + intros Hrest. apply HF. intros j Hj.
      destruct (decide (j < 8 * (k + 1))); [apply Hones|apply Hrest]; lia.
  - apply Z.eqb_neq in Hall.
    apply (bitmap_alloc_word_spec b k w 8 0); [done..|lia|lia| |].
    + destruct (u8_not_all_ones w Hu Hall) as (m & ? & ?). eauto.
    + intros i b' Hi Hb Hlow Hlt ??. apply HQ; [lia|done| |done..].
      intros j Hj. replace j with (8 * k + (j - 8 * k)) by lia. apply Hlow; lia.
Qed.

Lemma bitmap_alloc_spec b Q :
  bitmap_wf b →
  (∀ i b', 0 ≤ i < nbits b → bit b i = false → (∀ j, 0 ≤ j < i → bit b j = true) →
     bitmap_wf b' → set_bit b b' i true → Q (Ret i) b') →
  ((∀ j, 0 ≤ j < nbits b → bit b j = true) → Q (Fail ENOSPC) b) →
  wp bitmap_alloc Q b.
Proof.
  intros Hwf HQ HF. unfold bitmap_alloc. wp_steps.
  rewrite divroundup_8 by apply (wf_nbits b Hwf). rewrite <- (wf_words b Hwf).
  replace (zlen (v b)) with (Z.of_nat (length (v b))) by done.
  by apply bitmap_alloc_words_spec.
Qed.

(** The state of [bitmap_create]'s loop: the first [n + k] bits are done. *)
Record create_inv (n words k : Z) (b : bitmap) : Prop := {
  ci_nbits : nbits b = n;
  ci_words : zlen (v b) = words;
  ci_bytes : Forall is_u8 (v b);
  ci_bits : ∀ i, 0 ≤ i < 8 * words → bit b i = bool_decide (n ≤ i < n + k);
}.

Lemma create_inv_init n words :
  0 ≤ words → create_inv n words 0 {| nbits := n; v := replicate (Z.to_nat words) 0 |}.
Proof.
  intros. split; simpl; [done| | |].
  - rewrite zlen_replicate; lia.
  - apply Forall_replicate. unfold is_u8; lia.
  - intros i Hi. rewrite bool_decide_eq_false_2 by lia.
    unfold bit, BITS_PER_WORD; simpl. rewrite zlookup_nat by (Z.div_mod_to_equations; lia).
    rewrite lookup_replicate_2 by (Z.div_mod_to_equations; lia). apply Z.bits_0.
Qed.

Lemma create_inv_wf n words k b :
  0 ≤ n ≤ 2 ^ 32 - 8 → words = (n + 7) / 8 → 8 * words ≤ n + k →
  create_inv n words k b → bitmap_wf b.
Proof.
  intros Hn -> Hk [Hnb Hw Hb Hbits]. split; rewrite ?Hnb, ?Hw; [lia|done|done|].
  intros i Hi. rewrite Hbits by lia. apply bool_decide_eq_true_2; lia.
Qed.

Lemma create_inv_step n words k b w :
  0 ≤ n → 0 ≤ k → words = n / 8 + 1 → n mod 8 + k < 8 →
  create_inv n words k b → v b !z (words - 1) = Some w →
  create_inv n words (k + 1)
    (set_v b (<[Z.to_nat (words - 1) := u8 (Z.lor w (Z.shiftl 1 (n mod 8 + k)))]> (v b))).
Proof.
  intros Hn Hk Hwords Hlt [Hnb Hw Hb Hbits] Hlook.
  assert (0 ≤ n / 8 ∧ 0 ≤ n mod 8 < 8 ∧ n = 8 * (n / 8) + n mod 8) as (? & ? & ?)
    by (Z.div_mod_to_equations; lia).
  split; simpl; [done|by rewrite zlen_insert| |].
  - apply Forall_insert; [done|apply u8_range].
  - intros i Hi. rewrite bit_store by lia. case_decide as Hd.
    + rewrite Z.shiftl_1_l, u8_lor_bit by (try lia; apply Z.mod_pos_bound; lia).
      rewrite <- (bit_word b i) by (by rewrite Hd). rewrite Hbits by lia.
      destruct (Z.eqb_spec (i mod 8) (n mod 8 + k));
        repeat case_bool_decide; try done; Z.div_mod_to_equations; lia.
    + rewrite Hbits by lia.
      repeat case_bool_decide; try done; Z.div_mod_to_equations; lia.
Qed.

Lemma bitmap_create_spec n :
  0 ≤ n ≤ 2 ^ 32 - 8 →
  ∃ b, bitmap_create true true n = Ret (Some b) ∧ bitmap_wf b ∧ nbits b = n ∧
       ∀ i, 0 ≤ i < n → bit b i = false.
Proof.
  intros Hn. unfold bitmap_create. cbn [negb]. rewrite divroundup_8 by done.
  set (words := (n + 7) / 8). set (b0 := {| nbits := n; v := _ |}).
  match goal with |- context [match ?body b0 with _ => _ end] => set (m := body) end.
  assert (0 ≤ words) by (unfold words; Z.div_mod_to_equations; lia).
  pose proof (create_inv_init n words ltac:(done)) as Hinit.
  enough (wp m (returns (λ _ b, ∃ k, 0 ≤ k ∧ 8 * words ≤ n + k ∧ create_inv n words k b)) b0)
    as (? & b & -> & k & Hk & Hle & Hinv)%wp_returns_run.
  { exists b. split_and!; [done|by eapply create_inv_wf|apply Hinv|].
    intros i Hi. rewrite (ci_bits _ _ _ _ Hinv) by (unfold words; Z.div_mod_to_equations; lia).
    apply bool_decide_eq_false_2; lia. }
  unfold m, BITS_PER_WORD. destruct (Z.ltb_spec (n / 8) words) as [Hlt|Hge].
  2: { apply wp_ret. exists 0. split_and!; [lia| |done].
       unfold words in *. Z.div_mod_to_equations; lia. }
  assert (words = n / 8 + 1) as Hwords by (unfold words in *; Z.div_mod_to_equations; lia).
  assert (0 ≤ n / 8 ∧ 0 < n mod 8 < 8 ∧ n = 8 * (n / 8) + n mod 8) as (? & ? & ?)
    by (unfold words in *; Z.div_mod_to_equations; lia).
  wp_steps. apply wp_assert; [lia|]. wp_steps.
  replace (u32 (n - (words - 1) * 8)) with (n mod 8)
    by (rewrite u32_small; unfold is_u32; lia).
  apply wp_assert; [lia|].
  apply wp_forM with (I := λ k b, create_inv n words (Z.of_nat k) b); [done| |].
  - intros i j b [-> Hi]%lookup_seqZ_inv Hb. wp_steps.
    destruct (zlookup_in (v b) (words - 1)) as [w Hw].
    { rewrite (ci_words _ _ _ _ Hb). lia. }
    eapply wp_deref; [done|]. apply wp_store_word.
    { rewrite (ci_words _ _ _ _ Hb). lia. }
    rewrite Nat2Z.inj_succ. apply create_inv_step; (done || lia).
  - intros b Hb. exists (Z.of_nat (length (seqZ (n mod 8) (8 - n mod 8)))).
    rewrite length_seqZ in *. split_and!; [lia| |done]. lia.
Qed.

(** ** Properties *)

(** [bitmap_alloc] on a well-formed bitmap never panics.  It returns the
    least clear bit and sets exactly that bit, or it returns ENOSPC, and then
    every bit is set and nothing has changed. *)
Theorem bitmap_alloc_correct b :
  bitmap_wf b →
  match bitmap_alloc b with
  | (Ret i, b') =>
      0 ≤ i < nbits b ∧ bit b i = false ∧ (∀ j, 0 ≤ j < i → bit b j = true) ∧
      bitmap_wf b' ∧ set_bit b b' i true
  | (Fail e, b') => e = ENOSPC ∧ b' = b ∧ ∀ j, 0 ≤ j < nbits b → bit b j = true
  | (Halt _, _) => False
  end.
Proof. intros Hwf. apply wp_elim. apply bitmap_alloc_spec; auto. Qed.

(** A bitmap of 12 bits with the first 9 taken. *)
Definition example_bitmap : bitmap := {| nbits := 12; v := [255; 241] |}.

Lemma example_bitmap_wf : bitmap_wf example_bitmap.
Proof.
  split; [done|done|repeat constructor; done|].
  change (∀ i, 12 ≤ i < 16 → bit example_bitmap i = true). intros i Hi.
  assert (i = 12 ∨ i = 13 ∨ i = 14 ∨ i = 15) as [->|[->|[->| ->]]] by lia; done.
Qed.

Lemma bitmap_alloc_correct_witness :
  match bitmap_alloc example_bitmap with
  | (Ret i, b') =>
      0 ≤ i < nbits example_bitmap ∧ bit example_bitmap i = false ∧
      (∀ j, 0 ≤ j < i → bit example_bitmap j = true) ∧
      bitmap_wf b' ∧ set_bit example_bitmap b' i true
  | (Fail e, b') => e = ENOSPC ∧ b' = example_bitmap ∧
      ∀ j, 0 ≤ j < nbits example_bitmap → bit example_bitmap j = true
  | (Halt _, _) => False
  end.
Proof. apply (bitmap_alloc_correct example_bitmap). exact example_bitmap_wf. Defined.

(** a block allocated by [bitmap_alloc] can be given back: [bitmap_unmark]
    on it succeeds and every bit is again what it was before. *)
Theorem bitmap_alloc_unmark b i b1 :
  bitmap_wf b → bitmap_alloc b = (Ret i, b1) →
  match bitmap_unmark i b1 with
  | (Ret _, b2) => bitmap_wf b2 ∧ nbits b2 = nbits b ∧ ∀ j, 0 ≤ j → bit b2 j = bit b j
  | _ => False
  end.
Proof.
  intros Hwf Halloc. pose proof (bitmap_alloc_spec b (λ r b', r = Ret i → b' = b1 →
    0 ≤ i < nbits b1 ∧ bitmap_wf b1 ∧ bit b i = false ∧ set_bit b b1 i true) Hwf) as Hspec.
  unfold wp in Hspec. rewrite Halloc in Hspec. destruct Hspec as (Hi & Hwf1 & Hfree & Hn & Hset); [|done..|].
  { intros k b' ? ? ? ? [? ?] [= ->] ->. split_and!; [lia|lia|done|done|by split]. }
  eapply (wp_elim (bitmap_unmark i) (λ r b2, match r with Ret _ => _ | _ => False end)).
  apply bitmap_unmark_spec; [done|done|rewrite Hset by lia; by case_decide|].
  intros b2 Hwf2 [Hn2 Hset2]. split_and!; [done|congruence|].
  intros j Hj. rewrite Hset2, Hset by done. case_decide; congruence.
Qed.

Lemma bitmap_alloc_unmark_witness :
  match bitmap_unmark 9 {| nbits := 12; v := [255; 243] |} with
  | (Ret _, b2) => bitmap_wf b2 ∧ nbits b2 = nbits example_bitmap ∧
                   ∀ j, 0 ≤ j → bit b2 j = bit example_bitmap j
  | _ => False
  end.
Proof. apply (bitmap_alloc_unmark example_bitmap); [exact example_bitmap_wf|reflexivity]. Defined.

(** for every size up to [2^32 - 8], [bitmap_create] makes a well-formed
    bitmap in which exactly the bits past the end are set. *)
Theorem bitmap_create_correct n :
  0 ≤ n ≤ 2 ^ 32 - 8 →
  ∃ b, bitmap_create true true n = Ret (Some b) ∧ bitmap_wf b ∧ nbits b = n ∧
       ∀ i, 0 ≤ i < 8 * zlen (v b) → bit b i = bool_decide (n ≤ i).
Proof.
  intros Hn. destruct (bitmap_create_spec n Hn) as (b & Hb & Hwf & Hnb & Hclear).
  exists b. split_and!; [done..|]. intros i Hi. case_bool_decide.
  - apply (wf_tail b Hwf). lia.
  - apply Hclear. lia.
Qed.

Lemma bitmap_create_correct_witness :
  ∃ b, bitmap_create true true 12 = Ret (Some b) ∧ bitmap_wf b ∧ nbits b = 12 ∧
       ∀ i, 0 ≤ i < 8 * zlen (v b) → bit b i = bool_decide (12 ≤ i).
Proof. apply (bitmap_create_correct 12). lia. Defined.
