(* ===== verification/Array.v ===== *)
(** * Resizable arrays of pointers (kern/lib/array.c)

    The state of an array is the record of the source.  [vec] is the block
    [a->v] points to, [None] for NULL; a slot of the block is [None] until it
    is written.  The abstract view is the list of elements: [array_repr a l]
    says that [a] is well formed and holds the elements [l].

    Each operation that calls [kmalloc] takes the outcome of the call as a
    boolean. *)

From S2P Require Import Prelude.

Definition sizeof_ptr : Z := 4.

Record array (A : Type) := { num : Z; max : Z; vec : option (list (option A)) }.
Arguments num {_} _.
Arguments max {_} _.
Arguments vec {_} _.
Arguments Build_array {_} _ _ _.

Section operations.
Context {A : Type}.

Definition array_create (kmalloc : bool) : option (array A) :=
  if kmalloc then Some {| num := 0; max := 0; vec := None |} else None.

Definition array_getnum (a : array A) : Z := num a.

Definition array_getguy (index : Z) : M (array A) A :=
  a ← get;
  _ ← assert (num a <=? max a);
  _ ← assert ((0 <=? index) && (index <? num a));
  w ← deref (vec a);
  slot ← deref (w !z index);
  deref slot.

(** [while (nguys > newmax) newmax = (newmax+1)*2;] on [int]: a result that
    does not fit is undefined. *)
Fixpoint grow_max {St} (fuel : nat) (nguys newmax : Z) : M St Z :=
  if nguys >? newmax then
    match fuel with
    | O => nofuel
    | S fuel' =>
        let next := (newmax + 1) * 2 in
        if next <? 2 ^ 31 then grow_max fuel' nguys next else undef
    end
  else mret newmax.

(** [for (i=0; i<a->num; i++) newv[i] = a->v[i];] *)
Fixpoint copy_slots {St} (idxs : list Z) (old : option (list (option A)))
    (newv : list (option A)) : M St (list (option A)) :=
  match idxs with
  | [] => mret newv
  | i :: idxs' =>
      w ← deref old;
      slot ← deref (w !z i);
      newv' ← deref (zstore newv i slot);
      copy_slots idxs' old newv'
  end.

Definition array_preallocate (kmalloc : bool) (nguys : Z) : M (array A) unit :=
  a ← get;
  _ ← assert ((0 <=? num a) && (num a <=? max a));
  newmax ← grow_max 32 nguys (max a);
  if negb kmalloc then fail ENOMEM
  else
    let newv := replicate (Z.to_nat (u32 (newmax * sizeof_ptr) / sizeof_ptr)) None in
    newv' ← copy_slots (seqZ 0 (num a)) (vec a) newv;
    put {| num := num a; max := newmax; vec := Some newv' |}.

Definition array_setsize (kmalloc : bool) (nguys : Z) : M (array A) unit :=
  a ← get;
  _ ← assert ((0 <=? num a) && (num a <=? max a));
  _ ← (if nguys >? max a then array_preallocate kmalloc nguys
       else if (nguys =? 0) && (max a >? 16) then
         _ ← assert (if vec a is Some _ then true else false);
         put {| num := num a; max := 0; vec := None |}
       else mret ());
  modify (λ a, {| num := nguys; max := max a; vec := vec a |}).

Definition array_setguy (index : Z) (x : A) : M (array A) unit :=
  a ← get;
  _ ← assert (num a <=? max a);
  _ ← assert ((0 <=? index) && (index <? num a));
  w ← deref (vec a);
  w' ← deref (zstore w index (Some x));
  put {| num := num a; max := max a; vec := Some w' |}.

Definition array_add (kmalloc : bool) (guy : A) : M (array A) unit :=
  ix ← gets num;
  _ ← array_setsize kmalloc (ix + 1);
  a ← get;
  w ← deref (vec a);
  w' ← deref (zstore w ix (Some guy));
  put {| num := num a; max := max a; vec := Some w' |}.

(** The [memmove] of [nmove] slots from [index+1] to [index], inside the
    block. *)
Definition array_remove (index : Z) : M (array A) unit :=
  a ← get;
  _ ← assert (num a <=? max a);
  _ ← assert ((0 <=? index) && (index <? num a));
  let nmove := num a - (index + 1) in
  w ← deref (vec a);
  if index + 1 + nmove <=? zlen w then
    let i := Z.to_nat index in
    let k := Z.to_nat nmove in
    put {| num := num a - 1; max := max a;
           vec := Some (take i w ++ take k (drop (S i) w) ++ drop (i + k) w) |}
  else undef.

(** ** Representation *)

Record array_wf (a : array A) : Prop := {
  awf_num : 0 ≤ num a ≤ max a;
  awf_max : max a < 2 ^ 30;
  awf_vec : match vec a with
            | Some w => zlen w = max a
            | None => max a = 0
            end;
}.

Record array_repr (a : array A) (l : list A) : Prop := {
  repr_wf : array_wf a;
  repr_num : num a = zlen l;
  repr_elems : ∀ i x, l !! i = Some x → ∃ w, vec a = Some w ∧ w !! i = Some (Some x);
}.
End operations.

Section proofs.
Context {A : Type}.
Implicit Types (a : array A) (l : list A) (x : A).

Lemma grow_max_spec {St} fuel nguys newmax (Q : result Z → St → Prop) s :
  0 ≤ newmax < 2 ^ 30 → nguys < 2 ^ 29 →
  nguys ≤ (newmax + 2) * 2 ^ Z.of_nat fuel - 2 →
  (∀ m, nguys ≤ m → newmax ≤ m < 2 ^ 30 → (nguys ≤ newmax → m = newmax) → Q (Ret m) s) →
  wp (grow_max fuel nguys newmax) Q s.
Proof.
  revert newmax. induction fuel as [|fuel IH]; intros newmax Hnew Hn Hfuel HQ; simpl.
  - rewrite Z.gtb_ltb. destruct (Z.ltb_spec newmax nguys); [lia|]. wp_step. apply HQ; lia.
  - rewrite Z.gtb_ltb. destruct (Z.ltb_spec newmax nguys).
    2: { wp_step. apply HQ; lia. }
    rewrite (proj2 (Z.ltb_lt _ _)) by lia. apply IH; [lia|lia| |].
    + rewrite Nat2Z.inj_succ, Z.pow_succ_r in Hfuel by lia.
      replace ((newmax + 1) * 2 + 2) with ((newmax + 2) * 2) by lia. lia.
    + intros m ???. apply HQ; lia.
Qed.

Lemma copy_slots_spec {St} n k w (newv : list (option A)) (Q : result (list (option A)) → St → Prop) s :
  0 ≤ k → k + Z.of_nat n ≤ zlen w → k + Z.of_nat n ≤ zlen newv →
  (∀ newv', zlen newv' = zlen newv →
     (∀ i, k ≤ Z.of_nat i < k + Z.of_nat n → newv' !! i = w !! i) →
     (∀ i, Z.of_nat i < k → newv' !! i = newv !! i) → Q (Ret newv') s) →
  wp (copy_slots (seqZ k (Z.of_nat n)) (Some w) newv) Q s.
Proof.
  revert k newv. induction n as [|n IH]; intros k newv Hk Hw Hnew HQ.
  { simpl. wp_step. apply HQ; [done|lia|done]. }
  rewrite seqZ_cons by lia. simpl. wp_step. wp_step. wp_step.
  destruct (zlookup_in w k) as [slot Hslot]; [lia|].
  eapply wp_deref; [done|]. wp_step. eapply wp_deref; [apply zstore_in; lia|].
  rewrite Nat2Z.inj_succ, Z.pred_succ. apply IH; [lia|lia|rewrite zlen_insert; lia|].
  intros newv' Hlen Hin Hout. rewrite zlen_insert in Hlen. apply HQ; [done| |].
  - intros i Hi. destruct (decide (Z.of_nat i = k)) as [Heq|Hne]; [|apply Hin; lia].
    rewrite Hout by lia. rewrite zlookup_nat in Hslot by lia.
    replace (Z.to_nat k) with i in * by lia. rewrite Hslot.
    apply list_lookup_insert_eq. unfold zlen in *; lia.
  - intros i Hi. rewrite Hout by lia. apply list_lookup_insert_ne; lia.
Qed.

Lemma repr_elem a l i : array_repr a l → 0 ≤ i < num a →
  ∃ w x, vec a = Some w ∧ w !z i = Some (Some x) ∧ l !! Z.to_nat i = Some x.
Proof.
  intros [Hwf Hnum Hel] Hi.
  destruct (lookup_lt_is_Some_2 l (Z.to_nat i)) as [x Hx]; [unfold zlen in *; lia|].
  destruct (Hel _ _ Hx) as (w & ? & ?). exists w, x. rewrite zlookup_nat by lia. done.
Qed.

Lemma array_create_repr a : array_create true = Some a → array_repr a [].
Proof.
  intros [= <-]. split; [split; simpl; lia|done|]. intros i x. by rewrite lookup_nil.
Qed.

Lemma array_getguy_spec a l i Q :
  array_repr a l → 0 ≤ i < num a →
  (∀ x, l !! Z.to_nat i = Some x → Q (Ret x) a) →
  wp (array_getguy i) Q a.
Proof.
  intros Hrepr Hi HQ. pose proof (awf_num a (repr_wf a l Hrepr)).
  destruct (repr_elem a l i Hrepr Hi) as (w & x & Hw & Hx & Hl).
  unfold array_getguy. wp_steps. apply wp_assert; [lia|]. wp_steps. apply wp_assert; [lia|].
  wp_steps. eapply wp_deref; [done|]. wp_steps. eapply wp_deref; [done|].
  eapply wp_deref; [done|]. auto.
Qed.

Lemma array_preallocate_spec kmalloc a l n Q :
  array_repr a l → n < 2 ^ 29 →
  (∀ a', kmalloc = true → array_repr a' l → n ≤ max a' → max a ≤ max a' → Q (Ret ()) a') →
  (kmalloc = false → Q (Fail ENOMEM) a) →
  wp (array_preallocate kmalloc n) Q a.
Proof.
  intros Hrepr Hn HQ HF. destruct (Hrepr) as [[Hnum Hmax Hvec] Hlen Hel].
  unfold array_preallocate. wp_steps. apply wp_assert; [lia|]. wp_steps.
  apply grow_max_spec; [lia..|]. intros m Hnm Hm _.
  destruct kmalloc; simpl; wp_steps; [|auto].
  unfold sizeof_ptr. rewrite u32_small, Z.div_mul by (unfold is_u32; lia).
  destruct (decide (num a = 0)) as [Hz|Hnz].
  - rewrite Hz. simpl. wp_steps. apply HQ; [done| |simpl; lia..].
    split; [split; simpl; rewrite ?zlen_replicate; lia|simpl; lia|].
    intros i x Hx%lookup_lt_Some. unfold zlen in *; lia.
  - destruct (repr_elem a l 0 Hrepr) as (w & _ & Hw & _); [lia|]. rewrite Hw in *.
    replace (num a) with (Z.of_nat (Z.to_nat (num a))) at 1 by lia.
    apply copy_slots_spec; [lia|lia|rewrite zlen_replicate; lia|].
    intros newv' Hlen' Hcopy _. rewrite zlen_replicate in Hlen'. wp_steps.
    apply HQ; [done| |simpl; lia..].
    split; [split; simpl; lia|done|]. intros i x Hx.
    destruct (Hel i x Hx) as (w' & ? & Hx'). simplify_eq. exists newv'. split; [done|].
    rewrite Hcopy; [done|]. apply lookup_lt_Some in Hx. unfold zlen in *; lia.
Qed.

(** Shrinking keeps a prefix. *)
Lemma repr_shrink a l n :
  array_repr a l → 0 ≤ n ≤ num a →
  array_repr {| num := n; max := max a; vec := vec a |} (take (Z.to_nat n) l).
Proof.
  intros [[Hnum Hmax Hvec] Hlen Hel] Hn. split; [split; simpl; try done; lia| |].
  - simpl. unfold zlen in *. rewrite length_take. lia.
  - intros i x [Hx ?]%lookup_take_Some. eauto.
Qed.

Lemma array_setsize_shrink_spec kmalloc a l n Q :
  array_repr a l → 0 ≤ n ≤ num a →
  (∀ a', array_repr a' (take (Z.to_nat n) l) →
     max a' = (if (n =? 0) && (max a >? 16) then 0 else max a) → Q (Ret ()) a') →
  wp (array_setsize kmalloc n) Q a.
Proof.
  intros Hrepr Hn HQ. destruct (Hrepr) as [[Hnum Hmax Hvec] Hlen Hel].
  unfold array_setsize. wp_steps. apply wp_assert; [lia|]. wp_steps.
  rewrite (Z.gtb_ltb n), (proj2 (Z.ltb_ge _ _)) by lia.
  destruct ((n =? 0) && (max a >? 16)) eqn:Hc; wp_steps.
  - apply wp_assert; [destruct (vec a); [done|lia]|]. wp_steps. apply HQ; [|done].
    assert (n = 0) as -> by lia. rewrite take_0. split; [split; simpl; lia|done|].
    intros i x. by rewrite lookup_nil.
  - apply HQ; [by apply repr_shrink|done].
Qed.

Lemma array_setguy_spec a l i x Q :
  array_repr a l → 0 ≤ i < num a →
  (∀ a', array_repr a' (<[Z.to_nat i := x]> l) → Q (Ret ()) a') →
  wp (array_setguy i x) Q a.
Proof.
  intros Hrepr Hi HQ. destruct (Hrepr) as [[Hnum Hmax Hvec] Hlen Hel].
  destruct (repr_elem a l i Hrepr Hi) as (w & y & Hw & Hy & Hl). rewrite Hw in Hvec.
  unfold array_setguy. wp_steps. apply wp_assert; [lia|]. wp_steps. apply wp_assert; [lia|].
  wp_steps. eapply wp_deref; [done|]. wp_steps. eapply wp_deref; [apply zstore_in; lia|].
  wp_steps. apply HQ. split; [split; simpl; rewrite ?zlen_insert; lia| |].
  - simpl. by rewrite zlen_insert.
  - intros j z Hz. exists (<[Z.to_nat i:=Some x]> w). split; [done|].
    apply list_lookup_insert_Some in Hz as [(<- & <- & ?)|(? & Hz)].
    + apply list_lookup_insert_eq. unfold zlen in *; lia.
    + rewrite list_lookup_insert_ne by done. destruct (Hel j z Hz) as (? & ? & ?). by simplify_eq.
Qed.

(** A stored element after the last one. *)
Lemma repr_append a l x w :
  array_repr a l → vec a = Some w → num a < max a →
  array_repr {| num := num a + 1; max := max a; vec := Some (<[Z.to_nat (num a) := Some x]> w) |}
             (l ++ [x]).
Proof.
  intros [[Hnum Hmax Hvec] Hlen Hel] Hw Hlt. rewrite Hw in Hvec.
  split; [split; simpl; rewrite ?zlen_insert; lia|simpl; rewrite zlen_app; unfold zlen in *; simpl; lia|].
  intros i y Hy. eexists; split; [done|]. unfold zlen in *.
  apply lookup_app_Some in Hy as [Hy|[Hi Hy]].
  - rewrite list_lookup_insert_ne by (apply lookup_lt_Some in Hy; lia).
    destruct (Hel i y Hy) as (? & ? & ?). by simplify_eq.
  - apply list_lookup_singleton_Some in Hy as [? ->].
    replace (Z.to_nat (num a)) with i by lia. apply list_lookup_insert_eq. lia.
Qed.

(** Appending fails only when the storage is full and [kmalloc] fails. *)
Lemma array_add_spec kmalloc a l x Q :
  array_repr a l → zlen l + 1 < 2 ^ 29 →
  (∀ a', array_repr a' (l ++ [x]) → max a ≤ max a' → Q (Ret ()) a') →
  (kmalloc = false → num a = max a → Q (Fail ENOMEM) a) →
  wp (array_add kmalloc x) Q a.
Proof.
  intros Hrepr Hbound HQ HF. destruct (Hrepr) as [[Hnum Hmax Hvec] Hlen Hel].
  unfold array_add, array_setsize. wp_steps. apply wp_assert; [lia|]. wp_steps.
  assert (∀ a' s, array_repr a' l → num a' < max a' → max a ≤ max a' →
    wp (w ← deref (vec a'); w' ← deref (zstore w (num a) (Some x));
        put {| num := num a + 1; max := max a'; vec := Some w' |}) Q s) as Hstore.
  { intros a' s Hr' Hlt Hle. assert (num a' = num a) as <- by (rewrite Hlen; apply Hr').
    pose proof (repr_wf _ _ Hr') as [? ? Hv'].
    destruct (vec a') as [w|] eqn:Hw; [|lia]. wp_steps. eapply wp_deref; [done|]. wp_steps.
    eapply wp_deref; [apply zstore_in; lia|]. wp_steps. apply HQ; [|done].
    by apply repr_append. }
  rewrite Z.gtb_ltb. destruct (Z.ltb_spec (max a) (num a + 1)) as [Hlt|Hge].
  - eapply array_preallocate_spec; [done|lia| |intros; apply HF; [done|lia]].
    intros a' _ Hr' Hmax' Hmono. cbn beta iota. do 3 wp_step.
    apply (Hstore a' _ Hr'); [|done]. rewrite (repr_num _ _ Hr'). lia.
  - rewrite (proj2 (Z.eqb_neq (num a + 1) 0)) by lia. cbn [andb].
    do 4 wp_step. apply (Hstore a _ Hrepr); lia.
Qed.

Lemma array_remove_spec a l i Q :
  array_repr a l → 0 ≤ i < num a →
  (∀ a', array_repr a' (delete (Z.to_nat i) l) → max a' = max a → Q (Ret ()) a') →
  wp (array_remove i) Q a.
Proof.
  intros Hrepr Hi HQ. destruct (Hrepr) as [[Hnum Hmax Hvec] Hlen Hel].
  destruct (repr_elem a l i Hrepr Hi) as (w & y & Hw & Hy & Hl). rewrite Hw in Hvec.
  unfold array_remove. wp_steps. apply wp_assert; [lia|]. wp_steps. apply wp_assert; [lia|].
  wp_steps. eapply wp_deref; [done|]. rewrite (proj2 (Z.leb_le _ _)) by lia. wp_steps.
  unfold zlen in *. apply HQ; [|done]. split.
  - split; simpl; [lia|lia|]. unfold zlen. rewrite !length_app, !length_take, !length_drop. lia.
  - simpl. unfold zlen. rewrite length_delete by (by rewrite Hl). lia.
  - intros j z Hz. eexists; split; [done|].
    destruct (decide (j < Z.to_nat i)%nat).
    + rewrite list_lookup_delete_lt in Hz by done.
      rewrite lookup_app_l by (rewrite length_take; lia). rewrite lookup_take_lt by lia.
      destruct (Hel j z Hz) as (? & ? & ?). by simplify_eq.
    + rewrite list_lookup_delete_ge in Hz by lia. pose proof (lookup_lt_Some _ _ _ Hz).
      rewrite lookup_app_r by (rewrite length_take; lia).
      rewrite lookup_app_l by (rewrite !length_take, length_drop; lia).
      rewrite lookup_take_lt by (rewrite !length_take; lia). rewrite lookup_drop, length_take.
      destruct (Hel _ z Hz) as (? & ? & Hz'). simplify_eq. rewrite <- Hz'. f_equal. lia.
Qed.
End proofs.

(** ** The array as a list

    The operations of a client, and their meaning on lists. *)

Inductive array_op (A : Type) :=
  | OpAdd (x : A)
  | OpRemove (i : Z)
  | OpSet (i : Z) (x : A)
  | OpShrink (n : Z).
Arguments OpAdd {_} _.
Arguments OpRemove {_} _.
Arguments OpSet {_} _ _.
Arguments OpShrink {_} _.

Section refinement.
Context {A : Type}.
Implicit Types (a : array A) (l : list A).

Definition run_op (op : array_op A) : M (array A) unit :=
  match op with
  | OpAdd x => array_add true x
  | OpRemove i => array_remove i
  | OpSet i x => array_setguy i x
  | OpShrink n => array_setsize true n
  end.

Definition list_op (op : array_op A) (l : list A) : list A :=
  match op with
  | OpAdd x => l ++ [x]
  | OpRemove i => delete (Z.to_nat i) l
  | OpSet i x => <[Z.to_nat i := x]> l
  | OpShrink n => take (Z.to_nat n) l
  end.

(** The preconditions of the source: indices in range, sizes that fit. *)
Definition op_allowed (op : array_op A) (l : list A) : bool :=
  match op with
  | OpAdd _ => zlen l + 1 <? 2 ^ 29
  | OpRemove i | OpSet i _ => (0 <=? i) && (i <? zlen l)
  | OpShrink n => (0 <=? n) && (n <=? zlen l)
  end.

Fixpoint ops_allowed (ops : list (array_op A)) (l : list A) : bool :=
  match ops with
  | [] => true
  | op :: ops' => op_allowed op l && ops_allowed ops' (list_op op l)
  end.

Lemma run_op_spec op a l (Q : result unit → array A → Prop) :
  array_repr a l → op_allowed op l = true →
  (∀ a', array_repr a' (list_op op l) → Q (Ret ()) a') → wp (run_op op) Q a.
Proof.
  intros Hr Hok HQ. pose proof (repr_num a l Hr) as Hn. destruct op; simpl in *.
  - eapply array_add_spec; [done|lia| |done]. auto.
  - eapply array_remove_spec; [done|lia|]. auto.
  - eapply array_setguy_spec; [done|lia|]. auto.
  - eapply array_setsize_shrink_spec; [done|lia|]. auto.
Qed.

(** an array behaves as a list.  Any sequence of additions, removals,
    stores and truncations that keeps to the preconditions of the source runs
    without panic or memory error, and the array then represents the list the
    same sequence gives. *)
Theorem array_refines_list (ops : list (array_op A)) a l :
  array_repr a l → ops_allowed ops l = true →
  match forM ops run_op a with
  | (Ret _, a') => array_repr a' (foldl (λ l op, list_op op l) l ops)
  | _ => False
  end.
Proof.
  intros Hr Hok. eapply (wp_elim (forM ops run_op) (λ r a', match r with Ret _ => _ | _ => False end)).
  revert a l Hr Hok. induction ops as [|op ops IH]; intros a l Hr Hok; simpl in *; [by wp_step|].
  apply andb_true_iff in Hok as [Hop Hops]. wp_step. by eapply run_op_spec; [..|eauto].
Qed.

(** [array_getguy] on an array that represents [l] returns the element at
    the index, and panics exactly when the index is out of range. *)
Theorem array_getguy_correct a l i :
  array_repr a l →
  array_getguy i a =
    match l !z i with Some x => (Ret x, a) | None => (Halt Panic, a) end.
Proof.
  intros Hr. pose proof (repr_num a l Hr) as Hn. destruct (repr_wf a l Hr) as [Hnum _ _].
  destruct (decide (0 ≤ i < zlen l)) as [Hi|Hi].
  - eapply (wp_eq_intro (array_getguy i)). eapply array_getguy_spec; [done|lia|].
    intros x Hx. rewrite zlookup_nat by lia. by rewrite Hx.
  - assert (l !z i = None) as ->.
    { destruct (l !z i) eqn:E; [|done]. apply zlookup_Some_range in E. lia. }
    unfold array_getguy, mbind, M_bind, get, assert.
    rewrite (proj2 (Z.leb_le _ _)) by lia. simpl.
    replace ((0 <=? i) && (i <? num a)) with false by lia. done.
Qed.
End refinement.

(** An empty array, a run of a client on it, and the array that run leaves. *)
Definition empty_array : array Z := {| num := 0; max := 0; vec := None |}.
Definition example_ops : list (array_op Z) :=
  [OpAdd 10; OpAdd 20; OpAdd 30; OpRemove 0; OpSet 1 40; OpAdd 50; OpShrink 2].

Lemma array_refines_list_witness :
  match forM example_ops run_op empty_array with
  | (Ret _, a') => array_repr a' [20; 40]
  | _ => False
  end.
Proof.
  apply (array_refines_list example_ops empty_array []); [|reflexivity].
  apply array_create_repr. reflexivity.
Defined.

Definition example_array : array Z :=
  {| num := 2; max := 2; vec := Some [Some 7; Some 9] |}.

Lemma example_array_repr : array_repr example_array [7; 9].
Proof.
  split; [split; simpl; lia || done|done|].
  intros [|[|i]] x Hx; simpl in Hx; simplify_eq; eexists; split; reflexivity.
Qed.

Lemma array_getguy_correct_witness :
  array_getguy 1 example_array = (Ret 9, example_array) ∧
  array_getguy 2 example_array = (Halt Panic, example_array).
Proof.
  split; [apply (array_getguy_correct example_array [7; 9] 1)|
          apply (array_getguy_correct example_array [7; 9] 2)]; exact example_array_repr.
Defined.

(** [array_setsize] to zero gives the storage of a large array back, so
    that room made before by [array_preallocate] is lost and the next addition
    needs [kmalloc] again. *)
Theorem array_setsize_drops_preallocation :
  match (_ ← array_preallocate true 20; array_setsize true 0) empty_array with
  | (Ret _, a) => array_add false 1 a = (Fail ENOMEM, a)
  | _ => False
  end.
Proof. vm_compute. reflexivity. Qed.
