(* ===== verification/Queue.v ===== *)
(** * Ring-buffer queues of pointers (kern/lib/queue.c)

    [q_grow] and [q_addtail] call each other; the nesting depth is the fuel of
    [q_addtail_fuel], and the specification shows that one level is enough.
    [queue_repr q l] relates a ring buffer to the first-in first-out list [l]
    of its elements, oldest first. *)

From S2P Require Import Prelude Array.

Record queue (A : Type) :=
  { size : Z; nextwrite : Z; nextread : Z; data : list (option A) }.
Arguments size {_} _.
Arguments nextwrite {_} _.
Arguments nextread {_} _.
Arguments data {_} _.
Arguments Build_queue {_} _ _ _ _.

Section operations.
Context {A : Type}.

(** The block [kmalloc(n * sizeof(void * ))] returns: the product is taken in
    32 bits. *)
Definition ptr_block (n : Z) : list (option A) :=
  replicate (Z.to_nat (u32 (n * sizeof_ptr) / sizeof_ptr)) None.

Definition q_create (kmalloc1 kmalloc2 : bool) (sz : Z) : option (queue A) :=
  if negb kmalloc1 then None
  else if negb kmalloc2 then None
  else Some {| size := sz; nextwrite := 0; nextread := 0; data := ptr_block sz |}.

(** [while (nsize < targetsize) { nsize *= 2; assert(nsize > 0); }] *)
Fixpoint grow_size {St} (fuel : nat) (nsize targetsize : Z) : M St Z :=
  if nsize <? targetsize then
    match fuel with
    | O => nofuel
    | S fuel' =>
        let nsize' := s32 (nsize * 2) in
        _ ← assert (0 <? nsize');
        grow_size fuel' nsize' targetsize
    end
  else mret nsize.

(** [for (i=onr; i!=onw; i = (i+1)%osize)] with the body of [q_grow]. *)
Fixpoint requeue (addtail : A → M (queue A) unit) (olddata : list (option A))
    (osize onw : Z) (fuel : nat) (i : Z) : M (queue A) unit :=
  if i =? onw then mret ()
  else
    match fuel with
    | O => nofuel
    | S fuel' =>
        slot ← deref (olddata !z i);
        x ← deref slot;
        r ← attempt (addtail x);
        _ ← assert (if r is inl _ then true else false);
        requeue addtail olddata osize onw fuel' (Z.rem (i + 1) osize)
    end.

Definition q_grow_with (addtail : A → M (queue A) unit) (kmalloc : bool)
    (targetsize : Z) : M (queue A) unit :=
  q ← get;
  nsize ← grow_size 32 (size q) targetsize;
  if negb kmalloc then fail ENOMEM
  else
    _ ← put {| size := nsize; nextwrite := 0; nextread := 0; data := ptr_block nsize |};
    requeue addtail (data q) (size q) (nextwrite q) (Z.to_nat (size q)) (nextread q).

Fixpoint q_addtail_fuel (fuel : nat) (kmalloc : bool) (ptr : A) : M (queue A) unit :=
  q ← get;
  _ ← assert (0 <? size q);
  _ ← (if Z.rem (nextwrite q + 1) (size q) =? nextread q then
         match fuel with
         | O => nofuel
         | S fuel' => q_grow_with (q_addtail_fuel fuel' kmalloc) kmalloc (size q + 1)
         end
       else mret ());
  q ← get;
  let nextnext := Z.rem (nextwrite q + 1) (size q) in
  data' ← deref (zstore (data q) (nextwrite q) (Some ptr));
  put {| size := size q; nextwrite := nextnext; nextread := nextread q; data := data' |}.

Definition q_addtail : bool → A → M (queue A) unit := q_addtail_fuel 1.
Definition q_grow (kmalloc : bool) (targetsize : Z) : M (queue A) unit :=
  q_grow_with (q_addtail kmalloc) kmalloc targetsize.

Definition q_preallocate (kmalloc : bool) (sz : Z) : M (queue A) unit :=
  q ← get;
  _ ← assert (0 <? size q);
  if sz >? size q then q_grow kmalloc sz else mret ().

Definition q_empty (q : queue A) : bool := nextwrite q =? nextread q.

Definition q_remhead : M (queue A) A :=
  q ← get;
  _ ← assert (0 <? size q);
  _ ← assert (negb (q_empty q));
  slot ← deref (data q !z (nextread q));
  ret ← deref slot;
  _ ← put {| size := size q; nextwrite := nextwrite q;
             nextread := Z.rem (nextread q + 1) (size q); data := data q |};
  mret ret.

Definition q_destroy : M (queue A) unit := q ← get; assert (q_empty q).
Definition q_getstart (q : queue A) : Z := nextread q.
Definition q_getend (q : queue A) : Z := nextwrite q.
Definition q_getsize (q : queue A) : Z := size q.
Definition q_getguy (index : Z) : M (queue A) A :=
  q ← get;
  _ ← assert ((0 <=? index) && (index <? size q));
  slot ← deref (data q !z index);
  deref slot.

(** ** Representation *)

(** Position [k] places after [r] in a ring of [n] slots. *)
Definition slot_of (n r k : Z) : Z := if decide (r + k < n) then r + k else r + k - n.

Record queue_repr (q : queue A) (l : list A) : Prop := {
  qr_size : 0 < size q < 2 ^ 30;
  qr_data : zlen (data q) = size q;
  qr_read : 0 ≤ nextread q < size q;
  qr_room : zlen l < size q;
  qr_write : nextwrite q = slot_of (size q) (nextread q) (zlen l);
  qr_elems : ∀ i x, l !! i = Some x →
    data q !z (slot_of (size q) (nextread q) (Z.of_nat i)) = Some (Some x);
}.
End operations.

Section proofs.
Context {A : Type}.
Implicit Types (q : queue A) (l : list A) (x : A).

Ltac ring_arith := unfold slot_of in *; repeat case_decide; lia.

Lemma slot_of_range n r k : 0 ≤ r < n → 0 ≤ k < n → 0 ≤ slot_of n r k < n.
Proof. intros. ring_arith. Qed.

Lemma slot_of_inj n r j k :
  0 ≤ j < n → 0 ≤ k < n → slot_of n r j = slot_of n r k → j = k.
Proof. intros. ring_arith. Qed.

Lemma slot_of_0 n r : 0 ≤ r < n → slot_of n r 0 = r.
Proof. intros. ring_arith. Qed.

Lemma rem_succ n i : 0 ≤ i < n → Z.rem (i + 1) n = if decide (i + 1 = n) then 0 else i + 1.
Proof.
  intros. case_decide as He; [rewrite He, Z.rem_same; lia|]. apply Z.rem_small. lia.
Qed.

Lemma slot_of_succ n r k :
  0 ≤ r < n → 0 ≤ k < n → Z.rem (slot_of n r k + 1) n = slot_of n r (k + 1).
Proof. intros. rewrite rem_succ by (by apply slot_of_range). ring_arith. Qed.

Lemma ptr_block_len n : 0 ≤ n < 2 ^ 30 → zlen (@ptr_block A n) = n.
Proof.
  intros. unfold ptr_block, sizeof_ptr.
  rewrite zlen_replicate, u32_small, Z.div_mul by (unfold is_u32; lia). lia.
Qed.

Lemma new_ring_repr n :
  0 < n < 2 ^ 30 →
  queue_repr (Build_queue n 0 0 (@ptr_block A n)) [].
Proof.
  intros. split; simpl; [lia|apply ptr_block_len; lia|lia|unfold zlen; simpl; lia| |].
  { unfold zlen; simpl. ring_arith. }
  intros i x. by rewrite lookup_nil.
Qed.

Lemma q_create_repr n q :
  0 < n < 2 ^ 30 → q_create true true n = Some q → queue_repr q [] ∧ size q = n.
Proof. intros Hn [= <-]. split; [by apply new_ring_repr|done]. Qed.

Lemma q_empty_iff q l : queue_repr q l → q_empty q = bool_decide (l = []).
Proof.
  intros [? ? ? ? Hw ?]. unfold q_empty. rewrite Hw. pose proof (zlen_nonneg l).
  apply eq_bool_prop_intro. rewrite bool_decide_spec, Is_true_true, Z.eqb_eq. split.
  - intros ?. assert (zlen l = 0) by ring_arith. destruct l; [done|unfold zlen in *; simpl in *; lia].
  - intros ->. unfold zlen; simpl. ring_arith.
Qed.

(** The ring is full when it holds one element less than its size. *)
Lemma full_iff q l :
  queue_repr q l →
  (Z.rem (nextwrite q + 1) (size q) =? nextread q) = (zlen l + 1 =? size q).
Proof.
  intros [? ? ? ? Hw ?]. rewrite Hw. pose proof (zlen_nonneg l).
  rewrite slot_of_succ by lia. apply eq_bool_prop_intro.
  rewrite !Is_true_true, !Z.eqb_eq. ring_arith.
Qed.

Lemma repr_addtail q l x :
  queue_repr q l → zlen l + 1 < size q →
  queue_repr {| size := size q; nextwrite := Z.rem (nextwrite q + 1) (size q);
                nextread := nextread q;
                data := <[Z.to_nat (nextwrite q) := Some x]> (data q) |} (l ++ [x]).
Proof.
  intros [? ? ? ? Hw Hel] Hroom. pose proof (zlen_nonneg l).
  pose proof (slot_of_range (size q) (nextread q) (zlen l)).
  assert (zlen (l ++ [x]) = zlen l + 1) as Hlen by (by rewrite zlen_app).
  split; simpl; rewrite ?zlen_insert, ?Hlen; [done..| |].
  - rewrite Hw. apply slot_of_succ; lia.
  - intros i y Hy. pose proof (lookup_lt_Some _ _ _ Hy) as Hi.
    assert (Z.of_nat i < zlen l + 1) by (rewrite <- Hlen; unfold zlen; lia).
    pose proof (slot_of_range (size q) (nextread q) (Z.of_nat i)).
    rewrite Hw, zlookup_insert by lia. case_decide as Heq.
    + apply slot_of_inj in Heq; [|lia..]. unfold zlen in *.
      rewrite lookup_app_r in Hy by lia. apply list_lookup_singleton_Some in Hy as [_ ->]. done.
    + apply Hel. rewrite lookup_app_l in Hy; [done|].
      assert (Z.of_nat i ≠ zlen l) by (intros E; apply Heq; by rewrite E). unfold zlen in *; lia.
Qed.

Lemma store_tail_spec q l x Q :
  queue_repr q l → zlen l + 1 < size q →
  (∀ q', queue_repr q' (l ++ [x]) → size q' = size q → Q (Ret ()) q') →
  wp (q ← get;
      let nextnext := Z.rem (nextwrite q + 1) (size q) in
      data' ← deref (zstore (data q) (nextwrite q) (Some x));
      put {| size := size q; nextwrite := nextnext; nextread := nextread q; data := data' |}) Q q.
Proof.
  intros Hr Hroom HQ. wp_steps. pose proof (qr_size _ _ Hr). pose proof (zlen_nonneg l).
  pose proof (slot_of_range (size q) (nextread q) (zlen l) (qr_read _ _ Hr)).
  eapply wp_deref; [apply zstore_in; rewrite (qr_data _ _ Hr), (qr_write _ _ Hr); lia|].
  wp_steps. apply HQ; [|done]. by apply repr_addtail.
Qed.

Lemma addtail_room_spec fuel kmalloc q l x Q :
  queue_repr q l → zlen l + 1 < size q →
  (∀ q', queue_repr q' (l ++ [x]) → size q' = size q → Q (Ret ()) q') →
  wp (q_addtail_fuel fuel kmalloc x) Q q.
Proof.
  intros Hr Hroom HQ. destruct fuel; simpl; wp_steps;
    (apply wp_assert; [pose proof (qr_size _ _ Hr); lia|]); wp_step;
    rewrite (full_iff _ _ Hr), (proj2 (Z.eqb_neq _ _)) by lia; wp_step;
    by apply (store_tail_spec q l).
Qed.

Lemma grow_size_spec {St} fuel n target (Q : result Z → St → Prop) s :
  0 < n < 2 ^ 30 → target ≤ 2 ^ 29 → target ≤ n * 2 ^ Z.of_nat fuel →
  (∀ m, target ≤ m → n ≤ m < 2 ^ 30 → Q (Ret m) s) →
  wp (grow_size fuel n target) Q s.
Proof.
  revert n. induction fuel as [|fuel IH]; intros n Hn Ht Hfuel HQ; simpl;
    destruct (Z.ltb_spec n target); try lia; wp_steps; try (apply HQ; lia).
  rewrite s32_small by lia. apply wp_assert; [lia|]. apply IH; [lia|lia| |intros; apply HQ; lia].
  rewrite Nat2Z.inj_succ, Z.pow_succ_r in Hfuel by lia. lia.
Qed.

(** Requeueing the elements from position [k] on. *)
Lemma requeue_spec fuel kmalloc q0 l q k n Q :
  queue_repr q0 l → (k ≤ length l)%nat → (length l - k ≤ n)%nat →
  queue_repr q (take k l) → zlen l < size q →
  (∀ q', queue_repr q' l → size q' = size q → Q (Ret ()) q') →
  wp (requeue (q_addtail_fuel fuel kmalloc) (data q0) (size q0) (nextwrite q0) n
        (slot_of (size q0) (nextread q0) (Z.of_nat k))) Q q.
Proof.
  intros Hr0. destruct (Hr0) as [Hsz Hdata Hrd Hroom0 Hw Hel].
  revert q k. induction n as [|n IH]; intros q k Hk Hn Hr Hroom HQ; simpl.
  all: destruct (decide (k = length l)) as [->|Hne];
    [rewrite (proj2 (Z.eqb_eq _ _)) by done; rewrite firstn_all in Hr; wp_step; auto|].
  { lia. }
  destruct (lookup_lt_is_Some_2 l k) as [x Hx]; [lia|].
  rewrite (proj2 (Z.eqb_neq _ _)).
  2: { rewrite Hw. intros Heq%slot_of_inj; unfold zlen in *; lia. }
  wp_steps. eapply wp_deref; [by apply Hel|]. wp_steps. eapply wp_deref; [done|]. wp_steps.
  assert (zlen (take k l) = Z.of_nat k) as Hlk by (unfold zlen; rewrite length_take; lia).
  eapply addtail_room_spec; [done|unfold zlen in *; lia|]. intros q' Hr' Hsz'.
  wp_step. apply wp_assert; [done|].
  rewrite slot_of_succ by (unfold zlen in *; lia).
  replace (Z.of_nat k + 1) with (Z.of_nat (S k)) by lia.
  apply IH; [lia|lia| |lia|intros; apply HQ; [done|lia]].
  by rewrite (take_S_r _ _ _ Hx).
Qed.

Lemma grow_spec fuel kmalloc q l target Q :
  queue_repr q l → target ≤ 2 ^ 29 →
  (∀ q', kmalloc = true → queue_repr q' l → target ≤ size q' → size q ≤ size q' → Q (Ret ()) q') →
  (kmalloc = false → Q (Fail ENOMEM) q) →
  wp (q_grow_with (q_addtail_fuel fuel kmalloc) kmalloc target) Q q.
Proof.
  intros Hr Ht HQ HF. destruct (Hr) as [Hsz ? Hrd ? ? ?]. unfold q_grow_with. wp_steps.
  apply grow_size_spec; [done|done|lia|]. intros m Htm Hm.
  destruct kmalloc; simpl; wp_steps; [|auto].
  rewrite <- (slot_of_0 (size q) (nextread q)) by done.
  apply (requeue_spec fuel true q l _ 0%nat); [done|lia|unfold zlen in *; lia| | |].
  - rewrite take_0. apply new_ring_repr; lia.
  - simpl. lia.
  - simpl. intros q' Hr' Hs. apply HQ; [done|done|lia..].
Qed.

(** Adding at the tail appends; it fails only when the ring is full and
    [kmalloc] fails, and then nothing has changed. *)
Lemma q_addtail_spec kmalloc q l x Q :
  queue_repr q l → zlen l + 2 ≤ 2 ^ 29 →
  (∀ q', queue_repr q' (l ++ [x]) → size q ≤ size q' → Q (Ret ()) q') →
  (kmalloc = false → zlen l + 1 = size q → Q (Fail ENOMEM) q) →
  wp (q_addtail kmalloc x) Q q.
Proof.
  intros Hr Hbound HQ HF. pose proof (qr_room _ _ Hr).
  destruct (decide (zlen l + 1 < size q)) as [Hroom|Hfull].
  { apply (addtail_room_spec _ _ q l); [done..|]. intros; apply HQ; [done|lia]. }
  unfold q_addtail. simpl. wp_steps. apply wp_assert; [pose proof (qr_size _ _ Hr); lia|].
  wp_step. rewrite (full_iff _ _ Hr), (proj2 (Z.eqb_eq _ _)) by lia.
  apply (grow_spec 0 kmalloc q l); [done|lia| |intros; apply HF; [done|lia]].
  intros q' _ Hr' ? ?. apply (store_tail_spec q' l); [done|lia|].
  intros; apply HQ; [done|lia].
Qed.

Lemma q_preallocate_spec kmalloc q l n Q :
  queue_repr q l → n ≤ 2 ^ 29 →
  (∀ q', queue_repr q' l → n ≤ size q' → size q ≤ size q' → Q (Ret ()) q') →
  (kmalloc = false → size q < n → Q (Fail ENOMEM) q) →
  wp (q_preallocate kmalloc n) Q q.
Proof.
  intros Hr Hn HQ HF. unfold q_preallocate. wp_steps.
  apply wp_assert; [pose proof (qr_size _ _ Hr); lia|].
  rewrite Z.gtb_ltb. destruct (Z.ltb_spec (size q) n).
  - apply (grow_spec 1 kmalloc q l); [done|done|intros; by apply HQ|auto].
  - wp_step. apply HQ; [done|lia..].
Qed.

Lemma q_remhead_spec q x l Q :
  queue_repr q (x :: l) →
  (∀ q', queue_repr q' l → size q' = size q → Q (Ret x) q') →
  wp q_remhead Q q.
Proof.
  intros Hr HQ. destruct (Hr) as [Hsz Hdata Hrd Hroom Hw Hel].
  assert (zlen (x :: l) = zlen l + 1) as Hlen by (unfold zlen; simpl; lia).
  pose proof (zlen_nonneg l).
  unfold q_remhead. wp_steps. apply wp_assert; [lia|]. wp_step.
  apply wp_assert; [by rewrite (q_empty_iff _ _ Hr)|]. wp_steps.
  eapply wp_deref; [by rewrite <- (Hel 0%nat x), slot_of_0|]. wp_steps.
  eapply wp_deref; [done|]. wp_steps. apply HQ; [|done].
  rewrite <- (slot_of_0 (size q) (nextread q)), slot_of_succ by lia.
  split; simpl; [lia|lia|apply slot_of_range; lia|lia|rewrite Hw, Hlen; ring_arith|].
  intros i y Hy. rewrite <- (Hel (S i) y) by done. f_equal.
  apply lookup_lt_Some in Hy. unfold zlen in *. ring_arith.
Qed.
End proofs.

(** ** The queue as a first-in first-out list *)

Inductive queue_op (A : Type) := Enqueue (x : A) | Dequeue.
Arguments Enqueue {_} _.
Arguments Dequeue {_}.

Section refinement.
Context {A : Type}.
Implicit Types (q : queue A) (l : list A).

(** A run of a client; the result is the list of the elements removed. *)
Fixpoint q_run (ops : list (queue_op A)) : M (queue A) (list A) :=
  match ops with
  | [] => mret []
  | Enqueue x :: ops' => _ ← q_addtail true x; q_run ops'
  | Dequeue :: ops' => x ← q_remhead; xs ← q_run ops'; mret (x :: xs)
  end.

(** The same on lists; [None] when it takes from an empty queue or holds more
    elements than an [int] can index. *)
Fixpoint fifo_run (ops : list (queue_op A)) (l : list A) : option (list A * list A) :=
  match ops with
  | [] => Some ([], l)
  | Enqueue x :: ops' => if zlen l + 2 <=? 2 ^ 29 then fifo_run ops' (l ++ [x]) else None
  | Dequeue :: ops' =>
      match l with
      | [] => None
      | x :: l' => match fifo_run ops' l' with
                   | Some (xs, l'') => Some (x :: xs, l'')
                   | None => None
                   end
      end
  end.

Lemma q_run_spec ops q l xs l' (Q : result (list A) → queue A → Prop) :
  queue_repr q l → fifo_run ops l = Some (xs, l') →
  (∀ q', queue_repr q' l' → Q (Ret xs) q') → wp (q_run ops) Q q.
Proof.
  revert q l xs Q. induction ops as [|[x|] ops IH]; intros q l xs Q Hr Hrun HQ; simpl in *.
  - simplify_eq. wp_step. auto.
  - destruct (Z.leb_spec (zlen l + 2) (2 ^ 29)); [|done]. wp_step.
    eapply q_addtail_spec; [done|done| |done]. intros q' Hr' _. by eapply IH.
  - destruct l as [|x l]; [done|]. destruct (fifo_run ops l) as [[ys l'']|] eqn:Hf; simplify_eq.
    wp_step. eapply q_remhead_spec; [done|]. intros q' Hr' _. wp_step.
    eapply IH; [done|done|]. intros q'' Hr''. wp_step. auto.
Qed.

(** the ring buffer is a first-in first-out queue.  Any sequence of
    insertions and removals that a list queue allows runs without panic, gives
    the elements in the order of the list, and grows the ring as needed without
    losing or reordering any. *)
Theorem queue_refines_fifo ops q l xs l' :
  queue_repr q l → fifo_run ops l = Some (xs, l') →
  match q_run ops q with
  | (Ret ys, q') => ys = xs ∧ queue_repr q' l'
  | _ => False
  end.
Proof.
  intros Hr Hrun. eapply (wp_elim (q_run ops) (λ r q', match r with Ret _ => _ | _ => False end)).
  eapply q_run_spec; [done|done|]. auto.
Qed.

(** [q_addtail] appends, or fails with ENOMEM; it fails only when the ring
    holds [size - 1] elements and [kmalloc] fails, and then the queue is
    unchanged. *)
Theorem q_addtail_correct kmalloc q l (x : A) :
  queue_repr q l → zlen l + 2 ≤ 2 ^ 29 →
  match q_addtail kmalloc x q with
  | (Ret _, q') => queue_repr q' (l ++ [x]) ∧ size q ≤ size q'
  | (Fail e, q') => e = ENOMEM ∧ q' = q ∧ kmalloc = false ∧ zlen l + 1 = size q
  | (Halt _, _) => False
  end.
Proof.
  intros Hr Hb. eapply (wp_elim (q_addtail kmalloc x) (λ r q', match r with _ => _ end)).
  eapply q_addtail_spec; [done|done|auto|auto].
Qed.
End refinement.

Definition example_queue_ops : list (queue_op Z) :=
  [Enqueue 1; Enqueue 2; Dequeue; Enqueue 3; Enqueue 4; Dequeue; Dequeue; Enqueue 5].

Definition empty_queue : queue Z := {| size := 2; nextwrite := 0; nextread := 0; data := [None; None] |}.

Lemma empty_queue_repr : queue_repr empty_queue [].
Proof. apply (new_ring_repr 2). lia. Qed.

Lemma queue_refines_fifo_witness :
  match q_run example_queue_ops empty_queue with
  | (Ret ys, q') => ys = [1; 2; 3] ∧ queue_repr q' [4; 5]
  | _ => False
  end.
Proof.
  apply (queue_refines_fifo example_queue_ops empty_queue []); [exact empty_queue_repr|reflexivity].
Defined.

Lemma q_addtail_correct_witness :
  match q_addtail false 8 empty_queue with
  | (Ret _, q') => queue_repr q' [8] ∧ size empty_queue ≤ size q'
  | (Fail e, q') => e = ENOMEM ∧ q' = empty_queue ∧ false = false ∧ zlen (@nil Z) + 1 = size empty_queue
  | (Halt _, _) => False
  end.
Proof. apply (q_addtail_correct false empty_queue [] 8); [exact empty_queue_repr|done]. Defined.

(** [q_preallocate] for [n] elements makes a ring of [n] slots, which holds
    [n - 1]: after preallocating for two, the second [q_addtail] can still run
    out of memory. *)
Theorem q_preallocate_short :
  match (_ ← q_preallocate true 2; _ ← q_addtail false 1; q_addtail false 2) empty_queue with
  | (r, _) => r = Fail ENOMEM
  end.
Proof. vm_compute. reflexivity. Qed.
