(* ===== verification/CopyInOut.v ===== *)
(** * User/kernel copying (kern/lib/copyinout.c)

    Memory is a byte map over 32-bit addresses with a set of read-only
    addresses; an address outside the map faults.  User space is
    [0, USERTOP).  A fault while [pcb_badfaultfunc] is set resumes in
    [copyfail], whose [longjmp] makes the copy function return EFAULT: a fault
    inside a copy is the result [Fail EFAULT], with the bytes stored before
    the fault kept.  The kernel buffer of a copy is passed and returned by
    value. *)

From S2P Require Import Prelude.

Definition USERTOP : Z := 2 ^ 31.

Record memory := { mbytes : gmap Z Z; mro : gset Z }.

(** Load the [n] bytes at [a]; [None] when one of them faults. *)
Fixpoint mem_load (m : memory) (a : Z) (n : nat) : option (list Z) :=
  match n with
  | O => Some []
  | S n' =>
      match mbytes m !! a with
      | Some b => cons b <$> mem_load m (a + 1) n'
      | None => None
      end
  end.

Definition mem_writable (m : memory) (a : Z) : bool :=
  bool_decide (is_Some (mbytes m !! a)) && bool_decide (a ∉ mro m).

Definition mem_set (m : memory) (a b : Z) : memory :=
  {| mbytes := <[a := b]> (mbytes m); mro := mro m |}.

(** Store bytes from [a] upwards; stop at the first fault. *)
Fixpoint mem_store (m : memory) (a : Z) (bs : list Z) : bool * memory :=
  match bs with
  | [] => (true, m)
  | b :: bs' =>
      if mem_writable m a then mem_store (mem_set m a b) (a + 1) bs' else (false, m)
  end.

(** [*stoplen] on success. *)
Definition copycheck (userptr len : Z) : M memory Z :=
  let bot := userptr in
  let top := u32 (bot + len - 1) in
  if top <? bot then fail EFAULT
  else if bot >=? USERTOP then fail EFAULT
  else if top >=? USERTOP then mret (u32 (USERTOP - bot))
  else mret len.

Definition copyin (usersrc len : Z) : M memory (list Z) :=
  stoplen ← copycheck usersrc len;
  if negb (stoplen =? len) then fail EFAULT
  else
    m ← get;
    match mem_load m usersrc (Z.to_nat len) with
    | Some bs => mret bs
    | None => fail EFAULT
    end.

Definition copyout (src : list Z) (userdest len : Z) : M memory unit :=
  stoplen ← copycheck userdest len;
  if negb (stoplen =? len) then fail EFAULT
  else
    m ← get;
    _ ← (if zlen src <? len then undef else mret ());
    let '(ok, m') := mem_store m userdest (take (Z.to_nat len) src) in
    _ ← put m';
    if ok then mret () else fail EFAULT.

(** [copystr] with its source in user memory: [i] bytes are copied, [n] is
    what is left of [min maxlen stoplen]. *)
Fixpoint copystr_in (m : memory) (usersrc : Z) (maxlen stoplen : Z) (n : nat)
    : list Z + errno :=
  match n with
  | O => inr (if stoplen <? maxlen then EFAULT else ENAMETOOLONG)
  | S n' =>
      match mbytes m !! usersrc with
      | None => inr EFAULT
      | Some b =>
          if b =? 0 then inl [0]
          else match copystr_in m (usersrc + 1) maxlen stoplen n' with
               | inl bs => inl (b :: bs)
               | inr e => inr e
               end
      end
  end.

(** The bytes stored in [dest], the terminator included; [*actual] is their
    number. *)
Definition copyinstr (usersrc len : Z) : M memory (list Z) :=
  stoplen ← copycheck usersrc len;
  m ← get;
  result_of (copystr_in m usersrc len stoplen (Z.to_nat (Z.min len stoplen))).

(** [copystr] with its destination in user memory; the source is a kernel
    object.  Returns [*gotlen]. *)
Fixpoint copystr_out (src : list Z) (userdest i : Z) (maxlen stoplen : Z) (n : nat)
    : M memory Z :=
  match n with
  | O => fail (if stoplen <? maxlen then EFAULT else ENAMETOOLONG)
  | S n' =>
      b ← deref (src !z i);
      m ← get;
      if mem_writable m (userdest + i) then
        _ ← put (mem_set m (userdest + i) b);
        if b =? 0 then mret (i + 1)
        else copystr_out src userdest (i + 1) maxlen stoplen n'
      else fail EFAULT
  end.

Definition copyoutstr (src : list Z) (userdest len : Z) : M memory Z :=
  stoplen ← copycheck userdest len;
  copystr_out src userdest 0 len stoplen (Z.to_nat (Z.min len stoplen)).

(** ** Regions *)

(** The block of [len] bytes at [a] lies in user space. *)
Definition user_region (a len : Z) : Prop := 0 ≤ a ∧ a + len ≤ USERTOP.

(** Every byte of the block is mapped; and writable. *)
Definition readable (m : memory) (a len : Z) : Prop :=
  ∀ i, a ≤ i < a + len → is_Some (mbytes m !! i).
Definition writable (m : memory) (a len : Z) : Prop :=
  ∀ i, a ≤ i < a + len → mem_writable m i = true.

(** [m'] is [m] with the bytes [bs] at [a]. *)
Definition stored (m : memory) (a : Z) (bs : list Z) (m' : memory) : Prop :=
  mro m' = mro m ∧
  ∀ i, mbytes m' !! i =
    if decide (a ≤ i < a + zlen bs) then bs !z (i - a) else mbytes m !! i.

(** The bytes [bs] are in memory at [a]. *)
Definition bytes_at (m : memory) (a : Z) (bs : list Z) : Prop :=
  ∀ i b, bs !! i = Some b → mbytes m !! (a + Z.of_nat i) = Some b.

(** The C string [s] is in memory at [a]. *)
Definition cstring_at (m : memory) (a : Z) (s : list Z) : Prop :=
  bytes_at m a (s ++ [0]) ∧ 0 ∉ s.

Section proofs.
Implicit Types (m : memory) (a len : Z) (bs : list Z).

Lemma mem_load_spec m a n :
  match mem_load m a n with
  | Some bs => length bs = n ∧ ∀ i, (i < n)%nat → bs !! i = mbytes m !! (a + Z.of_nat i)
  | None => ¬ readable m a (Z.of_nat n)
  end.
Proof.
  revert a. induction n as [|n IH]; intros a; simpl.
  { split; [done|lia]. }
  destruct (mbytes m !! a) as [b|] eqn:Hb.
  2: { intros Hr. destruct (Hr a) as [? ?]; [lia|congruence]. }
  specialize (IH (a + 1)). destruct (mem_load m (a + 1) n) as [bs|]; simpl.
  - destruct IH as [<- Hbs]. split; [done|]. intros [|i] Hi; simpl.
    + by rewrite Z.add_0_r.
    + rewrite Hbs by lia. f_equal. lia.
  - intros Hr. apply IH. intros i Hi. apply Hr. lia.
Qed.

Lemma mem_load_readable m a n :
  readable m a (Z.of_nat n) → ∃ bs, mem_load m a n = Some bs.
Proof. pose proof (mem_load_spec m a n). destruct (mem_load m a n); naive_solver. Qed.

Lemma mem_writable_set m a b i :
  mem_writable m a = true → mem_writable (mem_set m a b) i = mem_writable m i.
Proof.
  unfold mem_writable; simpl. intros [Ha%bool_decide_eq_true ?]%andb_true_iff. f_equal.
  apply bool_decide_ext. destruct (decide (i = a)) as [->|].
  - rewrite lookup_insert_eq. naive_solver.
  - by rewrite lookup_insert_ne by done.
Qed.

Lemma stored_nil m a : stored m a [] m.
Proof. split; [done|]. intros i. unfold zlen; simpl. by rewrite decide_False by lia. Qed.

Lemma stored_cons m a b bs m' :
  stored (mem_set m a b) (a + 1) bs m' → stored m a (b :: bs) m'.
Proof.
  intros [Hro Hb]. split; [done|]. intros i. rewrite Hb. simpl.
  assert (zlen (b :: bs) = zlen bs + 1) as -> by (unfold zlen; simpl; lia).
  pose proof (zlen_nonneg bs).
  destruct (decide (i = a)) as [->|Hne].
  - rewrite decide_False, decide_True, Z.sub_diag, lookup_insert_eq by lia. done.
  - rewrite lookup_insert_ne by done. repeat case_decide; try lia; [|done].
    rewrite !zlookup_nat by lia. replace (Z.to_nat (i - a)) with (S (Z.to_nat (i - (a + 1)))) by lia.
    done.
Qed.

Lemma mem_store_spec m a bs :
  match mem_store m a bs with
  | (true, m') => writable m a (zlen bs) ∧ stored m a bs m'
  | (false, m') => ¬ writable m a (zlen bs) ∧
                   ∃ k, (k < length bs)%nat ∧ stored m a (take k bs) m'
  end.
Proof.
  revert m a. induction bs as [|b bs IH]; intros m a; simpl.
  { split; [|apply stored_nil]. intros i. unfold zlen; simpl; lia. }
  assert (zlen (b :: bs) = zlen bs + 1) as -> by (unfold zlen; simpl; lia).
  pose proof (zlen_nonneg bs).
  destruct (mem_writable m a) eqn:Hw.
  2: { split; [intros Hall; rewrite Hall in Hw; [done|lia]|].
       exists 0%nat. split; [lia|]. apply stored_nil. }
  specialize (IH (mem_set m a b) (a + 1)).
  assert (writable (mem_set m a b) (a + 1) (zlen bs) ↔ writable m a (zlen bs + 1)) as Hiff.
  { split; intros Hall i Hi.
    - destruct (decide (i = a)) as [->|]; [done|]. rewrite <- (mem_writable_set m a b) by done.
      apply Hall; lia.
    - rewrite mem_writable_set by done. apply Hall; lia. }
  destruct (mem_store _ _ _) as [[] m'].
  - destruct IH as [? ?]. split; [by apply Hiff|]. by apply stored_cons.
  - destruct IH as (? & k & ? & ?). split; [by rewrite <- Hiff|].
    exists (S k). split; [lia|]. by apply stored_cons.
Qed.

Lemma copycheck_spec a len Q m :
  is_u32 a → is_u32 len →
  (∀ stop, 0 < len → a < USERTOP → stop = Z.min len (USERTOP - a) → Q (Ret stop) m) →
  (len = 0 ∨ USERTOP ≤ a ∨ 2 ^ 32 < a + len → Q (Fail EFAULT) m) →
  (a = 0 → len = 0 → Q (Ret USERTOP) m) →
  wp (copycheck a len) Q m.
Proof.
  unfold is_u32, USERTOP. intros Ha Hlen HQ HF H0. unfold copycheck, USERTOP.
  assert (u32 (a + len - 1) =
    if decide (a + len - 1 < 0) then 2 ^ 32 - 1 else
    if decide (a + len - 1 < 2 ^ 32) then a + len - 1 else a + len - 1 - 2 ^ 32) as ->.
  { unfold u32. repeat case_decide.
    - replace (a + len - 1) with (2 ^ 32 - 1 + (-1) * 2 ^ 32) by lia.
      rewrite Z.mod_add by lia. apply Z.mod_small; lia.
    - apply Z.mod_small; lia.
    - symmetry. apply Z.mod_unique with 1; lia. }
  rewrite !Z.geb_leb. repeat case_decide; repeat case_match; wp_steps;
    try (apply HF; lia); try (apply HQ; [lia..|]); try lia; try (apply H0; lia).
  all: rewrite u32_small by (unfold is_u32; lia).
  - replace (2 ^ 31 - a) with (2 ^ 31) by lia. apply H0; lia.
  - lia.
Qed.

(** What [copyin] does on any arguments. *)
Lemma copyin_spec a len Q m :
  is_u32 a → is_u32 len →
  (∀ bs, 0 < len → user_region a len → zlen bs = len →
     (∀ i, 0 ≤ i < len → bs !z i = mbytes m !! (a + i)) → Q (Ret bs) m) →
  (¬ (0 < len ∧ user_region a len ∧ readable m a len) → Q (Fail EFAULT) m) →
  wp (copyin a len) Q m.
Proof.
  intros Ha Hlen HQ HF. unfold copyin. wp_steps. unfold is_u32, user_region, USERTOP in *.
  apply copycheck_spec; [done|done|..]; unfold USERTOP.
  - intros stop Hpos Hlt ->. destruct (Z.eqb_spec (Z.min len (2 ^ 31 - a)) len); simpl; wp_steps.
    2: { apply HF. lia. }
    pose proof (mem_load_spec m a (Z.to_nat len)) as Hload.
    rewrite Z2Nat.id in Hload by lia.
    destruct (mem_load _ _ _) as [bs|]; wp_steps; [|apply HF; tauto].
    destruct Hload as [Hl Hbs]. apply HQ; [lia|lia|unfold zlen; lia|]. intros i Hi.
    rewrite zlookup_nat, Hbs by lia. f_equal. lia.
  - intros. apply HF. lia.
  - intros -> ->. simpl. wp_step. apply HF. lia.
Qed.

Lemma copyout_spec src a len Q m :
  is_u32 a → is_u32 len → len ≤ zlen src →
  (∀ m', 0 < len → user_region a len → writable m a len →
     stored m a (take (Z.to_nat len) src) m' → Q (Ret ()) m') →
  (∀ m' k, ¬ (0 < len ∧ user_region a len ∧ writable m a len) →
     0 ≤ k → (k = 0 ∨ k < len ∧ user_region a len) →
     stored m a (take (Z.to_nat k) src) m' → Q (Fail EFAULT) m') →
  wp (copyout src a len) Q m.
Proof.
  intros Ha Hlen Hsrc HQ HF. unfold copyout. wp_steps. unfold is_u32, user_region, USERTOP in *.
  assert (¬ (0 < len ∧ (0 ≤ a ∧ a + len ≤ 2 ^ 31) ∧ writable m a len) →
    Q (Fail EFAULT) m) as HF0.
  { intros Hn. apply (HF m 0); [done|lia|by left|]. apply stored_nil. }
  apply copycheck_spec; [done|done|..]; unfold USERTOP.
  - intros stop Hpos Hlt ->. destruct (Z.eqb_spec (Z.min len (2 ^ 31 - a)) len); simpl; wp_steps.
    2: { apply HF0; lia. }
    rewrite (proj2 (Z.ltb_ge _ _)) by lia. wp_step.
    pose proof (mem_store_spec m a (take (Z.to_nat len) src)) as Hst.
    assert (zlen (take (Z.to_nat len) src) = len) as Hl
      by (unfold zlen in *; rewrite length_take; lia).
    rewrite Hl in Hst. destruct (mem_store _ _ _) as [[] m']; wp_steps.
    + destruct Hst. apply HQ; [lia|lia|done|done].
    + destruct Hst as (Hn & k & Hk & Hst). rewrite length_take in Hk.
      rewrite take_take, Nat.min_l in Hst by lia.
      apply (HF m' (Z.of_nat k)); [tauto|lia|right; lia|by rewrite Nat2Z.id].
  - intros. apply HF0; lia.
  - intros -> ->. simpl. wp_step. apply HF0; lia.
Qed.

Lemma bytes_at_cons m a b bs :
  bytes_at m a (b :: bs) ↔ mbytes m !! a = Some b ∧ bytes_at m (a + 1) bs.
Proof.
  split.
  - intros H. split; [by rewrite <- (Z.add_0_r a); apply (H 0%nat)|].
    intros i c Hc. rewrite <- (H (S i) c Hc). f_equal. lia.
  - intros [Hb H] [|i] c Hc; simpl in *.
    + rewrite Z.add_0_r. congruence.
    + rewrite <- (H i c Hc). f_equal. lia.
Qed.

Lemma cstring_at_cons m a b s :
  cstring_at m a (b :: s) ↔ b ≠ 0 ∧ mbytes m !! a = Some b ∧ cstring_at m (a + 1) s.
Proof.
  unfold cstring_at. simpl. rewrite bytes_at_cons, not_elem_of_cons. naive_solver.
Qed.

Lemma cstring_at_nil m a : cstring_at m a [] ↔ mbytes m !! a = Some 0.
Proof.
  unfold cstring_at. simpl. rewrite bytes_at_cons. split; [naive_solver|].
  intros ?. repeat split; [done| |apply not_elem_of_nil]. intros i b. by rewrite lookup_nil.
Qed.

Lemma copystr_in_spec m maxlen stoplen n a bs :
  copystr_in m a maxlen stoplen n = inl bs ↔
  ∃ s, bs = s ++ [0] ∧ (length s < n)%nat ∧ cstring_at m a s.
Proof.
  revert a bs. induction n as [|n IH]; intros a bs; simpl.
  { split; [done|]. intros (s & _ & ? & _). lia. }
  destruct (mbytes m !! a) as [b|] eqn:Hb.
  2: { split; [done|]. intros ([|c s] & _ & _ & Hs);
         [apply cstring_at_nil in Hs|apply cstring_at_cons in Hs]; naive_solver. }
  destruct (Z.eqb_spec b 0) as [->|Hb0].
  - split.
    + intros [= <-]. exists []. rewrite cstring_at_nil. simpl. auto with lia.
    + intros ([|c s] & -> & _ & Hs); [done|]. apply cstring_at_cons in Hs. naive_solver.
  - destruct (copystr_in m (a + 1) maxlen stoplen n) as [bs'|e] eqn:Hrec.
    + apply IH in Hrec as Hrec'. destruct Hrec' as (s & -> & Hs & Hat). split.
      * intros [= <-]. exists (b :: s). rewrite cstring_at_cons. simpl. auto with lia.
      * intros ([|c s'] & -> & ? & Hs'); [apply cstring_at_nil in Hs'; congruence|].
        apply cstring_at_cons in Hs' as (? & Hc & Hs'). simpl in *. simplify_eq.
        assert (copystr_in m (a + 1) maxlen stoplen n = inl (s' ++ [0])) as Heq
          by (apply IH; exists s'; auto with lia). congruence.
    + split; [done|]. intros ([|c s'] & -> & ? & Hs'); [apply cstring_at_nil in Hs'; congruence|].
      apply cstring_at_cons in Hs' as (? & Hc & Hs'). simpl in *.
      assert (inr e = @inl _ errno (s' ++ [0])) as Heq
        by (rewrite <- Hrec; apply IH; exists s'; auto with lia). done.
Qed.

Lemma copystr_in_errors m maxlen stoplen n a e :
  copystr_in m a maxlen stoplen n = inr e → e = EFAULT ∨ e = ENAMETOOLONG.
Proof.
  revert a. induction n as [|n IH]; intros a; simpl.
  { case_match; naive_solver. }
  repeat case_match; naive_solver.
Qed.

(** A string of user memory comes in whole, with its terminator, exactly when
    it ends within [len] bytes and within user space. *)
Lemma copyinstr_spec a len Q m :
  is_u32 a → is_u32 len → a + len ≤ 2 ^ 32 →
  (∀ s, cstring_at m a s → zlen s + 1 ≤ len → user_region a (zlen s + 1) →
     Q (Ret (s ++ [0])) m) →
  (∀ e, e = EFAULT ∨ e = ENAMETOOLONG →
     ¬ (∃ s, cstring_at m a s ∧ zlen s + 1 ≤ len ∧ user_region a (zlen s + 1)) →
     Q (Fail e) m) →
  wp (copyinstr a len) Q m.
Proof.
  intros Ha Hlen Hwrap HQ HF. unfold copyinstr. wp_steps. unfold is_u32 in *.
  assert (∀ s : list Z, ¬ (zlen s + 1 ≤ 0)) by (intros s; unfold zlen; lia).
  apply copycheck_spec; [done|done|..]; unfold user_region, zlen, USERTOP in *.
  - intros stop Hpos Hlt ->. wp_steps. unfold result_of.
    destruct (copystr_in _ _ _ _ _) as [bs|e] eqn:Hc; wp_steps.
    + apply copystr_in_spec in Hc as (s & -> & Hs & Hat). apply HQ; [done|lia..].
    + apply HF; [by eapply copystr_in_errors|]. intros (s & Hat & ? & ?).
      assert (inr e = @inl _ errno (s ++ [0])); [|done].
      rewrite <- Hc. apply copystr_in_spec. exists s. auto with lia.
  - intros Hbad. apply HF; [by left|]. intros (s & _ & ? & ?). lia.
  - intros -> ->. wp_steps. apply HF; [by right|]. intros (s & _ & ? & _). naive_solver.
Qed.
End proofs.

(** ** Properties *)

(** [copyin] returns the bytes of a block that lies in user space and is
    mapped, and EFAULT for every other block; it never stops and never touches
    memory.  A block of length zero is refused. *)
Theorem copyin_correct a len m :
  is_u32 a → is_u32 len →
  match copyin a len m with
  | (Ret bs, m') => m' = m ∧ 0 < len ∧ user_region a len ∧ zlen bs = len ∧ bytes_at m a bs
  | (Fail e, m') => m' = m ∧ e = EFAULT ∧ ¬ (0 < len ∧ user_region a len ∧ readable m a len)
  | (Halt _, _) => False
  end.
Proof.
  intros Ha Hlen. eapply (wp_elim (copyin a len) (λ r m', match r with _ => _ end)).
  apply copyin_spec; [done|done| |auto].
  intros bs Hpos Hreg Hl Hbs. split_and!; [done..|]. intros i b Hb.
  pose proof (lookup_lt_Some _ _ _ Hb). unfold zlen in *.
  rewrite <- Hbs, zlookup_nat, Nat2Z.id by lia. done.
Qed.

(** [copyout] changes only user memory of the destination block.  On
    success the block holds the source bytes; on EFAULT at most a proper prefix
    of it was stored, and none of it when the block is not in user space. *)
Theorem copyout_correct src a len m :
  is_u32 a → is_u32 len → len ≤ zlen src →
  match copyout src a len m with
  | (Ret _, m') => user_region a len ∧ stored m a (take (Z.to_nat len) src) m'
  | (Fail e, m') => e = EFAULT ∧ ∃ k, 0 ≤ k ∧ (k = 0 ∨ k < len ∧ user_region a len) ∧
                    stored m a (take (Z.to_nat k) src) m'
  | (Halt _, _) => False
  end.
Proof.
  intros Ha Hlen Hsrc. eapply (wp_elim (copyout src a len) (λ r m', match r with _ => _ end)).
  apply copyout_spec; [done|done|done|auto|]. intros m' k _ Hk Hc Hst. eauto.
Qed.

(** [copyinstr] brings in a string of user memory with its terminator
    exactly when it ends within [len] bytes and within user space; otherwise it
    returns EFAULT or ENAMETOOLONG. *)
Theorem copyinstr_correct a len m :
  is_u32 a → is_u32 len → a + len ≤ 2 ^ 32 →
  match copyinstr a len m with
  | (Ret bs, m') => m' = m ∧ ∃ s, bs = s ++ [0] ∧ cstring_at m a s ∧ zlen s + 1 ≤ len ∧
                    user_region a (zlen s + 1)
  | (Fail e, m') => m' = m ∧ (e = EFAULT ∨ e = ENAMETOOLONG) ∧
                    ¬ ∃ s, cstring_at m a s ∧ zlen s + 1 ≤ len ∧ user_region a (zlen s + 1)
  | (Halt _, _) => False
  end.
Proof.
  intros Ha Hlen Hw. eapply (wp_elim (copyinstr a len) (λ r m', match r with _ => _ end)).
  apply copyinstr_spec; [done|done|done|eauto 10|auto].
Qed.

(** The string "hi" and some bytes at address 4096. *)
Definition example_memory : memory :=
  {| mbytes := {[ 4096 := 104; 4097 := 105; 4098 := 0; 4099 := 7 ]}; mro := {[ 4099 ]} |}.

Lemma copyin_correct_witness :
  match copyin 4096 3 example_memory with
  | (Ret bs, m') => m' = example_memory ∧ 0 < 3 ∧ user_region 4096 3 ∧ zlen bs = 3 ∧
                    bytes_at example_memory 4096 bs
  | (Fail e, m') => m' = example_memory ∧ e = EFAULT ∧
                    ¬ (0 < 3 ∧ user_region 4096 3 ∧ readable example_memory 4096 3)
  | (Halt _, _) => False
  end.
Proof. apply (copyin_correct 4096 3 example_memory); done. Defined.

Lemma copyout_correct_witness :
  match copyout [1; 2; 3; 4] 4096 4 example_memory with
  | (Ret _, m') => user_region 4096 4 ∧ stored example_memory 4096 [1; 2; 3; 4] m'
  | (Fail e, m') => e = EFAULT ∧ ∃ k, 0 ≤ k ∧ (k = 0 ∨ k < 4 ∧ user_region 4096 4) ∧
                    stored example_memory 4096 (take (Z.to_nat k) [1; 2; 3; 4]) m'
  | (Halt _, _) => False
  end.
Proof. apply (copyout_correct [1; 2; 3; 4] 4096 4 example_memory); done. Defined.

Lemma copyinstr_correct_witness :
  match copyinstr 4096 1024 example_memory with
  | (Ret bs, m') => m' = example_memory ∧ ∃ s, bs = s ++ [0] ∧ cstring_at example_memory 4096 s ∧
                    zlen s + 1 ≤ 1024 ∧ user_region 4096 (zlen s + 1)
  | (Fail e, m') => m' = example_memory ∧ (e = EFAULT ∨ e = ENAMETOOLONG) ∧
                    ¬ ∃ s, cstring_at example_memory 4096 s ∧ zlen s + 1 ≤ 1024 ∧
                           user_region 4096 (zlen s + 1)
  | (Halt _, _) => False
  end.
Proof. apply (copyinstr_correct 4096 1024 example_memory); done. Defined.
