(* ===== verification/Uio.v ===== *)
(** * Scatter/gather descriptors (kern/userprog/uio.c, kern/include/uio.h)

    A [uio] describes the memory a caller wants data moved to or from.  The
    state of an operation is the descriptor, the memory, and the address space
    in context ([curthread->t_vmspace]).  The kernel buffer of [uiomove] is
    passed by value and, for a write, returned by value; on an error return
    its contents are dropped, which is what every caller does with it. *)

From S2P Require Import Prelude CopyInOut.

Inductive uio_rw := UIO_READ | UIO_WRITE.
Inductive uio_seg := UIO_USERSPACE | UIO_SYSSPACE | UIO_USERISPACE.

#[export] Instance uio_rw_eq_dec : EqDecision uio_rw.
Proof. solve_decision. Defined.
#[export] Instance uio_seg_eq_dec : EqDecision uio_seg.
Proof. solve_decision. Defined.

Record uio := {
  iov_base : Z;
  iov_len : Z;
  uio_offset : Z;
  uio_resid : Z;
  uio_segflg : uio_seg;
  uio_dir : uio_rw;
  uio_space : option Z;
}.

Record uiost := { u : uio; mem : memory; t_vmspace : option Z }.

Definition set_u (u' : uio) (s : uiost) : uiost :=
  {| u := u'; mem := mem s; t_vmspace := t_vmspace s |}.
Definition set_mem (m : memory) (s : uiost) : uiost :=
  {| u := u s; mem := m; t_vmspace := t_vmspace s |}.
Definition on_mem {A} : M memory A → M uiost A := zoom mem set_mem.

(** The update of the descriptor after [size] bytes have moved. *)
Definition advance (size : Z) (u : uio) : uio :=
  {| iov_base := iov_base u + size;
     iov_len := u32 (iov_len u - size);
     uio_offset := s32 (uio_offset u + size);
     uio_resid := u32 (uio_resid u - size);
     uio_segflg := uio_segflg u;
     uio_dir := uio_dir u;
     uio_space := uio_space u |}.

(** The [memmove] of the UIO_SYSSPACE case: a bad kernel address is not
    recovered. *)
Definition kmove_out (src : list Z) (kbase : Z) : M memory unit :=
  m ← get;
  let '(ok, m') := mem_store m kbase src in
  _ ← put m';
  if ok then mret () else undef.
Definition kmove_in (kbase len : Z) : M memory (list Z) :=
  m ← get; deref (mem_load m kbase (Z.to_nat len)).

(** The [size] bytes of the kernel buffer at [pos]. *)
Definition slice (pos size : Z) (buf : list Z) : option (list Z) :=
  if decide (0 ≤ pos ∧ 0 ≤ size ∧ pos + size ≤ zlen buf)
  then Some (take (Z.to_nat size) (drop (Z.to_nat pos) buf)) else None.
(** The buffer with the bytes [bs] at [pos]. *)
Definition splice (pos : Z) (bs buf : list Z) : option (list Z) :=
  if decide (0 ≤ pos ∧ pos + zlen bs ≤ zlen buf)
  then Some (take (Z.to_nat pos) buf ++ bs ++ drop (Z.to_nat (pos + zlen bs)) buf)
  else None.

(** One transfer of [size] bytes between the buffer at [pos] and the memory
    the descriptor points to. *)
Definition uio_transfer (pos size : Z) (buf : list Z) : M uiost (list Z) :=
  s ← get;
  let base := iov_base (u s) in
  match uio_segflg (u s), uio_dir (u s) with
  | UIO_SYSSPACE, UIO_READ =>
      src ← deref (slice pos size buf);
      _ ← on_mem (kmove_out src base);
      mret buf
  | UIO_SYSSPACE, UIO_WRITE =>
      bs ← on_mem (kmove_in base size);
      deref (splice pos bs buf)
  | _, UIO_READ =>
      src ← deref (slice pos size buf);
      _ ← on_mem (copyout src base size);
      mret buf
  | _, UIO_WRITE =>
      bs ← on_mem (copyin base size);
      deref (splice pos bs buf)
  end.

Fixpoint uiomove_loop (fuel : nat) (pos n : Z) (buf : list Z) : M uiost (list Z) :=
  s ← get;
  if (0 <? n) && (0 <? uio_resid (u s)) then
    match fuel with
    | O => nofuel
    | S fuel' =>
        let size := if iov_len (u s) >? n then n else iov_len (u s) in
        _ ← assert (negb (size =? 0));
        buf' ← uio_transfer pos size buf;
        _ ← modify (λ s, set_u (advance size (u s)) s);
        uiomove_loop fuel' (pos + size) (n - size) buf'
    end
  else mret buf.

Definition uio_space_ok (s : uiost) : bool :=
  match uio_segflg (u s) with
  | UIO_SYSSPACE => bool_decide (uio_space (u s) = None)
  | _ => bool_decide (uio_space (u s) = t_vmspace s)
  end.

(** [uiomove(ptr, n, uio)]: returns the contents of the buffer at [ptr]. *)
Definition uiomove (buf : list Z) (n : Z) : M uiost (list Z) :=
  s ← get;
  _ ← assert (uio_space_ok s);
  uiomove_loop 2 0 n buf.

Definition zeros : list Z := replicate 16 0.

Fixpoint uiomovezeros_loop (fuel : nat) (n : Z) : M uiost unit :=
  if 0 <? n then
    match fuel with
    | O => nofuel
    | S fuel' =>
        let amt := if zlen zeros >? n then n else zlen zeros in
        _ ← uiomove zeros amt;
        uiomovezeros_loop fuel' (n - amt)
    end
  else mret ().

Definition uiomovezeros (n : Z) : M uiost unit :=
  s ← get;
  _ ← assert (bool_decide (uio_dir (u s) = UIO_READ));
  uiomovezeros_loop (Z.to_nat n) n.

Definition mk_kuio (kbuf len pos : Z) (rw : uio_rw) : uio :=
  {| iov_base := kbuf; iov_len := len; uio_offset := pos; uio_resid := len;
     uio_segflg := UIO_SYSSPACE; uio_dir := rw; uio_space := None |}.

(** ** Well-formed requests *)

(** The descriptor is set up as kern/include/uio.h asks: the count is within
    the block, the address space is the right one, and a kernel block is there. *)
Record uio_ok (s : uiost) : Prop := {
  ok_resid : 0 ≤ uio_resid (u s) ≤ iov_len (u s);
  ok_len : is_u32 (iov_len (u s));
  ok_offset : - 2 ^ 31 ≤ uio_offset (u s) < 2 ^ 31;
  ok_space : uio_space_ok s = true;
  ok_user : uio_segflg (u s) ≠ UIO_SYSSPACE → is_u32 (iov_base (u s));
  ok_read : uio_segflg (u s) = UIO_SYSSPACE → uio_dir (u s) = UIO_READ →
    writable (mem s) (iov_base (u s)) (iov_len (u s));
  ok_write : uio_segflg (u s) = UIO_SYSSPACE → uio_dir (u s) = UIO_WRITE →
    readable (mem s) (iov_base (u s)) (iov_len (u s));
}.

(** The state after [k] bytes have been moved into memory, or out of it. *)
Record moved_in (s : uiost) (bs : list Z) (s' : uiost) : Prop := {
  mi_uio : u s' = advance (zlen bs) (u s);
  mi_mem : stored (mem s) (iov_base (u s)) bs (mem s');
  mi_space : t_vmspace s' = t_vmspace s;
}.
Definition moved_out (s : uiost) (bs : list Z) (s' : uiost) : Prop :=
  bytes_at (mem s) (iov_base (u s)) bs ∧
  s' = set_u (advance (zlen bs) (u s)) s.

Section proofs.
Implicit Types (s : uiost) (buf bs : list Z).

Lemma advance_0 x :
  is_u32 (iov_len x) → - 2 ^ 31 ≤ uio_offset x < 2 ^ 31 → 0 ≤ uio_resid x ≤ iov_len x →
  advance 0 x = x.
Proof.
  intros Hl Ho Hr. unfold advance. rewrite !Z.sub_0_r, !Z.add_0_r, s32_small by done.
  rewrite !u32_small by (unfold is_u32 in *; lia). by destruct x.
Qed.

Lemma advance_advance j k x : advance k (advance j x) = advance (j + k) x.
Proof.
  unfold advance; simpl. f_equal; unfold u32, s32.
  - lia.
  - rewrite Zminus_mod_idemp_l. f_equal. lia.
  - f_equal. replace ((uio_offset x + j + 2 ^ 31) mod 2 ^ 32 - 2 ^ 31 + k + 2 ^ 31)
      with ((uio_offset x + j + 2 ^ 31) mod 2 ^ 32 + k) by lia.
    rewrite Z.add_mod_idemp_l by lia. f_equal. lia.
  - rewrite Zminus_mod_idemp_l. f_equal. lia.
Qed.

Lemma stored_app m a b1 b2 m1 m2 :
  stored m a b1 m1 → stored m1 (a + zlen b1) b2 m2 → stored m a (b1 ++ b2) m2.
Proof.
  intros [Hr1 H1] [Hr2 H2]. split; [congruence|]. intros i. rewrite H2, zlen_app.
  pose proof (zlen_nonneg b1). pose proof (zlen_nonneg b2). case_decide.
  - rewrite decide_True, !zlookup_nat by lia. unfold zlen in *.
    rewrite lookup_app_r by lia. f_equal. lia.
  - rewrite H1. case_decide; [rewrite decide_True|rewrite decide_False]; [|lia|done|lia].
    rewrite !zlookup_nat by lia. unfold zlen in *. by rewrite lookup_app_l by lia.
Qed.

Lemma stored_mapped m a bs m' i :
  stored m a bs m' → writable m a (zlen bs) → mem_writable m' i = mem_writable m i.
Proof.
  intros [Hro Hb] Hw. unfold mem_writable. rewrite Hro. f_equal.
  apply bool_decide_ext. rewrite Hb. case_decide as Hi; [|done].
  specialize (Hw i Hi). unfold mem_writable in Hw. apply andb_true_iff in Hw as [Hw _].
  apply bool_decide_eq_true in Hw. split; [done|]. intros _. apply zlookup_in. lia.
Qed.

Lemma moved_in_nil s : uio_ok s → moved_in s [] s.
Proof.
  intros []. split; [|apply stored_nil|done]. symmetry. by apply advance_0.
Qed.

Lemma moved_in_app s b1 s1 b2 s2 :
  moved_in s b1 s1 → moved_in s1 b2 s2 → moved_in s (b1 ++ b2) s2.
Proof.
  intros [Hu1 Hm1 Hs1] [Hu2 Hm2 Hs2]. rewrite Hu1 in Hu2, Hm2. split.
  - by rewrite Hu2, advance_advance, zlen_app.
  - by eapply stored_app.
  - congruence.
Qed.

Lemma moved_in_ok s bs s' :
  uio_ok s → uio_dir (u s) = UIO_READ → moved_in s bs s' → zlen bs ≤ uio_resid (u s) →
  (uio_segflg (u s) ≠ UIO_SYSSPACE → iov_base (u s) + zlen bs < 2 ^ 32) →
  uio_ok s'.
Proof.
  intros [] Hdir [Hu Hm Hs] Hle Huser. pose proof (zlen_nonneg bs).
  unfold is_u32 in *. assert (is_u32 (iov_len (u s) - zlen bs)) by (unfold is_u32; lia).
  assert (is_u32 (uio_resid (u s) - zlen bs)) by (unfold is_u32; lia).
  split; rewrite ?Hu; simpl; rewrite ?u32_small by done; unfold is_u32 in *.
  - lia.
  - lia.
  - apply s32_range.
  - unfold uio_space_ok in *. by rewrite Hu, Hs.
  - intros Hseg. specialize (Huser Hseg). specialize (ok_user0 Hseg). lia.
  - intros Hseg _ i Hi. specialize (ok_read0 Hseg Hdir).
    rewrite (stored_mapped _ _ _ _ _ Hm); [apply ok_read0; lia|].
    intros j Hj. apply ok_read0. lia.
  - congruence.
Qed.

Lemma slice_0 k buf : 0 ≤ k ≤ zlen buf → slice 0 k buf = Some (take (Z.to_nat k) buf).
Proof. intros. unfold slice. by rewrite decide_True by lia. Qed.

Lemma zlen_take k (l : list Z) : 0 ≤ k ≤ zlen l → zlen (take (Z.to_nat k) l) = k.
Proof. unfold zlen. intros. rewrite length_take. lia. Qed.

Lemma kmove_out_spec src a Q m :
  writable m a (zlen src) →
  (∀ m', stored m a src m' → Q (Ret ()) m') → wp (kmove_out src a) Q m.
Proof.
  intros Hw HQ. unfold kmove_out. wp_steps. pose proof (mem_store_spec m a src) as Hst.
  destruct (mem_store m a src) as [[] m']; wp_steps; [apply HQ; tauto|tauto].
Qed.

(** One transfer into memory. *)
Lemma transfer_read_spec s buf k Q :
  uio_ok s → uio_dir (u s) = UIO_READ → 0 < k ≤ iov_len (u s) → k ≤ zlen buf →
  (∀ m', stored (mem s) (iov_base (u s)) (take (Z.to_nat k) buf) m' →
     (uio_segflg (u s) ≠ UIO_SYSSPACE → user_region (iov_base (u s)) k) →
     Q (Ret buf) (set_mem m' s)) →
  (∀ m' j, uio_segflg (u s) ≠ UIO_SYSSPACE → 0 ≤ j < k →
     stored (mem s) (iov_base (u s)) (take (Z.to_nat j) buf) m' →
     Q (Fail EFAULT) (set_mem m' s)) →
  wp (uio_transfer 0 k buf) Q s.
Proof.
  intros Hok Hdir Hk Hbuf HQ HF. destruct (Hok).
  assert (uio_segflg (u s) ≠ UIO_SYSSPACE →
    wp (src ← deref (slice 0 k buf); _ ← on_mem (copyout src (iov_base (u s)) k); mret buf) Q s)
    as Huser.
  { intros Hseg. wp_steps. eapply wp_deref; [apply slice_0; lia|]. wp_step.
    unfold on_mem. wp_step. unfold is_u32 in *. specialize (ok_user0 Hseg).
    apply copyout_spec; [unfold is_u32; lia..|rewrite zlen_take; lia| |].
    - intros m' _ Hreg _ Hst. wp_steps. rewrite take_take, Nat.min_id in Hst. by apply HQ.
    - intros m' j _ Hj Hcase Hst. rewrite take_take in Hst.
      apply (HF _ (Z.min j k)); [done|lia|].
      replace (Z.to_nat (j `min` k)) with (Z.to_nat j `min` Z.to_nat k)%nat by lia. done. }
  unfold uio_transfer. wp_step. wp_step. rewrite Hdir.
  destruct (uio_segflg (u s)) eqn:Hseg; [by apply Huser| |by apply Huser].
  wp_steps. eapply wp_deref; [apply slice_0; lia|]. unfold on_mem. wp_steps.
  apply kmove_out_spec.
  - rewrite zlen_take by lia. intros i Hi. apply ok_read0; [done|done|lia].
  - intros m' Hst. wp_steps. by apply HQ.
Qed.

Lemma splice_0 bs buf :
  zlen bs ≤ zlen buf → splice 0 bs buf = Some (bs ++ drop (length bs) buf).
Proof.
  intros. unfold splice. rewrite decide_True by lia. unfold zlen. by rewrite Z.add_0_l, Nat2Z.id.
Qed.

Lemma bytes_at_load m a n bs : mem_load m a n = Some bs → length bs = n ∧ bytes_at m a bs.
Proof.
  intros Hl. pose proof (mem_load_spec m a n) as Hspec. rewrite Hl in Hspec.
  destruct Hspec as [<- Hbs]. split; [done|]. intros i b Hb. rewrite <- Hbs; [done|].
  by apply lookup_lt_Some in Hb.
Qed.

(** One transfer out of memory. *)
Lemma transfer_write_spec s buf k Q :
  uio_ok s → uio_dir (u s) = UIO_WRITE → 0 < k ≤ iov_len (u s) → k ≤ zlen buf →
  (∀ bs, zlen bs = k → bytes_at (mem s) (iov_base (u s)) bs →
     (uio_segflg (u s) ≠ UIO_SYSSPACE → user_region (iov_base (u s)) k) →
     Q (Ret (bs ++ drop (Z.to_nat k) buf)) s) →
  (uio_segflg (u s) ≠ UIO_SYSSPACE → Q (Fail EFAULT) s) →
  wp (uio_transfer 0 k buf) Q s.
Proof.
  intros Hok Hdir Hk Hbuf HQ HF. destruct (Hok).
  assert (set_mem (mem s) s = s) as Hid by (by destruct s).
  assert (uio_segflg (u s) ≠ UIO_SYSSPACE →
    wp (bs ← on_mem (copyin (iov_base (u s)) k); deref (splice 0 bs buf)) Q s) as Huser.
  { intros Hseg. unfold on_mem. wp_steps. unfold is_u32 in *. specialize (ok_user0 Hseg).
    apply copyin_spec; [unfold is_u32; lia..| |]; rewrite Hid; [|auto].
    intros bs _ Hreg Hlen Hbs. eapply wp_deref; [apply splice_0; lia|].
    replace (length bs) with (Z.to_nat k) by (unfold zlen in *; lia). apply HQ; [done| |done].
    intros i b Hb. pose proof (lookup_lt_Some _ _ _ Hb). unfold zlen in *.
    rewrite <- Hbs, zlookup_nat, Nat2Z.id by lia. done. }
  unfold uio_transfer. wp_step. wp_step. rewrite Hdir.
  destruct (uio_segflg (u s)) eqn:Hseg; [by apply Huser| |by apply Huser].
  unfold on_mem, kmove_in. wp_steps.
  destruct (mem_load_readable (mem s) (iov_base (u s)) (Z.to_nat k)) as [bs Hload].
  { intros i Hi. apply ok_write0; [done|done|lia]. }
  eapply wp_deref; [done|]. rewrite Hid. apply bytes_at_load in Hload as [Hlen Hat].
  assert (zlen bs = k) by (unfold zlen; lia).
  eapply wp_deref; [apply splice_0; lia|]. rewrite Hlen. by apply HQ.
Qed.

(** The loop runs at most once: then the buffer or the request is used up. *)
Lemma uiomove_loop_done fuel pos n buf Q s :
  (n ≤ 0 ∨ uio_resid (u s) ≤ 0) → Q (Ret buf) s → wp (uiomove_loop fuel pos n buf) Q s.
Proof.
  intros Hdone HQ.
  assert ((0 <? n) && (0 <? uio_resid (u s)) = false) as Hc by lia.
  destruct fuel; cbn [uiomove_loop]; wp_step; wp_step; rewrite Hc; by wp_step.
Qed.

Lemma uiomove_loop_once fuel n buf Q s :
  uio_ok s → 0 < n → 0 < uio_resid (u s) →
  n ≤ uio_resid (u s) ∨ uio_resid (u s) = iov_len (u s) →
  let k := Z.min n (uio_resid (u s)) in
  wp (uio_transfer 0 k buf) (λ r s', match r with
    | Ret buf' => u s' = u s ∧ Q (Ret buf') (set_u (advance k (u s)) s')
    | Fail e => Q (Fail e) s'
    | Halt h => Q (Halt h) s'
    end) s →
  wp (uiomove_loop (S fuel) 0 n buf) Q s.
Proof.
  intros Hok Hn Hr Hfit k Hwp. pose proof (ok_resid _ Hok) as Heq. pose proof (ok_len _ Hok) as Hlen.
  unfold is_u32 in Hlen. cbn [uiomove_loop]. wp_step. wp_step.
  rewrite (proj2 (Z.ltb_lt 0 n)), (proj2 (Z.ltb_lt 0 (uio_resid (u s)))) by lia. cbn [andb].
  assert ((if iov_len (u s) >? n then n else iov_len (u s)) = k) as ->.
  { unfold k. rewrite Z.gtb_ltb. destruct (Z.ltb_spec n (iov_len (u s))); lia. }
  wp_step. apply wp_assert; [unfold k; lia|]. wp_step. eapply wp_mono; [exact Hwp|].
  intros [buf'|e|h] s'; [|done..]. intros [Hu HQ]. wp_step. wp_step.
  apply uiomove_loop_done; rewrite Hu; simpl; [|done].
  rewrite u32_small by (unfold is_u32, k in *; lia). lia.
Qed.

(** [uiomove] towards the caller's memory. *)
Lemma uiomove_read_spec s buf n Q :
  uio_ok s → uio_dir (u s) = UIO_READ → 0 ≤ n ≤ zlen buf →
  n ≤ uio_resid (u s) ∨ uio_resid (u s) = iov_len (u s) →
  (∀ s', moved_in s (take (Z.to_nat (Z.min n (uio_resid (u s)))) buf) s' → uio_ok s' →
     Q (Ret buf) s') →
  (∀ m' j, uio_segflg (u s) ≠ UIO_SYSSPACE → 0 ≤ j < n →
     stored (mem s) (iov_base (u s)) (take (Z.to_nat j) buf) m' →
     Q (Fail EFAULT) (set_mem m' s)) →
  wp (uiomove buf n) Q s.
Proof.
  intros Hok Hdir Hn Hfit HQ HF. unfold uiomove. wp_steps. apply wp_assert; [apply Hok|].
  pose proof (ok_resid _ Hok) as Heq. pose proof (ok_len _ Hok) as Hlen. unfold is_u32 in Hlen.
  destruct (decide (n = 0 ∨ uio_resid (u s) = 0)) as [Hz|Hnz].
  { apply uiomove_loop_done; [lia|]. apply HQ; [|done].
    replace (Z.to_nat _) with 0%nat by lia. rewrite take_0. by apply moved_in_nil. }
  apply uiomove_loop_once; [done|lia|lia|done|]. set (k := Z.min n (uio_resid (u s))) in *.
  assert (0 < k ≤ iov_len (u s) ∧ k ≤ n) as [Hk Hkn] by (unfold k; lia).
  apply transfer_read_spec; [done|done|done|lia| |].
  - intros m' Hst Huser. split; [done|].
    assert (moved_in s (take (Z.to_nat k) buf) (set_u (advance k (u s)) (set_mem m' s))) as Hmv.
    { split; simpl; [rewrite zlen_take by lia|..]; done. }
    apply HQ; [done|]. apply (moved_in_ok _ _ _ Hok Hdir Hmv); rewrite zlen_take by lia; [lia|].
    intros Hseg. specialize (Huser Hseg). unfold user_region, USERTOP in Huser. lia.
  - intros m' j Hseg Hj Hst. apply (HF m' j); [done|lia|done].
Qed.

(** [uiomove] from the caller's memory. *)
Lemma uiomove_write_spec s buf n Q :
  uio_ok s → uio_dir (u s) = UIO_WRITE → 0 ≤ n ≤ zlen buf →
  n ≤ uio_resid (u s) ∨ uio_resid (u s) = iov_len (u s) →
  (∀ bs s', zlen bs = Z.min n (uio_resid (u s)) → moved_out s bs s' → uio_ok s' →
     Q (Ret (bs ++ drop (length bs) buf)) s') →
  (uio_segflg (u s) ≠ UIO_SYSSPACE → Q (Fail EFAULT) s) →
  wp (uiomove buf n) Q s.
Proof.
  intros Hok Hdir Hn Hfit HQ HF. unfold uiomove. wp_steps. apply wp_assert; [apply Hok|].
  destruct (Hok). unfold is_u32 in ok_len0.
  destruct (decide (n = 0 ∨ uio_resid (u s) = 0)) as [Hz|Hnz].
  { apply uiomove_loop_done; [lia|]. apply (HQ []); [unfold zlen; simpl; lia| |done].
    split; [intros i b; by rewrite lookup_nil|]. simpl. unfold zlen; simpl.
    rewrite advance_0 by (unfold is_u32; done). by destruct s. }
  apply uiomove_loop_once; [done|lia|lia|done|]. set (k := Z.min n (uio_resid (u s))) in *.
  assert (0 < k ≤ iov_len (u s) ∧ k ≤ n) as [Hk Hkn] by (unfold k; lia).
  apply transfer_write_spec; [done|done|done|lia| |done].
  intros bs Hlen Hat Huser. split; [done|].
  replace (Z.to_nat k) with (length bs) by (unfold zlen in *; lia).
  apply HQ; [done|by split; [|rewrite Hlen]|].
  split; simpl; rewrite ?u32_small by (unfold is_u32; lia); unfold is_u32.
  - lia.
  - lia.
  - apply s32_range.
  - done.
  - intros Hseg. specialize (Huser Hseg). unfold user_region, USERTOP in Huser. lia.
  - congruence.
  - intros Hseg _ i Hi. apply ok_write0; [done|done|lia].
Qed.

Lemma zlen_zeros : zlen zeros = 16.
Proof. done. Qed.

Lemma uiomovezeros_loop_spec fuel s n Q :
  uio_ok s → uio_dir (u s) = UIO_READ → 0 ≤ n ≤ Z.of_nat fuel →
  n ≤ uio_resid (u s) ∨ uio_resid (u s) = iov_len (u s) →
  (∀ s', moved_in s (replicate (Z.to_nat (Z.min n (uio_resid (u s)))) 0) s' → uio_ok s' →
     Q (Ret ()) s') →
  (∀ s', uio_segflg (u s) ≠ UIO_SYSSPACE → uio_dir (u s') = uio_dir (u s) → Q (Fail EFAULT) s') →
  wp (uiomovezeros_loop fuel n) Q s.
Proof.
  revert s n. induction fuel as [|fuel IH]; intros s n Hok Hdir Hn Hfit HQ HF; cbn [uiomovezeros_loop].
  { rewrite (proj2 (Z.ltb_ge _ _)) by lia. wp_step. apply HQ; [|done].
    pose proof (ok_resid _ Hok) as Hl. pose proof (ok_len _ Hok) as Hl'. unfold is_u32 in Hl'.
    replace (Z.to_nat _) with 0%nat by lia. by apply moved_in_nil. }
  pose proof (ok_resid _ Hok) as Hl. pose proof (ok_len _ Hok) as Hl'. unfold is_u32 in Hl'.
  destruct (Z.ltb_spec 0 n).
  2: { wp_step. apply HQ; [|done]. replace (Z.to_nat _) with 0%nat by lia. by apply moved_in_nil. }
  rewrite zlen_zeros. set (amt := if 16 >? n then n else 16).
  assert (amt = Z.min n 16) as Hamt by (unfold amt; rewrite Z.gtb_ltb; case_match; lia).
  clearbody amt. wp_step.
  apply uiomove_read_spec; [done|done|rewrite zlen_zeros; lia|lia| |by intros; apply HF].
  intros s1 Hmv Hok1. unfold zeros in Hmv. rewrite take_replicate, Nat.min_l in Hmv by lia.
  assert (uio_resid (u s1) = uio_resid (u s) - Z.min amt (uio_resid (u s))) as Hr1.
  { rewrite (mi_uio _ _ _ Hmv); simpl. rewrite zlen_replicate, u32_small; [lia|unfold is_u32; lia]. }
  assert (uio_dir (u s1) = uio_dir (u s) ∧ uio_segflg (u s1) = uio_segflg (u s)) as [Hd1 Hs1]
    by (by rewrite (mi_uio _ _ _ Hmv)).
  assert (iov_len (u s1) = iov_len (u s) - Z.min amt (uio_resid (u s))) as Hl1.
  { rewrite (mi_uio _ _ _ Hmv); simpl. rewrite zlen_replicate, u32_small; [lia|unfold is_u32; lia]. }
  apply IH; [done|congruence|lia|lia| |intros; apply HF; congruence].
  intros s2 Hmv2 Hok2. apply HQ; [|done].
  replace (Z.to_nat (n `min` uio_resid (u s))) with
    (Z.to_nat (amt `min` uio_resid (u s)) + Z.to_nat ((n - amt) `min` uio_resid (u s1)))%nat by lia.
  rewrite replicate_add. by eapply moved_in_app.
Qed.

Lemma uiomovezeros_spec s n Q :
  uio_ok s → uio_dir (u s) = UIO_READ → 0 ≤ n →
  n ≤ uio_resid (u s) ∨ uio_resid (u s) = iov_len (u s) →
  (∀ s', moved_in s (replicate (Z.to_nat (Z.min n (uio_resid (u s)))) 0) s' → uio_ok s' →
     Q (Ret ()) s') →
  (∀ s', uio_segflg (u s) ≠ UIO_SYSSPACE → uio_dir (u s') = uio_dir (u s) → Q (Fail EFAULT) s') →
  wp (uiomovezeros n) Q s.
Proof.
  intros Hok Hdir Hn Hfit HQ HF. unfold uiomovezeros. wp_steps.
  apply wp_assert; [by apply bool_decide_eq_true|].
  apply uiomovezeros_loop_spec; [done|done|lia|done..].
Qed.
End proofs.

(** ** Kernel buffers *)

(** Kernel buffers of a caller live in memory of their own. *)
Definition KBASE : Z := 2 ^ 31.
Definition kernel_buffer (bs : list Z) : memory :=
  {| mbytes := list_to_map (zip (seqZ KBASE (zlen bs)) bs); mro := ∅ |}.

#[global] Arguments kernel_buffer : simpl never.
#[global] Arguments KBASE : simpl never.

Lemma list_to_map_seqZ (bs : list Z) a i :
  (list_to_map (zip (seqZ a (zlen bs)) bs) : gmap Z Z) !! i = bs !z (i - a).
Proof.
  revert a. induction bs as [|b bs IH]; intros a.
  { simpl. rewrite lookup_empty. unfold zlookup. by case_decide. }
  assert (zlen (b :: bs) = Z.succ (zlen bs)) as -> by (unfold zlen; simpl; lia).
  rewrite seqZ_cons by (unfold zlen; lia). rewrite Z.pred_succ. simpl.
  destruct (decide (i = a)) as [->|Hne].
  - by rewrite lookup_insert_eq, Z.sub_diag.
  - rewrite lookup_insert_ne, IH by done. unfold zlookup.
    repeat case_decide; try lia; [|done].
    replace (Z.to_nat (i - a)) with (S (Z.to_nat (i - Z.succ a))) by lia. done.
Qed.

Lemma kernel_buffer_lookup bs i : mbytes (kernel_buffer bs) !! i = bs !z (i - KBASE).
Proof. apply list_to_map_seqZ. Qed.

Lemma kernel_buffer_at bs : bytes_at (kernel_buffer bs) KBASE bs.
Proof.
  intros i b Hb. rewrite kernel_buffer_lookup, zlookup_nat by lia. rewrite <- Hb. f_equal. lia.
Qed.

Lemma kernel_buffer_writable bs : writable (kernel_buffer bs) KBASE (zlen bs).
Proof.
  intros i Hi. unfold mem_writable. rewrite kernel_buffer_lookup, (bool_decide_eq_true_2 (_ ∉ _)).
  2: { simpl. set_solver. }
  rewrite andb_true_r. apply bool_decide_eq_true_2, zlookup_in. lia.
Qed.

Lemma writable_readable m a n : writable m a n → readable m a n.
Proof.
  intros Hw i Hi. specialize (Hw i Hi). unfold mem_writable in Hw.
  apply andb_true_iff in Hw as [Hw _]. by apply bool_decide_eq_true in Hw.
Qed.

(** The request [mk_kuio] builds for such a buffer. *)
Definition kbuf_request (bs : list Z) (pos : Z) (rw : uio_rw) : uiost :=
  {| u := mk_kuio KBASE (zlen bs) pos rw; mem := kernel_buffer bs; t_vmspace := None |}.

Lemma kbuf_request_ok bs pos rw :
  zlen bs < 2 ^ 32 → - 2 ^ 31 ≤ pos < 2 ^ 31 → uio_ok (kbuf_request bs pos rw).
Proof.
  intros Hlen Hpos. pose proof (zlen_nonneg bs).
  split; simpl; unfold is_u32; try lia; try done.
  - intros _ _. apply kernel_buffer_writable.
  - intros _ _. apply writable_readable, kernel_buffer_writable.
Qed.

Lemma bytes_at_app m a b1 b2 : bytes_at m a b1 → bytes_at m (a + zlen b1) b2 → bytes_at m a (b1 ++ b2).
Proof.
  intros H1 H2 i b [Hi|[Hge Hi]]%lookup_app_Some; [by apply H1|]. rewrite <- (H2 _ _ Hi). f_equal. unfold zlen. lia.
Qed.

Lemma stored_bytes_at m a bs m' : stored m a bs m' → bytes_at m' a bs.
Proof.
  intros [_ Hm] k x Hx. rewrite Hm. apply lookup_lt_Some in Hx as Hlt.
  rewrite decide_True by (unfold zlen; lia). rewrite zlookup_nat by lia. rewrite <- Hx. f_equal. lia.
Qed.

(** A kernel buffer after bytes were stored at its start. *)
Lemma kernel_buffer_stored buf bs m' :
  zlen bs ≤ zlen buf → stored (kernel_buffer buf) KBASE bs m' →
  bytes_at m' KBASE (bs ++ drop (length bs) buf).
Proof.
  intros Hle Hst. apply bytes_at_app; [by eapply stored_bytes_at|]. destruct Hst as [_ Hm].
  intros i b Hb. rewrite lookup_drop in Hb. rewrite Hm, decide_False by lia.
  rewrite kernel_buffer_lookup, zlookup_nat by (unfold zlen; lia). rewrite <- Hb. f_equal. unfold zlen. lia.
Qed.

Lemma bytes_at_unique m a bs bs' :
  length bs = length bs' → bytes_at m a bs → bytes_at m a bs' → bs = bs'.
Proof.
  intros Hlen H1 H2. apply list_eq_same_length with (length bs); [done..|].
  intros i x y _ Hx Hy. apply H1 in Hx. apply H2 in Hy. congruence.
Qed.

Lemma moved_out_nil s : uio_ok s → moved_out s [] s.
Proof.
  intros []. split; [intros i b; by rewrite lookup_nil|].
  change (zlen []) with 0. rewrite advance_0 by done. by destruct s.
Qed.

Lemma moved_out_app us b1 us1 b2 us2 : moved_out us b1 us1 → moved_out us1 b2 us2 → moved_out us (b1 ++ b2) us2.
Proof.
  intros [Hb1 ->] [Hb2 ->]. split.
  - simpl in Hb2. by apply bytes_at_app.
  - simpl. unfold set_u. simpl. by rewrite advance_advance, zlen_app.
Qed.

(** ** Properties *)

(** [uiomove] towards the caller, for a request set up as uio.h asks, moves
    the first [n] bytes of the kernel buffer to the current position of the
    request and advances it by [n].  It fails only with EFAULT on user memory,
    and then the request has not moved and at most a proper prefix was stored. *)
Theorem uiomove_read_correct s buf n :
  uio_ok s → uio_dir (u s) = UIO_READ → 0 ≤ n ≤ zlen buf → n ≤ uio_resid (u s) →
  match uiomove buf n s with
  | (Ret _, s') => moved_in s (take (Z.to_nat n) buf) s' ∧ uio_ok s'
  | (Fail e, s') => e = EFAULT ∧ uio_segflg (u s) ≠ UIO_SYSSPACE ∧ u s' = u s ∧
                    ∃ k, 0 ≤ k < n ∧ stored (mem s) (iov_base (u s)) (take (Z.to_nat k) buf) (mem s')
  | (Halt _, _) => False
  end.
Proof.
  intros Hok Hdir Hn Hres. eapply (wp_elim (uiomove buf n) (λ r s', match r with _ => _ end)).
  apply uiomove_read_spec; [done|done|done|by left| |eauto 10].
  intros s' Hmv. by rewrite Z.min_l in Hmv.
Qed.

(** [uiomove] from the caller, under the same conditions, fills the first
    [n] bytes of the kernel buffer from the current position and keeps the rest
    of it. *)
Theorem uiomove_write_correct s buf n :
  uio_ok s → uio_dir (u s) = UIO_WRITE → 0 ≤ n ≤ zlen buf → n ≤ uio_resid (u s) →
  match uiomove buf n s with
  | (Ret buf', s') => ∃ bs, buf' = bs ++ drop (Z.to_nat n) buf ∧ zlen bs = n ∧
                            moved_out s bs s' ∧ uio_ok s'
  | (Fail e, s') => e = EFAULT ∧ uio_segflg (u s) ≠ UIO_SYSSPACE ∧ s' = s
  | (Halt _, _) => False
  end.
Proof.
  intros Hok Hdir Hn Hres. eapply (wp_elim (uiomove buf n) (λ r s', match r with _ => _ end)).
  apply uiomove_write_spec; [done|done|done|by left| |auto].
  intros bs s' Hbs Hmv Hok'. rewrite Z.min_l in Hbs by done. exists bs.
  replace (Z.to_nat n) with (length bs) by (unfold zlen in *; lia). done.
Qed.

(** Requests on the four bytes of user memory at 4096. *)
Definition example_uio (rw : uio_rw) : uiost :=
  {| u := {| iov_base := 4096; iov_len := 4; uio_offset := 100; uio_resid := 4;
             uio_segflg := UIO_USERSPACE; uio_dir := rw; uio_space := Some 1 |};
     mem := example_memory; t_vmspace := Some 1 |}.

Lemma example_uio_ok rw : uio_ok (example_uio rw).
Proof. split; done. Qed.

Lemma uiomove_read_correct_witness :
  match uiomove [1; 2; 3] 3 (example_uio UIO_READ) with
  | (Ret _, s') => moved_in (example_uio UIO_READ) [1; 2; 3] s' ∧ uio_ok s'
  | (Fail e, s') => e = EFAULT ∧ UIO_USERSPACE ≠ UIO_SYSSPACE ∧ u s' = u (example_uio UIO_READ) ∧
      ∃ k, 0 ≤ k < 3 ∧ stored example_memory 4096 (take (Z.to_nat k) [1; 2; 3]) (mem s')
  | (Halt _, _) => False
  end.
Proof. apply (uiomove_read_correct (example_uio UIO_READ) [1; 2; 3] 3); [apply example_uio_ok|done..]. Defined.

Lemma uiomove_write_correct_witness :
  match uiomove [1; 2; 3] 2 (example_uio UIO_WRITE) with
  | (Ret buf', s') => ∃ bs, buf' = bs ++ [3] ∧ zlen bs = 2 ∧
                            moved_out (example_uio UIO_WRITE) bs s' ∧ uio_ok s'
  | (Fail e, s') => e = EFAULT ∧ UIO_USERSPACE ≠ UIO_SYSSPACE ∧ s' = example_uio UIO_WRITE
  | (Halt _, _) => False
  end.
Proof. apply (uiomove_write_correct (example_uio UIO_WRITE) [1; 2; 3] 2); [apply example_uio_ok|done..]. Defined.
