(* ===== verification/Device.v ===== *)
(** * Block devices (kern/include/dev.h)

    The interface between a file system and the driver below it: [d_io] is the
    entry point of [struct device], [d_blocks] and [d_blocksize] its fields.
    [BlockDeviceLaws] is what a file system relies on; the driver of
    kern/dev/lamebus/lhd.c is shown to provide it. *)

From S2P Require Import Prelude CopyInOut Uio.

Definition SECTSIZE : Z := 512.

Class BlockDevice (D : Type) := {
  d_io : M (D * uiost) unit;
  d_blocks : D → Z;
  d_blocksize : D → Z;
}.

(** A request for the one sector [b]. *)
Record sector_request (s : uiost) (rw : uio_rw) (b : Z) : Prop := {
  rq_ok : uio_ok s;
  rq_dir : uio_dir (u s) = rw;
  rq_offset : uio_offset (u s) = b * SECTSIZE;
  rq_resid : uio_resid (u s) = SECTSIZE;
}.

(** The laws speak of the contents of the disk, [sector d b].  A read may fail
    with EIO and can be repeated.  A write stores the sector, or fails with
    EFAULT before it has started, because the caller's memory cannot be read, or
    fails with EIO when the medium cannot be written: the request is used up
    then, and the sector may hold anything. *)
Class BlockDeviceLaws (D : Type) `{BlockDevice D} := {
  sector : D → Z → list Z;
  dev_ok : D → Prop;
  sector_len : ∀ d b, dev_ok d → 0 ≤ b < d_blocks d → zlen (sector d b) = SECTSIZE;
  d_blocks_range : ∀ d, dev_ok d → 0 ≤ d_blocks d < 2 ^ 32;
  d_blocksize_sect : ∀ d, dev_ok d → d_blocksize d = SECTSIZE;
  same_disk := λ d d', dev_ok d' ∧ d_blocks d' = d_blocks d ∧ ∀ b, sector d' b = sector d b;
  d_io_read : ∀ d s b (Q : result unit → D * uiost → Prop),
    dev_ok d → sector_request s UIO_READ b → 0 ≤ b < d_blocks d →
    (∀ d' s', same_disk d d' → moved_in s (sector d b) s' → uio_ok s' → Q (Ret ()) (d', s')) →
    (∀ d', same_disk d d' → Q (Fail EIO) (d', s)) →
    (∀ d' m' j, same_disk d d' → uio_segflg (u s) ≠ UIO_SYSSPACE → 0 ≤ j < SECTSIZE →
       stored (mem s) (iov_base (u s)) (take (Z.to_nat j) (sector d b)) m' →
       Q (Fail EFAULT) (d', set_mem m' s)) →
    wp d_io Q (d, s);
  d_io_write : ∀ d s b (Q : result unit → D * uiost → Prop),
    dev_ok d → sector_request s UIO_WRITE b → 0 ≤ b < d_blocks d →
    (∀ d' s' bs, dev_ok d' → d_blocks d' = d_blocks d → zlen bs = SECTSIZE →
       (∀ b', sector d' b' = if decide (b' = b) then bs else sector d b') →
       moved_out s bs s' → uio_ok s' → Q (Ret ()) (d', s')) →
    (∀ d', same_disk d d' → uio_segflg (u s) ≠ UIO_SYSSPACE → Q (Fail EFAULT) (d', s)) →
    (∀ d' s' bs, dev_ok d' → d_blocks d' = d_blocks d → zlen bs = SECTSIZE →
       (∀ b', b' ≠ b → sector d' b' = sector d b') →
       moved_out s bs s' → uio_ok s' → Q (Fail EIO) (d', s')) →
    wp d_io Q (d, s);
}.

(** A device none of whose writes fails on the medium.  The theorems on
    operations that write to the disk have it as a hypothesis, those on
    operations that only read do not. *)
Class ReliableWrites (D : Type) `{BlockDeviceLaws D} : Prop :=
  d_io_stores : ∀ (d : D) s b, dev_ok d → sector_request s UIO_WRITE b → 0 ≤ b < d_blocks d →
    (d_io (d, s)).1 ≠ Fail EIO.

Section reliable.
Context {D : Type} `{ReliableWrites D}.

(** There a write has the two outcomes that are left. *)
Lemma d_io_write_reliable (d : D) s b (Q : result unit → D * uiost → Prop) :
  dev_ok d → sector_request s UIO_WRITE b → 0 ≤ b < d_blocks d →
  (∀ d' s' bs, dev_ok d' → d_blocks d' = d_blocks d → zlen bs = SECTSIZE →
     (∀ b', sector d' b' = if decide (b' = b) then bs else sector d b') →
     moved_out s bs s' → uio_ok s' → Q (Ret ()) (d', s')) →
  (∀ d', same_disk d d' → uio_segflg (u s) ≠ UIO_SYSSPACE → Q (Fail EFAULT) (d', s)) →
  wp d_io Q (d, s).
Proof.
  intros Hd Hrq Hb HQ HFA. pose proof (d_io_stores d s b Hd Hrq Hb) as Hne.
  assert (wp d_io (λ r p, r ≠ Fail EIO → Q r p) (d, s)) as Hwp.
  { apply (d_io_write d s b); [done..| | |done]; intros; eauto. }
  unfold wp in *. destruct (d_io (d, s)) as [r p]. by apply Hwp.
Qed.
End reliable.
