(* ===== verification/Lhd.v ===== *)
(** * The LAMEbus hard disk driver (kern/dev/lamebus/lhd.c)

    The card is a parameter: [hw_run] is one operation of the hardware, given
    the sector register, the direction and the on-card buffer; it yields the
    status code, the buffer and the new state of the medium.  The status
    register, the interrupt handler and the two semaphores are modelled.  The
    card works between the store to its status register and the wait for
    completion; its interrupt runs [lhd_irq] there.  A wait on a semaphore
    whose count is zero, with nobody left to signal it, is [Blocked]. *)

From S2P Require Import Prelude CopyInOut Uio Device.

Definition LHD_SECTSIZE : Z := 512.
Definition LHD_IDLE : Z := 0.
Definition LHD_WORKING : Z := 1.
Definition LHD_OK : Z := 4.
Definition LHD_INVSECT : Z := 12.
Definition LHD_MEDIA : Z := 20.
Definition LHD_ISWRITE : Z := 2.
Definition LHD_STATEMASK : Z := 29.

Class LhdHardware (HW : Type) := {
  hw_run : HW → Z → bool → list Z → (Z * list Z) * HW;
}.

Record lhd_softc (HW : Type) := {
  lh_hw : HW;
  lh_buf : list Z;
  lh_reg_sect : Z;
  lh_reg_stat : Z;
  lh_result : option errno;
  lh_clear : Z;
  lh_done : Z;
  lh_blocks : Z;
}.
Arguments lh_hw {_} _.
Arguments lh_buf {_} _.
Arguments lh_reg_sect {_} _.
Arguments lh_reg_stat {_} _.
Arguments lh_result {_} _.
Arguments lh_clear {_} _.
Arguments lh_done {_} _.
Arguments lh_blocks {_} _.

Section lhd.
Context {HW : Type} `{LhdHardware HW}.
Abbreviation lhd := (lhd_softc HW).

Definition set_buf (b : list Z) (l : lhd) : lhd :=
  Build_lhd_softc _ (lh_hw l) b (lh_reg_sect l) (lh_reg_stat l) (lh_result l)
    (lh_clear l) (lh_done l) (lh_blocks l).
Definition set_sect (v : Z) (l : lhd) : lhd :=
  Build_lhd_softc _ (lh_hw l) (lh_buf l) v (lh_reg_stat l) (lh_result l)
    (lh_clear l) (lh_done l) (lh_blocks l).
Definition set_stat (v : Z) (l : lhd) : lhd :=
  Build_lhd_softc _ (lh_hw l) (lh_buf l) (lh_reg_sect l) v (lh_result l)
    (lh_clear l) (lh_done l) (lh_blocks l).
Definition set_result (r : option errno) (l : lhd) : lhd :=
  Build_lhd_softc _ (lh_hw l) (lh_buf l) (lh_reg_sect l) (lh_reg_stat l) r
    (lh_clear l) (lh_done l) (lh_blocks l).
Definition set_clear (v : Z) (l : lhd) : lhd :=
  Build_lhd_softc _ (lh_hw l) (lh_buf l) (lh_reg_sect l) (lh_reg_stat l) (lh_result l)
    v (lh_done l) (lh_blocks l).
Definition set_done (v : Z) (l : lhd) : lhd :=
  Build_lhd_softc _ (lh_hw l) (lh_buf l) (lh_reg_sect l) (lh_reg_stat l) (lh_result l)
    (lh_clear l) v (lh_blocks l).

(** The card performs the operation its status register asks for. *)
Definition lhd_card (l : lhd) : lhd :=
  let iswrite := negb (Z.land (lh_reg_stat l) LHD_ISWRITE =? 0) in
  let '((code, buf), hw) := hw_run (lh_hw l) (lh_reg_sect l) iswrite (lh_buf l) in
  Build_lhd_softc _ hw buf (lh_reg_sect l)
    (Z.lor code (if iswrite then LHD_ISWRITE else 0)) (lh_result l)
    (lh_clear l) (lh_done l) (lh_blocks l).

(** [None] is the result 0. *)
Definition lhd_code_to_errno (code : Z) : option errno :=
  let st := Z.land code LHD_STATEMASK in
  if st =? LHD_OK then None
  else if st =? LHD_INVSECT then Some EINVAL
  else if st =? LHD_MEDIA then Some EIO
  else Some EAGAIN.

Definition lhd_iodone (err : option errno) (l : lhd) : lhd :=
  set_done (lh_done (set_result err l) + 1) (set_result err l).

Definition lhd_irq (l : lhd) : lhd :=
  let val := lh_reg_stat l in
  let st := Z.land val LHD_STATEMASK in
  if (st =? LHD_OK) || (st =? LHD_INVSECT) || (st =? LHD_MEDIA) then
    lhd_iodone (lhd_code_to_errno val) (set_stat 0 l)
  else l.

(** [P] and [V] on the two semaphores of the driver. *)
Definition P_clear : M lhd unit :=
  l ← get; if lh_clear l =? 0 then blocked else put (set_clear (lh_clear l - 1) l).
Definition V_clear : M lhd unit := modify (λ l, set_clear (lh_clear l + 1) l).
Definition P_done : M lhd unit :=
  l ← get; if lh_done l =? 0 then blocked else put (set_done (lh_done l - 1) l).

Definition lhd_uiomove : M (lhd * uiost) unit :=
  p ← get;
  buf ← on_snd (uiomove (lh_buf p.1) LHD_SECTSIZE);
  on_fst (modify (set_buf buf)).

(** The body of the loop of [lhd_io]. *)
Definition lhd_io_sector (statval sect : Z) (rw : uio_rw) : M (lhd * uiost) unit :=
  _ ← on_fst P_clear;
  _ ← (if decide (rw = UIO_WRITE) then
         r ← attempt lhd_uiomove;
         match r with
         | inl _ => mret ()
         | inr e => _ ← on_fst V_clear; fail e
         end
       else mret ());
  _ ← on_fst (modify (set_sect sect));
  _ ← on_fst (modify (set_stat statval));
  _ ← on_fst (modify lhd_card);
  _ ← on_fst (modify lhd_irq);
  _ ← on_fst P_done;
  p ← get;
  result ← (match lh_result p.1 with
            | None => if decide (rw = UIO_READ) then attempt lhd_uiomove else mret (inl ())
            | Some e => mret (inr e)
            end);
  _ ← on_fst V_clear;
  result_of result.

Definition lhd_io : M (lhd * uiost) unit :=
  p ← get;
  let uio := u p.2 in
  let sect := u32 (Z.quot (uio_offset uio) LHD_SECTSIZE) in
  let sectoff := u32 (Z.rem (uio_offset uio) LHD_SECTSIZE) in
  let len := uio_resid uio / LHD_SECTSIZE in
  let lenoff := uio_resid uio mod LHD_SECTSIZE in
  if negb (sectoff =? 0) || negb (lenoff =? 0) then fail EINVAL
  else if u32 (sect + len) >? lh_blocks p.1 then fail EINVAL
  else
    let statval := Z.lor LHD_WORKING (if decide (uio_dir uio = UIO_WRITE) then LHD_ISWRITE else 0) in
    forM (seqZ 0 len) (λ i, lhd_io_sector statval (u32 (sect + i)) (uio_dir uio)).

#[export] Instance lhd_device : BlockDevice lhd := {
  d_io := lhd_io;
  d_blocks := lh_blocks;
  d_blocksize := λ _, LHD_SECTSIZE;
}.
End lhd.

(** ** The driver is a block device

    What the card promises for a sector of the disk: a read delivers it or
    reports a media error, a write stores it or reports a media error (and the
    sector may hold anything then). *)
Class LhdHardwareLaws (HW : Type) `{LhdHardware HW} := {
  hw_sector : HW → Z → list Z;
  hw_nsect : HW → Z;
  hw_sector_len : ∀ hw b, 0 ≤ b < hw_nsect hw → zlen (hw_sector hw b) = LHD_SECTSIZE;
  hw_read : ∀ hw b buf, 0 ≤ b < hw_nsect hw → zlen buf = LHD_SECTSIZE →
    ∃ code buf' hw', hw_run hw b false buf = ((code, buf'), hw') ∧
      hw_nsect hw' = hw_nsect hw ∧ (∀ b', hw_sector hw' b' = hw_sector hw b') ∧
      (code = LHD_OK ∧ buf' = hw_sector hw b ∨ code = LHD_MEDIA ∧ zlen buf' = LHD_SECTSIZE);
  hw_write : ∀ hw b buf, 0 ≤ b < hw_nsect hw → zlen buf = LHD_SECTSIZE →
    ∃ code buf' hw', hw_run hw b true buf = ((code, buf'), hw') ∧
      hw_nsect hw' = hw_nsect hw ∧ zlen buf' = LHD_SECTSIZE ∧
      (∀ b', b' ≠ b → hw_sector hw' b' = hw_sector hw b') ∧
      (code = LHD_OK ∧ hw_sector hw' b = buf ∨ code = LHD_MEDIA);
}.

(** A card whose medium takes every write. *)
Class LhdReliable (HW : Type) `{LhdHardwareLaws HW} : Prop :=
  hw_stores : ∀ hw b buf, 0 ≤ b < hw_nsect hw → zlen buf = LHD_SECTSIZE →
    (hw_run hw b true buf).1.1 = LHD_OK.

Section laws.
Context {HW : Type} `{LhdHardwareLaws HW}.
Implicit Types l : lhd_softc HW.

Record lhd_ok l : Prop := {
  lok_clear : lh_clear l = 1;
  lok_done : lh_done l = 0;
  lok_buf : zlen (lh_buf l) = LHD_SECTSIZE;
  lok_blocks : lh_blocks l = hw_nsect (lh_hw l);
  lok_range : 0 ≤ lh_blocks l < 2 ^ 32;
}.

(** The result the interrupt handler leaves for a read, and for a write. *)
Lemma irq_read_ok : lhd_code_to_errno (Z.lor LHD_OK 0) = None.
Proof. done. Qed.
Lemma irq_read_media : lhd_code_to_errno (Z.lor LHD_MEDIA 0) = Some EIO.
Proof. done. Qed.
Lemma irq_write_ok : lhd_code_to_errno (Z.lor LHD_OK LHD_ISWRITE) = None.
Proof. done. Qed.
Lemma irq_write_media : lhd_code_to_errno (Z.lor LHD_MEDIA LHD_ISWRITE) = Some EIO.
Proof. done. Qed.

(** A one-sector request runs the body of the loop once, on that sector. *)
Lemma lhd_io_one l s rw b Q :
  lhd_ok l → sector_request s rw b → 0 ≤ b < lh_blocks l →
  wp (lhd_io_sector (Z.lor LHD_WORKING (if decide (rw = UIO_WRITE) then LHD_ISWRITE else 0)) b rw)
     Q (l, s) →
  wp lhd_io Q (l, s).
Proof.
  intros Hl [Hok Hdir Hoff Hres] Hb Hwp. destruct Hl. pose proof (ok_offset _ Hok) as Hrange.
  unfold lhd_io. wp_step. wp_step. simpl. rewrite Hoff, Hres. unfold SECTSIZE, LHD_SECTSIZE in *.
  rewrite Z.quot_mul, Z.rem_mul by lia. rewrite (u32_small b) by (unfold is_u32; lia).
  simpl. change (512 / 512) with 1.
  rewrite (u32_small (b + 1)) by (unfold is_u32; lia).
  rewrite Z.gtb_ltb, (proj2 (Z.ltb_ge _ _)) by lia. rewrite Hdir.
  change (seqZ 0 1) with [0]. cbn [forM]. rewrite Z.add_0_r, u32_small by (unfold is_u32; lia).
  wp_step. eapply wp_mono; [exact Hwp|]. intros [[]|e|k] p HQ; exact HQ.
Qed.

Lemma lhd_read_law l s b Q :
  lhd_ok l → sector_request s UIO_READ b → 0 ≤ b < lh_blocks l →
  (∀ l' s', lhd_ok l' → lh_blocks l' = lh_blocks l →
     (∀ b', hw_sector (lh_hw l') b' = hw_sector (lh_hw l) b') →
     moved_in s (hw_sector (lh_hw l) b) s' → uio_ok s' → Q (Ret ()) (l', s')) →
  (∀ l', lhd_ok l' → lh_blocks l' = lh_blocks l →
     (∀ b', hw_sector (lh_hw l') b' = hw_sector (lh_hw l) b') → Q (Fail EIO) (l', s)) →
  (∀ l' m' j, lhd_ok l' → lh_blocks l' = lh_blocks l →
     (∀ b', hw_sector (lh_hw l') b' = hw_sector (lh_hw l) b') →
     uio_segflg (u s) ≠ UIO_SYSSPACE → 0 ≤ j < SECTSIZE →
     stored (mem s) (iov_base (u s)) (take (Z.to_nat j) (hw_sector (lh_hw l) b)) m' →
     Q (Fail EFAULT) (l', set_mem m' s)) →
  wp lhd_io Q (l, s).
Proof.
  intros Hl Hrq Hb HQ HIO HFA. apply (lhd_io_one l s UIO_READ b); [done..|].
  destruct (Hl) as [Hclear Hdone Hbuf Hblk Hrange]. destruct (Hrq) as [Hok Hdir _ Hres].
  destruct (hw_read (lh_hw l) b (lh_buf l)) as (code & buf' & hw' & Hrun & Hn & Hsec & Hcode);
    [lia|done|].
  assert (zlen (hw_sector (lh_hw l) b) = LHD_SECTSIZE) as Hlen by (apply hw_sector_len; lia).
  unfold lhd_io_sector, P_clear, P_done, V_clear. wp_steps. rewrite Hclear. simpl. wp_steps.
  unfold lhd_card. simpl. rewrite Hrun, Hdone.
  destruct Hcode as [[-> ->]|[-> Hbuf']]; simpl; wp_steps; simpl.
  - unfold lhd_uiomove. wp_steps. simpl.
    apply uiomove_read_spec; [done|done|rewrite Hlen; done|left; rewrite Hres; done|..].
    + intros s' Hmv Hok'. wp_steps. cbn [result_of]. wp_steps.
      apply HQ; [split; simpl; try done; congruence|done|done| |done].
      rewrite Hres in Hmv. rewrite firstn_all2 in Hmv; [done|].
      unfold zlen, LHD_SECTSIZE, SECTSIZE in *. lia.
    + intros m' j Hseg Hj Hst. wp_steps. cbn [result_of]. wp_steps.
      apply (HFA _ m' j); [split; simpl; try done; congruence|done..].
  - cbn [result_of]. wp_steps. apply HIO; [split; simpl; try done; congruence|done..].
Qed.

(** The two outcomes of a write carry the run of the card. *)
Lemma lhd_write_law l s b Q :
  lhd_ok l → sector_request s UIO_WRITE b → 0 ≤ b < lh_blocks l →
  (∀ l' s' bs buf', lhd_ok l' → lh_blocks l' = lh_blocks l → zlen bs = SECTSIZE →
     hw_run (lh_hw l) b true bs = ((LHD_OK, buf'), lh_hw l') →
     (∀ b', hw_sector (lh_hw l') b' = if decide (b' = b) then bs else hw_sector (lh_hw l) b') →
     moved_out s bs s' → uio_ok s' → Q (Ret ()) (l', s')) →
  (∀ l', lhd_ok l' → lh_blocks l' = lh_blocks l →
     (∀ b', hw_sector (lh_hw l') b' = hw_sector (lh_hw l) b') →
     uio_segflg (u s) ≠ UIO_SYSSPACE → Q (Fail EFAULT) (l', s)) →
  (∀ l' s' bs buf', lhd_ok l' → lh_blocks l' = lh_blocks l → zlen bs = SECTSIZE →
     hw_run (lh_hw l) b true bs = ((LHD_MEDIA, buf'), lh_hw l') →
     (∀ b', b' ≠ b → hw_sector (lh_hw l') b' = hw_sector (lh_hw l) b') →
     moved_out s bs s' → uio_ok s' → Q (Fail EIO) (l', s')) →
  wp lhd_io Q (l, s).
Proof.
  intros Hl Hrq Hb HQ HFA HIO. apply (lhd_io_one l s UIO_WRITE b); [done..|].
  destruct (Hl) as [Hclear Hdone Hbuf Hblk Hrange]. destruct (Hrq) as [Hok Hdir _ Hres].
  unfold lhd_io_sector, P_clear, P_done, V_clear, lhd_uiomove. wp_steps. rewrite Hclear. simpl.
  wp_steps. simpl.
  apply uiomove_write_spec; [done|done|rewrite Hbuf; done|left; rewrite Hres; done|..].
  - intros bs s' Hlen Hmv Hok'. wp_steps. simpl. rewrite Hres in Hlen.
    unfold SECTSIZE, LHD_SECTSIZE in *. simpl in Hlen.
    rewrite drop_ge, app_nil_r by (unfold zlen in *; lia).
    destruct (hw_write (lh_hw l) b bs) as (code & buf' & hw' & Hrun & Hn & Hbuf' & Hsec & Hcode); [lia|done|].
    unfold lhd_card. simpl. rewrite Hrun, Hdone.
    destruct Hcode as [[-> Hst]|Hcode]; [|subst code]; simpl; wp_steps; simpl; wp_steps; cbn [result_of]; wp_steps.
    + apply (HQ _ _ bs buf'); [split; simpl; try done; congruence|done..| |done|done].
      intros b'. case_decide; [by subst|by apply Hsec].
    + apply (HIO _ _ bs buf'); [split; simpl; try done; congruence|done..].
  - intros Hseg. wp_steps. apply HFA; [split; simpl; try done; congruence|done..].
Qed.

#[export] Program Instance lhd_laws : BlockDeviceLaws (lhd_softc HW) := {
  sector := λ l b, hw_sector (lh_hw l) b;
  dev_ok := lhd_ok;
}.
Next Obligation.
  intros l b Hl Hb. apply hw_sector_len. rewrite <- (lok_blocks _ Hl). done.
Qed.
Next Obligation. intros l Hl. apply Hl. Qed.
Next Obligation. done. Qed.
Next Obligation.
  intros l s b Q Hl Hrq Hb HQ HIO HFA. apply (lhd_read_law l s b); [done..| | |].
  - intros. by apply HQ.
  - intros. by apply HIO.
  - intros l' m' j ??????. by apply (HFA l' m' j).
Qed.
Next Obligation.
  intros l s b Q Hl Hrq Hb HQ HFA HIO. apply (lhd_write_law l s b); [done..| | |].
  - intros l' s' bs buf' ???????. by apply (HQ l' s' bs).
  - intros. by apply HFA.
  - intros l' s' bs buf' ???????. by apply (HIO l' s' bs).
Qed.

#[export] Instance lhd_reliable : LhdReliable HW → ReliableWrites (lhd_softc HW).
Proof.
  intros Hrel l s b Hl Hrq Hb. enough (wp lhd_io (λ r _, r ≠ Fail EIO) (l, s)) as Hwp.
  { unfold wp in Hwp. simpl. by destruct (lhd_io (l, s)). }
  apply (lhd_write_law l s b); [done..| | |]; [done|done|].
  intros l' s' bs buf' _ _ Hbs Hrun. pose proof (Hrel (lh_hw l) b bs) as Hst. rewrite Hrun in Hst.
  rewrite <- (lok_blocks _ Hl) in Hst. by specialize (Hst Hb Hbs).
Qed.
End laws.

(** ** A card

    A drive over a list of sectors whose next reads fail as [rc_faults] says; it
    takes every write. *)

Record ramcard := { rc_sectors : list (list Z); rc_faults : list bool }.

Definition sector_pad (bs : list Z) : list Z := take 512 (bs ++ replicate 512 0).

Definition ramcard_sector (c : ramcard) (b : Z) : list Z :=
  sector_pad (default [] (rc_sectors c !z b)).

#[export] Instance ramcard_hardware : LhdHardware ramcard := {
  hw_run c b iswrite buf :=
    if (0 <=? b) && (b <? zlen (rc_sectors c)) then
      if iswrite then
        (LHD_OK, buf, {| rc_sectors := <[Z.to_nat b := buf]> (rc_sectors c); rc_faults := rc_faults c |})
      else
        match rc_faults c with
        | true :: fs => (LHD_MEDIA, buf, {| rc_sectors := rc_sectors c; rc_faults := fs |})
        | _ => (LHD_OK, ramcard_sector c b,
                {| rc_sectors := rc_sectors c; rc_faults := tail (rc_faults c) |})
        end
    else (LHD_INVSECT, buf, c);
}.

Lemma sector_pad_len bs : zlen (sector_pad bs) = LHD_SECTSIZE.
Proof.
  unfold zlen, sector_pad. rewrite length_take, length_app, length_replicate.
  unfold LHD_SECTSIZE. lia.
Qed.

Lemma sector_pad_id bs : zlen bs = LHD_SECTSIZE → sector_pad bs = bs.
Proof.
  unfold zlen, sector_pad, LHD_SECTSIZE. intros. apply take_app_length'. lia.
Qed.

#[export] Program Instance ramcard_laws : LhdHardwareLaws ramcard := {
  hw_sector := ramcard_sector;
  hw_nsect := λ c, zlen (rc_sectors c);
}.
Next Obligation. intros. apply sector_pad_len. Qed.
Next Obligation.
  intros c b buf Hb Hlen. simpl. replace ((0 <=? b) && (b <? zlen (rc_sectors c))) with true by lia.
  destruct (rc_faults c) as [|[] fs]; eexists _, _, _; (split; [done|]); simpl; auto.
Qed.
Next Obligation.
  intros c b buf Hb Hlen. simpl. replace ((0 <=? b) && (b <? zlen (rc_sectors c))) with true by lia.
  eexists _, _, _; (split; [done|]); simpl. rewrite zlen_insert. split_and!; [done|done| |].
  - intros b' Hne. unfold ramcard_sector. simpl. destruct (decide (0 ≤ b')).
    + by rewrite zlookup_insert, decide_False by done.
    + unfold zlookup. by rewrite !decide_False by lia.
  - left. split; [done|]. unfold ramcard_sector. simpl. rewrite zlookup_insert, decide_True by lia. by apply sector_pad_id.
Qed.

#[export] Instance ramcard_reliable : LhdReliable ramcard.
Proof. intros c b buf Hb _. simpl in *. by replace ((0 <=? b) && (b <? zlen (rc_sectors c))) with true by lia. Qed.

(** A worn drive: its next writes fail as [wn_faults] says, and leave the sector
    as it was. *)
Record worncard := { wn_card : ramcard; wn_faults : list bool }.

#[export] Instance worncard_hardware : LhdHardware worncard := {
  hw_run c b iswrite buf :=
    match iswrite, wn_faults c with
    | true, true :: fs => (LHD_MEDIA, buf, {| wn_card := wn_card c; wn_faults := fs |})
    | _, fs => let '(res, card) := hw_run (wn_card c) b iswrite buf in
               (res, {| wn_card := card; wn_faults := if iswrite then tail fs else fs |})
    end;
}.

#[export] Program Instance worncard_laws : LhdHardwareLaws worncard := {
  hw_sector := λ c, hw_sector (wn_card c);
  hw_nsect := λ c, hw_nsect (wn_card c);
}.
Next Obligation. intros c b Hb. by apply (hw_sector_len (wn_card c)). Qed.
Next Obligation.
  intros c b buf Hb Hlen. destruct (hw_read (wn_card c) b buf Hb Hlen) as (code & buf' & hw' & Hrun & ?).
  exists code, buf', {| wn_card := hw'; wn_faults := wn_faults c |}. unfold hw_run, worncard_hardware. by rewrite Hrun.
Qed.
Next Obligation.
  intros c b buf Hb Hlen. destruct (hw_write (wn_card c) b buf Hb Hlen) as (code & buf' & hw' & Hrun & ?).
  unfold hw_run, worncard_hardware. destruct (wn_faults c) as [|[] fs]; [| |].
  1,3: rewrite Hrun; by eexists code, buf', {| wn_card := hw'; wn_faults := _ |}.
  eexists LHD_MEDIA, buf, {| wn_card := wn_card c; wn_faults := fs |}. by split_and!; try done; right.
Qed.

(** ** Properties *)

(** [lhd_io] on a request for one sector of the disk never blocks or stops
    and leaves the driver idle with its semaphores as it found them.  A read
    delivers the sector and leaves the disk as it is, or fails with EIO (nothing
    moved) or, on user memory, with EFAULT. *)
Theorem lhd_io_read_correct {HW : Type} `{LhdHardwareLaws HW} (l : lhd_softc HW) s b :
  lhd_ok l → sector_request s UIO_READ b → 0 ≤ b < lh_blocks l →
  match lhd_io (l, s) with
  | (r, (l', s')) =>
      lhd_ok l' ∧ (∀ b', hw_sector (lh_hw l') b' = hw_sector (lh_hw l) b') ∧
      match r with
      | Ret _ => moved_in s (hw_sector (lh_hw l) b) s' ∧ uio_ok s'
      | Fail e => (e = EIO ∧ s' = s) ∨ (e = EFAULT ∧ uio_segflg (u s) ≠ UIO_SYSSPACE ∧ u s' = u s)
      | Halt _ => False
      end
  end.
Proof.
  intros Hl Hrq Hb. enough (wp lhd_io (λ r p, lhd_ok p.1 ∧
    (∀ b', hw_sector (lh_hw p.1) b' = hw_sector (lh_hw l) b') ∧
      match r with
      | Ret _ => moved_in s (hw_sector (lh_hw l) b) p.2 ∧ uio_ok p.2
      | Fail e => (e = EIO ∧ p.2 = s) ∨ (e = EFAULT ∧ uio_segflg (u s) ≠ UIO_SYSSPACE ∧ u p.2 = u s)
      | Halt _ => False
      end) (l, s)) as Hwp.
  { unfold wp in Hwp. by destruct (lhd_io (l, s)) as [r [l' s']]. }
  apply (lhd_read_law l s b); [done..| | |]; intros; simpl; split_and!; auto.
Qed.

(** [lhd_io] on a write of one sector stores the caller's 512 bytes in that
    sector and changes no other.  It fails with EFAULT when user memory cannot be
    read, and then the disk and the request are as before; or with EIO when the
    card reports a media error, and then the request has been used up and the
    other sectors are as before. *)
Theorem lhd_io_write_correct {HW : Type} `{LhdHardwareLaws HW} (l : lhd_softc HW) s b :
  lhd_ok l → sector_request s UIO_WRITE b → 0 ≤ b < lh_blocks l →
  match lhd_io (l, s) with
  | (Ret _, (l', s')) => lhd_ok l' ∧ uio_ok s' ∧ ∃ bs, zlen bs = SECTSIZE ∧ moved_out s bs s' ∧
      ∀ b', hw_sector (lh_hw l') b' = if decide (b' = b) then bs else hw_sector (lh_hw l) b'
  | (Fail e, (l', s')) => lhd_ok l' ∧
      (e = EFAULT ∧ uio_segflg (u s) ≠ UIO_SYSSPACE ∧ s' = s ∧ (∀ b', hw_sector (lh_hw l') b' = hw_sector (lh_hw l) b') ∨
       e = EIO ∧ uio_resid (u s') = 0 ∧ ∀ b', b' ≠ b → hw_sector (lh_hw l') b' = hw_sector (lh_hw l) b')
  | (Halt _, _) => False
  end.
Proof.
  intros Hl Hrq Hb. enough (wp lhd_io (λ r p, match r with
    | Ret _ => lhd_ok p.1 ∧ uio_ok p.2 ∧ ∃ bs, zlen bs = SECTSIZE ∧ moved_out s bs p.2 ∧
        ∀ b', hw_sector (lh_hw p.1) b' = if decide (b' = b) then bs else hw_sector (lh_hw l) b'
    | Fail e => lhd_ok p.1 ∧
      (e = EFAULT ∧ uio_segflg (u s) ≠ UIO_SYSSPACE ∧ p.2 = s ∧ (∀ b', hw_sector (lh_hw p.1) b' = hw_sector (lh_hw l) b') ∨
       e = EIO ∧ uio_resid (u p.2) = 0 ∧ ∀ b', b' ≠ b → hw_sector (lh_hw p.1) b' = hw_sector (lh_hw l) b')
    | Halt _ => False
    end) (l, s)) as Hwp.
  { unfold wp in Hwp. by destruct (lhd_io (l, s)) as [[] [l' s']]. }
  apply (lhd_write_law l s b); [done..|intros; simpl; eauto 10|intros; simpl; eauto 10|].
  intros l' s' bs buf' ? _ Hbs _ Hsec [_ ->] _. simpl. split; [done|]. right.
  rewrite Hbs, (rq_resid _ _ _ Hrq). done.
Qed.

(** A drive of four sectors, and requests for sector 2. *)
Definition example_lhd (faults : list bool) : lhd_softc ramcard :=
  {| lh_hw := {| rc_sectors := [[1]; [2]; [3]; [4]]; rc_faults := faults |};
     lh_buf := replicate 512 0; lh_reg_sect := 0; lh_reg_stat := 0; lh_result := None;
     lh_clear := 1; lh_done := 0; lh_blocks := 4 |}.

Lemma example_lhd_ok faults : lhd_ok (example_lhd faults).
Proof. split; done. Qed.

Definition example_request (rw : uio_rw) : uiost := kbuf_request (replicate 512 9) 1024 rw.

Lemma example_sector_request rw : sector_request (example_request rw) rw 2.
Proof. split; [apply kbuf_request_ok; vm_compute; split; congruence || done|done..]. Qed.

Lemma lhd_io_read_correct_witness :
  match lhd_io (example_lhd [true], example_request UIO_READ) with
  | (r, (l', s')) =>
      lhd_ok l' ∧ (∀ b', hw_sector (lh_hw l') b' = hw_sector (lh_hw (example_lhd [true])) b') ∧
      match r with
      | Ret _ => moved_in (example_request UIO_READ) (hw_sector (lh_hw (example_lhd [true])) 2) s' ∧ uio_ok s'
      | Fail e => (e = EIO ∧ s' = example_request UIO_READ) ∨
                  (e = EFAULT ∧ UIO_SYSSPACE ≠ UIO_SYSSPACE ∧ u s' = u (example_request UIO_READ))
      | Halt _ => False
      end
  end.
Proof.
  apply (lhd_io_read_correct (example_lhd [true]) (example_request UIO_READ) 2);
    [apply example_lhd_ok|apply example_sector_request|simpl; lia].
Defined.

Lemma lhd_io_write_correct_witness :
  match lhd_io (example_lhd [], example_request UIO_WRITE) with
  | (Ret _, (l', s')) => lhd_ok l' ∧ uio_ok s' ∧ ∃ bs, zlen bs = SECTSIZE ∧
      moved_out (example_request UIO_WRITE) bs s' ∧
      ∀ b', hw_sector (lh_hw l') b' = if decide (b' = 2) then bs else hw_sector (lh_hw (example_lhd [])) b'
  | (Fail e, (l', s')) => lhd_ok l' ∧
      (e = EFAULT ∧ UIO_SYSSPACE ≠ UIO_SYSSPACE ∧ s' = example_request UIO_WRITE ∧
       (∀ b', hw_sector (lh_hw l') b' = hw_sector (lh_hw (example_lhd [])) b') ∨
       e = EIO ∧ uio_resid (u s') = 0 ∧ ∀ b', b' ≠ 2 → hw_sector (lh_hw l') b' = hw_sector (lh_hw (example_lhd [])) b')
  | (Halt _, _) => False
  end.
Proof.
  apply (lhd_io_write_correct (example_lhd []) (example_request UIO_WRITE) 2);
    [apply example_lhd_ok|apply example_sector_request|simpl; lia].
Defined.
