(* ===== verification/SfsDisk.v ===== *)
(** * On-disk structures of SFS (kern/include/kern/sfs.h)

    The structs of the disk are read and written by copying memory, so their
    layout is the compiler's: big-endian words, no padding.  [encode_x] is
    the 512 bytes (64 for a directory entry) of the struct, [decode_x] the
    struct the bytes hold. *)

From S2P Require Import Prelude.

Definition SFS_MAGIC : Z := 2880303105.
Definition SFS_BLOCKSIZE : Z := 512.
Definition SFS_VOLNAME_SIZE : Z := 32.
Definition SFS_NDIRECT : Z := 15.
Definition SFS_DBPERIDB : Z := 128.
Definition SFS_NAMELEN : Z := 60.
Definition SFS_SB_LOCATION : Z := 0.
Definition SFS_ROOT_LOCATION : Z := 1.
Definition SFS_MAP_LOCATION : Z := 2.
Definition SFS_NOINO : Z := 0.
Definition SFS_BLOCKBITS : Z := SFS_BLOCKSIZE * 8.
(** The macros evaluate on 32-bit unsigned operands. *)
Definition SFS_ROUNDUP (a b : Z) : Z := u32 (u32 (a + b - 1) / b * b).
Definition SFS_BITMAPSIZE (nblocks : Z) : Z := SFS_ROUNDUP nblocks SFS_BLOCKBITS.
Definition SFS_BITBLOCKS (nblocks : Z) : Z := SFS_BITMAPSIZE nblocks / SFS_BLOCKBITS.
Definition SFS_TYPE_INVAL : Z := 0.
Definition SFS_TYPE_FILE : Z := 1.
Definition SFS_TYPE_DIR : Z := 2.

Record sfs_super := {
  sp_magic : Z;
  sp_nblocks : Z;
  sp_volname : list Z;
  sp_reserved : list Z;
}.

Record sfs_inode := {
  sfi_size : Z;
  sfi_type : Z;
  sfi_linkcount : Z;
  sfi_direct : list Z;
  sfi_indirect : Z;
  sfi_waste : list Z;
}.

Record sfs_dir := { sfd_ino : Z; sfd_name : list Z }.

(** ** Big-endian integers *)

Definition be32 (w : Z) : list Z :=
  [u8 (Z.shiftr w 24); u8 (Z.shiftr w 16); u8 (Z.shiftr w 8); u8 w].
Definition be16 (w : Z) : list Z := [u8 (Z.shiftr w 8); u8 w].

Definition of_be (bs : list Z) : Z := foldl (λ acc b, acc * 256 + b) 0 bs.

Definition encode_words (ws : list Z) : list Z := ws ≫= be32.
Fixpoint decode_words (n : nat) (bs : list Z) : list Z :=
  match n with
  | O => []
  | S n' => of_be (take 4 bs) :: decode_words n' (drop 4 bs)
  end.

(** ** The three structs *)

Definition encode_super (sp : sfs_super) : list Z :=
  be32 (sp_magic sp) ++ be32 (sp_nblocks sp) ++ sp_volname sp ++ encode_words (sp_reserved sp).
Definition decode_super (bs : list Z) : sfs_super :=
  {| sp_magic := of_be (take 4 bs);
     sp_nblocks := of_be (take 4 (drop 4 bs));
     sp_volname := take 32 (drop 8 bs);
     sp_reserved := decode_words 118 (drop 40 bs) |}.

Definition encode_inode (i : sfs_inode) : list Z :=
  be32 (sfi_size i) ++ be16 (sfi_type i) ++ be16 (sfi_linkcount i) ++
  encode_words (sfi_direct i) ++ be32 (sfi_indirect i) ++ encode_words (sfi_waste i).
Definition decode_inode (bs : list Z) : sfs_inode :=
  {| sfi_size := of_be (take 4 bs);
     sfi_type := of_be (take 2 (drop 4 bs));
     sfi_linkcount := of_be (take 2 (drop 6 bs));
     sfi_direct := decode_words 15 (drop 8 bs);
     sfi_indirect := of_be (take 4 (drop 68 bs));
     sfi_waste := decode_words 110 (drop 72 bs) |}.

Definition encode_dir (sd : sfs_dir) : list Z := be32 (sfd_ino sd) ++ sfd_name sd.
Definition decode_dir (bs : list Z) : sfs_dir :=
  {| sfd_ino := of_be (take 4 bs); sfd_name := drop 4 bs |}.

(** [sfs_domount] ends the volume name with a 0. *)
Definition end_volname (sp : sfs_super) : sfs_super :=
  {| sp_magic := sp_magic sp; sp_nblocks := sp_nblocks sp;
     sp_volname := <[31%nat := 0]> (sp_volname sp); sp_reserved := sp_reserved sp |}.

(** ** Well-formed structs: every field has its width and length. *)

Record inode_ok (i : sfs_inode) : Prop := {
  io_size : is_u32 (sfi_size i);
  io_type : is_u16 (sfi_type i);
  io_links : is_u16 (sfi_linkcount i);
  io_direct : length (sfi_direct i) = 15%nat ∧ Forall is_u32 (sfi_direct i);
  io_indirect : is_u32 (sfi_indirect i);
  io_waste : length (sfi_waste i) = 110%nat ∧ Forall is_u32 (sfi_waste i);
}.

Record super_ok (sp : sfs_super) : Prop := {
  so_magic : is_u32 (sp_magic sp);
  so_nblocks : is_u32 (sp_nblocks sp);
  so_volname : length (sp_volname sp) = 32%nat;
  so_reserved : length (sp_reserved sp) = 118%nat ∧ Forall is_u32 (sp_reserved sp);
}.

Record dir_ok (sd : sfs_dir) : Prop := {
  do_ino : is_u32 (sfd_ino sd);
  do_name : length (sfd_name sd) = 60%nat;
}.

(** ** Round trips *)

Lemma shiftr_u8_split w k :
  0 ≤ k → Z.shiftr w k = Z.shiftr w (k + 8) * 256 + u8 (Z.shiftr w k).
Proof.
  intros. unfold u8. rewrite !Z.shiftr_div_pow2 by lia. rewrite Z.pow_add_r by lia.
  rewrite <- Z.div_div by lia. pose proof (Z.div_mod (w / 2 ^ k) (2 ^ 8)). lia.
Qed.

Lemma of_be_be32 w : is_u32 w → of_be (be32 w) = w.
Proof.
  intros Hw. unfold of_be, be32; cbn [foldl].
  pose proof (shiftr_u8_split w 0 ltac:(lia)) as H0. rewrite Z.shiftr_0_r in H0.
  pose proof (shiftr_u8_split w 8 ltac:(lia)) as H1.
  pose proof (shiftr_u8_split w 16 ltac:(lia)) as H2.
  pose proof (shiftr_u8_split w 24 ltac:(lia)) as H3.
  change (0 + 8) with 8 in H0. change (8 + 8) with 16 in H1.
  change (16 + 8) with 24 in H2. change (24 + 8) with 32 in H3.
  assert (Z.shiftr w 32 = 0) as H4.
  { rewrite Z.shiftr_div_pow2 by lia. apply Z.div_small, Hw. }
  lia.
Qed.

Lemma of_be_be16 w : is_u16 w → of_be (be16 w) = w.
Proof.
  intros Hw. unfold of_be, be16; cbn [foldl].
  pose proof (shiftr_u8_split w 0 ltac:(lia)) as H0. rewrite Z.shiftr_0_r in H0.
  pose proof (shiftr_u8_split w 8 ltac:(lia)) as H1.
  change (0 + 8) with 8 in H0. change (8 + 8) with 16 in H1.
  assert (Z.shiftr w 16 = 0) as H4.
  { rewrite Z.shiftr_div_pow2 by lia. apply Z.div_small, Hw. }
  lia.
Qed.

Lemma length_encode_words ws : length (encode_words ws) = (4 * length ws)%nat.
Proof.
  induction ws as [|w ws IH]; [done|].
  change (encode_words (w :: ws)) with (be32 w ++ encode_words ws).
  rewrite length_app, IH. simpl. lia.
Qed.

Lemma decode_encode_words ws tail :
  Forall is_u32 ws → decode_words (length ws) (encode_words ws ++ tail) = ws.
Proof.
  induction 1 as [|w ws Hw Hws IH]; [done|].
  change (encode_words (w :: ws)) with (be32 w ++ encode_words ws).
  rewrite <- app_assoc. cbn [decode_words length].
  rewrite take_app_length', drop_app_length' by done. by rewrite of_be_be32, IH.
Qed.

Lemma length_encode_inode i : inode_ok i → zlen (encode_inode i) = SFS_BLOCKSIZE.
Proof.
  intros [? ? ? [Hd _] ? [Hw _]]. unfold zlen, encode_inode.
  rewrite !length_app, !length_encode_words, Hd, Hw. done.
Qed.

Lemma drop_encode_words ws n tail :
  (4 * length ws ≤ n)%nat →
  drop n (encode_words ws ++ tail) = drop (n - 4 * length ws) tail.
Proof. intros. rewrite drop_app_ge by (rewrite length_encode_words; lia). by rewrite length_encode_words. Qed.

Lemma decode_encode_inode i : inode_ok i → decode_inode (encode_inode i) = i.
Proof.
  intros [? ? ? [Hd Hdw] ? [Hw Hww]]. unfold decode_inode, encode_inode.
  destruct i as [sz ty lc di ind wa].
  cbn [sfi_size sfi_type sfi_linkcount sfi_direct sfi_indirect sfi_waste] in *. f_equal.
  - by apply of_be_be32.
  - by apply of_be_be16.
  - by apply of_be_be16.
  - change (drop 8 _) with (encode_words di ++ be32 ind ++ encode_words wa).
    rewrite <- Hd at 1. by apply decode_encode_words.
  - change (drop 68 _) with (drop 60 (encode_words di ++ be32 ind ++ encode_words wa)).
    rewrite drop_encode_words, Hd by lia. by apply of_be_be32.
  - change (drop 72 _) with (drop 64 (encode_words di ++ be32 ind ++ encode_words wa)).
    rewrite drop_encode_words, Hd by lia. change (drop _ _) with (encode_words wa).
    rewrite <- (app_nil_r (encode_words wa)), <- Hw at 1. by apply decode_encode_words.
Qed.

Lemma length_encode_super sp : super_ok sp → zlen (encode_super sp) = SFS_BLOCKSIZE.
Proof.
  intros [? ? Hv [Hr _]]. unfold zlen, encode_super.
  rewrite !length_app, length_encode_words, Hv, Hr. done.
Qed.

Lemma decode_encode_super sp : super_ok sp → decode_super (encode_super sp) = sp.
Proof.
  intros [? ? Hv [Hr Hrw]]. unfold decode_super, encode_super.
  destruct sp as [ma nb vn re]. cbn [sp_magic sp_nblocks sp_volname sp_reserved] in *. f_equal.
  - by apply of_be_be32.
  - by apply of_be_be32.
  - change (drop 8 _) with (vn ++ encode_words re). by rewrite take_app_length'.
  - change (drop 40 _) with (drop 32 (vn ++ encode_words re)). rewrite drop_app_length' by done.
    rewrite <- (app_nil_r (encode_words re)), <- Hr at 1. by apply decode_encode_words.
Qed.

Lemma length_encode_dir sd : dir_ok sd → zlen (encode_dir sd) = 64.
Proof. intros [_ Hn]. unfold zlen, encode_dir. rewrite length_app, Hn. done. Qed.

Lemma decode_encode_dir sd : dir_ok sd → decode_dir (encode_dir sd) = sd.
Proof.
  intros [Hi Hn]. unfold decode_dir, encode_dir. destruct sd as [i n].
  cbn [sfd_ino sfd_name] in *. f_equal. by apply of_be_be32.
Qed.

#[global] Arguments decode_words : simpl never.
