(* ===== verification/Vnode.v ===== *)
(** * Abstract vnodes (kern/fs/vfs/vnode.c, kern/include/vnode.h)

    A vnode has a reference count, an open count and a table of operations.
    [vnode_decref] and [vnode_decopen] call back into the file system; they
    are written over any state that holds the vnode ([vnode_at], an access
    that is [None] for a NULL pointer), with the file system's [vop_reclaim]
    and [vop_close] as arguments.  The count lock protects each counter update,
    so that one update is one step. *)

From S2P Require Import Prelude.

(** The tables of the file systems and of devices, NULL being [None]. *)
Inductive vnode_ops := sfs_fileops | sfs_dirops | dev_vnode_ops | emufs_fileops | emufs_dirops.

#[export] Instance vnode_ops_eq_dec : EqDecision vnode_ops.
Proof. solve_decision. Defined.

Record vnode := {
  vn_refcount : Z;
  vn_opencount : Z;
  vn_countlock : bool;
  vn_ops : option vnode_ops;
}.

Definition set_refcount (n : Z) (vn : vnode) : vnode :=
  {| vn_refcount := n; vn_opencount := vn_opencount vn;
     vn_countlock := vn_countlock vn; vn_ops := vn_ops vn |}.
Definition set_opencount (n : Z) (vn : vnode) : vnode :=
  {| vn_refcount := vn_refcount vn; vn_opencount := n;
     vn_countlock := vn_countlock vn; vn_ops := vn_ops vn |}.

(** [lock_create] may fail. *)
Definition vnode_init (lock_created : bool) (ops : vnode_ops) : result vnode :=
  if lock_created
  then Ret {| vn_refcount := 1; vn_opencount := 0; vn_countlock := true; vn_ops := Some ops |}
  else Fail ENOMEM.

Definition vnode_kill : M vnode unit :=
  vn ← get;
  _ ← assert (vn_refcount vn =? 1);
  _ ← assert (vn_opencount vn =? 0);
  _ ← assert (vn_countlock vn);
  put {| vn_refcount := 0; vn_opencount := 0; vn_countlock := false; vn_ops := None |}.

Definition vnode_incref : M vnode unit :=
  modify (λ vn, set_refcount (vn_refcount vn + 1) vn).

(** The part of [vnode_decref] under the lock: whether to reclaim. *)
Definition vnode_decref_count : M vnode bool :=
  vn ← get;
  _ ← assert (vn_refcount vn >? 0);
  if vn_refcount vn >? 1 then
    _ ← put (set_refcount (vn_refcount vn - 1) vn); mret false
  else mret true.

Definition vnode_incopen : M vnode unit :=
  modify (λ vn, set_opencount (vn_opencount vn + 1) vn).

(** The part of [vnode_decopen] under the lock: whether to close. *)
Definition vnode_decopen_count : M vnode bool :=
  vn ← get;
  _ ← assert (vn_opencount vn >? 0);
  _ ← put (set_opencount (vn_opencount vn - 1) vn);
  mret (negb (vn_opencount vn - 1 >? 0)).

(** [is_reclaim] is the test [strcmp(opstr, "reclaim") == 0]. *)
Definition vnode_check (is_reclaim : bool) : M vnode unit :=
  vn ← get;
  _ ← assert (bool_decide (is_Some (vn_ops vn)));
  _ ← assert (vn_countlock vn);
  _ ← assert (negb (vn_refcount vn <? 0));
  _ ← assert (negb ((vn_refcount vn =? 0) && negb is_reclaim));
  assert (negb (vn_opencount vn <? 0)).

Section callbacks.
Context {St : Type} (on_vnode : ∀ A, M vnode A → M St A).

(** A failing reclaim is reported and otherwise ignored. *)
Definition vnode_decref (vop_reclaim : M St unit) : M St unit :=
  actually_do_it ← on_vnode bool vnode_decref_count;
  if (actually_do_it : bool) then
    _ ← on_vnode unit (vnode_check true);
    _ ← attempt vop_reclaim; mret ()
  else mret ().

Definition vnode_decopen (vop_close : M St unit) : M St unit :=
  do_close ← on_vnode bool vnode_decopen_count;
  if (do_close : bool) then
    _ ← on_vnode unit (vnode_check false);
    _ ← attempt vop_close; mret ()
  else mret ().
End callbacks.

(** ** Well-formed vnodes *)

Record vnode_ok (vn : vnode) : Prop := {
  vok_ref : 0 < vn_refcount vn;
  vok_open : 0 ≤ vn_opencount vn;
  vok_lock : vn_countlock vn = true;
  vok_ops : is_Some (vn_ops vn);
}.

Lemma vnode_check_ok b vn Q : vnode_ok vn → Q (Ret ()) vn → wp (vnode_check b) Q vn.
Proof.
  intros [] HQ. unfold vnode_check. wp_steps.
  apply wp_assert; [by apply bool_decide_eq_true|]. wp_steps.
  apply wp_assert; [done|]. wp_steps. apply wp_assert; [lia|]. wp_steps.
  apply wp_assert; [|apply wp_assert; [lia|done]].
  rewrite (proj2 (Z.eqb_neq _ _)) by lia. done.
Qed.

Lemma vnode_init_ok b ops vn : vnode_init b ops = Ret vn → vnode_ok vn.
Proof. unfold vnode_init. destruct b; [|done]. intros [= <-]. split; simpl; eauto with lia. Qed.

Lemma vnode_kill_spec vn Q :
  vnode_ok vn → vn_refcount vn = 1 → vn_opencount vn = 0 → (∀ vn', Q (Ret ()) vn') → wp vnode_kill Q vn.
Proof.
  intros [_ _ Hlk _] Hrc Hoc HQ. unfold vnode_kill. wp_steps. apply wp_assert; [lia|]. wp_steps.
  apply wp_assert; [lia|]. wp_steps. apply wp_assert; [done|]. wp_steps. apply HQ.
Qed.

(** ** Tables of vnodes

    A file system keeps the addresses of its vnodes in a table; [table_of ls h]
    says that the table [ls] has the addresses of the heap [h]. *)

Definition table_of {A} (ls : list Z) (h : gmap Z A) : Prop := NoDup ls ∧ ∀ l, l ∈ ls ↔ is_Some (h !! l).

Lemma table_update {A} ls (h : gmap Z A) l x : table_of ls h → is_Some (h !! l) → table_of ls (<[l := x]> h).
Proof.
  intros [Hnd Hls] Hl. split; [done|]. intros l1. rewrite Hls.
  destruct (decide (l1 = l)) as [->|]; [rewrite lookup_insert_eq; split; eauto|by rewrite lookup_insert_ne].
Qed.

Lemma table_add {A} ls (h : gmap Z A) l x : table_of ls h → h !! l = None → table_of (ls ++ [l]) (<[l := x]> h).
Proof.
  intros [Hnd Hls] Hl. assert (l ∉ ls) as Hni by (rewrite Hls, Hl; by intros []). split.
  - apply NoDup_app. split_and!; [done| |apply NoDup_singleton]. intros y Hy Hy2%list_elem_of_singleton. congruence.
  - intros l1. rewrite elem_of_app, Hls, list_elem_of_singleton.
    destruct (decide (l1 = l)) as [->|Hne]; [rewrite lookup_insert_eq; split; eauto|].
    rewrite lookup_insert_ne by done. naive_solver.
Qed.

Lemma table_delete {A} ls (h : gmap Z A) k l :
  table_of ls h → ls !! k = Some l → table_of (delete k ls) (delete l h).
Proof.
  intros [Hnd Hls] Hk. rewrite delete_take_drop.
  rewrite <- (take_drop_middle ls k l Hk) in Hnd, Hls. apply NoDup_app in Hnd as (Hn1 & Hn12 & Hn2).
  apply NoDup_cons in Hn2 as [Hl2 Hn2]. split.
  - apply NoDup_app. split_and!; [done| |done]. intros x Hx1 Hx2. apply (Hn12 x Hx1). by right.
  - intros l1. simpl. specialize (Hls l1). rewrite elem_of_app, elem_of_cons in Hls. rewrite elem_of_app.
    destruct (decide (l1 = l)) as [->|Hne].
    + rewrite lookup_delete_eq. split; [|by intros []]. intros [Hx|Hx]; [|done]. exfalso. apply (Hn12 l Hx). left.
    + rewrite lookup_delete_ne by done. rewrite <- Hls. naive_solver.
Qed.
