(* ===== verification/Sfs.v ===== *)
(** * SFS: blocks, allocation and block mapping
    (kern/fs/sfs/sfs_io.c, kern/fs/sfs/sfs_vnode.c)

    [sfs_fs] is the in-memory file system over a block device, without its
    table of vnodes; [sfs_vnode] one file.  An operation of the source that
    takes a [struct sfs_vnode *] runs on the pair of both, one that also takes
    a [struct uio *] on that pair and the request.  The static buffers of the
    source are locals: every use fills them first. *)

From S2P Require Import Prelude Bitmap CopyInOut Uio Device SfsDisk Vnode.

Record sfs_vnode := {
  sv_v : vnode;
  sv_i : sfs_inode;
  sv_ino : Z;
  sv_dirty : bool;
}.

Record sfs_fs (D : Type) := {
  sfs_device : D;
  sfs_sb : sfs_super;
  sfs_superdirty : bool;
  sfs_freemap : bitmap;
  sfs_freemapdirty : bool;
}.
Arguments Build_sfs_fs {_} _ _ _ _ _.
Arguments sfs_device {_} _.
Arguments sfs_sb {_} _.
Arguments sfs_superdirty {_} _.
Arguments sfs_freemap {_} _.
Arguments sfs_freemapdirty {_} _.

Definition set_inode (i : sfs_inode) (sv : sfs_vnode) : sfs_vnode :=
  {| sv_v := sv_v sv; sv_i := i; sv_ino := sv_ino sv; sv_dirty := true |}.
Definition set_dirty (b : bool) (sv : sfs_vnode) : sfs_vnode :=
  {| sv_v := sv_v sv; sv_i := sv_i sv; sv_ino := sv_ino sv; sv_dirty := b |}.

Definition set_size (n : Z) (i : sfs_inode) : sfs_inode :=
  {| sfi_size := n; sfi_type := sfi_type i; sfi_linkcount := sfi_linkcount i;
     sfi_direct := sfi_direct i; sfi_indirect := sfi_indirect i; sfi_waste := sfi_waste i |}.
Definition set_direct (d : list Z) (i : sfs_inode) : sfs_inode :=
  {| sfi_size := sfi_size i; sfi_type := sfi_type i; sfi_linkcount := sfi_linkcount i;
     sfi_direct := d; sfi_indirect := sfi_indirect i; sfi_waste := sfi_waste i |}.
Definition set_indirect (b : Z) (i : sfs_inode) : sfs_inode :=
  {| sfi_size := sfi_size i; sfi_type := sfi_type i; sfi_linkcount := sfi_linkcount i;
     sfi_direct := sfi_direct i; sfi_indirect := b; sfi_waste := sfi_waste i |}.

(** Run an operation on a request built by [mk_kuio] for a kernel buffer that
    holds [bs]; return the buffer and the request as they are afterwards. *)
Definition with_kbuf {S} (op : M (S * uiost) unit) (bs : list Z) (pos : Z) (rw : uio_rw)
    : M S (list Z * uio) := λ s,
  let us := {| u := mk_kuio KBASE (zlen bs) pos rw; mem := kernel_buffer bs; t_vmspace := None |} in
  match op (s, us) with
  | (Ret _, (s', us')) =>
      match mem_load (mem us') KBASE (length bs) with
      | Some bs' => (Ret (bs', u us'), s')
      | None => (Halt Undef, s')
      end
  | (Fail e, (s', _)) => (Fail e, s')
  | (Halt k, (s', _)) => (Halt k, s')
  end.

Definition zero_block : list Z := replicate (Z.to_nat SFS_BLOCKSIZE) 0.

#[global] Arguments zero_block : simpl never.

Section ops.
Context {D : Type} `{BlockDevice D}.
Abbreviation fs := (sfs_fs D).

Definition set_device (d : D) (f : fs) : fs :=
  Build_sfs_fs d (sfs_sb f) (sfs_superdirty f) (sfs_freemap f) (sfs_freemapdirty f).
Definition set_freemap (b : bitmap) (f : fs) : fs :=
  Build_sfs_fs (sfs_device f) (sfs_sb f) (sfs_superdirty f) b (sfs_freemapdirty f).
Definition set_freemapdirty (b : bool) (f : fs) : fs :=
  Build_sfs_fs (sfs_device f) (sfs_sb f) (sfs_superdirty f) (sfs_freemap f) b.

(** [sfs->sfs_device->d_io(sfs->sfs_device, uio)] *)
Definition sfs_d_io : M (fs * uiost) unit :=
  zoom (λ p, (sfs_device p.1, p.2)) (λ q p, (set_device q.1 p.1, q.2)) d_io.

(** [n] retries are left. *)
Fixpoint sfs_rwblock_retry (n : nat) : M (fs * uiost) unit :=
  result ← attempt sfs_d_io;
  match result with
  | inl _ => mret ()
  | inr EINVAL => panic
  | inr EIO => match n with
               | O => fail EIO
               | S n' => sfs_rwblock_retry n'
               end
  | inr e => fail e
  end.

Definition sfs_rwblock : M (fs * uiost) unit := sfs_rwblock_retry 10.

(** [SFSUIO]: the position is computed in [off_t]. *)
Definition sfs_blockpos (block : Z) : Z := s32 (s32 block * SFS_BLOCKSIZE).

Definition sfs_rblock (block : Z) : M fs (list Z) :=
  r ← with_kbuf sfs_rwblock zero_block (sfs_blockpos block) UIO_READ; mret r.1.

Definition sfs_wblock (data : list Z) (block : Z) : M fs unit :=
  _ ← with_kbuf sfs_rwblock data (sfs_blockpos block) UIO_WRITE; mret ().

Definition sfs_clearblock (block : Z) : M fs unit := sfs_wblock zero_block block.

Definition on_freemap {A} : M bitmap A → M fs A := zoom sfs_freemap set_freemap.

Definition sfs_balloc : M fs Z :=
  diskblock ← on_freemap bitmap_alloc;
  _ ← modify (set_freemapdirty true);
  f ← get;
  _ ← assert (negb (diskblock >=? sp_nblocks (sfs_sb f)));
  _ ← sfs_clearblock diskblock;
  mret diskblock.

Definition sfs_bfree (diskblock : Z) : M fs unit :=
  _ ← on_freemap (bitmap_unmark diskblock);
  modify (set_freemapdirty true).

Definition sfs_bused (diskblock : Z) : M fs bool :=
  f ← get;
  _ ← assert (negb (diskblock >=? sp_nblocks (sfs_sb f)));
  w ← on_freemap (bitmap_isset diskblock);
  mret (negb (w =? 0)).

Definition sfs_sync_inode : M (fs * sfs_vnode) unit :=
  p ← get;
  if sv_dirty p.2 then
    _ ← on_fst (sfs_wblock (encode_inode (sv_i p.2)) (sv_ino p.2));
    on_snd (modify (set_dirty false))
  else mret ().

(** [if (block != 0 && !sfs_bused(sfs, block)) panic(...)] *)
Definition sfs_bmap_check (block : Z) : M (fs * sfs_vnode) unit :=
  if block =? 0 then mret ()
  else used ← on_fst (sfs_bused block); assert used.

(** The direct blocks of [sfs_bmap]. *)
Definition sfs_bmap_direct (fileblock : Z) (doalloc : bool) : M (fs * sfs_vnode) Z :=
  p ← get;
  block ← deref (sfi_direct (sv_i p.2) !z fileblock);
  block ← (if (block =? 0) && doalloc then
             block ← on_fst sfs_balloc;
             d ← deref (zstore (sfi_direct (sv_i p.2)) fileblock block);
             _ ← on_snd (modify (λ sv, set_inode (set_direct d (sv_i sv)) sv));
             mret block
           else mret block);
  _ ← sfs_bmap_check block;
  mret block.

(** The entry [idoff] of the indirect block, loaded in [idbuf]. *)
Definition sfs_bmap_entry (idblock : Z) (idbuf : list Z) (idoff : Z) (doalloc : bool)
    : M (fs * sfs_vnode) Z :=
  block ← deref (idbuf !z idoff);
  block ← (if (block =? 0) && doalloc then
             block ← on_fst sfs_balloc;
             idbuf ← deref (zstore idbuf idoff block);
             _ ← on_fst (sfs_wblock (encode_words idbuf) idblock);
             mret block
           else mret block);
  _ ← sfs_bmap_check block;
  mret block.

(** The indirect block of [sfs_bmap], [idoff] being the index in it. *)
Definition sfs_bmap_indirect (idoff : Z) (doalloc : bool) : M (fs * sfs_vnode) Z :=
  p ← get;
  let idblock := sfi_indirect (sv_i p.2) in
  if (idblock =? 0) && negb doalloc then mret 0
  else if idblock =? 0 then
    idblock ← on_fst sfs_balloc;
    _ ← on_snd (modify (λ sv, set_inode (set_indirect idblock (sv_i sv)) sv));
    sfs_bmap_entry idblock (replicate (Z.to_nat SFS_DBPERIDB) 0) idoff doalloc
  else
    bs ← on_fst (sfs_rblock idblock);
    sfs_bmap_entry idblock (decode_words (Z.to_nat SFS_DBPERIDB) bs) idoff doalloc.

Definition sfs_bmap (fileblock : Z) (doalloc : bool) : M (fs * sfs_vnode) Z :=
  if fileblock <? SFS_NDIRECT then sfs_bmap_direct fileblock doalloc
  else
    let fileblock := fileblock - SFS_NDIRECT in
    let idnum := fileblock / SFS_DBPERIDB in
    let idoff := fileblock mod SFS_DBPERIDB in
    if idnum >? 0 then fail EINVAL
    else sfs_bmap_indirect idoff doalloc.
End ops.

(** ** Kernel buffers *)

Lemma with_kbuf_spec {S} (op : M (S * uiost) unit) bs pos rw (Q : result (list Z * uio) → S → Prop) s :
  wp op (λ r p, match r with
    | Ret _ => ∃ bs', length bs' = length bs ∧ bytes_at (mem p.2) KBASE bs' ∧
                      Q (Ret (bs', u p.2)) p.1
    | Fail e => Q (Fail e) p.1
    | Halt k => Q (Halt k) p.1
    end) (s, kbuf_request bs pos rw) →
  wp (with_kbuf op bs pos rw) Q s.
Proof.
  unfold wp, with_kbuf. fold (kbuf_request bs pos rw).
  destruct (op (s, kbuf_request bs pos rw)) as [[[]|e|k] [s' us]]; simpl; [|done..].
  intros (bs' & Hlen & Hat & HQ).
  destruct (mem_load_readable (mem us) KBASE (length bs)) as [bs'' Hload].
  { intros i Hi. destruct (lookup_lt_is_Some_2 bs' (Z.to_nat (i - KBASE))) as [b Hb]; [lia|].
    apply Hat in Hb. replace (KBASE + _) with i in Hb by lia. eauto. }
  rewrite Hload. simpl. apply bytes_at_load in Hload as [Hlen' Hat'].
  assert (bs'' = bs') as -> by (eapply bytes_at_unique; [congruence|done..]). done.
Qed.

(** ** Block I/O *)

Section specs.
Context {D : Type} `{BlockDeviceLaws D}.
Implicit Types (f : sfs_fs D) (d : D) (sv : sfs_vnode).

(** [d'] is [d] with the block [b] replaced. *)
Definition written d (b : Z) (bs : list Z) d' : Prop :=
  dev_ok d' ∧ d_blocks d' = d_blocks d ∧
  ∀ b', sector d' b' = if decide (b' = b) then bs else sector d b'.

Lemma same_disk_trans d1 d2 d3 : same_disk d1 d2 → same_disk d2 d3 → same_disk d1 d3.
Proof. intros (? & ? & Ha) (? & ? & Hb). split_and!; [done|congruence|]. intros b. by rewrite Hb. Qed.

Lemma set_device_twice d d' f : set_device d (set_device d' f) = set_device d f.
Proof. done. Qed.

Lemma rwblock_read_spec n f s b Q :
  dev_ok (sfs_device f) → sector_request s UIO_READ b → 0 ≤ b < d_blocks (sfs_device f) →
  (∀ d' s', same_disk (sfs_device f) d' → moved_in s (sector (sfs_device f) b) s' → uio_ok s' →
     Q (Ret ()) (set_device d' f, s')) →
  (∀ d', same_disk (sfs_device f) d' → Q (Fail EIO) (set_device d' f, s)) →
  (∀ d' m' j, same_disk (sfs_device f) d' → uio_segflg (u s) ≠ UIO_SYSSPACE → 0 ≤ j < SECTSIZE →
     stored (mem s) (iov_base (u s)) (take (Z.to_nat j) (sector (sfs_device f) b)) m' →
     Q (Fail EFAULT) (set_device d' f, set_mem m' s)) →
  wp (sfs_rwblock_retry n) Q (f, s).
Proof.
  revert f. induction n as [|n IH]; intros f Hok Hrq Hb HQ HIO HFA;
    cbn [sfs_rwblock_retry]; unfold sfs_d_io; wp_steps; simpl.
  all: apply (d_io_read _ s b); [done..|intros d' s' Hs Hmv Hok'; wp_steps; by apply HQ| |
    intros d' m' j Hs ???; wp_steps; by apply (HFA d' m' j)].
  - intros d' Hs. wp_steps. by apply HIO.
  - intros d' Hs. destruct (Hs) as (Hok' & Hbl & Hsec). apply IH; simpl; [done|done|congruence|..].
    + intros d'' s' Hs' Hmv Hok''. rewrite set_device_twice. rewrite Hsec in Hmv.
      apply HQ; [by eapply same_disk_trans|done|done].
    + intros d'' Hs'. rewrite set_device_twice. apply HIO. by eapply same_disk_trans.
    + intros d'' m' j Hs' ? ? Hst. rewrite set_device_twice. rewrite Hsec in Hst.
      apply (HFA d'' m' j); [by eapply same_disk_trans|done..].
Qed.

Lemma rwblock_write_spec `{!ReliableWrites D} n f s b Q :
  dev_ok (sfs_device f) → sector_request s UIO_WRITE b → 0 ≤ b < d_blocks (sfs_device f) →
  (∀ d' s' bs, written (sfs_device f) b bs d' → zlen bs = SECTSIZE → moved_out s bs s' →
     uio_ok s' → Q (Ret ()) (set_device d' f, s')) →
  (∀ d', same_disk (sfs_device f) d' → uio_segflg (u s) ≠ UIO_SYSSPACE →
     Q (Fail EFAULT) (set_device d' f, s)) →
  wp (sfs_rwblock_retry n) Q (f, s).
Proof.
  intros Hok Hrq Hb HQ HFA.
  destruct n; cbn [sfs_rwblock_retry]; unfold sfs_d_io; wp_steps; simpl.
  all: apply (d_io_write_reliable _ s b); [done..| |intros d' Hs Hseg; wp_steps; by apply HFA].
  all: intros d' s' bs Hd Hbl Hlen Hsec Hmv Hok'; wp_steps; apply (HQ d' s' bs); done.
Qed.

Lemma blockpos_small b : 0 ≤ b < 2 ^ 22 → sfs_blockpos b = b * SECTSIZE.
Proof. intros. unfold sfs_blockpos, SFS_BLOCKSIZE, SECTSIZE. rewrite (s32_small b), s32_small by lia. done. Qed.

Lemma kbuf_sector_request bs b rw :
  zlen bs = SECTSIZE → 0 ≤ b < 2 ^ 22 → sector_request (kbuf_request bs (sfs_blockpos b) rw) rw b.
Proof.
  intros Hlen Hb. rewrite blockpos_small by done. unfold SECTSIZE in *.
  split; simpl; [apply kbuf_request_ok; lia|done..].
Qed.

Lemma zlen_zero_block : zlen zero_block = SFS_BLOCKSIZE.
Proof. done. Qed.

Lemma sfs_rblock_spec f b Q :
  dev_ok (sfs_device f) → 0 ≤ b < d_blocks (sfs_device f) → b < 2 ^ 22 →
  (∀ d', same_disk (sfs_device f) d' →
     Q (Ret (sector (sfs_device f) b)) (set_device d' f)) →
  (∀ d', same_disk (sfs_device f) d' → Q (Fail EIO) (set_device d' f)) →
  wp (sfs_rblock b) Q f.
Proof.
  intros Hok Hb Hb' HQ HIO. pose proof (sector_len _ _ Hok Hb) as Hlen.
  unfold sfs_rblock, sfs_rwblock. wp_steps. apply with_kbuf_spec.
  eapply rwblock_read_spec; [done|apply kbuf_sector_request; [done|lia]|done| |done|].
  - intros d' s' Hs [Hu Hm Hsp] Hok'. exists (sector (sfs_device f) b). split; [|split].
    + unfold zlen in *. apply Nat2Z.inj. by rewrite Hlen.
    + intros i x Hx. destruct Hm as [_ Hm]. rewrite Hm. cbn [u kbuf_request iov_base mk_kuio].
      apply lookup_lt_Some in Hx as Hlt. rewrite decide_True by (unfold zlen; lia).
      rewrite zlookup_nat by lia. rewrite <- Hx. f_equal. lia.
    + wp_steps. by apply HQ.
  - by intros ??? ? [].
Qed.

Lemma sfs_wblock_spec `{!ReliableWrites D} f data b Q :
  dev_ok (sfs_device f) → 0 ≤ b < d_blocks (sfs_device f) → b < 2 ^ 22 → zlen data = SFS_BLOCKSIZE →
  (∀ d', written (sfs_device f) b data d' → Q (Ret ()) (set_device d' f)) →
  wp (sfs_wblock data b) Q f.
Proof.
  intros Hok Hb Hb' Hlen HQ. unfold sfs_wblock, sfs_rwblock. wp_steps. apply with_kbuf_spec.
  eapply rwblock_write_spec; [done|apply kbuf_sector_request; [done|lia]|done| |by intros ? ? []].
  intros d' s' bs Hw Hbs [Hat ->] _. simpl in *.
  assert (bs = data) as ->.
  { eapply bytes_at_unique; [|exact Hat|apply kernel_buffer_at].
    unfold zlen, SECTSIZE, SFS_BLOCKSIZE in *. lia. }
  exists data. split; [done|]. split; [apply kernel_buffer_at|]. wp_steps. by apply HQ.
Qed.
End specs.
