(* ===== verification/SfsMap.v ===== *)
(** * SFS: the blocks of a file and their allocation

    [fs_ok] is the invariant of the free map and the device, [file_ok] that of
    one file.  [bmapZ f i k] is the disk block of block [k] of the file with
    inode [i], read off the disk; [fbyte f i o] its byte at offset [o].  An
    operation on a file is specified by [fstep]: the file stays well formed and
    every block in use that is not the file's is left alone. *)

From S2P Require Import Prelude Bitmap CopyInOut Uio Device SfsDisk Vnode Sfs.

(** Positions of a file's blocks: 15 direct, 128 indirect, and the indirect
    block itself. *)
Definition MAXBLOCKS : Z := 143.
Definition MAXBYTES : Z := MAXBLOCKS * SFS_BLOCKSIZE.

Section defs.
Context {D : Type} `{BlockDeviceLaws D}.
Implicit Types (f : sfs_fs D) (i : sfs_inode).

Abbreviation blk f b := (sector (sfs_device f) b).
Abbreviation nblk f := (sp_nblocks (sfs_sb f)).
Abbreviation used f b := (bit (sfs_freemap f) b).

Record fs_ok f : Prop := {
  fo_dev : dev_ok (sfs_device f);
  fo_nblocks : 2 < nblk f ≤ 2 ^ 22;
  fo_fits : nblk f ≤ d_blocks (sfs_device f);
  fo_map : bitmap_wf (sfs_freemap f);
  fo_nbits : nblk f ≤ nbits (sfs_freemap f);
  fo_tail : ∀ b, nblk f ≤ b < nbits (sfs_freemap f) → used f b = true;
  fo_super : used f 0 = true;
}.

Definition idwords f (b : Z) : list Z := decode_words (Z.to_nat SFS_DBPERIDB) (blk f b).

Definition bmapZ f i (k : Z) : Z :=
  if decide (k < SFS_NDIRECT) then default 0 (sfi_direct i !z k)
  else if decide (sfi_indirect i = 0) then 0
  else default 0 (idwords f (sfi_indirect i) !z (k - SFS_NDIRECT)).

(** The block at position [k]. *)
Definition fblock f i (k : Z) : Z :=
  if decide (k = MAXBLOCKS) then sfi_indirect i else bmapZ f i k.

Record file_ok f i : Prop := {
  fl_inode : inode_ok i;
  fl_range : ∀ k, 0 ≤ k ≤ MAXBLOCKS → 0 ≤ fblock f i k < nblk f;
  fl_used : ∀ k, 0 ≤ k ≤ MAXBLOCKS → fblock f i k ≠ 0 → used f (fblock f i k) = true;
  fl_distinct : ∀ j k, 0 ≤ j ≤ MAXBLOCKS → 0 ≤ k ≤ MAXBLOCKS →
    fblock f i j = fblock f i k → fblock f i j ≠ 0 → j = k;
}.

(** The file has block [b]. *)
Definition owns f i (b : Z) : Prop := b ≠ 0 ∧ ∃ k, 0 ≤ k ≤ MAXBLOCKS ∧ fblock f i k = b.

Definition fbyte f i (o : Z) : Z :=
  let b := bmapZ f i (o / SFS_BLOCKSIZE) in
  if decide (b = 0) then 0 else default 0 (blk f b !z (o mod SFS_BLOCKSIZE)).

(** A change of the free map is marked, so that [sfs_sync] writes it. *)
Record map_step f f' : Prop := {
  mp_map : sfs_freemapdirty f' = true ∨
           sfs_freemap f' = sfs_freemap f ∧ sfs_freemapdirty f' = sfs_freemapdirty f;
  mp_super : sfs_superdirty f' = sfs_superdirty f;
  mp_nbits : nbits (sfs_freemap f') = nbits (sfs_freemap f);
}.

Lemma map_step_refl f : map_step f f.
Proof. by split; [right|..]. Qed.

Lemma map_step_trans f f1 f2 : map_step f f1 → map_step f1 f2 → map_step f f2.
Proof.
  intros [Hm1 Hs1 Hn1] [Hm2 Hs2 Hn2]. split; [|congruence..]. destruct Hm2 as [?|[Hb2 Hd2]]; [by left|].
  destruct Hm1 as [?|[Hb1 Hd1]]; [left|right; split]; congruence.
Qed.

(** The device may change as it likes. *)
Lemma map_step_device f f' d' : map_step f f' → map_step f (set_device d' f').
Proof. by intros []. Qed.

(** One step on the file [i]. *)
Record fstep f i f' i' : Prop := {
  fs_fs : fs_ok f';
  fs_file : file_ok f' i';
  fs_sb : sfs_sb f' = sfs_sb f;
  fs_blocks : d_blocks (sfs_device f') = d_blocks (sfs_device f);
  fs_meta : sfi_type i' = sfi_type i ∧ sfi_linkcount i' = sfi_linkcount i ∧
            sfi_waste i' = sfi_waste i;
  fs_grow : ∀ b, 0 ≤ b → used f b = true → used f' b = true;
  fs_frame : ∀ b, 0 ≤ b → used f b = true → ¬ owns f i b →
    blk f' b = blk f b ∧ ¬ owns f' i' b;
  fs_md : map_step f f';
}.

Lemma fstep_refl f i : fs_ok f → file_ok f i → fstep f i f i.
Proof. intros. split; [done..|]. apply map_step_refl. Qed.

Lemma fstep_trans f i f1 i1 f2 i2 :
  fstep f i f1 i1 → fstep f1 i1 f2 i2 → fstep f i f2 i2.
Proof.
  intros [? ? ? ? (?&?&?) Hg1 Hf1 Hm1] [? ? ? ? (?&?&?) Hg2 Hf2 Hm2].
  split; [done|done|congruence|congruence|split_and!; congruence|auto| |by eapply map_step_trans].
  intros b Hb Hu Ho. destruct (Hf1 b Hb Hu Ho) as [Hs1 Ho1].
  destruct (Hf2 b Hb (Hg1 b Hb Hu) Ho1) as [Hs2 Ho2]. split; [congruence|done].
Qed.

(** ** Allocation *)

(** [f'] is [f] with the free block [b] allocated and cleared. *)
Record balloc_step f b f' : Prop := {
  ba_range : 0 < b < nblk f;
  ba_free : used f b = false;
  ba_dev : written (sfs_device f) b zero_block (sfs_device f');
  ba_map : bitmap_wf (sfs_freemap f');
  ba_bits : set_bit (sfs_freemap f) (sfs_freemap f') b true;
  ba_sb : sfs_sb f' = sfs_sb f;
  ba_md : map_step f f';
}.

Lemma balloc_step_ok f b f' : fs_ok f → balloc_step f b f' → fs_ok f'.
Proof.
  intros [] [? ? (Hd & Hbl & Hsec) Hwf [Hn Hbit] Hsb _]. pose proof fo_nblocks0.
  split; rewrite ?Hsb, ?Hn, ?Hbl; try done; try lia.
  - intros b' Hb'. rewrite Hbit by lia. case_decide; [done|auto].
  - rewrite Hbit by lia. by case_decide.
Qed.

Lemma sfs_clearblock_spec `{!ReliableWrites D} f b Q :
  dev_ok (sfs_device f) → 0 ≤ b < d_blocks (sfs_device f) → b < 2 ^ 22 →
  (∀ d', written (sfs_device f) b zero_block d' → Q (Ret ()) (set_device d' f)) →
  wp (sfs_clearblock b) Q f.
Proof. intros. unfold sfs_clearblock. by apply sfs_wblock_spec. Qed.

Lemma sfs_balloc_spec `{!ReliableWrites D} f Q :
  fs_ok f →
  (∀ b f', balloc_step f b f' → fs_ok f' → Q (Ret b) f') →
  ((∀ b, 0 ≤ b < nblk f → used f b = true) → Q (Fail ENOSPC) f) →
  wp sfs_balloc Q f.
Proof.
  intros Hok HQ HF. destruct (Hok). unfold sfs_balloc, on_freemap. wp_steps.
  apply bitmap_alloc_spec; [done| |].
  - intros b map' Hb Hfree _ Hwf' Hset. wp_steps. simpl.
    assert (b < nblk f) as Hlt.
    { destruct (decide (b < nblk f)); [done|]. rewrite fo_tail0 in Hfree by lia. done. }
    apply wp_assert; [rewrite Z.geb_leb; lia|]. wp_steps.
    apply sfs_clearblock_spec; simpl; [done|lia|lia|]. intros d' Hw. wp_steps.
    assert (b ≠ 0) by (intros ->; congruence).
    assert (balloc_step f b (set_device d' (set_freemapdirty true (set_freemap map' f)))) as Hstep.
    { split; simpl; [lia|done..|]. split; [by left|done|apply Hset]. }
    apply HQ; [done|]. by eapply balloc_step_ok.
  - intros Hfull. replace (set_freemap (sfs_freemap f) f) with f by (by destruct f).
    apply HF. intros b Hb. apply Hfull. lia.
Qed.

Lemma sfs_bused_spec f b Q :
  fs_ok f → 0 ≤ b < nblk f → Q (Ret (used f b)) f → wp (sfs_bused b) Q f.
Proof.
  intros [] Hb HQ. unfold sfs_bused, on_freemap. wp_steps.
  apply wp_assert; [rewrite Z.geb_leb; lia|]. wp_steps.
  apply bitmap_isset_spec; [done|lia|]. intros z Hz.
  replace (set_freemap (sfs_freemap f) f) with f by (by destruct f).
  wp_steps. rewrite Hz, negb_involutive. done.
Qed.

(** [f'] is [f] with the block [b] marked free. *)
Record bfree_step f b f' : Prop := {
  bf_map : bitmap_wf (sfs_freemap f');
  bf_bits : set_bit (sfs_freemap f) (sfs_freemap f') b false;
  bf_rest : sfs_device f' = sfs_device f ∧ sfs_sb f' = sfs_sb f;
  bf_md : map_step f f';
}.

Lemma bfree_step_ok f b f' : fs_ok f → 0 < b < nblk f → bfree_step f b f' → fs_ok f'.
Proof.
  intros [] Hb [Hwf [Hn Hbit] [Hd Hsb] _].
  split; rewrite ?Hsb, ?Hd, ?Hn; try done.
  - intros b' Hb'. rewrite Hbit by lia. case_decide; [lia|auto].
  - rewrite Hbit by lia. case_decide; [lia|done].
Qed.

Lemma sfs_bfree_spec f b Q :
  fs_ok f → 0 < b < nblk f → used f b = true →
  (∀ f', bfree_step f b f' → fs_ok f' → Q (Ret ()) f') →
  wp (sfs_bfree b) Q f.
Proof.
  intros Hok Hb Hu HQ. destruct (Hok). unfold sfs_bfree, on_freemap. wp_steps.
  apply bitmap_unmark_spec; [done|lia|done|]. intros map' Hwf' Hset. wp_steps.
  assert (bfree_step f b (set_freemapdirty true (set_freemap map' f))) as Hs.
  { split; [done..|]. split; [by left|done|apply Hset]. }
  apply HQ; [done|]. by eapply bfree_step_ok.
Qed.

(** ** Stability of a file under changes elsewhere *)

Lemma idwords_len f b : zlen (idwords f b) = SFS_DBPERIDB.
Proof.
  unfold idwords, zlen. generalize (blk f b). unfold SFS_DBPERIDB.
  assert (∀ n bs, length (decode_words n bs) = n) as Hl
    by (induction n; intros; simpl; auto).
  intros. rewrite Hl. done.
Qed.

Lemma fblock_bmapZ f i k : k ≠ MAXBLOCKS → fblock f i k = bmapZ f i k.
Proof. intros. unfold fblock. by rewrite decide_False. Qed.

Lemma fblock_indirect f i : fblock f i MAXBLOCKS = sfi_indirect i.
Proof. unfold fblock. by rewrite decide_True. Qed.

Lemma bmapZ_same_disk f f' i k :
  (sfi_indirect i ≠ 0 → blk f' (sfi_indirect i) = blk f (sfi_indirect i)) →
  bmapZ f' i k = bmapZ f i k.
Proof.
  intros Hs. unfold bmapZ, idwords. repeat case_decide; [done..|]. by rewrite Hs.
Qed.

Lemma fblock_same_disk f f' i k :
  (sfi_indirect i ≠ 0 → blk f' (sfi_indirect i) = blk f (sfi_indirect i)) →
  fblock f' i k = fblock f i k.
Proof. intros. unfold fblock. case_decide; [done|]. by apply bmapZ_same_disk. Qed.

Lemma file_indirect_used f i :
  file_ok f i → sfi_indirect i ≠ 0 → used f (sfi_indirect i) = true ∧ 0 < sfi_indirect i < nblk f.
Proof.
  intros [? Hr Hu ?] Hne. pose proof (fblock_indirect f i) as Hf. unfold MAXBLOCKS in *.
  specialize (Hr 143 ltac:(lia)). specialize (Hu 143 ltac:(lia)). rewrite Hf in *.
  split; [auto|lia].
Qed.

(** When the blocks in use keep their contents and stay in use, a file stays
    as it is. *)
Lemma file_stable f f' i :
  file_ok f i → sfs_sb f' = sfs_sb f →
  (∀ b, 0 < b < nblk f → owns f i b → blk f' b = blk f b ∧ used f' b = true) →
  file_ok f' i ∧ (∀ k, fblock f' i k = fblock f i k) ∧
  (∀ o, 0 ≤ o < MAXBYTES → fbyte f' i o = fbyte f i o).
Proof.
  intros Hok Hsb Hst. destruct (Hok) as [Hi Hr Hu Hd].
  assert (∀ k, 0 ≤ k ≤ MAXBLOCKS → fblock f i k ≠ 0 →
    blk f' (fblock f i k) = blk f (fblock f i k) ∧ used f' (fblock f i k) = true) as Hown.
  { intros k Hk Hne. apply Hst; [specialize (Hr k Hk); lia|]. split; [done|]. eauto. }
  assert (∀ k, fblock f' i k = fblock f i k) as Hfb.
  { intros k. apply fblock_same_disk. intros Hne. pose proof (fblock_indirect f i) as Hind.
    rewrite <- Hind in Hne. destruct (Hown MAXBLOCKS) as [Hs _]; [unfold MAXBLOCKS; lia|done|].
    by rewrite <- Hind. }
  split; [|split; [done|]].
  - split; [done|..].
    + intros k Hk. rewrite Hfb, Hsb. auto.
    + intros k Hk. rewrite Hfb. intros Hne. by apply Hown.
    + intros j k Hj Hk. rewrite !Hfb. auto.
  - intros o Ho. unfold fbyte, MAXBYTES, MAXBLOCKS, SFS_BLOCKSIZE in *.
    assert (0 ≤ o / 512 < 143) as Hk by (Z.div_mod_to_equations; lia).
    specialize (Hfb (o / 512)). rewrite !fblock_bmapZ in Hfb by (unfold MAXBLOCKS; lia).
    rewrite Hfb. case_decide as Hz; [done|].
    destruct (Hown (o / 512)) as [Hs _]; rewrite ?fblock_bmapZ in * by (unfold MAXBLOCKS; lia).
    + lia.
    + done.
    + by rewrite Hs.
Qed.

(** ** Adding a block to a file *)

(** [f', i'] is [f, i] with the free block [b] at the empty position [k]. *)
Record fext f i (k b : Z) f' i' : Prop := {
  fx_fs : fs_ok f';
  fx_pos : 0 ≤ k ≤ MAXBLOCKS;
  fx_hole : fblock f i k = 0;
  fx_range : 0 < b < nblk f;
  fx_free : used f b = false;
  fx_inode : inode_ok i';
  fx_meta : sfi_type i' = sfi_type i ∧ sfi_linkcount i' = sfi_linkcount i ∧
            sfi_waste i' = sfi_waste i;
  fx_map : ∀ j, 0 ≤ j ≤ MAXBLOCKS → fblock f' i' j = if decide (j = k) then b else fblock f i j;
  fx_bits : set_bit (sfs_freemap f) (sfs_freemap f') b true;
  fx_blk : ∀ b', b' ≠ b → (b' ≠ 0 → b' ≠ sfi_indirect i) → blk f' b' = blk f b';
  fx_new : blk f' b = zero_block;
  fx_sb : sfs_sb f' = sfs_sb f;
  fx_blocks : d_blocks (sfs_device f') = d_blocks (sfs_device f);
  fx_md : map_step f f';
}.

Lemma fext_owns f i k b f' i' b' :
  fext f i k b f' i' → owns f' i' b' ↔ b' = b ∨ owns f i b'.
Proof.
  intros []. unfold owns. split.
  - intros (Hne & j & Hj & Hb'). rewrite fx_map0 in Hb' by done. case_decide; [by left|eauto].
  - intros [->|(Hne & j & Hj & Hb')].
    + split; [lia|]. exists k. split; [done|]. rewrite fx_map0 by done. by rewrite decide_True.
    + split; [done|]. exists j. split; [done|]. rewrite fx_map0 by done.
      case_decide; [congruence|done].
Qed.

Lemma fext_file_ok f i k b f' i' : file_ok f i → fext f i k b f' i' → file_ok f' i'.
Proof.
  intros [Hi Hr Hu Hd] []. destruct fx_bits0 as [_ Hbit]. split; [done|..].
  - intros j Hj. rewrite fx_map0, fx_sb0 by done. case_decide; [lia|auto].
  - intros j Hj. rewrite fx_map0 by done. specialize (Hr j Hj). case_decide.
    + intros _. rewrite Hbit by lia. by rewrite decide_True.
    + intros Hne. rewrite Hbit by lia. case_decide; [done|auto].
  - assert (∀ j, 0 ≤ j ≤ MAXBLOCKS → fblock f i j ≠ b) as Hnb.
    { intros j Hj Heq. rewrite <- Heq, Hu in fx_free0; [done|done|lia]. }
    intros j1 j2 Hj1 Hj2. rewrite !fx_map0 by done. repeat case_decide; subst; [done| | |].
    + intros Heq. by destruct (Hnb j2 Hj2).
    + intros Heq. by destruct (Hnb j1 Hj1).
    + auto.
Qed.

Lemma fext_fstep f i k b f' i' : file_ok f i → fext f i k b f' i' → fstep f i f' i'.
Proof.
  intros Hok Hx. pose proof (fext_file_ok _ _ _ _ _ _ Hok Hx) as Hok'.
  pose proof (λ b', fext_owns _ _ _ _ _ _ b' Hx) as Hown. destruct (Hx). destruct (fx_bits0) as [_ Hbit].
  split; [done..| | |done].
  - intros b' Hb' Hu. rewrite Hbit by done. by case_decide.
  - intros b' Hb' Hu Hn. assert (b' ≠ b) by congruence. split.
    + apply fx_blk0; [done|]. intros Hne ->. apply Hn. split; [done|].
      exists MAXBLOCKS. split; [unfold MAXBLOCKS; lia|]. apply fblock_indirect.
    + rewrite Hown. naive_solver.
Qed.

Lemma zero_block_byte o : 0 ≤ o < SFS_BLOCKSIZE → zero_block !z o = Some 0.
Proof.
  intros. rewrite zlookup_nat by lia. unfold zero_block, SFS_BLOCKSIZE in *.
  apply lookup_replicate_2. lia.
Qed.

Lemma fext_fbyte f i k b f' i' o :
  file_ok f i → fext f i k b f' i' → 0 ≤ o < MAXBYTES → fbyte f' i' o = fbyte f i o.
Proof.
  intros Hok [] Ho. unfold fbyte, MAXBYTES, MAXBLOCKS, SFS_BLOCKSIZE in *.
  assert (0 ≤ o / 512 < 143) as Hk by (Z.div_mod_to_equations; lia).
  specialize (fx_map0 (o / 512) ltac:(lia)).
  rewrite !fblock_bmapZ in fx_map0 by (unfold MAXBLOCKS; lia). rewrite fx_map0.
  destruct (decide (o / 512 = k)) as [<-|Hne].
  - rewrite fblock_bmapZ in fx_hole0 by (unfold MAXBLOCKS; lia).
    rewrite decide_False, decide_True by lia. rewrite fx_new0.
    rewrite zero_block_byte by (unfold SFS_BLOCKSIZE; apply Z.mod_pos_bound; lia). done.
  - case_decide as Hz; [done|]. rewrite fx_blk0; [done|..].
    + intros Heq. pose proof (fl_used _ _ Hok (o / 512)) as Hu. unfold MAXBLOCKS in Hu.
      rewrite fblock_bmapZ, Heq in Hu by (unfold MAXBLOCKS; lia). rewrite Hu in fx_free0; [done|lia|lia].
    + intros _ Heq. pose proof (fl_distinct _ _ Hok (o / 512) 143) as Hd. unfold MAXBLOCKS in Hd.
      rewrite (fblock_bmapZ _ _ (o / 512)) in Hd by (unfold MAXBLOCKS; lia).
      pose proof (fblock_indirect f i) as Hi. unfold MAXBLOCKS in Hi. rewrite Hi in Hd. lia.
Qed.

(** ** The three ways [sfs_bmap] adds a block *)

Lemma balloc_blk f b f' b' : balloc_step f b f' → b' ≠ b → blk f' b' = blk f b'.
Proof. intros [? ? (_ & _ & Hs)] Hne. rewrite Hs. by rewrite decide_False. Qed.

Lemma balloc_new f b f' : balloc_step f b f' → blk f' b = zero_block.
Proof. intros [? ? (_ & _ & Hs)]. rewrite Hs. by rewrite decide_True. Qed.

Lemma balloc_blocks f b f' : balloc_step f b f' → d_blocks (sfs_device f') = d_blocks (sfs_device f).
Proof. by intros [? ? (_ & Hb & _)]. Qed.

Lemma balloc_not_owned f i b f' k :
  file_ok f i → balloc_step f b f' → 0 ≤ k ≤ MAXBLOCKS → fblock f i k ≠ b.
Proof.
  intros [_ Hr Hu _] [Hb Hfree] Hk Heq. rewrite <- Heq, Hu in Hfree; [done|done|lia].
Qed.

(** Allocation alone does not change a file. *)
Lemma balloc_fblock f i b f' k : file_ok f i → balloc_step f b f' → fblock f' i k = fblock f i k.
Proof.
  intros Hok Hb. apply fblock_same_disk. intros Hne. eapply balloc_blk; [done|].
  rewrite <- (fblock_indirect f i). eapply balloc_not_owned; [done..|unfold MAXBLOCKS; lia].
Qed.

Lemma fext_of_balloc f i k b f' i' :
  file_ok f i → balloc_step f b f' → fs_ok f' → 0 ≤ k ≤ MAXBLOCKS → fblock f i k = 0 →
  inode_ok i' → sfi_type i' = sfi_type i ∧ sfi_linkcount i' = sfi_linkcount i ∧ sfi_waste i' = sfi_waste i →
  (∀ j, 0 ≤ j ≤ MAXBLOCKS → fblock f' i' j = if decide (j = k) then b else fblock f i j) →
  fext f i k b f' i'.
Proof.
  intros Hok Hb Hfs Hk Hhole Hi Hmeta Hmap. destruct (Hb).
  split; try done.
  - intros b' Hne _. by apply (balloc_blk f b).
  - by eapply balloc_new.
  - by eapply balloc_blocks.
Qed.

Lemma fext_direct f i k b f' :
  file_ok f i → balloc_step f b f' → fs_ok f' → sfi_direct i !z k = Some 0 → 0 ≤ k < SFS_NDIRECT →
  fext f i k b f' (set_direct (<[Z.to_nat k := b]> (sfi_direct i)) i).
Proof.
  intros Hok Hb Hfs Hk Hr. destruct (fl_inode f i Hok) as [? ? ? [Hlen Hall] ? ?]. unfold SFS_NDIRECT in *. pose proof (ba_range _ _ _ Hb).
  pose proof (fo_nblocks _ Hfs) as Hn. rewrite (ba_sb _ _ _ Hb) in Hn.
  apply fext_of_balloc; try done; try (unfold MAXBLOCKS; lia).
  - rewrite fblock_bmapZ by (unfold MAXBLOCKS; lia). unfold bmapZ, SFS_NDIRECT.
    rewrite decide_True by lia. by rewrite Hk.
  - split; simpl; try done. rewrite length_insert. split; [done|].
    apply Forall_insert; [done|unfold is_u32; lia].
  - intros j Hj. rewrite <- (balloc_fblock _ _ _ _ j Hok Hb).
    unfold fblock, bmapZ, SFS_NDIRECT, MAXBLOCKS in *; simpl.
    destruct (decide (j = 143)) as [HjM|HjM]; [rewrite decide_False by lia; done|].
    destruct (decide (j < 15)) as [Hj15|Hj15]; [|rewrite (decide_False (P := j = k)) by lia; done].
    rewrite zlookup_insert by (unfold zlen; lia). rewrite (decide_ext (k = j) (j = k)) by naive_solver.
    by case_decide.
Qed.

Lemma idwords_zero f b k :
  blk f b = zero_block → 0 ≤ k < SFS_DBPERIDB → idwords f b !z k = Some 0.
Proof.
  intros Hz Hk. unfold idwords. rewrite Hz, zlookup_nat by lia.
  assert (decode_words (Z.to_nat SFS_DBPERIDB) zero_block = replicate 128 0) as -> by reflexivity.
  unfold SFS_DBPERIDB in Hk. apply lookup_replicate_2. lia.
Qed.

Lemma fext_indirect f i b f' :
  file_ok f i → balloc_step f b f' → fs_ok f' → sfi_indirect i = 0 →
  fext f i MAXBLOCKS b f' (set_indirect b i).
Proof.
  intros Hok Hb Hfs Hz. destruct (fl_inode f i Hok). pose proof (ba_range _ _ _ Hb).
  pose proof (fo_nblocks _ Hfs) as Hn. rewrite (ba_sb _ _ _ Hb) in Hn.
  apply fext_of_balloc; try done; try (unfold MAXBLOCKS; lia).
  - split; simpl; try done. unfold is_u32; lia.
  - intros j Hj. unfold fblock. case_decide as HjM; [done|]. unfold bmapZ; simpl.
    case_decide; [done|]. rewrite decide_False, (decide_True _ _ Hz) by lia.
    rewrite idwords_zero; [done|by eapply balloc_new|].
    unfold MAXBLOCKS, SFS_NDIRECT, SFS_DBPERIDB in *. lia.
Qed.

Lemma file_idword f i j :
  file_ok f i → sfi_indirect i ≠ 0 → 0 ≤ j < SFS_DBPERIDB →
  idwords f (sfi_indirect i) !z j = Some (fblock f i (SFS_NDIRECT + j)).
Proof.
  intros Hok Hne Hj. unfold SFS_DBPERIDB in *.
  rewrite fblock_bmapZ by (unfold MAXBLOCKS, SFS_NDIRECT; lia).
  unfold bmapZ. rewrite decide_False, decide_False by (done || lia).
  replace (SFS_NDIRECT + j - SFS_NDIRECT) with j by lia.
  destruct (zlookup_in (idwords f (sfi_indirect i)) j) as [w Hw];
    [rewrite idwords_len; unfold SFS_DBPERIDB; lia|]. by rewrite Hw.
Qed.

Lemma file_idwords_u32 f i :
  fs_ok f → file_ok f i → sfi_indirect i ≠ 0 → Forall is_u32 (idwords f (sfi_indirect i)).
Proof.
  intros Hfs Hok Hne. apply Forall_lookup. intros j w Hw.
  pose proof (lookup_lt_Some _ _ _ Hw) as Hlt. pose proof (idwords_len f (sfi_indirect i)) as Hlen.
  unfold zlen, SFS_DBPERIDB in Hlen.
  pose proof (file_idword f i (Z.of_nat j) Hok Hne ltac:(unfold SFS_DBPERIDB; lia)) as Hj.
  rewrite zlookup_nat, Nat2Z.id, Hw in Hj by lia. simplify_eq.
  pose proof (fl_range _ _ Hok (SFS_NDIRECT + Z.of_nat j)) as Hr.
  unfold SFS_NDIRECT, MAXBLOCKS in *. pose proof (fo_nblocks _ Hfs). unfold is_u32. lia.
Qed.

(** Rewriting the indirect block after an allocation. *)
Lemma fext_entry f i j b f1 d' :
  fs_ok f → file_ok f i → balloc_step f b f1 → fs_ok f1 → sfi_indirect i ≠ 0 →
  0 ≤ j < SFS_DBPERIDB → fblock f i (SFS_NDIRECT + j) = 0 →
  written (sfs_device f1) (sfi_indirect i)
    (encode_words (<[Z.to_nat j := b]> (idwords f (sfi_indirect i)))) d' →
  fext f i (SFS_NDIRECT + j) b (set_device d' f1) i.
Proof.
  intros Hfs Hok Hb Hfs1 Hne Hj Hhole (Hd & Hbl & Hsec).
  pose proof (file_idwords_u32 f i Hfs Hok Hne) as Hu32. pose proof (idwords_len f (sfi_indirect i)) as Hlen.
  pose proof (ba_range _ _ _ Hb) as Hbr. pose proof (fo_nblocks _ Hfs) as Hn.
  destruct (file_indirect_used f i Hok Hne) as [Huind Hrind].
  assert (sfi_indirect i ≠ b) as Hib.
  { rewrite <- (fblock_indirect f i). eapply balloc_not_owned; [done..|unfold MAXBLOCKS; lia]. }
  assert (idwords (set_device d' f1) (sfi_indirect i) =
          <[Z.to_nat j := b]> (idwords f (sfi_indirect i))) as Hwords.
  { unfold idwords at 1. cbn [sfs_device set_device]. rewrite Hsec, decide_True by done.
    rewrite <- (app_nil_r (encode_words _)).
    replace (Z.to_nat SFS_DBPERIDB) with (length (<[Z.to_nat j:=b]> (idwords f (sfi_indirect i)))).
    - apply decode_encode_words, Forall_insert; [done|unfold is_u32; lia].
    - rewrite length_insert. unfold zlen, SFS_DBPERIDB in *. lia. }
  unfold SFS_DBPERIDB, SFS_NDIRECT in *.
  split; simpl; try done.
  - destruct Hfs1. split; simpl; rewrite ?Hbl; done.
  - unfold MAXBLOCKS. lia.
  - by apply (ba_free f b f1).
  - by apply Hok.
  - intros k Hk. unfold MAXBLOCKS in Hk. unfold fblock. case_decide as HkM.
    { rewrite decide_False by (unfold MAXBLOCKS in *; lia). done. }
    unfold bmapZ, SFS_NDIRECT. case_decide; [rewrite decide_False by lia; done|].
    rewrite !(decide_False (P := sfi_indirect i = 0)) by done. rewrite Hwords.
    rewrite zlookup_insert by (rewrite ?Hlen; unfold MAXBLOCKS in *; lia).
    rewrite (decide_ext (j = k - 15) (k = 15 + j)) by lia. by case_decide.
  - apply (ba_bits f b f1 Hb).
  - intros b' Hb'1 Hb'2. rewrite Hsec. case_decide as Heq.
    + destruct (decide (b' = 0)); [lia|]. exfalso. by apply Hb'2.
    + by apply (balloc_blk f b).
  - rewrite Hsec, decide_False by done. by eapply balloc_new.
  - apply (ba_sb f b f1 Hb).
  - rewrite Hbl. by eapply balloc_blocks.
  - apply map_step_device, (ba_md f b f1 Hb).
Qed.

(** ** [sfs_bmap] *)

(** A step on the vnode [sv]; an inode that differs from the old one is marked
    dirty. *)
Record svstep f sv f' sv' : Prop := {
  ss_step : fstep f (sv_i sv) f' (sv_i sv');
  ss_ino : sv_ino sv' = sv_ino sv;
  ss_v : sv_v sv' = sv_v sv;
  ss_dirty : sv_dirty sv' = false → sv_dirty sv = false ∧ sv_i sv' = sv_i sv;
}.

(** A step that does not change what the file contains. *)
Record quiet f sv f' sv' : Prop := {
  qt_step : svstep f sv f' sv';
  qt_size : sfi_size (sv_i sv') = sfi_size (sv_i sv);
  qt_bytes : ∀ o, 0 ≤ o < MAXBYTES → fbyte f' (sv_i sv') o = fbyte f (sv_i sv) o;
}.

Lemma svstep_trans f sv f1 sv1 f2 sv2 :
  svstep f sv f1 sv1 → svstep f1 sv1 f2 sv2 → svstep f sv f2 sv2.
Proof.
  intros [] []. split; [by eapply fstep_trans|congruence|congruence|].
  intros Hd. destruct (ss_dirty1 Hd) as [Hd1 ->]. auto.
Qed.

Lemma quiet_trans f sv f1 sv1 f2 sv2 :
  quiet f sv f1 sv1 → quiet f1 sv1 f2 sv2 → quiet f sv f2 sv2.
Proof.
  intros [] []. split; [by eapply svstep_trans|congruence|].
  intros o Ho. rewrite qt_bytes1; auto.
Qed.

Lemma svstep_refl f sv : fs_ok f → file_ok f (sv_i sv) → svstep f sv f sv.
Proof. intros. split; [by apply fstep_refl|done..]. Qed.

Lemma quiet_refl f sv : fs_ok f → file_ok f (sv_i sv) → quiet f sv f sv.
Proof. intros. split; [by apply svstep_refl|done..]. Qed.

(** Reading changes only the state of the drive. *)
Lemma same_disk_ok f d' : fs_ok f → same_disk (sfs_device f) d' → fs_ok (set_device d' f).
Proof. intros [] (? & Hb & ?). split; simpl; rewrite ?Hb; done. Qed.

Lemma same_disk_quiet f sv d' :
  fs_ok f → file_ok f (sv_i sv) → same_disk (sfs_device f) d' → quiet f sv (set_device d' f) sv.
Proof.
  intros Hfs Hok Hs. pose proof (same_disk_ok f d' Hfs Hs) as Hfs'. destruct (Hs) as (Hd & Hb & Hsec).
  destruct (file_stable f (set_device d' f) (sv_i sv) Hok eq_refl) as (Hok' & Hfb & Hby).
  { intros b Hbr (Hne & k & Hk & <-). simpl. split; [apply Hsec|]. by apply (fl_used _ _ Hok). }
  split; [|done|done]. split; [|done..]. split; simpl; [done..| |apply map_step_device, map_step_refl].
  intros b Hb0 Hu Hn. split; [apply Hsec|]. unfold owns in *. by setoid_rewrite Hfb.
Qed.

(** After an extension, with the inode marked dirty or not changed at all. *)
Lemma fext_quiet f sv k b f' sv' :
  file_ok f (sv_i sv) → fext f (sv_i sv) k b f' (sv_i sv') →
  sfi_size (sv_i sv') = sfi_size (sv_i sv) → sv_ino sv' = sv_ino sv → sv_v sv' = sv_v sv →
  (sv_dirty sv' = false → sv_dirty sv = false ∧ sv_i sv' = sv_i sv) →
  quiet f sv f' sv'.
Proof.
  intros Hok Hx Hsz Hino Hv Hd. split; [|done|].
  - split; [by eapply fext_fstep|done..].
  - intros o Ho. by eapply fext_fbyte.
Qed.

Lemma bmap_check_spec f sv b Q :
  fs_ok f → (b ≠ 0 → 0 ≤ b < nblk f ∧ used f b = true) → Q (Ret ()) (f, sv) →
  wp (sfs_bmap_check b) Q (f, sv).
Proof.
  intros Hfs Hb HQ. unfold sfs_bmap_check. destruct (Z.eqb_spec b 0) as [->|Hne]; [by wp_step|].
  destruct (Hb Hne) as [Hr Hu]. wp_steps. apply sfs_bused_spec; [done|done|]. by rewrite Hu.
Qed.

Lemma fblock_check f i k :
  file_ok f i → 0 ≤ k ≤ MAXBLOCKS → fblock f i k ≠ 0 →
  0 ≤ fblock f i k < nblk f ∧ used f (fblock f i k) = true.
Proof. intros [] ??. auto. Qed.

Lemma sfs_bmap_direct_spec f sv k doalloc Q :
  (doalloc = true → ReliableWrites D) → fs_ok f → file_ok f (sv_i sv) → 0 ≤ k < SFS_NDIRECT →
  (∀ f' sv', quiet f sv f' sv' → (doalloc = true → fblock f' (sv_i sv') k ≠ 0) →
     (doalloc = false → sv' = sv ∧ f' = f) →
     Q (Ret (fblock f' (sv_i sv') k)) (f', sv')) →
  (doalloc = true → Q (Fail ENOSPC) (f, sv)) →
  wp (sfs_bmap_direct k doalloc) Q (f, sv).
Proof.
  intros Hrel Hfs Hok Hk HQ HF. unfold SFS_NDIRECT in Hk.
  destruct (fl_inode _ _ Hok) as [_ _ _ [Hlen _] _ _].
  destruct (zlookup_in (sfi_direct (sv_i sv)) k) as [b Hb]; [unfold zlen; lia|].
  assert (fblock f (sv_i sv) k = b) as Hfb.
  { rewrite fblock_bmapZ by (unfold MAXBLOCKS; lia). unfold bmapZ, SFS_NDIRECT.
    rewrite decide_True by lia. by rewrite Hb. }
  unfold sfs_bmap_direct. wp_steps. eapply wp_deref; [done|]. wp_step.
  destruct ((b =? 0) && doalloc) eqn:Hc.
  - apply andb_true_iff in Hc as [Hz%Z.eqb_eq ->]. specialize (Hrel eq_refl). subst b. wp_steps.
    apply sfs_balloc_spec; [done| |by intros; apply HF].
    intros b f' Hba Hfs'. wp_steps. eapply wp_deref; [apply zstore_in; unfold zlen; simpl; lia|].
    wp_steps. simpl.
    set (sv' := set_inode _ sv). rewrite Hz in Hb.
    pose proof (fext_direct f (sv_i sv) k b f' Hok Hba Hfs' Hb Hk) as Hx.
    assert (fblock f' (sv_i sv') k = b) as Hnew.
    { rewrite (fx_map _ _ _ _ _ _ Hx) by (unfold MAXBLOCKS; lia). by rewrite decide_True. }
    pose proof (fext_file_ok _ _ _ _ _ _ Hok Hx) as Hok'. pose proof (ba_range _ _ _ Hba).
    apply bmap_check_spec; [done| |].
    { rewrite <- Hnew. apply fblock_check; [done|unfold MAXBLOCKS; lia]. }
    wp_steps. rewrite <- Hnew at 1. apply HQ; [|intros _; lia|done].
    by apply (fext_quiet f sv k b).
  - wp_steps. apply bmap_check_spec; [done| |].
    { rewrite <- Hfb. apply fblock_check; [done|unfold MAXBLOCKS; lia]. }
    wp_steps. rewrite <- Hfb. apply HQ; [by apply quiet_refl| |done].
    intros ->. rewrite andb_true_r in Hc. apply Z.eqb_neq in Hc. congruence.
Qed.

Lemma sfs_bmap_entry_spec f sv j doalloc Q :
  (doalloc = true → ReliableWrites D) → fs_ok f → file_ok f (sv_i sv) → sfi_indirect (sv_i sv) ≠ 0 → 0 ≤ j < SFS_DBPERIDB →
  (∀ f', quiet f sv f' sv → (doalloc = true → fblock f' (sv_i sv) (SFS_NDIRECT + j) ≠ 0) →
     (doalloc = false → f' = f) →
     Q (Ret (fblock f' (sv_i sv) (SFS_NDIRECT + j))) (f', sv)) →
  (doalloc = true → Q (Fail ENOSPC) (f, sv)) →
  wp (sfs_bmap_entry (sfi_indirect (sv_i sv)) (idwords f (sfi_indirect (sv_i sv))) j doalloc) Q (f, sv).
Proof.
  intros Hrel Hfs Hok Hne Hj HQ HF. pose proof (file_idword _ _ j Hok Hne Hj) as Hw.
  pose proof (idwords_len f (sfi_indirect (sv_i sv))) as Hlen.
  destruct (file_indirect_used _ _ Hok Hne) as [_ Hrange].
  assert (0 ≤ SFS_NDIRECT + j ≤ MAXBLOCKS) as Hpos
    by (unfold SFS_NDIRECT, MAXBLOCKS, SFS_DBPERIDB in *; lia).
  unfold sfs_bmap_entry. wp_steps. eapply wp_deref; [done|]. wp_step.
  destruct ((fblock f (sv_i sv) (SFS_NDIRECT + j) =? 0) && doalloc) eqn:Hc.
  - apply andb_true_iff in Hc as [Hz%Z.eqb_eq ->]. specialize (Hrel eq_refl). wp_steps.
    apply sfs_balloc_spec; [done| |by intros; apply HF].
    intros b f1 Hba Hfs1. wp_steps. eapply wp_deref; [apply zstore_in; rewrite Hlen; done|].
    destruct (Hfs1) as [Hdev1 Hnb1 Hfit1 _ _ _ _]. rewrite (ba_sb _ _ _ Hba) in Hfit1, Hnb1.
    wp_steps. apply sfs_wblock_spec; [done|lia|lia| |].
    { unfold zlen in *. rewrite length_encode_words, length_insert.
      unfold SFS_DBPERIDB, SFS_BLOCKSIZE in *. lia. }
    intros d' Hwr. wp_steps.
    pose proof (fext_entry f (sv_i sv) j b f1 d' Hfs Hok Hba Hfs1 Hne Hj Hz Hwr) as Hx.
    assert (fblock (set_device d' f1) (sv_i sv) (SFS_NDIRECT + j) = b) as Hnew.
    { rewrite (fx_map _ _ _ _ _ _ Hx) by done. by rewrite decide_True. }
    pose proof (fext_file_ok _ _ _ _ _ _ Hok Hx) as Hok'. pose proof (ba_range _ _ _ Hba).
    apply bmap_check_spec; [by apply (fx_fs _ _ _ _ _ _ Hx)| |].
    { rewrite <- Hnew. by apply fblock_check. }
    wp_steps. rewrite <- Hnew at 1. apply HQ; [|intros _; lia|done].
    by apply (fext_quiet f sv (SFS_NDIRECT + j) b).
  - wp_steps. apply bmap_check_spec; [done| |].
    { by apply fblock_check. }
    wp_steps. apply HQ; [by apply quiet_refl| |done].
    intros ->. rewrite andb_true_r in Hc. by apply Z.eqb_neq in Hc.
Qed.

Lemma idwords_replicate f b :
  blk f b = zero_block → idwords f b = replicate (Z.to_nat SFS_DBPERIDB) 0.
Proof. intros Hz. unfold idwords. by rewrite Hz. Qed.

(** What a call of [sfs_bmap] for block [k] of the file may do. *)
Definition bmap_post f sv (k : Z) (doalloc : bool) (r : result Z) (p : sfs_fs D * sfs_vnode) : Prop :=
  quiet f sv p.1 p.2 ∧
  (doalloc = false → p.2 = sv ∧ ∃ d', same_disk (sfs_device f) d' ∧ p.1 = set_device d' f) ∧
  match r with
  | Ret b => k < MAXBLOCKS ∧ b = fblock p.1 (sv_i p.2) k ∧ (doalloc = true → b ≠ 0)
  | Fail e => e = EIO ∨ e = ENOSPC ∧ doalloc = true ∨ e = EINVAL ∧ MAXBLOCKS ≤ k
  | Halt _ => False
  end.

Lemma set_device_id f : set_device (sfs_device f) f = f.
Proof. by destruct f. Qed.

Lemma same_disk_refl f : fs_ok f → same_disk (sfs_device f) (sfs_device f).
Proof. intros []. by split. Qed.

Lemma sfs_bmap_indirect_spec f sv j doalloc :
  (doalloc = true → ReliableWrites D) → fs_ok f → file_ok f (sv_i sv) → 0 ≤ j < SFS_DBPERIDB →
  wp (sfs_bmap_indirect j doalloc) (bmap_post f sv (SFS_NDIRECT + j) doalloc) (f, sv).
Proof.
  intros Hrel Hfs Hok Hj.
  assert (SFS_NDIRECT + j < MAXBLOCKS) as Hpos
    by (unfold SFS_NDIRECT, MAXBLOCKS, SFS_DBPERIDB in *; lia).
  pose proof (same_disk_refl f Hfs) as Hsd. pose proof (set_device_id f) as Hid.
  unfold sfs_bmap_indirect. wp_step. wp_step. cbn [snd].
  destruct (Z.eqb_spec (sfi_indirect (sv_i sv)) 0) as [Hz|Hne]; cbn [andb].
  - destruct doalloc; cbn [negb].
    + specialize (Hrel eq_refl). wp_steps. apply sfs_balloc_spec; [done| |].
      2: { intros _. split; [by apply quiet_refl|split; [done|auto]]. }
      intros b f1 Hba Hfs1. wp_steps.
      pose proof (fext_indirect f (sv_i sv) b f1 Hok Hba Hfs1 Hz) as Hx.
      set (sv1 := set_inode (set_indirect b (sv_i sv)) sv).
      pose proof (fext_file_ok _ _ _ _ _ _ Hok Hx) as Hok1. pose proof (ba_range _ _ _ Hba).
      assert (quiet f sv f1 sv1) as Hq by (by apply (fext_quiet f sv MAXBLOCKS b)).
      rewrite <- (idwords_replicate f1 b) by (by eapply balloc_new).
      apply (sfs_bmap_entry_spec f1 sv1 j true); [done|done|done|simpl; lia|done| |].
      * intros f' Hq' Hnz _. split; [by eapply quiet_trans|split; [done|auto]].
      * intros _. split; [done|split; [done|auto]].
    + wp_step. split; [by apply quiet_refl|]. split; [eauto|]. split; [done|]. split; [|done].
      rewrite fblock_bmapZ by lia. unfold bmapZ.
      rewrite decide_False by lia. by rewrite decide_True.
  - wp_steps. destruct (Hfs) as [Hdev Hnb Hfit _ _ _ _].
    destruct (file_indirect_used _ _ Hok Hne) as [_ Hrange].
    apply sfs_rblock_spec; [done|lia|lia| |].
    + intros d' Hs. cbn [snd fst]. set (f1 := set_device d' f).
      pose proof (same_disk_quiet f sv d' Hfs Hok Hs) as Hq. destruct (qt_step _ _ _ _ Hq) as [[] _ _ _].
      assert (decode_words (Z.to_nat SFS_DBPERIDB) (blk f (sfi_indirect (sv_i sv))) =
              idwords f1 (sfi_indirect (sv_i sv))) as ->.
      { unfold idwords, f1. cbn [sfs_device set_device]. by rewrite (proj2 (proj2 Hs)). }
      apply sfs_bmap_entry_spec; [done|done|done|done|done| |].
      * intros f' Hq' Hnz Hro. split; [by eapply quiet_trans|]. split; [|auto].
        intros Hd. specialize (Hro Hd). simpl. subst f'. eauto.
      * intros ->. split; [done|split; [done|auto]].
    + intros d' Hs. split; [by apply same_disk_quiet|]. split; [eauto|auto].
Qed.

Lemma sfs_bmap_spec f sv k doalloc :
  (doalloc = true → ReliableWrites D) → fs_ok f → file_ok f (sv_i sv) → 0 ≤ k →
  wp (sfs_bmap k doalloc) (bmap_post f sv k doalloc) (f, sv).
Proof.
  intros Hrel Hfs Hok Hk. pose proof (same_disk_refl f Hfs). pose proof (set_device_id f).
  unfold sfs_bmap. destruct (Z.ltb_spec k SFS_NDIRECT).
  - apply sfs_bmap_direct_spec; [done|done|done|lia| |].
    + intros f' sv' Hq Hnz Hro. split; [done|]. split.
      * intros Hd. destruct (Hro Hd) as [-> ->]. eauto.
      * split; [unfold MAXBLOCKS, SFS_NDIRECT in *; lia|done].
    + intros ->. split; [by apply quiet_refl|split; [done|auto]].
  - unfold SFS_NDIRECT, SFS_DBPERIDB in *. rewrite Z.gtb_ltb.
    destruct (Z.ltb_spec 0 ((k - 15) / 128)).
    + wp_step. split; [by apply quiet_refl|]. split; [eauto|].
      right; right. split; [done|]. unfold MAXBLOCKS. Z.div_mod_to_equations; lia.
    + rewrite Z.mod_small by (Z.div_mod_to_equations; lia).
      replace k with (SFS_NDIRECT + (k - 15)) at 2 by (unfold SFS_NDIRECT; lia).
      apply sfs_bmap_indirect_spec; [done|done|done|].
      unfold SFS_DBPERIDB. Z.div_mod_to_equations; lia.
Qed.
End defs.
