(* ===== verification/SfsFile.v ===== *)
(** * SFS: reading and writing files (kern/fs/sfs/sfs_vnode.c)

    [sfs_partialio], [sfs_blockio] and [sfs_io], on a file system, a file and
    a request.  A read delivers the bytes of the file, a write replaces
    them; both are specified on the byte function [fbyte] of the file. *)

From S2P Require Import Prelude Bitmap CopyInOut Uio Device SfsDisk Vnode Sfs SfsMap.

(** [uio->uio_offset = off; uio->uio_resid = res;] *)
Definition set_off_resid (off res : Z) (x : uio) : uio :=
  {| iov_base := iov_base x; iov_len := iov_len x; uio_offset := off; uio_resid := res;
     uio_segflg := uio_segflg x; uio_dir := uio_dir x; uio_space := uio_space x |}.
Definition update_uio (g : uio → uio) (s : uiost) : uiost := set_u (g (u s)) s.

Section ops.
Context {D : Type} `{BlockDevice D}.
Abbreviation st := ((sfs_fs D * sfs_vnode) * uiost)%type.

(** An operation on the file system and the request. *)
Definition on_fs_uio {A} : M (sfs_fs D * uiost) A → M st A :=
  zoom (λ p, (p.1.1, p.2)) (λ q p, ((q.1, p.1.2), q.2)).

Definition sfs_partialio (skipstart len : Z) : M st unit :=
  p ← get;
  let rw := uio_dir (u p.2) in
  let doalloc := bool_decide (rw = UIO_WRITE) in
  _ ← assert (u32 (skipstart + len) <=? SFS_BLOCKSIZE);
  let fileblock := u32 (Z.quot (uio_offset (u p.2)) SFS_BLOCKSIZE) in
  diskblock ← on_fst (sfs_bmap fileblock doalloc);
  iobuf ← (if diskblock =? 0 then
             _ ← assert (bool_decide (rw = UIO_READ)); mret zero_block
           else on_fst (on_fst (sfs_rblock diskblock)));
  moved ← on_snd (uiomove (drop (Z.to_nat skipstart) iobuf) len);
  if decide (rw = UIO_WRITE) then
    on_fst (on_fst (sfs_wblock (take (Z.to_nat skipstart) iobuf ++ moved) diskblock))
  else mret ().

Definition sfs_blockio : M st unit :=
  p ← get;
  let rw := uio_dir (u p.2) in
  let doalloc := bool_decide (rw = UIO_WRITE) in
  let fileblock := u32 (Z.quot (uio_offset (u p.2)) SFS_BLOCKSIZE) in
  diskblock ← on_fst (sfs_bmap fileblock doalloc);
  if diskblock =? 0 then
    _ ← assert (bool_decide (rw = UIO_READ));
    on_snd (uiomovezeros SFS_BLOCKSIZE)
  else
    let saveoff := uio_offset (u p.2) in
    let diskoff := s32 (diskblock * SFS_BLOCKSIZE) in
    _ ← assert (uio_resid (u p.2) >=? SFS_BLOCKSIZE);
    let saveres := s32 (uio_resid (u p.2)) in
    let diskres := SFS_BLOCKSIZE in
    _ ← on_snd (modify (update_uio (set_off_resid diskoff diskres)));
    result ← attempt (on_fs_uio sfs_rwblock);
    _ ← on_snd (modify (update_uio (λ x,
          set_off_resid (s32 (uio_offset x - diskoff + saveoff))
                        (u32 (uio_resid x - diskres + saveres)) x)));
    result_of result.

(** The whole blocks of an aligned request and the trailing partial block. *)
Definition sfs_io_aligned : M st unit :=
  p ← get;
  _ ← assert (Z.rem (uio_offset (u p.2)) SFS_BLOCKSIZE =? 0);
  let nblocks := uio_resid (u p.2) / SFS_BLOCKSIZE in
  _ ← forM (seqZ 0 nblocks) (λ _, sfs_blockio);
  p ← get;
  _ ← assert (uio_resid (u p.2) <? SFS_BLOCKSIZE);
  if uio_resid (u p.2) >? 0 then sfs_partialio 0 (uio_resid (u p.2)) else mret ().

(** From the leading partial block to the trailing one. *)
Definition sfs_io_blocks : M st unit :=
  p ← get;
  let blkoff := u32 (Z.rem (uio_offset (u p.2)) SFS_BLOCKSIZE) in
  _ ← (if negb (blkoff =? 0) then
         let len := SFS_BLOCKSIZE - blkoff in
         let len := if len >? uio_resid (u p.2) then uio_resid (u p.2) else len in
         sfs_partialio blkoff len
       else mret ());
  p ← get;
  if uio_resid (u p.2) =? 0 then mret () else sfs_io_aligned.

(** What follows the label [out]. *)
Definition sfs_io_out (extraresid : Z) : M st unit :=
  p ← get;
  _ ← (if decide (uio_dir (u p.2) = UIO_WRITE ∧
                  uio_offset (u p.2) > s32 (sfi_size (sv_i p.1.2))) then
         on_fst (on_snd (modify (λ sv, set_inode (set_size (u32 (uio_offset (u p.2))) (sv_i sv)) sv)))
       else mret ());
  on_snd (modify (update_uio (λ x, set_off_resid (uio_offset x) (u32 (uio_resid x + extraresid)) x))).

(** The transfer, with [extraresid] bytes of the request beyond the end. *)
Definition sfs_io_from (extraresid : Z) : M st unit :=
  result ← attempt sfs_io_blocks;
  _ ← sfs_io_out extraresid;
  result_of result.

Definition sfs_io : M st unit :=
  p ← get;
  match uio_dir (u p.2) with
  | UIO_READ =>
      let size := s32 (sfi_size (sv_i p.1.2)) in
      let endpos := s32 (uio_offset (u p.2) + uio_resid (u p.2)) in
      if uio_offset (u p.2) >=? size then mret ()
      else if endpos >? size then
        let extraresid := u32 (endpos - size) in
        _ ← assert (uio_resid (u p.2) >? extraresid);
        _ ← on_snd (modify (update_uio (λ x,
              set_off_resid (uio_offset x) (u32 (uio_resid x - extraresid)) x)));
        sfs_io_from extraresid
      else sfs_io_from 0
  | UIO_WRITE => sfs_io_from 0
  end.

Definition sfs_read : M st unit :=
  p ← get; _ ← assert (bool_decide (uio_dir (u p.2) = UIO_READ)); sfs_io.

Definition sfs_write : M st unit :=
  p ← get; _ ← assert (bool_decide (uio_dir (u p.2) = UIO_WRITE)); sfs_io.
End ops.

(** ** Bytes of a file *)

Section specs.
Context {D : Type} `{BlockDeviceLaws D}.
Implicit Types (f : sfs_fs D) (i : sfs_inode) (sv : sfs_vnode) (s : uiost).
Abbreviation blk f b := (sector (sfs_device f) b).
Abbreviation nblk f := (sp_nblocks (sfs_sb f)).

(** The [n] bytes from offset [off] on. *)
Definition frange f i (off n : Z) : list Z := (λ j, fbyte f i (off + j)) <$> seqZ 0 n.

Lemma frange_len f i off n : 0 ≤ n → zlen (frange f i off n) = n.
Proof. intros. unfold frange, zlen. rewrite length_fmap, length_seqZ. lia. Qed.

Lemma frange_app f i off n m :
  0 ≤ n → 0 ≤ m → frange f i off n ++ frange f i (off + n) m = frange f i off (n + m).
Proof.
  intros. unfold frange. rewrite seqZ_app by lia. rewrite fmap_app. f_equal.
  rewrite (Z.add_comm 0 n), <- (fmap_add_seqZ n 0), <- list_fmap_compose. apply list_fmap_ext.
  intros ? x _. simpl. f_equal. lia.
Qed.

Lemma frange_ext f i f' i' off n :
  (∀ o, off ≤ o < off + n → fbyte f' i' o = fbyte f i o) → frange f' i' off n = frange f i off n.
Proof.
  intros Hext. apply list_fmap_ext. intros k x [-> Hx]%lookup_seqZ. apply Hext. lia.
Qed.

(** The contents of block [k] of the file. *)
Definition fblock_bytes f i (k : Z) : list Z :=
  if decide (fblock f i k = 0) then zero_block else blk f (fblock f i k).

Lemma fblock_bytes_len f i k :
  fs_ok f → file_ok f i → 0 ≤ k < MAXBLOCKS → zlen (fblock_bytes f i k) = SFS_BLOCKSIZE.
Proof.
  intros Hfs Hok Hk. unfold fblock_bytes. case_decide; [done|].
  pose proof (fl_range _ _ Hok k ltac:(lia)). destruct Hfs. apply (sector_len (sfs_device f)); [done|lia].
Qed.

Lemma fbyte_block f i o :
  0 ≤ o < MAXBYTES →
  fbyte f i o = default 0 (fblock_bytes f i (o / SFS_BLOCKSIZE) !z (o mod SFS_BLOCKSIZE)).
Proof.
  intros Ho. unfold fbyte, fblock_bytes. unfold MAXBYTES, MAXBLOCKS in Ho.
  rewrite fblock_bmapZ by (unfold MAXBLOCKS, SFS_BLOCKSIZE in *; Z.div_mod_to_equations; lia).
  case_decide; [|done]. rewrite zero_block_byte; [done|]. apply Z.mod_pos_bound. done.
Qed.

Lemma frange_block f i off n :
  fs_ok f → file_ok f i → 0 ≤ off → off / SFS_BLOCKSIZE < MAXBLOCKS → 0 ≤ n →
  off mod SFS_BLOCKSIZE + n ≤ SFS_BLOCKSIZE →
  frange f i off n =
    take (Z.to_nat n) (drop (Z.to_nat (off mod SFS_BLOCKSIZE)) (fblock_bytes f i (off / SFS_BLOCKSIZE))).
Proof.
  intros Hfs Hok Hoff Hk Hn Hfit.
  assert (0 ≤ off / SFS_BLOCKSIZE) by (apply Z.div_pos; [done|unfold SFS_BLOCKSIZE; lia]).
  pose proof (fblock_bytes_len f i (off / SFS_BLOCKSIZE) Hfs Hok ltac:(lia)) as Hlen.
  assert (0 ≤ off mod SFS_BLOCKSIZE) by (apply Z.mod_pos_bound; unfold SFS_BLOCKSIZE; lia).
  apply list_eq_same_length with (Z.to_nat n).
  - rewrite length_take, length_drop. unfold zlen in Hlen. lia.
  - pose proof (frange_len f i off n Hn). unfold zlen in *. lia.
  - intros j x y Hj Hx Hy. unfold frange in Hx.
    apply list_lookup_fmap_Some in Hx as (z & Hx & [-> _]%lookup_seqZ).
    rewrite lookup_take_lt, lookup_drop in Hy by lia.
    unfold MAXBLOCKS, SFS_BLOCKSIZE in *.
    rewrite fbyte_block in Hx by (unfold MAXBYTES, MAXBLOCKS, SFS_BLOCKSIZE; Z.div_mod_to_equations; lia).
    unfold SFS_BLOCKSIZE in Hx.
    replace ((off + (0 + Z.of_nat j)) / 512) with (off / 512) in Hx
      by (Z.div_mod_to_equations; lia).
    replace ((off + (0 + Z.of_nat j)) mod 512) with (off mod 512 + Z.of_nat j) in Hx
      by (Z.div_mod_to_equations; lia).
    rewrite zlookup_nat in Hx by lia.
    replace (Z.to_nat (off mod 512 + Z.of_nat j)) with (Z.to_nat (off mod 512) + j)%nat in Hx by lia.
    rewrite Hy in Hx. simpl in Hx. congruence.
Qed.

(** ** Reading *)

(** The file system and the file after a read: only the drive has moved. *)
Definition disk_read f sv s (p : (sfs_fs D * sfs_vnode) * uiost) : Prop :=
  ∃ d', same_disk (sfs_device f) d' ∧ p.1 = (set_device d' f, sv) ∧
        uio_dir (u p.2) = uio_dir (u s).

(** [n] bytes from the current offset were read, or the read failed. *)
Definition read_post f sv s (n : Z) (r : result unit) (p : (sfs_fs D * sfs_vnode) * uiost) : Prop :=
  disk_read f sv s p ∧
  match r with
  | Ret _ => moved_in s (frange f (sv_i sv) (uio_offset (u s)) n) p.2 ∧ uio_ok p.2
  | Fail e => e = EIO ∨ e = EFAULT ∧ uio_segflg (u s) ≠ UIO_SYSSPACE ∨
              e = EINVAL ∧ MAXBYTES < uio_offset (u s) + n
  | Halt _ => False
  end.

(** A request on a file. *)
Record io_req f sv s (rw : uio_rw) : Prop := {
  ir_fs : fs_ok f;
  ir_file : file_ok f (sv_i sv);
  ir_ok : uio_ok s;
  ir_dir : uio_dir (u s) = rw;
  ir_off : 0 ≤ uio_offset (u s);
  ir_end : uio_offset (u s) + uio_resid (u s) < 2 ^ 31;
}.

Lemma fileblock_of f sv s rw :
  io_req f sv s rw →
  u32 (Z.quot (uio_offset (u s)) SFS_BLOCKSIZE) = uio_offset (u s) / SFS_BLOCKSIZE ∧
  0 ≤ uio_offset (u s) / SFS_BLOCKSIZE.
Proof.
  intros []. pose proof (ok_resid _ ir_ok0). unfold SFS_BLOCKSIZE.
  rewrite Z.quot_div_nonneg by lia.
  assert (0 ≤ uio_offset (u s) / 512 < 2 ^ 32) by (Z.div_mod_to_equations; lia).
  rewrite u32_small by done. split; [done|lia].
Qed.

Lemma bmap_ro_bytes f sv k d' b :
  fs_ok f → file_ok f (sv_i sv) → same_disk (sfs_device f) d' → 0 ≤ k < MAXBLOCKS →
  b = fblock (set_device d' f) (sv_i sv) k →
  b = fblock f (sv_i sv) k ∧
  (b ≠ 0 → 0 ≤ b < nblk f ∧ fblock_bytes f (sv_i sv) k = blk (set_device d' f) b).
Proof.
  intros Hfs Hok (_ & _ & Hsec) Hk ->.
  assert (fblock (set_device d' f) (sv_i sv) k = fblock f (sv_i sv) k) as ->
    by (apply fblock_same_disk; intros _; apply Hsec).
  split; [done|]. intros Hne. split; [apply (fl_range _ _ Hok); lia|].
  unfold fblock_bytes. rewrite decide_False by done. symmetry. apply Hsec.
Qed.

Lemma moved_in_dir s bs s' : moved_in s bs s' → uio_dir (u s') = uio_dir (u s).
Proof. intros [-> _ _]. done. Qed.

Lemma partialio_read_spec f sv s len :
  io_req f sv s UIO_READ → 0 ≤ len ≤ uio_resid (u s) →
  0 < uio_offset (u s) mod SFS_BLOCKSIZE + len ≤ SFS_BLOCKSIZE →
  wp (sfs_partialio (uio_offset (u s) mod SFS_BLOCKSIZE) len) (read_post f sv s len) ((f, sv), s).
Proof.
  intros Hreq Hlen Hfit. destruct (fileblock_of _ _ _ _ Hreq) as [Hfb Hfb0]. destruct (Hreq).
  set (k := uio_offset (u s) / SFS_BLOCKSIZE) in *. set (skip := uio_offset (u s) mod SFS_BLOCKSIZE) in *.
  assert (0 ≤ skip < 512) as Hskip by (apply Z.mod_pos_bound; lia).
  unfold sfs_partialio. wp_step. wp_step. wp_step. cbn [snd].
  apply wp_assert; [rewrite u32_small; unfold is_u32, SFS_BLOCKSIZE in *; lia|].
  rewrite ir_dir0, Hfb. wp_step. wp_step.
  change (bool_decide (UIO_READ = UIO_WRITE)) with false.
  eapply wp_mono; [by apply sfs_bmap_spec|].
  intros r [f1 sv1] (Hq & Hro & Hr). destruct (Hro eq_refl) as [Hsv (d1 & Hs1 & Hf1)].
  simpl in Hsv, Hf1. subst sv1 f1.
  destruct r as [b|e|]; [|split; [exists d1; done|]|done].
  2: { destruct Hr as [->|[[_ ?]|[-> Hbig]]]; [by left|done|]. right; right. split; [done|].
       unfold MAXBYTES. unfold k, SFS_BLOCKSIZE in *. Z.div_mod_to_equations; lia. }
  destruct Hr as (Hk & Hb & _). simpl in Hb.
  destruct (bmap_ro_bytes f sv k d1 b) as [Hbk Hbytes]; [done..|].
  pose proof (fblock_bytes_len f (sv_i sv) k ir_fs0 ir_file0 ltac:(done)) as Hblen.
  pose proof (frange_block f (sv_i sv) (uio_offset (u s)) len ir_fs0 ir_file0 ir_off0 Hk ltac:(lia) (proj2 Hfit)) as Hrange.
  fold k skip in Hrange.
  assert (∀ d2, same_disk (sfs_device f) d2 →
    wp (on_snd (uiomove (drop (Z.to_nat skip) (fblock_bytes f (sv_i sv) k)) len) ≫= λ _, mret ())
       (read_post f sv s len) ((set_device d2 f, sv), s)) as Hmove.
  { intros d2 Hs2. wp_steps. apply uiomove_read_spec; [done|done| |left; lia|..].
    - unfold zlen in *. rewrite length_drop. unfold SFS_BLOCKSIZE in *. lia.
    - intros s' Hmv Hok'. wp_step. pose proof (moved_in_dir _ _ _ Hmv).
      split; [by exists d2|]. rewrite Z.min_l in Hmv by lia.
      by rewrite Hrange.
    - intros m' j Hseg Hj Hst. split; [by exists d2|]. auto. }
  wp_step. destruct (Z.eqb_spec b 0) as [Hz|Hne].
  - wp_step. apply wp_assert; [done|]. wp_step.
    specialize (Hmove d1 Hs1). unfold fblock_bytes in Hmove. rewrite decide_True in Hmove by congruence.
    apply Hmove.
  - destruct (Hbytes Hne) as [Hbr Hbb]. destruct (ir_fs0). pose proof (proj1 (proj2 Hs1)) as Hbl.
    wp_steps. apply sfs_rblock_spec; simpl; rewrite ?Hbl; [apply Hs1|lia|lia|..].
    + intros d2 Hs2. simpl in Hbb. rewrite <- Hbb.
      apply (Hmove d2). by eapply same_disk_trans.
    + intros d2 Hs2. split; [exists d2; split; [by eapply same_disk_trans|done]|by left].
Qed.

(** The request handed to the device by [sfs_blockio], and its restoration. *)
Lemma uio_ok_set s off r :
  uio_ok s → - 2 ^ 31 ≤ off < 2 ^ 31 → 0 ≤ r ≤ iov_len (u s) →
  uio_ok (update_uio (set_off_resid off r) s).
Proof. intros [] ??. split; done. Qed.

Lemma block_request f sv s rw b :
  io_req f sv s rw → SFS_BLOCKSIZE ≤ uio_resid (u s) → 0 ≤ b < 2 ^ 22 →
  sector_request (update_uio (set_off_resid (s32 (b * SFS_BLOCKSIZE)) SFS_BLOCKSIZE) s) rw b.
Proof.
  intros [] Hres Hb. pose proof (ok_resid _ ir_ok0). unfold SFS_BLOCKSIZE in *.
  rewrite s32_small by lia. split; simpl; [|done..]. apply uio_ok_set; [done|lia|lia].
Qed.

Lemma s32_add_l x y : s32 (s32 x + y) = s32 (x + y).
Proof.
  unfold s32. f_equal.
  replace ((x + 2 ^ 31) mod 2 ^ 32 - 2 ^ 31 + y + 2 ^ 31) with ((x + 2 ^ 31) mod 2 ^ 32 + y) by lia.
  rewrite Z.add_mod_idemp_l by lia. f_equal. lia.
Qed.

Definition restore (diskoff saveoff saveres : Z) (x : uio) : uio :=
  set_off_resid (s32 (uio_offset x - diskoff + saveoff)) (u32 (uio_resid x - SFS_BLOCKSIZE + saveres)) x.

Lemma restore_advance x b :
  SFS_BLOCKSIZE ≤ uio_resid x < 2 ^ 31 →
  restore (s32 b) (uio_offset x) (s32 (uio_resid x))
    (advance SFS_BLOCKSIZE (set_off_resid (s32 b) SFS_BLOCKSIZE x)) = advance SFS_BLOCKSIZE x.
Proof.
  unfold SFS_BLOCKSIZE. intros Hr. unfold restore, advance, set_off_resid; simpl.
  unfold SFS_BLOCKSIZE. f_equal.
  - replace (s32 (s32 b + 512) - s32 b + uio_offset x)
      with (s32 (s32 b + 512) + (uio_offset x - s32 b)) by lia.
    rewrite s32_add_l. f_equal. lia.
  - rewrite (s32_small (uio_resid x)) by lia. f_equal. change (u32 (512 - 512)) with 0. lia.
Qed.

Lemma restore_same x b :
  SFS_BLOCKSIZE ≤ uio_resid x < 2 ^ 31 → - 2 ^ 31 ≤ uio_offset x < 2 ^ 31 →
  restore (s32 b) (uio_offset x) (s32 (uio_resid x)) (set_off_resid (s32 b) SFS_BLOCKSIZE x) = x.
Proof.
  unfold SFS_BLOCKSIZE. intros Hr Ho. unfold restore, set_off_resid; simpl. unfold SFS_BLOCKSIZE.
  rewrite (s32_small (uio_resid x)) by lia.
  replace (s32 b - s32 b + uio_offset x) with (uio_offset x) by lia.
  replace (512 - 512 + uio_resid x) with (uio_resid x) by lia.
  rewrite s32_small, u32_small by (unfold is_u32; lia). by destruct x.
Qed.

(** After the device has moved the block, the caller's view of the request. *)
Lemma restore_ok s s' b :
  uio_ok s' → u s' = advance SFS_BLOCKSIZE (set_off_resid (s32 b) SFS_BLOCKSIZE (u s)) →
  uio_ok s → SFS_BLOCKSIZE ≤ uio_resid (u s) < 2 ^ 31 →
  uio_ok (update_uio (restore (s32 b) (uio_offset (u s)) (s32 (uio_resid (u s)))) s').
Proof.
  intros Hok' Hu Hok Hr. pose proof (ok_resid _ Hok). pose proof (ok_len _ Hok).
  unfold restore. apply uio_ok_set; [done|apply s32_range|].
  rewrite Hu. simpl. unfold SFS_BLOCKSIZE, is_u32 in *. change (u32 (512 - 512)) with 0.
  rewrite (s32_small (uio_resid (u s))), !u32_small by (unfold is_u32; lia). lia.
Qed.

Lemma blockio_read_spec f sv s :
  io_req f sv s UIO_READ → uio_offset (u s) mod SFS_BLOCKSIZE = 0 → SFS_BLOCKSIZE ≤ uio_resid (u s) →
  wp sfs_blockio (read_post f sv s SFS_BLOCKSIZE) ((f, sv), s).
Proof.
  intros Hreq Hal Hres. destruct (fileblock_of _ _ _ _ Hreq) as [Hfb Hfb0]. destruct (Hreq).
  set (k := uio_offset (u s) / SFS_BLOCKSIZE) in *.
  unfold sfs_blockio. wp_step. wp_step. wp_step. cbn [snd]. rewrite ir_dir0, Hfb. wp_step.
  change (bool_decide (UIO_READ = UIO_WRITE)) with false.
  eapply wp_mono; [by apply sfs_bmap_spec|].
  intros r [f1 sv1] (Hq & Hro & Hr). destruct (Hro eq_refl) as [Hsv (d1 & Hs1 & Hf1)].
  simpl in Hsv, Hf1. subst sv1 f1.
  destruct r as [b|e|]; [|split; [exists d1; done|]|done].
  2: { destruct Hr as [->|[[_ ?]|[-> Hbig]]]; [by left|done|]. right; right. split; [done|].
       unfold MAXBYTES. unfold k, SFS_BLOCKSIZE in *. Z.div_mod_to_equations; lia. }
  destruct Hr as (Hk & Hb & _). simpl in Hb.
  destruct (bmap_ro_bytes f sv k d1 b) as [Hbk Hbytes]; [done..|].
  pose proof (fblock_bytes_len f (sv_i sv) k ir_fs0 ir_file0 ltac:(done)) as Hblen.
  assert (frange f (sv_i sv) (uio_offset (u s)) SFS_BLOCKSIZE = fblock_bytes f (sv_i sv) k) as Hrange.
  { rewrite frange_block; [|done..|by rewrite Hal]. fold k. rewrite Hal, drop_0.
    apply firstn_all2. unfold zlen in *. lia. }
  pose proof (ok_resid _ ir_ok0) as Hrl.
  destruct (Z.eqb_spec b 0) as [Hz|Hne].
  - wp_step. apply wp_assert; [done|]. wp_step. change SFS_BLOCKSIZE with 512 in *.
    apply uiomovezeros_spec; [done|done|lia|left; lia|..].
    + intros s' Hmv Hok'. pose proof (moved_in_dir _ _ _ Hmv).
      split; [by exists d1|]. rewrite Z.min_l in Hmv by lia.
      unfold SFS_BLOCKSIZE in *. rewrite Hrange. unfold fblock_bytes.
      rewrite decide_True by congruence. done.
    + intros s' Hseg Hdir'. split; [by exists d1|]. auto.
  - destruct (Hbytes Hne) as [Hbr Hbb]. destruct (ir_fs0). pose proof (proj1 (proj2 Hs1)) as Hbl.
    wp_step. apply wp_assert; [rewrite Z.geb_leb; lia|]. wp_steps. unfold on_fs_uio, sfs_rwblock.
    wp_step. simpl in Hbb.
    assert (uio_resid (u s) < 2 ^ 31 ∧ - 2 ^ 31 ≤ uio_offset (u s) < 2 ^ 31) as [Hr31 Ho31] by lia.
    eapply rwblock_read_spec; simpl; rewrite ?Hbl; [apply Hs1|eapply block_request; [done|done|lia]|lia|..].
    + intros d2 s' Hs2 [Hu Hm Hsp] Hok'. cbn [fst snd]. wp_steps.
      rewrite <- Hbb in *. rewrite Hblen in Hu. simpl in Hu.
      assert (uio_dir (u s') = uio_dir (u s)) by (by rewrite Hu).
      fold (restore (s32 (b * SFS_BLOCKSIZE)) (uio_offset (u s)) (s32 (uio_resid (u s)))).
      split; [exists d2; split; [by eapply same_disk_trans|done]|].
      split; [|eapply restore_ok; [done|done|done|lia]].
      rewrite Hrange. split; simpl; [|done|done].
      rewrite Hu, Hblen. apply restore_advance. lia.
    + intros d2 Hs2. wp_steps.
      split; [exists d2; split; [by eapply same_disk_trans|done]|by left].
    + intros d2 m' j Hs2 Hseg Hj Hst. wp_steps.
      split; [exists d2; split; [by eapply same_disk_trans|done]|]. auto.
Qed.

(** ** Several transfers in a row *)

Lemma advance_facts f sv s rw n :
  io_req f sv s rw → 0 ≤ n ≤ uio_resid (u s) →
  uio_offset (advance n (u s)) = uio_offset (u s) + n ∧
  uio_resid (advance n (u s)) = uio_resid (u s) - n.
Proof.
  intros [] Hn. pose proof (ok_resid _ ir_ok0). pose proof (ok_len _ ir_ok0) as Hl. unfold is_u32 in Hl.
  simpl. rewrite s32_small, u32_small by (unfold is_u32; lia). done.
Qed.

Lemma io_req_next f sv s rw f' sv' s' n :
  io_req f sv s rw → fs_ok f' → file_ok f' (sv_i sv') → uio_ok s' →
  u s' = advance n (u s) → 0 ≤ n ≤ uio_resid (u s) → io_req f' sv' s' rw.
Proof.
  intros Hreq Hfs Hok Huok Hu Hn. destruct (advance_facts _ _ _ _ n Hreq Hn) as [Ho Hr].
  destruct Hreq. split; rewrite ?Hu; try done; rewrite ?Ho, ?Hr; lia.
Qed.

Lemma fbyte_same_disk f d' i o :
  same_disk (sfs_device f) d' → fbyte (set_device d' f) i o = fbyte f i o.
Proof.
  intros (_ & _ & Hsec). unfold fbyte.
  rewrite (bmapZ_same_disk f) by (intros _; apply Hsec). case_decide; [done|].
  cbn [sfs_device set_device]. by rewrite Hsec.
Qed.

Lemma read_post_trans f sv s n1 d1 s1 n2 r p :
  io_req f sv s UIO_READ → 0 ≤ n1 → 0 ≤ n2 → n1 ≤ uio_resid (u s) → same_disk (sfs_device f) d1 →
  moved_in s (frange f (sv_i sv) (uio_offset (u s)) n1) s1 →
  read_post (set_device d1 f) sv s1 n2 r p → read_post f sv s (n1 + n2) r p.
Proof.
  intros Hreq Hn1 Hn2 Hle Hs1 Hmv [(d2 & Hs2 & Hp & Hdir2) Hr].
  destruct (advance_facts _ _ _ _ n1 Hreq) as [Ho1 _]; [lia|].
  pose proof (mi_uio _ _ _ Hmv) as Hu1. rewrite frange_len in Hu1 by done.
  rewrite Hu1 in Hr, Hdir2. rewrite Ho1 in Hr.
  split; [exists d2; split; [by eapply same_disk_trans|done]|].
  destruct r as [[]|e|]; [|simpl in Hr; intuition lia|done].
  destruct Hr as [Hmv2 Hok2]. split; [|done]. rewrite <- frange_app by done.
  eapply moved_in_app; [done|].
  rewrite <- (frange_ext f (sv_i sv) (set_device d1 f) (sv_i sv)); [done|].
  intros o _. by apply fbyte_same_disk.
Qed.

Lemma io_req_read f sv s n d1 s1 :
  io_req f sv s UIO_READ → 0 ≤ n ≤ uio_resid (u s) → same_disk (sfs_device f) d1 →
  moved_in s (frange f (sv_i sv) (uio_offset (u s)) n) s1 → uio_ok s1 →
  io_req (set_device d1 f) sv s1 UIO_READ ∧
  uio_offset (u s1) = uio_offset (u s) + n ∧ uio_resid (u s1) = uio_resid (u s) - n.
Proof.
  intros Hreq Hn Hs1 Hmv Hok1. pose proof (mi_uio _ _ _ Hmv) as Hu1.
  rewrite frange_len in Hu1 by lia. rewrite Hu1. split; [|by eapply advance_facts].
  destruct (same_disk_quiet f sv d1) as [[[] _ _ _] _ _]; [apply Hreq|apply Hreq|done|].
  by eapply io_req_next.
Qed.

Lemma read_post_refl f sv s : io_req f sv s UIO_READ → read_post f sv s 0 (Ret ()) ((f, sv), s).
Proof.
  intros []. split; [|split; [by apply moved_in_nil|done]].
  exists (sfs_device f). split; [by apply same_disk_refl|by rewrite set_device_id].
Qed.

Lemma blocks_read_spec f sv s nb :
  io_req f sv s UIO_READ → uio_offset (u s) mod SFS_BLOCKSIZE = 0 → 0 ≤ nb →
  nb * SFS_BLOCKSIZE ≤ uio_resid (u s) →
  wp (forM (seqZ 0 nb) (λ _, sfs_blockio)) (read_post f sv s (nb * SFS_BLOCKSIZE)) ((f, sv), s).
Proof.
  intros Hreq Hal Hnb Hle. assert (SFS_BLOCKSIZE = 512) as HB by done.
  apply (wp_forM _ _ (λ j p, read_post f sv s (Z.of_nat j * SFS_BLOCKSIZE) (Ret ()) p)).
  - by apply read_post_refl.
  - intros j x [[f1 sv1] s1] [_ Hj]%lookup_seqZ [(d1 & Hs1 & Hp & Hdir1) [Hmv Hok1]].
    simpl in Hp. simplify_eq. simpl in Hmv, Hok1.
    assert (0 ≤ Z.of_nat j * SFS_BLOCKSIZE ∧
      Z.of_nat j * SFS_BLOCKSIZE + SFS_BLOCKSIZE ≤ nb * SFS_BLOCKSIZE) by (unfold SFS_BLOCKSIZE; nia).
    destruct (io_req_read f sv s (Z.of_nat j * SFS_BLOCKSIZE) d1 s1) as (Hreq1 & Ho1 & Hr1);
      [done|lia|done..|].
    eapply wp_mono; [apply blockio_read_spec; [done| |lia]|].
    { rewrite Ho1. rewrite Z.mod_add by done. done. }
    intros r p Hpost.
    assert (read_post f sv s (Z.of_nat j * SFS_BLOCKSIZE + SFS_BLOCKSIZE) r p) as Ht
      by (eapply read_post_trans; [done|lia|done|lia|done..]).
    destruct r as [[]|e|]; [| |done].
    + replace (Z.of_nat (S j) * SFS_BLOCKSIZE) with (Z.of_nat j * SFS_BLOCKSIZE + SFS_BLOCKSIZE)
        by (unfold SFS_BLOCKSIZE; lia). done.
    + destruct Ht as [Hd He]. split; [done|]. simpl in He |- *. intuition lia.
  - intros p Hpost. rewrite length_seqZ_nat, Z2Nat.id in Hpost by done. done.
Qed.

Lemma rem_off f sv s rw :
  io_req f sv s rw → Z.rem (uio_offset (u s)) SFS_BLOCKSIZE = uio_offset (u s) mod SFS_BLOCKSIZE ∧
  0 ≤ uio_offset (u s) mod SFS_BLOCKSIZE < SFS_BLOCKSIZE.
Proof.
  intros []. split; [apply Z.rem_mod_nonneg; unfold SFS_BLOCKSIZE; lia|].
  apply Z.mod_pos_bound. done.
Qed.

Lemma io_aligned_read_spec f sv s :
  io_req f sv s UIO_READ → uio_offset (u s) mod SFS_BLOCKSIZE = 0 →
  wp sfs_io_aligned (read_post f sv s (uio_resid (u s))) ((f, sv), s).
Proof.
  intros Hreq Hal. assert (SFS_BLOCKSIZE = 512) as HB by done.
  destruct (rem_off _ _ _ _ Hreq) as [Hrem _]. pose proof (ok_resid _ (ir_ok _ _ _ _ Hreq)) as Hres.
  pose proof (Z.div_mod (uio_resid (u s)) SFS_BLOCKSIZE ltac:(done)) as Hdm.
  pose proof (Z.mod_pos_bound (uio_resid (u s)) SFS_BLOCKSIZE ltac:(done)) as Hmb.
  pose proof (Z.div_pos (uio_resid (u s)) SFS_BLOCKSIZE ltac:(lia) ltac:(done)) as Hdp.
  set (nb := uio_resid (u s) / SFS_BLOCKSIZE) in *. set (m := uio_resid (u s) mod SFS_BLOCKSIZE) in *.
  unfold sfs_io_aligned. wp_step. wp_step. cbn [snd]. wp_step.
  apply wp_assert; [rewrite Hrem; lia|]. fold nb. wp_step.
  eapply wp_mono; [apply blocks_read_spec; [done|done|lia|lia]|].
  intros r [[f1 sv1] s1] Hpost.
  destruct r as [[]|e|]; [|destruct Hpost as [? He]; split; [done|]; simpl in He |- *; intuition lia|by destruct Hpost].
  destruct Hpost as [(d1 & Hs1 & Hp & Hdir1) [Hmv Hok1]]. simpl in Hp, Hmv, Hok1. injection Hp as -> ->.
  destruct (io_req_read f sv s (nb * SFS_BLOCKSIZE) d1 s1) as (Hreq1 & Ho1 & Hr1); [done|lia|done..|].
  wp_steps. cbn [snd]. apply wp_assert; [lia|]. rewrite Z.gtb_ltb.
  assert (∀ r p, read_post (set_device d1 f) sv s1 m r p → read_post f sv s (uio_resid (u s)) r p) as Hmono.
  { intros r p Hp. replace (uio_resid (u s)) with (nb * SFS_BLOCKSIZE + m) by lia.
    eapply read_post_trans; [done|lia|lia|lia|done..]. }
  destruct (Z.ltb_spec 0 (uio_resid (u s1))) as [Hpos|Hz].
  - replace (uio_resid (u s1)) with m by lia.
    assert (uio_offset (u s1) mod SFS_BLOCKSIZE = 0) as Hal1.
    { rewrite Ho1, Z.mod_add by done. done. }
    eapply wp_mono; [|exact Hmono]. rewrite <- Hal1. apply partialio_read_spec; [done|lia|lia].
  - wp_step. apply Hmono. replace m with 0 by lia. by apply read_post_refl.
Qed.

(** The whole transfer of a read. *)
Lemma io_blocks_read_spec f sv s :
  io_req f sv s UIO_READ → 0 ≤ uio_resid (u s) →
  wp sfs_io_blocks (read_post f sv s (uio_resid (u s))) ((f, sv), s).
Proof.
  intros Hreq Hpos. assert (SFS_BLOCKSIZE = 512) as HB by done.
  destruct (rem_off _ _ _ _ Hreq) as [Hrem Hmod].
  unfold sfs_io_blocks. wp_step. wp_step. cbn [snd]. rewrite Hrem, u32_small by (unfold is_u32; lia).
  set (off := uio_offset (u s)) in *.
  destruct (Z.eqb_spec (off mod SFS_BLOCKSIZE) 0) as [Hz|Hnz]; cbn [negb].
  { wp_steps. cbn [snd]. destruct (Z.eqb_spec (uio_resid (u s)) 0) as [->|]; [|by apply io_aligned_read_spec].
    wp_step. by apply read_post_refl. }
  set (len := if SFS_BLOCKSIZE - off mod SFS_BLOCKSIZE >? uio_resid (u s)
              then uio_resid (u s) else SFS_BLOCKSIZE - off mod SFS_BLOCKSIZE).
  assert (len = Z.min (SFS_BLOCKSIZE - off mod SFS_BLOCKSIZE) (uio_resid (u s))) as Hlen
    by (unfold len; rewrite Z.gtb_ltb; case_match; lia).
  clearbody len. wp_step. eapply wp_mono; [apply partialio_read_spec; [done|lia|unfold off in *; lia]|].
  intros r [[f1 sv1] s1] Hpost.
  destruct r as [[]|e|]; [|destruct Hpost as [? He]; split; [done|]; simpl in He |- *; intuition lia|by destruct Hpost].
  destruct Hpost as [(d1 & Hs1 & Hp & Hdir1) [Hmv Hok1]]. simpl in Hp, Hmv, Hok1. injection Hp as -> ->.
  destruct (io_req_read f sv s len d1 s1) as (Hreq1 & Ho1 & Hr1); [done|lia|done..|].
  assert (∀ r p, read_post (set_device d1 f) sv s1 (uio_resid (u s1)) r p →
    read_post f sv s (uio_resid (u s)) r p) as Hmono.
  { intros r p Hp. replace (uio_resid (u s)) with (len + uio_resid (u s1)) by lia.
    eapply read_post_trans; [done|lia|lia|lia|done..]. }
  wp_step. wp_step. cbn [snd]. destruct (Z.eqb_spec (uio_resid (u s1)) 0) as [Hz1|Hnz1].
  - wp_step. apply Hmono. rewrite Hz1. by apply read_post_refl.
  - eapply wp_mono; [|exact Hmono]. apply io_aligned_read_spec; [done|].
    rewrite Ho1. fold off. unfold SFS_BLOCKSIZE in *. Z.div_mod_to_equations; lia.
Qed.

(** The number of bytes a read of [n] bytes at [off] delivers. *)
Definition read_len i (off n : Z) : Z := Z.max 0 (Z.min n (sfi_size i - off)).

Lemma io_from_read_spec f sv s extra :
  io_req f sv s UIO_READ → 0 ≤ uio_resid (u s) → 0 ≤ extra → uio_resid (u s) + extra ≤ iov_len (u s) →
  wp (sfs_io_from extra) (λ r p, read_post f sv
    (update_uio (set_off_resid (uio_offset (u s)) (uio_resid (u s) + extra)) s) (uio_resid (u s)) r p)
    ((f, sv), s).
Proof.
  intros Hreq Hpos Hex Hfit. pose proof (ok_len _ (ir_ok _ _ _ _ Hreq)) as Hl. unfold is_u32 in Hl.
  unfold sfs_io_from. wp_steps.
  eapply wp_mono; [by apply io_blocks_read_spec|]. intros r [[f1 sv1] s1] [(d1 & Hs1 & Hp & Hdir1) Hr].
  simpl in Hp. injection Hp as -> ->.
  destruct r as [[]|e|]; [| |done].
  - destruct Hr as [Hmv Hok1]. simpl in Hmv, Hok1.
    destruct (io_req_read f sv s (uio_resid (u s)) d1 s1) as (Hreq1 & Ho1 & Hr1); [done|lia|done..|].
    unfold sfs_io_out. wp_step. wp_step. wp_step. cbn [fst snd].
    rewrite (ir_dir _ _ _ _ Hreq1), decide_False by naive_solver. wp_steps.
    split; [by exists d1|]. destruct Hmv as [Hu Hm Hsp].
    rewrite frange_len in Hu by lia.
    assert (iov_len (u s1) = iov_len (u s) - uio_resid (u s)) as Hlen1.
    { rewrite Hu. simpl. apply u32_small. unfold is_u32. lia. }
    split.
    + split; simpl; [|done|done]. rewrite frange_len by lia. rewrite Hu. unfold advance, set_off_resid. simpl.
      f_equal. rewrite Z.sub_diag. change (u32 0) with 0. f_equal. lia.
    + apply uio_ok_set; [done|rewrite Ho1; destruct Hreq; lia|].
      rewrite u32_small by (unfold is_u32; lia). lia.
  - unfold sfs_io_out. wp_step. wp_step. wp_step. cbn [fst snd].
    assert (uio_dir (u s1) = UIO_READ) as Hdir' by (cbn [snd] in Hdir1; rewrite Hdir1; apply Hreq).
    rewrite Hdir', decide_False by naive_solver. wp_steps.
    split; [by exists d1|]. simpl. simpl in Hr. intuition lia.
Qed.

(** [sfs_io] for a read. *)
Lemma sfs_io_read_spec f sv s :
  io_req f sv s UIO_READ → 0 ≤ uio_resid (u s) → sfi_size (sv_i sv) < 2 ^ 31 →
  wp sfs_io (read_post f sv s (read_len (sv_i sv) (uio_offset (u s)) (uio_resid (u s)))) ((f, sv), s).
Proof.
  intros Hreq Hpos Hsz. destruct (Hreq). pose proof (io_size _ (fl_inode _ _ ir_file0)) as Hu.
  pose proof (ok_resid _ ir_ok0). pose proof (ok_len _ ir_ok0) as Hl. unfold is_u32 in *.
  unfold sfs_io, read_len. wp_step. wp_step. cbn [fst snd]. rewrite ir_dir0.
  rewrite (s32_small (sfi_size _)), s32_small by lia. rewrite Z.geb_leb, Z.gtb_ltb.
  destruct (Z.leb_spec (sfi_size (sv_i sv)) (uio_offset (u s))).
  { wp_step. rewrite Z.max_l by lia. by apply read_post_refl. }
  destruct (Z.ltb_spec (sfi_size (sv_i sv)) (uio_offset (u s) + uio_resid (u s))).
  - rewrite u32_small by (unfold is_u32; lia). wp_step.
    apply wp_assert; [rewrite Z.gtb_ltb; lia|]. wp_steps.
    set (extra := uio_offset (u s) + uio_resid (u s) - sfi_size (sv_i sv)).
    set (s0 := update_uio _ s).
    assert (u s0 = set_off_resid (uio_offset (u s)) (uio_resid (u s) - extra) (u s)) as Hs0.
    { unfold s0. simpl. by rewrite u32_small by (unfold is_u32, extra; lia). }
    assert (io_req f sv s0 UIO_READ) as Hreq0.
    { split; rewrite ?Hs0; simpl; [done|done| |done|lia|unfold extra; lia].
      unfold s0. apply uio_ok_set; [done|lia|]. rewrite u32_small by (unfold is_u32, extra; lia).
      unfold extra. lia. }
    eapply wp_mono; [apply (io_from_read_spec f sv s0 extra); [done|..]|].
    + rewrite Hs0. simpl. unfold extra. lia.
    + unfold extra. lia.
    + rewrite Hs0. simpl. lia.
    + intros r p Hp. rewrite Hs0 in Hp. simpl in Hp.
      replace (Z.max _ _) with (uio_resid (u s) - extra) by (unfold extra; lia).
      replace (uio_resid (u s) - extra + extra) with (uio_resid (u s)) in Hp by lia.
      replace (update_uio (set_off_resid (uio_offset (u s)) (uio_resid (u s))) s0) with s in Hp; [done|].
      unfold s0, update_uio, set_u. simpl. destruct s as [[] ? ?]. done.
  - eapply wp_mono; [apply io_from_read_spec; [done|lia|lia|lia]|].
    intros r p Hp. rewrite Z.add_0_r in Hp. replace (Z.max _ _) with (uio_resid (u s)) by lia.
    replace (update_uio _ s) with s in Hp; [done|]. by destruct s as [[] ? ?].
Qed.

(** ** Writing *)

(** The bytes [bs] of the caller's memory were written at the current offset. *)
Record wrote f sv s (bs : list Z) f' sv' s' : Prop := {
  wr_step : svstep f sv f' sv';
  wr_size : sfi_size (sv_i sv') = sfi_size (sv_i sv);
  wr_bytes : ∀ o, 0 ≤ o < MAXBYTES →
    fbyte f' (sv_i sv') o =
      if decide (uio_offset (u s) ≤ o < uio_offset (u s) + zlen bs)
      then default 0 (bs !z (o - uio_offset (u s))) else fbyte f (sv_i sv) o;
  wr_moved : moved_out s bs s';
  wr_ok : uio_ok s';
  wr_fits : zlen bs = 0 ∨ uio_offset (u s) + zlen bs ≤ MAXBYTES;
}.

(** A write of [n] bytes that fails has stopped before the end of the request,
    at the start of a block or before it has moved anything. *)
Definition write_errno s (n : Z) (e : errno) : Prop :=
  e = EIO ∨ e = ENOSPC ∨ e = EFAULT ∧ uio_segflg (u s) ≠ UIO_SYSSPACE ∨
  e = EINVAL ∧ MAXBYTES < uio_offset (u s) + n.
Definition write_stop s (n : Z) (bs : list Z) (e : errno) : Prop :=
  zlen bs < n ∧ (zlen bs = 0 ∨ (uio_offset (u s) + zlen bs) mod SFS_BLOCKSIZE = 0) ∧
  write_errno s n e.

(** A write of [n] bytes: on an error a part of them may have been written. *)
Definition write_post f sv s (n : Z) (r : result unit) (p : (sfs_fs D * sfs_vnode) * uiost) : Prop :=
  ∃ bs, wrote f sv s bs p.1.1 p.1.2 p.2 ∧ zlen bs ≤ n ∧
  match r with
  | Ret _ => zlen bs = n
  | Fail e => write_stop s n bs e
  | Halt _ => False
  end.

Lemma quiet_wrote f sv s f' sv' : uio_ok s → quiet f sv f' sv' → wrote f sv s [] f' sv' s.
Proof.
  intros Hok []. split; [done|done| |by apply moved_out_nil|done|by left].
  intros o Ho. change (zlen []) with 0. rewrite decide_False by lia. auto.
Qed.

Lemma wrote_trans f sv s b1 f1 sv1 s1 b2 f2 sv2 s2 :
  io_req f sv s UIO_WRITE → zlen b1 ≤ uio_resid (u s) →
  wrote f sv s b1 f1 sv1 s1 → wrote f1 sv1 s1 b2 f2 sv2 s2 → wrote f sv s (b1 ++ b2) f2 sv2 s2.
Proof.
  intros Hreq Hle [Hst1 Hsz1 Hby1 [Hat1 ->] Hok1 Hfit1] [Hst2 Hsz2 Hby2 [Hat2 ->] Hok2 Hfit2].
  pose proof (zlen_nonneg b1). pose proof (zlen_nonneg b2).
  destruct (advance_facts _ _ _ _ (zlen b1) Hreq) as [Ho _]; [lia|].
  change (u (set_u (advance (zlen b1) (u s)) s)) with (advance (zlen b1) (u s)) in *.
  split; [by eapply svstep_trans|congruence| | |done|rewrite zlen_app; lia].
  - intros o Ho'. rewrite Hby2, Ho, zlen_app by done. case_decide.
    + rewrite decide_True, !zlookup_nat by lia. unfold zlen in *.
      rewrite lookup_app_r by lia. f_equal. f_equal. lia.
    + rewrite Hby1 by done. case_decide.
      * rewrite decide_True, !zlookup_nat by lia. unfold zlen in *. by rewrite lookup_app_l by lia.
      * by rewrite decide_False by lia.
  - split; [by apply bytes_at_app|]. rewrite advance_advance, zlen_app. done.
Qed.

(** Overwriting block [k] of the file. *)
Lemma write_block_step f sv k b newblk d' :
  fs_ok f → file_ok f (sv_i sv) → 0 ≤ k < MAXBLOCKS → fblock f (sv_i sv) k = b → b ≠ 0 →
  written (sfs_device f) b newblk d' →
  svstep f sv (set_device d' f) sv ∧
  (∀ o, 0 ≤ o < MAXBYTES → fbyte (set_device d' f) (sv_i sv) o =
     if decide (o / SFS_BLOCKSIZE = k) then default 0 (newblk !z (o mod SFS_BLOCKSIZE))
     else fbyte f (sv_i sv) o).
Proof.
  intros Hfs Hok Hk Hb Hne (Hd & Hbl & Hsec). destruct (Hok) as [Hi Hr Hu Hdist].
  assert (∀ j, 0 ≤ j ≤ MAXBLOCKS → j ≠ k → fblock f (sv_i sv) j ≠ b) as Hother.
  { intros j Hj Hjk Heq. apply Hjk, Hdist; [done|lia|congruence|congruence]. }
  assert (∀ j, fblock (set_device d' f) (sv_i sv) j = fblock f (sv_i sv) j) as Hfb.
  { intros j. apply fblock_same_disk. intros _. simpl. rewrite Hsec, decide_False; [done|].
    rewrite <- (fblock_indirect f). apply Hother; unfold MAXBLOCKS in *; lia. }
  assert (fs_ok (set_device d' f)) as Hfs' by (destruct Hfs; split; simpl; rewrite ?Hbl; done).
  assert (file_ok (set_device d' f) (sv_i sv)) as Hok'.
  { split; [done|..]; setoid_rewrite Hfb; done. }
  split.
  - split; [|done..]. split; [done|done|done|done|done|done| |apply map_step_device, map_step_refl].
    intros b' Hb0 Hub Hn. simpl. rewrite Hsec, decide_False.
    + split; [done|]. unfold owns in *. by setoid_rewrite Hfb.
    + intros ->. apply Hn. split; [done|]. exists k. split; [lia|done].
  - intros o Ho. rewrite !fbyte_block by done.
    assert (0 ≤ o / SFS_BLOCKSIZE < MAXBLOCKS) as Hor.
    { unfold MAXBYTES, MAXBLOCKS, SFS_BLOCKSIZE in *. Z.div_mod_to_equations; lia. }
    unfold fblock_bytes. rewrite Hfb. case_decide as Hok2.
    + rewrite decide_False; [done|]. intros <-. congruence.
    + simpl. rewrite Hsec. case_decide as Heq.
      * destruct (decide (o / SFS_BLOCKSIZE = k)) as [|Hnk]; [done|].
        exfalso. apply (Hother (o / SFS_BLOCKSIZE)); [lia|done|done].
      * rewrite decide_False; [done|]. intros <-. congruence.
Qed.

Lemma overlay_lookup (buf bs : list Z) skip j :
  0 ≤ skip → skip + zlen bs ≤ zlen buf → 0 ≤ j →
  (take (Z.to_nat skip) buf ++ bs ++ drop (length bs) (drop (Z.to_nat skip) buf)) !z j =
    if decide (skip ≤ j < skip + zlen bs) then bs !z (j - skip) else buf !z j.
Proof.
  unfold zlen. intros Hs Hle Hj. rewrite !zlookup_nat by lia. case_decide as Hd.
  - rewrite lookup_app_r, length_take by (rewrite length_take; lia).
    rewrite lookup_app_l by lia. rewrite zlookup_nat by lia. f_equal. lia.
  - rewrite zlookup_nat by lia. destruct (decide (j < skip)).
    + rewrite lookup_app_l by (rewrite length_take; lia). by rewrite lookup_take_lt by lia.
    + rewrite lookup_app_r, length_take by (rewrite length_take; lia).
      rewrite lookup_app_r by lia. rewrite !lookup_drop. f_equal. lia.
Qed.

(** A part of a block written: the whole of the file's bytes. *)
Lemma overlay_wrote f sv s bs d' s' skip k b :
  io_req f sv s UIO_WRITE → k = uio_offset (u s) / SFS_BLOCKSIZE → skip = uio_offset (u s) mod SFS_BLOCKSIZE →
  0 ≤ k < MAXBLOCKS → fblock f (sv_i sv) k = b → b ≠ 0 → skip + zlen bs ≤ SFS_BLOCKSIZE →
  written (sfs_device f) b
    (take (Z.to_nat skip) (blk f b) ++ bs ++ drop (length bs) (drop (Z.to_nat skip) (blk f b))) d' →
  moved_out s bs s' → uio_ok s' →
  wrote f sv s bs (set_device d' f) sv s'.
Proof.
  intros Hreq Hkd Hsk Hk Hb Hne Hfit Hw Hmv Hok'. destruct (Hreq).
  pose proof (fblock_bytes_len f (sv_i sv) k ir_fs0 ir_file0 Hk) as Hlen.
  unfold fblock_bytes in Hlen. rewrite Hb, decide_False in Hlen by done.
  pose proof (zlen_nonneg bs).
  pose proof (Z.div_mod (uio_offset (u s)) SFS_BLOCKSIZE ltac:(done)) as Hdm.
  assert (0 ≤ skip < SFS_BLOCKSIZE) as Hskr by (subst skip; apply Z.mod_pos_bound; done).
  destruct (write_block_step f sv k b _ d' ir_fs0 ir_file0 Hk Hb Hne Hw) as [Hst Hby].
  split; [done|done| |done|done|right; unfold MAXBYTES; nia]. intros o Ho. rewrite Hby by done.
  pose proof (Z.div_mod o SFS_BLOCKSIZE ltac:(done)) as Hodm.
  pose proof (Z.mod_pos_bound o SFS_BLOCKSIZE ltac:(done)) as Hom.
  assert (SFS_BLOCKSIZE = 512) as HB by done.
  destruct (decide (o / SFS_BLOCKSIZE = k)) as [Hok|Hnk].
  - rewrite overlay_lookup by lia. case_decide as Hin.
    + rewrite decide_True by nia. f_equal. f_equal. nia.
    + rewrite decide_False by nia. rewrite fbyte_block, Hok by done. unfold fblock_bytes.
      rewrite Hb. by rewrite decide_False.
  - rewrite decide_False; [done|]. nia.
Qed.

Lemma quiet_ok f sv f' sv' : quiet f sv f' sv' → fs_ok f' ∧ file_ok f' (sv_i sv').
Proof. intros [[[] _ _ _] _ _]. done. Qed.

Lemma io_req_quiet f sv s rw f' sv' : io_req f sv s rw → quiet f sv f' sv' → io_req f' sv' s rw.
Proof. intros [] [? ?]%quiet_ok. by split. Qed.

(** Nothing of the request was moved. *)
Lemma write_post_fail f sv s n e f' sv' :
  uio_ok s → quiet f sv f' sv' → 0 < n → write_errno s n e →
  write_post f sv s n (Fail e) ((f', sv'), s).
Proof.
  intros Hok Hq Hn He. exists []. split; [by apply quiet_wrote|].
  split; [by apply Z.lt_le_incl|]. split; [done|]. split; [by left|done].
Qed.

Lemma wrote_quiet_l f sv s f1 sv1 bs f2 sv2 s2 :
  io_req f sv s UIO_WRITE → quiet f sv f1 sv1 → wrote f1 sv1 s bs f2 sv2 s2 →
  wrote f sv s bs f2 sv2 s2.
Proof.
  intros Hreq Hq Hw. rewrite <- (app_nil_l bs).
  apply (wrote_trans f sv s [] f1 sv1 s); [done| |apply quiet_wrote; [apply Hreq|done]|done].
  change (zlen []) with 0. apply (ok_resid _ (ir_ok _ _ _ _ Hreq)).
Qed.

Lemma bmap_write_fail f sv s n e f1 sv1 k :
  io_req f sv s UIO_WRITE → 0 < n → k = uio_offset (u s) / SFS_BLOCKSIZE →
  bmap_post f sv k true (Fail e) (f1, sv1) → write_post f sv s n (Fail e) ((f1, sv1), s).
Proof.
  intros Hreq Hn Hk (Hq & _ & He). simpl in Hq.
  apply write_post_fail; [apply Hreq|done|lia|].
  unfold write_errno. destruct He as [->|[[-> _]|[-> Hbig]]]; [auto..|]. right; right; right. split; [done|].
  unfold MAXBYTES. destruct Hreq. unfold SFS_BLOCKSIZE in *. Z.div_mod_to_equations; lia.
Qed.

Lemma blk_len f b : fs_ok f → 0 ≤ b < nblk f → zlen (blk f b) = SFS_BLOCKSIZE.
Proof. intros [] Hb. apply (sector_len (sfs_device f)); [done|lia]. Qed.

(** From here on the disk takes every write. *)
Context `{!ReliableWrites D}.

Lemma partialio_write_spec f sv s len :
  io_req f sv s UIO_WRITE → 0 < len ≤ uio_resid (u s) →
  uio_offset (u s) mod SFS_BLOCKSIZE + len ≤ SFS_BLOCKSIZE →
  wp (sfs_partialio (uio_offset (u s) mod SFS_BLOCKSIZE) len) (write_post f sv s len) ((f, sv), s).
Proof.
  intros Hreq Hlen Hfit. destruct (fileblock_of _ _ _ _ Hreq) as [Hfb Hfb0].
  destruct (rem_off _ _ _ _ Hreq) as [_ Hskip]. assert (SFS_BLOCKSIZE = 512) as HB by done.
  set (k := uio_offset (u s) / SFS_BLOCKSIZE) in *. set (skip := uio_offset (u s) mod SFS_BLOCKSIZE) in *.
  unfold sfs_partialio. wp_step. wp_step. wp_step. cbn [snd].
  apply wp_assert; [rewrite u32_small; [|unfold is_u32]; lia|].
  rewrite (ir_dir _ _ _ _ Hreq), Hfb. wp_step. wp_step.
  change (bool_decide (UIO_WRITE = UIO_WRITE)) with true.
  eapply wp_mono; [apply sfs_bmap_spec; [done|apply Hreq|apply Hreq|done]|].
  intros r [f1 sv1] Hpost. destruct r as [b|e|]; [|apply (bmap_write_fail _ _ _ _ _ _ _ k); [done|lia|done|done]|by destruct Hpost as (_ & _ & [])].
  destruct Hpost as (Hq & _ & Hk & Hb & Hnz). simpl in Hq, Hb. specialize (Hnz eq_refl).
  destruct (quiet_ok _ _ _ _ Hq) as [Hfs1 Hok1].
  pose proof (fl_range _ _ Hok1 k ltac:(lia)) as Hbr. rewrite <- Hb in Hbr.
  destruct (Hfs1) as [Hd1 Hnb1 Hfit1 _ _ _ _].
  wp_step. rewrite (proj2 (Z.eqb_neq b 0)) by done. wp_steps.
  apply sfs_rblock_spec; [done|lia|lia| |].
  2: { intros d2 Hs2. apply write_post_fail; [apply Hreq|eapply quiet_trans; [done|]|lia|unfold write_errno; auto].
       by apply same_disk_quiet. }
  intros d2 Hs2. pose proof (same_disk_quiet f1 sv1 d2 Hfs1 Hok1 Hs2) as Hq2.
  pose proof (blk_len f1 b Hfs1 Hbr) as Hbl. pose proof (io_req_quiet _ _ _ _ _ _ Hreq Hq) as Hreq1.
  pose proof (io_req_quiet _ _ _ _ _ _ Hreq1 Hq2) as Hreq2. cbn [fst snd].
  wp_steps. apply uiomove_write_spec; [apply Hreq|apply Hreq| |left; lia| |].
  3: { intros Hseg. apply write_post_fail; [apply Hreq|by eapply quiet_trans|lia|unfold write_errno; auto]. }
  { unfold zlen in *. rewrite length_drop. lia. }
  intros bs s' Hbs Hmv Hok'. rewrite Z.min_l in Hbs by lia. cbn beta iota. rewrite decide_True by done. wp_steps.
  destruct (quiet_ok _ _ _ _ Hq2) as [[Hd2 Hnb2 Hfit2 _ _ _ _] _].
  apply sfs_wblock_spec; [done|simpl in *; lia|lia| |].
  { unfold zlen in *. rewrite !length_app, length_take, !length_drop. lia. }
  intros d3 Hw3. cbn [fst snd]. exists bs. split; [|split; [lia|done]].
  eapply wrote_quiet_l; [done|eapply quiet_trans; [exact Hq|exact Hq2]|].
  rewrite <- (proj2 (proj2 Hs2)) in Hw3.
  eapply (overlay_wrote _ _ _ _ _ _ skip k b); [done|done|done|lia| |done|lia|exact Hw3|done|done].
  rewrite Hb. apply fblock_same_disk. intros _. apply Hs2.
Qed.

Lemma blockio_write_spec f sv s :
  io_req f sv s UIO_WRITE → uio_offset (u s) mod SFS_BLOCKSIZE = 0 → SFS_BLOCKSIZE ≤ uio_resid (u s) →
  wp sfs_blockio (write_post f sv s SFS_BLOCKSIZE) ((f, sv), s).
Proof.
  intros Hreq Hal Hres. destruct (fileblock_of _ _ _ _ Hreq) as [Hfb Hfb0].
  assert (SFS_BLOCKSIZE = 512) as HB by done.
  set (k := uio_offset (u s) / SFS_BLOCKSIZE) in *.
  unfold sfs_blockio. wp_step. wp_step. wp_step. cbn [snd]. rewrite (ir_dir _ _ _ _ Hreq), Hfb. wp_step.
  change (bool_decide (UIO_WRITE = UIO_WRITE)) with true.
  eapply wp_mono; [apply sfs_bmap_spec; [done|apply Hreq|apply Hreq|done]|].
  intros r [f1 sv1] Hpost. destruct r as [b|e|]; [|apply (bmap_write_fail _ _ _ _ _ _ _ k); [done|lia|done|done]|by destruct Hpost as (_ & _ & [])].
  destruct Hpost as (Hq & _ & Hk & Hb & Hnz). simpl in Hq, Hb. specialize (Hnz eq_refl).
  destruct (quiet_ok _ _ _ _ Hq) as [Hfs1 Hok1].
  pose proof (fl_range _ _ Hok1 k ltac:(lia)) as Hbr. rewrite <- Hb in Hbr.
  destruct (Hfs1) as [Hd1 Hnb1 Hfit1 _ _ _ _]. pose proof (io_req_quiet _ _ _ _ _ _ Hreq Hq) as Hreq1.
  rewrite (proj2 (Z.eqb_neq b 0)) by done.
  wp_step. apply wp_assert; [rewrite Z.geb_leb; lia|]. wp_steps. unfold on_fs_uio, sfs_rwblock. wp_step.
  destruct (Hreq). pose proof (ok_resid _ ir_ok0).
  eapply rwblock_write_spec; simpl; [done|eapply block_request; [done|done|lia]|lia| |].
  - intros d2 s' bs Hw Hbs [Hat ->] Hok'. cbn [fst snd]. wp_steps.
    fold (restore (s32 (b * SFS_BLOCKSIZE)) (uio_offset (u s)) (s32 (uio_resid (u s)))).
    unfold SECTSIZE in Hbs. rewrite Hbs. exists bs. split; [|split; [lia|done]].
    eapply wrote_quiet_l; [done|exact Hq|].
    apply (overlay_wrote _ _ _ _ _ _ 0 k b); [done|done|done|lia|done|done|lia| | |].
    + rewrite take_0, drop_0, app_nil_l, drop_ge, app_nil_r; [done|].
      pose proof (blk_len f1 b Hfs1 Hbr). unfold zlen in *. lia.
    + split; [done|]. rewrite Hbs. rewrite <- HB at 1. unfold update_uio, set_u; simpl.
      f_equal. by rewrite restore_advance by lia.
    + rewrite Hbs in Hok'. eapply restore_ok; [done|done|done|lia].
  - intros d2 Hs2 Hseg. wp_steps.
    fold (restore (s32 (b * SFS_BLOCKSIZE)) (uio_offset (u s)) (s32 (uio_resid (u s)))).
    assert (update_uio (restore (s32 (b * SFS_BLOCKSIZE)) (uio_offset (u s)) (s32 (uio_resid (u s))))
      (update_uio (set_off_resid (s32 (b * SFS_BLOCKSIZE)) SFS_BLOCKSIZE) s) = s) as ->.
    { unfold update_uio, set_u; simpl. rewrite restore_same by lia. by destruct s. }
    apply write_post_fail; [done|eapply quiet_trans; [done|]|lia|unfold write_errno; auto].
    by apply same_disk_quiet.
Qed.

Lemma io_req_wrote f sv s bs f1 sv1 s1 :
  io_req f sv s UIO_WRITE → zlen bs ≤ uio_resid (u s) → wrote f sv s bs f1 sv1 s1 →
  io_req f1 sv1 s1 UIO_WRITE ∧ uio_offset (u s1) = uio_offset (u s) + zlen bs ∧
  uio_resid (u s1) = uio_resid (u s) - zlen bs ∧ uio_segflg (u s1) = uio_segflg (u s).
Proof.
  intros Hreq Hle [[[] _ _ _] _ _ [_ ->] Hok1 _]. pose proof (zlen_nonneg bs).
  destruct (advance_facts _ _ _ _ (zlen bs) Hreq) as [Ho Hr]; [lia|].
  split_and!; [|done..].
  eapply (io_req_next _ _ _ _ _ _ _ (zlen bs)); [exact Hreq|done|done|done|done|lia].
Qed.

Lemma write_post_trans f sv s b1 f1 sv1 s1 n2 r p :
  io_req f sv s UIO_WRITE → zlen b1 ≤ uio_resid (u s) →
  (n2 ≠ 0 → (uio_offset (u s) + zlen b1) mod SFS_BLOCKSIZE = 0) → wrote f sv s b1 f1 sv1 s1 →
  write_post f1 sv1 s1 n2 r p → write_post f sv s (zlen b1 + n2) r p.
Proof.
  intros Hreq Hle Hal Hw1 (b2 & Hw2 & Hle2 & Hr).
  destruct (io_req_wrote _ _ _ _ _ _ _ Hreq Hle Hw1) as (_ & Ho1 & _ & Hs1).
  exists (b1 ++ b2). rewrite zlen_app. split; [by eapply wrote_trans|]. split; [lia|].
  destruct r; [lia| |done]. unfold write_stop, write_errno in *. rewrite zlen_app. rewrite Ho1, Hs1, <- !Z.add_assoc in Hr.
  destruct Hr as (Hlt & Hb & He). pose proof (zlen_nonneg b2). split; [lia|]. split; [|done].
  right. destruct Hb as [Hb|Hb]; [|done]. rewrite Hb, Z.add_0_r. apply Hal. lia.
Qed.

Lemma write_post_refl f sv s : io_req f sv s UIO_WRITE → write_post f sv s 0 (Ret ()) ((f, sv), s).
Proof.
  intros []. exists []. split; [|done]. apply quiet_wrote; [done|by apply quiet_refl].
Qed.

(** A larger request that failed in the same way. *)
Lemma write_post_weaken f sv s n n' e p :
  n ≤ n' → write_post f sv s n (Fail e) p → write_post f sv s n' (Fail e) p.
Proof. intros Hn (bs & Hw & Hle & He). exists bs. split; [done|]. split; [lia|]. unfold write_stop, write_errno in *. intuition lia. Qed.

Lemma blocks_write_spec f sv s nb :
  io_req f sv s UIO_WRITE → uio_offset (u s) mod SFS_BLOCKSIZE = 0 → 0 ≤ nb →
  nb * SFS_BLOCKSIZE ≤ uio_resid (u s) →
  wp (forM (seqZ 0 nb) (λ _, sfs_blockio)) (write_post f sv s (nb * SFS_BLOCKSIZE)) ((f, sv), s).
Proof.
  intros Hreq Hal Hnb Hle. assert (SFS_BLOCKSIZE = 512) as HB by done.
  apply (wp_forM _ _ (λ j p, write_post f sv s (Z.of_nat j * SFS_BLOCKSIZE) (Ret ()) p)).
  - by apply write_post_refl.
  - intros j x [[f1 sv1] s1] [_ Hj]%lookup_seqZ (b1 & Hw1 & _ & Hb1). simpl in Hw1.
    destruct (io_req_wrote _ _ _ _ _ _ _ Hreq ltac:(rewrite Hb1; lia) Hw1) as (Hreq1 & Ho1 & Hr1 & _).
    eapply wp_mono; [apply blockio_write_spec; [done| |rewrite Hr1; lia]|].
    { rewrite Ho1, Hb1. rewrite Z.mod_add by done. done. }
    intros r p Hpost.
    assert (write_post f sv s (zlen b1 + SFS_BLOCKSIZE) r p) as Ht
      by (eapply write_post_trans; [done|lia| |done..]; intros _; by rewrite Hb1, Z.mod_add).
    destruct r as [[]|e|]; [| |by destruct Ht as (? & _ & _ & [])].
    + by replace (Z.of_nat (S j) * SFS_BLOCKSIZE) with (zlen b1 + SFS_BLOCKSIZE) by lia.
    + eapply write_post_weaken; [|done]. lia.
  - intros p Hpost. rewrite length_seqZ_nat, Z2Nat.id in Hpost by done. done.
Qed.

Lemma io_aligned_write_spec f sv s :
  io_req f sv s UIO_WRITE → uio_offset (u s) mod SFS_BLOCKSIZE = 0 →
  wp sfs_io_aligned (write_post f sv s (uio_resid (u s))) ((f, sv), s).
Proof.
  intros Hreq Hal. assert (SFS_BLOCKSIZE = 512) as HB by done.
  destruct (rem_off _ _ _ _ Hreq) as [Hrem _]. pose proof (ok_resid _ (ir_ok _ _ _ _ Hreq)) as Hres.
  pose proof (Z.div_mod (uio_resid (u s)) SFS_BLOCKSIZE ltac:(done)) as Hdm.
  pose proof (Z.mod_pos_bound (uio_resid (u s)) SFS_BLOCKSIZE ltac:(done)) as Hmb.
  pose proof (Z.div_pos (uio_resid (u s)) SFS_BLOCKSIZE ltac:(lia) ltac:(done)) as Hdp.
  set (nb := uio_resid (u s) / SFS_BLOCKSIZE) in *. set (m := uio_resid (u s) mod SFS_BLOCKSIZE) in *.
  unfold sfs_io_aligned. wp_step. wp_step. cbn [snd]. wp_step.
  apply wp_assert; [rewrite Hrem; lia|]. fold nb. wp_step.
  eapply wp_mono; [apply blocks_write_spec; [done|done|lia|lia]|].
  intros r [[f1 sv1] s1] Hpost.
  destruct r as [[]|e|]; [|eapply write_post_weaken; [|exact Hpost]; lia|by destruct Hpost as (? & _ & _ & [])].
  destruct Hpost as (b1 & Hw1 & _ & Hb1). simpl in Hw1.
  destruct (io_req_wrote _ _ _ _ _ _ _ Hreq ltac:(rewrite Hb1; lia) Hw1) as (Hreq1 & Ho1 & Hr1 & _).
  wp_steps. cbn [snd]. apply wp_assert; [lia|]. rewrite Z.gtb_ltb.
  assert (∀ r p, write_post f1 sv1 s1 m r p → write_post f sv s (uio_resid (u s)) r p) as Hmono.
  { intros r p Hp. replace (uio_resid (u s)) with (zlen b1 + m) by lia.
    eapply write_post_trans; [done|lia| |done..]. intros _. by rewrite Hb1, Z.mod_add. }
  destruct (Z.ltb_spec 0 (uio_resid (u s1))) as [Hpos|Hz].
  - replace (uio_resid (u s1)) with m by lia.
    assert (uio_offset (u s1) mod SFS_BLOCKSIZE = 0) as Hal1.
    { rewrite Ho1, Hb1, Z.mod_add by done. done. }
    eapply wp_mono; [|exact Hmono]. rewrite <- Hal1. apply partialio_write_spec; [done|lia|lia].
  - wp_step. apply Hmono. replace m with 0 by lia. by apply write_post_refl.
Qed.

(** The whole transfer of a write. *)
Lemma io_blocks_write_spec f sv s :
  io_req f sv s UIO_WRITE → 0 < uio_resid (u s) →
  wp sfs_io_blocks (write_post f sv s (uio_resid (u s))) ((f, sv), s).
Proof.
  intros Hreq Hpos. assert (SFS_BLOCKSIZE = 512) as HB by done.
  destruct (rem_off _ _ _ _ Hreq) as [Hrem Hmod].
  unfold sfs_io_blocks. wp_step. wp_step. cbn [snd]. rewrite Hrem, u32_small by (unfold is_u32; lia).
  set (off := uio_offset (u s)) in *.
  destruct (Z.eqb_spec (off mod SFS_BLOCKSIZE) 0) as [Hz|Hnz]; cbn [negb].
  { wp_steps. cbn [snd]. rewrite (proj2 (Z.eqb_neq _ _)) by lia. by apply io_aligned_write_spec. }
  set (len := if SFS_BLOCKSIZE - off mod SFS_BLOCKSIZE >? uio_resid (u s)
              then uio_resid (u s) else SFS_BLOCKSIZE - off mod SFS_BLOCKSIZE).
  assert (len = Z.min (SFS_BLOCKSIZE - off mod SFS_BLOCKSIZE) (uio_resid (u s))) as Hlen
    by (unfold len; rewrite Z.gtb_ltb; case_match; lia).
  clearbody len. wp_step. eapply wp_mono; [apply partialio_write_spec; [done|lia|unfold off in *; lia]|].
  intros r [[f1 sv1] s1] Hpost.
  destruct r as [[]|e|]; [|eapply write_post_weaken; [|exact Hpost]; lia|by destruct Hpost as (? & _ & _ & [])].
  destruct Hpost as (b1 & Hw1 & _ & Hb1). simpl in Hw1.
  destruct (io_req_wrote _ _ _ _ _ _ _ Hreq ltac:(rewrite Hb1; lia) Hw1) as (Hreq1 & Ho1 & Hr1 & _).
  assert (∀ r p, write_post f1 sv1 s1 (uio_resid (u s1)) r p →
    write_post f sv s (uio_resid (u s)) r p) as Hmono.
  { intros r p Hp. replace (uio_resid (u s)) with (zlen b1 + uio_resid (u s1)) by lia.
    eapply write_post_trans; [done|lia| |done..]. intros Hn0. fold off.
    unfold SFS_BLOCKSIZE in *. Z.div_mod_to_equations; lia. }
  wp_step. wp_step. cbn [snd]. destruct (Z.eqb_spec (uio_resid (u s1)) 0) as [Hz1|Hnz1].
  - wp_step. apply Hmono. rewrite Hz1. by apply write_post_refl.
  - eapply wp_mono; [|exact Hmono]. apply io_aligned_write_spec; [done|].
    rewrite Ho1. fold off. unfold SFS_BLOCKSIZE in *. Z.div_mod_to_equations; lia.
Qed.

(** Setting the size does not change the blocks of the file. *)
Lemma set_size_file_ok f i n : file_ok f i → is_u32 n → file_ok f (set_size n i).
Proof. intros [[] Hr Hu Hd] Hn. split; [by split|exact Hr|exact Hu|exact Hd]. Qed.

Lemma set_size_step f sv n :
  fs_ok f → file_ok f (sv_i sv) → is_u32 n → svstep f sv f (set_inode (set_size n (sv_i sv)) sv).
Proof.
  intros Hfs Hok Hn. split; [|done..]. split; [done|by apply set_size_file_ok|done..|apply map_step_refl].
Qed.

(** The bytes [bs] of the caller's memory are in the file at the offset of
    the request, and the file ends no earlier than after them. *)
Record file_written f sv s (bs : list Z) f' sv' s' : Prop := {
  fw_step : svstep f sv f' sv';
  fw_size : sfi_size (sv_i sv') = Z.max (sfi_size (sv_i sv)) (uio_offset (u s) + zlen bs);
  fw_bytes : ∀ o, 0 ≤ o < MAXBYTES →
    fbyte f' (sv_i sv') o =
      if decide (uio_offset (u s) ≤ o < uio_offset (u s) + zlen bs)
      then default 0 (bs !z (o - uio_offset (u s))) else fbyte f (sv_i sv) o;
  fw_moved : moved_out s bs s';
  fw_ok : uio_ok s';
  fw_fits : zlen bs = 0 ∨ uio_offset (u s) + zlen bs ≤ MAXBYTES;
}.

Lemma io_out_write f sv s bs f1 sv1 s1 Q :
  io_req f sv s UIO_WRITE → sfi_size (sv_i sv) < 2 ^ 31 → zlen bs ≤ uio_resid (u s) →
  wrote f sv s bs f1 sv1 s1 →
  (∀ sv2, file_written f sv s bs f1 sv2 s1 → Q (Ret ()) ((f1, sv2), s1)) →
  wp (sfs_io_out 0) Q ((f1, sv1), s1).
Proof.
  intros Hreq Hsz Hle Hw HQ. destruct (io_req_wrote _ _ _ _ _ _ _ Hreq Hle Hw) as (Hreq1 & Ho1 & Hr1 & _).
  destruct Hw as [Hst Hsize Hby Hmv Hok1 Hfit]. destruct (Hreq1).
  pose proof (io_size _ (fl_inode _ _ (ir_file _ _ _ _ Hreq))) as Hu. unfold is_u32 in Hu.
  pose proof (ok_resid _ ir_ok0). pose proof (ok_len _ ir_ok0) as Hl. unfold is_u32 in Hl.
  assert (update_uio (λ x, set_off_resid (uio_offset x) (u32 (uio_resid x + 0)) x) s1 = s1) as Hid.
  { unfold update_uio, set_u. rewrite Z.add_0_r, u32_small by (unfold is_u32; lia).
    by destruct s1 as [[] ? ?]. }
  unfold sfs_io_out. wp_step. wp_step. wp_step. cbn [fst snd]. rewrite ir_dir0, Hsize, s32_small by lia.
  destruct (decide _) as [[_ Hgt]|Hngt].
  - wp_steps. cbn [fst snd]. rewrite Hid, u32_small by (unfold is_u32; lia). apply HQ. split; try done.
    + eapply svstep_trans; [exact Hst|]. apply set_size_step; [done|done|unfold is_u32; lia].
    + simpl. lia.
  - wp_steps. cbn [fst snd]. rewrite Hid. apply HQ. split; try done. rewrite Hsize.
    assert (¬ uio_offset (u s1) > sfi_size (sv_i sv)) by naive_solver. lia.
Qed.

(** What a write of the request does; an error keeps the part done. *)
Definition sfs_write_post f sv s (r : result unit) (p : (sfs_fs D * sfs_vnode) * uiost) : Prop :=
  ∃ bs, file_written f sv s bs p.1.1 p.1.2 p.2 ∧ zlen bs ≤ uio_resid (u s) ∧
  match r with
  | Ret _ => zlen bs = uio_resid (u s)
  | Fail e => write_stop s (uio_resid (u s)) bs e
  | Halt _ => False
  end.

Lemma sfs_io_write_spec f sv s :
  io_req f sv s UIO_WRITE → 0 < uio_resid (u s) → sfi_size (sv_i sv) < 2 ^ 31 →
  wp sfs_io (sfs_write_post f sv s) ((f, sv), s).
Proof.
  intros Hreq Hpos Hsz. unfold sfs_io. wp_step. wp_step. cbn [fst snd].
  rewrite (ir_dir _ _ _ _ Hreq). unfold sfs_io_from. wp_steps.
  eapply wp_mono; [by apply io_blocks_write_spec|].
  intros r [[f1 sv1] s1] (bs & Hw & Hle & Hr). simpl in Hw.
  destruct r as [[]|e|]; [| |done]; wp_step;
    (eapply (io_out_write f sv s bs); [done|done|done|exact Hw|]); intros sv2 Hfw.
  - exists bs. done.
  - exists bs. done.
Qed.
End specs.
