(* ===== verification/SfsSpec.v ===== *)
(** * SFS: properties of file I/O

    The theorems about reading and writing files, and a small volume on which
    their hypotheses are checked by evaluation. *)

From S2P Require Import Prelude Bitmap CopyInOut Uio Device Lhd SfsDisk Vnode Sfs SfsMap SfsFile.

Section properties.
Context {D : Type} `{BlockDeviceLaws D} `{!ReliableWrites D}.
Implicit Types (f : sfs_fs D) (i : sfs_inode) (sv : sfs_vnode) (s : uiost).
Abbreviation blk f b := (sector (sfs_device f) b).

(** C6: [sfs_read] delivers the bytes of the file.  For a well-formed file and
    request it never panics; it moves exactly the bytes of the file from the
    offset of the request up to its length or the end of the file, and changes
    neither the disk nor the file.  Its errors are EIO from the disk, EFAULT
    from user memory, and EINVAL beyond the largest file SFS can map. *)
Theorem sfs_read_correct f sv s :
  io_req f sv s UIO_READ → 0 < uio_resid (u s) → sfi_size (sv_i sv) < 2 ^ 31 →
  match sfs_read ((f, sv), s) with
  | (r, ((f', sv'), s')) =>
      sv' = sv ∧ (∀ b, blk f' b = blk f b) ∧ sfs_freemap f' = sfs_freemap f ∧
      let n := read_len (sv_i sv) (uio_offset (u s)) (uio_resid (u s)) in
      match r with
      | Ret _ => moved_in s (frange f (sv_i sv) (uio_offset (u s)) n) s' ∧ uio_ok s'
      | Fail e => e = EIO ∨ e = EFAULT ∧ uio_segflg (u s) ≠ UIO_SYSSPACE ∨
                  e = EINVAL ∧ MAXBYTES < uio_offset (u s) + n
      | Halt _ => False
      end
  end.
Proof.
  intros Hreq Hpos Hsz. assert (wp sfs_read (read_post f sv s
    (read_len (sv_i sv) (uio_offset (u s)) (uio_resid (u s)))) ((f, sv), s)) as Hwp.
  { unfold sfs_read. wp_steps. apply wp_assert; [apply bool_decide_eq_true_2, Hreq|].
    apply sfs_io_read_spec; [done|lia|done]. }
  unfold wp in Hwp. destruct (sfs_read ((f, sv), s)) as [r [[f' sv'] s']].
  destruct Hwp as [(d' & (_ & _ & Hsec) & [= -> ->] & _) Hr]. split_and!; [done|apply Hsec|done|exact Hr].
Qed.

(** C3: [sfs_write] puts the caller's bytes into the file, on a disk none of
    whose writes fails (reads of it may), for a request of one byte or more that
    ends below 2^31 and a well-formed file smaller than that.  On success the
    file holds them from the offset of the request on, every other byte is as it
    was, and the size is the old size or the end of the write, whichever is
    larger.  An error (no space, a block that cannot be read, user memory, file
    too large) leaves the same for the part already written, which ends at the
    end of a block.  The file system and the file stay well formed, and every
    block in use that is not the file's keeps its contents. *)
Theorem sfs_write_correct f sv s :
  io_req f sv s UIO_WRITE → 0 < uio_resid (u s) → sfi_size (sv_i sv) < 2 ^ 31 →
  match sfs_write ((f, sv), s) with
  | (r, ((f', sv'), s')) =>
      ∃ bs, zlen bs ≤ uio_resid (u s) ∧ moved_out s bs s' ∧ uio_ok s' ∧
      fs_ok f' ∧ file_ok f' (sv_i sv') ∧
      sfi_size (sv_i sv') = Z.max (sfi_size (sv_i sv)) (uio_offset (u s) + zlen bs) ∧
      (∀ o, 0 ≤ o < MAXBYTES → fbyte f' (sv_i sv') o =
         if decide (uio_offset (u s) ≤ o < uio_offset (u s) + zlen bs)
         then default 0 (bs !z (o - uio_offset (u s))) else fbyte f (sv_i sv) o) ∧
      (∀ b, 0 ≤ b → bit (sfs_freemap f) b = true → ¬ owns f (sv_i sv) b → blk f' b = blk f b) ∧
      match r with
      | Ret _ => zlen bs = uio_resid (u s)
      | Fail e => zlen bs < uio_resid (u s) ∧
                  (zlen bs = 0 ∨ (uio_offset (u s) + zlen bs) mod SFS_BLOCKSIZE = 0) ∧
                 (e = EIO ∨ e = ENOSPC ∨ e = EFAULT ∧ uio_segflg (u s) ≠ UIO_SYSSPACE ∨
                  e = EINVAL ∧ MAXBYTES < uio_offset (u s) + uio_resid (u s))
      | Halt _ => False
      end
  end.
Proof.
  intros Hreq Hpos Hsz. assert (wp sfs_write (sfs_write_post f sv s) ((f, sv), s)) as Hwp.
  { unfold sfs_write. wp_steps. apply wp_assert; [apply bool_decide_eq_true_2, Hreq|].
    by apply sfs_io_write_spec. }
  unfold wp in Hwp. destruct (sfs_write ((f, sv), s)) as [r [[f' sv'] s']].
  destruct Hwp as (bs & [[[] _ _ _] Hsize Hby Hmv Hok _] & Hle & Hr). exists bs. split_and!; try done.
  intros b Hb Hu Hn. by apply fs_frame.
Qed.

Lemma read_len_id i off n : 0 < n → off + n ≤ sfi_size i → read_len i off n = n.
Proof. intros. unfold read_len. lia. Qed.

(** what was written is what is read.  When a write of a request succeeds
    and a read of the same range of the file succeeds after it, the read stores
    in the reader's memory exactly the bytes the writer's memory held. *)
Theorem sfs_write_read_roundtrip f sv s f1 sv1 s1 s2 f3 sv3 s3 :
  io_req f sv s UIO_WRITE → 0 < uio_resid (u s) → sfi_size (sv_i sv) < 2 ^ 31 →
  uio_offset (u s) + uio_resid (u s) ≤ MAXBYTES →
  sfs_write ((f, sv), s) = (Ret (), ((f1, sv1), s1)) →
  uio_ok s2 → uio_dir (u s2) = UIO_READ → uio_offset (u s2) = uio_offset (u s) →
  uio_resid (u s2) = uio_resid (u s) →
  sfs_read ((f1, sv1), s2) = (Ret (), ((f3, sv3), s3)) →
  ∃ bs, zlen bs = uio_resid (u s) ∧ bytes_at (mem s) (iov_base (u s)) bs ∧
        stored (mem s2) (iov_base (u s2)) bs (mem s3).
Proof.
  intros Hreq Hpos Hsz Hmax Hwrite Hok2 Hdir2 Hoff2 Hres2 Hread.
  assert (wp sfs_io (sfs_write_post f sv s) ((f, sv), s)) as Hwp by (by apply sfs_io_write_spec).
  unfold sfs_write, mbind, M_bind, get, assert in Hwrite. simpl in Hwrite.
  rewrite (ir_dir _ _ _ _ Hreq) in Hwrite. simpl in Hwrite. unfold wp in Hwp. rewrite Hwrite in Hwp.
  destruct Hwp as (bs & [Hst Hsize Hby [Hat _] _ _] & _ & Hlen). simpl in *.
  destruct (Hst) as [[Hfs1 Hok1 _ _ _ _ _] _ _ _].
  assert (io_req f1 sv1 s2 UIO_READ) as Hreq2.
  { destruct Hreq. split; try done; rewrite Hoff2, ?Hres2; lia. }
  assert (wp sfs_io (read_post f1 sv1 s2 (read_len (sv_i sv1) (uio_offset (u s2)) (uio_resid (u s2))))
    ((f1, sv1), s2)) as Hrp.
  { apply sfs_io_read_spec; [done|lia|]. destruct Hreq. lia. }
  unfold sfs_read, mbind, M_bind, get, assert in Hread. simpl in Hread. rewrite Hdir2 in Hread.
  simpl in Hread. unfold wp in Hrp. rewrite Hread in Hrp. destruct Hrp as [_ [Hmv _]]. simpl in Hmv.
  rewrite read_len_id, Hoff2, Hres2 in Hmv by lia.
  exists bs. split_and!; [done|done|].
  replace bs with (frange f1 (sv_i sv1) (uio_offset (u s)) (uio_resid (u s))); [apply Hmv|].
  apply list_eq_same_length with (length bs); [done|..].
  - pose proof (frange_len f1 (sv_i sv1) (uio_offset (u s)) (uio_resid (u s))). unfold zlen in *. lia.
  - intros j x y Hj Hx Hy. unfold frange in Hx.
    apply list_lookup_fmap_Some in Hx as (z & -> & [-> Hz]%lookup_seqZ). destruct Hreq.
    rewrite Hby, decide_True by lia.
    replace (uio_offset (u s) + (0 + Z.of_nat j) - uio_offset (u s)) with (Z.of_nat j) by lia.
    by rewrite zlookup_nat, Nat2Z.id, Hy by lia.
Qed.

(** files do not disturb each other.  A write to one file leaves every other
    file that shares no block with it well formed and with the same bytes. *)
Theorem sfs_write_isolation f sv s r f' sv' s' j :
  io_req f sv s UIO_WRITE → 0 < uio_resid (u s) → sfi_size (sv_i sv) < 2 ^ 31 →
  file_ok f j → (∀ b, owns f j b → ¬ owns f (sv_i sv) b) →
  sfs_write ((f, sv), s) = (r, ((f', sv'), s')) →
  file_ok f' j ∧ (∀ o, 0 ≤ o < MAXBYTES → fbyte f' j o = fbyte f j o) ∧
  (∀ b, owns f' j b → ¬ owns f' (sv_i sv') b).
Proof.
  intros Hreq Hpos Hsz Hj Hdisj Hwrite.
  assert (wp sfs_io (sfs_write_post f sv s) ((f, sv), s)) as Hwp by (by apply sfs_io_write_spec).
  unfold sfs_write, mbind, M_bind, get, assert in Hwrite. simpl in Hwrite.
  rewrite (ir_dir _ _ _ _ Hreq) in Hwrite. simpl in Hwrite. unfold wp in Hwp. rewrite Hwrite in Hwp.
  destruct Hwp as (bs & [[[Hfs' Hok' Hsb _ _ Hgrow Hframe] _ _ _] _ _ _ _ _] & _). simpl in *.
  assert (∀ b, owns f j b → 0 ≤ b ∧ bit (sfs_freemap f) b = true) as Hown.
  { intros b (Hne & k & Hk & <-). split; [apply (fl_range _ _ Hj k Hk)|by apply (fl_used _ _ Hj)]. }
  destruct (file_stable f f' j Hj Hsb) as (Hokj & Hfb & Hbj).
  { intros b Hb Ho. destruct (Hown b Ho) as [Hb0 Hu].
    split; [apply Hframe; auto|apply Hgrow; auto]. }
  split_and!; [done|done|]. intros b Ho.
  assert (owns f j b) as Ho' by (unfold owns in *; by setoid_rewrite Hfb in Ho).
  destruct (Hown b Ho') as [Hb0 Hu]. apply Hframe; auto.
Qed.
End properties.

(** ** Checking the invariants by evaluation *)

Section checker.
Context {D : Type} `{BlockDeviceLaws D}.
Implicit Types (f : sfs_fs D) (i : sfs_inode).

Definition all_range (lo n : Z) (p : Z → bool) : bool := forallb p (seqZ lo n).

Lemma all_range_spec lo n p : all_range lo n p = true → ∀ k, lo ≤ k < lo + n → p k = true.
Proof.
  intros Hall k Hk. unfold all_range in Hall. rewrite forallb_forall in Hall. apply Hall.
  apply list_elem_of_In. apply elem_of_seqZ. lia.
Qed.

(** The blocks of a file, and whether they are as [file_ok] asks. *)
Definition file_blocks f i : list (Z * Z) := (λ k, (k, fblock f i k)) <$> seqZ 0 (MAXBLOCKS + 1).

Definition blocks_ok f (bs : list (Z * Z)) : bool :=
  forallb (λ p, (0 <=? p.2) && (p.2 <? sp_nblocks (sfs_sb f)) &&
                ((p.2 =? 0) || bit (sfs_freemap f) p.2)) bs &&
  forallb (λ p, forallb (λ q, (p.2 =? 0) || negb (p.2 =? q.2) || (p.1 =? q.1)) bs) bs.

Lemma file_ok_check f i :
  inode_ok i → blocks_ok f (file_blocks f i) = true → file_ok f i.
Proof.
  intros Hi [H1 H2]%andb_true_iff. rewrite forallb_forall in H1, H2.
  assert (∀ k, 0 ≤ k ≤ MAXBLOCKS → In (k, fblock f i k) (file_blocks f i)) as Hin.
  { intros k Hk. apply list_elem_of_In. unfold file_blocks. apply list_elem_of_fmap. exists k.
    split; [done|]. apply elem_of_seqZ. lia. }
  split; [done|..].
  - intros k Hk. specialize (H1 _ (Hin k Hk)). simpl in H1. lia.
  - intros k Hk Hne. specialize (H1 _ (Hin k Hk)). simpl in H1.
    apply andb_true_iff in H1 as [_ H1]. rewrite (proj2 (Z.eqb_neq _ _)) in H1 by done. done.
  - intros j k Hj Hk Heq Hne. specialize (H2 _ (Hin j Hj)). rewrite forallb_forall in H2.
    specialize (H2 _ (Hin k Hk)). simpl in H2. rewrite Heq in *.
    rewrite (proj2 (Z.eqb_neq _ 0)), Z.eqb_refl in H2 by done. simpl in H2. lia.
Qed.
End checker.

(** ** A small volume

    Twelve blocks: superblock, root inode, free map, then a file of 600 bytes
    with inode 3, direct blocks 4 and 7, and indirect block 5 with data block 6;
    blocks 8 to 11 are free, or in use in [full_fs]. *)

Definition example_inode : sfs_inode :=
  {| sfi_size := 600; sfi_type := SFS_TYPE_FILE; sfi_linkcount := 1;
     sfi_direct := [4; 7] ++ replicate 13 0; sfi_indirect := 5; sfi_waste := replicate 110 0 |}.

Definition example_super : sfs_super :=
  {| sp_magic := SFS_MAGIC; sp_nblocks := 12; sp_volname := replicate 32 0; sp_reserved := replicate 118 0 |}.

Definition example_sectors : list (list Z) :=
  [encode_super example_super; []; [255; 240]; encode_inode example_inode; replicate 512 65;
   encode_words (6 :: replicate 127 0); replicate 512 67; replicate 512 66; []; []; []; []].

Definition example_drive (faults : list bool) : lhd_softc ramcard :=
  {| lh_hw := {| rc_sectors := example_sectors; rc_faults := faults |};
     lh_buf := replicate 512 0; lh_reg_sect := 0; lh_reg_stat := 0; lh_result := None;
     lh_clear := 1; lh_done := 0; lh_blocks := 12 |}.

Definition example_fs (faults : list bool) (mapbyte : Z) : sfs_fs (lhd_softc ramcard) :=
  {| sfs_device := example_drive faults; sfs_sb := example_super; sfs_superdirty := false;
     sfs_freemap := {| nbits := 12; v := [255; mapbyte] |}; sfs_freemapdirty := false |}.

Definition example_vnode : sfs_vnode :=
  {| sv_v := {| vn_refcount := 1; vn_opencount := 1; vn_countlock := true; vn_ops := Some sfs_fileops |};
     sv_i := example_inode; sv_ino := 3; sv_dirty := false |}.

Lemma example_fs_ok faults : fs_ok (example_fs faults 240).
Proof.
  assert (∀ b, 12 ≤ b < 16 → bit {| nbits := 12; v := [255; 240] |} b = true) as Htail.
  { intros b Hb. apply (all_range_spec 12 4 (bit {| nbits := 12; v := [255; 240] |})); [done|lia]. }
  split; [split; done|done|done| |done|simpl; lia|done].
  split; [done|done|repeat constructor; done|exact Htail].
Qed.

Lemma example_inode_ok : inode_ok example_inode.
Proof.
  split; try done; (split; [done|]); apply Forall_forall; intros x Hx;
    repeat (apply elem_of_cons in Hx as [->|Hx]; [done|]); by apply elem_of_nil in Hx.
Qed.

Lemma example_file_ok faults : file_ok (example_fs faults 240) example_inode.
Proof. apply file_ok_check; [exact example_inode_ok|vm_compute; reflexivity]. Qed.

(** A request of 20 bytes across the end of the first block. *)
Definition example_io (rw : uio_rw) : uiost := kbuf_request (seqZ 1 20) 500 rw.

Lemma example_io_req faults rw : io_req (example_fs faults 240) example_vnode (example_io rw) rw.
Proof.
  split; [apply example_fs_ok|apply example_file_ok| |done|done|done].
  apply kbuf_request_ok; vm_compute; [done|split; [congruence|done]].
Qed.

Lemma example_io_size : 0 < uio_resid (u (example_io UIO_READ)) ∧ sfi_size (sv_i example_vnode) < 2 ^ 31.
Proof. done. Qed.

Lemma sfs_read_correct_witness :
  (sfs_read ((example_fs [true] 240, example_vnode), example_io UIO_READ)).2.1.2 = example_vnode.
Proof.
  pose proof (sfs_read_correct (example_fs [true] 240) example_vnode (example_io UIO_READ)
    (example_io_req [true] UIO_READ) eq_refl eq_refl) as Hread.
  destruct (sfs_read _) as [r [[f' sv'] s']]. apply Hread.
Defined.

Lemma sfs_write_correct_witness :
  fs_ok (sfs_write ((example_fs [] 240, example_vnode), example_io UIO_WRITE)).2.1.1.
Proof.
  pose proof (sfs_write_correct (example_fs [] 240) example_vnode (example_io UIO_WRITE)
    (example_io_req [] UIO_WRITE) eq_refl eq_refl) as Hwrite.
  destruct (sfs_write _) as [r [[f' sv'] s']]. destruct Hwrite as (bs & _ & _ & _ & Hfs & _). exact Hfs.
Defined.

Definition written_state := (sfs_write ((example_fs [] 240, example_vnode), example_io UIO_WRITE)).2.
Definition read_back := sfs_read (written_state.1, kbuf_request (replicate 20 0) 500 UIO_READ).

Lemma run_state {A B} (m : result A * B) a : m.1 = Ret a → m = (Ret a, m.2).
Proof. destruct m as [r b]. simpl. by intros ->. Qed.

Lemma sfs_write_read_roundtrip_witness :
  ∃ bs, zlen bs = 20 ∧ bytes_at (kernel_buffer (seqZ 1 20)) KBASE bs ∧
        stored (kernel_buffer (replicate 20 0)) KBASE bs (mem read_back.2.2).
Proof.
  apply (sfs_write_read_roundtrip (example_fs [] 240) example_vnode (example_io UIO_WRITE)
    written_state.1.1 written_state.1.2 written_state.2 (kbuf_request (replicate 20 0) 500 UIO_READ)
    read_back.2.1.1 read_back.2.1.2 read_back.2.2).
  - apply example_io_req.
  - reflexivity.
  - reflexivity.
  - vm_compute. discriminate.
  - vm_compute. reflexivity.
  - apply kbuf_request_ok; vm_compute; [reflexivity|split; [discriminate|reflexivity]].
  - reflexivity.
  - reflexivity.
  - reflexivity.
  - vm_compute. reflexivity.
Defined.

(** Another file of the volume, with the block 6 as its only block; the first
    file without its indirect block. *)
Definition small_inode (d : list Z) : sfs_inode :=
  {| sfi_size := 512; sfi_type := SFS_TYPE_FILE; sfi_linkcount := 1;
     sfi_direct := d; sfi_indirect := 0; sfi_waste := replicate 110 0 |}.
Definition small_vnode : sfs_vnode :=
  {| sv_v := sv_v example_vnode; sv_i := small_inode ([4; 7] ++ replicate 13 0); sv_ino := 3; sv_dirty := false |}.
Definition other_inode : sfs_inode := small_inode (6 :: replicate 14 0).

Lemma small_inode_ok d : length d = 15%nat → Forall is_u32 d → inode_ok (small_inode d).
Proof. intros Hl Hd. split; try done; split; [done|]. apply Forall_replicate. done. Qed.

Lemma small_file_ok b0 b1 :
  is_u32 b0 → is_u32 b1 →
  blocks_ok (example_fs [] 240) (file_blocks (example_fs [] 240) (small_inode (b0 :: b1 :: replicate 13 0))) = true →
  file_ok (example_fs [] 240) (small_inode (b0 :: b1 :: replicate 13 0)).
Proof.
  intros Hb0 Hb1 Hc. apply file_ok_check; [|done]. apply small_inode_ok; [done|].
  constructor; [done|]. constructor; [done|]. apply Forall_replicate. done.
Qed.

Definition isolated_write := sfs_write ((example_fs [] 240, small_vnode), example_io UIO_WRITE).

Lemma small_disjoint b :
  owns (example_fs [] 240) other_inode b → ¬ owns (example_fs [] 240) (sv_i small_vnode) b.
Proof.
  intros (Hne & k & Hk & <-) (_ & j & Hj & Heq).
  assert (all_range 0 144 (λ k, all_range 0 144 (λ j,
    (fblock (example_fs [] 240) other_inode k =? 0) ||
    negb (fblock (example_fs [] 240) (sv_i small_vnode) j =? fblock (example_fs [] 240) other_inode k))) = true)
    as Hall by (vm_compute; reflexivity).
  unfold MAXBLOCKS in *.
  pose proof (all_range_spec _ _ _ (all_range_spec _ _ _ Hall k ltac:(lia)) j ltac:(lia)) as Hc. cbv beta in Hc.
  rewrite Heq, Z.eqb_refl, (proj2 (Z.eqb_neq _ 0)) in Hc by done. done.
Qed.

Lemma sfs_write_isolation_witness :
  file_ok isolated_write.2.1.1 other_inode ∧
  (∀ o, 0 ≤ o < MAXBYTES → fbyte isolated_write.2.1.1 other_inode o = fbyte (example_fs [] 240) other_inode o) ∧
  (∀ b, owns isolated_write.2.1.1 other_inode b → ¬ owns isolated_write.2.1.1 (sv_i isolated_write.2.1.2) b).
Proof.
  apply (sfs_write_isolation (example_fs [] 240) small_vnode (example_io UIO_WRITE) isolated_write.1
    isolated_write.2.1.1 isolated_write.2.1.2 isolated_write.2.2).
  - split; [apply example_fs_ok|apply (small_file_ok 4 7); [done..|vm_compute; reflexivity]| |done|done|done].
    apply kbuf_request_ok; vm_compute; [done|split; [discriminate|done]].
  - reflexivity.
  - reflexivity.
  - apply (small_file_ok 6 0); [done..|vm_compute; reflexivity].
  - apply small_disjoint.
  - vm_compute. reflexivity.
Defined.
