(* ===== verification/SfsFault.v ===== *)
(** * SFS on a disk that fails to write
    (kern/fs/sfs/sfs_io.c over kern/dev/lamebus/lhd.c)

    The driver moves the caller's bytes to the card before it starts the card,
    so a write that fails with EIO has used up the request.  [sfs_rwblock] then
    repeats the call with the same request, of which nothing is left; the driver
    has nothing to do and returns success.  A failed write is never reported. *)

From S2P Require Import Prelude Bitmap CopyInOut Uio Device Lhd SfsDisk Vnode Sfs SfsMap SfsFile SfsSpec.

Section lost.
Context {HW : Type} `{LhdHardwareLaws HW}.
Implicit Types (l : lhd_softc HW) (f : sfs_fs (lhd_softc HW)).

(** A request of which nothing is left, at most at the end of the disk. *)
Lemma lhd_io_nothing l s b Q :
  lhd_ok l → uio_resid (u s) = 0 → uio_offset (u s) = b * SECTSIZE → 0 ≤ b ≤ lh_blocks l →
  Q (Ret ()) (l, s) → wp lhd_io Q (l, s).
Proof.
  intros Hl Hres Hoff Hb HQ. pose proof (lok_range _ Hl). unfold lhd_io. wp_step. wp_step. simpl. rewrite Hoff, Hres.
  unfold SECTSIZE, LHD_SECTSIZE in *. rewrite Z.quot_mul, Z.rem_mul by lia. simpl. change (0 / 512) with 0.
  rewrite Z.add_0_r, !(u32_small b) by (unfold is_u32; lia). rewrite Z.gtb_ltb, (proj2 (Z.ltb_ge _ _)) by lia.
  change (seqZ 0 0) with (@nil Z). cbn [forM]. by wp_step.
Qed.

(** One attempt and the first retry. *)
Lemma rwblock_unreported n f s b Q :
  lhd_ok (sfs_device f) → sector_request s UIO_WRITE b → 0 ≤ b < lh_blocks (sfs_device f) → b < 2 ^ 22 - 1 →
  uio_segflg (u s) = UIO_SYSSPACE →
  (∀ l' s' bs code buf', lhd_ok l' → zlen bs = SECTSIZE → moved_out s bs s' →
     hw_run (lh_hw (sfs_device f)) b true bs = ((code, buf'), lh_hw l') → code = LHD_OK ∨ code = LHD_MEDIA →
     Q (Ret ()) (set_device l' f, s')) →
  wp (sfs_rwblock_retry (S n)) Q (f, s).
Proof.
  intros Hl Hrq Hb Hb2 Hseg HQ. cbn [sfs_rwblock_retry]. unfold sfs_d_io at 1. wp_steps. cbn [fst snd].
  apply (lhd_write_law _ _ b); [done..| |by intros ???? []|].
  - intros l' s' bs buf' Hl' Hbl Hbs Hrun _ Hmv _. wp_steps. eapply (HQ l' s' bs); eauto.
  - intros l' s' bs buf' Hl' Hbl Hbs Hrun _ Hmv _. wp_steps.
    assert (∀ Q', Q' (Ret ()) (l', s') → wp lhd_io Q' (l', s')) as Hnone.
    { intros Q' HQ'. destruct (Hmv) as [_ ->]. apply (lhd_io_nothing _ _ (b + 1)); [done| | |lia|done]; simpl.
      - by rewrite Hbs, (rq_resid _ _ _ Hrq).
      - rewrite Hbs, (rq_offset _ _ _ Hrq), s32_small; unfold SECTSIZE in *; lia. }
    destruct n; cbn [sfs_rwblock_retry]; unfold sfs_d_io at 1; wp_steps; cbn [fst snd];
      apply Hnone; wp_steps; eapply (HQ l' s' bs); eauto.
Qed.

(** Writing a block runs the card once and returns success, whatever status the
    card gives: after a media error the block holds what the failed operation
    left there, and the caller is told that its data is stored. *)
Theorem sfs_wblock_unreported f data b :
  lhd_ok (sfs_device f) → 0 ≤ b < lh_blocks (sfs_device f) → b < 2 ^ 22 - 1 → zlen data = SFS_BLOCKSIZE →
  ∃ l' code buf', sfs_wblock data b f = (Ret (), set_device l' f) ∧ lhd_ok l' ∧
    hw_run (lh_hw (sfs_device f)) b true data = ((code, buf'), lh_hw l') ∧ (code = LHD_OK ∨ code = LHD_MEDIA).
Proof.
  intros Hl Hb Hb2 Hlen.
  enough (wp (sfs_wblock data b) (returns (λ _ f', ∃ l' code buf', f' = set_device l' f ∧ lhd_ok l' ∧
    hw_run (lh_hw (sfs_device f)) b true data = ((code, buf'), lh_hw l') ∧ (code = LHD_OK ∨ code = LHD_MEDIA))) f) as Hwp.
  { apply wp_returns_run in Hwp as ([] & f' & Hrun & l' & code & buf' & -> & ?). eauto. }
  assert (∀ bs, zlen bs = SECTSIZE → bytes_at (kernel_buffer data) KBASE bs → bs = data) as Hdata.
  { intros bs Hbs Hat. eapply bytes_at_unique; [|exact Hat|apply kernel_buffer_at].
    unfold zlen, SECTSIZE, SFS_BLOCKSIZE in *. lia. }
  assert (sector_request (kbuf_request data (sfs_blockpos b) UIO_WRITE) UIO_WRITE b) as Hrq
    by (apply kbuf_sector_request; [done|lia]).
  unfold sfs_wblock, sfs_rwblock. wp_steps. apply with_kbuf_spec. apply (rwblock_unreported 9 _ _ b); [done..|].
  intros l' s' bs code buf' Hl' Hbs [Hat ->] Hrun Hcode. apply Hdata in Hat as ->; [|done].
  exists data. split; [done|]. split; [apply kernel_buffer_at|]. wp_steps. exists l', code, buf'. auto.
Qed.
End lost.

(** ** A write that is lost

    The volume of the examples on a drive whose next write fails. *)
Definition worn_fs (faults : list bool) : sfs_fs (lhd_softc worncard) :=
  {| sfs_device := {| lh_hw := {| wn_card := lh_hw (example_drive []); wn_faults := faults |};
                      lh_buf := replicate 512 0; lh_reg_sect := 0; lh_reg_stat := 0; lh_result := None;
                      lh_clear := 1; lh_done := 0; lh_blocks := 12 |};
     sfs_sb := example_super; sfs_superdirty := false;
     sfs_freemap := {| nbits := 12; v := [255; 240] |}; sfs_freemapdirty := false |}.

(** [sfs_write] of 20 bytes across the end of a block returns success with the
    whole request moved; the byte in the first block is the old one, that in the
    second block the new one. *)
Theorem sfs_write_lost :
  match sfs_write ((worn_fs [true], example_vnode), example_io UIO_WRITE) with
  | (Ret _, ((f', sv'), s')) =>
      uio_resid (u s') = 0 ∧ fbyte (worn_fs [true]) (sv_i example_vnode) 500 = 65 ∧
      fbyte f' (sv_i sv') 500 = 65 ∧ fbyte f' (sv_i sv') 512 = 13
  | _ => False
  end.
Proof. vm_compute. done. Qed.

Lemma sfs_wblock_unreported_witness :
  ∃ l' code buf', sfs_wblock (replicate 512 9) 6 (worn_fs [true]) = (Ret (), set_device l' (worn_fs [true])) ∧
    lhd_ok l' ∧ hw_run (lh_hw (sfs_device (worn_fs [true]))) 6 true (replicate 512 9) = ((code, buf'), lh_hw l') ∧
    (code = LHD_OK ∨ code = LHD_MEDIA).
Proof. apply (sfs_wblock_unreported (worn_fs [true]) (replicate 512 9) 6); [by split|simpl; lia|lia|done]. Defined.
