(* ===== verification/SfsTrunc.v ===== *)
(** * SFS: truncation and inode synchronisation (kern/fs/sfs/sfs_vnode.c)

    [sfs_truncate] frees the blocks past a new length, [sfs_fsync] writes the
    inode back.  The specification of truncation accounts for every block: the
    blocks marked free are exactly those the file had and no longer has. *)

From S2P Require Import Prelude Bitmap CopyInOut Uio Device Lhd SfsDisk Vnode Sfs SfsMap SfsFile SfsSpec.

Section ops.
Context {D : Type} `{BlockDevice D}.
Abbreviation st := (sfs_fs D * sfs_vnode)%type.

(** The loop over the direct blocks. *)
Definition trunc_direct (blocklen i : Z) : M st unit :=
  p ← get;
  block ← deref (sfi_direct (sv_i p.2) !z i);
  if (i >=? blocklen) && negb (block =? 0) then
    _ ← on_fst (sfs_bfree block);
    d ← deref (zstore (sfi_direct (sv_i p.2)) i 0);
    on_snd (modify (λ sv, set_inode (set_direct d (sv_i sv)) sv))
  else mret ().

(** The loop over the entries of the indirect block; its locals are the
    buffer, [hasnonzero] and [iddirty]. *)
Fixpoint trunc_entries (blocklen : Z) (js : list Z) (idbuf : list Z) (hasnonzero iddirty : bool)
    : M st (list Z * bool * bool) :=
  match js with
  | [] => mret (idbuf, hasnonzero, iddirty)
  | j :: js' =>
      e ← deref (idbuf !z j);
      if (blocklen <? SFS_NDIRECT + j) && negb (e =? 0) then
        _ ← on_fst (sfs_bfree e);
        idbuf' ← deref (zstore idbuf j 0);
        trunc_entries blocklen js' idbuf' hasnonzero true
      else trunc_entries blocklen js' idbuf (hasnonzero || negb (e =? 0)) iddirty
  end.

(** The indirect block [idblock]. *)
Definition trunc_indirect (blocklen idblock : Z) : M st unit :=
  bs ← on_fst (sfs_rblock idblock);
  let idbuf := decode_words (Z.to_nat SFS_DBPERIDB) bs in
  r ← trunc_entries blocklen (seqZ 0 SFS_DBPERIDB) idbuf false false;
  let '(idbuf, hasnonzero, iddirty) := r in
  if negb hasnonzero then
    _ ← on_fst (sfs_bfree idblock);
    on_snd (modify (λ sv, set_inode (set_indirect 0 (sv_i sv)) sv))
  else if (iddirty : bool) then on_fst (sfs_wblock (encode_words idbuf) idblock)
  else mret ().

(** [len] is an [off_t]: the block count is computed in [int]. *)
Definition trunc_blocklen (len : Z) : Z := u32 (Z.quot (s32 (len + SFS_BLOCKSIZE - 1)) SFS_BLOCKSIZE).

Definition sfs_truncate (len : Z) : M st unit :=
  let blocklen := trunc_blocklen len in
  _ ← forM (seqZ 0 SFS_NDIRECT) (trunc_direct blocklen);
  p ← get;
  let idblock := sfi_indirect (sv_i p.2) in
  let highblock := SFS_NDIRECT + SFS_DBPERIDB - 1 in
  _ ← (if (blocklen <? highblock) && negb (idblock =? 0) then trunc_indirect blocklen idblock
       else mret ());
  on_snd (modify (λ sv, set_inode (set_size (u32 len) (sv_i sv)) sv)).

Definition sfs_fsync : M st unit := sfs_sync_inode.
End ops.

(** ** Block tables

    The blocks of a file as a table of positions, so that a table in memory
    that is ahead of the disk can be described. *)

Section specs.
Context {D : Type} `{BlockDeviceLaws D} `{!ReliableWrites D}.
Implicit Types (f : sfs_fs D) (i : sfs_inode) (sv : sfs_vnode) (g : Z → Z).
Abbreviation blk f b := (sector (sfs_device f) b).
Abbreviation nblk f := (sp_nblocks (sfs_sb f)).
Abbreviation used f b := (bit (sfs_freemap f) b).

Record table_ok f g : Prop := {
  tb_range : ∀ k, 0 ≤ k ≤ MAXBLOCKS → 0 ≤ g k < nblk f;
  tb_used : ∀ k, 0 ≤ k ≤ MAXBLOCKS → g k ≠ 0 → used f (g k) = true;
  tb_distinct : ∀ j k, 0 ≤ j ≤ MAXBLOCKS → 0 ≤ k ≤ MAXBLOCKS → g j = g k → g j ≠ 0 → j = k;
}.

Lemma file_table f i : file_ok f i ↔ inode_ok i ∧ table_ok f (fblock f i).
Proof. split; [intros []; split; [done|by split]|intros [? []]; by split]. Qed.

Definition lists g (b : Z) : Prop := b ≠ 0 ∧ ∃ k, 0 ≤ k ≤ MAXBLOCKS ∧ g k = b.

(** From [f, g] to [f', g'] entries of the table were dropped, and exactly
    their blocks were freed; no block of the disk was written. *)
Record freed f g f' g' : Prop := {
  fr_sub : ∀ k, 0 ≤ k ≤ MAXBLOCKS → g' k = g k ∨ g' k = 0;
  fr_bits : ∀ b, 0 ≤ b → used f' b = true ↔ used f b = true ∧ (¬ lists g b ∨ lists g' b);
  fr_sb : sfs_sb f' = sfs_sb f;
  fr_md : map_step f f';
}.

Lemma lists_sub g g' b : (∀ k, 0 ≤ k ≤ MAXBLOCKS → g' k = g k ∨ g' k = 0) → lists g' b → lists g b.
Proof.
  intros Hs (Hne & k & Hk & Hb). split; [done|]. exists k. split; [done|].
  destruct (Hs k Hk); congruence.
Qed.


Lemma lists_ext g g' b : (∀ k, 0 ≤ k ≤ MAXBLOCKS → g' k = g k) → lists g' b ↔ lists g b.
Proof.
  intros He. split; intros (Hne & k & Hk & Hb); (split; [done|]); exists k; (split; [done|]);
    specialize (He k Hk); congruence.
Qed.

#[export] Instance lists_dec g b : Decision (lists g b).
Proof.
  refine (cast_if (decide (b ≠ 0 ∧ Exists (λ k, g k = b) (seqZ 0 (MAXBLOCKS + 1))))).
  - destruct a as [Hne Hex]. split; [done|]. apply Exists_exists in Hex as (k & Hk%elem_of_seqZ & ?).
    exists k. split; [lia|done].
  - intros (Hne & k & Hk & Hb). apply n. split; [done|]. apply Exists_exists. exists k.
    split; [|done]. apply elem_of_seqZ. lia.
Defined.

Lemma freed_refl f g : freed f g f g.
Proof.
  split; [by left| |done|apply map_step_refl]. intros b Hb. destruct (decide (lists g b)); naive_solver.
Qed.

Lemma freed_trans f g f1 g1 f2 g2 : freed f g f1 g1 → freed f1 g1 f2 g2 → freed f g f2 g2.
Proof.
  intros [Hs1 Hb1 Hsb1 Hm1] [Hs2 Hb2 Hsb2 Hm2]. split; [|  |congruence|by eapply map_step_trans].
  - intros k Hk. destruct (Hs1 k Hk), (Hs2 k Hk); [left|right|right|right]; congruence.
  - intros b Hb. rewrite Hb2, Hb1 by done.
    pose proof (lists_sub g g1 b Hs1). pose proof (lists_sub g1 g2 b Hs2).
    destruct (decide (lists g b)), (decide (lists g1 b)), (decide (lists g2 b)); tauto.
Qed.

(** Dropping one entry. *)
Lemma free_entry f g k b f' :
  table_ok f g → 0 ≤ k ≤ MAXBLOCKS → g k = b → b ≠ 0 → bfree_step f b f' →
  let g' := λ j, if decide (j = k) then 0 else g j in
  table_ok f' g' ∧ freed f g f' g'.
Proof.
  intros [Hr Hu Hd] Hk Hb Hne [Hwf [Hn Hbit] [Hdev Hsb] Hmd] g'.
  assert (¬ lists g' b) as Hnl.
  { intros (_ & j & Hj & Hgj). unfold g' in Hgj. case_decide as Hjk; [congruence|].
    apply Hjk. apply Hd; congruence. }
  split.
  - split; unfold g'.
    + intros j Hj. rewrite Hsb. specialize (Hr j Hj). case_decide; lia.
    + intros j Hj Hj0. case_decide as Hjk; [done|]. specialize (Hr j Hj). rewrite Hbit by lia.
      case_decide as Hbj; [|auto]. exfalso. apply Hjk. apply Hd; congruence.
    + intros j1 j2 Hj1 Hj2 Heq Hj0. repeat case_decide; try congruence. by apply Hd.
  - split; unfold g'; [|  |done|done].
    + intros j Hj. case_decide; auto.
    + intros b' Hb'. fold g'. rewrite Hbit by done. case_decide as Hbb.
      * subst b'. split; [done|]. intros [_ [Hx|Hx]]; [|done]. destruct Hx. split; [done|eauto].
      * assert (lists g b' → lists g' b') as Hl.
        { intros (Hb0 & j & Hj & Hgj). split; [done|]. exists j. split; [done|].
          unfold g'. case_decide; congruence. }
        destruct (decide (lists g b')); tauto.
Qed.

Lemma table_ok_ext f g g' :
  (∀ k, 0 ≤ k ≤ MAXBLOCKS → g' k = g k) → table_ok f g → table_ok f g'.
Proof.
  intros He [Hr Hu Hd]. split.
  - intros k Hk. rewrite He; auto.
  - intros k Hk. rewrite He by done. auto.
  - intros j k Hj Hk. rewrite !He by done. auto.
Qed.

Lemma freed_ext f g f' g1 g2 :
  (∀ k, 0 ≤ k ≤ MAXBLOCKS → g2 k = g1 k) → freed f g f' g1 → freed f g f' g2.
Proof.
  intros He [Hs Hb Hsb Hmd]. split; [| |done|done].
  - intros k Hk. rewrite He by done. auto.
  - intros b Hb0. rewrite Hb, (lists_ext g1 g2) by done. done.
Qed.

(** The table ignores the free map and the super block. *)
Lemma fblock_device f f' i k : sfs_device f' = sfs_device f → fblock f' i k = fblock f i k.
Proof. intros Hd. apply fblock_same_disk. intros _. by rewrite Hd. Qed.

Lemma table_same_map f f' g :
  sfs_sb f' = sfs_sb f → sfs_freemap f' = sfs_freemap f → table_ok f g → table_ok f' g.
Proof. intros Hsb Hmap [Hr Hu Hd]. split; rewrite ?Hsb, ?Hmap; done. Qed.

Lemma freed_same_map f g f1 g1 f2 :
  sfs_sb f2 = sfs_sb f1 → sfs_freemap f2 = sfs_freemap f1 → map_step f1 f2 → freed f g f1 g1 → freed f g f2 g1.
Proof.
  intros Hsb Hmap Hmd [Hs Hb Hsb1 Hmd1]. split; [done|rewrite Hmap; done|congruence|by eapply map_step_trans].
Qed.

(** ** The direct blocks *)

Lemma fblock_insert_direct f i m x k :
  inode_ok i → 0 ≤ m < SFS_NDIRECT → 0 ≤ k ≤ MAXBLOCKS →
  fblock f (set_direct (<[Z.to_nat m := x]> (sfi_direct i)) i) k =
    if decide (k = m) then x else fblock f i k.
Proof.
  intros [_ _ _ [Hlen _] _ _] Hm Hk. unfold SFS_NDIRECT, fblock, bmapZ, MAXBLOCKS in *. simpl.
  destruct (decide (k = 143)); [by rewrite decide_False by lia|].
  unfold SFS_NDIRECT. destruct (decide (k < 15)); [|by rewrite (decide_False (P := k = m)) by lia].
  rewrite zlookup_insert by (unfold zlen; lia). rewrite (decide_ext (m = k) (k = m)) by lia.
  by case_decide.
Qed.

Lemma fblock_direct f i k :
  inode_ok i → 0 ≤ k < SFS_NDIRECT → sfi_direct i !z k = Some (fblock f i k).
Proof.
  intros [_ _ _ [Hlen _] _ _] Hk. unfold SFS_NDIRECT in *.
  rewrite fblock_bmapZ by (unfold MAXBLOCKS; lia). unfold bmapZ, SFS_NDIRECT. rewrite decide_True by lia.
  destruct (zlookup_in (sfi_direct i) k) as [w Hw]; [unfold zlen; lia|]. by rewrite Hw.
Qed.

(** The state when the first [m] direct blocks are done. *)
Record direct_done (n : Z) f sv (m : Z) f' sv' : Prop := {
  dd_fs : fs_ok f';
  dd_dev : sfs_device f' = sfs_device f;
  dd_inode : inode_ok (sv_i sv');
  dd_table : table_ok f' (fblock f' (sv_i sv'));
  dd_pos : ∀ k, 0 ≤ k ≤ MAXBLOCKS →
    fblock f' (sv_i sv') k = if decide (n ≤ k < m) then 0 else fblock f (sv_i sv) k;
  dd_freed : freed f (fblock f (sv_i sv)) f' (fblock f' (sv_i sv'));
  dd_meta : sfi_size (sv_i sv') = sfi_size (sv_i sv) ∧ sfi_type (sv_i sv') = sfi_type (sv_i sv) ∧
    sfi_linkcount (sv_i sv') = sfi_linkcount (sv_i sv) ∧ sfi_waste (sv_i sv') = sfi_waste (sv_i sv) ∧
    sfi_indirect (sv_i sv') = sfi_indirect (sv_i sv);
  dd_vnode : sv_ino sv' = sv_ino sv ∧ sv_v sv' = sv_v sv;
  dd_dirty : sv_dirty sv' = true ∨ sv' = sv;
}.

Lemma trunc_direct_spec n f sv m f1 sv1 Q :
  0 ≤ m < SFS_NDIRECT → direct_done n f sv m f1 sv1 →
  (∀ f2 sv2, direct_done n f sv (m + 1) f2 sv2 → Q (Ret ()) (f2, sv2)) →
  wp (trunc_direct n m) Q (f1, sv1).
Proof.
  intros Hm Hd HQ. destruct (Hd) as [Hfs Hdev Hin Htb Hpos Hfr Hmeta Hvn Hdy].
  assert (0 ≤ m ≤ MAXBLOCKS) as HmM by (unfold SFS_NDIRECT, MAXBLOCKS in *; lia).
  pose proof (fblock_direct f1 _ m Hin Hm) as Hlook. set (b := fblock f1 (sv_i sv1) m) in *.
  assert (b = 0 ∨ m < n → ∀ k, 0 ≤ k ≤ MAXBLOCKS →
    fblock f1 (sv_i sv1) k = if decide (n ≤ k < m + 1) then 0 else fblock f (sv_i sv) k) as Hkeep.
  { intros Hc k Hk. rewrite Hpos by done. destruct (decide (k = m)) as [->|Hkm].
    - rewrite (decide_False (P := n ≤ m < m)) by lia. case_decide; [|done].
      unfold b in Hc. rewrite Hpos, decide_False in Hc by lia. destruct Hc; [done|lia].
    - by rewrite (decide_ext (n ≤ k < m) (n ≤ k < m + 1)) by lia. }
  unfold trunc_direct. wp_steps. eapply wp_deref; [done|]. rewrite Z.geb_leb.
  destruct ((n <=? m) && negb (b =? 0)) eqn:Hc.
  2: { wp_step. apply HQ. split; try done. apply Hkeep. lia. }
  assert (n ≤ m ∧ b ≠ 0) as [Hnm Hb0] by lia. wp_steps.
  pose proof (tb_range _ _ Htb m HmM) as Hbr. fold b in Hbr.
  apply sfs_bfree_spec; [done|lia|by apply (tb_used _ _ Htb)|].
  intros f2 Hstep Hfs2. wp_steps. cbn [fst snd].
  eapply wp_deref; [apply zstore_in|].
  { unfold zlen, SFS_NDIRECT in *. destruct Hin as [_ _ _ [-> _] _ _]. lia. }
  wp_steps. set (i2 := set_direct _ _). destruct (Hstep) as [_ _ [Hdev2 _]].
  destruct (free_entry f1 (fblock f1 (sv_i sv1)) m b f2 Htb HmM eq_refl Hb0 Hstep) as [Htb2 Hfr2].
  assert (∀ k, 0 ≤ k ≤ MAXBLOCKS →
    fblock f2 i2 k = (λ j, if decide (j = m) then 0 else fblock f1 (sv_i sv1) j) k) as Hi2.
  { intros k Hk. rewrite (fblock_device f1 f2) by done. by apply fblock_insert_direct. }
  apply HQ. split; [done|congruence| | | | |done|done|by left]; cbn [sv_i set_inode]; fold i2.
  - destruct Hin as [? ? ? [Hl Hall] ? ?]. split; try done. simpl. rewrite length_insert.
    split; [done|]. apply Forall_insert; [done|]. done.
  - by eapply table_ok_ext.
  - intros k Hk. rewrite Hi2 by done. cbv beta. case_decide as Hkm.
    + subst k. by rewrite decide_True by lia.
    + rewrite Hpos by done. by rewrite (decide_ext (n ≤ k < m) (n ≤ k < m + 1)) by lia.
  - eapply freed_trans; [exact Hfr|]. by eapply freed_ext.
Qed.

Lemma trunc_directs_spec n f sv Q :
  fs_ok f → file_ok f (sv_i sv) →
  (∀ f1 sv1, direct_done n f sv SFS_NDIRECT f1 sv1 → Q (Ret ()) (f1, sv1)) →
  wp (forM (seqZ 0 SFS_NDIRECT) (trunc_direct n)) Q (f, sv).
Proof.
  intros Hfs [Hin Htb]%file_table HQ.
  apply (wp_forM _ _ (λ m p, direct_done n f sv (Z.of_nat m) p.1 p.2)).
  - split; try done; simpl; [|apply freed_refl|by right]. intros k Hk. by rewrite decide_False by lia.
  - intros m x [f1 sv1] [-> Hm]%lookup_seqZ Hd. simpl in Hd.
    eapply (trunc_direct_spec n f sv (0 + Z.of_nat m)); [lia|done|].
    intros f2 sv2 Hd2. simpl. by replace (Z.of_nat (S m)) with (Z.of_nat m + 1) by lia.
  - intros [f1 sv1] Hd. apply HQ. done.
Qed.

(** ** The indirect block *)

(** The table of the inode [i] with the entries of its indirect block taken
    from the buffer [ws]. *)
Definition wtable f i (ws : list Z) (k : Z) : Z :=
  if decide (SFS_NDIRECT ≤ k < MAXBLOCKS) then default 0 (ws !z (k - SFS_NDIRECT)) else fblock f i k.

Lemma wtable_idwords f i k :
  sfi_indirect i ≠ 0 → wtable f i (idwords f (sfi_indirect i)) k = fblock f i k.
Proof.
  intros Hne. unfold wtable. case_decide as Hk; [|done].
  rewrite fblock_bmapZ by lia. unfold bmapZ. rewrite decide_False, decide_False by (done || lia). done.
Qed.

Lemma wtable_insert f i ws j x k :
  zlen ws = SFS_DBPERIDB → 0 ≤ j < SFS_DBPERIDB →
  wtable f i (<[Z.to_nat j := x]> ws) k =
    if decide (k = SFS_NDIRECT + j) then x else wtable f i ws k.
Proof.
  intros Hlen Hj. unfold wtable, SFS_DBPERIDB, SFS_NDIRECT, MAXBLOCKS in *.
  destruct (decide (15 ≤ k < 143)); [|by rewrite decide_False by lia].
  rewrite zlookup_insert by lia. rewrite (decide_ext (j = k - 15) (k = 15 + j)) by lia. by case_decide.
Qed.

(** The state when the first [j] entries are done: [f0, i] is the file system
    before the loop, [ws] the buffer. *)
Record entries_done (n : Z) f0 i (j : Z) f (ws : list Z) (hasnonzero iddirty : bool) : Prop := {
  ed_fs : fs_ok f;
  ed_dev : sfs_device f = sfs_device f0;
  ed_len : zlen ws = SFS_DBPERIDB;
  ed_table : table_ok f (wtable f0 i ws);
  ed_pos : ∀ k, 0 ≤ k < SFS_DBPERIDB → ws !z k =
    if decide (n < SFS_NDIRECT + k ∧ k < j) then Some 0 else idwords f0 (sfi_indirect i) !z k;
  ed_freed : freed f0 (fblock f0 i) f (wtable f0 i ws);
  ed_nonzero : hasnonzero = false → ∀ k, 0 ≤ k < j → ws !z k = Some 0;
  ed_dirty : iddirty = false → ws = idwords f0 (sfi_indirect i);
  ed_seen : hasnonzero = true → ∃ k w, 0 ≤ k < j ∧ ws !z k = Some w ∧ w ≠ 0;
}.

Lemma entry_position n f0 i j f ws hn dd e :
  entries_done n f0 i j f ws hn dd → 0 ≤ j < SFS_DBPERIDB → ws !z j = Some e →
  0 ≤ SFS_NDIRECT + j ≤ MAXBLOCKS ∧ wtable f0 i ws (SFS_NDIRECT + j) = e ∧
  idwords f0 (sfi_indirect i) !z j = Some e.
Proof.
  intros [_ _ _ _ Hpos _ _ _ _] Hj He. unfold SFS_NDIRECT, SFS_DBPERIDB, MAXBLOCKS in *. split_and!; [lia..| |].
  - unfold wtable, SFS_NDIRECT, MAXBLOCKS. rewrite decide_True by lia.
    replace (15 + j - 15) with j by lia. by rewrite He.
  - rewrite Hpos, decide_False in He by lia. done.
Qed.

(** One more entry, freed ... *)
Lemma entries_done_free n f0 i j f ws hn dd e f' :
  entries_done n f0 i j f ws hn dd → 0 ≤ j < SFS_DBPERIDB → ws !z j = Some e → e ≠ 0 →
  n < SFS_NDIRECT + j → bfree_step f e f' → fs_ok f' →
  entries_done n f0 i (j + 1) f' (<[Z.to_nat j := 0]> ws) hn true.
Proof.
  intros Hd Hj He He0 Hnj Hstep Hfs'. destruct (entry_position _ _ _ _ _ _ _ _ _ Hd Hj He) as (HkM & Hte & _).
  destruct Hd as [Hfs Hdev Hlen Htb Hpos Hfr Hnz Hdy Hsn]. destruct (Hstep) as [_ _ [Hdev2 _]].
  destruct (free_entry f _ _ e f' Htb HkM Hte He0 Hstep) as [Htb2 Hfr2].
  assert (∀ k, 0 ≤ k ≤ MAXBLOCKS → wtable f0 i (<[Z.to_nat j := 0]> ws) k =
    (λ k, if decide (k = SFS_NDIRECT + j) then 0 else wtable f0 i ws k) k) as Hws.
  { intros k _. by apply wtable_insert. }
  split; [done|congruence| | | | | |done|].
  - unfold zlen in *. by rewrite length_insert.
  - by eapply table_ok_ext.
  - intros k Hk. rewrite zlookup_insert by lia. rewrite Hpos by done. case_decide.
    + subst k. by rewrite decide_True by lia.
    + by rewrite (decide_ext (n < SFS_NDIRECT + k ∧ k < j) (n < SFS_NDIRECT + k ∧ k < j + 1)) by lia.
  - eapply freed_trans; [exact Hfr|]. by eapply freed_ext.
  - intros Hf k Hk. rewrite zlookup_insert by lia. case_decide; [done|]. apply Hnz; [done|lia].
  - intros Ht. destruct (Hsn Ht) as (k & w & Hk & Hw & Hne). exists k, w.
    rewrite zlookup_insert by lia. rewrite decide_False by lia. split; [lia|done].
Qed.

(** ... or kept. *)
Lemma entries_done_keep n f0 i j f ws hn dd e :
  entries_done n f0 i j f ws hn dd → 0 ≤ j < SFS_DBPERIDB → ws !z j = Some e →
  e = 0 ∨ SFS_NDIRECT + j ≤ n →
  entries_done n f0 i (j + 1) f ws (hn || negb (e =? 0)) dd.
Proof.
  intros Hd Hj He Hc. destruct (entry_position _ _ _ _ _ _ _ _ _ Hd Hj He) as (_ & _ & Hw).
  destruct Hd as [Hfs Hdev Hlen Htb Hpos Hfr Hnz Hdy Hsn]. split; try done.
  - intros k Hk. rewrite Hpos by done. destruct (decide (k = j)) as [->|Hkj].
    + rewrite (decide_False (P := _ ∧ j < j)) by lia. case_decide; [|done].
      rewrite Hw. f_equal. lia.
    + by rewrite (decide_ext (n < SFS_NDIRECT + k ∧ k < j) (n < SFS_NDIRECT + k ∧ k < j + 1)) by lia.
  - intros [Hf He0]%orb_false_iff k Hk. destruct (decide (k = j)) as [->|]; [|apply Hnz; [done|lia]].
    rewrite He. f_equal. lia.
  - intros [Ht|Hnz0]%orb_true_iff.
    + destruct (Hsn Ht) as (k & w & Hk & Hkw). exists k, w. split; [lia|done].
    + exists j, e. split_and!; [lia..|done|lia].
Qed.

Lemma trunc_entries_spec n f0 i sv cnt : ∀ j f ws hn dd Q,
  0 ≤ j → j + Z.of_nat cnt = SFS_DBPERIDB → entries_done n f0 i j f ws hn dd →
  (∀ f' ws' hn' dd', entries_done n f0 i SFS_DBPERIDB f' ws' hn' dd' →
     Q (Ret (ws', hn', dd')) (f', sv)) →
  wp (trunc_entries n (seqZ j (Z.of_nat cnt)) ws hn dd) Q (f, sv).
Proof.
  induction cnt as [|cnt IH]; intros j f ws hn dd Q Hj Hcnt Hd HQ.
  { change (seqZ j (Z.of_nat 0)) with (@nil Z). cbn [trunc_entries]. wp_step. apply HQ.
    by replace SFS_DBPERIDB with j by lia. }
  rewrite seqZ_cons by lia. cbn [trunc_entries].
  destruct (Hd) as [Hfs _ Hlen Htb _ _ _ _ _].
  destruct (zlookup_in ws j) as [e He]; [rewrite Hlen; lia|].
  destruct (entry_position _ _ _ _ _ _ _ _ _ Hd ltac:(lia) He) as (HkM & Hte & _).
  wp_step. eapply wp_deref; [done|]. replace (Z.pred (Z.of_nat (S cnt))) with (Z.of_nat cnt) by lia.
  replace (Z.succ j) with (j + 1) by lia.
  destruct ((n <? SFS_NDIRECT + j) && negb (e =? 0)) eqn:Hc.
  - assert (n < SFS_NDIRECT + j ∧ e ≠ 0) as [Hnj He0] by lia. wp_steps.
    pose proof (tb_range _ _ Htb _ HkM) as Hr. pose proof (tb_used _ _ Htb _ HkM) as Hu. rewrite Hte in *.
    apply sfs_bfree_spec; [done|lia|auto|]. intros f2 Hstep Hfs2. cbn [fst snd]. wp_step.
    eapply wp_deref; [apply zstore_in; rewrite Hlen; lia|].
    apply IH; [lia|lia| |done]. by eapply entries_done_free; [done|lia|..].
  - apply IH; [lia|lia| |done]. apply entries_done_keep; [done|lia|done|lia].
Qed.

(** ** Truncation as a whole *)

(** [f', i'] is [f, i] with some of the blocks of the file dropped and freed.
    Only the indirect block may have been rewritten. *)
Record shrunk f i f' i' : Prop := {
  sk_fs : fs_ok f';
  sk_file : file_ok f' i';
  sk_freed : freed f (fblock f i) f' (fblock f' i');
  sk_frame : ∀ b, (b ≠ 0 → b ≠ sfi_indirect i) → blk f' b = blk f b;
  sk_blocks : d_blocks (sfs_device f') = d_blocks (sfs_device f);
  sk_meta : sfi_type i' = sfi_type i ∧ sfi_linkcount i' = sfi_linkcount i ∧ sfi_waste i' = sfi_waste i;
}.

Lemma shrunk_refl f i : fs_ok f → file_ok f i → shrunk f i f i.
Proof. intros. split; try done. apply freed_refl. Qed.

Lemma shrunk_trans f i f1 i1 f2 i2 : shrunk f i f1 i1 → shrunk f1 i1 f2 i2 → shrunk f i f2 i2.
Proof.
  intros [? ? Hf1 Hb1 ? (?&?&?)] [? ? Hf2 Hb2 ? (?&?&?)].
  split; [done|done|by eapply freed_trans| |congruence|split_and!; congruence].
  intros b Hb. rewrite Hb2, Hb1; [done..|].
  pose proof (fr_sub _ _ _ _ Hf1 MAXBLOCKS ltac:(unfold MAXBLOCKS; lia)) as Hi.
  rewrite !fblock_indirect in Hi. destruct Hi as [->| ->]; auto.
Qed.

Lemma shrunk_same_disk f i d' :
  fs_ok f → file_ok f i → same_disk (sfs_device f) d' → shrunk f i (set_device d' f) i.
Proof.
  intros Hfs Hok Hs. destruct (Hs) as (Hd & Hbl & Hsec).
  destruct (file_stable f (set_device d' f) i Hok eq_refl) as (Hok' & Hfb & _).
  { intros b Hb (Hne & k & Hk & <-). split; [apply Hsec|]. by apply (fl_used _ _ Hok). }
  split; try done; [by apply same_disk_ok|].
  eapply (freed_same_map f _ f); [done|done|apply map_step_device, map_step_refl|]. eapply freed_ext; [|apply freed_refl]. auto.
Qed.

Lemma direct_done_shrunk n f sv m f' sv' :
  direct_done n f sv m f' sv' → shrunk f (sv_i sv) f' (sv_i sv').
Proof.
  intros [? Hdev ? ? ? ? (?&?&?&?&?) ? ?]. split; try done; [by apply file_table| |by rewrite Hdev].
  intros b _. by rewrite Hdev.
Qed.

(** The end of the loop over the indirect block: the three ways to finish. *)
Lemma entries_done_free_block n f0 i f ws dd f' :
  inode_ok i → sfi_indirect i ≠ 0 → entries_done n f0 i SFS_DBPERIDB f ws false dd →
  bfree_step f (sfi_indirect i) f' → fs_ok f' →
  shrunk f0 i f' (set_indirect 0 i) ∧
  ∀ k, 0 ≤ k < MAXBLOCKS → fblock f' (set_indirect 0 i) k = wtable f0 i ws k.
Proof.
  intros Hin Hne [Hfs Hdev Hlen Htb Hpos Hfr Hnz _ _] Hstep Hfs'. destruct (Hstep) as [_ _ [Hdev' _]].
  assert (∀ k, 0 ≤ k ≤ MAXBLOCKS → fblock f' (set_indirect 0 i) k =
    (λ k, if decide (k = MAXBLOCKS) then 0 else wtable f0 i ws k) k) as Hfb.
  { intros k Hk. cbv beta. case_decide as HkM; [by rewrite HkM, fblock_indirect|].
    rewrite fblock_bmapZ by done. unfold bmapZ, wtable. cbn [sfi_direct sfi_indirect set_indirect].
    case_decide as Hd.
    - rewrite decide_False, fblock_bmapZ by lia. unfold bmapZ. by rewrite decide_True by done.
    - rewrite decide_True, decide_True by (done || lia). rewrite Hnz; [done|done|].
      unfold SFS_DBPERIDB, SFS_NDIRECT, MAXBLOCKS in *. lia. }
  assert (wtable f0 i ws MAXBLOCKS = sfi_indirect i) as HM.
  { unfold wtable. rewrite decide_False by (unfold MAXBLOCKS; lia). apply fblock_indirect. }
  destruct (free_entry f _ MAXBLOCKS _ f' Htb ltac:(unfold MAXBLOCKS; lia) HM Hne Hstep) as [Htb' Hfr'].
  split.
  - split; try done.
    + apply file_table. split; [by destruct Hin; split|]. by eapply table_ok_ext.
    + eapply freed_trans; [exact Hfr|]. by eapply freed_ext.
    + intros b _. congruence.
    + congruence.
  - intros k Hk. rewrite Hfb by lia. cbv beta. by rewrite decide_False by lia.
Qed.

Lemma entries_done_write n f0 i f ws hn dd d' :
  fs_ok f0 → file_ok f0 i → sfi_indirect i ≠ 0 → entries_done n f0 i SFS_DBPERIDB f ws hn dd →
  written (sfs_device f) (sfi_indirect i) (encode_words ws) d' →
  shrunk f0 i (set_device d' f) i ∧
  ∀ k, 0 ≤ k < MAXBLOCKS → fblock (set_device d' f) i k = wtable f0 i ws k.
Proof.
  intros Hfs0 Hok0 Hne [Hfs Hdev Hlen Htb Hpos Hfr _ _ _] (Hd & Hbl & Hsec).
  assert (Forall is_u32 ws) as Hu32.
  { apply Forall_lookup. intros j w Hw. pose proof (lookup_lt_Some _ _ _ Hw) as Hlt.
    pose proof (tb_range _ _ Htb (SFS_NDIRECT + Z.of_nat j)) as Hr.
    unfold wtable, zlen, SFS_DBPERIDB, SFS_NDIRECT, MAXBLOCKS in *. rewrite decide_True in Hr by lia.
    replace (15 + Z.of_nat j - 15) with (Z.of_nat j) in Hr by lia.
    rewrite zlookup_nat, Nat2Z.id, Hw in Hr by lia. pose proof (fo_nblocks _ Hfs).
    unfold is_u32. simpl in Hr. lia. }
  assert (∀ k, 0 ≤ k ≤ MAXBLOCKS → fblock (set_device d' f) i k = wtable f0 i ws k) as Hfb.
  { intros k Hk. unfold wtable. case_decide as Hd15.
    - rewrite fblock_bmapZ by lia. unfold bmapZ. rewrite decide_False, decide_False by (done || lia).
      unfold idwords. cbn [sfs_device set_device]. rewrite Hsec, decide_True by done.
      rewrite <- (app_nil_r (encode_words ws)).
      replace (Z.to_nat SFS_DBPERIDB) with (length ws) by (unfold zlen in Hlen; lia).
      by rewrite decode_encode_words.
    - unfold fblock, bmapZ. case_decide; [done|]. rewrite !decide_True by lia. done. }
  split; [|intros k Hk; apply Hfb; lia]. split; simpl; try done.
  - destruct Hfs. split; simpl; rewrite ?Hbl; done.
  - apply file_table. split; [apply Hok0|]. eapply table_ok_ext; [exact Hfb|]. by apply (table_same_map f).
  - eapply (freed_same_map f0 _ f); [done|done|apply map_step_device, map_step_refl|]. by eapply freed_ext.
  - intros b Hb. rewrite Hsec, Hdev. case_decide as Heq; [|done]. exfalso. apply Hb; congruence.
  - congruence.
Qed.

Lemma entries_done_clean n f0 i f hn ws :
  fs_ok f0 → file_ok f0 i → sfi_indirect i ≠ 0 → entries_done n f0 i SFS_DBPERIDB f ws hn false →
  shrunk f0 i f i ∧ ∀ k, 0 ≤ k < MAXBLOCKS → fblock f i k = wtable f0 i ws k.
Proof.
  intros Hfs0 Hok0 Hne [Hfs Hdev Hlen Htb Hpos Hfr _ Hdy _]. specialize (Hdy eq_refl). subst ws.
  assert (∀ k, fblock f i k = wtable f0 i (idwords f0 (sfi_indirect i)) k) as Hfb.
  { intros k. rewrite wtable_idwords by done. by apply fblock_device. }
  split; [|auto]. split; try done.
  - apply file_table. split; [apply Hok0|]. eapply table_ok_ext; [|exact Htb]. auto.
  - eapply freed_ext; [|exact Hfr]. auto.
  - intros b _. congruence.
  - congruence.
Qed.

Lemma wtable_done n f0 i f ws hn dd k :
  sfi_indirect i ≠ 0 → entries_done n f0 i SFS_DBPERIDB f ws hn dd → 0 ≤ k < MAXBLOCKS →
  wtable f0 i ws k = if decide (SFS_NDIRECT ≤ k ∧ n < k) then 0 else fblock f0 i k.
Proof.
  intros Hne [_ _ _ _ Hpos _ _ _ _] Hk.
  destruct (decide (SFS_NDIRECT ≤ k)) as [H15|H15].
  - rewrite <- (wtable_idwords f0 i k Hne). unfold wtable. rewrite !decide_True by lia.
    unfold SFS_NDIRECT, SFS_DBPERIDB, MAXBLOCKS in *. rewrite Hpos by lia.
    rewrite (decide_ext (n < 15 + (k - 15) ∧ k - 15 < 128) (15 ≤ k ∧ n < k)) by lia. case_decide; [done|]. by rewrite decide_True by lia.
  - unfold wtable. by rewrite !decide_False by lia.
Qed.

(** The vnode apart from its inode. *)
Definition same_vnode sv sv' : Prop := sv_ino sv' = sv_ino sv ∧ sv_v sv' = sv_v sv.

Lemma entries_done_start n f i :
  fs_ok f → file_ok f i → sfi_indirect i ≠ 0 →
  entries_done n f i 0 f (idwords f (sfi_indirect i)) false false.
Proof.
  intros Hfs [Hin Htb]%file_table Hne.
  split; [done|done|apply idwords_len| | | |intros; lia|done|done].
  - eapply table_ok_ext; [|exact Htb]. intros. by apply wtable_idwords.
  - intros k Hk. by rewrite decide_False by lia.
  - eapply freed_ext; [|apply freed_refl]. intros. by apply wtable_idwords.
Qed.

(** What truncation leaves of the blocks past the direct ones. *)
Definition indirect_trimmed n f i f' i' : Prop :=
  (∀ k, 0 ≤ k < MAXBLOCKS →
     fblock f' i' k = if decide (SFS_NDIRECT ≤ k ∧ n < k) then 0 else fblock f i k) ∧
  (n < SFS_NDIRECT → sfi_indirect i' = 0).

Lemma trunc_finish_spec n f sv f' ws hn dd Q :
  fs_ok f → file_ok f (sv_i sv) → sfi_indirect (sv_i sv) ≠ 0 →
  entries_done n f (sv_i sv) SFS_DBPERIDB f' ws hn dd →
  (∀ f2 sv2, shrunk f (sv_i sv) f2 (sv_i sv2) → sfi_size (sv_i sv2) = sfi_size (sv_i sv) →
     same_vnode sv sv2 → indirect_trimmed n f (sv_i sv) f2 (sv_i sv2) → Q (Ret ()) (f2, sv2)) →
  wp (if negb hn then
        _ ← on_fst (sfs_bfree (sfi_indirect (sv_i sv)));
        on_snd (modify (λ sv, set_inode (set_indirect 0 (sv_i sv)) sv))
      else if (dd : bool) then on_fst (sfs_wblock (encode_words ws) (sfi_indirect (sv_i sv)))
      else mret ()) Q (f', sv).
Proof.
  intros Hfs Hok Hne Hd HQ. destruct (file_indirect_used _ _ Hok Hne) as [_ Hr].
  assert (∀ f2 sv2, shrunk f (sv_i sv) f2 (sv_i sv2) ∧
    (∀ k, 0 ≤ k < MAXBLOCKS → fblock f2 (sv_i sv2) k = wtable f (sv_i sv) ws k) →
    (hn = true ∨ sfi_indirect (sv_i sv2) = 0) →
    sfi_size (sv_i sv2) = sfi_size (sv_i sv) → same_vnode sv sv2 → Q (Ret ()) (f2, sv2)) as Hfin.
  { intros f2 sv2 [Hsk Hk] Hi Hsz Hv. apply HQ; [done..|]. split.
    - intros k HkM. rewrite Hk by done. by apply (wtable_done n f _ f' ws hn dd).
    - intros Hn. destruct Hi as [Hi|]; [|done].
      destruct (ed_seen _ _ _ _ _ _ _ _ Hd Hi) as (k & w & Hk0 & Hw & Hw0).
      rewrite (ed_pos _ _ _ _ _ _ _ _ Hd), decide_True in Hw by lia. congruence. }
  destruct (Hd) as [Hfs2 _ Hlen Htb _ [_ _ Hsb2] _ _ _]. destruct (Hfs2) as [? Hnb2 Hfit2 _ _ _ _].
  rewrite Hsb2 in *. destruct hn; cbn [negb]; [destruct dd|].
  - wp_steps. apply sfs_wblock_spec; [done|lia|lia| |].
    { unfold zlen in *. rewrite length_encode_words. unfold SFS_DBPERIDB, SFS_BLOCKSIZE in *. lia. }
    intros d2 Hw. apply Hfin; [|by left|done..]. by eapply entries_done_write.
  - wp_step. apply Hfin; [|by left|done..]. by eapply entries_done_clean.
  - assert (wtable f (sv_i sv) ws MAXBLOCKS = sfi_indirect (sv_i sv)) as HM.
    { unfold wtable. rewrite decide_False by (unfold MAXBLOCKS; lia). apply fblock_indirect. }
    pose proof (tb_used _ _ Htb MAXBLOCKS) as Hu2. rewrite HM in Hu2. unfold MAXBLOCKS in Hu2. wp_steps.
    apply sfs_bfree_spec; [done|rewrite Hsb2; lia|apply Hu2; [lia|done]|].
    intros f3 Hstep Hfs3. wp_steps. cbn [fst snd].
    apply Hfin; [|by right|done..]. eapply entries_done_free_block; [apply Hok|done..].
Qed.

Lemma trunc_indirect_spec n f sv Q :
  fs_ok f → file_ok f (sv_i sv) → sfi_indirect (sv_i sv) ≠ 0 →
  (∀ f' sv', shrunk f (sv_i sv) f' (sv_i sv') → sfi_size (sv_i sv') = sfi_size (sv_i sv) →
     same_vnode sv sv' → indirect_trimmed n f (sv_i sv) f' (sv_i sv') → Q (Ret ()) (f', sv')) →
  (∀ d', same_disk (sfs_device f) d' → Q (Fail EIO) (set_device d' f, sv)) →
  wp (trunc_indirect n (sfi_indirect (sv_i sv))) Q (f, sv).
Proof.
  intros Hfs Hok Hne HQ HIO. destruct (file_indirect_used _ _ Hok Hne) as [Hu Hr].
  destruct (Hfs) as [Hdev Hnb Hfit _ _ _ _]. unfold trunc_indirect. wp_steps.
  apply sfs_rblock_spec; [done|lia|lia| |done]. intros d' Hs. cbn [fst snd].
  set (f1 := set_device d' f). pose proof (shrunk_same_disk f (sv_i sv) d' Hfs Hok Hs) as Hsk1. fold f1 in Hsk1.
  assert (∀ k, fblock f1 (sv_i sv) k = fblock f (sv_i sv) k) as Hfb1.
  { intros k. apply fblock_same_disk. intros _. apply Hs. }
  destruct (Hsk1) as [Hfs1 Hok1 _ _ _ _].
  replace (decode_words (Z.to_nat SFS_DBPERIDB) (blk f (sfi_indirect (sv_i sv))))
    with (idwords f1 (sfi_indirect (sv_i sv))) by (unfold idwords; by rewrite <- (proj2 (proj2 Hs))).
  wp_step. change (seqZ 0 SFS_DBPERIDB) with (seqZ 0 (Z.of_nat 128)).
  eapply (trunc_entries_spec n f1 (sv_i sv) sv 128); [lia|done|by apply entries_done_start|].
  intros f2 ws hn dd Hd. eapply (trunc_finish_spec n f1); [done..|].
  intros f3 sv3 Hsk Hsz Hv [Htr Hz]. apply HQ; [by eapply shrunk_trans|done..|]. split; [|done].
  intros k Hk. rewrite <- Hfb1. by apply Htr.
Qed.

(** ** [sfs_truncate] *)

Definition blocks_for (len : Z) : Z := (len + SFS_BLOCKSIZE - 1) / SFS_BLOCKSIZE.

(** Block [k] is still mapped after truncation to [n] blocks.  The comparison in
    the loop over the indirect block is off by one: besides the first [n] blocks
    the code keeps block [n] itself when it is an indirect one. *)
Definition trunc_keeps (n k : Z) : Prop := k < n ∨ k = n ∧ SFS_NDIRECT ≤ n.

#[export] Instance trunc_keeps_dec n k : Decision (trunc_keeps n k).
Proof. unfold trunc_keeps. apply _. Defined.

Record truncated f sv (len : Z) f' sv' : Prop := {
  tr_shrunk : shrunk f (sv_i sv) f' (sv_i sv');
  tr_vnode : same_vnode sv sv';
  tr_dirty : sv_dirty sv' = true;
  tr_size : sfi_size (sv_i sv') = len;
  tr_blocks : ∀ k, 0 ≤ k < MAXBLOCKS → fblock f' (sv_i sv') k =
    if decide (trunc_keeps (blocks_for len) k) then fblock f (sv_i sv) k else 0;
  tr_indirect : blocks_for len < SFS_NDIRECT → sfi_indirect (sv_i sv') = 0;
}.

Lemma trunc_blocklen_ok len : 0 ≤ len < 2 ^ 31 - 511 → trunc_blocklen len = blocks_for len.
Proof.
  intros Hl. unfold trunc_blocklen, blocks_for, SFS_BLOCKSIZE.
  rewrite s32_small by lia. rewrite Z.quot_div_nonneg by lia.
  apply u32_small. split; [apply Z.div_pos; lia|]. Z.div_mod_to_equations; lia.
Qed.

Lemma truncated_intro n f i f1 i1 f2 i2 k :
  (∀ k, 0 ≤ k ≤ MAXBLOCKS → fblock f1 i1 k = if decide (n ≤ k < SFS_NDIRECT) then 0 else fblock f i k) →
  sfi_indirect i1 = sfi_indirect i →
  (if (n <? MAXBLOCKS - 1) && negb (sfi_indirect i1 =? 0) then indirect_trimmed n f1 i1 f2 i2
   else ∀ k, fblock f2 i2 k = fblock f1 i1 k) →
  0 ≤ k < MAXBLOCKS →
  fblock f2 i2 k = if decide (trunc_keeps n k) then fblock f i k else 0.
Proof.
  intros Hd Hi Ht Hk. unfold trunc_keeps.
  destruct ((n <? MAXBLOCKS - 1) && negb (sfi_indirect i1 =? 0)) eqn:Hc.
  - destruct Ht as [Ht _]. rewrite Ht by done. rewrite Hd by lia.
    repeat case_decide; unfold SFS_NDIRECT, MAXBLOCKS in *; done || lia.
  - rewrite Ht, Hd by lia.
    assert (MAXBLOCKS - 1 ≤ n ∨ sfi_indirect i = 0) as [Hn|Hz] by (unfold MAXBLOCKS in *; lia).
    + repeat case_decide; unfold SFS_NDIRECT, MAXBLOCKS in *; done || lia.
    + assert (SFS_NDIRECT ≤ k → fblock f i k = 0) as Hf.
      { intros H15. rewrite fblock_bmapZ by lia. unfold bmapZ. by rewrite decide_False, decide_True by lia. }
      repeat case_decide; unfold SFS_NDIRECT, MAXBLOCKS in *; try lia; try done; apply Hf || (symmetry; apply Hf); lia.
Qed.

Lemma shrunk_set_size f i f' i' n :
  is_u32 n → shrunk f i f' i' → shrunk f i f' (set_size n i').
Proof.
  intros Hn [? Hok ? ? ? ?]. split; try done.
  apply file_table. apply file_table in Hok as [[] Htb]. split; [by split|done].
Qed.

Lemma sfs_truncate_spec len f sv Q :
  fs_ok f → file_ok f (sv_i sv) → 0 ≤ len < 2 ^ 31 - 511 →
  (∀ f' sv', truncated f sv len f' sv' → Q (Ret ()) (f', sv')) →
  (∀ f' sv', shrunk f (sv_i sv) f' (sv_i sv') → same_vnode sv sv' →
     sfi_size (sv_i sv') = sfi_size (sv_i sv) →
     (∀ k, 0 ≤ k < MAXBLOCKS →
        fblock f' (sv_i sv') k = if decide (blocks_for len ≤ k < SFS_NDIRECT) then 0 else fblock f (sv_i sv) k) →
     sv_dirty sv' = true ∨ sv' = sv →
     Q (Fail EIO) (f', sv')) →
  wp (sfs_truncate len) Q (f, sv).
Proof.
  intros Hfs Hok Hlen HQ HIO. unfold sfs_truncate. rewrite trunc_blocklen_ok by done.
  set (n := blocks_for len) in *. cbv zeta. wp_step.
  apply trunc_directs_spec; [done..|]. intros f1 sv1 Hd. wp_steps. cbn [snd].
  pose proof (direct_done_shrunk _ _ _ _ _ _ Hd) as Hsk1.
  destruct Hd as [Hfs1 _ Hin1 Htb1 Hpos1 _ (Hsz1 & _ & _ & _ & Hind1) Hvn1 Hdy1].
  assert (file_ok f1 (sv_i sv1)) as Hok1 by (by apply file_table).
  assert (is_u32 len) as Hu by (unfold is_u32; lia). rewrite (u32_small len) by done.
  change (SFS_NDIRECT + SFS_DBPERIDB - 1) with (MAXBLOCKS - 1).
  pose proof (λ f2 i2 k, truncated_intro n f (sv_i sv) f1 (sv_i sv1) f2 i2 k Hpos1 Hind1) as Hint.
  destruct ((n <? MAXBLOCKS - 1) && negb (sfi_indirect (sv_i sv1) =? 0)) eqn:Hc.
  - apply trunc_indirect_spec; [done|done|lia| |].
    + intros f2 sv2 Hsk2 Hsz2 [Hv1 Hv2] Htr. wp_steps. apply HQ. split; simpl; try done.
      * apply shrunk_set_size; [done|]. by eapply shrunk_trans.
      * destruct Hvn1. split; simpl; congruence.
      * intros k Hk. by apply Hint.
      * apply Htr.
    + intros d' Hs. apply HIO; [|done|done| |done].
      * eapply shrunk_trans; [done|]. by apply shrunk_same_disk.
      * intros k Hk. rewrite <- Hpos1 by lia. apply fblock_same_disk. intros _. apply Hs.
  - wp_steps. apply HQ. split; simpl; try done.
    + by apply shrunk_set_size.
    + intros k Hk. by apply Hint.
    + fold n. intros Hn. unfold SFS_NDIRECT, MAXBLOCKS in *. lia.
Qed.

(** ** What truncation means for the bytes of files *)

Lemma shrunk_fbyte f i f' i' o :
  file_ok f i → shrunk f i f' i' → 0 ≤ o < MAXBYTES →
  fblock f' i' (o / SFS_BLOCKSIZE) = fblock f i (o / SFS_BLOCKSIZE) → fbyte f' i' o = fbyte f i o.
Proof.
  intros Hok Hsk Ho Hk. unfold MAXBYTES, MAXBLOCKS, SFS_BLOCKSIZE in *.
  assert (0 ≤ o / 512 < 143) as Hr by (Z.div_mod_to_equations; lia).
  pose proof (fl_distinct _ _ Hok (o / 512) MAXBLOCKS) as Hd. rewrite fblock_indirect in Hd.
  rewrite (fblock_bmapZ f' i'), (fblock_bmapZ f i) in Hk by (unfold MAXBLOCKS; lia).
  rewrite fblock_bmapZ in Hd by (unfold MAXBLOCKS; lia). unfold fbyte, SFS_BLOCKSIZE. rewrite Hk.
  case_decide as Hz; [done|]. rewrite (sk_frame _ _ _ _ Hsk); [done|]. intros _ Heq.
  unfold MAXBLOCKS in Hd. specialize (Hd ltac:(lia) ltac:(lia) Heq Hz). lia.
Qed.

Lemma hole_fbyte f i o :
  0 ≤ o < MAXBYTES → fblock f i (o / SFS_BLOCKSIZE) = 0 → fbyte f i o = 0.
Proof.
  intros Ho Hk. unfold MAXBYTES, MAXBLOCKS, SFS_BLOCKSIZE in *.
  rewrite fblock_bmapZ in Hk by (unfold MAXBLOCKS; Z.div_mod_to_equations; lia).
  unfold fbyte, SFS_BLOCKSIZE. by rewrite Hk, decide_True.
Qed.

Lemma block_index o : 0 ≤ o < MAXBYTES → 0 ≤ o / SFS_BLOCKSIZE < MAXBLOCKS.
Proof. unfold MAXBYTES, MAXBLOCKS, SFS_BLOCKSIZE. intros. Z.div_mod_to_equations; lia. Qed.

Lemma keeps_below len o : 0 ≤ o < len → o / SFS_BLOCKSIZE < blocks_for len.
Proof. unfold blocks_for, SFS_BLOCKSIZE. intros. Z.div_mod_to_equations; lia. Qed.

(** Another file is not touched. *)
Lemma shrunk_other f i f' i' j :
  file_ok f j → (∀ b, owns f j b → ¬ owns f i b) → shrunk f i f' i' →
  file_ok f' j ∧ (∀ o, 0 ≤ o < MAXBYTES → fbyte f' j o = fbyte f j o) ∧
  (∀ b, owns f' j b → ¬ owns f' i' b).
Proof.
  intros Hj Hdisj Hsk. destruct (sk_freed _ _ _ _ Hsk) as [Hsub Hbits Hsb _].
  destruct (file_stable f f' j Hj Hsb) as (Hokj & Hfb & Hbj).
  { intros b Hb Ho. split.
    - apply (sk_frame _ _ _ _ Hsk). intros Hne ->. apply (Hdisj _ Ho). split; [done|].
      exists MAXBLOCKS. split; [unfold MAXBLOCKS; lia|apply fblock_indirect].
    - apply Hbits; [lia|]. destruct (Ho) as (Hne & k & Hk & <-). split; [by apply (fl_used _ _ Hj)|].
      left. by apply Hdisj. }
  split_and!; [done|done|]. intros b Ho Ho'.
  apply (Hdisj b); [unfold owns in *; by setoid_rewrite Hfb in Ho|].
  by apply (lists_sub (fblock f i) (fblock f' i')).
Qed.
End specs.

(** ** Properties *)

Section properties.
Context {D : Type} `{BlockDeviceLaws D} `{!ReliableWrites D}.
Implicit Types (f : sfs_fs D) (i : sfs_inode) (sv : sfs_vnode).

(** C40: [sfs_truncate] to a length below 2^31 - 511, on a disk none of whose
    writes fails.  On success the file has the new size, every byte below it is
    unchanged, and every block past it is discarded, with one exception: when
    the number [n] of blocks of the new length is 15 or more (so that block [n]
    is one of the indirect block), block [n], the first one past the new end,
    stays mapped and keeps its bytes, although the comment in the loop says that
    the blocks past the new end are discarded.  No block leaks: a block of the
    disk is in use afterwards exactly when it was in use before and is not one
    that the file lost.  When the indirect block cannot be read the call fails
    with EIO, keeps the size, and the file is still well formed.  It never
    panics. *)
Theorem sfs_truncate_correct f sv len :
  fs_ok f → file_ok f (sv_i sv) → 0 ≤ len < 2 ^ 31 - 511 →
  let n := blocks_for len in
  match sfs_truncate len (f, sv) with
  | (r, (f', sv')) =>
      fs_ok f' ∧ file_ok f' (sv_i sv') ∧
      (∀ b, 0 ≤ b → bit (sfs_freemap f') b = true ↔
         bit (sfs_freemap f) b = true ∧ (¬ owns f (sv_i sv) b ∨ owns f' (sv_i sv') b)) ∧
      (∀ o, 0 ≤ o < MAXBYTES → o < len → fbyte f' (sv_i sv') o = fbyte f (sv_i sv) o) ∧
      match r with
      | Ret _ => sfi_size (sv_i sv') = len ∧ sv_dirty sv' = true ∧
          (∀ k, 0 ≤ k < MAXBLOCKS → fblock f' (sv_i sv') k =
             if decide (k < n ∨ k = n ∧ SFS_NDIRECT ≤ n) then fblock f (sv_i sv) k else 0) ∧
          (∀ o, 0 ≤ o < MAXBYTES → fblock f' (sv_i sv') (o / SFS_BLOCKSIZE) = 0 → fbyte f' (sv_i sv') o = 0) ∧
          (SFS_NDIRECT ≤ n → ∀ o, 0 ≤ o < MAXBYTES → o / SFS_BLOCKSIZE = n → fbyte f' (sv_i sv') o = fbyte f (sv_i sv) o)
      | Fail e => e = EIO ∧ sfi_size (sv_i sv') = sfi_size (sv_i sv)
      | Halt _ => False
      end
  end.
Proof.
  intros Hfs Hok Hlen.
  eapply (wp_elim (sfs_truncate len) (λ r p, let '(f', sv') := p in _)).
  apply sfs_truncate_spec; [done..| |].
  - intros f' sv' [Hsk _ Hdy Hsz Hbl _]. destruct (Hsk) as [? ? [_ ? _] _ _ _].
    assert (∀ o, 0 ≤ o < MAXBYTES → trunc_keeps (blocks_for len) (o / SFS_BLOCKSIZE) →
      fbyte f' (sv_i sv') o = fbyte f (sv_i sv) o) as Hby.
    { intros o Ho Hk. eapply shrunk_fbyte; [done..|]. rewrite Hbl by (by apply block_index). by rewrite decide_True. }
    split_and!; try done.
    + intros o Ho Hlo. apply Hby; [done|]. left. apply keeps_below. lia.
    + intros o. apply hole_fbyte.
    + intros Hn o Ho Ho'. apply Hby; [done|]. by right.
  - intros f' sv' Hsk _ Hsz Hbl _. destruct (Hsk) as [? ? [_ ? _] _ _ _]. split_and!; try done.
    intros o Ho Hlo. eapply shrunk_fbyte; [done..|]. rewrite Hbl by (by apply block_index).
    rewrite decide_False; [done|]. pose proof (keeps_below len o). lia.
Qed.

(** truncating one file leaves every other file that shares no block with it
    well formed, with the same bytes, and still sharing no block with it,
    whether the truncation succeeds or fails. *)
Theorem sfs_truncate_isolation f sv len j r f' sv' :
  fs_ok f → file_ok f (sv_i sv) → 0 ≤ len < 2 ^ 31 - 511 →
  file_ok f j → (∀ b, owns f j b → ¬ owns f (sv_i sv) b) →
  sfs_truncate len (f, sv) = (r, (f', sv')) →
  file_ok f' j ∧ (∀ o, 0 ≤ o < MAXBYTES → fbyte f' j o = fbyte f j o) ∧
  (∀ b, owns f' j b → ¬ owns f' (sv_i sv') b).
Proof.
  intros Hfs Hok Hlen Hj Hdisj Hrun.
  assert (wp (sfs_truncate len) (λ _ p, shrunk f (sv_i sv) p.1 (sv_i p.2)) (f, sv)) as Hwp.
  { apply sfs_truncate_spec; [done..| |]; [by intros ? ? []|by intros]. }
  unfold wp in Hwp. rewrite Hrun in Hwp. simpl in Hwp. by eapply shrunk_other.
Qed.

(** the comparison in the loop over the indirect block keeps one block too
    many.  Truncating a file to a whole number of blocks within the indirect
    range leaves the block just past the new end mapped and in use. *)
Theorem sfs_truncate_keeps_extra_block f sv n f' sv' :
  fs_ok f → file_ok f (sv_i sv) → SFS_NDIRECT ≤ n < MAXBLOCKS → fblock f (sv_i sv) n ≠ 0 →
  sfs_truncate (n * SFS_BLOCKSIZE) (f, sv) = (Ret (), (f', sv')) →
  sfi_size (sv_i sv') = n * SFS_BLOCKSIZE ∧ fblock f' (sv_i sv') n = fblock f (sv_i sv) n ∧
  bit (sfs_freemap f') (fblock f (sv_i sv) n) = true.
Proof.
  intros Hfs Hok Hn Hne Hrun. unfold SFS_NDIRECT, MAXBLOCKS in Hn.
  assert (wp (sfs_truncate (n * SFS_BLOCKSIZE)) (λ r p, r = Ret () → truncated f sv (n * SFS_BLOCKSIZE) p.1 p.2)
    (f, sv)) as Hwp.
  { apply sfs_truncate_spec; [done..|unfold SFS_BLOCKSIZE; lia| |]; by intros. }
  unfold wp in Hwp. rewrite Hrun in Hwp. destruct (Hwp eq_refl) as [[_ Hok' _ _ _ _] _ _ Hsz Hbl _]. simpl in *.
  assert (blocks_for (n * SFS_BLOCKSIZE) = n) as Hb.
  { unfold blocks_for, SFS_BLOCKSIZE. Z.div_mod_to_equations; lia. }
  assert (fblock f' (sv_i sv') n = fblock f (sv_i sv) n) as Hsame.
  { rewrite Hbl by (unfold MAXBLOCKS; lia). rewrite decide_True; [done|]. rewrite Hb. right.
    unfold SFS_NDIRECT. lia. }
  split_and!; [done|done|]. rewrite <- Hsame. apply (fl_used _ _ Hok'); [unfold MAXBLOCKS; lia|congruence].
Qed.

(** [sfs_sync_inode] writes the inode to its block. *)
Lemma sfs_sync_inode_spec f sv Q :
  fs_ok f → file_ok f (sv_i sv) → 0 < sv_ino sv < sp_nblocks (sfs_sb f) →
  (sv_dirty sv = false → Q (Ret ()) (f, sv)) →
  (∀ d', sv_dirty sv = true → written (sfs_device f) (sv_ino sv) (encode_inode (sv_i sv)) d' →
     Q (Ret ()) (set_device d' f, set_dirty false sv)) →
  wp sfs_sync_inode Q (f, sv).
Proof.
  intros Hfs Hok Hino HQ HW. destruct (Hfs) as [Hdev Hnb Hfit _ _ _ _].
  unfold sfs_sync_inode. wp_steps. cbn [snd]. destruct (sv_dirty sv) eqn:Hdy; [|wp_steps; auto].
  wp_steps. apply sfs_wblock_spec; [done|lia|lia|apply length_encode_inode, Hok|].
  intros d' Hw. wp_steps. by apply HW.
Qed.

(** The inode on the disk is the one in memory, unless it is marked dirty. *)
Definition inode_synced f sv : Prop :=
  sv_dirty sv = false → decode_inode (sector (sfs_device f) (sv_ino sv)) = sv_i sv.

(** after [sfs_fsync] the block of the inode holds the inode: decoding it
    gives exactly the inode in memory.  The blocks, the bytes and the free map
    of the file are unchanged, and no other block of the disk is written. *)
Theorem sfs_fsync_correct f sv :
  fs_ok f → file_ok f (sv_i sv) → inode_synced f sv →
  0 < sv_ino sv < sp_nblocks (sfs_sb f) → ¬ owns f (sv_i sv) (sv_ino sv) →
  match sfs_fsync (f, sv) with
  | (Ret _, (f', sv')) =>
      decode_inode (sector (sfs_device f') (sv_ino sv)) = sv_i sv ∧
      sv_i sv' = sv_i sv ∧ sv_dirty sv' = false ∧ fs_ok f' ∧ file_ok f' (sv_i sv') ∧
      sfs_freemap f' = sfs_freemap f ∧
      (∀ o, 0 ≤ o < MAXBYTES → fbyte f' (sv_i sv') o = fbyte f (sv_i sv) o) ∧
      (∀ b, b ≠ sv_ino sv → sector (sfs_device f') b = sector (sfs_device f) b)
  | _ => False
  end.
Proof.
  intros Hfs Hok Hsync Hino Hno.
  eapply (wp_elim sfs_fsync (λ r p, match r with Ret _ => let '(f', sv') := p in _ | _ => False end)).
  apply sfs_sync_inode_spec; [done..| |].
  - intros Hdy. split_and!; try done. by apply Hsync.
  - intros d' _ (Hd & Hbl & Hsec). simpl.
    assert (∀ b, b ≠ sv_ino sv → sector d' b = sector (sfs_device f) b) as Hrest.
    { intros b Hb. by rewrite Hsec, decide_False. }
    destruct (file_stable f (set_device d' f) (sv_i sv) Hok eq_refl) as (Hok' & _ & Hby).
    { intros b Hb Ho. split; [apply Hrest; by intros ->|].
      destruct Ho as (Hne & k & Hk & <-). by apply (fl_used _ _ Hok). }
    split_and!; try done.
    + rewrite Hsec, decide_True by done. apply decode_encode_inode, Hok.
    + destruct Hfs. split; simpl; rewrite ?Hbl; done.
Qed.
End properties.

(** ** Witnesses, on the small volume *)

Lemma sfs_truncate_correct_witness :
  fs_ok (sfs_truncate 100 (example_fs [true] 240, example_vnode)).2.1.
Proof.
  pose proof (sfs_truncate_correct (example_fs [true] 240) example_vnode 100
    (example_fs_ok [true]) (example_file_ok [true]) ltac:(lia)) as Ht.
  destruct (sfs_truncate _ _) as [r [f' sv']]. apply Ht.
Defined.

(** The truncation of the first file to no bytes frees its blocks. *)
Definition emptied := sfs_truncate 0 (example_fs [] 240, small_vnode).

Lemma sfs_truncate_isolation_witness :
  file_ok emptied.2.1 other_inode ∧
  (∀ o, 0 ≤ o < MAXBYTES → fbyte emptied.2.1 other_inode o = fbyte (example_fs [] 240) other_inode o) ∧
  (∀ b, owns emptied.2.1 other_inode b → ¬ owns emptied.2.1 (sv_i emptied.2.2) b).
Proof.
  apply (sfs_truncate_isolation (example_fs [] 240) small_vnode 0 other_inode emptied.1 emptied.2.1 emptied.2.2).
  - apply example_fs_ok.
  - apply (small_file_ok 4 7); [done..|vm_compute; reflexivity].
  - lia.
  - apply (small_file_ok 6 0); [done..|vm_compute; reflexivity].
  - apply small_disjoint.
  - vm_compute. reflexivity.
Defined.

Definition cut_at_15 := sfs_truncate (15 * SFS_BLOCKSIZE) (example_fs [] 240, example_vnode).

(** Block 6, the sixteenth block of the file, stays in use. *)
Lemma sfs_truncate_keeps_extra_block_witness :
  sfi_size (sv_i cut_at_15.2.2) = 15 * SFS_BLOCKSIZE ∧
  fblock cut_at_15.2.1 (sv_i cut_at_15.2.2) 15 = 6 ∧
  bit (sfs_freemap cut_at_15.2.1) 6 = true.
Proof.
  assert (fblock (example_fs [] 240) (sv_i example_vnode) 15 = 6) as H6 by (vm_compute; reflexivity).
  rewrite <- H6.
  apply (sfs_truncate_keeps_extra_block (example_fs [] 240) example_vnode 15 cut_at_15.2.1 cut_at_15.2.2).
  - apply example_fs_ok.
  - apply example_file_ok.
  - unfold SFS_NDIRECT, MAXBLOCKS. lia.
  - vm_compute. discriminate.
  - vm_compute. reflexivity.
Defined.

Lemma sfs_fsync_correct_witness :
  match sfs_fsync (example_fs [] 240, set_inode example_inode example_vnode) with
  | (Ret _, (_, sv')) => sv_dirty sv' = false
  | _ => False
  end.
Proof.
  pose proof (sfs_fsync_correct (example_fs [] 240) (set_inode example_inode example_vnode)
    (example_fs_ok []) (example_file_ok [])) as Hf.
  assert (∀ k, 0 ≤ k ≤ MAXBLOCKS → fblock (example_fs [] 240) example_inode k ≠ 3) as Hno.
  { intros k Hk Heq. assert (all_range 0 144 (λ k, negb (fblock (example_fs [] 240) example_inode k =? 3)) = true)
      as Hall by (vm_compute; reflexivity).
    pose proof (all_range_spec _ _ _ Hall k) as Hc. unfold MAXBLOCKS in Hk. cbv beta in Hc.
    rewrite Heq in Hc. specialize (Hc ltac:(lia)). discriminate. }
  specialize (Hf ltac:(discriminate) ltac:(simpl; lia) ltac:(intros (_ & k & Hk & Heq); by apply (Hno k))).
  destruct (sfs_fsync _) as [[] [f' sv']]; [|done..]. apply Hf.
Defined.
