(* ===== verification/SfsDir.v ===== *)
(** * SFS: directories (kern/fs/sfs/sfs_vnode.c)

    A directory is a file of 64-byte entries, each an inode number and a name;
    inode number 0 marks a free slot.  Abstractly it is a finite map from names
    to inode numbers: [sfs_dir_findname] looks a name up, [sfs_dir_link] inserts
    one, [sfs_dir_unlink] deletes one. *)

From S2P Require Import Prelude Libc Bitmap CopyInOut Uio Device Lhd SfsDisk Vnode Sfs SfsMap SfsFile SfsSpec.

Definition DIRENT : Z := 64.

Section ops.
Context {D : Type} `{BlockDevice D}.
Abbreviation st := (sfs_fs D * sfs_vnode)%type.

(** The entry is returned; the caller's buffer is overwritten as a whole, or
    the call does not return 0. *)
Definition sfs_readdir (slot : Z) : M st sfs_dir :=
  let actualpos := s32 (slot * DIRENT) in
  r ← with_kbuf sfs_io (replicate (Z.to_nat DIRENT) 0) actualpos UIO_READ;
  _ ← assert (negb (uio_resid r.2 >? 0));
  mret (decode_dir r.1).

Definition sfs_writedir (sd : sfs_dir) (slot : Z) : M st unit :=
  _ ← assert (slot >=? 0);
  let actualpos := s32 (slot * DIRENT) in
  r ← with_kbuf sfs_io (encode_dir sd) actualpos UIO_WRITE;
  assert (negb (uio_resid r.2 >? 0)).

Definition sfs_dir_nentries : M st Z :=
  p ← get;
  let i := sv_i p.2 in
  _ ← assert (sfi_type i =? SFS_TYPE_DIR);
  let size := sfi_size i in
  _ ← assert (size mod DIRENT =? 0);
  mret (size / DIRENT).

(** The results of [sfs_dir_findname]: the inode and slot of the name (none is
    the result code ENOENT) and the last empty slot, -1 without one. *)
Record findres := { fd_found : option (Z * Z); fd_empty : Z }.

Fixpoint findname_loop (name : list Z) (slots : list Z) (acc : findres) : M st findres :=
  match slots with
  | [] => mret acc
  | i :: slots' =>
      tsd ← sfs_readdir i;
      if sfd_ino tsd =? SFS_NOINO then
        findname_loop name slots' {| fd_found := fd_found acc; fd_empty := i |}
      else
        nm ← deref (zstore (sfd_name tsd) (SFS_NAMELEN - 1) 0);
        c ← deref (strcmp nm name);
        if c =? 0 then
          _ ← assert (bool_decide (fd_found acc = None));
          findname_loop name slots' {| fd_found := Some (sfd_ino tsd, i); fd_empty := fd_empty acc |}
        else findname_loop name slots' acc
  end.

Definition sfs_dir_findname (name : list Z) : M st findres :=
  nentries ← sfs_dir_nentries;
  findname_loop name (seqZ 0 nentries) {| fd_found := None; fd_empty := -1 |}.

Definition sfs_dir_link (name : list Z) (ino : Z) : M st Z :=
  r ← sfs_dir_findname name;
  match fd_found r with
  | Some _ => fail EEXIST
  | None =>
      len ← deref (strlen name);
      if u32 (len + 1) >? SFS_NAMELEN then fail ENAMETOOLONG
      else
        slot ← (if fd_empty r <? 0 then sfs_dir_nentries else mret (fd_empty r));
        nm ← deref (strcpy (replicate (Z.to_nat SFS_NAMELEN) 0) name);
        _ ← sfs_writedir {| sfd_ino := ino; sfd_name := nm |} slot;
        mret slot
  end.

Definition sfs_dir_unlink (slot : Z) : M st unit :=
  sfs_writedir {| sfd_ino := SFS_NOINO; sfd_name := replicate (Z.to_nat SFS_NAMELEN) 0 |} slot.
End ops.

(** ** Entries *)

Fixpoint until0 (l : list Z) : list Z :=
  match l with
  | [] => []
  | c :: l' => if decide (c = 0) then [] else c :: until0 l'
  end.

(** The name of an entry: at most 59 characters. *)
Definition ename (sd : sfs_dir) : list Z := until0 (take 59 (sfd_name sd)).

Lemma cstr_until0 l r : cstr (l ++ 0 :: r) (until0 l).
Proof.
  induction l as [|c l IH]; simpl; [apply cstr_nil|]. case_decide; [subst; apply cstr_nil|].
  by apply cstr_push.
Qed.

Lemma until0_cstr s r : Forall (λ c, c ≠ 0) s → until0 (s ++ 0 :: r) = s.
Proof. induction 1 as [|c s Hc _ IH]; simpl; [done|]. rewrite decide_False by done. by f_equal. Qed.

Lemma until0_sub l c : c ∈ until0 l → c ∈ l ∧ c ≠ 0.
Proof.
  induction l as [|d l IH]; simpl; [by intros ?%elem_of_nil|]. case_decide; [by intros ?%elem_of_nil|].
  rewrite !elem_of_cons. naive_solver.
Qed.

Lemma ename_cstr sd : length (sfd_name sd) = 60%nat → cstr (<[59%nat := 0]> (sfd_name sd)) (ename sd).
Proof.
  intros Hl. rewrite insert_take_drop by lia. apply cstr_until0.
Qed.

(** The entry [sfs_dir_link] makes. *)
Lemma link_name s name :
  cstr name s → zlen s < SFS_NAMELEN →
  ∃ nm, strcpy (replicate (Z.to_nat SFS_NAMELEN) 0) name = Some nm ∧ length nm = 60%nat ∧
    (∀ ino, ename {| sfd_ino := ino; sfd_name := nm |} = s) ∧ (Forall is_u8 s → Forall is_u8 nm).
Proof.
  unfold SFS_NAMELEN. intros Hs Hlen. rewrite (strcpy_spec _ _ _ Hs) by (unfold zlen in *; rewrite length_replicate; lia).
  eexists. split; [done|]. rewrite drop_replicate. unfold zlen in Hlen. split_and!.
  - rewrite length_app, length_cons, length_replicate. lia.
  - intros ino. unfold ename. cbn [sfd_name]. rewrite take_app_ge by lia.
    destruct (59 - length s)%nat as [|k] eqn:Hk.
    + rewrite take_0, app_nil_r. destruct Hs as [Hs _]. clear -Hs.
      induction Hs as [|c s Hc _ IH]; simpl; [done|]. rewrite decide_False by done. by f_equal.
    + simpl. apply until0_cstr, Hs.
  - intros Hu. apply Forall_app. split; [done|]. constructor; [done|]. by apply Forall_replicate.
Qed.

Section specs.
Context {D : Type} `{BlockDeviceLaws D} `{!ReliableWrites D}.
Implicit Types (f : sfs_fs D) (i : sfs_inode) (sv : sfs_vnode).

Definition dslots i : Z := sfi_size i / DIRENT.
Definition dent f i (k : Z) : sfs_dir := decode_dir (frange f i (k * DIRENT) DIRENT).

(** The names of the entries of a directory in use are different. *)
Record dir_wf f i : Prop := {
  dw_fs : fs_ok f;
  dw_file : file_ok f i;
  dw_type : sfi_type i = SFS_TYPE_DIR;
  dw_size : sfi_size i mod DIRENT = 0;
  dw_max : sfi_size i ≤ MAXBYTES;
  dw_u8 : ∀ k, 0 ≤ k < dslots i → Forall is_u8 (sfd_name (dent f i k));
  dw_unique : ∀ j k, 0 ≤ j < dslots i → 0 ≤ k < dslots i →
    sfd_ino (dent f i j) ≠ SFS_NOINO → sfd_ino (dent f i k) ≠ SFS_NOINO →
    ename (dent f i j) = ename (dent f i k) → j = k;
}.

(** Slot [k] has the name [s] for the inode [ino]. *)
Definition slot_has f i (k : Z) (s : list Z) (ino : Z) : Prop :=
  0 ≤ k < dslots i ∧ sfd_ino (dent f i k) = ino ∧ ino ≠ SFS_NOINO ∧ ename (dent f i k) = s.

(** The directory represents the map [m]. *)
Definition dir_rep f i (m : gmap (list Z) Z) : Prop :=
  dir_wf f i ∧ ∀ s ino, m !! s = Some ino ↔ ∃ k, slot_has f i k s ino.

Lemma dir_size f i : dir_wf f i → sfi_size i = dslots i * DIRENT ∧ 0 ≤ dslots i.
Proof.
  intros [_ Hok _ Hs _ _ _]. pose proof (io_size _ (fl_inode _ _ Hok)) as Hu. unfold is_u32, dslots, DIRENT in *.
  Z.div_mod_to_equations. lia.
Qed.

Lemma dent_len f i k : length (sfd_name (dent f i k)) = 60%nat.
Proof.
  unfold dent, decode_dir. cbn [sfd_name]. rewrite length_drop.
  pose proof (frange_len f i (k * DIRENT) DIRENT ltac:(done)) as Hl. unfold zlen, DIRENT in *. lia.
Qed.

Lemma sfs_readdir_spec f sv k Q :
  dir_wf f (sv_i sv) → 0 ≤ k < dslots (sv_i sv) →
  (∀ d', same_disk (sfs_device f) d' → Q (Ret (dent f (sv_i sv) k)) (set_device d' f, sv)) →
  (∀ d', same_disk (sfs_device f) d' → Q (Fail EIO) (set_device d' f, sv)) →
  wp (sfs_readdir k) Q (f, sv).
Proof.
  intros Hwf Hk HQ HF. destruct (dir_size _ _ Hwf) as [Hsz _]. pose proof (dw_max _ _ Hwf) as Hmax.
  unfold MAXBYTES, MAXBLOCKS, SFS_BLOCKSIZE, DIRENT in *.
  unfold sfs_readdir, DIRENT. cbv zeta. rewrite s32_small by lia. wp_step. apply with_kbuf_spec.
  set (s := kbuf_request _ _ _).
  assert (io_req f sv s UIO_READ) as Hreq.
  { split; [apply Hwf|apply Hwf|apply kbuf_request_ok; [done|lia]|done|simpl; lia|simpl; unfold zlen; simpl; lia]. }
  eapply wp_mono; [apply sfs_io_read_spec; [done|done|lia]|].
  change (uio_resid (u s)) with 64. change (uio_offset (u s)) with (k * 64).
  unfold read_len. rewrite Z.max_r, Z.min_l by lia.
  intros r [[f1 sv1] s1] [(d1 & Hs1 & Hp & _) Hr]. simpl in Hp. injection Hp as -> ->. cbn [fst snd].
  destruct r as [[]|e|]; [| |done].
  - destruct Hr as [[Hu Hm _] _]. cbn [fst snd] in Hu, Hm. exists (frange f (sv_i sv) (k * 64) 64). split_and!.
    + pose proof (frange_len f (sv_i sv) (k * 64) 64 ltac:(done)) as Hl. unfold zlen in Hl.
      rewrite length_replicate. lia.
    + by apply (stored_bytes_at (mem s)).
    + rewrite Hu, frange_len by done. wp_steps. apply wp_assert; [done|]. wp_steps. by apply HQ.
  - destruct Hr as [->|[[-> Hn]|[-> Hbig]]]; [by apply HF|done|].
    change (uio_offset (u s)) with (k * 64) in Hbig. unfold MAXBYTES, MAXBLOCKS, SFS_BLOCKSIZE in Hbig. lia.
Qed.

(** ** Directories with the same bytes *)

Lemma dent_ext f i f' i' k :
  (∀ o, 0 ≤ o < MAXBYTES → fbyte f' i' o = fbyte f i o) → 0 ≤ k → (k + 1) * DIRENT ≤ MAXBYTES →
  dent f' i' k = dent f i k.
Proof.
  intros Hb Hk Hm. unfold dent. f_equal. apply frange_ext. intros o Ho. apply Hb.
  unfold DIRENT in *. lia.
Qed.

Lemma dir_rep_ext f i f' i' m :
  dir_rep f i m → fs_ok f' → file_ok f' i' → sfi_type i' = sfi_type i → sfi_size i' = sfi_size i →
  (∀ o, 0 ≤ o < MAXBYTES → fbyte f' i' o = fbyte f i o) → dir_rep f' i' m.
Proof.
  intros [Hwf Hm] Hfs Hok Hty Hsz Hb. destruct (dir_size _ _ Hwf) as [Hs _].
  assert (dslots i' = dslots i) as Hd by (unfold dslots; by rewrite Hsz).
  assert (∀ k, 0 ≤ k < dslots i → dent f' i' k = dent f i k) as He.
  { intros k Hk. apply dent_ext; [done|lia|]. pose proof (dw_max _ _ Hwf). unfold DIRENT in *. lia. }
  split.
  - destruct Hwf. split; rewrite ?Hd, ?Hty, ?Hsz; try done.
    + intros k Hk. rewrite He by done. auto.
    + intros j k Hj Hk. rewrite !He by done. auto.
  - intros s ino. rewrite Hm. unfold slot_has. rewrite Hd.
    split; intros (k & Hk & Hrest); exists k; (split; [done|]); rewrite He in *; done.
Qed.

Lemma dir_rep_same_disk f i m d' :
  dir_rep f i m → same_disk (sfs_device f) d' → dir_rep (set_device d' f) i m.
Proof.
  intros Hrep Hs. destruct (Hrep) as [[Hfs Hok _ _ _ _ _] _].
  destruct (file_stable f (set_device d' f) i Hok eq_refl) as (Hok' & _ & Hby).
  { intros b Hb (Hne & k & Hk & <-). split; [apply Hs|]. by apply (fl_used _ _ Hok). }
  apply (dir_rep_ext f i); try done. by apply same_disk_ok.
Qed.

(** ** Writing an entry *)

(** [f', sv'] is [f, sv] with [sd] in slot [k]. *)
Record dir_set f sv (k : Z) (sd : sfs_dir) f' sv' : Prop := {
  ds_step : svstep f sv f' sv';
  ds_size : sfi_size (sv_i sv') = Z.max (sfi_size (sv_i sv)) ((k + 1) * DIRENT);
  ds_fits : (k + 1) * DIRENT ≤ MAXBYTES;
  ds_ent : ∀ j, 0 ≤ j → (j + 1) * DIRENT ≤ MAXBYTES →
    dent f' (sv_i sv') j = if decide (j = k) then sd else dent f (sv_i sv) j;
}.

Lemma frange_slot f i f' i' k j bs :
  zlen bs = DIRENT → 0 ≤ j → (j + 1) * DIRENT ≤ MAXBYTES →
  (∀ o, 0 ≤ o < MAXBYTES → fbyte f' i' o =
     if decide (k * DIRENT ≤ o < k * DIRENT + zlen bs) then default 0 (bs !z (o - k * DIRENT)) else fbyte f i o) →
  frange f' i' (j * DIRENT) DIRENT = if decide (j = k) then bs else frange f i (j * DIRENT) DIRENT.
Proof.
  intros Hl Hj Hm Hb. rewrite Hl in Hb. unfold DIRENT in *. case_decide as Hjk; [subst j|].
  - apply list_eq_same_length with (length bs); [done|..].
    + pose proof (frange_len f' i' (k * 64) 64 ltac:(done)). unfold zlen in *. lia.
    + intros n x y Hn Hx Hy. unfold frange in Hx.
      apply list_lookup_fmap_Some in Hx as (z & -> & [-> Hz]%lookup_seqZ).
      rewrite Hb by lia. rewrite decide_True by lia.
      replace (k * 64 + (0 + Z.of_nat n) - k * 64) with (Z.of_nat n) by lia.
      by rewrite zlookup_nat, Nat2Z.id, Hy by lia.
  - apply frange_ext. intros o Ho. rewrite Hb by lia. by rewrite decide_False by lia.
Qed.

Lemma sfs_writedir_spec f sv sd k Q :
  dir_wf f (sv_i sv) → dir_ok sd → 0 ≤ k ≤ dslots (sv_i sv) →
  (∀ f' sv', dir_set f sv k sd f' sv' → Q (Ret ()) (f', sv')) →
  (∀ e f' sv', quiet f sv f' sv' →
     (e = EIO ∨ e = ENOSPC ∨ e = EINVAL ∧ MAXBYTES < (k + 1) * DIRENT) → Q (Fail e) (f', sv')) →
  wp (sfs_writedir sd k) Q (f, sv).
Proof.
  intros Hwf Hsd Hk HQ HF. destruct (dir_size _ _ Hwf) as [Hsz _]. pose proof (dw_max _ _ Hwf) as Hmax.
  pose proof (length_encode_dir sd Hsd) as Hlen. assert (MAXBYTES = 143 * 512) as HM by done.
  unfold sfs_writedir. wp_step. apply wp_assert; [rewrite Z.geb_leb; lia|].
  unfold DIRENT in *. cbv zeta. rewrite s32_small by lia. wp_step. apply with_kbuf_spec.
  set (s := kbuf_request _ _ _).
  assert (io_req f sv s UIO_WRITE) as Hreq.
  { split; [apply Hwf|apply Hwf|apply kbuf_request_ok; [lia|lia]|done|simpl; lia|simpl; lia]. }
  assert (uio_resid (u s) = 64) as Hres by done.
  eapply wp_mono; [apply sfs_io_write_spec; [done|lia|lia]|].
  intros r [[f1 sv1] s1] (bs & [Hst Hsize Hby [Hat Hs1] Hok1 Hfit] & Hle & Hr). cbn [fst snd] in *.
  change (uio_offset (u s)) with (k * 64) in *.
  destruct r as [[]|e|]; [| |done].
  - assert (bs = encode_dir sd) as ->.
    { eapply bytes_at_unique; [|exact Hat|apply kernel_buffer_at]. unfold zlen in *. lia. }
    exists (encode_dir sd). split_and!; [done|subst s1; apply kernel_buffer_at|].
    subst s1. cbn [u set_u]. unfold advance. cbn [uio_resid]. rewrite Hres, Hlen. wp_steps.
    apply wp_assert; [done|]. apply HQ. split; [done|rewrite Hsize, Hlen; unfold DIRENT; f_equal; lia|unfold DIRENT; lia|].
    intros j Hj Hjm. unfold dent. rewrite (frange_slot f (sv_i sv) f1 (sv_i sv1) k j (encode_dir sd)); [|done..].
    case_decide; [by apply decode_encode_dir|done].
  - destruct Hr as (Hlt & Hb & He). rewrite Hres in Hlt, He. change (uio_offset (u s)) with (k * 64) in Hb.
    assert (zlen bs = 0) as Hz.
    { destruct Hb as [|Hb]; [done|]. pose proof (zlen_nonneg bs). unfold SFS_BLOCKSIZE in Hb.
      Z.div_mod_to_equations. lia. }
    apply HF.
    + split; [done|rewrite Hsize; lia|]. intros o Ho. rewrite Hby by done. by rewrite decide_False by lia.
    + destruct He as [->|[->|[[-> []]|[-> Hbig]]]]; [auto|auto|done|]. right; right. split; [done|].
      change (uio_offset (u s)) with (k * 64) in Hbig. lia.
Qed.

(** ** Looking a name up *)

Lemma sfs_dir_nentries_spec f sv Q :
  dir_wf f (sv_i sv) → Q (Ret (dslots (sv_i sv))) (f, sv) → wp sfs_dir_nentries Q (f, sv).
Proof.
  intros Hwf HQ. unfold sfs_dir_nentries. wp_step. wp_step. cbn [snd]. wp_step.
  apply wp_assert; [rewrite (dw_type _ _ Hwf); done|]. wp_step.
  apply wp_assert; [rewrite (dw_size _ _ Hwf); done|]. wp_step. exact HQ.
Qed.

(** What the search for [s] knows after the slots below [n]. *)
Record searched f i (s : list Z) (n : Z) (r : findres) : Prop := {
  se_found : ∀ ino k, fd_found r = Some (ino, k) → slot_has f i k s ino ∧ k < n;
  se_none : fd_found r = None → ∀ ino k, slot_has f i k s ino → n ≤ k;
  se_empty : fd_empty r = -1 ∨ 0 ≤ fd_empty r < dslots i ∧ sfd_ino (dent f i (fd_empty r)) = SFS_NOINO;
}.

Lemma dent_same_disk f i d' k :
  dir_wf f i → same_disk (sfs_device f) d' → 0 ≤ k < dslots i →
  dent (set_device d' f) i k = dent f i k.
Proof.
  intros Hwf Hs Hk. destruct (dir_size _ _ Hwf) as [Hsz _]. pose proof (dw_max _ _ Hwf) as Hmax.
  destruct (file_stable f (set_device d' f) i (dw_file _ _ Hwf) eq_refl) as (_ & _ & Hby).
  { intros b Hb (Hne & j & Hj & <-). split; [apply Hs|]. by apply (fl_used _ _ (dw_file _ _ Hwf)). }
  apply dent_ext; [done|lia|]. unfold DIRENT in *. lia.
Qed.

Lemma slot_has_same_disk f i d' k s ino :
  dir_wf f i → same_disk (sfs_device f) d' →
  slot_has (set_device d' f) i k s ino ↔ slot_has f i k s ino.
Proof.
  intros Hwf Hs. unfold slot_has.
  split; intros (Hk & Hrest); (split; [done|]); by rewrite dent_same_disk in *.
Qed.

Lemma slot_has_unique f i k k' s ino ino' :
  dir_wf f i → slot_has f i k s ino → slot_has f i k' s ino' → k = k' ∧ ino = ino'.
Proof.
  intros Hwf (Hk & Hi & Hne & Hn) (Hk' & Hi' & Hne' & Hn').
  assert (k = k') as -> by (apply (dw_unique _ _ Hwf); congruence). split; congruence.
Qed.

(** One more slot. *)
Lemma searched_empty f i s n r :
  searched f i s n r → 0 ≤ n < dslots i → sfd_ino (dent f i n) = SFS_NOINO →
  searched f i s (n + 1) {| fd_found := fd_found r; fd_empty := n |}.
Proof.
  intros [Hf Hn He] Hr Hz. split; simpl.
  - intros ino k Hk. destruct (Hf ino k Hk). split; [done|lia].
  - intros Hk ino k Hs. specialize (Hn Hk ino k Hs). destruct (decide (k = n)) as [->|]; [|lia].
    destruct Hs as (_ & Hi & Hne & _). congruence.
  - right. done.
Qed.

Lemma searched_other f i s n r :
  searched f i s n r → ename (dent f i n) ≠ s → searched f i s (n + 1) r.
Proof.
  intros [Hf Hn He] Hne. split; [| |done].
  - intros ino k Hk. destruct (Hf ino k Hk). split; [done|lia].
  - intros Hk ino k Hs. specialize (Hn Hk ino k Hs). destruct (decide (k = n)) as [->|]; [|lia].
    by destruct Hs as (_ & _ & _ & ?).
Qed.

Lemma searched_found f i s n r :
  dir_wf f i → searched f i s n r → 0 ≤ n < dslots i → sfd_ino (dent f i n) ≠ SFS_NOINO →
  ename (dent f i n) = s →
  fd_found r = None ∧
  searched f i s (n + 1) {| fd_found := Some (sfd_ino (dent f i n), n); fd_empty := fd_empty r |}.
Proof.
  intros Hwf [Hf Hn He] Hr Hne Hs.
  assert (slot_has f i n s (sfd_ino (dent f i n))) as Hhas by done.
  split.
  - destruct (fd_found r) as [[ino k]|] eqn:Hk; [|done]. destruct (Hf ino k eq_refl) as [Hh Hlt].
    destruct (slot_has_unique _ _ _ _ _ _ _ Hwf Hh Hhas). lia.
  - split; simpl; [|done|done]. intros ino k [= <- <-]. split; [done|lia].
Qed.

Lemma searched_same_disk f i d' s n r :
  dir_wf f i → same_disk (sfs_device f) d' → searched f i s n r → searched (set_device d' f) i s n r.
Proof.
  intros Hwf Hs [Hf Hn He]. pose proof (λ k s ino, slot_has_same_disk f i d' k s ino Hwf Hs) as Hsh.
  split.
  - intros ino k Hk. rewrite Hsh. auto.
  - intros Hk ino k Hh. rewrite Hsh in Hh. by apply (Hn Hk ino).
  - destruct He as [He|[Hr He]]; [by left|right]. split; [done|]. by rewrite dent_same_disk.
Qed.

Lemma findname_loop_spec name s cnt : ∀ f sv n r m Q,
  cstr name s → Forall is_u8 s → dir_rep f (sv_i sv) m → 0 ≤ n → n + Z.of_nat cnt = dslots (sv_i sv) →
  searched f (sv_i sv) s n r →
  (∀ d' r', same_disk (sfs_device f) d' → searched (set_device d' f) (sv_i sv) s (dslots (sv_i sv)) r' →
     Q (Ret r') (set_device d' f, sv)) →
  (∀ d', same_disk (sfs_device f) d' → Q (Fail EIO) (set_device d' f, sv)) →
  wp (findname_loop name (seqZ n (Z.of_nat cnt)) r) Q (f, sv).
Proof.
  induction cnt as [|cnt IH]; intros f sv n r m Q Hs Hus Hrep Hn Hcnt Hse HQ HF.
  { cbn [findname_loop seqZ]. change (seqZ n (Z.of_nat 0)) with (@nil Z). cbn [findname_loop]. wp_step.
    rewrite <- (set_device_id f). rewrite <- (set_device_id f) in Hse. destruct (Hrep) as [[Hfs _ _ _ _ _ _] _].
    apply HQ; [by apply same_disk_refl|]. by replace (dslots (sv_i sv)) with n by lia. }
  rewrite seqZ_cons by lia. cbn [findname_loop].
  replace (Z.pred (Z.of_nat (S cnt))) with (Z.of_nat cnt) by lia. replace (Z.succ n) with (n + 1) by lia.
  destruct (Hrep) as [Hwf _]. wp_step. apply sfs_readdir_spec; [done|lia| |done].
  intros d1 Hs1. pose proof (dir_rep_same_disk _ _ _ _ Hrep Hs1) as Hrep1.
  pose proof (searched_same_disk _ _ _ _ _ _ Hwf Hs1 Hse) as Hse1.
  assert (dent (set_device d1 f) (sv_i sv) n = dent f (sv_i sv) n) as Hd by (apply dent_same_disk; [done|done|lia]).
  assert (∀ r1, searched (set_device d1 f) (sv_i sv) s (n + 1) r1 →
    wp (findname_loop name (seqZ (n + 1) (Z.of_nat cnt)) r1) Q (set_device d1 f, sv)) as Hnext.
  { intros r1 Hr1. eapply (IH (set_device d1 f)); [done|done|exact Hrep1|lia|lia|exact Hr1| |].
    - intros d2 r2 Hs2 Hr2. rewrite set_device_twice in *. apply HQ; [|done]. by eapply same_disk_trans.
    - intros d2 Hs2. rewrite set_device_twice. apply HF. by eapply same_disk_trans. }
  rewrite <- Hd. set (sd := dent (set_device d1 f) (sv_i sv) n) in *. destruct (Hrep1) as [Hwf1 _].
  destruct (Z.eqb_spec (sfd_ino sd) SFS_NOINO) as [Hz|Hnz].
  { apply Hnext. apply searched_empty; [done|lia|done]. }
  pose proof (dent_len (set_device d1 f) (sv_i sv) n) as Hl. fold sd in Hl.
  wp_step. eapply wp_deref; [apply zstore_in; unfold zlen, SFS_NAMELEN; lia|]. wp_step.
  destruct (strcmp_spec (<[Z.to_nat (SFS_NAMELEN - 1) := 0]> (sfd_name sd)) name (ename sd) s) as (c & Hc & Hc0 & _);
    [by apply ename_cstr|done| |done|].
  { apply Forall_forall. intros x Hx. apply until0_sub in Hx as [Hx _]. apply elem_of_take in Hx as (j & Hx & _).
    pose proof (dw_u8 _ _ Hwf1 n ltac:(lia)) as Hu. rewrite Forall_lookup in Hu. by eapply Hu. }
  eapply wp_deref; [exact Hc|]. destruct (Z.eqb_spec c 0) as [Hcz|Hcz].
  - destruct (searched_found _ _ _ _ _ Hwf1 Hse1 ltac:(lia) Hnz (proj1 Hc0 Hcz)) as [Hnone Hnew].
    wp_step. apply wp_assert; [by apply bool_decide_eq_true_2|]. by apply Hnext.
  - apply Hnext. apply searched_other; [done|]. intros He. by apply Hcz, Hc0.
Qed.

Lemma sfs_dir_findname_spec name s f sv m Q :
  cstr name s → Forall is_u8 s → dir_rep f (sv_i sv) m →
  (∀ d' r, same_disk (sfs_device f) d' → dir_rep (set_device d' f) (sv_i sv) m →
     searched (set_device d' f) (sv_i sv) s (dslots (sv_i sv)) r → Q (Ret r) (set_device d' f, sv)) →
  (∀ d', same_disk (sfs_device f) d' → Q (Fail EIO) (set_device d' f, sv)) →
  wp (sfs_dir_findname name) Q (f, sv).
Proof.
  intros Hs Hus Hrep HQ HF. destruct (Hrep) as [Hwf _]. destruct (dir_size _ _ Hwf) as [_ Hd].
  unfold sfs_dir_findname. wp_step. apply sfs_dir_nentries_spec; [done|].
  rewrite <- (Z2Nat.id (dslots (sv_i sv))) by done.
  eapply findname_loop_spec; [done|done|done|lia|lia| | |done].
  - split; simpl; [done| |by left]. intros _ ino k (Hk & _). lia.
  - intros d' r Hsd Hr. apply HQ; [done|by apply dir_rep_same_disk|done].
Qed.

(** The answer of a complete search. *)
Lemma searched_lookup f i m s r :
  dir_rep f i m → searched f i s (dslots i) r → m !! s = fst <$> fd_found r.
Proof.
  intros [Hwf Hm] [Hf Hn _]. destruct (fd_found r) as [[ino k]|]; simpl.
  - apply Hm. exists k. by apply Hf.
  - destruct (m !! s) as [ino|] eqn:Hl; [|done]. apply Hm in Hl as (k & Hk).
    pose proof (Hn eq_refl ino k Hk). destruct Hk as (Hk & _). lia.
Qed.

(** ** Inserting and deleting *)

Lemma dir_set_slots f sv k sd f' sv' :
  dir_wf f (sv_i sv) → 0 ≤ k ≤ dslots (sv_i sv) → dir_set f sv k sd f' sv' →
  dslots (sv_i sv') = Z.max (dslots (sv_i sv)) (k + 1) ∧ sfi_size (sv_i sv') mod DIRENT = 0 ∧
  (∀ j, 0 ≤ j < dslots (sv_i sv') → dent f' (sv_i sv') j = if decide (j = k) then sd else dent f (sv_i sv) j).
Proof.
  intros Hwf Hk [Hst Hsz Hfit Hent]. destruct (dir_size _ _ Hwf) as [Hs _]. pose proof (dw_max _ _ Hwf).
  assert (dslots (sv_i sv') = Z.max (dslots (sv_i sv)) (k + 1) ∧ sfi_size (sv_i sv') mod DIRENT = 0) as [Hd Hm].
  { unfold dslots at 1. rewrite Hsz, Hs. unfold DIRENT in *.
    rewrite Z.mul_max_distr_nonneg_r by lia. rewrite Z.div_mul, Z.mod_mul by lia. done. }
  split_and!; [done|done|]. rewrite Hd. intros j Hj. apply Hent; [lia|]. unfold DIRENT in *. lia.
Qed.

(** The well-formedness that does not depend on which entry was written. *)
Lemma dir_set_wf f sv k sd f' sv' :
  dir_wf f (sv_i sv) → 0 ≤ k ≤ dslots (sv_i sv) → dir_set f sv k sd f' sv' →
  Forall is_u8 (sfd_name sd) →
  (sfd_ino sd ≠ SFS_NOINO → ∀ j, 0 ≤ j < dslots (sv_i sv) → j ≠ k →
     sfd_ino (dent f (sv_i sv) j) ≠ SFS_NOINO → ename (dent f (sv_i sv) j) ≠ ename sd) →
  dir_wf f' (sv_i sv').
Proof.
  intros Hwf Hk Hset Hu Huniq. destruct (dir_set_slots _ _ _ _ _ _ Hwf Hk Hset) as (Hd & Hm & Hent).
  destruct (Hset) as [[[Hfs' Hok' _ _ (Hty & _) _ _] _ _ _] Hsz Hfit _]. destruct (Hwf) as [_ _ Hty0 _ Hmax Hu8 Hdist].
  split; try done; [congruence|rewrite Hsz; lia|..].
  - intros j Hj. rewrite Hent by done. case_decide; [done|]. apply Hu8. lia.
  - intros j1 j2 Hj1 Hj2. rewrite !Hent by done. intros H1 H2 Heq.
    destruct (decide (j1 = k)) as [->|Hn1], (decide (j2 = k)) as [->|Hn2]; [done|..].
    + destruct (Huniq H1 j2); [lia|done|done|done].
    + destruct (Huniq H2 j1); [lia|done|done|done].
    + apply Hdist; [lia|lia|done..].
Qed.

Lemma dir_set_has f sv k sd f' sv' j s ino :
  dir_wf f (sv_i sv) → 0 ≤ k ≤ dslots (sv_i sv) → dir_set f sv k sd f' sv' →
  slot_has f' (sv_i sv') j s ino ↔
    if decide (j = k) then sfd_ino sd = ino ∧ ino ≠ SFS_NOINO ∧ ename sd = s
    else slot_has f (sv_i sv) j s ino.
Proof.
  intros Hwf Hk Hset. destruct (dir_set_slots _ _ _ _ _ _ Hwf Hk Hset) as (Hd & _ & Hent).
  unfold slot_has. split.
  - intros (Hj & Hrest). rewrite Hent in Hrest by done. case_decide; [done|]. split; [lia|done].
  - case_decide as Hjk.
    + subst j. intros Hrest. split; [lia|]. rewrite Hent by lia. by rewrite decide_True.
    + intros (Hj & Hrest). split; [lia|]. rewrite Hent by lia. by rewrite decide_False.
Qed.

Lemma dir_insert f sv m k sd f' sv' :
  dir_rep f (sv_i sv) m → 0 ≤ k ≤ dslots (sv_i sv) → dir_set f sv k sd f' sv' →
  Forall is_u8 (sfd_name sd) → sfd_ino sd ≠ SFS_NOINO → m !! ename sd = None →
  (k < dslots (sv_i sv) → sfd_ino (dent f (sv_i sv) k) = SFS_NOINO) →
  dir_rep f' (sv_i sv') (<[ename sd := sfd_ino sd]> m).
Proof.
  intros [Hwf Hm] Hk Hset Hu Hino Hnew Hfree. split.
  - eapply dir_set_wf; [done..|]. intros _ j Hj Hjk Hnz Heq.
    assert (m !! ename sd = Some (sfd_ino (dent f (sv_i sv) j))) as Hl by (apply Hm; by exists j).
    congruence.
  - intros s ino. setoid_rewrite (dir_set_has f sv k sd f' sv'); [|done..].
    assert (∀ s' ino', ¬ slot_has f (sv_i sv) k s' ino') as Hno.
    { intros s' ino' (Hr & Hi & Hne & _). rewrite Hfree in Hi by lia. congruence. }
    split.
    + intros [[<- <-]|[Hne Hl]]%lookup_insert_Some; [exists k; by rewrite decide_True|].
      apply Hm in Hl as (j & Hj). exists j. rewrite decide_False; [done|]. intros ->. by eapply Hno.
    + intros (j & Hj). case_decide as Hjk; [destruct Hj as (<- & _ & <-); apply lookup_insert_eq|].
      assert (m !! s = Some ino) as Hl by (apply Hm; by exists j).
      rewrite lookup_insert_ne; [done|]. intros <-. congruence.
Qed.

Lemma dir_delete f sv m k s ino sd f' sv' :
  dir_rep f (sv_i sv) m → slot_has f (sv_i sv) k s ino → dir_set f sv k sd f' sv' →
  Forall is_u8 (sfd_name sd) → sfd_ino sd = SFS_NOINO →
  dir_rep f' (sv_i sv') (delete s m).
Proof.
  intros [Hwf Hm] Hhas Hset Hu Hino. assert (0 ≤ k ≤ dslots (sv_i sv)) as Hk by (destruct Hhas; lia). split.
  - eapply dir_set_wf; [done..|]. intros Hne. by destruct Hne.
  - intros s' ino'. setoid_rewrite (dir_set_has f sv k sd f' sv'); [|done..]. split.
    + intros [Hne Hl]%lookup_delete_Some. apply Hm in Hl as (j & Hj). exists j. rewrite decide_False; [done|].
      intros ->. destruct Hhas as (_ & _ & _ & ?), Hj as (_ & _ & _ & ?). congruence.
    + intros (j & Hj). case_decide as Hjk; [destruct Hj as (? & ? & _); congruence|].
      apply lookup_delete_Some. split; [|apply Hm; by exists j]. intros <-.
      by destruct (slot_has_unique _ _ _ _ _ _ _ Hwf Hhas Hj).
Qed.

Lemma quiet_dir_rep f sv f' sv' m :
  dir_rep f (sv_i sv) m → quiet f sv f' sv' → dir_rep f' (sv_i sv') m.
Proof.
  intros Hrep [[[? ? _ _ (? & _) _ _] _ _ _] Hsz Hby]. by apply (dir_rep_ext f (sv_i sv)).
Qed.

Lemma quiet_slot_has f sv f' sv' k s ino :
  dir_wf f (sv_i sv) → quiet f sv f' sv' → slot_has f (sv_i sv) k s ino → slot_has f' (sv_i sv') k s ino.
Proof.
  intros Hwf [_ Hsz Hb] (Hk & Hino & Hnz & Hn). destruct (dir_size _ _ Hwf) as [Hs _]. pose proof (dw_max _ _ Hwf).
  unfold slot_has. replace (dslots (sv_i sv')) with (dslots (sv_i sv)) by (unfold dslots; by rewrite Hsz).
  rewrite (dent_ext f (sv_i sv) f' (sv_i sv')); [done|done|lia|]. unfold DIRENT in *. lia.
Qed.

(** The outcomes of [sfs_dir_link]. *)
Definition link_errno i (m : gmap (list Z) Z) (s : list Z) (e : errno) : Prop :=
  match e with
  | EEXIST => is_Some (m !! s)
  | ENAMETOOLONG => m !! s = None ∧ SFS_NAMELEN ≤ zlen s
  | EINVAL => m !! s = None ∧ MAXBYTES < sfi_size i + DIRENT
  | EIO => True
  | ENOSPC => m !! s = None
  | _ => False
  end.

Lemma sfs_dir_link_spec name s f sv m ino Q :
  cstr name s → Forall is_u8 s → zlen s < 2 ^ 32 - 1 → dir_rep f (sv_i sv) m → is_u32 ino → ino ≠ SFS_NOINO →
  (∀ k f' sv', svstep f sv f' sv' → dir_rep f' (sv_i sv') (<[s := ino]> m) →
     slot_has f' (sv_i sv') k s ino →
     (∀ j s' a, slot_has f (sv_i sv) j s' a → slot_has f' (sv_i sv') j s' a) →
     m !! s = None → Q (Ret k) (f', sv')) →
  (∀ e f' sv', svstep f sv f' sv' → dir_rep f' (sv_i sv') m → link_errno (sv_i sv) m s e →
     Q (Fail e) (f', sv')) →
  wp (sfs_dir_link name ino) Q (f, sv).
Proof.
  intros Hs Hus Hlong Hrep Hino Hnz HQ HF. destruct (Hrep) as [Hwf _]. destruct (Hwf) as [Hfs Hok _ _ _ _ _].
  assert (∀ d', same_disk (sfs_device f) d' → svstep f sv (set_device d' f) sv) as Hsd.
  { intros d' Hd. apply (qt_step _ _ _ _ (same_disk_quiet f sv d' Hfs Hok Hd)). }
  unfold sfs_dir_link. wp_step. eapply sfs_dir_findname_spec; [done..| |].
  2: { intros d' Hd. apply HF; [auto|by apply dir_rep_same_disk|done]. }
  intros d1 r Hd1 Hrep1 Hse. pose proof (searched_lookup _ _ _ _ _ Hrep1 Hse) as Hlook.
  destruct (fd_found r) as [[ino1 k1]|]; simpl in Hlook.
  { wp_step. apply HF; [auto|done|]. simpl. by rewrite Hlook. }
  wp_step. eapply wp_deref; [by apply strlen_cstr|]. pose proof (zlen_nonneg s).
  rewrite u32_small by (unfold is_u32; lia). rewrite Z.gtb_ltb.
  destruct (Z.ltb_spec SFS_NAMELEN (zlen s + 1)) as [Hbig|Hfit].
  { wp_step. apply HF; [auto|done|]. simpl. split; [done|]. unfold SFS_NAMELEN in *. lia. }
  destruct (Hrep1) as [Hwf1 _]. destruct (dir_size _ _ Hwf1) as [Hsz1 Hds].
  assert (∃ k, (k < dslots (sv_i sv) → sfd_ino (dent (set_device d1 f) (sv_i sv) k) = SFS_NOINO) ∧
    0 ≤ k ≤ dslots (sv_i sv) ∧
    ∀ Q', Q' (Ret k) (set_device d1 f, sv) →
      wp (if fd_empty r <? 0 then sfs_dir_nentries else mret (fd_empty r)) Q' (set_device d1 f, sv))
    as (k & Hfree & Hk & Hslot).
  { destruct (se_empty _ _ _ _ _ Hse) as [->|[Hr Hz]].
    - exists (dslots (sv_i sv)). split; [lia|]. split; [lia|]. intros Q' HQ'. by apply sfs_dir_nentries_spec.
    - exists (fd_empty r). split; [done|]. split; [lia|]. intros Q' HQ'.
      rewrite (proj2 (Z.ltb_ge _ _)) by lia. by wp_step. }
  wp_step. apply Hslot. wp_step.
  destruct (link_name s name Hs) as (nm & Hcpy & Hnlen & Hname & Hnu8); [unfold SFS_NAMELEN in *; lia|].
  eapply wp_deref; [done|]. wp_step. set (sd := {| sfd_ino := ino; sfd_name := nm |}).
  apply sfs_writedir_spec; [done|by split|done| |].
  - intros f2 sv2 Hset. wp_step. pose proof (dir_insert _ _ _ _ _ _ _ Hrep1 Hk Hset) as Hins.
    unfold sd in Hins. rewrite Hname in Hins. cbn [sfd_ino sfd_name] in Hins.
    apply HQ; [eapply svstep_trans; [by apply Hsd|apply Hset]|by apply Hins; auto| | |done].
    + apply (dir_set_has _ _ _ _ _ _ k s ino Hwf1 Hk Hset). rewrite decide_True by done. unfold sd. by rewrite Hname.
    + intros j s' a Hj. apply (slot_has_same_disk _ _ _ _ _ _ Hwf Hd1) in Hj.
      apply (dir_set_has _ _ _ _ _ _ j s' a Hwf1 Hk Hset). case_decide as Hjk; [|done]. subst j.
      destruct Hj as (Hr & Ha & Hnn & _). rewrite Hfree in Ha by lia. done.
  - intros e f2 sv2 Hq He. apply HF; [eapply svstep_trans; [by apply Hsd|apply Hq]|by eapply quiet_dir_rep|].
    destruct He as [->|[->|[-> Hb]]]; [done|done|]. split; [done|].
    rewrite Hsz1. unfold DIRENT in *. lia.
Qed.

Lemma sfs_dir_unlink_spec f sv m k s ino Q :
  dir_rep f (sv_i sv) m → slot_has f (sv_i sv) k s ino →
  (∀ f' sv', svstep f sv f' sv' → dir_rep f' (sv_i sv') (delete s m) → Q (Ret ()) (f', sv')) →
  (∀ e f' sv', quiet f sv f' sv' → dir_rep f' (sv_i sv') m → e = EIO ∨ e = ENOSPC → Q (Fail e) (f', sv')) →
  wp (sfs_dir_unlink k) Q (f, sv).
Proof.
  intros Hrep Hhas HQ HF. destruct (Hrep) as [Hwf _]. destruct (dir_size _ _ Hwf) as [Hsz _].
  destruct (Hhas) as (Hk & _). pose proof (dw_max _ _ Hwf).
  unfold sfs_dir_unlink. set (sd := {| sfd_ino := _; sfd_name := _ |}).
  apply sfs_writedir_spec; [done|by split|lia| |].
  - intros f' sv' Hset. apply HQ; [apply Hset|]. eapply dir_delete; [done..| |done]. by apply Forall_replicate.
  - intros e f' sv' Hq He. apply HF; [done|by eapply quiet_dir_rep|].
    destruct He as [->|[->|[_ Hb]]]; [auto|auto|]. unfold DIRENT in *. lia.
Qed.
End specs.

(** ** Properties *)

Section properties.
Context {D : Type} `{BlockDeviceLaws D} `{!ReliableWrites D}.
Implicit Types (f : sfs_fs D) (sv : sfs_vnode).

(** [sfs_dir_findname] decides whether a name is in the directory.  On a
    directory that represents the map [m] it finds the inode [m] gives for the
    name together with its slot, or reports that the name is absent exactly when
    [m] does not have it; an empty slot it hands back is free.  It changes
    neither the directory nor the disk, fails only with EIO, and never panics. *)
Theorem sfs_dir_findname_correct name s f sv m :
  cstr name s → Forall is_u8 s → dir_rep f (sv_i sv) m →
  match sfs_dir_findname name (f, sv) with
  | (r, (f', sv')) =>
      sv' = sv ∧ dir_rep f' (sv_i sv) m ∧ (∀ b, sector (sfs_device f') b = sector (sfs_device f) b) ∧
      match r with
      | Ret x =>
          match fd_found x with
          | Some (ino, slot) => m !! s = Some ino ∧ slot_has f' (sv_i sv) slot s ino
          | None => m !! s = None
          end ∧
          (0 ≤ fd_empty x → sfd_ino (dent f' (sv_i sv) (fd_empty x)) = SFS_NOINO)
      | Fail e => e = EIO
      | Halt _ => False
      end
  end.
Proof.
  intros Hs Hus Hrep.
  eapply (wp_elim (sfs_dir_findname name) (λ r p, let '(f', sv') := p in _)).
  eapply sfs_dir_findname_spec; [done..| |].
  - intros d' r Hd Hrep' Hse. pose proof (searched_lookup _ _ _ _ _ Hrep' Hse) as Hl. destruct Hse as [Hf _ He].
    split_and!; [done|done|apply Hd| |].
    + destruct (fd_found r) as [[ino k]|]; [|done]. split; [done|]. by apply Hf.
    + intros Hr. destruct He as [He|[_ He]]; [lia|done].
  - intros d' Hd. split_and!; [done|by apply dir_rep_same_disk|apply Hd|done].
Qed.

(** [sfs_dir_link] adds a name.  On success the directory represents the map
    with the new name, which it did not have; on any failure it represents the
    same map as before: EEXIST only for a name that is there, ENAMETOOLONG
    only for names of 60 characters or more, EINVAL only when the directory
    cannot grow, ENOSPC and EIO from the disk.  The blocks of other files are
    not touched. *)
Theorem sfs_dir_link_correct name s f sv m ino :
  cstr name s → Forall is_u8 s → zlen s < 2 ^ 32 - 1 → dir_rep f (sv_i sv) m → is_u32 ino → ino ≠ SFS_NOINO →
  match sfs_dir_link name ino (f, sv) with
  | (r, (f', sv')) =>
      svstep f sv f' sv' ∧
      match r with
      | Ret slot => m !! s = None ∧ dir_rep f' (sv_i sv') (<[s := ino]> m) ∧
                    slot_has f' (sv_i sv') slot s ino
      | Fail e => dir_rep f' (sv_i sv') m ∧ link_errno (sv_i sv) m s e
      | Halt _ => False
      end
  end.
Proof.
  intros. eapply (wp_elim (sfs_dir_link name ino) (λ r p, let '(f', sv') := p in _)).
  by eapply sfs_dir_link_spec.
Qed.

(** [sfs_dir_unlink] removes the name in a slot: the directory then
    represents the map without it.  When it fails, with EIO or ENOSPC, the map
    is unchanged. *)
Theorem sfs_dir_unlink_correct f sv m slot s ino :
  dir_rep f (sv_i sv) m → slot_has f (sv_i sv) slot s ino →
  match sfs_dir_unlink slot (f, sv) with
  | (r, (f', sv')) =>
      svstep f sv f' sv' ∧
      match r with
      | Ret _ => dir_rep f' (sv_i sv') (delete s m)
      | Fail e => dir_rep f' (sv_i sv') m ∧ (e = EIO ∨ e = ENOSPC)
      | Halt _ => False
      end
  end.
Proof.
  intros Hrep Hhas. eapply (wp_elim (sfs_dir_unlink slot) (λ r p, let '(f', sv') := p in _)).
  eapply sfs_dir_unlink_spec; [done..|]. intros e f' sv' [Hst _ _]. done.
Qed.
End properties.

(** ** A small directory

    The root directory of the small volume: block 4 with the name a for the
    inode 3, whose contents are in block 5, and a free slot. *)

Definition dir_inode : sfs_inode :=
  {| sfi_size := 128; sfi_type := SFS_TYPE_DIR; sfi_linkcount := 1;
     sfi_direct := 4 :: replicate 14 0; sfi_indirect := 0; sfi_waste := replicate 110 0 |}.

Definition entry_a : sfs_dir := {| sfd_ino := 3; sfd_name := 97 :: replicate 59 0 |}.
Definition entry_free : sfs_dir := {| sfd_ino := 0; sfd_name := replicate 60 0 |}.

Definition file_inode : sfs_inode :=
  {| sfi_size := 3; sfi_type := SFS_TYPE_FILE; sfi_linkcount := 1;
     sfi_direct := 5 :: replicate 14 0; sfi_indirect := 0; sfi_waste := replicate 110 0 |}.
Definition dir_sectors : list (list Z) :=
  [encode_super example_super; encode_inode dir_inode; [63; 240] ++ replicate 510 255; encode_inode file_inode;
   encode_dir entry_a ++ replicate 448 0; [104; 105; 10] ++ replicate 509 0; []; []; []; []; []; []].

Definition dir_map : bitmap := {| nbits := 4096; v := [63; 240] ++ replicate 510 255 |}.
Definition dir_fs : sfs_fs (lhd_softc ramcard) :=
  {| sfs_device :=
       {| lh_hw := {| rc_sectors := dir_sectors; rc_faults := [] |};
          lh_buf := replicate 512 0; lh_reg_sect := 0; lh_reg_stat := 0; lh_result := None;
          lh_clear := 1; lh_done := 0; lh_blocks := 12 |};
     sfs_sb := example_super; sfs_superdirty := false;
     sfs_freemap := dir_map; sfs_freemapdirty := false |}.

Definition dir_vnode : sfs_vnode :=
  {| sv_v := {| vn_refcount := 1; vn_opencount := 0; vn_countlock := true; vn_ops := Some sfs_dirops |};
     sv_i := dir_inode; sv_ino := SFS_ROOT_LOCATION; sv_dirty := false |}.

Definition dir_names : gmap (list Z) Z := {[ [97] := 3 ]}.

Lemma dir_fs_ok : fs_ok dir_fs.
Proof.
  assert (∀ b, 12 ≤ b < 4096 → bit dir_map b = true) as Htail.
  { intros b Hb. apply (all_range_spec 12 4084 (bit dir_map)); [vm_compute; reflexivity|lia]. }
  split; [split; done|done|done| |done|exact Htail|done].
  split; [done|done| |intros i Hi; change (nbits dir_map ≤ i < 4096) in Hi; change (nbits dir_map) with 4096 in Hi; lia].
  cbn [v dir_map app]. do 2 (constructor; [done|]). by apply Forall_replicate.
Qed.

Lemma dir_file_ok : file_ok dir_fs dir_inode.
Proof.
  apply file_ok_check; [|vm_compute; reflexivity].
  split; try done; (split; [done|]); apply Forall_forall; intros x Hx;
    repeat (apply elem_of_cons in Hx as [->|Hx]; [done|]); by apply elem_of_nil in Hx.
Qed.

Lemma dir_entries k :
  0 ≤ k < dslots dir_inode → k = 0 ∧ dent dir_fs dir_inode k = entry_a ∨ k = 1 ∧ dent dir_fs dir_inode k = entry_free.
Proof.
  change (dslots dir_inode) with 2. intros Hk.
  assert (k = 0 ∨ k = 1) as [->| ->] by lia; [left|right]; split; [done|vm_compute; reflexivity|done|vm_compute; reflexivity].
Qed.

Lemma dir_names_rep : dir_rep dir_fs dir_inode dir_names.
Proof.
  split.
  - split; [exact dir_fs_ok|exact dir_file_ok|done|done|done|..].
    + intros k Hk. destruct (dir_entries k Hk) as [[_ ->]|[_ ->]].
      * constructor; [done|]. by apply Forall_replicate.
      * by apply Forall_replicate.
    + intros j k Hj Hk.
      destruct (dir_entries j Hj) as [[-> ->]|[-> ->]], (dir_entries k Hk) as [[-> ->]|[-> ->]]; done.
  - intros s ino. unfold dir_names. rewrite lookup_singleton_Some. split.
    + intros [<- <-]. exists 0. split; [done|]. destruct (dir_entries 0) as [[_ ->]|[? _]]; done.
    + intros (k & Hk & Hi & Hne & Hs). destruct (dir_entries k Hk) as [[_ He]|[_ He]]; rewrite He in *;
        [by subst|by subst].
Qed.

Lemma cstr_one c : c ≠ 0 → cstr [c; 0] [c].
Proof. intros Hc. split; [by constructor|]. by exists []. Qed.

Lemma sfs_dir_findname_correct_witness :
  match sfs_dir_findname [97; 0] (dir_fs, dir_vnode) with
  | (Ret x, (f', _)) =>
      match fd_found x with
      | Some (ino, slot) => dir_names !! [97] = Some ino ∧ slot_has f' dir_inode slot [97] ino
      | None => dir_names !! [97] = None
      end
  | (Fail e, _) => e = EIO
  | _ => False
  end.
Proof.
  pose proof (sfs_dir_findname_correct [97; 0] [97] dir_fs dir_vnode dir_names (cstr_one 97 ltac:(discriminate))
    ltac:(repeat constructor; discriminate) dir_names_rep) as Hf.
  destruct (sfs_dir_findname _ _) as [[x|e|k] [f' sv']]; [|apply Hf..].
  destruct Hf as (_ & _ & _ & Hf & _). exact Hf.
Defined.

Lemma sfs_dir_link_correct_witness :
  match sfs_dir_link [98; 0] 6 (dir_fs, dir_vnode) with
  | (Ret slot, (f', sv')) => dir_rep f' (sv_i sv') (<[[98] := 6]> dir_names)
  | (Fail e, (f', sv')) => dir_rep f' (sv_i sv') dir_names
  | _ => False
  end.
Proof.
  pose proof (sfs_dir_link_correct [98; 0] [98] dir_fs dir_vnode dir_names 6 (cstr_one 98 ltac:(discriminate))
    ltac:(repeat constructor; discriminate) ltac:(reflexivity) dir_names_rep
    ltac:(split; [discriminate|reflexivity]) ltac:(discriminate)) as Hf.
  destruct (sfs_dir_link _ _ _) as [[x|e|k] [f' sv']]; apply Hf.
Defined.

Lemma sfs_dir_unlink_correct_witness :
  match sfs_dir_unlink 0 (dir_fs, dir_vnode) with
  | (Ret _, (f', sv')) => dir_rep f' (sv_i sv') (delete [97] dir_names)
  | (Fail e, (f', sv')) => dir_rep f' (sv_i sv') dir_names
  | _ => False
  end.
Proof.
  assert (slot_has dir_fs dir_inode 0 [97] 3) as Hhas.
  { split; [done|]. destruct (dir_entries 0) as [[_ ->]|[? _]]; done. }
  pose proof (sfs_dir_unlink_correct dir_fs dir_vnode dir_names 0 [97] 3 dir_names_rep Hhas) as Hf.
  destruct (sfs_dir_unlink _ _) as [[x|e|k] [f' sv']]; apply Hf.
Defined.
