(* ===== verification/SfsVnode.v ===== *)
(** * SFS: the vnodes of a mounted volume (kern/fs/sfs/sfs_vnode.c)

    The state adds to the file system of [Sfs] the table of loaded vnodes, an
    [array] of pointers, and the heap of [struct sfs_vnode] the pointers lead
    to: one inode has one vnode, shared by everyone who has looked it up.  The
    outcomes of allocations are a list the state carries, read from the front;
    past its end allocations succeed. *)

From S2P Require Import Prelude Libc Bitmap Array CopyInOut Uio Device Lhd SfsDisk Vnode Sfs SfsMap SfsFile.
From S2P Require Import SfsSpec SfsTrunc SfsDir.

Abbreviation loc := Z.

Definition O_ACCMODE : Z := 3.
Definition O_RDONLY : Z := 0.
Definition O_APPEND : Z := 32.
Definition S_IFREG : Z := 4096.
Definition S_IFDIR : Z := 8192.

Record stat := { st_mode : Z; st_nlink : Z; st_size : Z; st_blocks : Z }.

Record sfs_vol (D : Type) := {
  vl_fs : sfs_fs D;
  vl_vnodes : array loc;
  vl_heap : gmap loc sfs_vnode;
  vl_mallocs : list bool;
}.
Arguments Build_sfs_vol {_} _ _ _ _.
Arguments vl_fs {_} _.
Arguments vl_vnodes {_} _.
Arguments vl_heap {_} _.
Arguments vl_mallocs {_} _.

Definition set_sv_v (vn : vnode) (sv : sfs_vnode) : sfs_vnode :=
  {| sv_v := vn; sv_i := sv_i sv; sv_ino := sv_ino sv; sv_dirty := sv_dirty sv |}.
Definition set_linkcount (n : Z) (i : sfs_inode) : sfs_inode :=
  {| sfi_size := sfi_size i; sfi_type := sfi_type i; sfi_linkcount := n;
     sfi_direct := sfi_direct i; sfi_indirect := sfi_indirect i; sfi_waste := sfi_waste i |}.
Definition set_type (t : Z) (i : sfs_inode) : sfs_inode :=
  {| sfi_size := sfi_size i; sfi_type := t; sfi_linkcount := sfi_linkcount i;
     sfi_direct := sfi_direct i; sfi_indirect := sfi_indirect i; sfi_waste := sfi_waste i |}.

Section ops.
Context {D : Type} `{BlockDevice D}.
Abbreviation vol := (sfs_vol D).

Definition set_fs (f : sfs_fs D) (s : vol) : vol :=
  Build_sfs_vol f (vl_vnodes s) (vl_heap s) (vl_mallocs s).
Definition set_vnodes (a : array loc) (s : vol) : vol :=
  Build_sfs_vol (vl_fs s) a (vl_heap s) (vl_mallocs s).
Definition set_heap (h : gmap loc sfs_vnode) (s : vol) : vol :=
  Build_sfs_vol (vl_fs s) (vl_vnodes s) h (vl_mallocs s).
Definition set_mallocs (l : list bool) (s : vol) : vol :=
  Build_sfs_vol (vl_fs s) (vl_vnodes s) (vl_heap s) l.

Definition on_fs {A} : M (sfs_fs D) A → M vol A := zoom vl_fs set_fs.
Definition on_vnodes {A} : M (array loc) A → M vol A := zoom vl_vnodes set_vnodes.

(** An operation on the vnode at [l] and the file system. *)
Definition on_sv {A} (l : loc) (m : M (sfs_fs D * sfs_vnode) A) : M vol A := λ s,
  match vl_heap s !! l with
  | None => (Halt Undef, s)
  | Some sv =>
      let '(r, (f', sv')) := m (vl_fs s, sv) in
      (r, set_fs f' (set_heap (<[l := sv']> (vl_heap s)) s))
  end.

Definition on_vn {A} (l : loc) (m : M vnode A) : M vol A :=
  on_sv l (on_snd (zoom sv_v set_sv_v m)).

Definition get_sv (l : loc) : M vol sfs_vnode := s ← get; deref (vl_heap s !! l).

(** The outcome of the next allocation. *)
Definition malloc_ok : M vol bool :=
  s ← get;
  match vl_mallocs s with
  | [] => mret true
  | b :: bs => _ ← put (set_mallocs bs s); mret b
  end.

(** [sfs_loadvnode]: the search of the table. *)
Fixpoint loadvnode_search (ino forcetype : Z) (idxs : list Z) : M vol (option loc) :=
  match idxs with
  | [] => mret None
  | i :: idxs' =>
      l ← on_vnodes (array_getguy i);
      sv ← get_sv l;
      used ← on_fs (sfs_bused (sv_ino sv));
      _ ← assert used;
      if sv_ino sv =? ino then
        _ ← assert (forcetype =? SFS_TYPE_INVAL);
        _ ← on_vn l vnode_incref;
        mret (Some l)
      else loadvnode_search ino forcetype idxs'
  end.

(** The table of operations for an inode type. *)
Definition ops_of_type (t : Z) : option vnode_ops :=
  if t =? SFS_TYPE_FILE then Some sfs_fileops
  else if t =? SFS_TYPE_DIR then Some sfs_dirops
  else None.

(** The new vnode is private until it is in the table, so it enters the heap
    there. *)
Definition loadvnode_new (ino forcetype : Z) : M vol loc :=
  ok ← malloc_ok;
  if negb ok then fail ENOMEM
  else
    used ← on_fs (sfs_bused ino);
    _ ← assert used;
    bs ← on_fs (sfs_rblock ino);
    let i := decode_inode bs in
    let force := negb (forcetype =? SFS_TYPE_INVAL) in
    _ ← assert (negb force || (sfi_type i =? SFS_TYPE_INVAL));
    let i := if force then set_type (u16 forcetype) i else i in
    match ops_of_type (sfi_type i) with
    | None => panic
    | Some ops =>
        lock_ok ← malloc_ok;
        match vnode_init lock_ok ops with
        | Ret vn =>
            s ← get;
            let l := fresh (dom (vl_heap s)) in
            grow_ok ← malloc_ok;
            _ ← on_vnodes (array_add grow_ok l);
            _ ← modify (λ s, set_heap (<[l := {| sv_v := vn; sv_i := i; sv_ino := ino; sv_dirty := force |}]>
                                          (vl_heap s)) s);
            mret l
        | Fail e => fail e
        | Halt k => λ s, (Halt k, s)
        end
    end.

Definition sfs_loadvnode (ino forcetype : Z) : M vol loc :=
  s ← get;
  found ← loadvnode_search ino forcetype (seqZ 0 (array_getnum (vl_vnodes s)));
  match found with
  | Some l => mret l
  | None => loadvnode_new ino forcetype
  end.

Definition sfs_lookonce (dir : loc) (name : list Z) : M vol (loc * Z) :=
  r ← on_sv dir (sfs_dir_findname name);
  match fd_found r with
  | None => fail ENOENT
  | Some (ino, slot) =>
      l ← sfs_loadvnode ino SFS_TYPE_INVAL;
      sv ← get_sv l;
      _ ← assert (negb (sfi_linkcount (sv_i sv) =? 0));
      mret (l, slot)
  end.

Definition sfs_makeobj (type : Z) : M vol loc :=
  ino ← on_fs sfs_balloc;
  sfs_loadvnode ino type.

(** ** Vnode operations *)

Definition sfs_open (openflags : Z) : M vol unit :=
  if negb (Z.land openflags O_APPEND =? 0) then fail EUNIMP else mret ().

Definition sfs_opendir (openflags : Z) : M vol unit :=
  if negb (Z.land openflags O_ACCMODE =? O_RDONLY) then fail EISDIR
  else if negb (Z.land openflags O_APPEND =? 0) then fail EISDIR
  else mret ().

(** [VOP_FSYNC] and [VOP_TRUNCATE] of this file system. *)
Definition vop_fsync (l : loc) : M vol unit :=
  _ ← on_vn l (vnode_check false);
  on_sv l sfs_fsync.

Definition vop_truncate (l : loc) (len : Z) : M vol unit :=
  _ ← on_vn l (vnode_check false);
  sv ← get_sv l;
  match vn_ops (sv_v sv) with
  | Some sfs_fileops => on_sv l (sfs_truncate len)
  | Some sfs_dirops => fail EISDIR
  | _ => undef
  end.

Definition sfs_close (l : loc) : M vol unit := vop_fsync l.

(** The position of the vnode in the table. *)
Fixpoint find_index (l : loc) (idxs : list Z) : M vol Z :=
  match idxs with
  | [] => panic
  | i :: idxs' =>
      l2 ← on_vnodes (array_getguy i);
      if l2 =? l then mret i else find_index l idxs'
  end.

Definition sfs_reclaim (l : loc) : M vol unit :=
  sv ← get_sv l;
  let refs := vn_refcount (sv_v sv) in
  if negb (refs =? 1) then
    _ ← assert (refs >? 1);
    _ ← on_vn l (modify (set_refcount (refs - 1)));
    fail EBUSY
  else
    _ ← (if sfi_linkcount (sv_i sv) =? 0 then vop_truncate l 0 else mret ());
    _ ← on_sv l sfs_sync_inode;
    sv ← get_sv l;
    _ ← (if sfi_linkcount (sv_i sv) =? 0 then on_fs (sfs_bfree (sv_ino sv)) else mret ());
    s ← get;
    ix ← find_index l (seqZ 0 (array_getnum (vl_vnodes s)));
    _ ← on_vnodes (array_remove ix);
    _ ← on_vn l vnode_kill;
    modify (λ s, set_heap (delete l (vl_heap s)) s).

(** [VOP_INCREF] and [VOP_DECREF]. *)
Definition vop_incref (l : loc) : M vol unit := on_vn l vnode_incref.
Definition vop_decref (l : loc) : M vol unit := vnode_decref (λ A, on_vn l) (sfs_reclaim l).

Definition sfs_ioctl : M vol unit := fail EINVAL.

Definition sfs_gettype (l : loc) : M vol Z :=
  sv ← get_sv l;
  if sfi_type (sv_i sv) =? SFS_TYPE_FILE then mret S_IFREG
  else if sfi_type (sv_i sv) =? SFS_TYPE_DIR then mret S_IFDIR
  else panic.

Definition sfs_stat (l : loc) : M vol stat :=
  _ ← on_vn l (vnode_check false);
  mode ← sfs_gettype l;
  sv ← get_sv l;
  mret {| st_mode := mode; st_nlink := 0; st_size := s32 (sfi_size (sv_i sv)); st_blocks := 0 |}.

Definition sfs_tryseek (pos : Z) : M vol unit := if pos <? 0 then fail EINVAL else mret ().

Definition sfs_mmap : M vol unit := fail EUNIMP.

Definition sfs_namefile (l : loc) : M vol unit :=
  sv ← get_sv l; assert (sv_ino sv =? SFS_ROOT_LOCATION).

(** [sv->sv_i.sfi_linkcount++; sv->sv_dirty = 1;] and the decrement. *)
Definition add_links (l : loc) (d : Z) : M vol unit :=
  on_sv l (on_snd (modify (λ sv, set_inode (set_linkcount (u16 (sfi_linkcount (sv_i sv) + d)) (sv_i sv)) sv))).

Definition sfs_creat (dir : loc) (name : list Z) (excl : bool) : M vol loc :=
  r ← on_sv dir (sfs_dir_findname name);
  match fd_found r with
  | Some (ino, _) => if excl then fail EEXIST else sfs_loadvnode ino SFS_TYPE_INVAL
  | None =>
      newguy ← sfs_makeobj SFS_TYPE_FILE;
      sv ← get_sv newguy;
      result ← attempt (on_sv dir (sfs_dir_link name (sv_ino sv)));
      match result with
      | inr e => _ ← vop_decref newguy; fail e
      | inl _ => _ ← add_links newguy 1; mret newguy
      end
  end.

(** Both vnodes are on this volume. *)
Definition sfs_link (dir : loc) (name : list Z) (file : loc) : M vol unit :=
  f ← get_sv file;
  _ ← on_sv dir (sfs_dir_link name (sv_ino f));
  add_links file 1.

Definition sfs_remove (dir : loc) (name : list Z) : M vol unit :=
  r ← sfs_lookonce dir name;
  let '(victim, slot) := r in
  result ← attempt (on_sv dir (sfs_dir_unlink slot));
  _ ← (match result with
       | inl _ =>
           sv ← get_sv victim;
           _ ← assert (sfi_linkcount (sv_i sv) >? 0);
           add_links victim (-1)
       | inr _ => mret ()
       end);
  _ ← vop_decref victim;
  result_of result.

(** From [puke_harder] on: undo the new link, report the error. *)
Definition rename_undo (dir g1 : loc) (slot2 : Z) (e : errno) : M vol unit :=
  result2 ← attempt (on_sv dir (sfs_dir_unlink slot2));
  match result2 with
  | inr _ => panic
  | inl _ =>
      _ ← on_sv g1 (on_snd (modify (λ sv,
            {| sv_v := sv_v sv; sv_i := set_linkcount (u16 (sfi_linkcount (sv_i sv) - 1)) (sv_i sv);
               sv_ino := sv_ino sv; sv_dirty := sv_dirty sv |})));
      _ ← vop_decref g1;
      fail e
  end.

(** Both directories are the root directory. *)
Definition sfs_rename (dir : loc) (n1 n2 : list Z) : M vol unit :=
  d ← get_sv dir;
  _ ← assert (sv_ino d =? SFS_ROOT_LOCATION);
  r ← sfs_lookonce dir n1;
  let '(g1, slot1) := r in
  g ← get_sv g1;
  _ ← assert (sfi_type (sv_i g) =? SFS_TYPE_FILE);
  linked ← attempt (on_sv dir (sfs_dir_link n2 (sv_ino g)));
  match linked with
  | inr e => _ ← vop_decref g1; fail e
  | inl slot2 =>
      _ ← add_links g1 1;
      result ← attempt (on_sv dir (sfs_dir_unlink slot1));
      match result with
      | inr e => rename_undo dir g1 slot2 e
      | inl _ =>
          g ← get_sv g1;
          _ ← assert (sfi_linkcount (sv_i g) >? 0);
          _ ← add_links g1 (-1);
          vop_decref g1
      end
  end.

(** The name is copied into the caller's buffer [buf]. *)
Definition sfs_lookparent (dir : loc) (path buf : list Z) (buflen : Z) : M vol (loc * list Z) :=
  sv ← get_sv dir;
  if negb (sfi_type (sv_i sv) =? SFS_TYPE_DIR) then fail ENOTDIR
  else
    n ← deref (strlen path);
    if u32 (n + 1) >? buflen then fail ENAMETOOLONG
    else
      buf' ← deref (strcpy buf path);
      _ ← vop_incref dir;
      mret (dir, buf').

Definition sfs_lookup (dir : loc) (path : list Z) : M vol loc :=
  sv ← get_sv dir;
  if negb (sfi_type (sv_i sv) =? SFS_TYPE_DIR) then fail ENOTDIR
  else r ← sfs_lookonce dir path; mret r.1.

Definition sfs_getroot : M vol loc :=
  r ← attempt (sfs_loadvnode SFS_ROOT_LOCATION SFS_TYPE_INVAL);
  match r with inl l => mret l | inr _ => panic end.
End ops.
