(* ===== verification/SfsVol.v ===== *)
(** * SFS: the invariant of a mounted volume

    [vol_wf S I] is the physical invariant: [I] gives the current inode of
    every file (the one in memory when it is loaded), the files are well formed
    and share no block, inode blocks are not file blocks, the table of vnodes
    has one vnode per loaded inode, and an inode that is not marked dirty is on
    the disk.  [vol_ns] is the logical one: the root directory represents the
    map [m] of names, its names lead to files, and the link count of a file is
    the number of its names. *)

From S2P Require Import Prelude Libc Bitmap Array CopyInOut Uio Device Lhd SfsDisk Vnode Sfs SfsMap SfsFile.
From S2P Require Import SfsSpec SfsTrunc SfsDir SfsVnode.

Section specs.
Context {D : Type} `{BlockDeviceLaws D} `{!ReliableWrites D}.
Implicit Types (f : sfs_fs D) (i : sfs_inode) (sv : sfs_vnode) (S : sfs_vol D) (I : gmap Z sfs_inode)
  (m : gmap (list Z) Z) (l : loc).
Abbreviation blk f b := (sector (sfs_device f) b).
Abbreviation nblk f := (sp_nblocks (sfs_sb f)).
Abbreviation used f b := (bit (sfs_freemap f) b).

Lemma owns_ext f f' i b : (∀ k, fblock f' i k = fblock f i k) → owns f' i b ↔ owns f i b.
Proof.
  intros Hfb. split; intros (Hne & k & Hk & Hb); (split; [done|]); exists k; (split; [done|]);
    by rewrite Hfb in *.
Qed.

(** A change of one file that leaves everything else alone. *)
Record fchange f i f' i' : Prop := {
  fc_fs : fs_ok f';
  fc_file : file_ok f' i';
  fc_sb : sfs_sb f' = sfs_sb f;
  fc_frame : ∀ b, 0 ≤ b → used f b = true → ¬ owns f i b →
    blk f' b = blk f b ∧ used f' b = true ∧ ¬ owns f' i' b;
  fc_md : map_step f f';
}.

Lemma fstep_fchange f i f' i' : fstep f i f' i' → fchange f i f' i'.
Proof. intros []. split; try done. intros b Hb Hu Hn. destruct (fs_frame b Hb Hu Hn). auto. Qed.

Lemma shrunk_fchange f i f' i' : shrunk f i f' i' → fchange f i f' i'.
Proof.
  intros [? ? [Hsub Hbits Hsb Hmd] Hfr ? ?]. split; try done. intros b Hb Hu Hn. split_and!.
  - apply Hfr. intros Hne ->. apply Hn. split; [done|]. exists MAXBLOCKS.
    split; [unfold MAXBLOCKS; lia|apply fblock_indirect].
  - apply Hbits; [done|]. split; [done|]. by left.
  - intros Ho. apply Hn. by apply (lists_sub (fblock f i) (fblock f' i')).
Qed.

(** The inode changed in a field that does not concern its blocks. *)
Lemma meta_fchange f i i' :
  fs_ok f → file_ok f i → inode_ok i' → sfi_direct i' = sfi_direct i → sfi_indirect i' = sfi_indirect i →
  fchange f i f i'.
Proof.
  intros Hfs [_ Hr Hu Hd] Hok Hdir Hind.
  assert (∀ k, fblock f i' k = fblock f i k) as Hfb.
  { intros k. unfold fblock, bmapZ. by rewrite Hdir, Hind. }
  split; [done| |done| |apply map_step_refl].
  - split; [done|..]; setoid_rewrite Hfb; done.
  - intros b Hb Hub Hn. split_and!; [done|done|]. unfold owns in *. by setoid_rewrite Hfb.
Qed.

(** Another file is not changed. *)
Lemma fchange_other f i f' i' j :
  fchange f i f' i' → file_ok f j → (∀ b, owns f j b → ¬ owns f i b) →
  file_ok f' j ∧ (∀ k, fblock f' j k = fblock f j k) ∧
  (∀ o, 0 ≤ o < MAXBYTES → fbyte f' j o = fbyte f j o) ∧ (∀ b, owns f' j b → ¬ owns f' i' b).
Proof.
  intros [_ _ Hsb Hfr] Hj Hdisj.
  assert (∀ b, owns f j b → 0 ≤ b ∧ used f b = true) as Hown.
  { intros b (Hne & k & Hk & <-). split; [apply (fl_range _ _ Hj k Hk)|by apply (fl_used _ _ Hj)]. }
  destruct (file_stable f f' j Hj Hsb) as (Hokj & Hfb & Hbj).
  { intros b Hb Ho. destruct (Hown b Ho) as [Hb0 Hu]. destruct (Hfr b Hb0 Hu (Hdisj b Ho)) as (? & ? & _). done. }
  split_and!; [done|done|done|]. intros b Ho.
  pose proof (proj1 (owns_ext f f' j b Hfb) Ho) as Ho'.
  destruct (Hown b Ho') as [Hb0 Hu]. by apply Hfr; auto.
Qed.

(** The vnode at [l] is the one of the inode [ino]. *)
Definition loaded S l ino : Prop := ∃ sv, vl_heap S !! l = Some sv ∧ sv_ino sv = ino.

(** The blocks of the super block and of the free map. *)
Definition reserved f (b : Z) : Prop :=
  b = SFS_SB_LOCATION ∨ SFS_MAP_LOCATION ≤ b < SFS_MAP_LOCATION + SFS_BITBLOCKS (nblk f).

Definition mapblock (map : bitmap) (j : Z) : list Z :=
  take (Z.to_nat SFS_BLOCKSIZE) (drop (Z.to_nat (j * SFS_BLOCKSIZE)) (v map)).

(** What is on the disk besides the files: the reserved blocks belong to no
    file, and hold what the memory has unless it is marked dirty. *)
Record vol_disk f I : Prop := {
  vd_sb : super_ok (sfs_sb f) ∧ sp_magic (sfs_sb f) = SFS_MAGIC ∧ end_volname (sfs_sb f) = sfs_sb f;
  vd_nbits : nbits (sfs_freemap f) = SFS_BITMAPSIZE (nblk f);
  vd_reserved : ∀ b, reserved f b → 0 ≤ b < nblk f ∧ used f b = true;
  vd_files : ∀ b a i, reserved f b → I !! a = Some i → a ≠ b ∧ ¬ owns f i b;
  vd_super : sfs_superdirty f = false → end_volname (decode_super (blk f SFS_SB_LOCATION)) = sfs_sb f;
  vd_map : sfs_freemapdirty f = false → ∀ j, 0 ≤ j < SFS_BITBLOCKS (nblk f) →
    blk f (SFS_MAP_LOCATION + j) = mapblock (sfs_freemap f) j;
}.

Lemma disk_change f I f' I' :
  vol_disk f I → sfs_sb f' = sfs_sb f → map_step f f' →
  (∀ b, reserved f b → blk f' b = blk f b ∧ used f' b = true) →
  (∀ b a i, reserved f b → I' !! a = Some i → a ≠ b ∧ ¬ owns f' i b) → vol_disk f' I'.
Proof.
  intros [Hsb0 Hn Hr Hf Hs Hm] Hsb [Hmap Hsd Hnb] Hb Hf'. split; unfold reserved; rewrite ?Hsb.
  - done.
  - congruence.
  - intros b Hres. split; [by apply Hr|by apply Hb].
  - done.
  - rewrite Hsd. intros Hd. rewrite (proj1 (Hb _ (or_introl eq_refl))). auto.
  - intros Hd j Hj. destruct Hmap as [?|[Heq Hd']]; [congruence|].
    assert (reserved f (SFS_MAP_LOCATION + j)) as Hj' by (right; lia).
    rewrite Heq, (proj1 (Hb _ Hj')). apply Hm; [congruence|done].
Qed.

Record vol_wf S I : Prop := {
  vw_fs : fs_ok (vl_fs S);
  vw_table : ∃ ls, array_repr (vl_vnodes S) ls ∧ NoDup ls ∧ ∀ l, l ∈ ls ↔ is_Some (vl_heap S !! l);
  vw_loaded : ∀ l sv, vl_heap S !! l = Some sv →
    I !! sv_ino sv = Some (sv_i sv) ∧ vnode_ok (sv_v sv) ∧ vn_ops (sv_v sv) = ops_of_type (sfi_type (sv_i sv));
  vw_unique : ∀ l l' ino, loaded S l ino → loaded S l' ino → l = l';
  vw_inode : ∀ ino i, I !! ino = Some i →
    0 < ino < nblk (vl_fs S) ∧ used (vl_fs S) ino = true ∧ file_ok (vl_fs S) i ∧
    is_Some (ops_of_type (sfi_type i));
  vw_synced : ∀ ino i, I !! ino = Some i →
    (∃ l sv, vl_heap S !! l = Some sv ∧ sv_ino sv = ino ∧ sv_dirty sv = true) ∨
    decode_inode (blk (vl_fs S) ino) = i;
  vw_disjoint : ∀ a b i j, I !! a = Some i → I !! b = Some j → a ≠ b →
    ∀ x, owns (vl_fs S) i x → ¬ owns (vl_fs S) j x;
  vw_inodes : ∀ a b i j, I !! a = Some i → I !! b = Some j → ¬ owns (vl_fs S) i b;
  vw_disk : vol_disk (vl_fs S) I;
}.

(** The number of names of an inode. *)
Definition links m (ino : Z) : Z := Z.of_nat (size (filter (λ p, p.2 = ino) m)).

Record vol_ns S I m : Prop := {
  vn_root : ∃ ri, I !! SFS_ROOT_LOCATION = Some ri ∧ dir_rep (vl_fs S) ri m ∧ sfi_linkcount ri ≠ 0;
  vn_names : ∀ s ino, m !! s = Some ino → ino ≠ SFS_ROOT_LOCATION ∧ is_Some (I !! ino);
  vn_files : ∀ ino i, I !! ino = Some i → ino ≠ SFS_ROOT_LOCATION →
    sfi_type i = SFS_TYPE_FILE ∧ sfi_linkcount i = links m ino;
  vn_orphans : ∀ ino i, I !! ino = Some i → ino ≠ SFS_ROOT_LOCATION → links m ino = 0 → ∃ l, loaded S l ino;
}.

(** ** One loaded file changes *)

(** The state after an operation on the vnode at [l]. *)
Definition upd S l f' sv' : sfs_vol D := set_fs f' (set_heap (<[l := sv']> (vl_heap S)) S).

Lemma wp_on_sv {A} S l sv (op : M (sfs_fs D * sfs_vnode) A) Q :
  vl_heap S !! l = Some sv → wp op (λ r p, Q r (upd S l p.1 p.2)) (vl_fs S, sv) → wp (on_sv l op) Q S.
Proof. intros Hl Hop. unfold wp, on_sv in *. rewrite Hl. by destruct (op _) as [r [f' sv']]. Qed.

Lemma wp_on_vn {A} S l sv (op : M vnode A) Q :
  vl_heap S !! l = Some sv →
  wp op (λ r vn, Q r (upd S l (vl_fs S) (set_sv_v vn sv))) (sv_v sv) → wp (on_vn l op) Q S.
Proof. intros Hl Hop. unfold on_vn. eapply wp_on_sv; [done|]. by wp_steps. Qed.

Lemma wp_get_sv S l sv Q : vl_heap S !! l = Some sv → Q (Ret sv) S → wp (get_sv l) Q S.
Proof. intros Hl HQ. unfold get_sv. wp_steps. by eapply wp_deref. Qed.

Lemma upd_loaded S l sv f' sv' l' ino :
  vl_heap S !! l = Some sv → sv_ino sv' = sv_ino sv → loaded (upd S l f' sv') l' ino ↔ loaded S l' ino.
Proof.
  intros Hl Hino. unfold loaded, upd. cbn [vl_heap set_fs set_heap]. destruct (decide (l = l')) as [<-|Hne].
  - rewrite lookup_insert_eq, Hl. split; intros (sv1 & [= <-] & <-); eauto.
  - by rewrite lookup_insert_ne.
Qed.

(** What a vnode has to satisfy after the change. *)
Record vn_step sv sv' : Prop := {
  vs_ino : sv_ino sv' = sv_ino sv;
  vs_vnode : vnode_ok (sv_v sv');
  vs_ops : vn_ops (sv_v sv') = ops_of_type (sfi_type (sv_i sv'));
  vs_dirty : sv_dirty sv' = true ∨ sv_dirty sv' = sv_dirty sv ∧ sv_i sv' = sv_i sv;
}.

Lemma vol_change_other S I l sv f' sv' a i :
  vol_wf S I → vl_heap S !! l = Some sv → fchange (vl_fs S) (sv_i sv) f' (sv_i sv') →
  I !! a = Some i → a ≠ sv_ino sv →
  file_ok f' i ∧ (∀ b, owns f' i b ↔ owns (vl_fs S) i b) ∧
  (∀ b, owns f' i b → ¬ owns f' (sv_i sv') b) ∧
  blk f' a = blk (vl_fs S) a ∧ used f' a = true ∧ ¬ owns f' (sv_i sv') a.
Proof.
  intros Hwf Hl Hfc Ha Hne. destruct (vw_loaded _ _ Hwf l sv Hl) as (Hsv & _ & _).
  destruct (vw_inode _ _ Hwf a i Ha) as (Hr & Hu & Hok & _).
  destruct (fchange_other _ _ _ _ i Hfc Hok) as (Hok' & Hfb & _ & Hd).
  { intros b. by apply (vw_disjoint _ _ Hwf a (sv_ino sv)). }
  destruct (fc_frame _ _ _ _ Hfc a) as (Hb & Hu' & Hn); [lia|done|by eapply vw_inodes|].
  pose proof (λ b, owns_ext (vl_fs S) f' i b Hfb) as Ho.
  exact (conj Hok' (conj Ho (conj Hd (conj Hb (conj Hu' Hn))))).
Qed.

Lemma vol_change S I l sv f' sv' :
  vol_wf S I → vl_heap S !! l = Some sv → fchange (vl_fs S) (sv_i sv) f' (sv_i sv') → vn_step sv sv' →
  vol_wf (upd S l f' sv') (<[sv_ino sv := sv_i sv']> I).
Proof.
  intros Hwf Hl Hfc [Hino Hvn Hops Hdy]. destruct (vw_loaded _ _ Hwf l sv Hl) as (Hsv & _ & _).
  destruct (vw_inode _ _ Hwf _ _ Hsv) as (Hr & Hu & Hok & Hty).
  pose proof (λ a i, vol_change_other S I l sv f' sv' a i Hwf Hl Hfc) as Hother.
  assert (¬ owns (vl_fs S) (sv_i sv) (sv_ino sv)) as Hself by (by eapply vw_inodes).
  destruct (fc_frame _ _ _ _ Hfc (sv_ino sv)) as (Hb' & Hu' & Hn'); [lia|done|done|].
  assert (∀ l1 sv1, vl_heap (upd S l f' sv') !! l1 = Some sv1 →
    l1 = l ∧ sv1 = sv' ∨ l1 ≠ l ∧ vl_heap S !! l1 = Some sv1 ∧ sv_ino sv1 ≠ sv_ino sv) as Hheap.
  { intros l1 sv1. simpl. intros [[<- <-]|[Hne H1]]%lookup_insert_Some; [by left|right]. split_and!; [done|done|].
    intros Heq. apply Hne. apply (vw_unique _ _ Hwf l l1 (sv_ino sv)); [by exists sv|by exists sv1]. }
  split.
  - apply Hfc.
  - destruct (vw_table _ _ Hwf) as (ls & ? & ? & Hls). exists ls. split_and!; [done|done|]. intros l1.
    rewrite Hls. simpl. destruct (decide (l = l1)) as [<-|]; [rewrite lookup_insert_eq, Hl; split; eauto|].
    by rewrite lookup_insert_ne.
  - intros l1 sv1 [[-> ->]|(Hne & H1 & Hi1)]%Hheap; [rewrite Hino, lookup_insert_eq; done|].
    rewrite lookup_insert_ne by done. by apply (vw_loaded _ _ Hwf l1).
  - intros l1 l2 ino. rewrite !(upd_loaded S l sv) by done. apply (vw_unique _ _ Hwf).
  - intros a i [[<- <-]|[Hne Ha]]%lookup_insert_Some.
    + simpl. rewrite (fc_sb _ _ _ _ Hfc). split_and!; [lia..|done|apply Hfc|].
      rewrite <- Hops. apply vok_ops, Hvn.
    + destruct (vw_inode _ _ Hwf a i Ha) as (? & _ & _ & ?). destruct (Hother a i Ha) as (? & _ & _ & _ & ? & _); [done|].
      simpl. rewrite (fc_sb _ _ _ _ Hfc). done.
  - intros a i [[<- <-]|[Hne Ha]]%lookup_insert_Some.
    + destruct Hdy as [Hdy|[Hdy ->]]; [left; exists l, sv'; simpl; by rewrite lookup_insert_eq|].
      destruct (vw_synced _ _ Hwf _ _ Hsv) as [(l1 & sv1 & H1 & Hi1 & Hd1)|Hdec]; [left|right].
      * assert (l1 = l) as -> by (apply (vw_unique _ _ Hwf _ _ (sv_ino sv)); [by exists sv1|by exists sv]).
        exists l, sv'. simpl. rewrite lookup_insert_eq. split_and!; [done..|]. congruence.
      * simpl. by rewrite Hb'.
    + destruct (Hother a i Ha) as (_ & _ & _ & Hba & _); [done|].
      destruct (vw_synced _ _ Hwf _ _ Ha) as [(l1 & sv1 & H1 & Hi1 & Hd1)|Hdec]; [left|right; simpl; congruence].
      exists l1, sv1. simpl. rewrite lookup_insert_ne; [done|]. intros ->. congruence.
  - intros a b i j [[<- <-]|[Hna Ha]]%lookup_insert_Some [[<- <-]|[Hnb Hb]]%lookup_insert_Some Hab x; [done|..].
    + destruct (Hother b j Hb) as (_ & _ & Hd & _); [done|]. intros Hx1 Hx2. by apply (Hd x).
    + destruct (Hother a i Ha) as (_ & _ & Hd & _); [done|]. apply Hd.
    + destruct (Hother a i Ha) as (_ & Ho1 & _); [done|]. destruct (Hother b j Hb) as (_ & Ho2 & _); [done|].
      simpl. rewrite Ho1, Ho2. by apply (vw_disjoint _ _ Hwf a b).
  - intros a b i j [[<- <-]|[Hna Ha]]%lookup_insert_Some [[<- <-]|[Hnb Hb]]%lookup_insert_Some; [done|..].
    + by destruct (Hother b j Hb) as (_ & _ & _ & _ & _ & ?).
    + destruct (Hother a i Ha) as (_ & Ho1 & _); [done|]. simpl. rewrite Ho1. by eapply vw_inodes.
    + destruct (Hother a i Ha) as (_ & Ho1 & _); [done|]. simpl. rewrite Ho1. by eapply vw_inodes.
  - pose proof (vw_disk _ _ Hwf) as Hdisk. assert (∀ b, reserved (vl_fs S) b →
      blk f' b = blk (vl_fs S) b ∧ used f' b = true ∧ ¬ owns f' (sv_i sv') b) as Hres.
    { intros b Hb. destruct (vd_reserved _ _ Hdisk b Hb). apply (fc_frame _ _ _ _ Hfc); [lia|done|].
      by apply (vd_files _ _ Hdisk b (sv_ino sv)). }
    eapply disk_change; [exact Hdisk|apply Hfc|apply Hfc|intros b Hb; split; by apply Hres|].
    intros b a i Hb [[<- <-]|[Hna Ha]]%lookup_insert_Some.
    + split; [|by apply Hres]. by apply (vd_files _ _ Hdisk b (sv_ino sv) (sv_i sv)).
    + simpl. destruct (Hother a i Ha) as (_ & -> & _); [done|]. by apply (vd_files _ _ Hdisk).
Qed.

(** ** The file system changes under the files *)

Lemma fs_change_owns S I f' a i :
  vol_wf S I → sfs_sb f' = sfs_sb (vl_fs S) →
  (∀ a i b, I !! a = Some i → owns (vl_fs S) i b → blk f' b = blk (vl_fs S) b ∧ used f' b = true) →
  I !! a = Some i → file_ok f' i ∧ ∀ b, owns f' i b ↔ owns (vl_fs S) i b.
Proof.
  intros Hwf Hsb Hown Ha. destruct (vw_inode _ _ Hwf a i Ha) as (_ & _ & Hok & _).
  destruct (file_stable (vl_fs S) f' i Hok Hsb) as (Hok' & Hfb & _); [by intros b _; apply (Hown a)|].
  split; [done|]. intros b. by apply owns_ext.
Qed.

Lemma vol_fs_core S I f' :
  vol_wf S I → fs_ok f' → sfs_sb f' = sfs_sb (vl_fs S) →
  (∀ a i, I !! a = Some i → used f' a = true ∧
     (blk f' a = blk (vl_fs S) a ∨ decode_inode (blk f' a) = i)) →
  (∀ a i b, I !! a = Some i → owns (vl_fs S) i b → blk f' b = blk (vl_fs S) b ∧ used f' b = true) →
  vol_disk f' I → vol_wf (set_fs f' S) I.
Proof.
  intros Hwf Hfs Hsb Hin Hown Hdisk.
  pose proof (λ a i, fs_change_owns S I f' a i Hwf Hsb Hown) as Hst.
  destruct (Hwf) as [_ Htab Hld Huq Hino Hsy Hdis Hinos _].
  split; [done|done|done|done|..|done].
  - intros a i Ha. destruct (Hino a i Ha) as (Hr & _ & _ & Hty). destruct (Hin a i Ha) as [Hu _].
    destruct (Hst a i Ha) as [Hok _]. simpl. by rewrite Hsb.
  - intros a i Ha. destruct (Hin a i Ha) as [_ [Hb|Hb]]; [|by right]. simpl. rewrite Hb. by apply Hsy.
  - intros a b i j Ha Hb Hab x. simpl. rewrite (proj2 (Hst a i Ha)), (proj2 (Hst b j Hb)). by apply (Hdis a b).
  - intros a b i j Ha Hb. simpl. rewrite (proj2 (Hst a i Ha)). by apply (Hinos a b i j).
Qed.

Lemma vol_fs_change S I f' :
  vol_wf S I → fs_ok f' → sfs_sb f' = sfs_sb (vl_fs S) →
  (∀ a i, I !! a = Some i → used f' a = true ∧
     (blk f' a = blk (vl_fs S) a ∨ decode_inode (blk f' a) = i)) →
  (∀ a i b, I !! a = Some i → owns (vl_fs S) i b → blk f' b = blk (vl_fs S) b ∧ used f' b = true) →
  map_step (vl_fs S) f' → (∀ b, reserved (vl_fs S) b → blk f' b = blk (vl_fs S) b ∧ used f' b = true) →
  vol_wf (set_fs f' S) I.
Proof.
  intros Hwf Hfs Hsb Hin Hown Hmd Hres. apply vol_fs_core; [done..|].
  eapply disk_change; [apply Hwf|done..|]. intros b a i Hb Ha.
  rewrite (proj2 (fs_change_owns S I f' a i Hwf Hsb Hown Ha)). by apply (vd_files _ _ (vw_disk _ _ Hwf)).
Qed.

Lemma vol_same_disk S I d' :
  vol_wf S I → same_disk (sfs_device (vl_fs S)) d' → vol_wf (set_fs (set_device d' (vl_fs S)) S) I.
Proof.
  intros Hwf Hs. apply vol_fs_change; [done|apply same_disk_ok; [apply Hwf|done]|done|..].
  - intros a i Ha. split; [by apply (vw_inode _ _ Hwf a i)|left; apply Hs].
  - intros a i b Ha (Hne & k & Hk & <-). split; [apply Hs|]. destruct (vw_inode _ _ Hwf a i Ha) as (_ & _ & Hok & _).
    by apply (fl_used _ _ Hok).
  - apply map_step_device, map_step_refl.
  - intros b Hb. split; [apply Hs|]. by apply (vd_reserved _ _ (vw_disk _ _ Hwf)).
Qed.

(** A block is taken from the free ones. *)
Lemma vol_balloc S I b f' :
  vol_wf S I → balloc_step (vl_fs S) b f' → fs_ok f' →
  vol_wf (set_fs f' S) I ∧ I !! b = None ∧ (∀ a i, I !! a = Some i → ¬ owns (vl_fs S) i b).
Proof.
  intros Hwf Hba Hfs. pose proof (ba_free _ _ _ Hba) as Hfree. destruct (ba_bits _ _ _ Hba) as [_ Hbit].
  assert (I !! b = None) as Hnew.
  { destruct (I !! b) as [i|] eqn:Hb; [|done]. destruct (vw_inode _ _ Hwf b i Hb) as (_ & Hu & _). congruence. }
  assert (∀ a i x, I !! a = Some i → owns (vl_fs S) i x → used (vl_fs S) x = true ∧ 0 ≤ x) as Hu.
  { intros a i x Ha (Hne & k & Hk & <-). destruct (vw_inode _ _ Hwf a i Ha) as (_ & _ & Hok & _).
    split; [by apply (fl_used _ _ Hok)|apply (fl_range _ _ Hok k Hk)]. }
  split_and!; [|done|].
  - apply vol_fs_change; [done|done|apply Hba|..].
    + intros a i Ha. destruct (vw_inode _ _ Hwf a i Ha) as (Hr & Hua & _).
      split; [rewrite Hbit by lia; by case_decide|left]. apply (balloc_blk _ b); [done|]. congruence.
    + intros a i x Ha Hx. destruct (Hu a i x Ha Hx) as [Hux Hx0].
      split; [|rewrite Hbit by lia; by case_decide]. apply (balloc_blk _ b); [done|]. congruence.
    + apply Hba.
    + intros x Hx. destruct (vd_reserved _ _ (vw_disk _ _ Hwf) x Hx) as [Hx0 Hux].
      split; [|rewrite Hbit by lia; by case_decide]. apply (balloc_blk _ b); [done|]. congruence.
  - intros a i Ha Ho. destruct (Hu a i b Ha Ho). congruence.
Qed.

(** ** Reference counts and write-back *)

Lemma upd_self S l sv : vl_heap S !! l = Some sv → upd S l (vl_fs S) sv = S.
Proof. intros Hl. unfold upd. rewrite insert_id by done. by destruct S. Qed.

(** Only the vnode part of one object changes. *)
Lemma vol_vnode S I l sv vn :
  vol_wf S I → vl_heap S !! l = Some sv → vnode_ok vn → vn_ops vn = vn_ops (sv_v sv) →
  vol_wf (upd S l (vl_fs S) (set_sv_v vn sv)) I.
Proof.
  intros Hwf Hl Hok Hops. destruct (vw_loaded _ _ Hwf l sv Hl) as (Hsv & _ & Hops').
  destruct (vw_inode _ _ Hwf _ _ Hsv) as (_ & _ & Hf & _).
  replace I with (<[sv_ino sv := sv_i (set_sv_v vn sv)]> I) by (by apply insert_id).
  apply vol_change; [done|done| |].
  - apply meta_fchange; [apply Hwf|done|apply Hf|done|done].
  - split; simpl; [done|done|congruence|by right].
Qed.

(** The inode of a vnode is on the disk: it need not be marked dirty. *)
Lemma vol_clean S I l sv :
  vol_wf S I → vl_heap S !! l = Some sv → decode_inode (blk (vl_fs S) (sv_ino sv)) = sv_i sv →
  vol_wf (upd S l (vl_fs S) (set_dirty false sv)) I.
Proof.
  intros Hwf Hl Hdec. destruct (Hwf) as [Hfs (ls & Hls1 & Hls2 & Hls) Hld Huq Hino Hsy Hdis Hinos Hdisk].
  destruct (Hld l sv Hl) as (Hsv & _ & _).
  split; try done.
  - exists ls. split_and!; [done|done|]. intros l1. rewrite Hls. simpl.
    destruct (decide (l = l1)) as [<-|]; [rewrite lookup_insert_eq, Hl; split; eauto|].
    by rewrite lookup_insert_ne.
  - intros l1 sv1. simpl. intros [[<- <-]|[_ H1]]%lookup_insert_Some; [exact (Hld l sv Hl)|by apply (Hld l1)].
  - intros l1 l2 ino. rewrite !(upd_loaded S l sv) by done. apply Huq.
  - intros a i Ha. destruct (decide (a = sv_ino sv)) as [->|Hne]; [right; simpl; congruence|].
    destruct (Hsy a i Ha) as [(l1 & sv1 & H1 & Hi1 & Hd1)|Hd]; [left|by right].
    exists l1, sv1. simpl. rewrite lookup_insert_ne; [done|]. intros ->. congruence.
Qed.

Lemma vol_sync S I l sv d' :
  vol_wf S I → vl_heap S !! l = Some sv →
  written (sfs_device (vl_fs S)) (sv_ino sv) (encode_inode (sv_i sv)) d' →
  vol_wf (upd S l (set_device d' (vl_fs S)) (set_dirty false sv)) I.
Proof.
  intros Hwf Hl (Hd & Hbl & Hsec). destruct (vw_loaded _ _ Hwf l sv Hl) as (Hsv & _ & _).
  destruct (vw_inode _ _ Hwf _ _ Hsv) as (Hr & _ & Hok & _).
  assert (decode_inode (encode_inode (sv_i sv)) = sv_i sv) as Hdec by (apply decode_encode_inode, Hok).
  set (S1 := set_fs (set_device d' (vl_fs S)) S).
  assert (vol_wf S1 I) as Hwf1.
  { apply vol_fs_change; [done| |done|..].
    - destruct (vw_fs _ _ Hwf). split; simpl; rewrite ?Hbl; done.
    - intros a i Ha. split; [by apply (vw_inode _ _ Hwf a i)|]. simpl. rewrite Hsec. case_decide as He; [right|by left].
      subst a. congruence.
    - intros a i b Ha Ho. simpl. rewrite Hsec, decide_False.
      + split; [done|]. destruct Ho as (Hne & k & Hk & <-).
        destruct (vw_inode _ _ Hwf a i Ha) as (_ & _ & Hoka & _). by apply (fl_used _ _ Hoka).
      + intros ->. by apply (vw_inodes _ _ Hwf a (sv_ino sv) i (sv_i sv)).
    - apply map_step_device, map_step_refl.
    - intros b Hb. simpl. rewrite Hsec, decide_False.
      + split; [done|]. by apply (vd_reserved _ _ (vw_disk _ _ Hwf)).
      + intros ->. by destruct (vd_files _ _ (vw_disk _ _ Hwf) (sv_ino sv) (sv_ino sv) (sv_i sv)). }
  change (upd S l (set_device d' (vl_fs S)) (set_dirty false sv)) with (upd S1 l (vl_fs S1) (set_dirty false sv)).
  apply vol_clean; [done|done|]. simpl. by rewrite Hsec, decide_True.
Qed.

(** ** Loading *)

Lemma set_fs_id S : set_fs (vl_fs S) S = S.
Proof. by destruct S. Qed.
Lemma set_vnodes_id S : set_vnodes (vl_vnodes S) S = S.
Proof. by destruct S. Qed.

Definition heap_ino S l : Z := match vl_heap S !! l with Some sv => sv_ino sv | None => 0 end.

(** There are no more loaded vnodes than blocks. *)
Lemma vol_table_size S I ls :
  vol_wf S I → NoDup ls → (∀ l, l ∈ ls ↔ is_Some (vl_heap S !! l)) → zlen ls ≤ 2 ^ 22.
Proof.
  intros Hwf Hnd Hls.
  assert (NoDup (heap_ino S <$> ls)) as Hnd'.
  { apply NoDup_fmap_2_strong; [|done]. intros l1 l2 [sv1 H1]%Hls [sv2 H2]%Hls. unfold heap_ino.
    rewrite H1, H2. intros Heq. apply (vw_unique _ _ Hwf _ _ (sv_ino sv1)); [by exists sv1|by exists sv2]. }
  assert (heap_ino S <$> ls ⊆+ seqZ 0 (nblk (vl_fs S))) as Hsub.
  { apply NoDup_submseteq; [done|]. intros x (l & -> & [sv Hl]%Hls)%list_elem_of_fmap.
    unfold heap_ino. rewrite Hl. apply elem_of_seqZ. destruct (vw_loaded _ _ Hwf l sv Hl) as (Hsv & _).
    destruct (vw_inode _ _ Hwf _ _ Hsv) as (Hr & _). lia. }
  apply submseteq_length in Hsub. rewrite length_fmap, length_seqZ in Hsub.
  pose proof (fo_nblocks _ (vw_fs _ _ Hwf)). unfold zlen. lia.
Qed.

Lemma malloc_ok_spec S Q :
  (∀ b ms, Q (Ret b) (set_mallocs ms S)) → wp malloc_ok Q S.
Proof.
  intros HQ. unfold malloc_ok. wp_step. wp_step. destruct (vl_mallocs S) as [|b bs] eqn:Hm.
  - wp_step. assert (set_mallocs [] S = S) as <- by (destruct S; simpl in *; by subst). apply HQ.
  - wp_steps. apply HQ.
Qed.

Lemma vol_mallocs S I ms : vol_wf S I → vol_wf (set_mallocs ms S) I.
Proof. intros []. split; done. Qed.

Lemma incref_ok vn : vnode_ok vn → vnode_ok (set_refcount (vn_refcount vn + 1) vn).
Proof. intros []. split; simpl; [lia|done..]. Qed.

(** The state after the reference count of [l] went up. *)
Definition incref_at S l sv : sfs_vol D :=
  upd S l (vl_fs S) (set_sv_v (set_refcount (vn_refcount (sv_v sv) + 1) (sv_v sv)) sv).

Lemma loadvnode_search_spec S I ls ino ft cnt : ∀ n Q,
  vol_wf S I → array_repr (vl_vnodes S) ls → NoDup ls → (∀ l, l ∈ ls ↔ is_Some (vl_heap S !! l)) →
  0 ≤ n → n + Z.of_nat cnt = zlen ls → (∀ k l, ls !! k = Some l → Z.of_nat k < n → ¬ loaded S l ino) →
  (ft = SFS_TYPE_INVAL ∨ ∀ l, ¬ loaded S l ino) →
  (∀ l sv, vl_heap S !! l = Some sv → sv_ino sv = ino → Q (Ret (Some l)) (incref_at S l sv)) →
  ((∀ l, ¬ loaded S l ino) → Q (Ret None) S) →
  wp (loadvnode_search ino ft (seqZ n (Z.of_nat cnt))) Q S.
Proof.
  induction cnt as [|cnt IH]; intros n Q Hwf Hrepr Hnd Hls Hn Hcnt Hseen Hft HS HN.
  { change (seqZ n (Z.of_nat 0)) with (@nil Z). cbn [loadvnode_search]. wp_step. apply HN. intros l Hl.
    destruct (Hl) as (sv & Hsv & _). assert (l ∈ ls) as [k Hk]%list_elem_of_lookup by (apply Hls; eauto).
    apply (Hseen k l Hk); [|done]. apply lookup_lt_Some in Hk. unfold zlen in *. lia. }
  rewrite seqZ_cons by lia. cbn [loadvnode_search].
  replace (Z.pred (Z.of_nat (Datatypes.S cnt))) with (Z.of_nat cnt) by lia. replace (Z.succ n) with (n + 1) by lia.
  wp_step. unfold on_vnodes. wp_step. eapply array_getguy_spec; [done|rewrite (repr_num _ _ Hrepr); lia|].
  intros l Hl. rewrite set_vnodes_id. assert (l ∈ ls) as [sv Hsv]%Hls by (by eapply list_elem_of_lookup_2).
  destruct (vw_loaded _ _ Hwf l sv Hsv) as (HI & Hvn & _).
  destruct (vw_inode _ _ Hwf _ _ HI) as (Hr & Hu & _).
  wp_step. eapply wp_get_sv; [done|]. wp_step. unfold on_fs. wp_step.
  apply sfs_bused_spec; [apply Hwf|lia|]. rewrite set_fs_id, Hu. wp_step. apply wp_assert; [done|].
  destruct (Z.eqb_spec (sv_ino sv) ino) as [Heq|Hne].
  - wp_step. apply wp_assert.
    { destruct Hft as [->|Hno]; [done|]. exfalso. apply (Hno l). by exists sv. }
    wp_step. eapply wp_on_vn; [done|]. unfold vnode_incref. wp_steps. by apply HS.
  - apply IH; try done; [lia|lia|]. intros k l1 Hk Hlt. destruct (decide (Z.of_nat k = n)) as [Hkn|].
    + replace (Z.to_nat n) with k in Hl by lia. rewrite Hk in Hl. injection Hl as ->.
      intros (sv1 & H1 & Hi1). congruence.
    + apply (Hseen k); [done|lia].
Qed.

(** ** A vnode enters the table *)

(** The file of [sv] fits beside the files of [I]. *)
Record fits f I sv : Prop := {
  ft_range : 0 < sv_ino sv < nblk f;
  ft_used : used f (sv_ino sv) = true;
  ft_file : file_ok f (sv_i sv);
  ft_self : ¬ owns f (sv_i sv) (sv_ino sv);
  ft_others : ∀ a j, I !! a = Some j → a ≠ sv_ino sv →
    (∀ x, owns f (sv_i sv) x → ¬ owns f j x) ∧ ¬ owns f j (sv_ino sv) ∧ ¬ owns f (sv_i sv) a;
  ft_disk : sv_dirty sv = true ∨ decode_inode (blk f (sv_ino sv)) = sv_i sv;
  ft_reserved : ∀ b, reserved f b → sv_ino sv ≠ b ∧ ¬ owns f (sv_i sv) b;
}.

Definition add_vnode S a l sv : sfs_vol D := set_heap (<[l := sv]> (vl_heap S)) (set_vnodes a S).

Lemma add_loaded S a l sv l' ino :
  vl_heap S !! l = None →
  loaded (add_vnode S a l sv) l' ino ↔ l' = l ∧ sv_ino sv = ino ∨ loaded S l' ino.
Proof.
  intros Hl. unfold loaded. simpl. split.
  - intros (sv1 & [[-> ->]|[? ?]]%lookup_insert_Some & <-); [by left|right; eauto].
  - intros [[-> <-]|(sv1 & H1 & <-)]; [exists sv; by rewrite lookup_insert_eq|].
    exists sv1. rewrite lookup_insert_ne; [done|]. congruence.
Qed.

Lemma vol_add S I a l ls sv :
  vol_wf S I → vl_heap S !! l = None → array_repr (vl_vnodes S) ls → NoDup ls →
  (∀ l, l ∈ ls ↔ is_Some (vl_heap S !! l)) → array_repr a (ls ++ [l]) →
  fits (vl_fs S) I sv → vnode_ok (sv_v sv) → vn_ops (sv_v sv) = ops_of_type (sfi_type (sv_i sv)) →
  (∀ l', ¬ loaded S l' (sv_ino sv)) →
  vol_wf (add_vnode S a l sv) (<[sv_ino sv := sv_i sv]> I).
Proof.
  intros Hwf Hl Hrepr Hnd Hls Ha [Hr Hu Hok Hself Hoth Hdisk Hres] Hvn Hops Hnew.
  destruct (Hwf) as [Hfs _ Hld Huq Hino Hsy Hdis Hinos Hvd].
  assert (∀ l1 sv1, vl_heap S !! l1 = Some sv1 → sv_ino sv1 ≠ sv_ino sv) as Hne.
  { intros l1 sv1 H1 Heq. apply (Hnew l1). by exists sv1. }
  split; [done|..].
  - exists (ls ++ [l]). split_and!; [done|..].
    + apply NoDup_app. split_and!; [done| |apply NoDup_singleton].
      intros x [sx Hx]%Hls ->%list_elem_of_singleton. congruence.
    + intros l1. rewrite elem_of_app, list_elem_of_singleton, Hls. simpl.
      destruct (decide (l = l1)) as [<-|]; [rewrite lookup_insert_eq; split; eauto|].
      rewrite lookup_insert_ne by done. split; [intros [?|?]; [done|congruence]|by left].
  - intros l1 sv1. simpl. intros [[<- <-]|[_ H1]]%lookup_insert_Some; [by rewrite lookup_insert_eq|].
    rewrite lookup_insert_ne by (symmetry; by eapply Hne). by apply (Hld l1).
  - intros l1 l2 ino. rewrite !add_loaded by done. intros [[-> <-]|H1] [[-> Hi]|H2]; [done|..].
    + by destruct (Hnew l2).
    + subst ino. by destruct (Hnew l1).
    + by eapply Huq.
  - intros a1 i [[<- <-]|[_ H1]]%lookup_insert_Some; [|by apply Hino]. split_and!; [apply Hr|apply Hr|done|done|].
    rewrite <- Hops. apply Hvn.
  - intros a1 i [[<- <-]|[Hna H1]]%lookup_insert_Some.
    + destruct Hdisk; [left|by right]. exists l, sv. simpl. by rewrite lookup_insert_eq.
    + destruct (Hsy a1 i H1) as [(l1 & sv1 & Hh & Hi1 & Hd1)|Hd]; [left|by right].
      exists l1, sv1. simpl. rewrite lookup_insert_ne; [done|]. congruence.
  - intros a1 b1 i j [[<- <-]|[Hna H1]]%lookup_insert_Some [[<- <-]|[Hnb H2]]%lookup_insert_Some Hab x; [done|..].
    + by apply (Hoth b1 j H2).
    + intros Hx1 Hx2. by apply (Hoth a1 i H1 ltac:(done)) in Hx2.
    + by apply (Hdis a1 b1).
  - intros a1 b1 i j [[<- <-]|[Hna H1]]%lookup_insert_Some [[<- <-]|[Hnb H2]]%lookup_insert_Some; [done|..].
    + by apply (Hoth b1 j H2).
    + by apply (Hoth a1 i H1).
    + by eapply Hinos.
  - eapply disk_change; [exact Hvd|done|apply map_step_refl|intros b Hb; split; [done|by apply (vd_reserved _ _ Hvd)]|].
    intros b a1 i Hb [[<- <-]|[_ H1]]%lookup_insert_Some; [by apply Hres|by apply (vd_files _ _ Hvd)].
Qed.

(** A file already on the volume fits. *)
Lemma vol_fits S I sv :
  vol_wf S I → I !! sv_ino sv = Some (sv_i sv) → (∀ l, ¬ loaded S l (sv_ino sv)) →
  fits (vl_fs S) I sv ∧ decode_inode (blk (vl_fs S) (sv_ino sv)) = sv_i sv.
Proof.
  intros Hwf HI Hnew. destruct (vw_inode _ _ Hwf _ _ HI) as (Hr & Hu & Hok & _).
  assert (decode_inode (blk (vl_fs S) (sv_ino sv)) = sv_i sv) as Hd.
  { destruct (vw_synced _ _ Hwf _ _ HI) as [(l & sv1 & H1 & Hi & _)|Hd]; [|done]. destruct (Hnew l). by exists sv1. }
  split; [|done]. split; [done|done|done|by eapply vw_inodes| |by right|].
  2: { intros b Hb. by apply (vd_files _ _ (vw_disk _ _ Hwf)). }
  intros a j Ha Hne. split_and!; [|by eapply vw_inodes|by eapply vw_inodes].
  intros x Hx. by eapply (vw_disjoint _ _ Hwf (sv_ino sv) a).
Qed.

(** The file system is the same up to the state of the drive. *)
Definition same_fs f f' : Prop := ∃ d', same_disk (sfs_device f) d' ∧ f' = set_device d' f.

Lemma same_fs_refl f : fs_ok f → same_fs f f.
Proof. intros Hfs. exists (sfs_device f). split; [by apply same_disk_refl|]. by rewrite set_device_id. Qed.

Lemma same_fs_trans f1 f2 f3 : same_fs f1 f2 → same_fs f2 f3 → same_fs f1 f3.
Proof.
  intros (d1 & H1 & ->) (d2 & H2 & ->). exists d2. split; [by eapply same_disk_trans|done].
Qed.

Lemma same_fs_fblock f f' i k : same_fs f f' → fblock f' i k = fblock f i k.
Proof. intros (d' & Hs & ->). apply fblock_same_disk. intros _. apply Hs. Qed.

Lemma same_fs_file f f' i : same_fs f f' → file_ok f i → file_ok f' i.
Proof.
  intros Hs [Hi Hr Hu Hd]. pose proof (λ k, same_fs_fblock _ _ i k Hs) as Hfb. destruct Hs as (d' & _ & ->).
  split; [done|..]; setoid_rewrite Hfb; done.
Qed.

Lemma same_fs_fits f f' I sv : same_fs f f' → fits f I sv → fits f' I sv.
Proof.
  intros Hs [Hr Hu Hok Hself Hoth Hd Hres].
  pose proof (λ i b, owns_ext _ _ i b (λ k, same_fs_fblock _ _ i k Hs)) as Ho.
  pose proof (same_fs_file _ _ _ Hs Hok) as Hok'. destruct (Hs) as (d' & Hsd & ->).
  split; [done|done|done|by rewrite Ho| | |intros b; rewrite Ho; apply Hres].
  - intros a j Ha Hne. destruct (Hoth a j Ha Hne) as (H1 & H2 & H3).
    split_and!; [intros x; rewrite !Ho; auto|by rewrite Ho..].
  - destruct Hd as [?|Hd]; [by left|right]. simpl. by rewrite (proj2 (proj2 Hsd)).
Qed.

(** The vnode made for an inode read from the disk. *)
Definition new_sv ops ino (ft : Z) (bs : list Z) : sfs_vnode :=
  let force := negb (ft =? SFS_TYPE_INVAL) in
  {| sv_v := {| vn_refcount := 1; vn_opencount := 0; vn_countlock := true; vn_ops := Some ops |};
     sv_i := if force then set_type (u16 ft) (decode_inode bs) else decode_inode bs;
     sv_ino := ino; sv_dirty := force |}.

(** The outcome of loading: a new vnode [sv] at a free location. *)
Definition entered S l sv S' : Prop :=
  vl_heap S !! l = None ∧ vl_heap S' = <[l := sv]> (vl_heap S) ∧ same_fs (vl_fs S) (vl_fs S').

Lemma vol_wf_same S I f' : vol_wf S I → same_fs (vl_fs S) f' → vol_wf (set_fs f' S) I.
Proof. intros Hwf (d' & Hs & ->). by apply vol_same_disk. Qed.

Lemma loadvnode_new_spec S I ino ft ops Q :
  let sv := new_sv ops ino ft (blk (vl_fs S) ino) in
  vol_wf S I → (∀ l, ¬ loaded S l ino) → fits (vl_fs S) I sv →
  ops_of_type (sfi_type (sv_i sv)) = Some ops →
  (ft ≠ SFS_TYPE_INVAL → sfi_type (decode_inode (blk (vl_fs S) ino)) = SFS_TYPE_INVAL) →
  (∀ l S', entered S l sv S' → vol_wf S' (<[ino := sv_i sv]> I) → Q (Ret l) S') →
  (∀ e S', vol_wf S' I → vl_heap S' = vl_heap S → same_fs (vl_fs S) (vl_fs S') →
     e = ENOMEM ∨ e = EIO → Q (Fail e) S') →
  wp (loadvnode_new ino ft) Q S.
Proof.
  intros sv Hwf Hnew Hfits Hops Hft HQ HF. destruct (vw_fs _ _ Hwf) as [Hdev Hnb Hfit _ _ _ _].
  pose proof (same_fs_refl _ (vw_fs _ _ Hwf)) as Hsame. destruct (Hfits) as [Hr Hu _ _ _ _ _]. simpl in Hr, Hu.
  unfold loadvnode_new. wp_step. apply malloc_ok_spec. intros b ms. destruct b; cbn [negb].
  2: { wp_step. apply HF; [by apply vol_mallocs|done|done|by left]. }
  wp_step. unfold on_fs at 1. wp_step. apply sfs_bused_spec; [apply Hwf|cbn; lia|].
  rewrite set_fs_id. cbn [vl_fs set_mallocs]. rewrite Hu. wp_step. apply wp_assert; [done|].
  wp_step. unfold on_fs. wp_step. cbn [vl_fs set_mallocs].
  apply sfs_rblock_spec; [done|lia|lia| |].
  2: { intros d' Hs. assert (same_fs (vl_fs S) (set_device d' (vl_fs S))) as Hsf by (by exists d').
       apply HF; [|done|done|by right]. apply (vol_wf_same (set_mallocs ms S)); [by apply vol_mallocs|done]. }
  intros d' Hs. set (f1 := set_device d' (vl_fs S)). assert (same_fs (vl_fs S) f1) as Hsf by (by exists d').
  wp_step. apply wp_assert.
  { destruct (Z.eqb_spec ft SFS_TYPE_INVAL) as [|Hne]; [done|]. by rewrite (Hft Hne). }
  fold (sv_i sv). change (if negb (ft =? SFS_TYPE_INVAL) then _ else _) with (sv_i sv). rewrite Hops.
  wp_step. apply malloc_ok_spec. intros b2 ms2. unfold vnode_init. destruct b2.
  2: { wp_step. apply HF; [|done|done|by left].
       apply vol_mallocs, (vol_wf_same (set_mallocs ms S)); [by apply vol_mallocs|done]. }
  wp_step. wp_step. wp_step. apply malloc_ok_spec. intros b3 ms3. wp_step. unfold on_vnodes. wp_step.
  cbn [vl_vnodes set_mallocs set_fs vl_heap]. set (l := fresh (dom (vl_heap S))).
  assert (vl_heap S !! l = None) as Hl by (apply not_elem_of_dom, is_fresh).
  destruct (vw_table _ _ Hwf) as (ls & Hrepr & Hnd & Hls).
  set (S1 := set_mallocs ms3 (set_fs f1 S)).
  assert (vol_wf S1 I) as Hwf1 by (by apply vol_mallocs, vol_wf_same).
  eapply array_add_spec; [exact Hrepr|pose proof (vol_table_size _ _ _ Hwf Hnd Hls); lia| |].
  2: { intros _ _. apply HF; [|done|done|by left]. by destruct Hwf1. }
  intros a Ha _. wp_steps. apply HQ; [done|].
  apply (vol_add S1 I a l ls sv); try done. by apply (same_fs_fits (vl_fs S)).
Qed.

(** A reference to the vnode of [ino], at [l], was added. *)
Record got S l ino S' : Prop := {
  got_fs : same_fs (vl_fs S) (vl_fs S');
  got_others : ∀ l', l' ≠ l → vl_heap S' !! l' = vl_heap S !! l';
  got_sv : ∃ sv', vl_heap S' !! l = Some sv' ∧ sv_ino sv' = ino ∧
    (vl_heap S !! l = None ∧ vn_refcount (sv_v sv') = 1 ∧ vn_opencount (sv_v sv') = 0 ∨
     ∃ sv, vl_heap S !! l = Some sv ∧
           sv' = set_sv_v (set_refcount (vn_refcount (sv_v sv) + 1) (sv_v sv)) sv);
}.

Lemma sfs_loadvnode_spec S I ino i Q :
  vol_wf S I → I !! ino = Some i →
  (∀ l S', vol_wf S' I → got S l ino S' → Q (Ret l) S') →
  (∀ e S', vol_wf S' I → vl_heap S' = vl_heap S → same_fs (vl_fs S) (vl_fs S') →
     e = ENOMEM ∨ e = EIO → Q (Fail e) S') →
  wp (sfs_loadvnode ino SFS_TYPE_INVAL) Q S.
Proof.
  intros Hwf HI HQ HF. destruct (vw_table _ _ Hwf) as (ls & Hrepr & Hnd & Hls).
  unfold sfs_loadvnode. wp_step. wp_step. unfold array_getnum. rewrite (repr_num _ _ Hrepr). unfold zlen at 1. wp_step.
  eapply loadvnode_search_spec; [done..|lia|done|intros; lia|by left| |].
  - intros l sv Hl Hino. wp_step. pose proof (same_fs_refl _ (vw_fs _ _ Hwf)).
    destruct (vw_loaded _ _ Hwf l sv Hl) as (_ & Hvn & _).
    apply HQ; [apply vol_vnode; [done|done|by apply incref_ok|done]|]. split; [done|..].
    + intros l' Hne. simpl. by rewrite lookup_insert_ne.
    + simpl. rewrite lookup_insert_eq. eexists. split; [done|]. split; [done|]. right. eauto.
  - intros Hnew. destruct (vw_inode _ _ Hwf _ _ HI) as (_ & _ & _ & [ops Hops]).
    assert (decode_inode (blk (vl_fs S) ino) = i) as Hdec.
    { destruct (vw_synced _ _ Hwf _ _ HI) as [(l & sv1 & H1 & Hi & _)|Hd]; [|done]. destruct (Hnew l). by exists sv1. }
    apply (loadvnode_new_spec S I ino SFS_TYPE_INVAL ops); try done.
    + eapply vol_fits; [done|simpl; congruence|done].
    + change (ops_of_type (sfi_type (decode_inode (blk (vl_fs S) ino))) = Some ops). by rewrite Hdec.
    + intros l S' (Hl & Hh & Hsf) Hwf'. simpl in Hwf'. rewrite Hdec, insert_id in Hwf' by done.
      apply HQ; [done|]. split; [done|..].
      * intros l' Hne. rewrite Hh. by rewrite lookup_insert_ne.
      * rewrite Hh, lookup_insert_eq. eexists. split; [done|]. split; [done|]. by left.
Qed.

(** ** A vnode leaves the table *)

Definition drop_vnode S a l : sfs_vol D := set_heap (delete l (vl_heap S)) (set_vnodes a S).

Lemma drop_loaded S a l l' ino : loaded (drop_vnode S a l) l' ino ↔ l' ≠ l ∧ loaded S l' ino.
Proof.
  unfold loaded. simpl. split.
  - intros (sv & [? ?]%lookup_delete_Some & ?). eauto.
  - intros (Hne & sv & Hl & Hi). exists sv. rewrite lookup_delete_ne by done. done.
Qed.

Lemma vol_remove S I a l sv ls k :
  vol_wf S I → vl_heap S !! l = Some sv → decode_inode (blk (vl_fs S) (sv_ino sv)) = sv_i sv →
  array_repr (vl_vnodes S) ls → NoDup ls → (∀ l, l ∈ ls ↔ is_Some (vl_heap S !! l)) → ls !! k = Some l →
  array_repr a (delete k ls) →
  vol_wf (drop_vnode S a l) I.
Proof.
  intros Hwf Hl Hdec Hrepr Hnd Hls Hk Ha. destruct (Hwf) as [Hfs _ Hld Huq Hino Hsy Hdis Hinos Hdisk].
  split; [done|..].
  - exists (delete k ls). split; [done|]. by apply (table_delete ls _ k l).
  - intros l1 sv1. simpl. intros [_ H1]%lookup_delete_Some. by apply (Hld l1).
  - intros l1 l2 ino. rewrite !drop_loaded. intros [_ ?] [_ ?]. by eapply Huq.
  - done.
  - intros a1 i H1. destruct (decide (a1 = sv_ino sv)) as [->|Hne].
    + right. destruct (Hld l sv Hl) as (Hsv & _). simpl. congruence.
    + destruct (Hsy a1 i H1) as [(l1 & sv1 & Hh & Hi1 & Hd1)|Hd]; [left|by right].
      exists l1, sv1. simpl. rewrite lookup_delete_ne; [done|]. congruence.
  - done.
  - done.
  - done.
Qed.

(** The block of an inode without blocks is freed. *)
Lemma vol_forget S I ino i f' :
  vol_wf S I → I !! ino = Some i → (∀ l, ¬ loaded S l ino) → (∀ b, ¬ owns (vl_fs S) i b) →
  bfree_step (vl_fs S) ino f' → fs_ok f' → vol_wf (set_fs f' S) (delete ino I).
Proof.
  intros Hwf HI Hnl Hno [_ [_ Hbit] [Hdev Hsb] Hmd] Hfs. destruct (Hwf) as [_ Htab Hld Huq Hino Hsy Hdis Hinos Hdisk].
  assert (∀ i b, owns f' i b ↔ owns (vl_fs S) i b) as Ho.
  { intros i1 b. apply owns_ext. intros k. by apply fblock_device. }
  split; [done|done|..].
  - intros l sv Hl. destruct (Hld l sv Hl) as (Hsv & ? & ?). split; [|done].
    rewrite lookup_delete_ne; [done|]. intros ->. apply (Hnl l). by exists sv.
  - done.
  - intros a j [Hne Ha]%lookup_delete_Some. destruct (Hino a j Ha) as (Hr & Hu & Hok & Hty). simpl.
    rewrite Hsb. split_and!; [lia..| | |done].
    + rewrite Hbit by lia. by rewrite decide_False.
    + destruct Hok as [Hi Hrg Hus Hd]. pose proof (λ k, fblock_device (vl_fs S) f' j k Hdev) as Hfb.
      split; [done|..].
      * intros k Hk. rewrite Hfb, Hsb. auto.
      * intros k Hk. rewrite Hfb. intros Hnz. pose proof (Hrg k Hk). rewrite Hbit, decide_False by (lia || (intros Heq;
          apply (Hinos a ino j i Ha HI); split; [lia|exists k; by rewrite <- Heq])). by apply Hus.
      * intros k1 k2 Hk1 Hk2. rewrite !Hfb. auto.
  - intros a j [Hne Ha]%lookup_delete_Some. destruct (Hsy a j Ha) as [?|Hd]; [by left|right].
    simpl. by rewrite Hdev.
  - intros a b j1 j2 [_ Ha]%lookup_delete_Some [_ Hb]%lookup_delete_Some Hab x. simpl. rewrite !Ho.
    by apply (Hdis a b).
  - intros a b j1 j2 [_ Ha]%lookup_delete_Some [_ Hb]%lookup_delete_Some. simpl. rewrite Ho. by apply (Hinos a b j1 j2).
  - eapply disk_change; [exact Hdisk|done|done|..].
    + intros b Hb. simpl. rewrite Hdev. split; [done|]. destruct (vd_reserved _ _ Hdisk b Hb).
      rewrite Hbit, decide_False; [done|by destruct (vd_files _ _ Hdisk b ino i Hb HI)|lia].
    + intros b a j Hb [_ Ha]%lookup_delete_Some. simpl. rewrite Ho. by apply (vd_files _ _ Hdisk).
Qed.
End specs.
