(* ===== verification/SfsNames.v ===== *)
(** * SFS: names, links and references (kern/fs/sfs/sfs_vnode.c)

    The operations on the name space of a volume preserve its invariant and
    act on the map of names as their names say. *)

From S2P Require Import Prelude Libc Bitmap Array CopyInOut Uio Device Lhd SfsDisk Vnode Sfs SfsMap SfsFile.
From S2P Require Import SfsSpec SfsTrunc SfsDir SfsVnode SfsVol.

Section specs.
Context {D : Type} `{BlockDeviceLaws D} `{!ReliableWrites D}.
Implicit Types (f : sfs_fs D) (i : sfs_inode) (sv : sfs_vnode) (S : sfs_vol D) (I : gmap Z sfs_inode)
  (m : gmap (list Z) Z) (l : loc).
Abbreviation blk f b := (sector (sfs_device f) b).
Abbreviation nblk f := (sp_nblocks (sfs_sb f)).
Abbreviation used f b := (bit (sfs_freemap f) b).

(** ** Links *)

Lemma links_pos m s ino : m !! s = Some ino → 0 < links m ino.
Proof.
  intros Hs. unfold links.
  assert (filter (λ p, p.2 = ino) m !! s = Some ino) as Hf by (by apply map_lookup_filter_Some).
  destruct (decide (size (filter (λ p, p.2 = ino) m) = 0%nat)) as [Hz|Hz]; [|lia].
  apply map_size_empty_inv in Hz. rewrite Hz in Hf. done.
Qed.

Lemma links_zero m ino : links m ino = 0 → ∀ s, m !! s ≠ Some ino.
Proof. intros Hz s Hs. apply links_pos in Hs. lia. Qed.

Lemma links_insert m s ino a :
  m !! s = None → links (<[s := ino]> m) a = links m a + (if decide (a = ino) then 1 else 0).
Proof.
  intros Hs. unfold links. case_decide as Ha.
  - subst a. rewrite map_filter_insert_True by done. rewrite map_size_insert_None; [lia|].
    rewrite map_lookup_filter_None. by left.
  - rewrite map_filter_insert_False by (simpl; congruence). rewrite delete_id by done. lia.
Qed.

Lemma links_delete m s ino a :
  m !! s = Some ino → links (delete s m) a = links m a - (if decide (a = ino) then 1 else 0).
Proof.
  intros Hs. rewrite <- (insert_delete_id m s ino Hs) at 2.
  rewrite links_insert by apply lookup_delete_eq. lia.
Qed.

(** A directory has at most 1144 names. *)
Lemma dir_names_bound f i m ino : dir_rep f i m → links m ino ≤ 1144.
Proof.
  intros [Hwf Hm]. destruct (dir_size _ _ Hwf) as [Hsz Hd]. pose proof (dw_max _ _ Hwf) as Hmax.
  assert (elements (dom m) ⊆+ ((λ k, ename (dent f i k)) <$> seqZ 0 (dslots i))) as Hsub.
  { apply NoDup_submseteq; [apply NoDup_elements|]. intros s [a Ha]%elem_of_elements%elem_of_dom.
    apply Hm in Ha as (k & Hk & _ & _ & <-). apply list_elem_of_fmap. exists k. split; [done|].
    apply elem_of_seqZ. lia. }
  apply submseteq_length in Hsub. rewrite length_fmap, length_seqZ in Hsub.
  assert (size m = length (elements (dom m))) as Hs by (symmetry; apply (size_dom m)).
  pose proof (map_size_filter (λ p : list Z * Z, p.2 = ino) m) as Hf.
  unfold links. unfold DIRENT, MAXBYTES, MAXBLOCKS, SFS_BLOCKSIZE in *. lia.
Qed.

(** ** Giving up a reference *)

(** [VOP_DECREF] of the vnode [sv] at [l]. *)
Record released S I l sv S' I' : Prop := {
  rl_wf : vol_wf S' I';
  rl_sb : sfs_sb (vl_fs S') = sfs_sb (vl_fs S);
  rl_files : ∀ a, a ≠ sv_ino sv → I' !! a = I !! a;
  rl_linked : sfi_linkcount (sv_i sv) ≠ 0 ∨ 1 < vn_refcount (sv_v sv) → I' = I;
  rl_unlinked : sfi_linkcount (sv_i sv) = 0 → ∀ i', I' !! sv_ino sv = Some i' →
    sfi_type i' = sfi_type (sv_i sv) ∧ sfi_linkcount i' = sfi_linkcount (sv_i sv) ∧ loaded S' l (sv_ino sv);
  rl_bytes : ∀ a j, I !! a = Some j →
    a ≠ sv_ino sv ∨ sfi_linkcount (sv_i sv) ≠ 0 ∨ 1 < vn_refcount (sv_v sv) →
    ∀ o, 0 ≤ o < MAXBYTES → fbyte (vl_fs S') j o = fbyte (vl_fs S) j o;
  rl_heap : ∀ l', l' ≠ l → vl_heap S' !! l' = vl_heap S !! l';
  rl_kept : 1 < vn_refcount (sv_v sv) → loaded S' l (sv_ino sv);
}.

Lemma find_index_spec S ls l k Q : ∀ n cnt,
  array_repr (vl_vnodes S) ls → NoDup ls → ls !! k = Some l →
  0 ≤ n ≤ Z.of_nat k → n + Z.of_nat cnt = zlen ls → Q (Ret (Z.of_nat k)) S →
  wp (find_index l (seqZ n (Z.of_nat cnt))) Q S.
Proof.
  intros n cnt Hrepr Hnd Hk. revert n. induction cnt as [|cnt IH]; intros n Hn Hcnt HQ.
  { apply lookup_lt_Some in Hk. unfold zlen in *. lia. }
  rewrite seqZ_cons by lia. cbn [find_index].
  replace (Z.pred (Z.of_nat (Datatypes.S cnt))) with (Z.of_nat cnt) by lia. replace (Z.succ n) with (n + 1) by lia.
  wp_step. unfold on_vnodes. wp_step. eapply array_getguy_spec; [done|rewrite (repr_num _ _ Hrepr); lia|].
  intros l2 Hl2. rewrite set_vnodes_id. destruct (Z.eqb_spec l2 l) as [->|Hne].
  - wp_step. assert (Z.to_nat n = k) as Heq by (by eapply NoDup_lookup). by replace n with (Z.of_nat k) by lia.
  - apply IH; [|lia|done]. split; [lia|]. destruct (decide (n = Z.of_nat k)) as [Heq|]; [|lia].
    subst n. rewrite Nat2Z.id in Hl2. congruence.
Qed.

(** The last steps of [sfs_reclaim]: the vnode is clean and leaves the table. *)
Lemma reclaim_drop_spec S I l sv f' Q :
  vol_wf S I → vl_heap S !! l = Some sv → vn_refcount (sv_v sv) = 1 → vn_opencount (sv_v sv) = 0 →
  decode_inode (blk (vl_fs S) (sv_ino sv)) = sv_i sv →
  (∀ a, vol_wf (drop_vnode S a l) I → Q (Ret ()) (set_fs f' (drop_vnode S a l))) →
  wp (s ← get;
      ix ← find_index l (seqZ 0 (array_getnum (vl_vnodes s)));
      _ ← on_vnodes (array_remove ix);
      _ ← on_vn l vnode_kill;
      modify (λ s, set_heap (delete l (vl_heap s)) s)) Q (set_fs f' S).
Proof.
  intros Hwf Hl Hrc Hoc Hdec HQ. destruct (vw_table _ _ Hwf) as (ls & Hrepr & Hnd & Hls).
  destruct (vw_loaded _ _ Hwf l sv Hl) as (_ & Hvn & _).
  assert (l ∈ ls) as [k Hk]%list_elem_of_lookup by (apply Hls; eauto).
  wp_step. wp_step. change (array_getnum (vl_vnodes (set_fs f' S))) with (num (vl_vnodes S)).
  rewrite (repr_num _ _ Hrepr). unfold zlen at 1. wp_step.
  eapply (find_index_spec _ ls l k); [done..|lia|done|]. wp_step. unfold on_vnodes. wp_step.
  eapply array_remove_spec; [exact Hrepr|change (0 ≤ Z.of_nat k < num (vl_vnodes S)); rewrite (repr_num _ _ Hrepr);
    apply lookup_lt_Some in Hk; unfold zlen; lia|].
  intros a Ha _. rewrite Nat2Z.id in Ha. wp_step. eapply wp_on_vn; [exact Hl|].
  apply vnode_kill_spec; [done..|]. intros vn'. wp_steps.
  match goal with |- Q _ ?st => assert (st = set_fs f' (drop_vnode S a l)) as -> end.
  { unfold upd, drop_vnode, set_heap, set_fs, set_vnodes. simpl. by rewrite delete_insert_eq. }
  apply HQ. by eapply vol_remove.
Qed.

(** The bytes of the files other than [ino] are the same. *)
Definition bytes_kept S I ino f' : Prop :=
  ∀ a j, I !! a = Some j → a ≠ ino → ∀ o, 0 ≤ o < MAXBYTES → fbyte f' j o = fbyte (vl_fs S) j o.

Lemma change_bytes S I l sv f' i' :
  vol_wf S I → vl_heap S !! l = Some sv → fchange (vl_fs S) (sv_i sv) f' i' → bytes_kept S I (sv_ino sv) f'.
Proof.
  intros Hwf Hl Hfc a j Ha Hne. destruct (vw_loaded _ _ Hwf l sv Hl) as (Hsv & _).
  destruct (vw_inode _ _ Hwf a j Ha) as (_ & _ & Hok & _).
  destruct (fchange_other _ _ _ _ j Hfc Hok) as (_ & _ & Hb & _); [|done].
  intros b. by apply (vw_disjoint _ _ Hwf a (sv_ino sv)).
Qed.

Lemma reclaim_sync_spec S I l sv Q :
  vol_wf S I → vl_heap S !! l = Some sv →
  (∀ S', vol_wf S' I → vl_heap S' = <[l := set_dirty false sv]> (vl_heap S) →
     decode_inode (blk (vl_fs S') (sv_ino sv)) = sv_i sv →
     (∃ d', vl_fs S' = set_device d' (vl_fs S)) → vl_vnodes S' = vl_vnodes S →
     (∀ a j, I !! a = Some j → ∀ o, 0 ≤ o < MAXBYTES → fbyte (vl_fs S') j o = fbyte (vl_fs S) j o) →
     Q (Ret ()) S') →
  wp (on_sv l sfs_sync_inode) Q S.
Proof.
  intros Hwf Hl HQ. destruct (vw_loaded _ _ Hwf l sv Hl) as (Hsv & _).
  destruct (vw_inode _ _ Hwf _ _ Hsv) as (Hr & _ & Hok & _).
  eapply wp_on_sv; [done|]. apply sfs_sync_inode_spec; [apply Hwf|done|done|..].
  - intros Hdy. cbn [fst snd]. rewrite upd_self by done.
    assert (set_dirty false sv = sv) as Hid by (destruct sv; simpl in *; by subst).
    apply HQ; [done|rewrite Hid, insert_id; done| |by exists (sfs_device (vl_fs S)); rewrite set_device_id|done|done].
    destruct (vw_synced _ _ Hwf _ _ Hsv) as [(l1 & sv1 & H1 & Hi1 & Hd1)|]; [|done].
    assert (l1 = l) as -> by (apply (vw_unique _ _ Hwf _ _ (sv_ino sv)); [by exists sv1|by exists sv]). congruence.
  - intros d' _ Hw. cbn [fst snd]. pose proof (vol_sync S I l sv d' Hwf Hl Hw) as Hwf'.
    destruct Hw as (_ & _ & Hsec). apply HQ; [done|done| |by exists d'|done|].
    + simpl. rewrite Hsec, decide_True by done. apply decode_encode_inode, Hok.
    + intros a j Ha. destruct (vw_inode _ _ Hwf a j Ha) as (_ & _ & Hoka & _).
      apply (file_stable (vl_fs S) (set_device d' (vl_fs S)) j Hoka eq_refl).
      intros b Hb Ho. simpl. rewrite Hsec, decide_False.
      * split; [done|]. destruct Ho as (Hne & k & Hk & <-). by apply (fl_used _ _ Hoka).
      * intros ->. by apply (vw_inodes _ _ Hwf a (sv_ino sv) j (sv_i sv)).
Qed.

Lemma fbyte_device f f' j o : sfs_device f' = sfs_device f → fbyte f' j o = fbyte f j o.
Proof.
  intros Hd. unfold fbyte. assert (bmapZ f' j (o / SFS_BLOCKSIZE) = bmapZ f j (o / SFS_BLOCKSIZE)) as ->.
  { apply bmapZ_same_disk. intros _. by rewrite Hd. }
  by rewrite Hd.
Qed.

(** A vnode that still has names. *)
Lemma reclaim_linked_spec S I l sv Q :
  vol_wf S I → vl_heap S !! l = Some sv → vn_refcount (sv_v sv) = 1 → vn_opencount (sv_v sv) = 0 →
  sfi_linkcount (sv_i sv) ≠ 0 →
  (∀ S', released S I l sv S' I → Q (Ret ()) S') →
  wp (sfs_reclaim l) Q S.
Proof.
  intros Hwf Hl Hrc Hoc Hlk HQ. unfold sfs_reclaim. wp_step. eapply wp_get_sv; [done|]. rewrite Hrc. cbn [Z.eqb Pos.eqb negb].
  wp_step. rewrite (proj2 (Z.eqb_neq _ _)) by done. wp_steps. eapply reclaim_sync_spec; [done..|].
  intros S1 Hwf1 Hh1 Hdec1 [d1 Hf1] _ Hby1. pose proof (f_equal sfs_sb Hf1 : _ = sfs_sb (vl_fs S)) as Hsb1. wp_step.
  assert (vl_heap S1 !! l = Some (set_dirty false sv)) as Hl1 by (rewrite Hh1; apply lookup_insert_eq).
  eapply wp_get_sv; [done|]. wp_step. cbn [sv_i set_dirty]. rewrite (proj2 (Z.eqb_neq _ _)) by done. wp_step.
  rewrite <- (set_fs_id S1). eapply (reclaim_drop_spec S1 I l (set_dirty false sv)); [done..|].
  intros a Hwf2. change (set_fs (vl_fs S1) (drop_vnode S1 a l)) with (drop_vnode S1 a l).
  apply HQ. split; simpl; [exact Hwf2|exact Hsb1|reflexivity|reflexivity|intros Hz; by destruct Hlk|..|lia].
  - intros a1 j Ha1 _. by apply (Hby1 a1).
  - intros l' Hne. rewrite Hh1. by rewrite lookup_delete_ne, lookup_insert_ne.
Qed.

(** What truncation to nothing leaves. *)
Lemma truncated_empty f sv f' sv' : truncated f sv 0 f' sv' → ∀ b, ¬ owns f' (sv_i sv') b.
Proof.
  intros [_ _ _ _ Hbl Hind] b (Hne & k & Hk & Hb). apply Hne. rewrite <- Hb.
  change (blocks_for 0) with 0 in *. destruct (decide (k = MAXBLOCKS)) as [->|].
  - rewrite fblock_indirect. by apply Hind.
  - rewrite Hbl by lia. rewrite decide_False; [done|]. unfold trunc_keeps, SFS_NDIRECT, MAXBLOCKS. lia.
Qed.

Lemma vop_check_spec {A} S I l sv (k : M (sfs_vol D) A) Q b :
  vol_wf S I → vl_heap S !! l = Some sv → wp k Q S →
  wp (_ ← on_vn l (vnode_check b); k) Q S.
Proof.
  intros Hwf Hl Hk. destruct (vw_loaded _ _ Hwf l sv Hl) as (_ & Hvn & _).
  wp_step. eapply wp_on_vn; [done|]. apply vnode_check_ok; [done|].
  assert (set_sv_v (sv_v sv) sv = sv) as -> by (by destruct sv). by rewrite upd_self.
Qed.

(** [VOP_TRUNCATE] to nothing of a file without names. *)
Lemma reclaim_truncate_spec S I l sv Q :
  vol_wf S I → vl_heap S !! l = Some sv →
  (∀ f' sv', truncated (vl_fs S) sv 0 f' sv' → vol_wf (upd S l f' sv') (<[sv_ino sv := sv_i sv']> I) →
     sv_v sv' = sv_v sv → Q (Ret ()) (upd S l f' sv')) →
  (∀ e f' sv', vol_wf (upd S l f' sv') (<[sv_ino sv := sv_i sv']> I) →
     fchange (vl_fs S) (sv_i sv) f' (sv_i sv') → sv_ino sv' = sv_ino sv →
     sfi_type (sv_i sv') = sfi_type (sv_i sv) → sfi_linkcount (sv_i sv') = sfi_linkcount (sv_i sv) →
     Q (Fail e) (upd S l f' sv')) →
  wp (vop_truncate l 0) Q S.
Proof.
  intros Hwf Hl HQ HF. destruct (vw_loaded _ _ Hwf l sv Hl) as (Hsv & Hvn & Hops).
  destruct (vw_inode _ _ Hwf _ _ Hsv) as (_ & _ & Hok & _).
  unfold vop_truncate. eapply vop_check_spec; [done..|]. wp_step. eapply wp_get_sv; [done|].
  assert (∀ f' sv', shrunk (vl_fs S) (sv_i sv) f' (sv_i sv') → same_vnode sv sv' →
    sv_dirty sv' = true ∨ sv' = sv →
    vol_wf (upd S l f' sv') (<[sv_ino sv := sv_i sv']> I)) as Hch.
  { intros f' sv' Hsk [Hino Hv] Hdy. apply vol_change; [done|done|by apply shrunk_fchange|].
    split; [done|by rewrite Hv| |by destruct Hdy as [?| ->]; [left|right]]. rewrite Hv, Hops. f_equal. symmetry. apply (sk_meta _ _ _ _ Hsk). }
  assert (vn_ops (sv_v sv) = Some sfs_fileops ∨ vn_ops (sv_v sv) = Some sfs_dirops) as Hkind.
  { destruct (vok_ops _ Hvn) as [ops Ho]. rewrite Hops in *. unfold ops_of_type in *. repeat case_match; auto; congruence. }
  destruct Hkind as [Ho|Ho]; rewrite Ho.
  - eapply wp_on_sv; [done|]. apply sfs_truncate_spec; [apply Hwf|done|lia| |].
    + intros f' sv' Ht. cbn [fst snd]. destruct (Ht) as [Hsk [? ?] Hdy _ _ _].
      apply HQ; [done|apply Hch; [done|done|by left]|done].
    + intros f' sv' Hsk [Hino Hv] Hsz Hpos Hdy. cbn [fst snd].
      apply HF; [by apply Hch|by apply shrunk_fchange|done|apply (sk_meta _ _ _ _ Hsk)..].
  - wp_step. pose proof (HF EISDIR (vl_fs S) sv) as HF'. rewrite upd_self, insert_id in HF' by done.
    apply HF'; [done|apply meta_fchange; [apply Hwf|done|apply Hok|done|done]|done|done|done].
Qed.

Lemma upd_same_loaded S l f' sv' ino : sv_ino sv' = ino → loaded (upd S l f' sv') l ino.
Proof. intros <-. exists sv'. simpl. by rewrite lookup_insert_eq. Qed.

(** A vnode without names: its blocks and its inode are freed. *)
Lemma reclaim_unlinked_spec S I l sv Q :
  vol_wf S I → vl_heap S !! l = Some sv → vn_refcount (sv_v sv) = 1 → vn_opencount (sv_v sv) = 0 →
  sfi_linkcount (sv_i sv) = 0 →
  (∀ r S' I', released S I l sv S' I' →
     match r with Ret _ => I' = delete (sv_ino sv) I | Fail _ => True | Halt _ => False end → Q r S') →
  wp (sfs_reclaim l) Q S.
Proof.
  intros Hwf Hl Hrc Hoc Hlk HQ. destruct (vw_loaded _ _ Hwf l sv Hl) as (Hsv & Hvn & _).
  unfold sfs_reclaim. wp_step. eapply wp_get_sv; [done|]. rewrite Hrc. cbn [Z.eqb Pos.eqb negb].
  wp_step. rewrite Hlk, Z.eqb_refl. eapply reclaim_truncate_spec; [done..| |].
  2: { intros e f' sv' Hwf' Hfc Hino Hty Hlk'. apply (HQ _ _ (<[sv_ino sv := sv_i sv']> I)); [|done].
       split; simpl; [exact Hwf'|apply Hfc|intros a Ha; by rewrite lookup_insert_ne|intros [[]|?]; [done|lia]| | | |lia].
       - intros _ i'. rewrite lookup_insert_eq. intros [= <-]. split_and!; [done|done|].
         by apply upd_same_loaded.
       - intros a j Ha [Hne|[[]|?]]; [|done|lia]. by eapply change_bytes.
       - intros l' Hne. by rewrite lookup_insert_ne. }
  intros f1 sv1 Htr Hwf1 Hv1. destruct (Htr) as [Hsk1 [Hino1 _] _ _ _ _]. set (S1 := upd S l f1 sv1) in *.
  assert (vl_heap S1 !! l = Some sv1) as Hl1 by (apply lookup_insert_eq).
  wp_steps. eapply reclaim_sync_spec; [done..|]. intros S2 Hwf2 Hh2 Hdec2 [d2 Hf2] _ Hby2.
  pose proof (f_equal sfs_sb Hf2 : _ = sfs_sb (vl_fs S1)) as Hsb2. wp_step.
  assert (vl_heap S2 !! l = Some (set_dirty false sv1)) as Hl2 by (rewrite Hh2; apply lookup_insert_eq).
  eapply wp_get_sv; [done|]. wp_step. cbn [sv_i sv_ino set_dirty].
  destruct (sk_meta _ _ _ _ Hsk1) as (_ & Hlk1 & _). rewrite Hlk1, Hlk, Z.eqb_refl.
  rewrite Hino1 in Hdec2. set (I1 := <[sv_ino sv := sv_i sv1]> I) in *.
  assert (I1 !! sv_ino sv = Some (sv_i sv1)) as HI1 by (apply lookup_insert_eq).
  destruct (vw_inode _ _ Hwf2 _ _ HI1) as (Hr2 & Hu2 & _).
  unfold on_fs. wp_step. rewrite Hino1. apply sfs_bfree_spec; [apply Hwf2|done|done|]. intros f3 Hstep3 Hfs3.
  destruct (Hstep3) as [_ _ [Hdev3 Hsb3]].
  eapply (reclaim_drop_spec S2 I1 l (set_dirty false sv1)); simpl; [done|done|by rewrite Hv1..|by rewrite Hino1|].
  intros a Hwf3. set (S3 := drop_vnode S2 a l) in *.
  assert (∀ b, ¬ owns (vl_fs S3) (sv_i sv1) b) as Hno.
  { intros b Ho. apply (truncated_empty _ _ _ _ Htr b). destruct Ho as (Hne & k & Hk & Hb). split; [done|].
    exists k. split; [done|]. rewrite <- Hb. simpl. symmetry.
    assert (sfi_indirect (sv_i sv1) = 0) as Hz by (apply (tr_indirect _ _ _ _ _ Htr); done).
    apply fblock_same_disk. by rewrite Hz. }
  assert (∀ l', ¬ loaded S3 l' (sv_ino sv)) as Hnl.
  { intros l' [Hne Hl']%drop_loaded. apply Hne. apply (vw_unique _ _ Hwf2 _ _ (sv_ino sv)); [done|].
    exists (set_dirty false sv1). done. }
  pose proof (vol_forget S3 I1 (sv_ino sv) (sv_i sv1) f3 Hwf3 HI1 Hnl Hno Hstep3 Hfs3) as Hwf4.
  unfold I1 in Hwf4. rewrite delete_insert_eq in Hwf4.
  apply (HQ _ _ (delete (sv_ino sv) I)); [|done]. split; [exact Hwf4| | |intros [[]|?]; [done|lia]| | | |lia].
  - simpl. rewrite Hsb3, Hsb2. simpl. apply (fr_sb _ _ _ _ (sk_freed _ _ _ _ Hsk1)).
  - intros a1 Ha1. by rewrite lookup_delete_ne.
  - intros _ i'. rewrite lookup_delete_eq. done.
  - intros a1 j Ha1 [Hne|[[]|?]]; [|done|lia]. intros o Ho. simpl. rewrite (fbyte_device (vl_fs S2)) by done.
    rewrite (Hby2 a1 j) by (done || unfold I1; by rewrite lookup_insert_ne).
    eapply (change_bytes S I l sv f1); [done|done|by apply shrunk_fchange|done..].
  - intros l' Hne. simpl. rewrite lookup_delete_ne, Hh2, lookup_insert_ne by done. simpl. by rewrite lookup_insert_ne.
Qed.

Lemma vop_decref_spec S I l sv Q :
  vol_wf S I → vl_heap S !! l = Some sv → (vn_refcount (sv_v sv) = 1 → vn_opencount (sv_v sv) = 0) →
  (∀ S' I', released S I l sv S' I' → Q (Ret ()) S') →
  wp (vop_decref l) Q S.
Proof.
  intros Hwf Hl Hoc HQ. destruct (vw_loaded _ _ Hwf l sv Hl) as (Hsv & Hvn & _). destruct (Hvn) as [Hrc _ _ _].
  unfold vop_decref, vnode_decref. wp_step. eapply wp_on_vn; [done|]. unfold vnode_decref_count. wp_steps.
  apply wp_assert; [rewrite Z.gtb_ltb; lia|]. rewrite Z.gtb_ltb. destruct (Z.ltb_spec 1 (vn_refcount (sv_v sv))).
  - wp_steps. apply (HQ _ I).
    assert (vol_wf (upd S l (vl_fs S) (set_sv_v (set_refcount (vn_refcount (sv_v sv) - 1) (sv_v sv)) sv)) I) as Hwf'.
    { apply vol_vnode; [done|done| |done]. destruct Hvn. split; simpl; [lia|done..]. }
    split; [exact Hwf'|done|done|done| |done| |intros _; by apply upd_same_loaded].
    + intros _ i' Hi'. assert (i' = sv_i sv) as -> by congruence. split_and!; [done|done|]. by apply upd_same_loaded.
    + intros l' Hne. simpl. by rewrite lookup_insert_ne.
  - assert (vn_refcount (sv_v sv) = 1) as Hrc1 by lia.
    wp_step. assert (set_sv_v (sv_v sv) sv = sv) as -> by (by destruct sv). rewrite upd_self by done.
    eapply vop_check_spec; [done..|]. wp_steps.
    destruct (decide (sfi_linkcount (sv_i sv) = 0)) as [Hz|Hnz].
    + eapply reclaim_unlinked_spec; [done|done|done|auto|done|]. intros [[]|e|] S' I' Hrl Hr; [| |done];
        wp_step; by eapply HQ.
    + eapply reclaim_linked_spec; [done|done|done|auto|done|]. intros S' Hrl. wp_step. by eapply HQ.
Qed.

(** ** The name space *)

Abbreviation root := SFS_ROOT_LOCATION.

(** The files outside [X] keep their sizes and bytes, and the vnodes outside
    [L] stay loaded. *)
Record keeps S I S' I' (X : Z → Prop) (L : loc → Prop) : Prop := {
  kp_files : ∀ a j, I !! a = Some j → ¬ X a → ∃ j', I' !! a = Some j' ∧ sfi_size j' = sfi_size j ∧
    ∀ o, 0 ≤ o < MAXBYTES → fbyte (vl_fs S') j' o = fbyte (vl_fs S) j o;
  kp_loaded : ∀ l a, loaded S l a → ¬ L l → loaded S' l a;
}.

Lemma keeps_trans S I S1 I1 S2 I2 X L :
  keeps S I S1 I1 X L → keeps S1 I1 S2 I2 X L → keeps S I S2 I2 X L.
Proof.
  intros [Hf1 Hl1] [Hf2 Hl2]. split; [|auto]. intros a j Ha Hx.
  destruct (Hf1 a j Ha Hx) as (j1 & Ha1 & Hs1 & Hb1). destruct (Hf2 a j1 Ha1 Hx) as (j2 & Ha2 & Hs2 & Hb2).
  exists j2. split_and!; [done|congruence|]. intros o Ho. rewrite Hb2; auto.
Qed.

Lemma keeps_weaken S I S' I' (X X' : Z → Prop) (L L' : loc → Prop) :
  (∀ a, X a → X' a) → (∀ l, L l → L' l) → keeps S I S' I' X L → keeps S I S' I' X' L'.
Proof. intros HX HL [Hf Hl]. split; eauto. Qed.

Lemma same_fs_fbyte f f' j o : same_fs f f' → fbyte f' j o = fbyte f j o.
Proof.
  intros (d' & Hs & ->). unfold fbyte. rewrite (bmapZ_same_disk f (set_device d' f)) by (intros _; apply Hs).
  simpl. by rewrite (proj2 (proj2 Hs)).
Qed.

Lemma keeps_same S I S' :
  same_fs (vl_fs S) (vl_fs S') → (∀ l a, loaded S l a → loaded S' l a) →
  keeps S I S' I (λ _, False) (λ _, False).
Proof.
  intros Hs Hl. split; [|auto]. intros a j Ha _. exists j. split_and!; [done|done|]. intros o _.
  by apply same_fs_fbyte.
Qed.

Lemma keeps_change S I l sv f' sv' :
  vol_wf S I → vl_heap S !! l = Some sv → fchange (vl_fs S) (sv_i sv) f' (sv_i sv') → sv_ino sv' = sv_ino sv →
  keeps S I (upd S l f' sv') (<[sv_ino sv := sv_i sv']> I) (λ a, a = sv_ino sv) (λ _, False).
Proof.
  intros Hwf Hl Hfc Hino. split.
  - intros a j Ha Hne. exists j. rewrite lookup_insert_ne by done. split_and!; [done|done|].
    by eapply change_bytes.
  - intros l' a Hl' _. by apply (upd_loaded S l sv).
Qed.

Lemma keeps_released S I l sv S' I' :
  vol_wf S I → vl_heap S !! l = Some sv → released S I l sv S' I' →
  keeps S I S' I' (λ a, a = sv_ino sv ∧ sfi_linkcount (sv_i sv) = 0 ∧ vn_refcount (sv_v sv) = 1)
    (λ l', l' = l ∧ vn_refcount (sv_v sv) = 1).
Proof.
  intros Hwf Hl Hrl. destruct (vw_loaded _ _ Hwf l sv Hl) as (Hsv & [Hrc _ _ _] & _). split.
  - intros a j Ha Hx. exists j.
    assert (a ≠ sv_ino sv ∨ sfi_linkcount (sv_i sv) ≠ 0 ∨ 1 < vn_refcount (sv_v sv)) as Hc.
    { destruct (decide (a = sv_ino sv)), (decide (sfi_linkcount (sv_i sv) = 0)), (decide (vn_refcount (sv_v sv) = 1));
        naive_solver lia. }
    split_and!; [|done|by apply (rl_bytes _ _ _ _ _ _ Hrl a)].
    destruct Hc as [Hne|Hc]; [by rewrite (rl_files _ _ _ _ _ _ Hrl)|by rewrite (rl_linked _ _ _ _ _ _ Hrl)].
  - intros l' a Hl' HL. destruct (decide (l' = l)) as [->|Hne].
    + destruct Hl' as (sv1 & H1 & <-). rewrite Hl in H1. injection H1 as <-.
      apply (rl_kept _ _ _ _ _ _ Hrl). assert (vn_refcount (sv_v sv) ≠ 1) by naive_solver. lia.
    + destruct Hl' as (sv1 & H1 & Hi1). exists sv1. by rewrite (rl_heap _ _ _ _ _ _ Hrl).
Qed.

Lemma released_ns S I l sv S' I' m :
  vol_wf S I → vl_heap S !! l = Some sv → released S I l sv S' I' → vol_ns S I m → vol_ns S' I' m.
Proof.
  intros Hwf Hl Hrl [(ri & Hri & Hdir & Hrl0) Hnm Hfl Hor].
  destruct (vw_loaded _ _ Hwf l sv Hl) as (Hsv & _ & _).
  assert (∀ a j, I !! a = Some j → a ≠ sv_ino sv ∨ sfi_linkcount (sv_i sv) ≠ 0 → I' !! a = Some j) as Hst.
  { intros a j Ha [Hne|Hc]; [by rewrite (rl_files _ _ _ _ _ _ Hrl)|].
    rewrite (rl_linked _ _ _ _ _ _ Hrl); [done|by left]. }
  assert (root = sv_ino sv → sfi_linkcount (sv_i sv) ≠ 0) as Hroot by (intros Heq; congruence).
  assert (root ≠ sv_ino sv ∨ sfi_linkcount (sv_i sv) ≠ 0) as Hrc.
  { destruct (decide (root = sv_ino sv)); auto. }
  assert (∀ s, m !! s = Some (sv_ino sv) → sfi_linkcount (sv_i sv) ≠ 0) as Hlk.
  { intros s Hs. destruct (Hfl _ _ Hsv) as [_ ->]; [by apply (Hnm s)|]. apply links_pos in Hs. lia. }
  pose proof (rl_wf _ _ _ _ _ _ Hrl) as Hwf'. split.
  - exists ri. split_and!; [by apply Hst| |done].
    apply (dir_rep_ext (vl_fs S) ri); [done|apply Hwf'|by eapply (vw_inode _ _ Hwf' root), Hst|done|done|].
    apply (rl_bytes _ _ _ _ _ _ Hrl root); [done|]. destruct Hrc; auto.
  - intros s a Hs. destruct (Hnm s a Hs) as [Hne [j Ha]]. split; [done|]. exists j. apply Hst; [done|].
    destruct (decide (a = sv_ino sv)) as [->|]; [right; by eapply Hlk|by left].
  - intros a j Ha Hne. destruct (decide (a = sv_ino sv)) as [->|Hna].
    + destruct (decide (sfi_linkcount (sv_i sv) = 0)) as [Hz|Hnz].
      * destruct (rl_unlinked _ _ _ _ _ _ Hrl Hz j Ha) as (-> & -> & _). by apply Hfl.
      * rewrite (Hst _ _ Hsv (or_intror Hnz)) in Ha. injection Ha as <-. by apply Hfl.
    + rewrite (rl_files _ _ _ _ _ _ Hrl) in Ha by done. by apply Hfl.
  - intros a j Ha Hne Hz. destruct (decide (a = sv_ino sv)) as [->|Hna].
    + assert (sfi_linkcount (sv_i sv) = 0) as Hz' by (destruct (Hfl _ _ Hsv Hne) as [_ ->]; done).
      exists l. by apply (rl_unlinked _ _ _ _ _ _ Hrl Hz' j).
    + rewrite (rl_files _ _ _ _ _ _ Hrl) in Ha by done. destruct (Hor a j Ha Hne Hz) as (l' & sv1 & H1 & Hi1).
      exists l', sv1. rewrite (rl_heap _ _ _ _ _ _ Hrl); [done|]. congruence.
Qed.
End specs.
