(* ===== verification/SfsOps.v ===== *)
(** * SFS: looking up, creating, linking, removing and renaming files

    [sfs_lookonce], [sfs_makeobj] and the directory operations of
    kern/fs/sfs/sfs_vnode.c on a whole volume: each preserves the invariant of
    the volume, acts on the map of names as its name says, leaves the map alone
    when it fails, and keeps the contents of the other files. *)

From S2P Require Import Prelude Libc Bitmap Array CopyInOut Uio Device Lhd SfsDisk Vnode Sfs SfsMap SfsFile.
From S2P Require Import SfsSpec SfsTrunc SfsDir SfsVnode SfsVol SfsNames.

Section specs.
Context {D : Type} `{BlockDeviceLaws D} `{!ReliableWrites D}.
Implicit Types (f : sfs_fs D) (i : sfs_inode) (sv : sfs_vnode) (S : sfs_vol D) (I : gmap Z sfs_inode)
  (m : gmap (list Z) Z) (l : loc).
Abbreviation blk f b := (sector (sfs_device f) b).
Abbreviation nblk f := (sp_nblocks (sfs_sb f)).
Abbreviation used f b := (bit (sfs_freemap f) b).
Abbreviation none := (λ _, False).
Abbreviation root := SFS_ROOT_LOCATION.
Abbreviation isroot := (λ a, a = SFS_ROOT_LOCATION).

(** The invariant of a volume, with [dir] the vnode of its root directory. *)
Record vol_ok S I m dir : Prop := {
  vo_wf : vol_wf S I;
  vo_ns : vol_ns S I m;
  vo_dir : loaded S dir root;
}.

Lemma loaded_sv S l ino : loaded S l ino → ∃ sv, vl_heap S !! l = Some sv ∧ sv_ino sv = ino.
Proof. done. Qed.

Lemma root_dir S I m dir d :
  vol_ok S I m dir → vl_heap S !! dir = Some d →
  sv_ino d = root ∧ dir_rep (vl_fs S) (sv_i d) m ∧ sfi_linkcount (sv_i d) ≠ 0.
Proof.
  intros [Hwf [(ri & Hri & Hrep & Hlk) _ _ _] (d' & Hd' & Hino)] Hd. rewrite Hd in Hd'. injection Hd' as <-.
  destruct (vw_loaded _ _ Hwf dir d Hd) as (Hdi & _). rewrite Hino, Hri in Hdi. injection Hdi as ->. done.
Qed.

Lemma ns_same S I m S' :
  vol_ns S I m → vol_wf S' I → same_fs (vl_fs S) (vl_fs S') → (∀ l a, loaded S l a → loaded S' l a) →
  vol_ns S' I m.
Proof.
  intros [(ri & Hri & Hrep & Hlk) Hnm Hfl Hor] Hwf (d' & Hs & Hf) Hld. split; [|done|done|].
  - exists ri. split_and!; [done| |done]. rewrite Hf. by apply dir_rep_same_disk.
  - intros a j Ha Hne Hz. destruct (Hor a j Ha Hne Hz) as [l Hl]. exists l. auto.
Qed.

Lemma got_loaded S l ino S' l' a : got S l ino S' → loaded S l' a → loaded S' l' a.
Proof.
  intros [_ Hoth (sv' & Hl & Hino & Hc)] (sv1 & H1 & <-). destruct (decide (l' = l)) as [->|Hne].
  - exists sv'. split; [done|]. destruct Hc as [[Hn _]|(sv & Hsv & ->)]; [congruence|]. simpl. congruence.
  - exists sv1. by rewrite Hoth.
Qed.

(** The volume up to the state of the drive and the outcomes of allocations. *)
Lemma vol_ok_same S I m dir S' :
  vol_ok S I m dir → vol_wf S' I → same_fs (vl_fs S) (vl_fs S') → (∀ l a, loaded S l a → loaded S' l a) →
  vol_ok S' I m dir ∧ keeps S I S' I none none.
Proof.
  intros [Hwf Hns Hdir] Hwf' Hs Hld. split; [|by apply keeps_same]. split; [done|by eapply ns_same|auto].
Qed.

(** ** Looking up *)

Lemma findname_vol_spec S I m dir name s Q :
  vol_ok S I m dir → cstr name s → Forall is_u8 s →
  (∀ r S' d, vol_ok S' I m dir → keeps S I S' I none none → vl_heap S' = vl_heap S →
     vl_heap S' !! dir = Some d → searched (vl_fs S') (sv_i d) s (dslots (sv_i d)) r →
     m !! s = fst <$> fd_found r → Q (Ret r) S') →
  (∀ S', vol_ok S' I m dir → keeps S I S' I none none → vl_heap S' = vl_heap S → Q (Fail EIO) S') →
  wp (on_sv dir (sfs_dir_findname name)) Q S.
Proof.
  intros Hok Hs Hu HQ HF. destruct (vo_dir _ _ _ _ Hok) as (d & Hd & Hdi).
  destruct (root_dir _ _ _ _ _ Hok Hd) as (_ & Hrep & _).
  assert (∀ d', same_disk (sfs_device (vl_fs S)) d' →
    let S' := upd S dir (set_device d' (vl_fs S)) d in
    vol_ok S' I m dir ∧ keeps S I S' I none none ∧ vl_heap S' = vl_heap S) as Hst.
  { intros d' Hs' S'. assert (S' = set_fs (set_device d' (vl_fs S)) S) as ->.
    { unfold S', upd. rewrite insert_id by done. by destruct S. }
    assert (same_fs (vl_fs S) (set_device d' (vl_fs S))) as Hsf by (by exists d').
    pose proof (vol_same_disk S I d' (vo_wf _ _ _ _ Hok) Hs') as Hwf'.
    destruct (vol_ok_same S I m dir (set_fs (set_device d' (vl_fs S)) S) Hok Hwf') as [? ?]; done. }
  eapply wp_on_sv; [done|]. eapply sfs_dir_findname_spec; [done..| |].
  - intros d' r Hs' Hrep' Hse. destruct (Hst d' Hs') as (Hok' & Hk & Hh).
    cbn [fst snd]. apply (HQ r _ d); [done|done|done|by rewrite Hh|done|]. by eapply searched_lookup.
  - intros d' Hs'. destruct (Hst d' Hs') as (Hok' & Hk & Hh). by apply HF.
Qed.

(** The vnode at [l] of the file [ino] got a reference. *)
Record fetched S I m dir l ino S' : Prop := {
  fe_ok : vol_ok S' I m dir;
  fe_keeps : keeps S I S' I none none;
  fe_sv : ∃ sv, vl_heap S' !! l = Some sv ∧ sv_ino sv = ino ∧
    (vn_refcount (sv_v sv) = 1 → vn_opencount (sv_v sv) = 0 ∧ vl_heap S !! l = None);
  fe_heap : ∀ l', l' ≠ l → vl_heap S' !! l' = vl_heap S !! l';
  fe_fs : same_fs (vl_fs S) (vl_fs S');
}.

Lemma loadvnode_vol_spec S I m dir ino i Q :
  vol_ok S I m dir → I !! ino = Some i →
  (∀ l S', fetched S I m dir l ino S' → Q (Ret l) S') →
  (∀ e S', vol_ok S' I m dir → keeps S I S' I none none → e = ENOMEM ∨ e = EIO → Q (Fail e) S') →
  wp (sfs_loadvnode ino SFS_TYPE_INVAL) Q S.
Proof.
  intros Hok HI HQ HF. eapply sfs_loadvnode_spec; [apply Hok|done| |].
  - intros l S' Hwf' Hgot. destruct (vol_ok_same _ _ _ _ S' Hok Hwf') as [Hok' Hk];
      [apply Hgot|by intros l' a; apply (got_loaded S l ino)|].
    apply HQ. split; [done|done| |apply Hgot|apply Hgot].
    destruct (got_sv _ _ _ _ Hgot) as (sv' & Hl & Hino & Hc). exists sv'. split_and!; [done|done|]. intros Hrc.
    destruct Hc as [(Hn & _ & Hoc)|(sv & Hsv & ->)]; [done|]. exfalso. simpl in Hrc.
    destruct (vw_loaded _ _ (vo_wf _ _ _ _ Hok) l sv Hsv) as (_ & [Hp _ _ _] & _). lia.
  - intros e S' Hwf' Hh Hs He. destruct (vol_ok_same _ _ _ _ S' Hok Hwf' Hs) as [Hok' Hk]; [|auto].
    intros l' a (sv & Hl' & Hi). exists sv. by rewrite Hh.
Qed.

Lemma fetched_from S I m dir l ino S1 S' :
  keeps S I S1 I none none → vl_heap S1 = vl_heap S → fetched S1 I m dir l ino S' →
  keeps S I S' I none none ∧ (∀ l', l' ≠ l → vl_heap S' !! l' = vl_heap S !! l') ∧
  ∃ sv, vl_heap S' !! l = Some sv ∧ sv_ino sv = ino ∧
    (vn_refcount (sv_v sv) = 1 → vn_opencount (sv_v sv) = 0 ∧ vl_heap S !! l = None).
Proof.
  intros Hk Hh [_ Hk' Hsv Hoth _]. rewrite <- Hh. split_and!; [by eapply keeps_trans|done|done].
Qed.

(** [s] names the file whose vnode is at [l], which got a reference; the name
    is in the slot [slot] of the directory [d]. *)
Record looked S I m dir s l slot ino sv d S' : Prop := {
  lk_name : m !! s = Some ino;
  lk_ok : vol_ok S' I m dir;
  lk_keeps : keeps S I S' I none none;
  lk_sv : vl_heap S' !! l = Some sv;
  lk_ino : sv_ino sv = ino;
  lk_new : vn_refcount (sv_v sv) = 1 → vn_opencount (sv_v sv) = 0 ∧ vl_heap S !! l = None;
  lk_heap : ∀ l', l' ≠ l → vl_heap S' !! l' = vl_heap S !! l';
  lk_dir : vl_heap S' !! dir = Some d;
  lk_ne : l ≠ dir;
  lk_slot : slot_has (vl_fs S') (sv_i d) slot s ino;
  lk_type : sfi_type (sv_i sv) = SFS_TYPE_FILE;
  lk_links : sfi_linkcount (sv_i sv) = links m ino;
}.

Lemma sfs_lookonce_spec S I m dir name s Q :
  vol_ok S I m dir → cstr name s → Forall is_u8 s →
  (∀ l slot ino sv d S', looked S I m dir s l slot ino sv d S' → Q (Ret (l, slot)) S') →
  (∀ e S', vol_ok S' I m dir → keeps S I S' I none none →
     e = ENOENT ∧ m !! s = None ∨ e = ENOMEM ∨ e = EIO → Q (Fail e) S') →
  wp (sfs_lookonce dir name) Q S.
Proof.
  intros Hok Hs Hu HQ HF. unfold sfs_lookonce. wp_step. eapply findname_vol_spec; [done..| |].
  2: { intros S1 Hok1 Hk1 _. apply HF; auto. }
  intros r S1 d Hok1 Hk1 Hh1 Hd1 Hse Hlook. destruct (fd_found r) as [[ino slot]|] eqn:Hfd; simpl in Hlook.
  2: { wp_step. apply HF; auto. }
  destruct (vn_names _ _ _ (vo_ns _ _ _ _ Hok1) s ino Hlook) as [Hnr [i Hi]]. wp_step.
  eapply loadvnode_vol_spec; [done..| |].
  2: { intros e S' Hok' Hk' He. apply HF; [done|by eapply keeps_trans|auto]. }
  intros l S' Hfe. destruct (Hfe) as [Hok' _ _ Hh' (d' & Hsd & Hfs')].
  destruct (fetched_from _ _ _ _ _ _ _ _ Hk1 Hh1 Hfe) as (Hk & Hh & sv & Hl & Hino & Hnew).
  destruct (vw_loaded _ _ (vo_wf _ _ _ _ Hok') l sv Hl) as (Hsi & _). rewrite Hino, Hi in Hsi. injection Hsi as ->.
  destruct (vn_files _ _ _ (vo_ns _ _ _ _ Hok') _ _ Hi Hnr) as [Hty Hlk]. pose proof (links_pos _ _ _ Hlook).
  assert (l ≠ dir) as Hne.
  { intros ->. destruct (root_dir _ _ _ _ _ Hok' Hl) as (Hr & _). congruence. }
  wp_step. eapply wp_get_sv; [done|]. wp_step. apply wp_assert.
  { destruct (Z.eqb_spec (sfi_linkcount (sv_i sv)) 0); [lia|done]. }
  wp_step. apply (HQ l slot ino sv d). split; try done.
  - by rewrite Hh'.
  - rewrite Hfs'. apply slot_has_same_disk; [|done|]; [eapply (root_dir _ _ _ _ _ Hok1 Hd1)|].
    by eapply (se_found _ _ _ _ _ Hse).
Qed.

(** ** Between a directory entry and the link count

    The link count of the file [ino] is off by [k]: it is still to be added. *)
Record ns_off S I m dir (ino k : Z) : Prop := {
  no_wf : vol_wf S I;
  no_dir : loaded S dir root;
  no_root : ∃ ri, I !! root = Some ri ∧ dir_rep (vl_fs S) ri m ∧ sfi_linkcount ri ≠ 0;
  no_names : ∀ s a, m !! s = Some a → a ≠ root ∧ is_Some (I !! a);
  no_files : ∀ a i, I !! a = Some i → a ≠ root →
    sfi_type i = SFS_TYPE_FILE ∧ sfi_linkcount i + (if decide (a = ino) then k else 0) = links m a;
  no_orphans : ∀ a i, I !! a = Some i → a ≠ root → links m a = 0 → ∃ l, loaded S l a;
}.

Lemma ns_off_0 S I m dir ino : ns_off S I m dir ino 0 → vol_ok S I m dir.
Proof.
  intros [? ? ? ? Hfl ?]. split; [done| |done]. split; [done|done| |done]. intros a i Ha Hne.
  destruct (Hfl a i Ha Hne) as [Hty Hlk]. split; [done|]. case_decide; lia.
Qed.

(** A directory operation. *)
Lemma dir_step S I m dir d f' d' m' ino k :
  vol_ok S I m dir → vl_heap S !! dir = Some d → svstep (vl_fs S) d f' d' → dir_rep f' (sv_i d') m' →
  (∀ s a, m' !! s = Some a → a ≠ root ∧ is_Some (I !! a)) →
  (∀ a, links m' a = links m a + (if decide (a = ino) then k else 0)) →
  (k = 0 ∨ ∃ l, loaded S l ino) →
  let S' := upd S dir f' d' in
  let I' := <[root := sv_i d']> I in
  ns_off S' I' m' dir ino k ∧ keeps S I S' I' isroot none.
Proof.
  intros Hok Hd [Hst Hino Hv Hdirty] Hrep Hnm Hlinks Hld S' I'.
  destruct (Hok) as [Hwf [_ _ Hfl Hor] Hdir]. destruct (root_dir _ _ _ _ _ Hok Hd) as (Hroot & _ & Hlk).
  pose proof (fstep_fchange _ _ _ _ Hst) as Hfc. destruct (fs_meta _ _ _ _ Hst) as (Hty & Hlc & _).
  destruct (vw_loaded _ _ Hwf dir d Hd) as (_ & Hvn & Hops).
  assert (vol_wf S' I') as Hwf'.
  { unfold I'. rewrite <- Hroot. apply vol_change; [done|done|done|]. split; [done|by rewrite Hv|by rewrite Hv, Hty|].
    destruct (sv_dirty d'); [by left|]. right. by destruct Hdirty as [-> ->]. }
  assert (∀ l a, loaded S l a → loaded S' l a) as Hmono by (intros l a Hl; by apply (upd_loaded S dir d)).
  split; [split|].
  - done.
  - auto.
  - exists (sv_i d'). unfold I'. rewrite lookup_insert_eq. split_and!; [done|done|]. by rewrite Hlc.
  - intros s a Hs. destruct (Hnm s a Hs) as [Hne Ha]. split; [done|]. unfold I'. by rewrite lookup_insert_ne.
  - intros a i Ha Hne. unfold I' in Ha. rewrite lookup_insert_ne in Ha by done.
    destruct (Hfl a i Ha Hne) as [Hta Hla]. split; [done|]. rewrite Hlinks. lia.
  - intros a i Ha Hne Hz. unfold I' in Ha. rewrite lookup_insert_ne in Ha by done.
    rewrite Hlinks in Hz. case_decide as Hai.
    + subst a. destruct Hld as [->|[l Hl]]; [|exists l; auto]. rewrite Z.add_0_r in Hz.
      destruct (Hor _ _ Ha Hne Hz) as [l Hl]. exists l. auto.
    + rewrite Z.add_0_r in Hz. destruct (Hor _ _ Ha Hne Hz) as [l Hl]. exists l. auto.
  - unfold S', I'. rewrite <- Hroot. eapply keeps_weaken; [..|by apply keeps_change]; [|done]. intros a ->. done.
Qed.

Lemma dir_unchanged S I m dir d f' d' :
  vol_ok S I m dir → vl_heap S !! dir = Some d → svstep (vl_fs S) d f' d' → dir_rep f' (sv_i d') m →
  vol_ok (upd S dir f' d') (<[root := sv_i d']> I) m dir ∧
  keeps S I (upd S dir f' d') (<[root := sv_i d']> I) isroot none.
Proof.
  intros Hok Hd Hst Hrep. destruct (dir_step S I m dir d f' d' m 0 0 Hok Hd Hst Hrep) as [Hno Hk].
  - apply Hok.
  - intros a. case_decide; lia.
  - by left.
  - split; [by eapply ns_off_0|done].
Qed.

Lemma dir_added S I m dir d f' d' s ino l :
  vol_ok S I m dir → vl_heap S !! dir = Some d → svstep (vl_fs S) d f' d' →
  dir_rep f' (sv_i d') (<[s := ino]> m) → m !! s = None → ino ≠ root → loaded S l ino →
  ns_off (upd S dir f' d') (<[root := sv_i d']> I) (<[s := ino]> m) dir ino 1 ∧
  keeps S I (upd S dir f' d') (<[root := sv_i d']> I) isroot none.
Proof.
  intros Hok Hd Hst Hrep Hs Hne Hl. eapply dir_step; [done..| |by intros a; apply links_insert|eauto].
  intros s' a Hs'. destruct (decide (s' = s)) as [->|Hns].
  - rewrite lookup_insert_eq in Hs'. injection Hs' as <-. split; [done|]. destruct Hl as (sv & Hl & <-).
    destruct (vw_loaded _ _ (vo_wf _ _ _ _ Hok) _ _ Hl) as (-> & _). eauto.
  - rewrite lookup_insert_ne in Hs' by done. by eapply (vn_names _ _ _ (vo_ns _ _ _ _ Hok)).
Qed.

Lemma dir_removed S I m dir d f' d' s ino l :
  vol_ok S I m dir → vl_heap S !! dir = Some d → svstep (vl_fs S) d f' d' →
  dir_rep f' (sv_i d') (delete s m) → m !! s = Some ino → loaded S l ino →
  ns_off (upd S dir f' d') (<[root := sv_i d']> I) (delete s m) dir ino (-1) ∧
  keeps S I (upd S dir f' d') (<[root := sv_i d']> I) isroot none.
Proof.
  intros Hok Hd Hst Hrep Hs Hl. eapply dir_step; [done..| | |eauto].
  - intros s' a [_ Hs']%lookup_delete_Some. by eapply (vn_names _ _ _ (vo_ns _ _ _ _ Hok)).
  - intros a. rewrite (links_delete m s ino a Hs). case_decide; lia.
Qed.

(** The link count is brought up to date. *)
Lemma relink S I m dir l sv sv' k :
  ns_off S I m dir (sv_ino sv) k → vl_heap S !! l = Some sv → sv_ino sv ≠ root →
  sv_v sv' = sv_v sv → sv_i sv' = set_linkcount (u16 (sfi_linkcount (sv_i sv) + k)) (sv_i sv) →
  sv_ino sv' = sv_ino sv → sv_dirty sv' = true →
  let S' := upd S l (vl_fs S) sv' in
  let I' := <[sv_ino sv := sv_i sv']> I in
  vol_ok S' I' m dir ∧ keeps S I S' I' none none ∧ sfi_linkcount (sv_i sv') = links m (sv_ino sv).
Proof.
  intros [Hwf Hdir (ri & Hri & Hrep & Hlk) Hnm Hfl Hor] Hl Hne Hv Hi Hino Hdy S' I'.
  destruct (vw_loaded _ _ Hwf l sv Hl) as (Hsi & Hvn & Hops).
  destruct (vw_inode _ _ Hwf _ _ Hsi) as (_ & _ & Hok & _).
  destruct (Hfl _ _ Hsi Hne) as [Hty Hlc]. rewrite decide_True in Hlc by done.
  pose proof (dir_names_bound _ _ _ (sv_ino sv) Hrep) as Hb.
  assert (0 ≤ links m (sv_ino sv)) by (unfold links; lia).
  rewrite Hlc, u16_small in Hi by (unfold is_u16; lia).
  assert (fchange (vl_fs S) (sv_i sv) (vl_fs S) (sv_i sv')) as Hfc.
  { destruct (Hok) as [[] _]. rewrite Hi. apply meta_fchange; [apply Hwf|done| |done|done].
    split; simpl; [done|done|unfold is_u16; lia|done|done|done]. }
  assert (vol_wf S' I') as Hwf'.
  { apply vol_change; [done|done|done|]. split; [done|by rewrite Hv|by rewrite Hv, Hi|by left]. }
  assert (∀ l1 a, loaded S l1 a → loaded S' l1 a) as Hmono by (intros l1 a Hl1; by apply (upd_loaded S l sv)).
  assert (∀ a j, I' !! a = Some j → a = sv_ino sv ∧ j = sv_i sv' ∨ a ≠ sv_ino sv ∧ I !! a = Some j) as HI'.
  { intros a j. unfold I'. destruct (decide (a = sv_ino sv)) as [->|Hna].
    - rewrite lookup_insert_eq. intros [= <-]. by left.
    - rewrite lookup_insert_ne by done. by right. }
  split_and!; [split; [done| |auto]| |by rewrite Hi].
  - split.
    + exists ri. unfold I'. by rewrite lookup_insert_ne.
    + intros s a Hs. destruct (Hnm s a Hs) as [Hna Ha]. split; [done|]. unfold I'.
      destruct (decide (a = sv_ino sv)) as [->|?]; [rewrite lookup_insert_eq; eauto|by rewrite lookup_insert_ne].
    + intros a j Ha Hna. destruct (HI' a j Ha) as [[-> ->]|[Hn Ha']]; [by rewrite Hi|].
      destruct (Hfl a j Ha' Hna) as [? Hj]. rewrite decide_False in Hj by done. split; [done|lia].
    + intros a j Ha Hna Hz. destruct (HI' a j Ha) as [[-> ->]|[Hn Ha']]; [exists l; by apply upd_same_loaded|].
      destruct (Hor a j Ha' Hna Hz) as [l1 Hl1]. exists l1. auto.
  - split; [|auto]. intros a j Ha _. destruct (decide (a = sv_ino sv)) as [->|Hna].
    + exists (sv_i sv'). unfold I'. rewrite lookup_insert_eq. rewrite Hsi in Ha. injection Ha as <-.
      rewrite Hi. done.
    + exists j. unfold I'. by rewrite lookup_insert_ne.
Qed.

(** ** Creating a file *)

(** The inode of a new file. *)
Definition empty_inode : sfs_inode :=
  {| sfi_size := 0; sfi_type := SFS_TYPE_FILE; sfi_linkcount := 0;
     sfi_direct := replicate 15 0; sfi_indirect := 0; sfi_waste := replicate 110 0 |}.

Lemma empty_decode : set_type (u16 SFS_TYPE_FILE) (decode_inode zero_block) = empty_inode.
Proof. vm_compute. reflexivity. Qed.

Lemma empty_fblock f k : fblock f empty_inode k = 0.
Proof.
  unfold fblock, bmapZ. cbn [sfi_direct sfi_indirect empty_inode]. case_decide; [done|].
  case_decide as Hd; [|by rewrite decide_True]. unfold zlookup. case_decide; [|done].
  destruct (replicate 15 0 !! Z.to_nat k) as [x|] eqn:Hx; [|done]. by apply lookup_replicate in Hx as [-> _].
Qed.

Lemma empty_owns f b : ¬ owns f empty_inode b.
Proof. intros (Hne & k & _ & Hb). rewrite empty_fblock in Hb. congruence. Qed.

Lemma empty_file_ok f : fs_ok f → file_ok f empty_inode.
Proof.
  intros Hfs. split.
  - split; cbn [sfi_size sfi_type sfi_linkcount sfi_direct sfi_indirect sfi_waste empty_inode]; [done..| |done|].
    + split; [done|by apply Forall_replicate].
    + split; [done|by apply Forall_replicate].
  - intros k _. rewrite empty_fblock. destruct Hfs. lia.
  - intros k _ []. apply empty_fblock.
  - intros j k _ _ _ []. apply empty_fblock.
Qed.

Lemma links_unused m ino : (∀ s, m !! s ≠ Some ino) → links m ino = 0.
Proof.
  intros Hno. unfold links. assert (filter (λ p : list Z * Z, p.2 = ino) m = ∅) as ->; [|done].
  apply map_empty. intros s. apply map_lookup_filter_None. right. intros a Hs. simpl. intros ->. by apply (Hno s).
Qed.

(** A new file appeared. *)
Lemma ns_new S I m dir l ino sv S' :
  vol_ok S I m dir → I !! ino = None → vol_wf S' (<[ino := empty_inode]> I) →
  (∀ a j, I !! a = Some j → ∀ o, 0 ≤ o < MAXBYTES → fbyte (vl_fs S') j o = fbyte (vl_fs S) j o) →
  vl_heap S !! l = None → vl_heap S' = <[l := sv]> (vl_heap S) → sv_ino sv = ino →
  vol_ok S' (<[ino := empty_inode]> I) m dir ∧ keeps S I S' (<[ino := empty_inode]> I) none none.
Proof.
  intros [Hwf [(ri & Hri & Hrep & Hlk) Hnm Hfl Hor] Hdir] Hnew Hwf' Hby Hl Hh Hino.
  assert (∀ l' a, loaded S l' a → loaded S' l' a) as Hmono.
  { intros l' a (sv1 & H1 & Hi1). exists sv1. rewrite Hh, lookup_insert_ne by congruence. done. }
  assert (∀ a j, I !! a = Some j → <[ino := empty_inode]> I !! a = Some j) as HI.
  { intros a j Ha. by rewrite lookup_insert_ne by congruence. }
  split; [split; [done| |auto]|].
  - split.
    + exists ri. split_and!; [auto| |done].
      apply (dir_rep_ext (vl_fs S) ri); [done|apply Hwf'|by eapply (vw_inode _ _ Hwf' root), HI|done|done|].
      by apply Hby with root.
    + intros s a Hs. destruct (Hnm s a Hs) as [Hne [j Ha]]. split; [done|]. eauto.
    + intros a j Ha Hne. destruct (decide (a = ino)) as [->|Hna].
      * rewrite lookup_insert_eq in Ha. injection Ha as <-. split; [done|]. rewrite links_unused; [done|].
        intros s Hs. destruct (Hnm s ino Hs) as [_ [j Hj]]. congruence.
      * rewrite lookup_insert_ne in Ha by done. by apply Hfl.
    + intros a j Ha Hne Hz. destruct (decide (a = ino)) as [->|Hna].
      * exists l, sv. rewrite Hh, lookup_insert_eq. done.
      * rewrite lookup_insert_ne in Ha by done. destruct (Hor a j Ha Hne Hz) as [l' Hl']. exists l'. auto.
  - split; [|auto]. intros a j Ha _. exists j. split_and!; [auto|done|]. by apply Hby with a.
Qed.

Lemma balloc_fbyte f i b f' o :
  file_ok f i → balloc_step f b f' → 0 ≤ o < MAXBYTES → fbyte f' i o = fbyte f i o.
Proof.
  intros Hok Hba Ho. assert (0 ≤ o / SFS_BLOCKSIZE < MAXBLOCKS) as Hk.
  { unfold MAXBYTES, SFS_BLOCKSIZE in *. split; [by apply Z.div_pos; lia|apply Z.div_lt_upper_bound; lia]. }
  unfold fbyte. rewrite <- !fblock_bmapZ by lia. rewrite (balloc_fblock f i b f') by done.
  case_decide; [done|]. rewrite (balloc_blk f b f'); [done|done|]. eapply balloc_not_owned; [done..|lia].
Qed.

(** Loading the inode in a block that was just cleared. *)
Lemma load_new_spec S I ino Q :
  vol_wf S I → I !! ino = None → 0 < ino < nblk (vl_fs S) → used (vl_fs S) ino = true →
  blk (vl_fs S) ino = zero_block → (∀ a i, I !! a = Some i → ¬ owns (vl_fs S) i ino) →
  ¬ reserved (vl_fs S) ino →
  (∀ l S' sv, vol_wf S' (<[ino := empty_inode]> I) → vl_heap S !! l = None → vl_heap S' = <[l := sv]> (vl_heap S) →
     same_fs (vl_fs S) (vl_fs S') → sv_ino sv = ino → sv_i sv = empty_inode →
     vn_refcount (sv_v sv) = 1 ∧ vn_opencount (sv_v sv) = 0 → Q (Ret l) S') →
  (∀ e S', vol_wf S' I → vl_heap S' = vl_heap S → same_fs (vl_fs S) (vl_fs S') →
     e = ENOMEM ∨ e = EIO → Q (Fail e) S') →
  wp (sfs_loadvnode ino SFS_TYPE_FILE) Q S.
Proof.
  intros Hwf Hnew Hr Hu Hz Hno Hres HQ HF. destruct (vw_table _ _ Hwf) as (ls & Hrepr & Hnd & Hls).
  assert (∀ l, ¬ loaded S l ino) as Hnl.
  { intros l (sv & Hl & Hi). destruct (vw_loaded _ _ Hwf l sv Hl) as (Hsi & _). congruence. }
  unfold sfs_loadvnode. wp_step. wp_step. unfold array_getnum. rewrite (repr_num _ _ Hrepr). unfold zlen at 1. wp_step.
  eapply loadvnode_search_spec; [done..|lia|done|intros; lia|by right| |].
  { intros l sv Hl Hi. destruct (Hnl l). by exists sv. }
  intros _. assert (sv_i (new_sv sfs_fileops ino SFS_TYPE_FILE (blk (vl_fs S) ino)) = empty_inode) as Hi.
  { rewrite Hz. apply empty_decode. }
  apply (loadvnode_new_spec S I ino SFS_TYPE_FILE sfs_fileops); rewrite ?Hi; [done|done| |done| | |done].
  - split; rewrite ?Hi; [done|done|apply empty_file_ok, Hwf|apply empty_owns| |by left|].
    2: { intros b Hb. split; [simpl; intros ->; done|apply empty_owns]. }
    intros a j Ha _. split_and!; [by intros x Hx%empty_owns|by apply (Hno a)|apply empty_owns].
  - intros _. by rewrite Hz.
  - intros l S' (Hl & Hh & Hs) Hwf'. by eapply HQ.
Qed.

(** The outcome of [sfs_makeobj]. *)
Record made S I m dir l ino sv S' : Prop := {
  mk_new : I !! ino = None;
  mk_ok : vol_ok S' (<[ino := empty_inode]> I) m dir;
  mk_keeps : keeps S I S' (<[ino := empty_inode]> I) none none;
  mk_fresh : vl_heap S !! l = None;
  mk_heap : vl_heap S' = <[l := sv]> (vl_heap S);
  mk_ino : sv_ino sv = ino;
  mk_i : sv_i sv = empty_inode;
  mk_ref : vn_refcount (sv_v sv) = 1 ∧ vn_opencount (sv_v sv) = 0;
}.

Lemma sfs_makeobj_spec S I m dir Q :
  vol_ok S I m dir →
  (∀ l ino sv S', made S I m dir l ino sv S' → Q (Ret l) S') →
  (∀ e S', vol_ok S' I m dir → keeps S I S' I none none → e = ENOSPC ∨ e = ENOMEM ∨ e = EIO → Q (Fail e) S') →
  wp (sfs_makeobj SFS_TYPE_FILE) Q S.
Proof.
  intros Hok HQ HF. destruct (Hok) as [Hwf Hns Hdir]. unfold sfs_makeobj, on_fs. wp_step. wp_step.
  apply sfs_balloc_spec; [apply Hwf| |].
  2: { intros _. rewrite set_fs_id. apply HF; [done|apply keeps_same; [apply same_fs_refl, Hwf|done]|auto]. }
  intros ino f1 Hba Hfs1. destruct (vol_balloc S I ino f1 Hwf Hba Hfs1) as (Hwf1 & Hnew & Hno).
  assert (∀ a j, I !! a = Some j → ∀ o, 0 ≤ o < MAXBYTES → fbyte f1 j o = fbyte (vl_fs S) j o) as Hby.
  { intros a j Ha o Ho. destruct (vw_inode _ _ Hwf a j Ha) as (_ & _ & Hj & _). by eapply balloc_fbyte. }
  pose proof (ba_range _ _ _ Hba). pose proof (ba_sb _ _ _ Hba) as Hsb. destruct (ba_bits _ _ _ Hba) as [_ Hbit].
  eapply load_new_spec; [exact Hwf1|done|simpl; by rewrite Hsb|simpl; rewrite Hbit by lia; by case_decide
    |by apply (balloc_new (vl_fs S))| | | |].
  2: { unfold reserved. simpl. rewrite Hsb. intros Hx. apply (vd_reserved _ _ (vw_disk _ _ Hwf)) in Hx as [_ Hx].
       pose proof (ba_free _ _ _ Hba). congruence. }
  - intros a j Ha Ho. apply (Hno a j Ha). eapply owns_ext; [|exact Ho]. intros k.
    destruct (vw_inode _ _ Hwf a j Ha) as (_ & _ & Hj & _). by rewrite (balloc_fblock (vl_fs S) j ino f1).
  - intros l S' sv Hwf' Hl Hh Hs Hino Hi Hrc. simpl in Hl, Hh.
    assert (∀ a j, I !! a = Some j → ∀ o, 0 ≤ o < MAXBYTES → fbyte (vl_fs S') j o = fbyte (vl_fs S) j o) as Hby'.
    { intros a j Ha o Ho. rewrite (same_fs_fbyte f1) by done. by apply (Hby a). }
    destruct (ns_new S I m dir l ino sv S') as [Hok' Hk]; [done..|]. by apply (HQ l ino sv).
  - intros e S' Hwf' Hh Hs He. simpl in Hh.
    assert (∀ l a, loaded S l a → loaded S' l a) as Hmono.
    { intros l a (sv & Hl & Hi). exists sv. by rewrite Hh. }
    assert (keeps S I S' I none none) as Hk.
    { split; [|auto]. intros a j Ha _. exists j. split_and!; [done|done|]. intros o Ho.
      rewrite (same_fs_fbyte f1) by done. by apply (Hby a). }
    apply HF; [|done|by right]. split; [done| |auto]. destruct Hns as [(ri & Hri & Hrep & Hlk) Hnm Hfl Hor].
    split; [|done|done|]; [|intros a j Ha Hne Hz; destruct (Hor a j Ha Hne Hz) as [l Hl]; exists l; auto].
    exists ri. split_and!; [done| |done].
    apply (dir_rep_ext (vl_fs S) ri); [done|apply Hwf'|by eapply (vw_inode _ _ Hwf' root)|done|done|].
    destruct (kp_files _ _ _ _ _ _ Hk root ri Hri) as (ri' & Hr' & _ & Hb); [by intros []|].
    rewrite Hri in Hr'. by injection Hr' as <-.
Qed.

(** ** The directory operations on a volume *)

Lemma dir_link_vol_spec S I m dir name s ino l Q :
  vol_ok S I m dir → cstr name s → Forall is_u8 s → zlen s < 2 ^ 32 - 1 → loaded S l ino → ino ≠ root →
  (∀ k d f' d', vl_heap S !! dir = Some d → m !! s = None →
     ns_off (upd S dir f' d') (<[root := sv_i d']> I) (<[s := ino]> m) dir ino 1 →
     keeps S I (upd S dir f' d') (<[root := sv_i d']> I) isroot none → sv_ino d' = root →
     slot_has f' (sv_i d') k s ino →
     (∀ j s' a, slot_has (vl_fs S) (sv_i d) j s' a → slot_has f' (sv_i d') j s' a) →
     Q (Ret k) (upd S dir f' d')) →
  (∀ e d f' d', vl_heap S !! dir = Some d → vol_ok (upd S dir f' d') (<[root := sv_i d']> I) m dir →
     keeps S I (upd S dir f' d') (<[root := sv_i d']> I) isroot none → link_errno (sv_i d) m s e →
     Q (Fail e) (upd S dir f' d')) →
  wp (on_sv dir (sfs_dir_link name ino)) Q S.
Proof.
  intros Hok Hs Hu Hlong Hl Hne HQ HF. destruct (vo_dir _ _ _ _ Hok) as (d & Hd & Hdi).
  destruct (root_dir _ _ _ _ _ Hok Hd) as (_ & Hrep & _). destruct (vo_wf _ _ _ _ Hok) as [Hfs _ Hld _ Hin _ _ _].
  assert (0 < ino < nblk (vl_fs S)) as Hino.
  { destruct (Hl) as (sv & Hsv & <-). destruct (Hld l sv Hsv) as (Hi & _). apply (Hin _ _ Hi). }
  pose proof (fo_nblocks _ Hfs). eapply wp_on_sv; [done|].
  eapply sfs_dir_link_spec; [done..|unfold is_u32; lia|unfold SFS_NOINO; lia| |].
  - intros k f' d' Hst Hrep' Hk Hkeep Hnone. cbn [fst snd].
    destruct (dir_added S I m dir d f' d' s ino l) as [Hno Hkp]; [done..|].
    apply (HQ k d); [done|done|done|done| |done|done]. by rewrite (ss_ino _ _ _ _ Hst).
  - intros e f' d' Hst Hrep' He. cbn [fst snd]. destruct (dir_unchanged S I m dir d f' d') as [Hok' Hkp]; [done..|].
    by apply (HF e d).
Qed.

Lemma dir_unlink_vol_spec S I m dir d k s ino l Q :
  vol_ok S I m dir → vl_heap S !! dir = Some d → slot_has (vl_fs S) (sv_i d) k s ino → loaded S l ino →
  (∀ f' d', sv_ino d' = root →
     ns_off (upd S dir f' d') (<[root := sv_i d']> I) (delete s m) dir ino (-1) →
     keeps S I (upd S dir f' d') (<[root := sv_i d']> I) isroot none → Q (Ret ()) (upd S dir f' d')) →
  (∀ e f' d', sv_ino d' = root → vol_ok (upd S dir f' d') (<[root := sv_i d']> I) m dir →
     keeps S I (upd S dir f' d') (<[root := sv_i d']> I) isroot none → e = EIO ∨ e = ENOSPC →
     (∀ j s' a, slot_has (vl_fs S) (sv_i d) j s' a → slot_has f' (sv_i d') j s' a) →
     Q (Fail e) (upd S dir f' d')) →
  wp (on_sv dir (sfs_dir_unlink k)) Q S.
Proof.
  intros Hok Hd Hk Hl HQ HF. destruct (root_dir _ _ _ _ _ Hok Hd) as (Hdi & Hrep & _).
  eapply wp_on_sv; [done|]. eapply sfs_dir_unlink_spec; [done..| |].
  - intros f' d' Hst Hrep'. cbn [fst snd].
    destruct (dir_removed S I m dir d f' d' s ino l) as [Hno Hkp]; [done..|apply Hrep; by exists k|done|].
    apply HQ; [|done|done]. by rewrite (ss_ino _ _ _ _ Hst).
  - intros e f' d' Hq Hrep' He. cbn [fst snd].
    destruct (dir_unchanged S I m dir d f' d') as [Hok' Hkp]; [done|done|apply Hq|done|].
    apply HF; [|done|done|done|]; [by rewrite (ss_ino _ _ _ _ (qt_step _ _ _ _ Hq))|].
    intros j s' a Hj. eapply quiet_slot_has; [apply Hrep|done|done].
Qed.

Lemma upd_lookup_ne S l l' f' sv : l' ≠ l → vl_heap (upd S l f' sv) !! l' = vl_heap S !! l'.
Proof. intros Hne. simpl. by rewrite lookup_insert_ne. Qed.

Lemma upd_lookup S l f' sv : vl_heap (upd S l f' sv) !! l = Some sv.
Proof. apply lookup_insert_eq. Qed.

Lemma add_links_spec S I m dir l sv k Q :
  ns_off S I m dir (sv_ino sv) k → vl_heap S !! l = Some sv → sv_ino sv ≠ root →
  (∀ sv' I', vol_ok (upd S l (vl_fs S) sv') I' m dir → keeps S I (upd S l (vl_fs S) sv') I' none none →
     sv_v sv' = sv_v sv → sv_ino sv' = sv_ino sv → sv_dirty sv' = true →
     sfi_linkcount (sv_i sv') = links m (sv_ino sv) →
     I' = <[sv_ino sv := set_linkcount (links m (sv_ino sv)) (sv_i sv)]> I → Q (Ret ()) (upd S l (vl_fs S) sv')) →
  wp (add_links l k) Q S.
Proof.
  intros Hno Hl Hne HQ. unfold add_links. eapply wp_on_sv; [done|]. wp_steps. cbn [fst snd].
  match goal with |- Q _ (upd _ _ _ ?x) => set (sv' := x) end.
  destruct (relink S I m dir l sv sv' k) as (Hok & Hk & Hlk); [done..|].
  eapply HQ; [done..|]. f_equal. change (sfi_linkcount (sv_i sv')) with (u16 (sfi_linkcount (sv_i sv) + k)) in Hlk.
  simpl. by rewrite Hlk.
Qed.

(** Giving up the reference of a lookup. *)
Lemma decref_vol_spec S I m dir l sv Q :
  vol_ok S I m dir → vl_heap S !! l = Some sv → sv_ino sv ≠ root →
  (vn_refcount (sv_v sv) = 1 → vn_opencount (sv_v sv) = 0) →
  (∀ S' I', vol_ok S' I' m dir →
     keeps S I S' I' (λ a, a = sv_ino sv ∧ sfi_linkcount (sv_i sv) = 0 ∧ vn_refcount (sv_v sv) = 1)
       (λ l', l' = l ∧ vn_refcount (sv_v sv) = 1) → Q (Ret ()) S') →
  wp (vop_decref l) Q S.
Proof.
  intros [Hwf Hns Hdir] Hl Hne Hoc HQ. eapply vop_decref_spec; [done..|]. intros S' I' Hrl.
  pose proof (keeps_released _ _ _ _ _ _ Hwf Hl Hrl) as Hk. apply (HQ S' I'); [|done].
  split; [apply Hrl|by eapply released_ns|]. apply (kp_loaded _ _ _ _ _ _ Hk); [done|].
  intros [-> _]. destruct Hdir as (d & Hd & Hdi). congruence.
Qed.

(** A vnode that was not there before, and is given up, is not missed. *)
Lemma keeps_new S I S' I' X l (P : Prop) :
  keeps S I S' I' X (λ l', l' = l ∧ P) → (P → vl_heap S !! l = None) → keeps S I S' I' X none.
Proof.
  intros [Hf Hl] Hn. split; [done|]. intros l' a Hla _. apply Hl; [done|]. intros [-> HP].
  destruct Hla as (sv & Hsv & _). rewrite Hn in Hsv by done. done.
Qed.

(** Nor is a file that was not there before. *)
Lemma keeps_fresh S I S' I' (X : Z → Prop) L ino :
  keeps S I S' I' (λ a, X a ∨ a = ino) L → I !! ino = None → keeps S I S' I' X L.
Proof.
  intros [Hf Hl] Hn. split; [|done]. intros a j Ha Hx. apply Hf; [done|]. intros [?| ->]; [done|congruence].
Qed.

(** Chaining: [keeps_with H] takes the step [H] off the front of the goal. *)
Lemma keeps_step S I S1 I1 S2 I2 (X X1 : Z → Prop) (L L1 : loc → Prop) :
  keeps S I S1 I1 X1 L1 → (∀ a, X1 a → X a) → (∀ l, L1 l → L l) → keeps S1 I1 S2 I2 X L → keeps S I S2 I2 X L.
Proof. intros H1 HX HL. eapply keeps_trans. by eapply keeps_weaken. Qed.

Ltac keeps_with H := eapply keeps_step; [exact H|try done; try by intros ? []..|].
Ltac keeps_by H := eapply keeps_weaken; [..|exact H]; try done; try by intros ? [].

(** ** Removing *)

(** The files a removal may change: the directory, and the file that lost its
    last name while nobody had it loaded. *)
Definition removed_file S m s (a : Z) : Prop :=
  a = root ∨ m !! s = Some a ∧ links (delete s m) a = 0 ∧ ∀ l, ¬ loaded S l a.

Lemma looked_gone S I m dir s l slot ino sv d S' l' :
  looked S I m dir s l slot ino sv d S' → vn_refcount (sv_v sv) = 1 → ¬ loaded S l' ino.
Proof.
  intros Hlk Hrc Hl'. destruct (lk_new _ _ _ _ _ _ _ _ _ _ _ Hlk Hrc) as [_ Hn].
  assert (l' = l) as ->; [|by destruct Hl' as (sv1 & H1 & _); congruence].
  apply (vw_unique _ _ (vo_wf _ _ _ _ (lk_ok _ _ _ _ _ _ _ _ _ _ _ Hlk)) _ _ ino).
  - by apply (kp_loaded _ _ _ _ _ _ (lk_keeps _ _ _ _ _ _ _ _ _ _ _ Hlk)); [|intros []].
  - exists sv. split; [apply Hlk|apply (lk_ino _ _ _ _ _ _ _ _ _ _ _ Hlk)].
Qed.

Definition remove_errno m s (e : errno) : Prop :=
  match e with
  | ENOENT => m !! s = None
  | EIO | ENOMEM | ENOSPC => True
  | _ => False
  end.

Lemma sfs_remove_spec S I m dir name s Q :
  vol_ok S I m dir → cstr name s → Forall is_u8 s →
  (∀ S' I', is_Some (m !! s) → vol_ok S' I' (delete s m) dir →
     keeps S I S' I' (removed_file S m s) none → Q (Ret ()) S') →
  (∀ e S' I', vol_ok S' I' m dir → keeps S I S' I' isroot none → remove_errno m s e → Q (Fail e) S') →
  wp (sfs_remove dir name) Q S.
Proof.
  intros Hok Hs Hu HQ HF. unfold sfs_remove. wp_step. eapply sfs_lookonce_spec; [done..| |].
  2: { intros e S1 Hok1 Hk1 He. apply (HF e S1 I); [done|by keeps_by Hk1|].
       destruct He as [[-> ?]|[->| ->]]; done. }
  intros l slot ino sv d S1 Hlk. destruct (Hlk) as [Hname Hok1 Hk1 Hl Hino Hnew _ Hd Hne Hslot _ Hlc].
  destruct (vn_names _ _ _ (vo_ns _ _ _ _ Hok) s ino Hname) as [Hnr _].
  wp_step. wp_step. assert (loaded S1 l ino) as Hld by (by exists sv).
  eapply dir_unlink_vol_spec; [exact Hok1|exact Hd|exact Hslot|exact Hld| |].
  - intros f' d' Hdi Hno Hk2. set (S2 := upd S1 dir f' d') in *. set (I2 := <[root := sv_i d']> I) in *.
    assert (vl_heap S2 !! l = Some sv) as Hl2 by (by rewrite <- Hl; apply upd_lookup_ne).
    pose proof (links_pos _ _ _ Hname). rewrite <- Hino in Hno. wp_step. wp_step. eapply wp_get_sv; [done|]. wp_step.
    apply wp_assert; [rewrite Z.gtb_ltb; lia|]. eapply add_links_spec; [exact Hno|exact Hl2|congruence|].
    intros sv3 I3 Hok3 Hk3 Hv3 Hino3 _ Hlc3 _. set (S3 := upd S2 l (vl_fs S2) sv3) in *. wp_step.
    assert (vl_heap S3 !! l = Some sv3) as Hl3 by apply upd_lookup.
    eapply decref_vol_spec; [exact Hok3|exact Hl3|congruence|rewrite Hv3; apply Hnew|].
    intros S4 I4 Hok4 Hk4. cbn [result_of]. wp_step. apply (HQ S4 I4); [eauto|done|]. rewrite Hv3, Hlc3, Hino3, Hino in Hk4.
    apply (keeps_new _ _ _ _ _ l (vn_refcount (sv_v sv) = 1)); [|apply Hnew].
    keeps_with Hk1. keeps_with Hk2. { by left. } keeps_with Hk3.
    eapply keeps_weaken; [..|exact Hk4]; [|done]. intros a (-> & Hz & Hrc). right. split_and!; [done|done|].
    intros l'. by eapply looked_gone.
  - intros e f' d' Hdi Hok2 Hk2 He _. set (S2 := upd S1 dir f' d') in *. set (I2 := <[root := sv_i d']> I) in *.
    assert (vl_heap S2 !! l = Some sv) as Hl2 by (by rewrite <- Hl; apply upd_lookup_ne).
    wp_steps. pose proof (links_pos _ _ _ Hname).
    eapply decref_vol_spec; [exact Hok2|exact Hl2|congruence|apply Hnew|].
    intros S3 I3 Hok3 Hk3. cbn [result_of]. wp_step. apply (HF e S3 I3); [done| |by destruct He as [->| ->]].
    apply (keeps_new _ _ _ _ _ l (vn_refcount (sv_v sv) = 1)); [|apply Hnew].
    keeps_with Hk1. keeps_with Hk2.
    eapply keeps_weaken; [..|exact Hk3]; [|done]. intros a (_ & Hz & _). lia.
Qed.

(** ** Linking *)

Lemma sfs_link_spec S I m dir name s l ino Q :
  vol_ok S I m dir → cstr name s → Forall is_u8 s → zlen s < 2 ^ 32 - 1 → loaded S l ino → ino ≠ root →
  (∀ S' I', m !! s = None → vol_ok S' I' (<[s := ino]> m) dir → keeps S I S' I' isroot none → Q (Ret ()) S') →
  (∀ e S' I' d, vol_ok S' I' m dir → keeps S I S' I' isroot none → I !! root = Some d → link_errno d m s e →
     Q (Fail e) S') →
  wp (sfs_link dir name l) Q S.
Proof.
  intros Hok Hs Hu Hlong Hl Hne HQ HF. destruct (Hl) as (sv & Hsv & Hino).
  unfold sfs_link. wp_step. eapply wp_get_sv; [done|]. wp_step. rewrite Hino.
  assert (l ≠ dir) as Hnd.
  { intros ->. destruct (vo_dir _ _ _ _ Hok) as (d & Hd & Hdi). congruence. }
  eapply dir_link_vol_spec; [done..| |].
  - intros k d f' d' Hd Hnone Hno Hk1 Hdi _ _. set (S1 := upd S dir f' d') in *.
    assert (vl_heap S1 !! l = Some sv) as Hl1 by (by rewrite <- Hsv; apply upd_lookup_ne).
    rewrite <- Hino in Hno. eapply add_links_spec; [exact Hno|exact Hl1|congruence|].
    intros sv2 I2 Hok2 Hk2 _ _ _ _ _. rewrite Hino in Hok2. apply (HQ _ I2); [done|done|].
    keeps_with Hk1. by keeps_by Hk2.
  - intros e d f' d' Hd Hok1 Hk1 He. destruct (root_dir _ _ _ _ _ Hok Hd) as (Hdi & _).
    destruct (vw_loaded _ _ (vo_wf _ _ _ _ Hok) _ _ Hd) as (Hri & _). rewrite Hdi in Hri. by eapply HF.
Qed.

(** ** Creating *)

Definition creat_errno m s (excl : bool) (e : errno) : Prop :=
  match e with
  | EEXIST => excl = true ∧ is_Some (m !! s)
  | ENAMETOOLONG => m !! s = None ∧ SFS_NAMELEN ≤ zlen s
  | EIO | ENOMEM => True
  | ENOSPC | EINVAL => m !! s = None
  | _ => False
  end.

(** What [sfs_creat] gives: the vnode at [l] of the file the name leads to, a
    new empty file when the name was not there. *)
Definition created S I m s (excl : bool) l S' I' m' : Prop :=
  match m !! s with
  | Some ino => excl = false ∧ m' = m ∧ I' = I ∧ loaded S' l ino
  | None => ∃ ino, I !! ino = None ∧ ino ≠ root ∧ m' = <[s := ino]> m ∧
              I' !! ino = Some (set_linkcount 1 empty_inode) ∧ loaded S' l ino
  end.

Lemma link_creat_errno d m s excl e : link_errno d m s e → m !! s = None → creat_errno m s excl e.
Proof. intros He Hn. destruct e; simpl in *; try done. rewrite Hn in He. by destruct He. Qed.

Lemma sfs_creat_spec S I m dir name s excl Q :
  vol_ok S I m dir → cstr name s → Forall is_u8 s → zlen s < 2 ^ 32 - 1 →
  (∀ l S' I' m', created S I m s excl l S' I' m' → vol_ok S' I' m' dir → keeps S I S' I' isroot none →
     Q (Ret l) S') →
  (∀ e S' I', vol_ok S' I' m dir → keeps S I S' I' isroot none → creat_errno m s excl e → Q (Fail e) S') →
  wp (sfs_creat dir name excl) Q S.
Proof.
  intros Hok Hs Hu Hlong HQ HF. unfold sfs_creat. wp_step. eapply findname_vol_spec; [done..| |].
  2: { intros S1 Hok1 Hk1 _. apply (HF _ S1 I); [done|by keeps_by Hk1|done]. }
  intros r S1 d Hok1 Hk1 Hh1 Hd1 Hse Hlook. destruct (fd_found r) as [[ino slot]|] eqn:Hfd; simpl in Hlook.
  { destruct excl.
    { wp_step. apply (HF _ S1 I); [done|by keeps_by Hk1|]. simpl. rewrite Hlook. eauto. }
    destruct (vn_names _ _ _ (vo_ns _ _ _ _ Hok1) s ino Hlook) as [Hnr [i Hi]].
    eapply loadvnode_vol_spec; [done..| |].
    - intros l S' Hfe. apply (HQ l S' I m); [|apply Hfe|].
      + unfold created. rewrite Hlook. split_and!; [done..|].
        destruct (fe_sv _ _ _ _ _ _ _ Hfe) as (sv & Hl & Hino & _). by exists sv.
      + keeps_with Hk1. keeps_by (fe_keeps _ _ _ _ _ _ _ Hfe).
    - intros e S' Hok' Hk' He. apply (HF e S' I); [done|keeps_with Hk1; by keeps_by Hk'|].
      by destruct He as [->| ->]. }
  wp_step. eapply sfs_makeobj_spec; [done| |].
  2: { intros e S' Hok' Hk' He. apply (HF e S' I); [done|keeps_with Hk1; by keeps_by Hk'|].
       by destruct He as [->|[->| ->]]. }
  intros l ino sv S2 [Hnew Hok2 Hk2 Hfresh Hh2 Hino Hi [Hrc Hoc]]. set (I2 := <[ino := empty_inode]> I) in *.
  assert (vl_heap S2 !! l = Some sv) as Hl2 by (rewrite Hh2; apply lookup_insert_eq).
  assert (ino ≠ root) as Hnr.
  { intros ->. destruct (vn_root _ _ _ (vo_ns _ _ _ _ Hok)) as (ri & Hri & _). congruence. }
  assert (l ≠ dir) as Hnd by congruence.
  wp_step. eapply wp_get_sv; [done|]. wp_step. wp_step. rewrite Hino.
  eapply dir_link_vol_spec; [exact Hok2|done|done|done|by exists sv|done| |].
  - intros k d2 f' d' Hd Hnone Hno Hk3 Hdi _ _. set (S3 := upd S2 dir f' d') in *.
    assert (vl_heap S3 !! l = Some sv) as Hl3 by (by rewrite <- Hl2; apply upd_lookup_ne).
    pose proof (links_unused m ino) as Hz.
    wp_step. rewrite <- Hino in Hno. eapply add_links_spec; [exact Hno|exact Hl3|congruence|].
    intros sv4 I4 Hok4 Hk4 _ Hino4 _ Hlc4 HI4. rewrite Hino in *. wp_step. apply (HQ l _ I4 (<[s := ino]> m)).
    + unfold created. rewrite Hlook. exists ino. split_and!; [done..| |exists sv4; split; [apply upd_lookup|congruence]].
      rewrite HI4, lookup_insert_eq, Hi, links_insert, decide_True by done. do 2 f_equal.
      rewrite Hz; [done|]. intros s' Hs'. destruct (vn_names _ _ _ (vo_ns _ _ _ _ Hok) _ _ Hs') as [_ [? ?]]. congruence.
    + done.
    + keeps_with Hk1. keeps_with Hk2. keeps_with Hk3. by keeps_by Hk4.
  - intros e d2 f' d' Hd Hok3 Hk3 He. set (S3 := upd S2 dir f' d') in *.
    assert (vl_heap S3 !! l = Some sv) as Hl3 by (by rewrite <- Hl2; apply upd_lookup_ne).
    wp_step. eapply decref_vol_spec; [exact Hok3|exact Hl3|congruence|done|]. intros S4 I4 Hok4 Hk4. wp_step.
    apply (HF e S4 I4); [done| |by eapply link_creat_errno].
    apply (keeps_new _ _ _ _ _ l True); [|by rewrite <- Hh1]. apply (keeps_fresh _ _ _ _ isroot _ ino); [|done].
    keeps_with Hk1. keeps_with Hk2. keeps_with Hk3. { by left. }
    eapply keeps_weaken; [..|exact Hk4]; [|by intros l' [-> _]]. intros a [-> _]. by right.
Qed.

(** ** Renaming *)

Definition rename_errno m s1 s2 (e : errno) : Prop :=
  match e with
  | ENOENT => m !! s1 = None
  | EEXIST => is_Some (m !! s2)
  | ENAMETOOLONG => m !! s2 = None ∧ SFS_NAMELEN ≤ zlen s2
  | EIO | ENOMEM | ENOSPC | EINVAL => True
  | _ => False
  end.

(** The new name could be made and the old one not removed: the new one is
    taken back. *)
Lemma rename_undo_spec S I m dir d l sv s ino slot e Q :
  vol_ok S I (<[s := ino]> m) dir → m !! s = None → vl_heap S !! dir = Some d →
  slot_has (vl_fs S) (sv_i d) slot s ino → vl_heap S !! l = Some sv → sv_ino sv = ino → l ≠ dir →
  sv_dirty sv = true → 0 < links m ino → (vn_refcount (sv_v sv) = 1 → vn_opencount (sv_v sv) = 0) →
  (∀ S' I', vol_ok S' I' m dir →
     keeps S I S' I' isroot (λ l', l' = l ∧ vn_refcount (sv_v sv) = 1) → Q (Fail e) S') →
  (∀ S' I', vol_ok S' I' (<[s := ino]> m) dir → keeps S I S' I' isroot none → Q (Halt Panic) S') →
  wp (rename_undo dir l slot e) Q S.
Proof.
  intros Hok Hnone Hd Hslot Hl Hino Hne Hdy Hpos Hnew HF HP.
  assert (ino ≠ root) as Hnr by (eapply (vn_names _ _ _ (vo_ns _ _ _ _ Hok) s), lookup_insert_eq).
  unfold rename_undo. wp_step. wp_step.
  eapply (dir_unlink_vol_spec S I _ dir d slot s ino l); [done..|by exists sv| |].
  2: { intros e2 f' d' _ Hok' Hk' _ _. wp_steps. by eapply HP. }
  intros f' d' Hdi Hno Hk1. rewrite delete_insert_id in Hno by done. set (S1 := upd S dir f' d') in *.
  assert (vl_heap S1 !! l = Some sv) as Hl1 by (by rewrite <- Hl; apply upd_lookup_ne).
  wp_step. eapply wp_on_sv; [exact Hl1|]. wp_steps. cbn [fst snd].
  match goal with |- wp _ _ (upd _ _ _ ?x) => set (sv' := x) end. rewrite <- Hino in Hno.
  destruct (relink S1 (<[root := sv_i d']> I) m dir l sv sv' (-1)) as (Hok2 & Hk2 & Hlk2);
    [done|done|congruence|done..|].
  eapply decref_vol_spec; [exact Hok2|apply upd_lookup|simpl; congruence|exact Hnew|].
  intros S3 I3 Hok3 Hk3. wp_step. apply (HF S3 I3); [done|]. keeps_with Hk1. keeps_with Hk2.
  eapply keeps_weaken; [..|exact Hk3]; [|done]. intros a (_ & Hz & _). rewrite Hino in Hlk2. lia.
Qed.

(** The old name is gone. *)
Lemma rename_done_spec S I m' dir l sv Q :
  ns_off S I m' dir (sv_ino sv) (-1) → vl_heap S !! l = Some sv → sv_ino sv ≠ root →
  0 < sfi_linkcount (sv_i sv) → 0 < links m' (sv_ino sv) →
  (vn_refcount (sv_v sv) = 1 → vn_opencount (sv_v sv) = 0) →
  (∀ S' I', vol_ok S' I' m' dir →
     keeps S I S' I' none (λ l', l' = l ∧ vn_refcount (sv_v sv) = 1) → Q (Ret ()) S') →
  wp (g ← get_sv l; _ ← assert (sfi_linkcount (sv_i g) >? 0); _ ← add_links l (-1); vop_decref l) Q S.
Proof.
  intros Hno Hl Hnr Hlc Hpos Hnew HQ. wp_step. eapply wp_get_sv; [done|]. wp_step.
  apply wp_assert; [rewrite Z.gtb_ltb; lia|]. wp_step. eapply add_links_spec; [exact Hno|exact Hl|done|].
  intros sv5 I5 Hok5 Hk5 Hv5 Hino5 _ Hlc5 _.
  eapply decref_vol_spec; [exact Hok5|apply upd_lookup|congruence|rewrite Hv5; apply Hnew|].
  intros S6 I6 Hok6 Hk6. apply (HQ S6 I6); [done|]. rewrite Hv5 in Hk6. keeps_with Hk5.
  eapply keeps_weaken; [..|exact Hk6]; [|done]. intros a (_ & Hz & _). lia.
Qed.

Lemma sfs_rename_spec S I m dir n1 n2 s1 s2 Q :
  vol_ok S I m dir → cstr n1 s1 → Forall is_u8 s1 → cstr n2 s2 → Forall is_u8 s2 → zlen s2 < 2 ^ 32 - 1 →
  (∀ S' I' ino, m !! s1 = Some ino → m !! s2 = None → vol_ok S' I' (<[s2 := ino]> (delete s1 m)) dir →
     keeps S I S' I' isroot none → Q (Ret ()) S') →
  (∀ e S' I', vol_ok S' I' m dir → keeps S I S' I' isroot none → rename_errno m s1 s2 e → Q (Fail e) S') →
  (∀ S' I' ino, m !! s1 = Some ino → m !! s2 = None → vol_ok S' I' (<[s2 := ino]> m) dir →
     keeps S I S' I' isroot none → Q (Halt Panic) S') →
  wp (sfs_rename dir n1 n2) Q S.
Proof.
  intros Hok Hs1 Hu1 Hs2 Hu2 Hlong HQ HF HP. destruct (vo_dir _ _ _ _ Hok) as (d0 & Hd0 & Hdi0).
  unfold sfs_rename. wp_step. eapply wp_get_sv; [done|]. wp_step. apply wp_assert; [by rewrite Hdi0|].
  wp_step. eapply sfs_lookonce_spec; [done|exact Hs1|done| |].
  2: { intros e S1 Hok1 Hk1 He. apply (HF e S1 I); [done|by keeps_by Hk1|].
       destruct He as [[-> ?]|[->| ->]]; done. }
  intros l slot ino sv d S1 [Hname Hok1 Hk1 Hl Hino Hnew _ Hd Hne Hslot Hty Hlc].
  destruct (vn_names _ _ _ (vo_ns _ _ _ _ Hok) s1 ino Hname) as [Hnr _]. pose proof (links_pos _ _ _ Hname) as Hpos.
  wp_step. eapply wp_get_sv; [done|]. wp_step. apply wp_assert; [by rewrite Hty|]. wp_step. wp_step. rewrite Hino.
  eapply dir_link_vol_spec; [exact Hok1|exact Hs2|done|done|by exists sv|done| |].
  2: { intros e d1 f' d' Hd1 Hok2 Hk2 He. set (S2 := upd S1 dir f' d') in *.
       assert (vl_heap S2 !! l = Some sv) as Hl2 by (by rewrite <- Hl; apply upd_lookup_ne).
       wp_step. eapply decref_vol_spec; [exact Hok2|exact Hl2|congruence|apply Hnew|]. intros S3 I3 Hok3 Hk3. wp_step.
       apply (HF e S3 I3); [done| |by destruct e]. apply (keeps_new _ _ _ _ _ l (vn_refcount (sv_v sv) = 1)); [|apply Hnew].
       keeps_with Hk1. keeps_with Hk2. eapply keeps_weaken; [..|exact Hk3]; [|done]. intros a (_ & Hz & _). lia. }
  intros slot2 d1 f' d' Hd1 Hnone Hno Hk2 Hdi Hslot2 Hkeep. rewrite Hd in Hd1. injection Hd1 as <-.
  set (S2 := upd S1 dir f' d') in *.
  assert (vl_heap S2 !! l = Some sv) as Hl2 by (by rewrite <- Hl; apply upd_lookup_ne).
  wp_step. rewrite <- Hino in Hno. eapply add_links_spec; [exact Hno|exact Hl2|congruence|].
  intros sv3 I3 Hok3 Hk3 Hv3 Hino3 Hdy3 Hlc3 _. rewrite Hino in *. set (S3 := upd S2 l (vl_fs S2) sv3) in *.
  assert (vl_heap S3 !! l = Some sv3) as Hl3 by apply upd_lookup.
  assert (vl_heap S3 !! dir = Some d') as Hd3 by (unfold S3; rewrite upd_lookup_ne by done; apply upd_lookup).
  wp_step. wp_step.
  eapply (dir_unlink_vol_spec S3 I3 _ dir d' slot s1 ino l); [exact Hok3|exact Hd3|by apply Hkeep|by exists sv3| |].
  - intros f4 d4 Hdi4 Hno4 Hk4. set (S4 := upd S3 dir f4 d4) in *.
    assert (vl_heap S4 !! l = Some sv3) as Hl4 by (by rewrite <- Hl3; apply upd_lookup_ne).
    assert (s1 ≠ s2) as Hns by congruence. rewrite delete_insert_ne in Hno4 by done.
    assert (0 < links (<[s2 := ino]> (delete s1 m)) ino) as Hpos' by (eapply links_pos, lookup_insert_eq).
    assert (0 < links (<[s2 := ino]> m) ino) by (eapply links_pos, lookup_insert_eq). rewrite <- Hino3 in Hno4.
    eapply rename_done_spec; [exact Hno4|exact Hl4|congruence|lia|by rewrite Hino3|rewrite Hv3; apply Hnew|].
    intros S6 I6 Hok6 Hk6. rewrite Hino3 in Hok6. apply (HQ S6 I6 ino); [done|done|done|]. rewrite Hv3 in Hk6.
    apply (keeps_new _ _ _ _ _ l (vn_refcount (sv_v sv) = 1)); [|apply Hnew].
    keeps_with Hk1. keeps_with Hk2. keeps_with Hk3. keeps_with Hk4. by keeps_by Hk6.
  - intros e f4 d4 Hdi4 Hok4 Hk4 He Hkeep4. set (S4 := upd S3 dir f4 d4) in *.
    assert (vl_heap S4 !! l = Some sv3) as Hl4 by (by rewrite <- Hl3; apply upd_lookup_ne).
    eapply (rename_undo_spec S4 _ m dir d4 l sv3 s2 ino); [exact Hok4|done|apply upd_lookup|by apply Hkeep4|done|done
      |done|done|done|rewrite Hv3; apply Hnew| |].
    2: { intros S5 I5 Hok5 Hk5. apply (HP S5 I5 ino); [done..|].
         keeps_with Hk1. keeps_with Hk2. keeps_with Hk3. by keeps_with Hk4. }
    intros S5 I5 Hok5 Hk5. rewrite Hv3 in Hk5. apply (HF e S5 I5); [done| |by destruct He as [->| ->]].
    apply (keeps_new _ _ _ _ _ l (vn_refcount (sv_v sv) = 1)); [|apply Hnew].
    keeps_with Hk1. keeps_with Hk2. keeps_with Hk3. by keeps_with Hk4.
Qed.
End specs.

(** ** Properties *)

Section properties.
Context {D : Type} `{BlockDeviceLaws D} `{!ReliableWrites D}.
Implicit Types (S : sfs_vol D) (I : gmap Z sfs_inode) (m : gmap (list Z) Z).

(** The root directory may change; the other files keep size and contents, and
    the loaded vnodes stay loaded. *)
Definition only_root S I S' I' : Prop := keeps S I S' I' (λ a, a = SFS_ROOT_LOCATION) (λ _, False).

(** [sfs_lookup] finds a file by its name.  On a volume whose root directory
    represents [m] it returns the one vnode of the inode [m] gives for the name,
    with a reference added, and leaves the name space and every file as they
    were; it fails with ENOENT only when the name is not in [m], and never
    stops the kernel. *)
Theorem sfs_lookup_correct S I m dir name s :
  vol_ok S I m dir → cstr name s → Forall is_u8 s →
  match sfs_lookup dir name S with
  | (r, S') =>
      vol_ok S' I m dir ∧ keeps S I S' I (λ _, False) (λ _, False) ∧
      match r with
      | Ret l => ∃ ino, m !! s = Some ino ∧ loaded S' l ino
      | Fail e => e = ENOENT ∧ m !! s = None ∨ e = ENOMEM ∨ e = EIO
      | Halt _ => False
      end
  end.
Proof.
  intros Hok Hs Hu. apply (wp_elim (sfs_lookup dir name) (λ r S', _)).
  destruct (vo_dir _ _ _ _ Hok) as (d & Hd & _). destruct (root_dir _ _ _ _ _ Hok Hd) as (_ & [Hwf _] & _).
  unfold sfs_lookup. wp_step. eapply wp_get_sv; [done|]. rewrite (dw_type _ _ Hwf), Z.eqb_refl. cbn [negb].
  wp_step. eapply sfs_lookonce_spec; [done..| |done].
  intros l slot ino sv d' S' Hlk. wp_step. split_and!; [apply Hlk|apply Hlk|]. exists ino.
  split; [apply Hlk|]. exists sv. split; [apply Hlk|apply (lk_ino _ _ _ _ _ _ _ _ _ _ _ Hlk)].
Qed.

(** C10: [sfs_creat] makes or finds a file, on a disk none of whose writes
    fails.  A name that is not there becomes the
    name of a new empty file with one link; a name that is there gives its file,
    or EEXIST for an exclusive creation.  The invariant of the volume is
    preserved, on failure the name space is as before, the other files keep
    their contents, and the kernel never stops. *)
Theorem sfs_creat_correct S I m dir name s excl :
  vol_ok S I m dir → cstr name s → Forall is_u8 s → zlen s < 2 ^ 32 - 1 →
  match sfs_creat dir name excl S with
  | (r, S') =>
      match r with
      | Ret l => ∃ I' m', created S I m s excl l S' I' m' ∧ vol_ok S' I' m' dir ∧ only_root S I S' I'
      | Fail e => ∃ I', vol_ok S' I' m dir ∧ only_root S I S' I' ∧ creat_errno m s excl e
      | Halt _ => False
      end
  end.
Proof.
  intros. apply (wp_elim (sfs_creat dir name excl) (λ r S', _)). eapply sfs_creat_spec; [done..| |]; eauto 10.
Qed.

(** C11: [sfs_remove] removes a name, on a disk none of whose writes fails.  The name space loses the name and nothing
    else; the file keeps its contents as long as it has another name or someone
    has it loaded, and the other files keep theirs.  On failure the name space
    is as before (ENOENT only for a name that is not there). *)
Theorem sfs_remove_correct S I m dir name s :
  vol_ok S I m dir → cstr name s → Forall is_u8 s →
  match sfs_remove dir name S with
  | (r, S') =>
      match r with
      | Ret _ => ∃ I', is_Some (m !! s) ∧ vol_ok S' I' (delete s m) dir ∧
                   keeps S I S' I' (removed_file S m s) (λ _, False)
      | Fail e => ∃ I', vol_ok S' I' m dir ∧ only_root S I S' I' ∧ remove_errno m s e
      | Halt _ => False
      end
  end.
Proof.
  intros. apply (wp_elim (sfs_remove dir name) (λ r S', _)). eapply sfs_remove_spec; [done..| |]; eauto 10.
Qed.


(** [sfs_link] gives a file one more name: on success the name was free and
    leads to the file, on failure the name space is as before, and the files
    keep their contents either way. *)
Theorem sfs_link_correct S I m dir name s l ino :
  vol_ok S I m dir → cstr name s → Forall is_u8 s → zlen s < 2 ^ 32 - 1 →
  loaded S l ino → ino ≠ SFS_ROOT_LOCATION →
  match sfs_link dir name l S with
  | (r, S') =>
      match r with
      | Ret _ => ∃ I', m !! s = None ∧ vol_ok S' I' (<[s := ino]> m) dir ∧ only_root S I S' I'
      | Fail e => ∃ I' d, vol_ok S' I' m dir ∧ only_root S I S' I' ∧ I !! SFS_ROOT_LOCATION = Some d ∧ link_errno d m s e
      | Halt _ => False
      end
  end.
Proof.
  intros. apply (wp_elim (sfs_link dir name l) (λ r S', _)). eapply sfs_link_spec; [done..| |]; eauto 10.
Qed.

(** [sfs_makeobj] leaks a block when memory is short: it allocates the block
    of the new inode, and when no vnode can be allocated for it, it returns
    ENOMEM with the block still marked in use, although no inode, no file and
    no vnode of the volume is in it. *)
Theorem sfs_makeobj_leaks S I m dir mallocs :
  vol_ok S I m dir → vl_mallocs S = false :: mallocs →
  (∃ b, 0 ≤ b < sp_nblocks (sfs_sb (vl_fs S)) ∧ bit (sfs_freemap (vl_fs S)) b = false) →
  match sfs_makeobj SFS_TYPE_FILE S with
  | (r, S') =>
      r = Fail ENOMEM ∧ vl_heap S' = vl_heap S ∧
      ∃ b, bit (sfs_freemap (vl_fs S)) b = false ∧ bit (sfs_freemap (vl_fs S')) b = true ∧
           I !! b = None ∧ ∀ a i, I !! a = Some i → ¬ owns (vl_fs S') i b
  end.
Proof.
  intros Hok Hm (b0 & Hb0 & Hfree). apply (wp_elim (sfs_makeobj SFS_TYPE_FILE) (λ r S', _)).
  destruct (Hok) as [Hwf _ _]. unfold sfs_makeobj, on_fs. wp_step. wp_step.
  apply sfs_balloc_spec; [apply Hwf| |intros Hall; by rewrite Hall in Hfree by done].
  intros b f1 Hba Hfs1. destruct (vol_balloc S I b f1 Hwf Hba Hfs1) as (Hwf1 & Hnew & Hno).
  destruct (vw_table _ _ Hwf1) as (ls & Hrepr & Hnd & Hls).
  assert (∀ l, ¬ loaded (set_fs f1 S) l b) as Hnl.
  { intros l (sv & Hl & Hi). destruct (vw_loaded _ _ Hwf1 l sv Hl) as (Hsi & _). congruence. }
  unfold sfs_loadvnode. wp_step. wp_step. unfold array_getnum. rewrite (repr_num _ _ Hrepr). unfold zlen at 1. wp_step.
  eapply loadvnode_search_spec; [exact Hwf1|done..|lia|done|intros; lia|by right| |].
  { intros l sv Hl Hi. destruct (Hnl l). by exists sv. }
  intros _. unfold loadvnode_new, malloc_ok. wp_step. wp_step. wp_step.
  change (vl_mallocs (set_fs f1 S)) with (vl_mallocs S). rewrite Hm. wp_steps. cbn [negb]. wp_steps.
  split; [done|]. split; [done|]. exists b. destruct (ba_bits _ _ _ Hba) as [_ Hbit]. pose proof (ba_range _ _ _ Hba).
  split_and!; [apply Hba|simpl; rewrite Hbit by lia; by case_decide|done|].
  intros a i Ha Ho. apply (Hno a i Ha). eapply owns_ext; [|exact Ho]. intros k.
  destruct (vw_inode _ _ Hwf a i Ha) as (_ & _ & Hi & _). by rewrite (balloc_fblock (vl_fs S) i b f1).
Qed.
End properties.

(** ** A small volume *)

Definition small_vol (mallocs : list bool) : sfs_vol (lhd_softc ramcard) :=
  {| vl_fs := dir_fs; vl_vnodes := {| num := 1; max := 1; vec := Some [Some 1] |};
     vl_heap := {[1 := dir_vnode]}; vl_mallocs := mallocs |}.
Definition small_files : gmap Z sfs_inode := <[3 := file_inode]> {[1 := dir_inode]}.

Lemma small_files_inv a i :
  small_files !! a = Some i → a = 1 ∧ i = dir_inode ∨ a = 3 ∧ i = file_inode.
Proof.
  unfold small_files. intros [[<- <-]|[_ [<- <-]%lookup_singleton_Some]]%lookup_insert_Some; auto.
Qed.

Lemma small_owns a i b : small_files !! a = Some i → owns dir_fs i b → b = if decide (a = 1) then 4 else 5.
Proof.
  intros Ha (Hne & k & Hk & Hb).
  assert (all_range 0 144 (λ k, (fblock dir_fs dir_inode k =? 0) || (fblock dir_fs dir_inode k =? 4)) = true ∧
          all_range 0 144 (λ k, (fblock dir_fs file_inode k =? 0) || (fblock dir_fs file_inode k =? 5)) = true)
    as [H4 H5] by (split; vm_compute; reflexivity).
  apply small_files_inv in Ha as [[-> ->]|[-> ->]]; simpl.
  - pose proof (all_range_spec _ _ _ H4 k) as Hr. unfold MAXBLOCKS in *. cbv beta in Hr. lia.
  - pose proof (all_range_spec _ _ _ H5 k) as Hr. unfold MAXBLOCKS in *. cbv beta in Hr. lia.
Qed.

Lemma file3_ok : file_ok dir_fs file_inode.
Proof.
  apply file_ok_check; [|vm_compute; reflexivity].
  split; try done; (split; [done|]); [apply Forall_cons; split; [done|]|]; by apply Forall_replicate.
Qed.

Lemma small_heap mallocs l sv : vl_heap (small_vol mallocs) !! l = Some sv → 1 = l ∧ dir_vnode = sv.
Proof. apply lookup_singleton_Some. Qed.

Lemma small_disk : vol_disk dir_fs small_files.
Proof.
  assert (∀ b, reserved dir_fs b → b = 0 ∨ b = 2) as Hres.
  { intros b [->|Hb]; [by left|right]. change (2 ≤ b < 2 + 1) in Hb. lia. }
  split.
  - split; [|done]. split; [done..|]. split; [done|by apply Forall_replicate].
  - done.
  - intros b [-> | ->]%Hres; done.
  - intros b a i [-> | ->]%Hres Ha; (split; [by apply small_files_inv in Ha as [[-> _]|[-> _]]|]);
      intros Ho%(small_owns _ _ _ Ha); by case_decide.
  - intros _. vm_compute. reflexivity.
  - intros _ j Hj. change (0 ≤ j < 1) in Hj. assert (j = 0) as -> by lia. vm_compute. reflexivity.
Qed.

Lemma small_wf mallocs : vol_wf (small_vol mallocs) small_files.
Proof.
  split.
  - exact dir_fs_ok.
  - exists [1]. split_and!.
    + split; [split; done|done|]. intros [|i] x; [intros [= <-]; by exists [Some 1]|done].
    + apply NoDup_singleton.
    + intros l. rewrite list_elem_of_singleton. split.
      * intros ->. by eexists.
      * intros [sv [<- _]%small_heap]. done.
  - intros l sv [<- <-]%small_heap. split_and!; [done|by split|done].
  - intros l l' ino (sv & [<- _]%small_heap & _) (sv' & [<- _]%small_heap & _). done.
  - intros ino i [[-> ->]|[-> ->]]%small_files_inv.
    + split_and!; [done..|exact dir_file_ok|by eexists].
    + split_and!; [done..|exact file3_ok|by eexists].
  - intros ino i [[-> ->]|[-> ->]]%small_files_inv; right; vm_compute; reflexivity.
  - intros a b i j Ha Hb Hne x Hx Hy. apply (small_owns _ _ _ Ha) in Hx. apply (small_owns _ _ _ Hb) in Hy.
    apply small_files_inv in Ha as [[-> _]|[-> _]], Hb as [[-> _]|[-> _]]; simpl in *; congruence.
  - intros a b i j Ha Hb Hx. apply (small_owns _ _ _ Ha) in Hx.
    apply small_files_inv in Ha as [[-> _]|[-> _]], Hb as [[-> _]|[-> _]]; simpl in *; congruence.
  - exact small_disk.
Qed.

Lemma links_dir_names ino : links dir_names ino = if decide (ino = 3) then 1 else 0.
Proof.
  unfold dir_names. rewrite <- insert_empty, links_insert by done.
  assert (links ∅ ino = 0) as -> by (unfold links; by rewrite map_filter_empty). by case_decide.
Qed.

Lemma small_ok mallocs : vol_ok (small_vol mallocs) small_files dir_names 1.
Proof.
  split; [apply small_wf| |by exists dir_vnode]. split.
  - exists dir_inode. split_and!; [done|exact dir_names_rep|done].
  - intros s ino Hs. unfold dir_names in Hs. apply lookup_singleton_Some in Hs as [<- <-]. split; [done|]. by eexists.
  - intros ino i [[-> ->]|[-> ->]]%small_files_inv Hne; [by destruct Hne|].
    by rewrite links_dir_names.
  - intros ino i [[-> ->]|[-> ->]]%small_files_inv Hne; [by destruct Hne|].
    by rewrite links_dir_names.
Qed.

Lemma sfs_lookup_correct_witness :
  match sfs_lookup 1 [97; 0] (small_vol []) with
  | (Ret l, S') => loaded S' l 3
  | (Fail e, _) => e = ENOMEM ∨ e = EIO
  | _ => False
  end.
Proof.
  pose proof (sfs_lookup_correct (small_vol []) small_files dir_names 1 [97; 0] [97] (small_ok [])
    (cstr_one 97 ltac:(done)) ltac:(by repeat constructor)) as Hlk.
  destruct (sfs_lookup 1 [97; 0] (small_vol [])) as [r S']. destruct Hlk as (_ & _ & Hr).
  destruct r as [l|e|k]; [|by destruct Hr as [[_ ?]|?]|done].
  destruct Hr as (ino & Hi & Hl). assert (dir_names !! [97] = Some 3) as Ha by reflexivity.
  rewrite Ha in Hi. by injection Hi as <-.
Defined.

Lemma sfs_creat_correct_witness :
  match sfs_creat 1 [98; 0] true (small_vol []) with
  | (Ret l, S') => ∃ I' ino, vol_ok S' I' (<[[98] := ino]> dir_names) 1 ∧ loaded S' l ino
  | (Fail e, S') => ∃ I', vol_ok S' I' dir_names 1
  | _ => False
  end.
Proof.
  pose proof (sfs_creat_correct (small_vol []) small_files dir_names 1 [98; 0] [98] true (small_ok [])
    (cstr_one 98 ltac:(done)) ltac:(by repeat constructor) ltac:(done)) as Hc.
  destruct (sfs_creat 1 [98; 0] true (small_vol [])) as [r S'].
  destruct r as [l|e|k]; [|by destruct Hc as (I' & ? & _); exists I'|done].
  destruct Hc as (I' & m' & Hc & Hok & _). unfold created in Hc.
  assert (dir_names !! [98] = None) as Ha by reflexivity. rewrite Ha in Hc.
  destruct Hc as (ino & _ & _ & -> & _ & Hl). by exists I', ino.
Defined.

Lemma sfs_remove_correct_witness :
  match sfs_remove 1 [97; 0] (small_vol []) with
  | (Ret _, S') => ∃ I', vol_ok S' I' (delete [97] dir_names) 1
  | (Fail e, S') => ∃ I', vol_ok S' I' dir_names 1
  | _ => False
  end.
Proof.
  pose proof (sfs_remove_correct (small_vol []) small_files dir_names 1 [97; 0] [97] (small_ok [])
    (cstr_one 97 ltac:(done)) ltac:(by repeat constructor)) as Hc.
  destruct (sfs_remove 1 [97; 0] (small_vol [])) as [r S'].
  destruct r as [l|e|k]; [|by destruct Hc as (I' & ? & _); exists I'|done].
  destruct Hc as (I' & _ & Hok & _). by exists I'.
Defined.


Lemma sfs_makeobj_leaks_witness :
  match sfs_makeobj SFS_TYPE_FILE (small_vol [false]) with
  | (r, S') => r = Fail ENOMEM ∧ ∃ b, bit (sfs_freemap (vl_fs S')) b = true ∧ small_files !! b = None
  end.
Proof.
  pose proof (sfs_makeobj_leaks (small_vol [false]) small_files dir_names 1 [] (small_ok [false]) eq_refl) as Hc.
  destruct (sfs_makeobj SFS_TYPE_FILE (small_vol [false])) as [r S'].
  destruct Hc as (Hr & _ & b & _ & Hb & Hn & _); [by exists 6|]. eauto.
Defined.
