(* ===== verification/SfsFs.v ===== *)
(** * SFS: mounting, syncing and unmounting (kern/fs/sfs/sfs_fs.c)

    What [sfs_sync] leaves on the disk is what [sfs_domount] reads: a volume
    that is synced and mounted again has the same files, contents and names. *)

From S2P Require Import Prelude Libc Bitmap Array CopyInOut Uio Device Lhd SfsDisk Vnode Sfs SfsMap SfsFile.
From S2P Require Import SfsSpec SfsTrunc SfsDir SfsVnode SfsVol SfsNames SfsOps.

Section ops.
Context {D : Type} `{BlockDevice D}.
Abbreviation fs := (sfs_fs D).
Abbreviation vol := (sfs_vol D).

Definition set_sb (sp : sfs_super) (f : fs) : fs :=
  {| sfs_device := sfs_device f; sfs_sb := sp; sfs_superdirty := sfs_superdirty f;
     sfs_freemap := sfs_freemap f; sfs_freemapdirty := sfs_freemapdirty f |}.
Definition set_superdirty (b : bool) (f : fs) : fs :=
  {| sfs_device := sfs_device f; sfs_sb := sfs_sb f; sfs_superdirty := b;
     sfs_freemap := sfs_freemap f; sfs_freemapdirty := sfs_freemapdirty f |}.

(** The bytes of the map at [bitdata + j*SFS_BLOCKSIZE]. *)
Definition map_load (w : list Z) (j : Z) : option (list Z) :=
  if (j + 1) * SFS_BLOCKSIZE <=? zlen w
  then Some (take (Z.to_nat SFS_BLOCKSIZE) (drop (Z.to_nat (j * SFS_BLOCKSIZE)) w)) else None.
Definition map_store (w : list Z) (j : Z) (bs : list Z) : option (list Z) :=
  if (j + 1) * SFS_BLOCKSIZE <=? zlen w
  then Some (take (Z.to_nat (j * SFS_BLOCKSIZE)) w ++ bs ++ drop (Z.to_nat ((j + 1) * SFS_BLOCKSIZE)) w)
  else None.

Definition sfs_mapio (rw : uio_rw) : M fs unit :=
  f ← get;
  forM (seqZ 0 (SFS_BITBLOCKS (sp_nblocks (sfs_sb f)))) (λ j,
    match rw with
    | UIO_READ =>
        bs ← sfs_rblock (SFS_MAP_LOCATION + j);
        f ← get;
        w ← deref (map_store (bitmap_getdata (sfs_freemap f)) j bs);
        modify (set_freemap {| nbits := nbits (sfs_freemap f); v := w |})
    | UIO_WRITE =>
        f ← get;
        bs ← deref (map_load (bitmap_getdata (sfs_freemap f)) j);
        sfs_wblock bs (SFS_MAP_LOCATION + j)
    end).

(** The result codes of the vnodes are ignored. *)
Definition sfs_sync : M vol unit :=
  s ← get;
  _ ← forM (seqZ 0 (array_getnum (vl_vnodes s))) (λ i,
        l ← on_vnodes (array_getguy i);
        _ ← attempt (vop_fsync l);
        mret ());
  s ← get;
  _ ← (if sfs_freemapdirty (vl_fs s) then
         _ ← on_fs (sfs_mapio UIO_WRITE);
         on_fs (modify (set_freemapdirty false))
       else mret ());
  s ← get;
  if sfs_superdirty (vl_fs s) then
    _ ← on_fs (sfs_wblock (encode_super (sfs_sb (vl_fs s))) SFS_SB_LOCATION);
    on_fs (modify (set_superdirty false))
  else mret ().

Definition sfs_getvolname (s : vol) : list Z := sp_volname (sfs_sb (vl_fs s)).

(** The objects are freed when it returns 0. *)
Definition sfs_unmount : M vol unit :=
  s ← get;
  if array_getnum (vl_vnodes s) >? 0 then fail EBUSY
  else
    _ ← assert (negb (sfs_superdirty (vl_fs s)));
    assert (negb (sfs_freemapdirty (vl_fs s))).

(** The [struct sfs_fs] while it is set up: only the device is set. *)
Definition blank_fs (d : D) : fs :=
  {| sfs_device := d;
     sfs_sb := {| sp_magic := 0; sp_nblocks := 0; sp_volname := []; sp_reserved := [] |};
     sfs_superdirty := false; sfs_freemap := {| nbits := 0; v := [] |}; sfs_freemapdirty := false |}.

Definition mount_super : M fs unit :=
  bs ← sfs_rblock SFS_SB_LOCATION;
  _ ← modify (set_sb (decode_super bs));
  f ← get;
  if negb (sp_magic (sfs_sb f) =? SFS_MAGIC) then fail EINVAL
  else modify (set_sb (end_volname (sfs_sb f))).

Definition mount_map (map_ok vec_ok : bool) : M fs unit :=
  f ← get;
  match bitmap_create map_ok vec_ok (SFS_BITMAPSIZE (sp_nblocks (sfs_sb f))) with
  | Ret None => fail ENOMEM
  | Ret (Some map) =>
      _ ← modify (set_freemap map);
      _ ← sfs_mapio UIO_READ;
      _ ← modify (set_superdirty false);
      modify (set_freemapdirty false)
  | Fail e => fail e
  | Halt k => λ f, (Halt k, f)
  end.

(** The booleans are the outcomes of the allocations of the file system, of
    its array of vnodes, and of the two of [bitmap_create]; [ms] are those of
    the allocations to come. *)
Definition sfs_domount (fs_ok vn_ok map_ok vec_ok : bool) (ms : list bool) : M D vol := λ d,
  if negb (d_blocksize d =? SFS_BLOCKSIZE) then (Fail ENXIO, d)
  else if negb fs_ok then (Fail ENOMEM, d)
  else
    match array_create vn_ok with
    | None => (Fail ENOMEM, d)
    | Some vnodes =>
        let '(r, f) := (_ ← mount_super; mount_map map_ok vec_ok) (blank_fs d) in
        match r with
        | Ret _ => (Ret (Build_sfs_vol f vnodes ∅ ms), sfs_device f)
        | Fail e => (Fail e, sfs_device f)
        | Halt k => (Halt k, sfs_device f)
        end
    end.
End ops.

Section specs.
Context {D : Type} `{BlockDeviceLaws D} `{!ReliableWrites D}.
Implicit Types (f : sfs_fs D) (sv : sfs_vnode) (S : sfs_vol D) (I : gmap Z sfs_inode)
  (m : gmap (list Z) Z) (l : loc).
Abbreviation blk f b := (sector (sfs_device f) b).
Abbreviation nblk f := (sp_nblocks (sfs_sb f)).
Abbreviation used f b := (bit (sfs_freemap f) b).
Abbreviation nmap f := (SFS_BITBLOCKS (nblk f)).

(** ** The size of the map *)

Lemma bitmapsize n :
  0 < n ≤ 2 ^ 22 → SFS_BITMAPSIZE n = SFS_BITBLOCKS n * SFS_BLOCKBITS ∧ 0 < SFS_BITBLOCKS n ≤ 1024.
Proof.
  intros Hn. unfold SFS_BITBLOCKS, SFS_BITMAPSIZE, SFS_ROUNDUP, SFS_BLOCKBITS, SFS_BLOCKSIZE.
  change (512 * 8) with 4096. rewrite (u32_small (n + 4096 - 1)) by (unfold is_u32; lia).
  assert (0 < (n + 4096 - 1) / 4096 ≤ 1024) by (Z.div_mod_to_equations; lia).
  rewrite u32_small by (unfold is_u32; lia). rewrite Z.div_mul by lia. lia.
Qed.

Lemma map_bytes S I :
  vol_wf S I → zlen (v (sfs_freemap (vl_fs S))) = nmap (vl_fs S) * SFS_BLOCKSIZE ∧ 0 < nmap (vl_fs S) ≤ 1024.
Proof.
  intros Hwf. destruct (vw_fs _ _ Hwf) as [_ Hn _ Hmap _ _ _].
  destruct (bitmapsize (nblk (vl_fs S))) as [Hsz Hb]; [lia|]. split; [|done].
  rewrite (wf_words _ Hmap), (vd_nbits _ _ (vw_disk _ _ Hwf)), Hsz. unfold SFS_BLOCKBITS, SFS_BLOCKSIZE.
  Z.div_mod_to_equations. lia.
Qed.

Lemma map_load_ok w j n :
  zlen w = n * SFS_BLOCKSIZE → 0 ≤ j < n →
  map_load w j = Some (take (Z.to_nat SFS_BLOCKSIZE) (drop (Z.to_nat (j * SFS_BLOCKSIZE)) w)) ∧
  zlen (take (Z.to_nat SFS_BLOCKSIZE) (drop (Z.to_nat (j * SFS_BLOCKSIZE)) w)) = SFS_BLOCKSIZE.
Proof.
  intros Hw Hj. unfold map_load, zlen, SFS_BLOCKSIZE in *. rewrite length_take, length_drop.
  rewrite (proj2 (Z.leb_le _ _)) by lia. split; [done|lia].
Qed.

(** ** Writing the map *)

Lemma mapio_write_spec S I Q :
  vol_wf S I →
  (∀ d', dev_ok d' → d_blocks d' = d_blocks (sfs_device (vl_fs S)) →
     (∀ b, sector d' b = if decide (SFS_MAP_LOCATION ≤ b < SFS_MAP_LOCATION + nmap (vl_fs S))
                         then mapblock (sfs_freemap (vl_fs S)) (b - SFS_MAP_LOCATION) else blk (vl_fs S) b) →
     Q (Ret ()) (set_device d' (vl_fs S))) →
  wp (sfs_mapio UIO_WRITE) Q (vl_fs S).
Proof.
  intros Hwf HQ. set (f := vl_fs S) in *. destruct (map_bytes S I Hwf) as [Hlen Hn]. fold f in Hlen, Hn.
  destruct (vw_fs _ _ Hwf) as [Hdev Hnb Hfit _ _ _ _]. fold f in Hdev, Hnb, Hfit.
  unfold sfs_mapio. wp_step. wp_step.
  eapply (wp_forM _ _ (λ k f1, ∃ d', f1 = set_device d' f ∧ dev_ok d' ∧ d_blocks d' = d_blocks (sfs_device f) ∧
    ∀ b, sector d' b = if decide (SFS_MAP_LOCATION ≤ b < SFS_MAP_LOCATION + Z.of_nat k)
                       then mapblock (sfs_freemap f) (b - SFS_MAP_LOCATION) else blk f b)).
  - exists (sfs_device f). rewrite set_device_id. split_and!; [done..|]. intros b. by rewrite decide_False by lia.
  - intros k j f1 [Hj Hk]%lookup_seqZ (d1 & -> & Hd1 & Hbl1 & Hsec1). wp_step. wp_step. wp_step.
    destruct (map_load_ok (v (sfs_freemap f)) j (nmap f)) as [Hld Hsz]; [done|lia|].
    eapply wp_deref; [exact Hld|].
    destruct (vd_reserved _ _ (vw_disk _ _ Hwf) (SFS_MAP_LOCATION + j)) as [Hr _]; [right; fold f; lia|]. fold f in Hr.
    apply sfs_wblock_spec; [done|simpl; rewrite Hbl1; lia|lia|done|]. intros d2 (Hd2 & Hbl2 & Hsec2).
    exists d2. split_and!; [done|done|simpl in *; congruence|]. intros b. rewrite Hsec2. simpl. rewrite Hsec1.
    destruct (decide (b = SFS_MAP_LOCATION + j)) as [->|Hne].
    + rewrite decide_True by lia. unfold mapblock. by replace (SFS_MAP_LOCATION + j - SFS_MAP_LOCATION) with j by lia.
    + erewrite decide_ext; [done|]. lia.
  - intros f1 (d' & -> & Hd & Hbl & Hsec). rewrite length_seqZ, Z2Nat.id in Hsec by lia. by apply HQ.
Qed.

(** The volume after [sfs_sync]. *)
Record synced S I S' : Prop := {
  sy_wf : vol_wf S' I;
  sy_heap : vl_heap S' = set_dirty false <$> vl_heap S;
  sy_flags : sfs_superdirty (vl_fs S') = false ∧ sfs_freemapdirty (vl_fs S') = false;
  sy_same : sfs_sb (vl_fs S') = sfs_sb (vl_fs S) ∧ sfs_freemap (vl_fs S') = sfs_freemap (vl_fs S);
  sy_bytes : ∀ a j, I !! a = Some j → ∀ o, 0 ≤ o < MAXBYTES → fbyte (vl_fs S') j o = fbyte (vl_fs S) j o;
}.

Lemma synced_vol S I m dir S' :
  vol_ok S I m dir → synced S I S' → vol_ok S' I m dir ∧ keeps S I S' I (λ _, False) (λ _, False).
Proof.
  intros [Hwf [(ri & Hri & Hrep & Hlk) Hnm Hfl Hor] Hdir] [Hwf' Hheap _ _ Hby].
  assert (∀ l a, loaded S l a → loaded S' l a) as Hmono.
  { intros l a (sv & Hl & <-). exists (set_dirty false sv). by rewrite Hheap, lookup_fmap, Hl. }
  split.
  - split; [done| |auto]. split; [|done|done|].
    + exists ri. split_and!; [done| |done]. apply (dir_rep_ext (vl_fs S) ri);
        [done|apply Hwf'|by eapply (vw_inode _ _ Hwf' SFS_ROOT_LOCATION)|done|done|by apply (Hby _ _ Hri)].
    + intros a i Ha Hne Hz. destruct (Hor a i Ha Hne Hz) as [l Hl]. exists l. auto.
  - split; [|auto]. intros a j Ha _. exists j. split_and!; [done|done|by apply (Hby a)].
Qed.

(** The reserved blocks are rewritten. *)
Lemma vol_rewrite S I d' sd md :
  vol_wf S I → dev_ok d' → d_blocks d' = d_blocks (sfs_device (vl_fs S)) →
  (∀ b, ¬ reserved (vl_fs S) b → sector d' b = blk (vl_fs S) b) →
  let f' := set_superdirty sd (set_freemapdirty md (set_device d' (vl_fs S))) in
  (sd = false → end_volname (decode_super (sector d' SFS_SB_LOCATION)) = sfs_sb (vl_fs S)) →
  (md = false → ∀ j, 0 ≤ j < nmap (vl_fs S) →
     sector d' (SFS_MAP_LOCATION + j) = mapblock (sfs_freemap (vl_fs S)) j) →
  vol_wf (set_fs f' S) I ∧
  ∀ a j, I !! a = Some j → ∀ o, 0 ≤ o < MAXBYTES → fbyte f' j o = fbyte (vl_fs S) j o.
Proof.
  intros Hwf Hd Hbl Hsec f' Hsd Hmd. pose proof (vw_disk _ _ Hwf) as [Hsb Hnb Hres Hfiles _ _].
  assert (∀ a i b, I !! a = Some i → owns (vl_fs S) i b → blk f' b = blk (vl_fs S) b ∧ used f' b = true) as Hown.
  { intros a i b Ha Ho. split.
    - apply Hsec. intros Hr. by destruct (Hfiles b a i Hr Ha).
    - destruct (vw_inode _ _ Hwf a i Ha) as (_ & _ & Hok & _). destruct Ho as (Hne & k & Hk & <-).
      by apply (fl_used _ _ Hok). }
  split.
  - apply vol_fs_core; [done| |done| |done|].
    + destruct (vw_fs _ _ Hwf). split; simpl; rewrite ?Hbl; done.
    + intros a i Ha. split; [apply (vw_inode _ _ Hwf a i Ha)|left]. apply Hsec. intros Hr.
      by destruct (Hfiles a a i Hr Ha).
    + split; [done|done|done| |done|done]. intros b a i Hb Ha.
      rewrite (proj2 (fs_change_owns S I f' a i Hwf eq_refl Hown Ha)). by apply Hfiles.
  - intros a j Ha. destruct (vw_inode _ _ Hwf a j Ha) as (_ & _ & Hok & _).
    apply (file_stable (vl_fs S) f' j Hok eq_refl). intros b _. by apply (Hown a).
Qed.

(** ** [sfs_sync] *)

(** The vnodes in the list [ls] are written back. *)
Record flushed S I (ls : list loc) S' : Prop := {
  fl_wf : vol_wf S' I;
  fl_table : vl_vnodes S' = vl_vnodes S;
  fl_fs : ∃ d', vl_fs S' = set_device d' (vl_fs S);
  fl_heap : ∀ l, vl_heap S' !! l = (λ sv, if decide (l ∈ ls) then set_dirty false sv else sv) <$> vl_heap S !! l;
  fl_bytes : ∀ a j, I !! a = Some j → ∀ o, 0 ≤ o < MAXBYTES → fbyte (vl_fs S') j o = fbyte (vl_fs S) j o;
}.

Lemma vop_fsync_spec S I ls l S1 sv Q :
  flushed S I ls S1 → vl_heap S !! l = Some sv →
  (∀ S2, flushed S I (ls ++ [l]) S2 → Q (Ret ()) S2) → wp (vop_fsync l) Q S1.
Proof.
  intros [Hwf Htab [d1 Hf] Hheap Hby] Hl HQ. pose proof (Hheap l) as Hl1. rewrite Hl in Hl1. simpl in Hl1.
  unfold vop_fsync. eapply vop_check_spec; [done..|]. unfold sfs_fsync.
  eapply reclaim_sync_spec; [done..|]. intros S2 Hwf2 Hh2 _ [d2 Hf2] Ht2 Hby2. apply HQ. split.
  - done.
  - congruence.
  - exists d2. by rewrite Hf2, Hf.
  - intros l1. rewrite Hh2. destruct (decide (l1 = l)) as [->|Hne].
    + rewrite lookup_insert_eq, Hl. simpl. rewrite (decide_True (P := l ∈ ls ++ [l])) by set_solver.
      f_equal. case_decide; [by destruct sv|done].
    + rewrite lookup_insert_ne, Hheap by done. apply option_fmap_ext. intros sv1.
      erewrite decide_ext; [done|]. rewrite elem_of_app, list_elem_of_singleton. naive_solver.
  - intros a j Ha o Ho. rewrite (Hby2 a j Ha o Ho). by apply (Hby a).
Qed.

Lemma sync_vnodes_spec S I Q :
  vol_wf S I →
  (∀ S', vol_wf S' I → vl_heap S' = set_dirty false <$> vl_heap S → (∃ d', vl_fs S' = set_device d' (vl_fs S)) →
     (∀ a j, I !! a = Some j → ∀ o, 0 ≤ o < MAXBYTES → fbyte (vl_fs S') j o = fbyte (vl_fs S) j o) →
     Q (Ret ()) S') →
  wp (forM (seqZ 0 (array_getnum (vl_vnodes S))) (λ i,
        l ← on_vnodes (array_getguy i);
        _ ← attempt (vop_fsync l);
        mret ())) Q S.
Proof.
  intros Hwf HQ. destruct (vw_table _ _ Hwf) as (ls & Hrepr & Hnd & Hls).
  unfold array_getnum. rewrite (repr_num _ _ Hrepr).
  eapply (wp_forM _ _ (λ k S', flushed S I (take k ls) S')).
  - split; [done|done|by exists (sfs_device (vl_fs S)); rewrite set_device_id| |done].
    intros l. by destruct (vl_heap S !! l).
  - intros k i S1 [Hi Hk]%lookup_seqZ Hfl. pose proof (fl_table _ _ _ _ Hfl) as Ht.
    wp_step. unfold on_vnodes. wp_step. rewrite Ht.
    eapply array_getguy_spec; [exact Hrepr|rewrite (repr_num _ _ Hrepr); lia|]. intros l Hl.
    rewrite <- Ht, set_vnodes_id. assert (l ∈ ls) as [sv Hsv]%Hls by (by eapply list_elem_of_lookup_2).
    wp_step. wp_step. eapply vop_fsync_spec; [exact Hfl|exact Hsv|]. intros S2 Hfl2. wp_step.
    erewrite take_S_r; [exact Hfl2|]. rewrite <- Hl. f_equal. lia.
  - intros S' [Hwf' _ Hfs Hheap Hby]. apply HQ; [done| |done|done].
    rewrite length_seqZ in Hheap. replace (Z.to_nat (zlen ls)) with (length ls) in Hheap by (unfold zlen; lia).
    rewrite firstn_all in Hheap. apply map_eq. intros l. rewrite Hheap, lookup_fmap.
    destruct (vl_heap S !! l) as [sv|] eqn:Hl; [|done]. simpl. rewrite decide_True; [done|]. apply Hls. eauto.
Qed.

Lemma sync_map_spec S I Q :
  vol_wf S I →
  (∀ f', vol_wf (set_fs f' S) I → sfs_freemapdirty f' = false → sfs_superdirty f' = sfs_superdirty (vl_fs S) →
     sfs_sb f' = sfs_sb (vl_fs S) → sfs_freemap f' = sfs_freemap (vl_fs S) →
     (∀ a j, I !! a = Some j → ∀ o, 0 ≤ o < MAXBYTES → fbyte f' j o = fbyte (vl_fs S) j o) →
     Q (Ret ()) (set_fs f' S)) →
  wp (if sfs_freemapdirty (vl_fs S) then
        _ ← on_fs (sfs_mapio UIO_WRITE);
        on_fs (modify (set_freemapdirty false))
      else mret ()) Q S.
Proof.
  intros Hwf HQ. destruct (sfs_freemapdirty (vl_fs S)) eqn:Hdirty.
  2: { wp_step. pose proof (HQ (vl_fs S)) as HQ'. rewrite set_fs_id in HQ'. by apply HQ'. }
  wp_step. unfold on_fs. wp_step. eapply mapio_write_spec; [done|]. intros d' Hd Hbl Hsec. wp_step. wp_step.
  destruct (vol_rewrite S I d' (sfs_superdirty (vl_fs S)) false Hwf Hd Hbl) as [Hwf' Hby].
  - intros b Hb. rewrite Hsec, decide_False; [done|]. intros Hm. apply Hb. by right.
  - rewrite Hsec, decide_False by (unfold SFS_SB_LOCATION, SFS_MAP_LOCATION; lia). apply (vd_super _ _ (vw_disk _ _ Hwf)).
  - intros _ j Hj. rewrite Hsec, decide_True by lia. f_equal. lia.
  - apply (HQ _ Hwf'); done.
Qed.

Lemma sync_super_spec S I Q :
  vol_wf S I →
  (∀ f', vol_wf (set_fs f' S) I → sfs_superdirty f' = false → sfs_freemapdirty f' = sfs_freemapdirty (vl_fs S) →
     sfs_sb f' = sfs_sb (vl_fs S) → sfs_freemap f' = sfs_freemap (vl_fs S) →
     (∀ a j, I !! a = Some j → ∀ o, 0 ≤ o < MAXBYTES → fbyte f' j o = fbyte (vl_fs S) j o) →
     Q (Ret ()) (set_fs f' S)) →
  wp (if sfs_superdirty (vl_fs S) then
        _ ← on_fs (sfs_wblock (encode_super (sfs_sb (vl_fs S))) SFS_SB_LOCATION);
        on_fs (modify (set_superdirty false))
      else mret ()) Q S.
Proof.
  intros Hwf HQ. destruct (sfs_superdirty (vl_fs S)) eqn:Hdirty.
  2: { wp_step. pose proof (HQ (vl_fs S)) as HQ'. rewrite set_fs_id in HQ'. by apply HQ'. }
  destruct (vd_sb _ _ (vw_disk _ _ Hwf)) as (Hsok & _ & Hend). destruct (vw_fs _ _ Hwf) as [Hdev Hnb Hfit _ _ _ _].
  wp_step. unfold on_fs. wp_step. unfold SFS_SB_LOCATION.
  apply sfs_wblock_spec; [done|lia|lia|by apply length_encode_super|]. intros d' (Hd & Hbl & Hsec). wp_step. wp_step.
  destruct (vol_rewrite S I d' false (sfs_freemapdirty (vl_fs S)) Hwf Hd Hbl) as [Hwf' Hby].
  - intros b Hb. rewrite Hsec, decide_False; [done|]. intros ->. apply Hb. by left.
  - intros _. unfold SFS_SB_LOCATION. rewrite Hsec, decide_True by done. by rewrite decode_encode_super.
  - intros Hm j Hj. rewrite Hsec, decide_False by (unfold SFS_MAP_LOCATION; lia). by apply (vd_map _ _ (vw_disk _ _ Hwf)).
  - apply (HQ _ Hwf'); done.
Qed.

Lemma sfs_sync_spec S I Q :
  vol_wf S I → (∀ S', synced S I S' → Q (Ret ()) S') → wp sfs_sync Q S.
Proof.
  intros Hwf HQ. unfold sfs_sync. wp_step. wp_step. wp_step. apply (sync_vnodes_spec S I); [done|].
  intros S1 Hwf1 Hh1 [d1 Hf1] Hby1. wp_step. wp_step. wp_step.
  apply (sync_map_spec S1 I); [done|]. intros f2 Hwf2 Hmd2 Hsd2 Hsb2 Hm2 Hby2. wp_step. wp_step.
  apply (sync_super_spec (set_fs f2 S1) I); [done|]. intros f3 Hwf3 Hsd3 Hmd3 Hsb3 Hm3 Hby3. apply HQ.
  rewrite Hf1 in *. simpl in *. split; simpl; [done|done|split; congruence|split; congruence|].
  intros a j Ha o Ho. rewrite (Hby3 a j Ha o Ho), (Hby2 a j Ha o Ho). by apply (Hby1 a).
Qed.

(** ** Mounting *)

Lemma map_store_ok T w j n :
  zlen T = n * SFS_BLOCKSIZE → zlen w = n * SFS_BLOCKSIZE → 0 ≤ j < n →
  let at_ k := take (Z.to_nat (k * SFS_BLOCKSIZE)) T ++ drop (Z.to_nat (k * SFS_BLOCKSIZE)) w in
  map_store (at_ j) j (take (Z.to_nat SFS_BLOCKSIZE) (drop (Z.to_nat (j * SFS_BLOCKSIZE)) T)) = Some (at_ (j + 1)).
Proof.
  intros HT Hw Hj at_. unfold map_store, at_, SFS_BLOCKSIZE, zlen in *.
  rewrite length_app, length_take, length_drop. rewrite (proj2 (Z.leb_le _ _)) by lia. f_equal.
  replace (Z.to_nat ((j + 1) * 512)) with (Z.to_nat (j * 512) + 512)%nat by lia.
  rewrite take_app_le by (rewrite length_take; lia). rewrite take_take, Nat.min_id.
  rewrite drop_app_ge by (rewrite length_take; lia). rewrite length_take, drop_drop.
  rewrite app_assoc, take_take_drop. do 2 f_equal. lia.
Qed.

Lemma mapio_read_spec f T Q :
  dev_ok (sfs_device f) → 0 ≤ nmap f ≤ 1024 → SFS_MAP_LOCATION + nmap f ≤ d_blocks (sfs_device f) →
  zlen (v (sfs_freemap f)) = nmap f * SFS_BLOCKSIZE → zlen T = nmap f * SFS_BLOCKSIZE →
  (∀ j, 0 ≤ j < nmap f →
     blk f (SFS_MAP_LOCATION + j) = take (Z.to_nat SFS_BLOCKSIZE) (drop (Z.to_nat (j * SFS_BLOCKSIZE)) T)) →
  (∀ d', same_disk (sfs_device f) d' →
     Q (Ret ()) (set_freemap {| nbits := nbits (sfs_freemap f); v := T |} (set_device d' f))) →
  (∀ f', same_disk (sfs_device f) (sfs_device f') → Q (Fail EIO) f') →
  wp (sfs_mapio UIO_READ) Q f.
Proof.
  intros Hdev Hn Hfit Hlen HT Hblk HQ HF. set (w := v (sfs_freemap f)) in *. unfold sfs_mapio. wp_step. wp_step.
  eapply (wp_forM _ _ (λ k f1, ∃ d', same_disk (sfs_device f) d' ∧
    f1 = set_freemap {| nbits := nbits (sfs_freemap f);
           v := take (Z.to_nat (Z.of_nat k * SFS_BLOCKSIZE)) T ++ drop (Z.to_nat (Z.of_nat k * SFS_BLOCKSIZE)) w |}
           (set_device d' f))).
  - exists (sfs_device f). split; [by split_and!|]. rewrite set_device_id. simpl.
    unfold w. by destruct f as [? ? ? [] ?].
  - intros k j f1 [Hj Hk]%lookup_seqZ (d1 & Hs1 & ->). destruct (Hs1) as (Hd1 & Hbl1 & Hsec1). wp_step.
    unfold SFS_MAP_LOCATION in *.
    apply sfs_rblock_spec; [done|cbn [sfs_device set_freemap set_device]; lia|lia| |].
    + intros d2 Hs2. wp_step. wp_step. wp_step. cbn [sfs_device set_freemap set_device] in *.
      rewrite Hsec1, Hblk by lia. unfold bitmap_getdata. cbn [sfs_freemap set_freemap set_device v].
      replace (Z.of_nat k) with j by lia. eapply wp_deref; [by apply map_store_ok with (n := nmap f); [..|lia]|].
      wp_step. exists d2. split; [by eapply same_disk_trans|].
      by replace (Z.of_nat (Datatypes.S k)) with (j + 1) by lia.
    + intros d2 Hs2. apply HF. by eapply same_disk_trans.
  - intros f1 (d' & Hs & ->). rewrite length_seqZ, Z2Nat.id by lia.
    replace (Z.to_nat (nmap f * SFS_BLOCKSIZE)) with (length T) by (unfold zlen in HT; lia).
    rewrite firstn_all, drop_ge, app_nil_r by (unfold zlen in *; lia). by apply HQ.
Qed.

(** The disk holds the super block [sp] and the map [T]. *)
Record disk_holds (d : D) (sp : sfs_super) (T : list Z) : Prop := {
  dh_dev : dev_ok d;
  dh_size : d_blocksize d = SFS_BLOCKSIZE;
  dh_nblocks : 2 < sp_nblocks sp ≤ 2 ^ 22 ∧ SFS_MAP_LOCATION + SFS_BITBLOCKS (sp_nblocks sp) ≤ d_blocks d;
  dh_super : end_volname (decode_super (sector d SFS_SB_LOCATION)) = sp;
  dh_magic : sp_magic sp = SFS_MAGIC;
  dh_len : zlen T = SFS_BITBLOCKS (sp_nblocks sp) * SFS_BLOCKSIZE;
  dh_map : ∀ j, 0 ≤ j < SFS_BITBLOCKS (sp_nblocks sp) →
    sector d (SFS_MAP_LOCATION + j) = take (Z.to_nat SFS_BLOCKSIZE) (drop (Z.to_nat (j * SFS_BLOCKSIZE)) T);
}.

Definition mounted (d : D) (sp : sfs_super) (T : list Z) (ms : list bool) : sfs_vol D :=
  Build_sfs_vol
    {| sfs_device := d; sfs_sb := sp; sfs_superdirty := false;
       sfs_freemap := {| nbits := SFS_BITMAPSIZE (sp_nblocks sp); v := T |}; sfs_freemapdirty := false |}
    {| num := 0; max := 0; vec := None |} ∅ ms.

Lemma sfs_domount_spec d sp T ms Q :
  disk_holds d sp T →
  (∀ d', same_disk d d' → Q (Ret (mounted d' sp T ms)) d') →
  (∀ d', same_disk d d' → Q (Fail EIO) d') →
  wp (sfs_domount true true true true ms) Q d.
Proof.
  intros [Hdev Hsize [Hnb Hfit] Hsuper Hmagic Hlen Hmap] HQ HF.
  destruct (bitmapsize (sp_nblocks sp)) as [Hbits Hn]; [lia|].
  unfold sfs_domount. unfold wp. rewrite Hsize. cbn [Z.eqb Pos.eqb SFS_BLOCKSIZE negb array_create].
  match goal with |- context [let '(r, f) := ?op (blank_fs d) in _] => set (mount := op) end.
  enough (wp mount (λ r f, match r with
    | Ret _ => ∃ d', same_disk d d' ∧ f = vl_fs (mounted d' sp T ms)
    | Fail e => e = EIO ∧ same_disk d (sfs_device f)
    | Halt _ => False end) (blank_fs d)) as Hm.
  { unfold wp in Hm. destruct (mount (blank_fs d)) as [[[]|e|k] f]; simpl in Hm; [|destruct Hm as [-> Hs]|done].
    - destruct Hm as (d' & Hs & ->). by apply HQ.
    - by apply HF. }
  unfold mount, mount_super, SFS_SB_LOCATION in *. wp_step. wp_step.
  unfold SFS_MAP_LOCATION in *.
  apply sfs_rblock_spec; [done|simpl; lia|lia| |done]. intros d1 Hs1. wp_step. wp_step. wp_step. wp_step.
  cbn [sfs_device blank_fs sfs_sb set_sb].
  assert (sp_magic (decode_super (sector d 0)) = SFS_MAGIC) as -> by (rewrite <- Hmagic, <- Hsuper; done).
  rewrite Z.eqb_refl. cbn [negb]. wp_step. rewrite Hsuper. unfold mount_map. wp_step. wp_step. cbn [sfs_sb set_sb].
  destruct (bitmap_create_spec (SFS_BITMAPSIZE (sp_nblocks sp))) as (b & -> & Hbwf & Hbn & _).
  { rewrite Hbits. unfold SFS_BLOCKBITS, SFS_BLOCKSIZE. lia. }
  wp_step. wp_step. wp_step. cbn [sfs_device blank_fs] in Hs1. destruct (Hs1) as (Hd1 & Hbl1 & Hsec1).
  eapply (mapio_read_spec _ T); cbn [sfs_device set_freemap set_sb set_device sfs_freemap sfs_sb]; [done|lia|unfold SFS_MAP_LOCATION; lia| |done|intros j Hj; rewrite Hsec1; by apply Hmap| |].
  - rewrite (wf_words _ Hbwf), Hbn, Hbits. unfold SFS_BLOCKBITS, SFS_BLOCKSIZE. Z.div_mod_to_equations. lia.
  - intros d2 Hs2. wp_steps. exists d2. split; [by eapply same_disk_trans|]. unfold mounted. simpl. by rewrite <- Hbn.
  - intros f' Hs'. split; [done|]. by eapply same_disk_trans.
Qed.

(** ** Mounting again *)

(** Everything is on the disk: the vnodes can be forgotten. *)
Lemma vol_unload S I ms :
  vol_wf S I → (∀ a i, I !! a = Some i → decode_inode (blk (vl_fs S) a) = i) →
  vol_wf (Build_sfs_vol (vl_fs S) {| num := 0; max := 0; vec := None |} ∅ ms) I.
Proof.
  intros [Hfs _ _ _ Hino _ Hdis Hinos Hdisk] Hdec. split; simpl; [done| | | |done|by right; auto|done|done|done].
  - exists []. split_and!; [by apply array_create_repr|constructor|]. intros l. split; [by intros ?%not_elem_of_nil|by intros []].
  - intros l sv Hl. by rewrite lookup_empty in Hl.
  - intros l l' ino (sv & Hl & _). simpl in Hl. by rewrite lookup_empty in Hl.
Qed.

Lemma synced_inodes S I S' a i : synced S I S' → I !! a = Some i → decode_inode (blk (vl_fs S') a) = i.
Proof.
  intros [Hwf Hheap _ _ _] Ha. destruct (vw_synced _ _ Hwf a i Ha) as [(l & sv & Hl & _ & Hd)|]; [|done].
  rewrite Hheap, lookup_fmap in Hl. apply fmap_Some in Hl as (sv0 & _ & ->). done.
Qed.

Lemma synced_disk S I S' :
  synced S I S' → disk_holds (sfs_device (vl_fs S')) (sfs_sb (vl_fs S')) (v (sfs_freemap (vl_fs S'))).
Proof.
  intros [Hwf _ [Hsd Hmd] _ _]. destruct (map_bytes S' I Hwf) as [Hlen Hn].
  pose proof (vw_disk _ _ Hwf) as [(_ & Hmagic & _) _ Hres _ Hsuper Hmap].
  destruct (vw_fs _ _ Hwf) as [Hdev Hnb Hfit _ _ _ _]. split; [done|by apply d_blocksize_sect| |auto|done|done|].
  - split; [done|]. destruct (Hres (SFS_MAP_LOCATION + nmap (vl_fs S') - 1)) as [? _]; [right; lia|lia].
  - intros j Hj. by apply Hmap.
Qed.

Lemma mount_after_sync S I S' d' ms :
  synced S I S' → same_disk (sfs_device (vl_fs S')) d' →
  let S2 := mounted d' (sfs_sb (vl_fs S')) (v (sfs_freemap (vl_fs S'))) ms in
  vol_wf S2 I ∧ same_fs (vl_fs S') (vl_fs S2).
Proof.
  intros Hsy Hs S2. pose proof (sy_wf _ _ _ Hsy) as Hwf. destruct (sy_flags _ _ _ Hsy) as [Hsd Hmd].
  assert (vl_fs S2 = set_device d' (vl_fs S')) as Heq.
  { pose proof (vd_nbits _ _ (vw_disk _ _ Hwf)) as Hn. unfold S2. simpl. rewrite <- Hn.
    destruct (vl_fs S') as [? ? ? [] ?]; simpl in *. by subst. }
  assert (same_fs (vl_fs S') (vl_fs S2)) as Hsf by (by exists d'). split; [|done].
  assert (S2 = Build_sfs_vol (vl_fs (set_fs (vl_fs S2) S')) {| num := 0; max := 0; vec := None |} ∅ ms) as -> by done.
  apply vol_unload; [rewrite Heq; by apply vol_same_disk|]. intros a i Ha. simpl. destruct Hs as (_ & _ & Hsec).
  rewrite Hsec. by eapply synced_inodes.
Qed.
End specs.

(** ** Properties *)

Section properties.
Context {D : Type} `{BlockDeviceLaws D} `{!ReliableWrites D}.
Implicit Types (S : sfs_vol D) (I : gmap Z sfs_inode) (m : gmap (list Z) Z).

(** [sfs_sync] puts everything on the disk.  It always returns 0, keeps the
    invariant, the names, the contents of the files and the loaded vnodes, and
    afterwards every inode, the free map and the super block are on the disk as
    they are in memory and nothing is marked dirty. *)
Theorem sfs_sync_correct S I m dir :
  vol_ok S I m dir →
  match sfs_sync S with
  | (r, S') =>
      r = Ret () ∧ vol_ok S' I m dir ∧ keeps S I S' I (λ _, False) (λ _, False) ∧
      (∀ l sv, vl_heap S' !! l = Some sv → sv_dirty sv = false) ∧
      sfs_superdirty (vl_fs S') = false ∧ sfs_freemapdirty (vl_fs S') = false ∧
      sfs_freemap (vl_fs S') = sfs_freemap (vl_fs S) ∧
      (∀ a i, I !! a = Some i → decode_inode (sector (sfs_device (vl_fs S')) a) = i) ∧
      disk_holds (sfs_device (vl_fs S')) (sfs_sb (vl_fs S)) (v (sfs_freemap (vl_fs S)))
  end.
Proof.
  intros Hok. apply (wp_elim sfs_sync (λ r S', _)). eapply sfs_sync_spec; [apply Hok|]. intros S' Hsy.
  destruct (synced_vol S I m dir S' Hok Hsy) as [Hok' Hk]. destruct (sy_flags _ _ _ Hsy), (sy_same _ _ _ Hsy) as [Hsb Hm].
  split_and!; [done|done|done| |done|done|done|by intros a i; apply (synced_inodes S)|].
  - intros l sv Hl. rewrite (sy_heap _ _ _ Hsy), lookup_fmap in Hl. by apply fmap_Some in Hl as (sv0 & _ & ->).
  - rewrite <- Hsb, <- Hm. by eapply synced_disk.
Qed.

(** C1: A volume survives being synced and mounted again, on a disk none of
    whose writes fails (reads of it may).  After [sfs_sync],
    [sfs_domount] of the same disk gives a volume with the same super block and
    free map, the same files with the same contents, and the same names, as
    long as no file without a name was still open; it can only fail with EIO,
    when a read fails (its allocations are taken to succeed). *)
Theorem sfs_sync_mount S I m dir ms :
  vol_ok S I m dir → (∀ a i, I !! a = Some i → a ≠ SFS_ROOT_LOCATION → links m a ≠ 0) →
  match sfs_domount true true true true ms (sfs_device (vl_fs (sfs_sync S).2)) with
  | (r, _) =>
      match r with
      | Ret S2 =>
          vol_wf S2 I ∧ vol_ns S2 I m ∧ vl_heap S2 = ∅ ∧
          sfs_sb (vl_fs S2) = sfs_sb (vl_fs S) ∧ sfs_freemap (vl_fs S2) = sfs_freemap (vl_fs S) ∧
          ∀ a j, I !! a = Some j → ∀ o, 0 ≤ o < MAXBYTES → fbyte (vl_fs S2) j o = fbyte (vl_fs S) j o
      | Fail e => e = EIO
      | Halt _ => False
      end
  end.
Proof.
  intros Hok Hnames. assert (synced S I (sfs_sync S).2) as Hsy.
  { apply (sfs_sync_spec S I (λ _ S', synced S I S')); [apply Hok|auto]. }
  set (S' := (sfs_sync S).2) in *. destruct (sy_same _ _ _ Hsy) as [Hsb Hm].
  apply (wp_elim (sfs_domount true true true true ms) (λ r d, _)).
  eapply sfs_domount_spec; [by eapply synced_disk| |done]. intros d' Hs.
  destruct (mount_after_sync S I S' d' ms Hsy Hs) as [Hwf2 Hsf].
  assert (∀ a j, I !! a = Some j → ∀ o, 0 ≤ o < MAXBYTES →
    fbyte (vl_fs (mounted d' (sfs_sb (vl_fs S')) (v (sfs_freemap (vl_fs S'))) ms)) j o = fbyte (vl_fs S) j o) as Hby.
  { intros a j Ha o Ho. rewrite (same_fs_fbyte (vl_fs S')) by done. by apply (sy_bytes _ _ _ Hsy a). }
  split; [done|]. split; [|split; [done|split; [exact Hsb|split; [|done]]]].
  - destruct (vo_ns _ _ _ _ Hok) as [(ri & Hri & Hrep & Hlk) Hnm Hfl _]. split; [|done|done|].
    + exists ri. split_and!; [done| |done].
      apply (dir_rep_ext (vl_fs S) ri); [done|apply Hwf2|by eapply (vw_inode _ _ Hwf2 SFS_ROOT_LOCATION)|done|done|by apply (Hby _ _ Hri)].
    + intros a i Ha Hne Hz. by destruct (Hnames a i Ha Hne).
  - destruct Hsf as (d2 & _ & Heq). by rewrite Heq.
Qed.
End properties.

Lemma sfs_sync_correct_witness :
  match sfs_sync (small_vol []) with
  | (r, S') => r = Ret () ∧ decode_inode (sector (sfs_device (vl_fs S')) 3) = file_inode
  end.
Proof.
  pose proof (sfs_sync_correct (small_vol []) small_files dir_names 1 (small_ok [])) as Hc.
  destruct (sfs_sync (small_vol [])) as [r S']. destruct Hc as (Hr & _ & _ & _ & _ & _ & _ & Hdec & _).
  split; [done|]. by apply Hdec.
Defined.

Lemma sfs_sync_mount_witness :
  match sfs_domount true true true true [] (sfs_device (vl_fs (sfs_sync (small_vol [])).2)) with
  | (Ret S2, _) => vol_ns S2 small_files dir_names
  | (Fail e, _) => e = EIO
  | _ => False
  end.
Proof.
  pose proof (sfs_sync_mount (small_vol []) small_files dir_names 1 [] (small_ok [])) as Hc.
  assert (∀ a i, small_files !! a = Some i → a ≠ SFS_ROOT_LOCATION → links dir_names a ≠ 0) as Hn.
  { intros a i [[-> _]|[-> _]]%small_files_inv Hne; [by destruct Hne|]. rewrite links_dir_names. done. }
  specialize (Hc Hn). destruct (sfs_domount true true true true [] _) as [[S2|e|k] d']; [|done|done].
  by destruct Hc as (_ & Hns & _).
Defined.
