(* ===== verification/SfsCount.v ===== *)
(** * SFS: who refers to the vnodes of a volume

    The theorems of SfsOps.v say what the operations do to the files and names
    of a volume; here is what they do to the reference and open counts of its
    vnodes.  The transfer and directory code never touches the header of a
    vnode nor the superblock: that is shown by the shape of the code alone
    ([preserves]).  The operations that load and release vnodes keep the counts
    in step with the references their callers hold ([counts]). *)

From stdpp Require Import gmultiset.
From S2P Require Import Prelude Libc Bitmap Array CopyInOut Uio Device Lhd SfsDisk Vnode Sfs SfsMap SfsFile.
From S2P Require Import SfsSpec SfsTrunc SfsDir SfsVnode SfsVol SfsFs.

(** ** What a computation leaves alone *)

Definition preserves {St A B} (f : St → B) (m : M St A) : Prop := ∀ s, f (m s).2 = f s.

Section preserves.
Context {St B : Type} (f : St → B).

Lemma pres_ret {A} (a : A) : preserves f (mret a).
Proof. done. Qed.
Lemma pres_fail {A} e : preserves f (fail (A := A) e).
Proof. done. Qed.
Lemma pres_panic {A} : preserves f (panic (A := A)).
Proof. done. Qed.
Lemma pres_get : preserves f get.
Proof. done. Qed.
Lemma pres_assert b : preserves f (assert b).
Proof. by destruct b. Qed.
Lemma pres_deref {A} (o : option A) : preserves f (deref o).
Proof. by destruct o. Qed.
Lemma pres_result_of {A} (r : A + errno) : preserves f (result_of r).
Proof. by destruct r. Qed.
Lemma pres_modify g : (∀ s, f (g s) = f s) → preserves f (modify g).
Proof. done. Qed.

Lemma pres_bind {A C} (m : M St A) (k : A → M St C) :
  preserves f m → (∀ a, preserves f (k a)) → preserves f (m ≫= k).
Proof.
  intros Hm Hk s. unfold mbind, M_bind. specialize (Hm s). destruct (m s) as [[a|e|h] s']; [|done..].
  rewrite (Hk a s'). done.
Qed.

Lemma pres_attempt {A} (m : M St A) : preserves f m → preserves f (attempt m).
Proof. intros Hm s. unfold attempt. specialize (Hm s). by destruct (m s) as [[] ?]. Qed.

Lemma pres_forM {X} (l : list X) body : (∀ x, preserves f (body x)) → preserves f (forM l body).
Proof. intros Hb. induction l; [done|]. by apply pres_bind. Qed.

Lemma pres_zoom {T A C} (proj : St → T) upd (g : T → C) (m : M T A) :
  preserves g m → (∀ s t, g t = g (proj s) → f (upd t s) = f s) → preserves f (zoom proj upd m).
Proof. intros Hm Hu s. unfold zoom. specialize (Hm (proj s)). destruct (m (proj s)). by apply Hu. Qed.
End preserves.

(** Of a pair the first component matters, or both. *)
Section pairs.
Context {S T B C : Type}.

Lemma pres_fst {A} (g : S → B) (m : M S A) : preserves g m → preserves (λ p : S * T, g p.1) (on_fst m).
Proof. intros Hm [s t]. unfold on_fst. specialize (Hm s). simpl. by destruct (m s). Qed.
Lemma pres_fst_snd {A} (g : S → B) (m : M T A) : preserves (λ p : S * T, g p.1) (on_snd m).
Proof. intros [s t]. unfold on_snd. simpl. by destruct (m t). Qed.
Lemma pres_pair_fst {A} (g : S → B) (h : T → C) (m : M S A) :
  preserves g m → preserves (λ p : S * T, (g p.1, h p.2)) (on_fst m).
Proof. intros Hm [s t]. unfold on_fst. specialize (Hm s). simpl. destruct (m s). simpl in *. by rewrite Hm. Qed.
Lemma pres_pair_snd {A} (g : S → B) (h : T → C) (m : M T A) :
  preserves h m → preserves (λ p : S * T, (g p.1, h p.2)) (on_snd m).
Proof. intros Hm [s t]. unfold on_snd. specialize (Hm t). simpl. destruct (m t). simpl in *. by rewrite Hm. Qed.
End pairs.

Lemma pres_kbuf {S B} (f : S → B) (op : M (S * uiost) unit) bs pos rw :
  preserves (λ p, f p.1) op → preserves f (with_kbuf op bs pos rw).
Proof.
  intros Hop s. unfold with_kbuf. set (us := Build_uiost _ _ _). specialize (Hop (s, us)). simpl in Hop.
  destruct (op (s, us)) as [[[]|e|k] [s' us']]; simpl in *; [|done..]. by destruct (mem_load _ _ _).
Qed.

Create HintDb pres.
#[export] Hint Resolve pres_ret pres_fail pres_panic pres_get pres_assert pres_deref pres_result_of : pres.
#[export] Hint Resolve pres_fst_snd : pres.

Ltac pres_step :=
  match goal with
  | |- ∀ _, _ => intros ?
  | |- preserves _ (mbind _ _) => apply pres_bind
  | |- preserves _ (attempt _) => apply pres_attempt
  | |- preserves _ (forM _ _) => apply pres_forM
  | |- preserves _ (with_kbuf _ _ _ _) => apply pres_kbuf
  | |- preserves _ (modify _) => apply pres_modify; intros; reflexivity
  | |- preserves _ (let _ := _ in _) => cbv zeta
  | |- preserves _ (if ?b then _ else _) => destruct b
  | |- preserves _ (match ?x with _ => _ end) => destruct x
  | |- _ => solve [eauto with pres]
  end.
Ltac pres := repeat pres_step.

Section sfs.
Context {D : Type} `{BlockDevice D}.
Abbreviation fs := (sfs_fs D).
Abbreviation vol := (sfs_vol D).

(** The superblock of the file system; that and the header of the vnode. *)
Definition keep_sb : fs → sfs_super := sfs_sb.
Definition keep_sv : fs * sfs_vnode → sfs_super * vnode := λ p, (keep_sb p.1, sv_v p.2).

Lemma pres_rwblock_retry n : preserves (λ p : fs * uiost, keep_sb p.1) (sfs_rwblock_retry n).
Proof.
  induction n; simpl; pres; unfold sfs_d_io; by apply (pres_zoom _ _ _ (λ _, tt)).
Qed.
Lemma pres_rblock b : preserves keep_sb (sfs_rblock b).
Proof. unfold sfs_rblock, sfs_rwblock. pres. apply pres_rwblock_retry. Qed.
Lemma pres_wblock bs b : preserves keep_sb (sfs_wblock bs b).
Proof. unfold sfs_wblock, sfs_rwblock. pres. apply pres_rwblock_retry. Qed.
#[local] Hint Resolve pres_rblock pres_wblock : pres.

Lemma pres_freemap {A} (m : M bitmap A) : preserves keep_sb (on_freemap m).
Proof. by apply (pres_zoom _ _ _ (λ _, tt)). Qed.
#[local] Hint Resolve pres_freemap : pres.

Lemma pres_balloc : preserves keep_sb sfs_balloc.
Proof. unfold sfs_balloc, sfs_clearblock. pres. Qed.
Lemma pres_bfree b : preserves keep_sb (sfs_bfree b).
Proof. unfold sfs_bfree. pres. Qed.
Lemma pres_bused b : preserves keep_sb (sfs_bused b).
Proof. unfold sfs_bused. pres. Qed.
#[local] Hint Resolve pres_balloc pres_bfree pres_bused : pres.

(** A step of the file system, and a change of the inode. *)
Lemma pres_sv_fst {A} (m : M fs A) : preserves keep_sb m → preserves keep_sv (on_fst m).
Proof. apply (pres_pair_fst keep_sb sv_v). Qed.
Lemma pres_sv_snd {A} (m : M sfs_vnode A) : preserves sv_v m → preserves keep_sv (on_snd m).
Proof. apply (pres_pair_snd keep_sb sv_v). Qed.
#[local] Hint Resolve pres_sv_fst : pres.
#[local] Hint Extern 1 (preserves keep_sv (on_snd (modify _))) => (apply pres_sv_snd, pres_modify; intros; reflexivity) : pres.

Lemma pres_sync_inode : preserves keep_sv sfs_sync_inode.
Proof. unfold sfs_sync_inode. pres. Qed.
Lemma pres_bmap_check b : preserves keep_sv (sfs_bmap_check b).
Proof. unfold sfs_bmap_check. pres. Qed.
#[local] Hint Resolve pres_bmap_check : pres.
Lemma pres_bmap_entry a b c d : preserves keep_sv (sfs_bmap_entry a b c d).
Proof. unfold sfs_bmap_entry. pres. Qed.
#[local] Hint Resolve pres_bmap_entry : pres.
Lemma pres_bmap b doalloc : preserves keep_sv (sfs_bmap b doalloc).
Proof. unfold sfs_bmap, sfs_bmap_direct, sfs_bmap_indirect. pres. Qed.
#[local] Hint Resolve pres_bmap : pres.

(** With a request. *)
Definition keep_io : (fs * sfs_vnode) * uiost → sfs_super * vnode := λ p, keep_sv p.1.

Lemma pres_io_fst {A} (m : M (fs * sfs_vnode) A) : preserves keep_sv m → preserves keep_io (on_fst m).
Proof. apply pres_fst. Qed.
Lemma pres_io_snd {A} (m : M uiost A) : preserves keep_io (on_snd m).
Proof. apply (pres_fst_snd keep_sv). Qed.
#[local] Hint Resolve pres_io_fst pres_io_snd : pres.

Lemma pres_io_rwblock : preserves keep_io (on_fs_uio sfs_rwblock).
Proof.
  eapply pres_zoom; [apply pres_rwblock_retry|]. intros [[f sv] us] [f' us'] Heq. simpl in *. unfold keep_io, keep_sv. simpl. by rewrite Heq.
Qed.
#[local] Hint Resolve pres_io_rwblock : pres.

Lemma pres_partialio a b : preserves keep_io (sfs_partialio a b).
Proof. unfold sfs_partialio. pres. Qed.
Lemma pres_blockio : preserves keep_io sfs_blockio.
Proof. unfold sfs_blockio. pres. Qed.
#[local] Hint Resolve pres_partialio pres_blockio : pres.
Lemma pres_io : preserves keep_io sfs_io.
Proof. unfold sfs_io, sfs_io_from, sfs_io_blocks, sfs_io_aligned, sfs_io_out. pres. Qed.
#[local] Hint Resolve pres_io : pres.

(** Directories, truncation. *)
Lemma pres_readdir slot : preserves keep_sv (sfs_readdir slot).
Proof. unfold sfs_readdir. pres. Qed.
Lemma pres_writedir sd slot : preserves keep_sv (sfs_writedir sd slot).
Proof. unfold sfs_writedir. pres. Qed.
#[local] Hint Resolve pres_readdir pres_writedir : pres.
Lemma pres_nentries : preserves keep_sv sfs_dir_nentries.
Proof. unfold sfs_dir_nentries. pres. Qed.
#[local] Hint Resolve pres_nentries : pres.
Lemma pres_findname name : preserves keep_sv (sfs_dir_findname name).
Proof.
  unfold sfs_dir_findname. apply pres_bind; [pres|]. intros n. generalize (Build_findres None (-1)).
  induction (seqZ 0 n) as [|i l IH]; intros acc; simpl; pres.
Qed.
#[local] Hint Resolve pres_findname : pres.
Lemma pres_dir_link name ino : preserves keep_sv (sfs_dir_link name ino).
Proof. unfold sfs_dir_link. pres. Qed.
Lemma pres_dir_unlink slot : preserves keep_sv (sfs_dir_unlink slot).
Proof. unfold sfs_dir_unlink. pres. Qed.
Lemma pres_truncate len : preserves keep_sv (sfs_truncate len).
Proof.
  assert (∀ bl js idbuf hn dirty, preserves keep_sv (trunc_entries (D := D) bl js idbuf hn dirty)) as He.
  { intros bl js. induction js as [|j js IH]; intros idbuf hn dirty; simpl; pres. }
  unfold sfs_truncate, trunc_direct, trunc_indirect. pres.
Qed.

(** ** The volume *)

Definition headers (S : vol) : gmap loc vnode := sv_v <$> vl_heap S.
Definition keep_vol (S : vol) : sfs_super * gmap loc vnode := (sfs_sb (vl_fs S), headers S).

Lemma headers_upd S l f sv : headers (upd S l f sv) = <[l := sv_v sv]> (headers S).
Proof. unfold headers. simpl. by rewrite fmap_insert. Qed.

Lemma pres_on_fs {A} (m : M fs A) : preserves keep_sb m → preserves keep_vol (on_fs m).
Proof. intros Hm. eapply pres_zoom; [exact Hm|]. intros S f Heq. unfold keep_vol. simpl. unfold keep_sb in Heq. by rewrite Heq. Qed.

Lemma pres_on_vnodes {A} (m : M (array loc) A) : preserves keep_vol (on_vnodes m).
Proof. by apply (pres_zoom _ _ _ (λ _, tt)). Qed.

Lemma pres_on_sv {A} l (m : M (fs * sfs_vnode) A) : preserves keep_sv m → preserves keep_vol (on_sv l m).
Proof.
  intros Hm S. unfold on_sv. destruct (vl_heap S !! l) as [sv|] eqn:Hl; [|done]. specialize (Hm (vl_fs S, sv)).
  destruct (m (vl_fs S, sv)) as [r [f' sv']]. unfold keep_sv, keep_sb in Hm. simpl in *. injection Hm as Hsb Hv.
  unfold keep_vol, headers. simpl. rewrite Hsb, fmap_insert, Hv. f_equal. apply insert_id. by rewrite lookup_fmap, Hl.
Qed.

Lemma pres_get_sv l : preserves keep_vol (get_sv l).
Proof. unfold get_sv. pres. Qed.
Lemma pres_malloc_ok : preserves keep_vol malloc_ok.
Proof. intros S. unfold malloc_ok, mbind, M_bind, get. simpl. by destruct (vl_mallocs S). Qed.
#[local] Hint Resolve pres_on_fs pres_on_vnodes pres_on_sv pres_get_sv pres_malloc_ok : pres.
#[local] Hint Resolve pres_sync_inode pres_dir_link pres_dir_unlink pres_truncate : pres.

Lemma pres_check l b : preserves keep_vol (on_vn l (vnode_check b)).
Proof.
  apply pres_on_sv. apply pres_sv_snd. eapply (pres_zoom _ _ _ (λ vn, vn)); [unfold vnode_check; pres|]. by intros sv vn.
Qed.
#[local] Hint Resolve pres_check : pres.

Lemma pres_vop_fsync l : preserves keep_vol (vop_fsync l).
Proof. unfold vop_fsync, sfs_fsync. pres. Qed.
Lemma pres_vop_truncate l len : preserves keep_vol (vop_truncate l len).
Proof. unfold vop_truncate. pres. Qed.
Lemma pres_add_links l k : preserves keep_vol (add_links l k).
Proof. unfold add_links. pres. Qed.
#[local] Hint Resolve pres_vop_fsync pres_vop_truncate pres_add_links : pres.

Lemma pres_mapio rw : preserves keep_sb (sfs_mapio rw).
Proof. unfold sfs_mapio. pres. Qed.
#[local] Hint Resolve pres_mapio : pres.
#[local] Hint Extern 1 (preserves keep_sb (modify _)) => (apply pres_modify; intros; reflexivity) : pres.
Lemma pres_sync : preserves keep_vol sfs_sync.
Proof. unfold sfs_sync. pres. Qed.

(** ** Counting references *)

Definition vn_isdir (vn : vnode) : bool := bool_decide (vn_ops vn = Some sfs_dirops).

(** [R] are the references to vnodes, [O] the vnodes that are open.  A vnode
    may have more references, when it could not be reclaimed. *)
Record counts (hs : gmap loc vnode) (R O : gmultiset (loc * bool)) : Prop := {
  ct_ok : ∀ l vn, hs !! l = Some vn → vnode_ok vn;
  ct_refs : ∀ l vn, hs !! l = Some vn → Z.of_nat (multiplicity (l, vn_isdir vn) R) ≤ vn_refcount vn;
  ct_opens : ∀ l vn, hs !! l = Some vn → vn_opencount vn = Z.of_nat (multiplicity (l, vn_isdir vn) O);
  ct_held : ∀ v, v ∈ R → ∃ vn, hs !! v.1 = Some vn ∧ vn_isdir vn = v.2;
  ct_open : ∀ v, v ∈ O → v ∈ R;
}.

Definition counted (sb : sfs_super) (R O : gmultiset (loc * bool)) (S : vol) : Prop :=
  sfs_sb (vl_fs S) = sb ∧ counts (headers S) R O.

Lemma counted_keep sb R O S S' : keep_vol S' = keep_vol S → counted sb R O S → counted sb R O S'.
Proof. unfold keep_vol, counted. by intros [= -> ->]. Qed.

Lemma count_keep {A} (m : M vol A) sb R O S Q :
  preserves keep_vol m → counted sb R O S → (∀ r S', counted sb R O S' → Q r S') → wp m Q S.
Proof. intros Hm HS HQ. apply HQ. eapply counted_keep; [apply Hm|done]. Qed.

Lemma count_mult (v x : loc * bool) (R : gmultiset (loc * bool)) :
  multiplicity x (R ⊎ {[+ v +]}) = (multiplicity x R + if decide (x = v) then 1 else 0)%nat.
Proof. by rewrite multiplicity_disj_union, multiplicity_singleton. Qed.

(** The counts of one vnode change. *)
Lemma counts_change hs R O l vn vn' R' O' :
  counts hs R O → hs !! l = Some vn → vnode_ok vn' → vn_ops vn' = vn_ops vn →
  Z.of_nat (multiplicity (l, vn_isdir vn) R') ≤ vn_refcount vn' →
  vn_opencount vn' = Z.of_nat (multiplicity (l, vn_isdir vn) O') →
  (∀ x, x ≠ (l, vn_isdir vn) → multiplicity x R' = multiplicity x R ∧ multiplicity x O' = multiplicity x O) →
  ((l, vn_isdir vn) ∈ O' → (l, vn_isdir vn) ∈ R') →
  counts (<[l := vn']> hs) R' O'.
Proof.
  intros [Hok Hrf Hop Hheld Hopen] Hl Hvn Hops HR HO Hoth Hin.
  assert (vn_isdir vn' = vn_isdir vn) as Hd by (unfold vn_isdir; by rewrite Hops).
  assert (∀ x, x ≠ (l, vn_isdir vn) → (x ∈ R' ↔ x ∈ R) ∧ (x ∈ O' ↔ x ∈ O)) as Hmem.
  { intros x Hx. rewrite !elem_of_multiplicity. by destruct (Hoth x Hx) as [-> ->]. }
  split.
  - intros l1 vn1 [[<- <-]|[_ Hl1]]%lookup_insert_Some; eauto.
  - intros l1 vn1 [[<- <-]|[Hne Hl1]]%lookup_insert_Some; [by rewrite Hd|].
    destruct (Hoth (l1, vn_isdir vn1)) as [-> _]; [congruence|by apply Hrf].
  - intros l1 vn1 [[<- <-]|[Hne Hl1]]%lookup_insert_Some; [by rewrite Hd|].
    destruct (Hoth (l1, vn_isdir vn1)) as [_ ->]; [congruence|by apply Hop].
  - intros [l1 d1] Hx. simpl. destruct (decide ((l1, d1) = (l, vn_isdir vn))) as [[= -> ->]|Hne].
    + exists vn'. by rewrite lookup_insert_eq.
    + destruct (Hheld (l1, d1)) as (vn1 & Hl1 & Hd1); [by apply Hmem|]. simpl in *. destruct (decide (l1 = l)) as [->|Hn].
      * exfalso. apply Hne. congruence.
      * exists vn1. by rewrite lookup_insert_ne.
  - intros x Hx. destruct (decide (x = (l, vn_isdir vn))) as [->|Hne]; [auto|]. apply Hmem; [done|]. apply Hopen. by apply Hmem.
Qed.

(** A new vnode, with one reference. *)
Lemma counts_add hs R O l ops :
  counts hs R O → hs !! l = None →
  let vn := {| vn_refcount := 1; vn_opencount := 0; vn_countlock := true; vn_ops := Some ops |} in
  counts (<[l := vn]> hs) (R ⊎ {[+ (l, vn_isdir vn) +]}) O.
Proof.
  intros [Hok Hrf Hop Hheld Hopen] Hl vn.
  assert (∀ d, (l, d) ∉ R) as HnR by (intros d Hd; destruct (Hheld _ Hd) as (vn1 & Hv1 & _); simpl in *; congruence).
  assert (∀ d, (l, d) ∉ O) as HnO by (intros d Hd%Hopen; by eapply HnR). split.
  - intros l1 vn1 [[<- <-]|[_ Hl1]]%lookup_insert_Some; [split; simpl; [lia|lia|done|by eexists]|eauto].
  - intros l1 vn1 [[<- <-]|[Hne Hl1]]%lookup_insert_Some; rewrite count_mult.
    + rewrite decide_True, (proj1 (not_elem_of_multiplicity _ R)) by done. simpl. lia.
    + rewrite decide_False, Nat.add_0_r by congruence. by apply Hrf.
  - intros l1 vn1 [[<- <-]|[Hne Hl1]]%lookup_insert_Some; [|by apply Hop].
    by rewrite (proj1 (not_elem_of_multiplicity _ O)).
  - intros x Hx. destruct (decide (x = (l, vn_isdir vn))) as [->|Hne]; [exists vn; by rewrite lookup_insert_eq|].
    destruct (Hheld x) as (vn1 & Hl1 & Hd1); [multiset_solver|]. exists vn1. rewrite lookup_insert_ne; [done|congruence].
  - intros x Hx%Hopen. multiset_solver.
Qed.

(** A vnode nobody refers to goes. *)
Lemma counts_drop hs R O l vn : counts hs R O → hs !! l = Some vn → (l, vn_isdir vn) ∉ R → counts (delete l hs) R O.
Proof.
  intros [Hok Hrf Hop Hheld Hopen] Hl Hno. split; try (intros l1 vn1 [_ Hl1]%lookup_delete_Some; eauto).
  - intros [l1 d1] Hv. destruct (Hheld _ Hv) as (vn1 & Hl1 & Hd1). simpl in *. exists vn1. rewrite lookup_delete_ne; [done|].
    intros <-. apply Hno. congruence.
  - done.
Qed.

(** Only the runs that return matter here. *)
Lemma count_assert {B} b (k : M vol B) (Q : result B → vol → Prop) S :
  (∀ h S', Q (Halt h) S') → (b = true → wp k Q S) → wp (_ ← assert b; k) Q S.
Proof. intros HP Hk. wp_step. destruct b; [exact (Hk eq_refl)|apply HP]. Qed.

Lemma count_on_vn {B} l (m : M vnode B) (Q : result B → vol → Prop) S :
  (∀ k S', Q (Halt k) S') →
  (∀ vn, headers S !! l = Some vn →
     wp m (λ r vn', ∀ S', keep_vol S' = (sfs_sb (vl_fs S), <[l := vn']> (headers S)) → Q r S') vn) →
  wp (on_vn l m) Q S.
Proof.
  intros HP Hm. destruct (vl_heap S !! l) as [sv|] eqn:Hl.
  - eapply wp_on_vn; [done|]. eapply wp_mono; [apply (Hm (sv_v sv))|].
    + unfold headers. by rewrite lookup_fmap, Hl.
    + intros r vn' HQ. apply HQ. unfold keep_vol. by rewrite headers_upd.
  - unfold wp, on_vn, on_sv. rewrite Hl. apply HP.
Qed.

Lemma count_incref sb R O l S Q :
  counted sb R O S → (∀ k S', Q (Halt k) S') →
  (∀ d S', counted sb (R ⊎ {[+ (l, d) +]}) O S' → (∃ vn, headers S !! l = Some vn ∧ vn_isdir vn = d) → Q (Ret ()) S') →
  wp (on_vn l vnode_incref) Q S.
Proof.
  intros [Hsb Hc] HP HQ. apply count_on_vn; [done|]. intros vn Hl. unfold vnode_incref. wp_step. intros S' [= Hsb' Hh].
  pose proof (ct_ok _ _ _ Hc l vn Hl) as Hok. pose proof (ct_refs _ _ _ Hc l vn Hl). apply (HQ (vn_isdir vn)); [|by exists vn].
  split; [congruence|]. rewrite Hh. eapply counts_change; [done|done|destruct Hok; split; simpl; auto; lia|done|..].
  - rewrite count_mult, decide_True by done. simpl. lia.
  - simpl. by apply (ct_opens _ _ _ Hc).
  - intros x Hx. rewrite count_mult, decide_False by done. lia.
  - intros _. multiset_solver.
Qed.

(** A step that leaves the headers alone. *)
Lemma keep_step {A} (m : M vol A) S Q : preserves keep_vol m → (∀ r S', keep_vol S' = keep_vol S → Q r S') → wp m Q S.
Proof. intros Hm HQ. apply HQ, Hm. Qed.

Lemma count_bind {A B} (m : M vol A) (k : A → M vol B) sb R O S Q :
  preserves keep_vol m → counted sb R O S → (∀ h S', Q (Halt h) S') →
  (∀ e S', counted sb R O S' → Q (Fail e) S') → (∀ a S', counted sb R O S' → wp (k a) Q S') →
  wp (x ← m; k x) Q S.
Proof.
  intros Hm HS HP HF HQ. wp_step. eapply count_keep; [exact Hm|exact HS|]. intros [a|e|h] S' HS'; [by apply HQ|by apply HF|apply HP].
Qed.

(** ** Loading and releasing *)

(** An operation that hands out the vnode [l], or fails. *)
Definition hands_out {A} (lof : A → loc) sb R O (r : result A) (S' : vol) : Prop :=
  match r with
  | Ret a => ∃ d, counted sb (R ⊎ {[+ (lof a, d) +]}) O S'
  | Fail _ => counted sb R O S'
  | Halt _ => True
  end.

Lemma count_search ino ft idxs sb R O S :
  counted sb R O S →
  wp (loadvnode_search ino ft idxs) (λ r S', match r with
    | Ret (Some l) => ∃ d, counted sb (R ⊎ {[+ (l, d) +]}) O S'
    | Halt _ => True
    | _ => counted sb R O S'
    end) S.
Proof.
  revert S. induction idxs as [|i idxs IH]; intros S HS; simpl; [by wp_step|].
  eapply count_bind; [pres|done|done|done|]. intros l S1 HS1. eapply count_bind; [pres|done|done|done|]. intros sv S2 HS2.
  eapply count_bind; [pres|done|done|done|]. intros used S3 HS3. apply count_assert; [done|]. intros _.
  destruct (sv_ino sv =? ino); [|by apply IH]. apply count_assert; [done|]. intros _. wp_step.
  eapply count_incref; [done|done|]. intros d S4 HS4 _. wp_step. by exists d.
Qed.

Lemma count_load ino ft sb R O S : counted sb R O S → wp (sfs_loadvnode ino ft) (hands_out id sb R O) S.
Proof.
  intros HS. unfold sfs_loadvnode. wp_step. wp_step. wp_step. eapply wp_mono; [by apply count_search|].
  intros [[l|]|e|h] S1 HS1; [by wp_step| |done..]. unfold loadvnode_new.
  eapply count_bind; [pres|done|done|done|]. intros ok S2 HS2. destruct ok; cbn [negb]; [|by wp_step].
  eapply count_bind; [pres|done|done|done|]. intros used S3 HS3. apply count_assert; [done|]. intros _.
  eapply count_bind; [pres|done|done|done|]. intros bs S4 HS4. cbv zeta. apply count_assert; [done|]. intros _.
  destruct (ops_of_type _) as [ops|]; [|done].
  eapply count_bind; [pres|done|done|done|]. intros lok S5 HS5. destruct lok; cbn [vnode_init]; [|by wp_step].
  wp_step. wp_step. cbv zeta. set (l := fresh (dom (vl_heap S5))).
  wp_step. apply keep_step; [pres|]. intros [gok|e|h] S6 HS6; [|by eapply counted_keep|done].
  wp_step. apply keep_step; [pres|]. intros [[]|e|h] S7 HS7; [|by eapply counted_keep; [etrans|]|done].
  wp_step. wp_step. wp_step. set (vn := Build_vnode _ _ _ _). exists (vn_isdir vn). assert (keep_vol S7 = keep_vol S5) as Heq by (by etrans).
  injection Heq as Hsb Hh. destruct HS5 as [Hsb5 Hc5]. split; [simpl; congruence|].
  unfold headers at 1. simpl. rewrite fmap_insert. fold (headers S7). rewrite Hh. apply counts_add; [done|].
  assert (vl_heap S5 !! l = None) as Hnew by (apply not_elem_of_dom, is_fresh). unfold headers. by rewrite lookup_fmap, Hnew.
Qed.

Lemma kill_returns vn : match (vnode_kill vn).1 with Fail _ => False | _ => True end.
Proof. unfold vnode_kill, mbind, M_bind, get, assert. simpl. by repeat case_match; simplify_eq/=. Qed.

(** The vnode's last reference goes: it leaves the heap, or stays when it
    could not be written back. *)
Lemma count_reclaim sb R O l vn S :
  counted sb R O S → headers S !! l = Some vn → (l, vn_isdir vn) ∉ R → vn_refcount vn = 1 →
  wp (sfs_reclaim l) (λ r S', match r with Halt _ => True | _ => counted sb R O S' end) S.
Proof.
  intros HS Hl Hno Hrc. assert (∀ d, (l, d) ∉ R) as Hnone.
  { intros d Hd. destruct (ct_held _ _ _ (proj2 HS) _ Hd) as (vn' & Hvn' & Hd'). simpl in *. apply Hno. congruence. }
  unfold sfs_reclaim. wp_step. unfold get_sv at 1. wp_step. wp_step. unfold headers in Hl. rewrite lookup_fmap in Hl.
  destruct (vl_heap S !! l) as [sv|] eqn:Hsv; [|done]. simpl in Hl. injection Hl as Hl. eapply wp_deref; [done|].
  rewrite Hl, Hrc. cbn [negb Z.eqb Pos.eqb].
  eapply (count_bind _ _ sb R O); [destruct (sfi_linkcount (sv_i sv) =? 0); pres|done|done|done|]. intros _ S1 HS1.
  eapply count_bind; [pres|done|done|done|]. intros _ S2 HS2. eapply count_bind; [pres|done|done|done|]. intros sv3 S3 HS3.
  eapply (count_bind _ _ sb R O); [destruct (sfi_linkcount (sv_i sv3) =? 0); pres|done|done|done|]. intros _ S4 HS4. wp_step. wp_step.
  eapply count_bind; [|done|done|done|].
  { induction (seqZ 0 _) as [|i idxs IH]; simpl; pres. }
  intros ix S5 HS5. eapply count_bind; [pres|done|done|done|]. intros _ S6 [Hsb6 Hc6]. wp_step. apply count_on_vn; [done|].
  intros vn6 Hl6. pose proof (kill_returns vn6) as Hk. unfold wp. destruct (vnode_kill vn6) as [[[]|e|h] vn7]; [|by destruct Hk|done].
  intros S7 [= Hsb7 Hh7]. apply wp_modify. split; [simpl; congruence|]. unfold headers at 1. simpl. rewrite fmap_delete.
  fold (headers S7). rewrite Hh7, delete_insert_eq. by eapply counts_drop.
Qed.

Lemma count_decref sb R O v S Q :
  counted sb (R ⊎ {[+ v +]}) O S → (v ∈ O → v ∈ R) → (∀ k S', Q (Halt k) S') →
  (∀ S', counted sb R O S' → Q (Ret ()) S') → wp (vop_decref v.1) Q S.
Proof.
  intros HS Hin HP HQ. destruct (ct_held _ _ _ (proj2 HS) v) as (vn & Hl & Hd); [multiset_solver|].
  assert (v = (v.1, vn_isdir vn)) as Heq by (destruct v; simpl in *; by subst).
  pose proof (ct_ok _ _ _ (proj2 HS) _ _ Hl) as Hok. pose proof (ct_opens _ _ _ (proj2 HS) _ _ Hl) as HO.
  pose proof (ct_refs _ _ _ (proj2 HS) _ _ Hl) as HR. rewrite <- Heq, count_mult, decide_True in HR by done. rewrite <- Heq in HO.
  unfold vop_decref, vnode_decref. wp_step. apply count_on_vn; [done|]. intros vn1 Hl1. rewrite Hl in Hl1. injection Hl1 as <-.
  unfold vnode_decref_count. wp_step. wp_step. wp_step. pose proof (vok_ref _ Hok) as Hp.
  apply wp_assert; [by rewrite Z.gtb_ltb; apply Z.ltb_lt|].
  assert (counted sb R O S) as HS0.
  { destruct HS as [Hsb Hc]. split; [done|]. rewrite <- (insert_id (headers S) v.1 vn) by done.
    eapply counts_change; [done|done|done|done|rewrite <- Heq; lia|by rewrite <- Heq| |by rewrite <- Heq].
    rewrite <- Heq. intros x Hx. rewrite count_mult, decide_False by done. lia. }
  rewrite Z.gtb_ltb. destruct (Z.ltb_spec 1 (vn_refcount vn)) as [Hgt|Hle].
  - wp_step. wp_step. wp_step. intros S1 [= Hsb1 Hh1]. wp_step. apply HQ. destruct HS as [Hsb Hc]. split; [congruence|].
    rewrite Hh1. eapply counts_change; [done|done|destruct Hok; split; simpl; auto; lia|done|rewrite <- Heq; simpl; lia|by rewrite <- Heq| |by rewrite <- Heq].
    rewrite <- Heq. intros x Hx. rewrite count_mult, decide_False by done. lia.
  - wp_step. intros S1 [= Hsb1 Hh1]. rewrite insert_id in Hh1 by done.
    assert (counted sb R O S1) as HS1 by (eapply counted_keep; [|exact HS0]; unfold keep_vol; by rewrite Hsb1, Hh1).
    wp_step. apply count_on_vn; [done|]. intros vn1 Hl1. rewrite Hh1, Hl in Hl1. injection Hl1 as <-. apply vnode_check_ok; [done|].
    intros S2 HS2. rewrite insert_id in HS2 by congruence. wp_step. wp_step.
    eapply wp_mono; [eapply (count_reclaim sb R O v.1 vn)|].
    + by eapply counted_keep.
    + injection HS2 as _ ->. congruence.
    + rewrite <- Heq. apply not_elem_of_multiplicity. lia.
    + lia.
    + intros [[]|e|h] S3 HS3; [wp_step; by apply HQ..|apply HP].
Qed.

Lemma count_incopen sb R O v S :
  counted sb R O S → v ∈ R →
  wp (on_vn v.1 vnode_incopen) (λ r S', match r with Halt _ => True | _ => counted sb R (O ⊎ {[+ v +]}) S' end) S.
Proof.
  intros [Hsb Hc] Hv. destruct (ct_held _ _ _ Hc v Hv) as (vn & Hl & Hd).
  assert (v = (v.1, vn_isdir vn)) as Heq by (destruct v; simpl in *; by subst).
  pose proof (ct_ok _ _ _ Hc _ _ Hl) as Hok. pose proof (ct_opens _ _ _ Hc _ _ Hl) as HO. rewrite <- Heq in HO.
  apply count_on_vn; [done|]. intros vn1 Hl1. rewrite Hl in Hl1. injection Hl1 as <-. unfold vnode_incopen. wp_step.
  intros S1 [= Hsb1 Hh1]. split; [congruence|]. rewrite Hh1.
  eapply counts_change; [done|done|destruct Hok; split; simpl; auto; lia|done|exact (ct_refs _ _ _ Hc _ _ Hl)|..]; rewrite <- Heq.
  - rewrite count_mult, decide_True by done. simpl. lia.
  - intros x Hx. rewrite count_mult, decide_False by done. lia.
  - done.
Qed.

Lemma count_decopen sb R O v S :
  counted sb R (O ⊎ {[+ v +]}) S → v ∈ R →
  wp (vnode_decopen (λ A, on_vn v.1) (sfs_close v.1)) (λ r S', match r with Halt _ => True | _ => counted sb R O S' end) S.
Proof.
  intros [Hsb Hc] Hv. destruct (ct_held _ _ _ Hc v Hv) as (vn & Hl & Hd).
  assert (v = (v.1, vn_isdir vn)) as Heq by (destruct v; simpl in *; by subst).
  pose proof (ct_ok _ _ _ Hc _ _ Hl) as Hok. pose proof (ct_opens _ _ _ Hc _ _ Hl) as HO.
  rewrite <- Heq, count_mult, decide_True in HO by done. unfold vnode_decopen. wp_step.
  apply count_on_vn; [done|]. intros vn1 Hl1. rewrite Hl in Hl1. injection Hl1 as <-. unfold vnode_decopen_count. wp_step. wp_step. wp_step.
  apply wp_assert; [lia|]. wp_step. wp_step. wp_step. intros S1 [= Hsb1 Hh1].
  assert (counted sb R O S1) as HS1.
  { split; [congruence|]. rewrite Hh1.
    eapply counts_change; [done|done|destruct Hok; split; simpl; auto; lia|done|exact (ct_refs _ _ _ Hc _ _ Hl)|..]; rewrite <- Heq.
    - simpl. lia.
    - intros x Hx. rewrite count_mult, decide_False by done. lia.
    - done. }
  destruct (negb _); [|by wp_step]. eapply count_bind; [pres|done|done|done|]. intros _ S2 HS2. unfold sfs_close.
  eapply count_bind; [pres|done|done|done|]. intros _ S3 HS3. by wp_step.
Qed.

(** ** The operations on names *)

Lemma count_get_sv l (S : vol) Q :
  (∀ k S', Q (Halt k) S') → (∀ sv, vl_heap S !! l = Some sv → Q (Ret sv) S) → wp (get_sv l) Q S.
Proof.
  intros HP HQ. unfold get_sv. wp_step. wp_step. destruct (vl_heap S !! l) as [sv|] eqn:Hl; [by eapply wp_deref; [|apply HQ]|apply HP].
Qed.

Lemma count_lookonce dir name sb R O S :
  counted sb R O S → wp (sfs_lookonce dir name) (hands_out fst sb R O) S.
Proof.
  intros HS. unfold sfs_lookonce. eapply count_bind; [pres|done|done|done|]. intros r S1 HS1.
  destruct (fd_found r) as [[ino slot]|]; [|by wp_step]. wp_step. eapply wp_mono; [by apply count_load|].
  intros [l|e|h] S2 HS2; [|done..]. wp_step. apply count_get_sv; [done|]. intros sv _. apply count_assert; [done|]. intros _. by wp_step.
Qed.

Lemma count_makeobj type sb R O S : counted sb R O S → wp (sfs_makeobj type) (hands_out id sb R O) S.
Proof. intros HS. unfold sfs_makeobj. eapply count_bind; [pres|done|done|done|]. intros ino S1 HS1. by apply count_load. Qed.

Lemma count_modify l g (S : vol) Q :
  (∀ sv, sv_v (g sv) = sv_v sv) → (∀ h S', Q (Halt h) S') → (∀ S', keep_vol S' = keep_vol S → Q (Ret ()) S') →
  wp (on_sv l (on_snd (modify g))) Q S.
Proof.
  intros Hg HP HQ. assert (preserves keep_vol (on_sv l (on_snd (modify g)))) as Hk by (apply pres_on_sv, pres_sv_snd; by apply pres_modify).
  specialize (Hk S). unfold wp, on_sv in *. destruct (vl_heap S !! l); [by apply HQ|by apply HP].
Qed.

Lemma count_add_links l k (S : vol) Q :
  (∀ h S', Q (Halt h) S') → (∀ S', keep_vol S' = keep_vol S → Q (Ret ()) S') → wp (add_links l k) Q S.
Proof. intros HP HQ. by apply count_modify. Qed.

(** A new reference that is dropped again. *)
Lemma count_drop_new sb R O l d S Q :
  counted sb (R ⊎ {[+ (l, d) +]}) O S → (∀ v, v ∈ O → v ∈ R) → (∀ k S', Q (Halt k) S') →
  (∀ S', counted sb R O S' → Q (Ret ()) S') → wp (vop_decref l) Q S.
Proof. intros HS Hin HP HQ. apply (count_decref sb R O (l, d)); auto. Qed.

Lemma counted_open sb R O S : counted sb R O S → ∀ v, v ∈ O → v ∈ R.
Proof. intros [_ Hc]. apply Hc. Qed.

Lemma count_creat dir name excl sb R O S : counted sb R O S → wp (sfs_creat dir name excl) (hands_out id sb R O) S.
Proof.
  intros HS. pose proof (counted_open _ _ _ _ HS) as Hin. unfold sfs_creat. eapply count_bind; [pres|done|done|done|]. intros r S1 HS1.
  destruct (fd_found r) as [[ino slot]|]; [destruct excl; [by wp_step|by apply count_load]|].
  wp_step. eapply wp_mono; [by apply count_makeobj|]. intros [l|e|h] S2 HS2; [|done..]. destruct HS2 as [d HS2].
  wp_step. apply count_get_sv; [done|]. intros sv _. wp_step. wp_step.
  eapply (count_keep _ sb (R ⊎ {[+ (l, d) +]}) O); [pres|exact HS2|]. intros [k|e|h] S3 HS3; [..|done].
  - wp_step. apply count_add_links; [done|]. intros S4 HS4. wp_step. exists d. by eapply counted_keep.
  - wp_step. eapply count_drop_new; [exact HS3|done|done|]. intros S4 HS4. by wp_step.
Qed.

Lemma count_link dir name file sb R O S :
  counted sb R O S → wp (sfs_link dir name file) (λ r S', match r with Halt _ => True | _ => counted sb R O S' end) S.
Proof.
  intros HS. unfold sfs_link. wp_step. apply count_get_sv; [done|]. intros sv _. eapply count_bind; [pres|done|done|done|].
  intros _ S1 HS1. apply count_add_links; [done|]. intros S2 HS2. by eapply counted_keep.
Qed.

Lemma count_remove dir name sb R O S :
  counted sb R O S → wp (sfs_remove dir name) (λ r S', match r with Halt _ => True | _ => counted sb R O S' end) S.
Proof.
  intros HS. pose proof (counted_open _ _ _ _ HS) as Hin. unfold sfs_remove. wp_step. eapply wp_mono; [by apply count_lookonce|].
  intros [[l slot]|e|h] S1 HS1; [|done..]. destruct HS1 as [d HS1]. simpl in HS1. wp_step. wp_step.
  eapply (count_keep _ sb (R ⊎ {[+ (l, d) +]}) O); [pres|exact HS1|]. intros [[]|e|h] S2 HS2; [..|done].
  - wp_step. wp_step. apply count_get_sv; [done|]. intros sv _. apply count_assert; [done|]. intros _. apply count_add_links; [done|].
    intros S3 HS3. wp_step. eapply count_drop_new; [by eapply counted_keep|done|done|]. intros S4 HS4. simpl. by wp_step.
  - wp_step. wp_step. wp_step. eapply count_drop_new; [exact HS2|done|done|]. intros S4 HS4. simpl. by wp_step.
Qed.

Lemma count_rename dir n1 n2 sb R O S :
  counted sb R O S → wp (sfs_rename dir n1 n2) (λ r S', match r with Halt _ => True | _ => counted sb R O S' end) S.
Proof.
  intros HS. pose proof (counted_open _ _ _ _ HS) as Hin. unfold sfs_rename. wp_step. apply count_get_sv; [done|]. intros sv0 _.
  apply count_assert; [done|]. intros _. wp_step. eapply wp_mono; [by apply count_lookonce|].
  intros [[l slot]|e|h] S1 HS1; [|done..]. destruct HS1 as [d HS1]. simpl in HS1.
  wp_step. apply count_get_sv; [done|]. intros sv _. apply count_assert; [done|]. intros _. wp_step. wp_step.
  eapply (count_keep _ sb (R ⊎ {[+ (l, d) +]}) O); [pres|exact HS1|]. intros [slot2|e|h] S2 HS2; [..|done].
  2:{ wp_step. eapply count_drop_new; [exact HS2|done|done|]. intros S3 HS3. by wp_step. }
  wp_step. apply count_add_links; [done|]. intros S3 HS3%eq_sym. apply (counted_keep _ _ _ S2 S3 (eq_sym HS3)) in HS2. clear HS3. rename HS2 into HS3.
  wp_step. wp_step. eapply (count_keep _ sb (R ⊎ {[+ (l, d) +]}) O); [pres|exact HS3|]. intros [[]|e|h] S4 HS4; [..|done].
  - wp_step. apply count_get_sv; [done|]. intros sv4 _. apply count_assert; [done|]. intros _. wp_step. apply count_add_links; [done|].
    intros S5 HS5. eapply count_drop_new; [by eapply counted_keep|done|done|]. by intros.
  - unfold rename_undo. wp_step. wp_step. eapply (count_keep _ sb (R ⊎ {[+ (l, d) +]}) O); [pres|exact HS4|].
    intros [[]|e2|h] S5 HS5; [|done..].
    wp_step. apply count_modify; [done|done|]. intros S6 HS6. wp_step.
    eapply count_drop_new; [by eapply counted_keep|done|done|]. intros S7 HS7. by wp_step.
Qed.

Lemma count_lookparent dir path buf len sb R O S :
  counted sb R O S →
  wp (sfs_lookparent dir path buf len) (λ r S', match r with
    | Ret (l, _) => ∃ d, l = dir ∧ counted sb (R ⊎ {[+ (l, d) +]}) O S' ∧ ∃ vn, headers S !! l = Some vn ∧ vn_isdir vn = d
    | Fail _ => counted sb R O S'
    | Halt _ => True
    end) S.
Proof.
  intros HS. unfold sfs_lookparent. wp_step. apply count_get_sv; [done|]. intros sv _. destruct (negb _); [by wp_step|].
  wp_step. destruct (strlen path) as [n|]; [|done]. eapply wp_deref; [done|]. destruct (_ >? _); [by wp_step|].
  wp_step. destruct (strcpy buf path) as [b|]; [|done]. eapply wp_deref; [done|]. wp_step. unfold vop_incref.
  eapply count_incref; [done|done|]. intros d S1 HS1 Hd. wp_step. by exists d.
Qed.

Lemma count_sfs_lookup dir path sb R O S : counted sb R O S → wp (sfs_lookup dir path) (hands_out id sb R O) S.
Proof.
  intros HS. unfold sfs_lookup. wp_step. apply count_get_sv; [done|]. intros sv _. destruct (negb _); [by wp_step|].
  wp_step. eapply wp_mono; [by apply count_lookonce|]. intros [[l slot]|e|h] S1 HS1; [|done..]. by wp_step.
Qed.

Lemma count_getroot sb R O S : counted sb R O S → wp sfs_getroot (hands_out id sb R O) S.
Proof.
  intros HS. unfold sfs_getroot. wp_step. wp_step. eapply wp_mono; [by apply count_load|]. intros [l|e|h] S1 HS1; [by wp_step|done..].
Qed.
End sfs.
