(* ===== verification/Printf.v ===== *)
(** * Formatted output (lib/libc/__printf.c, lib/libc/snprintf.c)

    The printf of the kernel and of the user programs.  [__vprintf] hands the
    characters it makes to a function of its caller; it is written over any
    such function [sendfunc], with its own state [PF] beside the state of the
    receiver.  The theorems describe the output of any format, compare the
    numbers with a reference printer, and show that [snprintf] stays inside
    the buffer it is given. *)

From Stdlib Require Import Ascii.
From stdpp Require Import pretty.
From S2P Require Import Prelude Libc.

(** ** Characters *)

Definition chr (c : Ascii.ascii) : Z := Z.of_N (Ascii.N_of_ascii c).
#[global] Arguments chr c%_char_scope.
Definition bytes (s : string) : list Z := chr <$> String.list_ascii_of_string s.
(** A string literal, with its terminator. *)
Definition literal (s : string) : list Z := bytes s ++ [0].
#[global] Arguments bytes s%_string_scope.
#[global] Arguments literal s%_string_scope.

(** ** The state of printf *)

(** An argument: the 32-bit word of a number, or a pointer to a string, [None]
    for NULL. *)
Inductive va_arg := arg_word (w : Z) | arg_str (s : option (list Z)).

Inductive intsize := INTSZ | LONGSZ.

(** The fields that are reset after every %-field. *)
Record field := {
  in_pct : bool; intsz : intsize; pf_num : Z; pf_sign : bool; spacing : Z;
  rightspc : bool; fillchar : Z; pf_base : Z; baseprefix : bool; altformat : bool;
}.

Record PF := { pf_ap : list va_arg; charcount : Z; pf_field : field }.

Definition set_field (f : field) (pf : PF) : PF :=
  {| pf_ap := pf_ap pf; charcount := charcount pf; pf_field := f |}.
Definition set_ap (ap : list va_arg) (pf : PF) : PF :=
  {| pf_ap := ap; charcount := charcount pf; pf_field := pf_field pf |}.
Definition set_charcount (n : Z) (pf : PF) : PF :=
  {| pf_ap := pf_ap pf; charcount := n; pf_field := pf_field pf |}.

Definition end_field : field :=
  {| in_pct := false; intsz := INTSZ; pf_num := 0; pf_sign := false; spacing := 0;
     rightspc := false; fillchar := chr " "; pf_base := 0; baseprefix := false; altformat := false |}.

Definition modifier_field (ch : Z) (f : field) : option field :=
  let set alt sz spc r fc :=
    {| in_pct := in_pct f; intsz := sz; pf_num := pf_num f; pf_sign := pf_sign f; spacing := spc;
       rightspc := r; fillchar := fc; pf_base := pf_base f; baseprefix := baseprefix f; altformat := alt |} in
  if ch =? chr "#" then Some (set true (intsz f) (spacing f) (rightspc f) (fillchar f))
  else if ch =? chr "-" then Some (set (altformat f) (intsz f) (spacing f) true (fillchar f))
  else if (ch =? chr "l") || (ch =? chr "q") then
    Some (set (altformat f) LONGSZ (spacing f) (rightspc f) (fillchar f))
  else if ch =? chr "0" then
    if spacing f >? 0 then
      Some (set (altformat f) (intsz f) (s32 (spacing f * 10)) (rightspc f) (fillchar f))
    else Some (set (altformat f) (intsz f) (spacing f) (rightspc f) (chr "0"))
  else if (ch >? chr "0") && (ch <=? chr "9") then
    Some (set (altformat f) (intsz f) (s32 (spacing f * 10 + (ch - chr "0"))) (rightspc f) (fillchar f))
  else None.

Definition set_num (n : Z) (s : bool) (f : field) : field :=
  {| in_pct := in_pct f; intsz := intsz f; pf_num := n; pf_sign := s; spacing := spacing f;
     rightspc := rightspc f; fillchar := fillchar f; pf_base := pf_base f;
     baseprefix := baseprefix f; altformat := altformat f |}.
Definition set_base (b : Z) (pre : bool) (f : field) : field :=
  {| in_pct := in_pct f; intsz := intsz f; pf_num := pf_num f; pf_sign := pf_sign f; spacing := spacing f;
     rightspc := rightspc f; fillchar := fillchar f; pf_base := b;
     baseprefix := pre; altformat := altformat f |}.
Definition set_in_pct (b : bool) (f : field) : field :=
  {| in_pct := b; intsz := intsz f; pf_num := pf_num f; pf_sign := pf_sign f; spacing := spacing f;
     rightspc := rightspc f; fillchar := fillchar f; pf_base := pf_base f;
     baseprefix := baseprefix f; altformat := altformat f |}.

Definition NUMBER_BUF_SIZE : Z := 4 * 8 / 3 + 2.
Definition hexdigits : list Z := literal "0123456789abcdef".
Definition modchars : list Z := literal "#-ql0123456789".
Definition intchars : list Z := literal "doupx".

Section printf.
Context {St : Type} (sendfunc : list Z → M St unit).
Abbreviation P := (M (PF * St)).

Definition the_field : P field := on_fst (gets pf_field).
Definition upd_field (g : field → field) : P unit :=
  on_fst (modify (λ pf, set_field (g (pf_field pf)) pf)).

(** [txt] is the text of the given length. *)
Definition __pf_print (txt : list Z) : P unit :=
  _ ← on_snd (sendfunc txt);
  on_fst (modify (λ pf, set_charcount (s32 (charcount pf + zlen txt)) pf)).

Definition __pf_endfield : P unit := upd_field (λ _, end_field).

Definition __pf_modifier (ch : Z) : P unit :=
  f ← the_field;
  match modifier_field ch f with
  | Some f' => upd_field (λ _, f')
  | None => panic
  end.

(** The next argument; an argument of another type, or none, is undefined. *)
Definition va_word : P Z :=
  pf ← on_fst get;
  match pf_ap pf with
  | arg_word w :: ap => _ ← on_fst (modify (set_ap ap)); mret w
  | _ => undef
  end.
Definition va_string : P (option (list Z)) :=
  pf ← on_fst get;
  match pf_ap pf with
  | arg_str s :: ap => _ ← on_fst (modify (set_ap ap)); mret s
  | _ => undef
  end.

(** [int] and [long] have the same width, so both sizes read the same word.
    The negation is that of the machine: the least number is its own. *)
Definition __pf_getnum (ch : Z) : P unit :=
  w ← va_word;
  if ch =? chr "d" then
    let signednum := s32 w in
    if signednum <? 0 then upd_field (set_num (u32 (- signednum)) true)
    else upd_field (λ f, set_num signednum (pf_sign f) f)
  else upd_field (λ f, set_num (u32 w) (pf_sign f) f).

Definition __pf_setbase (ch : Z) : P unit :=
  upd_field (λ f,
    let b := if (ch =? chr "d") || (ch =? chr "u") then 10
             else if (ch =? chr "x") || (ch =? chr "p") then 16
             else if ch =? chr "o" then 8 else pf_base f in
    set_base b (altformat f || (ch =? chr "p") || baseprefix f) f).

Definition __pf_fill (spc : Z) : P unit :=
  f ← the_field;
  forM (seqZ 0 spc) (λ _, __pf_print [u8 (fillchar f)]).

(** The arguments are C strings. *)
Definition pf_printz (s : list Z) : P unit :=
  n ← deref (strlen s); __pf_print (take (Z.to_nat n) s).

Definition __pf_printstuff (prefix prefix2 stuff : list Z) : P unit :=
  l1 ← deref (strlen prefix);
  l2 ← deref (strlen prefix2);
  l3 ← deref (strlen stuff);
  f ← the_field;
  let len := s32 (l1 + l2 + l3) in
  let spc := if spacing f >? len then s32 (spacing f - len) else 0 in
  let zero := fillchar f =? chr "0" in
  _ ← (if (spc >? 0) && negb (rightspc f) && negb zero then __pf_fill spc else mret ());
  _ ← pf_printz prefix;
  _ ← pf_printz prefix2;
  _ ← (if (spc >? 0) && negb (rightspc f) && zero then __pf_fill spc else mret ());
  _ ← pf_printz stuff;
  if (spc >? 0) && rightspc f then __pf_fill spc else mret ().

(** The do-while loop of [__pf_printnum], from the slot [x] to the left; the
    result is the buffer and the next slot. *)
Fixpoint printnum_loop (fuel : nat) (base : Z) (buf : list Z) (x xnum : Z) : P (list Z * Z) :=
  match fuel with
  | O => nofuel
  | S fuel =>
      if base =? 0 then undef
      else
        d ← deref (hexdigits !z (xnum mod base));
        buf ← deref (zstore buf x d);
        let xnum := xnum / base in
        if xnum >? 0 then printnum_loop fuel base buf (x - 1) xnum else mret (buf, x - 1)
  end.

(** A number of 32 bits has at most 32 digits. *)
Definition __pf_printnum : P unit :=
  f ← the_field;
  let buf := replicate (Z.to_nat NUMBER_BUF_SIZE) 0 in
  let x := NUMBER_BUF_SIZE - 1 in
  buf ← deref (zstore buf x 0);
  r ← printnum_loop 32 (pf_base f) buf (x - 1) (pf_num f);
  let '(buf, x) := (r : list Z * Z) in
  let x := x + 1 in
  let bprefix := if baseprefix f && (pf_base f =? 16) then literal "0x"
                 else if baseprefix f && (pf_base f =? 8) then literal "0"
                 else literal "" in
  let sprefix := if pf_sign f then literal "-" else literal "" in
  __pf_printstuff sprefix bprefix (drop (Z.to_nat x) buf).

Definition __pf_send (ch : Z) : P unit :=
  _ ← assert (negb (ch =? 0));
  f ← the_field;
  if negb (in_pct f) && negb (ch =? chr "%") then __pf_print [u8 ch]
  else if negb (in_pct f) then upd_field (set_in_pct true)
  else
    is_mod ← deref (strchr modchars ch);
    if bool_decide (is_Some is_mod) then __pf_modifier ch
    else
      is_int ← deref (strchr intchars ch);
      if bool_decide (is_Some is_int) then
        _ ← __pf_getnum ch;
        _ ← __pf_setbase ch;
        _ ← __pf_printnum;
        __pf_endfield
      else if ch =? chr "s" then
        s ← va_string;
        _ ← __pf_printstuff (literal "") (literal "") (default (literal "(null)") s);
        __pf_endfield
      else
        c ← (if ch =? chr "c" then va_word else mret ch);
        _ ← __pf_printstuff (literal "") (literal "") [u8 c; 0];
        __pf_endfield.

Fixpoint vprintf_loop (format : list Z) : P unit :=
  match format with
  | [] => undef
  | c :: format => if c =? 0 then mret () else _ ← __pf_send (s8 c); vprintf_loop format
  end.

Definition start_pf (ap : list va_arg) : PF :=
  {| pf_ap := ap; charcount := 0; pf_field := end_field |}.

Definition __vprintf (format : list Z) (ap : list va_arg) : M St Z := λ s,
  let '(r, (pf, s')) := vprintf_loop format (start_pf ap, s) in
  (match r with Ret _ => Ret (charcount pf) | Fail e => Fail e | Halt k => Halt k end, s').
End printf.

(** ** [snprintf] *)

Record SNP := { snp_buf : list Z; buflen : Z; bufpos : Z }.

Definition __snprintf_send (data : list Z) : M SNP unit :=
  forM data (λ c,
    snp ← get;
    if bufpos snp <? buflen snp then
      buf ← deref (zstore (snp_buf snp) (bufpos snp) c);
      put {| snp_buf := buf; buflen := buflen snp; bufpos := u32 (bufpos snp + 1) |}
    else mret ()).

(** The state is the buffer. *)
Definition vsnprintf (len : Z) (fmt : list Z) (ap : list va_arg) : M (list Z) Z := λ buf,
  let snp := {| snp_buf := buf; buflen := if len =? 0 then 0 else len - 1; bufpos := 0 |} in
  match __vprintf __snprintf_send fmt ap snp with
  | (Ret chars, snp') =>
      if len >? 0 then
        match zstore (snp_buf snp') (bufpos snp') 0 with
        | Some buf' => (Ret chars, buf')
        | None => (Halt Undef, snp_buf snp')
        end
      else (Ret chars, snp_buf snp')
  | (Fail e, snp') => (Fail e, snp_buf snp')
  | (Halt k, snp') => (Halt k, snp_buf snp')
  end.

Definition snprintf (len : Z) (fmt : list Z) (ap : list va_arg) : M (list Z) Z := vsnprintf len fmt ap.

(** ** Receivers

    The simplest receiver collects the text. *)
Definition collect (txt : list Z) : M (list Z) unit := modify (λ out, out ++ txt).

Section sink.
Context {St : Type} (sendfunc : list Z → M St unit) (absorb : list Z → St).
Context (Habsorb : ∀ out txt, sendfunc txt (absorb out) = (Ret (), absorb (out ++ txt))).

(** A computation with the receiver [sendfunc] does what the one that collects
    does, [absorb] giving the state of the receiver for the text so far. *)
Definition simulates {A} (m : M (PF * St) A) (m' : M (PF * list Z) A) : Prop := ∀ pf out,
  m (pf, absorb out) = let '(r, (pf', out')) := m' (pf, out) in (r, (pf', absorb out')).

Lemma simulates_ret {A} (a : A) : simulates (mret a) (mret a).
Proof. done. Qed.

Lemma simulates_bind {A B} m m' (k : A → M (PF * St) B) k' :
  simulates m m' → (∀ a, simulates (k a) (k' a)) → simulates (m ≫= k) (m' ≫= k').
Proof.
  intros Hm Hk pf out. unfold mbind, M_bind. rewrite Hm. destruct (m' (pf, out)) as [[a|e|s] [pf' out']]; [apply Hk|done..].
Qed.

Lemma simulates_fst {A} (m : M PF A) : simulates (on_fst m) (on_fst m).
Proof. intros pf out. unfold on_fst. simpl. by destruct (m pf). Qed.

Lemma simulates_deref {A} (o : option A) : simulates (deref o) (deref o).
Proof. by destruct o. Qed.

Lemma simulates_if {A} (b : bool) (m n : M (PF * St) A) m' n' :
  simulates m m' → simulates n n' → simulates (if b then m else n) (if b then m' else n').
Proof. by destruct b. Qed.

Lemma simulates_forM {X} (l : list X) body body' :
  (∀ x, simulates (body x) (body' x)) → simulates (forM l body) (forM l body').
Proof.
  intros Hb. induction l as [|x l IH]; simpl; [done|]. by apply simulates_bind.
Qed.

Lemma simulates_print txt : simulates (__pf_print sendfunc txt) (__pf_print collect txt).
Proof.
  apply simulates_bind; [|intros; apply simulates_fst]. intros pf out. unfold on_snd. simpl. by rewrite Habsorb.
Qed.

Ltac sim := repeat (intros; first
  [ done | apply simulates_ret | apply simulates_print | apply simulates_fst | apply simulates_deref
  | apply simulates_bind | apply simulates_if | apply simulates_forM | case_match ]).

Lemma simulates_fill spc : simulates (__pf_fill sendfunc spc) (__pf_fill collect spc).
Proof. unfold __pf_fill. sim. Qed.

Lemma simulates_printz s : simulates (pf_printz sendfunc s) (pf_printz collect s).
Proof. unfold pf_printz. sim. Qed.

Lemma simulates_printstuff a b c :
  simulates (__pf_printstuff sendfunc a b c) (__pf_printstuff collect a b c).
Proof.
  unfold __pf_printstuff. repeat first [apply simulates_fill | apply simulates_printz | progress sim].
Qed.

Lemma simulates_printnum_loop fuel base buf x xnum :
  simulates (printnum_loop fuel base buf x xnum) (printnum_loop fuel base buf x xnum).
Proof. revert buf x xnum. induction fuel as [|fuel IH]; intros; simpl; [done|]. sim. Qed.

Lemma simulates_printnum : simulates (__pf_printnum sendfunc) (__pf_printnum collect).
Proof.
  unfold __pf_printnum. apply simulates_bind; [apply simulates_fst|intros f].
  apply simulates_bind; [apply simulates_deref|intros buf].
  apply simulates_bind; [apply simulates_printnum_loop|intros [? ?]]. apply simulates_printstuff.
Qed.

Lemma simulates_va_word : simulates va_word va_word.
Proof. unfold va_word. sim. Qed.
Lemma simulates_va_string : simulates va_string va_string.
Proof. unfold va_string. sim. Qed.

Lemma simulates_send ch : simulates (__pf_send sendfunc ch) (__pf_send collect ch).
Proof.
  unfold __pf_send, __pf_modifier, __pf_getnum, __pf_setbase, __pf_endfield, upd_field, the_field.
  apply simulates_bind; [by destruct (ch =? 0)|intros _].
  repeat first [apply simulates_va_word | apply simulates_va_string | apply simulates_printstuff
               | apply simulates_printnum | progress sim].
Qed.

Lemma simulates_loop format : simulates (vprintf_loop sendfunc format) (vprintf_loop collect format).
Proof.
  induction format as [|c format IH]; simpl; [done|]. apply simulates_if; [done|].
  apply simulates_bind; [apply simulates_send|done].
Qed.

Lemma vprintf_sink format ap :
  __vprintf sendfunc format ap (absorb []) =
  let '(r, out) := __vprintf collect format ap [] in (r, absorb out).
Proof.
  unfold __vprintf. rewrite simulates_loop.
  by destruct (vprintf_loop collect format (start_pf ap, [])) as [r [pf out]].
Qed.
End sink.

(** ** The count

    Whatever the format and the arguments, the characters that were counted are
    those that were sent. *)
Section count.
Abbreviation P := (M (PF * list Z)).

Definition counted (st : PF * list Z) : Prop := charcount st.1 = s32 (zlen st.2).
Definition keeps_count {A} (m : P A) : Prop := ∀ st, counted st → counted (m st).2.

Lemma chars_ret {A} (a : A) : keeps_count (mret a).
Proof. by intros st Hst. Qed.

Lemma chars_bind {A B} (m : P A) (k : A → P B) :
  keeps_count m → (∀ a, keeps_count (k a)) → keeps_count (m ≫= k).
Proof.
  intros Hm Hk st Hst. specialize (Hm st Hst). unfold mbind, M_bind. destruct (m st) as [[a|e|s] st']; [by apply Hk|done..].
Qed.

Lemma chars_deref {A} (o : option A) : keeps_count (deref o).
Proof. intros st Hst. by destruct o. Qed.

Lemma chars_panic {A} : keeps_count (panic : P A).
Proof. by intros st Hst. Qed.

Lemma chars_assert b : keeps_count (assert b).
Proof. intros st Hst. by destruct b. Qed.

Lemma chars_forM {X} (l : list X) body : (∀ x, keeps_count (body x)) → keeps_count (forM l body).
Proof. intros Hb. induction l as [|x l IH]; simpl; [apply chars_ret|]. by apply chars_bind. Qed.

Lemma chars_upd g : keeps_count (upd_field g).
Proof. by intros [pf out] Hst. Qed.

Lemma chars_field : keeps_count the_field.
Proof. by intros [pf out] Hst. Qed.

Lemma s32_add a b : s32 (s32 a + b) = s32 (a + b).
Proof. unfold s32. change (2 ^ 31) with 2147483648. change (2 ^ 32) with 4294967296. Z.div_mod_to_equations. lia. Qed.

Lemma chars_print txt : keeps_count (__pf_print collect txt).
Proof. intros [pf out] Hst. unfold counted in *. simpl in *. by rewrite Hst, s32_add, zlen_app. Qed.

Lemma chars_va_word : keeps_count va_word.
Proof. intros [pf out] Hst. unfold va_word, mbind, M_bind. simpl. destruct (pf_ap pf) as [|[] ?]; exact Hst. Qed.
Lemma chars_va_string : keeps_count va_string.
Proof. intros [pf out] Hst. unfold va_string, mbind, M_bind. simpl. destruct (pf_ap pf) as [|[] ?]; exact Hst. Qed.

Lemma chars_fill spc : keeps_count (__pf_fill collect spc).
Proof. apply chars_bind; [apply chars_field|intros]. apply chars_forM. intros. apply chars_print. Qed.

Lemma chars_printz s : keeps_count (pf_printz collect s).
Proof. apply chars_bind; [apply chars_deref|intros]. apply chars_print. Qed.

Ltac count := repeat (intros; first
  [ apply chars_ret | apply chars_print | apply chars_fill | apply chars_printz | apply chars_deref | apply chars_upd
  | apply chars_field | apply chars_panic | apply chars_va_word | apply chars_va_string | apply chars_bind | case_match | done ]).

Lemma chars_printstuff a b c : keeps_count (__pf_printstuff collect a b c).
Proof. unfold __pf_printstuff. count. Qed.

Lemma chars_printnum_loop fuel base buf x xnum : keeps_count (printnum_loop fuel base buf x xnum).
Proof. revert buf x xnum. induction fuel as [|fuel IH]; intros; simpl; count. Qed.

Lemma chars_send ch : keeps_count (__pf_send collect ch).
Proof.
  unfold __pf_send, __pf_modifier, __pf_getnum, __pf_setbase, __pf_endfield. apply chars_bind; [apply chars_assert|intros _].
  repeat first [apply chars_printstuff | apply chars_printnum_loop | progress count].
Qed.

Lemma vprintf_counts format ap :
  match __vprintf collect format ap [] with (Ret chars, out) => chars = s32 (zlen out) | _ => True end.
Proof.
  assert (keeps_count (vprintf_loop collect format)) as Hl.
  { induction format as [|c format IH]; simpl; [by intros st Hst|]. case_match; [apply chars_ret|]. apply chars_bind; [apply chars_send|done]. }
  specialize (Hl (start_pf ap, []) eq_refl). unfold __vprintf, counted in *.
  by destruct (vprintf_loop collect format (start_pf ap, [])) as [[[]|e|k] [pf out]].
Qed.
End count.

(** ** The buffer of [snprintf] *)

(** The context after the text [out] was sent: as much of it as [n] characters. *)
Definition snp_after (buf : list Z) (n : Z) (out : list Z) : SNP :=
  let k := Nat.min (Z.to_nat n) (length out) in
  {| snp_buf := take k out ++ drop k buf; buflen := n; bufpos := Z.of_nat k |}.

Lemma snp_after_full buf n out c :
  (Z.to_nat n ≤ length out)%nat → snp_after buf n (out ++ [c]) = snp_after buf n out.
Proof.
  intros Hn. unfold snp_after. rewrite length_app. simpl. rewrite !Nat.min_l by lia.
  by rewrite take_app_le by lia.
Qed.

Lemma snp_after_room buf n out c :
  0 ≤ n ≤ zlen buf → Z.of_nat (length out) < n →
  zstore (snp_buf (snp_after buf n out)) (bufpos (snp_after buf n out)) c =
  Some (snp_buf (snp_after buf n (out ++ [c]))) ∧
  bufpos (snp_after buf n (out ++ [c])) = bufpos (snp_after buf n out) + 1.
Proof.
  unfold zlen. intros Hn Hl. unfold snp_after. cbn [snp_buf bufpos]. rewrite length_app. simpl.
  rewrite !Nat.min_r by lia. rewrite !firstn_all2 by (rewrite ?length_app; simpl; lia). split; [|lia].
  unfold zstore. rewrite decide_True by (rewrite length_app, length_drop; lia). rewrite Nat2Z.id. f_equal.
  rewrite insert_app_r_alt by lia. rewrite Nat.sub_diag.
  destruct (drop (length out) buf) as [|b rest] eqn:Hd.
  { apply (f_equal length) in Hd. rewrite length_drop in Hd. simpl in Hd. lia. }
  simpl. rewrite <- (app_assoc out). simpl. do 2 f_equal.
  replace (length out + 1)%nat with (S (length out)) by lia.
  rewrite <- (skipn_skipn 1), Hd. done.
Qed.

Lemma snprintf_send_after buf n txt : ∀ out,
  0 ≤ n < 2 ^ 32 → n ≤ zlen buf →
  __snprintf_send txt (snp_after buf n out) = (Ret (), snp_after buf n (out ++ txt)).
Proof.
  unfold __snprintf_send. induction txt as [|c txt IH]; intros out Hn Hb; simpl.
  { by rewrite app_nil_r. }
  replace (out ++ c :: txt) with ((out ++ [c]) ++ txt) by (by rewrite <- app_assoc).
  apply wp_eq_intro. wp_step. wp_step. wp_step.
  assert (bufpos (snp_after buf n out) = Z.of_nat (Nat.min (Z.to_nat n) (length out))) as Hp by done.
  change (buflen (snp_after buf n out)) with n. rewrite Hp.
  destruct (Z.ltb_spec (Z.of_nat (Nat.min (Z.to_nat n) (length out))) n) as [Hlt|Hge].
  - destruct (snp_after_room buf n out c) as [Hs Hb']; [lia..|]. rewrite Hp in Hs, Hb'.
    rewrite Hs. wp_steps. cbn [deref]. wp_steps. rewrite u32_small by (unfold is_u32; lia).
    rewrite <- Hb'. eapply wp_eq; [apply (IH (out ++ [c])); done|done].
  - wp_step. eapply wp_eq; [|done].
    rewrite <- (snp_after_full buf n out c) by lia. by apply IH.
Qed.

(** The buffer that holds [out], cut to [len] bytes with the terminator. *)
Definition printed_into (buf : list Z) (len : Z) (out : list Z) : list Z :=
  if len =? 0 then buf
  else let s := take (Z.to_nat (len - 1)) out in s ++ 0 :: drop (S (length s)) buf.

Lemma snprintf_spec buf len fmt ap :
  0 ≤ len < 2 ^ 32 → len ≤ zlen buf →
  match __vprintf collect fmt ap [] with
  | (Ret chars, out) => snprintf len fmt ap buf = (Ret chars, printed_into buf len out)
  | (r, out) => ∃ buf', snprintf len fmt ap buf = (r, buf') ∧ zlen buf' = zlen buf ∧
                  drop (Z.to_nat len) buf' = drop (Z.to_nat len) buf
  end.
Proof.
  intros Hl Hb. unfold snprintf, vsnprintf. set (n := if len =? 0 then 0 else len - 1).
  assert (n = Z.max 0 (len - 1)) as Hn by (unfold n; destruct (Z.eqb_spec len 0); lia).
  pose proof (vprintf_sink __snprintf_send (snp_after buf n)
    (λ out txt, snprintf_send_after buf n txt out ltac:(lia) ltac:(lia)) fmt ap) as Hsink.
  assert (snp_after buf n [] = {| snp_buf := buf; buflen := n; bufpos := 0 |}) as Hinit.
  { unfold snp_after. simpl. by rewrite Nat.min_0_r. }
  rewrite Hinit in Hsink. rewrite Hsink. clear Hsink Hinit.
  destruct (__vprintf collect fmt ap []) as [r out].
  set (k := Nat.min (Z.to_nat n) (length out)).
  assert (zlen (snp_buf (snp_after buf n out)) = zlen buf ∧
    drop (Z.to_nat len) (snp_buf (snp_after buf n out)) = drop (Z.to_nat len) buf) as [Hz Hd].
  { unfold zlen in *. cbn [snp_buf snp_after]. fold k. rewrite length_app, length_take, length_drop.
    split; [lia|]. rewrite skipn_app, length_take, skipn_skipn, (drop_ge (take k out)) by (rewrite length_take; lia).
    simpl. f_equal. lia. }
  destruct r as [chars|e|s]; [|by eauto..]. rewrite Z.gtb_ltb. unfold printed_into.
  destruct (Z.ltb_spec 0 len) as [Hpos|Hz0].
  - rewrite (proj2 (Z.eqb_neq len 0)) by lia. cbn [bufpos snp_buf snp_after]. fold k.
    unfold zstore, zlen in *. rewrite decide_True by (rewrite length_app, length_take, length_drop; lia).
    rewrite Nat2Z.id. f_equal. replace (Z.to_nat (len - 1)) with (Z.to_nat n) by lia.
    assert (take (Z.to_nat n) out = take k out) as Ht.
    { unfold k. destruct (Nat.min_spec (Z.to_nat n) (length out)) as [[_ ->]|[? ->]]; [done|].
      by rewrite !firstn_all2 by lia. }
    rewrite Ht, insert_app_r_alt by (rewrite length_take; lia). f_equal.
    assert (length (take k out) = k) as Hk by (rewrite length_take; lia). rewrite Hk, Nat.sub_diag.
    destruct (drop k buf) as [|b rest] eqn:Hdk.
    { apply (f_equal length) in Hdk. rewrite length_drop in Hdk. simpl in Hdk. lia. }
    simpl. f_equal. by rewrite <- (skipn_skipn 1), Hdk.
  - assert (len = 0) as -> by lia. replace k with 0%nat by lia. cbn [snp_buf snp_after]. fold k.
    replace k with 0%nat by lia. done.
Qed.

(** ** Numerals

    The reference: the text of a number in a base, most significant digit
    first. *)

Definition digit (d : Z) : Z := if d <? 10 then 48 + d else 87 + d.

Fixpoint numeral_go (fuel : nat) (b n : Z) : list Z :=
  match fuel with
  | O => []
  | S fuel => if n <? b then [digit n] else numeral_go fuel b (n / b) ++ [digit (n mod b)]
  end.
Definition numeral (b n : Z) : list Z := numeral_go (S (Z.to_nat (Z.log2 n))) b n.

Lemma numeral_fuel b n k k' :
  2 ≤ b → 0 ≤ n → n < 2 ^ Z.of_nat k → n < 2 ^ Z.of_nat k' → (0 < k)%nat → (0 < k')%nat →
  numeral_go k b n = numeral_go k' b n.
Proof.
  intros Hb. revert n k'. induction k as [|k IH]; intros n k' Hn Hk Hk' Hp Hp'; [lia|].
  destruct k' as [|k']; [lia|]. simpl. destruct (Z.ltb_spec n b) as [?|Hge]; [done|]. f_equal.
  assert (∀ j, n < 2 ^ Z.of_nat (S j) → n / b < 2 ^ Z.of_nat j) as Hdiv.
  { intros j Hj. apply Z.div_lt_upper_bound; [lia|]. rewrite Nat2Z.inj_succ, Z.pow_succ_r in Hj by lia. nia. }
  assert (1 ≤ n / b) by (apply Z.div_le_lower_bound; lia).
  assert (∀ j, n / b < 2 ^ Z.of_nat j → (0 < j)%nat) as Hpos by (intros [|j]; simpl; lia).
  apply IH; auto; lia.
Qed.

Lemma numeral_step b n :
  2 ≤ b → 0 ≤ n → numeral b n = if n <? b then [digit n] else numeral b (n / b) ++ [digit (n mod b)].
Proof.
  intros Hb Hn. unfold numeral at 1. simpl. destruct (Z.ltb_spec n b) as [?|Hge]; [done|]. f_equal.
  assert (1 ≤ n / b) by (apply Z.div_le_lower_bound; lia).
  assert (1 ≤ Z.log2 n) as Hlog.
  { change 1 with (Z.log2 2). apply Z.log2_le_mono. lia. }
  destruct (Z.log2_spec n) as [_ Hlt]; [lia|]. destruct (Z.log2_spec (n / b)) as [_ Hlt']; [lia|].
  pose proof (Z.log2_nonneg (n / b)). unfold numeral.
  apply numeral_fuel; [lia|lia| | |lia|lia].
  - rewrite Z2Nat.id by lia. apply Z.div_lt_upper_bound; [lia|]. rewrite Z.pow_succ_r in Hlt by lia. nia.
  - rewrite Nat2Z.inj_succ, Z2Nat.id by lia. done.
Qed.

(** Induction along the division by the base. *)
Lemma div_ind b (P : Z → Prop) :
  2 ≤ b → (∀ n, 0 ≤ n < b → P n) → (∀ n, b ≤ n → P (n / b) → P n) → ∀ n, 0 ≤ n → P n.
Proof.
  intros Hb Hbase Hstep n Hn. revert Hn. induction (Z.lt_wf 0 n) as [n _ IH]. intros Hn.
  destruct (decide (n < b)); [auto with lia|]. apply Hstep; [lia|].
  assert (0 ≤ n / b < n) by (split; [apply Z.div_pos; lia|apply Z.div_lt; lia]). apply IH; lia.
Qed.

Lemma numeral_length b n k : 2 ≤ b → 0 ≤ n < b ^ Z.of_nat (S k) → (1 ≤ length (numeral b n) ≤ S k)%nat.
Proof.
  intros Hb. revert n. induction k as [|k IH]; intros n [Hn Hk]; rewrite numeral_step by lia.
  - rewrite (proj2 (Z.ltb_lt n b)) by lia. simpl. lia.
  - destruct (Z.ltb_spec n b); [simpl; lia|]. rewrite length_app. simpl.
    enough (1 ≤ length (numeral b (n / b)) ≤ S k)%nat by lia. apply IH. split; [apply Z.div_pos; lia|].
    apply Z.div_lt_upper_bound; [lia|]. rewrite <- Z.pow_succ_r by lia. by rewrite <- Nat2Z.inj_succ.
Qed.

Lemma numeral_digits b n : 2 ≤ b ≤ 16 → 0 ≤ n → Forall (λ c, ∃ d, c = digit d ∧ 0 ≤ d < b) (numeral b n).
Proof.
  intros Hb Hn. revert n Hn. apply (div_ind b); [lia|..]; intros k Hk; [|intros IH]; rewrite numeral_step by lia.
  - rewrite (proj2 (Z.ltb_lt k b)) by lia. repeat constructor. eauto with lia.
  - rewrite (proj2 (Z.ltb_ge k b)) by lia. apply Forall_app. split; [done|]. repeat constructor.
    exists (k mod b). split; [done|]. apply Z.mod_pos_bound. lia.
Qed.

Lemma digit_nonzero d : 0 ≤ d → digit d ≠ 0.
Proof. unfold digit. case_match; lia. Qed.

Lemma numeral_nonzero b n : 2 ≤ b ≤ 16 → 0 ≤ n → Forall (λ c, c ≠ 0) (numeral b n).
Proof.
  intros Hb Hn. eapply Forall_impl; [by apply numeral_digits|]. intros c (d & -> & ?). apply digit_nonzero. lia.
Qed.

(** In base 10 it is the printer of the library. *)
Lemma pretty_go_numeral (x : N) (s : string) :
  (0 < x)%N → bytes (pretty_N_go x s) = numeral 10 (Z.of_N x) ++ bytes s.
Proof.
  revert s. induction (N.lt_wf_0 x) as [x _ IH]. intros s Hx. rewrite pretty_N_go_step by done.
  assert (∀ d, (d < 10)%N → chr (pretty_N_char d) = digit (Z.of_N d)) as Hdig.
  { intros d Hd. assert (d ∈ [0; 1; 2; 3; 4; 5; 6; 7; 8; 9]%N) as Hin by (rewrite !elem_of_cons; lia).
    revert Hin. clear. rewrite !elem_of_cons, elem_of_nil. intros Hin. by destruct_or! Hin; subst. }
  assert (x mod 10 < 10)%N as Hm by (by apply N.mod_lt).
  rewrite numeral_step by lia. destruct (Z.ltb_spec (Z.of_N x) 10) as [Hlt|Hge].
  - rewrite N.div_small, N.mod_small, pretty_N_go_0 by lia. cbn [bytes String.list_ascii_of_string fmap list_fmap].
    unfold bytes. simpl. by rewrite Hdig by lia.
  - assert (0 < x / 10)%N as Hd by (apply N.div_str_pos; lia).
    rewrite IH; [|apply N.div_lt; lia|done].
    unfold bytes at 1. simpl. rewrite Hdig by done. rewrite N2Z.inj_div, N2Z.inj_mod, <- app_assoc. done.
Qed.

Lemma numeral_pretty n : 0 ≤ n → numeral 10 n = bytes (pretty n).
Proof.
  intros Hn. destruct n as [|p|p]; [done| |lia].
  change (pretty (Z.pos p)) with (pretty_N_go (N.pos p) ""). rewrite pretty_go_numeral by lia. by rewrite app_nil_r.
Qed.

Lemma hexdigits_digit d : 0 ≤ d < 16 → hexdigits !z d = Some (digit d).
Proof.
  intros Hd. assert (d ∈ seqZ 0 16) as Hin by (apply elem_of_seqZ; lia). revert Hin. clear.
  change (seqZ 0 16) with [0; 1; 2; 3; 4; 5; 6; 7; 8; 9; 10; 11; 12; 13; 14; 15].
  rewrite !elem_of_cons, elem_of_nil. intros Hin. by destruct_or! Hin; subst.
Qed.

(** The loop writes the numeral to the left of the slot [x]. *)
Lemma printnum_loop_spec {T} fuel b buf x n (st : PF * T) Q :
  2 ≤ b ≤ 16 → 0 ≤ n < 2 ^ Z.of_nat fuel → (0 < fuel)%nat →
  Z.of_nat (length (numeral b n)) ≤ x + 1 → x < zlen buf →
  (∀ buf' x', -1 ≤ x' → drop (Z.to_nat (x' + 1)) buf' = numeral b n ++ drop (Z.to_nat (x + 1)) buf →
     Q (Ret (buf', x')) st) →
  wp (printnum_loop fuel b buf x n) Q st.
Proof.
  intros Hb. revert buf x n. induction fuel as [|fuel IH]; intros buf x n Hn Hf Hlen Hx HQ; [lia|].
  cbn [printnum_loop]. rewrite (proj2 (Z.eqb_neq b 0)) by lia. pose proof (Z.mod_pos_bound n b ltac:(lia)).
  wp_step. eapply wp_deref; [apply hexdigits_digit; lia|].
  pose proof (numeral_step b n ltac:(lia) ltac:(lia)) as Hnum.
  assert (0 ≤ x) as Hx0.
  { rewrite Hnum in Hlen. destruct (n <? b); [simpl in Hlen; lia|]. rewrite length_app in Hlen. simpl in Hlen. lia. }
  wp_step. eapply wp_deref; [apply zstore_in; lia|]. cbn zeta. set (buf1 := <[Z.to_nat x := digit (n mod b)]> buf).
  assert (drop (Z.to_nat x) buf1 = digit (n mod b) :: drop (Z.to_nat (x + 1)) buf) as Hd.
  { unfold buf1, zlen in *. replace (Z.to_nat (x + 1)) with (S (Z.to_nat x)) by lia.
    rewrite (drop_S _ (digit (n mod b))) by (apply list_lookup_insert_eq; lia).
    by rewrite drop_insert_lt by lia. }
  rewrite Z.gtb_ltb. destruct (Z.ltb_spec n b) as [Hlt|Hge].
  - rewrite Z.div_small by lia. change (0 <? 0) with false. cbv iota. rewrite Z.mod_small in Hd by lia. wp_step. apply HQ; [lia|].
    replace (x - 1 + 1) with x by lia. by rewrite Hd, Hnum.
  - assert (1 ≤ n / b) by (apply Z.div_le_lower_bound; lia).
    rewrite (proj2 (Z.ltb_lt 0 (n / b))) by lia. cbv iota. rewrite Hnum, length_app in Hlen. simpl in Hlen.
    apply IH; [|destruct fuel; [simpl in *; lia|lia]|lia|unfold buf1; rewrite zlen_insert; lia|].
    { split; [lia|]. apply Z.div_lt_upper_bound; [lia|]. rewrite Nat2Z.inj_succ, Z.pow_succ_r in Hn by lia. nia. }
    intros buf' x' Hx' Hdrop. apply HQ; [done|]. rewrite Hdrop. replace (x - 1 + 1) with x by lia.
    by rewrite Hd, Hnum, <- app_assoc.
Qed.

(** ** The text of a field *)

(** The state of printf, and of the receiver that collects, when [out] was
    sent: the arguments left and the field that is being read. *)
Definition at_text (ap : list va_arg) (f : field) (out : list Z) : PF * list Z :=
  ({| pf_ap := ap; charcount := s32 (zlen out); pf_field := f |}, out).

Lemma print_spec ap f out txt Q :
  Q (Ret ()) (at_text ap f (out ++ txt)) → wp (__pf_print collect txt) Q (at_text ap f out).
Proof.
  intros HQ. unfold __pf_print, collect, at_text. wp_steps. unfold set_charcount. simpl.
  unfold at_text in HQ. rewrite zlen_app in HQ.
  replace (s32 (s32 (zlen out) + zlen txt)) with (s32 (zlen out + zlen txt)); [done|].
  unfold s32. change (2 ^ 31) with 2147483648. change (2 ^ 32) with 4294967296. clear. Z.div_mod_to_equations. lia.
Qed.

Lemma the_field_spec ap f out Q : Q (Ret f) (at_text ap f out) → wp the_field Q (at_text ap f out).
Proof. intros HQ. unfold the_field, at_text. by wp_steps. Qed.

Lemma upd_field_spec g ap f out Q : Q (Ret ()) (at_text ap (g f) out) → wp (upd_field g) Q (at_text ap f out).
Proof. intros HQ. unfold upd_field, at_text. by wp_steps. Qed.

Lemma fill_spec ap f out spc Q :
  fillchar f = 32 ∨ fillchar f = 48 →
  Q (Ret ()) (at_text ap f (out ++ replicate (Z.to_nat spc) (fillchar f))) →
  wp (__pf_fill collect spc) Q (at_text ap f out).
Proof.
  intros Hc HQ. unfold __pf_fill. wp_step. apply the_field_spec.
  assert (u8 (fillchar f) = fillchar f) as -> by (by destruct Hc as [-> | ->]). set (c := fillchar f) in *.
  apply (wp_forM _ _ (λ i st, st = at_text ap f (out ++ replicate i c))).
  - by rewrite app_nil_r.
  - intros i x st _ ->. apply print_spec. by rewrite <- app_assoc, <- replicate_S_end.
  - intros st ->. by rewrite length_seqZ_nat.
Qed.

Lemma printz_spec a s ap f out Q :
  cstr a s → Q (Ret ()) (at_text ap f (out ++ s)) → wp (pf_printz collect a) Q (at_text ap f out).
Proof.
  intros Hs HQ. unfold pf_printz. wp_step. eapply wp_deref; [by apply strlen_cstr|].
  apply print_spec. destruct Hs as [_ [rest ->]]. unfold zlen. by rewrite Nat2Z.id, take_app_length.
Qed.

(** [pre] and [s] in a field of the width [w]: blanks go to the left of both,
    zeros between them, and a field aligned to the left is filled on the right. *)
Definition padded (left : bool) (c : Z) (w : Z) (pre s : list Z) : list Z :=
  let fill := replicate (Z.to_nat (w - zlen (pre ++ s))) c in
  if left then pre ++ s ++ fill
  else if c =? chr "0" then pre ++ fill ++ s
  else fill ++ pre ++ s.

Definition field_ok (f : field) : Prop :=
  (fillchar f = chr " " ∨ fillchar f = chr "0") ∧ 0 ≤ spacing f < 2 ^ 31.

Lemma printstuff_spec a b c p q s ap f out Q :
  field_ok f → cstr a p → cstr b q → cstr c s → zlen (p ++ q ++ s) < 2 ^ 31 →
  Q (Ret ()) (at_text ap f (out ++ padded (rightspc f) (fillchar f) (spacing f) (p ++ q) s)) →
  wp (__pf_printstuff collect a b c) Q (at_text ap f out).
Proof.
  intros [Hc Hw] Ha Hb Hs Hlen HQ. rewrite !zlen_app in Hlen.
  pose proof (zlen_nonneg p). pose proof (zlen_nonneg q). pose proof (zlen_nonneg s).
  unfold __pf_printstuff. wp_step. eapply wp_deref; [by apply strlen_cstr|].
  wp_step. eapply wp_deref; [by apply strlen_cstr|]. wp_step. eapply wp_deref; [by apply strlen_cstr|].
  wp_step. apply the_field_spec. cbn zeta. rewrite s32_small by lia.
  set (spc := if spacing f >? zlen p + zlen q + zlen s then s32 (spacing f - (zlen p + zlen q + zlen s)) else 0).
  assert (spc = Z.max 0 (spacing f - zlen ((p ++ q) ++ s))) as Hspc.
  { unfold spc. rewrite !zlen_app, Z.gtb_ltb. destruct (Z.ltb_spec (zlen p + zlen q + zlen s) (spacing f)); [|lia].
    rewrite s32_small; lia. }
  assert (replicate (Z.to_nat (spacing f - zlen ((p ++ q) ++ s))) (fillchar f) = replicate (Z.to_nat spc) (fillchar f)) as Hfill.
  { f_equal. lia. }
  assert (∀ Q' out' (k : bool), (k = true → Q' (Ret ()) (at_text ap f (out' ++ replicate (Z.to_nat spc) (fillchar f)))) →
    (k = false → Q' (Ret ()) (at_text ap f out')) →
    wp (if (spc >? 0) && k then __pf_fill collect spc else mret ()) Q' (at_text ap f out')) as Hpad.
  { intros Q' out' k Ht Hf. rewrite Z.gtb_ltb. destruct (Z.ltb_spec 0 spc) as [Hpos|Hz], k; cbn [andb].
    - apply fill_spec; auto.
    - wp_step. auto.
    - wp_step. replace spc with 0 in Ht by lia. rewrite app_nil_r in Ht. auto.
    - wp_step. auto. }
  unfold padded in HQ. rewrite Hfill in HQ.
  rewrite <- !andb_assoc. wp_step. apply Hpad; intros Hk1; wp_step; (eapply printz_spec; [done|]);
    wp_step; (eapply printz_spec; [done|]); wp_step; rewrite <- ?andb_assoc; apply Hpad; intros Hk2; wp_step;
    (eapply printz_spec; [done|]); apply Hpad; intros Hk3;
    destruct (rightspc f), (fillchar f =? chr "0"); try done;
    rewrite <- ?app_assoc in *; exact HQ.
Qed.

Lemma literal_cstr s : Forall (λ c, c ≠ 0) (bytes s) → cstr (literal s) (bytes s).
Proof. intros. split; [done|]. by exists []. Qed.

Definition sign_text (neg : bool) : list Z := if neg then bytes "-" else [].
Definition prefix_text (pre : bool) (b : Z) : list Z :=
  if pre && (b =? 16) then bytes "0x" else if pre && (b =? 8) then bytes "0" else [].

Lemma number_length b n :
  b = 8 ∨ b = 10 ∨ b = 16 → is_u32 n → (1 ≤ length (numeral b n) ≤ 11)%nat.
Proof.
  unfold is_u32. intros Hb Hn. apply numeral_length; [lia|]. split; [lia|].
  destruct Hb as [-> | [-> | ->]]; [change (8 ^ _) with 8589934592|change (10 ^ _) with 100000000000
    |change (16 ^ _) with 17592186044416]; lia.
Qed.

(** The number buffer is large enough for every number in every base. *)
Lemma printnum_spec ap f out Q :
  field_ok f → pf_base f = 8 ∨ pf_base f = 10 ∨ pf_base f = 16 → is_u32 (pf_num f) →
  Q (Ret ()) (at_text ap f (out ++ padded (rightspc f) (fillchar f) (spacing f)
    (sign_text (pf_sign f) ++ prefix_text (baseprefix f) (pf_base f)) (numeral (pf_base f) (pf_num f)))) →
  wp (__pf_printnum collect) Q (at_text ap f out).
Proof.
  intros Hf Hb Hn HQ. pose proof (number_length _ _ Hb Hn) as Hlen.
  unfold __pf_printnum. wp_step. apply the_field_spec. cbn zeta. change NUMBER_BUF_SIZE with 12.
  wp_step. eapply wp_deref; [done|]. wp_step.
  apply printnum_loop_spec; [lia|unfold is_u32 in Hn; change (Z.of_nat 32) with 32; lia|lia|lia|done|].
  intros buf x Hx Hbuf. change (Z.to_nat (12 - 1 - 1 + 1)) with 11%nat in Hbuf. cbn zeta. simpl in Hbuf.
  eapply (printstuff_spec _ _ _ (sign_text (pf_sign f)) (prefix_text (baseprefix f) (pf_base f))); [done|..|exact HQ].
  - unfold sign_text. destruct (pf_sign f); (split; [repeat constructor; discriminate|by exists []]).
  - unfold prefix_text. destruct (baseprefix f), (pf_base f =? 16), (pf_base f =? 8);
      (split; [repeat constructor; discriminate|by exists []]).
  - rewrite Hbuf. split; [apply numeral_nonzero; [lia|apply Hn]|by exists []].
  - unfold zlen. rewrite !length_app. unfold sign_text, prefix_text.
    destruct (pf_sign f), (baseprefix f), (pf_base f =? 16), (pf_base f =? 8); simpl; lia.
Qed.

(** ** Formats

    A format is a sequence of plain characters and fields; a field has flags, a
    width and a conversion. *)

Module Format.

Record directive := { d_alt : bool; d_left : bool; d_zero : bool; d_width : Z; d_long : bool }.

Inductive item :=
  | plain (c : Z)
  | number (d : directive) (conv : Z) (w : Z)
  | text (d : directive) (obj : option (list Z)) (s : list Z)
  | char (d : directive) (c : Z)
  | other (d : directive) (c : Z).

Definition flag (b : bool) (c : Z) : list Z := if b then [c] else [].

Definition directive_text (d : directive) : list Z :=
  flag (d_alt d) (chr "#") ++ flag (d_left d) (chr "-") ++ flag (d_zero d) (chr "0") ++
  (if d_width d =? 0 then [] else numeral 10 (d_width d)) ++ flag (d_long d) (chr "l").

Definition item_format (i : item) : list Z :=
  match i with
  | plain c => [c]
  | number d conv _ => chr "%" :: directive_text d ++ [conv]
  | text d _ _ => chr "%" :: directive_text d ++ [chr "s"]
  | char d _ => chr "%" :: directive_text d ++ [chr "c"]
  | other d c => chr "%" :: directive_text d ++ [c]
  end.

Definition item_args (i : item) : list va_arg :=
  match i with
  | number _ _ w | char _ w => [arg_word w]
  | text _ obj _ => [arg_str obj]
  | _ => []
  end.

Definition in_field (d : directive) (pre s : list Z) : list Z :=
  padded (d_left d) (if d_zero d then chr "0" else chr " ") (d_width d) pre s.

(** The base of a conversion. *)
Definition conv_base (conv : Z) : Z :=
  if (conv =? chr "d") || (conv =? chr "u") then 10 else if conv =? chr "o" then 8 else 16.

Definition item_text (i : item) : list Z :=
  match i with
  | plain c => [c]
  | number d conv w =>
      let pre := prefix_text (d_alt d || (conv =? chr "p")) (conv_base conv) in
      if conv =? chr "d" then in_field d (sign_text (s32 w <? 0) ++ pre) (numeral 10 (Z.abs (s32 w)))
      else in_field d pre (numeral (conv_base conv) (u32 w))
  | text d _ s => in_field d [] s
  | char d c => in_field d [] (if u8 c =? 0 then [] else [u8 c])
  | other d c => in_field d [] [c]
  end.

Definition directive_ok (d : directive) : Prop := 0 ≤ d_width d < 2 ^ 31.

Definition item_ok (i : item) : Prop :=
  match i with
  | plain c => is_u8 c ∧ c ≠ 0 ∧ c ≠ chr "%"
  | number d conv _ => directive_ok d ∧ conv ∈ bytes "doupx"
  | text d obj s => directive_ok d ∧ zlen s < 2 ^ 31 ∧
      match obj with Some a => cstr a s | None => s = bytes "(null)" end
  | char d _ => directive_ok d
  | other d c => directive_ok d ∧ is_u8 c ∧ c ≠ 0 ∧ (c ∉ bytes "#-ql0123456789doupxXsc")
  end.

Lemma u8_s8 c : is_u8 c → u8 (s8 c) = c.
Proof.
  unfold is_u8, s8, u8. change (2 ^ 7) with 128. change (2 ^ 8) with 256. intros. Z.div_mod_to_equations. lia.
Qed.

Definition modifiers : list Z := bytes "#-ql0123456789".
Definition conversions : list Z := bytes "doupx".

Lemma strchr_bytes s c :
  Forall (λ c, is_u8 c ∧ c ≠ 0) (bytes s) → is_u8 c → c ≠ 0 →
  ∃ r, strchr (literal s) (s8 c) = Some r ∧ bool_decide (is_Some r) = bool_decide (c ∈ bytes s).
Proof.
  intros Hs Hc Hne. unfold literal. induction Hs as [|x l [Hx Hx0] _ IH]; simpl.
  - pose proof (s8_zero c Hc Hne). exists None. by destruct (s8 c).
  - rewrite (proj2 (Z.eqb_neq x 0)) by done. destruct (Z.eqb_spec (s8 x) (s8 c)) as [Heq|Hneq].
    + apply s8_inj in Heq as ->; [|done..]. exists (Some 0%nat). split; [done|].
      rewrite !bool_decide_true; [done|left|by eexists].
    + destruct IH as (r & -> & Hr). exists (fmap (M:=option) S r). split; [done|].
      transitivity (bool_decide (is_Some r)).
      * by destruct r.
      * rewrite Hr. apply bool_decide_ext. rewrite elem_of_cons. split; [by right|]. intros [->|?]; done.
Qed.

(** One character of a format. *)
Lemma loop_cons c rest st Q :
  c ≠ 0 →
  wp (__pf_send collect (s8 c)) (λ r st', match r with
      | Ret _ => wp (vprintf_loop collect rest) Q st'
      | Fail e => Q (Fail e) st'
      | Halt k => Q (Halt k) st'
      end) st →
  wp (vprintf_loop collect (c :: rest)) Q st.
Proof. intros Hc Hs. cbn [vprintf_loop]. rewrite (proj2 (Z.eqb_neq c 0)) by done. by wp_step. Qed.

Lemma modifiers_ok : Forall (λ c, is_u8 c ∧ c ≠ 0) modifiers.
Proof. by apply (bool_decide_unpack _). Qed.
Lemma conversions_ok : Forall (λ c, is_u8 c ∧ c ≠ 0) conversions.
Proof. by apply (bool_decide_unpack _). Qed.

(** The start of [__pf_send] inside a field. *)
Lemma send_field_spec c ap f out Q :
  is_u8 c → c ≠ 0 → in_pct f = true →
  (c ∈ modifiers → wp (__pf_modifier (s8 c)) Q (at_text ap f out)) →
  (c ∉ modifiers → c ∈ conversions →
     wp (_ ← __pf_getnum (s8 c); _ ← __pf_setbase (s8 c); _ ← __pf_printnum collect; __pf_endfield) Q (at_text ap f out)) →
  (c ∉ modifiers → c ∉ conversions →
     wp (if s8 c =? chr "s" then
           s ← va_string;
           _ ← __pf_printstuff collect (literal "") (literal "") (default (literal "(null)") s);
           __pf_endfield
         else
           c ← (if s8 c =? chr "c" then va_word else mret (s8 c));
           _ ← __pf_printstuff collect (literal "") (literal "") [u8 c; 0];
           __pf_endfield) Q (at_text ap f out)) →
  wp (__pf_send collect (s8 c)) Q (at_text ap f out).
Proof.
  intros Hc Hne Hin Hm Hi Ho. unfold __pf_send. wp_step. apply wp_assert.
  { rewrite (proj2 (Z.eqb_neq (s8 c) 0)); [done|]. by apply s8_zero. }
  wp_step. apply the_field_spec. rewrite Hin. cbn [negb andb]. cbv iota.
  destruct (strchr_bytes "#-ql0123456789" c modifiers_ok Hc Hne) as (r & Hr & Hbr).
  wp_step. eapply wp_deref; [exact Hr|]. rewrite Hbr. clear Hbr. case_bool_decide; [by apply Hm|].
  destruct (strchr_bytes "doupx" c conversions_ok Hc Hne) as (r2 & Hr2 & Hbr2).
  wp_step. eapply wp_deref; [exact Hr2|]. rewrite Hbr2. clear Hbr2. case_bool_decide; [by apply Hi|by apply Ho].
Qed.

Lemma send_other_spec c ap f out Q :
  is_u8 c → c ≠ 0 → in_pct f = true → (c ∉ modifiers) → (c ∉ conversions) →
  wp (if s8 c =? chr "s" then
        s ← va_string;
        _ ← __pf_printstuff collect (literal "") (literal "") (default (literal "(null)") s);
        __pf_endfield
      else
        c ← (if s8 c =? chr "c" then va_word else mret (s8 c));
        _ ← __pf_printstuff collect (literal "") (literal "") [u8 c; 0];
        __pf_endfield) Q (at_text ap f out) →
  wp (__pf_send collect (s8 c)) Q (at_text ap f out).
Proof. intros. by apply send_field_spec. Qed.

Definition set_spacing (n : Z) (f : field) : field :=
  {| in_pct := in_pct f; intsz := intsz f; pf_num := pf_num f; pf_sign := pf_sign f; spacing := n;
     rightspc := rightspc f; fillchar := fillchar f; pf_base := pf_base f;
     baseprefix := baseprefix f; altformat := altformat f |}.

Lemma modifier_spec c f f' ap out Q :
  modifier_field c f = Some f' → Q (Ret ()) (at_text ap f' out) → wp (__pf_modifier c) Q (at_text ap f out).
Proof.
  intros Hm HQ. unfold __pf_modifier. wp_step. apply the_field_spec. rewrite Hm. by apply upd_field_spec.
Qed.

(** A modifier character. *)
Lemma loop_modifier c rest f f' ap out Q :
  c ∈ modifiers → in_pct f = true → modifier_field c f = Some f' →
  wp (vprintf_loop collect rest) Q (at_text ap f' out) →
  wp (vprintf_loop collect (c :: rest)) Q (at_text ap f out).
Proof.
  intros Hc Hin Hm HQ. pose proof (proj1 (Forall_forall _ _) modifiers_ok c Hc) as [Hu Hz].
  assert (s8 c = c) as Hs.
  { clear -Hc. unfold modifiers in Hc. cbn in Hc. rewrite !elem_of_cons, elem_of_nil in Hc. by destruct_or! Hc; subst. }
  apply loop_cons; [done|]. apply send_field_spec; [done..| |done|done]. intros _. rewrite Hs.
  by eapply modifier_spec.
Qed.

Lemma digit_modifier d : 0 ≤ d < 10 → digit d ∈ modifiers.
Proof.
  intros Hd. assert (d ∈ seqZ 0 10) as Hin by (apply elem_of_seqZ; lia). revert Hin. clear.
  change (seqZ 0 10) with [0; 1; 2; 3; 4; 5; 6; 7; 8; 9].
  rewrite !elem_of_cons, elem_of_nil. intros Hin. by destruct_or! Hin; subst; apply (bool_decide_unpack _).
Qed.

Lemma digit_field d f :
  0 ≤ d < 10 → 0 ≤ spacing f → 0 < spacing f * 10 + d < 2 ^ 31 →
  modifier_field (digit d) f = Some (set_spacing (spacing f * 10 + d) f).
Proof.
  intros Hd Hs Hr. unfold digit. rewrite (proj2 (Z.ltb_lt d 10)) by lia. unfold modifier_field.
  change (chr "#") with 35. change (chr "-") with 45. change (chr "l") with 108. change (chr "q") with 113.
  change (chr "0") with 48. change (chr "9") with 57.
  rewrite !(proj2 (Z.eqb_neq (48 + d) _)) by lia. cbn [orb]. destruct (Z.eqb_spec (48 + d) 48) as [He|He].
  - rewrite Z.gtb_ltb, (proj2 (Z.ltb_lt 0 (spacing f))) by lia. rewrite s32_small by lia. unfold set_spacing. repeat f_equal. lia.
  - rewrite Z.gtb_ltb, (proj2 (Z.ltb_lt 48 (48 + d))), (proj2 (Z.leb_le (48 + d) 57)) by lia. cbn [andb].
    replace (48 + d - 48) with d by lia. by rewrite s32_small by lia.
Qed.

(** The digits of the width. *)
Lemma loop_width w : 1 ≤ w < 2 ^ 31 → ∀ rest f ap out Q,
  in_pct f = true → spacing f = 0 →
  wp (vprintf_loop collect rest) Q (at_text ap (set_spacing w f) out) →
  wp (vprintf_loop collect (numeral 10 w ++ rest)) Q (at_text ap f out).
Proof.
  intros Hw. assert (0 ≤ w) as Hw0 by lia. revert Hw. pattern w. apply (div_ind 10); [lia|..|done]; clear w Hw0.
  - intros d Hd Hr rest f ap out Q Hin Hsp HQ. rewrite numeral_step, (proj2 (Z.ltb_lt d 10)) by lia.
    eapply loop_modifier; [by apply digit_modifier|done|apply digit_field; lia|]. by rewrite Hsp.
  - intros n Hn IH Hr rest f ap out Q Hin Hsp HQ. rewrite numeral_step, (proj2 (Z.ltb_ge n 10)), <- app_assoc by lia.
    pose proof (Z.mod_pos_bound n 10). pose proof (Z.div_mod n 10). apply IH; [lia|done|done|].
    eapply loop_modifier; [apply digit_modifier; lia|done|apply digit_field; simpl; lia|]. cbn [spacing set_spacing].
    replace (n / 10 * 10 + n mod 10) with n by lia. exact HQ.
Qed.

(** The field of a directive. *)
Definition directive_field (d : directive) : field :=
  {| in_pct := true; intsz := if d_long d then LONGSZ else INTSZ; pf_num := 0; pf_sign := false;
     spacing := d_width d; rightspc := d_left d; fillchar := if d_zero d then chr "0" else chr " ";
     pf_base := 0; baseprefix := false; altformat := d_alt d |}.

Lemma loop_flag (b : bool) c rest f f' ap out Q :
  c ∈ modifiers → in_pct f = true → (b = true → modifier_field c f = Some f') → (b = false → f = f') →
  wp (vprintf_loop collect rest) Q (at_text ap f' out) →
  wp (vprintf_loop collect (flag b c ++ rest)) Q (at_text ap f out).
Proof.
  intros Hc Hin Ht Hf HQ. destruct b; simpl; [by eapply loop_modifier; auto|by rewrite Hf].
Qed.

Lemma loop_directive d rest ap out Q :
  directive_ok d → wp (vprintf_loop collect rest) Q (at_text ap (directive_field d) out) →
  wp (vprintf_loop collect (chr "%" :: directive_text d ++ rest)) Q (at_text ap end_field out).
Proof.
  intros Hd HQ. apply loop_cons; [done|]. unfold __pf_send. wp_step. apply wp_assert; [done|]. wp_step.
  apply the_field_spec. change (s8 (chr "%")) with (chr "%"). rewrite Z.eqb_refl. cbn [negb andb in_pct end_field]. cbv iota.
  apply upd_field_spec. unfold directive_text. rewrite <- !app_assoc. destruct d as [alt lft zero w long]. simpl.
  eapply (loop_flag alt _ _ _ (directive_field (Build_directive alt false false 0 false)));
    [by apply (bool_decide_unpack _)|done|by intros ->|by intros ->|].
  eapply (loop_flag lft _ _ _ (directive_field (Build_directive alt lft false 0 false)));
    [by apply (bool_decide_unpack _)|done|by intros ->|by intros ->|].
  eapply (loop_flag zero _ _ _ (directive_field (Build_directive alt lft zero 0 false)));
    [by apply (bool_decide_unpack _)|done|by intros ->|by intros ->|].
  assert (wp (vprintf_loop collect (flag long (chr "l") ++ rest)) Q
    (at_text ap (directive_field (Build_directive alt lft zero w false)) out)) as Hl.
  { eapply loop_flag; [by apply (bool_decide_unpack _)|done| | |exact HQ]; by intros ->. }
  destruct (Z.eqb_spec w 0) as [->|Hw]; [exact Hl|]. unfold directive_ok in Hd. simpl in Hd.
  apply loop_width; [lia|done|done|exact Hl].
Qed.

Lemma va_word_spec w ap f out Q :
  Q (Ret w) (at_text ap f out) → wp va_word Q (at_text (arg_word w :: ap) f out).
Proof. intros HQ. unfold va_word, at_text. wp_steps. cbn [pf_ap]. by wp_steps. Qed.

Lemma va_string_spec s ap f out Q :
  Q (Ret s) (at_text ap f out) → wp va_string Q (at_text (arg_str s :: ap) f out).
Proof. intros HQ. unfold va_string, at_text. wp_steps. cbn [pf_ap]. by wp_steps. Qed.

Lemma directive_field_ok d : directive_ok d → field_ok (directive_field d).
Proof. intros Hd. split; [simpl; destruct (d_zero d); auto|done]. Qed.

Lemma conversions_inv conv : conv ∈ conversions →
  conv = chr "d" ∨ conv = chr "o" ∨ conv = chr "u" ∨ conv = chr "p" ∨ conv = chr "x".
Proof.
  unfold conversions. cbn [bytes String.list_ascii_of_string fmap list_fmap].
  rewrite !elem_of_cons, elem_of_nil. tauto.
Qed.

(** The value and the sign of a number. *)
Definition number_sign (conv w : Z) : bool := (conv =? chr "d") && (s32 w <? 0).
Definition number_value (conv w : Z) : Z := if conv =? chr "d" then Z.abs (s32 w) else u32 w.

Lemma number_value_u32 conv w : is_u32 (number_value conv w).
Proof.
  unfold number_value. destruct (conv =? chr "d"); [|apply u32_range]. pose proof (s32_range w). unfold is_u32. lia.
Qed.

Lemma getnum_spec conv w ap f out Q :
  pf_sign f = false →
  Q (Ret ()) (at_text ap (set_num (number_value conv w) (number_sign conv w) f) out) →
  wp (__pf_getnum conv) Q (at_text (arg_word w :: ap) f out).
Proof.
  intros Hs HQ. unfold __pf_getnum, number_value, number_sign in *. wp_step. apply va_word_spec.
  pose proof (s32_range w).
  destruct (conv =? chr "d"); [|apply upd_field_spec; by rewrite Hs]. cbn zeta. cbn [andb] in HQ.
  destruct (Z.ltb_spec (s32 w) 0); apply upd_field_spec.
  - by rewrite u32_small, <- Z.abs_neq by (unfold is_u32; lia).
  - rewrite Hs. by rewrite Z.abs_eq in HQ by lia.
Qed.

Lemma loop_number d conv w rest ap out Q :
  directive_ok d → conv ∈ conversions →
  wp (vprintf_loop collect rest) Q (at_text ap end_field (out ++ item_text (number d conv w))) →
  wp (vprintf_loop collect (conv :: rest)) Q (at_text (arg_word w :: ap) (directive_field d) out).
Proof.
  intros Hd Hc HQ. pose proof (proj1 (Forall_forall _ _) conversions_ok conv Hc) as [Hu Hz].
  assert (s8 conv = conv ∧ (conv ∉ modifiers)) as [Hs Hm].
  { apply conversions_inv in Hc. destruct_or! Hc; subst; split; try done; by apply (bool_decide_unpack _). }
  apply loop_cons; [done|]. apply send_field_spec; [done|done|done|done| |done]. intros _ _. rewrite Hs.
  wp_step. apply getnum_spec; [done|]. wp_step. apply upd_field_spec. cbn zeta. wp_step. apply printnum_spec.
  - by apply directive_field_ok.
  - simpl. apply conversions_inv in Hc. destruct_or! Hc; subst; simpl; auto.
  - simpl. apply number_value_u32.
  - apply upd_field_spec. simpl. rewrite orb_false_r. unfold item_text, in_field, number_sign, number_value in *.
    apply conversions_inv in Hc. destruct_or! Hc; subst; exact HQ.
Qed.

(** One item of a format. *)
Lemma loop_item i rest ap out Q :
  item_ok i → wp (vprintf_loop collect rest) Q (at_text ap end_field (out ++ item_text i)) →
  wp (vprintf_loop collect (item_format i ++ rest)) Q (at_text (item_args i ++ ap) end_field out).
Proof.
  assert (cstr (literal "") []) as Hnil by (by apply (literal_cstr "")).
  destruct i as [c|d conv w|d obj s|d c|d c]; simpl; intros Hok HQ.
  - destruct Hok as (Hu & Hz & Hp). apply loop_cons; [done|]. unfold __pf_send. wp_step. apply wp_assert.
    { rewrite (proj2 (Z.eqb_neq (s8 c) 0)); [done|]. by apply s8_zero. }
    wp_step. apply the_field_spec. cbn [in_pct end_field negb andb].
    rewrite (proj2 (Z.eqb_neq (s8 c) (chr "%"))).
    + cbn [negb]. cbv iota. apply print_spec. by rewrite u8_s8.
    + intros Heq. apply Hp, s8_inj; [done|by apply (bool_decide_unpack _)|done].
  - destruct Hok as [Hd Hc]. rewrite <- app_assoc. apply loop_directive; [done|]. by apply (loop_number d).
  - destruct Hok as (Hd & Hl & Hs). rewrite <- app_assoc. apply loop_directive; [done|]. cbn [app].
    apply loop_cons; [done|]. apply send_other_spec; [by apply (bool_decide_unpack _)|done|done|by apply (bool_decide_unpack _)..|]. cbv iota. change (s8 (chr "s") =? chr "s") with true. cbv iota. wp_step. apply va_string_spec.
    wp_step. eapply (printstuff_spec _ _ _ [] []); [by apply directive_field_ok|done|done| |done|].
    { destruct obj; [exact Hs|]. subst s. apply literal_cstr. by apply (bool_decide_unpack _). }
    apply upd_field_spec. exact HQ.
  - rewrite <- app_assoc. apply loop_directive; [done|]. cbn [app].
    apply loop_cons; [done|]. apply send_other_spec; [by apply (bool_decide_unpack _)|done|done|by apply (bool_decide_unpack _)..|]. change (s8 (chr "c") =? chr "s") with false. change (s8 (chr "c") =? chr "c") with true. cbv iota.
    wp_step. apply va_word_spec. wp_step.
    eapply (printstuff_spec _ _ _ [] [] (if u8 c =? 0 then [] else [u8 c])); [by apply directive_field_ok|done|done|..].
    + destruct (Z.eqb_spec (u8 c) 0) as [->|Hc]; [by apply cstr_nil|]. apply cstr_push; [done|by apply cstr_nil].
    + by destruct (u8 c =? 0).
    + apply upd_field_spec. exact HQ.
  - destruct Hok as (Hd & Hu & Hz & Hn). rewrite <- app_assoc. apply loop_directive; [done|]. cbn [app].
    assert (∀ x, chr x ∈ bytes "#-ql0123456789doupxXsc" → c ≠ chr x) as Hx by (intros x Hx ->; done).
    assert (∀ x, is_u8 (chr x) → s8 (chr x) = chr x → c ≠ chr x → (s8 c =? chr x) = false) as Hs8.
    { intros x H1 H2 H3. apply Z.eqb_neq. intros Heq. apply H3, s8_inj; [done|done|congruence]. }
    change (bytes _) with (modifiers ++ conversions ++ bytes "Xsc") in Hn. rewrite !not_elem_of_app in Hn.
    destruct Hn as (Hn1 & Hn2 & _). apply loop_cons; [done|]. apply send_other_spec; [done..|].
    assert ((s8 c =? chr "s") = false) as ->.
    { apply Hs8; [by apply (bool_decide_unpack _)|done|]. apply Hx. by apply (bool_decide_unpack _). }
    assert ((s8 c =? chr "c") = false) as ->.
    { apply Hs8; [by apply (bool_decide_unpack _)|done|]. apply Hx. by apply (bool_decide_unpack _). }
    cbv iota. wp_steps. rewrite u8_s8 by done.
    eapply (printstuff_spec _ _ _ [] [] [c]); [by apply directive_field_ok|done|done| |done|].
    { apply cstr_push; [done|by apply cstr_nil]. }
    apply upd_field_spec. exact HQ.
Qed.
End Format.

(** ** Properties *)

Section properties.
Import Format.

Lemma vprintf_items items rest :
  Forall item_ok items →
  let out := concat (item_text <$> items) in
  __vprintf collect (concat (item_format <$> items) ++ 0 :: rest) (concat (item_args <$> items)) [] =
  (Ret (s32 (zlen out)), out).
Proof.
  intros Hok out. unfold __vprintf.
  enough (∀ out0, wp (vprintf_loop collect (concat (item_format <$> items) ++ 0 :: rest))
    (λ r st, r = Ret () ∧ st = at_text [] end_field (out0 ++ out))
    (at_text (concat (item_args <$> items)) end_field out0)) as Hw.
  { specialize (Hw []). change (at_text _ end_field []) with (start_pf (concat (item_args <$> items)), @nil Z) in Hw.
    apply wp_run in Hw as (r & st & -> & -> & ->). done. }
  unfold out. clear out. induction Hok as [|i items Hi _ IH]; intros out0.
  - split; [done|]. simpl. by rewrite app_nil_r.
  - rewrite !fmap_cons. cbn [concat]. rewrite <- !app_assoc. apply loop_item; [done|].
    eapply wp_mono; [apply IH|]. intros r st [-> ->]. by rewrite <- !app_assoc.
Qed.

Definition no_flags : directive :=
  {| d_alt := false; d_left := false; d_zero := false; d_width := 0; d_long := false |}.

Lemma padded_0 l c pre s : padded l c 0 pre s = pre ++ s.
Proof.
  unfold padded. replace (Z.to_nat (0 - zlen (pre ++ s))) with 0%nat by (pose proof (zlen_nonneg (pre ++ s)); lia).
  simpl. rewrite app_nil_r. by destruct l, (c =? chr "0").
Qed.

(** The text of an integer. *)
Definition int_text (z : Z) : list Z := sign_text (z <? 0) ++ numeral 10 (Z.abs z).

Lemma int_text_pretty z : int_text z = bytes (pretty z).
Proof.
  unfold int_text. rewrite numeral_pretty by lia. destruct z as [|p|p]; done.
Qed.

Lemma int_text_length z : - 2 ^ 31 ≤ z < 2 ^ 31 → 1 ≤ zlen (int_text z) ≤ 11.
Proof.
  intros Hz. unfold int_text. rewrite zlen_app. unfold zlen.
  pose proof (numeral_length 10 (Z.abs z) 9 ltac:(lia)) as Hl. change (10 ^ Z.of_nat 10) with 10000000000 in Hl.
  destruct (z <? 0); simpl sign_text; simpl length; lia.
Qed.

Lemma print_int z :
  - 2 ^ 31 ≤ z < 2 ^ 31 →
  __vprintf collect (literal "%d") [arg_word z] [] = (Ret (zlen (int_text z)), int_text z).
Proof.
  intros Hz. pose proof (int_text_length z Hz).
  pose proof (vprintf_items [number no_flags (chr "d") z] []) as Hp. simpl in Hp.
  change (literal "%d") with [chr "%"; chr "d"; 0]. rewrite Hp by (repeat constructor; done).
  unfold in_field. rewrite padded_0, !app_nil_r, (s32_small z) by lia. fold (int_text z). by rewrite s32_small by lia.
Qed.

Lemma dec_value_app a c : dec_value (a ++ [c]) = dec_value a * 10 + (c - 48).
Proof. unfold dec_value. by rewrite foldl_app. Qed.

Lemma numeral_value n : 0 ≤ n → dec_value (numeral 10 n) = n ∧ Forall is_digit (numeral 10 n).
Proof.
  intros Hn. pattern n. apply (div_ind 10); [lia|..|done]; clear n Hn.
  - intros n Hn. rewrite numeral_step, (proj2 (Z.ltb_lt n 10)) by lia. unfold digit.
    rewrite (proj2 (Z.ltb_lt n 10)) by lia. split; [unfold dec_value; simpl; lia|].
    repeat constructor; unfold is_digit; lia.
  - intros n Hn [IH1 IH2]. rewrite numeral_step, (proj2 (Z.ltb_ge n 10)) by lia.
    pose proof (Z.mod_pos_bound n 10). pose proof (Z.div_mod n 10). unfold digit.
    rewrite (proj2 (Z.ltb_lt (n mod 10) 10)) by lia. split; [rewrite dec_value_app, IH1; lia|].
    apply Forall_app. split; [done|]. repeat constructor; unfold is_digit; lia.
Qed.

Lemma int_text_atoi z a : - 2 ^ 31 ≤ z < 2 ^ 31 → cstr a (int_text z) → atoi a = Some z.
Proof.
  intros Hz Ha. destruct (numeral_value (Z.abs z)) as [Hv Hd]; [lia|].
  assert (numeral 10 (Z.abs z) ≠ []) as Hne.
  { pose proof (numeral_length 10 (Z.abs z) 9 ltac:(lia)) as Hl. change (10 ^ Z.of_nat 10) with 10000000000 in Hl.
    intros He. rewrite He in Hl. simpl in Hl. lia. }
  rewrite (atoi_spec a [] (z <? 0) (numeral 10 (Z.abs z)) []); [|by rewrite app_nil_r|done..].
  rewrite Hv. f_equal. rewrite u32_small by (unfold is_u32; lia).
  destruct (Z.ltb_spec z 0); rewrite s32_small; lia.
Qed.

(** C35: What printf prints.  A format is plain characters and fields, a field has
    the flags #, - and 0, a width, and a conversion: d, u, o, x, p, s, c, or a
    character that stands for itself, such as %.  (X, the uppercase hexadecimal
    of the manual, is not covered: the code does not have it.)  The text is that
    of the items one after the other: a plain character is itself, a number is
    its numeral in the base of the conversion with its sign and prefix, a string
    is itself, each filled up to the width of its field.  The receiver gets
    exactly this text, and the result is its length. *)
Theorem vprintf_correct items rest :
  Forall item_ok items →
  let out := concat (item_text <$> items) in
  __vprintf collect (concat (item_format <$> items) ++ 0 :: rest) (concat (item_args <$> items)) [] =
  (Ret (s32 (zlen out)), out).
Proof. apply vprintf_items. Qed.

(** The conversion X of the manual, an unsigned integer in uppercase
    hexadecimal, is unknown to the code: it prints the letter and leaves the
    argument to the next field. *)
Lemma printf_X_letter : __vprintf collect (literal "%X %d") [arg_word 255] [] = (Ret 5, bytes "X 255").
Proof. vm_compute. reflexivity. Qed.

(** C36: The conversion %d is the printer of integers: for every [int] the text is
    that of the library's [pretty], the minus sign and the least integer
    included. *)
Theorem printf_d_pretty z :
  - 2 ^ 31 ≤ z < 2 ^ 31 →
  __vprintf collect (literal "%d") [arg_word z] [] = (Ret (zlen (bytes (pretty z))), bytes (pretty z)).
Proof. intros Hz. rewrite <- int_text_pretty. by apply print_int. Qed.

(** Printing an integer and reading it back: for every [int], [snprintf] with
    %d into a buffer of at least 12 bytes leaves a string that [atoi] reads as
    the same integer. *)
Theorem snprintf_atoi z buf len :
  - 2 ^ 31 ≤ z < 2 ^ 31 → 12 ≤ len < 2 ^ 32 → len ≤ zlen buf →
  match snprintf len (literal "%d") [arg_word z] buf with
  | (Ret n, buf') => n = zlen (bytes (pretty z)) ∧ atoi buf' = Some z
  | _ => False
  end.
Proof.
  intros Hz Hl Hb. pose proof (int_text_length z Hz) as Hlen.
  pose proof (snprintf_spec buf len (literal "%d") [arg_word z]) as Hs. rewrite print_int in Hs by done.
  rewrite Hs by lia. rewrite int_text_pretty. split; [done|]. rewrite <- int_text_pretty. apply int_text_atoi; [done|].
  unfold printed_into. rewrite (proj2 (Z.eqb_neq len 0)) by lia. unfold zlen in Hlen.
  rewrite firstn_all2 by lia. split; [|by eexists]. unfold int_text. apply Forall_app.
  split; [destruct (z <? 0); by repeat constructor|apply numeral_nonzero; lia].
Qed.

(** C37: The loop that makes the digits of a number ends, and stays in its buffer:
    for every 32-bit number and each of the bases 8, 10 and 16, with any fuel of
    32 or more, it returns; the numeral and its terminator are in the buffer from
    the slot behind the returned one on. *)
Theorem printnum_terminates {T} fuel b n (st : PF * T) :
  (32 ≤ fuel)%nat → b = 8 ∨ b = 10 ∨ b = 16 → is_u32 n →
  let buf := replicate (Z.to_nat NUMBER_BUF_SIZE) 0 in
  match printnum_loop fuel b buf (NUMBER_BUF_SIZE - 2) n st with
  | (Ret (buf', x), st') => st' = st ∧ -1 ≤ x ∧ drop (Z.to_nat (x + 1)) buf' = numeral b n ++ [0]
  | _ => False
  end.
Proof.
  intros Hf Hb Hn buf. pose proof (number_length b n Hb Hn) as Hlen.
  assert (n < 2 ^ Z.of_nat fuel) as Hfuel.
  { unfold is_u32 in Hn. assert (2 ^ 32 ≤ 2 ^ Z.of_nat fuel) by (apply Z.pow_le_mono_r; lia). lia. }
  apply (wp_elim (printnum_loop fuel b buf (NUMBER_BUF_SIZE - 2) n) (λ r st', _)).
  apply printnum_loop_spec; [lia|unfold is_u32 in Hn; lia|lia|change (NUMBER_BUF_SIZE) with 12; lia|done|].
  intros buf' x Hx Hdrop. split_and!; [done|done|exact Hdrop].
Qed.
(** C34: [snprintf] stays inside its buffer.  Whatever the format and the
    arguments, it writes the text that printf makes, cut to [len - 1] characters,
    and a terminator behind it; a length of 0 writes nothing.  The rest of the
    buffer is untouched, and the result is the length of the whole text, as an
    [int].  When printf stops (an argument of the wrong type or a missing one),
    nothing past the buffer was written. *)
Theorem snprintf_correct buf len fmt ap :
  0 ≤ len < 2 ^ 32 → len ≤ zlen buf →
  match __vprintf collect fmt ap [] with
  | (Ret _, out) => snprintf len fmt ap buf = (Ret (s32 (zlen out)), printed_into buf len out)
  | (r, out) => ∃ buf', snprintf len fmt ap buf = (r, buf') ∧ zlen buf' = zlen buf ∧
                  drop (Z.to_nat len) buf' = drop (Z.to_nat len) buf
  end.
Proof.
  intros Hl Hb. pose proof (snprintf_spec buf len fmt ap Hl Hb) as Hs. pose proof (vprintf_counts fmt ap) as Hc.
  destruct (__vprintf collect fmt ap []) as [[chars|e|k] out]; [by subst chars|done..].
Qed.

(** ** Witnesses *)

Definition sample_items : list item :=
  [plain (chr "n"); number {| d_alt := false; d_left := false; d_zero := true; d_width := 6; d_long := false |} (chr "d") (-42);
   plain (chr " "); text {| d_alt := false; d_left := true; d_zero := false; d_width := 4; d_long := false |} (Some (literal "ab")) (bytes "ab");
   number {| d_alt := true; d_left := false; d_zero := false; d_width := 0; d_long := true |} (chr "x") 255;
   other no_flags (chr "%")].

Lemma vprintf_correct_witness :
  concat (item_format <$> sample_items) = bytes "n%06d %-4s%#lx%%" ∧
  concat (item_text <$> sample_items) = bytes "n-00042 ab  0xff%" ∧
  __vprintf collect (concat (item_format <$> sample_items) ++ [0]) (concat (item_args <$> sample_items)) [] =
  (Ret (s32 (zlen (concat (item_text <$> sample_items)))), concat (item_text <$> sample_items)).
Proof.
  split; [by vm_compute|]. split; [by vm_compute|]. apply (vprintf_correct sample_items []).
  assert (∀ a l z w g, 0 ≤ w < 100 → directive_ok (Build_directive a l z w g)) as Hd by (unfold directive_ok; simpl; lia).
  repeat constructor; try discriminate; try (apply Hd; lia); try by apply (bool_decide_unpack _).
  by exists [].
Defined.

Lemma printf_d_pretty_witness :
  __vprintf collect (literal "%d") [arg_word (-2147483648)] [] = (Ret 11, bytes "-2147483648").
Proof. apply (printf_d_pretty (-2147483648)). lia. Defined.

Lemma snprintf_atoi_witness :
  match snprintf 12 (literal "%d") [arg_word (-305)] (replicate 16 7) with
  | (Ret n, buf') => n = zlen (bytes (pretty (-305))) ∧ atoi buf' = Some (-305)
  | _ => False
  end.
Proof. apply (snprintf_atoi (-305) (replicate 16 7) 12); [lia|lia|done]. Defined.

Lemma printnum_terminates_witness :
  match printnum_loop 40 8 (replicate 12 0) 10 4294967295 (start_pf [], @nil Z) with
  | (Ret (buf', x), st') => st' = (start_pf [], @nil Z) ∧ -1 ≤ x ∧ drop (Z.to_nat (x + 1)) buf' = bytes "37777777777" ++ [0]
  | _ => False
  end.
Proof.
  apply (printnum_terminates 40 8 4294967295 (start_pf [], @nil Z)); [lia|by left|by apply (bool_decide_unpack _)].
Defined.

Lemma snprintf_correct_witness :
  snprintf 5 (literal "%s") [arg_str (Some (literal "abcdefg"))] (replicate 8 9) =
  (Ret 7, bytes "abcd" ++ [0; 9; 9; 9]).
Proof. apply (snprintf_correct (replicate 8 9) 5 (literal "%s") [arg_str (Some (literal "abcdefg"))]); [lia|done]. Defined.
End properties.
