(* ===== verification/Vfs.v ===== *)
(** * The virtual file system (kern/fs/vfs, kern/include/vfs.h, fs.h, vnode.h)

    The layer above the file systems: the table of named devices
    (vfslist.c), the translation of path names (vfslookup.c), the operations on
    path names (vfspath.c) and the current directory (vfscwd.c).  It calls file
    systems and devices through the tables [struct vnode_ops] and [struct fs];
    the class [VnodeInterface] is these tables, over a state [W] of everything
    below this layer, with [V], [F] and [Dv] the pointers to vnodes, file
    systems and devices.  A lock is whether the current thread holds it: the
    functions run to the end without a switch, and acquiring a lock twice is
    the panic of synch.c. *)

From Stdlib Require Import Ascii.
From S2P Require Import Prelude Libc Printf Array CopyInOut Uio SfsVnode.

(** A [VOP_] macro includes the check of the vnode. *)
Class VnodeInterface (W V F Dv : Type) := {
  VOP_OPEN : V → Z → M W unit;
  VOP_READLINK : V → M (W * uiost) unit;
  VOP_GETTYPE : V → M W Z;
  VOP_TRUNCATE : V → Z → M W unit;
  VOP_NAMEFILE : V → M (W * uiost) unit;
  VOP_CREAT : V → list Z → bool → M W V;
  VOP_SYMLINK : V → list Z → list Z → M W unit;
  VOP_MKDIR : V → list Z → M W unit;
  VOP_LINK : V → list Z → V → M W unit;
  VOP_REMOVE : V → list Z → M W unit;
  VOP_RMDIR : V → list Z → M W unit;
  VOP_RENAME : V → list Z → V → list Z → M W unit;
  VOP_LOOKUP : V → list Z → M W V;
  (** The name is copied into the buffer, which is returned. *)
  VOP_LOOKPARENT : V → list Z → list Z → Z → M W (V * list Z);
  VOP_INCREF : V → M W unit;
  VOP_DECREF : V → M W unit;
  VOP_INCOPEN : V → M W unit;
  VOP_DECOPEN : V → M W unit;
  vn_fs : V → M W (option F);
  dev_create_vnode : option Dv → M W (option V);
  FSOP_SYNC : F → M W unit;
  FSOP_GETVOLNAME : F → M W (option (list Z));
  FSOP_GETROOT : F → M W V;
  FSOP_UNMOUNT : F → M W unit;
}.

Definition O_WRONLY : Z := 1.
Definition O_RDWR : Z := 2.
Definition O_CREAT : Z := 4.
Definition O_EXCL : Z := 8.
Definition O_TRUNC : Z := 16.
Definition S_IFMT : Z := 28672.
Definition S_ISDIR (mode : Z) : bool := Z.land mode S_IFMT =? S_IFDIR.
Definition NAME_MAX : Z := 255.

Record knowndev (V F Dv : Type) := {
  kd_name : list Z;
  kd_rawname : option (list Z);
  kd_device : option Dv;
  kd_vnode : V;
  kd_fs : option F;
}.
Arguments Build_knowndev {_ _ _} _ _ _ _ _.
Arguments kd_name {_ _ _} _.
Arguments kd_rawname {_ _ _} _.
Arguments kd_device {_ _ _} _.
Arguments kd_vnode {_ _ _} _.
Arguments kd_fs {_ _ _} _.

(** The table is an array of pointers to the devices in [kds].  The outcomes of
    allocations are a list, read from the front. *)
Record vfs (W V F Dv : Type) := {
  world : W;
  knowndevs : array Z;
  kds : gmap Z (knowndev V F Dv);
  knowndevs_lock : bool;
  bootfs_vnode : option V;
  bootfs_lock : bool;
  t_cwd : option V;
  mallocs : list bool;
}.
Arguments Build_vfs {_ _ _ _} _ _ _ _ _ _ _ _.
Arguments world {_ _ _ _} _.
Arguments knowndevs {_ _ _ _} _.
Arguments kds {_ _ _ _} _.
Arguments knowndevs_lock {_ _ _ _} _.
Arguments bootfs_vnode {_ _ _ _} _.
Arguments bootfs_lock {_ _ _ _} _.
Arguments t_cwd {_ _ _ _} _.
Arguments mallocs {_ _ _ _} _.

Section ops.
Context {W V F Dv : Type} `{VnodeInterface W V F Dv} `{EqDecision F}.
Abbreviation st := (vfs W V F Dv).
Abbreviation kdev := (knowndev V F Dv).

Definition set_world (w : W) (s : st) : st :=
  Build_vfs w (knowndevs s) (kds s) (knowndevs_lock s) (bootfs_vnode s) (bootfs_lock s) (t_cwd s) (mallocs s).
Definition set_knowndevs (a : array Z) (s : st) : st :=
  Build_vfs (world s) a (kds s) (knowndevs_lock s) (bootfs_vnode s) (bootfs_lock s) (t_cwd s) (mallocs s).
Definition set_kds (m : gmap Z kdev) (s : st) : st :=
  Build_vfs (world s) (knowndevs s) m (knowndevs_lock s) (bootfs_vnode s) (bootfs_lock s) (t_cwd s) (mallocs s).
Definition set_knowndevs_lock (b : bool) (s : st) : st :=
  Build_vfs (world s) (knowndevs s) (kds s) b (bootfs_vnode s) (bootfs_lock s) (t_cwd s) (mallocs s).
Definition set_bootfs_vnode (v : option V) (s : st) : st :=
  Build_vfs (world s) (knowndevs s) (kds s) (knowndevs_lock s) v (bootfs_lock s) (t_cwd s) (mallocs s).
Definition set_bootfs_lock (b : bool) (s : st) : st :=
  Build_vfs (world s) (knowndevs s) (kds s) (knowndevs_lock s) (bootfs_vnode s) b (t_cwd s) (mallocs s).
Definition set_t_cwd (v : option V) (s : st) : st :=
  Build_vfs (world s) (knowndevs s) (kds s) (knowndevs_lock s) (bootfs_vnode s) (bootfs_lock s) v (mallocs s).
Definition set_mallocs (l : list bool) (s : st) : st :=
  Build_vfs (world s) (knowndevs s) (kds s) (knowndevs_lock s) (bootfs_vnode s) (bootfs_lock s) (t_cwd s) l.

Definition on_world {A} : M W A → M st A := zoom world set_world.
Definition on_knowndevs {A} : M (array Z) A → M st A := zoom knowndevs set_knowndevs.

(** [lock_acquire] and [lock_release] of the two locks. *)
Definition acquire_knowndevs : M st unit :=
  s ← get; _ ← assert (negb (knowndevs_lock s)); put (set_knowndevs_lock true s).
Definition release_knowndevs : M st unit :=
  s ← get; _ ← assert (knowndevs_lock s); put (set_knowndevs_lock false s).
Definition acquire_bootfs : M st unit :=
  s ← get; _ ← assert (negb (bootfs_lock s)); put (set_bootfs_lock true s).
Definition release_bootfs : M st unit :=
  s ← get; _ ← assert (bootfs_lock s); put (set_bootfs_lock false s).

(** [lock_acquire(knowndevs_lock); ... out: lock_release(knowndevs_lock);] *)
Definition with_knowndevs {A} (m : M st A) : M st A :=
  _ ← acquire_knowndevs;
  r ← attempt m;
  _ ← release_knowndevs;
  result_of r.

Definition kmalloc : M st bool :=
  s ← get;
  match mallocs s with
  | [] => mret true
  | b :: bs => _ ← put (set_mallocs bs s); mret b
  end.

(** [!strcmp(a, b)] *)
Definition streq {S} (a b : list Z) : M S bool := r ← deref (strcmp a b); mret (r =? 0).
(** The same, when the first string may be NULL: [a != NULL && !strcmp(a, b)]. *)
Definition opt_streq {S} (a : option (list Z)) (b : list Z) : M S bool :=
  match a with Some a => streq a b | None => mret false end.

Definition get_kd (p : Z) : M st kdev := s ← get; deref (kds s !! p).
(** The entry [i] of the table. *)
Definition nth_dev (i : Z) : M st (Z * kdev) :=
  p ← on_knowndevs (array_getguy i); kd ← get_kd p; mret (p, kd).
Definition all_devs : M st (list Z) := s ← get; mret (seqZ 0 (array_getnum (knowndevs s))).

(** ** vfslist.c *)

Definition vfs_sync : M st unit :=
  _ ← acquire_knowndevs;
  idxs ← all_devs;
  _ ← forM idxs (λ i,
    d ← nth_dev i;
    match kd_fs d.2 with
    | Some f => _ ← attempt (on_world (FSOP_SYNC f)); mret ()
    | None => mret ()
    end);
  release_knowndevs.

(** One turn of the loop of [vfs_getroot]: [None] to go on to the next device. *)
Definition getroot_dev (devname : list Z) (kd : kdev) : M st (option V) :=
  found ← (match kd_fs kd with
           | Some f =>
               volname ← on_world (FSOP_GETVOLNAME f);
               named ← streq (kd_name kd) devname;
               vol ← (if (named : bool) then mret true else opt_streq volname devname);
               if (vol : bool) then v ← on_world (FSOP_GETROOT f); mret (Some v) else mret None
           | None =>
               match kd_rawname kd with
               | Some _ =>
                   named ← streq (kd_name kd) devname;
                   if (named : bool) then fail ENXIO else mret None
               | None => mret None
               end
           end);
  match found with
  | Some v => mret (Some v)
  | None =>
      named ← streq (kd_name kd) devname;
      if (named : bool) then
        _ ← assert (if kd_fs kd is Some _ then false else true);
        _ ← assert (if kd_rawname kd is Some _ then false else true);
        _ ← assert (if kd_device kd is Some _ then true else false);
        _ ← on_world (VOP_INCREF (kd_vnode kd));
        mret (Some (kd_vnode kd))
      else
        raw ← opt_streq (kd_rawname kd) devname;
        if (raw : bool) then
          _ ← assert (if kd_device kd is Some _ then true else false);
          _ ← on_world (VOP_INCREF (kd_vnode kd));
          mret (Some (kd_vnode kd))
        else mret None
  end.

Fixpoint getroot_loop (devname : list Z) (idxs : list Z) : M st V :=
  match idxs with
  | [] => fail ENODEV
  | i :: idxs =>
      d ← nth_dev i;
      r ← getroot_dev devname d.2;
      match r with Some v => mret v | None => getroot_loop devname idxs end
  end.

Definition vfs_getroot (devname : list Z) : M st V :=
  with_knowndevs (idxs ← all_devs; getroot_loop devname idxs).

Fixpoint getdevname_loop (f : F) (idxs : list Z) : M st (option (list Z)) :=
  match idxs with
  | [] => mret None
  | i :: idxs =>
      d ← nth_dev i;
      if decide (kd_fs d.2 = Some f) then mret (Some (kd_name d.2)) else getdevname_loop f idxs
  end.

Definition vfs_getdevname (f : F) : M st (option (list Z)) :=
  with_knowndevs (idxs ← all_devs; getdevname_loop f idxs).

Definition mkrawname (name : list Z) : M st (option (list Z)) :=
  n ← deref (strlen name);
  ok ← kmalloc;
  if (ok : bool) then
    s ← deref (strcpy (replicate (Z.to_nat (u32 (n + 3 + 1))) 0) name);
    s ← deref (strcat s (literal "raw"));
    mret (Some s)
  else mret None.

Definition samestring (a b : option (list Z)) : M st bool :=
  match a, b with
  | Some a, Some b => streq a b
  | _, _ => mret false
  end.

Definition samestring3 (a b c d : option (list Z)) : M st bool :=
  x ← samestring a b;
  if (x : bool) then mret true
  else
    y ← samestring a c;
    if (y : bool) then mret true else samestring a d.

Fixpoint badnames_loop (n1 n2 n3 : option (list Z)) (idxs : list Z) : M st bool :=
  match idxs with
  | [] => mret false
  | i :: idxs =>
      d ← nth_dev i;
      let kd := d.2 in
      vol ← (match kd_fs kd with
             | Some f => volname ← on_world (FSOP_GETVOLNAME f); samestring3 volname n1 n2 n3
             | None => mret false
             end);
      if (vol : bool) then mret true
      else
        raw ← samestring3 (kd_rawname kd) n1 n2 n3;
        if (raw : bool) then mret true
        else
          named ← samestring3 (Some (kd_name kd)) n1 n2 n3;
          if (named : bool) then mret true else badnames_loop n1 n2 n3 idxs
  end.

Definition badnames (n1 n2 n3 : option (list Z)) : M st bool :=
  s ← get;
  _ ← assert (knowndevs_lock s);
  idxs ← all_devs;
  badnames_loop n1 n2 n3 idxs.

(** [kstrdup] *)
Definition kstrdup (s : list Z) : M st (option (list Z)) :=
  n ← deref (strlen s);
  ok ← kmalloc;
  if (ok : bool) then z ← deref (strcpy (replicate (Z.to_nat (u32 (n + 1))) 0) s); mret (Some z)
  else mret None.

(** What is freed at [puke] was not entered anywhere. *)
Definition vfs_doadd (dname : list Z) (mountable : bool) (dev : option Dv) (f : option F) : M st unit :=
  name ← kstrdup dname;
  match name with
  | None => fail ENOMEM
  | Some name =>
      rawname ← (if mountable then r ← mkrawname name; match r with Some r => mret (Some (Some r)) | None => mret None end
                 else mret (Some None));
      match rawname with
      | None => fail ENOMEM
      | Some rawname =>
          vnode ← on_world (dev_create_vnode dev);
          match vnode with
          | None => fail ENOMEM
          | Some vnode =>
              ok ← kmalloc;
              if negb ok then fail ENOMEM
              else
                let kd := Build_knowndev name rawname dev vnode f in
                volname ← (match f with Some f => on_world (FSOP_GETVOLNAME f) | None => mret None end);
                with_knowndevs (
                  bad ← badnames (Some name) rawname volname;
                  if (bad : bool) then fail EEXIST
                  else
                    s ← get;
                    let p := fresh (dom (kds s)) in
                    grow_ok ← kmalloc;
                    _ ← on_knowndevs (array_add grow_ok p);
                    modify (λ s, set_kds (<[p := kd]> (kds s)) s))
          end
      end
  end.

Definition vfs_adddev (devname : list Z) (dev : Dv) (mountable : bool) : M st unit :=
  vfs_doadd devname mountable (Some dev) None.
Definition vfs_addfs (devname : list Z) (f : F) : M st unit := vfs_doadd devname false None (Some f).

Fixpoint findmount_loop (devname : list Z) (idxs : list Z) : M st (Z * kdev) :=
  match idxs with
  | [] => fail ENODEV
  | i :: idxs =>
      d ← nth_dev i;
      match kd_rawname d.2 with
      | None => findmount_loop devname idxs
      | Some _ =>
          named ← streq devname (kd_name d.2);
          if (named : bool) then mret d else findmount_loop devname idxs
      end
  end.

Definition findmount (devname : list Z) : M st (Z * kdev) :=
  s ← get;
  _ ← assert (knowndevs_lock s);
  idxs ← all_devs;
  findmount_loop devname idxs.

(** [kd->kd_fs = fs;] *)
Definition set_kd_fs (p : Z) (f : option F) : M st unit :=
  kd ← get_kd p;
  modify (λ s, set_kds (<[p := Build_knowndev (kd_name kd) (kd_rawname kd) (kd_device kd) (kd_vnode kd) f]> (kds s)) s).

Definition vfs_mount (devname : list Z) (mountfunc : Dv → M W F) : M st unit :=
  with_knowndevs (
    d ← findmount devname;
    let '(p, kd) := (d : Z * kdev) in
    match kd_fs kd with
    | Some _ => fail EBUSY
    | None =>
        _ ← assert (if kd_rawname kd is Some _ then true else false);
        match kd_device kd with
        | None => panic
        | Some dev =>
            f ← on_world (mountfunc dev);
            _ ← set_kd_fs p (Some f);
            _ ← on_world (FSOP_GETVOLNAME f);
            mret ()
        end
    end).

Definition vfs_unmount (devname : list Z) : M st unit :=
  with_knowndevs (
    d ← findmount devname;
    let '(p, kd) := (d : Z * kdev) in
    match kd_fs kd with
    | None => fail EINVAL
    | Some f =>
        _ ← assert (if kd_rawname kd is Some _ then true else false);
        _ ← assert (if kd_device kd is Some _ then true else false);
        _ ← on_world (FSOP_SYNC f);
        _ ← on_world (FSOP_UNMOUNT f);
        set_kd_fs p None
    end).

(** One turn of the loop of [vfs_unmountall]. *)
Definition unmount_dev (i : Z) : M st unit :=
  d ← nth_dev i;
  let '(p, kd) := (d : Z * kdev) in
  match kd_rawname kd, kd_fs kd with
  | Some _, Some f =>
      r ← attempt (on_world (FSOP_SYNC f));
      r ← (match r with inl _ => mret r | inr _ => attempt (on_world (FSOP_SYNC f)) end);
      match r with
      | inr _ => mret ()
      | inl _ =>
          r ← attempt (on_world (FSOP_UNMOUNT f));
          match r with inr _ => mret () | inl _ => set_kd_fs p None end
      end
  | _, _ => mret ()
  end.

Definition vfs_unmountall : M st unit :=
  _ ← acquire_knowndevs;
  idxs ← all_devs;
  _ ← forM idxs unmount_dev;
  release_knowndevs.

(** ** vfscwd.c *)

Definition vfs_getcurdir : M st V :=
  s ← get;
  match t_cwd s with
  | Some v => _ ← on_world (VOP_INCREF v); mret v
  | None => fail ENOENT
  end.

Definition vfs_setcurdir (dir : V) : M st unit :=
  vtype ← on_world (VOP_GETTYPE dir);
  if negb (S_ISDIR vtype) then fail ENOTDIR
  else
    s ← get;
    _ ← put (set_t_cwd (Some dir) s);
    match t_cwd s with
    | Some old => on_world (VOP_DECREF old)
    | None => mret ()
    end.

Definition vfs_clearcurdir : M st unit :=
  s ← get;
  _ ← put (set_t_cwd None s);
  match t_cwd s with
  | Some old => on_world (VOP_DECREF old)
  | None => mret ()
  end.

(** ** vfslookup.c *)

Definition change_bootfs (newguy : option V) : M st unit :=
  _ ← acquire_bootfs;
  s ← get;
  _ ← put (set_bootfs_vnode newguy s);
  _ ← release_bootfs;
  match bootfs_vnode s with
  | Some oldguy => on_world (VOP_DECREF oldguy)
  | None => mret ()
  end.

Definition vfs_clearbootfs : M st unit := change_bootfs None.

(** The positions of the first slash and the first colon, -1 for none, as far
    as the loop of [getdevice] looks. *)
Fixpoint first_sep (path : list Z) (i : Z) : option (Z * Z) :=
  match path with
  | [] => None
  | c :: path =>
      if c =? 0 then Some (-1, -1)
      else if c =? chr ":" then Some (-1, i)
      else if c =? chr "/" then Some (i, -1)
      else first_sep path (i + 1)
  end.

Fixpoint skip_slashes (path : list Z) : option (list Z) :=
  match path with
  | [] => None
  | c :: path' => if c =? chr "/" then skip_slashes path' else Some path
  end.

(** The start of a path that begins with a slash or a colon. *)
Definition root_start (c : Z) : M st V :=
  if c =? chr "/" then
    _ ← acquire_bootfs;
    s ← get;
    match bootfs_vnode s with
    | None => _ ← release_bootfs; fail ENOENT
    | Some v =>
        _ ← on_world (VOP_INCREF v);
        _ ← release_bootfs;
        mret v
    end
  else
    _ ← assert (c =? chr ":");
    vn ← vfs_getcurdir;
    f ← on_world (vn_fs vn);
    match f with
    | None => panic
    | Some f =>
        v ← on_world (FSOP_GETROOT f);
        _ ← on_world (VOP_DECREF vn);
        mret v
    end.

(** The rest of the path, and the vnode it starts from. *)
Definition getdevice (path : list Z) : M st (list Z * V) :=
  seps ← deref (first_sep path 0);
  let '(slash, colon) := (seps : Z * Z) in
  if (colon <? 0) && negb (slash =? 0) then
    v ← vfs_getcurdir; mret (path, v)
  else if colon >? 0 then
    dev ← deref (zstore path colon 0);
    sub ← deref (skip_slashes (drop (Z.to_nat (colon + 1)) dev));
    v ← vfs_getroot dev;
    mret (sub, v)
  else
    _ ← assert ((colon =? 0) || (slash =? 0));
    c ← deref (path !z 0);
    v ← root_start c;
    sub ← deref (skip_slashes (drop 1 path));
    mret (sub, v).

Definition vfs_lookparent (path buf : list Z) (buflen : Z) : M st (V * list Z) :=
  r ← getdevice path;
  let '(path, startvn) := (r : list Z * V) in
  n ← deref (strlen path);
  result ← attempt (if n =? 0 then fail EINVAL else on_world (VOP_LOOKPARENT startvn path buf buflen));
  _ ← on_world (VOP_DECREF startvn);
  result_of result.

Definition vfs_lookup (path : list Z) : M st V :=
  r ← getdevice path;
  let '(path, startvn) := (r : list Z * V) in
  n ← deref (strlen path);
  if n =? 0 then mret startvn
  else
    result ← attempt (on_world (VOP_LOOKUP startvn path));
    _ ← on_world (VOP_DECREF startvn);
    result_of result.

Definition vfs_chdir (path : list Z) : M st unit :=
  vn ← vfs_lookup path;
  result ← attempt (vfs_setcurdir vn);
  match result with
  | inr e => _ ← on_world (VOP_DECREF vn); fail e
  | inl _ => mret ()
  end.

(** An operation on a local object. *)
Definition on_local {A T} (m : M T A) (t : T) : M st (A * T) := λ s,
  match m t with
  | (Ret a, t') => (Ret (a, t'), s)
  | (Fail e, _) => (Fail e, s)
  | (Halt k, _) => (Halt k, s)
  end.

(** The buffer [tmp] is not initialized; [junk] is what it holds. *)
Definition vfs_setbootfs (junk fsname : list Z) : M st unit :=
  r ← on_local (snprintf NAME_MAX (literal "%s") [arg_str (Some fsname)]) junk;
  let tmp := (r : Z * list Z).2 in
  colon ← deref (strchr tmp (chr ":"));
  tmp ← (match colon with
         | Some i =>
             n ← deref (strlen (drop i tmp));
             if n >? 0 then fail EINVAL else mret tmp
         | None => deref (strcat tmp (literal ":"))
         end);
  _ ← vfs_chdir tmp;
  newguy ← vfs_getcurdir;
  change_bootfs (Some newguy).

(** ** vfspath.c *)

Definition name_buf : list Z := replicate (Z.to_nat (NAME_MAX + 1)) 0.

(** Finding the parent directory and the last name of a path, in a buffer of the
    size of [name]. *)
Definition lookparent_name (path : list Z) : M st (V * list Z) := vfs_lookparent path name_buf (NAME_MAX + 1).

(** The common shape of remove, mkdir, rmdir and symlink. *)
Definition with_parent (path : list Z) (op : V → list Z → M W unit) : M st unit :=
  r ← lookparent_name path;
  let '(dir, name) := (r : V * list Z) in
  result ← attempt (on_world (op dir name));
  _ ← on_world (VOP_DECREF dir);
  result_of result.

Definition vfs_open (path : list Z) (openflags : Z) : M st V :=
  let how := Z.land openflags O_ACCMODE in
  canwrite ← (if how =? O_RDONLY then mret false
              else if (how =? O_WRONLY) || (how =? O_RDWR) then mret true
              else fail EINVAL);
  vn ← (if negb (Z.land openflags O_CREAT =? 0) then
          let excl := negb (Z.land openflags O_EXCL =? 0) in
          r ← lookparent_name path;
          let '(dir, name) := (r : V * list Z) in
          result ← attempt (on_world (VOP_CREAT dir name excl));
          _ ← on_world (VOP_DECREF dir);
          result_of result
        else vfs_lookup path);
  opened ← attempt (on_world (VOP_OPEN vn openflags));
  match opened with
  | inr e => _ ← on_world (VOP_DECREF vn); fail e
  | inl _ =>
      _ ← on_world (VOP_INCOPEN vn);
      if negb (Z.land openflags O_TRUNC =? 0) then
        result ← attempt (if negb canwrite then fail EINVAL else on_world (VOP_TRUNCATE vn 0));
        match result with
        | inr e =>
            _ ← on_world (VOP_DECOPEN vn);
            _ ← on_world (VOP_DECREF vn);
            fail e
        | inl _ => mret vn
        end
      else mret vn
  end.

Definition vfs_close (vn : V) : M st unit :=
  _ ← on_world (VOP_DECOPEN vn);
  on_world (VOP_DECREF vn).

Definition vfs_remove (path : list Z) : M st unit := with_parent path VOP_REMOVE.

(** The two lookups of rename and link, and the comparison of the file systems. *)
Definition vfs_rename (oldpath newpath : list Z) : M st unit :=
  r1 ← lookparent_name oldpath;
  let '(olddir, oldname) := (r1 : V * list Z) in
  r2 ← attempt (lookparent_name newpath);
  match r2 with
  | inr e => _ ← on_world (VOP_DECREF olddir); fail e
  | inl (newdir, newname) =>
      f1 ← on_world (vn_fs olddir);
      f2 ← on_world (vn_fs newdir);
      if decide (f1 = None ∨ f2 = None ∨ f1 ≠ f2) then
        _ ← on_world (VOP_DECREF newdir);
        _ ← on_world (VOP_DECREF olddir);
        fail EXDEV
      else
        result ← attempt (on_world (VOP_RENAME olddir oldname newdir newname));
        _ ← on_world (VOP_DECREF newdir);
        _ ← on_world (VOP_DECREF olddir);
        result_of result
  end.

Definition vfs_link (oldpath newpath : list Z) : M st unit :=
  oldfile ← vfs_lookup oldpath;
  r2 ← attempt (lookparent_name newpath);
  match r2 with
  | inr e => _ ← on_world (VOP_DECREF oldfile); fail e
  | inl (newdir, newname) =>
      f1 ← on_world (vn_fs oldfile);
      f2 ← on_world (vn_fs newdir);
      if decide (f1 = None ∨ f2 = None ∨ f1 ≠ f2) then
        _ ← on_world (VOP_DECREF newdir);
        _ ← on_world (VOP_DECREF oldfile);
        fail EXDEV
      else
        result ← attempt (on_world (VOP_LINK newdir newname oldfile));
        _ ← on_world (VOP_DECREF newdir);
        _ ← on_world (VOP_DECREF oldfile);
        result_of result
  end.

(** The arguments of [VOP_SYMLINK] are in the order of the call. *)
Definition vfs_symlink (contents path : list Z) : M st unit :=
  with_parent path (λ newdir newname, VOP_SYMLINK newdir newname contents).

Definition on_world_uio {A} (m : M (W * uiost) A) : M (st * uiost) A :=
  zoom (λ p, (world p.1, p.2)) (λ q p, (set_world q.1 p.1, q.2)) m.

Definition vfs_readlink (path : list Z) : M (st * uiost) unit :=
  vn ← on_fst (vfs_lookup path);
  result ← attempt (on_world_uio (VOP_READLINK vn));
  _ ← on_fst (on_world (VOP_DECREF vn));
  result_of result.

Definition vfs_mkdir (path : list Z) : M st unit := with_parent path VOP_MKDIR.
Definition vfs_rmdir (path : list Z) : M st unit := with_parent path VOP_RMDIR.

(** The part of [vfs_getcwd] up to the label [out]. *)
Definition getcwd_out (cwd : V) (name : list Z) : M (st * uiost) unit :=
  n ← deref (strlen name);
  _ ← on_snd (uiomove name n);
  _ ← on_snd (uiomove [chr ":"] 1);
  on_world_uio (VOP_NAMEFILE cwd).

Definition vfs_getcwd : M (st * uiost) unit :=
  p ← get;
  _ ← assert (bool_decide (uio_dir (u p.2) = UIO_READ));
  cwd ← on_fst vfs_getcurdir;
  f ← on_fst (on_world (vn_fs cwd));
  match f with
  | None => panic
  | Some f =>
      vol ← on_fst (on_world (FSOP_GETVOLNAME f));
      name ← (match vol with Some n => mret (Some n) | None => on_fst (vfs_getdevname f) end);
      match name with
      | None => panic
      | Some name =>
          result ← attempt (getcwd_out cwd name);
          _ ← on_fst (on_world (VOP_DECREF cwd));
          result_of result
      end
  end.
End ops.
