(* ===== verification/VfsSpec.v ===== *)
(** * What the virtual file system promises

    [VnodeLaws] states what kern/include/vnode.h and fs.h promise about the
    functions of a file system: who holds references to vnodes and who has them
    open are multisets, and an operation gives or takes the references its
    comment says.  The abstract state [abs] of the layer is its devices, the
    mounted volumes with their names, the current directory, the boot file
    system, and the references its clients hold; each operation of Vfs.v is
    shown to refine an operation on [abs].  In particular no path through the
    code loses a reference or a lock. *)

From Stdlib Require Import Ascii.
From stdpp Require Import gmultiset.
From S2P Require Import Prelude Libc Printf Array CopyInOut Uio SfsVnode Vfs.

(** The object [a] holds the string [s], which fits the 32-bit arithmetic on
    lengths. *)
Definition good_string (a s : list Z) : Prop := cstr a s ∧ Forall is_u8 s ∧ zlen s < 2 ^ 31.
Definition is_string (a : list Z) : Prop := ∃ s, good_string a s.

(** The operations in which a file system may stop the kernel by a panic of its
    own: a rename that cannot be undone, a root that cannot be loaded, and the
    vnode of a device that cannot be set up. *)
Inductive panic_op := in_rename | in_getroot | in_create.

Class VnodeLaws (W V F Dv : Type) `{VnodeInterface W V F Dv} `{Countable V} `{Countable F} := {
  (** The file system of a vnode, and whether it is a directory, do not change. *)
  fs_of : V → option F;
  dirvn : V → bool;
  (** [inv w T R O]: the volumes [T] are mounted, with their names; [R] are the
      references to vnodes that are held, [O] the vnodes that are open. *)
  inv : W → gmap F (option (list Z)) → gmultiset V → gmultiset V → Prop;
  (** A volume with nothing to write back. *)
  fs_clean : F → W → Prop;
  (** The panics it does have. *)
  may_panic : panic_op → Prop;
  law_dirvn : ∀ v, dirvn v = true → is_Some (fs_of v);
  law_mounted : ∀ w T R O v f, inv w T R O → v ∈ R → fs_of v = Some f → is_Some (T !! f);
  law_fs : ∀ w T R O v, inv w T R O → v ∈ R → vn_fs v w = (Ret (fs_of v), w);
  law_incref : ∀ w T R O v, inv w T R O → v ∈ R →
    wp (VOP_INCREF v) (returns (λ _ w', inv w' T (R ⊎ {[+ v +]}) O)) w;
  law_decref : ∀ w T R O v, inv w T (R ⊎ {[+ v +]}) O → (v ∈ O → v ∈ R) →
    wp (VOP_DECREF v) (returns (λ _ w', inv w' T R O)) w;
  law_incopen : ∀ w T R O v, inv w T R O → v ∈ R →
    wp (VOP_INCOPEN v) (returns (λ _ w', inv w' T R (O ⊎ {[+ v +]}))) w;
  law_decopen : ∀ w T R O v, inv w T R (O ⊎ {[+ v +]}) → v ∈ R →
    wp (VOP_DECOPEN v) (returns (λ _ w', inv w' T R O)) w;
  law_gettype : ∀ w T R O v, inv w T R O → v ∈ R →
    wp (VOP_GETTYPE v) (λ r w', match r with
      | Ret t => inv w' T R O ∧ (S_ISDIR t = true → dirvn v = true)
      | Fail _ => inv w' T R O
      | Halt _ => False
      end) w;
  law_open : ∀ w T R O v flags, inv w T R O → v ∈ R →
    wp (VOP_OPEN v flags) (λ r w', match r with Halt _ => False | _ => inv w' T R O end) w;
  law_truncate : ∀ w T R O v, inv w T R O → v ∈ R →
    wp (VOP_TRUNCATE v 0) (λ r w', match r with Halt _ => False | _ => inv w' T R O end) w;
  law_mkdir : ∀ w T R O v name, inv w T R O → v ∈ R → is_string name →
    wp (VOP_MKDIR v name) (λ r w', match r with Halt _ => False | _ => inv w' T R O end) w;
  law_rmdir : ∀ w T R O v name, inv w T R O → v ∈ R → is_string name →
    wp (VOP_RMDIR v name) (λ r w', match r with Halt _ => False | _ => inv w' T R O end) w;
  law_remove : ∀ w T R O v name, inv w T R O → v ∈ R → is_string name →
    wp (VOP_REMOVE v name) (λ r w', match r with Halt _ => False | _ => inv w' T R O end) w;
  law_symlink : ∀ w T R O v name text, inv w T R O → v ∈ R → is_string name → is_string text →
    wp (VOP_SYMLINK v name text) (λ r w', match r with Halt _ => False | _ => inv w' T R O end) w;
  law_rename : ∀ w T R O v1 n1 v2 n2, inv w T R O → v1 ∈ R → v2 ∈ R → is_string n1 → is_string n2 →
    is_Some (fs_of v1) → fs_of v1 = fs_of v2 →
    wp (VOP_RENAME v1 n1 v2 n2) (λ r w', match r with Halt k => k = Panic ∧ may_panic in_rename | _ => inv w' T R O end) w;
  law_link : ∀ w T R O dir name v, inv w T R O → dir ∈ R → v ∈ R → is_string name →
    is_Some (fs_of v) → fs_of dir = fs_of v → dirvn v = false →
    wp (VOP_LINK dir name v) (λ r w', match r with Halt _ => False | _ => inv w' T R O end) w;
  law_creat : ∀ w T R O v name excl, inv w T R O → v ∈ R → is_string name →
    wp (VOP_CREAT v name excl) (λ r w', match r with
      | Ret v' => inv w' T (R ⊎ {[+ v' +]}) O ∧ fs_of v' = fs_of v
      | Fail _ => inv w' T R O
      | Halt _ => False
      end) w;
  law_lookup : ∀ w T R O v path, inv w T R O → v ∈ R → is_string path →
    wp (VOP_LOOKUP v path) (λ r w', match r with
      | Ret v' => inv w' T (R ⊎ {[+ v' +]}) O ∧ fs_of v' = fs_of v
      | Fail _ => inv w' T R O
      | Halt _ => False
      end) w;
  law_lookparent : ∀ w T R O v path buf len, inv w T R O → v ∈ R → is_string path → zlen buf = len → len < 2 ^ 31 →
    wp (VOP_LOOKPARENT v path buf len) (λ r w', match r with
      | Ret (v', name) => inv w' T (R ⊎ {[+ v' +]}) O ∧ fs_of v' = fs_of v ∧ is_string name
      | Fail _ => inv w' T R O
      | Halt _ => False
      end) w;
  law_readlink : ∀ w T R O v us, inv w T R O → v ∈ R →
    wp (VOP_READLINK v) (λ r p, match r with Halt _ => False | _ => inv p.1 T R O end) (w, us);
  law_namefile : ∀ w T R O v us, inv w T R O → v ∈ R → dirvn v = true → uio_ok us → uio_dir (u us) = UIO_READ →
    wp (VOP_NAMEFILE v) (λ r p, match r with
      | Ret _ => inv p.1 T R O ∧ ∃ bs, moved_in us bs p.2
      | Fail _ => inv p.1 T R O
      | Halt _ => False
      end) (w, us);
  law_volname : ∀ w T R O f n, inv w T R O → T !! f = Some n →
    ∃ o, FSOP_GETVOLNAME f w = (Ret o, w) ∧
      match n with Some s => ∃ a, o = Some a ∧ good_string a s | None => o = None end;
  law_getroot : ∀ w T R O f, inv w T R O → is_Some (T !! f) →
    wp (FSOP_GETROOT f) (λ r w', match r with
      | Ret v => inv w' T (R ⊎ {[+ v +]}) O ∧ fs_of v = Some f
      | Fail _ => False
      | Halt k => k = Panic ∧ may_panic in_getroot
      end) w;
  law_sync : ∀ w T R O f, inv w T R O → is_Some (T !! f) →
    wp (FSOP_SYNC f) (λ r w', match r with
      | Ret _ => inv w' T R O ∧ fs_clean f w'
      | Fail _ => inv w' T R O
      | Halt _ => False
      end) w;
  law_unmount : ∀ w T R O f, inv w T R O → is_Some (T !! f) → fs_clean f w →
    wp (FSOP_UNMOUNT f) (λ r w', match r with
      | Ret _ => inv w' (delete f T) R O
      | Fail _ => inv w' T R O
      | Halt _ => False
      end) w;
  law_create_vnode : ∀ w T R O dev, inv w T R O →
    wp (dev_create_vnode (Some dev)) (λ r w', match r with
      | Ret (Some v) => inv w' T (R ⊎ {[+ v +]}) O
      | Ret None => inv w' T R O
      | Fail _ => False
      | Halt k => k = Panic ∧ may_panic in_create
      end) w;
  law_create_null : ∀ w T R O, inv w T R O →
    wp (dev_create_vnode None) (λ r w', match r with
      | Ret _ => inv w' T R O
      | Fail _ => False
      | Halt k => k = Panic ∧ may_panic in_create
      end) w;
}.

Section specs.
Context {W V F Dv : Type} `{VnodeLaws W V F Dv}.
Abbreviation st := (vfs W V F Dv).
Abbreviation kdev := (knowndev V F Dv).

(** ** The abstract state *)

Record abs := {
  a_devs : list kdev;
  a_vols : gmap F (option (list Z));
  a_cwd : option V;
  a_boot : option V;
  a_refs : gmultiset V;
  a_opens : gmultiset V;
  (** a file system that is not in the table yet *)
  a_new : option F;
}.

Definition with_refs (R : gmultiset V) (a : abs) : abs :=
  Build_abs (a_devs a) (a_vols a) (a_cwd a) (a_boot a) R (a_opens a) (a_new a).
Definition add_ref (v : V) (a : abs) : abs := with_refs (a_refs a ⊎ {[+ v +]}) a.
Definition with_opens (O : gmultiset V) (a : abs) : abs :=
  Build_abs (a_devs a) (a_vols a) (a_cwd a) (a_boot a) (a_refs a) O (a_new a).
Definition with_cwd (c : option V) (a : abs) : abs :=
  Build_abs (a_devs a) (a_vols a) c (a_boot a) (a_refs a) (a_opens a) (a_new a).
Definition with_boot (b : option V) (a : abs) : abs :=
  Build_abs (a_devs a) (a_vols a) (a_cwd a) b (a_refs a) (a_opens a) (a_new a).

Definition opt_ref (o : option V) : gmultiset V := match o with Some v => {[+ v +]} | None => ∅ end.

(** The references the layer holds itself.  The vnode of an entry without a
    device is never used. *)
Definition kd_ref (kd : kdev) : option V := match kd_device kd with Some _ => Some (kd_vnode kd) | None => None end.
Definition held (a : abs) : gmultiset V :=
  list_to_set_disj (omap kd_ref (a_devs a)) ⊎ (opt_ref (a_cwd a) ⊎ opt_ref (a_boot a)).

(** The entry of a device, as the comment of [struct knowndev] has it. *)
Record kd_ok (T : gmap F (option (list Z))) (kd : kdev) : Prop := {
  ko_name : is_string (kd_name kd);
  ko_raw : ∀ r, kd_rawname kd = Some r → is_string r ∧ is_Some (kd_device kd);
  ko_fs : ∀ f, kd_fs kd = Some f → is_Some (T !! f);
  ko_dev : kd_fs kd = None → is_Some (kd_device kd);
}.

(** [lk]: the table is locked. *)
Record vfs_repr (lk : bool) (s : st) (a : abs) : Prop := {
  vr_table : ∃ ps, array_repr (knowndevs s) ps ∧ NoDup ps ∧ length ps = length (a_devs a) ∧
    ∀ i p, ps !! i = Some p → kds s !! p = a_devs a !! i;
  vr_devs : Forall (kd_ok (a_vols a)) (a_devs a);
  vr_mounts : ∀ f, is_Some (a_vols a !! f) → a_new a = Some f ∨ ∃ kd, kd ∈ a_devs a ∧ kd_fs kd = Some f;
  vr_once : ∀ i j k1 k2 f, a_devs a !! i = Some k1 → a_devs a !! j = Some k2 →
    kd_fs k1 = Some f → kd_fs k2 = Some f → i = j;
  vr_lock : knowndevs_lock s = lk;
  vr_bootlock : bootfs_lock s = false;
  vr_cwd : t_cwd s = a_cwd a;
  vr_boot : bootfs_vnode s = a_boot a;
  vr_cwddir : ∀ v, a_cwd a = Some v → dirvn v = true;
  vr_opens : a_opens a ⊆ a_refs a;
  vr_world : inv (world s) (a_vols a) (held a ⊎ a_refs a) (a_opens a);
}.

(** ** Calls into the layer below *)

Lemma with_refs_id a : with_refs (a_refs a) a = a.
Proof. by destruct a. Qed.
Lemma with_opens_id a : with_opens (a_opens a) a = a.
Proof. by destruct a. Qed.

Lemma repr_world lk s a w' R' O' :
  vfs_repr lk s a → inv w' (a_vols a) (held a ⊎ R') O' → O' ⊆ R' →
  vfs_repr lk (set_world w' s) (with_opens O' (with_refs R' a)).
Proof. intros [] Hinv Hsub. by split. Qed.

Lemma repr_world_keep lk s a w' :
  vfs_repr lk s a → inv w' (a_vols a) (held a ⊎ a_refs a) (a_opens a) → vfs_repr lk (set_world w' s) a.
Proof. intros [] Hinv. by split. Qed.

(** A call that neither takes nor gives references. *)
Lemma keep_spec {X} lk s a (m : M W X) Q :
  vfs_repr lk s a →
  wp m (λ r w', match r with Halt _ => False | _ => inv w' (a_vols a) (held a ⊎ a_refs a) (a_opens a) end) (world s) →
  (∀ x s', vfs_repr lk s' a → Q (Ret x) s') → (∀ e s', vfs_repr lk s' a → Q (Fail e) s') →
  wp (on_world m) Q s.
Proof.
  intros Hr Hm HQ HF. unfold on_world. wp_step. eapply wp_mono; [exact Hm|].
  intros [x|e|k] w' Hw; [apply HQ|apply HF|done]; by apply repr_world_keep.
Qed.

Lemma repr_add_ref lk s a w' v :
  vfs_repr lk s a → inv w' (a_vols a) (held a ⊎ a_refs a ⊎ {[+ v +]}) (a_opens a) →
  vfs_repr lk (set_world w' s) (add_ref v a).
Proof.
  intros Hr Hinv. refine (repr_world lk s a w' (a_refs a ⊎ {[+ v +]}) (a_opens a) Hr _ _).
  - by rewrite (assoc_L (⊎)).
  - pose proof (vr_opens _ _ _ Hr). multiset_solver.
Qed.

(** A call that gives a reference. *)
Lemma give_spec {X} lk s a (m : M W X) (vof : X → V) (P : X → Prop) Q :
  vfs_repr lk s a →
  wp m (λ r w', match r with
    | Ret x => inv w' (a_vols a) (held a ⊎ a_refs a ⊎ {[+ vof x +]}) (a_opens a) ∧ P x
    | Fail _ => inv w' (a_vols a) (held a ⊎ a_refs a) (a_opens a)
    | Halt _ => False end) (world s) →
  (∀ x s', vfs_repr lk s' (add_ref (vof x) a) → P x → Q (Ret x) s') →
  (∀ e s', vfs_repr lk s' a → Q (Fail e) s') →
  wp (on_world m) Q s.
Proof.
  intros Hr Hm HQ HF. unfold on_world. wp_step. eapply wp_mono; [exact Hm|].
  intros [x|e|k] w' Hw; [|apply HF; by apply repr_world_keep|done].
  destruct Hw as [Hw HP]. apply HQ; [|done]. by apply repr_add_ref.
Qed.

(** The vnode [v] is referenced by someone. *)
Definition reachable (a : abs) (v : V) : Prop := v ∈ held a ⊎ a_refs a.

Lemma reachable_add a v : reachable (add_ref v a) v.
Proof. unfold reachable, add_ref, with_refs. simpl. multiset_solver. Qed.
Lemma reachable_mono a v v' : reachable a v → reachable (add_ref v' a) v.
Proof. unfold reachable, add_ref, with_refs, held. simpl. multiset_solver. Qed.

Lemma incref_spec lk s a v Q :
  vfs_repr lk s a → reachable a v → (∀ s', vfs_repr lk s' (add_ref v a) → Q (Ret ()) s') →
  wp (on_world (VOP_INCREF v)) Q s.
Proof.
  intros Hr Hv HQ. unfold on_world. wp_step. eapply wp_mono; [by eapply law_incref; [apply Hr|]|].
  intros [[]|e|k] w' Hw; [|done..]. apply HQ. by apply repr_add_ref.
Qed.

Lemma decref_spec lk s a v Q :
  vfs_repr lk s (add_ref v a) → a_opens a ⊆ a_refs a → (∀ s', vfs_repr lk s' a → Q (Ret ()) s') →
  wp (on_world (VOP_DECREF v)) Q s.
Proof.
  intros Hr Ho HQ. unfold on_world. wp_step.
  assert (inv (world s) (a_vols a) (held a ⊎ a_refs a ⊎ {[+ v +]}) (a_opens a)) as Hinv.
  { pose proof (vr_world _ _ _ Hr) as Hw. simpl in Hw. by rewrite (assoc_L (⊎)) in Hw. }
  eapply wp_mono; [eapply law_decref; [exact Hinv|multiset_solver]|].
  intros [[]|e|k] w' Hw; [|done..]. apply HQ. destruct Hr. by split.
Qed.

Lemma decref_2_spec lk s a v v' Q :
  vfs_repr lk s (add_ref v' (add_ref v a)) → a_opens a ⊆ a_refs a →
  (∀ s', vfs_repr lk s' (add_ref v' a) → Q (Ret ()) s') →
  wp (on_world (VOP_DECREF v)) Q s.
Proof.
  intros Hr Ho HQ.
  assert (add_ref v' (add_ref v a) = add_ref v (add_ref v' a)) as Heq.
  { unfold add_ref, with_refs. simpl. f_equal. multiset_solver. }
  rewrite Heq in Hr. eapply decref_spec; [exact Hr| |done]. simpl. multiset_solver.
Qed.

(** ** Strings *)

(** The string in an object. *)
Definition text_of (a : list Z) : list Z := take (Z.to_nat (default 0 (strlen a))) a.

Lemma text_of_good a s : good_string a s → text_of a = s.
Proof.
  intros [Hs _]. unfold text_of. rewrite (strlen_cstr _ _ Hs). destruct Hs as [_ [rest ->]]. simpl.
  unfold zlen. by rewrite Nat2Z.id, take_app_length.
Qed.

Lemma is_string_good a : is_string a → good_string a (text_of a).
Proof. intros [s Hs]. by rewrite (text_of_good a s). Qed.

Lemma streq_spec {S} a b (s : S) Q :
  is_string a → is_string b → Q (Ret (bool_decide (text_of a = text_of b))) s → wp (streq a b) Q s.
Proof.
  intros (Ha & Hua & _)%is_string_good (Hb & Hub & _)%is_string_good HQ.
  destruct (strcmp_spec a b _ _ Ha Hb Hua Hub) as (r & Hr & Heq & _).
  unfold streq. wp_step. eapply wp_deref; [exact Hr|]. wp_step.
  replace (r =? 0) with (bool_decide (text_of a = text_of b)); [done|].
  destruct (Z.eqb_spec r 0); [rewrite bool_decide_true|rewrite bool_decide_false]; tauto.
Qed.

(** A string that may be missing. *)
Definition opt_string (o : option (list Z)) : Prop := ∀ a, o = Some a → is_string a.
Definition opt_text (o : option (list Z)) : option (list Z) := text_of <$> o.

Lemma opt_streq_spec {S} a b (s : S) Q :
  opt_string a → is_string b → Q (Ret (bool_decide (opt_text a = Some (text_of b)))) s → wp (opt_streq a b) Q s.
Proof.
  intros Ha Hb HQ. destruct a as [a|]; simpl in *; [|by wp_step].
  apply streq_spec; [by apply Ha|done|].
  replace (bool_decide (text_of a = text_of b)) with (bool_decide (Some (text_of a) = Some (text_of b))); [done|].
  apply bool_decide_ext. split; [by intros [= ?]|by intros ->].
Qed.

(** ** The table *)

Lemma acquire_spec s a Q :
  vfs_repr false s a → (∀ s', vfs_repr true s' a → Q (Ret ()) s') → wp acquire_knowndevs Q s.
Proof.
  intros Hr HQ. unfold acquire_knowndevs. wp_step. wp_step. wp_step. apply wp_assert; [by rewrite (vr_lock _ _ _ Hr)|].
  wp_step. apply HQ. destruct Hr. by split.
Qed.

Lemma release_spec s a Q :
  vfs_repr true s a → (∀ s', vfs_repr false s' a → Q (Ret ()) s') → wp release_knowndevs Q s.
Proof.
  intros Hr HQ. unfold release_knowndevs. wp_step. wp_step. wp_step. apply wp_assert; [by rewrite (vr_lock _ _ _ Hr)|].
  wp_step. apply HQ. destruct Hr. by split.
Qed.

(** The lock is released on every way out. *)
Lemma with_knowndevs_spec {X} (m : M st X) s a Q :
  vfs_repr false s a →
  (∀ s1, vfs_repr true s1 a → wp m (λ r s2, match r with
     | Halt k => Q (Halt k) s2
     | _ => ∃ a', vfs_repr true s2 a' ∧ ∀ s3, vfs_repr false s3 a' → Q r s3
     end) s1) →
  wp (with_knowndevs m) Q s.
Proof.
  intros Hr Hm. unfold with_knowndevs. wp_step. eapply acquire_spec; [done|]. intros s1 Hr1. wp_step. wp_step.
  eapply wp_mono; [by apply Hm|]. intros [x|e|k] s2; [intros (a' & Hr2 & HQ).. |done];
    wp_step; (eapply release_spec; [done|]); intros s3 Hr3; simpl; wp_step; auto.
Qed.

Lemma all_devs_spec lk s a Q :
  vfs_repr lk s a → Q (Ret (seqZ 0 (Z.of_nat (length (a_devs a))))) s → wp all_devs Q s.
Proof.
  intros Hr HQ. destruct (vr_table _ _ _ Hr) as (ps & Hps & _ & Hlen & _). unfold all_devs. wp_steps.
  unfold array_getnum. rewrite (repr_num _ _ Hps). unfold zlen. by rewrite Hlen.
Qed.

Lemma set_knowndevs_id (s : st) : set_knowndevs (knowndevs s) s = s.
Proof. by destruct s. Qed.

(** The entry [i] of the table is the device [kd] at [p]. *)
Definition entry (s : st) (i : nat) (p : Z) (kd : kdev) : Prop :=
  (∃ ps, array_repr (knowndevs s) ps ∧ ps !! i = Some p) ∧ kds s !! p = Some kd.

Lemma nth_dev_spec lk s a i Q :
  vfs_repr lk s a → 0 ≤ i < Z.of_nat (length (a_devs a)) →
  (∀ p kd, a_devs a !! Z.to_nat i = Some kd → entry s (Z.to_nat i) p kd → kd_ok (a_vols a) kd → Q (Ret (p, kd)) s) →
  wp (nth_dev i) Q s.
Proof.
  intros Hr Hi HQ. destruct (vr_table _ _ _ Hr) as (ps & Hps & _ & Hlen & Hlk). unfold nth_dev.
  wp_step. unfold on_knowndevs. wp_step. eapply array_getguy_spec; [done|rewrite (repr_num _ _ Hps); unfold zlen; lia|].
  intros p Hp. rewrite set_knowndevs_id. destruct (lookup_lt_is_Some_2 (a_devs a) (Z.to_nat i)) as [kd Hkd]; [lia|].
  pose proof (Hlk _ _ Hp) as Hk. rewrite Hkd in Hk. wp_step. unfold get_kd. wp_step. wp_step. eapply wp_deref; [done|].
  wp_step. apply HQ; [done|by split; [exists ps|]|]. by eapply (proj1 (Forall_lookup _ _) (vr_devs _ _ _ Hr)).
Qed.

(** The devices from position [k] on. *)
Lemma seqZ_more k n : 0 < n → seqZ k n = k :: seqZ (k + 1) (n - 1).
Proof. intros. by rewrite seqZ_cons by done. Qed.

(** One turn of a loop over the table: [l] are the devices from position [k] on. *)
Lemma dev_turn {X} lk s a k kd l (rest : Z * kdev → M st X) Q :
  vfs_repr lk s a → drop k (a_devs a) = kd :: l →
  (∀ p, a_devs a !! k = Some kd → drop (S k) (a_devs a) = l → entry s k p kd → kd_ok (a_vols a) kd →
     wp (rest (p, kd)) Q s) →
  wp (nth_dev (Z.of_nat k) ≫= rest) Q s.
Proof.
  intros Hr Hl HQ. assert (a_devs a !! k = Some kd) as Hkd.
  { by rewrite <- (Nat.add_0_r k), <- lookup_drop, Hl. }
  pose proof (lookup_lt_Some _ _ _ Hkd). wp_step. eapply nth_dev_spec; [done|lia|].
  rewrite Nat2Z.id. intros p kd' Hkd' Hp Hok. rewrite Hkd in Hkd'. injection Hkd' as <-. apply HQ; [done| |done|done].
  by rewrite <- (skipn_skipn 1), Hl.
Qed.

Lemma seqZ_devs k (kd : kdev) l :
  seqZ (Z.of_nat k) (Z.of_nat (length (kd :: l))) = Z.of_nat k :: seqZ (Z.of_nat (S k)) (Z.of_nat (length l)).
Proof. rewrite seqZ_more by (simpl; lia). f_equal. f_equal; simpl length; lia. Qed.

(** ** Device names *)

(** What a device name leads to: the root of a volume, a device, a device that
    waits for a volume, or nothing. *)
Inductive resolved := Root (f : F) | Raw (v : V) | NotMounted | NoDevice.

Definition vol_name (T : gmap F (option (list Z))) (f : F) : option (list Z) := mjoin (T !! f).

Definition resolve_dev (T : gmap F (option (list Z))) (n : list Z) (kd : kdev) : option resolved :=
  match kd_fs kd with
  | Some f =>
      if decide (text_of (kd_name kd) = n ∨ vol_name T f = Some n) then Some (Root f)
      else if decide (opt_text (kd_rawname kd) = Some n) then Some (Raw (kd_vnode kd))
      else None
  | None =>
      if decide (text_of (kd_name kd) = n) then
        Some (match kd_rawname kd with Some _ => NotMounted | None => Raw (kd_vnode kd) end)
      else if decide (opt_text (kd_rawname kd) = Some n) then Some (Raw (kd_vnode kd))
      else None
  end.

Fixpoint resolve (T : gmap F (option (list Z))) (n : list Z) (l : list kdev) : resolved :=
  match l with
  | [] => NoDevice
  | kd :: l => match resolve_dev T n kd with Some r => r | None => resolve T n l end
  end.

Lemma volname_spec lk s a f n Q :
  vfs_repr lk s a → a_vols a !! f = Some n →
  (∀ o, opt_string o → opt_text o = n → Q (Ret o) s) → wp (on_world (FSOP_GETVOLNAME f)) Q s.
Proof.
  intros Hr Hf HQ. unfold on_world. wp_step.
  destruct (law_volname _ _ _ _ f n (vr_world _ _ _ Hr) Hf) as (o & Ho & Hn).
  eapply wp_eq; [exact Ho|]. assert (set_world (world s) s = s) as -> by (by destruct s). apply HQ.
  - intros x ->. destruct n as [n|]; [|done]. destruct Hn as (x' & [= ->] & ?). by exists n.
  - destruct n as [n|]; [|by subst]. destruct Hn as (x' & -> & Hg). unfold opt_text. simpl. f_equal. by apply text_of_good.
Qed.

Lemma kd_reachable lk s a i kd :
  vfs_repr lk s a → a_devs a !! i = Some kd → is_Some (kd_device kd) → reachable a (kd_vnode kd).
Proof.
  intros Hr Hi [d Hd]. unfold reachable, held. rewrite !gmultiset_elem_of_disj_union. left. left.
  apply elem_of_list_to_set_disj, list_elem_of_omap. exists kd. unfold kd_ref. rewrite Hd. split; [by eapply list_elem_of_lookup_2|done].
Qed.

Lemma getroot_fs_spec lk s a f Q :
  vfs_repr lk s a → is_Some (a_vols a !! f) →
  (∀ v s', vfs_repr lk s' (add_ref v a) → fs_of v = Some f → Q (Ret v) s') →
  (∀ s', may_panic in_getroot → Q (Halt Panic) s') →
  wp (on_world (FSOP_GETROOT f)) Q s.
Proof.
  intros Hr Hf HQ HP. unfold on_world. wp_step. eapply wp_mono; [by eapply law_getroot; [apply Hr|]|].
  intros [v|e|k] w' Hw; [|done|destruct Hw as [-> Hp]; by apply HP]. destruct Hw as [Hw Hv]. apply HQ; [|done]. by apply repr_add_ref.
Qed.

Lemma getroot_dev_spec lk s a n devname i kd Q :
  vfs_repr lk s a → is_string devname → text_of devname = n → a_devs a !! i = Some kd → kd_ok (a_vols a) kd →
  (∀ f v s', resolve_dev (a_vols a) n kd = Some (Root f) → vfs_repr lk s' (add_ref v a) → fs_of v = Some f →
     Q (Ret (Some v)) s') →
  (∀ v s', resolve_dev (a_vols a) n kd = Some (Raw v) → vfs_repr lk s' (add_ref v a) → Q (Ret (Some v)) s') →
  (resolve_dev (a_vols a) n kd = Some NotMounted → Q (Fail ENXIO) s) →
  (resolve_dev (a_vols a) n kd = None → Q (Ret None) s) →
  (∀ f s', resolve_dev (a_vols a) n kd = Some (Root f) → may_panic in_getroot → Q (Halt Panic) s') →
  wp (getroot_dev devname kd) Q s.
Proof.
  intros Hr Hd <- Hi [Hkn Hkr Hkf Hkd] HRoot HRaw HNM HNone HP. unfold getroot_dev, resolve_dev in *.
  pose proof (kd_reachable _ _ _ _ _ Hr Hi) as Hreach.
  destruct (kd_fs kd) as [f|] eqn:Hfs.
  - destruct (Hkf f eq_refl) as [nm Hnm]. wp_step. wp_step. eapply volname_spec; [done..|].
    intros o Ho Hon. wp_step. apply streq_spec; [done|done|]. wp_step.
    assert (vol_name (a_vols a) f = opt_text o) as Hvn by (unfold vol_name; rewrite Hnm; by rewrite Hon).
    rewrite Hvn in *.
    destruct (decide (text_of (kd_name kd) = text_of devname)) as [He|He].
    + rewrite bool_decide_true by done. cbv iota. wp_step. rewrite decide_True in * by auto. wp_step.
      eapply getroot_fs_spec; [done|by eexists|..].
      * intros v s' Hr' Hv. wp_steps. by apply (HRoot f).
      * intros s'. by apply (HP f).
    + rewrite bool_decide_false by done. cbv iota. apply opt_streq_spec; [done|done|].
      destruct (decide (opt_text o = Some (text_of devname))) as [He2|He2].
      * rewrite bool_decide_true by done. cbv iota. rewrite decide_True in * by auto. wp_step.
        eapply getroot_fs_spec; [done|by eexists|..].
        -- intros v s' Hr' Hv. wp_steps. by apply (HRoot f).
        -- intros s'. by apply (HP f).
      * rewrite bool_decide_false by done. cbv iota. rewrite decide_False in * by tauto. wp_step.
        wp_step. apply streq_spec; [done|done|]. rewrite bool_decide_false by done. cbv iota. wp_step.
        apply opt_streq_spec; [intros r Hr'; by apply Hkr|done|]. case_bool_decide as Hb.
        -- rewrite decide_True in * by done. destruct (kd_rawname kd) as [r|] eqn:Hrn; [|done].
           destruct (Hkr r eq_refl) as [_ Hds]. destruct (Hds) as [d Hde]. rewrite Hde. wp_step. apply wp_assert; [done|]. wp_step.
           eapply incref_spec; [done|by apply Hreach|]. intros s' Hr'. wp_step. by apply HRaw.
        -- rewrite decide_False in * by done. wp_step. by apply HNone.
  - destruct (Hkd eq_refl) as [d Hdev]. destruct (decide (text_of (kd_name kd) = text_of devname)) as [He|He].
    + wp_step. destruct (kd_rawname kd) as [r|] eqn:Hrn.
      * wp_step. apply streq_spec; [done|done|]. rewrite bool_decide_true by done. cbv iota. wp_step. by apply HNM.
      * wp_step. wp_step. apply streq_spec; [done|done|]. rewrite bool_decide_true by done. cbv iota.
        wp_step. apply wp_assert; [done|]. wp_step. apply wp_assert; [done|]. wp_step. apply wp_assert; [by rewrite Hdev|].
        wp_step. eapply incref_spec; [done|by apply Hreach; eauto|]. intros s' Hr'. wp_step. by apply HRaw.
    + assert (∀ Q', Q' (Ret None) s → wp (match kd_rawname kd with
        | Some _ => named ← streq (kd_name kd) devname; if (named : bool) then fail ENXIO else mret (@None V)
        | None => mret None end) Q' s) as Hfirst.
      { intros Q' HQ'. destruct (kd_rawname kd); [|by wp_step]. wp_step. apply streq_spec; [done|done|].
        rewrite bool_decide_false by done. cbv iota. by wp_step. }
      wp_step. apply Hfirst. wp_step. apply streq_spec; [done|done|]. rewrite bool_decide_false by done. cbv iota.
      wp_step. apply opt_streq_spec; [intros r Hr'; by apply Hkr|done|]. case_bool_decide as Hb.
      * rewrite decide_True in * by done. wp_step. apply wp_assert; [by rewrite Hdev|]. wp_step.
        eapply incref_spec; [done|by apply Hreach; eauto|]. intros s' Hr'. wp_step. by apply HRaw.
      * rewrite decide_False in * by done. wp_step. by apply HNone.
Qed.

(** The outcome of a lookup by device name. *)
Definition root_result (a : abs) (n : list Z) (l : list kdev) (lk : bool) (r : result V) (s' : st) : Prop :=
  match r with
  | Ret v => vfs_repr lk s' (add_ref v a) ∧
      (resolve (a_vols a) n l = Raw v ∨ ∃ f, resolve (a_vols a) n l = Root f ∧ fs_of v = Some f)
  | Fail e => vfs_repr lk s' a ∧
      (e = ENXIO ∧ resolve (a_vols a) n l = NotMounted ∨ e = ENODEV ∧ resolve (a_vols a) n l = NoDevice)
  | Halt k => k = Panic ∧ may_panic in_getroot ∧ ∃ f, resolve (a_vols a) n l = Root f
  end.

Lemma getroot_loop_spec lk s a n devname : vfs_repr lk s a → is_string devname → text_of devname = n →
  ∀ l k, drop k (a_devs a) = l →
  wp (getroot_loop devname (seqZ (Z.of_nat k) (Z.of_nat (length l)))) (root_result a n l lk) s.
Proof.
  intros Hr Hd Hn l. induction l as [|kd l IH]; intros k Hl.
  { change (seqZ _ _) with (@nil Z). cbn [getroot_loop]. wp_step. split; [done|]. right. done. }
  rewrite seqZ_devs. cbn [getroot_loop]. eapply dev_turn; [done..|]. intros p Hkd Hl' _ Hok. cbn [snd]. wp_step.
  unfold root_result. cbn [resolve].
  eapply (getroot_dev_spec lk s a n); [done|done|done|exact Hkd|done|..]; simpl.
  - intros f v s' -> Hr' Hv. wp_step. split; [done|]. right. by exists f.
  - intros v s' -> Hr'. wp_step. split; [done|]. by left.
  - intros ->. split; [done|]. by left.
  - intros ->. by apply IH.
  - intros f s' ->. eauto.
Qed.

Lemma vfs_getroot_spec s a devname Q :
  vfs_repr false s a → is_string devname →
  (∀ r s', root_result a (text_of devname) (a_devs a) false r s' → Q r s') →
  wp (vfs_getroot devname) Q s.
Proof.
  intros Hr Hd HQ. unfold vfs_getroot. eapply with_knowndevs_spec; [done|]. intros s1 Hr1. wp_step.
  eapply all_devs_spec; [done|]. eapply wp_mono; [apply (getroot_loop_spec true s1 a _ devname Hr1 Hd eq_refl (a_devs a) 0); apply drop_0|].
  intros [v|e|k] s2 Hres; simpl in Hres.
  - destruct Hres as [Hr2 Hres]. exists (add_ref v a). split; [done|]. intros s3 Hr3. by apply HQ.
  - destruct Hres as [Hr2 Hres]. exists a. split; [done|]. intros s3 Hr3. by apply HQ.
  - by apply HQ.
Qed.

(** ** The current directory and the boot volume *)

Lemma getcurdir_spec lk s a Q :
  vfs_repr lk s a →
  (∀ v s', a_cwd a = Some v → vfs_repr lk s' (add_ref v a) → Q (Ret v) s') →
  (a_cwd a = None → Q (Fail ENOENT) s) →
  wp vfs_getcurdir Q s.
Proof.
  intros Hr HQ HF. unfold vfs_getcurdir. wp_step. wp_step. rewrite (vr_cwd _ _ _ Hr).
  destruct (a_cwd a) as [v|] eqn:Hc; [|by wp_step; apply HF]. wp_step. eapply incref_spec; [done| |].
  { unfold reachable, held. rewrite Hc. simpl. multiset_solver. }
  intros s' Hr'. wp_step. by apply HQ.
Qed.

Lemma acquire_bootfs_spec {X} lk s a (m : M st X) Q :
  vfs_repr lk s a →
  wp m Q (set_bootfs_lock true s) → wp (acquire_bootfs ≫= λ _, m) Q s.
Proof.
  intros Hr HQ. unfold acquire_bootfs. wp_step. wp_step. wp_step. wp_step.
  apply wp_assert; [by rewrite (vr_bootlock _ _ _ Hr)|]. by wp_step.
Qed.

Lemma root_start_spec lk s a c Q :
  vfs_repr lk s a → c = chr "/" ∨ c = chr ":" →
  (∀ v s', vfs_repr lk s' (add_ref v a) →
     (if decide (c = chr "/") then a_boot a = Some v
      else ∃ cwd, a_cwd a = Some cwd ∧ fs_of v = fs_of cwd) → Q (Ret v) s') →
  (∀ s', (if decide (c = chr "/") then a_boot a = None else a_cwd a = None) → vfs_repr lk s' a → Q (Fail ENOENT) s') →
  (∀ s', c ≠ chr "/" → may_panic in_getroot → Q (Halt Panic) s') →
  wp (root_start c) Q s.
Proof.
  intros Hr Hc HQ HF HP. unfold root_start. destruct (Z.eqb_spec c (chr "/")) as [->|Hne].
  - rewrite decide_True in * by done. eapply acquire_bootfs_spec; [done|]. wp_step. wp_step. simpl.
    rewrite (vr_boot _ _ _ Hr). destruct (a_boot a) as [v|] eqn:Hb.
    + assert (reachable a v) as Hv by (unfold reachable, held; rewrite Hb; simpl; multiset_solver).
      wp_step. unfold on_world. wp_step. eapply wp_mono; [by eapply law_incref; [apply (vr_world _ _ _ Hr)|]|].
      intros [[]|e|k] w' Hw; [|done..]. wp_step. unfold release_bootfs. wp_steps. apply wp_assert; [done|]. wp_steps.
      apply HQ; [|done]. pose proof (repr_add_ref _ _ _ _ _ Hr Hw) as Hr'. destruct Hr'. by split.
    + wp_step. unfold release_bootfs. wp_steps. apply wp_assert; [done|]. wp_steps. apply HF; [done|]. destruct Hr. by split.
  - destruct Hc as [->| ->]; [done|]. rewrite decide_False in * by done. wp_step. apply wp_assert; [done|]. wp_step.
    eapply getcurdir_spec; [done| |by intros; wp_steps; apply HF].
    intros cwd s1 Hcwd Hr1. destruct (law_dirvn cwd) as [f Hf]; [by apply (vr_cwddir _ _ _ Hr)|].
    assert (reachable (add_ref cwd a) cwd) as Hreach by apply reachable_add.
    wp_step. unfold on_world at 1. wp_step. eapply wp_eq; [eapply law_fs; [apply (vr_world _ _ _ Hr1)|exact Hreach]|].
    rewrite Hf. assert (set_world (world s1) s1 = s1) as -> by (by destruct s1). wp_step.
    eapply getroot_fs_spec; [exact Hr1|eapply (law_mounted _ _ _ _ cwd f (vr_world _ _ _ Hr1)); done| |by intros; apply HP].
    intros v s2 Hr2 Hv. wp_step. eapply (decref_2_spec lk s2 a cwd v); [exact Hr2|apply Hr|].
    intros s3 Hr3. wp_step. apply HQ; [done|]. exists cwd. by rewrite Hv, Hf.
Qed.

(** ** Path names *)

(** The reference: a path is relative, or starts with the name of a device, or
    at the root of the boot volume, or at the root of the current volume. *)
Inductive parsed := Relative | Device (dev rest : list Z) | BootRoot (rest : list Z) | CurRoot (rest : list Z).

Fixpoint until_sep (p : list Z) : list Z * list Z :=
  match p with
  | [] => ([], [])
  | c :: p' => if decide (c = chr ":" ∨ c = chr "/") then ([], p) else let '(b, r) := until_sep p' in (c :: b, r)
  end.

Fixpoint drop_slashes (p : list Z) : list Z :=
  match p with
  | [] => []
  | c :: p' => if decide (c = chr "/") then drop_slashes p' else p
  end.

Definition parse_path (p : list Z) : parsed :=
  match until_sep p with
  | ([], c :: rest) => if decide (c = chr ":") then CurRoot (drop_slashes rest) else BootRoot (drop_slashes rest)
  | (dev, c :: rest) => if decide (c = chr ":") then Device dev (drop_slashes rest) else Relative
  | (_, []) => Relative
  end.

Lemma until_sep_app p : p = (until_sep p).1 ++ (until_sep p).2.
Proof.
  induction p as [|c p IH]; [done|]. simpl. case_decide; [done|].
  destruct (until_sep p) as [b r]. simpl in *. by rewrite IH at 1.
Qed.

Lemma until_sep_head p c r : (until_sep p).2 = c :: r → c = chr ":" ∨ c = chr "/".
Proof.
  induction p as [|x p IH]; [done|]. simpl. case_decide as Hd; [by intros [= -> ->]|].
  destruct (until_sep p) as [b r']. simpl in *. auto.
Qed.

Lemma first_sep_spec path p : ∀ i, cstr path p →
  first_sep path i = Some (match (until_sep p).2 with
    | [] => (-1, -1)
    | c :: _ => if decide (c = chr ":") then (-1, i + zlen (until_sep p).1) else (i + zlen (until_sep p).1, -1)
    end).
Proof.
  revert p. induction path as [|c path IH]; intros p i Hp; [by destruct Hp as [_ [? Hp]]; destruct p|].
  cbn [first_sep]. destruct (Z.eqb_spec c 0) as [->|Hc]; [by rewrite (cstr_zero _ _ Hp)|].
  destruct (cstr_cons _ _ _ Hp Hc) as (p' & -> & Hp'). simpl.
  destruct (Z.eqb_spec c (chr ":")) as [->|Hcol].
  { rewrite decide_True by auto. simpl. by rewrite Z.add_0_r. }
  destruct (Z.eqb_spec c (chr "/")) as [->|Hsl].
  { rewrite decide_True by auto. simpl. by rewrite Z.add_0_r. }
  rewrite decide_False by tauto. rewrite (IH p' (i + 1) Hp'). destruct (until_sep p') as [b r]. simpl.
  f_equal. destruct r; [done|]. unfold zlen. simpl length. case_decide; f_equal; lia.
Qed.

Lemma skip_slashes_spec path p : cstr path p → ∃ path', skip_slashes path = Some path' ∧ cstr path' (drop_slashes p).
Proof.
  revert p. induction path as [|c path IH]; intros p Hp; [by destruct Hp as [_ [? Hp]]; destruct p|].
  cbn [skip_slashes]. destruct (Z.eqb_spec c (chr "/")) as [->|Hne].
  - destruct (cstr_cons _ _ _ Hp) as (p' & -> & Hp'); [done|]. simpl. auto.
  - exists (c :: path). split; [done|]. destruct p as [|x p]; [done|]. simpl. rewrite decide_False; [done|].
    destruct Hp as [_ [rest Heq]]. simplify_eq/=. done.
Qed.

Lemma drop_slashes_suffix p : ∃ q, p = q ++ drop_slashes p.
Proof.
  induction p as [|c p [q IH]]; [by exists []|]. simpl. case_decide; [exists (c :: q); simpl; by rewrite <- IH|by exists []].
Qed.

Lemma good_suffix a p q r : good_string a p → p = q ++ r → ∀ b, cstr b r → good_string b r.
Proof.
  intros (_ & Hu & Hl) -> b Hb. split_and!; [done|by apply Forall_app in Hu as [_ ?]|].
  rewrite zlen_app in Hl. pose proof (zlen_nonneg q). lia.
Qed.

(** Where a path starts. *)
Definition start_ok (a : abs) (p sub : list Z) (v : V) : Prop :=
  match parse_path p with
  | Relative => sub = p ∧ a_cwd a = Some v
  | Device d rest => sub = rest ∧
      (resolve (a_vols a) d (a_devs a) = Raw v ∨ ∃ f, resolve (a_vols a) d (a_devs a) = Root f ∧ fs_of v = Some f)
  | BootRoot rest => sub = rest ∧ a_boot a = Some v
  | CurRoot rest => sub = rest ∧ ∃ cwd, a_cwd a = Some cwd ∧ fs_of v = fs_of cwd
  end.

(** Why it cannot start. *)
Definition start_fails (a : abs) (p : list Z) (e : errno) : Prop :=
  match parse_path p with
  | Relative | CurRoot _ => e = ENOENT ∧ a_cwd a = None
  | BootRoot _ => e = ENOENT ∧ a_boot a = None
  | Device d _ => e = ENXIO ∧ resolve (a_vols a) d (a_devs a) = NotMounted ∨
      e = ENODEV ∧ resolve (a_vols a) d (a_devs a) = NoDevice
  end.

(** The path needs the root of a volume, which may not load. *)
Definition needs_root (p : list Z) : Prop :=
  match parse_path p with Device _ _ | CurRoot _ => True | _ => False end.

(** The rest of a path behind its separator. *)
Lemma rest_spec path p q r t (s : st) Q :
  good_string path p → p = q ++ r → cstr t r →
  (∀ sub, is_string sub → text_of sub = drop_slashes r → Q (Ret sub) s) → wp (deref (skip_slashes t)) Q s.
Proof.
  intros Hp Heq Ht HQ. destruct (skip_slashes_spec _ _ Ht) as (sub & Hsub & Hcsub). eapply wp_deref; [exact Hsub|].
  destruct (drop_slashes_suffix r) as [q' Hq]. assert (good_string sub (drop_slashes r)) as Hg.
  { eapply (good_suffix _ _ (q ++ q')); [exact Hp|by rewrite Heq, <- app_assoc, <- Hq|done]. }
  apply HQ; [by eexists|by apply text_of_good].
Qed.

Lemma root_path_spec s a path c r Q :
  vfs_repr false s a → good_string path (c :: r) → c = chr "/" ∨ c = chr ":" →
  (∀ sub v s', vfs_repr false s' (add_ref v a) → is_string sub → text_of sub = drop_slashes r →
     (if decide (c = chr "/") then a_boot a = Some v else ∃ cwd, a_cwd a = Some cwd ∧ fs_of v = fs_of cwd) →
     Q (Ret (sub, v)) s') →
  (∀ s', (if decide (c = chr "/") then a_boot a = None else a_cwd a = None) → vfs_repr false s' a → Q (Fail ENOENT) s') →
  (∀ s', c ≠ chr "/" → may_panic in_getroot → Q (Halt Panic) s') →
  wp (c ← deref (path !z 0); v ← root_start c; sub ← deref (skip_slashes (drop 1 path)); mret (sub, v)) Q s.
Proof.
  intros Hr Hp Hc HQ HF HP. destruct (Hp) as ([Hnz [rest Heq]] & _). subst path. cbn [app] in *.
  wp_step. eapply wp_deref; [done|]. wp_step. eapply root_start_spec; [done..| |done|done].
  intros v s' Hr' Hv. wp_step. eapply (rest_spec _ _ [c] r); [exact Hp|done| |].
  { cbn [drop]. rewrite drop_0. apply cstr_app. by apply Forall_cons in Hnz as [_ ?]. }
  intros sub Hsub Ht. wp_step. by apply HQ.
Qed.

Lemma device_path_spec s a path b r Q :
  vfs_repr false s a → good_string path (b ++ chr ":" :: r) →
  (∀ sub v s', vfs_repr false s' (add_ref v a) → is_string sub → text_of sub = drop_slashes r →
     (resolve (a_vols a) b (a_devs a) = Raw v ∨ ∃ f, resolve (a_vols a) b (a_devs a) = Root f ∧ fs_of v = Some f) →
     Q (Ret (sub, v)) s') →
  (∀ e s', vfs_repr false s' a →
     (e = ENXIO ∧ resolve (a_vols a) b (a_devs a) = NotMounted ∨
      e = ENODEV ∧ resolve (a_vols a) b (a_devs a) = NoDevice) → Q (Fail e) s') →
  (∀ s', may_panic in_getroot → Q (Halt Panic) s') →
  wp (dev ← deref (zstore path (zlen b) 0);
      sub ← deref (skip_slashes (drop (Z.to_nat (zlen b + 1)) dev));
      v ← vfs_getroot dev;
      mret (sub, v)) Q s.
Proof.
  intros Hr Hp HQ HF HP. destruct (Hp) as ([Hnz [rest Heq]] & Hu & Hlen).
  rewrite zlen_app in Hlen. pose proof (zlen_nonneg (chr ":" :: r)).
  apply Forall_app in Hnz as [Hnzb Hnz], Hu as [Hub _]. apply Forall_cons in Hnz as [_ Hnzr].
  wp_step. eapply wp_deref; [apply zstore_in; rewrite Heq, !zlen_app; unfold zlen; simpl length; lia|].
  assert (<[Z.to_nat (zlen b) := 0]> path = b ++ 0 :: r ++ 0 :: rest) as ->.
  { unfold zlen. rewrite Nat2Z.id, Heq, <- app_assoc, insert_app_r_alt by lia. by rewrite Nat.sub_diag. }
  assert (drop (Z.to_nat (zlen b + 1)) (b ++ 0 :: r ++ 0 :: rest) = r ++ 0 :: rest) as ->.
  { unfold zlen. replace (Z.to_nat (Z.of_nat (length b) + 1)) with (S (length b)) by lia.
    rewrite <- (skipn_skipn 1), drop_app_length. done. }
  wp_step. eapply (rest_spec _ _ (b ++ [chr ":"]) r); [exact Hp|by rewrite <- app_assoc|by apply cstr_app|].
  intros sub Hsub Ht. wp_step. assert (good_string (b ++ 0 :: r ++ 0 :: rest) b) as Hgb.
  { split_and!; [by apply cstr_app|done|lia]. }
  eapply vfs_getroot_spec; [done|by eexists|]. rewrite (text_of_good _ _ Hgb).
  intros [v|e|k] s' Hres; simpl in Hres; [destruct Hres as [Hr' Hres]..|].
  - wp_step. by apply HQ.
  - by apply HF.
  - destruct Hres as (-> & Hp' & _). by apply HP.
Qed.

Lemma getdevice_spec s a path p Q :
  vfs_repr false s a → good_string path p →
  (∀ sub v s', vfs_repr false s' (add_ref v a) → is_string sub → start_ok a p (text_of sub) v → Q (Ret (sub, v)) s') →
  (∀ e s', vfs_repr false s' a → start_fails a p e → Q (Fail e) s') →
  (∀ s', needs_root p → may_panic in_getroot → Q (Halt Panic) s') →
  wp (getdevice path) Q s.
Proof.
  intros Hr Hp HQ HF HP. pose proof (until_sep_app p) as Happ. pose proof (until_sep_head p) as Hhead.
  unfold getdevice. wp_step. eapply wp_deref; [apply first_sep_spec, Hp|].
  unfold start_ok, start_fails, needs_root, parse_path in *. pose proof (text_of_good path p Hp) as Htext.
  assert (is_string path) as Hstr by (by exists p).
  assert (∀ Q', (∀ v s', a_cwd a = Some v → vfs_repr false s' (add_ref v a) → Q' (Ret (path, v)) s') →
    (a_cwd a = None → Q' (Fail ENOENT) s) → wp (v ← vfs_getcurdir; mret (path, v)) Q' s) as Hrel.
  { intros Q' Hyes Hno. wp_step. eapply getcurdir_spec; [done| |done]. intros v s' Hc Hr'. wp_step. auto. }
  destruct (until_sep p) as [b [|c r]]; cbn [fst snd] in *.
  { apply Hrel; intros; [apply HQ|apply HF]; try done; by destruct b. }
  pose proof (zlen_nonneg b). rewrite Z.add_0_l. subst p. destruct (Hhead c r eq_refl) as [->| ->].
  - rewrite decide_True by done. change (-1 =? 0) with false. rewrite (proj2 (Z.ltb_ge (zlen b) 0)) by lia.
    cbn [negb andb]. cbv iota. rewrite Z.gtb_ltb. destruct b as [|x b].
    + change (0 <? zlen []) with false. cbv iota. wp_step. apply wp_assert; [done|]. rewrite decide_True in * by done.
      eapply root_path_spec; [done|exact Hp|by right|..].
      * intros sub v s' Hr' Hsub Ht Hv. rewrite decide_False in Hv by done. by apply HQ.
      * intros s' Hc Hr'. rewrite decide_False in Hc by done. by apply HF.
      * intros s' _. by apply HP.
    + rewrite (proj2 (Z.ltb_lt 0 (zlen (x :: b)))) by (unfold zlen; simpl length; lia). cbv iota.
      rewrite decide_True in * by done. eapply device_path_spec; [done|exact Hp|..]; [|done|by intros; apply HP].
      intros sub v s' Hr' Hsub Ht Hv. by apply HQ.
  - rewrite decide_False by done. change (-1 <? 0) with true. cbn [andb]. destruct b as [|x b].
    + change (zlen [] =? 0) with true. change (-1 >? 0) with false. cbn [negb]. cbv iota.
      wp_step. apply wp_assert; [done|]. rewrite decide_False in * by done.
      eapply root_path_spec; [done|exact Hp|by left|..].
      * intros sub v s' Hr' Hsub Ht Hv. rewrite decide_True in Hv by done. by apply HQ.
      * intros s' Hc Hr'. rewrite decide_True in Hc by done. by apply HF.
      * done.
    + rewrite (proj2 (Z.eqb_neq (zlen (x :: b)) 0)) by (unfold zlen; simpl length; lia). cbn [negb]. cbv iota.
      rewrite decide_False in * by done. apply Hrel; intros; [by apply HQ|by apply HF].
Qed.

(** ** Lookup *)

(** The vnode a path leads to: where it starts, when nothing follows, and else a
    vnode of the same volume. *)
Definition leads_to (a : abs) (p : list Z) (v : V) : Prop :=
  ∃ sub start, start_ok a p sub start ∧ (sub = [] ∧ v = start ∨ sub ≠ [] ∧ fs_of v = fs_of start).

Lemma strlen_spec path (s : st) Q :
  is_string path → Q (Ret (zlen (text_of path))) s → wp (deref (strlen path)) Q s.
Proof. intros (Hc & _)%is_string_good HQ. eapply wp_deref; [by apply strlen_cstr|done]. Qed.

Lemma zlen_zero {A} (l : list A) : (zlen l =? 0) = bool_decide (l = []).
Proof. destruct l; [done|]. rewrite bool_decide_false by done. apply Z.eqb_neq. unfold zlen. simpl length. lia. Qed.

Lemma vfs_lookup_spec s a path p Q :
  vfs_repr false s a → good_string path p →
  (∀ v s', vfs_repr false s' (add_ref v a) → leads_to a p v → Q (Ret v) s') →
  (∀ e s', vfs_repr false s' a → Q (Fail e) s') →
  (∀ s', needs_root p → may_panic in_getroot → Q (Halt Panic) s') →
  wp (vfs_lookup path) Q s.
Proof.
  intros Hr Hp HQ HF HP. unfold vfs_lookup. wp_step. eapply getdevice_spec; [done..| |by auto|done].
  intros sub v s1 Hr1 Hsub Hst. cbn iota. wp_step. apply strlen_spec; [done|]. rewrite zlen_zero.
  case_bool_decide as He.
  - wp_step. apply HQ; [done|]. exists [], v. rewrite He in Hst. auto.
  - wp_step. wp_step. eapply (give_spec false s1 (add_ref v a) _ (λ x, x) (λ x, fs_of x = fs_of v)); [done|..].
    + eapply law_lookup; [apply Hr1|apply reachable_add|done].
    + intros x s2 Hr2 Hx. wp_step. eapply (decref_2_spec false s2 a v x); [exact Hr2|apply Hr|].
      intros s3 Hr3. simpl. wp_step. apply HQ; [done|]. exists (text_of sub), v. auto.
    + intros e s2 Hr2. wp_step. eapply (decref_spec false s2 a v); [done|apply Hr|]. intros s3 Hr3. simpl. wp_step. by apply HF.
Qed.

Lemma vfs_lookparent_spec s a path p buf len Q :
  vfs_repr false s a → good_string path p → zlen buf = len → len < 2 ^ 31 →
  (∀ v name s', vfs_repr false s' (add_ref v a) → is_string name → Q (Ret (v, name)) s') →
  (∀ e s', vfs_repr false s' a → Q (Fail e) s') →
  (∀ s', needs_root p → may_panic in_getroot → Q (Halt Panic) s') →
  wp (vfs_lookparent path buf len) Q s.
Proof.
  intros Hr Hp Hbuf Hl HQ HF HP. unfold vfs_lookparent. wp_step. eapply getdevice_spec; [done..| |by auto|done].
  intros sub v s1 Hr1 Hsub Hst. cbn iota. wp_step. apply strlen_spec; [done|]. rewrite zlen_zero. wp_step. wp_step.
  case_bool_decide as He.
  - wp_step. wp_step. eapply (decref_spec false s1 a v); [done|apply Hr|]. intros s2 Hr2. simpl. wp_step. by apply HF.
  - eapply (give_spec false s1 (add_ref v a) _ fst (λ x, is_string x.2)); [done|..].
    + eapply wp_mono; [eapply law_lookparent; [apply Hr1|apply reachable_add|done|done|done]|].
      intros [[v' nm]|e|k] w'; simpl; tauto.
    + intros [x nm] s2 Hr2 Hx. wp_step. eapply (decref_2_spec false s2 a v x); [exact Hr2|apply Hr|].
      intros s3 Hr3. simpl. wp_step. by apply HQ.
    + intros e s2 Hr2. wp_step. eapply (decref_spec false s2 a v); [done|apply Hr|]. intros s3 Hr3. simpl. wp_step. by apply HF.
Qed.

Lemma lookparent_name_spec s a path p Q :
  vfs_repr false s a → good_string path p →
  (∀ v name s', vfs_repr false s' (add_ref v a) → is_string name → Q (Ret (v, name)) s') →
  (∀ e s', vfs_repr false s' a → Q (Fail e) s') →
  (∀ s', needs_root p → may_panic in_getroot → Q (Halt Panic) s') →
  wp (lookparent_name path) Q s.
Proof. intros. unfold lookparent_name. by eapply vfs_lookparent_spec. Qed.

(** ** The operations on path names *)

Lemma with_parent_spec s a path p (op : V → list Z → M W unit) Q :
  vfs_repr false s a → good_string path p →
  (∀ w T R O v name, inv w T R O → v ∈ R → is_string name →
     wp (op v name) (λ r w', match r with Halt _ => False | _ => inv w' T R O end) w) →
  (∀ s', vfs_repr false s' a → Q (Ret ()) s') → (∀ e s', vfs_repr false s' a → Q (Fail e) s') →
  (∀ s', needs_root p → may_panic in_getroot → Q (Halt Panic) s') →
  wp (with_parent path op) Q s.
Proof.
  intros Hr Hp Hop HQ HF HP. unfold with_parent. wp_step. eapply lookparent_name_spec; [done..| |done|done].
  intros v name s1 Hr1 Hn. cbn iota. wp_step. wp_step. eapply (keep_spec false s1 (add_ref v a)); [done|..].
  - eapply Hop; [apply Hr1|apply reachable_add|done].
  - intros [] s2 Hr2. wp_step. eapply (decref_spec false s2 a v); [done|apply Hr|]. intros s3 Hr3. simpl. wp_step. by apply HQ.
  - intros e s2 Hr2. wp_step. eapply (decref_spec false s2 a v); [done|apply Hr|]. intros s3 Hr3. simpl. wp_step. by apply HF.
Qed.

Definition add_open (v : V) (a : abs) : abs := with_opens (a_opens a ⊎ {[+ v +]}) (add_ref v a).

Lemma incopen_spec s a v Q :
  vfs_repr false s (add_ref v a) → a_opens a ⊆ a_refs a →
  (∀ s', vfs_repr false s' (add_open v a) → Q (Ret ()) s') →
  wp (on_world (VOP_INCOPEN v)) Q s.
Proof.
  intros Hr Ho HQ. unfold on_world. wp_step. eapply wp_mono; [by eapply law_incopen; [apply Hr|apply reachable_add]|].
  intros [[]|e|k] w' Hw; [|done..]. apply HQ.
  refine (repr_world false s (add_ref v a) w' _ _ Hr Hw _). simpl. multiset_solver.
Qed.

Lemma decopen_spec s a v Q :
  vfs_repr false s (add_open v a) → a_opens a ⊆ a_refs a →
  (∀ s', vfs_repr false s' (add_ref v a) → Q (Ret ()) s') →
  wp (on_world (VOP_DECOPEN v)) Q s.
Proof.
  intros Hr Ho HQ. unfold on_world. wp_step.
  eapply wp_mono; [eapply law_decopen; [apply Hr|apply reachable_add]|].
  intros [[]|e|k] w' Hw; [|done..]. apply HQ.
  refine (repr_world false s (add_open v a) w' _ _ Hr Hw _). simpl. multiset_solver.
Qed.

Lemma vfs_close_spec s a v Q :
  vfs_repr false s (add_open v a) → a_opens a ⊆ a_refs a → (∀ s', vfs_repr false s' a → Q (Ret ()) s') →
  wp (vfs_close v) Q s.
Proof.
  intros Hr Ho HQ. unfold vfs_close. wp_step. eapply decopen_spec; [done..|]. intros s1 Hr1.
  by eapply decref_spec.
Qed.

(** The vnode of [vfs_open]: created or looked up. *)
Lemma open_vnode_spec s a path p openflags Q :
  vfs_repr false s a → good_string path p →
  (∀ v s', vfs_repr false s' (add_ref v a) → (Z.land openflags O_CREAT = 0 → leads_to a p v) → Q (Ret v) s') →
  (∀ e s', vfs_repr false s' a → Q (Fail e) s') →
  (∀ s', needs_root p → may_panic in_getroot → Q (Halt Panic) s') →
  wp (if negb (Z.land openflags O_CREAT =? 0) then
        let excl := negb (Z.land openflags O_EXCL =? 0) in
        r ← lookparent_name path;
        let '(dir, name) := (r : V * list Z) in
        result ← attempt (on_world (VOP_CREAT dir name excl));
        _ ← on_world (VOP_DECREF dir);
        result_of result
      else vfs_lookup path) Q s.
Proof.
  intros Hr Hp HQ HF HP. destruct (Z.eqb_spec (Z.land openflags O_CREAT) 0) as [He|Hne]; cbn [negb].
  - eapply vfs_lookup_spec; [done..| |done|done]. auto.
  - cbn zeta. wp_step. eapply lookparent_name_spec; [done..| |done|done].
    intros v name s1 Hr1 Hn. cbn iota. wp_step. wp_step.
    eapply (give_spec false s1 (add_ref v a) _ (λ x, x) (λ x, fs_of x = fs_of v)); [done|..].
    + eapply law_creat; [apply Hr1|apply reachable_add|done].
    + intros x s2 Hr2 Hx. wp_step. eapply (decref_2_spec false s2 a v x); [exact Hr2|apply Hr|].
      intros s3 Hr3. simpl. wp_step. by apply HQ.
    + intros e s2 Hr2. wp_step. eapply (decref_spec false s2 a v); [done|apply Hr|]. intros s3 Hr3. simpl. wp_step. by apply HF.
Qed.

Lemma vfs_open_spec s a path p openflags Q :
  vfs_repr false s a → good_string path p →
  (∀ v s', vfs_repr false s' (add_open v a) → (Z.land openflags O_CREAT = 0 → leads_to a p v) → Q (Ret v) s') →
  (∀ e s', vfs_repr false s' a → Q (Fail e) s') →
  (∀ s', needs_root p → may_panic in_getroot → Q (Halt Panic) s') →
  wp (vfs_open path openflags) Q s.
Proof.
  intros Hr Hp HQ HF HP. unfold vfs_open. cbn zeta. pose proof (vr_opens _ _ _ Hr) as Ho.
  assert (∀ Q', (∀ b, Q' (Ret b) s) → Q' (Fail EINVAL) s →
    wp (if Z.land openflags O_ACCMODE =? O_RDONLY then mret false
        else if (Z.land openflags O_ACCMODE =? O_WRONLY) || (Z.land openflags O_ACCMODE =? O_RDWR) then mret true
        else fail EINVAL) Q' s) as Hmode.
  { intros Q' Hb Hf. repeat case_match; wp_step; auto. }
  wp_step. apply Hmode; [|by apply HF]. intros canwrite. wp_step. eapply open_vnode_spec; [done..| |done|done].
  intros v s1 Hr1 Hl. wp_step. wp_step. eapply (keep_spec false s1 (add_ref v a)); [done|..].
  { eapply law_open; [apply Hr1|apply reachable_add]. }
  2: { intros e s2 Hr2. wp_step. eapply (decref_spec false s2 a v); [done..|]. intros s3 Hr3. wp_step. by apply HF. }
  intros [] s2 Hr2. wp_step. eapply incopen_spec; [done..|]. intros s3 Hr3.
  destruct (negb (Z.land openflags O_TRUNC =? 0)); [|wp_step; by apply HQ]. wp_step. wp_step.
  assert (∀ e s4, vfs_repr false s4 (add_open v a) →
    wp (_ ← on_world (VOP_DECOPEN v); _ ← on_world (VOP_DECREF v); fail (A:=V) e) Q s4) as Hundo.
  { intros e s4 Hr4. wp_step. eapply decopen_spec; [done..|]. intros s5 Hr5. wp_step. eapply decref_spec; [done..|].
    intros s6 Hr6. wp_step. by apply HF. }
  destruct canwrite; cbn [negb]; [|wp_step; by apply Hundo].
  eapply (keep_spec false s3 (add_open v a)); [done|..].
  - eapply law_truncate; [apply Hr3|apply reachable_add].
  - intros [] s4 Hr4. wp_step. by apply HQ.
  - intros e s4 Hr4. by apply Hundo.
Qed.

Lemma vn_fs_spec lk s a v Q :
  vfs_repr lk s a → reachable a v → Q (Ret (fs_of v)) s → wp (on_world (vn_fs v)) Q s.
Proof.
  intros Hr Hv HQ. unfold on_world. wp_step. eapply wp_eq; [eapply law_fs; [apply (vr_world _ _ _ Hr)|exact Hv]|].
  by assert (set_world (world s) s = s) as -> by (by destruct s).
Qed.

(** Giving up two references. *)
Lemma decref_both_spec {X} s a v1 v2 (m : M st X) Q :
  vfs_repr false s (add_ref v2 (add_ref v1 a)) → a_opens a ⊆ a_refs a →
  (∀ s', vfs_repr false s' a → wp m Q s') →
  wp (_ ← on_world (VOP_DECREF v2); _ ← on_world (VOP_DECREF v1); m) Q s.
Proof.
  intros Hr Ho HQ. wp_step. eapply (decref_spec false s (add_ref v1 a) v2); [done|simpl; multiset_solver|].
  intros s1 Hr1. wp_step. by eapply decref_spec.
Qed.

Lemma vfs_rename_spec s a old new p1 p2 Q :
  vfs_repr false s a → good_string old p1 → good_string new p2 →
  (∀ s', vfs_repr false s' a → Q (Ret ()) s') → (∀ e s', vfs_repr false s' a → Q (Fail e) s') →
  (∀ s', (needs_root p1 ∨ needs_root p2) ∧ may_panic in_getroot ∨ may_panic in_rename → Q (Halt Panic) s') →
  wp (vfs_rename old new) Q s.
Proof.
  intros Hr Hp1 Hp2 HQ HF HP. pose proof (vr_opens _ _ _ Hr) as Ho. unfold vfs_rename.
  wp_step. eapply lookparent_name_spec; [done..| |done|by auto]. intros v1 n1 s1 Hr1 Hn1. cbn iota. wp_step. wp_step.
  eapply lookparent_name_spec; [done..| | |by auto].
  2: { intros e s2 Hr2. wp_step. eapply decref_spec; [done..|]. intros s3 Hr3. wp_step. by apply HF. }
  intros v2 n2 s2 Hr2 Hn2. assert (reachable (add_ref v2 (add_ref v1 a)) v1) as Hv1 by apply reachable_mono, reachable_add.
  wp_step. eapply vn_fs_spec; [done|exact Hv1|]. wp_step. eapply vn_fs_spec; [done|apply reachable_add|].
  case_decide as Hfs.
  - eapply decref_both_spec; [done..|]. intros s3 Hr3. wp_step. by apply HF.
  - assert (is_Some (fs_of v1) ∧ fs_of v1 = fs_of v2) as [Hsome Heq].
    { split; [apply not_eq_None_Some; tauto|]. destruct (decide (fs_of v1 = fs_of v2)); tauto. }
    wp_step. wp_step. unfold on_world at 1. wp_step.
    eapply wp_mono; [eapply law_rename; [apply (vr_world _ _ _ Hr2)|exact Hv1|apply reachable_add|done..]|].
    intros [[]|e|k] w' Hw; [| |destruct Hw as [-> ?]; by auto].
    + eapply decref_both_spec; [by apply repr_world_keep|done|]. intros s3 Hr3. simpl. wp_step. by apply HQ.
    + eapply decref_both_spec; [by apply repr_world_keep|done|]. intros s3 Hr3. simpl. wp_step. by apply HF.
Qed.

Lemma vfs_link_spec s a old new p1 p2 Q :
  vfs_repr false s a → good_string old p1 → good_string new p2 →
  (∀ v s', vfs_lookup old s = (Ret v, s') → dirvn v = false) →
  (∀ s', vfs_repr false s' a → Q (Ret ()) s') → (∀ e s', vfs_repr false s' a → Q (Fail e) s') →
  (∀ s', needs_root p1 ∨ needs_root p2 → may_panic in_getroot → Q (Halt Panic) s') →
  wp (vfs_link old new) Q s.
Proof.
  intros Hr Hp1 Hp2 Hdir HQ HF HP. pose proof (vr_opens _ _ _ Hr) as Ho. unfold vfs_link. wp_step.
  assert (wp (vfs_lookup old) (λ r s1, vfs_lookup old s = (r, s1)) s) as Hrun by (unfold wp; by destruct (vfs_lookup old s)).
  assert (wp (vfs_lookup old) (λ r s', match r with
    | Ret v => vfs_repr false s' (add_ref v a) | Fail _ => vfs_repr false s' a | Halt k => k = Panic ∧ needs_root p1 ∧ may_panic in_getroot end) s)
    as Hlook by (by eapply vfs_lookup_spec).
  eapply wp_mono; [exact (wp_and _ _ _ _ Hrun Hlook)|].
  intros [v1|e|k] s1 [Hr0 Hr1]; [|by apply HF|destruct Hr1 as (-> & ? & ?); apply HP; [by left|done]]. apply Hdir in Hr0. wp_step. wp_step.
  eapply lookparent_name_spec; [done..| | |by intros; apply HP; [right|]].
  2: { intros e s2 Hr2. wp_step. eapply decref_spec; [done..|]. intros s3 Hr3. wp_step. by apply HF. }
  intros v2 n2 s2 Hr2 Hn2. assert (reachable (add_ref v2 (add_ref v1 a)) v1) as Hv1 by apply reachable_mono, reachable_add.
  wp_step. eapply vn_fs_spec; [done|exact Hv1|]. wp_step. eapply vn_fs_spec; [done|apply reachable_add|].
  case_decide as Hfs.
  - eapply decref_both_spec; [done..|]. intros s3 Hr3. wp_step. by apply HF.
  - assert (is_Some (fs_of v1) ∧ fs_of v2 = fs_of v1) as [Hsome Heq].
    { split; [apply not_eq_None_Some; tauto|]. destruct (decide (fs_of v1 = fs_of v2)); [done|tauto]. }
    wp_step. wp_step. eapply keep_spec; [exact Hr2|..].
    { eapply law_link; [apply (vr_world _ _ _ Hr2)|apply reachable_add|exact Hv1|done..]. }
    + intros [] s3 Hr3. eapply decref_both_spec; [done..|]. intros s4 Hr4. simpl. wp_step. by apply HQ.
    + intros e s3 Hr3. eapply decref_both_spec; [done..|]. intros s4 Hr4. simpl. wp_step. by apply HF.
Qed.

(** ** Changing the current directory and the boot volume *)

Lemma repr_cwd lk s a c R' :
  vfs_repr lk s a → (∀ v, c = Some v → dirvn v = true) → a_opens a ⊆ R' →
  held (with_cwd c a) ⊎ R' = held a ⊎ a_refs a → vfs_repr lk (set_t_cwd c s) (with_refs R' (with_cwd c a)).
Proof.
  intros Hr Hd Ho Heq. destruct Hr. split; try done.
  change (held (with_refs R' (with_cwd c a))) with (held (with_cwd c a)). simpl. by rewrite Heq.
Qed.

Lemma repr_boot lk s a b R' :
  vfs_repr lk s a → a_opens a ⊆ R' →
  held (with_boot b a) ⊎ R' = held a ⊎ a_refs a → vfs_repr lk (set_bootfs_vnode b s) (with_refs R' (with_boot b a)).
Proof.
  intros Hr Ho Heq. destruct Hr. split; try done.
  change (held (with_refs R' (with_boot b a))) with (held (with_boot b a)). simpl. by rewrite Heq.
Qed.

(** The old directory is given up when the new one is in place. *)
Lemma drop_cwd_spec s a c R Q :
  vfs_repr false s a → (∀ v, c = Some v → dirvn v = true) → a_opens a ⊆ R →
  a_refs a = R ⊎ opt_ref c →
  (∀ s', vfs_repr false s' (with_refs R (with_cwd c a)) → Q (Ret ()) s') →
  wp (match t_cwd s with Some old => on_world (VOP_DECREF old) | None => mret () end) Q (set_t_cwd c s).
Proof.
  intros Hr Hd Ho HR HQ. rewrite (vr_cwd _ _ _ Hr). destruct (a_cwd a) as [old|] eqn:Hc.
  - eapply (decref_spec false _ (with_refs R (with_cwd c a)) old); [|done|done].
    refine (repr_cwd false s a c (R ⊎ {[+ old +]}) Hr Hd _ _); [multiset_solver|].
    unfold held. simpl. rewrite Hc, HR. simpl. multiset_solver.
  - wp_step. apply HQ. apply repr_cwd; [done..|]. unfold held. simpl. rewrite Hc, HR. simpl. multiset_solver.
Qed.

Lemma vfs_setcurdir_spec s a v Q :
  vfs_repr false s (add_ref v a) → a_opens a ⊆ a_refs a →
  (∀ s', vfs_repr false s' (with_cwd (Some v) a) → Q (Ret ()) s') →
  (∀ e s', vfs_repr false s' (add_ref v a) → Q (Fail e) s') →
  wp (vfs_setcurdir v) Q s.
Proof.
  intros Hr Ho HQ HF. unfold vfs_setcurdir. wp_step. unfold on_world at 1. wp_step.
  eapply wp_mono; [eapply law_gettype; [apply Hr|apply reachable_add]|].
  intros [t|e|k] w' Hw; [destruct Hw as [Hw Hd]|apply HF; by apply repr_world_keep|done].
  pose proof (repr_world_keep _ _ _ _ Hr Hw) as Hr1. destruct (S_ISDIR t) eqn:Ht; cbn [negb].
  - wp_step. wp_step. wp_step. wp_step.
    apply (drop_cwd_spec _ (add_ref v a) (Some v) (a_refs a)); [done|by intros ? [= <-]; apply Hd|done|done|].
    intros s' Hr'. apply HQ. by destruct a.
  - wp_step. by apply HF.
Qed.

Lemma vfs_clearcurdir_spec s a Q :
  vfs_repr false s a → (∀ s', vfs_repr false s' (with_cwd None a) → Q (Ret ()) s') → wp vfs_clearcurdir Q s.
Proof.
  intros Hr HQ. unfold vfs_clearcurdir. do 4 wp_step.
  apply (drop_cwd_spec _ a None (a_refs a)); [done|done|apply Hr|multiset_solver|].
  intros s' Hr'. apply HQ. by destruct a.
Qed.

Lemma vfs_chdir_spec s a path p Q :
  vfs_repr false s a → good_string path p →
  (∀ v s', vfs_repr false s' (with_cwd (Some v) a) → leads_to a p v → Q (Ret ()) s') →
  (∀ e s', vfs_repr false s' a → Q (Fail e) s') →
  (∀ s', needs_root p → may_panic in_getroot → Q (Halt Panic) s') →
  wp (vfs_chdir path) Q s.
Proof.
  intros Hr Hp HQ HF HP. pose proof (vr_opens _ _ _ Hr) as Ho. unfold vfs_chdir. wp_step.
  eapply vfs_lookup_spec; [done..| |done|done]. intros v s1 Hr1 Hl. wp_step. wp_step.
  eapply vfs_setcurdir_spec; [done..| |].
  - intros s2 Hr2. wp_step. by eapply HQ.
  - intros e s2 Hr2. wp_step. eapply decref_spec; [done..|]. intros s3 Hr3. wp_step. by apply HF.
Qed.

Lemma change_bootfs_spec s a b R Q :
  vfs_repr false s a → a_opens a ⊆ R → a_refs a = R ⊎ opt_ref b →
  (∀ s', vfs_repr false s' (with_refs R (with_boot b a)) → Q (Ret ()) s') →
  wp (change_bootfs b) Q s.
Proof.
  intros Hr Ho HR HQ. unfold change_bootfs. eapply acquire_bootfs_spec; [done|].
  do 4 wp_step. wp_step. unfold release_bootfs. wp_step. wp_step. wp_step. apply wp_assert; [done|]. wp_step. simpl.
  rewrite (vr_boot _ _ _ Hr).
  assert (∀ R', a_opens a ⊆ R' → held (with_boot b a) ⊎ R' = held a ⊎ a_refs a →
    vfs_repr false (set_bootfs_lock false (set_bootfs_vnode b (set_bootfs_lock true s))) (with_refs R' (with_boot b a))) as Hb.
  { intros R' Ho' Heq. pose proof (repr_boot _ _ _ _ _ Hr Ho' Heq) as []. by split. }
  destruct (a_boot a) as [old|] eqn:Hc.
  - eapply (decref_spec false _ (with_refs R (with_boot b a)) old); [|done|done].
    apply (Hb (R ⊎ {[+ old +]})); [multiset_solver|]. unfold held. simpl. rewrite Hc, HR. simpl. multiset_solver.
  - wp_step. apply HQ. apply Hb; [done|]. unfold held. simpl. rewrite Hc, HR. simpl. multiset_solver.
Qed.

(** ** [vfs_readlink] and [vfs_getcwd] *)

Lemma vfs_readlink_spec s us a path p (Q : result unit → st * uiost → Prop) :
  vfs_repr false s a → good_string path p →
  (∀ s' us', vfs_repr false s' a → Q (Ret ()) (s', us')) →
  (∀ e s' us', vfs_repr false s' a → Q (Fail e) (s', us')) →
  (∀ s' us', needs_root p → may_panic in_getroot → Q (Halt Panic) (s', us')) →
  wp (vfs_readlink path) Q (s, us).
Proof.
  intros Hr Hp HQ HF HP. pose proof (vr_opens _ _ _ Hr) as Ho. unfold vfs_readlink. wp_step. wp_step.
  eapply vfs_lookup_spec; [done..| |by auto|by auto]. intros v s1 Hr1 Hl. wp_step. wp_step. unfold on_world_uio. wp_step.
  eapply wp_mono; [eapply law_readlink; [apply Hr1|apply reachable_add]|].
  intros [[]|e|k] [w' us'] Hw; [..|done]; simpl in Hw; wp_step; wp_step;
    (eapply (decref_spec false _ a v); [by apply repr_world_keep|done|]); intros s3 Hr3; simpl; wp_step; auto.
Qed.

Lemma getdevname_loop_spec lk s a f (Q : result (option (list Z)) → st → Prop) : vfs_repr lk s a →
  ∀ l k, drop k (a_devs a) = l →
  (∀ kd, kd ∈ l → kd_fs kd = Some f → Q (Ret (Some (kd_name kd))) s) →
  ((∀ kd, kd ∈ l → kd_fs kd ≠ Some f) → Q (Ret None) s) →
  wp (getdevname_loop f (seqZ (Z.of_nat k) (Z.of_nat (length l)))) Q s.
Proof.
  intros Hr l. induction l as [|kd l IH]; intros k Hl HQ HN.
  { change (seqZ _ _) with (@nil Z). cbn [getdevname_loop]. wp_step. apply HN. intros kd Hkd. by apply not_elem_of_nil in Hkd. }
  rewrite seqZ_devs. cbn [getdevname_loop]. eapply dev_turn; [done..|]. intros p Hkd Hl' _ Hok. cbn [snd].
  case_decide as Hf; [wp_step; apply HQ; [by left|done]|]. apply IH; [done|..].
  - intros kd' Hkd'. apply HQ. by right.
  - intros Hno. apply HN. intros kd' [->|Hkd']%elem_of_cons; auto.
Qed.

Lemma vfs_getdevname_spec s a f Q :
  vfs_repr false s a → a_new a = None → is_Some (a_vols a !! f) →
  (∀ kd s', vfs_repr false s' a → kd ∈ a_devs a → kd_fs kd = Some f → Q (Ret (Some (kd_name kd))) s') →
  wp (vfs_getdevname f) Q s.
Proof.
  intros Hr Hnew Hf HQ. unfold vfs_getdevname. eapply with_knowndevs_spec; [done|]. intros s1 Hr1. wp_step.
  eapply all_devs_spec; [done|]. apply (getdevname_loop_spec true s1 a f _ Hr1 (a_devs a) 0); [apply drop_0|..].
  - intros kd Hin Hkf. exists a. split; [done|]. intros s3 Hr3. by apply HQ.
  - intros Hno. destruct (vr_mounts _ _ _ Hr f Hf) as [?|(kd & Hin & Hkf)]; [congruence|]. by destruct (Hno kd).
Qed.

(** The name of the volume of the current directory: its own, or that of its
    device. *)
Definition cwd_name (a : abs) (n : list Z) : Prop :=
  ∃ v f, a_cwd a = Some v ∧ fs_of v = Some f ∧
    match a_vols a !! f with
    | Some (Some name) => n = name
    | _ => ∃ kd, kd ∈ a_devs a ∧ kd_fs kd = Some f ∧ n = text_of (kd_name kd)
    end.

Lemma getcwd_out_spec s us a v name n (Q : result unit → st * uiost → Prop) :
  vfs_repr false s (add_ref v a) → dirvn v = true → good_string name n →
  uio_ok us → uio_dir (u us) = UIO_READ → uio_resid (u us) = iov_len (u us) →
  (∀ s' us' rest, vfs_repr false s' (add_ref v a) →
     moved_in us (take (Z.to_nat (uio_resid (u us))) (n ++ [chr ":"]) ++ rest) us' → Q (Ret ()) (s', us')) →
  (∀ e s' us', vfs_repr false s' (add_ref v a) → Q (Fail e) (s', us')) →
  wp (getcwd_out v name) Q (s, us).
Proof.
  intros Hr Hd (Hc & Hu & Hl) Hok Hdir Hres HQ HF. unfold getcwd_out. wp_step.
  eapply wp_deref; [by apply strlen_cstr|]. destruct Hc as [_ [junk ->]]. pose proof (zlen_nonneg n).
  pose proof (ok_resid _ Hok). pose proof (ok_len _ Hok) as Hlen. unfold is_u32 in Hlen.
  set (R0 := uio_resid (u us)) in *. wp_step. wp_step.
  apply uiomove_read_spec; [done|done|rewrite zlen_app; pose proof (zlen_nonneg (0 :: junk)); lia|by right| |by auto].
  intros us1 Hm1 Hok1. fold R0 in Hm1. rewrite take_app_le in Hm1 by (unfold zlen in *; lia).
  assert (zlen (take (Z.to_nat (Z.min (zlen n) R0)) n) = Z.min (zlen n) R0) as Hz1 by (rewrite zlen_take; lia).
  destruct (Hm1) as [Hu1 _ _]. rewrite Hz1 in Hu1. wp_step. wp_step.
  assert (uio_resid (u us1) = R0 - Z.min (zlen n) R0) as Hres1.
  { rewrite Hu1. simpl. fold R0. rewrite u32_small; [done|unfold is_u32; lia]. }
  apply uiomove_read_spec; [done|by rewrite Hu1|done|right; rewrite Hu1; simpl; fold R0; by rewrite Hres| |by auto].
  intros us2 Hm2 Hok2. unfold on_world_uio. wp_step. simpl.
  assert (moved_in us (take (Z.to_nat R0) (n ++ [chr ":"])) us2) as Hm.
  { pose proof (moved_in_app _ _ _ _ _ Hm1 Hm2) as Hm. rewrite Hres1 in Hm. unfold zlen in *.
    destruct (decide (R0 ≤ Z.of_nat (length n))).
    - rewrite take_app_le by lia. replace (Z.min 1 _) with 0 in Hm by lia. rewrite app_nil_r in Hm.
      by replace (Z.min (Z.of_nat (length n)) R0) with R0 in Hm by lia.
    - rewrite (firstn_all2 (n ++ _)) by (rewrite length_app; simpl; lia).
      replace (Z.min (Z.of_nat (length n)) R0) with (Z.of_nat (length n)) in Hm by lia. rewrite Nat2Z.id in Hm.
      rewrite (firstn_all2 n) in Hm by lia. by replace (Z.min 1 _) with 1 in Hm by lia. }
  eapply wp_mono; [eapply law_namefile; [apply Hr|apply reachable_add|done|done|]|].
  { destruct Hm2 as [-> _ _]. simpl. by rewrite Hu1. }
  intros [[]|e|k] [w' us3] Hw; [|apply HF; by apply repr_world_keep|done]. destruct Hw as [Hw [bs Hbs]].
  apply (HQ _ _ bs); [by apply repr_world_keep|]. by eapply moved_in_app.
Qed.

Lemma vfs_getcwd_spec s us a (Q : result unit → st * uiost → Prop) :
  vfs_repr false s a → a_new a = None → uio_ok us → uio_dir (u us) = UIO_READ → uio_resid (u us) = iov_len (u us) →
  (∀ s' us' n rest, vfs_repr false s' a → cwd_name a n →
     moved_in us (take (Z.to_nat (uio_resid (u us))) (n ++ [chr ":"]) ++ rest) us' → Q (Ret ()) (s', us')) →
  (∀ e s' us', vfs_repr false s' a → Q (Fail e) (s', us')) →
  wp vfs_getcwd Q (s, us).
Proof.
  intros Hr Hnew Hok Hdir Hres HQ HF. pose proof (vr_opens _ _ _ Hr) as Ho. unfold vfs_getcwd. wp_step. wp_step. wp_step.
  apply wp_assert; [by apply bool_decide_eq_true|]. wp_step. wp_step. eapply getcurdir_spec; [done| |by auto].
  intros v s1 Hcwd Hr1. pose proof (vr_cwddir _ _ _ Hr v Hcwd) as Hd. destruct (law_dirvn v Hd) as [f Hf].
  destruct (law_mounted _ _ _ _ v f (vr_world _ _ _ Hr1)) as [vol Hvol]; [apply reachable_add|done|]. simpl in Hvol.
  wp_step. wp_step. eapply vn_fs_spec; [done|apply reachable_add|]. rewrite Hf. wp_step. wp_step.
  eapply volname_spec; [exact Hr1|done|]. intros o Hos Hot.
  assert (∀ name n s2 us2, us2 = us → vfs_repr false s2 (add_ref v a) → good_string name n → cwd_name a n →
    wp (result ← attempt (getcwd_out v name); _ ← on_fst (on_world (VOP_DECREF v)); result_of result) Q (s2, us2)) as Hout.
  { intros name n s2 us2 -> Hr2 Hg Hn. wp_step. wp_step. eapply getcwd_out_spec; [done|done|done|done|done|done|..].
    - intros s3 us3 rest Hr3 Hm. wp_step. wp_step. eapply decref_spec; [done..|]. intros s4 Hr4. simpl. wp_step. by eapply HQ.
    - intros e s3 us3 Hr3. wp_step. wp_step. eapply decref_spec; [done..|]. intros s4 Hr4. simpl. wp_step. by apply HF. }
  wp_step. destruct o as [name|].
  - wp_step. apply (Hout name (text_of name)); [done|done|by apply is_string_good, Hos|].
    exists v, f. split_and!; [done..|]. rewrite Hvol. unfold opt_text in Hot. simpl in Hot. by subst vol.
  - wp_step. eapply vfs_getdevname_spec; [exact Hr1|done|by eexists|]. intros kd s2 Hr2 Hin Hkf.
    apply (Hout (kd_name kd) (text_of (kd_name kd))); [done|done|apply is_string_good|].
    + apply (proj1 (Forall_forall _ _) (vr_devs _ _ _ Hr) kd Hin).
    + exists v, f. split_and!; [done..|]. rewrite Hvol. unfold opt_text in Hot. simpl in Hot. subst vol. by exists kd.
Qed.
End specs.
