(* ===== verification/VfsTable.v ===== *)
(** * The device table of the virtual file system (kern/fs/vfs/vfslist.c)

    The operations that change the table of VfsSpec.v: mounting and unmounting
    volumes, adding devices, and choosing the boot file system. *)

From Stdlib Require Import Ascii.
From stdpp Require Import gmultiset.
From S2P Require Import Prelude Libc Printf Array CopyInOut Uio SfsVnode Vfs VfsSpec.

Section specs.
Context {W V F Dv : Type} `{VnodeLaws W V F Dv}.
Abbreviation st := (vfs W V F Dv).
Abbreviation kdev := (knowndev V F Dv).
Abbreviation abs := (@abs V F Dv _ _ _ _).

(** ** Synchronizing *)

Lemma vfs_sync_spec s a Q :
  vfs_repr false s a → (∀ s', vfs_repr false s' a → Q (Ret ()) s') → wp vfs_sync Q s.
Proof.
  intros Hr HQ. unfold vfs_sync. wp_step. eapply acquire_spec; [done|]. intros s1 Hr1. wp_step.
  eapply all_devs_spec; [done|]. wp_step. apply (wp_forM _ _ (λ _ s', vfs_repr true s' a)); [done|..].
  - intros i x s2 Hx Hr2. apply lookup_seqZ in Hx as [-> Hi]. wp_step. eapply nth_dev_spec; [done|lia|].
    intros p kd _ _ Hok. cbn [snd]. destruct (kd_fs kd) as [f|] eqn:Hf; [|by wp_step].
    wp_step. wp_step. eapply keep_spec; [done|eapply wp_mono; [eapply law_sync; [apply Hr2|by eapply ko_fs]|by intros [] ? ?; destruct_and?]|..].
    + intros x s3 Hr3. by wp_step.
    + intros e s3 Hr3. by wp_step.
  - intros s2 Hr2. by eapply release_spec.
Qed.

(** ** Mounting *)

Definition set_fs (o : option F) (kd : kdev) : kdev :=
  Build_knowndev (kd_name kd) (kd_rawname kd) (kd_device kd) (kd_vnode kd) o.

(** The device [k] gets the file system [o]; the mounted volumes are then [T]. *)
Definition with_fs (k : nat) (o : option F) (T : gmap F (option (list Z))) (a : abs) : abs :=
  Build_abs (alter (set_fs o) k (a_devs a)) T (a_cwd a) (a_boot a) (a_refs a) (a_opens a) (a_new a).

Lemma held_with_fs k o T a : held (with_fs k o T a) = held a.
Proof.
  unfold held, with_fs. simpl. do 2 f_equal. generalize (a_devs a). clear a. intros l.
  revert k. induction l as [|kd l IH]; intros [|k]; cbn; [done..|]. change (omap kd_ref (list_alter (set_fs o) k l)) with (omap kd_ref (alter (set_fs o) k l)). by rewrite IH.
Qed.

Lemma array_repr_inj (arr : array Z) l1 l2 : array_repr arr l1 → array_repr arr l2 → l1 = l2.
Proof.
  intros [_ Hn1 He1] [_ Hn2 He2]. apply list_eq_same_length with (length l2); [done|unfold zlen in *; lia|].
  intros i x y _ Hx Hy. destruct (He1 _ _ Hx) as (w1 & Hw1 & Hi1). destruct (He2 _ _ Hy) as (w2 & Hw2 & Hi2). congruence.
Qed.

Lemma repr_set_fs lk s a k p kd o w' T :
  vfs_repr lk s a → entry s k p kd → a_devs a !! k = Some kd →
  inv w' T (held a ⊎ a_refs a) (a_opens a) →
  kd_ok T (set_fs o kd) →
  (∀ j kd', j ≠ k → a_devs a !! j = Some kd' → kd_ok T kd' ∧ (is_Some o → kd_fs kd' ≠ o)) →
  (∀ f, is_Some (T !! f) → o = Some f ∨ a_new a = Some f ∨ ∃ j kd', j ≠ k ∧ a_devs a !! j = Some kd' ∧ kd_fs kd' = Some f) →
  vfs_repr lk (set_kds (<[p := set_fs o kd]> (kds s)) (set_world w' s)) (with_fs k o T a).
Proof.
  intros Hr [(ps' & Hps' & Hpk) _] Hkd Hinv Hok Hoth Hall.
  assert (∀ j, a_devs (with_fs k o T a) !! j = if decide (j = k) then Some (set_fs o kd) else a_devs a !! j) as Hlk.
  { intros j. simpl. case_decide as Hj; [subst j; by rewrite list_lookup_alter_eq, Hkd|by rewrite list_lookup_alter_ne]. }
  split; try apply Hr.
  - destruct (vr_table _ _ _ Hr) as (ps & Hps & Hnd & Hlen & Hk). simplify_eq.
    pose proof (array_repr_inj _ _ _ Hps Hps') as <-. exists ps. split_and!; [done|done|simpl; by rewrite length_alter|].
    intros i q Hi. rewrite Hlk. simpl. case_decide as Hik.
    + subst i. replace q with p by congruence. by rewrite lookup_insert_eq.
    + rewrite lookup_insert_ne; [by apply Hk|]. intros <-. by apply Hik, (NoDup_lookup ps i k p).
  - apply Forall_lookup. intros j kd'. rewrite Hlk. case_decide as Hj; [by intros [= <-]|]. intros Hjk. by destruct (Hoth j kd').
  - intros f [->|[?|(j & kd' & Hj & Hjk & Hf)]]%Hall; [right| by left|right].
    + exists (set_fs (Some f) kd). split; [|done]. apply (list_elem_of_lookup_2 _ k). rewrite Hlk. by rewrite decide_True.
    + exists kd'. split; [|done]. apply (list_elem_of_lookup_2 _ j). rewrite Hlk. by rewrite decide_False.
  - intros i j k1 k2 f. rewrite !Hlk. pose proof (vr_once _ _ _ Hr) as Honce.
    repeat case_decide; simplify_eq; intros; simplify_eq; simpl in *; [done|..].
    + destruct (Hoth j k2) as [_ Hne]; [done|done|]. destruct Hne; [subst o; by eexists|congruence].
    + destruct (Hoth i k1) as [_ Hne]; [done|done|]. destruct Hne; [subst o; by eexists|congruence].
    + by eapply Honce.
  - rewrite held_with_fs. apply Hinv.
Qed.

Lemma kd_ok_mono (T T' : gmap F (option (list Z))) (kd : kdev) :
  kd_ok T kd → (∀ f, kd_fs kd = Some f → is_Some (T !! f) → is_Some (T' !! f)) → kd_ok T' kd.
Proof. intros [] Hsub. split; eauto. Qed.

Lemma repr_mount lk s a k p kd f n w' :
  vfs_repr lk s a → entry s k p kd → a_devs a !! k = Some kd → kd_fs kd = None → a_vols a !! f = None →
  inv w' (<[f := n]> (a_vols a)) (held a ⊎ a_refs a) (a_opens a) →
  vfs_repr lk (set_kds (<[p := set_fs (Some f) kd]> (kds s)) (set_world w' s))
    (with_fs k (Some f) (<[f := n]> (a_vols a)) a).
Proof.
  intros Hr He Hkd Hno Hf Hinv. pose proof (proj1 (Forall_lookup _ _) (vr_devs _ _ _ Hr)) as Hoks.
  assert (∀ f', is_Some (a_vols a !! f') → is_Some (<[f := n]> (a_vols a) !! f')) as Hmono.
  { intros f' Hs. destruct (decide (f' = f)) as [->|]; [by rewrite lookup_insert_eq|by rewrite lookup_insert_ne]. }
  apply repr_set_fs; [done..| | |].
  - destruct (Hoks _ _ Hkd). split; [done|done| |done]. intros f' [= <-]. by rewrite lookup_insert_eq.
  - intros j kd' Hj Hjk. split; [eapply kd_ok_mono; [by eapply Hoks|by eauto]|]. intros _ Heq.
    destruct (ko_fs _ _ (Hoks _ _ Hjk) f Heq). congruence.
  - intros f' Hs. destruct (decide (f' = f)) as [->|Hne]; [by left|]. rewrite lookup_insert_ne in Hs by done. right.
    destruct (vr_mounts _ _ _ Hr f' Hs) as [?|(kd' & [j Hj]%list_elem_of_lookup_1 & Hkf)]; [by left|]. right. exists j, kd'.
    split_and!; [|done|done]. intros ->. congruence.
Qed.

Lemma repr_unmount lk s a k p kd f w' :
  vfs_repr lk s a → entry s k p kd → a_devs a !! k = Some kd → kd_fs kd = Some f → is_Some (kd_rawname kd) →
  inv w' (delete f (a_vols a)) (held a ⊎ a_refs a) (a_opens a) →
  vfs_repr lk (set_kds (<[p := set_fs None kd]> (kds s)) (set_world w' s)) (with_fs k None (delete f (a_vols a)) a).
Proof.
  intros Hr He Hkd Hfs [r Hraw] Hinv. pose proof (proj1 (Forall_lookup _ _) (vr_devs _ _ _ Hr)) as Hoks.
  apply repr_set_fs; [done..| | |].
  - destruct (Hoks _ _ Hkd) as [Hn Hra _ _]. split; [done|done|done|]. intros _. by apply (Hra r Hraw).
  - intros j kd' Hj Hjk. split; [|by intros []]. eapply kd_ok_mono; [by eapply Hoks|]. intros f' Hf' Hs.
    rewrite lookup_delete_ne; [done|]. intros <-. by apply Hj, (vr_once _ _ _ Hr j k kd' kd f).
  - intros f' Hs. right. destruct (decide (f' = f)) as [->|Hne]; [rewrite lookup_delete_eq in Hs; by destruct Hs|].
    rewrite lookup_delete_ne in Hs by done.
    destruct (vr_mounts _ _ _ Hr f' Hs) as [?|(kd' & [j Hj]%list_elem_of_lookup_1 & Hkf)]; [by left|]. right. exists j, kd'.
    split_and!; [|done|done]. intros ->. congruence.
Qed.

(** The device a mount names: the first mountable one of that name. *)
Definition mountable (n : list Z) (kd : kdev) : Prop := is_Some (kd_rawname kd) ∧ text_of (kd_name kd) = n.
#[global] Instance mountable_dec n kd : Decision (mountable n kd).
Proof. unfold mountable. apply _. Defined.

Lemma findmount_loop_spec lk s a name n (Q : result (Z * kdev) → st → Prop) :
  vfs_repr lk s a → good_string name n →
  ∀ l k, drop k (a_devs a) = l → Forall (λ kd, ¬ mountable n kd) (take k (a_devs a)) →
  (∀ i p kd, list_find (mountable n) (a_devs a) = Some (i, kd) → entry s i p kd → a_devs a !! i = Some kd →
     kd_ok (a_vols a) kd → mountable n kd → Q (Ret (p, kd)) s) →
  (list_find (mountable n) (a_devs a) = None → Q (Fail ENODEV) s) →
  wp (findmount_loop name (seqZ (Z.of_nat k) (Z.of_nat (length l)))) Q s.
Proof.
  intros Hr Hn l. induction l as [|kd l IH]; intros k Hl Hpre HQ HF.
  { change (seqZ _ _) with (@nil Z). cbn [findmount_loop]. wp_step. apply HF, list_find_None.
    rewrite <- (take_drop k (a_devs a)), Hl. by rewrite app_nil_r. }
  rewrite seqZ_devs. cbn [findmount_loop]. eapply dev_turn; [done..|]. intros p Hkd Hl' He Hok. cbn [snd].
  assert (¬ mountable n kd → wp (findmount_loop name (seqZ (Z.of_nat (S k)) (Z.of_nat (length l)))) Q s) as Hnext.
  { intros Hm. apply IH; [done| |done|done]. rewrite (take_S_r _ _ _ Hkd). apply Forall_app. by repeat constructor. }
  destruct (kd_rawname kd) as [r|] eqn:Hraw; [|apply Hnext; intros [[? ?] _]; congruence].
  wp_step. apply streq_spec; [by eexists|apply Hok|]. rewrite (text_of_good _ _ Hn).
  case_bool_decide as Hname.
  - wp_step. assert (mountable n kd) as Hm by (split; [by rewrite Hraw|done]). apply (HQ k); [|done..].
    apply list_find_Some. split_and!; [done|done|]. intros j y Hj Hlt.
    apply (proj1 (Forall_lookup _ _) Hpre j y). by rewrite lookup_take_lt.
  - apply Hnext. by intros [_ ?].
Qed.

Lemma findmount_spec s a name n (Q : result (Z * kdev) → st → Prop) :
  vfs_repr true s a → good_string name n →
  (∀ i p kd, list_find (mountable n) (a_devs a) = Some (i, kd) → entry s i p kd → a_devs a !! i = Some kd →
     kd_ok (a_vols a) kd → mountable n kd → Q (Ret (p, kd)) s) →
  (list_find (mountable n) (a_devs a) = None → Q (Fail ENODEV) s) →
  wp (findmount name) Q s.
Proof.
  intros Hr Hn HQ HF. unfold findmount. wp_step. wp_step. wp_step. apply wp_assert; [apply Hr|]. wp_step.
  eapply all_devs_spec; [done|]. by apply (findmount_loop_spec true s a name n Q Hr Hn (a_devs a) 0).
Qed.

Lemma list_find_with_fs n a i kd o T :
  list_find (mountable n) (a_devs a) = Some (i, kd) →
  list_find (mountable n) (a_devs (with_fs i o T a)) = Some (i, set_fs o kd).
Proof.
  intros (Hi & Hm & Hlt)%list_find_Some. apply list_find_Some. split_and!; [|done|].
  - simpl. by rewrite list_lookup_alter_eq, Hi.
  - intros j y Hj Hji. simpl in Hj. rewrite list_lookup_alter_ne in Hj by lia. by eapply Hlt.
Qed.

(** Mounting and unmounting. *)
Lemma with_fs_undo a i kd f vn :
  a_devs a !! i = Some kd → kd_fs kd = None → a_vols a !! f = None →
  with_fs i None (delete f (<[f := vn]> (a_vols a))) (with_fs i (Some f) (<[f := vn]> (a_vols a)) a) = a.
Proof.
  intros Hi Hfs Hf. unfold with_fs. simpl. rewrite delete_insert_id by done.
  replace (alter (set_fs None) i (alter (set_fs (Some f)) i (a_devs a))) with (a_devs a); [by destruct a|].
  apply list_eq. intros j. destruct (decide (j = i)) as [->|Hne].
  - rewrite !list_lookup_alter_eq, Hi. simpl. f_equal. destruct kd. simpl in *. by subst.
  - by rewrite !list_lookup_alter_ne.
Qed.

(** What a mount function promises for the mountable devices of the table: a
    volume that was not mounted, or an error of [E] and nothing changed. *)
Definition mounts (mountfunc : Dv → M W F) (E : errno → Prop) (a : abs) : Prop :=
  ∀ kd dev w, kd ∈ a_devs a → is_Some (kd_rawname kd) → kd_device kd = Some dev →
    inv w (a_vols a) (held a ⊎ a_refs a) (a_opens a) →
    wp (mountfunc dev) (λ r w', match r with
      | Ret f => a_vols a !! f = None ∧ ∃ n, inv w' (<[f := n]> (a_vols a)) (held a ⊎ a_refs a) (a_opens a)
      | Fail e => E e ∧ inv w' (a_vols a) (held a ⊎ a_refs a) (a_opens a)
      | Halt _ => False
      end) w.

Lemma set_kd_fs_spec (s : st) p kd o Q :
  kds s !! p = Some kd → Q (Ret ()) (set_kds (<[p := set_fs o kd]> (kds s)) s) → wp (set_kd_fs p o) Q s.
Proof. intros He HQ. unfold set_kd_fs, get_kd. wp_step. wp_step. wp_step. eapply wp_deref; [exact He|]. by wp_step. Qed.

Lemma vfs_mount_spec s a name n mountfunc E Q :
  vfs_repr false s a → good_string name n → mounts mountfunc E a →
  (∀ i kd f vn s', list_find (mountable n) (a_devs a) = Some (i, kd) → kd_fs kd = None → a_vols a !! f = None →
     vfs_repr false s' (with_fs i (Some f) (<[f := vn]> (a_vols a)) a) → Q (Ret ()) s') →
  (∀ e s', vfs_repr false s' a →
     match list_find (mountable n) (a_devs a) with
     | None => e = ENODEV
     | Some (_, kd) => if kd_fs kd is Some _ then e = EBUSY else E e
     end → Q (Fail e) s') →
  wp (vfs_mount name mountfunc) Q s.
Proof.
  intros Hr Hn Hm HQ HF. unfold vfs_mount. eapply with_knowndevs_spec; [done|]. intros s1 Hr1. wp_step.
  eapply findmount_spec; [done..| |].
  2:{ intros Hnone. exists a. split; [done|]. intros s3 Hr3. apply HF; [done|]. by rewrite Hnone. }
  intros i p kd Hfind He Hkd Hok [[r Hraw] _]. destruct (kd_fs kd) as [f|] eqn:Hf.
  { wp_step. exists a. split; [done|]. intros s3 Hr3. apply HF; [done|]. by rewrite Hfind, Hf. }
  wp_step. apply wp_assert; [by rewrite Hraw|]. destruct (ko_dev _ _ Hok Hf) as [dev Hdev]. rewrite Hdev. wp_step. unfold on_world at 1.
  wp_step. eapply wp_mono; [eapply Hm; [by eapply list_elem_of_lookup_2|by eexists|done|apply Hr1]|].
  intros [f|e|k] w'; [intros (Hfree & vn & Hw)|intros [HE Hw]|done].
  2:{ exists a. split; [by apply repr_world_keep|]. intros s3 Hr3. apply HF; [done|]. by rewrite Hfind, Hf. }
  pose proof (repr_mount _ _ _ _ _ _ _ _ _ Hr1 He Hkd Hf Hfree Hw) as Hr2. wp_step.
  eapply set_kd_fs_spec; [exact (proj2 He)|]. wp_step.
  eapply volname_spec; [exact Hr2|apply lookup_insert_eq|]. intros o _ _. wp_step. eexists. split; [exact Hr2|].
  intros s3 Hr3. by eapply HQ.
Qed.

(** Syncing and unmounting the volume of an entry. *)
Lemma unmount_entry_spec s a k p kd f Q :
  vfs_repr true s a → entry s k p kd → a_devs a !! k = Some kd → kd_fs kd = Some f → is_Some (kd_rawname kd) →
  fs_clean f (world s) →
  (∀ s', vfs_repr true s' (with_fs k None (delete f (a_vols a)) a) → Q (Ret ()) s') →
  (∀ e s', vfs_repr true s' a → entry s' k p kd → Q (Fail e) s') →
  wp (_ ← on_world (FSOP_UNMOUNT f); set_kd_fs p None) Q s.
Proof.
  intros Hr He Hkd Hf Hraw Hcl HQ HF. wp_step. unfold on_world. wp_step.
  eapply wp_mono; [eapply law_unmount; [apply Hr| |done]|].
  { eapply ko_fs; [|exact Hf]. by eapply (proj1 (Forall_lookup _ _) (vr_devs _ _ _ Hr)). }
  intros [[]|e|k'] w' Hw; [|apply HF; [by apply repr_world_keep|exact He]|done].
  eapply set_kd_fs_spec; [exact (proj2 He)|]. apply HQ. exact (repr_unmount _ _ _ _ _ _ _ _ Hr He Hkd Hf Hraw Hw).
Qed.

Lemma sync_entry_spec s a k p kd f Q :
  vfs_repr true s a → entry s k p kd → a_devs a !! k = Some kd → kd_fs kd = Some f →
  (∀ s', vfs_repr true s' a → entry s' k p kd → fs_clean f (world s') → Q (Ret ()) s') →
  (∀ e s', vfs_repr true s' a → entry s' k p kd → Q (Fail e) s') →
  wp (on_world (FSOP_SYNC f)) Q s.
Proof.
  intros Hr He Hkd Hf HQ HF. unfold on_world. wp_step. eapply wp_mono; [eapply law_sync; [apply Hr|]|].
  { eapply ko_fs; [|exact Hf]. by eapply (proj1 (Forall_lookup _ _) (vr_devs _ _ _ Hr)). }
  intros [[]|e|k'] w' Hw; [destruct Hw; apply HQ|apply HF|done]; try exact He; try done; by apply repr_world_keep.
Qed.

Lemma vfs_unmount_spec s a name n Q :
  vfs_repr false s a → good_string name n →
  (∀ i kd f s', list_find (mountable n) (a_devs a) = Some (i, kd) → kd_fs kd = Some f →
     vfs_repr false s' (with_fs i None (delete f (a_vols a)) a) → Q (Ret ()) s') →
  (∀ e s', vfs_repr false s' a →
     match list_find (mountable n) (a_devs a) with
     | None => e = ENODEV
     | Some (_, kd) => kd_fs kd = None → e = EINVAL
     end → Q (Fail e) s') →
  wp (vfs_unmount name) Q s.
Proof.
  intros Hr Hn HQ HF. unfold vfs_unmount. eapply with_knowndevs_spec; [done|]. intros s1 Hr1. wp_step.
  eapply findmount_spec; [done..| |].
  2:{ intros Hnone. exists a. split; [done|]. intros s3 Hr3. apply HF; [done|]. by rewrite Hnone. }
  intros i p kd Hfind He Hkd Hok [[r Hraw] _]. destruct (kd_fs kd) as [f|] eqn:Hf.
  2:{ wp_step. exists a. split; [done|]. intros s3 Hr3. apply HF; [done|]. by rewrite Hfind. }
  wp_step. apply wp_assert; [by rewrite Hraw|]. wp_step.
  destruct (proj2 (ko_raw _ _ Hok r Hraw)) as [dev Hdev]. apply wp_assert; [by rewrite Hdev|]. wp_step.
  assert (∀ e s2, vfs_repr true s2 a →
    ∃ a' : abs, vfs_repr true s2 a' ∧ ∀ s3, vfs_repr false s3 a' → Q (Fail e) s3) as Hfail.
  { intros e s2 Hr2. exists a. split; [done|]. intros s3 Hr3. apply HF; [done|]. by rewrite Hfind, Hf. }
  eapply sync_entry_spec; [done..| |by eauto]. intros s2 Hr2 He2 Hcl.
  eapply unmount_entry_spec; [done|done|done|done|by rewrite Hraw|done| |by eauto].
  intros s3 Hr3. eexists. split; [exact Hr3|]. intros s4 Hr4. by eapply HQ.
Qed.

(** Unmounting volumes one after the other. *)
Inductive unmounts (a : abs) : abs → Prop :=
  | unmounts_refl : unmounts a a
  | unmounts_step a' k kd f :
      unmounts a a' → a_devs a' !! k = Some kd → is_Some (kd_rawname kd) → kd_fs kd = Some f →
      unmounts a (with_fs k None (delete f (a_vols a')) a').

Lemma unmounts_length a a' : unmounts a a' → length (a_devs a') = length (a_devs a).
Proof. induction 1; [done|]. simpl. by rewrite length_alter. Qed.

Lemma unmount_dev_spec s a0 a i Q :
  vfs_repr true s a → unmounts a0 a → 0 ≤ i < Z.of_nat (length (a_devs a)) →
  (∀ s' a', vfs_repr true s' a' → unmounts a0 a' → Q (Ret ()) s') → wp (unmount_dev i) Q s.
Proof.
  intros Hr Hu Hi HQ. unfold unmount_dev. wp_step. eapply nth_dev_spec; [done..|]. intros p kd Hkd He Hok.
  destruct (kd_rawname kd) as [r|] eqn:Hraw; [|wp_step; by eapply HQ].
  destruct (kd_fs kd) as [f|] eqn:Hf; [|wp_step; by eapply HQ].
  set (unmount := λ r : () + errno, match r with
    | inl _ => r ← attempt (on_world (FSOP_UNMOUNT f)); match r with inl _ => set_kd_fs p None | inr _ => mret () end
    | inr _ => mret ()
    end : M st unit).
  assert (∀ r s2, vfs_repr true s2 a → entry s2 (Z.to_nat i) p kd → (r = inl () → fs_clean f (world s2)) → wp (unmount r) Q s2) as Hun.
  { intros [[]|e] s2 Hr2 He2 Hcl; simpl; [|wp_step; by eapply HQ]. wp_step. wp_step. unfold on_world. wp_step.
    eapply wp_mono; [eapply law_unmount; [apply Hr2|by eapply ko_fs|by apply Hcl]|].
    intros [[]|e|k] w' Hw; [..|done].
    - eapply set_kd_fs_spec; [exact (proj2 He2)|]. eapply HQ; [|by eapply unmounts_step].
      refine (repr_unmount _ _ _ _ _ _ _ _ Hr2 He2 Hkd Hf _ Hw). by rewrite Hraw.
    - wp_step. eapply HQ; [by apply repr_world_keep|done]. }
  wp_step. wp_step. eapply sync_entry_spec; [done..| |].
  - intros s2 Hr2 He2 Hcl. wp_step. wp_step. by apply (Hun (inl ())).
  - intros e s2 Hr2 He2. wp_step. wp_step. eapply sync_entry_spec; [done..| |].
    + intros s3 Hr3 He3 Hcl. by apply (Hun (inl ())).
    + intros e' s3 Hr3 He3. by apply (Hun (inr e')).
Qed.

Lemma vfs_unmountall_spec s a Q :
  vfs_repr false s a → (∀ s' a', vfs_repr false s' a' → unmounts a a' → Q (Ret ()) s') → wp vfs_unmountall Q s.
Proof.
  intros Hr HQ. unfold vfs_unmountall. wp_step. eapply acquire_spec; [done|]. intros s1 Hr1. wp_step.
  eapply all_devs_spec; [done|]. wp_step.
  apply (wp_forM _ _ (λ _ s', ∃ a', vfs_repr true s' a' ∧ unmounts a a')); [exists a; split; [done|constructor]|..].
  - intros i x s2 Hx (a' & Hr2 & Hu). apply lookup_seqZ in Hx as [-> Hi].
    eapply unmount_dev_spec; [done|done|rewrite (unmounts_length _ _ Hu); lia|eauto].
  - intros s2 (a' & Hr2 & Hu). eapply release_spec; [done|]. intros s3 Hr3. by eapply HQ.
Qed.

(** ** Adding a device *)

Lemma vfs_kmalloc_spec lk s a Q : vfs_repr lk s a → (∀ b s', vfs_repr lk s' a → Q (Ret b) s') → wp kmalloc Q s.
Proof.
  intros Hr HQ. unfold kmalloc. wp_step. wp_step. destruct (mallocs s) as [|b bs]; [wp_step; by apply HQ|].
  wp_step. wp_step. wp_step. apply HQ. destruct Hr. by split.
Qed.

Lemma zlen_replicate_u32 n (x : Z) : is_u32 n → zlen (replicate (Z.to_nat (u32 n)) x) = n.
Proof. intros Hn. rewrite u32_small by done. unfold zlen, is_u32 in *. rewrite length_replicate. lia. Qed.

Lemma kstrdup_spec lk s a name n Q :
  vfs_repr lk s a → good_string name n →
  (∀ z s', vfs_repr lk s' a → good_string z n → Q (Ret (Some z)) s') →
  (∀ s', vfs_repr lk s' a → Q (Ret None) s') → wp (kstrdup name) Q s.
Proof.
  intros Hr (Hc & Hu & Hl) HQ HN. pose proof (zlen_nonneg n). unfold kstrdup. wp_step.
  eapply wp_deref; [by apply strlen_cstr|]. wp_step. eapply vfs_kmalloc_spec; [done|]. intros [] s1 Hr1; [|wp_step; by apply HN].
  wp_step. eapply wp_deref; [eapply strcpy_spec; [done|rewrite zlen_replicate_u32; [lia|unfold is_u32; lia]]|].
  wp_step. apply HQ; [done|]. split_and!; [|done|done]. apply cstr_app, Hc.
Qed.

Lemma mkrawname_spec lk s a name n Q :
  vfs_repr lk s a → good_string name n → zlen n + 3 < 2 ^ 31 →
  (∀ z s', vfs_repr lk s' a → good_string z (n ++ bytes "raw") → Q (Ret (Some z)) s') →
  (∀ s', vfs_repr lk s' a → Q (Ret None) s') → wp (mkrawname name) Q s.
Proof.
  intros Hr (Hc & Hu & Hl) Hn HQ HN. pose proof (zlen_nonneg n). unfold mkrawname. wp_step.
  eapply wp_deref; [by apply strlen_cstr|]. wp_step. eapply vfs_kmalloc_spec; [done|]. intros [] s1 Hr1; [|wp_step; by apply HN].
  assert (zlen (replicate (Z.to_nat (u32 (zlen n + 3 + 1))) 0) = zlen n + 4) as Hz.
  { rewrite zlen_replicate_u32; [lia|unfold is_u32; lia]. }
  wp_step. eapply wp_deref; [by eapply strcpy_spec; [exact Hc|lia]|]. wp_step.
  set (d := n ++ 0 :: _). assert (zlen d = zlen n + 4) as Hd.
  { unfold d. revert Hz. generalize (replicate (Z.to_nat (u32 (zlen n + 3 + 1))) 0). intros r Hz.
    unfold zlen in *. rewrite length_app. simpl. rewrite length_drop. lia. }
  assert (cstr d n) as Hcd by apply cstr_app, Hc. clearbody d.
  pose proof (strcat_correct d (literal "raw") n (bytes "raw") Hcd) as Hcat.
  rewrite decide_True in Hcat by (change (zlen (bytes "raw")) with 3; lia).
  destruct Hcat as (x & Hx & Hcx & _). { apply literal_cstr. by apply (bool_decide_unpack _). }
  eapply wp_deref; [exact Hx|]. wp_step. apply HQ; [done|]. split_and!; [done| |].
  - apply Forall_app. split; [done|]. by apply (bool_decide_unpack _).
  - rewrite zlen_app. change (zlen (bytes "raw")) with 3. lia.
Qed.

(** The names a device answers to. *)
Definition dev_names (T : gmap F (option (list Z))) (kd : kdev) : list (list Z) :=
  option_list (kd_fs kd ≫= vol_name T) ++ option_list (opt_text (kd_rawname kd)) ++ [text_of (kd_name kd)].

Definition clash (T : gmap F (option (list Z))) (ns : list (list Z)) (l : list kdev) : Prop :=
  ∃ kd x, kd ∈ l ∧ x ∈ dev_names T kd ∧ x ∈ ns.

Lemma elem_of_option_list {A} (o : option A) x : x ∈ option_list o ↔ o = Some x.
Proof. destruct o; simpl; [rewrite list_elem_of_singleton; naive_solver|by rewrite elem_of_nil]. Qed.

Lemma samestring_spec (s : st) a b Q :
  opt_string a → opt_string b →
  ((∃ x, opt_text a = Some x ∧ opt_text b = Some x) → Q (Ret true) s) →
  ((¬ ∃ x, opt_text a = Some x ∧ opt_text b = Some x) → Q (Ret false) s) →
  wp (samestring a b) Q s.
Proof.
  intros Ha Hb HT HF. destruct a as [a|], b as [b|]; simpl; try by (wp_step; apply HF; intros (? & ? & ?)).
  apply streq_spec; [by apply Ha|by apply Hb|]. case_bool_decide as Heq.
  - apply HT. exists (text_of a). split; [done|]. unfold opt_text. simpl. by rewrite Heq.
  - apply HF. intros (x & Hx & Hy). unfold opt_text in *. simpl in *. congruence.
Qed.

Lemma samestring3_spec (s : st) a b c d Q :
  opt_string a → Forall opt_string [b; c; d] →
  ((∃ x, opt_text a = Some x ∧ x ∈ omap opt_text [b; c; d]) → Q (Ret true) s) →
  ((¬ ∃ x, opt_text a = Some x ∧ x ∈ omap opt_text [b; c; d]) → Q (Ret false) s) →
  wp (samestring3 a b c d) Q s.
Proof.
  intros Ha [Hb [Hc [Hd _]%Forall_cons]%Forall_cons]%Forall_cons HT HF.
  assert (∀ o, o ∈ [b; c; d] → (∃ x, opt_text a = Some x ∧ opt_text o = Some x) →
    ∃ x, opt_text a = Some x ∧ x ∈ omap opt_text [b; c; d]) as Hin.
  { intros o Ho (x & Hx & Hy). exists x. split; [done|]. apply list_elem_of_omap. by exists o. }
  unfold samestring3. wp_step. apply samestring_spec; [done..| |].
  { intros Hx. wp_step. apply HT, (Hin b); [by rewrite !elem_of_cons; auto|done]. }
  intros Hnb. wp_step. apply samestring_spec; [done..| |].
  { intros Hx. wp_step. apply HT, (Hin c); [by rewrite !elem_of_cons; auto|done]. }
  intros Hnc. apply samestring_spec; [done..| |].
  { intros Hx. apply HT, (Hin d); [by rewrite !elem_of_cons; auto|done]. }
  intros Hnd. apply HF. intros (x & Hx & (o & Ho & Hy)%list_elem_of_omap).
  apply elem_of_cons in Ho as [->|Ho]; [by apply Hnb; eauto|].
  apply elem_of_cons in Ho as [->|Ho]; [by apply Hnc; eauto|]. apply list_elem_of_singleton in Ho as ->. by apply Hnd; eauto.
Qed.

Lemma badnames_loop_spec lk s a n1 n2 n3 Q : vfs_repr lk s a → Forall opt_string [n1; n2; n3] →
  ∀ l k, drop k (a_devs a) = l →
  (clash (a_vols a) (omap opt_text [n1; n2; n3]) l → Q (Ret true) s) →
  (¬ clash (a_vols a) (omap opt_text [n1; n2; n3]) l → Q (Ret false) s) →
  wp (badnames_loop n1 n2 n3 (seqZ (Z.of_nat k) (Z.of_nat (length l)))) Q s.
Proof.
  intros Hr Hns l. set (ns := omap opt_text [n1; n2; n3]). induction l as [|kd l IH]; intros k Hl HT HF.
  { change (seqZ _ _) with (@nil Z). cbn [badnames_loop]. wp_step. apply HF. by intros (kd & x & ?%not_elem_of_nil & _). }
  rewrite seqZ_devs. cbn [badnames_loop]. eapply dev_turn; [done..|]. intros p Hkd Hl' _ Hok. cbn [snd].
  assert (∀ o, opt_string o → (∀ x, opt_text o = Some x → x ∈ dev_names (a_vols a) kd) →
    ∀ Q', ((∀ x, opt_text o = Some x → x ∉ ns) → Q' (Ret false) s) →
      (clash (a_vols a) ns (kd :: l) → Q' (Ret true) s) →
    wp (samestring3 o n1 n2 n3) Q' s) as Hone.
  { intros o Ho Hnames Q' HQF HQT. apply samestring3_spec; [done..| |].
    - intros (x & Hx & Hin). apply HQT. exists kd, x. split_and!; [by left|by apply Hnames|done].
    - intros Hno. apply HQF. intros x Hx Hin. apply Hno. by exists x. }
  set (rest := badnames_loop n1 n2 n3 (seqZ (Z.of_nat (S k)) (Z.of_nat (length l)))).
  assert ((∀ x, kd_fs kd ≫= vol_name (a_vols a) = Some x → x ∉ ns) →
    wp (raw ← samestring3 (kd_rawname kd) n1 n2 n3;
        if (raw : bool) then mret true
        else
          named ← samestring3 (Some (kd_name kd)) n1 n2 n3;
          if (named : bool) then mret true else rest) Q s) as Hrest.
  { intros Hvol. wp_step. apply Hone; [intros r Hraw; exact (proj1 (ko_raw _ _ Hok r Hraw))| | |by intros ?; wp_step; auto].
    { intros x Hx. unfold dev_names. rewrite Hx, !elem_of_app. right; left. by left. }
    intros Hraw. wp_step. apply Hone; [by intros r [= <-]; apply Hok| | |by intros ?; wp_step; auto].
    { intros x [= <-]. unfold dev_names. rewrite !elem_of_app. right; right. by left. }
    intros Hname. cbv iota. apply IH; [done|..].
    - intros (kd' & x & Hin & Hx & Hxn). apply HT. exists kd', x. split_and!; [by right|done|done].
    - intros Hno. apply HF. intros (kd' & x & Hin & Hx & Hxn). apply elem_of_cons in Hin as [->|Hin].
      2:{ apply Hno. by exists kd', x. }
      unfold dev_names in Hx. rewrite !elem_of_app, !elem_of_option_list in Hx. destruct Hx as [Hx|[Hx|Hx]].
      + by apply (Hvol x).
      + by apply (Hraw x).
      + apply list_elem_of_singleton in Hx as ->. by apply (Hname _ eq_refl). }
  wp_step. destruct (kd_fs kd) as [f|] eqn:Hf; [|wp_step; by apply Hrest].
  destruct (ko_fs _ _ Hok f Hf) as [vn Hvn]. wp_step. eapply volname_spec; [done..|]. intros o Hos Hot. apply Hone; [done|..].
  - intros x Hx. unfold dev_names, vol_name. rewrite Hf. simpl. rewrite Hvn. simpl. rewrite <- Hot, Hx. by left.
  - intros Hno. apply Hrest. intros x. simpl. unfold vol_name. rewrite Hvn. simpl. intros ->. by apply Hno.
  - intros Hcl. cbv iota. wp_step. by apply HT.
Qed.

Lemma badnames_spec s a n1 n2 n3 Q : vfs_repr true s a → Forall opt_string [n1; n2; n3] →
  (clash (a_vols a) (omap opt_text [n1; n2; n3]) (a_devs a) → Q (Ret true) s) →
  (¬ clash (a_vols a) (omap opt_text [n1; n2; n3]) (a_devs a) → Q (Ret false) s) →
  wp (badnames n1 n2 n3) Q s.
Proof.
  intros Hr Hns HT HF. unfold badnames. wp_step. wp_step. wp_step. apply wp_assert; [apply Hr|]. wp_step.
  eapply all_devs_spec; [done|]. by apply (badnames_loop_spec true s a n1 n2 n3 Q Hr Hns (a_devs a) 0).
Qed.

Definition with_dev (kd : kdev) (a : abs) : abs :=
  Build_abs (a_devs a ++ [kd]) (a_vols a) (a_cwd a) (a_boot a) (a_refs a) (a_opens a)
    (match kd_fs kd with Some _ => None | None => a_new a end).

(** The state between the creation of an entry and its insertion. *)
Definition add_kd (kd : kdev) (a : abs) : abs := match kd_ref kd with Some v => add_ref v a | None => a end.

(** The file system of a new entry is new. *)
Definition fs_new (kd : kdev) (a : abs) : Prop :=
  ∀ f, kd_fs kd = Some f → a_new a = Some f ∧ ∀ kd', kd' ∈ a_devs a → kd_fs kd' ≠ Some f.

Lemma add_kd_fields kd a :
  a_devs (add_kd kd a) = a_devs a ∧ a_vols (add_kd kd a) = a_vols a ∧ a_cwd (add_kd kd a) = a_cwd a ∧
  a_boot (add_kd kd a) = a_boot a ∧ a_opens (add_kd kd a) = a_opens a ∧ a_new (add_kd kd a) = a_new a.
Proof. unfold add_kd. by destruct (kd_ref kd). Qed.

Lemma held_with_dev kd a : held (with_dev kd a) ⊎ a_refs a = held (add_kd kd a) ⊎ a_refs (add_kd kd a).
Proof.
  unfold add_kd, held. simpl. rewrite omap_app, list_to_set_disj_app. simpl. destruct (kd_ref kd); simpl; multiset_solver.
Qed.

(** The table takes over the reference to the vnode of the device. *)
Lemma repr_add_dev lk s a kd arr :
  vfs_repr lk s (add_kd kd a) → a_opens a ⊆ a_refs a → kd_ok (a_vols a) kd → fs_new kd a →
  (∀ ps, array_repr (knowndevs s) ps → array_repr arr (ps ++ [fresh (dom (kds s))])) →
  vfs_repr lk (set_kds (<[fresh (dom (kds s)) := kd]> (kds s)) (set_knowndevs arr s)) (with_dev kd a).
Proof.
  intros Hr Ho Hok Hfs Harr. destruct (add_kd_fields kd a) as (Hdev & Hvols & Hcwd & Hboot & Hopens & Hnew).
  set (p := fresh (dom (kds s))) in *. assert (kds s !! p = None) as Hp by apply not_elem_of_dom, is_fresh.
  destruct Hr as [Htab Hdevs Hmnt Honce Hlk Hbl Hc Hb Hcd _ Hw]. rewrite ?Hdev, ?Hvols, ?Hcwd, ?Hboot, ?Hopens, ?Hnew in *.
  split; simpl; try done.
  - destruct Htab as (ps & Hps & Hnd & Hlen & Hkd). exists (ps ++ [p]).
    assert (∀ i q, ps !! i = Some q → q ≠ p) as Hfresh.
    { intros i q Hi ->. pose proof (Hkd _ _ Hi) as Heq. rewrite Hp in Heq.
      pose proof (lookup_lt_Some _ _ _ Hi). destruct (lookup_lt_is_Some_2 (a_devs a) i); [lia|congruence]. }
    split_and!; [by apply Harr| |by rewrite !length_app, Hlen|].
    + apply NoDup_app. split_and!; [done| |by apply NoDup_singleton].
      intros q [i Hi]%list_elem_of_lookup_1 Hq%list_elem_of_singleton. by eapply Hfresh.
    + intros i q Hi. apply lookup_app_Some in Hi as [Hi|[Hge Hi]].
      * rewrite lookup_insert_ne by (symmetry; by eapply Hfresh). rewrite lookup_app_l; [by apply Hkd|].
        apply lookup_lt_Some in Hi. lia.
      * rewrite list_lookup_singleton_Some in Hi. destruct Hi as [Hz <-].
        rewrite lookup_insert_eq, lookup_app_r by lia. by replace (i - length (a_devs a))%nat with 0%nat by lia.
  - apply Forall_app. split; [done|by constructor].
  - intros f Hf. destruct (kd_fs kd) as [g|] eqn:Hg.
    + right. destruct (Hmnt f Hf) as [Hn|(kd' & Hin & Hk)].
      * exists kd. destruct (Hfs g Hg) as [Hn' _]. split; [|congruence]. apply elem_of_app. right. by left.
      * exists kd'. split; [|done]. apply elem_of_app. by left.
    + destruct (Hmnt f Hf) as [?|(kd' & Hin & Hk)]; [by left|right]. exists kd'. split; [|done]. apply elem_of_app. by left.
  - intros i j k1 k2 f [Hi|[? Hi]]%lookup_app_Some [Hj|[? Hj]]%lookup_app_Some H1f H2f; [by eapply Honce|..];
      rewrite ?list_lookup_singleton_Some in *; destruct_and?; subst.
    + destruct (Hfs f H2f) as [_ Hno]. destruct (Hno k1); [by eapply list_elem_of_lookup_2|done].
    + destruct (Hfs f H1f) as [_ Hno]. destruct (Hno k2); [by eapply list_elem_of_lookup_2|done].
    + lia.
  - by rewrite held_with_dev.
Qed.

Definition new_names (n : list Z) (mnt : bool) : list (list Z) := n :: (if mnt then [n ++ bytes "raw"] else []).

(** The device that is added. *)
Definition added (n : list Z) (mnt : bool) (dev : Dv) (kd : kdev) : Prop :=
  text_of (kd_name kd) = n ∧ opt_text (kd_rawname kd) = (if mnt then Some (n ++ bytes "raw") else None) ∧
  kd_device kd = Some dev ∧ kd_fs kd = None.

(** The part of [vfs_doadd] under the lock. *)
Lemma enter_dev_spec s a kd vn Q :
  vfs_repr false s (add_kd kd a) → a_opens a ⊆ a_refs a → kd_ok (a_vols a) kd → fs_new kd a → opt_string vn →
  Z.of_nat (length (a_devs a)) + 1 < 2 ^ 29 →
  (∀ s', vfs_repr false s' (with_dev kd a) →
     ¬ clash (a_vols a) (omap opt_text [Some (kd_name kd); kd_rawname kd; vn]) (a_devs a) → Q (Ret ()) s') →
  (∀ s', vfs_repr false s' (add_kd kd a) → Q (Fail ENOMEM) s') →
  (∀ s', vfs_repr false s' (add_kd kd a) →
     clash (a_vols a) (omap opt_text [Some (kd_name kd); kd_rawname kd; vn]) (a_devs a) → Q (Fail EEXIST) s') →
  wp (with_knowndevs (
        bad ← badnames (Some (kd_name kd)) (kd_rawname kd) vn;
        if (bad : bool) then fail EEXIST
        else
          s ← get;
          let p := fresh (dom (kds s)) in
          grow_ok ← kmalloc;
          _ ← on_knowndevs (array_add grow_ok p);
          modify (λ s, set_kds (<[p := kd]> (kds s)) s))) Q s.
Proof.
  intros Hr Ho Hok Hfs Hvn Hnum HQ HM HE. destruct (add_kd_fields kd a) as (Hdev & Hvols & _). eapply with_knowndevs_spec; [done|]. intros s1 Hr1. wp_step.
  eapply badnames_spec; [done| | |]; rewrite ?Hdev, ?Hvols.
  { repeat constructor; [by intros r [= <-]; apply Hok| |done]. intros r Hraw. exact (proj1 (ko_raw _ _ Hok r Hraw)). }
  { intros Hcl. wp_step. exists (add_kd kd a). split; [done|]. intros s2 Hr2. by apply HE. }
  intros Hno. wp_step. wp_step. cbv zeta. wp_step.
  assert (∀ b s2, vfs_repr true s2 (add_kd kd a) → kds s2 = kds s1 →
    wp (_ ← on_knowndevs (array_add b (fresh (dom (kds s1))));
        modify (λ s, set_kds (<[fresh (dom (kds s1)) := kd]> (kds s)) s))
      (λ r s3, match r with Halt k => Q (Halt k) s3
        | _ => ∃ a', vfs_repr true s3 a' ∧ ∀ s4, vfs_repr false s4 a' → Q r s4 end) s2) as Hadd.
  { intros b s2 Hr2 Heq. destruct (vr_table _ _ _ Hr2) as (ps & Hps & _ & Hlen & _). rewrite Hdev in Hlen.
    wp_step. unfold on_knowndevs. wp_step. eapply array_add_spec; [done|unfold zlen; lia| |].
    - intros arr Harr _. wp_step. exists (with_dev kd a). split; [|by auto].
      rewrite <- Heq in Harr |- *. refine (repr_add_dev true s2 a kd arr Hr2 Ho Hok Hfs _). intros ps' Hps'. by rewrite (array_repr_inj _ _ _ Hps' Hps).
    - intros _ _. rewrite set_knowndevs_id. exists (add_kd kd a). split; [done|]. by auto. }
  unfold kmalloc. wp_step. wp_step. destruct (mallocs s1) as [|b bs]; [wp_step; by apply Hadd|].
  wp_step. wp_step. wp_step. apply Hadd; [|done]. destruct Hr1. by split.
Qed.

(** A failure after the vnode is made leaves a reference to it that nobody holds. *)
Lemma vfs_adddev_spec s a name n dev mnt Q :
  vfs_repr false s a → good_string name n → zlen n + 3 < 2 ^ 31 → Z.of_nat (length (a_devs a)) + 1 < 2 ^ 29 →
  (∀ kd s', vfs_repr false s' (with_dev kd a) → added n mnt dev kd →
     ¬ clash (a_vols a) (new_names n mnt) (a_devs a) → Q (Ret ()) s') →
  (∀ s', vfs_repr false s' a → Q (Fail ENOMEM) s') →
  (∀ v s', vfs_repr false s' (add_ref v a) → Q (Fail ENOMEM) s') →
  (∀ v s', vfs_repr false s' (add_ref v a) → clash (a_vols a) (new_names n mnt) (a_devs a) → Q (Fail EEXIST) s') →
  (∀ s', may_panic in_create → Q (Halt Panic) s') →
  wp (vfs_adddev name dev mnt) Q s.
Proof.
  intros Hr Hn Hl Hnum HQ HM HL HE HP. pose proof (vr_opens _ _ _ Hr) as Ho. unfold vfs_adddev, vfs_doadd. wp_step.
  eapply kstrdup_spec; [done..| |by intros s1 Hr1; wp_step; apply HM]. intros z s1 Hr1 Hz. wp_step.
  assert (∀ raw s2, vfs_repr false s2 a → opt_string raw → opt_text raw = (if mnt then Some (n ++ bytes "raw") else None) →
    wp (vnode ← on_world (dev_create_vnode (Some dev));
        match vnode with
        | None => fail ENOMEM
        | Some vnode =>
            ok ← kmalloc;
            if negb ok then fail ENOMEM
            else
              let kd := Build_knowndev z raw (Some dev) vnode None in
              volname ← mret None;
              with_knowndevs (
                bad ← badnames (Some z) raw volname;
                if (bad : bool) then fail EEXIST
                else
                  s ← get;
                  let p := fresh (dom (kds s)) in
                  grow_ok ← kmalloc;
                  _ ← on_knowndevs (array_add grow_ok p);
                  modify (λ s, set_kds (<[p := kd]> (kds s)) s))
        end) Q s2) as Hgo.
  { intros raw s2 Hr2 Hraws Hraw. wp_step. unfold on_world. wp_step. eapply wp_mono; [eapply law_create_vnode, Hr2|].
    intros [[v|]|e|k] w' Hw; [|wp_step; by apply HM, repr_world_keep|done|destruct Hw as [-> ?]; by apply HP].
    wp_step. eapply vfs_kmalloc_spec; [by apply repr_add_ref|]. intros [] s3 Hr3; cbn [negb]; [|wp_step; by eapply HL]. wp_step. wp_step.
    set (kd := Build_knowndev z raw (Some dev) v None).
    assert (omap opt_text [Some (kd_name kd); kd_rawname kd; None] = new_names n mnt) as Hns.
    { unfold new_names. simpl. rewrite (text_of_good _ _ Hz), Hraw. by destruct mnt. }
    apply (enter_dev_spec s3 a kd None); [done|done| |done|done|done|..].
    - split; [by exists n| |done|by eexists]. intros r Hx. split; [by apply Hraws|by eexists].
    - intros s4 Hr4. rewrite Hns. apply (HQ kd); [done|]. split_and!; [by apply text_of_good|done..].
    - by apply HL.
    - intros s4 Hr4. rewrite Hns. by apply (HE v). }
  destruct mnt.
  - wp_step. eapply mkrawname_spec; [done..| |].
    + intros r s2 Hr2 Hrg. wp_step. apply Hgo; [done|by intros ? [= <-]; eexists|]. unfold opt_text. simpl.
      by rewrite (text_of_good _ _ Hrg).
    + intros s2 Hr2. wp_step. wp_step. by apply HM.
  - wp_step. by apply Hgo.
Qed.

(** A file system that is entered by itself, with no device. *)
Definition added_fs (n : list Z) (f : F) (kd : kdev) : Prop :=
  text_of (kd_name kd) = n ∧ kd_rawname kd = None ∧ kd_device kd = None ∧ kd_fs kd = Some f.

Lemma vfs_addfs_spec s a name n f vol Q :
  vfs_repr false s a → good_string name n → Z.of_nat (length (a_devs a)) + 1 < 2 ^ 29 →
  a_new a = Some f → a_vols a !! f = Some vol → (∀ kd, kd ∈ a_devs a → kd_fs kd ≠ Some f) →
  (∀ kd s', vfs_repr false s' (with_dev kd a) → added_fs n f kd →
     ¬ clash (a_vols a) (n :: option_list vol) (a_devs a) → Q (Ret ()) s') →
  (∀ s', vfs_repr false s' a → Q (Fail ENOMEM) s') →
  (∀ s', vfs_repr false s' a → clash (a_vols a) (n :: option_list vol) (a_devs a) → Q (Fail EEXIST) s') →
  (∀ s', may_panic in_create → Q (Halt Panic) s') →
  wp (vfs_addfs name f) Q s.
Proof.
  intros Hr Hn Hnum Hnew Hvol Hno HQ HM HE HP. pose proof (vr_opens _ _ _ Hr) as Ho. unfold vfs_addfs, vfs_doadd. wp_step.
  eapply kstrdup_spec; [done..| |by intros s1 Hr1; wp_step; apply HM]. intros z s1 Hr1 Hz. wp_step. wp_step. wp_step.
  unfold on_world. wp_step. eapply wp_mono; [eapply law_create_null, Hr1|].
  intros [[v|]|e|k] w' Hw; [|wp_step; by apply HM, repr_world_keep|done|destruct Hw as [-> ?]; by apply HP].
  wp_step. eapply vfs_kmalloc_spec; [by apply repr_world_keep|]. intros [] s3 Hr3; cbn [negb]; [|wp_step; by eapply HM].
  cbv zeta. wp_step. eapply volname_spec; [exact Hr3|exact Hvol|]. intros vn Hvs Hvt.
  set (kd := Build_knowndev z None (@None Dv) v (Some f)).
  assert (omap opt_text [Some (kd_name kd); kd_rawname kd; vn] = n :: option_list vol) as Hns.
  { simpl. rewrite (text_of_good _ _ Hz), Hvt. by destruct vol. }
  apply (enter_dev_spec s3 a kd vn); [done|done| | |done|done|..].
  - split; [by exists n|done| |done]. intros g [= <-]. by eexists.
  - intros g [= <-]. done.
  - intros s4 Hr4. rewrite Hns. apply (HQ kd); [done|]. split_and!; [by apply text_of_good|done..].
  - by apply HM.
  - intros s4 Hr4. rewrite Hns. by apply HE.
Qed.

(** ** The boot file system *)

Lemma snprintf_s buf len obj n :
  cstr obj n → zlen n < 2 ^ 31 → 0 < len < 2 ^ 32 → len ≤ zlen buf →
  ∃ r, snprintf len (literal "%s") [arg_str (Some obj)] buf = (Ret r, printed_into buf len n).
Proof.
  intros Hc Hn Hl Hb. pose proof (snprintf_spec buf len (literal "%s") [arg_str (Some obj)]) as Hs.
  pose proof (vprintf_items [Format.text no_flags (Some obj) n] []) as Hp. simpl in Hp.
  change (literal "%s") with [chr "%"; chr "s"; 0] in *. rewrite Hp in Hs.
  - unfold Format.in_field in Hs. rewrite padded_0, !app_nil_r in Hs. eexists. apply Hs; lia.
  - apply Forall_cons. split; [|constructor]. split; [by unfold Format.directive_ok|]. done.
Qed.

(** The name [vfs_setbootfs] works with. *)
Definition boot_name (n : list Z) : list Z := take (Z.to_nat (NAME_MAX - 1)) n.

Lemma boot_name_good junk obj n :
  good_string obj n → zlen junk = NAME_MAX + 1 →
  good_string (printed_into junk NAME_MAX n) (boot_name n) ∧ zlen (printed_into junk NAME_MAX n) = NAME_MAX + 1.
Proof.
  intros (Hc & Hu & Hl) Hj. unfold printed_into, boot_name. change (NAME_MAX =? 0) with false. cbv iota zeta.
  set (t := take _ n). assert (length t ≤ 254)%nat as Ht by (unfold t; rewrite length_take; change (Z.to_nat (NAME_MAX - 1)) with 254%nat; lia). split.
  - split_and!; [|by apply Forall_take|unfold zlen; lia]. apply cstr_app. apply Forall_take, Hc.
  - unfold zlen in *. rewrite length_app. simpl. rewrite length_drop. unfold NAME_MAX in *. lia.
Qed.

Lemma vfs_setbootfs_spec s a junk obj n Q :
  vfs_repr false s a → good_string obj n → zlen junk = NAME_MAX + 1 →
  (chr ":" ∈ boot_name n → Q (Fail EINVAL) s) →
  (∀ v s', chr ":" ∉ boot_name n → leads_to a (boot_name n ++ [chr ":"]) v →
     vfs_repr false s' (with_boot (Some v) (with_cwd (Some v) a)) → Q (Ret ()) s') →
  (∀ e s', chr ":" ∉ boot_name n → vfs_repr false s' a → Q (Fail e) s') →
  (∀ s', chr ":" ∉ boot_name n → may_panic in_getroot → Q (Halt Panic) s') →
  wp (vfs_setbootfs junk obj) Q s.
Proof.
  intros Hr Hg Hj HI HQ HF HP. pose proof (vr_opens _ _ _ Hr) as Ho. destruct (boot_name_good junk obj n Hg Hj) as [Hb Hz].
  unfold vfs_setbootfs. wp_step. destruct Hg as (Hc & Hu & Hl).
  destruct (snprintf_s junk NAME_MAX obj n Hc Hl) as [r Hsn]; [done|rewrite Hj; by vm_compute|].
  eapply wp_eq; [unfold on_local; by rewrite Hsn|]. cbn [snd]. set (tmp := printed_into junk NAME_MAX n) in *. clearbody tmp.
  destruct Hb as (Hbc & Hbu & Hbl). wp_step. destruct (decide (chr ":" ∈ boot_name n)) as [Hin|Hno].
  - apply list_elem_of_split_l in Hin as Hs. destruct Hs as (s1 & s2 & Heq & Hs1). rewrite Heq in Hbc.
    eapply wp_deref; [apply (strchr_Some tmp s1 (chr ":") s2 (chr ":")); [done|done|]|].
    { intros d Hd He. apply Hs1. rewrite <- (s8_inj d (chr ":")); [done| |done|by rewrite He].
      apply (proj1 (Forall_forall _ _) Hbu). rewrite Heq. apply elem_of_app. by left. }
    wp_step. wp_step. destruct Hbc as [Hnz [rest ->]]. eapply wp_deref.
    + apply (strlen_cstr _ (chr ":" :: s2)). split; [by apply Forall_app in Hnz as [_ ?]|]. exists rest.
      by rewrite <- app_assoc, drop_app_length.
    + unfold zlen. simpl length. rewrite (proj2 (Z.gtb_lt _ _)) by lia. wp_step. by apply HI.
  - eapply wp_deref; [apply (strchr_None tmp (boot_name n)); [done|done|]|].
    { intros d Hd He. apply Hno. rewrite <- (s8_inj d (chr ":")); [done| |done|by rewrite He].
      by apply (proj1 (Forall_forall _ _) Hbu). }
    pose proof (strcat_correct tmp (literal ":") (boot_name n) (bytes ":") Hbc) as Hcat.
    assert (zlen (boot_name n) ≤ 254) as H254.
    { unfold boot_name, zlen. rewrite length_take. change (Z.to_nat (NAME_MAX - 1)) with 254%nat. lia. }
    rewrite decide_True in Hcat by (rewrite Hz; change (zlen (bytes ":")) with 1; unfold NAME_MAX; lia).
    destruct Hcat as (d & Hd & Hcd & _). { apply literal_cstr. by apply (bool_decide_unpack _). }
    wp_step. eapply wp_deref; [exact Hd|]. change (bytes ":") with [chr ":"] in Hcd.
    wp_step. eapply vfs_chdir_spec; [done|..|by auto].
    + split_and!; [exact Hcd| |rewrite zlen_app; change (zlen [_]) with 1; lia]. apply Forall_app. split; [done|].
      by repeat constructor.
    + intros v s1 Hr1 Hl1. wp_step. eapply getcurdir_spec; [done| |done]. intros v' s2 [= <-] Hr2.
      eapply (change_bootfs_spec s2 _ (Some v) (a_refs a)); [done|done|done|]. intros s3 Hr3. apply (HQ v); [done|done|].
      by destruct a.
    + by auto.
Qed.

(** ** Names *)

Lemma resolve_dev_None T n kd : resolve_dev T n kd = None ↔ n ∉ dev_names T kd.
Proof.
  unfold resolve_dev, dev_names. rewrite !elem_of_app, !elem_of_option_list, list_elem_of_singleton.
  destruct (kd_fs kd) as [f|]; simpl; repeat case_decide; naive_solver.
Qed.

Lemma resolve_app T n l l' :
  Forall (λ kd, n ∉ dev_names T kd) l → resolve T n (l ++ l') = resolve T n l'.
Proof. induction 1 as [|kd l Hkd _ IH]; [done|]. simpl. by rewrite (proj2 (resolve_dev_None T n kd)). Qed.

Lemma resolve_app_l T n l l' :
  Forall (λ kd, n ∉ dev_names T kd) l' → resolve T n (l ++ l') = resolve T n l.
Proof.
  intros Hl'. induction l as [|kd l IH]; simpl; [|by destruct (resolve_dev T n kd)].
  rewrite <- (app_nil_r l'). by apply resolve_app.
Qed.

(** No two devices answer to the same name. *)
Definition unique_names (T : gmap F (option (list Z))) (l : list kdev) : Prop := NoDup (l ≫= dev_names T).

Lemma resolve_unique T n l i kd :
  unique_names T l → l !! i = Some kd → n ∈ dev_names T kd → resolve_dev T n kd = Some (resolve T n l).
Proof.
  intros Hu Hi Hn. apply list_elem_of_split_length in Hi as (l1 & l2 & -> & _). unfold unique_names in Hu.
  rewrite bind_app in Hu. apply NoDup_app in Hu as (_ & Hdis & _). rewrite resolve_app.
  - simpl. destruct (resolve_dev T n kd) eqn:Hr; [done|]. by apply resolve_dev_None in Hr.
  - apply Forall_forall. intros kd' Hkd' Hn'. apply (Hdis n); [apply list_elem_of_bind; eauto|].
    apply list_elem_of_bind. exists kd. split; [done|by left].
Qed.

Lemma added_names T n mnt dev kd : added n mnt dev kd → dev_names T kd ≡ₚ new_names n mnt.
Proof.
  intros (Hn & Hraw & _ & Hfs). unfold dev_names, new_names. rewrite Hfs, Hraw, Hn. simpl.
  destruct mnt; simpl; [|done]. apply Permutation_swap.
Qed.

Lemma new_names_NoDup n mnt : NoDup (new_names n mnt).
Proof.
  unfold new_names. destruct mnt; [|apply NoDup_singleton]. apply NoDup_cons. split; [|apply NoDup_singleton].
  intros Heq%list_elem_of_singleton. apply (f_equal length) in Heq. rewrite length_app in Heq. simpl in Heq. lia.
Qed.

Lemma unique_added T n mnt dev kd l :
  unique_names T l → added n mnt dev kd → ¬ clash T (new_names n mnt) l → unique_names T (l ++ [kd]).
Proof.
  intros Hu Ha Hno. unfold unique_names. rewrite bind_app. apply NoDup_app. simpl. rewrite app_nil_r. split_and!; [done| |].
  - intros x (kd' & Hx & Hin)%list_elem_of_bind Hx'. rewrite (added_names T _ _ _ _ Ha) in Hx'. apply Hno. by exists kd', x.
  - rewrite (added_names T _ _ _ _ Ha). apply new_names_NoDup.
Qed.

(** What the names of a new device, and all other names, lead to. *)
Lemma resolve_added T n mnt dev kd l :
  added n mnt dev kd → ¬ clash T (new_names n mnt) l →
  resolve T n (l ++ [kd]) = (if mnt then NotMounted else Raw (kd_vnode kd)) ∧
  (mnt = true → resolve T (n ++ bytes "raw") (l ++ [kd]) = Raw (kd_vnode kd)) ∧
  ∀ n', n' ∉ new_names n mnt → resolve T n' (l ++ [kd]) = resolve T n' l.
Proof.
  intros Ha Hno. pose proof (added_names T _ _ _ _ Ha) as Hperm. destruct Ha as (Hn & Hraw & Hdev & Hfs).
  assert (∀ x, x ∈ new_names n mnt → resolve T x (l ++ [kd]) = resolve T x [kd]) as Hnew.
  { intros x Hx. apply resolve_app. apply Forall_forall. intros kd' Hin Hx'. apply Hno. by exists kd', x. }
  split_and!.
  - rewrite Hnew by (by left). simpl. unfold resolve_dev. rewrite Hfs, decide_True by done.
    destruct (kd_rawname kd), mnt; simplify_eq/=; done.
  - intros ->. rewrite Hnew by (by right; left). simpl. unfold resolve_dev. rewrite Hfs, Hn.
    rewrite decide_False, decide_True; [done|done|]. intros Heq. apply (f_equal length) in Heq.
    rewrite length_app in Heq. simpl in Heq. lia.
  - intros n' Hn'. apply resolve_app_l. repeat constructor. by rewrite Hperm.
Qed.

(** A mounted device leads to the root of its volume, one whose volume is
    unmounted to nothing. *)
Lemma resolve_with_fs a k kd o T n :
  a_devs a !! k = Some kd → mountable n kd → unique_names T (a_devs (with_fs k o T a)) →
  resolve T n (a_devs (with_fs k o T a)) = match o with Some f => Root f | None => NotMounted end.
Proof.
  intros Hk [[r Hraw] Hn] Hu. assert (a_devs (with_fs k o T a) !! k = Some (set_fs o kd)) as Hk'.
  { simpl. by rewrite list_lookup_alter_eq, Hk. }
  assert (n ∈ dev_names T (set_fs o kd)) as Hin.
  { unfold dev_names. rewrite !elem_of_app. right; right. simpl. rewrite Hn. by left. }
  pose proof (resolve_unique T n _ k _ Hu Hk' Hin) as Hr. unfold resolve_dev in Hr. simpl kd_fs in Hr. simpl kd_name in Hr.
  rewrite Hn in Hr. simpl kd_rawname in Hr. rewrite Hraw in Hr. destruct o as [f|].
  - rewrite decide_True in Hr by (by left). by injection Hr.
  - rewrite decide_True in Hr by done. by injection Hr.
Qed.
End specs.
