(* ===== verification/VfsCalls.v ===== *)
(** * The virtual file system as its callers see it

    [call] is an operation of kern/include/vfs.h, [run_call] the function that
    carries it out, [adone] and [afail] what it does to the abstract state of
    VfsSpec.v.
    Every call refines its abstract step, so that along any sequence of calls
    the references to vnodes balance, the locks are free between calls, and the
    table of devices keeps its form. *)

From Stdlib Require Import Ascii.
From stdpp Require Import gmultiset.
From S2P Require Import Prelude Libc Printf Array CopyInOut Uio SfsVnode Vfs VfsSpec VfsTable.

Section calls.
Context {W V F Dv : Type} `{VnodeLaws W V F Dv}.
Abbreviation st := (vfs W V F Dv).
Abbreviation kdev := (knowndev V F Dv).
Abbreviation abs := (@abs V F Dv _ _ _ _).

Inductive call :=
  | c_setcurdir (v : V)
  | c_clearcurdir
  | c_getcurdir
  | c_sync
  | c_getroot (name : list Z)
  | c_getdevname (f : F)
  | c_lookup (path : list Z)
  | c_lookparent (path buf : list Z)
  | c_open (path : list Z) (flags : Z)
  | c_close (v : V)
  | c_readlink (path : list Z) (data : uiost)
  | c_symlink (text path : list Z)
  | c_mkdir (path : list Z)
  | c_link (old new : list Z)
  | c_remove (path : list Z)
  | c_rmdir (path : list Z)
  | c_rename (old new : list Z)
  | c_chdir (path : list Z)
  | c_getcwd (data : uiost)
  | c_setbootfs (junk name : list Z)
  | c_clearbootfs
  | c_adddev (name : list Z) (dev : Dv) (mnt : bool)
  | c_addfs (name : list Z) (f : F)
  | c_mount (name : list Z) (mountfunc : Dv → M W F)
  | c_unmount (name : list Z)
  | c_unmountall.

(** What a call hands back: a vnode, a name, a vnode and a name, or the request
    it moved data to. *)
Inductive answer :=
  | an_none
  | an_vnode (v : V)
  | an_name (o : option (list Z))
  | an_parent (v : V) (name : list Z)
  | an_uio (us : uiost).

Definition no_answer (m : M st unit) : M st answer := _ ← m; mret an_none.
Definition the_vnode (m : M st V) : M st answer := v ← m; mret (an_vnode v).
Definition with_uio (us : uiost) (m : M (st * uiost) unit) : M st answer := λ s,
  match m (s, us) with
  | (Ret _, (s', us')) => (Ret (an_uio us'), s')
  | (Fail e, (s', _)) => (Fail e, s')
  | (Halt k, (s', _)) => (Halt k, s')
  end.

Definition run_call (c : call) : M st answer :=
  match c with
  | c_setcurdir v => no_answer (vfs_setcurdir v)
  | c_clearcurdir => no_answer vfs_clearcurdir
  | c_getcurdir => the_vnode vfs_getcurdir
  | c_sync => no_answer vfs_sync
  | c_getroot name => the_vnode (vfs_getroot name)
  | c_getdevname f => o ← vfs_getdevname f; mret (an_name o)
  | c_lookup path => the_vnode (vfs_lookup path)
  | c_lookparent path buf => r ← vfs_lookparent path buf (zlen buf); mret (an_parent r.1 r.2)
  | c_open path flags => the_vnode (vfs_open path flags)
  | c_close v => no_answer (vfs_close v)
  | c_readlink path data => with_uio data (vfs_readlink path)
  | c_symlink text path => no_answer (vfs_symlink text path)
  | c_mkdir path => no_answer (vfs_mkdir path)
  | c_link old new => no_answer (vfs_link old new)
  | c_remove path => no_answer (vfs_remove path)
  | c_rmdir path => no_answer (vfs_rmdir path)
  | c_rename old new => no_answer (vfs_rename old new)
  | c_chdir path => no_answer (vfs_chdir path)
  | c_getcwd data => with_uio data vfs_getcwd
  | c_setbootfs junk name => no_answer (vfs_setbootfs junk name)
  | c_clearbootfs => no_answer vfs_clearbootfs
  | c_adddev name dev mnt => no_answer (vfs_adddev name dev mnt)
  | c_addfs name f => no_answer (vfs_addfs name f)
  | c_mount name mountfunc => no_answer (vfs_mount name mountfunc)
  | c_unmount name => no_answer (vfs_unmount name)
  | c_unmountall => no_answer vfs_unmountall
  end.

(** There is room for one more entry in the table. *)
Definition room (a : abs) : Prop := Z.of_nat (length (a_devs a)) + 1 < 2 ^ 29.

(** What the caller owes: strings that are strings, a vnode to which they have a
    reference or that they have open, no directory as the target of a link, a
    file system that is mounted or new, and a buffer to read into. *)
Definition call_ok (s : st) (a : abs) (c : call) : Prop :=
  match c with
  | c_open p _ | c_remove p | c_mkdir p | c_rmdir p | c_chdir p | c_unmount p | c_getroot p | c_lookup p
  | c_readlink p _ => is_string p
  | c_lookparent p buf => is_string p ∧ zlen buf < 2 ^ 31
  | c_setcurdir v => ∃ a', a = add_ref v a' ∧ a_opens a' ⊆ a_refs a'
  | c_close v => ∃ a', a = add_open v a' ∧ a_opens a' ⊆ a_refs a'
  | c_rename p q | c_symlink p q => is_string p ∧ is_string q
  | c_link p q => is_string p ∧ is_string q ∧ ∀ v s', vfs_lookup p s = (Ret v, s') → dirvn v = false
  | c_setbootfs junk p => is_string p ∧ zlen junk = NAME_MAX + 1
  | c_mount p mountfunc => is_string p ∧ mounts mountfunc (λ _, True) a
  | c_adddev p _ _ => (∃ n, good_string p n ∧ zlen n + 3 < 2 ^ 31) ∧ room a
  | c_addfs p f => is_string p ∧ room a ∧ a_new a = Some f ∧ is_Some (a_vols a !! f) ∧
      ∀ kd, kd ∈ a_devs a → kd_fs kd ≠ Some f
  | c_getdevname f => a_new a = None ∧ is_Some (a_vols a !! f)
  | c_getcwd us => a_new a = None ∧ uio_ok us ∧ uio_dir (u us) = UIO_READ ∧ uio_resid (u us) = iov_len (u us)
  | c_clearcurdir | c_getcurdir | c_clearbootfs | c_sync | c_unmountall => True
  end.

(** The entries that a name can be found under. *)
Definition root_of (a : abs) (n : list Z) (v : V) : Prop :=
  resolve (a_vols a) n (a_devs a) = Raw v ∨ ∃ f, resolve (a_vols a) n (a_devs a) = Root f ∧ fs_of v = Some f.

(** What a call does, when it returns. *)
Inductive adone (a : abs) : call → answer → abs → Prop :=
  | done_setcurdir v a' : a = add_ref v a' → adone a (c_setcurdir v) an_none (with_cwd (Some v) a')
  | done_clearcurdir : adone a c_clearcurdir an_none (with_cwd None a)
  | done_getcurdir v : a_cwd a = Some v → adone a c_getcurdir (an_vnode v) (add_ref v a)
  | done_sync : adone a c_sync an_none a
  | done_getroot p v : root_of a (text_of p) v → adone a (c_getroot p) (an_vnode v) (add_ref v a)
  | done_getdevname f kd :
      kd ∈ a_devs a → kd_fs kd = Some f → adone a (c_getdevname f) (an_name (Some (kd_name kd))) a
  | done_lookup p v : leads_to a (text_of p) v → adone a (c_lookup p) (an_vnode v) (add_ref v a)
  | done_lookparent p buf v name : is_string name → adone a (c_lookparent p buf) (an_parent v name) (add_ref v a)
  | done_open p flags v :
      (Z.land flags O_CREAT = 0 → leads_to a (text_of p) v) → adone a (c_open p flags) (an_vnode v) (add_open v a)
  | done_close v a' : a = add_open v a' → adone a (c_close v) an_none a'
  | done_readlink p us us' : adone a (c_readlink p us) (an_uio us') a
  | done_symlink t p : adone a (c_symlink t p) an_none a
  | done_mkdir p : adone a (c_mkdir p) an_none a
  | done_link p q : adone a (c_link p q) an_none a
  | done_remove p : adone a (c_remove p) an_none a
  | done_rmdir p : adone a (c_rmdir p) an_none a
  | done_rename p q : adone a (c_rename p q) an_none a
  | done_chdir p v : leads_to a (text_of p) v → adone a (c_chdir p) an_none (with_cwd (Some v) a)
  | done_getcwd us us' n rest :
      cwd_name a n → moved_in us (take (Z.to_nat (uio_resid (u us))) (n ++ [chr ":"]) ++ rest) us' →
      adone a (c_getcwd us) (an_uio us') a
  | done_setbootfs junk p v :
      chr ":" ∉ boot_name (text_of p) → leads_to a (boot_name (text_of p) ++ [chr ":"]) v →
      adone a (c_setbootfs junk p) an_none (with_boot (Some v) (with_cwd (Some v) a))
  | done_clearbootfs : adone a c_clearbootfs an_none (with_boot None a)
  | done_adddev p dev mnt kd :
      added (text_of p) mnt dev kd → ¬ clash (a_vols a) (new_names (text_of p) mnt) (a_devs a) →
      adone a (c_adddev p dev mnt) an_none (with_dev kd a)
  | done_addfs p f vol kd :
      a_vols a !! f = Some vol → added_fs (text_of p) f kd → ¬ clash (a_vols a) (text_of p :: option_list vol) (a_devs a) →
      adone a (c_addfs p f) an_none (with_dev kd a)
  | done_mount p mf i kd f vn :
      list_find (mountable (text_of p)) (a_devs a) = Some (i, kd) → kd_fs kd = None → a_vols a !! f = None →
      adone a (c_mount p mf) an_none (with_fs i (Some f) (<[f := vn]> (a_vols a)) a)
  | done_unmount p i kd f :
      list_find (mountable (text_of p)) (a_devs a) = Some (i, kd) → kd_fs kd = Some f →
      adone a (c_unmount p) an_none (with_fs i None (delete f (a_vols a)) a)
  | done_unmountall a' : unmounts a a' → adone a c_unmountall an_none a'.

(** What a call does when it fails: nothing, but a device that cannot be added
    leaves its vnode behind. *)
Inductive afail (a : abs) : call → errno → abs → Prop :=
  | fail_same c e : afail a c e a
  | fail_adddev p dev mnt v : afail a (c_adddev p dev mnt) ENOMEM (add_ref v a)
  | fail_exists p dev mnt v :
      clash (a_vols a) (new_names (text_of p) mnt) (a_devs a) → afail a (c_adddev p dev mnt) EEXIST (add_ref v a).

(** When a call may stop the kernel: in the operation of a file system that may
    panic, which it reaches.  A path that starts at the root of a volume needs
    that root. *)
Definition call_panics (c : call) : Prop :=
  match c with
  | c_open p _ | c_remove p | c_mkdir p | c_rmdir p | c_chdir p | c_lookup p | c_lookparent p _ | c_readlink p _
  | c_symlink _ p => needs_root (text_of p) ∧ may_panic in_getroot
  | c_link p q => (needs_root (text_of p) ∨ needs_root (text_of q)) ∧ may_panic in_getroot
  | c_rename p q => (needs_root (text_of p) ∨ needs_root (text_of q)) ∧ may_panic in_getroot ∨ may_panic in_rename
  | c_getroot _ | c_setbootfs _ _ => may_panic in_getroot
  | c_adddev _ _ _ | c_addfs _ _ => may_panic in_create
  | _ => False
  end.

Definition call_result (a : abs) (c : call) (r : result answer) (s' : st) : Prop :=
  match r with
  | Ret x => ∃ a', adone a c x a' ∧ vfs_repr false s' a'
  | Fail e => ∃ a', afail a c e a' ∧ vfs_repr false s' a'
  | Halt k => k = Panic ∧ call_panics c
  end.

Lemma result_same s' a c e : vfs_repr false s' a → call_result a c (Fail e) s'.
Proof. intros Hr. exists a. split; [constructor|done]. Qed.

Lemma with_uio_spec s us (m : M (st * uiost) unit) Q :
  wp m (λ r p, match r with Ret _ => Q (Ret (an_uio p.2)) p.1 | Fail e => Q (Fail e) p.1 | Halt k => Q (Halt k) p.1 end) (s, us) →
  wp (with_uio us m) Q s.
Proof. unfold wp, with_uio. by destruct (m (s, us)) as [[] []]. Qed.

(** An outcome of a specification is an outcome of the call. *)
Local Ltac finish_call :=
  intros; try wp_step; cbn [fst snd]; try (by split; [|simpl; tauto]); eauto using adone.

Lemma run_call_spec s a c : vfs_repr false s a → call_ok s a c → wp (run_call c) (call_result a c) s.
Proof.
  intros Hr Hok. pose proof (vr_opens _ _ _ Hr) as Ho. pose proof is_string_good as Hg.
  assert (∀ s' x a', adone a c x a' → vfs_repr false s' a' → call_result a c (Ret x) s') as Hdone by (intros; eexists; eauto).
  pose proof result_same as Hsame.
  destruct c; unfold run_call, no_answer, the_vnode; simpl in Hok; try (apply with_uio_spec); try wp_step.
  - destruct Hok as (a' & -> & Ho'). eapply vfs_setcurdir_spec; [done..| |]; finish_call.
  - eapply vfs_clearcurdir_spec; [done|]; finish_call.
  - eapply getcurdir_spec; [done|..]; finish_call.
  - eapply vfs_sync_spec; [done|]; finish_call.
  - eapply vfs_getroot_spec; [done..|]. intros [v|e|k] s' Hres; simpl in Hres.
    + destruct Hres. wp_step. eauto using adone.
    + destruct Hres. eauto.
    + by destruct Hres as (-> & ? & _).
  - destruct Hok. eapply vfs_getdevname_spec; [done..|]. finish_call.
  - eapply vfs_lookup_spec; [done|by apply Hg|..]; finish_call.
  - destruct Hok. eapply vfs_lookparent_spec; [done|by apply Hg|done|done|..]; finish_call.
  - eapply vfs_open_spec; [done|by apply Hg|..]; finish_call.
  - destruct Hok as (a' & -> & Ho'). eapply vfs_close_spec; [done..|]. finish_call.
  - eapply vfs_readlink_spec; [done|by apply Hg|..]; finish_call.
  - destruct Hok. eapply with_parent_spec; [done|by apply Hg|by intros; apply law_symlink|..]; finish_call.
  - eapply with_parent_spec; [done|by apply Hg|apply law_mkdir|..]; finish_call.
  - destruct Hok as (? & ? & Hdir). eapply vfs_link_spec; [done|by apply Hg|by apply Hg|done|..]; finish_call.
  - eapply with_parent_spec; [done|by apply Hg|apply law_remove|..]; finish_call.
  - eapply with_parent_spec; [done|by apply Hg|apply law_rmdir|..]; finish_call.
  - destruct Hok. eapply vfs_rename_spec; [done|by apply Hg|by apply Hg|..]; finish_call.
  - eapply vfs_chdir_spec; [done|by apply Hg|..]; finish_call.
  - destruct Hok as (? & ? & ? & ?). eapply vfs_getcwd_spec; [done..| |]; finish_call.
  - destruct Hok. eapply vfs_setbootfs_spec; [done|by apply Hg|done|..]; finish_call.
  - eapply (change_bootfs_spec s a None (a_refs a)); [done|done|multiset_solver|]; intros s' Hr'; wp_step.
    eapply Hdone; [apply done_clearbootfs|]. by destruct a.
  - destruct Hok as [(n & Hn & Hl) Hnum]. pose proof (text_of_good _ _ Hn) as Ht. subst n.
    eapply vfs_adddev_spec; [done..| | | | |]; finish_call; eexists; eauto using afail.
  - destruct Hok as (? & ? & ? & [vol Hvol] & ?). eapply vfs_addfs_spec; [done|by apply Hg|done..| | | |];
      finish_call.
  - destruct Hok. eapply vfs_mount_spec; [done|by apply Hg|done|..]; finish_call.
  - eapply vfs_unmount_spec; [done|by apply Hg|..]; finish_call.
  - eapply vfs_unmountall_spec; [done|..]; finish_call.
Qed.

(** ** Properties *)

(** C5: Every call of the virtual file system refines its abstract step.  The
    calls are all the operations that kern/include/vfs.h declares but those of
    the boot.  From a state that represents [a], a call within its contract
    returns or fails in a state that represents what the step makes of [a]:
    exactly the references and opens the step names are added or dropped, the
    locks are free again, and the device table is well formed.  It stops only
    where a file system panics: in the load of a root that its path needs, in a
    rename, or in the set-up of the vnode of a new entry, and only when the file
    system may panic there ([may_panic], which is arbitrary); so none of its own
    locks is acquired twice and none of its own assertions fails. *)
Theorem vfs_call_refines s a c :
  vfs_repr false s a → call_ok s a c →
  match run_call c s with
  | (Ret x, s') => ∃ a', adone a c x a' ∧ vfs_repr false s' a'
  | (Fail e, s') => ∃ a', afail a c e a' ∧ vfs_repr false s' a'
  | (Halt k, _) => k = Panic ∧ call_panics c
  end.
Proof. intros Hr Hok. by apply (wp_elim _ _ _ (run_call_spec s a c Hr Hok)). Qed.

(** Translation of a path.  A returned vnode is new in the references and is
    where the path leads: a path [dev:rest] starts at what the device name
    resolves to, [/rest] at the boot volume, [:rest] at the root of the current
    volume and any other path at the current directory; with nothing left of
    the path the result is that start, else it is on the same volume.  On an
    error no reference is kept. *)
Theorem vfs_lookup_correct s a path p :
  vfs_repr false s a → good_string path p →
  match vfs_lookup path s with
  | (Ret v, s') => vfs_repr false s' (add_ref v a) ∧ leads_to a p v
  | (Fail _, s') => vfs_repr false s' a
  | (Halt k, _) => k = Panic ∧ needs_root p
  end.
Proof.
  intros Hr Hp. apply (wp_elim _ (λ r s', match r with
    | Ret v => vfs_repr false s' (add_ref v a) ∧ leads_to a p v
    | Fail _ => vfs_repr false s' a
    | Halt k => k = Panic ∧ needs_root p end)). by eapply vfs_lookup_spec.
Qed.

(** A device name is resolved as the comment of [struct knowndev] says: the
    name of a mounted device or of its volume gives the root of the volume, the
    name of a mountable device without volume gives ENXIO, the name of another
    device or the raw name of a mountable one gives the device itself, and an
    unknown name ENODEV. *)
Theorem vfs_getroot_correct s a devname n :
  vfs_repr false s a → good_string devname n →
  match resolve (a_vols a) n (a_devs a), vfs_getroot devname s with
  | Root f, (Ret v, s') => fs_of v = Some f ∧ vfs_repr false s' (add_ref v a)
  | Root _, (r, _) => r = Halt Panic
  | Raw v, (r, s') => r = Ret v ∧ vfs_repr false s' (add_ref v a)
  | NotMounted, (r, s') => r = Fail ENXIO ∧ vfs_repr false s' a
  | NoDevice, (r, s') => r = Fail ENODEV ∧ vfs_repr false s' a
  end.
Proof.
  intros Hr Hn. assert (wp (vfs_getroot devname) (root_result a n (a_devs a) false) s) as Hwp.
  { eapply vfs_getroot_spec; [done|by exists n|]. intros r s'. by rewrite (text_of_good _ _ Hn). }
  unfold wp in Hwp. destruct (vfs_getroot devname s) as [[v|e|k] s']; simpl in Hwp.
  - destruct Hwp as (Hr' & [->|(f & -> & Hf)]); done.
  - destruct Hwp as (Hr' & [[-> ->]|[-> ->]]); done.
  - destruct Hwp as (-> & _ & f & ->). done.
Qed.

(** C33: Opening and closing balance.  A successful open takes one reference and
    one open of the vnode it returns, and closing that vnode gives both back and
    returns to the state before; a failed open, on each of its ways out, keeps
    neither. *)
Theorem vfs_open_close s a path flags :
  vfs_repr false s a → is_string path →
  match vfs_open path flags s with
  | (Ret v, s1) => vfs_repr false s1 (add_open v a) ∧
      match vfs_close v s1 with (Ret _, s2) => vfs_repr false s2 a | _ => False end
  | (Fail _, s1) => vfs_repr false s1 a
  | (Halt k, _) => k = Panic
  end.
Proof.
  intros Hr Hp. pose proof (vr_opens _ _ _ Hr) as Ho.
  apply (wp_elim _ (λ r s1, match r with
    | Ret v => vfs_repr false s1 (add_open v a) ∧
        match vfs_close v s1 with (Ret _, s2) => vfs_repr false s2 a | _ => False end
    | Fail _ => vfs_repr false s1 a
    | Halt k => k = Panic end)).
  eapply vfs_open_spec; [done|by apply is_string_good| |done|done]. intros v s1 Hr1 _. split; [done|].
  apply (wp_elim _ (λ r s2, match r with Ret _ => vfs_repr false s2 a | _ => False end)). by eapply vfs_close_spec.
Qed.

(** Adding a device keeps device names unique.  When it succeeds, the new
    names were free, all names are again distinct, the new name leads to the
    device (to ENXIO when it is mountable, whose raw name leads to the device),
    and every other name leads where it did; when a name is taken it fails with
    EEXIST. *)
Theorem vfs_adddev_names s a name n dev mnt :
  vfs_repr false s a → good_string name n → zlen n + 3 < 2 ^ 31 → Z.of_nat (length (a_devs a)) + 1 < 2 ^ 29 →
  unique_names (a_vols a) (a_devs a) →
  match vfs_adddev name dev mnt s with
  | (Ret _, s') => ∃ kd, vfs_repr false s' (with_dev kd a) ∧ kd_device kd = Some dev ∧
      unique_names (a_vols a) (a_devs (with_dev kd a)) ∧
      resolve (a_vols a) n (a_devs (with_dev kd a)) = (if mnt then NotMounted else Raw (kd_vnode kd)) ∧
      (mnt = true → resolve (a_vols a) (n ++ bytes "raw") (a_devs (with_dev kd a)) = Raw (kd_vnode kd)) ∧
      ∀ n', n' ∉ new_names n mnt → resolve (a_vols a) n' (a_devs (with_dev kd a)) = resolve (a_vols a) n' (a_devs a)
  | (Fail e, _) => e = ENOMEM ∨ e = EEXIST ∧ clash (a_vols a) (new_names n mnt) (a_devs a)
  | (Halt k, _) => k = Panic
  end.
Proof.
  intros Hr Hn Hl Hnum Hu. apply (wp_elim _ (λ r s', match r with
    | Ret _ => ∃ kd, vfs_repr false s' (with_dev kd a) ∧ kd_device kd = Some dev ∧
        unique_names (a_vols a) (a_devs (with_dev kd a)) ∧
        resolve (a_vols a) n (a_devs (with_dev kd a)) = (if mnt then NotMounted else Raw (kd_vnode kd)) ∧
        (mnt = true → resolve (a_vols a) (n ++ bytes "raw") (a_devs (with_dev kd a)) = Raw (kd_vnode kd)) ∧
        ∀ n', n' ∉ new_names n mnt → resolve (a_vols a) n' (a_devs (with_dev kd a)) = resolve (a_vols a) n' (a_devs a)
    | Fail e => e = ENOMEM ∨ e = EEXIST ∧ clash (a_vols a) (new_names n mnt) (a_devs a)
    | Halt k => k = Panic end)).
  eapply vfs_adddev_spec; [done..| |by auto|by auto|by auto|done]. intros kd s' Hr' Hadd Hno. exists kd.
  split; [done|]. split; [apply Hadd|]. split; [by eapply unique_added|]. by eapply resolve_added.
Qed.

(** Mounting a volume makes the name of its device lead to its root, and
    unmounting it takes that back.  Mounting fails with ENODEV when no mountable
    device has the name, with EBUSY when it has a volume already, and else with
    an error of the mount function; the names are assumed to be distinct once the volume is mounted, which the code does
    not check. *)
Lemma vfs_mount_resolves s a name n mountfunc E :
  vfs_repr false s a → good_string name n → mounts mountfunc E a →
  match vfs_mount name mountfunc s with
  | (Ret _, s') => ∃ i kd f vn, let a' := with_fs i (Some f) (<[f := vn]> (a_vols a)) a in
      a_devs a !! i = Some kd ∧ mountable n kd ∧ kd_fs kd = None ∧ vfs_repr false s' a' ∧
      (unique_names (a_vols a') (a_devs a') → resolve (a_vols a') n (a_devs a') = Root f) ∧
      match vfs_unmount name s' with
      | (Ret _, s2) => vfs_repr false s2 a
      | (Fail _, s2) => vfs_repr false s2 a'
      | (Halt _, _) => False
      end
  | (Fail e, s') => vfs_repr false s' a ∧
      match list_find (mountable n) (a_devs a) with
      | None => e = ENODEV
      | Some (_, kd) => if kd_fs kd is Some _ then e = EBUSY else E e
      end
  | (Halt _, _) => False
  end.
Proof.
  intros Hr Hn Hm. apply (wp_elim _ (λ r s', match r with
    | Ret _ => ∃ i kd f vn, let a' := with_fs i (Some f) (<[f := vn]> (a_vols a)) a in
        a_devs a !! i = Some kd ∧ mountable n kd ∧ kd_fs kd = None ∧ vfs_repr false s' a' ∧
        (unique_names (a_vols a') (a_devs a') → resolve (a_vols a') n (a_devs a') = Root f) ∧
        match vfs_unmount name s' with
        | (Ret _, s2) => vfs_repr false s2 a | (Fail _, s2) => vfs_repr false s2 a' | (Halt _, _) => False end
    | Fail e => vfs_repr false s' a ∧ match list_find (mountable n) (a_devs a) with
        | None => e = ENODEV | Some (_, kd) => if kd_fs kd is Some _ then e = EBUSY else E e end
    | Halt _ => False end)).
  eapply vfs_mount_spec; [done..| |by auto]. intros i kd f vn s' Hfind Hno Hf Hr'.
  pose proof Hfind as (Hi & Hmn & _)%list_find_Some. exists i, kd, f, vn. cbv zeta. split_and!; try done.
  { by apply (resolve_with_fs a i kd (Some f)). }
  apply (wp_elim _ (λ r s2, match r with Ret _ => vfs_repr false s2 a
    | Fail _ => vfs_repr false s2 (with_fs i (Some f) (<[f := vn]> (a_vols a)) a) | Halt _ => False end)).
  eapply vfs_unmount_spec; [done..| |done]. rewrite (list_find_with_fs n a i kd _ _ Hfind).
  intros i' kd' f' s2 [= <- <-] [= <-] Hr2. pose proof (with_fs_undo a i kd f vn Hi Hno Hf) as Hundo. simpl in Hr2. by rewrite Hundo in Hr2.
Qed.

(** A volume name with a colon is refused.  Whatever follows the first colon
    in the part of the name that fits the buffer, [vfs_setbootfs] fails with
    EINVAL and changes nothing: also when the colon is the last character, the
    form that its comment allows and that kern/include/vfs.h gives. *)
Theorem vfs_setbootfs_colon s a junk name n :
  vfs_repr false s a → good_string name n → zlen junk = NAME_MAX + 1 → chr ":" ∈ boot_name n →
  vfs_setbootfs junk name s = (Fail EINVAL, s).
Proof.
  intros Hr Hn Hj Hc. apply wp_eq_intro. by eapply vfs_setbootfs_spec.
Qed.
End calls.
