(* ===== verification/VfsSum.v ===== *)
(** * Two kinds of vnodes side by side

    A vnode carries the table of its operations (kern/include/vnode.h), so a
    kernel has vnodes of several implementations at once.  Here two
    implementations of the interface of Vfs.v are put together: each keeps its
    own data, and an operation goes to the side of its vnode.  When both sides
    keep the laws of VfsSpec.v, so does the sum: what is proved about the
    virtual file system then holds for devices and file systems together. *)

From stdpp Require Import gmultiset.
From S2P Require Import Prelude Libc CopyInOut Uio SfsVnode Vfs VfsSpec.

(** ** References of a sum *)

Section split.
Context {A B : Type} `{Countable A, Countable B}.
Implicit Types (X : gmultiset (A + B)) (L : gmultiset A) (N : gmultiset B).

Record split X L N : Prop := {
  split_l : ∀ a, multiplicity a L = multiplicity (inl a) X;
  split_r : ∀ b, multiplicity b N = multiplicity (inr b) X;
}.

Lemma split_in_l X L N a : split X L N → inl a ∈ X ↔ a ∈ L.
Proof. intros [Hl _]. by rewrite !elem_of_multiplicity, Hl. Qed.
Lemma split_in_r X L N b : split X L N → inr b ∈ X ↔ b ∈ N.
Proof. intros [_ Hr]. by rewrite !elem_of_multiplicity, Hr. Qed.

Lemma split_add_l X L N a : split X L N → split (X ⊎ {[+ inl a +]}) (L ⊎ {[+ a +]}) N.
Proof.
  intros [Hl Hr]. split; intros x; rewrite !multiplicity_disj_union, !multiplicity_singleton.
  - rewrite Hl. repeat case_decide; simplify_eq; lia.
  - rewrite Hr. repeat case_decide; simplify_eq; lia.
Qed.
Lemma split_add_r X L N b : split X L N → split (X ⊎ {[+ inr b +]}) L (N ⊎ {[+ b +]}).
Proof.
  intros [Hl Hr]. split; intros x; rewrite !multiplicity_disj_union, !multiplicity_singleton.
  - rewrite Hl. repeat case_decide; simplify_eq; lia.
  - rewrite Hr. repeat case_decide; simplify_eq; lia.
Qed.

Lemma split_sub_l X L N a :
  split (X ⊎ {[+ inl a +]}) L N → ∃ L', L = L' ⊎ {[+ a +]} ∧ split X L' N.
Proof.
  intros Hs. assert (a ∈ L) as Ha by (rewrite <- (split_in_l _ _ _ _ Hs); multiset_solver).
  exists (L ∖ {[+ a +]}). split; [multiset_solver|]. destruct Hs as [Hl Hr]. split; intros x.
  - rewrite multiplicity_difference, Hl, multiplicity_disj_union, !multiplicity_singleton.
    repeat case_decide; simplify_eq; lia.
  - rewrite Hr, multiplicity_disj_union, multiplicity_singleton. repeat case_decide; simplify_eq; lia.
Qed.
Lemma split_sub_r X L N b :
  split (X ⊎ {[+ inr b +]}) L N → ∃ N', N = N' ⊎ {[+ b +]} ∧ split X L N'.
Proof.
  intros Hs. assert (b ∈ N) as Hb by (rewrite <- (split_in_r _ _ _ _ Hs); multiset_solver).
  exists (N ∖ {[+ b +]}). split; [multiset_solver|]. destruct Hs as [Hl Hr]. split; intros x.
  - rewrite Hl, multiplicity_disj_union, multiplicity_singleton. repeat case_decide; simplify_eq; lia.
  - rewrite multiplicity_difference, Hr, multiplicity_disj_union, !multiplicity_singleton.
    repeat case_decide; simplify_eq; lia.
Qed.

End split.

(** The volumes of a sum. *)
Record split_vols {F1 F2 : Type} `{Countable F1, Countable F2} {A} (T : gmap (F1 + F2) A) (T1 : gmap F1 A) (T2 : gmap F2 A) : Prop := {
  vols_l : ∀ f, T1 !! f = T !! inl f;
  vols_r : ∀ f, T2 !! f = T !! inr f;
}.

Section vols.
Context {F1 F2 A : Type} `{Countable F1, Countable F2}.

Lemma vols_delete_l (T : gmap (F1 + F2) A) T1 T2 f : split_vols T T1 T2 → split_vols (delete (inl f) T) (delete f T1) T2.
Proof.
  intros [Hl Hr]. split; intros g.
  - destruct (decide (g = f)) as [->|Hne]; [by rewrite !lookup_delete_eq|]. rewrite !lookup_delete_ne by congruence. done.
  - by rewrite lookup_delete_ne.
Qed.
Lemma vols_delete_r (T : gmap (F1 + F2) A) T1 T2 f : split_vols T T1 T2 → split_vols (delete (inr f) T) T1 (delete f T2).
Proof.
  intros [Hl Hr]. split; intros g.
  - by rewrite lookup_delete_ne.
  - destruct (decide (g = f)) as [->|Hne]; [by rewrite !lookup_delete_eq|]. rewrite !lookup_delete_ne by congruence. done.
Qed.
End vols.

(** ** The interface *)

Section sum.
Context {W1 W2 V1 V2 F1 F2 Dv : Type}.

Section ops.
Context `{VnodeInterface W1 V1 F1 Dv, VnodeInterface W2 V2 F2 Empty_set}.

Definition left_uio {A} (m : M (W1 * uiost) A) : M (W1 * W2 * uiost) A :=
  zoom (λ p, (p.1.1, p.2)) (λ q p, ((q.1, p.1.2), q.2)) m.
Definition right_uio {A} (m : M (W2 * uiost) A) : M (W1 * W2 * uiost) A :=
  zoom (λ p, (p.1.2, p.2)) (λ q p, ((p.1.1, q.1), q.2)) m.

(** An operation on the side of its vnode, and one that returns a vnode of that
    side. *)
Definition side {A} (v : V1 + V2) (m1 : V1 → M W1 A) (m2 : V2 → M W2 A) : M (W1 * W2) A :=
  match v with inl v => on_fst (m1 v) | inr v => on_snd (m2 v) end.
Definition side_vn (v : V1 + V2) (m1 : V1 → M W1 V1) (m2 : V2 → M W2 V2) : M (W1 * W2) (V1 + V2) :=
  match v with inl v => r ← on_fst (m1 v); mret (inl r) | inr v => r ← on_snd (m2 v); mret (inr r) end.

#[global] Instance sum_interface : VnodeInterface (W1 * W2) (V1 + V2) (F1 + F2) Dv := {
  VOP_OPEN v flags := side v (λ v, VOP_OPEN v flags) (λ v, VOP_OPEN v flags);
  VOP_READLINK v := match v with inl v => left_uio (VOP_READLINK v) | inr v => right_uio (VOP_READLINK v) end;
  VOP_GETTYPE v := side v VOP_GETTYPE VOP_GETTYPE;
  VOP_TRUNCATE v len := side v (λ v, VOP_TRUNCATE v len) (λ v, VOP_TRUNCATE v len);
  VOP_NAMEFILE v := match v with inl v => left_uio (VOP_NAMEFILE v) | inr v => right_uio (VOP_NAMEFILE v) end;
  VOP_CREAT v name excl := side_vn v (λ v, VOP_CREAT v name excl) (λ v, VOP_CREAT v name excl);
  VOP_SYMLINK v name text := side v (λ v, VOP_SYMLINK v name text) (λ v, VOP_SYMLINK v name text);
  VOP_MKDIR v name := side v (λ v, VOP_MKDIR v name) (λ v, VOP_MKDIR v name);
  VOP_LINK v name file := match v, file with
    | inl v, inl file => on_fst (VOP_LINK v name file)
    | inr v, inr file => on_snd (VOP_LINK v name file)
    | _, _ => undef
    end;
  VOP_REMOVE v name := side v (λ v, VOP_REMOVE v name) (λ v, VOP_REMOVE v name);
  VOP_RMDIR v name := side v (λ v, VOP_RMDIR v name) (λ v, VOP_RMDIR v name);
  VOP_RENAME v n1 v2 n2 := match v, v2 with
    | inl v, inl v2 => on_fst (VOP_RENAME v n1 v2 n2)
    | inr v, inr v2 => on_snd (VOP_RENAME v n1 v2 n2)
    | _, _ => undef
    end;
  VOP_LOOKUP v path := side_vn v (λ v, VOP_LOOKUP v path) (λ v, VOP_LOOKUP v path);
  VOP_LOOKPARENT v path buf len := match v with
    | inl v => r ← on_fst (VOP_LOOKPARENT v path buf len); mret (inl r.1, r.2)
    | inr v => r ← on_snd (VOP_LOOKPARENT v path buf len); mret (inr r.1, r.2)
    end;
  VOP_INCREF v := side v VOP_INCREF VOP_INCREF;
  VOP_DECREF v := side v VOP_DECREF VOP_DECREF;
  VOP_INCOPEN v := side v VOP_INCOPEN VOP_INCOPEN;
  VOP_DECOPEN v := side v VOP_DECOPEN VOP_DECOPEN;
  vn_fs v := match v with
    | inl v => r ← on_fst (vn_fs v); mret (inl <$> r)
    | inr v => r ← on_snd (vn_fs v); mret (inr <$> r)
    end;
  dev_create_vnode dev := r ← on_fst (dev_create_vnode dev); mret (inl <$> r);
  FSOP_SYNC f := match f with inl f => on_fst (FSOP_SYNC f) | inr f => on_snd (FSOP_SYNC f) end;
  FSOP_GETVOLNAME f := match f with inl f => on_fst (FSOP_GETVOLNAME f) | inr f => on_snd (FSOP_GETVOLNAME f) end;
  FSOP_GETROOT f := match f with
    | inl f => r ← on_fst (FSOP_GETROOT f); mret (inl r)
    | inr f => r ← on_snd (FSOP_GETROOT f); mret (inr r)
    end;
  FSOP_UNMOUNT f := match f with inl f => on_fst (FSOP_UNMOUNT f) | inr f => on_snd (FSOP_UNMOUNT f) end;
}.
End ops.

(** ** The laws *)

Section laws.
Context `{VnodeLaws W1 V1 F1 Dv, VnodeLaws W2 V2 F2 Empty_set}.
Abbreviation W := (W1 * W2)%type.

Definition sum_inv (w : W) (T : gmap (F1 + F2) (option (list Z))) (R O : gmultiset (V1 + V2)) : Prop :=
  ∃ T1 T2 R1 R2 O1 O2, split_vols T T1 T2 ∧ split R R1 R2 ∧ split O O1 O2 ∧ inv w.1 T1 R1 O1 ∧ inv w.2 T2 R2 O2.

Definition sum_fs_of (v : V1 + V2) : option (F1 + F2) :=
  match v with inl v => inl <$> fs_of v | inr v => inr <$> fs_of v end.
Definition sum_dirvn (v : V1 + V2) : bool := match v with inl v => dirvn v | inr v => dirvn v end.

(** The sides of a step. *)
Lemma sum_l w1 w2 T R O T1 T2 R1 R2 O1 O2 :
  split_vols T T1 T2 → split R R1 R2 → split O O1 O2 →
  inv w1 T1 R1 O1 → inv w2 T2 R2 O2 → sum_inv (w1, w2) T R O.
Proof. intros. by exists T1, T2, R1, R2, O1, O2. Qed.

(** An operation that leaves the references alone. *)
Lemma sum_keep {A} w T R O v (m1 : V1 → M W1 A) (m2 : V2 → M W2 A) :
  sum_inv w T R O → v ∈ R →
  (∀ w T R O v, inv w T R O → v ∈ R → wp (m1 v) (λ r w', match r with Halt _ => False | _ => inv w' T R O end) w) →
  (∀ w T R O v, inv w T R O → v ∈ R → wp (m2 v) (λ r w', match r with Halt _ => False | _ => inv w' T R O end) w) →
  wp (side v m1 m2) (λ r w', match r with Halt _ => False | _ => sum_inv w' T R O end) w.
Proof.
  intros (T1 & T2 & R1 & R2 & O1 & O2 & HT & HR & HO & Hi1 & Hi2) Hv L1 L2. destruct w as [w1 w2]. simpl in *. destruct v as [v|v]; simpl; wp_step.
  - apply (split_in_l _ _ _ _ HR) in Hv. eapply wp_mono; [by eapply L1|]. intros [x|e|k] w' Hw; [..|done]; by eapply sum_l.
  - apply (split_in_r _ _ _ _ HR) in Hv. eapply wp_mono; [by eapply L2|]. intros [x|e|k] w' Hw; [..|done]; by eapply sum_l.
Qed.

(** An operation that hands out a vnode of the same file system. *)
Lemma sum_vnode w T R O v (m1 : V1 → M W1 V1) (m2 : V2 → M W2 V2) :
  sum_inv w T R O → v ∈ R →
  (∀ w T R O v, inv w T R O → v ∈ R → wp (m1 v) (λ r w', match r with
     | Ret v' => inv w' T (R ⊎ {[+ v' +]}) O ∧ fs_of v' = fs_of v | Fail _ => inv w' T R O | Halt _ => False end) w) →
  (∀ w T R O v, inv w T R O → v ∈ R → wp (m2 v) (λ r w', match r with
     | Ret v' => inv w' T (R ⊎ {[+ v' +]}) O ∧ fs_of v' = fs_of v | Fail _ => inv w' T R O | Halt _ => False end) w) →
  wp (side_vn v m1 m2) (λ r w', match r with
     | Ret v' => sum_inv w' T (R ⊎ {[+ v' +]}) O ∧ sum_fs_of v' = sum_fs_of v | Fail _ => sum_inv w' T R O | Halt _ => False end) w.
Proof.
  intros (T1 & T2 & R1 & R2 & O1 & O2 & HT & HR & HO & Hi1 & Hi2) Hv L1 L2. destruct w as [w1 w2]. simpl in *. destruct v as [v|v]; simpl; wp_step; wp_step.
  - apply (split_in_l _ _ _ _ HR) in Hv. eapply wp_mono; [by eapply L1|]. intros [x|e|k] w' Hw; [..|done]; [|by eapply sum_l].
    destruct Hw as [Hw Hf]. wp_step. split; [|simpl; by rewrite Hf]. eapply sum_l; [done|by apply split_add_l|done..].
  - apply (split_in_r _ _ _ _ HR) in Hv. eapply wp_mono; [by eapply L2|]. intros [x|e|k] w' Hw; [..|done]; [|by eapply sum_l].
    destruct Hw as [Hw Hf]. wp_step. split; [|simpl; by rewrite Hf]. eapply sum_l; [done|by apply split_add_r|done..].
Qed.

Ltac sum_open Hi :=
  destruct Hi as (T1 & T2 & R1 & R2 & O1 & O2 & HT & HR & HO & Hi1 & Hi2); simpl in *.
(** A reference to a vnode is one of its side. *)
Ltac sum_side HR Hv := first [apply (split_in_l _ _ _ _ HR) in Hv | apply (split_in_r _ _ _ _ HR) in Hv].

Lemma sum_count w T R O v (m1 : V1 → M W1 unit) (m2 : V2 → M W2 unit) R' O' :
  sum_inv w T R O →
  (∀ x w T1 T2 R1 R2 O1 O2, v = inl x → split_vols T T1 T2 → split R R1 R2 → split O O1 O2 → inv w T1 R1 O1 →
     ∃ R1' O1', split R' R1' R2 ∧ split O' O1' O2 ∧ wp (m1 x) (returns (λ _ w', inv w' T1 R1' O1')) w) →
  (∀ x w T1 T2 R1 R2 O1 O2, v = inr x → split_vols T T1 T2 → split R R1 R2 → split O O1 O2 → inv w T2 R2 O2 →
     ∃ R2' O2', split R' R1 R2' ∧ split O' O1 O2' ∧ wp (m2 x) (returns (λ _ w', inv w' T2 R2' O2')) w) →
  wp (side v m1 m2) (returns (λ _ w', sum_inv w' T R' O')) w.
Proof.
  intros Hi L1 L2. sum_open Hi. destruct w as [w1 w2]. destruct v as [v|v]; simpl; wp_step.
  - destruct (L1 v w1 T1 T2 R1 R2 O1 O2) as (R1' & O1' & HR' & HO' & Hwp); [done..|]. eapply wp_mono; [exact Hwp|].
    intros [x|e|k] w' Hw; [|done..]. by eapply sum_l.
  - destruct (L2 v w2 T1 T2 R1 R2 O1 O2) as (R2' & O2' & HR' & HO' & Hwp); [done..|]. eapply wp_mono; [exact Hwp|].
    intros [x|e|k] w' Hw; [|done..]. by eapply sum_l.
Qed.

Lemma sum_mounted_law w T R O v f : sum_inv w T R O → v ∈ R → sum_fs_of v = Some f → is_Some (T !! f).
Proof.
  intros Hi Hv Hf. sum_open Hi. destruct v as [v|v]; sum_side HR Hv; simpl in Hf; destruct (fs_of v) as [g|] eqn:Hg; simplify_eq/=.
  - rewrite <- (vols_l _ _ _ HT). by eapply law_mounted.
  - rewrite <- (vols_r _ _ _ HT). by eapply law_mounted.
Qed.

Lemma sum_fs_law w T R O v : sum_inv w T R O → v ∈ R → vn_fs v w = (Ret (sum_fs_of v), w).
Proof.
  intros Hi Hv. sum_open Hi. destruct w as [w1 w2]. apply wp_eq_intro. destruct v as [v|v]; sum_side HR Hv; simpl; wp_step; wp_step.
  - eapply wp_eq; [by eapply law_fs|]. cbv iota. by wp_step.
  - eapply wp_eq; [by eapply law_fs|]. cbv iota. by wp_step.
Qed.

Lemma sum_incref_law w T R O v :
  sum_inv w T R O → v ∈ R → wp (VOP_INCREF v) (returns (λ _ w', sum_inv w' T (R ⊎ {[+ v +]}) O)) w.
Proof.
  intros Hi Hv. eapply sum_count; [done|..]; intros x w0 T1 T2 R1 R2 O1 O2 -> HT HR HO Hw; sum_side HR Hv.
  - exists (R1 ⊎ {[+ x +]}), O1. split_and!; [by apply split_add_l|done|by apply law_incref].
  - exists (R2 ⊎ {[+ x +]}), O2. split_and!; [by apply split_add_r|done|by apply law_incref].
Qed.

Lemma sum_decref_law w T R O v :
  sum_inv w T (R ⊎ {[+ v +]}) O → (v ∈ O → v ∈ R) → wp (VOP_DECREF v) (returns (λ _ w', sum_inv w' T R O)) w.
Proof.
  intros Hi Hin. eapply sum_count; [done|..]; intros x w0 T1 T2 R1 R2 O1 O2 -> HT HR HO Hw.
  - apply split_sub_l in HR as (R1' & -> & HR). exists R1', O1. split_and!; [done..|]. apply law_decref; [done|].
    by rewrite <- (split_in_l _ _ _ _ HO), <- (split_in_l _ _ _ _ HR).
  - apply split_sub_r in HR as (R2' & -> & HR). exists R2', O2. split_and!; [done..|]. apply law_decref; [done|].
    by rewrite <- (split_in_r _ _ _ _ HO), <- (split_in_r _ _ _ _ HR).
Qed.

Lemma sum_incopen_law w T R O v :
  sum_inv w T R O → v ∈ R → wp (VOP_INCOPEN v) (returns (λ _ w', sum_inv w' T R (O ⊎ {[+ v +]}))) w.
Proof.
  intros Hi Hv. eapply sum_count; [done|..]; intros x w0 T1 T2 R1 R2 O1 O2 -> HT HR HO Hw; sum_side HR Hv.
  - exists R1, (O1 ⊎ {[+ x +]}). split_and!; [done|by apply split_add_l|by apply law_incopen].
  - exists R2, (O2 ⊎ {[+ x +]}). split_and!; [done|by apply split_add_r|by apply law_incopen].
Qed.

Lemma sum_decopen_law w T R O v :
  sum_inv w T R (O ⊎ {[+ v +]}) → v ∈ R → wp (VOP_DECOPEN v) (returns (λ _ w', sum_inv w' T R O)) w.
Proof.
  intros Hi Hv. eapply sum_count; [done|..]; intros x w0 T1 T2 R1 R2 O1 O2 -> HT HR HO Hw; sum_side HR Hv.
  - apply split_sub_l in HO as (O1' & -> & HO). exists R1, O1'. split_and!; [done..|]. by apply law_decopen.
  - apply split_sub_r in HO as (O2' & -> & HO). exists R2, O2'. split_and!; [done..|]. by apply law_decopen.
Qed.

Lemma sum_gettype_law w T R O v :
  sum_inv w T R O → v ∈ R → wp (VOP_GETTYPE v) (λ r w', match r with
    | Ret t => sum_inv w' T R O ∧ (S_ISDIR t = true → sum_dirvn v = true)
    | Fail _ => sum_inv w' T R O
    | Halt _ => False
    end) w.
Proof.
  intros Hi Hv. sum_open Hi. destruct w as [w1 w2]. destruct v as [v|v]; sum_side HR Hv; simpl; wp_step;
    (eapply wp_mono; [by eapply law_gettype|]); intros [x|e|k] w' Hw; try done; try by eapply sum_l.
  - destruct Hw as [Hw Hd]. split; [by eapply sum_l|done].
  - destruct Hw as [Hw Hd]. split; [by eapply sum_l|done].
Qed.

Lemma sum_lookparent_law w T R O v path buf len :
  sum_inv w T R O → v ∈ R → is_string path → zlen buf = len → len < 2 ^ 31 →
  wp (VOP_LOOKPARENT v path buf len) (λ r w', match r with
    | Ret (v', name) => sum_inv w' T (R ⊎ {[+ v' +]}) O ∧ sum_fs_of v' = sum_fs_of v ∧ is_string name
    | Fail _ => sum_inv w' T R O
    | Halt _ => False
    end) w.
Proof.
  intros Hi Hv Hp Hb Hl. sum_open Hi. destruct w as [w1 w2]. destruct v as [v|v]; sum_side HR Hv; simpl; wp_step; wp_step;
    (eapply wp_mono; [by eapply law_lookparent|]); intros [[x n]|e|k] w' Hw; try done; try by eapply sum_l.
  - destruct Hw as (Hw & Hf & Hn). wp_step. split_and!; [|by rewrite <- Hf|done]. eapply sum_l; [done|by apply split_add_l|done..].
  - destruct Hw as (Hw & Hf & Hn). wp_step. split_and!; [|by rewrite <- Hf|done]. eapply sum_l; [done|by apply split_add_r|done..].
Qed.

(** It panics where one of its sides may. *)
Definition sum_may_panic (op : panic_op) : Prop := may_panic (V:=V1) op ∨ may_panic (V:=V2) op.

Lemma sum_panic_l (op : panic_op) (k : stop) : k = Panic ∧ may_panic (V:=V1) op → k = Panic ∧ sum_may_panic op.
Proof. intros [? ?]. split; [done|by left]. Qed.
Lemma sum_panic_r (op : panic_op) (k : stop) : k = Panic ∧ may_panic (V:=V2) op → k = Panic ∧ sum_may_panic op.
Proof. intros [? ?]. split; [done|by right]. Qed.

(** Two vnodes of one file system are on one side. *)
Lemma sum_rename_law w T R O v1 n1 v2 n2 :
  sum_inv w T R O → v1 ∈ R → v2 ∈ R → is_string n1 → is_string n2 → is_Some (sum_fs_of v1) → sum_fs_of v1 = sum_fs_of v2 →
  wp (VOP_RENAME v1 n1 v2 n2) (λ r w', match r with Halt k => k = Panic ∧ sum_may_panic in_rename | _ => sum_inv w' T R O end) w.
Proof.
  intros Hi Hv1 Hv2 Hn1 Hn2 [f Hf] Heq. sum_open Hi. destruct w as [w1 w2].
  destruct v1 as [v1|v1], v2 as [v2|v2]; simpl in *; sum_side HR Hv1; sum_side HR Hv2;
    destruct (fs_of v1) as [g|] eqn:Hg1, (fs_of v2) as [h|] eqn:Hg2; simplify_eq/=; wp_step;
    (eapply wp_mono; [eapply law_rename; [done..|by eexists|congruence]|]); intros [x|e|k] w' Hw; try done;
    try (by apply sum_panic_l); try (by apply sum_panic_r); by eapply sum_l.
Qed.

Lemma sum_link_law w T R O dir name v :
  sum_inv w T R O → dir ∈ R → v ∈ R → is_string name → is_Some (sum_fs_of v) → sum_fs_of dir = sum_fs_of v →
  sum_dirvn v = false →
  wp (VOP_LINK dir name v) (λ r w', match r with Halt _ => False | _ => sum_inv w' T R O end) w.
Proof.
  intros Hi Hv1 Hv2 Hn [f Hf] Heq Hd. sum_open Hi. destruct w as [w1 w2].
  destruct dir as [v1|v1], v as [v2|v2]; simpl in *; sum_side HR Hv1; sum_side HR Hv2;
    destruct (fs_of v1) as [g|] eqn:Hg1, (fs_of v2) as [h|] eqn:Hg2; simplify_eq/=; wp_step;
    (eapply wp_mono; [eapply law_link; [done..|by eexists|congruence|done]|]); intros [x|e|k] w' Hw; try done; by eapply sum_l.
Qed.

Lemma sum_readlink_law w T R O v us :
  sum_inv w T R O → v ∈ R → wp (VOP_READLINK v) (λ r p, match r with Halt _ => False | _ => sum_inv p.1 T R O end) (w, us).
Proof.
  intros Hi Hv. sum_open Hi. destruct w as [w1 w2]. destruct v as [v|v]; sum_side HR Hv; simpl; unfold left_uio, right_uio; wp_step; simpl;
    (eapply wp_mono; [by eapply law_readlink|]); intros [x|e|k] [w' us'] Hw; try done; by eapply sum_l.
Qed.

Lemma sum_namefile_law w T R O v us :
  sum_inv w T R O → v ∈ R → sum_dirvn v = true → uio_ok us → uio_dir (u us) = UIO_READ →
  wp (VOP_NAMEFILE v) (λ r p, match r with
    | Ret _ => sum_inv p.1 T R O ∧ ∃ bs, moved_in us bs p.2
    | Fail _ => sum_inv p.1 T R O
    | Halt _ => False
    end) (w, us).
Proof.
  intros Hi Hv Hd Hu Hdir. sum_open Hi. destruct w as [w1 w2].
  destruct v as [v|v]; sum_side HR Hv; simpl; unfold left_uio, right_uio; wp_step; simpl;
    (eapply wp_mono; [by eapply law_namefile|]); intros [x|e|k] [w' us'] Hw; try done; try by eapply sum_l.
  - destruct Hw as [Hw Hbs]. split; [by eapply sum_l|done].
  - destruct Hw as [Hw Hbs]. split; [by eapply sum_l|done].
Qed.

Lemma sum_volname_law w T R O f n :
  sum_inv w T R O → T !! f = Some n →
  ∃ o, FSOP_GETVOLNAME f w = (Ret o, w) ∧
    match n with Some s => ∃ a, o = Some a ∧ good_string a s | None => o = None end.
Proof.
  intros Hi Hf. sum_open Hi. destruct w as [w1 w2]. simpl in *. destruct f as [f|f]; simpl.
  - rewrite <- (vols_l _ _ _ HT) in Hf. destruct (law_volname _ _ _ _ f n Hi1 Hf) as (o & Ho & Hn). exists o. split; [|done].
    unfold on_fst. simpl. by rewrite Ho.
  - rewrite <- (vols_r _ _ _ HT) in Hf. destruct (law_volname _ _ _ _ f n Hi2 Hf) as (o & Ho & Hn). exists o. split; [|done].
    unfold on_snd. simpl. by rewrite Ho.
Qed.

Lemma sum_getroot_law w T R O f :
  sum_inv w T R O → is_Some (T !! f) → wp (FSOP_GETROOT f) (λ r w', match r with
    | Ret v => sum_inv w' T (R ⊎ {[+ v +]}) O ∧ sum_fs_of v = Some f
    | Fail _ => False
    | Halt k => k = Panic ∧ sum_may_panic in_getroot
    end) w.
Proof.
  intros Hi Hf. sum_open Hi. destruct w as [w1 w2]. destruct f as [f|f]; simpl; wp_step; wp_step.
  - rewrite <- (vols_l _ _ _ HT) in Hf. eapply wp_mono; [by eapply law_getroot|]. intros [x|e|k] w' Hw; [|done|first [by apply sum_panic_l|by apply sum_panic_r]].
    destruct Hw as [Hw Hx]. wp_step. split; [|simpl; by rewrite Hx]. eapply sum_l; [done|by apply split_add_l|done..].
  - rewrite <- (vols_r _ _ _ HT) in Hf. eapply wp_mono; [by eapply law_getroot|]. intros [x|e|k] w' Hw; [|done|first [by apply sum_panic_l|by apply sum_panic_r]].
    destruct Hw as [Hw Hx]. wp_step. split; [|simpl; by rewrite Hx]. eapply sum_l; [done|by apply split_add_r|done..].
Qed.

Definition sum_clean (f : F1 + F2) (w : W) : Prop :=
  match f with inl f => fs_clean f w.1 | inr f => fs_clean f w.2 end.

Lemma sum_sync_law w T R O f :
  sum_inv w T R O → is_Some (T !! f) → wp (FSOP_SYNC f) (λ r w', match r with
    | Ret _ => sum_inv w' T R O ∧ sum_clean f w'
    | Fail _ => sum_inv w' T R O
    | Halt _ => False
    end) w.
Proof.
  intros Hi Hf. sum_open Hi. destruct w as [w1 w2]. destruct f as [f|f]; simpl; wp_step;
    rewrite <- ?(vols_l _ _ _ HT), <- ?(vols_r _ _ _ HT) in Hf;
    (eapply wp_mono; [by eapply law_sync|]); intros [x|e|k] w' Hw; try done; try by eapply sum_l.
  - destruct Hw as [Hw Hcl]. split; [by eapply sum_l|done].
  - destruct Hw as [Hw Hcl]. split; [by eapply sum_l|done].
Qed.

Lemma sum_unmount_law w T R O f :
  sum_inv w T R O → is_Some (T !! f) → sum_clean f w → wp (FSOP_UNMOUNT f) (λ r w', match r with
    | Ret _ => sum_inv w' (delete f T) R O
    | Fail _ => sum_inv w' T R O
    | Halt _ => False
    end) w.
Proof.
  intros Hi Hf Hcl. sum_open Hi. destruct w as [w1 w2]. destruct f as [f|f]; simpl; wp_step.
  - rewrite <- (vols_l _ _ _ HT) in Hf. eapply wp_mono; [by eapply law_unmount|]. intros [x|e|k] w' Hw; try done; [|by eapply sum_l].
    eapply sum_l; [by apply vols_delete_l|done..].
  - rewrite <- (vols_r _ _ _ HT) in Hf. eapply wp_mono; [by eapply law_unmount|]. intros [x|e|k] w' Hw; try done; [|by eapply sum_l].
    eapply sum_l; [by apply vols_delete_r|done..].
Qed.

#[global] Program Instance sum_laws : VnodeLaws W (V1 + V2) (F1 + F2) Dv := {
  fs_of := sum_fs_of;
  dirvn := sum_dirvn;
  inv := sum_inv;
  fs_clean := sum_clean;
  may_panic := sum_may_panic;
  law_mounted := sum_mounted_law;
  law_fs := sum_fs_law;
  law_incref := sum_incref_law;
  law_decref := sum_decref_law;
  law_incopen := sum_incopen_law;
  law_decopen := sum_decopen_law;
  law_gettype := sum_gettype_law;
  law_rename := sum_rename_law;
  law_link := sum_link_law;
  law_lookparent := sum_lookparent_law;
  law_readlink := sum_readlink_law;
  law_namefile := sum_namefile_law;
  law_volname := sum_volname_law;
  law_getroot := sum_getroot_law;
  law_sync := sum_sync_law;
  law_unmount := sum_unmount_law;
}.
Next Obligation. intros [v|v] Hd; simpl in *; apply law_dirvn in Hd as [f ->]; by eexists. Qed.
Next Obligation. intros. eapply sum_keep; [done..| |]; intros; by eapply law_open. Qed.
Next Obligation. intros. eapply sum_keep; [done..| |]; intros; by eapply law_truncate. Qed.
Next Obligation. intros. eapply sum_keep; [done..| |]; intros; by eapply law_mkdir. Qed.
Next Obligation. intros. eapply sum_keep; [done..| |]; intros; by eapply law_rmdir. Qed.
Next Obligation. intros. eapply sum_keep; [done..| |]; intros; by eapply law_remove. Qed.
Next Obligation. intros. eapply sum_keep; [done..| |]; intros; by eapply law_symlink. Qed.
Next Obligation. intros. eapply sum_vnode; [done..| |]; intros; by eapply law_creat. Qed.
Next Obligation. intros. eapply sum_vnode; [done..| |]; intros; by eapply law_lookup. Qed.
Next Obligation.
  intros w T R O dev Hi. sum_open Hi. destruct w as [w1 w2]. wp_step. wp_step.
  eapply wp_mono; [by eapply law_create_vnode|]. intros [[x|]|e|k] w' Hw; [wp_step..|done|by apply sum_panic_l]; [|by eapply sum_l].
  eapply sum_l; [done|by apply split_add_l|done..].
Qed.
Next Obligation.
  intros w T R O Hi. sum_open Hi. destruct w as [w1 w2]. wp_step. wp_step.
  eapply wp_mono; [by eapply law_create_null|]. intros [x|e|k] w' Hw; [|done|by apply sum_panic_l]. wp_step. by eapply sum_l.
Qed.
End laws.
End sum.
