(* ===== verification/VfsDev.v ===== *)
(** * Devices as vnodes (kern/fs/vfs/device.c, devnull.c, kern/include/dev.h)

    A device is a table of functions and two numbers; [DeviceOps] is the table,
    over a state [DS] of all devices.  The state of this file has the vnodes of
    the devices.  The operations of device.c give an instance of the interface
    of Vfs.v, and the laws of VfsSpec.v hold of it for all devices that keep
    [DeviceLaws]; a kernel with these devices only has no file systems, so that
    the pointers to file systems are an empty type. *)

From stdpp Require Import gmultiset.
From S2P Require Import Prelude Libc Printf Array CopyInOut Uio Vnode SfsVnode Vfs VfsSpec VfsTable VfsCalls.

Definition S_IFCHR : Z := 16384.
Definition S_IFBLK : Z := 20480.

Class DeviceOps (Dv DS : Type) := {
  d_open : Dv → Z → M DS unit;
  d_close : Dv → M DS unit;
  d_io : Dv → M (DS * uiost) unit;
  d_ioctl : Dv → Z → Z → M DS unit;
  d_blocks : Dv → Z;
  d_blocksize : Dv → Z;
}.

(** The device of a vnode is its [vn_data], [None] for NULL. *)
Record devstate (Dv DS : Type) := {
  dv_vnodes : gmap Z (vnode * option Dv);
  dv_devs : DS;
  dv_mallocs : list bool;
}.
Arguments Build_devstate {_ _} _ _ _.
Arguments dv_vnodes {_ _} _.
Arguments dv_devs {_ _} _.
Arguments dv_mallocs {_ _} _.

Section ops.
Context {Dv DS : Type} `{DeviceOps Dv DS}.
Abbreviation st := (devstate Dv DS).

Definition set_dv_vnodes (m : gmap Z (vnode * option Dv)) (s : st) : st := Build_devstate m (dv_devs s) (dv_mallocs s).
Definition set_dv_devs (d : DS) (s : st) : st := Build_devstate (dv_vnodes s) d (dv_mallocs s).
Definition set_dv_mallocs (l : list bool) (s : st) : st := Build_devstate (dv_vnodes s) (dv_devs s) l.

Definition on_devs {A} : M DS A → M st A := zoom dv_devs set_dv_devs.
Definition on_devs_uio {A} (m : M (DS * uiost) A) : M (st * uiost) A :=
  zoom (λ p, (dv_devs p.1, p.2)) (λ q p, (set_dv_devs q.1 p.1, q.2)) m.

(** An operation on the vnode at [v]. *)
Definition on_dvn {A} (v : Z) (m : M vnode A) : M st A := λ s,
  match dv_vnodes s !! v with
  | None => (Halt Undef, s)
  | Some (vn, d) => let '(r, vn') := m vn in (r, set_dv_vnodes (<[v := (vn', d)]> (dv_vnodes s)) s)
  end.

(** [struct device *d = v->vn_data;], which is then dereferenced. *)
Definition vn_device (v : Z) : M st Dv :=
  s ← get; p ← deref (dv_vnodes s !! v); deref (p : vnode * option Dv).2.

Definition dev_malloc : M st bool :=
  s ← get;
  match dv_mallocs s with
  | [] => mret true
  | b :: bs => _ ← put (set_dv_mallocs bs s); mret b
  end.

Definition dev_open (v : Z) (flags : Z) : M st unit :=
  if negb (Z.land flags (Z.lor (Z.lor (Z.lor O_CREAT O_TRUNC) O_EXCL) O_APPEND) =? 0) then fail EINVAL
  else d ← vn_device v; on_devs (d_open d flags).

Definition dev_close (v : Z) : M st unit := d ← vn_device v; on_devs (d_close d).

Definition dev_reclaim (v : Z) : M st unit := mret ().

Definition dev_read (v : Z) : M (st * uiost) unit :=
  d ← on_fst (vn_device v);
  p ← get;
  _ ← assert (bool_decide (uio_dir (u p.2) = UIO_READ));
  on_devs_uio (d_io d).

Definition null_io (v : Z) : M (st * uiost) unit := fail EINVAL.

Definition dev_write (v : Z) : M (st * uiost) unit :=
  d ← on_fst (vn_device v);
  p ← get;
  _ ← assert (bool_decide (uio_dir (u p.2) = UIO_WRITE));
  on_devs_uio (d_io d).

Definition dev_ioctl (v : Z) (op data : Z) : M st unit := d ← vn_device v; on_devs (d_ioctl d op data).

Definition dev_gettype (v : Z) : M st Z :=
  d ← vn_device v; mret (if d_blocks d >? 0 then S_IFBLK else S_IFCHR).

(** The call of [VOP_GETTYPE] is checked. *)
Definition dev_stat (v : Z) : M st stat :=
  d ← vn_device v;
  _ ← on_dvn v (vnode_check false);
  mode ← dev_gettype v;
  mret {| st_mode := mode; st_nlink := 1;
          st_size := if d_blocks d >? 0 then s32 (u32 (d_blocks d * d_blocksize d)) else 0;
          st_blocks := d_blocks d |}.

(** [off_t] is signed and the fields of the device are not: the arithmetic is
    unsigned.  A block size of zero is a division by zero. *)
Definition dev_tryseek (v : Z) (pos : Z) : M st unit :=
  d ← vn_device v;
  if d_blocks d >? 0 then
    if d_blocksize d =? 0 then undef
    else if negb (u32 pos mod d_blocksize d =? 0) then fail EINVAL
    else if pos <? 0 then fail EINVAL
    else if u32 pos / d_blocksize d >=? d_blocks d then fail EINVAL
    else mret ()
  else fail ESPIPE.

Definition null_fsync (v : Z) : M st unit := mret ().
Definition dev_mmap (v : Z) : M st unit := fail EUNIMP.

Definition dev_truncate (v : Z) (len : Z) : M st unit :=
  d ← vn_device v;
  if (d_blocks d >? 0) && (s32 (u32 (d_blocks d * d_blocksize d)) =? len) then mret () else fail EINVAL.

Definition dev_namefile (v : Z) : M (st * uiost) unit := mret ().

Definition null_creat (v : Z) (name : list Z) (excl : bool) : M st Z := fail ENOTDIR.
Definition null_symlink (v : Z) (contents name : list Z) : M st unit := fail ENOTDIR.
Definition null_nameop (v : Z) (name : list Z) : M st unit := fail ENOTDIR.
Definition null_link (v : Z) (name : list Z) (file : Z) : M st unit := fail ENOTDIR.
Definition null_rename (v : Z) (n1 : list Z) (v2 : Z) (n2 : list Z) : M st unit := fail ENOTDIR.

Definition dev_lookup (dir : Z) (pathname : list Z) : M st Z :=
  n ← deref (strlen pathname);
  if n >? 0 then fail ENOENT
  else _ ← on_dvn dir vnode_incref; mret dir.

Definition dev_lookparent (dir : Z) (pathname buf : list Z) (buflen : Z) : M st (Z * list Z) := fail ENOTDIR.

(** [dev_create_vnode] *)
Definition create_vnode (dev : option Dv) : M st (option Z) :=
  ok ← dev_malloc;
  if negb ok then mret None
  else
    lock_ok ← dev_malloc;
    match vnode_init lock_ok dev_vnode_ops with
    | Ret vn =>
        s ← get;
        let v := fresh (dom (dv_vnodes s)) in
        _ ← put (set_dv_vnodes (<[v := (vn, dev)]> (dv_vnodes s)) s);
        mret (Some v)
    | _ => panic
    end.

(** [__VOP(vn, sym)]: every vnode has the table [dev_vnode_ops]. *)
Definition vop {A} (v : Z) (m : M st A) : M st A := _ ← on_dvn v (vnode_check false); m.
Definition vop_uio {A} (v : Z) (m : M (st * uiost) A) : M (st * uiost) A := _ ← on_fst (on_dvn v (vnode_check false)); m.

#[global] Instance dev_interface : VnodeInterface st Z Empty_set Dv := {
  VOP_OPEN v flags := vop v (dev_open v flags);
  VOP_READLINK v := vop_uio v (null_io v);
  VOP_GETTYPE v := vop v (dev_gettype v);
  VOP_TRUNCATE v len := vop v (dev_truncate v len);
  VOP_NAMEFILE v := vop_uio v (dev_namefile v);
  VOP_CREAT v name excl := vop v (null_creat v name excl);
  VOP_SYMLINK v name text := vop v (null_symlink v name text);
  VOP_MKDIR v name := vop v (null_nameop v name);
  VOP_LINK v name file := vop v (null_link v name file);
  VOP_REMOVE v name := vop v (null_nameop v name);
  VOP_RMDIR v name := vop v (null_nameop v name);
  VOP_RENAME v n1 v2 n2 := vop v (null_rename v n1 v2 n2);
  VOP_LOOKUP v path := vop v (dev_lookup v path);
  VOP_LOOKPARENT v path buf len := vop v (dev_lookparent v path buf len);
  VOP_INCREF v := on_dvn v vnode_incref;
  VOP_DECREF v := vnode_decref (λ A, on_dvn v) (dev_reclaim v);
  VOP_INCOPEN v := on_dvn v vnode_incopen;
  VOP_DECOPEN v := vnode_decopen (λ A, on_dvn v) (dev_close v);
  vn_fs v := s ← get; _ ← deref (dv_vnodes s !! v); mret None;
  dev_create_vnode := create_vnode;
  FSOP_SYNC f := match f with end;
  FSOP_GETVOLNAME f := match f with end;
  FSOP_GETROOT f := match f with end;
  FSOP_UNMOUNT f := match f with end;
}.
End ops.

(** What a device promises: its functions return. *)
Class DeviceLaws (Dv DS : Type) `{DeviceOps Dv DS} := {
  devs_ok : DS → Prop;
  law_d_open : ∀ ds d flags, devs_ok ds →
    wp (d_open d flags) (λ r ds', match r with Halt _ => False | _ => devs_ok ds' end) ds;
  law_d_close : ∀ ds d, devs_ok ds → wp (d_close d) (λ r ds', match r with Halt _ => False | _ => devs_ok ds' end) ds;
}.

Section laws.
Context {Dv DS : Type} `{DeviceLaws Dv DS}.
Abbreviation st := (devstate Dv DS).
Implicit Types (w : st) (R O : gmultiset Z).

(** The vnode [v] of a device has at least the references [R] and is open as
    often as [O] says: its last reference is never dropped. *)
Definition dvn_ok w R O (v : Z) : Prop :=
  ∃ vn d, dv_vnodes w !! v = Some (vn, Some d) ∧ vnode_ok vn ∧
    Z.of_nat (multiplicity v R) ≤ vn_refcount vn ∧ vn_opencount vn = Z.of_nat (multiplicity v O).

Record dev_inv (w : st) (T : gmap Empty_set (option (list Z))) (R O : gmultiset Z) : Prop := {
  di_devs : devs_ok (dv_devs w);
  di_vnodes : ∀ v, v ∈ R → dvn_ok w R O v;
  di_opens : ∀ v, v ∈ O → v ∈ R;
}.

Lemma on_dvn_spec {A} w v vn d (m : M vnode A) Q :
  dv_vnodes w !! v = Some (vn, d) →
  wp m (λ r vn', Q r (set_dv_vnodes (<[v := (vn', d)]> (dv_vnodes w)) w)) vn → wp (on_dvn v m) Q w.
Proof. intros Hv Hm. unfold wp, on_dvn in *. rewrite Hv. by destruct (m vn). Qed.

Lemma set_dv_vnodes_id w v x : dv_vnodes w !! v = Some x → set_dv_vnodes (<[v := x]> (dv_vnodes w)) w = w.
Proof. intros Hv. rewrite insert_id by done. by destruct w. Qed.

(** The check of a vnode that is referenced. *)
Lemma vop_spec {A} w T R O v (m : M st A) Q :
  dev_inv w T R O → v ∈ R → wp m Q w → wp (vop v m) Q w.
Proof.
  intros Hi Hv Hm. destruct (di_vnodes _ _ _ _ Hi v Hv) as (vn & d & Hl & Hok & _). unfold vop. wp_step.
  eapply on_dvn_spec; [done|]. apply vnode_check_ok; [done|]. by rewrite set_dv_vnodes_id.
Qed.

Lemma vn_device_spec w T R O v Q :
  dev_inv w T R O → v ∈ R → (∀ d, Q (Ret d) w) → wp (vn_device v) Q w.
Proof.
  intros Hi Hv HQ. destruct (di_vnodes _ _ _ _ Hi v Hv) as (vn & d & Hl & _). unfold vn_device.
  wp_step. wp_step. wp_step. eapply wp_deref; [exact Hl|]. by eapply wp_deref.
Qed.

(** A function of the device. *)
Lemma on_devs_spec {A} w T R O (m : M DS A) Q :
  dev_inv w T R O → wp m (λ r ds, match r with Halt _ => False | _ => devs_ok ds end) (dv_devs w) →
  (∀ r w', (∀ k, r ≠ Halt k) → dev_inv w' T R O → Q r w') → wp (on_devs m) Q w.
Proof.
  intros Hi Hm HQ. unfold on_devs. wp_step. eapply wp_mono; [exact Hm|].
  intros r ds Hds. apply HQ; [by destruct r|]. destruct Hi. split; [by destruct r|done..].
Qed.

(** The counts of one vnode change. *)
Lemma dev_inv_count w T R O v vn d vn' R' O' :
  dev_inv w T R O → dv_vnodes w !! v = Some (vn, d) → is_Some d → vnode_ok vn' →
  Z.of_nat (multiplicity v R') ≤ vn_refcount vn' → vn_opencount vn' = Z.of_nat (multiplicity v O') →
  (∀ x, x ≠ v → multiplicity x R' = multiplicity x R ∧ multiplicity x O' = multiplicity x O) →
  (v ∈ O' → v ∈ R') →
  dev_inv (set_dv_vnodes (<[v := (vn', d)]> (dv_vnodes w)) w) T R' O'.
Proof.
  intros [Hd Hv Ho] Hl [d' ->] Hok HR HO Hoth Hin.
  assert (∀ x, x ≠ v → (x ∈ R' ↔ x ∈ R) ∧ (x ∈ O' ↔ x ∈ O)) as Hmem.
  { intros x Hx. rewrite !elem_of_multiplicity. destruct (Hoth x Hx) as [-> ->]. done. }
  split; [done|..].
  - intros x Hx. destruct (decide (x = v)) as [->|Hne].
    + exists vn', d'. simpl. by rewrite lookup_insert_eq.
    + destruct (Hv x) as (y & e & Hy & Hrest); [by apply Hmem|]. exists y, e. simpl.
      rewrite lookup_insert_ne by done. by destruct (Hoth x Hne) as [-> ->].
  - intros x Hx. destruct (decide (x = v)) as [->|Hne]; [auto|]. apply Hmem; [done|]. apply Ho. by apply Hmem.
Qed.

Lemma multiplicity_add (v x : Z) R :
  multiplicity x (R ⊎ {[+ v +]}) = (multiplicity x R + if decide (x = v) then 1 else 0)%nat.
Proof. by rewrite multiplicity_disj_union, multiplicity_singleton. Qed.

Ltac count :=
  intros; rewrite ?multiplicity_add in *; repeat case_decide; simplify_eq; auto; simpl in *; lia.

Lemma incref_law w T R O v :
  dev_inv w T R O → v ∈ R → wp (VOP_INCREF v) (returns (λ _ w', dev_inv w' T (R ⊎ {[+ v +]}) O)) w.
Proof.
  intros Hi Hv. destruct (di_vnodes _ _ _ _ Hi v Hv) as (vn & d & Hl & Hok & HR & HO).
  eapply on_dvn_spec; [done|]. unfold vnode_incref. wp_step.
  eapply dev_inv_count; [done|done|by eexists|destruct Hok; split; simpl; auto; lia|simpl; count|done|count|].
  intros _. multiset_solver.
Qed.

Lemma decref_law w T R O v :
  dev_inv w T (R ⊎ {[+ v +]}) O → (v ∈ O → v ∈ R) → wp (VOP_DECREF v) (returns (λ _ w', dev_inv w' T R O)) w.
Proof.
  intros Hi Hin. destruct (di_vnodes _ _ _ _ Hi v) as (vn & d & Hl & Hok & HR & HO); [multiset_solver|].
  pose proof (vok_ref _ Hok) as Href. unfold VOP_DECREF. simpl. unfold vnode_decref. wp_step.
  eapply on_dvn_spec; [done|]. unfold vnode_decref_count. wp_step. wp_step. wp_step. apply wp_assert; [lia|].
  rewrite Z.gtb_ltb. destruct (Z.ltb_spec 1 (vn_refcount vn)) as [Hgt|Hle].
  - wp_step. wp_step. wp_step. wp_step.
    eapply dev_inv_count; [done|done|by eexists|destruct Hok; split; simpl; auto; lia|simpl; count|done|count|done].
  - wp_step. rewrite set_dv_vnodes_id by done. wp_step. eapply on_dvn_spec; [done|]. apply vnode_check_ok; [done|].
    rewrite set_dv_vnodes_id by done. wp_step. wp_step. unfold dev_reclaim. wp_step. wp_step.
    rewrite <- (set_dv_vnodes_id w v (vn, Some d)) by done.
    eapply dev_inv_count; [done|done|by eexists|done|count|done|count|done].
Qed.

Lemma incopen_law w T R O v :
  dev_inv w T R O → v ∈ R → wp (VOP_INCOPEN v) (returns (λ _ w', dev_inv w' T R (O ⊎ {[+ v +]}))) w.
Proof.
  intros Hi Hv. destruct (di_vnodes _ _ _ _ Hi v Hv) as (vn & d & Hl & Hok & HR & HO).
  eapply on_dvn_spec; [done|]. unfold vnode_incopen. wp_step.
  eapply dev_inv_count; [done|done|by eexists|destruct Hok; split; simpl; auto; lia|done|simpl; count|count|done].
Qed.

Lemma decopen_law w T R O v :
  dev_inv w T R (O ⊎ {[+ v +]}) → v ∈ R → wp (VOP_DECOPEN v) (returns (λ _ w', dev_inv w' T R O)) w.
Proof.
  intros Hi Hv. destruct (di_vnodes _ _ _ _ Hi v Hv) as (vn & d & Hl & Hok & HR & HO).
  rewrite multiplicity_add, decide_True in HO by done.
  unfold VOP_DECOPEN. simpl. unfold vnode_decopen. wp_step. eapply on_dvn_spec; [done|]. unfold vnode_decopen_count.
  wp_step. wp_step. wp_step. apply wp_assert; [lia|]. wp_step. wp_step. wp_step.
  set (w1 := set_dv_vnodes _ w). assert (dev_inv w1 T R O) as Hi1.
  { eapply dev_inv_count; [done|done|by eexists|destruct Hok; split; simpl; auto; lia|done|simpl; lia|count|done]. }
  destruct (negb _); [|by wp_step]. destruct (di_vnodes _ _ _ _ Hi1 v Hv) as (vn1 & d1 & Hl1 & Hok1 & _).
  wp_step. eapply on_dvn_spec; [done|]. apply vnode_check_ok; [done|]. rewrite set_dv_vnodes_id by done.
  wp_step. wp_step. unfold dev_close. wp_step. eapply vn_device_spec; [done..|]. intros d2.
  eapply on_devs_spec; [done|by apply law_d_close, (di_devs _ _ _ _ Hi1)|].
  intros [x|e|k] w2 Hk Hi2; [by repeat wp_step..|by destruct (Hk k)].
Qed.

Lemma dev_malloc_spec w T R O Q :
  dev_inv w T R O → (∀ b w', dev_inv w' T R O → Q (Ret b) w') → wp dev_malloc Q w.
Proof.
  intros Hi HQ. unfold dev_malloc. wp_step. wp_step. destruct (dv_mallocs w); [wp_step; by apply HQ|].
  repeat wp_step. apply HQ. by destruct Hi.
Qed.

(** The vnode of no device. *)
Lemma create_null_law w T R O :
  dev_inv w T R O → wp (create_vnode None) (λ r w', match r with
    | Ret _ => dev_inv w' T R O
    | Fail _ => False
    | Halt k => k = Panic ∧ in_create = in_create
    end) w.
Proof.
  intros Hi. unfold create_vnode. wp_step. eapply dev_malloc_spec; [done|]. intros [] w1 Hi1; cbn [negb]; [|by wp_step].
  wp_step. eapply dev_malloc_spec; [done|]. intros [] w2 [Hd Hv Ho]; unfold vnode_init; cbv iota; [|done].
  wp_step. wp_step. cbv zeta. wp_step. wp_step. wp_step. split; [done| |done]. intros x Hx.
  destruct (Hv x Hx) as (vn & d & Hl & Hrest). exists vn, d. simpl. rewrite lookup_insert_ne; [done|].
  intros Heq. pose proof (is_fresh (dom (dv_vnodes w2))) as Hf. rewrite Heq in Hf. apply Hf, elem_of_dom. by eexists.
Qed.

Lemma create_law w T R O dev :
  dev_inv w T R O → wp (create_vnode (Some dev)) (λ r w', match r with
    | Ret (Some v) => dev_inv w' T (R ⊎ {[+ v +]}) O
    | Ret None => dev_inv w' T R O
    | Fail _ => False
    | Halt k => k = Panic ∧ in_create = in_create
    end) w.
Proof.
  intros Hi. unfold create_vnode.
  wp_step. eapply dev_malloc_spec; [done|]. intros [] w1 Hi1; cbn [negb]; [|by wp_step].
  wp_step. eapply dev_malloc_spec; [done|]. intros [] w2 [Hd Hv Ho]; unfold vnode_init; cbv iota; [|done].
  wp_step. wp_step. cbv zeta. set (v := fresh (dom (dv_vnodes w2))). wp_step. wp_step. wp_step.
  assert (dv_vnodes w2 !! v = None) as Hno by apply not_elem_of_dom, is_fresh.
  assert (∀ x, x ∈ R → x ≠ v) as Hne by (intros x (? & ? & ? & _)%Hv ->; congruence).
  assert (multiplicity v R = 0%nat ∧ multiplicity v O = 0%nat) as [HvR HvO].
  { split; apply Nat.le_0_r, Nat.nlt_ge; intros Hlt%elem_of_multiplicity; [by apply (Hne v)|by apply Ho, Hne in Hlt]. }
  split; [done|..].
  - intros x Hx. destruct (decide (x = v)) as [->|Hxv].
    + eexists _, _. simpl. rewrite lookup_insert_eq. split_and!; [done|split; simpl; [lia|lia|done|by eexists]|simpl; count|].
      simpl. by rewrite HvO.
    + destruct (Hv x) as (vn & d & Hl & Hrest); [multiset_solver|]. exists vn, d. simpl. rewrite lookup_insert_ne by done.
      rewrite multiplicity_add, decide_False, Nat.add_0_r by done. done.
  - intros x Hx%Ho. multiset_solver.
Qed.

Lemma gettype_law w T R O v :
  dev_inv w T R O → v ∈ R → wp (VOP_GETTYPE v) (λ r w', match r with
    | Ret t => dev_inv w' T R O ∧ (S_ISDIR t = true → false = true)
    | Fail _ => dev_inv w' T R O
    | Halt _ => False
    end) w.
Proof.
  intros Hi Hv. eapply vop_spec; [done..|]. unfold dev_gettype. wp_step. eapply vn_device_spec; [done..|]. intros d.
  wp_step. split; [done|]. by destruct (d_blocks d >? 0).
Qed.

Lemma open_law w T R O v flags :
  dev_inv w T R O → v ∈ R →
  wp (VOP_OPEN v flags) (λ r w', match r with Halt _ => False | _ => dev_inv w' T R O end) w.
Proof.
  intros Hi Hv. eapply vop_spec; [done..|]. unfold dev_open. case_match; [by wp_step|]. wp_step.
  eapply vn_device_spec; [done..|]. intros d. eapply on_devs_spec; [done|by apply law_d_open, (di_devs _ _ _ _ Hi)|].
  intros [x|e|k] w' Hk Hw; [done..|by destruct (Hk k)].
Qed.

Lemma truncate_law w T R O v :
  dev_inv w T R O → v ∈ R →
  wp (VOP_TRUNCATE v 0) (λ r w', match r with Halt _ => False | _ => dev_inv w' T R O end) w.
Proof.
  intros Hi Hv. eapply vop_spec; [done..|]. unfold dev_truncate. wp_step.
  eapply vn_device_spec; [done..|]. intros d. case_match; by wp_step.
Qed.

Lemma vn_fs_law w T R O v : dev_inv w T R O → v ∈ R → vn_fs v w = (Ret None, w).
Proof.
  intros Hi Hv. destruct (di_vnodes _ _ _ _ Hi v Hv) as (vn & d & Hl & _). apply wp_eq_intro. simpl.
  wp_step. wp_step. wp_step. eapply wp_deref; [exact Hl|]. by wp_step.
Qed.

Lemma vop_uio_spec {A} w T R O v us (m : M (st * uiost) A) Q :
  dev_inv w T R O → v ∈ R → wp m Q (w, us) → wp (vop_uio v m) Q (w, us).
Proof.
  intros Hi Hv Hm. destruct (di_vnodes _ _ _ _ Hi v Hv) as (vn & d & Hl & Hok & _). unfold vop_uio. wp_step. wp_step.
  eapply on_dvn_spec; [done|]. apply vnode_check_ok; [done|]. simpl. by rewrite set_dv_vnodes_id.
Qed.

(** The functions that only return an error. *)
Ltac dev_fails := intros; (eapply vop_spec || eapply vop_uio_spec); [done..|]; by apply wp_fail.

Lemma lookup_law w T R O v path :
  dev_inv w T R O → v ∈ R → is_string path → wp (VOP_LOOKUP v path) (λ r w', match r with
    | Ret v' => dev_inv w' T (R ⊎ {[+ v' +]}) O ∧ None = @None Empty_set
    | Fail _ => dev_inv w' T R O
    | Halt _ => False
    end) w.
Proof.
  intros Hi Hv Hp. eapply vop_spec; [done..|]. unfold dev_lookup. wp_step.
  destruct (is_string_good _ Hp) as [Hc _]. eapply wp_deref; [by apply strlen_cstr|].
  case_match; [by wp_step|]. wp_step. eapply wp_mono; [by apply (incref_law w T R O v)|].
  intros [[]|e|k] w' Hw; [|done..]. wp_step. done.
Qed.

#[global] Program Instance dev_laws : VnodeLaws st Z Empty_set Dv := {
  fs_of v := None;
  dirvn v := false;
  inv := dev_inv;
  fs_clean f w := True;
  may_panic op := op = in_create;
  law_incref := incref_law;
  law_decref := decref_law;
  law_incopen := incopen_law;
  law_decopen := decopen_law;
  law_gettype := gettype_law;
  law_open := open_law;
  law_truncate := truncate_law;
  law_fs := vn_fs_law;
  law_lookup := lookup_law;
  law_create_vnode := create_law;
  law_create_null := create_null_law;
}.
Solve Obligations with (try done; try (by intros ????? []); try dev_fails).
End laws.

(** ** The null device (kern/fs/vfs/devnull.c) *)

Inductive builtin := null.
#[global] Instance builtin_eq_dec : EqDecision builtin.
Proof. solve_decision. Defined.

Definition nullopen (dev : builtin) (openflags : Z) : M unit unit := mret ().
Definition nullclose (dev : builtin) : M unit unit := mret ().
Definition set_resid (n : Z) (x : uio) : uio :=
  {| iov_base := iov_base x; iov_len := iov_len x; uio_offset := uio_offset x; uio_resid := n;
     uio_segflg := uio_segflg x; uio_dir := uio_dir x; uio_space := uio_space x |}.
Definition nullio (dev : builtin) : M (unit * uiost) unit :=
  p ← get;
  if bool_decide (uio_dir (u p.2) = UIO_WRITE) then put (p.1, set_u (set_resid 0 (u p.2)) p.2) else mret ().
Definition nullioctl (dev : builtin) (op data : Z) : M unit unit := fail EINVAL.

#[global] Instance null_ops : DeviceOps builtin unit := {
  d_open := nullopen;
  d_close := nullclose;
  d_io := nullio;
  d_ioctl := nullioctl;
  d_blocks _ := 0;
  d_blocksize _ := 1;
}.

#[global] Program Instance null_laws : DeviceLaws builtin unit := { devs_ok _ := True }.
Solve Obligations with (by intros; apply wp_ret).

Abbreviation kernel := (vfs (devstate builtin unit) Z Empty_set builtin).

Definition devnull_create : M kernel unit :=
  ok ← kmalloc;
  if negb ok then panic
  else
    r ← attempt (vfs_adddev (literal "null") null false);
    match r with inr _ => panic | inl _ => mret () end.

Definition vfs_initbootfs : M kernel unit :=
  lock_ok ← kmalloc;
  if negb lock_ok then panic
  else modify (set_bootfs_lock false).

Definition vfs_bootstrap : M kernel unit :=
  array_ok ← kmalloc;
  match array_create array_ok with
  | None => panic
  | Some a =>
      _ ← modify (set_knowndevs a);
      lock_ok ← kmalloc;
      if negb lock_ok then panic
      else
        _ ← modify (set_knowndevs_lock false);
        _ ← vfs_initbootfs;
        devnull_create
  end.

(** ** Booting *)

Definition cold (ms : list bool) : kernel :=
  Build_vfs (Build_devstate ∅ () ms) (Build_array 0 0 None) ∅ false None false None ms.

Definition no_devices : abs (V:=Z) (F:=Empty_set) (Dv:=builtin) := Build_abs [] ∅ None None ∅ ∅ None.

Lemma empty_repr s a :
  array_repr a [] → world s = Build_devstate ∅ () (dv_mallocs (world s)) → t_cwd s = None → bootfs_vnode s = None →
  vfs_repr false (set_bootfs_lock false (set_knowndevs_lock false (set_knowndevs a s))) no_devices.
Proof.
  intros Ha Hw Hc Hb. split; simpl; try done.
  - exists []. split_and!; [done|constructor|done|]. intros i p Hi. by rewrite lookup_nil in Hi.
  - split; simpl; [done|..]; intros v Hv; exfalso; multiset_solver.
Qed.

Lemma kmalloc_frame (s : kernel) (P : kernel → Prop) Q :
  (∀ l s, P s → P (set_mallocs l s)) → P s → (∀ b s', P s' → Q (Ret b) s') → wp kmalloc Q s.
Proof.
  intros HP Hs HQ. unfold kmalloc. wp_step. wp_step. destruct (mallocs s) as [|b bs]; [wp_step; by apply HQ|].
  repeat wp_step. apply HQ. by apply HP.
Qed.

(** A kernel before [vfs_bootstrap]. *)
Definition is_cold (s : kernel) : Prop :=
  world s = Build_devstate ∅ () (dv_mallocs (world s)) ∧ t_cwd s = None ∧ bootfs_vnode s = None.

Lemma devnull_create_spec s Q :
  vfs_repr false s no_devices →
  (∀ kd s', vfs_repr false s' (with_dev kd no_devices) → added (bytes "null") false null kd → Q (Ret ()) s') →
  (∀ s', Q (Halt Panic) s') → wp devnull_create Q s.
Proof.
  intros Hr HQ HP. unfold devnull_create. wp_step.
  eapply (kmalloc_frame s (λ s, vfs_repr false s no_devices)); [|done|].
  { intros l s' []. by split. }
  intros [] s1 Hr1; cbn [negb]; [|apply HP]. wp_step. wp_step.
  eapply (vfs_adddev_spec s1 no_devices _ (bytes "null")); [done| |done|done|..].
  - split_and!; [apply literal_cstr| |done]; by apply (bool_decide_unpack _).
  - intros kd s2 Hr2 Hadd _. wp_step. by eapply HQ.
  - intros s2 _. apply HP.
  - intros v s2 _. apply HP.
  - intros v s2 _ _. apply HP.
  - intros s2 _. apply HP.
Qed.

Lemma vfs_bootstrap_spec s Q :
  is_cold s →
  (∀ kd s', vfs_repr false s' (with_dev kd no_devices) → added (bytes "null") false null kd → Q (Ret ()) s') →
  (∀ s', Q (Halt Panic) s') → wp vfs_bootstrap Q s.
Proof.
  intros Hc HQ HP. unfold vfs_bootstrap. wp_step. eapply (kmalloc_frame s is_cold); [done|done|].
  intros [] s1 Hc1; simpl array_create; cbv iota; [|apply HP]. set (arr := Build_array 0 0 None).
  assert (array_repr arr []) as Ha by (by apply array_create_repr).
  wp_step. wp_step. wp_step.
  eapply (kmalloc_frame _ (λ s, is_cold s ∧ knowndevs s = arr)); [by intros ?? []|by split|].
  intros [] s2 [Hc2 Hk2]; cbn [negb]; [|apply HP]. wp_step. wp_step. wp_step. unfold vfs_initbootfs. wp_step.
  eapply (kmalloc_frame _ (λ s, (is_cold s ∧ knowndevs s = arr) ∧ knowndevs_lock s = false)); [by intros ?? [[] ?]|done|].
  intros [] s3 [[Hc3 Hk3] Hl3]; cbn [negb]; [|apply HP]. wp_step. apply devnull_create_spec; [|done|done].
  pose proof (empty_repr s3 arr Ha) as He.
  replace (set_knowndevs_lock false (set_knowndevs arr s3)) with s3 in He by (destruct s3; simpl in *; by subst).
  destruct Hc3 as (? & ? & ?). by apply He.
Qed.

(** ** Properties *)

(** Booting the virtual file system: whatever allocations fail,
    [vfs_bootstrap] either panics or leaves a well-formed layer with the locks
    free, no volume and one device, which the name [null] leads to. *)
Theorem vfs_bootstrap_correct ms :
  match vfs_bootstrap (cold ms) with
  | (Ret _, s) => ∃ kd, vfs_repr false s (with_dev kd no_devices) ∧ kd_device kd = Some null ∧
      resolve ∅ (bytes "null") (a_devs (with_dev kd no_devices)) = Raw (kd_vnode kd)
  | (Fail _, _) => False
  | (Halt k, _) => k = Panic
  end.
Proof.
  apply (wp_elim _ (λ r s, match r with
    | Ret _ => ∃ kd, vfs_repr false s (with_dev kd no_devices) ∧ kd_device kd = Some null ∧
        resolve ∅ (bytes "null") (a_devs (with_dev kd no_devices)) = Raw (kd_vnode kd)
    | Fail _ => False | Halt k => k = Panic end)).
  apply vfs_bootstrap_spec; [done| |done]. intros kd s' Hr Hadd. exists kd. split; [done|]. split; [apply Hadd|].
  apply (resolve_added ∅ (bytes "null") false null kd []); [done|]. by intros (? & ? & ?%not_elem_of_nil & _).
Qed.

(** Seeking on a device.  On a block device a position is accepted exactly
    when it is not negative, at a multiple of the block size, and inside the
    device; the unsigned arithmetic of the code makes no difference as long as
    the block size is a positive 32-bit number.  Other devices cannot seek. *)
Theorem dev_tryseek_correct {Dv DS : Type} `{DeviceOps Dv DS} (s : devstate Dv DS) v vn d pos :
  dv_vnodes s !! v = Some (vn, Some d) → 0 < d_blocksize d < 2 ^ 32 → - 2 ^ 31 ≤ pos < 2 ^ 31 →
  dev_tryseek v pos s =
  (if decide (0 < d_blocks d) then
     if decide (0 ≤ pos < d_blocks d * d_blocksize d ∧ pos mod d_blocksize d = 0) then Ret () else Fail EINVAL
   else Fail ESPIPE, s).
Proof.
  intros Hv Hbs Hpos. apply wp_eq_intro. unfold dev_tryseek, vn_device. wp_step. wp_step. wp_step. wp_step.
  eapply wp_deref; [exact Hv|]. eapply wp_deref; [done|]. rewrite Z.gtb_ltb.
  destruct (Z.ltb_spec 0 (d_blocks d)); [|rewrite decide_False by lia; by wp_step]. rewrite (decide_True (P := 0 < _)) by done.
  rewrite (proj2 (Z.eqb_neq (d_blocksize d) 0)) by lia.
  destruct (Z.ltb_spec pos 0) as [Hneg|Hnn].
  { rewrite (decide_False (P := _ ∧ _)) by lia. case_match; by wp_step. }
  assert (u32 pos = pos) as Hu by (apply u32_small; unfold is_u32; lia). rewrite Hu in *.
  destruct (Z.eqb_spec (pos mod d_blocksize d) 0) as [Hz|Hnz]; cbn [negb].
  2:{ rewrite decide_False by tauto. by wp_step. }
  rewrite Z.geb_leb. destruct (Z.leb_spec (d_blocks d) (pos / d_blocksize d)) as [Hge|Hlt].
  - rewrite decide_False; [by wp_step|]. intros [[_ Hlt] _]. rewrite Z.mul_comm in Hlt.
    apply Z.div_lt_upper_bound in Hlt; lia.
  - rewrite decide_True; [by wp_step|]. split; [|done]. split; [done|].
    pose proof (Z.mul_succ_div_gt pos (d_blocksize d)). nia.
Qed.

(** The null device, from booting to closing.  After a boot in which memory
    does not run out, [null:] can be opened for reading, for writing or for both;
    a read of the device transfers nothing, a write takes all the data; and after
    closing it the layer is as before. *)
Theorem null_device_correct flags us :
  flags ∈ [O_RDONLY; O_WRONLY; O_RDWR] →
  match vfs_bootstrap (cold []) with
  | (Ret _, s1) =>
      match vfs_open (literal "null:") flags s1 with
      | (Ret v, s2) =>
          (uio_dir (u us) = UIO_READ → dev_read v (world s2, us) = (Ret (), (world s2, us))) ∧
          (uio_dir (u us) = UIO_WRITE →
             dev_write v (world s2, us) = (Ret (), (world s2, set_u (set_resid 0 (u us)) us))) ∧
          vfs_close v s2 = (Ret (), s1)
      | _ => False
      end
  | _ => False
  end.
Proof.
  intros Hf. destruct us as [[? ? ? ? ? dir ?] m t].
  repeat (apply elem_of_cons in Hf as [->|Hf]); [..|by apply not_elem_of_nil in Hf]; destruct dir; vm_compute; by split_and!.
Qed.

(** ** Witnesses *)

(** The kernel right after booting. *)
Definition warm : kernel := (vfs_bootstrap (cold [])).2.

Lemma warm_repr : ∃ kd, vfs_repr false warm (with_dev kd no_devices) ∧ added (bytes "null") false null kd.
Proof.
  assert (wp vfs_bootstrap (λ r s, match r with
    | Ret _ => ∃ kd, vfs_repr false s (with_dev kd no_devices) ∧ added (bytes "null") false null kd
    | Fail _ => False | Halt k => k = Panic end) (cold [])) as Hw.
  { apply vfs_bootstrap_spec; [done| |done]. eauto. }
  unfold wp in Hw. assert (vfs_bootstrap (cold []) = (Ret (), warm)) as Heq by (by vm_compute). by rewrite Heq in Hw.
Qed.

Lemma literal_good s : Forall (λ c, is_u8 c ∧ c ≠ 0) (bytes s) → zlen (bytes s) < 2 ^ 31 → good_string (literal s) (bytes s).
Proof.
  intros Hs Hl. split_and!; [apply literal_cstr| |done]; (eapply Forall_impl; [exact Hs|]); by intros ? [].
Qed.

Lemma null_good : good_string (literal "null:") (bytes "null:").
Proof. apply literal_good; [by apply (bool_decide_unpack _)|done]. Qed.

Definition open_null : call (W:=devstate builtin unit) (V:=Z) (F:=Empty_set) (Dv:=builtin) :=
  c_open (literal "null:") O_RDWR.

Lemma vfs_call_refines_witness : ∃ a,
  match run_call open_null warm with
  | (Ret x, s') => ∃ a', adone a open_null x a' ∧ vfs_repr false s' a'
  | (Fail e, s') => ∃ a', afail a open_null e a' ∧ vfs_repr false s' a'
  | (Halt k, _) => False
  end.
Proof.
  destruct warm_repr as (kd & Hr & _). exists (with_dev kd no_devices).
  pose proof (vfs_call_refines warm _ open_null Hr (ex_intro _ _ null_good)) as Hc.
  destruct (run_call open_null warm) as [[x|e|k] s']; [done..|]. by destruct Hc as (_ & _ & Hp).
Defined.

Lemma vfs_lookup_correct_witness : ∃ a,
  match vfs_lookup (literal "null:") warm with
  | (Ret v, s') => vfs_repr false s' (add_ref v a) ∧ leads_to a (bytes "null:") v
  | (Fail _, s') => vfs_repr false s' a
  | (Halt k, _) => k = Panic ∧ needs_root (bytes "null:")
  end.
Proof.
  destruct warm_repr as (kd & Hr & _). exists (with_dev kd no_devices).
  exact (vfs_lookup_correct warm _ _ _ Hr null_good).
Defined.

Lemma vfs_getroot_correct_witness : ∃ a,
  resolve (a_vols a) (bytes "nul") (a_devs a) = NoDevice ∧
  match resolve (a_vols a) (bytes "nul") (a_devs a), vfs_getroot (literal "nul") warm with
  | Root f, (Ret v, s') => fs_of v = Some f ∧ vfs_repr false s' (add_ref v a)
  | Root _, (r, _) => r = Halt Panic
  | Raw v, (r, s') => r = Ret v ∧ vfs_repr false s' (add_ref v a)
  | NotMounted, (r, s') => r = Fail ENXIO ∧ vfs_repr false s' a
  | NoDevice, (r, s') => r = Fail ENODEV ∧ vfs_repr false s' a
  end.
Proof.
  destruct warm_repr as (kd & Hr & (Hn & Hraw & _ & Hfs)). exists (with_dev kd no_devices). split.
  - simpl. unfold resolve_dev. by rewrite Hfs, Hn, Hraw.
  - apply (vfs_getroot_correct warm _ _ _ Hr). apply literal_good; [by apply (bool_decide_unpack _)|done].
Defined.

Lemma vfs_open_close_witness : ∃ a,
  match vfs_open (literal "null:") O_WRONLY warm with
  | (Ret v, s1) => vfs_repr false s1 (add_open v a) ∧
      match vfs_close v s1 with (Ret _, s2) => vfs_repr false s2 a | _ => False end
  | (Fail _, s1) => vfs_repr false s1 a
  | (Halt k, _) => k = Panic
  end.
Proof.
  destruct warm_repr as (kd & Hr & _). exists (with_dev kd no_devices).
  exact (vfs_open_close warm _ _ O_WRONLY Hr (ex_intro _ _ null_good)).
Defined.

Lemma lhd0_good : good_string (literal "lhd0") (bytes "lhd0").
Proof. apply literal_good; [by apply (bool_decide_unpack _)|done]. Qed.

Lemma vfs_adddev_names_witness : ∃ a,
  match vfs_adddev (literal "lhd0") null true warm with
  | (Ret _, s') => ∃ kd, vfs_repr false s' (with_dev kd a) ∧ kd_device kd = Some null ∧
      unique_names (a_vols a) (a_devs (with_dev kd a)) ∧
      resolve (a_vols a) (bytes "lhd0") (a_devs (with_dev kd a)) = NotMounted ∧
      (true = true → resolve (a_vols a) (bytes "lhd0" ++ bytes "raw") (a_devs (with_dev kd a)) = Raw (kd_vnode kd)) ∧
      ∀ n', n' ∉ new_names (bytes "lhd0") true →
        resolve (a_vols a) n' (a_devs (with_dev kd a)) = resolve (a_vols a) n' (a_devs a)
  | (Fail e, _) => e = ENOMEM ∨ e = EEXIST ∧ clash (a_vols a) (new_names (bytes "lhd0") true) (a_devs a)
  | (Halt k, _) => k = Panic
  end.
Proof.
  destruct warm_repr as (kd & Hr & Hadd). exists (with_dev kd no_devices).
  apply (vfs_adddev_names warm _ _ _ null true Hr lhd0_good); [by vm_compute|by vm_compute|].
  apply (unique_added ∅ (bytes "null") false null kd []); [constructor|done|]. by intros (? & ? & ?%not_elem_of_nil & _).
Defined.

Lemma vfs_setbootfs_colon_witness :
  vfs_setbootfs (replicate 256 0) (literal "lhd0:") warm = (Fail EINVAL, warm).
Proof.
  destruct warm_repr as (kd & Hr & _).
  apply (vfs_setbootfs_colon warm _ (replicate 256 0) (literal "lhd0:") (bytes "lhd0:") Hr);
    [apply literal_good|..]; by apply (bool_decide_unpack _).
Defined.

Definition disk_ops : DeviceOps builtin unit := {|
  d_open := nullopen; d_close := nullclose; d_io := nullio; d_ioctl := nullioctl;
  d_blocks _ := 8; d_blocksize _ := 512;
|}.

Lemma dev_tryseek_correct_witness :
  let s := (world warm) in let v := fresh (∅ : gset Z) in
  @dev_tryseek builtin unit disk_ops v 4096 s = (Fail EINVAL, s) ∧
  @dev_tryseek builtin unit disk_ops v 3584 s = (Ret (), s).
Proof.
  split.
  - apply (@dev_tryseek_correct builtin unit disk_ops (world warm) (fresh (∅ : gset Z))
      {| vn_refcount := 1; vn_opencount := 0; vn_countlock := true; vn_ops := Some dev_vnode_ops |} null 4096);
      by vm_compute.
  - apply (@dev_tryseek_correct builtin unit disk_ops (world warm) (fresh (∅ : gset Z))
      {| vn_refcount := 1; vn_opencount := 0; vn_countlock := true; vn_ops := Some dev_vnode_ops |} null 3584);
      by vm_compute.
Defined.

Lemma null_device_correct_witness :
  match vfs_bootstrap (cold []) with
  | (Ret _, s1) => match vfs_open (literal "null:") O_RDONLY s1 with (Ret v, s2) => vfs_close v s2 = (Ret (), s1) | _ => False end
  | _ => False
  end.
Proof.
  pose proof (null_device_correct O_RDONLY {| u := {| iov_base := 0; iov_len := 4; uio_offset := 0; uio_resid := 4;
    uio_segflg := UIO_SYSSPACE; uio_dir := UIO_READ; uio_space := None |}; mem := {| mbytes := ∅; mro := ∅ |}; t_vmspace := None |}) as Hn.
  destruct (vfs_bootstrap (cold [])) as [[] s1]; [|by apply Hn; left..].
  destruct (vfs_open (literal "null:") O_RDONLY s1) as [[v|e|k] s2]; [|by apply Hn; left..]. by apply Hn; left.
Defined.
