(* ===== verification/SfsVfs.v ===== *)
(** * SFS under the virtual file system (kern/fs/sfs/sfs_vnode.c, sfs_fs.c)

    The tables of operations [sfs_fileops] and [sfs_dirops] and the functions of
    [struct fs] make SFS an implementation of the interface of Vfs.v.  Its state
    is a disk, either with no file system or with a mounted volume.  A vnode is
    the location of its [struct sfs_vnode] and whether its table is the one for
    directories.  The laws of VfsSpec.v hold: what is proved of path names,
    mounting and reference counts in the virtual file system holds for SFS
    volumes, and needs of the disk only the promises of Device.v, with writes
    that do not fail ([ReliableWrites]). *)

From stdpp Require Import gmultiset.
From S2P Require Import Prelude Libc Bitmap Array CopyInOut Uio Device Lhd SfsDisk Vnode Sfs SfsMap SfsFile.
From S2P Require Import SfsSpec SfsTrunc SfsDir SfsVnode SfsVol SfsNames SfsOps SfsFs SfsCount Vfs VfsSpec.

Inductive sfs_world (D : Type) := Raw (d : D) | Mounted (S : sfs_vol D).
Arguments Raw {_} _.
Arguments Mounted {_} _.

Section ops.
Context {D : Type} `{BlockDevice D}.
Abbreviation vol := (sfs_vol D).
Abbreviation world := (sfs_world D).

Definition on_mounted {A} (m : M vol A) : M world A := λ w,
  match w with
  | Raw _ => (Halt Undef, w)
  | Mounted s => let '(r, s') := m s in (r, Mounted s')
  end.

(** [sfs_notdir], [sfs_isdir] and [sfs_unimp]. *)
Definition sfs_notdir {A} : M vol A := fail ENOTDIR.
Definition sfs_isdir {A} : M vol A := fail EISDIR.
Definition sfs_unimp {A} : M vol A := fail EUNIMP.

(** [__VOP(vn, sym)]: the check of the vnode and the call through its table. *)
Definition svop {A} (l : loc) (file dir : M vol A) : M vol A :=
  _ ← on_vn l (vnode_check false);
  sv ← get_sv l;
  match vn_ops (sv_v sv) with
  | Some sfs_fileops => file
  | Some sfs_dirops => dir
  | _ => undef
  end.

(** The vnode a function returns. *)
Definition svnode_of (m : M vol loc) : M vol (loc * bool) :=
  l ← m; sv ← get_sv l; mret (l, vn_isdir (sv_v sv)).

(** [fs_unmount] frees the file system. *)
Definition sfs_unmounted : M world unit := λ w,
  match w with
  | Raw _ => (Halt Undef, w)
  | Mounted s =>
      match sfs_unmount s with
      | (Ret _, s') => (Ret (), Raw (sfs_device (vl_fs s')))
      | (Fail e, s') => (Fail e, Mounted s')
      | (Halt k, s') => (Halt k, Mounted s')
      end
  end.

(** The function [sfs_mount] gives to [vfs_mount], with the outcomes of its
    allocations and of those to come. *)
Definition sfs_mountfunc (fs_ok vn_ok map_ok vec_ok : bool) (ms : list bool) : M world unit := λ w,
  match w with
  | Raw d =>
      match sfs_domount fs_ok vn_ok map_ok vec_ok ms d with
      | (Ret s, _) => (Ret (), Mounted s)
      | (Fail e, d') => (Fail e, Raw d')
      | (Halt k, d') => (Halt k, Raw d')
      end
  | Mounted _ => (Halt Undef, w)
  end.

(** [sfs_fileops] and [sfs_dirops]; [sfs_rename] asserts that the two
    directories are the same. *)
#[global] Instance sfs_interface : VnodeInterface world (loc * bool) unit Empty_set := {
  VOP_OPEN v flags := on_mounted (svop v.1 (sfs_open flags) (sfs_opendir flags));
  VOP_READLINK v := on_fst (on_mounted (svop v.1 sfs_notdir sfs_isdir));
  VOP_GETTYPE v := on_mounted (svop v.1 (sfs_gettype v.1) (sfs_gettype v.1));
  VOP_TRUNCATE v len := on_mounted (vop_truncate v.1 len);
  VOP_NAMEFILE v := on_fst (on_mounted (svop v.1 sfs_notdir (sfs_namefile v.1)));
  VOP_CREAT v name excl := on_mounted (svop v.1 sfs_notdir (svnode_of (sfs_creat v.1 name excl)));
  VOP_SYMLINK v name text := on_mounted (svop v.1 sfs_notdir sfs_unimp);
  VOP_MKDIR v name := on_mounted (svop v.1 sfs_notdir sfs_unimp);
  VOP_LINK v name file := on_mounted (svop v.1 sfs_notdir (sfs_link v.1 name file.1));
  VOP_REMOVE v name := on_mounted (svop v.1 sfs_notdir (sfs_remove v.1 name));
  VOP_RMDIR v name := on_mounted (svop v.1 sfs_notdir sfs_unimp);
  VOP_RENAME v n1 v2 n2 := on_mounted (svop v.1 sfs_notdir (_ ← assert (v.1 =? v2.1); sfs_rename v.1 n1 n2));
  VOP_LOOKUP v path := on_mounted (svop v.1 sfs_notdir (svnode_of (sfs_lookup v.1 path)));
  VOP_LOOKPARENT v path buf len := on_mounted (svop v.1 sfs_notdir
    (r ← sfs_lookparent v.1 path buf len; v ← svnode_of (mret r.1); mret (v, r.2)));
  VOP_INCREF v := on_mounted (on_vn v.1 vnode_incref);
  VOP_DECREF v := on_mounted (vop_decref v.1);
  VOP_INCOPEN v := on_mounted (on_vn v.1 vnode_incopen);
  VOP_DECOPEN v := on_mounted (vnode_decopen (λ A, on_vn v.1) (sfs_close v.1));
  vn_fs v := on_mounted (_ ← get_sv v.1; mret (Some ()));
  dev_create_vnode _ := mret None;
  FSOP_SYNC _ := on_mounted sfs_sync;
  FSOP_GETVOLNAME _ := on_mounted (s ← get; mret (Some (sfs_getvolname s)));
  FSOP_GETROOT _ := on_mounted (svnode_of sfs_getroot);
  FSOP_UNMOUNT _ := sfs_unmounted;
}.
End ops.

Section laws.
Context {D : Type} `{BlockDeviceLaws D} `{!ReliableWrites D}.
Abbreviation vol := (sfs_vol D).
Abbreviation world := (sfs_world D).
Abbreviation root := SFS_ROOT_LOCATION.
Implicit Types (S : vol) (w : world) (I : gmap Z sfs_inode) (m : gmap (list Z) Z) (l : loc)
  (R O : gmultiset (loc * bool)) (T : gmap unit (option (list Z))).

(** ** The invariant *)

(** A disk with a consistent volume. *)
Definition sfs_disk (d : D) : Prop := ∃ sp map I m,
  disk_holds d sp map ∧ Forall is_u8 (sp_volname sp) ∧
  vol_wf (mounted d sp map []) I ∧ vol_ns (mounted d sp map []) I m.

(** The name of the volume, up to the terminator. *)
Definition volname (sb : sfs_super) : list Z := until0 (take 31 (sp_volname sb)).

Record sfs_mounted sb R O S I m : Prop := {
  sm_wf : vol_wf S I;
  sm_ns : vol_ns S I m;
  sm_count : counted sb R O S;
  sm_name : Forall is_u8 (sp_volname sb);
}.

Definition sfs_inv w T R O : Prop :=
  match w with
  | Raw d => T = ∅ ∧ R = ∅ ∧ O = ∅ ∧ sfs_disk d
  | Mounted s => ∃ sb I m, T = {[ () := Some (volname sb) ]} ∧ sfs_mounted sb R O s I m
  end.

Definition sfs_clean w : Prop :=
  match w with
  | Raw _ => True
  | Mounted s => sfs_superdirty (vl_fs s) = false ∧ sfs_freemapdirty (vl_fs s) = false
  end.

Lemma wp_on_mounted {A} S (op : M vol A) Q : wp op (λ r S', Q r (Mounted S')) S → wp (on_mounted op) Q (Mounted S).
Proof. unfold wp, on_mounted. by destruct (op S). Qed.

Lemma sfs_inv_intro sb R O S I m : sfs_mounted sb R O S I m → sfs_inv (Mounted S) {[ () := Some (volname sb) ]} R O.
Proof. intros Hm. by exists sb, I, m. Qed.

(** A held vnode is loaded; a directory is the root directory. *)
Lemma sfs_inv_held w T R O v :
  sfs_inv w T R O → v ∈ R → ∃ S sb I m sv, w = Mounted S ∧ T = {[ () := Some (volname sb) ]} ∧
    sfs_mounted sb R O S I m ∧ vl_heap S !! v.1 = Some sv ∧ vn_isdir (sv_v sv) = v.2.
Proof.
  intros Hi Hv. destruct w as [d|S]; [destruct Hi as (_ & -> & _); multiset_solver|]. destruct Hi as (sb & I & m & -> & Hm).
  destruct (ct_held _ _ _ (proj2 (sm_count _ _ _ _ _ _ Hm)) v Hv) as (vn & Hl & Hd). unfold headers in Hl.
  rewrite lookup_fmap in Hl. destruct (vl_heap S !! v.1) as [sv|] eqn:Hsv; [|done]. simplify_eq/=. by exists S, sb, I, m, sv.
Qed.

Lemma sfs_inv_vol w T R O f :
  sfs_inv w T R O → is_Some (T !! f) → ∃ S sb I m, w = Mounted S ∧ T = {[ () := Some (volname sb) ]} ∧ sfs_mounted sb R O S I m.
Proof.
  intros Hi Hf. destruct w as [d|S]; [destruct Hi as (-> & _); by destruct Hf|]. destruct Hi as (sb & I & m & -> & Hm). by exists S, sb, I, m.
Qed.

Lemma mounted_dir sb R O S I m l sv :
  sfs_mounted sb R O S I m → vl_heap S !! l = Some sv →
  if vn_isdir (sv_v sv) then vn_ops (sv_v sv) = Some sfs_dirops ∧ sfi_type (sv_i sv) = SFS_TYPE_DIR ∧ vol_ok S I m l
  else vn_ops (sv_v sv) = Some sfs_fileops ∧ sfi_type (sv_i sv) = SFS_TYPE_FILE ∧ sv_ino sv ≠ root.
Proof.
  intros [Hwf Hns _ _] Hl. destruct (vw_loaded _ _ Hwf l sv Hl) as (HI & _ & Hops).
  destruct (vn_root _ _ _ Hns) as (ri & Hri & [Hdw _] & _). unfold vn_isdir. rewrite Hops. unfold ops_of_type.
  destruct (vw_inode _ _ Hwf _ _ HI) as (_ & _ & _ & [o Ho]). unfold ops_of_type in Ho.
  destruct (decide (sv_ino sv = root)) as [Hr|Hn].
  - assert (ri = sv_i sv) as -> by congruence. rewrite (dw_type _ _ Hdw). simpl. split_and!; [done|done|]. split; [done|done|by exists sv].
  - destruct (vn_files _ _ _ Hns _ _ HI Hn) as [-> _]. by simpl.
Qed.
(** ** Operations on a mounted volume *)

Lemma svop_spec {A} sb R O S I m l sv (file dir : M vol A) Q :
  sfs_mounted sb R O S I m → vl_heap S !! l = Some sv →
  wp (if vn_isdir (sv_v sv) then dir else file) Q S → wp (svop l file dir) Q S.
Proof.
  intros Hm Hl HQ. pose proof (mounted_dir _ _ _ _ _ _ _ _ Hm Hl) as Hd. unfold svop.
  eapply vop_check_spec; [apply Hm|done|]. wp_step. eapply wp_get_sv; [done|].
  destruct (vn_isdir (sv_v sv)); destruct Hd as [-> _]; done.
Qed.

Lemma svnode_of_spec sb R O S I m l d Q :
  sfs_mounted sb (R ⊎ {[+ (l, d) +]}) O S I m → Q (Ret (l, d)) S → wp (svnode_of (mret l)) Q S.
Proof.
  intros Hm HQ. destruct (sfs_inv_held (Mounted S) {[ () := Some (volname sb) ]} _ _ (l, d) (sfs_inv_intro _ _ _ _ _ _ Hm))
    as (S' & sb' & I' & m' & sv & [= <-] & _ & _ & Hl & Hd); [multiset_solver|]. simpl in *.
  unfold svnode_of. wp_step. wp_step. wp_step. eapply wp_get_sv; [done|]. wp_step. by rewrite Hd.
Qed.

(** The volume is consistent after an operation. *)
Definition sound (S : vol) : Prop := ∃ I m, vol_wf S I ∧ vol_ns S I m.

(** What the operations do to the files, and what they do to the counts. *)
Lemma keeps_inv {A} sb R O R' O' S I m (op : M vol A) :
  sfs_mounted sb R O S I m →
  wp op (λ r S', match r with Halt _ => False | _ => sound S' end) S →
  wp op (λ r S', match r with Halt _ => True | _ => counted sb R' O' S' end) S →
  wp op (λ r S', match r with
    | Halt _ => False | _ => sfs_inv (Mounted S') {[ () := Some (volname sb) ]} R' O' end) S.
Proof.
  intros Hm Hf Hc. eapply wp_mono; [by apply (wp_and _ _ _ _ Hf Hc)|].
  intros [x|e|k] S' [Hs Hc']; [..|done]; destruct Hs as (I' & m' & Hwf & Hns); apply (sfs_inv_intro _ _ _ _ I' m'); by split; [..|apply Hm].
Qed.

Lemma hands_inv sb R O S I m (op : M vol loc) :
  sfs_mounted sb R O S I m →
  wp op (λ r S', match r with Halt _ => False | _ => sound S' end) S → wp op (hands_out id sb R O) S →
  wp (svnode_of op) (λ r S', match r with
    | Ret v => sfs_inv (Mounted S') {[ () := Some (volname sb) ]} (R ⊎ {[+ v +]}) O ∧ Some () = Some ()
    | Fail _ => sfs_inv (Mounted S') {[ () := Some (volname sb) ]} R O
    | Halt _ => False end) S.
Proof.
  intros Hm Hf Hc. unfold svnode_of. wp_step. eapply wp_mono; [by apply (wp_and _ _ _ _ Hf Hc)|].
  intros [l|e|k] S' [Hs Hc']; [..|done]; destruct Hs as (I' & m' & Hwf & Hns); simpl in Hc'.
  - destruct Hc' as [d Hc']. assert (sfs_mounted sb (R ⊎ {[+ (l, d) +]}) O S' I' m') as Hm' by (by split; [..|apply Hm]).
    pose proof (svnode_of_spec sb R O S' I' m' l d) as Hv. unfold svnode_of in Hv.
    apply (Hv (λ r S', match r with
      | Ret v => sfs_inv (Mounted S') {[ () := Some (volname sb) ]} (R ⊎ {[+ v +]}) O ∧ Some () = Some ()
      | Fail _ => sfs_inv (Mounted S') {[ () := Some (volname sb) ]} R O | Halt _ => False end) Hm').
    split; [|done]. by eapply sfs_inv_intro.
  - eapply (sfs_inv_intro _ _ _ _ I' m'). by split; [..|apply Hm].
Qed.

(** A file other than the root directory changes its contents. *)
Lemma ns_file S I m l sv f' sv' :
  vol_wf S I → vol_ns S I m → vl_heap S !! l = Some sv → sv_ino sv ≠ root → sv_ino sv' = sv_ino sv →
  fchange (vl_fs S) (sv_i sv) f' (sv_i sv') →
  sfi_type (sv_i sv') = sfi_type (sv_i sv) → sfi_linkcount (sv_i sv') = sfi_linkcount (sv_i sv) →
  vol_wf (upd S l f' sv') (<[sv_ino sv := sv_i sv']> I) →
  vol_ns (upd S l f' sv') (<[sv_ino sv := sv_i sv']> I) m.
Proof.
  intros Hwf [(ri & Hri & Hdir & Hl0) Hnm Hfl Hor] Hl Hne Hino Hc Ht Hlk Hwf'.
  assert (<[sv_ino sv := sv_i sv']> I !! root = Some ri) as Hri' by by rewrite lookup_insert_ne. split.
  - exists ri. split_and!; [done| |done]. eapply (dir_rep_ext (vl_fs S) ri); [done|apply Hwf'|by eapply (vw_inode _ _ Hwf' root)|done|done|].
    by apply (change_bytes S I l sv f' (sv_i sv') Hwf Hl Hc root ri).
  - intros s a Hs. destruct (Hnm s a Hs) as [Hn Ha]. split; [done|]. apply lookup_insert_is_Some'. by right.
  - intros a i [[<- <-]|[Hna Ha]]%lookup_insert_Some Hn; [|by apply Hfl]. rewrite Ht, Hlk. apply Hfl; [|done]. by apply (vw_loaded _ _ Hwf l).
  - intros a i [[<- <-]|[Hna Ha]]%lookup_insert_Some Hn Hz.
    + exists l. exists sv'. by rewrite upd_lookup.
    + destruct (Hor a i Ha Hn Hz) as [l' Hl']. exists l'. by eapply upd_loaded.
Qed.
(** ** The laws *)

Ltac sfs_open Hi Hv :=
  destruct (sfs_inv_held _ _ _ _ _ Hi Hv) as (S & sb & I & m & sv & -> & -> & Hm & Hl & Hd); simpl in *.

(** A vnode changes its counts only. *)
Lemma ns_vnode S I m l sv vn :
  vol_wf S I → vol_ns S I m → vl_heap S !! l = Some sv → vnode_ok vn → vn_ops vn = vn_ops (sv_v sv) →
  sound (upd S l (vl_fs S) (set_sv_v vn sv)).
Proof.
  intros Hwf Hns Hl Hvn Hops. exists I, m. pose proof (vol_vnode S I l sv vn Hwf Hl Hvn Hops) as Hwf'. split; [done|].
  eapply ns_same; [done|done|apply same_fs_refl, Hwf|]. intros l' a Hl'. by eapply upd_loaded.
Qed.

Lemma on_vn_law sb R O R' O' S I m l sv (op : M vnode unit) :
  sfs_mounted sb R O S I m → vl_heap S !! l = Some sv →
  wp op (returns (λ _ vn, vnode_ok vn ∧ vn_ops vn = vn_ops (sv_v sv))) (sv_v sv) →
  wp (on_vn l op) (λ r S', match r with Halt _ => True | _ => counted sb R' O' S' end) S →
  wp (on_mounted (on_vn l op)) (returns (λ _ w', sfs_inv w' {[ () := Some (volname sb) ]} R' O')) (Mounted S).
Proof.
  intros Hm Hl Hop Hc. apply wp_on_mounted. assert (wp (on_vn l op) (returns (λ _ S', sound S')) S) as Hf.
  { eapply wp_on_vn; [done|]. eapply wp_mono; [exact Hop|]. intros [x|e|k] vn Hx; [|done..]. simpl in Hx. destruct Hx. eapply ns_vnode; by try apply Hm. }
  eapply wp_mono; [by apply (wp_and _ _ _ _ Hf Hc)|]. intros [x|e|k] S' [Hs Hc']; [|done..]. destruct Hs as (I' & m' & Hwf & Hns).
  apply (sfs_inv_intro _ _ _ _ I' m'). by split; [..|apply Hm].
Qed.

Lemma sfs_incref_law w T R O v :
  sfs_inv w T R O → v ∈ R → wp (VOP_INCREF v) (returns (λ _ w', sfs_inv w' T (R ⊎ {[+ v +]}) O)) w.
Proof.
  intros Hi Hv. sfs_open Hi Hv. destruct (vw_loaded _ _ (sm_wf _ _ _ _ _ _ Hm) _ _ Hl) as (_ & Hvn & _).
  eapply on_vn_law; [done|done| |].
  - unfold vnode_incref. wp_step. split; [by apply incref_ok|done].
  - apply (count_incref sb R O v.1 S); [apply Hm|done|]. intros d S' Hc (vn & Hvn' & Hd'). unfold headers in Hvn'.
    rewrite lookup_fmap, Hl in Hvn'. simplify_eq/=. rewrite Hd in Hc. by destruct v.
Qed.

Lemma sfs_incopen_law w T R O v :
  sfs_inv w T R O → v ∈ R → wp (VOP_INCOPEN v) (returns (λ _ w', sfs_inv w' T R (O ⊎ {[+ v +]}))) w.
Proof.
  intros Hi Hv. sfs_open Hi Hv. destruct (vw_loaded _ _ (sm_wf _ _ _ _ _ _ Hm) _ _ Hl) as (_ & [? ? ? ?] & _).
  eapply on_vn_law; [done|done| |by apply count_incopen; [apply Hm|]].
  unfold vnode_incopen. wp_step. split; [split; simpl; [done|lia|done|done]|done].
Qed.

Lemma sfs_decref_law w T R O v :
  sfs_inv w T (R ⊎ {[+ v +]}) O → (v ∈ O → v ∈ R) → wp (VOP_DECREF v) (returns (λ _ w', sfs_inv w' T R O)) w.
Proof.
  intros Hi Hin. assert (v ∈ R ⊎ {[+ v +]}) as Hv by multiset_solver. sfs_open Hi Hv.
  apply wp_on_mounted. destruct Hm as [Hwf Hns [Hsb Hc] Hnm].
  assert (headers S !! v.1 = Some (sv_v sv)) as Hh by (unfold headers; by rewrite lookup_fmap, Hl).
  eapply wp_mono; [apply wp_and|].
  - eapply (vop_decref_spec S I v.1 sv (returns (λ _ S', sound S'))); [done..| |].
    + intros H1. pose proof (ct_refs _ _ _ Hc _ _ Hh) as Hr. rewrite (ct_opens _ _ _ Hc _ _ Hh), Hd in *. destruct v as [l d]; simpl in *.
      rewrite count_mult, decide_True in Hr by done. assert ((l, d) ∉ O) as Hn.
      { intros HO%Hin. rewrite elem_of_multiplicity in HO. lia. }
      apply not_elem_of_multiplicity in Hn. lia.
    + intros S' I' Hrl. exists I', m. split; [apply Hrl|by eapply released_ns].
  - apply (count_decref sb R O v S (λ r S', match r with Halt _ => True | _ => counted sb R O S' end)); [by split|done|done|done].
  - intros [x|e|k] S' [Hs Hc']; [|done..]. destruct Hs as (I' & m' & Hwf' & Hns'). by apply (sfs_inv_intro _ _ _ _ I' m').
Qed.
Lemma flushed_refl S I : vol_wf S I → flushed S I [] S.
Proof.
  intros Hwf. split; [done|done| | |done].
  - exists (sfs_device (vl_fs S)). by destruct (vl_fs S).
  - intros l. by destruct (vl_heap S !! l).
Qed.

Lemma flushed_sound S I m ls S' : vol_ns S I m → flushed S I ls S' → sound S'.
Proof.
  intros [(ri & Hri & Hrep & Hlk) Hnm Hfl Hor] Hf. exists I, m. pose proof (fl_wf _ _ _ _ Hf) as Hwf'. split; [done|]. split; [|done|done|].
  - exists ri. split_and!; [done| |done]. apply (dir_rep_ext (vl_fs S) ri);
      [done|apply Hwf'|by eapply (vw_inode _ _ Hwf' root)|done|done|by apply (fl_bytes _ _ _ _ Hf _ _ Hri)].
  - intros a i Ha Hne Hz. destruct (Hor a i Ha Hne Hz) as (l & sv & Hl & <-). exists l, (if decide (l ∈ ls) then set_dirty false sv else sv).
    rewrite (fl_heap _ _ _ _ Hf l), Hl. by case_decide.
Qed.

Lemma decopen_count_spec vn Q :
  vnode_ok vn → 0 < vn_opencount vn → (∀ b, Q (Ret b) (set_opencount (vn_opencount vn - 1) vn)) → wp vnode_decopen_count Q vn.
Proof.
  intros Hok Hpos HQ. unfold vnode_decopen_count. wp_step. wp_step. wp_step. apply wp_assert; [by rewrite (proj2 (Z.gtb_lt _ _)) by lia|].
  wp_step. wp_step. by wp_step.
Qed.

Lemma sfs_decopen_law w T R O v :
  sfs_inv w T R (O ⊎ {[+ v +]}) → v ∈ R → wp (VOP_DECOPEN v) (returns (λ _ w', sfs_inv w' T R O)) w.
Proof.
  intros Hi Hv. sfs_open Hi Hv. destruct (vw_loaded _ _ (sm_wf _ _ _ _ _ _ Hm) _ _ Hl) as (_ & Hvn & _).
  apply wp_on_mounted. destruct Hm as [Hwf Hns [Hsb Hc] Hnm].
  assert (headers S !! v.1 = Some (sv_v sv)) as Hh by (unfold headers; by rewrite lookup_fmap, Hl).
  assert (0 < vn_opencount (sv_v sv)) as Hpos.
  { rewrite (ct_opens _ _ _ Hc _ _ Hh), Hd. destruct v; simpl. rewrite count_mult, decide_True by done. lia. }
  eapply wp_mono; [apply (wp_and _ (returns (λ _ S', sound S')))|].
  - unfold vnode_decopen. wp_step. eapply wp_on_vn; [done|]. apply decopen_count_spec; [done|done|]. intros b.
    set (sv' := set_sv_v _ sv). assert (vnode_ok (sv_v sv')) as Hvn' by (destruct Hvn; split; simpl; [done|lia|done|done]).
    destruct (ns_vnode S I m v.1 sv (sv_v sv') Hwf Hns Hl Hvn' eq_refl) as (I' & m' & Hwf' & Hns').
    destruct b; [|wp_step; by exists I', m']. eapply (vop_check_spec _ I'); [done|apply upd_lookup|].
    wp_step. apply wp_attempt. unfold sfs_close.
    eapply (vop_fsync_spec _ I' [] v.1); [by apply flushed_refl|apply upd_lookup|]. intros S2 Hf. wp_step. by eapply flushed_sound.
  - by apply (count_decopen sb R O v S).
  - intros [x|e|k] S' [Hs Hc']; [|done..]. destruct Hs as (I' & m' & Hwf' & Hns'). by apply (sfs_inv_intro _ _ _ _ I' m').
Qed.
Ltac sfs_op Hi Hv :=
  sfs_open Hi Hv; unfold on_fst; try apply wp_on_fst; apply wp_on_mounted; eapply svop_spec; [done..|];
  match goal with Hm : sfs_mounted _ _ _ _ _ _, Hl : _ !! _ = Some ?sv |- _ =>
    pose proof (mounted_dir _ _ _ _ _ _ _ _ Hm Hl) as Hdir; destruct (vn_isdir (sv_v sv)); destruct Hdir as (Hops & Hty & Hdir) end.
Ltac sfs_done := unfold sfs_notdir, sfs_isdir, sfs_unimp; wp_step; try done; by eapply sfs_inv_intro.

Lemma sfs_gettype_law w T R O v :
  sfs_inv w T R O → v ∈ R →
  wp (VOP_GETTYPE v) (λ r w', match r with
    | Ret t => sfs_inv w' T R O ∧ (S_ISDIR t = true → v.2 = true)
    | Fail _ => sfs_inv w' T R O
    | Halt _ => False
    end) w.
Proof.
  intros Hi Hv. sfs_op Hi Hv; unfold sfs_gettype; wp_step; (eapply wp_get_sv; [done|]); rewrite Hty; simpl; wp_step;
    (split; [by eapply sfs_inv_intro|]); [done|by vm_compute].
Qed.

Lemma sfs_open_law w T R O v flags :
  sfs_inv w T R O → v ∈ R →
  wp (VOP_OPEN v flags) (λ r w', match r with Halt _ => False | _ => sfs_inv w' T R O end) w.
Proof. intros Hi Hv. sfs_op Hi Hv; unfold sfs_open, sfs_opendir; repeat case_match; sfs_done. Qed.

Lemma sfs_truncate_law w T R O v :
  sfs_inv w T R O → v ∈ R →
  wp (VOP_TRUNCATE v 0) (λ r w', match r with Halt _ => False | _ => sfs_inv w' T R O end) w.
Proof.
  intros Hi Hv. sfs_open Hi Hv. apply wp_on_mounted. pose proof (mounted_dir _ _ _ _ _ _ _ _ Hm Hl) as Hdir.
  destruct (vn_isdir (sv_v sv)); destruct Hdir as (Hops & Hty & Hdir).
  - unfold vop_truncate. eapply vop_check_spec; [apply Hm|done|]. wp_step. eapply wp_get_sv; [done|]. rewrite Hops. sfs_done.
  - pose proof (sm_wf _ _ _ _ _ _ Hm) as Hwf. pose proof (sm_ns _ _ _ _ _ _ Hm) as Hns. eapply keeps_inv; [done| |].
    + eapply (reclaim_truncate_spec S I v.1 sv); [done..| |].
      * intros f' sv' Htr Hwf' _. exists (<[sv_ino sv := sv_i sv']> I), m. split; [done|].
        destruct (sk_meta _ _ _ _ (tr_shrunk _ _ _ _ _ Htr)) as (? & ? & _).
        eapply ns_file; try done; [by apply (tr_vnode _ _ _ _ _ Htr)|by apply shrunk_fchange, Htr].
      * intros e f' sv' Hwf' Hc Hino Ht Hlk. exists (<[sv_ino sv := sv_i sv']> I), m. split; [done|]. by eapply ns_file.
    + eapply (count_keep _ sb R O); [apply pres_vop_truncate|apply Hm|]. by intros [].
Qed.

Lemma sfs_remove_law w T R O v name :
  sfs_inv w T R O → v ∈ R → is_string name →
  wp (VOP_REMOVE v name) (λ r w', match r with Halt _ => False | _ => sfs_inv w' T R O end) w.
Proof.
  intros Hi Hv (s & Hs & Hu8 & Hlen). sfs_op Hi Hv; [|sfs_done]. eapply keeps_inv; [done| |by apply count_remove, Hm].
  eapply sfs_remove_spec; [done..| |].
  - intros S' I' _ [] _. by exists I', (delete s m).
  - intros e S' I' [] _ _. by exists I', m.
Qed.

Lemma sfs_link_law w T R O dir name v :
  sfs_inv w T R O → dir ∈ R → v ∈ R → is_string name → v.2 = false →
  wp (VOP_LINK dir name v) (λ r w', match r with Halt _ => False | _ => sfs_inv w' T R O end) w.
Proof.
  intros Hi Hv Hv2 (s & Hs & Hu8 & Hlen) Hd2. destruct (sfs_inv_held _ _ _ _ _ Hi Hv2) as (S2 & sb2 & I2 & m2 & sv2 & -> & _ & Hm2 & Hl2 & Hdv2).
  pose proof (mounted_dir _ _ _ _ _ _ _ _ Hm2 Hl2) as Hfile. rewrite Hdv2, Hd2 in Hfile. destruct Hfile as (_ & _ & Hroot).
  destruct (sfs_inv_held _ _ _ _ _ Hi Hv) as (S & sb & I & m & sv & [= <-] & -> & Hm & Hl & Hd). simpl.
  apply wp_on_mounted. eapply svop_spec; [done..|]. pose proof (mounted_dir _ _ _ _ _ _ _ _ Hm Hl) as Hdir.
  destruct (vn_isdir (sv_v sv)); destruct Hdir as (Hops & Hty & Hdir); [|sfs_done]. eapply keeps_inv; [done| |by apply count_link, Hm].
  eapply (sfs_link_spec _ _ _ _ _ s v.1 (sv_ino sv2)); [done..|lia|by exists sv2|done| |].
  - intros S' I' _ [] _. by exists I', (<[s := sv_ino sv2]> m).
  - intros e S' I' d [] _ _ _. by exists I', m.
Qed.
Lemma sfs_rename_law w T R O v1 n1 v2 n2 :
  sfs_inv w T R O → v1 ∈ R → is_string n1 → is_string n2 →
  wp (VOP_RENAME v1 n1 v2 n2) (λ r w', match r with Halt k => k = Panic ∧ in_rename ≠ in_create | _ => sfs_inv w' T R O end) w.
Proof.
  intros Hi Hv (s1 & Hs1 & Hu1 & Hlen1) (s2 & Hs2 & Hu2 & Hlen2). sfs_op Hi Hv; [|sfs_done]. wp_step.
  destruct (v1.1 =? v2.1); [|done]. apply wp_assert; [done|]. eapply wp_mono; [apply (wp_and _ (λ r S', match r with Halt k => k = Panic | _ => sound S' end))|].
  - eapply (sfs_rename_spec _ _ _ _ _ _ s1 s2); [done..|lia| | |done].
    + intros S' I' ino _ _ [] _. by exists I', (<[s2 := ino]> (delete s1 m)).
    + intros e S' I' [] _ _. by exists I', m.
  - by apply count_rename, Hm.
  - intros [x|e|k] S' [Hs Hc]; [..|done]; destruct Hs as (I' & m' & Hwf' & Hns'); (eapply (sfs_inv_intro _ _ _ _ I' m'); by split; [..|apply Hm]).
Qed.

Lemma sfs_creat_law w T R O v name excl :
  sfs_inv w T R O → v ∈ R → is_string name →
  wp (VOP_CREAT v name excl) (λ r w', match r with
    | Ret v' => sfs_inv w' T (R ⊎ {[+ v' +]}) O ∧ Some () = Some ()
    | Fail _ => sfs_inv w' T R O
    | Halt _ => False
    end) w.
Proof.
  intros Hi Hv (s & Hs & Hu8 & Hlen). sfs_op Hi Hv; [|sfs_done]. eapply hands_inv; [done| |by apply count_creat, Hm].
  eapply sfs_creat_spec; [done..|lia| |].
  - intros l S' I' m' _ [] _. by exists I', m'.
  - intros e S' I' [] _ _. by exists I', m.
Qed.

Lemma sfs_lookup_law w T R O v path :
  sfs_inv w T R O → v ∈ R → is_string path →
  wp (VOP_LOOKUP v path) (λ r w', match r with
    | Ret v' => sfs_inv w' T (R ⊎ {[+ v' +]}) O ∧ Some () = Some ()
    | Fail _ => sfs_inv w' T R O
    | Halt _ => False
    end) w.
Proof.
  intros Hi Hv (s & Hs & Hu8 & Hlen). sfs_op Hi Hv; [|sfs_done]. eapply hands_inv; [done| |by apply count_sfs_lookup, Hm].
  unfold sfs_lookup. wp_step. eapply wp_get_sv; [done|]. rewrite Hty. simpl. wp_step. eapply sfs_lookonce_spec; [done..| |].
  - intros l slot ino sv' d S' [_ [] _ _ _ _ _ _ _ _ _ _]. wp_step. by exists I, m.
  - intros e S' [] _ _. by exists I, m.
Qed.

Lemma lookparent_spec S I m dir sv path s buf len :
  vol_wf S I → vol_ns S I m → vl_heap S !! dir = Some sv → good_string path s → zlen buf = len → len < 2 ^ 31 →
  wp (sfs_lookparent dir path buf len) (λ r S', match r with
    | Ret (l, name) => sound S' ∧ l = dir ∧ is_string name
    | Fail _ => sound S'
    | Halt _ => False
    end) S.
Proof.
  intros Hwf Hns Hl (Hs & Hu8 & Hlen) Hb Hb2. assert (sound S) as Hok by by exists I, m. unfold sfs_lookparent. wp_step.
  eapply wp_get_sv; [done|]. case_match; [by wp_step|]. wp_step. eapply wp_deref; [by apply strlen_cstr|].
  pose proof (zlen_nonneg s). case_match eqn:Hc; [by wp_step|]. rewrite Z.gtb_ltb in Hc. apply Z.ltb_ge in Hc. rewrite u32_small in Hc by (unfold is_u32; lia).
  wp_step. eapply wp_deref; [apply strcpy_spec; [done|lia]|]. wp_step. unfold vop_incref. eapply wp_on_vn; [done|].
  unfold vnode_incref. wp_step. wp_step. destruct (vw_loaded _ _ Hwf _ _ Hl) as (_ & Hvn & _).
  split_and!; [by eapply ns_vnode; [..|by apply incref_ok|]|done|]. exists s. split_and!; [|done..]. split; [apply Hs|by eexists].
Qed.
Lemma sfs_lookparent_law w T R O v path buf len :
  sfs_inv w T R O → v ∈ R → is_string path → zlen buf = len → len < 2 ^ 31 →
  wp (VOP_LOOKPARENT v path buf len) (λ r w', match r with
    | Ret (v', name) => sfs_inv w' T (R ⊎ {[+ v' +]}) O ∧ Some () = Some () ∧ is_string name
    | Fail _ => sfs_inv w' T R O
    | Halt _ => False
    end) w.
Proof.
  intros Hi Hv (s & Hs) Hb Hb2. sfs_op Hi Hv; [|sfs_done]. wp_step. pose proof (sm_count _ _ _ _ _ _ Hm) as Hc.
  eapply wp_mono; [apply wp_and; [by eapply lookparent_spec; try apply Hm|by apply (count_lookparent v.1 path buf len sb R O)]|].
  intros [[l name]|e|k] S' [Hf Hc']; [| |done].
  - destruct Hf as ((I' & m' & Hwf' & Hns') & -> & Hn), Hc' as (d & _ & Hc' & _).
    assert (sfs_mounted sb (R ⊎ {[+ (v.1, d) +]}) O S' I' m') as Hm' by (by split; [..|apply Hm]).
    wp_step. eapply svnode_of_spec; [done|]. wp_step. split_and!; [by eapply sfs_inv_intro|done|done].
  - destruct Hf as (I' & m' & Hwf' & Hns'). apply (sfs_inv_intro _ _ _ _ I' m'). by split; [..|apply Hm].
Qed.

Lemma sfs_namefile_law w T R O v us :
  sfs_inv w T R O → v ∈ R → v.2 = true → uio_ok us → uio_dir (u us) = UIO_READ →
  wp (VOP_NAMEFILE v) (λ r p, match r with
    | Ret _ => sfs_inv p.1 T R O ∧ ∃ bs, moved_in us bs p.2
    | Fail _ => sfs_inv p.1 T R O
    | Halt _ => False
    end) (w, us).
Proof.
  intros Hi Hv Hdv Hu _. sfs_op Hi Hv; [|congruence]. unfold sfs_namefile. wp_step. eapply wp_get_sv; [done|].
  destruct (root_dir _ _ _ _ _ Hdir Hl) as [-> _]. rewrite Z.eqb_refl. unfold wp. simpl. split; [by eapply sfs_inv_intro|]. exists []. by apply moved_in_nil.
Qed.

Lemma sfs_readlink_law w T R O v us :
  sfs_inv w T R O → v ∈ R → wp (VOP_READLINK v) (λ r p, match r with Halt _ => False | _ => sfs_inv p.1 T R O end) (w, us).
Proof. intros Hi Hv. sfs_op Hi Hv; sfs_done. Qed.

Lemma volname_good sb : super_ok sb → end_volname sb = sb → Forall is_u8 (sp_volname sb) → good_string (sp_volname sb) (volname sb).
Proof.
  intros Hok He Hu8. pose proof (so_volname _ Hok) as Hl. assert (sp_volname sb = take 31 (sp_volname sb) ++ [0]) as Heq.
  { apply (f_equal sp_volname) in He. simpl in He. rewrite <- He at 1. rewrite insert_take_drop, drop_ge by lia. done. }
  assert (Forall is_u8 (volname sb)) as Hv.
  { apply Forall_forall. intros c [Hc _]%until0_sub. rewrite Forall_forall in Hu8. apply Hu8. rewrite Heq. set_solver. }
  assert (cstr (sp_volname sb) (volname sb)) as Hs by (rewrite Heq at 1; apply (cstr_until0 _ [])).
  split_and!; [done|done|]. destruct Hs as [_ [rest Hr]]. apply (f_equal length) in Hr. rewrite length_app in Hr. simpl in Hr. unfold zlen. lia.
Qed.

Lemma sfs_getroot_law w T R O f :
  sfs_inv w T R O → is_Some (T !! f) →
  wp (FSOP_GETROOT f) (λ r w', match r with
    | Ret v => sfs_inv w' T (R ⊎ {[+ v +]}) O ∧ Some () = Some f
    | Fail _ => False
    | Halt k => k = Panic ∧ in_getroot ≠ in_create
    end) w.
Proof.
  intros Hi Hf. destruct (sfs_inv_vol _ _ _ _ _ Hi Hf) as (S & sb & I & m & -> & -> & Hm). apply wp_on_mounted.
  destruct (vn_root _ _ _ (sm_ns _ _ _ _ _ _ Hm)) as (ri & Hri & _). unfold svnode_of. wp_step.
  eapply wp_mono; [apply (wp_and _ (λ r S', match r with Ret _ => sound S' | Fail _ => False | Halt k => k = Panic end))|].
  - unfold sfs_getroot. wp_step. apply wp_attempt. eapply (sfs_loadvnode_spec S I); [apply Hm|done| |].
    + intros l S' Hwf' Hg. wp_step. exists I, m. split; [done|]. eapply ns_same; [apply Hm|done|apply Hg|]. intros l' a. by apply (got_loaded S l root).
    + done.
  - by apply count_getroot, Hm.
  - intros [l|e|k] S' [Hs Hc]; [|done..]. destruct Hs as (I' & m' & Hwf' & Hns'), Hc as [d Hc].
    assert (sfs_mounted sb (R ⊎ {[+ (l, d) +]}) O S' I' m') as Hm' by (by split; [..|apply Hm]).
    pose proof (svnode_of_spec sb R O S' I' m' l d) as Hv. unfold svnode_of in Hv.
    eapply Hv; [done|]. split; [by eapply sfs_inv_intro|by destruct f].
Qed.
Lemma sfs_sync_law w T R O f :
  sfs_inv w T R O → is_Some (T !! f) →
  wp (FSOP_SYNC f) (λ r w', match r with
    | Ret _ => sfs_inv w' T R O ∧ sfs_clean w'
    | Fail _ => sfs_inv w' T R O
    | Halt _ => False
    end) w.
Proof.
  intros Hi Hf. destruct (sfs_inv_vol _ _ _ _ _ Hi Hf) as (S & sb & I & m & -> & -> & Hm). apply wp_on_mounted. destruct Hm as [Hwf Hns Hc Hnm].
  eapply wp_mono; [apply wp_and|].
  - apply (sfs_sync_spec S I (returns (λ _ S', synced S I S')) Hwf). by intros.
  - apply (count_keep _ sb R O S (λ _ S', counted sb R O S')); [apply pres_sync|done|done].
  - intros [x|e|k] S' [Hs Hc']; [|done..]. pose proof Hs as [Hwf' Hheap Hfl _ Hby]. split; [|done].
    eapply (sfs_inv_intro _ _ _ _ I m). split; [done| |done|done]. destruct Hns as [(ri & Hri & Hrep & Hlk) ? ? Hor]. split; [|done|done|].
    + exists ri. split_and!; [done| |done]. apply (dir_rep_ext (vl_fs S) ri);
        [done|apply Hwf'|by eapply (vw_inode _ _ Hwf' root)|done|done|by apply (Hby _ _ Hri)].
    + intros a i Ha Hne Hz. destruct (Hor a i Ha Hne Hz) as (l & sv & Hl & <-). exists l, (set_dirty false sv). by rewrite Hheap, lookup_fmap, Hl.
Qed.

(** With no vnode loaded and nothing to write back, the disk has everything. *)
Lemma unloaded_disk S I m :
  vol_wf S I → vol_ns S I m → vl_heap S = ∅ → sfs_superdirty (vl_fs S) = false → sfs_freemapdirty (vl_fs S) = false →
  Forall is_u8 (sp_volname (sfs_sb (vl_fs S))) → sfs_disk (sfs_device (vl_fs S)).
Proof.
  intros Hwf Hns Hh Hsd Hmd Hu. assert (synced S I S) as Hsy by (split; [done|by rewrite Hh, fmap_empty|done|done|done]).
  destruct (mount_after_sync S I S (sfs_device (vl_fs S)) [] Hsy) as [Hwf2 Hfs2]; [by apply same_disk_refl, Hwf|].
  exists (sfs_sb (vl_fs S)), (v (sfs_freemap (vl_fs S))), I, m. split_and!; [by eapply synced_disk|done|done|].
  eapply ns_same; [done|done|done|]. intros l a (sv & Hl & _). by rewrite Hh in Hl.
Qed.

Lemma no_vnodes S I : vol_wf S I → array_getnum (vl_vnodes S) ≤ 0 → vl_heap S = ∅.
Proof.
  intros Hwf Hn. destruct (vw_table _ _ Hwf) as (ls & Hr & _ & Hls). apply map_eq. intros l. rewrite lookup_empty.
  destruct (vl_heap S !! l) as [sv|] eqn:Hl; [|done]. assert (l ∈ ls) as Hin by (apply Hls; by eexists).
  unfold array_getnum in Hn. rewrite (repr_num _ _ Hr) in Hn. destruct ls; [by apply elem_of_nil in Hin|]. unfold zlen in Hn. simpl in Hn. lia.
Qed.

Lemma wp_unmounted S Q :
  wp sfs_unmount (λ r S', match r with
    | Ret _ => Q (Ret ()) (Raw (sfs_device (vl_fs S')))
    | Fail e => Q (Fail e) (Mounted S')
    | Halt k => Q (Halt k) (Mounted S') end) S →
  wp sfs_unmounted Q (Mounted S).
Proof. unfold wp, sfs_unmounted. by destruct (sfs_unmount S) as [[]]. Qed.

Lemma sfs_unmount_law w T R O f :
  sfs_inv w T R O → is_Some (T !! f) → sfs_clean w →
  wp (FSOP_UNMOUNT f) (λ r w', match r with
    | Ret _ => sfs_inv w' (delete f T) R O
    | Fail _ => sfs_inv w' T R O
    | Halt _ => False
    end) w.
Proof.
  intros Hi Hf Hcl. destruct (sfs_inv_vol _ _ _ _ _ Hi Hf) as (S & sb & I & m & -> & -> & Hm). destruct Hcl as [Hsd Hmd], f.
  simpl. apply wp_unmounted. unfold sfs_unmount. wp_step. wp_step. destruct (array_getnum (vl_vnodes S) >? 0) eqn:Hn; [by wp_step|].
  rewrite Hsd, Hmd. wp_step. apply wp_assert; [done|]. unfold wp. simpl. rewrite delete_singleton_eq. rewrite Z.gtb_ltb in Hn. apply Z.ltb_ge in Hn. destruct Hm as [Hwf Hns [Hsb Hc] Hnm].
  pose proof (no_vnodes _ _ Hwf Hn) as Hh. assert (∀ v, v ∉ R) as HnR.
  { intros v Hv. destruct (ct_held _ _ _ Hc v Hv) as (vn & Hl & _). unfold headers in Hl. by rewrite Hh, fmap_empty in Hl. }
  assert (R = ∅) as -> by (destruct (gmultiset_choose_or_empty R) as [[x Hx]|]; [by destruct (HnR x)|done]).
  assert (O = ∅) as ->.
  { destruct (gmultiset_choose_or_empty O) as [[x Hx]|]; [|done]. destruct (HnR x). by apply (ct_open _ _ _ Hc). }
  split_and!; [done..|]. eapply unloaded_disk; [done..|]. by rewrite Hsb.
Qed.
(** ** Mounting *)

Lemma same_disk_id d : dev_ok d → same_disk d d.
Proof. by split. Qed.

Lemma disk_holds_same d d' sp map : same_disk d d' → disk_holds d sp map → disk_holds d' sp map.
Proof.
  intros (Hok & Hb & Hsec) [Hdev Hsize Hnb Hsuper Hmagic Hlen Hmap]. split; [done|by apply d_blocksize_sect|by rewrite Hb|by rewrite Hsec|done|done|].
  intros j Hj. rewrite Hsec. by apply Hmap.
Qed.

Lemma vol_remounted d d' sp map ms I m :
  same_disk d d' → vol_wf (mounted d sp map []) I → vol_ns (mounted d sp map []) I m →
  vol_wf (mounted d' sp map ms) I ∧ vol_ns (mounted d' sp map ms) I m.
Proof.
  intros Hs Hwf Hns. assert (vol_wf (mounted d' sp map ms) I) as Hwf'.
  { apply (vol_mallocs (mounted d' sp map [])). by apply (vol_same_disk (mounted d sp map [])). }
  split; [done|]. eapply ns_same; [done|done|by exists d'|]. by intros l a (sv & Hl & _).
Qed.

(** The mount fails with the disk as it was when an allocation fails. *)
Lemma domount_nomem d sp map map_ok vec_ok ms Q :
  disk_holds d sp map → map_ok && vec_ok = false →
  (∀ e d', same_disk d d' → e = EIO ∨ e = ENOMEM → Q (Fail e) d') → wp (sfs_domount true true map_ok vec_ok ms) Q d.
Proof.
  intros [Hdev Hsize [Hnb Hfit] Hsuper Hmagic Hlen Hmap] Hno HF. unfold sfs_domount, wp.
  rewrite Hsize. cbn [Z.eqb Pos.eqb SFS_BLOCKSIZE negb array_create].
  match goal with |- context [let '(r, f) := ?op (blank_fs d) in _] => set (mount := op) end.
  enough (wp mount (λ r f, match r with Fail e => same_disk d (sfs_device f) ∧ (e = EIO ∨ e = ENOMEM) | _ => False end) (blank_fs d)) as Hm.
  { unfold wp in Hm. destruct (mount (blank_fs d)) as [[[]|e|k] f]; simpl in Hm; [done|destruct Hm as [Hm He]; by apply HF|done]. }
  unfold mount, mount_super, SFS_SB_LOCATION, SFS_MAP_LOCATION in *. destruct (bitmapsize (sp_nblocks sp)) as [_ Hn]; [lia|].
  wp_step. wp_step. apply sfs_rblock_spec; [done|simpl; lia|lia| |by auto]. intros d1 Hs1. wp_step. wp_step. wp_step. wp_step.
  cbn [sfs_device blank_fs sfs_sb set_sb].
  assert (sp_magic (decode_super (sector d 0)) = SFS_MAGIC) as -> by (rewrite <- Hmagic, <- Hsuper; done).
  rewrite Z.eqb_refl. cbn [negb]. wp_step. unfold mount_map. wp_step. wp_step.
  assert (∀ n, bitmap_create map_ok vec_ok n = Ret None) as -> by (intros; by destruct map_ok, vec_ok). wp_step. auto.
Qed.

(** The errors of [sfs_domount] on a disk with a volume: a block cannot be read,
    or one of its allocations fails. *)
Definition mount_errno (allocs : bool * bool * bool * bool) (e : errno) : Prop :=
  e = EIO ∨ e = ENOMEM ∧ allocs ≠ (true, true, true, true).

Lemma domount_spec d sp map b1 b2 b3 b4 ms Q :
  disk_holds d sp map →
  (∀ d', same_disk d d' → Q (Ret (mounted d' sp map ms)) d') →
  (∀ e d', same_disk d d' → mount_errno (b1, b2, b3, b4) e → Q (Fail e) d') →
  wp (sfs_domount b1 b2 b3 b4 ms) Q d.
Proof.
  intros Hd HQ HF. pose proof (same_disk_id d (dh_dev _ _ _ Hd)) as Hid. pose proof (dh_size _ _ _ Hd) as Hsize.
  destruct b1, b2; try (unfold sfs_domount, wp; rewrite Hsize; simpl; apply HF; [done|by right]).
  destruct (b3 && b4) eqn:Hb.
  - apply andb_true_iff in Hb as [-> ->]. eapply sfs_domount_spec; [done..|]. intros. apply HF; [done|by left].
  - eapply domount_nomem; [done..|]. intros e d' Hs He. apply HF; [done|]. destruct He as [->| ->]; [by left|right].
    split; [done|]. by intros [= -> ->].
Qed.

Lemma sfs_mountfunc_law b1 b2 b3 b4 ms w R O :
  sfs_inv w ∅ R O →
  wp (sfs_mountfunc b1 b2 b3 b4 ms) (λ r w', match r with
    | Ret _ => ∃ n, sfs_inv w' {[ () := n ]} R O
    | Fail e => mount_errno (b1, b2, b3, b4) e ∧ sfs_inv w' ∅ R O
    | Halt _ => False
    end) w.
Proof.
  intros Hi. destruct w as [d|S].
  2:{ destruct Hi as (sb & I & m & HT & _). apply (f_equal (lookup ())) in HT. by rewrite lookup_singleton_eq in HT. }
  destruct Hi as (_ & -> & -> & sp & map & I & m & Hdh & Hu & Hwf & Hns).
  enough (wp (sfs_domount b1 b2 b3 b4 ms) (λ r d', match r with
    | Ret s => ∃ d', same_disk d d' ∧ s = mounted d' sp map ms | Fail e => mount_errno (b1, b2, b3, b4) e ∧ same_disk d d' | Halt _ => False end) d) as Hm.
  { unfold wp, sfs_mountfunc in *. destruct (sfs_domount b1 b2 b3 b4 ms d) as [[S|e|k] d2]; simpl in *; [..|done].
    - destruct Hm as (d' & Hs & ->). eexists. apply (sfs_inv_intro sp _ _ _ I m).
      destruct (vol_remounted d d' sp map ms I m Hs Hwf Hns). split; [done|done| |done]. split; [done|]. split; try done; multiset_solver.
    - destruct Hm as [He Hm]. split_and!; [done..|]. exists sp, map, I, m. destruct (vol_remounted d d2 sp map [] I m Hm Hwf Hns). split_and!; [|done..]. by eapply disk_holds_same. }
  eapply domount_spec; [done| |by auto]. intros d' Hs. by exists d'.
Qed.
#[global] Program Instance sfs_laws : VnodeLaws world (loc * bool) unit Empty_set := {
  fs_of v := Some ();
  dirvn v := v.2;
  inv := sfs_inv;
  fs_clean f w := sfs_clean w;
  may_panic op := op ≠ in_create;
  law_incref := sfs_incref_law;
  law_decref := sfs_decref_law;
  law_incopen := sfs_incopen_law;
  law_decopen := sfs_decopen_law;
  law_gettype := sfs_gettype_law;
  law_open := sfs_open_law;
  law_truncate := sfs_truncate_law;
  law_remove := sfs_remove_law;
  law_creat := sfs_creat_law;
  law_lookup := sfs_lookup_law;
  law_lookparent := sfs_lookparent_law;
  law_readlink := sfs_readlink_law;
  law_namefile := sfs_namefile_law;
  law_getroot := sfs_getroot_law;
  law_sync := sfs_sync_law;
  law_unmount := sfs_unmount_law;
}.
Next Obligation. by intros. Qed.
Next Obligation. intros w T R O v [] Hi Hv _. destruct (sfs_inv_held _ _ _ _ _ Hi Hv) as (S & sb & I & m & sv & -> & -> & _). by rewrite lookup_singleton_eq. Qed.
Next Obligation.
  intros w T R O v Hi Hv. apply wp_eq_intro. sfs_open Hi Hv. apply wp_on_mounted. wp_step. eapply wp_get_sv; [done|]. by wp_step.
Qed.
Next Obligation. intros w T R O v name Hi Hv _. sfs_op Hi Hv; sfs_done. Qed.
Next Obligation. intros w T R O v name Hi Hv _. sfs_op Hi Hv; sfs_done. Qed.
Next Obligation. intros w T R O v name text Hi Hv _ _. sfs_op Hi Hv; sfs_done. Qed.
Next Obligation. intros. by eapply sfs_rename_law. Qed.
Next Obligation. intros. by eapply sfs_link_law. Qed.
Next Obligation.
  intros w T R O [] n Hi Hn. destruct (sfs_inv_vol _ _ _ _ () Hi) as (S & sb & I & m & -> & -> & Hm); [by eexists|].
  rewrite lookup_singleton_eq in Hn. simplify_eq. exists (Some (sp_volname sb)). destruct Hm as [Hwf Hns [Hsb _] Hu]. split.
  - apply wp_eq_intro, wp_on_mounted. wp_step. wp_step. wp_step. unfold sfs_getvolname. by rewrite Hsb.
  - exists (sp_volname sb). split; [done|]. destruct (vd_sb _ _ (vw_disk _ _ Hwf)) as (? & _ & ?). rewrite Hsb in *. by apply volname_good.
Qed.
Next Obligation. by intros ???? []. Qed.
Next Obligation. intros. by apply wp_ret. Qed.
End laws.
