(* ===== verification/VfsSfs.v ===== *)
(** * Mounting an SFS volume (kern/fs/sfs/sfs_fs.c, sfs_mount)

    A kernel with devices and one disk that holds an SFS volume: the two
    implementations of vnodes of VfsDev.v and SfsVfs.v together.  [sfs_mount]
    gives [sfs_domount] to [vfs_mount], which hands it the device of the entry it
    found: for the device [disk] that is a mount of the disk.  The state has no
    other disk, so the mount of any other device is undefined; the theorem is
    about tables in which the disk is the only mountable device. *)

From stdpp Require Import gmultiset.
From S2P Require Import Prelude Libc Printf Bitmap Array CopyInOut Uio Device Lhd SfsDisk Vnode Sfs SfsMap SfsSpec SfsDir.
From S2P Require Import SfsVnode SfsVol SfsNames SfsOps SfsFs SfsCount Vfs VfsSpec VfsTable VfsCalls VfsSum VfsDev SfsVfs.

Section mount.
Context {Dv DS D : Type} `{!EqDecision Dv} `{DeviceLaws Dv DS} `{BlockDeviceLaws D} `{!ReliableWrites D}.
Abbreviation world := (devstate Dv DS * sfs_world D)%type.
Abbreviation vn := (Z + loc * bool)%type.
Abbreviation fs := (Empty_set + unit)%type.
Abbreviation kernel := (vfs world vn fs Dv).
Context (disk : Dv).

(** [allocs] are the outcomes of the allocations of [sfs_domount]. *)
Definition sfs_mounter (allocs : bool * bool * bool * bool) (ms : list bool) (dev : Dv) : M world fs :=
  let '(fs_ok, vn_ok, map_ok, vec_ok) := allocs in
  if decide (dev = disk) then _ ← on_snd (sfs_mountfunc fs_ok vn_ok map_ok vec_ok ms); mret (inr ()) else undef.

Definition sfs_mount (allocs : bool * bool * bool * bool) (ms : list bool) (devname : list Z) : M kernel unit :=
  vfs_mount devname (sfs_mounter allocs ms).

(** The disk is the only mountable device of the table. *)
Definition one_disk (a : abs (V:=vn) (F:=fs) (Dv:=Dv)) : Prop :=
  ∀ kd dev, kd ∈ a_devs a → is_Some (kd_rawname kd) → kd_device kd = Some dev → dev = disk.

Lemma sfs_mounts allocs ms a :
  one_disk a → a_vols a !! inr () = None → mounts (sfs_mounter allocs ms) (mount_errno allocs) a.
Proof.
  destruct allocs as [[[b1 b2] b3] b4].
  intros Hone Hno kd dev [w1 w2] Hin Hraw Hdev (T1 & T2 & R1 & R2 & O1 & O2 & HT & HR & HO & Hi1 & Hi2). simpl in *.
  rewrite decide_True by (by eapply Hone).
  assert (T2 = ∅) as ->. { apply map_eq. intros []. by rewrite (vols_r _ _ _ HT), Hno. }
  wp_step. wp_step. eapply wp_mono; [by apply sfs_mountfunc_law|]. intros [x|e|k] w' Hw; [| |done].
  - wp_step. split; [done|]. destruct Hw as [n Hw]. exists n. exists T1, {[ () := n ]}, R1, R2, O1, O2. split_and!; try done.
    split; [intros []|intros []]. by rewrite lookup_insert_eq, lookup_singleton_eq.
  - destruct Hw as [He Hw]. split; [done|]. by exists T1, ∅, R1, R2, O1, O2.
Qed.

End mount.

(** ** A kernel with a disk *)

Abbreviation diskkernel := (vfs (devstate builtin unit * sfs_world (lhd_softc ramcard)) (Z + loc * bool) (Empty_set + unit) builtin).

Definition disk_cold : diskkernel :=
  Build_vfs (Build_devstate ∅ () [], Raw (sfs_device (vl_fs (sfs_sync (small_vol [])).2)))
    (Build_array 0 0 None) ∅ false None false None [].
Definition disk_kernel : diskkernel := (vfs_adddev (literal "lhd0") null true disk_cold).2.

Lemma disk_cold_disk : sfs_disk (sfs_device (vl_fs (sfs_sync (small_vol [])).2)).
Proof.
  pose proof (small_ok []) as [Hwf Hns _].
  destruct (wp_run _ _ _ (sfs_sync_spec _ _ (λ _ S', synced (small_vol []) small_files S') Hwf (λ S' HS, HS))) as (r & S' & -> & Hsy). simpl.
  destruct (mount_after_sync _ _ _ _ [] Hsy (same_disk_refl _ (vw_fs _ _ (sy_wf _ _ _ Hsy)))) as [Hwf2 Hfs2].
  exists (sfs_sb (vl_fs S')), (v (sfs_freemap (vl_fs S'))), small_files, dir_names. split_and!; [by eapply synced_disk| |done|].
  - destruct (sy_same _ _ _ Hsy) as [-> _]. by apply (bool_decide_unpack _).
  - destruct Hns as [(ri & Hri & Hrep & Hlk) Hnm Hfl Hor]. split; [|done|done|].
    + exists ri. split_and!; [done| |done]. apply (dir_rep_ext (vl_fs (small_vol [])) ri);
        [done|apply Hwf2|by eapply (vw_inode _ _ Hwf2 SFS_ROOT_LOCATION)|done|done|].
      intros o Ho. rewrite (same_fs_fbyte _ _ _ _ Hfs2). by apply (sy_bytes _ _ _ Hsy _ _ Hri).
    + intros a i Ha Hne. rewrite links_dir_names. destruct (small_files_inv _ _ Ha) as [[-> _]|[-> _]]; done.
Qed.

Lemma disk_cold_repr : vfs_repr false disk_cold (Build_abs [] ∅ None None ∅ ∅ None).
Proof.
  split; simpl; try done; [|by intros f [? Hf]|].
  - exists []. split_and!; [by apply array_create_repr|constructor|done|]. intros i p Hi. by rewrite lookup_nil in Hi.
  - exists ∅, ∅, ∅, ∅, ∅, ∅. split_and!; [done|by split|by split| |]. { split; [done|..]; intros v Hv; exfalso; multiset_solver. }
    split_and!; [done..|exact disk_cold_disk].
Qed.

Lemma disk_kernel_repr : ∃ kd,
  vfs_repr false disk_kernel (with_dev kd (Build_abs [] ∅ None None ∅ ∅ None)) ∧ added (bytes "lhd0") true null kd.
Proof.
  assert ((vfs_adddev (literal "lhd0") null true disk_cold).1 = Ret ()) as Hret by (vm_compute; reflexivity). unfold disk_kernel.
  assert (wp (vfs_adddev (literal "lhd0") null true) (λ r s', r = Ret () → ∃ kd,
    vfs_repr false s' (with_dev kd (Build_abs [] ∅ None None ∅ ∅ None)) ∧ added (bytes "lhd0") true null kd) disk_cold) as Hwp.
  { eapply (vfs_adddev_spec disk_cold _ _ (bytes "lhd0")); [exact disk_cold_repr|apply lhd0_good|by vm_compute|by vm_compute|..]; try done. eauto. }
  unfold wp in Hwp. by apply Hwp.
Qed.

(** The entry of the only device there is stands for the disk. *)
Lemma disk_only a : one_disk null a.
Proof. by intros kd [] _ _ _. Qed.

