(* ===== verification/Emu.v ===== *)
(** * The emulator file system (kern/dev/lamebus/emu.c, emu.h, kern/include/emufs.h)

    A file system whose files are those of the host: the driver passes requests
    to a card.  The card is a parameter: [emu_run] is one operation of the
    hardware, given the operation, the registers and the buffer.  It works
    between the store to its operation register and the wait for completion; its
    interrupt runs [emu_irq] there.  The lock [e_lock] is whether the current
    thread holds it.  The file system part has the table of loaded vnodes and
    the heap of [struct emufs_vnode]; a vnode is named by its address and
    whether it was made for a directory, which does not change. *)

From Stdlib Require Import Ascii.
From S2P Require Import Prelude Libc Printf Array CopyInOut Uio Vnode SfsVnode Vfs.

Definition EMU_MAXIO : Z := 16384.
Definition EMU_ROOTHANDLE : Z := 0.

(** The codes of the operation and of the result register. *)
Inductive emu_op :=
  | EMU_OP_OPEN | EMU_OP_CREATE | EMU_OP_EXCLCREATE | EMU_OP_CLOSE | EMU_OP_READ
  | EMU_OP_READDIR | EMU_OP_WRITE | EMU_OP_GETSIZE | EMU_OP_TRUNC.

Inductive emu_res :=
  | EMU_RES_SUCCESS | EMU_RES_BADHANDLE | EMU_RES_BADOP | EMU_RES_BADPATH | EMU_RES_BADSIZE
  | EMU_RES_EXISTS | EMU_RES_ISDIR | EMU_RES_MEDIA | EMU_RES_NOHANDLES | EMU_RES_NOSPACE
  | EMU_RES_NOTDIR | EMU_RES_UNKNOWN | EMU_RES_UNSUPP | EMU_RES_OTHER (code : Z).

Record emu_regs := { r_handle : Z; r_offset : Z; r_iolen : Z }.

Class EmuHardware (HW : Type) := {
  emu_run : HW → emu_op → emu_regs → list Z → ((emu_res * emu_regs) * list Z) * HW;
}.

Record emu_softc (HW : Type) := {
  e_hw : HW;
  e_regs : emu_regs;
  e_reg_result : option emu_res;
  e_lock : bool;
  e_sem : Z;
  e_iobuf : list Z;
  e_result : option emu_res;
}.
Arguments Build_emu_softc {_} _ _ _ _ _ _ _.
Arguments e_hw {_} _.
Arguments e_regs {_} _.
Arguments e_reg_result {_} _.
Arguments e_lock {_} _.
Arguments e_sem {_} _.
Arguments e_iobuf {_} _.
Arguments e_result {_} _.

Record emufs_vnode := { ev_v : vnode; ev_handle : Z }.

Record emufs_fs (HW : Type) := {
  ef_emu : emu_softc HW;
  ef_root : option Z;
  ef_vnodes : array Z;
  ef_heap : gmap Z emufs_vnode;
  ef_mallocs : list bool;
}.
Arguments Build_emufs_fs {_} _ _ _ _ _.
Arguments ef_emu {_} _.
Arguments ef_root {_} _.
Arguments ef_vnodes {_} _.
Arguments ef_heap {_} _.
Arguments ef_mallocs {_} _.

Section ops.
Context {HW : Type} `{EmuHardware HW}.
Abbreviation emu := (emu_softc HW).
Abbreviation fs := (emufs_fs HW).

(** ** The hardware *)

Definition set_regs (r : emu_regs) (s : emu) : emu :=
  Build_emu_softc (e_hw s) r (e_reg_result s) (e_lock s) (e_sem s) (e_iobuf s) (e_result s).
Definition set_e_lock (b : bool) (s : emu) : emu :=
  Build_emu_softc (e_hw s) (e_regs s) (e_reg_result s) b (e_sem s) (e_iobuf s) (e_result s).
Definition set_e_sem (n : Z) (s : emu) : emu :=
  Build_emu_softc (e_hw s) (e_regs s) (e_reg_result s) (e_lock s) n (e_iobuf s) (e_result s).
Definition set_iobuf (b : list Z) (s : emu) : emu :=
  Build_emu_softc (e_hw s) (e_regs s) (e_reg_result s) (e_lock s) (e_sem s) b (e_result s).

Definition wreg_handle (h : Z) : M emu unit :=
  modify (λ s, set_regs {| r_handle := u32 h; r_offset := r_offset (e_regs s); r_iolen := r_iolen (e_regs s) |} s).
Definition wreg_offset (o : Z) : M emu unit :=
  modify (λ s, set_regs {| r_handle := r_handle (e_regs s); r_offset := u32 o; r_iolen := r_iolen (e_regs s) |} s).
Definition wreg_iolen (n : Z) : M emu unit :=
  modify (λ s, set_regs {| r_handle := r_handle (e_regs s); r_offset := r_offset (e_regs s); r_iolen := u32 n |} s).

(** The card performs an operation and stores its result. *)
Definition emu_card (op : emu_op) (s : emu) : emu :=
  let '(((res, regs), buf), hw) := emu_run (e_hw s) op (e_regs s) (e_iobuf s) in
  Build_emu_softc hw regs (Some res) (e_lock s) (e_sem s) buf (e_result s).

Definition emu_irq (s : emu) : emu :=
  Build_emu_softc (e_hw s) (e_regs s) None (e_lock s) (e_sem s + 1) (e_iobuf s) (e_reg_result s).

(** [emu_wreg(sc, REG_OPER, op)], and what the hardware does then. *)
Definition emu_operate (op : emu_op) : M emu unit :=
  _ ← modify (emu_card op); modify emu_irq.

(** [None] is the result 0. *)
Definition translate_err (code : option emu_res) : M emu (option errno) :=
  match code with
  | Some EMU_RES_SUCCESS => mret None
  | Some (EMU_RES_BADHANDLE | EMU_RES_BADOP | EMU_RES_BADSIZE) => panic
  | Some EMU_RES_BADPATH => mret (Some ENOENT)
  | Some EMU_RES_EXISTS => mret (Some EEXIST)
  | Some EMU_RES_ISDIR => mret (Some EISDIR)
  | Some EMU_RES_MEDIA => mret (Some EIO)
  | Some EMU_RES_NOHANDLES => mret (Some ENFILE)
  | Some EMU_RES_NOSPACE => mret (Some ENOSPC)
  | Some EMU_RES_NOTDIR => mret (Some ENOTDIR)
  | Some EMU_RES_UNKNOWN => mret (Some EIO)
  | Some EMU_RES_UNSUPP => mret (Some EUNIMP)
  | Some (EMU_RES_OTHER _) | None => mret (Some EAGAIN)
  end.

Definition emu_waitdone : M emu unit :=
  s ← get;
  if e_sem s =? 0 then blocked
  else
    _ ← put (set_e_sem (e_sem s - 1) s);
    s ← get;
    r ← translate_err (e_result s);
    match r with None => mret () | Some e => fail e end.

Definition emu_lock : M emu unit := s ← get; _ ← assert (negb (e_lock s)); put (set_e_lock true s).
Definition emu_unlock : M emu unit := s ← get; _ ← assert (e_lock s); put (set_e_lock false s).

Definition emu_open (handle : Z) (name : list Z) (create excl : bool) : M emu (Z * bool) :=
  n ← deref (strlen name);
  if u32 (n + 1) >? EMU_MAXIO then fail ENAMETOOLONG
  else
    let op := if create && excl then EMU_OP_EXCLCREATE else if create then EMU_OP_CREATE else EMU_OP_OPEN in
    _ ← emu_lock;
    s ← get;
    buf ← deref (strcpy (e_iobuf s) name);
    _ ← modify (set_iobuf buf);
    _ ← wreg_iolen n;
    _ ← wreg_handle handle;
    _ ← emu_operate op;
    result ← attempt emu_waitdone;
    s ← get;
    _ ← emu_unlock;
    match result with
    | inl _ => mret (r_handle (e_regs s), r_iolen (e_regs s) >? 0)
    | inr e => fail e
    end.

(** The loop of [emu_close], with the retries that are left. *)
Fixpoint emu_close_loop (retries : nat) (handle : Z) : M emu unit :=
  _ ← wreg_handle handle;
  _ ← emu_operate EMU_OP_CLOSE;
  result ← attempt emu_waitdone;
  match result, retries with
  | inr EIO, S retries => emu_close_loop retries handle
  | _, _ => result_of result
  end.

Definition emu_close (handle : Z) : M emu unit :=
  s ← get;
  let mine := e_lock s in
  _ ← (if mine then mret () else emu_lock);
  result ← attempt (emu_close_loop 10 handle);
  _ ← (if mine then mret () else emu_unlock);
  result_of result.

Definition set_offset (o : Z) (x : uio) : uio :=
  {| iov_base := iov_base x; iov_len := iov_len x; uio_offset := o; uio_resid := uio_resid x;
     uio_segflg := uio_segflg x; uio_dir := uio_dir x; uio_space := uio_space x |}.

(** The body of [emu_doread] up to the label [out]. *)
Definition emu_doread_locked (handle len : Z) (op : emu_op) : M (emu * uiost) unit :=
  _ ← on_fst (wreg_handle handle);
  _ ← on_fst (wreg_iolen len);
  p ← get;
  _ ← on_fst (wreg_offset (uio_offset (u p.2)));
  _ ← on_fst (emu_operate op);
  _ ← on_fst emu_waitdone;
  p ← get;
  result ← attempt (on_snd (uiomove (e_iobuf p.1) (r_iolen (e_regs p.1))));
  _ ← on_snd (modify (λ us, set_u (set_offset (s32 (r_offset (e_regs p.1))) (u us)) us));
  match result with inl _ => mret () | inr e => fail e end.

Definition with_emu_lock {A} (m : M (emu * uiost) A) : M (emu * uiost) A :=
  _ ← on_fst emu_lock;
  result ← attempt m;
  _ ← on_fst emu_unlock;
  result_of result.

Definition emu_doread (handle len : Z) (op : emu_op) : M (emu * uiost) unit :=
  p ← get;
  _ ← assert (bool_decide (uio_dir (u p.2) = UIO_READ));
  with_emu_lock (emu_doread_locked handle len op).

Definition emu_read (handle len : Z) : M (emu * uiost) unit := emu_doread handle len EMU_OP_READ.
Definition emu_readdir (handle len : Z) : M (emu * uiost) unit := emu_doread handle len EMU_OP_READDIR.

Definition emu_write (handle len : Z) : M (emu * uiost) unit :=
  p ← get;
  _ ← assert (bool_decide (uio_dir (u p.2) = UIO_WRITE));
  with_emu_lock (
    _ ← on_fst (wreg_handle handle);
    _ ← on_fst (wreg_iolen len);
    p ← get;
    _ ← on_fst (wreg_offset (uio_offset (u p.2)));
    buf ← on_snd (uiomove (e_iobuf p.1) len);
    _ ← on_fst (modify (set_iobuf buf));
    _ ← on_fst (emu_operate EMU_OP_WRITE);
    on_fst emu_waitdone).

Definition emu_getsize (handle : Z) : M emu Z :=
  _ ← emu_lock;
  _ ← wreg_handle handle;
  _ ← emu_operate EMU_OP_GETSIZE;
  result ← attempt emu_waitdone;
  s ← get;
  _ ← emu_unlock;
  match result with inl _ => mret (s32 (r_iolen (e_regs s))) | inr e => fail e end.

Definition emu_trunc (handle len : Z) : M emu unit :=
  _ ← emu_lock;
  _ ← wreg_handle handle;
  _ ← wreg_iolen len;
  _ ← emu_operate EMU_OP_TRUNC;
  result ← attempt emu_waitdone;
  _ ← emu_unlock;
  result_of result.

(** ** Vnodes *)

Definition set_emu (e : emu) (s : fs) : fs := Build_emufs_fs e (ef_root s) (ef_vnodes s) (ef_heap s) (ef_mallocs s).
Definition set_root (r : option Z) (s : fs) : fs := Build_emufs_fs (ef_emu s) r (ef_vnodes s) (ef_heap s) (ef_mallocs s).
Definition set_evnodes (a : array Z) (s : fs) : fs := Build_emufs_fs (ef_emu s) (ef_root s) a (ef_heap s) (ef_mallocs s).
Definition set_eheap (h : gmap Z emufs_vnode) (s : fs) : fs :=
  Build_emufs_fs (ef_emu s) (ef_root s) (ef_vnodes s) h (ef_mallocs s).
Definition set_emallocs (l : list bool) (s : fs) : fs :=
  Build_emufs_fs (ef_emu s) (ef_root s) (ef_vnodes s) (ef_heap s) l.

Definition on_emu {A} : M emu A → M fs A := zoom ef_emu set_emu.
Definition on_emu_uio {A} (m : M (emu * uiost) A) : M (fs * uiost) A :=
  zoom (λ p, (ef_emu p.1, p.2)) (λ q p, (set_emu q.1 p.1, q.2)) m.
Definition on_evnodes {A} : M (array Z) A → M fs A := zoom ef_vnodes set_evnodes.
Definition get_ev (l : Z) : M fs emufs_vnode := s ← get; deref (ef_heap s !! l).
Definition on_ev {A} (l : Z) (m : M vnode A) : M fs A := λ s,
  match ef_heap s !! l with
  | None => (Halt Undef, s)
  | Some ev =>
      let '(r, v') := m (ev_v ev) in
      (r, set_eheap (<[l := {| ev_v := v'; ev_handle := ev_handle ev |}]> (ef_heap s)) s)
  end.

Definition emu_malloc : M fs bool :=
  s ← get;
  match ef_mallocs s with
  | [] => mret true
  | b :: bs => _ ← put (set_emallocs bs s); mret b
  end.

Definition emufs_open (flags : Z) : M fs unit :=
  if negb (Z.land flags O_APPEND =? 0) then fail EUNIMP else mret ().

Definition emufs_opendir (flags : Z) : M fs unit :=
  if negb (Z.land flags O_ACCMODE =? O_RDONLY) then fail EISDIR
  else if negb (Z.land flags O_APPEND =? 0) then fail EISDIR
  else mret ().

Definition emufs_close : M fs unit := mret ().

(** The position of a vnode in the table. *)
Fixpoint emufs_index (l : Z) (idxs : list Z) : M fs Z :=
  match idxs with
  | [] => panic
  | i :: idxs => l' ← on_evnodes (array_getguy i); if l' =? l then mret i else emufs_index l idxs
  end.

Definition emufs_reclaim (l : Z) : M fs unit :=
  _ ← on_emu emu_lock;
  ev ← get_ev l;
  if negb (vn_refcount (ev_v ev) =? 1) then _ ← on_emu emu_unlock; fail EBUSY
  else
    result ← attempt (on_emu (emu_close (ev_handle ev)));
    match result with
    | inr e => _ ← on_emu emu_unlock; fail e
    | inl _ =>
        s ← get;
        ix ← emufs_index l (seqZ 0 (array_getnum (ef_vnodes s)));
        _ ← on_evnodes (array_remove ix);
        _ ← on_emu emu_unlock;
        _ ← on_ev l vnode_kill;
        modify (λ s, set_eheap (delete l (ef_heap s)) s)
    end.

(** The loop of [emufs_read] and [emufs_write], which differ in the operation. *)
Fixpoint emufs_io_loop (fuel : nat) (io : Z → M (fs * uiost) unit) : M (fs * uiost) unit :=
  match fuel with
  | O => nofuel
  | S fuel =>
      p ← get;
      let resid := uio_resid (u p.2) in
      if resid >? 0 then
        _ ← io (if resid >? EMU_MAXIO then EMU_MAXIO else resid);
        p' ← get;
        if uio_resid (u p'.2) =? resid then mret () else emufs_io_loop fuel io
      else mret ()
  end.

(** One turn moves at least one byte. *)
Definition io_fuel (us : uiost) : nat := S (Z.to_nat (uio_resid (u us))).

Definition emufs_read (l : Z) : M (fs * uiost) unit :=
  ev ← on_fst (get_ev l);
  p ← get;
  _ ← assert (bool_decide (uio_dir (u p.2) = UIO_READ));
  emufs_io_loop (io_fuel p.2) (λ amt, on_emu_uio (emu_read (ev_handle ev) amt)).

Definition emufs_getdirentry (l : Z) : M (fs * uiost) unit :=
  ev ← on_fst (get_ev l);
  p ← get;
  _ ← assert (bool_decide (uio_dir (u p.2) = UIO_READ));
  let amt := uio_resid (u p.2) in
  on_emu_uio (emu_readdir (ev_handle ev) (if amt >? EMU_MAXIO then EMU_MAXIO else amt)).

Definition emufs_write (l : Z) : M (fs * uiost) unit :=
  ev ← on_fst (get_ev l);
  p ← get;
  _ ← assert (bool_decide (uio_dir (u p.2) = UIO_WRITE));
  emufs_io_loop (io_fuel p.2) (λ amt, on_emu_uio (emu_write (ev_handle ev) amt)).

Definition emufs_ioctl (op data : Z) : M fs unit := fail EINVAL.
Definition emufs_file_gettype : M fs Z := mret S_IFREG.
Definition emufs_dir_gettype : M fs Z := mret S_IFDIR.

(** [__VOP(vn, sym)]: the check of the vnode and the call through its table. *)
Definition evop {A} (l : Z) (file dir : M fs A) : M fs A :=
  _ ← on_ev l (vnode_check false);
  ev ← get_ev l;
  match vn_ops (ev_v ev) with
  | Some emufs_fileops => file
  | Some emufs_dirops => dir
  | _ => undef
  end.

Definition emufs_gettype (l : Z) : M fs Z := evop l emufs_file_gettype emufs_dir_gettype.

Definition emufs_stat (l : Z) : M fs stat :=
  mode ← emufs_gettype l;
  ev ← get_ev l;
  size ← on_emu (emu_getsize (ev_handle ev));
  mret {| st_mode := mode; st_nlink := 1; st_size := size; st_blocks := 0 |}.

Definition emufs_tryseek (pos : Z) : M fs unit := if pos <? 0 then fail EINVAL else mret ().
Definition emufs_fsync : M fs unit := mret ().
Definition emufs_truncate (l len : Z) : M fs unit := ev ← get_ev l; on_emu (emu_trunc (ev_handle ev) len).

Fixpoint emufs_find (handle : Z) (idxs : list Z) : M fs (option Z) :=
  match idxs with
  | [] => mret None
  | i :: idxs =>
      l ← on_evnodes (array_getguy i);
      ev ← get_ev l;
      if ev_handle ev =? handle then _ ← on_ev l vnode_incref; mret (Some l) else emufs_find handle idxs
  end.

(** The part of [emufs_loadvnode] under the lock.  The new vnode is private
    until it is in the table. *)
Definition loadvnode_locked (handle : Z) (isdir : bool) : M fs Z :=
  s ← get;
  found ← emufs_find handle (seqZ 0 (array_getnum (ef_vnodes s)));
  match found with
  | Some l => mret l
  | None =>
      ok ← emu_malloc;
      if negb ok then fail ENOMEM
      else
        lock_ok ← emu_malloc;
        match vnode_init lock_ok (if isdir then emufs_dirops else emufs_fileops) with
        | Ret vn =>
            s ← get;
            let l := fresh (dom (ef_heap s)) in
            grow_ok ← emu_malloc;
            _ ← on_evnodes (array_add grow_ok l);
            _ ← modify (λ s, set_eheap (<[l := {| ev_v := vn; ev_handle := handle |}]> (ef_heap s)) s);
            mret l
        | Fail e => fail e
        | Halt k => λ s, (Halt k, s)
        end
  end.

Definition emufs_loadvnode (handle : Z) (isdir : bool) : M fs Z :=
  _ ← on_emu emu_lock;
  result ← attempt (loadvnode_locked handle isdir);
  _ ← on_emu emu_unlock;
  result_of result.

(** The common body of [emufs_creat] and [emufs_lookup]. *)
Definition emufs_openname (dir : Z) (name : list Z) (create excl : bool) : M fs Z :=
  ev ← get_ev dir;
  r ← on_emu (emu_open (ev_handle ev) name create excl);
  let '(handle, isdir) := (r : Z * bool) in
  result ← attempt (emufs_loadvnode handle isdir);
  match result with
  | inl l => mret l
  | inr e => _ ← attempt (on_emu (emu_close handle)); fail e
  end.

Definition emufs_creat (dir : Z) (name : list Z) (excl : bool) : M fs Z := emufs_openname dir name true excl.
Definition emufs_lookup (dir : Z) (pathname : list Z) : M fs Z := emufs_openname dir pathname false false.

Definition emufs_lookparent (dir : Z) (pathname buf : list Z) (len : Z) : M fs (Z * list Z) :=
  slash ← deref (strrchr pathname (chr "/"));
  match slash with
  | None =>
      n ← deref (strlen pathname);
      if u32 (n + 1) >? len then fail ENAMETOOLONG
      else
        _ ← on_ev dir vnode_incref;
        buf ← deref (strcpy buf pathname);
        mret (dir, buf)
  | Some i =>
      path ← deref (zstore pathname (Z.of_nat i) 0);
      let s := drop (S i) path in
      n ← deref (strlen s);
      if u32 (n + 1) >? len then fail ENAMETOOLONG
      else
        buf ← deref (strcpy buf s);
        l ← emufs_lookup dir path;
        mret (l, buf)
  end.

Definition emufs_namefile (l : Z) : M fs unit :=
  s ← get;
  if bool_decide (ef_root s = Some l) then mret () else fail EUNIMP.

(** ** The file system *)

Definition emufs_sync : M fs unit := mret ().
Definition emufs_getvolname : M fs (option (list Z)) := mret None.
Definition emufs_getroot : M fs Z :=
  s ← get;
  match ef_root s with
  | None => panic
  | Some l => _ ← on_ev l vnode_incref; mret l
  end.
Definition emufs_unmount : M fs unit := fail EBUSY.

(** The functions that return one error. *)
Definition emufs_notdir {A} : M fs A := fail ENOTDIR.
Definition emufs_isdir {A} : M fs A := fail EISDIR.
Definition emufs_unimp {A} : M fs A := fail EUNIMP.

(** A vnode as the layer above sees it. *)
Definition vnode_of (m : M fs Z) : M fs (Z * bool) :=
  l ← m; ev ← get_ev l; mret (l, bool_decide (vn_ops (ev_v ev) = Some emufs_dirops)).

(** [emufs_fileops] and [emufs_dirops] *)
#[global] Instance emu_interface : VnodeInterface fs (Z * bool) unit Empty_set := {
  VOP_OPEN v flags := evop v.1 (emufs_open flags) (emufs_opendir flags);
  VOP_READLINK v := on_fst (evop v.1 emufs_notdir emufs_isdir);
  VOP_GETTYPE v := emufs_gettype v.1;
  VOP_TRUNCATE v len := evop v.1 (emufs_truncate v.1 len) emufs_isdir;
  VOP_NAMEFILE v := on_fst (evop v.1 emufs_notdir (emufs_namefile v.1));
  VOP_CREAT v name excl := evop v.1 emufs_notdir (vnode_of (emufs_creat v.1 name excl));
  VOP_SYMLINK v name text := evop v.1 emufs_notdir emufs_unimp;
  VOP_MKDIR v name := evop v.1 emufs_notdir emufs_unimp;
  VOP_LINK v name file := evop v.1 emufs_notdir emufs_unimp;
  VOP_REMOVE v name := evop v.1 emufs_notdir emufs_unimp;
  VOP_RMDIR v name := evop v.1 emufs_notdir emufs_unimp;
  VOP_RENAME v n1 v2 n2 := evop v.1 emufs_notdir emufs_unimp;
  VOP_LOOKUP v path := evop v.1 emufs_notdir (vnode_of (emufs_lookup v.1 path));
  VOP_LOOKPARENT v path buf len := evop v.1 emufs_notdir
    (r ← emufs_lookparent v.1 path buf len; v ← vnode_of (mret r.1); mret (v, r.2));
  VOP_INCREF v := on_ev v.1 vnode_incref;
  VOP_DECREF v := vnode_decref (λ A, on_ev v.1) (emufs_reclaim v.1);
  VOP_INCOPEN v := on_ev v.1 vnode_incopen;
  VOP_DECOPEN v := vnode_decopen (λ A, on_ev v.1) emufs_close;
  vn_fs v := _ ← get_ev v.1; mret (Some ());
  dev_create_vnode _ := mret None;
  FSOP_SYNC _ := emufs_sync;
  FSOP_GETVOLNAME _ := emufs_getvolname;
  FSOP_GETROOT _ := vnode_of emufs_getroot;
  FSOP_UNMOUNT _ := emufs_unmount;
}.
End ops.

(** ** What the card promises *)

Definition nonfatal (res : emu_res) : Prop :=
  res ≠ EMU_RES_BADHANDLE ∧ res ≠ EMU_RES_BADOP ∧ res ≠ EMU_RES_BADSIZE.

(** The handles that are open after an operation. *)
Definition next_handles (op : emu_op) (res : emu_res) (r r' : emu_regs) (H : gset Z) : gset Z :=
  match op, res with
  | (EMU_OP_OPEN | EMU_OP_CREATE | EMU_OP_EXCLCREATE), EMU_RES_SUCCESS => {[ r_handle r' ]} ∪ H
  | EMU_OP_CLOSE, EMU_RES_SUCCESS => H ∖ {[ r_handle r ]}
  | _, _ => H
  end.

(** The sizes that fit the buffer. *)
Definition size_ok (op : emu_op) (r : emu_regs) : Prop :=
  match op with
  | EMU_OP_OPEN | EMU_OP_CREATE | EMU_OP_EXCLCREATE => 0 ≤ r_iolen r < EMU_MAXIO
  | EMU_OP_READ | EMU_OP_READDIR | EMU_OP_WRITE => 0 ≤ r_iolen r ≤ EMU_MAXIO
  | _ => True
  end.

(** A request for an open handle that fits the buffer does not fail fatally.  A
    read delivers bytes of the file from the given offset on, some when there
    are any; a write stores the whole buffer. *)
Class EmuHardwareLaws (HW : Type) `{EmuHardware HW} := {
  hw_ok : HW → gset Z → Prop;
  hw_file : HW → Z → list Z;
  hw_handles : ∀ hw H, hw_ok hw H → Z.of_nat (size H) < 2 ^ 28;
  hw_step : ∀ hw H op r buf, hw_ok hw H → r_handle r ∈ H → size_ok op r → zlen buf = EMU_MAXIO →
    ∃ res r' buf' hw', emu_run hw op r buf = (((res, r'), buf'), hw') ∧ nonfatal res ∧ zlen buf' = EMU_MAXIO ∧
      is_u32 (r_handle r') ∧ hw_ok hw' (next_handles op res r r' H) ∧
      (res = EMU_RES_SUCCESS → op = EMU_OP_READ ∨ op = EMU_OP_READDIR → 0 ≤ r_iolen r' ≤ r_iolen r);
  hw_read : ∀ hw H r buf r' buf' hw', hw_ok hw H → r_handle r ∈ H → 0 ≤ r_offset r →
    emu_run hw EMU_OP_READ r buf = (((EMU_RES_SUCCESS, r'), buf'), hw') →
    hw_file hw' (r_handle r) = hw_file hw (r_handle r) ∧
    r_offset r' = r_offset r + r_iolen r' ∧
    take (Z.to_nat (r_iolen r')) buf' = take (Z.to_nat (r_iolen r')) (drop (Z.to_nat (r_offset r)) (hw_file hw (r_handle r))) ∧
    r_iolen r' ≤ Z.max 0 (zlen (hw_file hw (r_handle r)) - r_offset r) ∧
    (0 < r_iolen r → r_offset r < zlen (hw_file hw (r_handle r)) → 0 < r_iolen r');
  hw_write : ∀ hw H r buf r' buf' hw', hw_ok hw H → r_handle r ∈ H → 0 ≤ r_offset r → 0 ≤ r_iolen r ≤ EMU_MAXIO →
    emu_run hw EMU_OP_WRITE r buf = (((EMU_RES_SUCCESS, r'), buf'), hw') →
    let f := hw_file hw (r_handle r) in
    let o := Z.to_nat (r_offset r) in
    hw_file hw' (r_handle r) =
      take o (f ++ replicate (o - length f) 0) ++ take (Z.to_nat (r_iolen r)) buf ++ drop (o + Z.to_nat (r_iolen r)) f;
}.
