(* ===== verification/EmuSpec.v ===== *)
(** * The emulator file system: its operations

    With a card that keeps [EmuHardwareLaws], reading a file delivers its
    contents, and the operations on vnodes keep what the virtual file system
    relies on: [emu_laws] is the instance of the laws of VfsSpec.v. *)

From Stdlib Require Import Ascii.
From stdpp Require Import gmultiset.
From S2P Require Import Prelude Libc Printf Array CopyInOut Uio Vnode SfsVnode Vfs VfsSpec Emu.

Section card.
Context {HW : Type} `{EmuHardwareLaws HW}.
Implicit Types (e : emu_softc HW) (Hs : gset Z).

(** The driver between two requests, with the lock or without. *)
Record emu_ok (lk : bool) e Hs : Prop := {
  eo_sem : e_sem e = 0;
  eo_lock : e_lock e = lk;
  eo_buf : zlen (e_iobuf e) = EMU_MAXIO;
  eo_hw : hw_ok (e_hw e) Hs;
}.

(** After the interrupt of a request. *)
Record emu_done (lk : bool) e Hs (res : emu_res) : Prop := {
  ed_sem : e_sem e = 1;
  ed_lock : e_lock e = lk;
  ed_buf : zlen (e_iobuf e) = EMU_MAXIO;
  ed_hw : hw_ok (e_hw e) Hs;
  ed_res : e_result e = Some res;
  ed_fatal : nonfatal res;
}.

Lemma operate_spec lk e Hs op Q :
  emu_ok lk e Hs → r_handle (e_regs e) ∈ Hs → size_ok op (e_regs e) →
  (∀ e' res, emu_run (e_hw e) op (e_regs e) (e_iobuf e) = (((res, e_regs e'), e_iobuf e'), e_hw e') →
     emu_done lk e' (next_handles op res (e_regs e) (e_regs e') Hs) res → is_u32 (r_handle (e_regs e')) →
     (res = EMU_RES_SUCCESS → op = EMU_OP_READ ∨ op = EMU_OP_READDIR →
        0 ≤ r_iolen (e_regs e') ≤ r_iolen (e_regs e)) → Q (Ret ()) e') →
  wp (emu_operate op) Q e.
Proof.
  intros [Hsem Hlk Hbuf Hhw] Hh Hsz HQ.
  destruct (hw_step (e_hw e) Hs op (e_regs e) (e_iobuf e) Hhw Hh Hsz Hbuf) as (res & r' & buf' & hw' & Hrun & Hnf & Hb & Hu & Hok & Hrd).
  unfold emu_operate. wp_step. wp_step. wp_step. unfold emu_card, emu_irq. rewrite Hrun. simpl.
  apply (HQ _ res); [done| |done|done]. split; simpl; try done. lia.
Qed.

Lemma waitdone_spec lk e Hs res Q :
  emu_done lk e Hs res →
  (∀ e', emu_ok lk e' Hs → e_regs e' = e_regs e → e_iobuf e' = e_iobuf e → e_hw e' = e_hw e →
     (res = EMU_RES_SUCCESS → Q (Ret ()) e') ∧ (res ≠ EMU_RES_SUCCESS → ∀ err, Q (Fail err) e')) →
  wp emu_waitdone Q e.
Proof.
  intros [Hsem Hlk Hbuf Hhw Hres (Hn1 & Hn2 & Hn3)] HQ. unfold emu_waitdone. wp_step. wp_step. rewrite Hsem. simpl.
  wp_step. wp_step. wp_step. wp_step. wp_step. simpl. rewrite Hres.
  destruct (HQ (set_e_sem 0 e)) as [HS HF]; [by split|done..|].
  destruct res; simpl; try done; wp_step; simpl; try (by wp_step; apply HS); wp_step; by apply HF.
Qed.

Lemma emu_lock_spec e Hs Q : emu_ok false e Hs → (∀ e', emu_ok true e' Hs → e' = set_e_lock true e → Q (Ret ()) e') → wp emu_lock Q e.
Proof. intros [] HQ. unfold emu_lock. wp_step. wp_step. wp_step. apply wp_assert; [by rewrite eo_lock0|]. wp_step. apply HQ; by split. Qed.

Lemma emu_unlock_spec e Hs Q : emu_ok true e Hs → (∀ e', emu_ok false e' Hs → e' = set_e_lock false e → Q (Ret ()) e') → wp emu_unlock Q e.
Proof. intros [] HQ. unfold emu_unlock. wp_step. wp_step. wp_step. apply wp_assert; [done|]. wp_step. apply HQ; by split. Qed.

(** A whole request. *)
Lemma request_spec {A} lk e Hs op (k : unit + errno → M (emu_softc HW) A) Q :
  emu_ok lk e Hs → r_handle (e_regs e) ∈ Hs → size_ok op (e_regs e) →
  (∀ e' res, emu_ok lk e' (next_handles op res (e_regs e) (e_regs e') Hs) → is_u32 (r_handle (e_regs e')) →
     (res = EMU_RES_SUCCESS → wp (k (inl ())) Q e') ∧ (res ≠ EMU_RES_SUCCESS → ∀ err, wp (k (inr err)) Q e')) →
  wp (_ ← emu_operate op; result ← attempt emu_waitdone; k result) Q e.
Proof.
  intros Hok Hh Hsz Hk. wp_step. eapply operate_spec; [done..|]. intros e1 res _ Hd Hu _.
  wp_step. wp_step. eapply waitdone_spec; [done|]. intros e2 Hok2 Hr _ _.
  destruct (Hk e2 res) as [HS HF]; [by rewrite Hr|by rewrite Hr|]. split; [|done]. auto.
Qed.

(** ** [emu_open] and [emu_close] *)

Lemma emu_open_spec e Hs handle name n create excl Q :
  emu_ok false e Hs → handle ∈ Hs → is_u32 handle → good_string name n →
  (∀ e' h isdir, emu_ok false e' ({[ h ]} ∪ Hs) → is_u32 h → Q (Ret (h, isdir)) e') →
  (∀ e' err, emu_ok false e' Hs → Q (Fail err) e') →
  wp (emu_open handle name create excl) Q e.
Proof.
  intros Hok Hh Hu (Hc & Hun & Hl) HQ HF. pose proof (zlen_nonneg n). unfold emu_open. wp_step.
  eapply wp_deref; [by apply strlen_cstr|]. rewrite (u32_small (zlen n + 1)) by (unfold is_u32; lia). rewrite Z.gtb_ltb.
  destruct (Z.ltb_spec EMU_MAXIO (zlen n + 1)) as [Hlong|Hfit]; [wp_step; by apply HF|]. cbv zeta.
  set (op := if create && excl then _ else _).
  assert (op ∈ [EMU_OP_OPEN; EMU_OP_CREATE; EMU_OP_EXCLCREATE]) as Hop by (unfold op; destruct create, excl; simpl; rewrite !elem_of_cons; auto).
  clearbody op. wp_step. eapply emu_lock_spec; [done|]. intros e1 [Hs1 Hl1 Hb1 Hw1] _. wp_step. wp_step. wp_step.
  eapply wp_deref; [apply (strcpy_spec _ _ n Hc); lia|]. wp_step. wp_step. wp_step. unfold wreg_iolen. wp_step. wp_step.
  unfold wreg_handle. wp_step.
  apply (request_spec true _ Hs); simpl.
  - split; simpl; try done. rewrite <- Hb1. unfold zlen. rewrite length_app. simpl. rewrite length_drop. unfold zlen in *. lia.
  - by rewrite u32_small.
  - rewrite (u32_small (zlen n)) by (unfold is_u32; lia). assert (0 ≤ zlen n < EMU_MAXIO) by lia.
    rewrite !elem_of_cons, elem_of_nil in Hop. by destruct Hop as [->|[->|[->|[]]]].
  - intros e2 res Hok2 Hu2. split.
    + intros ->. wp_step. wp_step. wp_step. eapply emu_unlock_spec; [exact Hok2|]. intros e3 Hok3 ->. wp_step. apply HQ; [|done].
      simpl. rewrite !elem_of_cons, elem_of_nil in Hop. by destruct Hop as [->|[->|[->|[]]]].
    + intros Hne err. wp_step. wp_step. wp_step. eapply emu_unlock_spec; [exact Hok2|]. intros e3 Hok3 ->. wp_step. apply HF.
      rewrite !elem_of_cons, elem_of_nil in Hop. destruct Hop as [->|[->|[->|[]]]]; by destruct res.
Qed.

Lemma emu_close_loop_spec retries e Hs handle Q :
  emu_ok true e Hs → handle ∈ Hs → is_u32 handle →
  (∀ e', emu_ok true e' (Hs ∖ {[ handle ]}) → Q (Ret ()) e') → (∀ e' err, emu_ok true e' Hs → Q (Fail err) e') →
  wp (emu_close_loop retries handle) Q e.
Proof.
  revert e. induction retries as [|retries IH]; intros e Hok Hh Hu HQ HF; cbn [emu_close_loop];
    wp_step; unfold wreg_handle; wp_step; (eapply (request_spec true _ Hs); simpl; [|by rewrite u32_small|done|]);
    [by destruct Hok| |by destruct Hok|]; intros e1 res Hok1 Hu1; (split; [intros ->|intros Hne err]);
    simpl in Hok1; rewrite ?(u32_small handle) in Hok1 by done.
  - simpl. wp_step. by apply HQ.
  - destruct err; simpl; wp_step; apply HF; by destruct res.
  - simpl. wp_step. by apply HQ.
  - assert (emu_ok true e1 Hs) as Hok2 by (by destruct res). destruct err; try (simpl; wp_step; by apply HF). by apply IH.
Qed.

Lemma emu_close_spec lk e Hs handle Q :
  emu_ok lk e Hs → handle ∈ Hs → is_u32 handle →
  (∀ e', emu_ok lk e' (Hs ∖ {[ handle ]}) → Q (Ret ()) e') → (∀ e' err, emu_ok lk e' Hs → Q (Fail err) e') →
  wp (emu_close handle) Q e.
Proof.
  intros Hok Hh Hu HQ HF. unfold emu_close. wp_step. wp_step. cbv zeta. rewrite (eo_lock _ _ _ Hok). destruct lk; wp_step.
  - wp_step. wp_step. wp_step. eapply emu_close_loop_spec; [done..| |].
    + intros e1 Hok1. wp_step. wp_step. simpl. wp_step. by apply HQ.
    + intros e1 err Hok1. wp_step. wp_step. simpl. wp_step. by apply HF.
  - eapply emu_lock_spec; [done|]. intros e0 Hok0 _. wp_step. wp_step. eapply emu_close_loop_spec; [done..| |].
    + intros e1 Hok1. wp_step. eapply emu_unlock_spec; [done|]. intros e2 Hok2 _. simpl. wp_step. by apply HQ.
    + intros e1 err Hok1. wp_step. eapply emu_unlock_spec; [done|]. intros e2 Hok2 _. simpl. wp_step. by apply HF.
Qed.

(** ** Reading and writing *)

Lemma with_emu_lock_spec {A} (m : M (emu_softc HW * uiost) A) e us Hs Q :
  emu_ok false e Hs →
  (∀ e1, emu_ok true e1 Hs → e1 = set_e_lock true e → wp m (λ r p, match r with
     | Halt k => Q (Halt k) p
     | _ => ∃ Hs', emu_ok true p.1 Hs' ∧ ∀ e3, emu_ok false e3 Hs' → e3 = set_e_lock false p.1 → Q r (e3, p.2)
     end) (e1, us)) →
  wp (with_emu_lock m) Q (e, us).
Proof.
  intros Hok Hm. unfold with_emu_lock. wp_step. wp_step. eapply emu_lock_spec; [done|]. intros e1 Hok1 He1. wp_step. wp_step.
  eapply wp_mono; [by apply Hm|]. intros [x|err|k] [e2 us2]; [intros (Hs' & Hok2 & HQ)..|done];
    wp_step; wp_step; (eapply emu_unlock_spec; [exact Hok2|]); intros e3 Hok3 He3; simpl; wp_step; by apply HQ.
Qed.

Lemma set_offset_same (us : uiost) o : uio_offset (u us) = o → set_u (set_offset o (u us)) us = us.
Proof. intros <-. by destruct us as [[] ? ?]. Qed.

(** The registers of a request at offset [o] for [len] bytes. *)
Lemma emu_doread_spec e us Hs handle len op Q :
  emu_ok false e Hs → handle ∈ Hs → is_u32 handle → op = EMU_OP_READ ∨ op = EMU_OP_READDIR →
  uio_ok us → uio_dir (u us) = UIO_READ → 0 ≤ len ≤ EMU_MAXIO → len ≤ uio_resid (u us) →
  (∀ e1 e' us1 n o' regs,
     regs = {| r_handle := handle; r_offset := u32 (uio_offset (u us)); r_iolen := len |} →
     emu_run (e_hw e) op regs (e_iobuf e) = (((EMU_RES_SUCCESS, {| r_handle := r_handle (e_regs e1); r_offset := o'; r_iolen := n |}),
       e_iobuf e1), e_hw e') →
     emu_ok false e' Hs → 0 ≤ n ≤ len → moved_in us (take (Z.to_nat n) (e_iobuf e1)) us1 → uio_ok us1 →
     Q (Ret ()) (e', set_u (set_offset (s32 o') (u us1)) us1)) →
  (∀ e' us' err, emu_ok false e' Hs → Q (Fail err) (e', us')) →
  wp (emu_doread handle len op) Q (e, us).
Proof.
  intros Hok Hh Hu Hop Hus Hdir Hlen Hres HQ HF. unfold emu_doread. wp_step. wp_step. wp_step.
  apply wp_assert; [by apply bool_decide_eq_true|]. eapply with_emu_lock_spec; [done|]. intros e1 Hok1 He1.
  unfold emu_doread_locked. wp_step. wp_step. unfold wreg_handle. wp_step. wp_step. wp_step. unfold wreg_iolen. wp_step.
  wp_step. wp_step. wp_step. wp_step. unfold wreg_offset. wp_step. simpl. rewrite (u32_small handle), (u32_small len) by (unfold is_u32, EMU_MAXIO in *; lia).
  wp_step. wp_step.
  assert (∀ res r r', next_handles op res r r' Hs = Hs) as Hnext by (intros res r r'; destruct Hop as [-> | ->]; by destruct res).
  eapply (operate_spec true _ Hs); simpl; [by destruct Hok1|done|by destruct Hop as [-> | ->]|].
  intros e2 res Hrun Hd Hu2 Hn. rewrite Hnext in Hd. wp_step. wp_step. eapply waitdone_spec; [done|].
  intros e3 Hok3 Hregs Hbuf Hhw. split.
  2:{ intros _ err. exists Hs. split; [done|]. intros e4 Hok4 _. by apply HF. }
  intros ->. specialize (Hn eq_refl Hop). simpl in Hn. wp_step. wp_step. wp_step. wp_step. wp_step. cbn [fst snd]. rewrite Hregs, Hbuf. simpl in Hrun.
  apply uiomove_read_spec; [done|done|rewrite (ed_buf _ _ _ _ Hd); lia|left; lia| |].
  - intros us1 Hm Hus1. wp_step. wp_step. wp_step. wp_step. exists Hs. split; [done|]. intros e4 Hok4 ->. cbn [fst snd].
    rewrite Z.min_l in Hm by lia.
    eapply (HQ e2 _ us1 (r_iolen (e_regs e2)) (r_offset (e_regs e2))); [reflexivity| |done|done|done|done].
    simpl. rewrite He1 in Hrun. simpl in Hrun. rewrite Hrun, Hhw. by destruct (e_regs e2).
  - intros m' j _ _ _. wp_step. wp_step. wp_step. wp_step. exists Hs. split; [done|]. intros e4 Hok4 _. by apply HF.
Qed.

(** A read from a file. *)
Lemma emu_read_spec e us Hs handle len Q :
  emu_ok false e Hs → handle ∈ Hs → is_u32 handle → uio_ok us → uio_dir (u us) = UIO_READ →
  0 ≤ len ≤ EMU_MAXIO → len ≤ uio_resid (u us) → 0 ≤ uio_offset (u us) →
  let f := hw_file (e_hw e) handle in let o := uio_offset (u us) in
  (∀ e' us' n, emu_ok false e' Hs → hw_file (e_hw e') handle = f → 0 ≤ n ≤ len → n ≤ Z.max 0 (zlen f - o) →
     (0 < len → o < zlen f → 0 < n) → moved_in us (take (Z.to_nat n) (drop (Z.to_nat o) f)) us' → uio_ok us' →
     Q (Ret ()) (e', us')) →
  (∀ e' us' err, emu_ok false e' Hs → Q (Fail err) (e', us')) →
  wp (emu_read handle len) Q (e, us).
Proof.
  intros Hok Hh Hu Hus Hdir Hlen Hres Ho f o HQ HF. unfold emu_read.
  eapply emu_doread_spec; [done..|by left|done|done|done|done| |done].
  intros e1 e' us1 n o' regs Hregs Hrun Hok' Hn Hm Hus1. pose proof (ok_offset _ Hus) as Hor.
  assert (u32 o = o) as Hu32 by (apply u32_small; unfold is_u32, o; lia). fold o in Hregs. rewrite Hu32 in Hregs.
  assert (r_handle regs ∈ Hs ∧ 0 ≤ r_offset regs) as [Hrh Hro] by (by subst regs).
  destruct (hw_read (e_hw e) Hs regs (e_iobuf e) _ _ _ (eo_hw _ _ _ Hok) Hrh Hro Hrun) as (Hf & Ho' & Hb & Hle & Hpos).
  subst regs. simpl in *. fold f o in Hf, Ho', Hb, Hle, Hpos.
  rewrite Hb in Hm. assert (zlen (take (Z.to_nat n) (drop (Z.to_nat o) f)) = n) as Hz.
  { unfold zlen in *. rewrite length_take, length_drop. lia. }
  assert (uio_offset (u us1) = s32 o') as Hoff.
  { rewrite (mi_uio _ _ _ Hm), Hz. simpl. by rewrite Ho'. }
  rewrite set_offset_same by done. by eapply HQ.
Qed.

Lemma set_emu_emu (s : emufs_fs HW) e e' : set_emu e' (set_emu e s) = set_emu e' s.
Proof. done. Qed.

Lemma on_emu_uio_spec {A} (m : M (emu_softc HW * uiost) A) (s : emufs_fs HW) us Q :
  wp m (λ r p, Q r (set_emu p.1 s, p.2)) (ef_emu s, us) → wp (on_emu_uio m) Q (s, us).
Proof. intros Hm. unfold on_emu_uio. wp_step. simpl. eapply wp_mono; [exact Hm|]. by intros r [e u']. Qed.

Lemma read_loop_spec Hs handle s Q : handle ∈ Hs → is_u32 handle → ∀ fuel e us,
  emu_ok false e Hs → uio_ok us → uio_dir (u us) = UIO_READ → 0 ≤ uio_offset (u us) →
  uio_offset (u us) + uio_resid (u us) < 2 ^ 31 → (Z.to_nat (uio_resid (u us)) < fuel)%nat →
  let f := hw_file (e_hw e) handle in
  (∀ e' us', emu_ok false e' Hs → hw_file (e_hw e') handle = f →
     moved_in us (take (Z.to_nat (uio_resid (u us))) (drop (Z.to_nat (uio_offset (u us))) f)) us' →
     Q (Ret ()) (set_emu e' s, us')) →
  (∀ e' us' err, emu_ok false e' Hs → Q (Fail err) (set_emu e' s, us')) →
  wp (emufs_io_loop fuel (λ amt, on_emu_uio (emu_read handle amt))) Q (set_emu e s, us).
Proof.
  intros Hh Hu fuel. induction fuel as [|fuel IH]; intros e us Hok Hus Hdir Ho Hbound Hfuel f HQ HF; [lia|].
  cbn [emufs_io_loop]. wp_step. wp_step. cbv zeta. cbn [snd]. set (R := uio_resid (u us)) in *. set (o := uio_offset (u us)) in *.
  pose proof (ok_resid _ Hus) as Hr. fold R in Hr. pose proof (ok_len _ Hus) as Hl. unfold is_u32 in Hl.
  rewrite !Z.gtb_ltb. destruct (Z.ltb_spec 0 R) as [Hpos|Hz].
  2:{ wp_step. replace R with 0 in HQ by lia. apply (HQ e); [done|done|]. by apply moved_in_nil. }
  set (amt := if EMU_MAXIO <? R then EMU_MAXIO else R). assert (0 < amt ≤ EMU_MAXIO ∧ amt ≤ R) as [Hamt HaR].
  { unfold amt, EMU_MAXIO. destruct (Z.ltb_spec 16384 R); lia. }
  wp_step. apply on_emu_uio_spec. change (ef_emu (set_emu e s)) with e. eapply emu_read_spec; [done|done|done|done|done|lia|done|done| |].
  2:{ intros e' us' err Hok'. apply HF. done. }
  intros e1 us1 n Hok1 Hf1 Hn Hle Hgt Hm Hus1. fold f o in Hf1, Hle, Hgt, Hm. wp_step. wp_step. cbn [fst snd]. rewrite set_emu_emu.
  assert (zlen (take (Z.to_nat n) (drop (Z.to_nat o) f)) = n) as Hzl.
  { unfold zlen in *. rewrite length_take, length_drop. lia. }
  assert (u us1 = advance n (u us)) as Hadv by (rewrite (mi_uio _ _ _ Hm); by rewrite Hzl).
  assert (uio_resid (u us1) = R - n) as HR1 by (rewrite Hadv; simpl; fold R; apply u32_small; unfold is_u32; lia).
  assert (uio_offset (u us1) = o + n) as Ho1 by (rewrite Hadv; simpl; fold o; apply s32_small; lia).
  rewrite HR1. destruct (Z.eqb_spec (R - n) R) as [Heq|Hne].
  - assert (n = 0) as -> by lia. wp_step. apply HQ; [done|done|]. rewrite drop_ge; [|unfold zlen in *; lia].
    by rewrite take_nil, take_0 in *.
  - apply IH; [done|done|by rewrite Hadv|lia|lia|lia| |done]. rewrite HR1, Ho1. rewrite Hf1. intros e2 us2 Hok2 Hf2 Hm2.
    apply HQ; [done|done|]. pose proof (moved_in_app _ _ _ _ _ Hm Hm2) as Hm12.
    replace (take (Z.to_nat R) (drop (Z.to_nat o) f)) with
      (take (Z.to_nat n) (drop (Z.to_nat o) f) ++ take (Z.to_nat (R - n)) (drop (Z.to_nat (o + n)) f)); [done|].
    replace (Z.to_nat R) with (Z.to_nat n + Z.to_nat (R - n))%nat by lia. rewrite <- take_take_drop, skipn_skipn.
    do 3 f_equal. lia.
Qed.

(** A file with [bs] stored at offset [o], filled with zeros up to there. *)
Definition put_at (f : list Z) (o : nat) (bs : list Z) : list Z :=
  take o (f ++ replicate (o - length f) 0) ++ bs ++ drop (o + length bs) f.

Lemma put_at_head (f : list Z) o : length (take o (f ++ replicate (o - length f) 0)) = o.
Proof. rewrite length_take, length_app, length_replicate. lia. Qed.

Lemma put_at_app f o b1 b2 : b1 ≠ [] → put_at (put_at f o b1) (o + length b1) b2 = put_at f o (b1 ++ b2).
Proof.
  intros Hb. unfold put_at. set (h := take o _). assert (length h = o) as Hh by apply (put_at_head f o).
  set (f1 := h ++ b1 ++ drop (o + length b1) f).
  assert (length f1 = o + length b1 + (length f - (o + length b1)))%nat as Hf1.
  { unfold f1. rewrite !length_app, length_drop, Hh. lia. }
  replace (o + length b1 - length f1)%nat with 0%nat by lia. simpl. rewrite app_nil_r.
  assert (take (o + length b1) f1 = h ++ b1) as ->.
  { unfold f1. rewrite app_assoc. rewrite <- Hh at 1. rewrite <- length_app. apply take_app_length. }
  rewrite <- !app_assoc. do 3 f_equal. unfold f1. rewrite app_assoc, skipn_app.
  rewrite drop_ge by (rewrite length_app; lia). simpl. rewrite skipn_skipn. f_equal. rewrite !length_app. lia.
Qed.

Lemma put_at_nil f o : (o ≤ length f)%nat → put_at f o [] = f.
Proof.
  intros Ho. unfold put_at. simpl. rewrite Nat.add_0_r. replace (o - length f)%nat with 0%nat by lia. simpl.
  by rewrite app_nil_r, take_drop.
Qed.

Lemma emu_write_spec e us Hs handle len Q :
  emu_ok false e Hs → handle ∈ Hs → is_u32 handle → uio_ok us → uio_dir (u us) = UIO_WRITE →
  0 ≤ len ≤ EMU_MAXIO → len ≤ uio_resid (u us) → 0 ≤ uio_offset (u us) →
  let f := hw_file (e_hw e) handle in let o := uio_offset (u us) in
  (∀ e' us' bs, emu_ok false e' Hs → hw_file (e_hw e') handle = put_at f (Z.to_nat o) bs → zlen bs = len →
     moved_out us bs us' → uio_ok us' → Q (Ret ()) (e', us')) →
  (∀ e' us' err, emu_ok false e' Hs → Q (Fail err) (e', us')) →
  wp (emu_write handle len) Q (e, us).
Proof.
  intros Hok Hh Hu Hus Hdir Hlen Hres Ho f o HQ HF. pose proof (ok_offset _ Hus) as Hor.
  assert (u32 o = o) as Hu32 by (apply u32_small; unfold is_u32, o; lia).
  unfold emu_write. wp_step. wp_step. wp_step.
  apply wp_assert; [by apply bool_decide_eq_true|]. eapply with_emu_lock_spec; [done|]. intros e1 Hok1 He1.
  wp_step. wp_step. unfold wreg_handle. wp_step. wp_step. wp_step. unfold wreg_iolen. wp_step. wp_step. wp_step.
  wp_step. wp_step. unfold wreg_offset. wp_step. simpl. fold o. rewrite Hu32, (u32_small handle), (u32_small len) by (unfold is_u32, EMU_MAXIO in *; lia).
  wp_step. wp_step. apply uiomove_write_spec; [done|done|rewrite (eo_buf _ _ _ Hok1); lia|by left| |].
  2:{ intros _. exists Hs. split; [by destruct Hok1|]. intros e2 Hok2 _. by apply HF. }
  intros bs us1 Hbs Hm Hus1. rewrite Z.min_l in Hbs by lia. wp_step. wp_step. wp_step. wp_step. wp_step. simpl.
  eapply (operate_spec true _ Hs); simpl; [|done|done|].
  { destruct Hok1 as [? ? Hb ?]. split; simpl; try done. unfold zlen in *. rewrite length_app, length_drop. lia. }
  intros e2 res Hrun Hd0 _ _. assert (emu_done true e2 Hs res) as Hd by (by destruct res). wp_step. eapply waitdone_spec; [done|].
  intros e3 Hok3 Hregs Hbuf Hhw. split.
  2:{ intros _ err. exists Hs. split; [done|]. intros e4 Hok4 _. by apply HF. }
  intros ->. exists Hs. split; [done|]. intros e4 Hok4 ->. eapply (HQ _ us1 bs); [done| |done|done|done].
  simpl. rewrite Hhw. simpl in Hrun. rewrite He1 in Hrun. simpl in Hrun.
  pose proof (hw_write (e_hw e) Hs {| r_handle := handle; r_offset := o; r_iolen := len |} _ _ _ _ (eo_hw _ _ _ Hok) Hh Ho Hlen Hrun) as Hf. simpl in Hf. fold f o in Hf. rewrite Hf.
  unfold put_at. assert (length bs = Z.to_nat len) as Hl by (unfold zlen in *; lia).
  rewrite <- Hl, take_app_length. done.
Qed.

Lemma write_loop_spec Hs handle s Q : handle ∈ Hs → is_u32 handle → ∀ fuel e us,
  emu_ok false e Hs → uio_ok us → uio_dir (u us) = UIO_WRITE → 0 ≤ uio_offset (u us) →
  uio_offset (u us) + uio_resid (u us) < 2 ^ 31 → (Z.to_nat (uio_resid (u us)) < fuel)%nat →
  let f := hw_file (e_hw e) handle in
  (∀ e' us' bs, emu_ok false e' Hs → zlen bs = uio_resid (u us) →
     hw_file (e_hw e') handle = (if decide (bs = []) then f else put_at f (Z.to_nat (uio_offset (u us))) bs) →
     moved_out us bs us' → Q (Ret ()) (set_emu e' s, us')) →
  (∀ e' us' err, emu_ok false e' Hs → Q (Fail err) (set_emu e' s, us')) →
  wp (emufs_io_loop fuel (λ amt, on_emu_uio (emu_write handle amt))) Q (set_emu e s, us).
Proof.
  intros Hh Hu fuel. induction fuel as [|fuel IH]; intros e us Hok Hus Hdir Ho Hbound Hfuel f HQ HF; [lia|].
  cbn [emufs_io_loop]. wp_step. wp_step. cbv zeta. cbn [snd]. set (R := uio_resid (u us)) in *. set (o := uio_offset (u us)) in *.
  pose proof (ok_resid _ Hus) as Hr. fold R in Hr. pose proof (ok_len _ Hus) as Hl. unfold is_u32 in Hl.
  rewrite !Z.gtb_ltb. destruct (Z.ltb_spec 0 R) as [Hpos|Hz].
  2:{ wp_step. apply (HQ e us []); [done|unfold zlen; simpl; lia|done|]. split; [by intros ?|].
      unfold zlen. simpl. rewrite advance_0 by apply Hus. by destruct us. }
  set (amt := if EMU_MAXIO <? R then EMU_MAXIO else R). assert (0 < amt ≤ EMU_MAXIO ∧ amt ≤ R) as [Hamt HaR].
  { unfold amt, EMU_MAXIO. destruct (Z.ltb_spec 16384 R); lia. }
  wp_step. apply on_emu_uio_spec. change (ef_emu (set_emu e s)) with e.
  eapply emu_write_spec; [done|done|done|done|done|lia|done|done| |].
  2:{ intros e' us' err Hok'. apply HF. done. }
  intros e1 us1 bs Hok1 Hf1 Hbs Hm Hus1. fold f o in Hf1. wp_step. wp_step. cbn [fst snd]. rewrite set_emu_emu.
  assert (u us1 = advance amt (u us)) as Hadv by (destruct Hm as [_ ->]; by rewrite Hbs).
  assert (uio_resid (u us1) = R - amt) as HR1 by (rewrite Hadv; simpl; fold R; apply u32_small; unfold is_u32; lia).
  assert (uio_offset (u us1) = o + amt) as Ho1 by (rewrite Hadv; simpl; fold o; apply s32_small; lia).
  rewrite HR1, (proj2 (Z.eqb_neq (R - amt) R)) by lia.
  assert (bs ≠ []) as Hne by (intros ->; unfold zlen in Hbs; simpl in Hbs; lia).
  apply IH; [done|done|by rewrite Hadv|lia|lia|lia| |done]. rewrite HR1, Ho1, Hf1. intros e2 us2 b2 Hok2 Hz2 Hf2 Hm2.
  apply (HQ e2 us2 (bs ++ b2)); [done|rewrite zlen_app; lia| |by eapply moved_out_app].
  rewrite decide_False by (by destruct bs). rewrite Hf2. case_decide as Hb2; [subst b2; by rewrite app_nil_r|].
  rewrite <- put_at_app by done. f_equal. unfold zlen in *. lia.
Qed.
End card.

(** ** The vnodes *)

Section vnodes.
Context {HW : Type} `{EmuHardwareLaws HW}.
Abbreviation fs := (emufs_fs HW).
Implicit Types (w : fs) (R O : gmultiset (Z * bool)) (Hs : gset Z).
Context (rt : option Z).

Definition ev_isdir (ev : emufs_vnode) : bool := bool_decide (vn_ops (ev_v ev) = Some emufs_dirops).
(** The reference the file system has to its root [rt], once it is loaded. *)
Definition root_ref (l : Z) : Z := if decide (rt = Some l) then 1 else 0.

(** [R] are the references to vnodes, [O] the vnodes that are open; a vnode may
    have more references, when closing its handle has failed. *)
Record ev_ok R O Hs (l : Z) (ev : emufs_vnode) : Prop := {
  evo_vn : vnode_ok (ev_v ev);
  evo_ops : vn_ops (ev_v ev) = Some emufs_fileops ∨ vn_ops (ev_v ev) = Some emufs_dirops;
  evo_handle : ev_handle ev ∈ Hs ∧ is_u32 (ev_handle ev);
  evo_refs : Z.of_nat (multiplicity (l, ev_isdir ev) R) + root_ref l ≤ vn_refcount (ev_v ev);
  evo_opens : vn_opencount (ev_v ev) = Z.of_nat (multiplicity (l, ev_isdir ev) O);
}.

Record emu_state (lk : bool) w R O Hs : Prop := {
  es_emu : emu_ok lk (ef_emu w) Hs;
  es_table : ∃ ls, array_repr (ef_vnodes w) ls ∧ table_of ls (ef_heap w);
  es_ev : ∀ l ev, ef_heap w !! l = Some ev → ev_ok R O Hs l ev;
  es_handles : ∀ l l' ev ev', ef_heap w !! l = Some ev → ef_heap w !! l' = Some ev' → ev_handle ev = ev_handle ev' → l = l';
  es_refs : ∀ v, v ∈ R → ∃ ev, ef_heap w !! v.1 = Some ev ∧ ev_isdir ev = v.2;
  es_opens : ∀ v, v ∈ O → v ∈ R;
  es_root : ∀ l, rt = Some l → ∃ ev, ef_root w = Some l ∧ ef_heap w !! l = Some ev ∧ ev_isdir ev = true;
}.

Lemma on_ev_spec {A} w l ev (m : M vnode A) Q :
  ef_heap w !! l = Some ev →
  wp m (λ r vn', Q r (set_eheap (<[l := {| ev_v := vn'; ev_handle := ev_handle ev |}]> (ef_heap w)) w)) (ev_v ev) →
  wp (on_ev l m) Q w.
Proof. intros Hl Hm. unfold wp, on_ev in *. rewrite Hl. by destruct (m (ev_v ev)). Qed.

Lemma get_ev_spec w l ev Q : ef_heap w !! l = Some ev → Q (Ret ev) w → wp (get_ev l) Q w.
Proof. intros Hl HQ. unfold get_ev. wp_step. wp_step. by eapply wp_deref. Qed.

Lemma set_eheap_id w l ev :
  ef_heap w !! l = Some ev → set_eheap (<[l := {| ev_v := ev_v ev; ev_handle := ev_handle ev |}]> (ef_heap w)) w = w.
Proof. intros Hl. rewrite insert_id; [by destruct w|]. by destruct ev. Qed.

(** The counts of one vnode change. *)
Lemma emu_count lk w R O Hs l ev vn' R' O' :
  emu_state lk w R O Hs → ef_heap w !! l = Some ev → vnode_ok vn' → vn_ops vn' = vn_ops (ev_v ev) →
  Z.of_nat (multiplicity (l, ev_isdir ev) R') + root_ref l ≤ vn_refcount vn' →
  vn_opencount vn' = Z.of_nat (multiplicity (l, ev_isdir ev) O') →
  (∀ x, x ≠ (l, ev_isdir ev) → multiplicity x R' = multiplicity x R ∧ multiplicity x O' = multiplicity x O) →
  ((l, ev_isdir ev) ∈ O' → (l, ev_isdir ev) ∈ R') →
  emu_state lk (set_eheap (<[l := {| ev_v := vn'; ev_handle := ev_handle ev |}]> (ef_heap w)) w) R' O' Hs.
Proof.
  intros [Hemu Htab Hev Hhs Hrefs Hop Hroot] Hl Hvn Hops HR HO Hoth Hin. set (ev' := Build_emufs_vnode vn' (ev_handle ev)).
  assert (ev_isdir ev' = ev_isdir ev) as Hd by (unfold ev_isdir; simpl; by rewrite Hops).
  assert (∀ x, x ≠ (l, ev_isdir ev) → (x ∈ R' ↔ x ∈ R) ∧ (x ∈ O' ↔ x ∈ O)) as Hmem.
  { intros x Hx. rewrite !elem_of_multiplicity. by destruct (Hoth x Hx) as [-> ->]. }
  assert (∀ l1 ev1, <[l := ev']> (ef_heap w) !! l1 = Some ev1 →
    ∃ ev0, ef_heap w !! l1 = Some ev0 ∧ ev_handle ev1 = ev_handle ev0 ∧ ev_isdir ev1 = ev_isdir ev0) as Hold.
  { intros l1 ev1 [[<- <-]|[Hne Hl1]]%lookup_insert_Some; eauto. }
  split; simpl.
  - done.
  - destruct Htab as (ls & ? & ?). exists ls. split; [done|]. apply table_update; [done|by eexists].
  - intros l1 ev1 Hl1. apply lookup_insert_Some in Hl1 as [[<- <-]|[Hne Hl1]].
    + destruct (Hev l ev Hl) as [_ Hop' Hh _ _]. split; [done|simpl; by rewrite Hops|done|by rewrite Hd|by rewrite Hd].
    + destruct (Hev l1 ev1 Hl1) as [? ? ? Hr Ho]. destruct (Hoth (l1, ev_isdir ev1)) as [HRe HOe]; [congruence|].
      split; [done|done|done|by rewrite HRe|by rewrite HOe].
  - intros l1 l2 e1 e2 H1 H2 Heq. destruct (Hold _ _ H1) as (e1' & He1 & Hh1 & _).
    destruct (Hold _ _ H2) as (e2' & He2 & Hh2 & _). apply (Hhs l1 l2 e1' e2'); [done|done|congruence].
  - intros [l1 d1] Hx. simpl. destruct (decide ((l1, d1) = (l, ev_isdir ev))) as [[= -> ->]|Hne].
    + exists ev'. by rewrite lookup_insert_eq.
    + destruct (Hrefs (l1, d1)) as (e1 & He1 & Hd1); [by apply Hmem|]. simpl in *. destruct (decide (l1 = l)) as [->|Hn].
      * exfalso. apply Hne. congruence.
      * exists e1. by rewrite lookup_insert_ne.
  - intros x Hx. destruct (decide (x = (l, ev_isdir ev))) as [->|Hne]; [auto|]. apply Hmem; [done|]. apply Hop. by apply Hmem.
  - intros l0 Hl0. destruct (Hroot l0 Hl0) as (e0 & Hr0 & He0 & Hd0). destruct (decide (l0 = l)) as [->|Hne].
    + exists ev'. rewrite lookup_insert_eq. split_and!; [done|done|]. congruence.
    + exists e0. by rewrite lookup_insert_ne.
Qed.

Lemma pair_mult (v x : Z * bool) (R : gmultiset (Z * bool)) :
  multiplicity x (R ⊎ {[+ v +]}) = (multiplicity x R + if decide (x = v) then 1 else 0)%nat.
Proof. by rewrite multiplicity_disj_union, multiplicity_singleton. Qed.

Ltac count := intros; rewrite ?pair_mult in *; repeat case_decide; simplify_eq; auto; simpl in *; lia.

(** A vnode that is referenced. *)
Lemma emu_held lk w R O Hs v :
  emu_state lk w R O Hs → v ∈ R → ∃ ev, ef_heap w !! v.1 = Some ev ∧ v = (v.1, ev_isdir ev) ∧ ev_ok R O Hs v.1 ev.
Proof.
  intros Hst Hv. destruct (es_refs _ _ _ _ _ Hst v Hv) as (ev & Hl & Hd). exists ev.
  split_and!; [done|destruct v; simpl in *; by subst|by apply Hst].
Qed.

Lemma emu_incref lk w R O Hs l ev Q :
  emu_state lk w R O Hs → ef_heap w !! l = Some ev →
  (∀ w', emu_state lk w' (R ⊎ {[+ (l, ev_isdir ev) +]}) O Hs → ef_emu w' = ef_emu w → ef_root w' = ef_root w →
     (∃ ev', ef_heap w' !! l = Some ev' ∧ ev_isdir ev' = ev_isdir ev) → Q (Ret ()) w') →
  wp (on_ev l vnode_incref) Q w.
Proof.
  intros Hst Hl HQ. destruct (es_ev _ _ _ _ _ Hst l ev Hl) as [Hok Hops Hh HR HO]. eapply on_ev_spec; [done|].
  unfold vnode_incref. wp_step. apply HQ; [|done|done|].
  - eapply emu_count; [done|done|destruct Hok; split; simpl; auto; lia|done|simpl; count|done|count|].
    intros _. multiset_solver.
  - eexists. simpl. by rewrite lookup_insert_eq.
Qed.

Lemma emu_incopen lk w R O Hs v Q :
  emu_state lk w R O Hs → v ∈ R →
  (∀ w', emu_state lk w' R (O ⊎ {[+ v +]}) Hs → Q (Ret ()) w') → wp (on_ev v.1 vnode_incopen) Q w.
Proof.
  intros Hst Hv HQ. destruct (emu_held _ _ _ _ _ v Hst Hv) as (ev & Hl & Heq & [Hok Hops Hh HR HO]).
  eapply on_ev_spec; [done|]. unfold vnode_incopen. wp_step. apply HQ.
  eapply emu_count; [done|done|destruct Hok; split; simpl; auto; lia|done|done|rewrite <- Heq in *; simpl; count|..];
    rewrite <- Heq; [count|done].
Qed.

Lemma emu_check {A} lk w R O Hs l ev b (m : M fs A) Q :
  emu_state lk w R O Hs → ef_heap w !! l = Some ev → wp m Q w → wp (_ ← on_ev l (vnode_check b); m) Q w.
Proof.
  intros Hst Hl Hm. wp_step. eapply on_ev_spec; [done|]. apply vnode_check_ok; [by apply (es_ev _ _ _ _ _ Hst l ev Hl)|].
  by rewrite set_eheap_id.
Qed.

Lemma emu_decopen lk w R O Hs v Q :
  emu_state lk w R (O ⊎ {[+ v +]}) Hs → v ∈ R → (∀ w', emu_state lk w' R O Hs → Q (Ret ()) w') →
  wp (vnode_decopen (λ A, on_ev v.1) emufs_close) Q w.
Proof.
  intros Hst Hv HQ. destruct (emu_held _ _ _ _ _ v Hst Hv) as (ev & Hl & Heq & [Hok Hops Hh HR HO]).
  rewrite <- Heq in *. rewrite pair_mult, decide_True in HO by done.
  unfold vnode_decopen. wp_step. eapply on_ev_spec; [done|]. unfold vnode_decopen_count.
  wp_step. wp_step. wp_step. apply wp_assert; [lia|]. wp_step. wp_step. wp_step.
  set (w1 := set_eheap _ w). assert (emu_state lk w1 R O Hs) as Hst1.
  { eapply emu_count; [done|done|destruct Hok; split; simpl; auto; lia|done|by rewrite <- Heq|rewrite <- Heq; simpl; lia| |];
      rewrite <- Heq; [count|done]. }
  destruct (negb _); [|wp_step; by apply HQ].
  destruct (es_refs _ _ _ _ _ Hst1 v Hv) as (ev1 & Hl1 & _). eapply emu_check; [done..|].
  wp_step. wp_step. unfold emufs_close. wp_step. wp_step. by apply HQ.
Qed.

Lemma emu_state_emu lk w R O Hs lk' e Hs' :
  emu_state lk w R O Hs → emu_ok lk' e Hs' → (∀ l ev, ef_heap w !! l = Some ev → ev_handle ev ∈ Hs') →
  emu_state lk' (set_emu e w) R O Hs'.
Proof.
  intros [_ Htab Hev Hhs Hrefs Hop Hroot] Hok Hin. split; try done. intros l ev Hl. simpl in Hl.
  destruct (Hev l ev Hl) as [? ? [_ ?] ? ?]. split; [done|done|split; [by eapply Hin|done]|done|done].
Qed.

Lemma on_emu_lock_spec w R O Hs Q :
  emu_state false w R O Hs → (∀ e, emu_state true (set_emu e w) R O Hs → Q (Ret ()) (set_emu e w)) → wp (on_emu emu_lock) Q w.
Proof.
  intros Hst HQ. unfold on_emu. wp_step. eapply emu_lock_spec; [by apply Hst|]. intros e Hok _. apply HQ.
  eapply emu_state_emu; [done..|]. intros l ev Hl. by apply (es_ev _ _ _ _ _ Hst l ev Hl).
Qed.

Lemma on_emu_unlock_spec w R O Hs Q :
  emu_state true w R O Hs → (∀ e, emu_state false (set_emu e w) R O Hs → Q (Ret ()) (set_emu e w)) → wp (on_emu emu_unlock) Q w.
Proof.
  intros Hst HQ. unfold on_emu. wp_step. eapply emu_unlock_spec; [by apply Hst|]. intros e Hok _. apply HQ.
  eapply emu_state_emu; [done..|]. intros l ev Hl. by apply (es_ev _ _ _ _ _ Hst l ev Hl).
Qed.

Lemma set_evnodes_id w : set_evnodes (ef_vnodes w) w = w.
Proof. by destruct w. Qed.

Lemma emufs_index_spec w ls l k Q : ∀ n cnt,
  array_repr (ef_vnodes w) ls → NoDup ls → ls !! k = Some l →
  0 ≤ n ≤ Z.of_nat k → n + Z.of_nat cnt = zlen ls → Q (Ret (Z.of_nat k)) w →
  wp (emufs_index l (seqZ n (Z.of_nat cnt))) Q w.
Proof.
  intros n cnt Hrepr Hnd Hk. revert n. induction cnt as [|cnt IH]; intros n Hn Hcnt HQ.
  { apply lookup_lt_Some in Hk. unfold zlen in *. lia. }
  rewrite seqZ_more by lia. cbn [emufs_index]. replace (Z.of_nat (S cnt) - 1) with (Z.of_nat cnt) by lia.
  wp_step. unfold on_evnodes. wp_step. eapply array_getguy_spec; [done|rewrite (repr_num _ _ Hrepr); lia|].
  intros l2 Hl2. rewrite set_evnodes_id. destruct (Z.eqb_spec l2 l) as [->|Hne].
  - wp_step. assert (Z.to_nat n = k) as Heq by (by eapply NoDup_lookup). by replace n with (Z.of_nat k) by lia.
  - apply IH; [|lia|done]. split; [lia|]. destruct (decide (n = Z.of_nat k)) as [Heq|]; [|lia].
    subst n. rewrite Nat2Z.id in Hl2. congruence.
Qed.

(** A vnode nobody refers to leaves the table. *)
Lemma emu_drop lk w R O Hs l ev a e :
  emu_state lk w R O Hs → ef_heap w !! l = Some ev → root_ref l = 0 → (l, ev_isdir ev) ∉ R →
  (∃ ls k, array_repr (ef_vnodes w) ls ∧ ls !! k = Some l ∧ array_repr a (delete k ls)) →
  emu_ok lk e (Hs ∖ {[ ev_handle ev ]}) →
  emu_state lk (set_eheap (delete l (ef_heap w)) (set_evnodes a (set_emu e w))) R O (Hs ∖ {[ ev_handle ev ]}).
Proof.
  intros [Hemu Htab Hev Hhs Hrefs Hop Hroot] Hl Hnr Hni (ls & k & Hls & Hk & Ha) Hok. split; simpl.
  - done.
  - exists (delete k ls). split; [done|]. destruct Htab as (ls' & Hls' & Ht).
    assert (ls' = ls) as ->.
    { pose proof Hls as [_ Hn1 He1]. pose proof Hls' as [_ Hn2 He2]. apply list_eq_same_length with (length ls); [done|unfold zlen in *; lia|].
      intros i x y _ Hx Hy. destruct (He2 _ _ Hx) as (w1 & Hw1 & Hi1). destruct (He1 _ _ Hy) as (w2 & Hw2 & Hi2). congruence. }
    by apply table_delete.
  - intros l1 ev1 [Hne Hl1]%lookup_delete_Some. destruct (Hev l1 ev1 Hl1) as [? ? [Hh ?] ? ?]. split; try done. split; [|done].
    apply elem_of_difference. split; [done|]. intros Heq%elem_of_singleton. by apply Hne, (Hhs l l1 ev ev1).
  - intros l1 l2 e1 e2 [_ H1]%lookup_delete_Some [_ H2]%lookup_delete_Some. by apply Hhs.
  - intros v Hv. destruct (Hrefs v Hv) as (e1 & He1 & Hd1). exists e1. split; [|done]. rewrite lookup_delete_ne; [done|].
    intros Heq. apply Hni. destruct v as [l1 d1]. simpl in *. subst l1. by simplify_eq.
  - done.
  - intros l0 Hl0. destruct (Hroot l0 Hl0) as (e0 & Hr0 & He0 & Hd0). exists e0. split_and!; [done| |done]. rewrite lookup_delete_ne; [done|].
    intros ->. unfold root_ref in Hnr. by rewrite decide_True in Hnr.
Qed.

Lemma emufs_reclaim_spec w R O Hs l ev Q :
  emu_state false w R O Hs → ef_heap w !! l = Some ev → (l, ev_isdir ev) ∉ R → vn_refcount (ev_v ev) = 1 → root_ref l = 0 →
  (∀ w' Hs', emu_state false w' R O Hs' → Q (Ret ()) w') →
  (∀ w' e, emu_state false w' R O Hs → Q (Fail e) w') →
  wp (emufs_reclaim l) Q w.
Proof.
  intros Hst Hl Hni Hrc Hnr HQ HF. destruct (es_ev _ _ _ _ _ Hst l ev Hl) as [Hok Hops [Hh Hu] HR HO].
  assert ((l, ev_isdir ev) ∉ O) as HniO by (intros ?%(es_opens _ _ _ _ _ Hst); done).
  unfold emufs_reclaim. wp_step. eapply on_emu_lock_spec; [done|]. intros e1 Hst1. wp_step. eapply get_ev_spec; [exact Hl|].
  rewrite Hrc. cbn [negb Z.eqb Pos.eqb]. wp_step. wp_step. unfold on_emu at 1. wp_step.
  eapply (emu_close_spec true _ Hs); [apply Hst1|done|done|..].
  - intros e2 Hok2. wp_step. wp_step. destruct (es_table _ _ _ _ _ Hst) as (ls & Hrepr & [Hnd Hls]).
    assert (l ∈ ls) as [k Hk]%list_elem_of_lookup_1 by (apply Hls; eauto). simpl. unfold array_getnum.
    rewrite (repr_num _ _ Hrepr). unfold zlen at 1. wp_step. eapply (emufs_index_spec _ ls l k); [done..|lia|done|].
    wp_step. unfold on_evnodes. wp_step.
    eapply array_remove_spec; [exact Hrepr|simpl; rewrite (repr_num _ _ Hrepr); apply lookup_lt_Some in Hk; unfold zlen; lia|].
    intros a Ha _. rewrite Nat2Z.id in Ha. wp_step. unfold on_emu. wp_step. simpl.
    eapply emu_unlock_spec; [exact Hok2|]. intros e3 Hok3 _. wp_step. eapply on_ev_spec; [exact Hl|].
    apply vnode_kill_spec; [done|done|rewrite HO, (proj1 (not_elem_of_multiplicity _ _)); done|].
    intros vn'. wp_step. eapply HQ. simpl. rewrite delete_insert_eq.
    eapply (emu_drop false w R O Hs l ev a e3); [done|done|done|done|by exists ls, k|done].
  - intros e2 err Hok2. wp_step. simpl.
    assert (emu_state true (set_emu e2 (set_emu e1 w)) R O Hs) as Hst2.
    { eapply emu_state_emu; [exact Hst1|exact Hok2|]. intros l1 ev1 Hl1. by apply (es_ev _ _ _ _ _ Hst1 l1 ev1 Hl1). }
    eapply on_emu_unlock_spec; [exact Hst2|]. intros e3 Hst3. wp_step. by apply HF.
Qed.

Lemma emu_decref w R O Hs v Q :
  emu_state false w (R ⊎ {[+ v +]}) O Hs → (v ∈ O → v ∈ R) →
  (∀ w' Hs', emu_state false w' R O Hs' → Q (Ret ()) w') →
  wp (vnode_decref (λ A, on_ev v.1) (emufs_reclaim v.1)) Q w.
Proof.
  intros Hst Hin HQ. destruct (emu_held _ _ _ _ _ v Hst) as (ev & Hl & Heq & [Hok Hops Hh HR HO]); [multiset_solver|].
  pose proof (vok_ref _ Hok) as Href. rewrite <- Heq, pair_mult, decide_True in HR by done.
  unfold vnode_decref. wp_step. eapply on_ev_spec; [done|]. unfold vnode_decref_count. wp_step. wp_step. wp_step.
  apply wp_assert; [lia|]. rewrite Z.gtb_ltb. assert (0 ≤ root_ref v.1) as Hrr by (unfold root_ref; case_decide; lia).
  assert (emu_state false w R O Hs) as Hst0.
  { rewrite <- (set_eheap_id w v.1 ev) by done.
    eapply emu_count; [done|done|done|done|rewrite <- Heq; lia|done| |]; rewrite <- Heq; [count|done]. }
  destruct (Z.ltb_spec 1 (vn_refcount (ev_v ev))) as [Hgt|Hle].
  - wp_step. wp_step. wp_step. wp_step. eapply HQ.
    eapply emu_count; [exact Hst|done|destruct Hok; split; simpl; auto; lia|done|rewrite <- Heq; simpl; lia|done| |];
      rewrite <- Heq; [count|done].
  - wp_step. rewrite set_eheap_id by done. eapply emu_check; [exact Hst0|done|]. wp_step. wp_step.
    eapply (emufs_reclaim_spec w R O Hs v.1 ev); [done|done| |lia|lia|..].
    + rewrite <- Heq. apply not_elem_of_multiplicity. lia.
    + intros w' Hs' Hst'. wp_step. by eapply HQ.
    + intros w' e Hst'. wp_step. by eapply HQ.
Qed.

(** ** Loading a vnode *)

Lemma table_size lk w R O Hs ls :
  emu_state lk w R O Hs → table_of ls (ef_heap w) → zlen ls < 2 ^ 28.
Proof.
  intros Hst [Hnd Hls]. apply Z.le_lt_trans with (Z.of_nat (size Hs)).
  2:{ eapply hw_handles. apply (eo_hw _ _ _ (es_emu _ _ _ _ _ Hst)). }
  set (hof l := from_option ev_handle 0 (ef_heap w !! l)).
  assert (NoDup (hof <$> ls)) as Hnd2.
  { apply NoDup_fmap_2_strong; [|done]. intros l1 l2 [e1 H1]%Hls [e2 H2]%Hls. unfold hof. rewrite H1, H2. simpl.
    intros Heq. by apply (es_handles _ _ _ _ _ Hst l1 l2 e1 e2). }
  unfold zlen. rewrite <- (length_fmap hof ls), <- (size_list_to_set (C := gset Z)) by done.
  apply inj_le, subseteq_size. intros h. rewrite elem_of_list_to_set, list_elem_of_fmap. intros (l & -> & [ev Hl]%Hls).
  unfold hof. rewrite Hl. apply (es_ev _ _ _ _ _ Hst l ev Hl).
Qed.

Lemma emufs_find_spec lk w R O Hs ls h Q : ∀ cnt n,
  emu_state lk w R O Hs → array_repr (ef_vnodes w) ls → table_of ls (ef_heap w) →
  0 ≤ n → n + Z.of_nat cnt = zlen ls →
  (∀ w' l ev, emu_state lk w' (R ⊎ {[+ (l, ev_isdir ev) +]}) O Hs → ef_heap w' !! l = Some ev → is_Some (ef_heap w !! l) → Q (Ret (Some l)) w') →
  ((∀ k l ev, n ≤ Z.of_nat k → ls !! k = Some l → ef_heap w !! l = Some ev → ev_handle ev ≠ h) → Q (Ret None) w) →
  wp (emufs_find h (seqZ n (Z.of_nat cnt))) Q w.
Proof.
  intros cnt. induction cnt as [|cnt IH]; intros n Hst Hrepr Htab Hn Hcnt HQ HN.
  { change (seqZ n (Z.of_nat 0)) with ([] : list Z). cbn [emufs_find]. wp_step. apply HN.
    intros k l ev Hk Hl. apply lookup_lt_Some in Hl. unfold zlen in *. lia. }
  rewrite seqZ_more by lia. cbn [emufs_find]. replace (Z.of_nat (S cnt) - 1) with (Z.of_nat cnt) by lia.
  wp_step. unfold on_evnodes. wp_step. eapply array_getguy_spec; [done|rewrite (repr_num _ _ Hrepr); lia|].
  intros l Hl. rewrite set_evnodes_id. assert (is_Some (ef_heap w !! l)) as [ev Hev].
  { apply Htab. by eapply list_elem_of_lookup_2. }
  wp_step. eapply get_ev_spec; [done|]. destruct (Z.eqb_spec (ev_handle ev) h) as [Heq|Hne].
  - wp_step. eapply emu_incref; [done|done|]. intros w' Hst' _ _ (ev' & Hev' & Hd). wp_step. rewrite <- Hd in Hst'. eapply HQ; [done..|by eexists].
  - apply IH; [done|done|done|lia|lia|done|]. intros Hall. apply HN. intros k l2 ev2 Hk Hl2 Hev2.
    destruct (decide (k = Z.to_nat n)) as [->|Hkn]; [congruence|]. apply (Hall k l2); [lia|done|done].
Qed.

(** A new vnode enters the table. *)
Lemma emu_add lk w R O Hs l vn h ls a :
  emu_state lk w R O Hs → ef_heap w !! l = None → vnode_ok vn → vn_refcount vn = 1 → vn_opencount vn = 0 →
  vn_ops vn = Some emufs_fileops ∨ vn_ops vn = Some emufs_dirops → h ∈ Hs → is_u32 h →
  (∀ l' ev, ef_heap w !! l' = Some ev → ev_handle ev ≠ h) →
  array_repr a (ls ++ [l]) → table_of ls (ef_heap w) →
  let ev := {| ev_v := vn; ev_handle := h |} in
  emu_state lk (set_eheap (<[l := ev]> (ef_heap w)) (set_evnodes a w)) (R ⊎ {[+ (l, ev_isdir ev) +]}) O Hs.
Proof.
  intros [Hemu Htab Hev Hhs Hrefs Hop Hroot] Hl Hvn Hrc Hoc Hops Hh Hu Hnew Ha Hls ev.
  assert (∀ d, (l, d) ∉ R) as HnR by (intros d Hd; destruct (Hrefs _ Hd) as (e1 & He1 & _); simpl in *; congruence).
  split; simpl.
  - done.
  - exists (ls ++ [l]). split; [done|]. by apply table_add.
  - intros l1 e1 [[<- <-]|[Hne Hl1]]%lookup_insert_Some.
    + split; [done|done|done| |]; simpl.
      * rewrite Hrc, pair_mult, decide_True by done. rewrite (proj1 (not_elem_of_multiplicity _ R)) by done.
        unfold root_ref. rewrite decide_False; [simpl; lia|]. intros Hr. destruct (Hroot l Hr) as (e0 & _ & He0 & _). congruence.
      * rewrite Hoc, (proj1 (not_elem_of_multiplicity _ O)); [done|]. intros HO%Hop. by eapply HnR.
    + destruct (Hev l1 e1 Hl1) as [? ? ? HR HO]. split; [done|done|done| |done].
      rewrite pair_mult, decide_False by congruence. by rewrite Nat.add_0_r.
  - intros l1 l2 e1 e2 [[<- <-]|[Hn1 H1]]%lookup_insert_Some [[<- <-]|[Hn2 H2]]%lookup_insert_Some Heq; [done| | |by eapply Hhs].
    + by destruct (Hnew l2 e2 H2).
    + by destruct (Hnew l1 e1 H1).
  - intros v Hv. destruct (decide (v = (l, ev_isdir ev))) as [->|Hne]; [exists ev; by rewrite lookup_insert_eq|].
    destruct (Hrefs v) as (e1 & He1 & Hd1); [multiset_solver|]. exists e1. rewrite lookup_insert_ne; [done|congruence].
  - intros v Hv%Hop. multiset_solver.
  - intros l0 Hl0. destruct (Hroot l0 Hl0) as (e0 & Hr0 & He0 & Hd0). exists e0. rewrite lookup_insert_ne by congruence. done.
Qed.

Lemma emu_malloc_spec lk w R O Hs Q :
  emu_state lk w R O Hs →
  (∀ b w', emu_state lk w' R O Hs → ef_vnodes w' = ef_vnodes w → ef_heap w' = ef_heap w → Q (Ret b) w') → wp emu_malloc Q w.
Proof.
  intros Hst HQ. unfold emu_malloc. wp_step. wp_step. destruct (ef_mallocs w) as [|b bs]; wp_step; [by apply HQ|].
  wp_step. wp_step. apply HQ; [|done|done]. by destruct Hst.
Qed.

Lemma loadvnode_locked_spec lk w R O Hs h isdir Q :
  emu_state lk w R O Hs → h ∈ Hs → is_u32 h →
  (∀ w' l ev, emu_state lk w' (R ⊎ {[+ (l, ev_isdir ev) +]}) O Hs → ef_heap w' !! l = Some ev →
     (ef_heap w !! l = None → ev_isdir ev = isdir) → Q (Ret l) w') →
  (∀ w' e, emu_state lk w' R O Hs → (∀ l ev, ef_heap w' !! l = Some ev → ev_handle ev ≠ h) → Q (Fail e) w') →
  wp (loadvnode_locked h isdir) Q w.
Proof.
  intros Hst Hh Hu HQ HF. destruct (es_table _ _ _ _ _ Hst) as (ls & Hrepr & Htab). unfold loadvnode_locked. wp_step. wp_step. wp_step.
  unfold array_getnum. rewrite (repr_num _ _ Hrepr). unfold zlen.
  eapply emufs_find_spec; [done|done|done|done|done|intros w' l ev Hst' Hev [? Hold]; wp_step; eapply HQ; [done..|congruence]|]. intros Hnone.
  assert (∀ l ev, ef_heap w !! l = Some ev → ev_handle ev ≠ h) as Hnew.
  { intros l ev Hl. assert (l ∈ ls) as [k Hk]%list_elem_of_lookup_1 by (apply Htab; eauto). eapply Hnone; [|done|done]. lia. }
  wp_step. eapply emu_malloc_spec; [done|]. intros ok w1 Hst1 Hv1 Hh1. destruct ok; cbn [negb]; [|wp_step; apply HF; [done|by rewrite Hh1]].
  wp_step. eapply emu_malloc_spec; [done|]. intros lok w2 Hst2 Hv2 Hh2. rewrite Hv1 in Hv2. rewrite Hh1 in Hh2.
  destruct lok; cbn [vnode_init]; [|wp_step; apply HF; [done|by rewrite Hh2]].
  wp_step. wp_step. cbv zeta. wp_step. eapply emu_malloc_spec; [done|]. intros gok w3 Hst3 Hv3 Hh3.
  rewrite Hv2 in Hv3. rewrite Hh2 in Hh3. set (l := fresh (dom (ef_heap w2))).
  assert (ef_heap w3 !! l = None) as Hl by (rewrite Hh3, <- Hh2; apply not_elem_of_dom, is_fresh).
  wp_step. unfold on_evnodes. wp_step. rewrite Hv3. eapply array_add_spec; [done| | |].
  - pose proof (table_size _ _ _ _ _ _ Hst Htab). lia.
  - intros a Ha _. wp_step. wp_step. wp_step. eapply (HQ _ l (Build_emufs_vnode _ h)); [|apply lookup_insert_eq|by destruct isdir].
    eapply (emu_add lk w3 R O Hs l _ h ls a); [done|done|by eapply (vnode_init_ok true)|done|done|destruct isdir; simpl; auto|done|done|by rewrite Hh3|done|by rewrite Hh3].
  - intros _ _. rewrite <- Hv3, set_evnodes_id. apply HF; [done|by rewrite Hh3].
Qed.

Lemma emufs_loadvnode_spec w R O Hs h isdir Q :
  emu_state false w R O Hs → h ∈ Hs → is_u32 h →
  (∀ w' l ev, emu_state false w' (R ⊎ {[+ (l, ev_isdir ev) +]}) O Hs → ef_heap w' !! l = Some ev →
     (ef_heap w !! l = None → ev_isdir ev = isdir) → Q (Ret l) w') →
  (∀ w' e, emu_state false w' R O Hs → (∀ l ev, ef_heap w' !! l = Some ev → ev_handle ev ≠ h) → Q (Fail e) w') →
  wp (emufs_loadvnode h isdir) Q w.
Proof.
  intros Hst Hh Hu HQ HF. unfold emufs_loadvnode. wp_step. eapply on_emu_lock_spec; [done|]. intros e1 Hst1.
  wp_step. wp_step. eapply loadvnode_locked_spec; [done|done|done| |].
  - intros w2 l ev Hst2 Hl Hd. wp_step. eapply on_emu_unlock_spec; [done|]. intros e2 Hst3. simpl. wp_step. by eapply HQ.
  - intros w2 e Hst2 Hnew. wp_step. eapply on_emu_unlock_spec; [done|]. intros e2 Hst3. simpl. wp_step. by apply HF.
Qed.

Lemma emufs_openname_spec w R O Hs dir ev name n create excl Q :
  emu_state false w R O Hs → ef_heap w !! dir = Some ev → good_string name n →
  (∀ w' l ev Hs', emu_state false w' (R ⊎ {[+ (l, ev_isdir ev) +]}) O Hs' → ef_heap w' !! l = Some ev → Q (Ret l) w') →
  (∀ w' e Hs', emu_state false w' R O Hs' → Q (Fail e) w') →
  wp (emufs_openname dir name create excl) Q w.
Proof.
  intros Hst Hl Hn HQ HF. destruct (es_ev _ _ _ _ _ Hst dir ev Hl) as [_ _ [Hh Hu] _ _].
  assert (∀ l ev, ef_heap w !! l = Some ev → ev_handle ev ∈ Hs) as Hin by (intros l1 e1 Hl1; apply (es_ev _ _ _ _ _ Hst l1 e1 Hl1)).
  unfold emufs_openname. wp_step. eapply get_ev_spec; [done|]. wp_step. unfold on_emu at 1. wp_step.
  eapply emu_open_spec; [by apply Hst|done|done|done| |].
  2:{ intros e1 err Hok1. eapply (HF _ _ Hs). by eapply emu_state_emu. }
  intros e1 h isdir Hok1 Hu1. wp_step. wp_step. eapply (emufs_loadvnode_spec _ R O ({[h]} ∪ Hs)); [|set_solver|done| |].
  - eapply emu_state_emu; [done..|]. intros l1 ev1 Hl1. apply elem_of_union_r. by eapply Hin.
  - intros w2 l2 ev2 Hst2 Hl2 _. wp_step. by eapply HQ.
  - intros w2 err Hst2 Hnew. wp_step. wp_step. unfold on_emu. wp_step. eapply emu_close_spec; [by apply Hst2|set_solver|done| |].
    + intros e3 Hok3. wp_step. eapply (HF _ _ _). eapply emu_state_emu; [done..|]. intros l3 ev3 Hl3.
      apply elem_of_difference. split; [by apply (es_ev _ _ _ _ _ Hst2 l3 ev3 Hl3)|]. intros Heq%elem_of_singleton. by eapply Hnew.
    + intros e3 err3 Hok3. wp_step. eapply (HF _ _ _). eapply emu_state_emu; [done..|]. intros l3 ev3 Hl3.
      by apply (es_ev _ _ _ _ _ Hst2 l3 ev3 Hl3).
Qed.

(** A vnode that is handed out. *)
Lemma vnode_of_spec w l ev Q : ef_heap w !! l = Some ev → Q (Ret (l, ev_isdir ev)) w → wp (vnode_of (mret l)) Q w.
Proof. intros Hl HQ. unfold vnode_of. wp_step. wp_step. wp_step. eapply get_ev_spec; [done|]. by wp_step. Qed.

Lemma vnode_of_bind m w Q :
  wp m (λ r w', match r with
    | Ret l => wp (vnode_of (mret l)) Q w'
    | Fail e => Q (Fail e) w'
    | Halt k => Q (Halt k) w'
    end) w → wp (vnode_of m) Q w.
Proof. intros Hm. unfold vnode_of at 1. wp_step. eapply wp_mono; [exact Hm|]. by intros [l|e|k] w' HQ. Qed.

Lemma evop_spec {A} lk w R O Hs v (file dir : M fs A) Q :
  emu_state lk w R O Hs → v ∈ R →
  (∀ ev, ef_heap w !! v.1 = Some ev → v = (v.1, ev_isdir ev) → wp (if v.2 then dir else file) Q w) →
  wp (evop v.1 file dir) Q w.
Proof.
  intros Hst Hv HQ. destruct (emu_held _ _ _ _ _ v Hst Hv) as (ev & Hl & Heq & [Hok Hops _ _ _]).
  unfold evop. eapply emu_check; [done..|]. wp_step. eapply get_ev_spec; [done|]. specialize (HQ ev Hl Heq).
  rewrite Heq in HQ. unfold ev_isdir in HQ. simpl in HQ. destruct Hops as [Hops|Hops]; by rewrite Hops in *.
Qed.

(** ** Parents *)

Lemma strrchr_from_spec a s ch : ∀ i, cstr a s → ch ≠ 0 → (i ≤ S (length s))%nat →
  ∃ r, strrchr_from a ch i = Some r ∧ (∀ k, r = Some k → (k < length s)%nat).
Proof.
  intros i [Hs [rest ->]] Hch. induction i as [|i IH]; intros Hi; [by exists None|]. simpl.
  assert (∃ c, (s ++ 0 :: rest) !! i = Some c ∧ (c ≠ 0 → (i < length s)%nat)) as (c & Hc & Hlt).
  { destruct (decide (i < length s)%nat) as [Hl|Hl].
    - destruct (lookup_lt_is_Some_2 s i Hl) as [c Hc]. exists c. split; [by apply lookup_app_l_Some|done].
    - assert (i = length s) as -> by lia. exists 0. split; [|done]. by rewrite lookup_app_r, Nat.sub_diag by lia. }
  rewrite Hc. simpl. destruct (Z.eqb_spec (s8 c) ch) as [Heq|Hne]; [|apply IH; lia].
  eexists. split; [done|]. intros k [= <-]. apply Hlt. intros ->. by apply Hch.
Qed.

Lemma strrchr_spec a s ch : cstr a s → ch ≠ 0 → ∃ r, strrchr a ch = Some r ∧ (∀ k, r = Some k → (k < length s)%nat).
Proof.
  intros Ha Hch. unfold strrchr. rewrite (strlen_cstr _ _ Ha). simpl. apply strrchr_from_spec; [done|done|].
  unfold zlen. lia.
Qed.

Lemma good_take a s k : good_string a s → (k < length s)%nat →
  good_string (<[k := 0]> a) (take k s) ∧ good_string (drop (S k) (<[k := 0]> a)) (drop (S k) s).
Proof.
  intros ([Hnz [rest ->]] & Hu & Hl) Hk. unfold zlen in Hl.
  assert (<[k := 0]> (s ++ 0 :: rest) = take k s ++ 0 :: (drop (S k) s ++ 0 :: rest)) as ->.
  { rewrite insert_app_l by lia. rewrite insert_take_drop by lia. by rewrite <- app_assoc. }
  split; (split_and!; [|by apply Forall_take || by apply Forall_drop|unfold zlen; rewrite ?length_take, ?length_drop; lia]).
  - apply cstr_app. by apply Forall_take.
  - assert (S k = length (take k s ++ [0])) as Hlen by (rewrite length_app, length_take; simpl; lia).
    rewrite Hlen at 1. change (0 :: drop (S k) s ++ 0 :: rest) with ([0] ++ (drop (S k) s ++ 0 :: rest)).
    rewrite app_assoc, drop_app_length. apply cstr_app. by apply Forall_drop.
Qed.

Lemma emufs_lookparent_spec w R O Hs dir ev path p buf len Q :
  emu_state false w R O Hs → ef_heap w !! dir = Some ev → good_string path p → zlen buf = len → len < 2 ^ 31 →
  (∀ w' l ev b s Hs', emu_state false w' (R ⊎ {[+ (l, ev_isdir ev) +]}) O Hs' → ef_heap w' !! l = Some ev →
     good_string b s → Q (Ret (l, b)) w') →
  (∀ w' e Hs', emu_state false w' R O Hs' → Q (Fail e) w') →
  wp (emufs_lookparent dir path buf len) Q w.
Proof.
  intros Hst Hl Hp Hbuf Hlen HQ HF. unfold emufs_lookparent. destruct (Hp) as (Hc & Hu & Hz).
  assert (∀ b s, good_string b s → zlen s + 1 ≤ len → strcpy buf b = Some (s ++ 0 :: drop (S (length s)) buf) ∧
    good_string (s ++ 0 :: drop (S (length s)) buf) s) as Hcpy.
  { intros b s ([Hnz1 Hr1] & Hu1 & Hz1) Hfit. split; [apply strcpy_spec; [by split|lia]|]. split; [by apply cstr_app|done]. }
  destruct (strrchr_spec path p (chr "/") Hc) as (r & Hr & Hk); [done|]. wp_step. eapply wp_deref; [done|]. destruct r as [k|].
  - specialize (Hk k eq_refl). destruct (good_take path p k Hp Hk) as [Hg1 Hg2]. assert (zlen p < zlen path) as Hpl.
    { destruct Hc as [_ [rest ->]]. rewrite zlen_app. unfold zlen. simpl length. lia. }
    wp_step. eapply wp_deref; [apply zstore_in; unfold zlen in *; lia|]. rewrite Nat2Z.id. cbv zeta. destruct (Hg2) as (Hc2 & _ & Hz2).
    wp_step. eapply wp_deref; [by apply strlen_cstr|]. pose proof (zlen_nonneg (drop (S k) p)).
    rewrite (u32_small (zlen (drop (S k) p) + 1)) by (unfold is_u32; lia). rewrite Z.gtb_ltb.
    destruct (Z.ltb_spec len (zlen (drop (S k) p) + 1)) as [Hgt|Hle]; [wp_step; by eapply HF|].
    destruct (Hcpy _ _ Hg2 Hle) as [Heq Hgb]. wp_step. eapply wp_deref; [done|]. unfold emufs_lookup. wp_step.
    eapply emufs_openname_spec; [done..| |]; [|by intros; eapply HF].
    intros w' l ev' Hs' Hst' Hl'. wp_step. by eapply HQ.
  - wp_step. eapply wp_deref; [by apply strlen_cstr|]. pose proof (zlen_nonneg p).
    rewrite (u32_small (zlen p + 1)) by (unfold is_u32; lia). rewrite Z.gtb_ltb.
    destruct (Z.ltb_spec len (zlen p + 1)) as [Hgt|Hle]; [wp_step; by eapply HF|]. destruct (Hcpy _ _ Hp Hle) as [Heq Hgb].
    wp_step. eapply emu_incref; [done..|]. intros w' Hst' _ _ (ev' & Hl' & Hd). rewrite <- Hd in Hst'.
    wp_step. eapply wp_deref; [done|]. wp_step. by eapply HQ.
Qed.

(** ** Reading and writing a file *)

(** A file changes on the card; nothing else does. *)
Lemma emu_io_state w R O Hs e : emu_state false w R O Hs → emu_ok false e Hs → emu_state false (set_emu e w) R O Hs.
Proof. intros Hst Hok. eapply emu_state_emu; [done..|]. intros l ev Hl. by apply (es_ev _ _ _ _ _ Hst l ev Hl). Qed.

(** a read from a file of the emulator file system returns (the loop over
    the pieces ends) and, when it succeeds, moves the bytes of the file from the
    offset of the request on, as many as were asked for or as there are, and
    advances the request by that; the file and the vnode table are unchanged,
    and the lock of the card is released, also on an error. *)
Theorem emufs_read_correct w R O Hs l us ev :
  emu_state false w R O Hs → ef_heap w !! l = Some ev →
  uio_ok us → uio_dir (u us) = UIO_READ → 0 ≤ uio_offset (u us) → uio_offset (u us) + uio_resid (u us) < 2 ^ 31 →
  match emufs_read l (w, us) with
  | (Ret _, (w', us')) =>
      emu_state false w' R O Hs ∧ hw_file (e_hw (ef_emu w')) (ev_handle ev) = hw_file (e_hw (ef_emu w)) (ev_handle ev) ∧
      moved_in us (take (Z.to_nat (uio_resid (u us)))
        (drop (Z.to_nat (uio_offset (u us))) (hw_file (e_hw (ef_emu w)) (ev_handle ev)))) us'
  | (Fail _, (w', _)) => emu_state false w' R O Hs
  | (Halt _, _) => False
  end.
Proof.
  intros Hst Hl Hus Hdir Ho Hb. destruct (es_ev _ _ _ _ _ Hst _ ev Hl) as [_ _ [Hh Hu] _ _].
  apply (wp_elim (emufs_read l)). unfold emufs_read. wp_step. wp_step. eapply get_ev_spec; [done|]. wp_step. wp_step. wp_step.
  apply wp_assert; [by apply bool_decide_eq_true|].
  replace w with (set_emu (ef_emu w) w) by (by destruct w).
  eapply read_loop_spec; [done..|by apply Hst|done|done|done|done|unfold io_fuel; simpl; lia| |].
  - intros e' us' Hok Hf Hm. split_and!; [by apply emu_io_state|done|done].
  - intros e' us' err Hok. by apply emu_io_state.
Qed.

(** C26: a write to a file of the emulator file system returns and, when it
    succeeds, has taken all the bytes of the request and stored them in the file
    at its offset: what lies before and behind them is unchanged, and a gap
    before them is filled with zeros. *)
Theorem emufs_write_correct w R O Hs l us ev :
  emu_state false w R O Hs → ef_heap w !! l = Some ev →
  uio_ok us → uio_dir (u us) = UIO_WRITE → 0 ≤ uio_offset (u us) → uio_offset (u us) + uio_resid (u us) < 2 ^ 31 →
  let file w := hw_file (e_hw (ef_emu w)) (ev_handle ev) in
  match emufs_write l (w, us) with
  | (Ret _, (w', us')) => emu_state false w' R O Hs ∧
      ∃ bs, zlen bs = uio_resid (u us) ∧ moved_out us bs us' ∧
        file w' = (if decide (bs = []) then file w else put_at (file w) (Z.to_nat (uio_offset (u us))) bs)
  | (Fail _, (w', _)) => emu_state false w' R O Hs
  | (Halt _, _) => False
  end.
Proof.
  intros Hst Hl Hus Hdir Ho Hb. destruct (es_ev _ _ _ _ _ Hst _ ev Hl) as [_ _ [Hh Hu] _ _].
  apply (wp_elim (emufs_write l)). unfold emufs_write. wp_step. wp_step. eapply get_ev_spec; [done|]. wp_step. wp_step. wp_step.
  apply wp_assert; [by apply bool_decide_eq_true|].
  replace w with (set_emu (ef_emu w) w) by (by destruct w).
  eapply write_loop_spec; [done..|by apply Hst|done|done|done|done|unfold io_fuel; simpl; lia| |].
  - intros e' us' bs Hok Hz Hf Hm. split; [by apply emu_io_state|]. by exists bs.
  - intros e' us' err Hok. by apply emu_io_state.
Qed.
End vnodes.

Section laws.
Context {HW : Type} `{EmuHardwareLaws HW}.
Abbreviation fs := (emufs_fs HW).
Implicit Types (w : fs) (R O : gmultiset (Z * bool)) (Hs : gset Z).

(** ** The laws *)

(** The volume is there once its root is loaded. *)
Definition emu_inv w (T : gmap unit (option (list Z))) R O : Prop :=
  (T = ∅ ∧ R = ∅ ∧ O = ∅) ∨ ∃ rt Hs, T = {[ () := None ]} ∧ emu_state (Some rt) false w R O Hs.

Lemma emu_inv_intro rt w R O Hs : emu_state (Some rt) false w R O Hs → emu_inv w {[ () := None ]} R O.
Proof. intros Hst. right. by exists rt, Hs. Qed.

Lemma emu_inv_elim w T R O v :
  emu_inv w T R O → v ∈ R → ∃ rt Hs, T = {[ () := None ]} ∧ emu_state (Some rt) false w R O Hs.
Proof. intros [(_ & -> & _)|Hi] Hv; [multiset_solver|done]. Qed.

Lemma emu_inv_vol w T R O f :
  emu_inv w T R O → is_Some (T !! f) → ∃ rt Hs, T = {[ () := None ]} ∧ emu_state (Some rt) false w R O Hs.
Proof. intros [(-> & _)|Hi] Hf; [by destruct Hf|done]. Qed.

(** The functions that only return an error, or only look. *)
Ltac emu_op :=
  intros; match goal with Hi : emu_inv _ _ _ _, Hv : _ ∈ _ |- _ => destruct (emu_inv_elim _ _ _ _ _ Hi Hv) as (rt & Hs & -> & Hst) end;
  eapply evop_spec; [done..|]; intros ev Hl Heq; match goal with |- context [if ?v.2 then _ else _] => destruct (v.2) eqn:Hd end.
Ltac emu_done := unfold emufs_notdir, emufs_isdir, emufs_unimp; wp_step; try done; by eapply emu_inv_intro.

Lemma emu_gettype_law w T R O v :
  emu_inv w T R O → v ∈ R →
  wp (VOP_GETTYPE v) (λ r w', match r with
    | Ret t => emu_inv w' T R O ∧ (S_ISDIR t = true → v.2 = true)
    | Fail _ => emu_inv w' T R O
    | Halt _ => False
    end) w.
Proof.
  emu_op; unfold emufs_dir_gettype, emufs_file_gettype; wp_step; (split; [by eapply emu_inv_intro|]); [done|].
  by vm_compute.
Qed.

Lemma emu_open_law w T R O v flags :
  emu_inv w T R O → v ∈ R →
  wp (VOP_OPEN v flags) (λ r w', match r with Halt _ => False | _ => emu_inv w' T R O end) w.
Proof. emu_op; unfold emufs_open, emufs_opendir; repeat case_match; emu_done. Qed.

Lemma emu_truncate_law w T R O v :
  emu_inv w T R O → v ∈ R →
  wp (VOP_TRUNCATE v 0) (λ r w', match r with Halt _ => False | _ => emu_inv w' T R O end) w.
Proof.
  emu_op; [emu_done|]. destruct (es_ev _ _ _ _ _ _ Hst _ ev Hl) as [_ _ [Hh Hu] _ _].
  unfold emufs_truncate. wp_step. eapply get_ev_spec; [done|]. unfold on_emu. wp_step. unfold emu_trunc. wp_step.
  eapply emu_lock_spec; [by apply Hst|]. intros e1 Hok1 _. wp_step. unfold wreg_handle. wp_step. wp_step. unfold wreg_iolen. wp_step.
  simpl. rewrite (u32_small (ev_handle ev)) by done. eapply (request_spec true _ Hs); [by destruct Hok1|done|done|].
  intros e2 res Hok2 _. simpl in Hok2. assert (∀ e3, emu_ok false e3 Hs → emu_inv (set_emu e3 w) {[() := None]} R O) as Hinv.
  { intros e3 Hok3. eapply emu_inv_intro, emu_state_emu; [done..|]. intros l1 ev1 Hl1. by apply (es_ev _ _ _ _ _ _ Hst l1 ev1 Hl1). }
  split; intros Hres; intros; wp_step; (eapply emu_unlock_spec; [by destruct res|]); intros e3 Hok3 _; simpl; wp_step; by apply Hinv.
Qed.

Lemma emu_name_law w T R O v (m : M fs Z) name :
  emu_inv w T R O → v ∈ R → is_string name →
  (∃ create excl, m = emufs_openname v.1 name create excl) →
  wp (evop v.1 emufs_notdir (vnode_of m)) (λ r w', match r with
    | Ret v' => emu_inv w' T (R ⊎ {[+ v' +]}) O ∧ Some () = Some ()
    | Fail _ => emu_inv w' T R O
    | Halt _ => False
    end) w.
Proof.
  intros Hi Hv Hn (create & excl & ->). revert Hi Hv. emu_op; [|emu_done]. apply vnode_of_bind.
  eapply emufs_openname_spec; [done|done|by apply is_string_good| |].
  - intros w' l ev' Hs' Hst' Hl'. eapply vnode_of_spec; [done|]. split; [|done]. by eapply emu_inv_intro.
  - intros w' e Hs' Hst'. by eapply emu_inv_intro.
Qed.

Lemma emu_lookparent_law w T R O v path buf len :
  emu_inv w T R O → v ∈ R → is_string path → zlen buf = len → len < 2 ^ 31 →
  wp (VOP_LOOKPARENT v path buf len) (λ r w', match r with
    | Ret (v', name) => emu_inv w' T (R ⊎ {[+ v' +]}) O ∧ Some () = Some () ∧ is_string name
    | Fail _ => emu_inv w' T R O
    | Halt _ => False
    end) w.
Proof.
  emu_op; [|emu_done]. wp_step. eapply emufs_lookparent_spec; [done|done|by apply is_string_good|done|done| |].
  - intros w' l ev' b s Hs' Hst' Hl' Hb. wp_step. simpl. eapply vnode_of_spec; [done|]. wp_step.
    split_and!; [by eapply emu_inv_intro|done|by exists s].
  - intros w' e Hs' Hst'. by eapply emu_inv_intro.
Qed.

Lemma emu_getroot_law w T R O f :
  emu_inv w T R O → is_Some (T !! f) →
  wp (FSOP_GETROOT f) (λ r w', match r with
    | Ret v => emu_inv w' T (R ⊎ {[+ v +]}) O ∧ Some () = Some f
    | Fail _ => False
    | Halt k => k = Panic ∧ False
    end) w.
Proof.
  intros Hi Hf. destruct (emu_inv_vol _ _ _ _ _ Hi Hf) as (l & Hs & -> & Hst). destruct (es_root _ _ _ _ _ _ Hst l eq_refl) as (ev & Hr & Hl & _). apply vnode_of_bind.
  unfold emufs_getroot. wp_step. wp_step. rewrite Hr. wp_step. eapply emu_incref; [done..|].
  intros w' Hst' _ _ (ev' & Hl' & Hd). wp_step. eapply vnode_of_spec; [done|]. rewrite Hd.
  split; [by eapply emu_inv_intro|by destruct f].
Qed.

Ltac emu_op_uio :=
  intros; match goal with Hi : emu_inv _ _ _ _, Hv : _ ∈ _ |- _ => destruct (emu_inv_elim _ _ _ _ _ Hi Hv) as (rt & Hs & -> & Hst) end;
  unfold VOP_READLINK, VOP_NAMEFILE; simpl; wp_step; eapply evop_spec; [done..|]; intros ev Hl Heq;
  match goal with |- context [if ?v.2 then _ else _] => destruct (v.2) eqn:Hd end.

Lemma emu_namefile_law w T R O v us :
  emu_inv w T R O → v ∈ R → v.2 = true → uio_ok us → uio_dir (u us) = UIO_READ →
  wp (VOP_NAMEFILE v) (λ r p, match r with
    | Ret _ => emu_inv p.1 T R O ∧ ∃ bs, moved_in us bs p.2
    | Fail _ => emu_inv p.1 T R O
    | Halt _ => False
    end) (w, us).
Proof.
  emu_op_uio; [|done]. unfold emufs_namefile. wp_step. wp_step. case_match; wp_step; simpl; [|by eapply emu_inv_intro].
  split; [by eapply emu_inv_intro|]. exists []. by apply moved_in_nil.
Qed.

Lemma emu_readlink_law w T R O v us :
  emu_inv w T R O → v ∈ R → wp (VOP_READLINK v) (λ r p, match r with Halt _ => False | _ => emu_inv p.1 T R O end) (w, us).
Proof. emu_op_uio; emu_done. Qed.

#[global] Program Instance emu_laws : VnodeLaws fs (Z * bool) unit Empty_set := {
  fs_of v := Some ();
  dirvn v := v.2;
  inv := emu_inv;
  fs_clean f w := True;
  may_panic op := False;
  law_gettype := emu_gettype_law;
  law_open := emu_open_law;
  law_truncate := emu_truncate_law;
  law_lookparent := emu_lookparent_law;
  law_getroot := emu_getroot_law;
  law_namefile := emu_namefile_law;
  law_readlink := emu_readlink_law;
}.
Next Obligation. by intros. Qed.
Next Obligation. intros w T R O v [] Hi Hv _. destruct (emu_inv_elim _ _ _ _ _ Hi Hv) as (rt & Hs & -> & _). by rewrite lookup_singleton_eq. Qed.
Next Obligation.
  intros w T R O v Hi Hv. destruct (emu_inv_elim _ _ _ _ _ Hi Hv) as (rt & Hs & -> & Hst). destruct (emu_held _ _ _ _ _ _ v Hst Hv) as (ev & Hl & _).
  apply wp_eq_intro. simpl. wp_step. eapply get_ev_spec; [done|]. by wp_step.
Qed.
Next Obligation.
  intros w T R O v Hi Hv. destruct (emu_inv_elim _ _ _ _ _ Hi Hv) as (rt & Hs & -> & Hst). destruct (emu_held _ _ _ _ _ _ v Hst Hv) as (ev & Hl & Heq & _).
  simpl. eapply emu_incref; [done..|]. rewrite <- Heq. intros w' Hst' _ _ _. by eapply emu_inv_intro.
Qed.
Next Obligation.
  intros w T R O v Hi Hin. destruct (emu_inv_elim _ _ _ _ v Hi) as (rt & Hs & -> & Hst); [multiset_solver|]. simpl. eapply emu_decref; [done..|]. intros w' Hs' Hst'. by eapply emu_inv_intro.
Qed.
Next Obligation.
  intros w T R O v Hi Hv. destruct (emu_inv_elim _ _ _ _ _ Hi Hv) as (rt & Hs & -> & Hst). simpl. eapply emu_incopen; [done..|]. intros w' Hst'. by eapply emu_inv_intro.
Qed.
Next Obligation.
  intros w T R O v Hi Hv. destruct (emu_inv_elim _ _ _ _ _ Hi Hv) as (rt & Hs & -> & Hst). simpl. eapply emu_decopen; [done..|]. intros w' Hst'. by eapply emu_inv_intro.
Qed.
Next Obligation. emu_op; emu_done. Qed.
Next Obligation. emu_op; emu_done. Qed.
Next Obligation. emu_op; emu_done. Qed.
Next Obligation. emu_op; emu_done. Qed.
Next Obligation. emu_op; emu_done. Qed.
Next Obligation. emu_op; emu_done. Qed.
Next Obligation. intros. eapply emu_name_law; [done..|]. by exists true, excl. Qed.
Next Obligation. intros. eapply emu_name_law; [done..|]. by exists false, false. Qed.
Next Obligation.
  intros w T R O [] n Hi Hn. destruct (emu_inv_vol _ _ _ _ () Hi) as (rt & Hs & -> & _); [by eexists|]. rewrite lookup_singleton_eq in Hn. simplify_eq. by exists None.
Qed.
Next Obligation.
  intros w T R O f Hi Hf. destruct (emu_inv_vol _ _ _ _ _ Hi Hf) as (rt & Hs & -> & Hst). simpl. unfold emufs_sync. wp_step.
  split; [by eapply emu_inv_intro|done].
Qed.
Next Obligation. intros w T R O f Hi Hf _. destruct (emu_inv_vol _ _ _ _ _ Hi Hf) as (rt & Hs & -> & Hst). simpl. unfold emufs_unmount. emu_done. Qed.
Next Obligation. by intros ???? []. Qed.
Next Obligation. intros. by apply wp_ret. Qed.
End laws.

