(* ===== verification/EmuVfs.v ===== *)
(** * Attaching the emulator file system (kern/dev/lamebus/emu.c)

    [config_emu] and [emufs_addtovfs]: the driver is set up, the root directory
    loaded, and the file system entered in the table of the virtual file
    system, next to whatever other vnodes the kernel has ([W1], [V1], [F1]: in
    practice those of the devices).  Before that the emulator has no volume. *)

From Stdlib Require Import Ascii.
From stdpp Require Import gmultiset.
From S2P Require Import Prelude Libc Printf Array CopyInOut Uio Vnode SfsVnode Vfs VfsSpec VfsTable VfsSum Emu EmuSpec.

Section attach.
Context {HW W1 V1 F1 Dv : Type} `{EmuHardware HW} `{VnodeInterface W1 V1 F1 Dv} `{EqDecision F1}.
Abbreviation emufs := (emufs_fs HW).
Abbreviation kernel := (vfs (W1 * emufs) (V1 + Z * bool) (F1 + unit) Dv).

Definition on_emufs {A} (m : M emufs A) : M kernel A := on_world (on_snd m).

(** When the file system cannot be entered its root is dropped; the array of
    its vnodes is not destroyed. *)
Definition emufs_addtovfs (devname : list Z) : M kernel unit :=
  ok ← on_emufs emu_malloc;
  if negb (ok : bool) then fail ENOMEM
  else
    _ ← on_emufs (modify (set_root None));
    array_ok ← on_emufs emu_malloc;
    match array_create array_ok with
    | None => fail ENOMEM
    | Some a =>
        _ ← on_emufs (modify (set_evnodes a));
        root ← on_emufs (emufs_loadvnode EMU_ROOTHANDLE true);
        _ ← on_emufs (modify (set_root (Some root)));
        result ← attempt (vfs_addfs devname (inr ()));
        match result with
        | inl _ => mret ()
        | inr e =>
            s ← get;
            root ← deref (ef_root (world s).2);
            _ ← on_emufs (VOP_DECREF (root, true));
            _ ← on_emufs (modify (set_root None));
            fail e
        end
    end.

(** [buffer] is what [bus_map_area] maps, [name] the array on the stack. *)
Definition config_emu (emuno : Z) (buffer name : list Z) : M kernel unit :=
  lock_ok ← on_emufs emu_malloc;
  if negb (lock_ok : bool) then fail ENOMEM
  else
    _ ← on_emufs (on_emu (modify (set_e_lock false)));
    sem_ok ← on_emufs emu_malloc;
    if negb (sem_ok : bool) then fail ENOMEM
    else
      _ ← on_emufs (on_emu (modify (set_e_sem 0)));
      _ ← on_emufs (on_emu (modify (set_iobuf buffer)));
      r ← on_local (snprintf (zlen name) (literal "emu%d") [arg_word emuno]) name;
      emufs_addtovfs r.2.
End attach.

Section spec.
Context {HW W1 V1 F1 Dv : Type} `{EmuHardwareLaws HW} `{VnodeLaws W1 V1 F1 Dv}.
Abbreviation emufs := (emufs_fs HW).
Abbreviation kernel := (vfs (W1 * emufs) (V1 + Z * bool) (F1 + unit) Dv).
Abbreviation state := (abs (V := V1 + Z * bool) (F := F1 + unit) (Dv := Dv)).
Implicit Types (s : kernel) (a : state) (w : emufs).

(** The file system takes over the reference to its root, and gives it back. *)
Lemma emu_adopt w O Hs l :
  emu_state None false w {[+ (l, true) +]} O Hs → O = ∅ → emu_state (Some l) false (set_root (Some l) w) ∅ ∅ Hs.
Proof.
  intros [Hemu Htab Hev Hhs Hrefs Hop Hroot] ->. split; simpl; try done.
  - intros l1 ev1 Hl1. destruct (Hev l1 ev1 Hl1) as [Hok ? ? HR HO]. split; try done. pose proof (vok_ref _ Hok).
    rewrite multiplicity_empty. unfold root_ref in *. rewrite multiplicity_singleton in HR.
    destruct (decide (Some l = Some l1)) as [Hd|Hd]; [|simpl; lia]. injection Hd as <-.
    destruct (Hrefs (l, true)) as (ev & Hl & Hdir); [multiset_solver|]. simpl in *. simplify_eq.
    rewrite Hdir, decide_True in HR by done. simpl in *. lia.
  - intros v Hv. exfalso. multiset_solver.
  - intros l1 [= <-]. destruct (Hrefs (l, true)) as (ev & Hl & Hdir); [multiset_solver|]. by exists ev.
Qed.

Lemma emu_disown w Hs l :
  emu_state (Some l) false w ∅ ∅ Hs → emu_state None false w {[+ (l, true) +]} ∅ Hs.
Proof.
  intros [Hemu Htab Hev Hhs Hrefs Hop Hroot]. destruct (Hroot l eq_refl) as (ev & Hr & Hl & Hd). split; try done.
  - intros l1 ev1 Hl1. destruct (Hev l1 ev1 Hl1) as [? ? ? HR HO]. split; try done.
    unfold root_ref in *. rewrite multiplicity_singleton. rewrite multiplicity_empty in HR. simpl in *.
    repeat case_decide; simplify_eq; lia.
  - intros v Hv. apply gmultiset_elem_of_singleton in Hv as ->. by exists ev.
  - intros v Hv. exfalso. multiset_solver.
Qed.

Definition set_emufs w s : kernel := set_world ((world s).1, w) s.

Lemma on_emufs_spec {A} (m : M emufs A) s Q :
  wp m (λ r w, Q r (set_emufs w s)) (world s).2 → wp (on_emufs m) Q s.
Proof.
  intros Hm. unfold on_emufs, on_world. wp_step. unfold set_emufs in Hm. destruct (world s) as [w1 w2]. by wp_step.
Qed.

(** The state with the volume of the emulator, before it is in the table. *)
Definition with_emu a : state :=
  Build_abs (a_devs a) (<[inr () := None]> (a_vols a)) (a_cwd a) (a_boot a) (a_refs a) (a_opens a) (Some (inr ())).

(** Without the volume nothing refers to its vnodes. *)
Definition no_emu a : Prop := (∀ v, inr v ∉ held a ⊎ a_refs a) ∧ (∀ v, inr v ∉ a_opens a).

Lemma blank lk s a :
  vfs_repr lk s a → a_vols a !! inr () = None → no_emu a ∧ ∀ w, vfs_repr lk (set_emufs w s) a.
Proof.
  intros Hr Hno. destruct (vr_world _ _ _ Hr) as (T1 & T2 & R1 & R2 & O1 & O2 & HT & HR & HO & Hi1 & Hi2).
  assert (T2 = ∅ ∧ R2 = ∅ ∧ O2 = ∅) as (-> & -> & ->).
  { destruct Hi2 as [?|(rt & Hs & -> & _)]; [done|]. pose proof (vols_r _ _ _ HT ()) as Heq.
    rewrite Hno, lookup_singleton_eq in Heq. done. }
  split; [split; intros v Hv|].
  - rewrite (split_in_r _ _ _ _ HR) in Hv. multiset_solver.
  - rewrite (split_in_r _ _ _ _ HO) in Hv. multiset_solver.
  - intros w. destruct Hr. split; try done. exists T1, ∅, R1, ∅, O1, ∅. split_and!; [done..|]. by left.
Qed.

Lemma split_none (X : gmultiset (V1 + Z * bool)) L N : split X L N → (∀ v, inr v ∉ X) → N = ∅.
Proof.
  intros Hs Hno. apply gmultiset_eq. intros v. rewrite multiplicity_empty. apply not_elem_of_multiplicity.
  rewrite <- (split_in_r _ _ _ _ Hs). apply Hno.
Qed.

Lemma attached lk s a w l Hs :
  vfs_repr lk s a → a_vols a !! inr () = None → a_new a = None → emu_state (Some l) false w ∅ ∅ Hs →
  vfs_repr lk (set_emufs w s) (with_emu a).
Proof.
  intros Hr Hno Hnew Hst. destruct (blank lk s a Hr Hno) as [[HnR HnO] _].
  destruct (vr_world _ _ _ Hr) as (T1 & T2 & R1 & R2 & O1 & O2 & HT & HR & HO & Hi1 & Hi2).
  pose proof (split_none _ _ _ HR HnR) as ->. pose proof (split_none _ _ _ HO HnO) as ->.
  destruct Hr as [Htab Hdevs Hmnt Honce Hlk Hbl Hc Hb Hcd Ho _]. split; simpl; try done.
  - eapply Forall_impl; [exact Hdevs|]. intros kd [Hn Hra Hf Hd]. split; [done|done| |done]. intros f Hkf.
    rewrite lookup_insert_ne; [by apply Hf|]. intros <-. destruct (Hf _ Hkf). congruence.
  - intros f Hf. destruct (decide (f = inr ())) as [->|Hne]; [by left|]. rewrite lookup_insert_ne in Hf by done.
    destruct (Hmnt f Hf) as [?|?]; [congruence|by right].
  - exists T1, {[ () := None ]}, R1, ∅, O1, ∅. split_and!; [|done|done|done|right; by exists l, Hs].
    split; [|by intros []; rewrite lookup_insert_eq, lookup_singleton_eq].
    intros f. rewrite lookup_insert_ne by done. apply HT.
Qed.

Lemma detached lk s a :
  vfs_repr lk s (with_emu a) → no_emu a → a_vols a !! inr () = None →
  (∀ kd, kd ∈ a_devs a → kd_fs kd ≠ Some (inr ())) →
  (∃ l Hs, emu_state (Some l) false (world s).2 ∅ ∅ Hs) ∧ ∀ w, vfs_repr lk (set_emufs w s) a.
Proof.
  intros Hr [HnR HnO] Hno Hdevs0.
  destruct (vr_world _ _ _ Hr) as (T1 & T2 & R1 & R2 & O1 & O2 & HT & HR & HO & Hi1 & Hi2).
  pose proof (split_none _ _ _ HR HnR) as ->. pose proof (split_none _ _ _ HO HnO) as ->.
  pose proof (vols_r _ _ _ HT ()) as Heq. simpl in Heq. rewrite lookup_insert_eq in Heq. split.
  - destruct Hi2 as [(-> & _)|(rt & Hs & _ & Hst)]; [done|]. by exists rt, Hs.
  - intros w. destruct Hr as [Htab Hdevs Hmnt Honce Hlk Hbl Hc Hb Hcd Ho _]. simpl in *. split; try done.
    + apply Forall_forall. intros kd Hin. pose proof (proj1 (Forall_forall _ _) Hdevs kd Hin) as [Hn Hra Hf Hd].
      split; [done|done| |done]. intros f Hkf. pose proof (Hf f Hkf) as Hs. rewrite lookup_insert_ne in Hs; [done|].
      intros <-. by eapply Hdevs0.
    + intros f Hf. destruct (Hmnt f) as [[= <-]|?]; [|destruct Hf; congruence|by right].
      destruct (decide (f = inr ())) as [->|Hne]; [by rewrite lookup_insert_eq|by rewrite lookup_insert_ne].
    + exists T1, ∅, R1, ∅, O1, ∅. split_and!; [|done|done|done|by left]. split.
      * intros f. rewrite (vols_l _ _ _ HT). simpl. by rewrite lookup_insert_ne.
      * intros []. by rewrite Hno.
Qed.

(** The failure of [vfs_addfs] is undone. *)
Lemma addfs_failed s a e Q :
  vfs_repr false s (with_emu a) → no_emu a → a_vols a !! inr () = None → (∀ kd, kd ∈ a_devs a → kd_fs kd ≠ Some (inr ())) →
  (∀ s', vfs_repr false s' a → Q (Fail e) s') →
  wp (s ← get;
      root ← deref (ef_root (world s).2);
      _ ← on_emufs (VOP_DECREF (root, true));
      _ ← on_emufs (modify (set_root None));
      fail (A := unit) e) Q s.
Proof.
  intros Hr Hne Hno Hdevs HF. destruct (detached _ _ _ Hr Hne Hno Hdevs) as [(l & Hs & Hst) Hall].
  destruct (es_root _ _ _ _ _ _ Hst l eq_refl) as (ev & Hroot & _). wp_step. wp_step. wp_step. eapply wp_deref; [done|].
  wp_step. apply on_emufs_spec. eapply (emu_decref None _ ∅ ∅ Hs (l, true)); [|done|].
  - rewrite gmultiset_disj_union_left_id. by apply emu_disown.
  - intros w' Hs' Hst'. wp_step. apply on_emufs_spec. wp_step. wp_step. apply HF, Hall.
Qed.

(** The emulator file system before its root is loaded. *)
Lemma emu_fresh w Hs arr :
  emu_ok false (ef_emu w) Hs → ef_heap w = ∅ → array_repr arr [] → emu_state None false (set_evnodes arr w) ∅ ∅ Hs.
Proof.
  intros Hok Hh Ha. split; simpl; rewrite ?Hh; try done.
  - exists []. split; [done|]. split; [constructor|]. intros l. rewrite lookup_empty. split; [by intros ?%not_elem_of_nil|by intros []].
  - intros v Hv. multiset_solver.
Qed.

Lemma emu_malloc_any w (Q : result bool → emufs → Prop) :
  (∀ b l, Q (Ret b) (set_emallocs l w)) → wp emu_malloc Q w.
Proof.
  intros HQ. unfold emu_malloc. wp_step. wp_step. destruct (ef_mallocs w) as [|b bs] eqn:Hm; wp_step.
  - specialize (HQ true []). rewrite <- Hm in HQ. by destruct w.
  - wp_step. wp_step. apply HQ.
Qed.

(** A step of the emulator file system while it has no volume. *)
Lemma blank_malloc s (Q : result bool → kernel → Prop) :
  (∀ b w, ef_emu w = ef_emu (world s).2 → ef_heap w = ef_heap (world s).2 → Q (Ret b) (set_emufs w s)) →
  wp (on_emufs emu_malloc) Q s.
Proof. intros HQ. apply on_emufs_spec, emu_malloc_any. intros b l. by apply HQ. Qed.

Lemma emufs_addtovfs_spec s a Hs name n Q :
  vfs_repr false s a → a_vols a !! inr () = None → a_new a = None →
  emu_ok false (ef_emu (world s).2) Hs → ef_heap (world s).2 = ∅ → EMU_ROOTHANDLE ∈ Hs →
  good_string name n → Z.of_nat (length (a_devs a)) + 1 < 2 ^ 29 →
  (∀ kd s', vfs_repr false s' (with_dev kd (with_emu a)) → added_fs n (inr ()) kd →
     ¬ clash (a_vols (with_emu a)) [n] (a_devs a) → Q (Ret ()) s') →
  (∀ e s', vfs_repr false s' a → Q (Fail e) s') → (∀ s', Q (Halt Panic) s') →
  wp (emufs_addtovfs name) Q s.
Proof.
  intros Hr Hno Hnew Hok Hheap Hroot Hn Hnum HQ HF HP. destruct (blank _ _ _ Hr Hno) as [Hne Hall].
  assert (∀ kd, kd ∈ a_devs a → kd_fs kd ≠ Some (inr ())) as Hdevs.
  { intros kd Hin Hkf. destruct (ko_fs _ _ (proj1 (Forall_forall _ _) (vr_devs _ _ _ Hr) kd Hin) _ Hkf). congruence. }
  unfold emufs_addtovfs. wp_step. apply blank_malloc. intros [] w1 He1 Hh1; cbn [negb]; [|wp_step; by apply HF].
  wp_step. apply on_emufs_spec. wp_step. wp_step. apply blank_malloc. intros [] w2 He2 Hh2; simpl array_create; cbv iota.
  2:{ wp_step. exact (HF _ _ (Hall w2)). }
  simpl in He2, Hh2. wp_step. apply on_emufs_spec. wp_step. set (arr := Build_array 0 0 None).
  wp_step. apply on_emufs_spec. simpl.
  assert (emu_state None false (set_evnodes arr w2) ∅ ∅ Hs) as Hst.
  { pose proof (emu_fresh w2 Hs arr) as Hfr. rewrite He2, Hh2, He1, Hh1 in Hfr.
    exact (Hfr Hok Hheap (array_create_repr arr eq_refl)). }
  eapply emufs_loadvnode_spec; [exact Hst|done|done| |intros w3 e _ _; exact (HF _ _ (Hall w3))].
  intros w3 l ev Hst3 Hl Hd. rewrite Hd in Hst3 by (simpl; by rewrite Hh2, Hh1, Hheap).
  rewrite gmultiset_disj_union_left_id in Hst3. wp_step. apply on_emufs_spec. wp_step. simpl.
  pose proof (emu_adopt w3 ∅ Hs l Hst3 eq_refl) as Hst4. pose proof (attached _ _ _ _ l Hs Hr Hno Hnew Hst4) as Hr4.
  wp_step. wp_step. eapply (vfs_addfs_spec _ (with_emu a) name n (inr ()) None);
    [exact Hr4|done|done|done|simpl; by rewrite lookup_insert_eq|done| | | |by auto].
  - intros kd s5 Hr5 Hadd Hcl. wp_step. by eapply HQ.
  - intros s5 Hr5. apply (addfs_failed s5 a ENOMEM); auto.
  - intros s5 Hr5 _. apply (addfs_failed s5 a EEXIST); auto.
Qed.

(** The name of the device. *)
Definition emu_name (emuno : Z) : list Z := bytes "emu" ++ int_text emuno.

Lemma emu_name_short emuno : 0 ≤ emuno < 2 ^ 31 → zlen (emu_name emuno) ≤ 14.
Proof. intros He. pose proof (int_text_length emuno). unfold emu_name. rewrite zlen_app. change (zlen (bytes "emu")) with 3. lia. Qed.

Lemma emu_name_chars emuno : 0 ≤ emuno → Forall (λ c, is_u8 c ∧ c ≠ 0) (emu_name emuno).
Proof.
  intros He. unfold emu_name. apply Forall_app. split; [by apply (bool_decide_unpack _)|].
  unfold int_text. rewrite (proj2 (Z.ltb_ge emuno 0)) by lia. simpl.
  eapply Forall_impl; [apply (numeral_value (Z.abs emuno)); lia|]. intros c Hc. unfold is_digit, is_u8 in *. lia.
Qed.

Lemma snprintf_emu name emuno :
  0 ≤ emuno < 2 ^ 31 → zlen name = 32 →
  ∃ r name', snprintf (zlen name) (literal "emu%d") [arg_word emuno] name = (Ret r, name') ∧ good_string name' (emu_name emuno).
Proof.
  intros He Hn. pose proof (emu_name_short emuno He) as Hs.
  pose proof (snprintf_spec name (zlen name) (literal "emu%d") [arg_word emuno]) as Hsp. rewrite Hn in *.
  pose proof (vprintf_items [Format.plain (chr "e"); Format.plain (chr "m"); Format.plain (chr "u");
    Format.number no_flags (chr "d") emuno] []) as Hp. simpl in Hp.
  change (literal "emu%d") with [chr "e"; chr "m"; chr "u"; chr "%"; chr "d"; 0] in *. rewrite Hp in Hsp.
  2:{ repeat constructor; done. }
  unfold Format.in_field in Hsp. rewrite padded_0, !app_nil_r, (s32_small emuno) in Hsp by lia.
  fold (int_text emuno) in Hsp. eexists _, _. split; [apply Hsp; lia|]. unfold printed_into. simpl Z.eqb. cbv iota zeta.
  change (chr "e" :: chr "m" :: chr "u" :: int_text emuno) with (emu_name emuno).
  rewrite firstn_all2 by (unfold zlen in Hs; lia). pose proof (emu_name_chars emuno ltac:(lia)) as Hc. split_and!.
  - apply cstr_app. eapply Forall_impl; [exact Hc|]. by intros c [].
  - eapply Forall_impl; [exact Hc|]. by intros c [].
  - lia.
Qed.

Lemma config_emu_spec s a Hs emuno buffer name Q :
  vfs_repr false s a → a_vols a !! inr () = None → a_new a = None →
  hw_ok (e_hw (ef_emu (world s).2)) Hs → ef_heap (world s).2 = ∅ → EMU_ROOTHANDLE ∈ Hs →
  zlen buffer = EMU_MAXIO → zlen name = 32 → 0 ≤ emuno < 2 ^ 31 → Z.of_nat (length (a_devs a)) + 1 < 2 ^ 29 →
  (∀ kd s', vfs_repr false s' (with_dev kd (with_emu a)) → added_fs (emu_name emuno) (inr ()) kd →
     ¬ clash (a_vols (with_emu a)) [emu_name emuno] (a_devs a) → Q (Ret ()) s') →
  (∀ e s', vfs_repr false s' a → Q (Fail e) s') → (∀ s', Q (Halt Panic) s') →
  wp (config_emu emuno buffer name) Q s.
Proof.
  intros Hr Hno Hnew Hhw Hheap Hroot Hbuf Hname Hem Hnum HQ HF HP. destruct (blank _ _ _ Hr Hno) as [_ Hall].
  unfold config_emu. wp_step. apply blank_malloc. intros [] w1 He1 Hh1; cbn [negb]; [|wp_step; exact (HF _ _ (Hall w1))].
  wp_step. apply on_emufs_spec. unfold on_emu at 1. wp_step. wp_step. wp_step. apply blank_malloc. intros [] w2 He2 Hh2; cbn [negb].
  2:{ wp_step. exact (HF _ _ (Hall w2)). }
  simpl in He2, Hh2. wp_step. apply on_emufs_spec. unfold on_emu at 1. wp_step. wp_step.
  wp_step. apply on_emufs_spec. unfold on_emu at 1. wp_step. wp_step.
  destruct (snprintf_emu name emuno Hem Hname) as (r & name' & Hsn & Hg).
  wp_step. eapply wp_eq; [unfold on_local; by rewrite Hsn|]. cbn [snd]. cbv iota.
  eapply (emufs_addtovfs_spec _ a Hs name' (emu_name emuno)); [exact (Hall _)|done|done| | |done|done|done|done|done|done].
  - simpl. split; simpl; [done| |done|by rewrite He2, He1]. by rewrite He2.
  - simpl. by rewrite Hh2, Hh1.
Qed.

(** attaching the emulator: whatever allocations fail, [config_emu] either
    enters the file system, or leaves the virtual file system as it was, or
    panics where a vnode's lock cannot be made.  When it enters the file system,
    the layer is well-formed with the volume in its table, the name [emu<n>]
    leads to the root of the volume, and every other name leads where it led
    before. *)
Theorem config_emu_correct s a Hs emuno buffer name :
  vfs_repr false s a → a_vols a !! inr () = None → a_new a = None →
  hw_ok (e_hw (ef_emu (world s).2)) Hs → ef_heap (world s).2 = ∅ → EMU_ROOTHANDLE ∈ Hs →
  zlen buffer = EMU_MAXIO → zlen name = 32 → 0 ≤ emuno < 2 ^ 31 → Z.of_nat (length (a_devs a)) + 1 < 2 ^ 29 →
  match config_emu emuno buffer name s with
  | (Ret _, s') => ∃ kd, vfs_repr false s' (with_dev kd (with_emu a)) ∧
      let T := a_vols (with_emu a) in let devs := a_devs (with_dev kd (with_emu a)) in
      resolve T (emu_name emuno) devs = Root (inr ()) ∧
      ∀ n, n ≠ emu_name emuno → resolve T n devs = resolve T n (a_devs a)
  | (Fail _, s') => vfs_repr false s' a
  | (Halt k, _) => k = Panic
  end.
Proof.
  intros. apply (wp_elim (config_emu emuno buffer name)). eapply config_emu_spec; try done.
  intros kd s' Hr (Hn & Hraw & Hdev & Hfs) Hcl. exists kd. split; [done|]. cbv zeta. cbn [a_devs with_dev with_emu].
  set (T := a_vols (with_emu a)) in *. split.
  - rewrite resolve_app.
    + simpl. unfold resolve_dev. rewrite Hfs, decide_True by auto. done.
    + apply Forall_forall. intros kd' Hin Hx. apply Hcl. exists kd', (emu_name emuno). split_and!; [done|done|by left].
  - intros n Hne. apply resolve_app_l. repeat constructor. unfold dev_names. rewrite Hraw, Hfs. simpl.
    unfold T, vol_name. simpl. rewrite lookup_insert_eq. simpl. rewrite list_elem_of_singleton. congruence.
Qed.
End spec.
