(* ===== verification/EmuCard.v ===== *)
(** * An emulator card in memory

    An instance of the hardware of Emu.v: a host directory with files, and the
    handles that are open.  It keeps the laws the driver relies on, which can
    therefore hold, and it lets the whole path from [vfs_open] to the card be
    run. *)

From Stdlib Require Import Ascii.
From stdpp Require Import gmultiset.
From S2P Require Import Prelude Libc Printf Array CopyInOut Uio Vnode SfsVnode Vfs VfsSpec VfsTable VfsSum VfsDev Emu EmuSpec EmuVfs.

(** The files by name, and the name behind each handle; the directory itself has
    no name. *)
Record card := { c_files : gmap (list Z) (list Z); c_open : gmap Z (list Z) }.

Definition card_file (c : card) (h : Z) : list Z := default [] (n ← c_open c !! h; c_files c !! n).

Definition set_file (n f : list Z) (c : card) : card := {| c_files := <[n := f]> (c_files c); c_open := c_open c |}.

(** The first handle that is free. *)
Definition free_handle (c : card) : option Z := snd <$> list_find (λ h, c_open c !! h = None) (seqZ 1 64).

Definition card_open (c : card) (op : emu_op) (r : emu_regs) (buf : list Z) : emu_res * emu_regs * card :=
  let n := take (Z.to_nat (r_iolen r)) buf in
  match free_handle c with
  | None => (EMU_RES_NOHANDLES, r, c)
  | Some h =>
      let opened c' := (EMU_RES_SUCCESS, {| r_handle := h; r_offset := r_offset r; r_iolen := 0 |},
        {| c_files := c_files c'; c_open := <[h := n]> (c_open c') |}) in
      match op, c_files c !! n with
      | EMU_OP_OPEN, None => (EMU_RES_BADPATH, r, c)
      | EMU_OP_EXCLCREATE, Some _ => (EMU_RES_EXISTS, r, c)
      | _, Some _ => opened c
      | _, None => opened (set_file n [] c)
      end
  end.

Definition card_run (c : card) (op : emu_op) (r : emu_regs) (buf : list Z) : ((emu_res * emu_regs) * list Z) * card :=
  match c_open c !! r_handle r with
  | None => (((EMU_RES_BADHANDLE, r), buf), c)
  | Some n =>
      let f := card_file c (r_handle r) in
      let o := Z.to_nat (r_offset r) in
      match op with
      | EMU_OP_OPEN | EMU_OP_CREATE | EMU_OP_EXCLCREATE => let '(res, r', c') := card_open c op r buf in (((res, r'), buf), c')
      | EMU_OP_CLOSE => (((EMU_RES_SUCCESS, r), buf), {| c_files := c_files c; c_open := delete (r_handle r) (c_open c) |})
      | EMU_OP_READ =>
          let k := Z.max 0 (Z.min (r_iolen r) (zlen f - Z.of_nat o)) in
          (((EMU_RES_SUCCESS, {| r_handle := r_handle r; r_offset := r_offset r + k; r_iolen := k |}),
            take (Z.to_nat k) (drop o f) ++ drop (Z.to_nat k) buf), c)
      | EMU_OP_READDIR => (((EMU_RES_SUCCESS, {| r_handle := r_handle r; r_offset := r_offset r; r_iolen := 0 |}), buf), c)
      | EMU_OP_WRITE =>
          (((EMU_RES_SUCCESS, r), buf),
           set_file n (take o (f ++ replicate (o - length f) 0) ++ take (Z.to_nat (r_iolen r)) buf ++ drop (o + Z.to_nat (r_iolen r)) f) c)
      | EMU_OP_GETSIZE => (((EMU_RES_SUCCESS, {| r_handle := r_handle r; r_offset := r_offset r; r_iolen := zlen f |}), buf), c)
      | EMU_OP_TRUNC => (((EMU_RES_SUCCESS, r), buf), set_file n (take (Z.to_nat (r_iolen r)) f) c)
      end
  end.

#[global] Instance card_hardware : EmuHardware card := { emu_run := card_run }.

Definition card_ok (c : card) (H : gset Z) : Prop := dom (c_open c) = H ∧ ∀ h, h ∈ H → 0 ≤ h < 65.

Lemma card_handle c H h : card_ok c H → h ∈ H → 0 ≤ h < 65 ∧ is_Some (c_open c !! h).
Proof.
  intros [<- Hsub] Hh. split; [by apply Hsub|by apply elem_of_dom].
Qed.

Lemma free_handle_spec c h : free_handle c = Some h → 1 ≤ h < 65 ∧ c_open c !! h = None.
Proof.
  unfold free_handle. destruct (list_find _ _) as [[i x]|] eqn:Hf; [|done]. intros [= <-].
  apply list_find_Some in Hf as (Hi & Hx & _). apply lookup_seqZ in Hi. split; [lia|done].
Qed.

(** Opening adds one handle. *)
Lemma card_open_spec c H op r buf :
  card_ok c H → r_handle r ∈ H → op ∈ [EMU_OP_OPEN; EMU_OP_CREATE; EMU_OP_EXCLCREATE] →
  let '(res, r', c') := card_open c op r buf in
  nonfatal res ∧ is_u32 (r_handle r') ∧ card_ok c' (next_handles op res r r' H).
Proof.
  intros Hok Hh Hop. destruct (card_handle _ _ _ Hok Hh) as [Hr _]. unfold card_open.
  assert (is_u32 (r_handle r)) as Hu by (unfold is_u32; lia).
  assert (∀ res, nonfatal res → res ≠ EMU_RES_SUCCESS → nonfatal res ∧ is_u32 (r_handle r) ∧ card_ok c (next_handles op res r r H)) as Hfail.
  { intros res Hn Hns. split_and!; [done|done|]. unfold next_handles. destruct op, res; try done. }
  destruct (free_handle c) as [h|] eqn:Hf; [|by apply Hfail]. apply free_handle_spec in Hf as [Hb Hno].
  assert (∀ files n, card_ok {| c_files := files; c_open := <[h := n]> (c_open c) |} ({[ h ]} ∪ H)) as Hadd.
  { intros files n. destruct Hok as [Hd Hsub]. split; simpl; [rewrite dom_insert_L, Hd; done|].
    intros x [->%elem_of_singleton|Hx]%elem_of_union; [lia|by apply Hsub]. }
  assert (is_u32 h) by (unfold is_u32; lia).
  rewrite !elem_of_cons, elem_of_nil in Hop. destruct Hop as [->|[->|[->|[]]]];
    destruct (c_files c !! _); simpl; try (by apply Hfail); split_and!; try done; apply Hadd.
Qed.

Lemma card_size (H : gset Z) : (∀ h, h ∈ H → 0 ≤ h < 65) → Z.of_nat (size H) < 2 ^ 28.
Proof.
  intros Hb. apply Z.le_lt_trans with 65; [|done]. change 65 with (Z.of_nat 65). apply inj_le.
  transitivity (size (list_to_set (C := gset Z) (seqZ 0 65))); [|by vm_compute]. apply subseteq_size.
  intros h Hh%Hb. apply elem_of_list_to_set, elem_of_seqZ. lia.
Qed.

Lemma card_step c H op r buf :
  card_ok c H → r_handle r ∈ H → size_ok op r → zlen buf = EMU_MAXIO →
  ∃ res r' buf' c', card_run c op r buf = (((res, r'), buf'), c') ∧ nonfatal res ∧ zlen buf' = EMU_MAXIO ∧
    is_u32 (r_handle r') ∧ card_ok c' (next_handles op res r r' H) ∧
    (res = EMU_RES_SUCCESS → op = EMU_OP_READ ∨ op = EMU_OP_READDIR → 0 ≤ r_iolen r' ≤ r_iolen r).
Proof.
  intros Hok Hh Hsz Hbuf. destruct (card_handle _ _ _ Hok Hh) as [Hr [n Hn]].
  assert (is_u32 (r_handle r)) as Hu by (unfold is_u32; lia). unfold card_run. rewrite Hn.
  assert (∀ op, op ∈ [EMU_OP_OPEN; EMU_OP_CREATE; EMU_OP_EXCLCREATE] →
    ∃ res r' buf' c', (let '(res, r', c') := card_open c op r buf in (((res, r'), buf), c')) = (((res, r'), buf'), c') ∧
      nonfatal res ∧ zlen buf' = EMU_MAXIO ∧ is_u32 (r_handle r') ∧ card_ok c' (next_handles op res r r' H)) as Hopen.
  { intros op' Hop. pose proof (card_open_spec c H op' r buf Hok Hh Hop) as Hs.
    destruct (card_open c op' r buf) as [[res r'] c']. destruct Hs as (? & ? & ?). by exists res, r', buf, c'. }
  destruct op; cbv zeta.
  - destruct (Hopen EMU_OP_OPEN) as (res & r' & buf' & c' & Heq & ? & ? & ? & ?); [by left|].
    exists res, r', buf', c'. split_and!; try done. by intros _ [].
  - destruct (Hopen EMU_OP_CREATE) as (res & r' & buf' & c' & Heq & ? & ? & ? & ?); [by right; left|].
    exists res, r', buf', c'. split_and!; try done. by intros _ [].
  - destruct (Hopen EMU_OP_EXCLCREATE) as (res & r' & buf' & c' & Heq & ? & ? & ? & ?); [by right; right; left|].
    exists res, r', buf', c'. split_and!; try done. by intros _ [].
  - eexists _, _, _, _. split_and!; [done|done|done|done| |by intros _ []]. destruct Hok as [Hd Hb]. split; simpl.
    + by rewrite dom_delete_L, Hd.
    + intros h [? _]%elem_of_difference. auto.
  - eexists _, _, _, _. simpl in Hsz. split_and!; [done|done| |done|done|intros _ _; simpl; lia].
    rewrite zlen_app. unfold zlen in *. rewrite length_take, !length_drop. unfold EMU_MAXIO in *. lia.
  - eexists _, _, _, _. simpl in Hsz. split_and!; [done|done|done|done|done|intros _ _; simpl; lia].
  - eexists _, _, _, _. split_and!; [done|done|done|done|done|by intros _ []].
  - eexists _, _, _, _. split_and!; [done|done|done|done|done|by intros _ []].
  - eexists _, _, _, _. split_and!; [done|done|done|done|done|by intros _ []].
Qed.

Lemma card_file_open c h n : c_open c !! h = Some n → card_file c h = default [] (c_files c !! n).
Proof. intros Hn. unfold card_file. by rewrite Hn. Qed.

#[global] Program Instance card_laws : EmuHardwareLaws card := { hw_ok := card_ok; hw_file := card_file; hw_step := card_step }.
Next Obligation. intros hw H [_ Hb]. by apply card_size. Qed.
Next Obligation.
  intros c H r buf r' buf' c' Hok Hh Ho. destruct (card_handle _ _ _ Hok Hh) as [Hr [n Hn]].
  simpl. unfold card_run. rewrite Hn. cbv zeta. intros [= <- <- <-]. simpl. set (f := card_file c (r_handle r)).
  split_and!; [done|done| |lia|lia]. rewrite take_app_le; [by rewrite take_take, Nat.min_id|].
  unfold zlen. rewrite length_take, length_drop. lia.
Qed.
Next Obligation.
  intros c H r buf r' buf' c' Hok Hh Ho Hl. destruct (card_handle _ _ _ Hok Hh) as [Hr [n Hn]].
  simpl. unfold card_run. rewrite Hn. cbv zeta. intros [= <- <- <-]. rewrite (card_file_open (set_file _ _ c) _ n) by done.
  simpl. by rewrite lookup_insert_eq.
Qed.

(** ** Witnesses *)

Definition demo_buffer : list Z := replicate (Z.to_nat EMU_MAXIO) 0.
Definition demo_vnode (ops : vnode_ops) : vnode :=
  {| vn_refcount := 1; vn_opencount := 0; vn_countlock := true; vn_ops := Some ops |}.

(** The root, and a file of five bytes with one reference. *)
Definition demo_fs : emufs_fs card :=
  Build_emufs_fs
    (Build_emu_softc {| c_files := {[ bytes "a" := [1; 2; 3; 4; 5] ]}; c_open := {[ 0 := []; 1 := bytes "a" ]} |}
       {| r_handle := 0; r_offset := 0; r_iolen := 0 |} None false 0 demo_buffer None)
    (Some 10) (Build_array 2 2 (Some [Some 10; Some 11]))
    {[ 10 := {| ev_v := demo_vnode emufs_dirops; ev_handle := 0 |}; 11 := {| ev_v := demo_vnode emufs_fileops; ev_handle := 1 |} ]} [].

Lemma demo_state : emu_state (Some 10) false demo_fs {[+ (11, false) +]} ∅ {[ 0; 1 ]}.
Proof.
  assert (∀ l ev, ef_heap demo_fs !! l = Some ev → (l = 10 ∧ ev = {| ev_v := demo_vnode emufs_dirops; ev_handle := 0 |}) ∨
    (l = 11 ∧ ev = {| ev_v := demo_vnode emufs_fileops; ev_handle := 1 |})) as Hheap.
  { intros l ev. unfold demo_fs. simpl. intros [[<- <-]|[_ [<- <-]%lookup_singleton_Some]]%lookup_insert_Some; auto. }
  split.
  - split; [done|done|by vm_compute|]. split; [by vm_compute|]. intros h. rewrite elem_of_union, !elem_of_singleton. lia.
  - exists [10; 11]. split.
    + split; [split; simpl; [done|done|done]|done|].
      intros i x Hi. exists [Some 10; Some 11]. split; [done|]. destruct i as [|[|i]]; simplify_eq/=; done.
    + split; [by apply (bool_decide_unpack _)|]. intros l. rewrite !elem_of_cons, elem_of_nil. split.
      * intros [->|[->|[]]]; by eexists.
      * intros [ev [[-> _]|[-> _]]%Hheap]; auto.
  - intros l ev [[-> ->]|[-> ->]]%Hheap; split; simpl; try done; auto.
    all: try (split; simpl; [lia|lia|done|by eexists]). all: try (by vm_compute). all: split; [set_solver|done].
  - intros l1 l2 e1 e2 [[-> ->]|[-> ->]]%Hheap [[-> ->]|[-> ->]]%Hheap; done.
  - intros v ->%gmultiset_elem_of_singleton. by eexists.
  - intros v Hv. exfalso. multiset_solver.
  - intros l [= <-]. by eexists.
Qed.

Definition demo_uio (rw : uio_rw) : uiost :=
  {| u := {| iov_base := 4096; iov_len := 3; uio_offset := 1; uio_resid := 3;
             uio_segflg := UIO_USERSPACE; uio_dir := rw; uio_space := Some 1 |};
     mem := example_memory; t_vmspace := Some 1 |}.

Lemma demo_uio_ok rw : uio_ok (demo_uio rw).
Proof. split; done. Qed.

Lemma emufs_read_correct_witness :
  match emufs_read 11 (demo_fs, demo_uio UIO_READ) with
  | (Ret _, (w', us')) => moved_in (demo_uio UIO_READ) [2; 3; 4] us'
  | _ => False
  end.
Proof.
  pose proof (emufs_read_correct (Some 10) demo_fs _ _ _ 11 (demo_uio UIO_READ) _ demo_state eq_refl (demo_uio_ok _) eq_refl) as Hr.
  assert ((emufs_read 11 (demo_fs, demo_uio UIO_READ)).1 = Ret ()) as Hret by (vm_compute; reflexivity).
  destruct (emufs_read 11 _) as [[]  [w' us']]; [|discriminate Hret..]. apply Hr; by vm_compute.
Defined.

Lemma emufs_write_correct_witness :
  match emufs_write 11 (demo_fs, demo_uio UIO_WRITE) with
  | (Ret _, (w', us')) => ∃ bs, zlen bs = 3 ∧ moved_out (demo_uio UIO_WRITE) bs us' ∧
      card_file (e_hw (ef_emu w')) 1 = put_at [1; 2; 3; 4; 5] 1 bs
  | _ => False
  end.
Proof.
  pose proof (emufs_write_correct (Some 10) demo_fs _ _ _ 11 (demo_uio UIO_WRITE) _ demo_state eq_refl (demo_uio_ok _) eq_refl) as Hw.
  assert ((emufs_write 11 (demo_fs, demo_uio UIO_WRITE)).1 = Ret ()) as Hret by (vm_compute; reflexivity).
  destruct (emufs_write 11 _) as [[]  [w' us']]; [|discriminate Hret..].
  destruct Hw as (_ & bs & Hz & Hm & Hf); [by vm_compute..|]. exists bs. split_and!; [done|done|].
  rewrite decide_False in Hf by (intros ->; discriminate Hz). exact Hf.
Defined.

(** A kernel with no devices and an emulator that is not attached. *)
Definition demo_kernel : vfs (devstate builtin unit * emufs_fs card) (Z + Z * bool) (Empty_set + unit) builtin :=
  Build_vfs
    (Build_devstate ∅ () [],
     Build_emufs_fs
       (Build_emu_softc {| c_files := ∅; c_open := {[ 0 := [] ]} |} {| r_handle := 0; r_offset := 0; r_iolen := 0 |}
          None false 0 [] None)
       None (Build_array 0 0 None) ∅ [])
    (Build_array 0 0 None) ∅ false None false None [].

Lemma demo_repr : vfs_repr false demo_kernel (Build_abs [] ∅ None None ∅ ∅ None).
Proof.
  split; simpl; try done; [|by intros f [? Hf]|].
  - exists []. split_and!; [by apply array_create_repr|constructor|done|]. intros i p Hi. by rewrite lookup_nil in Hi.
  - exists ∅, ∅, ∅, ∅, ∅, ∅. split_and!; [done|by split|by split| |by left]. split; [done|..]; intros v Hv; exfalso; multiset_solver.
Qed.

Lemma config_emu_correct_witness :
  ∃ (kd : knowndev (Z + Z * bool) (Empty_set + unit) builtin) s', config_emu 0 demo_buffer (replicate 32 0) demo_kernel = (Ret (), s') ∧
    resolve ({[inr () := None]}) (bytes "emu0") [kd] = Root (inr ()).
Proof.
  pose proof (config_emu_correct demo_kernel _ {[ 0 ]} 0 demo_buffer (replicate 32 0) demo_repr eq_refl eq_refl) as Hc.
  assert ((config_emu 0 demo_buffer (replicate 32 0) demo_kernel).1 = Ret ()) as Hret by (vm_compute; reflexivity).
  destruct (config_emu 0 _ _ _) as [[[]|e|k] s']; [|discriminate Hret..]. destruct Hc as (kd & _ & Hres & _).
  - split; [by vm_compute|]. intros h ->%elem_of_singleton. lia.
  - done.
  - by apply elem_of_singleton.
  - by vm_compute.
  - done.
  - lia.
  - done.
  - exists kd, s'. split; [done|]. exact Hres.
Defined.
