(* ===== verification/Mksfs.v ===== *)
(** * Making a volume (sbin/mksfs/mksfs.c, sbin/mksfs/disk.c)

    The program [mksfs] writes an empty volume to a disk.  It runs on OS/161,
    where the disk is a raw device, and on the host, where the disk is the file
    of the simulator, with a block of header in front; [HOST] says which one is
    compiled.  [SWAPL] and [SWAPS] bring the words into the byte order of the
    disk in both cases, which is what [encode_super] and [encode_inode] give.

    The state is the file with its position and the static variables; the calls
    of the operating system are arguments, as documented: [write] stores at most
    as many bytes as it is asked to and returns how many, or fails.

    The theorem at the end says that the result can be mounted: [sfs_domount]
    finds an empty volume of the given name on it, in the invariant on which the
    theorems about the file system rest. *)

From S2P Require Import Prelude Libc Bitmap Array CopyInOut Uio Device Lhd SfsDisk Vnode Sfs SfsMap SfsFile.
From S2P Require Import SfsSpec SfsTrunc SfsDir SfsVnode SfsVol SfsNames SfsOps SfsFs.

Definition MAXBITBLOCKS : Z := 32.
Definition BLOCKSIZE : Z := 512.
(** System/161 Disk Image *)
Definition HOSTSTRING : list Z :=
  [83; 121; 115; 116; 101; 109; 47; 49; 54; 49; 32; 68; 105; 115; 107; 32; 73; 109; 97; 103; 101; 0].

(** What a call of [write] comes to: EINTR or EAGAIN, another error, or the
    number of bytes written if that many were asked for. *)
Inductive write_result := WAgain | WError | WLen (len : Z).

Record mkstate := {
  mk_open : bool;                (* fd >= 0 *)
  mk_file : list Z;              (* the file fd is open for *)
  mk_pos : Z;                    (* its position *)
  mk_writes : list write_result; (* of the calls to come *)
  mk_nblocks : Z;
  mk_bitbuf : list Z;
}.

Definition set_mk_open (b : bool) (s : mkstate) : mkstate :=
  {| mk_open := b; mk_file := mk_file s; mk_pos := mk_pos s; mk_writes := mk_writes s;
     mk_nblocks := mk_nblocks s; mk_bitbuf := mk_bitbuf s |}.
Definition set_mk_file (file : list Z) (pos : Z) (s : mkstate) : mkstate :=
  {| mk_open := mk_open s; mk_file := file; mk_pos := pos; mk_writes := mk_writes s;
     mk_nblocks := mk_nblocks s; mk_bitbuf := mk_bitbuf s |}.
Definition set_mk_writes (ws : list write_result) (s : mkstate) : mkstate :=
  {| mk_open := mk_open s; mk_file := mk_file s; mk_pos := mk_pos s; mk_writes := ws;
     mk_nblocks := mk_nblocks s; mk_bitbuf := mk_bitbuf s |}.
Definition set_mk_nblocks (n : Z) (s : mkstate) : mkstate :=
  {| mk_open := mk_open s; mk_file := mk_file s; mk_pos := mk_pos s; mk_writes := mk_writes s;
     mk_nblocks := n; mk_bitbuf := mk_bitbuf s |}.
Definition set_mk_bitbuf (buf : list Z) (s : mkstate) : mkstate :=
  {| mk_open := mk_open s; mk_file := mk_file s; mk_pos := mk_pos s; mk_writes := mk_writes s;
     mk_nblocks := mk_nblocks s; mk_bitbuf := buf |}.

(** ** disk.c *)

(** The outcomes of [open], [fstat], [read] and [close]. *)
Record mkcalls := { c_open : bool; c_fstat : bool; c_read : option Z; c_close : bool }.

Section disk.
Context (HOST : bool).

(** The check of the header: [len] is what [read] returns. *)
Definition check_header (file : list Z) (len : option Z) : M mkstate unit :=
  match len with
  | None => undef (* buf[-1] = 0 *)
  | Some len =>
      let buf := <[21%nat := 0]> (take (Z.to_nat (Z.min len 63)) file ++ [0]) in
      r ← deref (strcmp buf HOSTSTRING);
      if negb (r =? 0) then exit 1 else mret ()
  end.

Definition opendisk (c : mkcalls) : M mkstate unit :=
  s ← get;
  _ ← assert (negb (mk_open s));
  if negb (c_open c) then exit 1 else
  _ ← modify (set_mk_open true);
  if negb (c_fstat c) then exit 1 else
  let nblocks := u32 (zlen (mk_file s) / BLOCKSIZE) in
  if HOST then
    _ ← modify (set_mk_nblocks (u32 (nblocks - 1)));
    check_header (mk_file s) (c_read c)
  else modify (set_mk_nblocks nblocks).

Definition diskblocksize : M mkstate Z :=
  s ← get; _ ← assert (mk_open s); mret BLOCKSIZE.

Definition diskblocks : M mkstate Z :=
  s ← get; _ ← assert (mk_open s); mret (mk_nblocks s).

(** [write] at the position of the file; a gap before it is filled with 0. *)
Definition file_store (file : list Z) (pos : Z) (bs : list Z) : list Z :=
  take (Z.to_nat pos) file ++ replicate (Z.to_nat (pos - zlen file)) 0 ++ bs ++
  drop (Z.to_nat (pos + zlen bs)) file.

Definition file_write (bs : list Z) (s : mkstate) : mkstate :=
  set_mk_file (file_store (mk_file s) (mk_pos s) bs) (mk_pos s + zlen bs) s.

(** The loop of [diskwrite]; [ws] are the outcomes of the calls, and a call
    past them writes all it is asked to. *)
Fixpoint diskwrite_loop (ws : list write_result) (cdata : list Z) (tot : Z) : M mkstate unit :=
  if tot <? BLOCKSIZE then
    match ws with
    | [] => modify (λ s, file_write (drop (Z.to_nat tot) cdata) s)
    | w :: ws' =>
        _ ← modify (set_mk_writes ws');
        match w with
        | WAgain => diskwrite_loop ws' cdata tot
        | WError => exit 1
        | WLen n =>
            let len := Z.min n (BLOCKSIZE - tot) in
            if len <=? 0 then exit 1
            else
              _ ← modify (file_write (take (Z.to_nat len) (drop (Z.to_nat tot) cdata)));
              diskwrite_loop ws' cdata (tot + len)
        end
    end
  else mret ().

(** The offset of [lseek] is an unsigned product; [off_t] has 32 bits on
    OS/161. *)
Definition diskwrite (data : list Z) (block : Z) : M mkstate unit :=
  s ← get;
  _ ← assert (mk_open s);
  let block := if HOST then u32 (block + 1) else block in
  let pos := u32 (block * BLOCKSIZE) in
  if negb HOST && (s32 pos <? 0) then exit 1 else
  _ ← modify (set_mk_file (mk_file s) pos);
  diskwrite_loop (mk_writes s) data 0.

Definition closedisk (c : mkcalls) : M mkstate unit :=
  s ← get;
  _ ← assert (mk_open s);
  if negb (c_close c) then exit 1 else modify (set_mk_open false).

(** ** mksfs.c *)

Definition zero_super : sfs_super :=
  {| sp_magic := 0; sp_nblocks := 0; sp_volname := replicate 32 0; sp_reserved := replicate 118 0 |}.
Definition zero_inode : sfs_inode :=
  {| sfi_size := 0; sfi_type := 0; sfi_linkcount := 0; sfi_direct := replicate 15 0;
     sfi_indirect := 0; sfi_waste := replicate 110 0 |}.

(** The sizes of the structs are the lengths of their encodings. *)
Definition check : M mkstate unit :=
  _ ← assert (zlen (encode_super zero_super) =? SFS_BLOCKSIZE);
  _ ← assert (zlen (encode_inode zero_inode) =? SFS_BLOCKSIZE);
  assert (SFS_BLOCKSIZE mod zlen (encode_dir {| sfd_ino := 0; sfd_name := replicate 60 0 |}) =? 0).

Definition writesuper (volname : list Z) (nblocks : Z) : M mkstate unit :=
  let sp := zero_super in
  len ← deref (strlen volname);
  if SFS_VOLNAME_SIZE <=? len then exit 1 else
  name ← deref (strcpy (sp_volname sp) volname);
  diskwrite
    (encode_super {| sp_magic := SFS_MAGIC; sp_nblocks := nblocks; sp_volname := name;
                     sp_reserved := sp_reserved sp |})
    SFS_SB_LOCATION.

Definition root_inode : sfs_inode :=
  {| sfi_size := 0; sfi_type := SFS_TYPE_DIR; sfi_linkcount := 1; sfi_direct := sfi_direct zero_inode;
     sfi_indirect := sfi_indirect zero_inode; sfi_waste := sfi_waste zero_inode |}.

Definition writerootdir : M mkstate unit := diskwrite (encode_inode root_inode) SFS_ROOT_LOCATION.

(** The bytes of [bitbuf] as unsigned values: only their bits matter. *)
Definition doallocbit (bit : Z) : M mkstate unit :=
  s ← get;
  let byte := bit / 8 in
  let mask := u8 (Z.shiftl 1 (bit mod 8)) in
  b ← deref (mk_bitbuf s !z byte);
  _ ← assert (Z.land b mask =? 0);
  buf ← deref (zstore (mk_bitbuf s) byte (u8 (Z.lor b mask)));
  put (set_mk_bitbuf buf s).

Definition writebitmap (fsblocks : Z) : M mkstate unit :=
  let nbits := SFS_BITMAPSIZE fsblocks in
  let nblocks := SFS_BITBLOCKS fsblocks in
  if nblocks >? MAXBITBLOCKS then exit 1 else
  _ ← doallocbit SFS_SB_LOCATION;
  _ ← doallocbit SFS_ROOT_LOCATION;
  _ ← forM (seqZ 0 nblocks) (λ i, doallocbit (SFS_MAP_LOCATION + i));
  _ ← forM (seqZ fsblocks (nbits - fsblocks)) (λ i, doallocbit i);
  forM (seqZ 0 nblocks) (λ i,
    s ← get;
    bs ← deref (map_load (mk_bitbuf s) i);
    diskwrite bs (SFS_MAP_LOCATION + i)).

(** [volname] is the string of [argv[2]]. *)
Definition mksfs_volname (volname : list Z) : M mkstate (list Z) :=
  s ← deref (strchr volname 58);
  volname ← match s with
            | None => mret volname
            | Some k =>
                len ← deref (strlen (drop k volname));
                if negb (len =? 1) then exit 1 else mret (<[k := 0]> volname)
            end;
  s ← deref (strchr volname 47);
  match s with
  | Some _ => exit 1
  | None => mret volname
  end.

Definition main (argc : Z) (volname : list Z) (c : mkcalls) : M mkstate unit :=
  if negb (argc =? 3) then exit 1 else
  _ ← check;
  volname ← mksfs_volname volname;
  _ ← opendisk c;
  blocksize ← diskblocksize;
  if negb (blocksize =? SFS_BLOCKSIZE) then exit 1 else
  size ← diskblocks;
  _ ← writesuper volname size;
  _ ← writerootdir;
  _ ← writebitmap size;
  closedisk c.
End disk.

(** ** Writing a block *)

(** [file'] is [file] with [bs] at [pos]. *)
Definition patched (file : list Z) (pos : Z) (bs : list Z) (file' : list Z) : Prop :=
  length file' = length file ∧
  ∀ k, file' !! k = if decide (pos ≤ Z.of_nat k < pos + zlen bs) then bs !! (k - Z.to_nat pos)%nat else file !! k.

Lemma patched_nil file pos : patched file pos [] file.
Proof. split; [done|]. intros k. by rewrite decide_False by (unfold zlen; simpl; lia). Qed.

Lemma patched_store file pos bs :
  0 ≤ pos → pos + zlen bs ≤ zlen file → patched file pos bs (file_store file pos bs).
Proof.
  intros Hpos Hlen. unfold file_store. replace (Z.to_nat (pos - zlen file)) with 0%nat by (pose proof (zlen_nonneg bs); lia).
  unfold patched, zlen in *. simpl. split.
  - rewrite !length_app, length_take, length_drop. lia.
  - intros k. case_decide.
    + rewrite lookup_app_r, lookup_app_l; rewrite length_take; [|lia..]. f_equal. lia.
    + destruct (decide (Z.of_nat k < pos)).
      * rewrite lookup_app_l by (rewrite length_take; lia). rewrite lookup_take. by rewrite decide_True by lia.
      * rewrite !lookup_app_r; rewrite ?length_take; [|lia..]. rewrite lookup_drop. f_equal. lia.
Qed.

Lemma patched_app file pos bs file1 bs2 file2 :
  0 ≤ pos → patched file pos bs file1 → patched file1 (pos + zlen bs) bs2 file2 →
  patched file pos (bs ++ bs2) file2.
Proof.
  intros Hpos [Hl1 H1] [Hl2 H2]. split; [congruence|]. intros k. rewrite H2, H1, zlen_app. unfold zlen in *.
  repeat case_decide; try lia; [| |done].
  - rewrite lookup_app_r by lia. f_equal. lia.
  - by rewrite lookup_app_l by lia.
Qed.

(** No call of [write] fails for good. *)
Definition good_writes (ws : list write_result) : Prop :=
  Forall (λ w, match w with WAgain => True | WError => False | WLen n => 0 < n end) ws.

Lemma diskwrite_loop_spec data file pos ws : ∀ s tot Q,
  zlen data = BLOCKSIZE → 0 ≤ pos → pos + BLOCKSIZE ≤ zlen file →
  good_writes ws → mk_writes s = ws → 0 ≤ tot ≤ BLOCKSIZE → mk_pos s = pos + tot →
  patched file pos (take (Z.to_nat tot) data) (mk_file s) →
  (∀ file' pos' ws', patched file pos data file' → good_writes ws' →
     Q (Ret ()) (set_mk_writes ws' (set_mk_file file' pos' s))) →
  wp (diskwrite_loop ws data tot) Q s.
Proof.
  unfold BLOCKSIZE. induction ws as [|w ws IH]; intros s tot Q Hd Hpos Hfit Hgood Hws Htot Hp Hpt HQ.
  - assert (∀ bs, patched file pos (take (Z.to_nat tot) data ++ bs) (file_store (mk_file s) (mk_pos s) bs) ∨
            pos + tot + zlen bs > zlen file) as Hst.
    { intros bs. assert (zlen (take (Z.to_nat tot) data) = tot) as Ht by (unfold zlen in *; rewrite length_take; lia).
      destruct (decide (pos + tot + zlen bs ≤ zlen file)); [left|right; lia].
      eapply patched_app; [done|done|]. rewrite Ht, Hp. apply patched_store; [lia|].
      destruct Hpt as [Hl _]. unfold zlen in *. lia. }
    simpl. unfold BLOCKSIZE. destruct (Z.ltb_spec tot 512).
    + wp_steps. destruct (Hst (drop (Z.to_nat tot) data)) as [Hok|Hbad].
      2: { unfold zlen in *. rewrite length_drop in Hbad. lia. }
      rewrite take_drop in Hok. specialize (HQ _ (mk_pos s + zlen (drop (Z.to_nat tot) data)) [] Hok Hgood).
      unfold file_write. destruct s; simpl in *. by rewrite Hws.
    + wp_steps. assert (tot = 512) as -> by lia. rewrite take_ge in Hpt by (unfold zlen in *; lia).
      specialize (HQ (mk_file s) (mk_pos s) [] Hpt Hgood). destruct s; simpl in *. by subst.
  - simpl. unfold BLOCKSIZE. destruct (Z.ltb_spec tot 512).
    2: { wp_steps. assert (tot = 512) as -> by lia. rewrite take_ge in Hpt by (unfold zlen in *; lia).
         specialize (HQ (mk_file s) (mk_pos s) (w :: ws) Hpt Hgood). destruct s; simpl in *. by subst. }
    apply Forall_cons in Hgood as [Hw Hgood]. destruct w as [| |n]; [|done|].
    + wp_steps. by apply IH.
    + wp_steps. rewrite (proj2 (Z.leb_gt _ _)) by lia. wp_steps. set (len := Z.min n (512 - tot)).
      set (bs := take (Z.to_nat len) (drop (Z.to_nat tot) data)).
      assert (zlen bs = len) as Hbs by (unfold bs, zlen in *; rewrite length_take, length_drop; lia).
      assert (take (Z.to_nat (tot + len)) data = take (Z.to_nat tot) data ++ bs) as Ht.
      { unfold bs. rewrite Z2Nat.inj_add by lia. by rewrite take_take_drop. }
      assert (zlen (take (Z.to_nat tot) data) = tot) as Ht0 by (unfold zlen in *; rewrite length_take; lia).
      apply IH; try done; simpl; rewrite ?Hbs; [lia|lia|].
      rewrite Ht. eapply patched_app; [done|done|]. rewrite Ht0, Hp. apply patched_store; [lia|].
      destruct Hpt as [Hl _]. unfold zlen in *. lia.
Qed.

Definition header (HOST : bool) : Z := if HOST then 1 else 0.

(** Block [b] of the disk. *)
Definition file_block (HOST : bool) (file : list Z) (b : Z) : list Z :=
  take (Z.to_nat BLOCKSIZE) (drop (Z.to_nat ((b + header HOST) * BLOCKSIZE)) file).

Lemma take_drop_ext (l l' : list Z) n m :
  (∀ k, (m ≤ k < m + n)%nat → l !! k = l' !! k) → take n (drop m l) = take n (drop m l').
Proof.
  intros Hl. apply list_eq. intros k. rewrite !lookup_take. case_decide; [|done].
  rewrite !lookup_drop. apply Hl. lia.
Qed.

Lemma patched_block HOST file b bs file' b' :
  0 ≤ b → 0 ≤ b' → zlen bs = BLOCKSIZE → patched file ((b + header HOST) * BLOCKSIZE) bs file' →
  (b + header HOST + 1) * BLOCKSIZE ≤ zlen file →
  file_block HOST file' b' = if decide (b' = b) then bs else file_block HOST file b'.
Proof.
  unfold file_block, BLOCKSIZE. intros Hb Hb' Hbs [Hl Hf] Hfit. rewrite Hbs in Hf.
  assert (0 ≤ header HOST) by (by destruct HOST). case_decide as E; [subst|].
  - apply list_eq. intros k. rewrite lookup_take. case_decide.
    + rewrite lookup_drop, Hf, decide_True by lia. f_equal. lia.
    + symmetry. apply lookup_ge_None. unfold zlen in *. lia.
  - apply take_drop_ext. intros k Hk. rewrite Hf, decide_False by lia. done.
Qed.

(** The state after blocks have been written. *)
Record mk_wrote (HOST : bool) (s : mkstate) (blocks : Z → option (list Z)) (s' : mkstate) : Prop := {
  wr_open : mk_open s' = mk_open s;
  wr_nblocks : mk_nblocks s' = mk_nblocks s;
  wr_good : good_writes (mk_writes s) → good_writes (mk_writes s');
  wr_size : zlen (mk_file s') = zlen (mk_file s);
  wr_header : take (Z.to_nat (header HOST * BLOCKSIZE)) (mk_file s') =
              take (Z.to_nat (header HOST * BLOCKSIZE)) (mk_file s);
  wr_blocks : ∀ b, 0 ≤ b → file_block HOST (mk_file s') b = default (file_block HOST (mk_file s) b) (blocks b);
}.

Lemma mk_wrote_nothing HOST s s' :
  mk_open s' = mk_open s → mk_nblocks s' = mk_nblocks s → mk_writes s' = mk_writes s → mk_file s' = mk_file s →
  mk_wrote HOST s (λ _, None) s'.
Proof. intros ? ? Hw Hf. split; rewrite ?Hw, ?Hf; done. Qed.

Lemma mk_wrote_trans HOST s B1 s1 B2 s2 B :
  mk_wrote HOST s B1 s1 → mk_wrote HOST s1 B2 s2 →
  (∀ b, 0 ≤ b → B b = match B2 b with Some bs => Some bs | None => B1 b end) → mk_wrote HOST s B s2.
Proof.
  intros [? ? ? ? ? Hb1] [? ? ? ? ? Hb2] HB. split; [congruence|congruence|auto|congruence|congruence|].
  intros b Hb. rewrite Hb2, Hb1, HB by done. by destruct (B2 b).
Qed.

Lemma diskwrite_spec HOST data block s Q :
  zlen data = BLOCKSIZE → 0 ≤ block < 2 ^ 20 → mk_open s = true → good_writes (mk_writes s) →
  (block + header HOST + 1) * BLOCKSIZE ≤ zlen (mk_file s) →
  (∀ s', mk_wrote HOST s (λ b, if decide (b = block) then Some data else None) s' → mk_bitbuf s' = mk_bitbuf s →
     Q (Ret ()) s') →
  wp (diskwrite HOST data block) Q s.
Proof.
  unfold BLOCKSIZE. intros Hd Hb Hopen Hgood Hfit HQ. unfold diskwrite. wp_steps. apply wp_assert; [done|].
  set (b' := if HOST then u32 (block + 1) else block).
  assert (b' = block + header HOST) as Hb'.
  { unfold b', header. destruct HOST; [|lia]. apply u32_small. unfold is_u32. lia. }
  assert (0 ≤ header HOST ≤ 1) by (by destruct HOST).
  assert (u32 (b' * BLOCKSIZE) = (block + header HOST) * 512) as Hpos.
  { rewrite Hb'. unfold BLOCKSIZE. apply u32_small. unfold is_u32. lia. }
  rewrite Hpos. assert ((s32 ((block + header HOST) * 512) <? 0) = false) as ->.
  { apply Z.ltb_ge. rewrite s32_small; lia. }
  rewrite andb_false_r. wp_steps.
  eapply (diskwrite_loop_spec data (mk_file s) ((block + header HOST) * 512)); try done; simpl; unfold BLOCKSIZE; try lia.
  - apply patched_nil.
  - intros file' pos' ws' Hp Hg. apply HQ; [|done]. pose proof Hp as [Hl Hk].
    split; simpl; [done|done|done| | |].
    + unfold zlen. by rewrite Hl.
    + apply list_eq. intros k. unfold BLOCKSIZE. rewrite !lookup_take. case_decide; [|done].
      by rewrite Hk, decide_False by lia.
    + intros b Hb0. rewrite (patched_block HOST (mk_file s) block data file' b) by (done || lia). by case_decide.
Qed.

(** ** The free map *)

Definition BUFBITS : Z := MAXBITBLOCKS * SFS_BLOCKBITS.

(** The bits of [bitbuf] that are set are those of [P]. *)
Definition marks (buf : list Z) (P : Z → bool) : Prop :=
  let b := {| nbits := BUFBITS; v := buf |} in bitmap_wf b ∧ ∀ j, 0 ≤ j → bit b j = P j.

Lemma marks_init : marks (replicate (Z.to_nat (MAXBITBLOCKS * SFS_BLOCKSIZE)) 0) (λ _, false).
Proof.
  assert (∀ n j, bit {| nbits := BUFBITS; v := replicate n 0 |} j = false) as Hz.
  { intros n j. unfold bit. simpl. destruct (replicate n 0 !z _) as [w|] eqn:E; [|done].
    apply zlookup_Some_range in E as Hr. rewrite zlookup_nat in E by lia.
    apply lookup_replicate in E as [-> _]. apply Z.bits_0. }
  split; [|done]. split.
  - split; vm_compute; discriminate.
  - vm_compute. reflexivity.
  - by apply Forall_replicate.
  - cbn [nbits v]. rewrite zlen_replicate. intros i Hi. unfold BUFBITS, MAXBITBLOCKS, SFS_BLOCKBITS, SFS_BLOCKSIZE in *. lia.
Qed.

Lemma doallocbit_spec i P s Q :
  marks (mk_bitbuf s) P → 0 ≤ i < BUFBITS → P i = false →
  (∀ buf, marks buf (λ j, P j || (j =? i)) → Q (Ret ()) (set_mk_bitbuf buf s)) →
  wp (doallocbit i) Q s.
Proof.
  intros [Hwf HP] Hi Hno HQ. set (b := {| nbits := BUFBITS; v := mk_bitbuf s |}) in *.
  destruct (wf_bit_word b i Hwf Hi) as (w & Hw & Hu & Hix). simpl in Hw, Hix.
  destruct (bitmap_mark_word b i w Hwf Hi Hw) as [Hwf' [_ Hset]].
  unfold doallocbit. wp_steps. eapply wp_deref; [exact Hw|]. wp_steps. apply wp_assert.
  { rewrite (bit_clear_mask b) by lia || done. by rewrite HP, Hno by lia. }
  rewrite u8_mask by (apply Z.mod_pos_bound; lia). wp_steps.
  eapply wp_deref; [by apply zstore_in|]. wp_steps. apply HQ. split; [exact Hwf'|]. intros j Hj.
  change {| nbits := BUFBITS; v := _ |} with (set_v b (<[Z.to_nat (i / 8) := u8 (Z.lor w (2 ^ (i mod 8)))]> (v b))).
  rewrite Hset, HP by done. destruct (Z.eqb_spec j i); case_decide; rewrite ?orb_true_r, ?orb_false_r; done.
Qed.

(** A loop that marks the bits from [a] on. *)
Lemma doallocbits_spec (body : Z → M mkstate unit) o a n P s Q :
  (∀ i, body i = doallocbit (o + i)) → 0 ≤ o + a → 0 ≤ n → o + a + n ≤ BUFBITS →
  marks (mk_bitbuf s) P → (∀ j, o + a ≤ j < o + a + n → P j = false) →
  (∀ buf, marks buf (λ j, P j || (o + a <=? j) && (j <? o + a + n)) → Q (Ret ()) (set_mk_bitbuf buf s)) →
  wp (forM (seqZ a n) body) Q s.
Proof.
  intros Hbody Ha Hn Hmax Hm Hno HQ.
  apply (wp_forM _ _ (λ k s', ∃ buf, s' = set_mk_bitbuf buf s ∧
    marks buf (λ j, P j || (o + a <=? j) && (j <? o + a + Z.of_nat k)))).
  - exists (mk_bitbuf s). split; [by destruct s|]. destruct Hm as [Hwf HP]. split; [done|]. intros j Hj.
    rewrite HP by done. destruct (Z.leb_spec (o + a) j), (Z.ltb_spec j (o + a + Z.of_nat 0)); simpl;
      rewrite ?orb_false_r; try done; lia.
  - intros k x s' [-> Hk]%lookup_seqZ_inv (buf & -> & Hb). rewrite Hbody. eapply doallocbit_spec; [exact Hb|lia| |].
    + cbv beta. rewrite Hno by lia. destruct (Z.ltb_spec (o + (a + Z.of_nat k)) (o + a + Z.of_nat k)); [lia|]. by rewrite andb_false_r.
    + intros buf' [Hwf' HP']. exists buf'. split; [done|]. split; [done|]. intros j Hj. rewrite HP' by done.
      rewrite <- orb_assoc. f_equal. clear -Hk Ha.
      destruct (Z.leb_spec (o + a) j), (Z.ltb_spec j (o + a + Z.of_nat k)), (Z.eqb_spec j (o + (a + Z.of_nat k))),
        (Z.ltb_spec j (o + a + Z.of_nat (S k))); simpl; done || lia.
  - intros s' (buf & -> & Hb). rewrite length_seqZ in Hb. rewrite Z2Nat.id in Hb by done. by apply HQ.
Qed.

(** The blocks in use in a new volume of [n] blocks, and the bits of the map
    past its end. *)
Definition new_used (n : Z) (j : Z) : bool :=
  (j <? SFS_MAP_LOCATION + SFS_BITBLOCKS n) || (n <=? j) && (j <? SFS_BITMAPSIZE n).

(** Block [j] of the map in [buf]. *)
Definition buf_block (buf : list Z) (j : Z) : list Z :=
  take (Z.to_nat SFS_BLOCKSIZE) (drop (Z.to_nat (j * SFS_BLOCKSIZE)) buf).
Definition map_blocks (n : Z) (buf : list Z) (b : Z) : option (list Z) :=
  if decide (SFS_MAP_LOCATION ≤ b < SFS_MAP_LOCATION + SFS_BITBLOCKS n)
  then Some (buf_block buf (b - SFS_MAP_LOCATION)) else None.

Lemma bitblocks_range n :
  2 < n ≤ BUFBITS →
  SFS_BITMAPSIZE n = SFS_BITBLOCKS n * 4096 ∧ 0 < SFS_BITBLOCKS n ≤ MAXBITBLOCKS ∧ n ≤ SFS_BITMAPSIZE n ∧
  SFS_MAP_LOCATION + SFS_BITBLOCKS n ≤ n.
Proof.
  unfold BUFBITS, MAXBITBLOCKS, SFS_BITBLOCKS, SFS_BITMAPSIZE, SFS_ROUNDUP, SFS_MAP_LOCATION, SFS_BLOCKBITS, SFS_BLOCKSIZE.
  change (512 * 8) with 4096. change (32 * 4096) with 131072. intros Hn. rewrite (u32_small (n + 4096 - 1)) by (unfold is_u32; lia).
  rewrite u32_small by (unfold is_u32; Z.div_mod_to_equations; lia).
  rewrite Z.div_mul by lia. Z.div_mod_to_equations. lia.
Qed.

Lemma buf_block_len buf P j : marks buf P → 0 ≤ j < MAXBITBLOCKS → zlen (buf_block buf j) = SFS_BLOCKSIZE.
Proof.
  intros [Hwf _] Hj. pose proof (wf_words _ Hwf) as Hl. cbn [v nbits] in Hl.
  change ((BUFBITS + 7) / 8) with 16384 in Hl. unfold buf_block, SFS_BLOCKSIZE, MAXBITBLOCKS, zlen in *.
  rewrite length_take, length_drop. lia.
Qed.

(** The last loop of [writebitmap]. *)
Lemma writemap_spec HOST n P s Q :
  2 < n ≤ BUFBITS → marks (mk_bitbuf s) P → mk_open s = true → good_writes (mk_writes s) →
  (n + header HOST) * BLOCKSIZE ≤ zlen (mk_file s) →
  (∀ s', mk_wrote HOST s (map_blocks n (mk_bitbuf s)) s' → Q (Ret ()) s') →
  wp (forM (seqZ 0 (SFS_BITBLOCKS n)) (λ i,
    s ← get; bs ← deref (map_load (mk_bitbuf s) i); diskwrite HOST bs (SFS_MAP_LOCATION + i))) Q s.
Proof.
  intros Hn Hm Hopen Hgood Hfit HQ. destruct (bitblocks_range n Hn) as (_ & Hnb & _ & Hle).
  set (part k b := if decide (SFS_MAP_LOCATION ≤ b < SFS_MAP_LOCATION + k)
                   then Some (buf_block (mk_bitbuf s) (b - SFS_MAP_LOCATION)) else None).
  apply (wp_forM _ _ (λ k s', mk_bitbuf s' = mk_bitbuf s ∧ mk_wrote HOST s (part (Z.of_nat k)) s')).
  - split; [done|]. eapply mk_wrote_trans; [by apply (mk_wrote_nothing HOST s s)|by apply (mk_wrote_nothing HOST s s)|].
    intros b Hb. unfold part. by rewrite decide_False by lia.
  - intros k x s' [-> Hk]%lookup_seqZ_inv [Hbuf Hw]. rewrite Z.add_0_l. wp_steps. rewrite Hbuf.
    assert (map_load (mk_bitbuf s) (Z.of_nat k) = Some (buf_block (mk_bitbuf s) (Z.of_nat k))) as ->.
    { unfold map_load, buf_block. rewrite (proj2 (Z.leb_le _ _)); [done|].
      destruct Hm as [Hwf _]. pose proof (wf_words _ Hwf) as Hl. cbn [v nbits] in Hl.
      change ((BUFBITS + 7) / 8) with 16384 in Hl. rewrite Hl. unfold SFS_BLOCKSIZE, MAXBITBLOCKS in *. lia. }
    eapply wp_deref; [done|]. destruct Hw as [Ho Hnbl Hg Hsz Hhd Hbl].
    apply diskwrite_spec; [by eapply buf_block_len; [exact Hm|lia]|unfold SFS_MAP_LOCATION, MAXBITBLOCKS in *; lia|congruence|auto| |].
    + rewrite Hsz. unfold BLOCKSIZE, SFS_MAP_LOCATION in *. nia.
    + intros s'' Hw' Hbuf'. split; [congruence|].
      eapply mk_wrote_trans; [by split; [exact Ho|..]|exact Hw'|]. intros b Hb. unfold part.
      repeat case_decide; try done; try lia. do 2 f_equal. lia.
  - intros s' [_ Hw]. apply HQ. rewrite length_seqZ, Z2Nat.id in Hw by lia. exact Hw.
Qed.

Lemma writebitmap_spec HOST n s Q :
  2 < n ≤ BUFBITS → marks (mk_bitbuf s) (λ _, false) → mk_open s = true → good_writes (mk_writes s) →
  (n + header HOST) * BLOCKSIZE ≤ zlen (mk_file s) →
  (∀ s' buf, marks buf (new_used n) → mk_wrote HOST s (map_blocks n buf) s' → Q (Ret ()) s') →
  wp (writebitmap HOST n) Q s.
Proof.
  intros Hn Hm Hopen Hgood Hfit HQ. destruct (bitblocks_range n Hn) as (Hbits & Hnb & Hn' & Hle).
  unfold SFS_MAP_LOCATION in Hle. unfold writebitmap. rewrite Z.gtb_ltb, (proj2 (Z.ltb_ge _ _)) by lia.
  assert (BUFBITS = 131072) as HB by done. unfold MAXBITBLOCKS in Hnb.
  wp_step. eapply doallocbit_spec; [exact Hm|unfold SFS_SB_LOCATION; lia|done|]. intros buf1 H1.
  wp_step. eapply doallocbit_spec; [exact H1|unfold SFS_ROOT_LOCATION; lia|done|]. intros buf2 H2.
  wp_step. eapply (doallocbits_spec _ SFS_MAP_LOCATION); [done|unfold SFS_MAP_LOCATION; lia..|exact H2| |].
  { intros j. unfold SFS_MAP_LOCATION, SFS_SB_LOCATION, SFS_ROOT_LOCATION. intros Hj. lia. }
  intros buf3 H3. wp_step. eapply (doallocbits_spec _ 0); [done|lia|lia|lia|exact H3| |].
  { intros j. unfold SFS_MAP_LOCATION, SFS_SB_LOCATION, SFS_ROOT_LOCATION. intros Hj. lia. }
  intros buf4 H4. eapply (writemap_spec HOST n); [done|exact H4|done..|]. intros s' Hw.
  apply (HQ s' buf4); [|].
  - destruct H4 as [Hwf4 HP4]. split; [done|]. intros j Hj. rewrite HP4 by done. unfold new_used.
    unfold SFS_MAP_LOCATION, SFS_SB_LOCATION, SFS_ROOT_LOCATION. lia.
  - eapply mk_wrote_trans; [by apply (mk_wrote_nothing HOST s (set_mk_bitbuf buf4 s))| |].
    + destruct Hw as [? ? ? ? ? ?]. split; [..|eassumption]; eassumption.
    + intros b Hb. simpl. by destruct (map_blocks _ _ _).
Qed.

(** ** The program *)

(** [arg] is a legal name of a volume, [name] with or without a colon. *)
Definition names_volume (arg name : list Z) : Prop :=
  (cstr arg name ∨ cstr arg (name ++ [58])) ∧ Forall is_u8 name ∧ (58 ∉ name) ∧ (47 ∉ name) ∧
  zlen name < SFS_VOLNAME_SIZE.

Lemma u8_not_char name c d : Forall is_u8 name → 0 ≤ c < 128 → c ∉ name → d ∈ name → s8 d ≠ c.
Proof.
  intros Hu Hc Hno Hd Heq. apply Hno. rewrite Forall_forall in Hu. specialize (Hu d Hd).
  assert (d = c) as <-; [|done]. apply s8_inj; [done|unfold is_u8; lia|]. by rewrite (s8_ascii c).
Qed.

Lemma mksfs_volname_spec arg name s Q :
  names_volume arg name → (∀ arg', cstr arg' name → Q (Ret arg') s) → wp (mksfs_volname arg) Q s.
Proof.
  intros (Harg & Hu & Hcol & Hsl & _) HQ. unfold mksfs_volname. wp_step.
  assert (∀ a, cstr a name → wp (s ← deref (strchr a 47); if s is Some _ then exit 1 else mret a) Q s) as Hrest.
  { intros a Ha. wp_step. eapply wp_deref; [eapply strchr_None; [exact Ha|done|]|wp_steps; by apply HQ].
    intros d Hd. by apply (u8_not_char name). }
  destruct Harg as [Harg|Harg].
  - eapply wp_deref; [eapply strchr_None; [exact Harg|done|]|].
    { intros d Hd. by apply (u8_not_char name). }
    wp_step. wp_step. by apply Hrest.
  - eapply wp_deref; [eapply (strchr_Some arg name 58 []); [exact Harg|done|]|].
    { intros d Hd. by apply (u8_not_char name). }
    wp_step. wp_step.
    eapply wp_deref; [apply (strlen_cstr _ [58]); by apply cstr_skip|]. change (zlen [58]) with 1. simpl. wp_step.
    apply Hrest. destruct Harg as [Hnz [rest ->]]. apply Forall_app in Hnz as [Hnz _]. split; [done|]. exists (0 :: rest).
    rewrite <- app_assoc. rewrite insert_app_r_alt by lia. by rewrite Nat.sub_diag.
Qed.

Definition new_super (name : list Z) (n : Z) : sfs_super :=
  {| sp_magic := SFS_MAGIC; sp_nblocks := n; sp_volname := name ++ replicate (32 - length name) 0;
     sp_reserved := replicate 118 0 |}.

Lemma new_super_ok name n : zlen name < SFS_VOLNAME_SIZE → is_u32 n → super_ok (new_super name n).
Proof.
  intros Hl Hn. unfold SFS_VOLNAME_SIZE, zlen in Hl. split; cbn [new_super sp_magic sp_nblocks sp_volname sp_reserved]; [done|done| |].
  - rewrite length_app, length_replicate. lia.
  - split; [done|by apply Forall_replicate].
Qed.

Lemma root_inode_ok : inode_ok root_inode.
Proof. split; try done; (split; [done|by apply Forall_replicate]). Qed.

Lemma writesuper_spec HOST arg name n s Q :
  cstr arg name → zlen name < SFS_VOLNAME_SIZE → is_u32 n → mk_open s = true → good_writes (mk_writes s) →
  (header HOST + 1) * BLOCKSIZE ≤ zlen (mk_file s) →
  (∀ s', mk_wrote HOST s (λ b, if decide (b = SFS_SB_LOCATION) then Some (encode_super (new_super name n)) else None) s' →
     mk_bitbuf s' = mk_bitbuf s → Q (Ret ()) s') →
  wp (writesuper HOST arg n) Q s.
Proof.
  intros Harg Hl Hn Hopen Hgood Hfit HQ. unfold writesuper. wp_step.
  eapply wp_deref; [by apply strlen_cstr|]. rewrite (proj2 (Z.leb_gt _ _)) by done. wp_step.
  eapply wp_deref; [apply strcpy_spec; [exact Harg|exact Hl]|].
  assert (name ++ 0 :: drop (S (length name)) (sp_volname zero_super) = name ++ replicate (32 - length name) 0) as ->.
  { f_equal. unfold SFS_VOLNAME_SIZE, zlen in Hl. cbn [sp_volname zero_super]. rewrite drop_replicate.
    by replace (32 - length name)%nat with (S (32 - S (length name))) by lia. }
  apply diskwrite_spec; [by apply (length_encode_super (new_super name n)), new_super_ok|done|done|done|done|done].
Qed.

(** The operating system does what the program asks for, and the file has the
    header of a disk image on the host. *)
Definition disk_image (HOST : bool) (file : list Z) (n : Z) : Prop :=
  zlen file / BLOCKSIZE = n + header HOST ∧ (HOST = true → take 21 file = take 21 HOSTSTRING).
Definition calls_succeed (c : mkcalls) : Prop :=
  c_open c = true ∧ c_fstat c = true ∧ c_close c = true ∧ ∃ len, c_read c = Some len ∧ 21 ≤ len.

Lemma check_header_spec file len s Q :
  take 21 file = take 21 HOSTSTRING → 21 ≤ len → Q (Ret ()) s → wp (check_header file (Some len)) Q s.
Proof.
  intros Hf Hlen HQ. unfold check_header.
  assert (length (take 21 file) = 21%nat) as Hl by (by rewrite Hf).
  assert (cstr (<[21%nat := 0]> (take (Z.to_nat (Z.min len 63)) file ++ [0])) (take 21 HOSTSTRING)) as Hc.
  { split; [repeat constructor; done|].
    assert (take (Z.to_nat (Z.min len 63)) file = take 21 HOSTSTRING ++ take (Z.to_nat (Z.min len 63) - 21) (drop 21 file)) as ->.
    { rewrite <- Hf, take_take_drop. f_equal. lia. }
    destruct (take (Z.to_nat (Z.min len 63) - 21) (drop 21 file)) as [|x l]; eexists; reflexivity. }
  assert (cstr HOSTSTRING (take 21 HOSTSTRING)) as Hh by (split; [repeat constructor; done|by exists []]).
  assert (Forall is_u8 (take 21 HOSTSTRING)) as Hu by (repeat constructor; done).
  destruct (strcmp_spec _ _ _ _ Hc Hh Hu Hu) as (r & Hr & H0 & _). wp_step. eapply wp_deref; [exact Hr|].
  rewrite (proj2 H0) by done. simpl. by wp_steps.
Qed.

Lemma opendisk_spec HOST c n s Q :
  mk_open s = false → disk_image HOST (mk_file s) n → calls_succeed c → is_u32 (n + header HOST) → 0 ≤ n →
  Q (Ret ()) (set_mk_nblocks n (set_mk_open true s)) → wp (opendisk HOST c) Q s.
Proof.
  intros Ho [Hsz Hh] (Hop & Hst & _ & len & Hrd & Hlen) Hu Hn HQ. unfold opendisk. wp_steps.
  rewrite Ho. apply wp_assert; [done|]. rewrite Hop, Hst. simpl. wp_steps. rewrite Hsz, (u32_small (n + _)) by done.
  destruct HOST; simpl in *.
  - wp_steps. rewrite Hrd. apply check_header_spec; [by apply Hh|done|]. replace (n + 1 - 1) with n by lia.
    by rewrite u32_small by (unfold is_u32 in *; lia).
  - wp_steps. by rewrite Z.add_0_r.
Qed.

(** The blocks that [mksfs] writes. *)
Definition new_blocks (name : list Z) (n : Z) (buf : list Z) (b : Z) : option (list Z) :=
  if decide (b = SFS_SB_LOCATION) then Some (encode_super (new_super name n))
  else if decide (b = SFS_ROOT_LOCATION) then Some (encode_inode root_inode)
  else map_blocks n buf b.

Record mksfs_start (s : mkstate) : Prop := {
  ms_closed : mk_open s = false;
  ms_buf : mk_bitbuf s = replicate (Z.to_nat (MAXBITBLOCKS * SFS_BLOCKSIZE)) 0;
}.

Lemma main_spec HOST arg name c n s Q :
  mksfs_start s → names_volume arg name → disk_image HOST (mk_file s) n → 2 < n ≤ BUFBITS →
  calls_succeed c → good_writes (mk_writes s) →
  (∀ s' buf, marks buf (new_used n) →
     mk_wrote HOST (set_mk_nblocks n (set_mk_open true s)) (new_blocks name n buf) s' →
     Q (Ret ()) (set_mk_open false s')) →
  wp (main HOST 3 arg c) Q s.
Proof.
  intros [Hcl Hbuf] Harg Hdisk Hn Hcalls Hgood HQ. assert (BUFBITS = 131072) as HB by done.
  assert (0 ≤ header HOST ≤ 1) as Hhd by (by destruct HOST).
  assert ((n + header HOST) * BLOCKSIZE ≤ zlen (mk_file s)) as Hfit.
  { destruct Hdisk as [Hsz _]. unfold BLOCKSIZE in *. Z.div_mod_to_equations. lia. }
  unfold main. simpl negb. cbv iota. wp_step. unfold check.
  wp_step. apply wp_assert; [done|]. wp_step. apply wp_assert; [done|]. apply wp_assert; [done|].
  wp_step. apply (mksfs_volname_spec _ _ _ _ Harg). intros arg' Harg'. wp_step.
  apply (opendisk_spec _ _ n); [done|done|done|unfold is_u32; lia|lia|]. wp_step. unfold diskblocksize, diskblocks.
  wp_steps. apply wp_assert; [done|]. wp_steps. simpl negb. cbv iota. wp_steps. apply wp_assert; [done|]. wp_steps. simpl mk_nblocks.
  destruct Harg as (_ & _ & _ & _ & Hlen).
  apply (writesuper_spec _ _ name); [done|done|unfold is_u32; lia|done|done|unfold BLOCKSIZE in *; simpl; lia|].
  intros s1 Hw1 Hb1. pose proof Hw1 as [Ho1 _ Hg1 Hz1 _ _]. simpl in Ho1, Hz1, Hb1. unfold writerootdir. wp_step.
  apply diskwrite_spec; [apply (length_encode_inode _ root_inode_ok)|done|done|auto| |].
  { rewrite Hz1. unfold SFS_ROOT_LOCATION, BLOCKSIZE in *. lia. }
  intros s2 Hw2 Hb2. pose proof (mk_wrote_trans HOST _ _ _ _ _ _ Hw1 Hw2 (λ b _, eq_refl)) as Hw12.
  pose proof Hw12 as [Ho2 _ Hg2 Hz2 _ _]. simpl in Ho2, Hz2. wp_step.
  apply writebitmap_spec; [done| |done|auto|by rewrite Hz2|].
  { rewrite Hb2, Hb1, Hbuf. apply marks_init. }
  intros s3 buf Hm Hw3. unfold closedisk. wp_steps. rewrite (wr_open _ _ _ _ Hw3), Ho2. apply wp_assert; [done|].
  destruct Hcalls as (_ & _ & -> & _). simpl negb. cbv iota. wp_steps. apply (HQ s3 buf Hm).
  eapply mk_wrote_trans; [exact Hw12|exact Hw3|]. intros b Hb. unfold new_blocks, map_blocks.
  unfold SFS_SB_LOCATION, SFS_ROOT_LOCATION, SFS_MAP_LOCATION. repeat case_decide; try done; lia.
Qed.

(** ** Mounting the new volume *)

Lemma new_map_bit n buf j :
  2 < n ≤ BUFBITS → marks buf (new_used n) → 0 ≤ j < SFS_BITMAPSIZE n →
  bit {| nbits := SFS_BITMAPSIZE n; v := take (Z.to_nat (SFS_BITBLOCKS n * SFS_BLOCKSIZE)) buf |} j = new_used n j.
Proof.
  intros Hn [_ HP] Hj. rewrite <- HP by lia. destruct (bitblocks_range n Hn) as (Hb & _).
  unfold bit, BITS_PER_WORD, SFS_BLOCKSIZE. cbn [v]. rewrite !zlookup_nat by (Z.div_mod_to_equations; lia).
  rewrite lookup_take, decide_True; [done|]. Z.div_mod_to_equations. lia.
Qed.

Lemma new_map_wf n buf :
  2 < n ≤ BUFBITS → marks buf (new_used n) →
  bitmap_wf {| nbits := SFS_BITMAPSIZE n; v := take (Z.to_nat (SFS_BITBLOCKS n * SFS_BLOCKSIZE)) buf |} ∧
  zlen (take (Z.to_nat (SFS_BITBLOCKS n * SFS_BLOCKSIZE)) buf) = SFS_BITBLOCKS n * SFS_BLOCKSIZE.
Proof.
  intros Hn [Hwf _]. destruct (bitblocks_range n Hn) as (Hb & Hnb & _). unfold MAXBITBLOCKS in Hnb.
  pose proof (wf_words _ Hwf) as Hl. cbn [v nbits] in Hl. change ((BUFBITS + 7) / 8) with 16384 in Hl.
  assert (zlen (take (Z.to_nat (SFS_BITBLOCKS n * SFS_BLOCKSIZE)) buf) = SFS_BITBLOCKS n * SFS_BLOCKSIZE) as Ht.
  { unfold zlen, SFS_BLOCKSIZE in *. rewrite length_take. lia. }
  split; [|done]. split; cbn [v nbits]; rewrite ?Ht; unfold SFS_BLOCKSIZE.
  - rewrite Hb. lia.
  - rewrite Hb. Z.div_mod_to_equations. lia.
  - apply Forall_take. apply (wf_bytes _ Hwf).
  - lia.
Qed.

Section mount.
Context {D : Type} `{BlockDeviceLaws D}.
Implicit Types (f : sfs_fs D) (d : D).

(** The disk of the machine has the contents of the file. *)
Definition has_image (HOST : bool) (d : D) (file : list Z) (n : Z) : Prop :=
  dev_ok d ∧ d_blocks d = n ∧ ∀ b, 0 ≤ b < n → sector d b = file_block HOST file b.

Definition new_map (n : Z) (buf : list Z) : list Z := take (Z.to_nat (SFS_BITBLOCKS n * SFS_BLOCKSIZE)) buf.

Lemma new_super_end name n : zlen name < SFS_VOLNAME_SIZE → end_volname (new_super name n) = new_super name n.
Proof.
  intros Hl. unfold SFS_VOLNAME_SIZE, zlen in Hl. unfold end_volname, new_super. cbn [sp_magic sp_nblocks sp_volname sp_reserved]. f_equal.
  apply list_insert_id. rewrite lookup_app_r by lia. apply lookup_replicate. split; [done|lia].
Qed.

Lemma new_disk_holds HOST name n buf file d :
  2 < n ≤ BUFBITS → zlen name < SFS_VOLNAME_SIZE → marks buf (new_used n) → has_image HOST d file n →
  (∀ b bs, 0 ≤ b → new_blocks name n buf b = Some bs → file_block HOST file b = bs) →
  disk_holds d (new_super name n) (new_map n buf) ∧ decode_inode (sector d SFS_ROOT_LOCATION) = root_inode.
Proof.
  intros Hn Hl Hm (Hdev & Hnb & Hsec) Hbl. destruct (bitblocks_range n Hn) as (Hb & Hr & _ & Hle).
  assert (BUFBITS = 131072) as HB by done. unfold SFS_MAP_LOCATION in Hle. split.
  - split; cbn [sp_nblocks sp_magic new_super].
    + done.
    + by apply d_blocksize_sect.
    + split; [lia|]. by rewrite Hnb.
    + rewrite Hsec by (unfold SFS_SB_LOCATION; lia). erewrite Hbl; [|done|done].
      rewrite decode_encode_super; [by apply new_super_end|apply new_super_ok; [done|unfold is_u32; lia]].
    + done.
    + by apply new_map_wf.
    + intros j Hj. rewrite Hsec by (unfold SFS_MAP_LOCATION; lia).
      rewrite (Hbl (SFS_MAP_LOCATION + j) (buf_block buf j)); [|unfold SFS_MAP_LOCATION; lia|].
      * apply take_drop_ext. intros k Hk. unfold new_map, SFS_BLOCKSIZE in *. rewrite lookup_take, decide_True by lia. done.
      * unfold new_blocks, map_blocks, SFS_SB_LOCATION, SFS_ROOT_LOCATION, SFS_MAP_LOCATION.
        rewrite !decide_False, decide_True by lia. do 2 f_equal. lia.
  - rewrite Hsec by (unfold SFS_ROOT_LOCATION; lia). erewrite Hbl; [|done|done]. apply decode_encode_inode, root_inode_ok.
Qed.

Lemma root_blocks f k : 0 ≤ k → fblock f root_inode k = 0.
Proof.
  intros Hk. unfold fblock, bmapZ. case_decide; [done|]. case_decide; [|done]. rewrite zlookup_nat by done.
  change (sfi_direct root_inode) with (replicate 15 0). destruct (replicate 15 0 !! _) eqn:E; [|done].
  by apply lookup_replicate in E as [-> _].
Qed.

Lemma root_owns f b : ¬ owns f root_inode b.
Proof. intros (Hne & k & Hk & Hb). rewrite root_blocks in Hb by lia. by symmetry in Hb. Qed.

Lemma root_file_ok f : 0 < sp_nblocks (sfs_sb f) → file_ok f root_inode.
Proof.
  intros Hn. split; [apply root_inode_ok|..].
  - intros k Hk. rewrite root_blocks; lia.
  - intros k Hk Hne. by rewrite root_blocks in Hne by lia.
  - intros j k Hj Hk _ Hne. by rewrite root_blocks in Hne by lia.
Qed.

(** The invariant holds of the volume that is mounted. *)
Lemma new_vol_wf name n buf d ms :
  2 < n ≤ BUFBITS → zlen name < SFS_VOLNAME_SIZE → marks buf (new_used n) → d_blocks d = n →
  disk_holds d (new_super name n) (new_map n buf) → decode_inode (sector d SFS_ROOT_LOCATION) = root_inode →
  vol_wf (mounted d (new_super name n) (new_map n buf) ms) {[SFS_ROOT_LOCATION := root_inode]}.
Proof.
  intros Hn Hl Hm Hnb [Hdev _ _ Hsuper _ _ Hmap] Hroot. destruct (bitblocks_range n Hn) as (Hb & Hr & Hle & Hle').
  assert (BUFBITS = 131072) as HB by done. unfold SFS_MAP_LOCATION in Hle'.
  assert (∀ b, 0 ≤ b < SFS_BITMAPSIZE n →
    bit (sfs_freemap (vl_fs (mounted d (new_super name n) (new_map n buf) ms))) b = new_used n b) as Hbit
    by (intros b; by apply new_map_bit).
  assert (∀ b, 0 ≤ b < 2 + SFS_BITBLOCKS n → new_used n b = true) as Hlow
    by (intros b Hb0; unfold new_used, SFS_MAP_LOCATION; lia).
  assert (∀ a i, ({[SFS_ROOT_LOCATION := root_inode]} : gmap Z sfs_inode) !! a = Some i → a = 1 ∧ i = root_inode) as Hone
    by (by intros a i [<- <-]%lookup_singleton_Some).
  split.
  - split; simpl; [done|lia|lia|by apply new_map_wf|done| |].
    + intros b Hb0. rewrite Hbit by lia. unfold new_used, SFS_MAP_LOCATION. lia.
    + rewrite Hbit, Hlow by lia. done.
  - exists []. split_and!; [by apply array_create_repr|constructor|].
    intros l. split; [by intros ?%not_elem_of_nil|by intros []].
  - intros l sv Hl0. simpl in Hl0. by rewrite lookup_empty in Hl0.
  - intros l l' ino (sv & Hl0 & _). simpl in Hl0. by rewrite lookup_empty in Hl0.
  - intros a i [-> ->]%Hone. split; [simpl; lia|].
    split; [rewrite Hbit by lia; apply Hlow; lia|]. split; [apply root_file_ok; simpl; lia|by eexists].
  - intros a i [-> ->]%Hone. by right.
  - intros a b i j [-> ->]%Hone [-> ->]%Hone Hne. done.
  - intros a b i j [-> ->]%Hone _. apply root_owns.
  - split; simpl.
    + split; [apply new_super_ok; [done|unfold is_u32; lia]|]. split; [done|by apply new_super_end].
    + done.
    + intros b [->|Hb0]; (split; [simpl in *; unfold SFS_MAP_LOCATION, SFS_SB_LOCATION in *; lia|]).
      * rewrite Hbit, Hlow; unfold SFS_SB_LOCATION; lia.
      * unfold SFS_MAP_LOCATION in Hb0. simpl in Hb0. rewrite Hbit, Hlow; lia.
    + intros b a i Hres [-> ->]%Hone. split; [|apply root_owns].
      destruct Hres as [->|Hb0]; [done|]. unfold SFS_MAP_LOCATION in Hb0. lia.
    + done.
    + intros _ j Hj. by apply Hmap.
Qed.

Lemma new_vol_ns name n buf d ms :
  let S := mounted d (new_super name n) (new_map n buf) ms in
  vol_wf S {[SFS_ROOT_LOCATION := root_inode]} → vol_ns S {[SFS_ROOT_LOCATION := root_inode]} ∅.
Proof.
  intros S Hwf. assert (dslots root_inode = 0) as Hds by done. split.
  - exists root_inode. split; [by apply lookup_singleton_eq|]. split; [|done]. split.
    + split; [apply Hwf|by apply (vw_inode _ _ Hwf SFS_ROOT_LOCATION), lookup_singleton_eq|done|done|done|..]; intros; lia.
    + intros s ino. rewrite lookup_empty. split; [done|]. intros (k & Hk & _). lia.
  - intros s ino Hs. by rewrite lookup_empty in Hs.
  - intros ino i [<- _]%lookup_singleton_Some Hne. done.
  - intros ino i [<- _]%lookup_singleton_Some Hne. done.
Qed.

Lemma new_mount_spec HOST name n buf file d ms Q :
  2 < n ≤ BUFBITS → zlen name < SFS_VOLNAME_SIZE → marks buf (new_used n) → has_image HOST d file n →
  (∀ b bs, 0 ≤ b → new_blocks name n buf b = Some bs → file_block HOST file b = bs) →
  (∀ d', let S := mounted d' (new_super name n) (new_map n buf) ms in
     vol_wf S {[SFS_ROOT_LOCATION := root_inode]} → vol_ns S {[SFS_ROOT_LOCATION := root_inode]} ∅ → Q (Ret S) d') →
  (∀ d', Q (Fail EIO) d') →
  wp (sfs_domount true true true true ms) Q d.
Proof.
  intros Hn Hl Hm Himg Hbl HQ HF. destruct (new_disk_holds HOST name n buf file d Hn Hl Hm Himg Hbl) as [Hd _].
  eapply sfs_domount_spec; [exact Hd| |auto]. intros d' (Hdev & Hnb & Hsec).
  assert (has_image HOST d' file n) as Himg'.
  { destruct Himg as (_ & Hb & Hs). split; [done|]. split; [congruence|]. intros b Hb0. rewrite Hsec. by apply Hs. }
  destruct (new_disk_holds HOST name n buf file d' Hn Hl Hm Himg' Hbl) as [Hd' Hroot].
  assert (vol_wf (mounted d' (new_super name n) (new_map n buf) ms) {[SFS_ROOT_LOCATION := root_inode]}) as Hwf
    by (apply new_vol_wf; try done; apply Himg').
  apply HQ; [done|]. by apply new_vol_ns.
Qed.

(** C19: A new volume can be mounted.  Given a legal name and a disk (or disk
    image) of 3 to 131072 blocks, with interrupted and short writes but none that
    fails, [mksfs] returns 0.  It leaves the header and the size of the file and
    all blocks past the free map as they were, and [sfs_domount] of the disk
    finds an empty volume of that name that satisfies the invariant of the file
    system, in which exactly the blocks after the free map are free (or the disk
    fails with EIO; the allocations of the mount are taken to succeed). *)
Theorem mksfs_mount HOST arg name c n s ms :
  mksfs_start s → names_volume arg name → disk_image HOST (mk_file s) n → 2 < n ≤ BUFBITS →
  calls_succeed c → good_writes (mk_writes s) →
  ∃ s', main HOST 3 arg c s = (Ret (), s') ∧ zlen (mk_file s') = zlen (mk_file s) ∧
    take (Z.to_nat (header HOST * BLOCKSIZE)) (mk_file s') = take (Z.to_nat (header HOST * BLOCKSIZE)) (mk_file s) ∧
    (∀ b, SFS_MAP_LOCATION + SFS_BITBLOCKS n ≤ b → file_block HOST (mk_file s') b = file_block HOST (mk_file s) b) ∧
    ∀ d, has_image HOST d (mk_file s') n →
      match sfs_domount true true true true ms d with
      | (Ret V, _) =>
          vol_wf V {[SFS_ROOT_LOCATION := root_inode]} ∧ vol_ns V {[SFS_ROOT_LOCATION := root_inode]} ∅ ∧
          cstr (sfs_getvolname V) name ∧
          ∀ b, 0 ≤ b < n → bit (sfs_freemap (vl_fs V)) b = bool_decide (b < SFS_MAP_LOCATION + SFS_BITBLOCKS n)
      | (Fail e, _) => e = EIO
      | (Halt _, _) => False
      end.
Proof.
  intros Hs Harg Hdisk Hn Hcalls Hgood. destruct (bitblocks_range n Hn) as (_ & Hnb & Hle & _).
  assert (Forall (λ c, c ≠ 0) name ∧ zlen name < SFS_VOLNAME_SIZE) as [Hnz Hl].
  { destruct Harg as ([[? _]|[?%Forall_app _]] & _ & _ & _ & ?); tauto. }
  enough (wp (main HOST 3 arg c) (returns (λ _ s', ∃ s1 buf, marks buf (new_used n) ∧
    mk_wrote HOST (set_mk_nblocks n (set_mk_open true s)) (new_blocks name n buf) s1 ∧ s' = set_mk_open false s1)) s) as Hrun.
  { apply wp_returns_run in Hrun as ([] & s' & Hrun & s1 & buf & Hm & [_ _ _ Hsz Hhd Hbl] & ->). simpl in Hsz, Hhd.
    exists (set_mk_open false s1). split; [done|]. split; [done|]. split; [done|]. split.
    - intros b Hb. unfold SFS_MAP_LOCATION in Hb. simpl. rewrite Hbl by lia. unfold new_blocks, map_blocks.
      unfold SFS_SB_LOCATION, SFS_ROOT_LOCATION, SFS_MAP_LOCATION. by rewrite !decide_False by lia.
    - intros d Himg. apply (wp_elim (sfs_domount true true true true ms) _ d).
      eapply (new_mount_spec HOST name n buf); try done.
      { intros b bs Hb Hbs. simpl. by rewrite Hbl, Hbs. }
      intros d' V Hwf Hns. split; [done|]. split; [done|]. split.
      + unfold SFS_VOLNAME_SIZE, zlen in Hl. split; [done|]. exists (replicate (31 - length name) 0).
        change (sfs_getvolname V) with (name ++ replicate (32 - length name) 0).
        by replace (32 - length name)%nat with (S (31 - length name)) by lia.
      + intros b Hb. pose proof (new_map_bit n buf b Hn Hm ltac:(lia)) as Hbit. unfold new_used in Hbit.
        etrans; [exact Hbit|]. case_bool_decide; lia. }
  apply (main_spec HOST arg name c n); try done. intros s' buf Hm Hw. by exists s', buf.
Qed.
End mount.

(** ** A disk image of six blocks *)

Definition image_lhd (HOST : bool) (file : list Z) (n : Z) : lhd_softc ramcard :=
  {| lh_hw := {| rc_sectors := file_block HOST file <$> seqZ 0 n; rc_faults := [] |};
     lh_buf := replicate 512 0; lh_reg_sect := 0; lh_reg_stat := 0; lh_result := None;
     lh_clear := 1; lh_done := 0; lh_blocks := n |}.

Lemma image_lhd_has HOST file n :
  0 ≤ n < 2 ^ 22 → (n + header HOST) * BLOCKSIZE ≤ zlen file → has_image HOST (image_lhd HOST file n) file n.
Proof.
  intros Hn Hfit. assert (0 ≤ header HOST) by (by destruct HOST). split; [|split; [done|]].
  - split; simpl; [done|done|done| |lia]. unfold zlen. rewrite length_fmap, length_seqZ. lia.
  - intros b Hb. simpl. unfold ramcard_sector. simpl. rewrite zlookup_nat, list_lookup_fmap by lia.
    rewrite lookup_seqZ_lt by lia. simpl. rewrite Z2Nat.id by lia. apply sector_pad_id.
    unfold file_block, BLOCKSIZE, LHD_SECTSIZE, zlen in *. rewrite length_take, length_drop. lia.
Qed.

Definition image_state : mkstate :=
  {| mk_open := false; mk_file := take 21 HOSTSTRING ++ replicate (7 * 512 - 21) 0; mk_pos := 0;
     mk_writes := [WLen 100; WAgain; WLen 512; WAgain]; mk_nblocks := 0;
     mk_bitbuf := replicate (Z.to_nat (MAXBITBLOCKS * SFS_BLOCKSIZE)) 0 |}.
Definition image_calls : mkcalls := {| c_open := true; c_fstat := true; c_read := Some 63; c_close := true |}.

Lemma mksfs_mount_witness :
  ∃ s', main true 3 [118; 58; 0] image_calls image_state = (Ret (), s') ∧
    match sfs_domount true true true true [] (image_lhd true (mk_file s') 6) with
    | (Ret V, _) => vol_ns V {[SFS_ROOT_LOCATION := root_inode]} ∅ ∧ bit (sfs_freemap (vl_fs V)) 3 = false
    | (Fail e, _) => e = EIO
    | (Halt _, _) => False
    end.
Proof.
  destruct (mksfs_mount (D := lhd_softc ramcard) true [118; 58; 0] [118] image_calls 6 image_state [])
    as (s' & Hrun & Hsz & _ & _ & Hmount).
  - split; done.
  - split; [right; split; [repeat constructor; done|by exists []]|].
    split_and!; [by repeat constructor|by intros ?%list_elem_of_singleton..|done].
  - split; [vm_compute; reflexivity|]. intros _. vm_compute. reflexivity.
  - done.
  - split_and!; [done..|]. exists 63. split; [done|lia].
  - repeat constructor.
  - exists s'. split; [done|].
    assert (has_image true (image_lhd true (mk_file s') 6) (mk_file s') 6) as Himg.
    { apply image_lhd_has; [lia|]. rewrite Hsz. vm_compute. discriminate. }
    specialize (Hmount _ Himg). destruct (sfs_domount true true true true [] _) as [[V|e|k] d']; [|done|done].
    destruct Hmount as (_ & Hns & _ & Hbits). split; [done|]. rewrite Hbits by lia. vm_compute. reflexivity.
Defined.

(** The name of the volume is checked before the disk is opened: with a slash, or
    a colon that is not the last character, nothing is touched. *)
Theorem mksfs_bad_name HOST arg s1 x s2 c s :
  cstr arg (s1 ++ x :: s2) → Forall is_u8 (s1 ++ x :: s2) → (x = 58 ∧ s2 ≠ [] ∧ (58 ∉ s1) ∨ x = 47 ∧ (58 ∉ s1 ++ x :: s2)) →
  main HOST 3 arg c s = (Halt (Exited 1), s).
Proof.
  intros Harg Hu Hbad. apply wp_eq_intro. unfold main. simpl negb. cbv iota. wp_step. unfold check.
  wp_step. apply wp_assert; [done|]. wp_step. apply wp_assert; [done|]. apply wp_assert; [done|].
  wp_step. unfold mksfs_volname. wp_step. pose proof Hu as [Hu1 _]%Forall_app. destruct Hbad as [(-> & Hne & Hno)|[-> Hno]].
  - eapply wp_deref; [eapply (strchr_Some arg s1 58 s2); [done|done|]|].
    { intros d Hd. by apply (u8_not_char s1). }
    wp_step. wp_step. eapply wp_deref; [apply (strlen_cstr _ (58 :: s2)); by apply cstr_skip|].
    destruct s2 as [|y s2]; [done|]. unfold zlen. simpl length. rewrite (proj2 (Z.eqb_neq _ _)) by lia. done.
  - eapply wp_deref; [eapply strchr_None; [exact Harg|done|]|].
    { intros d Hd. by apply (u8_not_char _ 58 d Hu). }
    wp_step. wp_step. wp_step. destruct (strchr_mem arg _ 47 Harg ltac:(done)) as (r & Hr & Hin).
    eapply wp_deref; [exact Hr|]. destruct r as [k|]; [done|].
    destruct (proj2 Hin) as [? ?]; [|done]. exists 47. split; [|done]. apply elem_of_app. right. left.
Qed.
