(* ===== verification/ExecArgs.v ===== *)
(** * The arguments of a new program (kern/userprog/proc_syscalls.c)

    [copyin_args] gathers the strings of a user argument vector in a kernel
    buffer, [copyout_args] lays them out on the stack of the program that is
    started.  The state is the user memory and the [struct argvdata]; a pointer
    into the buffer is an index. *)

From S2P Require Import Prelude CopyInOut Uio SfsDisk.

Definition ARG_MAX : Z := 4.
Definition NARG_MAX : Z := 4.

(** [ad_held] says whether the caller has the lock. *)
Record argvdata := {
  ad_buffer : list Z;
  ad_bufend : Z;
  ad_offsets : list Z;
  ad_nargs : Z;
  ad_held : bool;
}.

Definition ad_reset (ad : argvdata) : argvdata :=
  {| ad_buffer := ad_buffer ad; ad_bufend := 0; ad_offsets := ad_offsets ad; ad_nargs := 0; ad_held := ad_held ad |}.
Definition ad_add (buffer offsets : list Z) (arglen : Z) (ad : argvdata) : argvdata :=
  {| ad_buffer := buffer; ad_bufend := ad_bufend ad + arglen; ad_offsets := offsets;
     ad_nargs := ad_nargs ad + 1; ad_held := ad_held ad |}.

Abbreviation argst := (memory * argvdata)%type.

(** The iterations left are [NARG_MAX + 1 - nargs]. *)
Fixpoint copyin_args_loop (fuel : nat) (argv bufresid : Z) : M argst unit :=
  match fuel with
  | O => mret ()
  | S fuel' =>
      bs ← on_fst (copyin argv 4);
      let argptr := of_be bs in
      if argptr =? 0 then mret ()
      else
        s ← get;
        let ad := (s : argst).2 in
        if ad_nargs ad >=? NARG_MAX then fail E2BIG
        else
          result ← attempt (on_fst (copyinstr argptr bufresid));
          match result with
          | inr ENAMETOOLONG => fail E2BIG
          | inr e => fail e
          | inl str =>
              buffer ← deref (splice (ad_bufend ad) str (ad_buffer ad));
              offsets ← deref (splice (ad_nargs ad) [ARG_MAX - bufresid] (ad_offsets ad));
              _ ← on_snd (modify (ad_add buffer offsets (zlen str)));
              copyin_args_loop fuel' (u32 (argv + 4)) (bufresid - zlen str)
          end
  end.

Definition copyin_args (argv : Z) : M argst unit :=
  s ← get;
  _ ← assert (ad_held (s : argst).2);
  _ ← on_snd (modify ad_reset);
  copyin_args_loop (Z.to_nat (NARG_MAX + 1)) argv ARG_MAX.

(** [argv[i..]] and the terminator. *)
Fixpoint copyout_ptrs (argbase : Z) (idxs : list Z) (userargv : Z) : M argst unit :=
  match idxs with
  | [] => on_fst (copyout (be32 0) userargv 4)
  | i :: idxs' =>
      s ← get;
      off ← deref (ad_offsets (s : argst).2 !z i);
      _ ← on_fst (copyout (be32 (u32 (argbase + off))) userargv 4);
      copyout_ptrs argbase idxs' (u32 (userargv + 4))
  end.

(** Returns [*argv] and [*stackptr]. *)
Definition copyout_args (stackptr : Z) : M argst (Z * Z) :=
  s ← get;
  let ad := (s : argst).2 in
  _ ← assert (ad_held ad);
  let buflen := ad_bufend ad in
  let stack := u32 (stackptr - buflen) in
  let argbase := u32 (stack - Z.land stack 3) in
  _ ← on_fst (copyout (ad_buffer ad) argbase buflen);
  let stack := u32 (argbase - u32 ((ad_nargs ad + 1) * 4)) in
  _ ← copyout_ptrs argbase (seqZ 0 (ad_nargs ad)) stack;
  mret (stack, stack).

(** ** What the data means *)

Definition arg_bytes (args : list (list Z)) : list Z := args ≫= λ s, s ++ [0].

Fixpoint arg_offsets (o : Z) (args : list (list Z)) : list Z :=
  match args with [] => [] | s :: args' => o :: arg_offsets (o + zlen s + 1) args' end.

(** The buffer has the arguments [args]. *)
Record args_held (ad : argvdata) (args : list (list Z)) : Prop := {
  ah_buffer : zlen (ad_buffer ad) = ARG_MAX;
  ah_offsets : zlen (ad_offsets ad) = NARG_MAX;
  ah_bytes : take (Z.to_nat (ad_bufend ad)) (ad_buffer ad) = arg_bytes args;
  ah_end : ad_bufend ad = zlen (arg_bytes args);
  ah_offs : take (Z.to_nat (ad_nargs ad)) (ad_offsets ad) = arg_offsets 0 args;
  ah_nargs : ad_nargs ad = zlen args;
  ah_lock : ad_held ad = true;
}.

(** The user memory has the argument vector [args] at [a]. *)
Fixpoint argv_at (m : memory) (a : Z) (args : list (list Z)) : Prop :=
  user_region a 4 ∧ ∃ bs, zlen bs = 4 ∧ bytes_at m a bs ∧
  match args with
  | [] => of_be bs = 0
  | s :: args' => of_be bs ≠ 0 ∧ cstring_at m (of_be bs) s ∧ user_region (of_be bs) (zlen s + 1) ∧ argv_at m (a + 4) args'
  end.

Definition args_fit (args : list (list Z)) : Prop := zlen args ≤ NARG_MAX ∧ zlen (arg_bytes args) ≤ ARG_MAX.

Definition mem_u8 (m : memory) : Prop := ∀ i b, mbytes m !! i = Some b → is_u8 b.

Section proofs.
Implicit Types (m : memory) (ad : argvdata) (args : list (list Z)) (a : Z).

(** ** Strings and words in memory *)

Lemma cstring_unique m a s s' : cstring_at m a s → cstring_at m a s' → s = s'.
Proof.
  revert a s'. induction s as [|b s IH]; intros a [|b' s']; rewrite ?cstring_at_nil, ?cstring_at_cons; [done|intuition congruence..|].
  intros (_ & Hb & Hs) (_ & Hb' & Hs'). f_equal; [congruence|by eapply IH].
Qed.

Lemma of_be_u32 bs : Forall is_u8 bs → zlen bs = 4 → is_u32 (of_be bs).
Proof.
  intros Hf Hl. unfold zlen in Hl. destruct bs as [|b0 [|b1 [|b2 [|b3 [|]]]]]; simpl in Hl; try lia. unfold of_be, is_u32. simpl.
  repeat match goal with H : Forall _ (_ :: _) |- _ => apply Forall_cons in H as [? H] end. unfold is_u8 in *. lia.
Qed.

Lemma mem_u8_bytes m a bs : mem_u8 m → bytes_at m a bs → Forall is_u8 bs.
Proof. intros Hu Hb. apply Forall_lookup. intros i x Hx. by eapply Hu, Hb. Qed.

(** Any pointer, when the length does not reach around the address space. *)
Lemma copyinstr_ptr_spec a len Q m :
  is_u32 a → 0 ≤ len ≤ 2 ^ 31 →
  (∀ s, cstring_at m a s → zlen s + 1 ≤ len → user_region a (zlen s + 1) → Q (Ret (s ++ [0])) m) →
  (∀ e, e = EFAULT ∨ e = ENAMETOOLONG →
     ¬ (∃ s, cstring_at m a s ∧ zlen s + 1 ≤ len ∧ user_region a (zlen s + 1)) → Q (Fail e) m) →
  wp (copyinstr a len) Q m.
Proof.
  intros Ha Hlen HQ HF. unfold is_u32 in Ha. destruct (decide (a + len ≤ 2 ^ 32)) as [Hw|Hw].
  { apply copyinstr_spec; [done|unfold is_u32; lia|done|done|done]. }
  unfold copyinstr. wp_step. apply copycheck_spec; [done|unfold is_u32; lia|unfold USERTOP; lia| |lia].
  intros _. apply HF; [by left|]. intros (s & _ & _ & Hr). unfold user_region, USERTOP in Hr. pose proof (zlen_nonneg s). lia.
Qed.

Lemma arg_bytes_app args args' : arg_bytes (args ++ args') = arg_bytes args ++ arg_bytes args'.
Proof. apply bind_app. Qed.

Lemma arg_bytes_one s : arg_bytes [s] = s ++ [0].
Proof. unfold arg_bytes. by rewrite bind_cons, app_nil_r. Qed.

Lemma arg_bytes_cons s args : zlen (arg_bytes (s :: args)) = zlen s + 1 + zlen (arg_bytes args).
Proof. unfold arg_bytes, zlen. rewrite bind_cons, !length_app. simpl. lia. Qed.

Lemma arg_offsets_app o args s :
  arg_offsets o (args ++ [s]) = arg_offsets o args ++ [o + zlen (arg_bytes args)].
Proof.
  revert o. induction args as [|s' args IH]; intros o; cbn [app arg_offsets]; [f_equal; unfold arg_bytes, zlen; simpl; lia|].
  rewrite IH, arg_bytes_cons, !Z.add_assoc. done.
Qed.

Lemma length_arg_offsets o args : length (arg_offsets o args) = length args.
Proof. revert o. induction args; intros o; simpl; auto. Qed.

Lemma take_splice pos bs buf :
  0 ≤ pos → pos + zlen bs ≤ zlen buf →
  ∃ buf', splice pos bs buf = Some buf' ∧ zlen buf' = zlen buf ∧
    take (Z.to_nat (pos + zlen bs)) buf' = take (Z.to_nat pos) buf ++ bs.
Proof.
  intros Hp Hl. unfold splice. rewrite decide_True by lia. eexists. split; [done|]. unfold zlen in *.
  rewrite !length_app, length_take, length_drop. split; [lia|]. rewrite app_assoc, take_app_le by (rewrite length_app, length_take; lia).
  apply take_ge. rewrite length_app, length_take. lia.
Qed.

(** ** Copying in *)

Lemma args_held_add ad args s buffer offsets bufresid :
  args_held ad args → bufresid = ARG_MAX - ad_bufend ad → zlen s + 1 ≤ bufresid → ad_nargs ad < NARG_MAX →
  splice (ad_bufend ad) (s ++ [0]) (ad_buffer ad) = Some buffer →
  splice (ad_nargs ad) [ARG_MAX - bufresid] (ad_offsets ad) = Some offsets →
  args_held (ad_add buffer offsets (zlen (s ++ [0])) ad) (args ++ [s]).
Proof.
  intros [Hb Ho Hby He Hof Hn Hl] -> Hs Hlt Hsp1 Hsp2. pose proof (zlen_nonneg (arg_bytes args)). pose proof (zlen_nonneg args).
  destruct (take_splice (ad_bufend ad) (s ++ [0]) (ad_buffer ad)) as (b' & Hb' & Hlb & Htb); [lia|rewrite zlen_app; unfold zlen at 2; simpl; lia|].
  destruct (take_splice (ad_nargs ad) [ARG_MAX - (ARG_MAX - ad_bufend ad)] (ad_offsets ad)) as (o' & Ho' & Hlo & Hto); [lia|unfold zlen at 1; simpl; lia|].
  rewrite Hb' in Hsp1. rewrite Ho' in Hsp2. simplify_eq. split; cbn [ad_add ad_buffer ad_bufend ad_offsets ad_nargs ad_held].
  - lia.
  - lia.
  - by rewrite Htb, Hby, arg_bytes_app, arg_bytes_one.
  - by rewrite arg_bytes_app, arg_bytes_one, (zlen_app (arg_bytes args)), He.
  - change (zlen [ARG_MAX - (ARG_MAX - ad_bufend ad)]) with 1 in Hto. rewrite Hto, Hof, arg_offsets_app. do 2 f_equal. lia.
  - rewrite zlen_app, Hn. done.
  - done.
Qed.

Lemma copyin_args_loop_spec fuel : ∀ m ad argv bufresid args Q,
  mem_u8 m → is_u32 argv → args_held ad args → bufresid = ARG_MAX - ad_bufend ad → args_fit args →
  Z.of_nat fuel + ad_nargs ad = NARG_MAX + 1 →
  (∀ ad' rest, argv_at m argv rest → args_fit (args ++ rest) → args_held ad' (args ++ rest) → Q (Ret ()) (m, ad')) →
  (∀ e ad', e = E2BIG ∨ e = EFAULT → (∀ rest, argv_at m argv rest → ¬ args_fit (args ++ rest)) → Q (Fail e) (m, ad')) →
  wp (copyin_args_loop fuel argv bufresid) Q (m, ad).
Proof.
  induction fuel as [|fuel IH]; intros m ad argv bufresid args Q Hu Hargv Hh Hres Hfit Hfuel HQ HF.
  { destruct Hfit as [Hfit _]. pose proof (ah_nargs _ _ Hh). lia. }
  pose proof (ah_nargs _ _ Hh) as Hn. pose proof (ah_end _ _ Hh) as He. pose proof (zlen_nonneg (arg_bytes args)).
  simpl. wp_step. wp_step. apply copyin_spec; [done|done| |].
  2: { intros Hbad. apply HF; [by right|]. intros rest Hat. exfalso. apply Hbad. split; [lia|].
       assert (user_region argv 4 ∧ ∃ bs, zlen bs = 4 ∧ bytes_at m argv bs) as (Hr & bs & Hl & Hbs)
         by (destruct rest; destruct Hat as (? & bs & ? & ? & _); eauto).
       split; [done|]. intros i Hi. destruct (lookup_lt_is_Some_2 bs (Z.to_nat (i - argv))) as [x Hx]; [unfold zlen in Hl; lia|].
       exists x. apply Hbs in Hx. rewrite <- Hx. f_equal. lia. }
  intros bs _ Hr Hl Hbs. assert (bytes_at m argv bs) as Hat.
  { intros i x Hx. pose proof (lookup_lt_Some _ _ _ Hx). unfold zlen in Hl. rewrite <- Hbs, zlookup_nat, Nat2Z.id by lia. done. }
  assert (∀ rest, argv_at m argv rest → match rest with [] => of_be bs = 0
    | s :: rest' => of_be bs ≠ 0 ∧ cstring_at m (of_be bs) s ∧ user_region (of_be bs) (zlen s + 1) ∧ argv_at m (argv + 4) rest' end) as Hinv.
  { intros rest Hrest. destruct rest; destruct Hrest as (_ & bs2 & Hl2 & Hat2 & Hrest);
      (rewrite (bytes_at_unique m argv bs bs2); [done|unfold zlen in *; lia|done|done]). }
  pose proof (of_be_u32 bs (mem_u8_bytes _ _ _ Hu Hat) Hl) as Hp. cbv zeta.
  destruct (Z.eqb_spec (of_be bs) 0) as [Hz|Hnz].
  { wp_step. apply (HQ ad []); [split; [done|by exists bs]|by rewrite app_nil_r..]. }
  wp_step. wp_step. cbn [snd]. rewrite Z.geb_leb. destruct (Z.leb_spec NARG_MAX (ad_nargs ad)) as [Hmax|Hmax].
  { wp_step. apply HF; [by left|]. intros [|s rest] Hat'%Hinv; [done|]. intros [Hlen _]. rewrite zlen_app in Hlen. unfold zlen at 2 in Hlen. simpl in Hlen. lia. }
  assert (∀ s rest, args_fit (args ++ s :: rest) → zlen s + 1 ≤ bufresid) as Hroom.
  { intros s rest [_ Hb]. rewrite arg_bytes_app, zlen_app, arg_bytes_cons in Hb. pose proof (zlen_nonneg (arg_bytes rest)). lia. }
  assert (0 ≤ bufresid ≤ 2 ^ 31) as Hbr by (destruct Hfit as [_ Hfit]; unfold ARG_MAX in *; lia).
  wp_step. apply wp_attempt. wp_step. apply copyinstr_ptr_spec; [done|done| |].
  2: { intros e He' Hno. assert (∀ rest, argv_at m argv rest → ¬ args_fit (args ++ rest)) as Hbad.
       { intros [|s rest] Hat'%Hinv; [done|]. destruct Hat' as (_ & Hcs & Hreg & _). intros Hf. apply Hno. eauto. }
       destruct He' as [-> | ->]; wp_step; apply HF; auto. }
  intros s Hcs Hs Hreg. cbn [fst snd]. pose proof (ah_buffer _ _ Hh) as Hlb. pose proof (ah_offsets _ _ Hh) as Hlo.
  destruct (take_splice (ad_bufend ad) (s ++ [0]) (ad_buffer ad)) as (buf & Hsp & _); [lia|rewrite zlen_app; unfold zlen at 2; simpl; lia|].
  destruct (take_splice (ad_nargs ad) [ARG_MAX - bufresid] (ad_offsets ad)) as (offs & Hso & _); [pose proof (zlen_nonneg args); lia|unfold zlen at 1; simpl; lia|].
  wp_step. eapply wp_deref; [exact Hsp|]. wp_step. eapply wp_deref; [exact Hso|]. wp_step. wp_step. wp_step.
  pose proof (args_held_add ad args s buf offs bufresid Hh Hres Hs Hmax Hsp Hso) as Hh'.
  unfold user_region, USERTOP in Hr. rewrite u32_small by (unfold is_u32; lia).
  eapply (IH m _ (argv + 4) _ (args ++ [s])); [done|unfold is_u32; lia|done| | | | |].
  - simpl. lia.
  - split; [rewrite zlen_app; unfold zlen at 2; simpl; lia|].
    rewrite arg_bytes_app, arg_bytes_one, !zlen_app. unfold zlen at 3. simpl. lia.
  - simpl. lia.
  - intros ad' rest Hat' Hf' Hh2. rewrite <- app_assoc in Hf', Hh2. apply (HQ ad' (s :: rest)); [|done|done]. split; [done|]. exists bs. done.
  - intros e ad' He' Hbad. apply HF; [done|]. intros [|s2 rest] Hat'%Hinv; [done|]. destruct Hat' as (_ & Hcs2 & _ & Hat2).
    rewrite (cstring_unique _ _ _ _ Hcs2 Hcs). intros Hf. apply (Hbad rest Hat2). by rewrite <- app_assoc.
Qed.
(** ** Copying out *)

Lemma stored_writable m a bs m' b len : stored m a bs m' → writable m b len → writable m' b len.
Proof.
  intros [Hro Hst] Hw i Hi. specialize (Hw i Hi). unfold mem_writable in *. rewrite Hro. apply andb_true_iff in Hw as [Hs Hr].
  rewrite Hr, andb_true_r. apply bool_decide_eq_true in Hs. apply bool_decide_eq_true. rewrite Hst. destruct (decide (a ≤ i < a + zlen bs)) as [Hin|]; [|done].
  rewrite zlookup_nat by lia. apply lookup_lt_is_Some_2. unfold zlen in Hin. lia.
Qed.

Lemma stored_bytes m a bs m' : stored m a bs m' → bytes_at m' a bs.
Proof.
  intros [_ Hm] k x Hx. rewrite Hm. apply lookup_lt_Some in Hx as Hlt.
  rewrite decide_True by (unfold zlen; lia). rewrite zlookup_nat by lia. rewrite <- Hx. f_equal. lia.
Qed.

Lemma writable_sub m a len b len' : writable m a len → a ≤ b → b + len' ≤ a + len → writable m b len'.
Proof. intros Hw ? ? i Hi. apply Hw. lia. Qed.

Definition arg_ptrs (base : Z) (os : list Z) : list Z := (λ o, u32 (base + o)) <$> os.

Lemma copyout_ptrs_spec base ad os : ∀ i a m Q,
  (∀ j x, os !! j = Some x → ad_offsets ad !z (i + Z.of_nat j) = Some x) →
  user_region a (4 * (zlen os + 1)) → writable m a (4 * (zlen os + 1)) →
  (∀ m', stored m a (encode_words (arg_ptrs base os) ++ be32 0) m' → Q (Ret ()) (m', ad)) →
  wp (copyout_ptrs base (seqZ i (zlen os)) a) Q (m, ad).
Proof.
  induction os as [|o os IH]; intros i a m Q Hos Hr Hw HQ; unfold user_region, USERTOP in Hr.
  - simpl. wp_step. apply copyout_spec; [unfold is_u32; unfold zlen in Hr; simpl in Hr; lia|done|done| |].
    + intros m' _ _ _ Hst. by apply HQ.
    + intros m' k Hbad. destruct Hbad. split_and!; [done|unfold user_region, USERTOP; unfold zlen in Hr; simpl in Hr; lia|exact Hw].
  - assert (zlen (o :: os) = zlen os + 1) as Hl by (unfold zlen; simpl; lia). pose proof (zlen_nonneg os). rewrite Hl in *.
    rewrite seqZ_cons by lia. replace (Z.pred (zlen os + 1)) with (zlen os) by lia. simpl. wp_step. wp_step. wp_step. simpl.
    eapply wp_deref; [rewrite <- (Hos 0%nat o) by done; f_equal; lia|]. wp_step. wp_step.
    apply copyout_spec; [unfold is_u32; lia|done|done| |].
    + intros m1 _ _ _ Hst. change (take (Z.to_nat 4) (be32 (u32 (base + o)))) with (be32 (u32 (base + o))) in Hst.
      rewrite u32_small by (unfold is_u32; lia). apply IH.
      * intros j x Hx. rewrite <- (Hos (S j) x) by done. f_equal. lia.
      * unfold user_region, USERTOP. lia.
      * eapply stored_writable; [done|]. eapply writable_sub; [done|lia|lia].
      * intros m' Hst'. apply HQ. unfold arg_ptrs. rewrite fmap_cons. unfold encode_words. rewrite bind_cons, <- app_assoc.
        by eapply stored_app.
    + intros m' k Hbad. destruct Hbad. split_and!; [done|unfold user_region, USERTOP; lia|]. eapply writable_sub; [done|lia|lia].
Qed.

(** The vector and the strings are in memory. *)
Lemma argv_laid_out m base args : ∀ a o pre,
  bytes_at m base (pre ++ arg_bytes args) → zlen pre = o → 0 < base → base + zlen (pre ++ arg_bytes args) ≤ USERTOP →
  bytes_at m a (encode_words (arg_ptrs base (arg_offsets o args)) ++ be32 0) →
  Forall (λ s, 0 ∉ s) args → 0 ≤ a → a + 4 * (zlen args + 1) ≤ USERTOP → argv_at m a args.
Proof.
  induction args as [|s args IH]; intros a o pre Hst Ho Hb Hbe Hv Hnz Ha Hae; unfold USERTOP in *.
  - split; [unfold user_region, USERTOP; unfold zlen in Hae; simpl in Hae; lia|]. by exists (be32 0).
  - assert (zlen (s :: args) = zlen args + 1) as Hl by (unfold zlen; simpl; lia). pose proof (zlen_nonneg args). rewrite Hl in Hae.
    pose proof (arg_bytes_cons s args) as Hbc. rewrite zlen_app, Hbc in Hbe. pose proof (zlen_nonneg (arg_bytes args)). pose proof (zlen_nonneg s). pose proof (zlen_nonneg pre).
    unfold arg_ptrs in Hv. cbn [arg_offsets] in Hv. rewrite fmap_cons in Hv. unfold encode_words in Hv. rewrite bind_cons, <- app_assoc in Hv.
    unfold arg_bytes in Hst. rewrite bind_cons in Hst. apply Forall_cons in Hnz as [Hn Hnz]. rewrite u32_small in Hv by (unfold is_u32; lia).
    split; [unfold user_region, USERTOP; lia|]. exists (be32 (base + o)). split; [done|].
    split; [intros i x Hx; apply Hv; by apply lookup_app_l_Some|]. rewrite of_be_be32 by (unfold is_u32; lia). split_and!; [lia| | |].
    + split; [|done]. intros i x Hx. replace (base + o + Z.of_nat i) with (base + Z.of_nat (length pre + i)) by (unfold zlen in *; lia).
      apply Hst. rewrite lookup_app_r by lia. replace (length pre + i - length pre)%nat with i by lia. by apply lookup_app_l_Some.
    + unfold user_region, USERTOP. lia.
    + apply (IH (a + 4) (o + zlen s + 1) (pre ++ s ++ [0])); [|rewrite !zlen_app; unfold zlen at 3; simpl; lia|lia| | |done|lia|lia].
      * by rewrite <- app_assoc.
      * rewrite !zlen_app. unfold zlen at 3. simpl. lia.
      * intros i x Hx. replace (a + 4 + Z.of_nat i) with (a + Z.of_nat (4 + i)) by lia. apply Hv.
        rewrite lookup_app_r by (simpl; lia). by replace (4 + i - length (be32 (base + o)))%nat with i by (simpl; lia).
Qed.

Lemma argv_at_strings m a args : argv_at m a args → Forall (λ s, 0 ∉ s) args.
Proof.
  revert a. induction args as [|s args IH]; intros a (_ & bs & _ & _ & Hc); [constructor|]. destruct Hc as (_ & [_ Hs] & _ & Hr). constructor; eauto.
Qed.
Lemma arg_bytes_le ad args : args_held ad args → zlen (arg_bytes args) ≤ ARG_MAX.
Proof.
  intros Hh. rewrite <- (ah_bytes _ _ Hh), <- (ah_buffer _ _ Hh). unfold zlen. rewrite length_take. lia.
Qed.

Lemma args_held_count ad args : args_held ad args → zlen args ≤ NARG_MAX.
Proof.
  intros Hh. pose proof (ah_offs _ _ Hh) as Ho. apply (f_equal length) in Ho. rewrite length_take, length_arg_offsets in Ho.
  pose proof (ah_offsets _ _ Hh). unfold zlen in *. lia.
Qed.

Lemma zlen_vector base o args : zlen (encode_words (arg_ptrs base (arg_offsets o args)) ++ be32 0) = 4 * (zlen args + 1).
Proof. unfold zlen, arg_ptrs. rewrite length_app, length_encode_words, length_fmap, length_arg_offsets. simpl. lia. Qed.

(** Where the strings and the vector go below [stackptr]. *)
Definition arg_base (stackptr : Z) args : Z :=
  let s := stackptr - zlen (arg_bytes args) in s - s mod 4.
Definition arg_sp (stackptr : Z) args : Z := arg_base stackptr args - 4 * (zlen args + 1).

Lemma land3 x : Z.land x 3 = x mod 4.
Proof. apply (Z.land_ones x 2). lia. Qed.

Lemma offsets_held ad args j x :
  args_held ad args → arg_offsets 0 args !! j = Some x → ad_offsets ad !z (0 + Z.of_nat j) = Some x.
Proof.
  intros Hh Hx. rewrite Z.add_0_l, zlookup_nat, Nat2Z.id by lia. rewrite <- (ah_offs _ _ Hh) in Hx.
  rewrite lookup_take in Hx. by case_decide.
Qed.

Lemma copyout_args_spec m ad args stackptr Q :
  args_held ad args → args ≠ [] → Forall (λ s, 0 ∉ s) args →
  0 < arg_sp stackptr args → stackptr ≤ USERTOP → writable m (arg_sp stackptr args) (stackptr - arg_sp stackptr args) →
  (∀ m', argv_at m' (arg_sp stackptr args) args → mro m' = mro m →
     (∀ i, ¬ (arg_sp stackptr args ≤ i < stackptr) → mbytes m' !! i = mbytes m !! i) →
     Q (Ret (arg_sp stackptr args, arg_sp stackptr args)) (m', ad)) →
  wp (copyout_args stackptr) Q (m, ad).
Proof.
  intros Hh Hne Hnz Hsp Htop Hw HQ. pose proof (ah_end _ _ Hh) as He. pose proof (ah_nargs _ _ Hh) as Hn. pose proof (ah_buffer _ _ Hh) as Hlb.
  pose proof (zlen_nonneg args). assert (0 < zlen (arg_bytes args)) as Hpos.
  { destruct args as [|s args]; [done|]. rewrite arg_bytes_cons. pose proof (zlen_nonneg s). pose proof (zlen_nonneg (arg_bytes args)). lia. }
  assert (arg_base stackptr args + zlen (arg_bytes args) ≤ stackptr) as Hle by (unfold arg_base; pose proof (Z.mod_pos_bound (stackptr - zlen (arg_bytes args)) 4); lia).
  pose proof (arg_bytes_le ad args Hh) as Hab. unfold arg_sp, USERTOP in *.
  assert (arg_base stackptr args = u32 (u32 (stackptr - ad_bufend ad) - Z.land (u32 (stackptr - ad_bufend ad)) 3)) as Hbase.
  { rewrite He, (u32_small (stackptr - _)) by (unfold is_u32; lia). rewrite land3. unfold arg_base in *. rewrite u32_small by (unfold is_u32; lia). done. }
  unfold copyout_args. wp_step. wp_step. cbn [snd]. rewrite (ah_lock _ _ Hh). wp_step. apply wp_assert; [done|]. cbv zeta. rewrite <- Hbase.
  wp_step. wp_step. apply copyout_spec; [unfold is_u32; lia|unfold is_u32; lia|lia| |].
  2: { intros m1 k Hbad. destruct Hbad. split_and!; [lia|unfold user_region, USERTOP; lia|]. eapply writable_sub; [done|lia|lia]. }
  intros m1 _ _ _ Hst1. rewrite (ah_bytes _ _ Hh) in Hst1. wp_step.
  rewrite (u32_small ((ad_nargs ad + 1) * 4)), u32_small by (unfold is_u32, NARG_MAX in *; pose proof (args_held_count ad args Hh); unfold NARG_MAX in *; lia).
  replace (arg_base stackptr args - (ad_nargs ad + 1) * 4) with (arg_base stackptr args - 4 * (zlen args + 1)) by lia.
  assert (zlen (arg_offsets 0 args) = zlen args) as Hlo by (unfold zlen; by rewrite length_arg_offsets). rewrite Hn, <- Hlo at 1.
  apply copyout_ptrs_spec; rewrite ?Hlo; [intros j x; by apply offsets_held|unfold user_region, USERTOP; lia|eapply stored_writable; [done|]; eapply writable_sub; [done|lia|lia]|].
  intros m' Hst'. wp_step. apply HQ; cbn [fst].
  - apply (argv_laid_out m' (arg_base stackptr args) args _ 0 []); [|done|lia|simpl; unfold USERTOP; lia|by eapply stored_bytes|done|lia|unfold USERTOP; lia].
    intros i x Hx. destruct Hst' as [_ Hst']. rewrite Hst', decide_False; [by apply (stored_bytes _ _ _ _ Hst1)|]. rewrite zlen_vector. lia.
  - destruct Hst1, Hst'. congruence.
  - intros i Hi. destruct Hst1 as [_ Hst1], Hst' as [_ Hst']. rewrite Hst', Hst1, !decide_False; [done|lia|]. rewrite zlen_vector. lia.
Qed.
Lemma argv_unique m a args args' : argv_at m a args → argv_at m a args' → args = args'.
Proof.
  revert a args'. induction args as [|s args IH]; intros a [|s' args'] (_ & bs & Hl & Hb & Hc) (_ & bs' & Hl' & Hb' & Hc');
    (rewrite (bytes_at_unique m a bs' bs) in Hc'; [|unfold zlen in *; lia|done|done]); [done|by destruct Hc'|by destruct Hc|].
  destruct Hc as (_ & Hs & _ & Hr), Hc' as (_ & Hs' & _ & Hr'). f_equal; [by eapply cstring_unique|by eapply IH].
Qed.
End proofs.

(** ** Properties *)

(** [copyin_args] takes exactly the argument vectors that fit.  When the
    user memory has a vector of at most [NARG_MAX] strings, together at most
    [ARG_MAX] bytes with their terminators, the call returns and the buffer has
    these strings; any other vector, an address outside user space and unmapped
    memory make it fail with E2BIG or EFAULT.  It never reads or writes outside
    the buffer and the array of offsets, and never stops the kernel. *)
Theorem copyin_args_correct m ad argv :
  mem_u8 m → is_u32 argv → zlen (ad_buffer ad) = ARG_MAX → zlen (ad_offsets ad) = NARG_MAX → ad_held ad = true →
  match copyin_args argv (m, ad) with
  | (Ret _, (m', ad')) => m' = m ∧ ∃ args, argv_at m argv args ∧ args_fit args ∧ args_held ad' args
  | (Fail e, (m', _)) => m' = m ∧ (e = E2BIG ∨ e = EFAULT) ∧ ∀ args, argv_at m argv args → ¬ args_fit args
  | (Halt _, _) => False
  end.
Proof.
  intros Hu Ha Hb Ho Hh. apply (wp_elim _ (λ r p, match r, p with
    | Ret _, (m', ad') => m' = m ∧ ∃ args, argv_at m argv args ∧ args_fit args ∧ args_held ad' args
    | Fail e, (m', _) => m' = m ∧ (e = E2BIG ∨ e = EFAULT) ∧ ∀ args, argv_at m argv args → ¬ args_fit args
    | Halt _, _ => False end)).
  unfold copyin_args. wp_step. wp_step. cbn [snd]. rewrite Hh. wp_step. apply wp_assert; [done|]. wp_step. wp_step. wp_step.
  eapply (copyin_args_loop_spec _ m _ argv _ []); [done|done| |done|done|done| |].
  - by split.
  - intros ad' rest Hat Hfit Hh'. eauto.
  - intros e ad' He Hbad. eauto.
Qed.

(** With no arguments at all [copyout_args] fails, since [copyout] refuses an
    empty block; its caller [sys_execv] takes that for a mistake of its own and
    panics. *)
Lemma copyout_args_empty m ad stackptr :
  args_held ad [] → is_u32 stackptr → 4 ≤ stackptr → copyout_args stackptr (m, ad) = (Fail EFAULT, (m, ad)).
Proof.
  intros Hh Hs Hpos. apply wp_eq_intro. pose proof (ah_end _ _ Hh) as He. change (zlen (arg_bytes [])) with 0 in He.
  unfold copyout_args. wp_step. wp_step. cbn [snd]. rewrite (ah_lock _ _ Hh). wp_step. apply wp_assert; [done|]. cbv zeta. rewrite He, Z.sub_0_r.
  rewrite (u32_small stackptr) by done. rewrite land3. assert (is_u32 (stackptr - stackptr mod 4)) as Hu by (unfold is_u32 in *; Z.div_mod_to_equations; lia).
  rewrite (u32_small (stackptr - _)) by done. wp_step. wp_step. unfold copyout. wp_step. apply copycheck_spec; [done|done|done|done|].
  intros Hz. Z.div_mod_to_equations. lia.
Qed.

(** C18: A program gets the arguments it was started with.  Given arguments that
    fit the buffer (ARG_MAX bytes, NARG_MAX strings) and a writable stack with
    room for them, the strings that [copyin_args] gathers from the memory of the
    caller are laid out by [copyout_args] on the stack of the new program: the
    vector it returns is at the new stack pointer, is aligned, has a pointer to a
    copy of each string and ends with a null pointer, and nothing outside the
    space below the old stack pointer changes.  That is for one argument or more:
    an empty vector, which a caller may pass, gets through [copyin_args], but
    [copyout_args] fails with EFAULT and writes nothing. *)
Theorem exec_args_roundtrip m ad argv args m2 stackptr :
  mem_u8 m → is_u32 argv → zlen (ad_buffer ad) = ARG_MAX → zlen (ad_offsets ad) = NARG_MAX → ad_held ad = true →
  argv_at m argv args → args_fit args →
  0 < arg_sp stackptr args → stackptr ≤ USERTOP → writable m2 (arg_sp stackptr args) (stackptr - arg_sp stackptr args) →
  match copyin_args argv (m, ad) with
  | (Ret _, (_, ad')) =>
      match copyout_args stackptr (m2, ad') with
      | (Ret (argv', sp'), (m3, _)) =>
          args ≠ [] ∧ argv' = sp' ∧ sp' mod 4 = 0 ∧ argv_at m3 argv' args ∧
          (∀ i, ¬ (sp' ≤ i < stackptr) → mbytes m3 !! i = mbytes m2 !! i)
      | (Fail e, (m3, _)) => args = [] ∧ e = EFAULT ∧ m3 = m2
      | _ => False
      end
  | _ => False
  end.
Proof.
  intros Hu Ha Hb Ho Hh Hat Hfit Hsp Htop Hw.
  enough (wp (copyin_args argv) (returns (λ _ (p : argst), args_held p.2 args)) (m, ad)) as Hin.
  { apply wp_returns_run in Hin as ([] & [m' ad'] & -> & Hh'). simpl in Hh'.
    destruct (decide (args = [])) as [->|Hne].
    - rewrite (copyout_args_empty m2 ad' stackptr); [done|done|..];
        unfold arg_sp, arg_base, USERTOP, is_u32 in *; change (zlen (arg_bytes [])) with 0 in Hsp; change (zlen []) with 0 in Hsp;
        Z.div_mod_to_equations; lia.
    - apply (wp_elim _ (λ r (p : argst), match r, p with
        | Ret (argv', sp'), (m3, _) => args ≠ [] ∧ argv' = sp' ∧ sp' mod 4 = 0 ∧ argv_at m3 argv' args ∧
            (∀ i, ¬ (sp' ≤ i < stackptr) → mbytes m3 !! i = mbytes m2 !! i)
        | Fail e, (m3, _) => args = [] ∧ e = EFAULT ∧ m3 = m2
        | _, _ => False end)).
      eapply copyout_args_spec; [done|done|by eapply argv_at_strings|done|done|done|]. intros m3 Hout _ Hkeep.
      split_and!; [done|done| |done|done]. unfold arg_sp, arg_base. Z.div_mod_to_equations. lia. }
  unfold copyin_args. wp_step. wp_step. cbn [snd]. rewrite Hh. wp_step. apply wp_assert; [done|]. wp_step. wp_step. wp_step.
  eapply (copyin_args_loop_spec _ m _ argv _ []); [done|done|by split|done|done|done| |].
  2: { intros e ad' _ Hbad. exact (Hbad args Hat Hfit). }
  intros ad' rest Hat' _ Hh'. by rewrite (argv_unique _ _ _ _ Hat' Hat) in Hh'.
Qed.

(** ** Witnesses *)

(** The vector of the one argument "ls" at 4096. *)
Definition argv_memory : memory :=
  {| mbytes := list_to_map (zip (seqZ 4096 11) (be32 4104 ++ be32 0 ++ [108; 115; 0])); mro := ∅ |}.
Definition stack_memory : memory :=
  {| mbytes := list_to_map (zip (seqZ 8192 64) (replicate 64 0)); mro := ∅ |}.
Definition argdata : argvdata :=
  {| ad_buffer := replicate 4 0; ad_bufend := 0; ad_offsets := replicate 4 0; ad_nargs := 0; ad_held := true |}.

Lemma argv_memory_u8 : mem_u8 argv_memory.
Proof.
  assert (map_Forall (λ _ b, is_u8 b) (mbytes argv_memory)) as Hf by (apply (bool_decide_unpack _); vm_compute; exact I). intros i b. apply Hf.
Qed.

Lemma argv_memory_at : argv_at argv_memory 4096 [[108; 115]].
Proof.
  split; [unfold user_region, USERTOP; lia|]. exists (be32 4104). change (of_be (be32 4104)) with 4104. split_and!; [done| |done| | |].
  - intros i b Hb. do 4 (destruct i as [|i]; [by simplify_eq/=|]). done.
  - split; [|by apply (bool_decide_unpack _)]. intros i b Hb. do 3 (destruct i as [|i]; [by simplify_eq/=|]). done.
  - unfold user_region, USERTOP, zlen. simpl. lia.
  - split; [unfold user_region, USERTOP; lia|]. exists (be32 0). split_and!; [done| |done]. intros i b Hb. do 4 (destruct i as [|i]; [by simplify_eq/=|]). done.
Qed.

Lemma stack_memory_writable : writable stack_memory (arg_sp 8256 [[108; 115]]) (8256 - arg_sp 8256 [[108; 115]]).
Proof.
  intros i Hi. assert (Forall (λ i, mem_writable stack_memory i = true) (seqZ 8192 64)) as Hf by (apply (bool_decide_unpack _); vm_compute; exact I).
  rewrite Forall_forall in Hf. apply Hf, elem_of_seqZ. change (arg_sp 8256 [[108; 115]]) with 8244 in Hi. lia.
Qed.

Lemma copyin_args_correct_witness :
  match copyin_args 4096 (argv_memory, argdata) with
  | (Ret _, (m', ad')) => m' = argv_memory ∧ ∃ args, argv_at argv_memory 4096 args ∧ args_held ad' args
  | (Fail e, _) => e = E2BIG ∨ e = EFAULT
  | _ => False
  end.
Proof.
  pose proof (copyin_args_correct argv_memory argdata 4096 argv_memory_u8 ltac:(done) eq_refl eq_refl eq_refl) as Hc.
  destruct (copyin_args 4096 _) as [[]  [m' ad']]; naive_solver.
Defined.

Lemma exec_args_roundtrip_witness :
  match copyin_args 4096 (argv_memory, argdata) with
  | (Ret _, (_, ad')) => match copyout_args 8256 (stack_memory, ad') with
      | (Ret (argv', sp'), (m3, _)) => [[108; 115]] ≠ [] ∧ argv' = sp' ∧ sp' mod 4 = 0 ∧ argv_at m3 argv' [[108; 115]] ∧
          (∀ i, ¬ (sp' ≤ i < 8256) → mbytes m3 !! i = mbytes stack_memory !! i)
      | (Fail e, (m3, _)) => [[108; 115]] = [] ∧ e = EFAULT ∧ m3 = stack_memory
      | _ => False end
  | _ => False
  end.
Proof.
  apply (exec_args_roundtrip argv_memory argdata 4096 [[108; 115]] stack_memory 8256 argv_memory_u8 ltac:(done)
    eq_refl eq_refl eq_refl argv_memory_at); [done|by vm_compute|by vm_compute|exact stack_memory_writable].
Defined.
