(* ===== verification/Random.v ===== *)
(** * Random numbers (kern/dev/generic/random.c, pseudorand.c, kern/dev/lamebus/lrandom.c)

    The kernel takes random numbers from one source behind the functions of
    [struct random_softc]: here a class with the promise the callers rely on.  The
    sources are the generator of Park and Miller in pseudorand.c and the card of
    lrandom.c, whose register is an argument. *)

From S2P Require Import Prelude CopyInOut Uio SfsDisk.

(** ** The interface *)

Class RandomSource (D : Type) := {
  rs_random : M D Z;
  rs_randmax : Z;
  rs_read : M (D * uiost) unit;
}.

Definition O_RDONLY : Z := 0.

Section generic.
Context {D : Type} `{RandomSource D}.

(** The device [random:]. *)
Definition randopen (openflags : Z) : M D unit :=
  if negb (openflags =? O_RDONLY) then fail EIO else mret ().
Definition randclose : M D unit := mret ().
Definition randio : M (D * uiost) unit :=
  p ← get;
  if negb (bool_decide (uio_dir (u p.2) = UIO_READ)) then fail EIO else rs_read.
Definition randioctl : M D unit := fail EIOCTL.

(** [random] and [randmax] of the kernel; [the_random] is [None] until a source
    is configured. *)
Definition random : M (option D) Z :=
  o ← get;
  match o with
  | None => panic
  | Some d =>
      let '(r, d') := rs_random d in
      match r with
      | Ret v => _ ← put (Some d'); mret v
      | Fail e => _ ← put (Some d'); fail e
      | Halt k => λ _, (Halt k, Some d')
      end
  end.
Definition randmax : M (option D) Z :=
  o ← get; match o with None => panic | Some _ => mret rs_randmax end.
End generic.

(** A number is at most [randmax], and a read fills the request. *)
Class RandomLaws (D : Type) `{RandomSource D} := {
  rs_ok : D → Prop;
  rs_random_law d : rs_ok d →
    ∃ v d', rs_random d = (Ret v, d') ∧ 0 ≤ v ≤ rs_randmax ∧ rs_ok d';
  rs_read_law d s (Q : result unit → D * uiost → Prop) :
    rs_ok d → uio_ok s → uio_dir (u s) = UIO_READ → uio_resid (u s) = iov_len (u s) →
    (∀ d' s' bs, rs_ok d' → zlen bs = uio_resid (u s) → Forall is_u8 bs → moved_in s bs s' →
       Q (Ret ()) (d', s')) →
    (∀ d' s', rs_ok d' → uio_segflg (u s) ≠ UIO_SYSSPACE → Q (Fail EFAULT) (d', s')) →
    wp rs_read Q (d, s);
}.

(** The loop of both [read] functions: [next] gives the bytes of one turn. *)
Section fill.
Context {D : Type} (next : M D (list Z)).

Fixpoint fill_loop (fuel : nat) : M (D * uiost) unit :=
  p ← get;
  if uio_resid (u p.2) >? 0 then
    match fuel with
    | O => nofuel
    | S fuel' =>
        bytes ← on_fst next;
        _ ← on_snd (uiomove bytes (zlen bytes));
        fill_loop fuel'
    end
  else mret ().
Definition fill_uio : M (D * uiost) unit := p ← get; fill_loop (Z.to_nat (uio_resid (u p.2))).
End fill.

(** ** The generator (pseudorand.c) *)

Definition MULTIPLIER : Z := 16807.
Definition MODULUS : Z := 0x7fffffff.
Definition K1 : Z := 127773.
Definition K2 : Z := 2836.

(** The state is [ps_seed]. *)
Definition pseudorand_random : M Z Z :=
  seed ← get;
  let hi := s32 (seed / K1) in
  let lo := s32 (seed mod K1) in
  let tmp := s32 (s32 (MULTIPLIER * lo) - s32 (K2 * hi)) in
  let tmp := if tmp <=? 0 then s32 (tmp + MODULUS) else tmp in
  _ ← put (u32 tmp);
  mret (u32 (u32 tmp - 1)).
Definition pseudorand_randmax : Z := MODULUS - 2.
Definition pseudorand_seed : Z := 305824.

(** The 24 bits of a number that [pseudorand_read] takes. *)
Definition pseudorand_bytes : M Z (list Z) :=
  val ← pseudorand_random;
  mret [Z.shiftr (Z.land val 0xff0) 4; Z.shiftr (Z.land val 0xff000) 12; Z.shiftr (Z.land val 0xff00000) 20].
Definition pseudorand_read : M (Z * uiost) unit := fill_uio pseudorand_bytes.

#[export] Instance pseudorand_source : RandomSource Z :=
  {| rs_random := pseudorand_random; rs_randmax := pseudorand_randmax; rs_read := pseudorand_read |}.

(** ** The card (lrandom.c) *)

Section lrandom.
Context {C : Type} (bus_read_rand : M C Z).

Definition lrandom_random : M C Z := bus_read_rand.
Definition lrandom_randmax : Z := 0xffffffff.
Definition lrandom_bytes : M C (list Z) := val ← bus_read_rand; mret (be32 val).
Definition lrandom_read : M (C * uiost) unit := fill_uio lrandom_bytes.
Definition lrandom_source : RandomSource C :=
  {| rs_random := lrandom_random; rs_randmax := lrandom_randmax; rs_read := lrandom_read |}.
End lrandom.

(** ** Filling a request *)

Section fill_spec.
Context {D : Type} (next : M D (list Z)) (ok : D → Prop).
Context (Hnext : ∀ d, ok d → ∃ bs d', next d = (Ret bs, d') ∧ ok d' ∧ 0 < zlen bs ∧ Forall is_u8 bs).

Lemma fill_loop_spec fuel d s Q :
  ok d → uio_ok s → uio_dir (u s) = UIO_READ → uio_resid (u s) = iov_len (u s) →
  uio_resid (u s) ≤ Z.of_nat fuel →
  (∀ d' s' bs, ok d' → zlen bs = uio_resid (u s) → Forall is_u8 bs → moved_in s bs s' → Q (Ret ()) (d', s')) →
  (∀ d' s', ok d' → uio_segflg (u s) ≠ UIO_SYSSPACE → Q (Fail EFAULT) (d', s')) →
  wp (fill_loop next fuel) Q (d, s).
Proof.
  revert d s. induction fuel as [|fuel IH]; intros d s Hd Hok Hdir Heq Hle HQ HF; simpl; wp_steps; cbn [snd].
  - replace (uio_resid (u s) >? 0) with false by lia. wp_step. pose proof (ok_resid _ Hok).
    apply (HQ d s []); [done|unfold zlen; simpl; lia|done|by apply moved_in_nil].
  - destruct (Z.gtb_spec (uio_resid (u s)) 0) as [Hgt|Hle0].
    2: { wp_step. pose proof (ok_resid _ Hok).
         apply (HQ d s []); [done|unfold zlen; simpl; lia|done|by apply moved_in_nil]. }
    destruct (Hnext d Hd) as (bs & d1 & Hrun & Hd1 & Hpos & Hby).
    wp_steps. eapply wp_eq; [exact Hrun|]. cbv beta iota. wp_steps.
    apply uiomove_read_spec; [done|done|lia|by right| |].
    + intros s1 Hmv Hok1. set (b1 := take _ bs) in *.
      assert (zlen b1 = Z.min (zlen bs) (uio_resid (u s))) as Hl1.
      { unfold b1, zlen. rewrite length_take. unfold zlen in *. lia. }
      destruct (Hmv) as [Hu1 _ _]. destruct (Hok) as [_ Hlen _ _ _ _ _]. unfold is_u32 in Hlen.
      assert (uio_resid (u s1) = uio_resid (u s) - zlen b1) as Hr1.
      { rewrite Hu1. cbn [advance uio_resid]. rewrite u32_small; [done|unfold is_u32; lia]. }
      assert (iov_len (u s1) = iov_len (u s) - zlen b1) as Hv1.
      { rewrite Hu1. cbn [advance iov_len]. rewrite u32_small; [done|unfold is_u32; lia]. }
      assert (uio_segflg (u s1) = uio_segflg (u s) ∧ uio_dir (u s1) = uio_dir (u s)) as [Hsg1 Hdr1] by (by rewrite Hu1).
      apply IH; [done|done|congruence|lia|lia| |].
      * intros d' s' b2 Hd' Hl2 Hby2 Hmv2. apply (HQ d' s' (b1 ++ b2)); [done|rewrite zlen_app; lia| |].
        -- apply Forall_app. split; [by apply Forall_take|done].
        -- by eapply moved_in_app.
      * intros d' s' Hd' Hseg. apply HF; [done|congruence].
    + intros m' j Hseg _ _. by apply HF.
Qed.

Lemma fill_uio_spec d s Q :
  ok d → uio_ok s → uio_dir (u s) = UIO_READ → uio_resid (u s) = iov_len (u s) →
  (∀ d' s' bs, ok d' → zlen bs = uio_resid (u s) → Forall is_u8 bs → moved_in s bs s' → Q (Ret ()) (d', s')) →
  (∀ d' s', ok d' → uio_segflg (u s) ≠ UIO_SYSSPACE → Q (Fail EFAULT) (d', s')) →
  wp (fill_uio next) Q (d, s).
Proof.
  intros Hd Hok Hdir Heq HQ HF. unfold fill_uio. wp_steps. pose proof (ok_resid _ Hok).
  apply fill_loop_spec; [done..|cbn [snd]; lia|done|done].
Qed.
End fill_spec.

(** ** The generator computes the sequence of Park and Miller *)

Definition seed_ok (seed : Z) : Prop := 1 ≤ seed < MODULUS.
Definition next_seed (seed : Z) : Z := MULTIPLIER * seed mod MODULUS.

Lemma next_seed_ok seed : seed_ok seed → seed_ok (next_seed seed).
Proof.
  intros [H1 H2]. unfold seed_ok, next_seed in *.
  pose proof (Z.mod_pos_bound (MULTIPLIER * seed) MODULUS ltac:(done)) as Hb.
  split; [|lia]. assert (MULTIPLIER * seed mod MODULUS ≠ 0) as Hne; [|lia].
  intros Hz. apply Z.mod_divide in Hz; [|done]. apply Z.gauss in Hz; [|vm_compute; reflexivity].
  apply Z.divide_pos_le in Hz; lia.
Qed.

(** The quotients keep every product within 32 bits. *)
Lemma schrage seed :
  seed_ok seed →
  let tmp := MULTIPLIER * (seed mod K1) - K2 * (seed / K1) in
  - MODULUS < tmp < MODULUS ∧ next_seed seed = if tmp <=? 0 then tmp + MODULUS else tmp.
Proof.
  intros Hs tmp. pose proof (next_seed_ok seed Hs) as [Hn1 Hn2]. destruct Hs as [H1 H2].
  assert (0 ≤ seed mod K1 < K1) as Hm by (by apply Z.mod_pos_bound).
  assert (0 ≤ seed / K1 ≤ MULTIPLIER) as Hd.
  { split; [apply Z.div_pos; [lia|done]|]. apply Z.lt_succ_r, Z.div_lt_upper_bound; [done|].
    unfold MULTIPLIER, K1, MODULUS in *. lia. }
  assert (tmp = MULTIPLIER * seed + - (seed / K1) * MODULUS) as Ht.
  { unfold tmp. rewrite (Z.div_mod seed K1) at 3 by done. unfold MULTIPLIER, K1, K2, MODULUS. lia. }
  assert (- MODULUS < tmp < MODULUS) as Hr by (unfold tmp, MULTIPLIER, K1, K2, MODULUS in *; lia).
  split; [done|].
  assert (next_seed seed = tmp mod MODULUS) as -> by (unfold next_seed; by rewrite Ht, Z.mod_add).
  unfold next_seed in Hn1. destruct (Z.leb_spec tmp 0).
  - rewrite <- (Z.mod_small (tmp + MODULUS) MODULUS).
    + by rewrite <- (Z.mod_add tmp 1 MODULUS), Z.mul_1_l by done.
    + assert (tmp ≠ 0); [|lia]. intros Hz. rewrite Hz in Ht.
      assert (MULTIPLIER * seed mod MODULUS = 0) as Hz'; [|lia].
      replace (MULTIPLIER * seed) with (seed / K1 * MODULUS) by lia. by apply Z.mod_mul.
  - by rewrite Z.mod_small by lia.
Qed.

Lemma pseudorand_random_eq seed :
  seed_ok seed → pseudorand_random seed = (Ret (next_seed seed - 1), next_seed seed).
Proof.
  intros Hs. pose proof (next_seed_ok seed Hs) as [Hn1 Hn2].
  destruct (schrage seed Hs) as [Hr Hn]. cbv zeta in Hr, Hn. destruct Hs as [H1 H2].
  unfold pseudorand_random, mbind, M_bind, get, put, mret, M_ret. cbv beta iota zeta.
  assert (0 ≤ seed mod K1 < K1) as Hm by (by apply Z.mod_pos_bound).
  assert (0 ≤ seed / K1 ≤ MULTIPLIER) as Hd.
  { split; [apply Z.div_pos; [lia|done]|]. apply Z.lt_succ_r, Z.div_lt_upper_bound; [done|].
    unfold MULTIPLIER, K1, MODULUS in *. lia. }
  unfold MULTIPLIER, K1, K2, MODULUS in Hr, Hm, Hd, Hn1, Hn2, H2.
  rewrite (s32_small (seed / K1)), (s32_small (seed mod K1)) by (unfold K1; lia).
  rewrite (s32_small (MULTIPLIER * _)), (s32_small (K2 * _)), (s32_small (_ - _))
    by (unfold MULTIPLIER, K2, K1; lia).
  match goal with |- context [if ?c then s32 ?x else ?y] =>
    assert ((if c then s32 x else y) = next_seed seed) as -> end.
  { rewrite Hn. case_match eqn:Hc; [|done]. apply Z.leb_le in Hc. apply s32_small.
    unfold MULTIPLIER, K1, K2, MODULUS in *. lia. }
  rewrite (u32_small (next_seed seed)), u32_small by (unfold is_u32; lia). done.
Qed.

Lemma byte_of x lo n : 0 ≤ lo → Z.land x (Z.shiftl 0xff lo) = n → is_u8 (Z.shiftr n lo).
Proof.
  intros Hlo <-. rewrite Z.shiftr_land, Z.shiftr_shiftl_l, Z.sub_diag by lia.
  change (Z.shiftl 255 0) with (Z.ones 8). rewrite Z.land_ones by lia. apply Z.mod_pos_bound. lia.
Qed.

Lemma pseudorand_bytes_ok seed :
  seed_ok seed →
  ∃ bs seed', pseudorand_bytes seed = (Ret bs, seed') ∧ seed_ok seed' ∧ 0 < zlen bs ∧ Forall is_u8 bs.
Proof.
  intros Hs. unfold pseudorand_bytes, mbind, M_bind. rewrite pseudorand_random_eq by done.
  eexists _, _. split; [reflexivity|]. split; [by apply next_seed_ok|]. split; [done|].
  repeat constructor; by eapply (byte_of _ _ _); try reflexivity; try lia.
Qed.

#[export] Program Instance pseudorand_laws : RandomLaws Z := {| rs_ok := seed_ok |}.
Next Obligation.
  intros seed Hs. eexists _, _. split; [by apply pseudorand_random_eq|].
  pose proof (next_seed_ok seed Hs) as Hn. split; [|done]. destruct Hn.
  change rs_randmax with (MODULUS - 2). lia.
Qed.
Next Obligation.
  intros. change rs_read with pseudorand_read. unfold pseudorand_read.
  eapply (fill_uio_spec _ seed_ok); [apply pseudorand_bytes_ok|done..].
Qed.

(** The card gives words of 32 bits, which is all the driver relies on. *)
Section lrandom_laws.
Context {C : Type} (bus_read_rand : M C Z) (card_ok : C → Prop).
Context (Hread : ∀ c, card_ok c → ∃ v c', bus_read_rand c = (Ret v, c') ∧ is_u32 v ∧ card_ok c').
#[local] Existing Instance lrandom_source.

Program Definition lrandom_laws : RandomLaws C (H := lrandom_source bus_read_rand) := {| rs_ok := card_ok |}.
Next Obligation.
  intros c Hc. destruct (Hread c Hc) as (v & c' & Hr & Hv & Hc'). exists v, c'.
  split; [done|]. split; [|done]. unfold is_u32 in Hv. simpl. unfold lrandom_randmax. lia.
Qed.
Next Obligation.
  intros c s Q Hc Hok Hdir Heq HQ HF. simpl. unfold lrandom_read.
  eapply (fill_uio_spec _ card_ok); [|done..].
  intros d Hd. destruct (Hread d Hd) as (v & c' & Hr & Hv & Hc').
  exists (be32 v), c'. unfold lrandom_bytes, mbind, M_bind. rewrite Hr.
  split; [done|]. split; [done|]. split; [done|]. unfold be32. repeat constructor; apply u8_range.
Qed.
End lrandom_laws.

(** the generator of pseudorand.c is the one of Park and Miller.  From a
    seed between 1 and 2^31 - 2 the computation by quotients stays within 32 bits
    and gives 16807 times the seed modulo 2^31 - 1 as the next seed, which is
    again between 1 and 2^31 - 2, and that less one as the number, at most
    [randmax]. *)
Theorem pseudorand_correct seed :
  1 ≤ seed < 2 ^ 31 - 1 →
  ∃ seed', seed' = 16807 * seed mod (2 ^ 31 - 1) ∧ 1 ≤ seed' < 2 ^ 31 - 1 ∧
    pseudorand_random seed = (Ret (seed' - 1), seed') ∧ seed' - 1 ≤ pseudorand_randmax.
Proof.
  intros Hs. exists (next_seed seed). pose proof (next_seed_ok seed Hs) as [Hn1 Hn2].
  split; [done|]. split; [done|]. split; [by apply pseudorand_random_eq|].
  unfold pseudorand_randmax. lia.
Qed.

(** a read of the device [random:] fills the request, whatever the source.
    For every source that keeps its promise and a request of any length whose
    block is as long as the count, the read ends, and stores one byte at every
    address of the block; a fault of user memory gives EFAULT.  A write is refused
    with EIO and changes nothing. *)
Theorem randio_correct {D} `{RandomLaws D} d s :
  rs_ok d → uio_ok s → uio_resid (u s) = iov_len (u s) →
  match randio (d, s) with
  | (r, (d', s')) => rs_ok d' ∧
      match uio_dir (u s), r with
      | UIO_READ, Ret _ => ∃ bs, zlen bs = uio_resid (u s) ∧ Forall is_u8 bs ∧ moved_in s bs s'
      | UIO_READ, Fail e => e = EFAULT ∧ uio_segflg (u s) ≠ UIO_SYSSPACE
      | UIO_WRITE, Fail e => e = EIO ∧ s' = s
      | _, _ => False
      end
  end.
Proof.
  intros Hd Hok Heq.
  assert (wp randio (λ r p, rs_ok p.1 ∧
    match uio_dir (u s), r with
    | UIO_READ, Ret _ => ∃ bs, zlen bs = uio_resid (u s) ∧ Forall is_u8 bs ∧ moved_in s bs p.2
    | UIO_READ, Fail e => e = EFAULT ∧ uio_segflg (u s) ≠ UIO_SYSSPACE
    | UIO_WRITE, Fail e => e = EIO ∧ p.2 = s
    | _, _ => False
    end) (d, s)) as Hwp; [|apply wp_elim in Hwp; by destruct (randio (d, s)) as [r [d' s']]].
  unfold randio. wp_steps. cbn [snd]. destruct (uio_dir (u s)) eqn:Hdir; simpl; [|wp_step; done].
  apply rs_read_law; [done..| |].
  - intros d' s' bs Hd' Hl Hby Hmv. split; [done|]. by exists bs.
  - intros d' s' Hd' Hseg. done.
Qed.

(** ** Examples *)

Lemma pseudorand_correct_witness :
  ∃ seed', seed' = 16807 * 305824 mod (2 ^ 31 - 1) ∧ 1 ≤ seed' < 2 ^ 31 - 1 ∧
    pseudorand_random pseudorand_seed = (Ret (seed' - 1), seed') ∧ seed' - 1 ≤ pseudorand_randmax.
Proof. apply (pseudorand_correct pseudorand_seed). split; [discriminate|reflexivity]. Defined.

Definition rand_request : uiost := kbuf_request (replicate 10 0) 0 UIO_READ.

Lemma randio_correct_witness :
  let r := randio (D := Z) (pseudorand_seed, rand_request) in
  r.1 = Ret () ∧ ∃ bs, zlen bs = 10 ∧ Forall is_u8 bs ∧ moved_in rand_request bs r.2.2.
Proof.
  cbv zeta. assert ((randio (D := Z) (pseudorand_seed, rand_request)).1 = Ret ()) as Hr by (vm_compute; reflexivity).
  pose proof (randio_correct (D := Z) pseudorand_seed rand_request) as Hc.
  destruct (randio (D := Z) (pseudorand_seed, rand_request)) as [r [d' s']]. cbn [fst snd] in *. subst r.
  split; [reflexivity|]. apply Hc.
  - split; [discriminate|reflexivity].
  - apply kbuf_request_ok; vm_compute; [reflexivity|split; [discriminate|reflexivity]].
  - reflexivity.
Defined.
