(* ===== verification/Console.v ===== *)
(** * The console (kern/dev/generic/console.c, kern/dev/lamebus/lser.c, kern/lib/kprintf.c)

    A character for the console is sent by a thread that waits for the write
    semaphore, or, with interrupts off, by polling the serial port; the interrupt of
    the port posts the semaphore.  The port is hardware: a class of register
    operations with the behaviour the driver relies on.  The levels [curspl] and
    [in_interrupt] and the semaphores are part of the state; a wait that would
    block stops with [Blocked]. *)

From S2P Require Import Prelude.

(** ** The serial port *)

Class SerialPort (Hw : Type) := {
  bus_read_wirq : M Hw Z;
  bus_write_wirq : Z → M Hw unit;
  bus_write_char : Z → M Hw unit;
  bus_read_rirq : M Hw Z;
  bus_write_rirq : Z → M Hw unit;
  bus_read_char : M Hw Z;
}.

Definition LSER_IRQ_ENABLE : Z := 1.
Definition LSER_IRQ_ACTIVE : Z := 2.
Definition SPL_HIGH : Z := 15.
Definition DELAYBUFSIZE : Z := 1024.

(** The soft state of lser.c and console.c.  [the_console] is whether the
    console is configured. *)
Record console (Hw : Type) := Console {
  port : Hw;
  ls_wbusy : bool;
  cs_wsem : Z;
  cs_rsem : Z;
  cs_gotchar : Z;
  the_console : bool;
  delayed_outbuf : list Z;
  curspl : Z;
  in_interrupt : bool;
}.
Arguments Console {Hw}.
Arguments port {Hw}.
Arguments ls_wbusy {Hw}.
Arguments cs_wsem {Hw}.
Arguments cs_rsem {Hw}.
Arguments cs_gotchar {Hw}.
Arguments the_console {Hw}.
Arguments delayed_outbuf {Hw}.
Arguments curspl {Hw}.
Arguments in_interrupt {Hw}.

Section ops.
Context {Hw : Type} `{SerialPort Hw}.

Definition set_port (v : Hw) (c : console Hw) : console Hw := Console v (ls_wbusy c) (cs_wsem c) (cs_rsem c) (cs_gotchar c) (the_console c)
  (delayed_outbuf c) (curspl c) (in_interrupt c).
Definition set_wbusy (v : bool) (c : console Hw) : console Hw := Console (port c) v (cs_wsem c) (cs_rsem c) (cs_gotchar c) (the_console c)
  (delayed_outbuf c) (curspl c) (in_interrupt c).
Definition set_wsem (v : Z) (c : console Hw) : console Hw := Console (port c) (ls_wbusy c) v (cs_rsem c) (cs_gotchar c) (the_console c)
  (delayed_outbuf c) (curspl c) (in_interrupt c).
Definition set_input (rsem ch : Z) (c : console Hw) : console Hw := Console (port c) (ls_wbusy c) (cs_wsem c) rsem ch (the_console c)
  (delayed_outbuf c) (curspl c) (in_interrupt c).
Definition set_delayed (v : list Z) (c : console Hw) : console Hw := Console (port c) (ls_wbusy c) (cs_wsem c) (cs_rsem c) (cs_gotchar c)
  (the_console c) v (curspl c) (in_interrupt c).
Definition set_spl (v : Z) (c : console Hw) : console Hw := Console (port c) (ls_wbusy c) (cs_wsem c) (cs_rsem c) (cs_gotchar c)
  (the_console c) (delayed_outbuf c) v (in_interrupt c).

Definition on_port {A} : M Hw A → M (console Hw) A := zoom port set_port.
Definition con_splhigh : M (console Hw) Z := s ← gets curspl; _ ← modify (set_spl SPL_HIGH); mret s.
Definition con_splx (spl : Z) : M (console Hw) unit := modify (set_spl spl).

(** [P] and [V] on the write semaphore. *)
Definition P_wsem : M (console Hw) unit :=
  n ← gets cs_wsem; if n >? 0 then modify (set_wsem (n - 1)) else λ c, (Halt Blocked, c).
Definition V_wsem : M (console Hw) unit := n ← gets cs_wsem; modify (set_wsem (n + 1)).

(** What the device tells the console. *)
Definition con_start : M (console Hw) unit := V_wsem.
Definition con_input (ch : Z) : M (console Hw) unit := n ← gets cs_rsem; modify (set_input (n + 1) ch).

(** *** lser.c *)

Definition active (x : Z) : bool := negb (Z.land x LSER_IRQ_ACTIVE =? 0).

Definition lser_irq : M (console Hw) unit :=
  spl ← gets curspl;
  _ ← assert (spl >? 0);
  x ← on_port bus_read_wirq;
  _ ← (if active x then
         _ ← modify (set_wbusy false);
         on_port (bus_write_wirq LSER_IRQ_ENABLE)
       else mret ());
  y ← on_port bus_read_rirq;
  ch ← (if active y then
          ch ← on_port bus_read_char;
          _ ← on_port (bus_write_rirq LSER_IRQ_ENABLE);
          mret ch
        else mret 0);
  _ ← (if active x then con_start else mret ());
  if active y then con_input ch else mret ().

Definition lser_write (ch : Z) : M (console Hw) unit :=
  spl ← con_splhigh;
  busy ← gets ls_wbusy;
  _ ← (if busy : bool then panic else mret ());
  _ ← modify (set_wbusy true);
  _ ← on_port (bus_write_char ch);
  con_splx spl.

Fixpoint lser_spin (fuel : nat) : M (console Hw) unit :=
  match fuel with
  | O => nofuel
  | S fuel' => val ← on_port bus_read_wirq; if active val then mret () else lser_spin fuel'
  end.

(** [fuel] bounds the polls of each wait. *)
Definition lser_spin_until_write (fuel : nat) : M (console Hw) unit :=
  spl ← gets curspl; _ ← assert (spl >? 0); lser_spin fuel.

Definition lser_writepolled (fuel : nat) (ch : Z) : M (console Hw) unit :=
  spl ← con_splhigh;
  irqpending ← gets ls_wbusy;
  _ ← (if irqpending : bool then
         _ ← lser_spin_until_write fuel;
         on_port (bus_write_wirq LSER_IRQ_ENABLE)
       else mret ());
  _ ← on_port (bus_write_char ch);
  _ ← lser_spin_until_write fuel;
  _ ← (if irqpending : bool then mret () else on_port (bus_write_wirq LSER_IRQ_ENABLE));
  con_splx spl.

Definition config_lser : M (console Hw) unit :=
  _ ← modify (set_wbusy false);
  _ ← on_port (bus_write_rirq LSER_IRQ_ENABLE);
  on_port (bus_write_wirq LSER_IRQ_ENABLE).

(** *** console.c *)

Definition putch_delayed (ch : Z) : M (console Hw) unit :=
  buf ← gets delayed_outbuf;
  _ ← assert (zlen buf <? DELAYBUFSIZE);
  modify (set_delayed (buf ++ [ch])).
Definition putch_polled (fuel : nat) (ch : Z) : M (console Hw) unit := lser_writepolled fuel ch.
Definition putch_intr (ch : Z) : M (console Hw) unit := _ ← P_wsem; lser_write ch.
Definition getch_intr : M (console Hw) Z :=
  n ← gets cs_rsem;
  if n >? 0 then _ ← modify (λ c, set_input (n - 1) (cs_gotchar c) c); gets cs_gotchar
  else λ c, (Halt Blocked, c).

Definition putch (fuel : nat) (ch : Z) : M (console Hw) unit :=
  c ← get;
  if negb (the_console c) then putch_delayed ch
  else if in_interrupt c || (curspl c >? 0) then putch_polled fuel ch
  else putch_intr ch.

Definition getch : M (console Hw) Z :=
  c ← get;
  _ ← assert (the_console c);
  _ ← assert (negb (in_interrupt c) && (curspl c =? 0));
  getch_intr.

Definition flush_delay_buf (fuel : nat) : M (console Hw) unit :=
  buf ← gets delayed_outbuf;
  _ ← forM buf (putch fuel);
  modify (set_delayed []).

(** [console_send] of kprintf.c. *)
Definition console_send (fuel : nat) (data : list Z) : M (console Hw) unit := forM data (putch fuel).
End ops.

(** ** What the driver relies on

    The port sends one character at a time; when it has gone, the ready condition
    is set, until it is cleared through the register.  Polling sees it within
    [patience] reads. *)

Class SerialView (Hw : Type) := {
  sending : Hw → option Z;
  ready : Hw → bool;
  sent : Hw → list Z;
  received : Hw → option Z;
  remaining : Hw → nat;
  patience : nat;
}.

Section view.
Context {Hw : Type} `{SerialView Hw}.
Definition same_tx (h h' : Hw) : Prop := sending h' = sending h ∧ ready h' = ready h ∧ sent h' = sent h.
Definition finished (h h' : Hw) : Prop :=
  ∃ ch, sending h = Some ch ∧ sending h' = None ∧ ready h' = true ∧ sent h' = sent h ++ [ch].
End view.

Class SerialLaws (Hw : Type) `{SerialPort Hw} `{SerialView Hw} := {
  remaining_law h : (remaining h < patience)%nat;
  read_wirq_law h : ∃ v h', bus_read_wirq h = (Ret v, h') ∧ active v = ready h' ∧
    (same_tx h h' ∧ (sending h ≠ None → (remaining h' < remaining h)%nat) ∨ finished h h');
  write_wirq_law h : ∃ h', bus_write_wirq LSER_IRQ_ENABLE h = (Ret (), h') ∧
    ready h' = false ∧ sending h' = sending h ∧ sent h' = sent h;
  write_char_law h ch : sending h = None → ∃ h', bus_write_char ch h = (Ret (), h') ∧
    sending h' = Some ch ∧ ready h' = ready h ∧ sent h' = sent h;
  read_rirq_law h : ∃ v h', bus_read_rirq h = (Ret v, h') ∧ same_tx h h' ∧
    (active v = true → is_Some (received h'));
  read_char_law h : is_Some (received h) → ∃ v h', bus_read_char h = (Ret v, h') ∧ same_tx h h';
  write_rirq_law h : ∃ h', bus_write_rirq LSER_IRQ_ENABLE h = (Ret (), h') ∧ same_tx h h';
}.

Section specs.
Context {Hw : Type} `{SerialLaws Hw}.
Implicit Types (c : console Hw) (h : Hw) (log : list Z).

Lemma on_port_spec {A} (op : M Hw A) c v h' Q :
  op (port c) = (v, h') → Q v (set_port h' c) → wp (on_port op) Q c.
Proof. intros Hop HQ. unfold on_port. wp_step. by eapply wp_eq. Qed.

(** The port has sent its character, or is about to be ready. *)
Definition pending h : Prop := sending h = None ∧ ready h = true ∨ is_Some (sending h) ∧ ready h = false.

Lemma lser_spin_spec fuel c Q :
  pending (port c) → (remaining (port c) < fuel)%nat →
  (∀ h, sending h = None → ready h = true → sent h = sent (port c) ++ option_list (sending (port c)) →
     Q (Ret ()) (set_port h c)) →
  wp (lser_spin fuel) Q c.
Proof.
  revert c. induction fuel as [|fuel IH]; intros c Hp Hr HQ; [lia|]. simpl. wp_step.
  destruct (read_wirq_law (port c)) as (v & h & Hrd & Hact & Hcase).
  eapply on_port_spec; [exact Hrd|]. cbv beta iota. rewrite Hact.
  destruct Hcase as [[(Hs & Hrdy & Hsent) Hrem]|(ch & Hs & Hs' & Hr' & Hsent)].
  - destruct Hp as [[Hn Hrt]|[[ch Hsm] Hrf]].
    + rewrite Hrdy, Hrt. wp_step. apply HQ; [congruence|congruence|]. by rewrite Hn, app_nil_r.
    + rewrite Hrdy, Hrf. apply IH; simpl.
      * right. rewrite Hs, Hsm, Hrdy. split; [by eexists|done].
      * specialize (Hrem ltac:(by rewrite Hsm)). lia.
      * intros h2 Hn2 Hr2 Hs2. rewrite Hs, Hsent in Hs2. by apply (HQ h2).
  - rewrite Hr'. wp_step. apply HQ; [done|done|]. by rewrite Hs.
Qed.

(** ** The invariant

    [n] is the number of threads between [P] and [cs_send], [log] what was sent,
    in the order it was given to the port. *)
Record con_inv c (n : nat) log : Prop := {
  ci_wsem : 0 ≤ cs_wsem c;
  ci_count : cs_wsem c + Z.of_nat n + (if ls_wbusy c then 1 else 0) = 1;
  ci_idle : ls_wbusy c = false → sending (port c) = None ∧ ready (port c) = false;
  ci_busy : ls_wbusy c = true → pending (port c);
  ci_log : sent (port c) ++ option_list (sending (port c)) = log;
}.

Lemma con_inv_port c h n log : con_inv c n log → same_tx (port c) h → con_inv (set_port h c) n log.
Proof.
  intros [] (Hs & Hr & Ht). split; simpl; rewrite ?Hs, ?Hr, ?Ht; try done.
  unfold pending. by rewrite Hs, Hr.
Qed.

Lemma con_inv_spl c n log v : con_inv c n log → con_inv (set_spl v c) n log.
Proof. intros []. by split. Qed.

(** A thread that has passed [P] finds the port free. *)
Lemma lser_write_spec c n log ch Q :
  con_inv c (S n) log → (∀ c', con_inv c' n (log ++ [ch]) → curspl c' = curspl c → Q (Ret ()) c') →
  wp (lser_write ch) Q c.
Proof.
  intros [] HQ. unfold lser_write, con_splhigh, con_splx. wp_steps. simpl.
  destruct (ls_wbusy c); [lia|]. destruct ci_idle0 as [Hs Hr]; [done|]. wp_steps.
  destruct (write_char_law (port c) ch Hs) as (h & Hw1 & Hs1 & Hr1 & Ht1).
  eapply on_port_spec; [exact Hw1|]. cbv beta iota. wp_steps. apply HQ; [|done].
  split; simpl; [done|lia|done| |].
  - intros _. right. rewrite Hs1, Hr1, Hr. split; [by eexists|done].
  - rewrite Ht1, Hs1, <- ci_log0, Hs. simpl. by rewrite app_nil_r.
Qed.

(** Sending by polling, from either state of the port. *)
Lemma lser_writepolled_spec fuel c n log ch Q :
  (patience ≤ fuel)%nat → con_inv c n log →
  (∀ c', con_inv c' n (log ++ [ch]) → curspl c' = curspl c → the_console c' = the_console c → Q (Ret ()) c') →
  wp (lser_writepolled fuel ch) Q c.
Proof.
  intros Hfuel [] HQ. unfold lser_writepolled, lser_spin_until_write, con_splhigh, con_splx. wp_steps. simpl.
  assert (∀ h, (remaining h < fuel)%nat) as Hrem by (intros h; pose proof (remaining_law h); lia).
  destruct (ls_wbusy c) eqn:Hb.
  - wp_steps. apply wp_assert; [done|]. apply lser_spin_spec; [by apply ci_busy0|apply Hrem|].
    intros h1 Hn1 Hr1 Ht1. simpl in Ht1.
    destruct (write_wirq_law h1) as (h2 & Hw2 & Hr2 & Hs2 & Ht2).
    eapply on_port_spec; [exact Hw2|]. cbv beta iota. wp_steps.
    destruct (write_char_law h2 ch (eq_trans Hs2 Hn1)) as (h3 & Hw3 & Hs3 & Hr3 & Ht3).
    eapply on_port_spec; [exact Hw3|]. cbv beta iota. wp_steps. apply wp_assert; [done|].
    apply lser_spin_spec; simpl; [right; rewrite Hs3; split; [by eexists|congruence]|apply Hrem|].
    intros h4 Hn4 Hr4 Ht4. wp_steps. apply HQ; [|done..]. split; simpl; rewrite ?Hb; try done.
    + intros _. by left.
    + rewrite Ht4, Hs3, Ht3, Ht2, Ht1, Hn4, ci_log0. simpl. by rewrite app_nil_r.
  - destruct ci_idle0 as [Hs Hr]; [done|]. wp_steps.
    destruct (write_char_law (port c) ch Hs) as (h3 & Hw3 & Hs3 & Hr3 & Ht3).
    eapply on_port_spec; [exact Hw3|]. cbv beta iota. wp_steps. apply wp_assert; [done|].
    apply lser_spin_spec; simpl; [right; rewrite Hs3; split; [by eexists|congruence]|apply Hrem|].
    intros h4 Hn4 Hr4 Ht4. wp_steps.
    destruct (write_wirq_law h4) as (h5 & Hw5 & Hr5 & Hs5 & Ht5).
    eapply on_port_spec; [exact Hw5|]. cbv beta iota. wp_steps. apply HQ; [|done..].
    split; simpl; rewrite ?Hb; try done.
    + intros _. split; congruence.
    + rewrite Ht5, Hs5, Hn4, Ht4, Hs3, Ht3, <- ci_log0, Hs. simpl. by rewrite !app_nil_r.
Qed.

(** The second half of the interrupt: the input register, and the posts. *)
Lemma irq_posts_spec (x : bool) c Q :
  let c0 := if x then set_wsem (cs_wsem c + 1) c else c in
  (∀ h rs ch, same_tx (port c) h → Q (Ret ()) (set_input rs ch (set_port h c0))) →
  wp (y ← on_port bus_read_rirq;
      ch ← (if active y then
              ch ← on_port bus_read_char;
              _ ← on_port (bus_write_rirq LSER_IRQ_ENABLE);
              mret ch
            else mret 0);
      _ ← (if x then con_start else mret ());
      if active y then con_input ch else mret ()) Q c.
Proof.
  intros c0 HQ. wp_step. destruct (read_rirq_law (port c)) as (y & h2 & Hry & Hs2 & Hrec).
  eapply on_port_spec; [exact Hry|]. cbv beta iota. unfold con_start, V_wsem, con_input, c0 in *.
  destruct (active y) eqn:Hay.
  - wp_step. destruct (read_char_law h2 (Hrec eq_refl)) as (chv & h3 & Hrc & Hs3).
    wp_steps. eapply on_port_spec; [exact Hrc|]. cbv beta iota. wp_steps.
    destruct (write_rirq_law h3) as (h4 & Hw4 & Hs4).
    eapply on_port_spec; [exact Hw4|]. cbv beta iota. wp_steps.
    assert (same_tx (port c) h4) as Hall by (unfold same_tx in *; intuition congruence).
    destruct x; wp_steps; by apply (HQ h4).
  - wp_steps. specialize (HQ h2 (cs_rsem c) (cs_gotchar c) Hs2).
    destruct x; wp_steps; destruct c; exact HQ.
Qed.

(** Whatever the interrupt finds; when the port is ready, the semaphore is
    posted. *)
Lemma lser_irq_spec c n log Q :
  con_inv c n log → 0 < curspl c →
  (∀ c', con_inv c' n log → curspl c' = curspl c →
     (ready (port c) = true → cs_wsem c' = cs_wsem c + 1) → Q (Ret ()) c') →
  wp lser_irq Q c.
Proof.
  intros Hinv Hspl HQ. unfold lser_irq. wp_steps. apply wp_assert; [lia|]. wp_step.
  destruct (read_wirq_law (port c)) as (v & h1 & Hrd & Hact & Hcase).
  eapply on_port_spec; [exact Hrd|]. cbv beta iota. rewrite Hact. destruct (Hinv).
  destruct (ready h1) eqn:Hr1.
  - assert (ls_wbusy c = true ∧ sending h1 = None ∧ sent h1 = log) as (Hb & Hn1 & Ht1).
    { destruct (ls_wbusy c); [|destruct ci_idle0 as [Hs Hr]; [done|]].
      - split; [done|]. destruct Hcase as [[(Hs & Hr & Ht) _]|(ch & Hs & Hs' & _ & Ht)].
        + destruct ci_busy0 as [[Hn _]|[_ Hr']]; [done| |congruence].
          rewrite Hs, Ht, <- ci_log0, Hn. simpl. by rewrite app_nil_r.
        + by rewrite Hs', Ht, <- ci_log0, Hs.
      - exfalso. destruct Hcase as [[(_ & Hr' & _) _]|(ch & Hs' & _)]; congruence. }
    rewrite Hb in ci_count0. wp_steps.
    destruct (write_wirq_law h1) as (h2 & Hw2 & Hr2 & Hs2 & Ht2).
    eapply on_port_spec; [exact Hw2|]. cbv beta iota.
    apply (irq_posts_spec true). intros h rs ch (Hs & Hr & Ht). simpl in Hs, Hr, Ht.
    apply HQ; [|done..]. split; simpl; [lia|lia| |done|].
    + intros _. split; congruence.
    + rewrite Hs, Hs2, Hn1, Ht, Ht2, Ht1. apply app_nil_r.
  - destruct Hcase as [[Hsame _]|(ch & _ & _ & Hr' & _)]; [|congruence].
    wp_step. wp_step. apply (irq_posts_spec false). intros h rs ch Hs. simpl in Hs.
    apply HQ; [|done|].
    + assert (con_inv (set_port h c) n log) as [] by (apply con_inv_port; [done|]; unfold same_tx in *; intuition congruence).
      by split.
    + intros Hr. destruct Hsame as (_ & Hr' & _). congruence.
Qed.

(** ** The console as a machine

    Threads pass the semaphore and send, interrupt handlers and the kernel with
    interrupts off send by polling, the port finishes characters and receives
    them, and interrupts. *)
Inductive con_step (fuel : nat) : console Hw * nat * list Z → result unit → console Hw * nat * list Z → Prop :=
  | step_P c n log c' : P_wsem c = (Ret (), c') → con_step fuel (c, n, log) (Ret ()) (c', S n, log)
  | step_send c n log ch r c' :
      lser_write ch c = (r, c') → con_step fuel (c, S n, log) r (c', n, log ++ [ch])
  | step_polled c n log ch r c' :
      lser_writepolled fuel ch c = (r, c') → con_step fuel (c, n, log) r (c', n, log ++ [ch])
  | step_irq c n log r c' :
      lser_irq (set_spl SPL_HIGH c) = (r, c') → con_step fuel (c, n, log) r (set_spl (curspl c) c', n, log)
  | step_sent c n log h : finished (port c) h → con_step fuel (c, n, log) (Ret ()) (set_port h c, n, log)
  | step_received c n log h : same_tx (port c) h → con_step fuel (c, n, log) (Ret ()) (set_port h c, n, log).

Definition con_run fuel := rtc (λ s s', con_step fuel s (Ret ()) s').

Lemma con_step_inv fuel c n log r c' n' log' :
  (patience ≤ fuel)%nat → con_inv c n log → con_step fuel (c, n, log) r (c', n', log') →
  r = Ret () ∧ con_inv c' n' log'.
Proof.
  intros Hfuel Hinv Hstep. inversion Hstep; simplify_eq.
  - match goal with Hp : P_wsem c = _ |- _ => rename Hp into Hop end. split; [done|].
    unfold P_wsem, mbind, M_bind, gets, modify in Hop. destruct (Z.gtb_spec (cs_wsem c) 0); simplify_eq.
    destruct Hinv. split; cbn [cs_wsem ls_wbusy port set_wsem]; [lia|lia|done|done|done].
  - match goal with Hp : lser_write _ c = _ |- _ => rename Hp into Hop end.
    pose proof (lser_write_spec c n' log ch (λ r c', r = Ret () ∧ con_inv c' n' (log ++ [ch])) Hinv
      (λ c' Hc _, conj eq_refl Hc)) as Hwp. unfold wp in Hwp. by rewrite Hop in Hwp.
  - match goal with Hp : lser_writepolled _ _ c = _ |- _ => rename Hp into Hop end.
    pose proof (lser_writepolled_spec fuel c n' log ch (λ r c', r = Ret () ∧ con_inv c' n' (log ++ [ch])) Hfuel Hinv
      (λ c' Hc _ _, conj eq_refl Hc)) as Hwp. unfold wp in Hwp. by rewrite Hop in Hwp.
  - match goal with Hp : lser_irq _ = _ |- _ => rename Hp into Hop end.
    pose proof (lser_irq_spec (set_spl SPL_HIGH c) n' log' (λ r c', r = Ret () ∧ con_inv c' n' log')
      (con_inv_spl _ _ _ _ Hinv) eq_refl (λ c' Hc _ _, conj eq_refl Hc)) as Hwp. unfold wp in Hwp. rewrite Hop in Hwp.
    simpl in Hwp. destruct Hwp as [-> Hi]. split; [done|]. by apply con_inv_spl.
  - split; [done|]. match goal with Hf : finished _ _ |- _ => destruct Hf as (ch & Hs & Hs' & Hr' & Ht') end.
    destruct Hinv. split; simpl; try done.
    + intros Hb. destruct (ci_idle0 Hb). congruence.
    + intros _. by left.
    + rewrite Ht', Hs', <- ci_log0, Hs. apply app_nil_r.
  - split; [done|]. by apply con_inv_port.
Qed.

Lemma con_run_inv fuel s c n log :
  (patience ≤ fuel)%nat → con_inv s.1.1 s.1.2 s.2 → con_run fuel s (c, n, log) → con_inv c n log.
Proof.
  intros Hfuel Hinv Hrun. remember (c, n, log) as s' eqn:Hs'.
  revert c n log Hs'. induction Hrun as [s|[[c1 n1] l1] [[c2 n2] l2] s' Hstep Hrun IH]; intros c n log ->; [done|].
  apply IH; [|done]. eapply con_step_inv in Hstep; [|done|done]. apply Hstep.
Qed.

(** C23: no character for the console is lost, doubled or reordered, and the
    driver never panics.  From a console that is idle, under every interleaving of
    threads, polled output, interrupts and the port, each operation returns: the
    thread that has passed the semaphore never finds the port busy, and polling
    ends.  What the port has sent, and the character it is sending, are the
    characters given to it in their order; the semaphore, the threads past it and
    the busy flag add up to one; and when no thread can pass, the port is
    sending, or ready, and then its interrupt posts the semaphore. *)
Theorem console_output fuel c0 c n log r s' :
  (patience ≤ fuel)%nat → con_inv c0 0 [] →
  con_run fuel (c0, 0%nat, []) (c, n, log) → con_step fuel (c, n, log) r s' →
  r = Ret () ∧
  sent (port c) ++ option_list (sending (port c)) = log ∧
  cs_wsem c + Z.of_nat n + (if ls_wbusy c then 1 else 0) = 1 ∧
  (cs_wsem c = 0 → n = 0%nat →
     is_Some (sending (port c)) ∨
     ∃ c', lser_irq (set_spl SPL_HIGH c) = (Ret (), c') ∧ cs_wsem c' = 1).
Proof.
  intros Hfuel Hc0 Hrun Hstep. pose proof (con_run_inv _ (c0, 0%nat, []) _ _ _ Hfuel Hc0 Hrun) as Hinv.
  destruct s' as [[c1 n1] l1]. destruct (con_step_inv _ _ _ _ _ _ _ _ Hfuel Hinv Hstep) as [-> _].
  destruct (Hinv). split_and!; [done..|]. intros Hw0 ->.
  destruct (ls_wbusy c); [|lia]. destruct (ci_busy0 eq_refl) as [[_ Hr]|[Hs _]]; [right|by left].
  pose proof (lser_irq_spec (set_spl SPL_HIGH c) 0 log
    (λ r c', r = Ret () ∧ cs_wsem c' = 1) (con_inv_spl _ _ _ _ Hinv) eq_refl) as Hwp.
  unfold wp in Hwp. destruct (lser_irq (set_spl SPL_HIGH c)) as [r c'].
  assert (r = Ret () ∧ cs_wsem c' = 1) as [-> Hc']; [|by exists c'].
  apply Hwp. intros c2 _ _ Hpost. split; [done|]. rewrite Hpost by done. simpl. lia.
Qed.

(** With interrupts off, printing is synchronous: the characters go out in
    order and nothing else changes. *)
Lemma console_send_polled fuel c n log data :
  (patience ≤ fuel)%nat → con_inv c n log → the_console c = true → 0 < curspl c →
  wp (console_send fuel data) (λ r c', r = Ret () ∧ con_inv c' n (log ++ data)) c.
Proof.
  intros Hfuel Hinv Hcon Hspl. unfold console_send.
  revert c log Hinv Hcon Hspl. induction data as [|ch data IH]; intros c log Hinv Hcon Hspl; simpl.
  { wp_step. by rewrite app_nil_r. }
  wp_step. unfold putch. wp_steps. rewrite Hcon, (proj2 (Z.gtb_lt _ _)), orb_true_r by lia. simpl.
  apply (lser_writepolled_spec fuel c n log ch); [done..|]. intros c' Hinv' Hspl' Hcon'.
  replace (log ++ ch :: data) with ((log ++ [ch]) ++ data) by (by rewrite <- app_assoc).
  apply IH; [done|congruence|lia].
Qed.
End specs.

(** ** A port

    It takes one poll to send a character. *)

Record simport := {
  sp_tx : option Z; sp_wirq : bool; sp_out : list Z; sp_rx : option Z;
}.

#[export] Instance simport_port : SerialPort simport := {
  bus_read_wirq h :=
    match sp_tx h with
    | Some ch => (Ret 3, {| sp_tx := None; sp_wirq := true; sp_out := sp_out h ++ [ch]; sp_rx := sp_rx h |})
    | None => (Ret (if sp_wirq h then 3 else 1), h)
    end;
  bus_write_wirq _ h := (Ret (), {| sp_tx := sp_tx h; sp_wirq := false; sp_out := sp_out h; sp_rx := sp_rx h |});
  bus_write_char ch h := (Ret (), {| sp_tx := Some ch; sp_wirq := sp_wirq h; sp_out := sp_out h; sp_rx := sp_rx h |});
  bus_read_rirq h := (Ret (match sp_rx h with Some _ => 3 | None => 1 end), h);
  bus_write_rirq _ h := (Ret (), {| sp_tx := sp_tx h; sp_wirq := sp_wirq h; sp_out := sp_out h; sp_rx := None |});
  bus_read_char h := (match sp_rx h with Some ch => Ret ch | None => Halt Undef end, h);
}.

#[export] Instance simport_view : SerialView simport := {
  sending := sp_tx; ready := sp_wirq; sent := sp_out; received := sp_rx;
  remaining _ := 0%nat; patience := 1%nat;
}.

#[export] Instance simport_laws : SerialLaws simport.
Proof.
  split.
  - intros h. simpl. lia.
  - intros h. simpl. destruct (sp_tx h) as [ch|] eqn:Htx.
    + eexists _, _. split; [done|]. split; [done|]. right. by exists ch.
    + eexists _, _. split; [done|]. split; [by destruct (sp_wirq h)|]. left. split; [done|]. simpl. congruence.
  - intros h. by eexists.
  - intros h ch _. by eexists.
  - intros h. eexists _, _. split; [done|]. split; [done|]. simpl. by destruct (sp_rx h).
  - intros h [ch Hch]. simpl in *. rewrite Hch. by eexists _, _.
  - intros h. by eexists.
Qed.

Definition idle_console : console simport :=
  Console {| sp_tx := None; sp_wirq := false; sp_out := []; sp_rx := None |} false 1 0 0 true [] 0 false.

(** A thread sends [A]; before its interrupt an interrupt handler prints [B]. *)
Definition after_A : console simport := (putch_intr 65 idle_console).2.
Definition after_B : console simport := (lser_writepolled 1 66 after_A).2.

Lemma console_output_witness :
  sp_out (port after_B) = [65; 66] ∧
  ∃ c', lser_irq (set_spl SPL_HIGH after_B) = (Ret (), c') ∧ cs_wsem c' = 1.
Proof.
  split; [reflexivity|].
  pose proof (console_output 1 idle_console after_B 0 [65; 66] (lser_irq (set_spl SPL_HIGH after_B)).1
    (set_spl (curspl after_B) (lser_irq (set_spl SPL_HIGH after_B)).2, 0%nat, [65; 66])) as Hc.
  destruct Hc as (_ & _ & _ & Hc).
  - simpl. lia.
  - by split.
  - eapply rtc_l; [apply (step_P 1 idle_console 0 [] (set_wsem 0 idle_console)); reflexivity|].
    eapply rtc_l; [apply (step_send 1 (set_wsem 0 idle_console) 0 [] 65 (Ret ()) after_A); reflexivity|].
    apply rtc_once. apply (step_polled 1 after_A 0 [65] 66 (Ret ()) after_B). vm_compute. reflexivity.
  - apply step_irq, surjective_pairing.
  - destruct Hc as [Hs|Hc]; [reflexivity|reflexivity|by destruct Hs|exact Hc].
Defined.

(** Input is not buffered: after two characters before a reader comes, the
    second is read twice. *)
Lemma getch_duplicates :
  ∃ c1 c2, (_ ← con_input 65; con_input 66) idle_console = (Ret (), c1) ∧
    getch c1 = (Ret 66, c2) ∧ (getch c2).1 = Ret 66.
Proof. eexists _, _. split; [reflexivity|]. split; reflexivity. Qed.
