(* ===== verification/Terminal.v ===== *)
(** * Reading and writing lines (kern/lib/kgets.c, con_io of kern/dev/generic/console.c)

    What the callers of the console see of it: [getch] waits for a character and
    takes it, [putch] shows one.  The input is as in console.c, one character
    [cs_gotchar] and the semaphore [cs_rsem] that counts the interrupts, so that
    characters typed too fast are lost.  Here are the line editor of the menu,
    and the console as a device, which moves a line of input or a block of output
    for a user program. *)

From S2P Require Import Prelude CopyInOut Uio.

(** [typing] is what the user will type: each burst is the characters whose
    interrupts arrive before the next [getch] has its character, or before it
    goes to sleep once more. *)
Record terminal := {
  typing : list (list Z);
  cs_rsem : nat;
  cs_gotchar : Z;
  screen : list Z;
  beeps : nat;
}.

Definition set_input (bursts : list (list Z)) (rsem : nat) (ch : Z) (t : terminal) : terminal :=
  {| typing := bursts; cs_rsem := rsem; cs_gotchar := ch; screen := screen t; beeps := beeps t |}.
Definition print (l : list Z) (t : terminal) : terminal :=
  {| typing := typing t; cs_rsem := cs_rsem t; cs_gotchar := cs_gotchar t; screen := screen t ++ l; beeps := beeps t |}.

(** [con_input], which the interrupt of a character calls. *)
Definition tty_input (ch : Z) : M terminal unit := modify (λ t, set_input (typing t) (S (cs_rsem t)) ch t).

(** [P(cs->cs_rsem)], which sleeps as long as the count is 0, and the read of
    [cs->cs_gotchar]; the interrupts of [bursts] arrive in between. *)
Fixpoint getch_loop (bursts : list (list Z)) : M terminal Z :=
  _ ← (match bursts with [] => mret () | b :: _ => forM b tty_input end);
  t ← get;
  match cs_rsem t with
  | S n => _ ← modify (set_input (drop 1 bursts) n (cs_gotchar t)); gets cs_gotchar
  | O => match bursts with
         | [] => blocked
         | _ :: bursts' => getch_loop bursts'
         end
  end.
Definition tty_getch : M terminal Z := t ← get; getch_loop (typing t).
Definition tty_putch (ch : Z) : M terminal unit := modify (print [ch]).
Definition beep : M terminal unit :=
  modify (λ t, {| typing := typing t; cs_rsem := cs_rsem t; cs_gotchar := cs_gotchar t;
                  screen := screen t; beeps := S (beeps t) |}).

(** The keys: the characters that one [getch] after the other returns, until
    one waits for ever. *)
Fixpoint taken (bursts : list (list Z)) (rsem : nat) (ch : Z) : list Z :=
  match bursts with
  | [] => replicate rsem ch
  | b :: bursts' =>
      let ch' := default ch (last b) in
      match (length b + rsem)%nat with
      | O => taken bursts' O ch'
      | S n => ch' :: taken bursts' n ch'
      end
  end.
Definition keys (t : terminal) : list Z := taken (typing t) (cs_rsem t) (cs_gotchar t).

(** ** The line editor (kgets.c) *)

Definition backsp : M terminal unit :=
  _ ← tty_putch 8; _ ← tty_putch 32; tty_putch 8.

(** The string in a buffer, as [%s] prints it. *)
Fixpoint cstring (buf : list Z) : option (list Z) :=
  match buf with
  | [] => None
  | 0 :: _ => Some []
  | b :: buf' => cons b <$> cstring buf'
  end.

(** The loops that erase: while [pos > 0] and the character before satisfies
    [p]; the new [pos]. *)
Fixpoint erase (p : Z → bool) (buf : list Z) (pos : nat) : M terminal nat :=
  match pos with
  | O => mret O
  | S pos' =>
      b ← deref (buf !! pos');
      if p b then _ ← backsp; erase p buf pos' else mret pos
  end.

Definition printable (ch : Z) : bool := (32 <=? ch) && (ch <? 127).

(** The [while (1)]: each turn takes a key. *)
Fixpoint kgets_loop (fuel : nat) (maxlen : Z) (buf : list Z) (pos : nat) : M terminal (list Z * nat) :=
  match fuel with
  | O => nofuel
  | S fuel' =>
      ch ← tty_getch;
      if (ch =? 10) || (ch =? 13) then _ ← tty_putch 10; mret (buf, pos)
      else if printable ch && (Z.of_nat pos <? u32 (maxlen - 1)) then
        _ ← tty_putch ch;
        buf' ← deref (zstore buf (Z.of_nat pos) ch);
        kgets_loop fuel' maxlen buf' (S pos)
      else if ((ch =? 8) || (ch =? 127)) && (0 <? Z.of_nat pos) then
        _ ← backsp;
        kgets_loop fuel' maxlen buf (pos - 1)
      else if ch =? 3 then
        _ ← tty_putch 94; _ ← tty_putch 67; _ ← tty_putch 10; mret (buf, O)
      else if ch =? 18 then
        buf' ← deref (zstore buf (Z.of_nat pos) 0);
        str ← deref (cstring buf');
        _ ← forM ([94; 82; 10] ++ str) tty_putch;
        kgets_loop fuel' maxlen buf' pos
      else if ch =? 21 then
        pos' ← erase (λ _, true) buf pos;
        kgets_loop fuel' maxlen buf pos'
      else if ch =? 23 then
        pos1 ← erase (λ b, b =? 32) buf pos;
        pos2 ← erase (λ b, negb (b =? 32)) buf pos1;
        kgets_loop fuel' maxlen buf pos2
      else
        _ ← beep;
        kgets_loop fuel' maxlen buf pos
  end.

(** Every turn takes a key, so there is one turn more than keys at most. *)
Definition kgets (buf : list Z) (maxlen : Z) : M terminal (list Z) :=
  t ← get;
  r ← kgets_loop (S (length (keys t))) maxlen buf 0;
  deref (zstore r.1 (Z.of_nat r.2) 0).

(** ** The console device (console.c) *)

(** The configured console with its two locks, which [config_con] has made:
    whether they are held. *)
Record con_dev := { con_term : terminal; con_userlock_read : bool; con_userlock_write : bool }.

Definition lock_of (rw : uio_rw) (c : con_dev) : bool :=
  match rw with UIO_READ => con_userlock_read c | UIO_WRITE => con_userlock_write c end.
Definition set_lock (rw : uio_rw) (b : bool) (c : con_dev) : con_dev :=
  match rw with
  | UIO_READ => {| con_term := con_term c; con_userlock_read := b; con_userlock_write := con_userlock_write c |}
  | UIO_WRITE => {| con_term := con_term c; con_userlock_read := con_userlock_read c; con_userlock_write := b |}
  end.
Definition set_term (t : terminal) (c : con_dev) : con_dev :=
  {| con_term := t; con_userlock_read := con_userlock_read c; con_userlock_write := con_userlock_write c |}.
Definition on_term {A} (m : M terminal A) : M (con_dev * uiost) A := on_fst (zoom con_term set_term m).

Definition take_lock (rw : uio_rw) : M con_dev unit := λ c,
  if lock_of rw c then (Halt Blocked, c) else (Ret (), set_lock rw true c).
Definition drop_lock (rw : uio_rw) : M con_dev unit := modify (set_lock rw false).

(** The loop of [con_io]; a [Fail] is the early return, before which the caller
    releases the lock. *)
Fixpoint con_io_loop (fuel : nat) : M (con_dev * uiost) unit :=
  p ← get;
  if uio_resid (u p.2) >? 0 then
    match fuel with
    | O => nofuel
    | S fuel' =>
        match uio_dir (u p.2) with
        | UIO_READ =>
            k ← on_term tty_getch;
            let ch := if u8 k =? 13 then 10 else u8 k in
            _ ← on_snd (uiomove [ch] 1);
            if ch =? 10 then mret () else con_io_loop fuel'
        | UIO_WRITE =>
            bs ← on_snd (uiomove [0] 1);
            ch ← deref (head bs);
            _ ← (if ch =? 10 then on_term (tty_putch 13) else mret ());
            _ ← on_term (tty_putch ch);
            con_io_loop fuel'
        end
    end
  else mret ().

Definition con_io : M (con_dev * uiost) unit :=
  p ← get;
  let rw := uio_dir (u p.2) in
  _ ← on_fst (take_lock rw);
  r ← attempt (con_io_loop (Z.to_nat (uio_resid (u p.2))));
  _ ← on_fst (drop_lock rw);
  result_of r.

(** ** What the editor does, on lines *)

(** The row of the screen with the cursor at its end: a backspace moves the
    cursor, so that the next character replaces the last one. *)
Definition show (row : list Z) (ch : Z) : list Z :=
  if ch =? 10 then [] else if ch =? 8 then take (length row - 1) row else row ++ [ch].
Definition row_of (scr : list Z) : list Z := foldl show [] scr.

(** A line without the characters at its end that satisfy [p]. *)
Fixpoint dropwhile (p : Z → bool) (l : list Z) : list Z :=
  match l with [] => [] | x :: l' => if p x then dropwhile p l' else l end.
Definition rstrip (p : Z → bool) (l : list Z) : list Z := reverse (dropwhile p (reverse l)).

(** The prompt on the row, and the line. *)
Definition editor : Type := list Z * list Z.

Definition edit (maxlen k : Z) (ed : editor) : editor :=
  let '(prompt, line) := ed in
  if printable k && (zlen line <? maxlen - 1) then (prompt, line ++ [k])
  else if ((k =? 8) || (k =? 127)) && (0 <? zlen line) then (prompt, take (length line - 1) line)
  else if k =? 18 then ([], line)
  else if k =? 21 then (prompt, [])
  else if k =? 23 then (prompt, rstrip (λ b, negb (b =? 32)) (rstrip (λ b, b =? 32) line))
  else ed.

(** The editor until a newline or an interrupt: the line and the keys left, or
    [None] when the keys end before. *)
Fixpoint read_line (maxlen : Z) (ks : list Z) (ed : editor) : editor * option (list Z * list Z) :=
  match ks with
  | [] => (ed, None)
  | k :: ks' =>
      if (k =? 10) || (k =? 13) then (ed, Some (ed.2, ks'))
      else if k =? 3 then (ed, Some ([], ks'))
      else read_line maxlen ks' (edit maxlen k ed)
  end.

(** ** The editor on the buffer *)

Lemma row_of_app s1 s2 : row_of (s1 ++ s2) = foldl show (row_of s1) s2.
Proof. unfold row_of. by rewrite foldl_app. Qed.

Lemma row_backsp row : foldl show row [8; 32; 8] = take (length row - 1) row.
Proof.
  cbn [foldl]. unfold show. cbn [Z.eqb Pos.eqb]. rewrite length_app. cbn [length]. rewrite Nat.add_sub, take_app_le by lia.
  rewrite take_take. f_equal. rewrite length_take. lia.
Qed.

Lemma row_text row l : Forall (λ b, printable b = true) l → foldl show row l = row ++ l.
Proof.
  revert row. induction l as [|b l IH]; intros row; simpl; [by rewrite app_nil_r|].
  intros [Hb Hl]%Forall_cons. rewrite IH by done. unfold show, printable in *.
  replace (b =? 10) with false by lia. replace (b =? 8) with false by lia. by rewrite <- app_assoc.
Qed.

Lemma row_pop (row line : list Z) b :
  take (length (row ++ line ++ [b]) - 1) (row ++ line ++ [b]) = row ++ line.
Proof. rewrite app_assoc, length_app. simpl. by rewrite Nat.add_sub, take_app_length. Qed.

Lemma rstrip_snoc p l b : rstrip p (l ++ [b]) = if p b then rstrip p l else l ++ [b].
Proof.
  unfold rstrip. rewrite reverse_snoc. simpl. destruct (p b); [done|].
  by rewrite reverse_cons, reverse_involutive.
Qed.

Lemma rstrip_prefix p l : rstrip p l `prefix_of` l.
Proof.
  induction l as [|b l IH] using rev_ind; [done|]. rewrite rstrip_snoc. destruct (p b); [|done].
  etrans; [done|]. by apply prefix_app_r.
Qed.

Lemma wp_backsp t Q :
  Q (Ret ()) (print [8; 32; 8] t) → wp backsp Q t.
Proof. intros HQ. unfold backsp, tty_putch. wp_steps. unfold print in *; simpl. by rewrite <- !app_assoc. Qed.

(** The buffer holds the line up to [pos]. *)
Definition holds_line (buf : list Z) (line : list Z) : Prop :=
  take (length line) buf = line ∧ (length line ≤ length buf)%nat.

Lemma holds_line_snoc buf line b :
  holds_line buf (line ++ [b]) → holds_line buf line ∧ buf !! length line = Some b.
Proof.
  intros [Ht Hl]. rewrite length_app in *. simpl in *.
  assert (buf !! length line = Some b) as Hb.
  { rewrite <- (lookup_take_lt buf (length line + 1)) by lia. rewrite Ht.
    by rewrite lookup_app_r, Nat.sub_diag by lia. }
  split; [|done]. split; [|lia].
  replace (length line) with (length line `min` (length line + 1))%nat at 1 by lia.
  rewrite <- take_take, Ht. by rewrite take_app_length.
Qed.

Lemma holds_line_prefix buf line line' : holds_line buf line → line' `prefix_of` line → holds_line buf line'.
Proof.
  intros [Ht Hl] [k ->]. rewrite length_app in *. split; [|lia].
  replace (length line') with (length line' `min` (length line' + length k))%nat at 1 by lia.
  by rewrite <- take_take, Ht, take_app_length.
Qed.

Lemma erase_spec p buf prompt line t Q :
  holds_line buf line → row_of (screen t) = prompt ++ line →
  (∀ t', keys t' = keys t → row_of (screen t') = prompt ++ rstrip p line →
     Q (Ret (length (rstrip p line))) t') →
  wp (erase p buf (length line)) Q t.
Proof.
  revert t. induction line as [|b line IH] using rev_ind; intros t Hh Hrow HQ.
  { simpl. wp_step. by apply HQ. }
  apply holds_line_snoc in Hh as [Hh Hb]. rewrite length_app, Nat.add_1_r. simpl. wp_steps.
  eapply wp_deref; [done|]. rewrite rstrip_snoc in HQ. destruct (p b).
  - wp_steps. apply wp_backsp. apply IH; [done| |].
    + simpl. rewrite row_of_app, row_backsp, Hrow. apply row_pop.
    + intros t' Hk Hr. by apply HQ.
  - wp_step. rewrite length_app, Nat.add_1_r in HQ. by apply HQ.
Qed.

Lemma cstring_line line buf rest :
  Forall (λ b, printable b = true) line → buf = line ++ 0 :: rest → cstring buf = Some line.
Proof.
  intros Hp ->. induction Hp as [|b line Hb Hp IH]; simpl; [done|]. rewrite IH. unfold printable in Hb.
  destruct b; [lia|done|done].
Qed.

(** A terminator stored after the line. *)
Lemma holds_line_end buf line :
  holds_line buf line → (length line < length buf)%nat →
  ∃ rest, <[length line := 0]> buf = line ++ 0 :: rest.
Proof.
  intros [Ht Hl] Hlt. exists (drop (S (length line)) buf).
  rewrite (insert_take_drop buf (length line) 0 Hlt). by rewrite Ht.
Qed.

Lemma holds_line_store buf line b :
  holds_line buf line → (length line < length buf)%nat → holds_line (<[length line := b]> buf) (line ++ [b]).
Proof.
  intros [Ht Hl] Hlt. rewrite (insert_take_drop buf (length line) b Hlt), Ht. split.
  - set (r := drop _ _). replace (line ++ b :: r) with ((line ++ [b]) ++ r) by (by rewrite <- app_assoc).
    apply take_app_length.
  - rewrite !length_app. simpl. lia.
Qed.

(** The state of the editor and of the code agree. *)
Record edits (maxlen : Z) (buf : list Z) (ed : editor) (t : terminal) : Prop := {
  es_buf : holds_line buf ed.2;
  es_text : Forall (λ b, printable b = true) ed.2;
  es_row : row_of (screen t) = ed.1 ++ ed.2;
  es_max : zlen ed.2 < maxlen;
  es_len : zlen buf = maxlen;
}.

(** The outcome of the loop. *)
Definition kgets_post (maxlen : Z) (ks : list Z) (ed : editor) (r : result (list Z * nat)) (t' : terminal) : Prop :=
  match r with
  | Ret (buf', pos) => ∃ ed' line rest, read_line maxlen ks ed = (ed', Some (line, rest)) ∧ keys t' = rest ∧
      pos = length line ∧ zlen buf' = maxlen ∧ holds_line buf' line ∧
      Forall (λ b, printable b = true) line ∧ zlen line < maxlen
  | Halt k => k = Blocked ∧ ∃ ed', read_line maxlen ks ed = (ed', None) ∧ keys t' = [] ∧
      row_of (screen t') = ed'.1 ++ ed'.2
  | Fail _ => False
  end.

(** ** What [getch] returns *)

Lemma input_burst b t Q :
  Q (Ret ()) (set_input (typing t) (length b + cs_rsem t) (default (cs_gotchar t) (last b)) t) →
  wp (forM b tty_input) Q t.
Proof.
  revert t. induction b as [|ch b IH]; intros t HQ; cbn [forM]; [by destruct t|].
  wp_steps. apply IH. unfold tty_input, modify, set_input in *. cbn [snd typing cs_rsem cs_gotchar screen beeps].
  rewrite last_cons in HQ.
  replace (length b + S (cs_rsem t))%nat with (length (ch :: b) + cs_rsem t)%nat by (simpl; lia).
  by destruct (last b).
Qed.

(** The characters of a call are gone, the screen is as it was. *)
Record took (ks : list Z) (t t' : terminal) : Prop := {
  tk_keys : keys t' = ks;
  tk_screen : screen t' = screen t;
  tk_beeps : beeps t' = beeps t;
}.

Lemma getch_loop_spec bursts t Q :
  (taken bursts (cs_rsem t) (cs_gotchar t) = [] → Q (Halt Blocked) t) →
  (∀ k ks t', taken bursts (cs_rsem t) (cs_gotchar t) = k :: ks → took ks t t' → Q (Ret k) t') →
  wp (getch_loop bursts) Q t.
Proof.
  induction bursts as [|b bursts IH]; intros HN HS; cbn [getch_loop taken] in *.
  - wp_steps. destruct (cs_rsem t) as [|n]; [by apply HN|]. wp_steps. by apply (HS _ (replicate n (cs_gotchar t))).
  - wp_step. apply input_burst. wp_steps. cbn [set_input cs_rsem].
    destruct (length b + cs_rsem t)%nat as [|n] eqn:Hn.
    + destruct b; [|done]. cbn [length Nat.add last default] in *. rewrite Hn in IH.
      assert (set_input (typing t) 0 (cs_gotchar t) t = t) as -> by (rewrite <- Hn; by destruct t). by apply IH.
    + wp_steps. eapply HS; [done|]. by split.
Qed.

Lemma wp_tty_getch t Q :
  (keys t = [] → Q (Halt Blocked) t) →
  (∀ k ks t', keys t = k :: ks → took ks t t' → Q (Ret k) t') →
  wp tty_getch Q t.
Proof. intros HN HS. unfold tty_getch. wp_steps. by apply getch_loop_spec. Qed.

(** With time between the characters, so that no two of them arrive before
    [getch] has taken one, the keys are the characters typed. *)
Lemma keys_paced t : cs_rsem t = O → Forall (λ b, length b ≤ 1)%nat (typing t) → keys t = concat (typing t).
Proof.
  unfold keys. intros ->. generalize (cs_gotchar t). induction (typing t) as [|b bs IH]; intros ch Hb; [done|].
  apply Forall_cons in Hb as [Hb Hbs]. destruct b as [|k [|]]; simpl in *; [by apply IH|by rewrite IH|lia].
Qed.

(** Otherwise the last one of a burst comes out once for each of them: there is
    no input buffering. *)
Lemma keys_lost t b bs :
  typing t = b :: bs → cs_rsem t = O → Forall (eq []) bs → keys t = replicate (length b) (default 0 (last b)).
Proof.
  unfold keys. intros -> -> Hbs. cbn [taken]. rewrite Nat.add_0_r.
  assert (∀ n ch, taken bs n ch = replicate n ch) as Ht.
  { induction Hbs as [|x bs <- _ IH]; intros n ch; [done|]. simpl. destruct n; by rewrite IH. }
  destruct b as [|k b]; simpl length; [by rewrite Ht|]. rewrite last_cons.
  by destruct (last b); simpl; rewrite Ht.
Qed.

Lemma wp_print l t Q : Q (Ret ()) (print l t) → wp (forM l tty_putch) Q t.
Proof.
  revert t. induction l as [|b l IH]; intros t HQ; simpl.
  - wp_step. unfold print in HQ. rewrite app_nil_r in HQ. by destruct t.
  - unfold tty_putch at 1. wp_steps. apply IH. unfold print in *; simpl. by rewrite <- app_assoc.
Qed.

Lemma edits_keys maxlen buf ed t t' :
  edits maxlen buf ed t → row_of (screen t') = ed.1 ++ ed.2 → edits maxlen buf ed t'.
Proof. intros [] ?. by split. Qed.

(** The line cut short. *)
Lemma edits_cut maxlen buf prompt line line' t t' :
  edits maxlen buf (prompt, line) t → line' `prefix_of` line → row_of (screen t') = prompt ++ line' →
  edits maxlen buf (prompt, line') t'.
Proof.
  intros [Hb Htx _ Hm Hl] Hp Hr. simpl in *. split; simpl; [by eapply holds_line_prefix| |done| |done].
  - destruct Hp as [k ->]. by apply Forall_app in Htx as [? _].
  - destruct Hp as [k ->]. rewrite zlen_app in Hm. pose proof (zlen_nonneg k). lia.
Qed.

(** What each key does keeps the agreement. *)
Lemma edits_type maxlen buf prompt line t k :
  edits maxlen buf (prompt, line) t → printable k = true → Z.of_nat (length line) < maxlen - 1 →
  edits maxlen (<[length line := k]> buf) (prompt, line ++ [k])
    (print [k] t).
Proof.
  intros [Hb Htx Hrow Hm Hl] Hk Hroom. simpl in *. unfold zlen in *.
  split; simpl; unfold zlen; rewrite ?length_app, ?length_insert; simpl; [|by apply Forall_app; auto| |lia|done].
  - apply holds_line_store; [done|lia].
  - rewrite row_of_app, Hrow, row_text by auto. by rewrite app_assoc.
Qed.

Lemma edits_backsp maxlen buf prompt line t :
  edits maxlen buf (prompt, line) t → (0 < length line)%nat →
  edits maxlen buf (prompt, take (length line - 1) line)
    (print [8; 32; 8] t).
Proof.
  intros Hed Hpos. eapply edits_cut; [done|apply prefix_take|]. destruct Hed as [_ _ Hrow _ _]. simpl in *.
  rewrite row_of_app, row_backsp, Hrow. destruct line as [|b line _] using rev_ind; [simpl in Hpos; lia|].
  by rewrite row_pop, length_app, Nat.add_sub, take_app_length.
Qed.

Lemma erase_edits p maxlen buf prompt line t Q :
  edits maxlen buf (prompt, line) t →
  (∀ t', keys t' = keys t → edits maxlen buf (prompt, rstrip p line) t' →
     Q (Ret (length (rstrip p line))) t') →
  wp (erase p buf (length line)) Q t.
Proof.
  intros Hed HQ. destruct (Hed) as [Hb _ Hrow _ _]. eapply erase_spec; [done|done|].
  intros t' Hk Hr. apply HQ; [done|]. eapply edits_cut; [done|apply rstrip_prefix|done].
Qed.

Lemma reprint_edits {A} maxlen buf prompt line t (K : list Z → M terminal A) Q :
  edits maxlen buf (prompt, line) t →
  (∀ buf' t', keys t' = keys t → edits maxlen buf' ([], line) t' → wp (K buf') Q t') →
  wp (buf' ← deref (zstore buf (Z.of_nat (length line)) 0);
      str ← deref (cstring buf');
      _ ← forM ([94; 82; 10] ++ str) tty_putch; K buf') Q t.
Proof.
  intros [Hb Htx Hrow Hm Hl] HQ. simpl in *. unfold zlen in *. wp_step.
  eapply wp_deref; [apply zstore_in; unfold zlen; lia|]. rewrite Nat2Z.id.
  destruct (holds_line_end buf line Hb) as [rest Hend]; [lia|].
  wp_step. eapply wp_deref; [by eapply cstring_line|]. apply wp_bind, (wp_print (94 :: 82 :: 10 :: line)).
  apply HQ; [done|]. split; simpl; [|done| |done|unfold zlen; by rewrite length_insert].
  - rewrite Hend. split; [apply take_app_length|rewrite length_app; simpl; lia].
  - rewrite row_of_app. change (foldl show ?r (94 :: 82 :: 10 :: line)) with (foldl show [] line).
    by apply row_text.
Qed.

Lemma rstrip_all l : rstrip (λ _, true) l = [].
Proof. induction l as [|b l IH] using rev_ind; [done|]. by rewrite rstrip_snoc. Qed.

Lemma kgets_loop_spec fuel maxlen buf ed t :
  0 < maxlen < 2 ^ 32 → edits maxlen buf ed t → (length (keys t) < fuel)%nat →
  wp (kgets_loop fuel maxlen buf (length ed.2)) (kgets_post maxlen (keys t) ed) t.
Proof.
  intros Hmax. revert buf ed t. induction fuel as [|fuel IH]; intros buf ed t Hed Hfuel; [lia|].
  destruct ed as [prompt line]. cbn [kgets_loop snd]. wp_step. apply wp_tty_getch.
  { intros Hk. rewrite Hk. split; [done|]. exists (prompt, line). split_and!; [done|done|apply Hed]. }
  intros k ks t1 Hk [Hks Hscr _]. rewrite Hk in *. cbn [length] in Hfuel.
  assert (edits maxlen buf (prompt, line) t1) as Hed'.
  { eapply edits_keys; [done|]. rewrite Hscr. apply Hed. }
  destruct (Hed) as [Hb Htx Hrow Hm Hl]. cbn [fst snd] in *.
  assert (∀ buf' ed' t', keys t' = ks → edits maxlen buf' ed' t' → edit maxlen k (prompt, line) = ed' →
    (k =? 10) || (k =? 13) = false → (k =? 3) = false →
    wp (kgets_loop fuel maxlen buf' (length ed'.2)) (kgets_post maxlen (k :: ks) (prompt, line)) t') as Hnext.
  { intros buf' ed' t' Hk' He Hedit Hn1 Hn2. eapply wp_mono; [apply IH; [done|rewrite Hk'; lia]|].
    intros r t2. rewrite Hk'. unfold kgets_post. cbn [read_line]. by rewrite Hn1, Hn2, Hedit. }
  unfold edit in Hnext. rewrite u32_small by (unfold is_u32; lia). unfold zlen in Hnext.
  destruct ((k =? 10) || (k =? 13)) eqn:Hnl.
  { unfold tty_putch. wp_steps. eexists _, line, ks. cbn [read_line]. rewrite Hnl. by split_and!. }
  destruct (printable k && (Z.of_nat (length line) <? maxlen - 1)) eqn:Hpr.
  { unfold tty_putch. wp_steps. eapply wp_deref; [apply zstore_in; unfold zlen in *; lia|]. rewrite Nat2Z.id.
    apply andb_true_iff in Hpr as [Hpk Hroom].
    replace (S (length line)) with (length (line ++ [k])) by (rewrite length_app; simpl; lia).
    apply (Hnext _ (prompt, line ++ [k])); [done| |done|done|unfold printable in Hpk; lia].
    eapply edits_type; [exact Hed'|done|lia]. }
  destruct (((k =? 8) || (k =? 127)) && (0 <? Z.of_nat (length line))) eqn:Hbs.
  { wp_step. apply wp_backsp. rewrite <- (length_take_le line (length line - 1)) by lia.
    apply (Hnext _ (prompt, take (length line - 1) line)); [done| |done|done|lia].
    eapply edits_backsp; [exact Hed'|lia]. }
  destruct (Z.eqb_spec k 3) as [->|Hk3].
  { unfold tty_putch. wp_steps. eexists _, [], ks. cbn [read_line]. split_and!; try done; [split; simpl; [done|lia]|unfold zlen; simpl; lia]. }
  destruct (Z.eqb_spec k 18) as [->|Hk18].
  { eapply reprint_edits; [exact Hed'|]. intros buf' t' Hk' He'. apply (Hnext _ ([], line)); [congruence|done..]. }
  destruct (Z.eqb_spec k 21) as [->|Hk21].
  { wp_step. eapply erase_edits; [exact Hed'|]. rewrite rstrip_all. intros t' Hk' He'.
    apply (Hnext _ (prompt, [])); [congruence|done..]. }
  destruct (Z.eqb_spec k 23) as [->|Hk23].
  { wp_step. eapply erase_edits; [exact Hed'|]. intros t2 Hk2 He2. wp_step.
    eapply erase_edits; [done|]. intros t3 Hk3' He3.
    apply (Hnext _ (prompt, rstrip (λ b, negb (b =? 32)) (rstrip (λ b, b =? 32) line))); [congruence|done..]. }
  unfold beep. wp_steps. apply (Hnext _ (prompt, line)); [done|by eapply edits_keys, Hed'|done..].
Qed.

(** C28: [kgets] is a line editor.  For a buffer of [maxlen] bytes it never
    writes outside it, and either waits for a key, with the prompt and the line
    typed so far on the row of the screen, or returns the line that the editor
    gives for the keys: typing adds a character while there is room, backspace,
    word and line erase remove from the end, a reprint keeps the line, an
    interrupt empties it.  The string in the buffer is that line, shorter than
    the buffer. *)
Theorem kgets_correct buf maxlen t :
  0 < maxlen < 2 ^ 32 → zlen buf = maxlen →
  match kgets buf maxlen t with
  | (Ret buf', t') => ∃ ed line, read_line maxlen (keys t) (row_of (screen t), []) = (ed, Some (line, keys t')) ∧
      cstring buf' = Some line ∧ zlen line < maxlen ∧ zlen buf' = maxlen
  | (Halt k, t') => k = Blocked ∧
      ∃ prompt line, read_line maxlen (keys t) (row_of (screen t), []) = ((prompt, line), None) ∧
        keys t' = [] ∧ row_of (screen t') = prompt ++ line
  | (Fail _, _) => False
  end.
Proof.
  intros Hmax Hlen.
  assert (edits maxlen buf (row_of (screen t), []) t) as Hed.
  { split; simpl; [split; simpl; [done|lia]|done|by rewrite app_nil_r|unfold zlen; simpl; lia|done]. }
  pose proof (kgets_loop_spec (S (length (keys t))) maxlen buf _ t Hmax Hed ltac:(lia)) as Hwp.
  unfold kgets, mbind, M_bind, get. unfold wp in Hwp. cbn [snd length] in Hwp.
  destruct (kgets_loop _ _ _ _ t) as [[[buf' pos]| |k] t'] ; cbn [fst snd kgets_post] in *; [|done|].
  - destruct Hwp as (ed & line & rest & Hrl & Hk & -> & Hl & Hh & Htx & Hlt).
    rewrite zstore_in, Nat2Z.id by (unfold zlen in *; lia). simpl.
    exists ed, line. rewrite Hk. unfold zlen in *. split; [done|].
    destruct (holds_line_end buf' line Hh) as [r Hend]; [lia|]. split; [by eapply cstring_line|].
    by rewrite length_insert.
  - destruct Hwp as (-> & [prompt line] & Hrl & Hk & Hrow). split; [done|]. eauto.
Qed.

(** Typing "lx", a backspace, "s", and return. *)
Definition typed : terminal :=
  {| typing := [[108]; [120]; []; [8]; [115]; [13]; [113]]; cs_rsem := 0; cs_gotchar := 0; screen := [63; 32]; beeps := 0 |}.

Lemma kgets_correct_witness :
  ∃ t' buf', kgets (replicate 16 0) 16 typed = (Ret buf', t') ∧ cstring buf' = Some [108; 115] ∧ keys t' = [113].
Proof.
  pose proof (kgets_correct (replicate 16 0) 16 typed ltac:(done) ltac:(done)) as Hk.
  assert ((kgets (replicate 16 0) 16 typed).1 = Ret (108 :: 115 :: replicate 14 0)) as Hr by (vm_compute; reflexivity).
  destruct (kgets (replicate 16 0) 16 typed) as [r t']. cbn [fst] in Hr. subst r.
  destruct Hk as (ed & line & Hrl & Hs & _ & _). exists t', (108 :: 115 :: replicate 14 0). split; [done|].
  change (read_line _ _ _) with (([63; 32], [108; 115]), Some ([108; 115], [113])) in Hrl.
  injection Hrl as _ Hline Hkeys. by rewrite Hs, <- Hline, <- Hkeys.
Defined.

(** ** The console as a device *)

(** A newline is shown as carriage return and newline. *)
Definition crlf (bs : list Z) : list Z := bs ≫= λ b, if b =? 10 then [13; 10] else [b].

(** The first line of the keys, with a carriage return as its newline, but at
    most [n] bytes; [None] when there are not enough keys. *)
Fixpoint take_line (n : nat) (ks : list Z) : option (list Z * list Z) :=
  match n, ks with
  | O, _ => Some ([], ks)
  | S _, [] => None
  | S n', k :: ks' =>
      let ch := if u8 k =? 13 then 10 else u8 k in
      if ch =? 10 then Some ([10], ks')
      else '(line, rest) ← take_line n' ks'; Some (ch :: line, rest)
  end.

Definition shown (bs : list Z) (c : con_dev) : con_dev :=
  set_term (print (crlf bs) (con_term c)) c.
(** The characters before [ks] are taken, and nothing else is different. *)
Definition took_keys (ks : list Z) (c c' : con_dev) : Prop := ∃ t', took ks (con_term c) t' ∧ c' = set_term t' c.

Lemma took_keys_refl c : took_keys (keys (con_term c)) c c.
Proof. exists (con_term c). by destruct c. Qed.

Lemma took_keys_trans ks ks' c c1 c2 : took_keys ks c c1 → took_keys ks' c1 c2 → took_keys ks' c c2.
Proof. intros (t1 & [] & ->) (t2 & [] & ->). exists t2. simpl in *. split; [split; congruence|done]. Qed.

Lemma shown_nil c : shown [] c = c.
Proof. destruct c as [[] ? ?]. unfold shown, set_term, print, crlf; simpl. by rewrite app_nil_r. Qed.

Lemma shown_cons b bs c : shown bs (shown [b] c) = shown (b :: bs) c.
Proof.
  unfold shown, set_term, print; simpl. do 2 f_equal. unfold crlf. simpl. by rewrite app_nil_r, <- app_assoc.
Qed.

(** Each turn moves one byte of the request. *)
Lemma resid_step s (bs : list Z) s' :
  uio_ok s → zlen bs = 1 → 0 < uio_resid (u s) → u s' = advance (zlen bs) (u s) →
  uio_resid (u s') = uio_resid (u s) - 1 ∧ uio_dir (u s') = uio_dir (u s) ∧
  uio_segflg (u s') = uio_segflg (u s).
Proof.
  intros [] Hl Hpos Hu. unfold is_u32 in *. rewrite Hu, Hl. cbn [advance uio_resid uio_dir uio_segflg].
  rewrite u32_small by (unfold is_u32; lia). done.
Qed.

Lemma con_write_loop fuel c s Q :
  uio_ok s → uio_dir (u s) = UIO_WRITE → uio_resid (u s) ≤ Z.of_nat fuel →
  (∀ bs s', zlen bs = uio_resid (u s) → moved_out s bs s' → Q (Ret ()) (shown bs c, s')) →
  (∀ bs s', uio_segflg (u s) ≠ UIO_SYSSPACE → zlen bs < uio_resid (u s) → moved_out s bs s' →
     Q (Fail EFAULT) (shown bs c, s')) →
  wp (con_io_loop fuel) Q (c, s).
Proof.
  revert c s. induction fuel as [|fuel IH]; intros c s Hok Hdir Hle HQ HF; cbn [con_io_loop]; wp_steps; cbn [snd];
    (destruct (Z.gtb_spec (uio_resid (u s)) 0) as [Hpos|Hz];
     [|wp_step; specialize (HQ [] s); rewrite shown_nil in HQ; apply HQ;
       [pose proof (ok_resid _ Hok); unfold zlen; simpl; lia|by apply moved_out_nil]]); [lia|].
  rewrite Hdir. wp_steps. apply uiomove_write_spec; [done|done|done|left; lia| |].
  2: { intros Hseg. specialize (HF [] s). rewrite shown_nil in HF.
       apply HF; [done|unfold zlen; simpl; lia|by apply moved_out_nil]. }
  intros b1 s1 Hl1 Hmv Hok1. rewrite Z.min_l in Hl1 by lia. destruct (Hmv) as [_ Hs1].
  destruct (resid_step s b1 s1 Hok Hl1 Hpos ltac:(by rewrite Hs1)) as (Hr1 & Hd1 & Hg1).
  destruct b1 as [|b [|]]; [discriminate| |unfold zlen in Hl1; simpl in Hl1; lia]. simpl drop.
  wp_step. eapply wp_deref; [reflexivity|].
  assert (wp (con_io_loop fuel) Q (shown [b] c, s1)) as Hrest.
  { apply IH; [done|congruence|lia| |].
    - intros bs s' Hl Hm. rewrite shown_cons. apply (HQ (b :: bs)); [unfold zlen in *; simpl; lia|].
      by apply (moved_out_app s [b] s1).
    - intros bs s' Hseg Hl Hm. rewrite shown_cons. apply HF; [congruence|unfold zlen in *; simpl; lia|].
      by apply (moved_out_app s [b] s1). }
  unfold on_term, tty_putch. unfold shown, crlf in Hrest. simpl in Hrest.
  destruct (b =? 10) eqn:Hb; wp_steps; simpl.
  - apply Z.eqb_eq in Hb. subst b. simpl in Hrest. unfold set_term, print in *. simpl in *. by rewrite <- app_assoc.
  - exact Hrest.
Qed.

(** The outcome of a read that asked for [n] bytes. *)
Definition read_outcome (n : nat) c s (r : result unit) (p : con_dev * uiost) : Prop :=
  match r with
  | Ret _ => ∃ line rest, take_line n (keys (con_term c)) = Some (line, rest) ∧
      took_keys rest c p.1 ∧ moved_in s line p.2
  | Fail e => e = EFAULT ∧ uio_segflg (u s) ≠ UIO_SYSSPACE ∧ ∃ rest, took_keys rest c p.1
  | Halt k => k = Blocked ∧ take_line n (keys (con_term c)) = None ∧ took_keys [] c p.1
  end.

Lemma con_read_loop fuel c s :
  uio_ok s → uio_dir (u s) = UIO_READ → uio_resid (u s) ≤ Z.of_nat fuel →
  wp (con_io_loop fuel) (read_outcome (Z.to_nat (uio_resid (u s))) c s) (c, s).
Proof.
  revert c s. induction fuel as [|fuel IH]; intros c s Hok Hdir Hle; cbn [con_io_loop]; wp_steps; cbn [snd];
    (destruct (Z.gtb_spec (uio_resid (u s)) 0) as [Hpos|Hz];
     [|wp_step; pose proof (ok_resid _ Hok); replace (Z.to_nat (uio_resid (u s))) with 0%nat by lia;
       exists [], (keys (con_term c)); split_and!; [by destruct (keys _)|apply took_keys_refl|by apply moved_in_nil]]);
    [lia|].
  rewrite Hdir. unfold on_term. wp_steps. destruct (Z.to_nat (uio_resid (u s))) as [|n] eqn:Hn; [lia|].
  apply wp_tty_getch; [intros Hk; simpl; rewrite Hk; split_and!; [done..|]; rewrite <- Hk; destruct c; apply took_keys_refl|].
  intros k ks t1 Hk Ht1. assert (took_keys ks c (set_term t1 c)) as Htk by (by exists t1). cbv zeta. set (ch := if u8 k =? 13 then 10 else u8 k). wp_steps.
  assert (take_line (S n) (keys (con_term c)) = if ch =? 10 then Some ([10], ks)
    else '(line, rest) ← take_line n ks; Some (ch :: line, rest)) as Htl by (rewrite Hk; done).
  apply uiomove_read_spec; [done|done|done|left; lia| |].
  2: { intros m' j Hseg _ _. split_and!; [done..|]. by exists ks. }
  intros s1 Hmv Hok1. rewrite Z.min_l in Hmv by lia. simpl in Hmv.
  destruct (resid_step s [ch] s1 Hok eq_refl Hpos ltac:(apply Hmv)) as (Hr1 & Hd1 & Hg1).
  destruct (Z.eqb_spec ch 10) as [Hch|Hch].
  { wp_step. exists [10], ks. rewrite Htl. split_and!; [done..|]. by rewrite <- Hch. }
  eapply wp_mono; [apply IH; [done|congruence|lia]|].
  replace (Z.to_nat (uio_resid (u s1))) with n by lia. intros r [c' s']. unfold read_outcome. rewrite Htl. simpl.
  rewrite (tk_keys _ _ _ Ht1). destruct r as [[]|e|k'].
  - intros (line & rest & -> & Htk' & Hm). exists (ch :: line), rest.
    split_and!; [done|by eapply took_keys_trans|by apply (moved_in_app s [ch] s1)].
  - intros (-> & Hseg & rest & Htk'). split_and!; [done|congruence|]. exists rest. by eapply took_keys_trans.
  - intros (-> & -> & Htk'). split_and!; [done..|]. by eapply took_keys_trans.
Qed.


Definition hello : uiost := kbuf_request [72; 105; 10] 0 UIO_WRITE.
Definition quiet_console : con_dev :=
  {| con_term := {| typing := [[108]; [13]]; cs_rsem := 0; cs_gotchar := 0; screen := []; beeps := 0 |};
     con_userlock_read := false; con_userlock_write := false |}.

