(* ===== verification/Screen.v ===== *)
(** * The full-screen console (kern/dev/lamebus/lscreen.c)

    The driver draws characters into a memory-mapped screen of [ls_width] by
    [ls_height] characters, scrolls it, and keeps the card's cursor register.  The
    registers are hardware, behind the class [ScreenPort]; the mapped memory is
    part of the state.  What is shown is compared with the text that was
    written, laid out in rows. *)

From S2P Require Import Prelude.

Class ScreenPort (Hw : Type) := {
  lscr_read_size : M Hw Z;
  lscr_read_posn : M Hw Z;
  lscr_write_posn : Z → M Hw unit;
  lscr_read_char : M Hw Z;
  lscr_read_rirq : M Hw Z;
  lscr_write_rirq : Z → M Hw unit;
}.

Definition LSCR_IRQ_ENABLE : Z := 1.
Definition LSCR_IRQ_ACTIVE : Z := 2.

(** The [lscreen_softc]; [ls_input] is whether a console is attached, with the
    characters it was given, and [ls_spl] is [curspl]. *)
Record lscreen (Hw : Type) := Lscreen {
  ls_hw : Hw;
  ls_width : Z;
  ls_height : Z;
  ls_cx : Z;
  ls_cy : Z;
  ls_screen : list Z;
  ls_input : option (list Z);
  ls_spl : Z;
}.
Arguments Lscreen {Hw}.
Arguments ls_hw {Hw}.
Arguments ls_width {Hw}.
Arguments ls_height {Hw}.
Arguments ls_cx {Hw}.
Arguments ls_cy {Hw}.
Arguments ls_screen {Hw}.
Arguments ls_input {Hw}.
Arguments ls_spl {Hw}.

Definition splitxy (xy : Z) : Z * Z := (Z.shiftr xy 16, Z.land xy 65535).
Definition mergexy (x y : Z) : Z := Z.lor (u32 (Z.shiftl x 16)) y.

Section ops.
Context {Hw : Type} `{ScreenPort Hw}.

Definition set_ls_hw (v : Hw) (s : lscreen Hw) : lscreen Hw :=
  Lscreen v (ls_width s) (ls_height s) (ls_cx s) (ls_cy s) (ls_screen s) (ls_input s) (ls_spl s).
Definition set_ls_cursor (x y : Z) (s : lscreen Hw) : lscreen Hw :=
  Lscreen (ls_hw s) (ls_width s) (ls_height s) x y (ls_screen s) (ls_input s) (ls_spl s).
Definition set_ls_size (w h : Z) (s : lscreen Hw) : lscreen Hw :=
  Lscreen (ls_hw s) w h (ls_cx s) (ls_cy s) (ls_screen s) (ls_input s) (ls_spl s).
Definition set_ls_screen (v : list Z) (s : lscreen Hw) : lscreen Hw :=
  Lscreen (ls_hw s) (ls_width s) (ls_height s) (ls_cx s) (ls_cy s) v (ls_input s) (ls_spl s).
Definition give_ls_input (ch : Z) (s : lscreen Hw) : lscreen Hw :=
  Lscreen (ls_hw s) (ls_width s) (ls_height s) (ls_cx s) (ls_cy s) (ls_screen s) ((λ l, l ++ [ch]) <$> ls_input s) (ls_spl s).
Definition on_lscr {A} : M Hw A → M (lscreen Hw) A := zoom ls_hw set_ls_hw.

Definition lscreen_irq : M (lscreen Hw) unit :=
  spl ← gets ls_spl;
  _ ← assert (spl >? 0);
  x ← on_lscr lscr_read_rirq;
  if negb (Z.land x LSCR_IRQ_ACTIVE =? 0) then
    ch ← on_lscr lscr_read_char;
    _ ← on_lscr (lscr_write_rirq LSCR_IRQ_ENABLE);
    modify (give_ls_input ch)
  else mret ().

(** [memmove(screen, screen + from, len)] and [bzero(screen + at, len)] on the
    mapped memory. *)
Definition screen_move (from len : Z) : M (lscreen Hw) unit :=
  scr ← gets ls_screen;
  if from + len <=? zlen scr then
    modify (set_ls_screen (take (Z.to_nat len) (drop (Z.to_nat from) scr) ++ drop (Z.to_nat len) scr))
  else undef.
Definition screen_zero (at_ len : Z) : M (lscreen Hw) unit :=
  scr ← gets ls_screen;
  if at_ + len <=? zlen scr then
    modify (set_ls_screen (take (Z.to_nat at_) scr ++ replicate (Z.to_nat len) 0 ++ drop (Z.to_nat (at_ + len)) scr))
  else undef.

Definition lscreen_newline : M (lscreen Hw) unit :=
  s ← get;
  let w := ls_width s in
  let h1 := u32 (ls_height s - 1) in
  _ ← (if ls_cy s >=? h1 then
         _ ← screen_move w (u32 (w * h1)); screen_zero (u32 (w * h1)) w
       else modify (set_ls_cursor (ls_cx s) (u32 (ls_cy s + 1))));
  modify (λ s, set_ls_cursor 0 (ls_cy s) s).

(** [sc->ls_screen[sc->ls_cy*sc->ls_width + sc->ls_cx] = ch; sc->ls_cx++]. *)
Definition screen_put (ch : Z) : M (lscreen Hw) unit :=
  s ← get;
  let at_ := u32 (u32 (ls_cy s * ls_width s) + ls_cx s) in
  if at_ <? zlen (ls_screen s) then
    _ ← modify (set_ls_screen (<[Z.to_nat at_ := u8 ch]> (ls_screen s)));
    modify (λ s, set_ls_cursor (u32 (ls_cx s + 1)) (ls_cy s) s)
  else undef.

Definition lscreen_char (ch : Z) : M (lscreen Hw) unit :=
  s ← get;
  _ ← (if ls_cx s >=? ls_width s then lscreen_newline else mret ());
  screen_put ch.

Definition lscreen_write (ch : Z) : M (lscreen Hw) unit :=
  _ ← (if ch =? 10 then lscreen_newline else lscreen_char ch);
  s ← get;
  let ccx := if ls_cx s =? ls_width s then ls_cx s - 1 else ls_cx s in
  on_lscr (lscr_write_posn (mergexy ccx (ls_cy s))).

(** [mapped] is the memory at the card's screen area. *)
Definition config_lscreen (mapped : list Z) : M (lscreen Hw) unit :=
  _ ← on_lscr (lscr_write_rirq LSCR_IRQ_ENABLE);
  val ← on_lscr lscr_read_size;
  let '(w, h) := splitxy val in
  _ ← modify (set_ls_size w h);
  val ← on_lscr lscr_read_posn;
  let '(x, y) := splitxy val in
  _ ← modify (set_ls_cursor x y);
  modify (set_ls_screen mapped).
End ops.

(** ** The text in rows *)

(** Rows of at most [w] characters; the last is where text goes. *)
Definition add_char (w : nat) (rows : list (list Z)) (ch : Z) : list (list Z) :=
  if ch =? 10 then rows ++ [[]]
  else
    match reverse rows with
    | [] => [[u8 ch]]
    | row :: above => if (length row <? w)%nat then reverse above ++ [row ++ [u8 ch]] else rows ++ [[u8 ch]]
    end.
Definition layout (w : nat) (text : list Z) : list (list Z) := foldl (add_char w) [[]] text.

(** A row as it is shown, and the last [h] rows above blank ones. *)
Definition shown_row (w : nat) (row : list Z) : list Z := row ++ replicate (w - length row) 0.
Definition shown (w h : nat) (rows : list (list Z)) : list Z :=
  let vis := drop (length rows - h) rows in
  mjoin (shown_row w <$> vis) ++ replicate ((h - length vis) * w) 0.

Lemma add_char_newline w rows : add_char w rows 10 = rows ++ [[]].
Proof. done. Qed.
Lemma add_char_row w above row ch :
  ch ≠ 10 → add_char w (above ++ [row]) ch =
  if (length row <? w)%nat then above ++ [row ++ [u8 ch]] else (above ++ [row]) ++ [[u8 ch]].
Proof.
  intros Hch. unfold add_char. rewrite (proj2 (Z.eqb_neq _ _) Hch), reverse_snoc. by rewrite reverse_involutive.
Qed.

Lemma shown_row_length w row : (length row ≤ w)%nat → length (shown_row w row) = w.
Proof. intros. unfold shown_row. rewrite length_app, length_replicate. lia. Qed.

Lemma shown_rows_length w rows :
  Forall (λ row, length row ≤ w)%nat rows → length (mjoin (shown_row w <$> rows)) = (length rows * w)%nat.
Proof.
  induction 1 as [|row rows Hr _ IH]; [done|].
  change (mjoin (shown_row w <$> row :: rows)) with (shown_row w row ++ mjoin (shown_row w <$> rows)).
  rewrite length_app, IH, shown_row_length by done. simpl. lia.
Qed.

Lemma shown_length w h rows :
  Forall (λ row, length row ≤ w)%nat rows → length (shown w h rows) = (h * w)%nat.
Proof.
  intros Hr. unfold shown. rewrite length_app, length_replicate, shown_rows_length by by apply Forall_drop.
  rewrite length_drop. nia.
Qed.

(** A new row on a screen that is not full shows nothing new; on a full one the
    rows move up. *)
Lemma shown_below w h rows : (length rows < h)%nat → shown w h (rows ++ [[]]) = shown w h rows.
Proof.
  intros Hlt. unfold shown. rewrite length_app. simpl length.
  replace (length rows + 1 - h)%nat with 0%nat by lia. replace (length rows - h)%nat with 0%nat by lia.
  rewrite !drop_0, fmap_app, join_app, length_app. simpl. rewrite app_nil_r, <- app_assoc. f_equal.
  unfold shown_row. simpl. rewrite Nat.sub_0_r, <- replicate_add. f_equal. nia.
Qed.

Lemma shown_full w h rows :
  (h ≤ length rows)%nat → shown w h rows = mjoin (shown_row w <$> drop (length rows - h) rows).
Proof.
  intros Hle. unfold shown. rewrite length_drop.
  replace (h - (length rows - (length rows - h)))%nat with 0%nat by lia. simpl. by rewrite app_nil_r.
Qed.

Lemma shown_scroll w h rows :
  (0 < h ≤ length rows)%nat → Forall (λ row, length row ≤ w)%nat rows →
  shown w h (rows ++ [[]]) = drop w (shown w h rows) ++ replicate w 0.
Proof.
  intros [Hh Hle] Hr. rewrite !shown_full by (rewrite ?length_app; simpl; lia). rewrite length_app. simpl length.
  rewrite drop_app_le by lia.
  assert (is_Some (rows !! (length rows - h)%nat)) as [row Hrow] by (apply lookup_lt_is_Some; lia).
  rewrite (drop_S _ _ _ Hrow). replace (length rows + 1 - h)%nat with (S (length rows - h)) by lia.
  change (mjoin (shown_row w <$> row :: ?l)) with (shown_row w row ++ mjoin (shown_row w <$> l)).
  rewrite drop_app_length'.
  - rewrite fmap_app, join_app. f_equal. unfold shown_row. simpl. by rewrite app_nil_r, Nat.sub_0_r.
  - rewrite shown_row_length; [done|]. rewrite Forall_lookup in Hr. by eapply Hr.
Qed.

(** A character at the end of the last row. *)
Lemma shown_put w h above row c :
  (0 < h)%nat → (length row < w)%nat → Forall (λ row, length row ≤ w)%nat above →
  shown w h (above ++ [row ++ [c]]) =
  <[((length above - (length above + 1 - h)) * w + length row)%nat := c]> (shown w h (above ++ [row])).
Proof.
  intros Hh Hlt Ha. unfold shown. rewrite !length_app. simpl length.
  rewrite !drop_app_le by lia. set (vis := drop _ above).
  assert (length vis = length above - (length above + 1 - h))%nat as Hvis by (unfold vis; by rewrite length_drop).
  rewrite !fmap_app, !join_app, !length_app. simpl. rewrite !app_nil_r, <- Hvis, <- !app_assoc.
  assert (length (mjoin (shown_row w <$> vis)) = length vis * w)%nat as Hl by (apply shown_rows_length; by apply Forall_drop).
  rewrite <- Hl, insert_app_r. f_equal. unfold shown_row. rewrite length_app. simpl.
  rewrite <- !app_assoc, (insert_app_r_alt row) by lia. f_equal. rewrite Nat.sub_diag.
  replace (w - length row)%nat with (S (w - (length row + 1)))%nat by lia. done.
Qed.

(** ** Drawing *)

Lemma mergexy_split x y : 0 ≤ x < 2 ^ 16 → 0 ≤ y < 2 ^ 16 → splitxy (mergexy x y) = (x, y).
Proof.
  intros Hx Hy. unfold splitxy, mergexy. rewrite u32_small by (unfold is_u32; rewrite Z.shiftl_mul_pow2; lia).
  f_equal.
  - rewrite Z.shiftr_lor, Z.shiftr_shiftl_l by lia. rewrite Z.sub_diag, Z.shiftl_0_r.
    rewrite (Z.shiftr_div_pow2 y) by lia. rewrite Z.div_small by lia. apply Z.lor_0_r.
  - change 65535 with (Z.ones 16). rewrite Z.land_lor_distr_l, !Z.land_ones by lia.
    rewrite Z.shiftl_mul_pow2, Z_mod_mult by lia. rewrite Z.mod_small by lia. done.
Qed.

(** The card has a size and a position, which is the one written last. *)
Class ScreenLaws (Hw : Type) `{ScreenPort Hw} := {
  cursor : Hw → Z;
  card_size : Hw → Z;
  read_size_law (h : Hw) : lscr_read_size h = (Ret (card_size h), h);
  read_posn_law (h : Hw) : lscr_read_posn h = (Ret (cursor h), h);
  write_rirq_law v (h : Hw) :
    ∃ h', lscr_write_rirq v h = (Ret (), h') ∧ cursor h' = cursor h ∧ card_size h' = card_size h;
  write_posn_law v (h : Hw) : ∃ h', lscr_write_posn v h = (Ret (), h') ∧ cursor h' = v;
}.

Section draw.
Context {Hw : Type} `{ScreenLaws Hw} (w h : nat).
Context (Hw0 : 0 < Z.of_nat w < 2 ^ 16) (Hh0 : 0 < Z.of_nat h < 2 ^ 16).

(** The driver shows [rows] and is at the end of the last. *)
Record draws (rows : list (list Z)) (s : lscreen Hw) : Prop := {
  dr_width : ls_width s = Z.of_nat w;
  dr_height : ls_height s = Z.of_nat h;
  dr_rows : Forall (λ row, length row ≤ w)%nat rows;
  dr_last : ∃ above row, rows = above ++ [row] ∧ ls_cx s = zlen row;
  dr_cy : ls_cy s = Z.min (zlen rows) (Z.of_nat h) - 1;
  dr_screen : ls_screen s = shown w h rows;
}.

(** The two calls that scroll. *)
Lemma wp_scroll (Q : result unit → lscreen Hw → Prop) s :
  length (ls_screen s) = (h * w)%nat →
  Q (Ret ()) (set_ls_screen (drop w (ls_screen s) ++ replicate w 0) s) →
  wp (_ ← screen_move (Z.of_nat w) (Z.of_nat w * (Z.of_nat h - 1));
      screen_zero (Z.of_nat w * (Z.of_nat h - 1)) (Z.of_nat w)) Q s.
Proof.
  intros Hlen HQ. set (scr := ls_screen s) in *.
  assert (Z.to_nat (Z.of_nat w * (Z.of_nat h - 1)) = (h * w - w)%nat) as Hn by nia.
  assert (length (drop w scr) = h * w - w)%nat as Hd by (rewrite length_drop; lia).
  set (n := Z.of_nat w * (Z.of_nat h - 1)) in *.
  assert (n = Z.of_nat (h * w - w)) as Hnz by nia.
  wp_step. unfold screen_move. do 2 wp_step. fold scr. rewrite Hn, Nat2Z.id.
  rewrite (proj2 (Z.leb_le _ _)) by (unfold zlen; nia). wp_step.
  rewrite (take_ge (drop w scr)) by lia. unfold screen_zero. do 2 wp_step. cbn [set_ls_screen ls_screen].
  rewrite (proj2 (Z.leb_le _ _)) by (unfold zlen; rewrite length_app, !length_drop; nia). wp_step.
  rewrite Hn, Nat2Z.id, take_app_length' by lia.
  rewrite (drop_ge (_ ++ _)) by (rewrite length_app, !length_drop; nia). by rewrite app_nil_r.
Qed.

Lemma wp_newline rows (Q : result unit → lscreen Hw → Prop) s :
  draws rows s → (∀ s', draws (rows ++ [[]]) s' → Q (Ret ()) s') → wp lscreen_newline Q s.
Proof.
  intros [Hwd Hht Hrows (above & row & Hlast & Hcx) Hcy Hscr] HQ.
  assert (u32 (ls_height s - 1) = Z.of_nat h - 1) as Hh1 by (rewrite Hht; apply u32_small; unfold is_u32; lia).
  pose proof (shown_length w h rows Hrows) as Hlen.
  assert (zlen (ls_screen s) = Z.of_nat h * Z.of_nat w) as Hzl by (rewrite Hscr; unfold zlen; rewrite Hlen; lia).
  assert (zlen rows = zlen above + 1) as Hzr by (rewrite Hlast; unfold zlen; rewrite length_app; simpl; lia).
  unfold zlen in Hzr, Hcy. unfold lscreen_newline. do 2 wp_step. cbv zeta. rewrite Hh1, Hwd.
  assert (u32 (Z.of_nat w * (Z.of_nat h - 1)) = Z.of_nat w * (Z.of_nat h - 1)) as Hu.
  { apply u32_small. unfold is_u32. nia. }
  destruct (Z.geb_spec (ls_cy s) (Z.of_nat h - 1)) as [Hge|Hlt].
  - rewrite Hu. wp_step. apply wp_scroll; [by rewrite Hscr|]. wp_step. apply HQ. rewrite Hscr, <- shown_scroll by (done || lia).
    split; cbn; [done|done|apply Forall_app; by split; [|apply Forall_singleton; simpl; lia]|by exists rows, []| |done].
    rewrite zlen_app. unfold zlen in *. simpl. lia.
  - do 2 wp_step. apply HQ. rewrite <- (shown_below w h rows) in Hscr by lia.
    split; cbn; [done|done|apply Forall_app; by split; [|apply Forall_singleton; simpl; lia]|by exists rows, []| |done].
    rewrite u32_small by (unfold is_u32; lia). rewrite zlen_app. unfold zlen in *. simpl. lia.
Qed.

(** A character where there is room for it. *)
Lemma wp_screen_put above row ch (Q : result unit → lscreen Hw → Prop) s :
  draws (above ++ [row]) s → (length row < w)%nat →
  (∀ s', draws (above ++ [row ++ [u8 ch]]) s' → Q (Ret ()) s') →
  wp (screen_put ch) Q s.
Proof.
  intros [Hwd Hht Hrows (above' & row' & Heq & Hcx) Hcy Hscr] Hlt HQ.
  apply app_inj_tail in Heq as [<- <-]. apply Forall_app in Hrows as [Habove Hrow].
  unfold screen_put. do 2 wp_step. cbv zeta. rewrite Hwd, Hcy, Hcx, zlen_app. unfold zlen. simpl length.
  set (k := (length above - (length above + 1 - h))%nat).
  replace (Z.min (Z.of_nat (length above) + Z.of_nat 1) (Z.of_nat h) - 1) with (Z.of_nat k) by lia.
  assert (k < h)%nat as Hk by lia.
  assert (k * w + length row < h * w)%nat as Hin by nia.
  assert (Z.of_nat (h * w) < 2 ^ 32) as Hbig by nia.
  rewrite (u32_small (_ * _)) by (unfold is_u32; nia). rewrite u32_small by (unfold is_u32; nia).
  rewrite Hscr, shown_length by (by apply Forall_app). rewrite (proj2 (Z.ltb_lt _ _)) by nia.
  replace (Z.to_nat (Z.of_nat k * Z.of_nat w + Z.of_nat (length row))) with (k * w + length row)%nat by nia.
  do 2 wp_step. unfold k. rewrite <- shown_put by (done || lia). apply HQ. split; cbn.
  - done.
  - done.
  - apply Forall_app. split; [done|]. repeat constructor. rewrite length_app. simpl. lia.
  - exists above, (row ++ [u8 ch]). split; [done|]. rewrite Hcx, u32_small by (unfold is_u32, zlen; lia).
    by rewrite zlen_app.
  - rewrite Hcy, !zlen_app. done.
  - done.
Qed.

Lemma wp_char rows ch (Q : result unit → lscreen Hw → Prop) s :
  draws rows s → ch ≠ 10 → (∀ s', draws (add_char w rows ch) s' → Q (Ret ()) s') → wp (lscreen_char ch) Q s.
Proof.
  intros Hd Hch HQ. pose proof Hd as [Hwd _ _ (above & row & -> & Hcx) _ _].
  rewrite add_char_row in HQ by done. unfold lscreen_char. do 3 wp_step. rewrite Hwd, Hcx. unfold zlen.
  destruct (Nat.ltb_spec (length row) w) as [Hlt|Hge]; rewrite Z.geb_leb.
  - rewrite (proj2 (Z.leb_gt _ _)) by lia. wp_step. by eapply wp_screen_put.
  - rewrite (proj2 (Z.leb_le _ _)) by lia. eapply wp_newline; [done|]. intros s1 Hd1.
    eapply (wp_screen_put (above ++ [row]) []); [done|simpl; lia|done].
Qed.

(** The cursor the card shows: at the last position, never off the edge. *)
Definition cursor_of (rows : list (list Z)) : Z :=
  mergexy (Z.min (zlen (default [] (last rows))) (Z.of_nat w - 1)) (Z.min (zlen rows) (Z.of_nat h) - 1).

Lemma wp_lscreen_write rows ch (Q : result unit → lscreen Hw → Prop) s :
  draws rows s →
  (∀ s', draws (add_char w rows ch) s' → cursor (ls_hw s') = cursor_of (add_char w rows ch) → Q (Ret ()) s') →
  wp (lscreen_write ch) Q s.
Proof.
  intros Hd HQ. unfold lscreen_write. wp_step.
  apply (wp_mono _ (returns (λ _, draws (add_char w rows ch)))).
  { destruct (Z.eqb_spec ch 10) as [->|Hch]; [by eapply wp_newline|by eapply wp_char]. }
  intros [[]|?|?] s1; [|done..]. intros Hd1. cbn [returns] in Hd1.
  do 2 wp_step. cbv zeta. unfold on_lscr.
  destruct (write_posn_law (mergexy (if ls_cx s1 =? ls_width s1 then ls_cx s1 - 1 else ls_cx s1) (ls_cy s1)) (ls_hw s1))
    as (h' & Hrun & Hcur).
  apply wp_zoom. eapply wp_eq; [exact Hrun|].
  destruct Hd1 as [Hwd Hht Hrows (above & row & Hl & Hcx) Hcy Hscr].
  apply HQ; [split; [done..| |done|done]; by exists above, row|]. cbn [ls_hw set_ls_hw]. rewrite Hcur.
  unfold cursor_of. rewrite Hl, last_snoc, <- Hl, Hcy, Hwd, Hcx. simpl default. f_equal.
  rewrite Hl in Hrows. apply Forall_app in Hrows as [_ Hrow]. apply Forall_cons in Hrow as [Hrow _]. unfold zlen.
  destruct (Z.eqb_spec (Z.of_nat (length row)) (Z.of_nat w)); lia.
Qed.
Lemma draws_text text rows (Q : result unit → lscreen Hw → Prop) s :
  draws rows s → cursor (ls_hw s) = cursor_of rows →
  (∀ s', draws (foldl (add_char w) rows text) s' → cursor (ls_hw s') = cursor_of (foldl (add_char w) rows text) →
     Q (Ret ()) s') →
  wp (forM text lscreen_write) Q s.
Proof.
  revert rows s. induction text as [|ch text IH]; intros rows s Hd Hc HQ; [by apply HQ|].
  cbn [forM foldl] in *. wp_step. eapply wp_lscreen_write; [done|]. intros s1 Hd1 Hc1. cbv beta iota. by eapply IH.
Qed.

Lemma wp_config_lscreen (Q : result unit → lscreen Hw → Prop) s :
  card_size (ls_hw s) = mergexy (Z.of_nat w) (Z.of_nat h) → cursor (ls_hw s) = 0 →
  (∀ s', draws [[]] s' → cursor (ls_hw s') = cursor_of [[]] → Q (Ret ()) s') →
  wp (config_lscreen (replicate (h * w) 0)) Q s.
Proof.
  intros Hsize Hcur HQ. unfold config_lscreen, on_lscr.
  destruct (write_rirq_law LSCR_IRQ_ENABLE (ls_hw s)) as (h1 & Hr1 & Hc1 & Hs1).
  wp_step. apply wp_zoom. eapply wp_eq; [exact Hr1|]. cbv beta iota.
  wp_step. apply wp_zoom. eapply wp_eq; [apply read_size_law|]. cbn [ls_hw set_ls_hw].
  rewrite Hs1, Hsize, mergexy_split by lia. do 2 wp_step. wp_step.
  apply wp_zoom. eapply wp_eq; [apply read_posn_law|]. cbn [ls_hw set_ls_hw set_ls_size].
  rewrite Hc1, Hcur. cbn. do 3 wp_step. apply HQ.
  - split; [done|done|apply Forall_singleton; simpl; lia|by exists [], []| |].
    { unfold zlen. cbn [length]. change (0 = Z.min 1 (Z.of_nat h) - 1). lia. }
    change (replicate (h * w) 0 = shown w h ([] ++ [[]])). rewrite shown_below by (simpl; lia).
    unfold shown. simpl. by rewrite Nat.sub_0_r.
  - cbn. rewrite Hc1, Hcur. unfold cursor_of. cbn [last default zlen length]. rewrite !Z.min_l by (unfold zlen; simpl; lia). done.
Qed.
End draw.

(** C32: the screen shows the end of the text.  After the driver is configured on
    a blank screen and any text is written to it, the mapped memory is exactly
    the last rows of the text, broken at newlines and at the width of the screen,
    each row padded with blanks, and the card's cursor is where the next character
    goes, or on the last column of a full row; no write leaves the memory. *)
Theorem lscreen_correct {Hw} `{ScreenLaws Hw} (w h : nat) text (s : lscreen Hw) :
  0 < Z.of_nat w < 2 ^ 16 → 0 < Z.of_nat h < 2 ^ 16 →
  card_size (ls_hw s) = mergexy (Z.of_nat w) (Z.of_nat h) → cursor (ls_hw s) = 0 →
  match (_ ← config_lscreen (replicate (h * w) 0); forM text lscreen_write) s with
  | (Ret _, s') => ls_screen s' = shown w h (layout w text) ∧ cursor (ls_hw s') = cursor_of w h (layout w text)
  | _ => False
  end.
Proof.
  intros Hw0 Hh0 Hsize Hcur.
  eapply (wp_elim _ (λ r s', match r with Ret _ => _ | _ => False end)).
  wp_step. eapply (wp_config_lscreen w h Hw0 Hh0); [done..|]. intros s1 Hd1 Hc1. cbv beta iota.
  eapply (draws_text w h Hw0 Hh0); [done..|]. intros s' Hd Hc. split; [apply Hd|done].
Qed.

(** A card as its size and position. *)
Definition simscreen : Type := Z * Z.
#[export] Instance simscreen_port : ScreenPort simscreen := {
  lscr_read_size c := (Ret c.1, c);
  lscr_read_posn c := (Ret c.2, c);
  lscr_write_posn v c := (Ret (), (c.1, v));
  lscr_read_char c := (Ret 65, c);
  lscr_read_rirq c := (Ret 2, c);
  lscr_write_rirq _ c := (Ret (), c);
}.
#[export] Instance simscreen_laws : ScreenLaws simscreen.
Proof.
  refine {| cursor := snd; card_size := fst |}; [done..| |].
  - intros v c. by exists c.
  - intros v c. by exists (c.1, v).
Defined.

Definition simscreen_start : lscreen simscreen := Lscreen (mergexy 3 2, 0) 0 0 0 0 [] None 0.

(** Three rows of text on a screen of two. *)
Lemma lscreen_correct_witness :
  match (_ ← config_lscreen (replicate (2 * 3) 0); forM [97; 98; 10; 99; 100; 101; 102] lscreen_write) simscreen_start with
  | (Ret _, s') => ls_screen s' = shown 3 2 (layout 3 [97; 98; 10; 99; 100; 101; 102]) ∧
                   cursor (ls_hw s') = cursor_of 3 2 (layout 3 [97; 98; 10; 99; 100; 101; 102])
  | _ => False
  end.
Proof. apply (lscreen_correct 3 2 [97; 98; 10; 99; 100; 101; 102] simscreen_start); [lia|lia|done|done]. Defined.

Lemma simscreen_shows : shown 3 2 (layout 3 [97; 98; 10; 99; 100; 101; 102]) = [99; 100; 101; 102; 0; 0].
Proof. vm_compute. reflexivity. Qed.
