(* ===== verification/Lamebus.v ===== *)
(** * The bus (kern/dev/lamebus/lamebus.c, kern/arch/mips/mips/lamebus_mips.c, lser_att.c, lhd_att.c)

    Devices sit in 32 slots.  A driver probes for its card, marks the slot and
    attaches a handler; an interrupt of the bus goes to the handlers of the slots
    that raise it.  The registers are hardware: an address and a value, behind
    the class [BusPort].  A handler is a number, and [call_irq] is what a call of
    it does to the cards; the drivers attach when the system starts, so that a
    handler does not change the data of the bus. *)

From S2P Require Import Prelude.

Definition LB_CONTROLLER_SLOT : Z := 31.
Definition LB_NSLOTS : Z := 32.
Definition LB_CONFIG_SIZE : Z := 1024.
Definition LB_SLOT_SIZE : Z := 65536.
Definition LB_BASEADDR : Z := 0xbfe00000.
Definition CFGREG_VID : Z := 0.
Definition CFGREG_DID : Z := 4.
Definition CFGREG_DRL : Z := 8.
Definition CTLREG_IRQS : Z := 0x204.
Definition BUS_SPL_HIGH : Z := 15.

(** A word of memory that is a register, and the call of a handler with the
    device it was attached with. *)
Class BusPort (Hw : Type) := {
  read_word : Z → M Hw Z;
  call_irq : Z → Z → M Hw unit;
}.

Record lamebus := {
  ls_slotsinuse : Z;
  ls_devdata : list (option Z);
  ls_irqfuncs : list (option Z);
}.

(** The bus, the static [duds], and the level. *)
Record busst (Hw : Type) := BusSt { hw : Hw; lb : lamebus; duds : Z; spl : Z }.
Arguments BusSt {Hw}.
Arguments hw {Hw}.
Arguments lb {Hw}.
Arguments duds {Hw}.
Arguments spl {Hw}.

Definition lamebus_init : lamebus :=
  {| ls_slotsinuse := Z.shiftl 1 LB_CONTROLLER_SLOT;
     ls_devdata := replicate 32 None; ls_irqfuncs := replicate 32 None |}.

Section ops.
Context {Hw : Type} `{BusPort Hw}.

Definition set_hw (v : Hw) (s : busst Hw) : busst Hw := BusSt v (lb s) (duds s) (spl s).
Definition set_lb (v : lamebus) (s : busst Hw) : busst Hw := BusSt (hw s) v (duds s) (spl s).
Definition set_duds (v : Z) (s : busst Hw) : busst Hw := BusSt (hw s) (lb s) v (spl s).
Definition set_spl (v : Z) (s : busst Hw) : busst Hw := BusSt (hw s) (lb s) (duds s) v.
Definition on_hw {A} : M Hw A → M (busst Hw) A := zoom hw set_hw.

Definition lb_splhigh : M (busst Hw) Z := s ← gets spl; _ ← modify (set_spl BUS_SPL_HIGH); mret s.
Definition lb_splx (s : Z) : M (busst Hw) unit := modify (set_spl s).

Definition lamebus_map_area (slot offset : Z) : M (busst Hw) Z :=
  _ ← assert ((0 <=? slot) && (slot <? LB_NSLOTS));
  mret (u32 (LB_BASEADDR + slot * LB_SLOT_SIZE + offset)).
Definition lamebus_read_register (slot offset : Z) : M (busst Hw) Z :=
  ptr ← lamebus_map_area slot offset; on_hw (read_word ptr).
Definition read_cfg_register (slot offset : Z) : M (busst Hw) Z :=
  lamebus_read_register LB_CONTROLLER_SLOT (u32 (offset + LB_CONFIG_SIZE * slot)).
Definition read_ctl_register (offset : Z) : M (busst Hw) Z :=
  read_cfg_register LB_CONTROLLER_SLOT offset.

(** [sc->ls_slotsinuse & (1<<slot)]. *)
Definition in_use (slot : Z) (b : lamebus) : bool :=
  negb (Z.land (ls_slotsinuse b) (Z.shiftl 1 slot) =? 0).

Fixpoint probe_loop (slots : list Z) (vendorid deviceid lowver highver : Z) : M (busst Hw) (option Z) :=
  match slots with
  | [] => mret None
  | slot :: slots' =>
      let next := probe_loop slots' vendorid deviceid lowver highver in
      b ← gets lb;
      if in_use slot b then next
      else
        vid ← read_cfg_register slot CFGREG_VID;
        if negb (vid =? vendorid) then next
        else
          did ← read_cfg_register slot CFGREG_DID;
          if negb (did =? deviceid) then next
          else
            drl ← read_cfg_register slot CFGREG_DRL;
            if (drl <? lowver) || (drl >? highver) then next
            else mret (Some slot)
  end.

(** [None] is the result -1. *)
Definition lamebus_probe (vendorid deviceid lowver highver : Z) : M (busst Hw) (option Z) :=
  s ← lb_splhigh;
  r ← probe_loop (seqZ 0 LB_NSLOTS) vendorid deviceid lowver highver;
  _ ← lb_splx s;
  mret r.

Definition slot_ok (slot : Z) : bool := (0 <=? slot) && (slot <? LB_NSLOTS).

Definition lamebus_mark (slot : Z) : M (busst Hw) unit :=
  _ ← assert (slot_ok slot);
  s ← lb_splhigh;
  b ← gets lb;
  _ ← assert (negb (in_use slot b));
  _ ← modify (set_lb {| ls_slotsinuse := Z.lor (ls_slotsinuse b) (Z.shiftl 1 slot);
                        ls_devdata := ls_devdata b; ls_irqfuncs := ls_irqfuncs b |});
  lb_splx s.

Definition lamebus_unmark (slot : Z) : M (busst Hw) unit :=
  _ ← assert (slot_ok slot);
  s ← lb_splhigh;
  b ← gets lb;
  _ ← assert (in_use slot b);
  _ ← modify (set_lb {| ls_slotsinuse := Z.land (ls_slotsinuse b) (Z.lnot (Z.shiftl 1 slot));
                        ls_devdata := ls_devdata b; ls_irqfuncs := ls_irqfuncs b |});
  lb_splx s.

(** [sc->ls_devdata[slot] = d; sc->ls_irqfuncs[slot] = f]. *)
Definition set_handler (slot : Z) (d f : option Z) (b : lamebus) : lamebus :=
  {| ls_slotsinuse := ls_slotsinuse b;
     ls_devdata := <[Z.to_nat slot := d]> (ls_devdata b);
     ls_irqfuncs := <[Z.to_nat slot := f]> (ls_irqfuncs b) |}.

Definition lamebus_attach_interrupt (slot devdata irqfunc : Z) : M (busst Hw) unit :=
  _ ← assert (slot_ok slot);
  s ← lb_splhigh;
  b ← gets lb;
  _ ← assert (in_use slot b);
  d ← deref (ls_devdata b !z slot);
  _ ← assert (bool_decide (d = None));
  f ← deref (ls_irqfuncs b !z slot);
  _ ← assert (bool_decide (f = None));
  _ ← modify (set_lb (set_handler slot (Some devdata) (Some irqfunc) b));
  lb_splx s.

Definition lamebus_detach_interrupt (slot : Z) : M (busst Hw) unit :=
  _ ← assert (slot_ok slot);
  s ← lb_splhigh;
  b ← gets lb;
  _ ← assert (in_use slot b);
  f ← deref (ls_irqfuncs b !z slot);
  _ ← assert (negb (bool_decide (f = None)));
  _ ← modify (set_lb (set_handler slot None None b));
  lb_splx s.

(** The loop over the slots: [irqs] and [duds_this_time] go from turn to turn. *)
Fixpoint irq_loop (slots : list Z) (irqs dtt : Z) : M (busst Hw) Z :=
  match slots with
  | [] => mret dtt
  | slot :: slots' =>
      if Z.land irqs (Z.shiftl 1 slot) =? 0 then irq_loop slots' irqs dtt
      else
        s ← get;
        if negb (in_use slot (lb s)) then
          _ ← modify (set_duds (duds s + 1)); irq_loop slots' irqs (dtt + 1)
        else
          f ← deref (ls_irqfuncs (lb s) !z slot);
          match f with
          | None => _ ← modify (set_duds (duds s + 1)); irq_loop slots' irqs (dtt + 1)
          | Some func =>
              d ← deref (ls_devdata (lb s) !z slot);
              _ ← on_hw (call_irq func (default 0 d));
              irqs' ← read_ctl_register CTLREG_IRQS;
              irq_loop slots' irqs' dtt
          end
  end.

Definition lamebus_interrupt : M (busst Hw) unit :=
  s ← get;
  _ ← assert (spl s >? 0);
  irqs ← read_ctl_register CTLREG_IRQS;
  if irqs =? 0 then modify (set_duds (duds s + 1))
  else
    dtt ← irq_loop (seqZ 0 LB_NSLOTS) irqs 0;
    _ ← modify (λ s, if (dtt =? 0) && (duds s >? 0) then set_duds 0 s else s);
    s' ← get;
    assert (negb (duds s' >? 10000)).

(** [attach_lser_to_lamebus] and its kin: [alloc] is the result of [kmalloc]. *)
Definition attach_to_lamebus (deviceid lowver highver irqfunc : Z) (alloc : option Z) : M (busst Hw) (option (Z * Z)) :=
  o ← lamebus_probe 1 deviceid lowver highver;
  match o, alloc with
  | Some slot, Some softc =>
      _ ← lamebus_mark slot;
      _ ← lamebus_attach_interrupt slot softc irqfunc;
      mret (Some (softc, slot))
  | _, _ => mret None
  end.
End ops.

(** ** Masks *)

Lemma mask_zero x k : 0 ≤ k → (Z.land x (Z.shiftl 1 k) =? 0) = negb (Z.testbit x k).
Proof.
  intros Hk. rewrite Z.shiftl_1_l. by apply land_pow2_zero.
Qed.

Lemma in_use_bit k b : 0 ≤ k → in_use k b = Z.testbit (ls_slotsinuse b) k.
Proof. intros Hk. unfold in_use. by rewrite mask_zero, negb_involutive. Qed.

Lemma mask_or x k j : 0 ≤ k → 0 ≤ j → Z.testbit (Z.lor x (Z.shiftl 1 k)) j = Z.testbit x j || (k =? j).
Proof. intros Hk Hj. by rewrite Z.lor_spec, Z.shiftl_1_l, Z.pow2_bits_eqb. Qed.

Lemma mask_clear x k j :
  0 ≤ k → 0 ≤ j → Z.testbit (Z.land x (Z.lnot (Z.shiftl 1 k))) j = Z.testbit x j && negb (k =? j).
Proof. intros Hk Hj. by rewrite Z.land_spec, Z.lnot_spec, Z.shiftl_1_l, Z.pow2_bits_eqb. Qed.

Lemma u32_bits x : 0 ≤ x → (∀ k, 32 ≤ k → Z.testbit x k = false) → is_u32 x.
Proof.
  intros Hx Hb. split; [done|]. destruct (decide (x = 0)) as [->|Hne]; [done|].
  apply Z.log2_lt_pow2; [lia|]. destruct (decide (Z.log2 x < 32)) as [|Hge]; [done|].
  specialize (Hb (Z.log2 x) ltac:(lia)). rewrite Z.bit_log2 in Hb by lia. done.
Qed.

Lemma u32_high x k : is_u32 x → 32 ≤ k → Z.testbit x k = false.
Proof.
  intros [H0 H1] Hk. destruct (decide (x = 0)) as [->|]; [apply Z.bits_0|].
  apply Z.bits_above_log2; [done|]. assert (Z.log2 x < 32) by (apply Z.log2_lt_pow2; lia). lia.
Qed.

(** ** The data of the bus *)

Record lb_wf (b : lamebus) : Prop := {
  lw_slots : is_u32 (ls_slotsinuse b);
  lw_data : length (ls_devdata b) = 32%nat;
  lw_funcs : length (ls_irqfuncs b) = 32%nat;
  lw_pair : ∀ k : nat, ls_irqfuncs b !! k = Some None ↔ ls_devdata b !! k = Some None;
}.

(** The handler of a slot and its device. *)
Definition handler (slot : Z) (b : lamebus) : option (Z * Z) :=
  match ls_irqfuncs b !z slot, ls_devdata b !z slot with
  | Some (Some f), Some (Some d) => Some (f, d)
  | _, _ => None
  end.

Lemma lamebus_init_wf : lb_wf lamebus_init.
Proof. split; [done|done|done|]. intros k. done. Qed.

(** The calls of the drivers. *)
Inductive busop :=
  | Mark (slot : Z) | Unmark (slot : Z) | Attach (slot d f : Z) | Detach (slot : Z).

Definition run_op {Hw} (op : busop) : M (busst Hw) unit :=
  match op with
  | Mark slot => lamebus_mark slot
  | Unmark slot => lamebus_unmark slot
  | Attach slot d f => lamebus_attach_interrupt slot d f
  | Detach slot => lamebus_detach_interrupt slot
  end.

(** When a call is allowed, and the slots and handlers after it. *)
Definition allowed (op : busop) (b : lamebus) : Prop :=
  match op with
  | Mark slot => 0 ≤ slot < 32 ∧ in_use slot b = false
  | Unmark slot => 0 ≤ slot < 32 ∧ in_use slot b = true
  | Attach slot _ _ => 0 ≤ slot < 32 ∧ in_use slot b = true ∧ handler slot b = None
  | Detach slot => 0 ≤ slot < 32 ∧ in_use slot b = true ∧ handler slot b ≠ None
  end.
Definition used_after (op : busop) (b : lamebus) (k : Z) : bool :=
  match op with
  | Mark slot => in_use k b || (slot =? k)
  | Unmark slot => in_use k b && negb (slot =? k)
  | _ => in_use k b
  end.
Definition handler_after (op : busop) (b : lamebus) (k : Z) : option (Z * Z) :=
  match op with
  | Attach slot d f => if slot =? k then Some (f, d) else handler k b
  | Detach slot => if slot =? k then None else handler k b
  | _ => handler k b
  end.

Lemma handler_fields slot b :
  lb_wf b → 0 ≤ slot < 32 →
  ∃ f d, ls_irqfuncs b !z slot = Some f ∧ ls_devdata b !z slot = Some d ∧
    (f = None ↔ d = None) ∧ (f = None ↔ handler slot b = None).
Proof.
  intros [_ Hd Hf Hp] Hs. unfold handler, zlookup. rewrite !decide_True by lia. specialize (Hp (Z.to_nat slot)).
  destruct (lookup_lt_is_Some_2 (ls_irqfuncs b) (Z.to_nat slot)) as [f Hfl]; [lia|].
  destruct (lookup_lt_is_Some_2 (ls_devdata b) (Z.to_nat slot)) as [d Hdl]; [lia|].
  rewrite Hfl, Hdl in *. exists f, d. split; [done|]. split; [done|].
  assert (f = None ↔ d = None) as Hfd by naive_solver. split; [done|]. destruct f, d; naive_solver.
Qed.

Lemma set_handler_wf slot d f b :
  lb_wf b → (f = None ↔ d = None) → lb_wf (set_handler slot d f b).
Proof.
  intros [Hs Hd Hf Hp] Hfd. split; simpl; rewrite ?length_insert; [done..|]. intros k.
  destruct (decide (Z.to_nat slot = k)) as [<-|Hne]; [|by rewrite !list_lookup_insert_ne].
  destruct (decide (Z.to_nat slot < 32)%nat) as [Hlt|Hge].
  - rewrite !list_lookup_insert_eq by lia. naive_solver.
  - rewrite !lookup_ge_None_2 by (rewrite ?length_insert; lia). done.
Qed.

Lemma set_handler_handler slot d f b k :
  lb_wf b → 0 ≤ slot < 32 → 0 ≤ k < 32 →
  handler k (set_handler slot d f b) =
    if slot =? k then match f, d with Some f, Some d => Some (f, d) | _, _ => None end else handler k b.
Proof.
  intros [_ Hd Hf _] Hs Hk. unfold handler, set_handler, zlookup; simpl. rewrite !decide_True by lia.
  destruct (Z.eqb_spec slot k) as [->|Hne].
  - rewrite !list_lookup_insert_eq by lia. by destruct f, d.
  - by rewrite !list_lookup_insert_ne by lia.
Qed.

Lemma slots_wf b x : lb_wf b → is_u32 x →
  lb_wf {| ls_slotsinuse := x; ls_devdata := ls_devdata b; ls_irqfuncs := ls_irqfuncs b |}.
Proof. intros [] Hx. by split. Qed.

Section op_specs.
Context {Hw : Type}.
Implicit Types s : busst Hw.

(** The state after a call: a new bus, the level as before. *)
Definition op_post (op : busop) s (r : result unit) s' : Prop :=
  match r with
  | Ret _ => allowed op (lb s) ∧ lb_wf (lb s') ∧ s' = set_lb (lb s') s ∧
      ∀ k, 0 ≤ k < 32 → in_use k (lb s') = used_after op (lb s) k ∧ handler k (lb s') = handler_after op (lb s) k
  | Halt k => k = Panic ∧ ¬ allowed op (lb s)
  | Fail _ => False
  end.

Lemma wp_assert_or (b : bool) (Q : result unit → busst Hw → Prop) s :
  (b = true → Q (Ret ()) s) → (b = false → Q (Halt Panic) s) → wp (assert b) Q s.
Proof. intros HT HF. unfold wp, assert. destruct b; simpl; auto. Qed.

Lemma slot_ok_spec slot : slot_ok slot = true ↔ 0 ≤ slot < 32.
Proof. unfold slot_ok, LB_NSLOTS. lia. Qed.

Lemma mark_post slot s : lb_wf (lb s) → wp (lamebus_mark slot) (op_post (Mark slot) s) s.
Proof.
  intros Hwf. unfold lamebus_mark, lb_splhigh, lb_splx. wp_step. apply wp_assert_or; intros Hok.
  2: { split; [done|]. intros [Hs _]. apply slot_ok_spec in Hs. congruence. }
  apply slot_ok_spec in Hok. wp_steps. simpl. apply wp_assert_or; intros Hu.
  2: { split; [done|]. intros [_ Hn]. by rewrite Hn in Hu. }
  apply negb_true_iff in Hu. wp_steps. split; [done|]. cbn [lb set_lb set_spl]. split; [|split; [by destruct s|]].
  - apply slots_wf; [done|]. destruct Hwf as [Hi _ _ _]. apply u32_bits; [apply Z.lor_nonneg; split; [apply Hi|]|].
    + rewrite Z.shiftl_1_l. lia.
    + intros k Hk. rewrite mask_or, (u32_high _ k Hi) by lia. simpl. lia.
  - intros k Hk. split; [|done]. unfold used_after. rewrite !in_use_bit by lia. cbn [ls_slotsinuse]. by rewrite mask_or by lia.
Qed.

Lemma unmark_post slot s : lb_wf (lb s) → wp (lamebus_unmark slot) (op_post (Unmark slot) s) s.
Proof.
  intros Hwf. unfold lamebus_unmark, lb_splhigh, lb_splx. wp_step. apply wp_assert_or; intros Hok.
  2: { split; [done|]. intros [Hs _]. apply slot_ok_spec in Hs. congruence. }
  apply slot_ok_spec in Hok. wp_steps. simpl. apply wp_assert_or; intros Hu.
  2: { split; [done|]. intros [_ Hn]. congruence. }
  wp_steps. split; [done|]. cbn [lb set_lb set_spl]. split; [|split; [by destruct s|]].
  - apply slots_wf; [done|]. destruct Hwf as [Hi _ _ _]. apply u32_bits; [apply Z.land_nonneg; left; apply Hi|].
    intros k Hk. by rewrite mask_clear, (u32_high _ k Hi) by lia.
  - intros k Hk. split; [|done]. unfold used_after. rewrite !in_use_bit by lia. cbn [ls_slotsinuse]. by rewrite mask_clear by lia.
Qed.

Lemma attach_post slot d f s :
  lb_wf (lb s) → wp (lamebus_attach_interrupt slot d f) (op_post (Attach slot d f) s) s.
Proof.
  intros Hwf. unfold lamebus_attach_interrupt, lb_splhigh, lb_splx. wp_step. apply wp_assert_or; intros Hok.
  2: { split; [done|]. intros [Hs _]. apply slot_ok_spec in Hs. congruence. }
  apply slot_ok_spec in Hok. wp_steps. simpl. apply wp_assert_or; intros Hu.
  2: { split; [done|]. intros (_ & Hn & _). congruence. }
  destruct (handler_fields slot (lb s) Hwf Hok) as (f0 & d0 & Hf0 & Hd0 & Hfd & Hh).
  wp_step. eapply wp_deref; [done|]. wp_step. apply wp_assert_or; intros Hd.
  2: { apply bool_decide_eq_false in Hd. split; [done|]. intros (_ & _ & Hn). tauto. }
  apply bool_decide_eq_true in Hd. wp_step. eapply wp_deref; [done|]. wp_step.
  apply wp_assert; [apply bool_decide_eq_true; tauto|]. wp_steps. cbn [lb set_lb set_spl]. split; [|split; [|split]].
  - split; [done|]. split; [done|]. tauto.
  - by apply set_handler_wf.
  - by destruct s.
  - intros k Hk. split; [done|]. cbn [lb set_lb set_spl]. by rewrite set_handler_handler.
Qed.

Lemma detach_post slot s :
  lb_wf (lb s) → wp (lamebus_detach_interrupt slot) (op_post (Detach slot) s) s.
Proof.
  intros Hwf. unfold lamebus_detach_interrupt, lb_splhigh, lb_splx. wp_step. apply wp_assert_or; intros Hok.
  2: { split; [done|]. intros [Hs _]. apply slot_ok_spec in Hs. congruence. }
  apply slot_ok_spec in Hok. wp_steps. simpl. apply wp_assert_or; intros Hu.
  2: { split; [done|]. intros (_ & Hn & _). congruence. }
  destruct (handler_fields slot (lb s) Hwf Hok) as (f0 & d0 & Hf0 & Hd0 & Hfd & Hh).
  wp_step. eapply wp_deref; [done|]. wp_step. apply wp_assert_or; intros Hf.
  2: { apply negb_false_iff, bool_decide_eq_true in Hf. split; [done|]. intros (_ & _ & Hn). tauto. }
  apply negb_true_iff, bool_decide_eq_false in Hf. wp_steps. cbn [lb set_lb set_spl]. split; [|split; [|split]].
  - split; [done|]. split; [done|]. tauto.
  - by apply set_handler_wf.
  - by destruct s.
  - intros k Hk. split; [done|]. cbn [lb set_lb set_spl]. by rewrite set_handler_handler.
Qed.
End op_specs.

(** C31: the data of the bus stay well formed, and the calls of the drivers do
    what they say.  Marking a slot, unmarking it, attaching a handler and
    detaching it change that slot alone, leave the mask a 32-bit word with one
    bit for each slot in use and the handlers paired with their devices, and
    restore the level; a call that is not allowed in the state of the slot
    panics, and no other does. *)
Theorem lamebus_op_correct {Hw} (op : busop) (s : busst Hw) :
  lb_wf (lb s) →
  match run_op op s with
  | (Ret _, s') => allowed op (lb s) ∧ lb_wf (lb s') ∧ s' = set_lb (lb s') s ∧
      ∀ k, 0 ≤ k < 32 → in_use k (lb s') = used_after op (lb s) k ∧ handler k (lb s') = handler_after op (lb s) k
  | (Halt k, _) => k = Panic ∧ ¬ allowed op (lb s)
  | (Fail _, _) => False
  end.
Proof.
  intros Hwf. assert (wp (run_op op) (op_post op s) s) as Hwp.
  { destruct op; [by apply mark_post|by apply unmark_post|by apply attach_post|by apply detach_post]. }
  apply wp_elim in Hwp. by destruct (run_op op s) as [[] s'].
Qed.

(** ** What the drivers rely on *)

(** The address of a configuration register of a slot. *)
Definition cfg_addr (slot offset : Z) : Z :=
  u32 (LB_BASEADDR + LB_CONTROLLER_SLOT * LB_SLOT_SIZE + u32 (offset + LB_CONFIG_SIZE * slot)).
Definition irqs_addr : Z := cfg_addr LB_CONTROLLER_SLOT CTLREG_IRQS.

(** [word] is the value of a register; [serves f d slot] says that the handler
    [f] with the device [d] is the one of the card in the slot. *)
Class BusView (Hw : Type) := {
  word : Hw → Z → Z;
  serves : Z → Z → Z → Prop;
}.

(** A read has no effect, and a handler returns.  What it does to the registers
    is open: it may lower and raise any interrupt, its own included, and so
    stands for everything the cards do up to the next read of the register. *)
Class BusLaws (Hw : Type) `{BusPort Hw} `{BusView Hw} := {
  read_word_law (h : Hw) p : read_word p h = (Ret (word h p), h);
  call_irq_law (h : Hw) f d slot : serves f d slot → 0 ≤ slot < 32 → (call_irq f d h).1 = Ret ();
}.

Section laws.
Context {Hw : Type} `{BusLaws Hw}.
Implicit Types (s : busst Hw) (h : Hw).

Lemma wp_read_cfg slot off s Q :
  Q (Ret (word (hw s) (cfg_addr slot off))) s → wp (read_cfg_register slot off) Q s.
Proof.
  intros HQ. unfold read_cfg_register, lamebus_read_register, lamebus_map_area, on_hw. wp_step. wp_step.
  apply wp_assert; [done|]. wp_steps. eapply wp_eq; [apply read_word_law|]. by destruct s.
Qed.

(** ** Probing *)

Definition candidate (vendorid deviceid lowver highver : Z) s (slot : Z) : Prop :=
  in_use slot (lb s) = false ∧ word (hw s) (cfg_addr slot CFGREG_VID) = vendorid ∧
  word (hw s) (cfg_addr slot CFGREG_DID) = deviceid ∧
  lowver ≤ word (hw s) (cfg_addr slot CFGREG_DRL) ≤ highver.
#[export] Instance candidate_dec v d lo hi s slot : Decision (candidate v d lo hi s slot).
Proof. unfold candidate. apply _. Defined.

Lemma probe_loop_spec slots v d lo hi s Q :
  Q (Ret (head (filter (candidate v d lo hi s) slots))) s → wp (probe_loop slots v d lo hi) Q s.
Proof.
  induction slots as [|slot slots IH]; intros HQ; cbn [probe_loop]; [by wp_step|]. cbv zeta. wp_steps.
  rewrite filter_cons in HQ.
  assert (¬ candidate v d lo hi s slot → wp (probe_loop slots v d lo hi) Q s) as Hnext.
  { intros Hn. apply IH. by rewrite decide_False in HQ. }
  destruct (in_use slot (lb s)) eqn:Hu; [apply Hnext; intros [Hc _]; congruence|]. wp_step. apply wp_read_cfg.
  destruct (Z.eqb_spec (word (hw s) (cfg_addr slot CFGREG_VID)) v); simpl; [|apply Hnext; by intros (_ & ? & _)].
  wp_step. apply wp_read_cfg.
  destruct (Z.eqb_spec (word (hw s) (cfg_addr slot CFGREG_DID)) d); simpl; [|apply Hnext; by intros (_ & _ & ? & _)].
  wp_step. apply wp_read_cfg.
  destruct ((_ <? lo) || (_ >? hi)) eqn:Hv; [apply Hnext; intros (_ & _ & _ & ?); lia|].
  wp_step. rewrite decide_True in HQ; [exact HQ|]. split_and!; try done; lia.
Qed.

Lemma lamebus_probe_spec v d lo hi s Q :
  Q (Ret (head (filter (candidate v d lo hi s) (seqZ 0 32)))) s → wp (lamebus_probe v d lo hi) Q s.
Proof.
  intros HQ. unfold lamebus_probe, lb_splhigh, lb_splx. wp_steps. apply probe_loop_spec. wp_steps.
  replace (set_spl (spl s) (set_spl BUS_SPL_HIGH s)) with s by (by destruct s). exact HQ.
Qed.

(** Handlers are in slots in use only. *)
Definition tidy (b : lamebus) : Prop := ∀ k, 0 ≤ k < 32 → in_use k b = false → handler k b = None.

Lemma head_filter_Some (P : Z → Prop) `{!∀ x, Decision (P x)} l x : head (filter P l) = Some x → P x ∧ x ∈ l.
Proof.
  intros Hh. assert (x ∈ filter P l) as Hin.
  { destruct (filter P l); simplify_eq/=. apply list_elem_of_here. }
  by apply list_elem_of_filter in Hin.
Qed.

Lemma head_filter_None (P : Z → Prop) `{!∀ x, Decision (P x)} l : head (filter P l) = None → ∀ x, x ∈ l → ¬ P x.
Proof.
  intros Hh x Hx Hp. assert (x ∈ filter P l) as Hin by (by apply list_elem_of_filter).
  destruct (filter P l); [by apply elem_of_nil in Hin|done].
Qed.

(** a driver gets a card of its own.  Attaching finds the first slot not in
    use with the vendor, the device and a revision of the card, marks it and
    installs the handler with the driver's data; every other slot keeps its
    mark and its handler, so that two drivers never share a slot.  It never
    panics, and without a card or memory nothing changes. *)
Theorem attach_correct did lo hi irqfunc alloc s :
  lb_wf (lb s) → tidy (lb s) →
  match attach_to_lamebus did lo hi irqfunc alloc s with
  | (Ret (Some (softc, slot)), s') =>
      alloc = Some softc ∧ head (filter (candidate 1 did lo hi s) (seqZ 0 32)) = Some slot ∧
      s' = set_lb (lb s') s ∧ lb_wf (lb s') ∧ tidy (lb s') ∧
      ∀ k, 0 ≤ k < 32 → in_use k (lb s') = in_use k (lb s) || (slot =? k) ∧
        handler k (lb s') = if slot =? k then Some (irqfunc, softc) else handler k (lb s)
  | (Ret None, s') => s' = s ∧ (alloc = None ∨ ∀ k, 0 ≤ k < 32 → ¬ candidate 1 did lo hi s k)
  | _ => False
  end.
Proof.
  intros Hwf Htidy. set (found := head (filter (candidate 1 did lo hi s) (seqZ 0 32))).
  assert (wp (attach_to_lamebus did lo hi irqfunc alloc) (λ r s',
    match r with
    | Ret (Some (softc, slot)) => alloc = Some softc ∧ found = Some slot ∧
        s' = set_lb (lb s') s ∧ lb_wf (lb s') ∧ tidy (lb s') ∧
        ∀ k, 0 ≤ k < 32 → in_use k (lb s') = in_use k (lb s) || (slot =? k) ∧
          handler k (lb s') = if slot =? k then Some (irqfunc, softc) else handler k (lb s)
    | Ret None => s' = s ∧ (alloc = None ∨ ∀ k, 0 ≤ k < 32 → ¬ candidate 1 did lo hi s k)
    | _ => False
    end) s) as Hwp; [|apply wp_elim in Hwp; by destruct (attach_to_lamebus _ _ _ _ _ s) as [[[[]|]| |] ?]].
  unfold attach_to_lamebus. wp_step. apply lamebus_probe_spec. fold found. destruct found as [slot|] eqn:Hf.
  2: { wp_step. split; [done|]. right. intros k Hk. apply (head_filter_None _ _ Hf), elem_of_seqZ. lia. }
  destruct alloc as [softc|]; [|wp_step; auto].
  apply head_filter_Some in Hf as [(Hfree & _) Hin]. apply elem_of_seqZ in Hin.
  wp_step. eapply wp_mono; [by apply mark_post|]. intros [[]|e|k] s1 Hmk; [|done|destruct Hmk as [_ Hmk]; apply Hmk; split; [lia|done]].
  destruct Hmk as (_ & Hwf1 & Hs1 & Hmk). wp_step. eapply wp_mono; [by apply attach_post|].
  intros [[]|e|k] s2 Hat; [|done|].
  - destruct Hat as (_ & Hwf2 & Hs2 & Hat). wp_step.
    assert (∀ k, 0 ≤ k < 32 → in_use k (lb s2) = in_use k (lb s) || (slot =? k) ∧
      handler k (lb s2) = if slot =? k then Some (irqfunc, softc) else handler k (lb s)) as Hk.
    { intros k Hk. destruct (Hmk k Hk) as [Hu1 Hh1], (Hat k Hk) as [Hu2 Hh2]. simpl in *.
      rewrite Hu2, Hu1, Hh2, Hh1. done. }
    split_and!; [done..|rewrite Hs2, Hs1; by destruct s|done| |done].
    intros k Hr Hu. destruct (Hk k Hr) as [Hu' Hh']. rewrite Hu in Hu'. symmetry in Hu'.
    apply orb_false_iff in Hu' as [Hu1 Hne]. rewrite Hh', Hne. by apply Htidy.
  - destruct Hat as [_ Hat]. exfalso. apply Hat. destruct (Hmk slot ltac:(lia)) as [Hu1 Hh1]. simpl in *.
    split; [lia|]. split; [by rewrite Hu1, Z.eqb_refl, orb_true_r|]. rewrite Hh1. apply Htidy; [lia|done].
Qed.

(** ** Interrupts *)

(** The slot raises an interrupt. *)
Definition raised h (k : Z) : bool := Z.testbit (word h irqs_addr) k.
(** The slot has a driver and a handler. *)
Definition served (b : lamebus) (k : Z) : bool := in_use k b && bool_decide (handler k b ≠ None).

(** The cards after the handler of a slot was called, and after the turn of the
    slot, which calls it when the interrupt is raised by then. *)
Definition called (b : lamebus) (k : Z) h : Hw :=
  match handler k b with Some (f, d) => (call_irq f d h).2 | None => h end.
Definition slot_turn (b : lamebus) h (k : Z) : Hw := if raised h k && served b k then called b k h else h.
(** The cards when the turn of a slot comes. *)
Definition at_turn (b : lamebus) h (k : Z) : Hw := foldl (slot_turn b) h (seqZ 0 k).

(** The interrupts that are raised when the turn of their slot comes, and that
    nothing serves. *)
Fixpoint lost (b : lamebus) (slots : list Z) h : Z :=
  match slots with
  | [] => 0
  | k :: slots' => (if raised h k && negb (served b k) then 1 else 0) + lost b slots' (slot_turn b h k)
  end.

Lemma lost_nonneg b slots h : 0 ≤ lost b slots h.
Proof. revert h. induction slots as [|k slots IH]; intros h; simpl; [done|]. specialize (IH (slot_turn b h k)). case_match; lia. Qed.

(** The handlers that are called are those of their cards. *)
Definition drivers_ok (b : lamebus) : Prop :=
  ∀ k f d, 0 ≤ k < 32 → in_use k b = true → handler k b = Some (f, d) → serves f d k.

Lemma served_handler b slot :
  lb_wf b → 0 ≤ slot < 32 → in_use slot b = true →
  ∃ f d, ls_irqfuncs b !z slot = Some f ∧ ls_devdata b !z slot = Some d ∧
    match f with
    | None => served b slot = false
    | Some g => ∃ e, d = Some e ∧ handler slot b = Some (g, e) ∧ served b slot = true
    end.
Proof.
  intros Hwf Hs Hu. destruct (handler_fields slot b Hwf Hs) as (f & d & Hf & Hd & Hfd & Hh).
  exists f, d. split; [done|]. split; [done|]. unfold served. rewrite Hu.
  destruct f as [g|].
  - destruct d as [e|]; [|naive_solver]. exists e. unfold handler. by rewrite Hf, Hd.
  - simpl. apply bool_decide_eq_false_2. naive_solver.
Qed.

(** The loop: every slot is tested on the register as it is by its turn. *)
Lemma irq_loop_spec slots dtt s Q :
  lb_wf (lb s) → drivers_ok (lb s) → (∀ k, k ∈ slots → 0 ≤ k < 32) →
  (let n := lost (lb s) slots (hw s) in
   Q (Ret (dtt + n)) (set_duds (duds s + n) (set_hw (foldl (slot_turn (lb s)) (hw s) slots) s))) →
  wp (irq_loop slots (word (hw s) irqs_addr) dtt) Q s.
Proof.
  revert dtt s. induction slots as [|slot slots IH]; intros dtt s Hwf Hdrv Hin HQ; cbn [irq_loop].
  { wp_step. simpl in HQ. rewrite !Z.add_0_r in HQ. by destruct s. }
  assert (0 ≤ slot < 32) as Hs by (apply Hin; by left).
  assert (∀ k, k ∈ slots → 0 ≤ k < 32) as Hin' by (intros; apply Hin; by right).
  cbn [lost foldl] in HQ. rewrite mask_zero by lia. fold (raised (hw s) slot).
  assert (raised (hw s) slot && negb (served (lb s) slot) = true →
    wp (irq_loop slots (word (hw s) irqs_addr) (dtt + 1)) Q (set_duds (duds s + 1) s)) as Hdud.
  { intros Hd. rewrite Hd in HQ. apply (IH _ (set_duds (duds s + 1) s)); [done..|]. cbn [hw lb duds set_duds].
    apply andb_true_iff in Hd as [Hr Hsv]. apply negb_true_iff in Hsv.
    assert (slot_turn (lb s) (hw s) slot = hw s) as Ht by (unfold slot_turn; by rewrite Hr, Hsv). rewrite Ht in HQ.
    cbv zeta in *. by rewrite <- !Z.add_assoc. }
  destruct (raised (hw s) slot) eqn:Hr; simpl.
  2: { assert (slot_turn (lb s) (hw s) slot = hw s) as Ht by (unfold slot_turn; by rewrite Hr). rewrite Ht in HQ. by apply IH. }
  wp_step. wp_step. destruct (in_use slot (lb s)) eqn:Hu; simpl.
  2: { wp_steps. apply Hdud. unfold served. by rewrite Hu. }
  destruct (served_handler (lb s) slot Hwf Hs Hu) as (f & d & Hf & Hd & Hh).
  wp_step. eapply wp_deref; [done|]. destruct f as [g|]; [|wp_steps; apply Hdud; by rewrite Hh].
  destruct Hh as (e & -> & Hh & Hsv). wp_step. eapply wp_deref; [done|]. unfold on_hw at 1. wp_steps.
  pose proof (call_irq_law (hw s) g e slot (Hdrv _ _ _ Hs Hu Hh) Hs) as Hret.
  destruct (call_irq g e (hw s)) as [res h'] eqn:Hcall. cbn [fst] in Hret. subst res.
  eapply wp_eq; [exact Hcall|]. cbv beta iota. wp_step. unfold read_ctl_register. apply wp_read_cfg.
  assert (slot_turn (lb s) (hw s) slot = h') as Ht by (unfold slot_turn, called; by rewrite Hr, Hsv, Hh, Hcall).
  rewrite Hsv, Ht in HQ. by apply (IH _ (set_hw h' s)).
Qed.

(** Handlers that leave their own interrupt lowered. *)
Definition clearing (b : lamebus) : Prop :=
  ∀ k f d h, 0 ≤ k < 32 → handler k b = Some (f, d) → raised (call_irq f d h).2 k = false.

Lemma at_turn_next b h k : 0 ≤ k → at_turn b h (k + 1) = slot_turn b (at_turn b h k) k.
Proof. intros Hk. unfold at_turn. by rewrite seqZ_app, foldl_app by lia. Qed.

(** An interrupt that is served and raised in the end was raised by a handler
    called later. *)
Lemma raised_later b h k n :
  clearing b → served b k = true → 0 ≤ k < n → n ≤ 32 → raised (at_turn b h n) k = true →
  ∃ j, k < j < n ∧ raised (at_turn b h j) j && served b j = true ∧
    raised (at_turn b h j) k = false ∧ raised (at_turn b h (j + 1)) k = true.
Proof.
  intros Hcl Hsv Hk Hn. revert Hn. replace n with (k + 1 + (n - (k + 1))) by lia.
  pattern (n - (k + 1)). apply natlike_ind; [| |lia].
  - intros Hle. rewrite Z.add_0_r, at_turn_next by lia. intros Hup. exfalso. revert Hup. unfold slot_turn.
    destruct (raised (at_turn b h k) k) eqn:Hr; simpl; [|congruence]. rewrite Hsv. unfold called.
    unfold served in Hsv. destruct (handler k b) as [[f d]|] eqn:Hh; [|by rewrite andb_false_r in Hsv].
    rewrite (Hcl k f d) by (done || lia). done.
  - intros i Hi IH Hle Hup. rewrite Z.add_succ_r in *. unfold Z.succ in *.
    destruct (raised (at_turn b h (k + 1 + i)) k) eqn:Hr.
    + destruct IH as (j & ? & ?); [lia|done|]. exists j. split; [lia|done].
    + exists (k + 1 + i). split; [lia|]. split; [|done]. rewrite at_turn_next in Hup by lia. unfold slot_turn in Hup.
      destruct (_ && _); [done|congruence].
Qed.

(** C30: one interrupt of the bus serves the devices that raise it.  Each slot in
    order is tested on the register as it is when its turn comes, after whatever
    the handlers before it have done to the interrupts of any card: the handler
    is called when the interrupt is raised then, and it is a dud when there is no
    driver or handler.  The bus and the level are unchanged; the count of duds
    goes up by the duds of this call, or back to zero when there is none, and
    the call panics only when it passes 10000.  When the handlers lower their own
    interrupts, a served interrupt that is still raised in the end was raised by
    a handler called after the turn of its slot.  With nothing raised the call
    counts one dud and returns without the check. *)
Theorem lamebus_interrupt_correct s :
  lb_wf (lb s) → drivers_ok (lb s) → 0 < spl s → 0 ≤ duds s →
  let b := lb s in
  let n := lost b (seqZ 0 32) (hw s) in
  match lamebus_interrupt s with
  | (Ret _, s') => lb s' = b ∧ spl s' = spl s ∧
      (word (hw s) irqs_addr = 0 → s' = set_duds (duds s + 1) s) ∧
      (word (hw s) irqs_addr ≠ 0 →
        hw s' = at_turn b (hw s) 32 ∧ duds s' = (if n =? 0 then 0 else duds s + n) ∧ duds s' ≤ 10000 ∧
        (clearing b → ∀ k, 0 ≤ k < 32 → served b k = true → raised (hw s') k = true →
          ∃ j, k < j < 32 ∧ raised (at_turn b (hw s) j) j && served b j = true ∧
            raised (at_turn b (hw s) j) k = false ∧ raised (at_turn b (hw s) (j + 1)) k = true))
  | (Halt k, _) => k = Panic ∧ 0 < n ∧ 10000 < duds s + n
  | (Fail _, _) => False
  end.
Proof.
  intros Hwf Hdrv Hspl Hduds b n. pose proof (lost_nonneg b (seqZ 0 32) (hw s)) as Hn. fold n in Hn.
  assert (wp lamebus_interrupt (λ r s', match r with
    | Ret _ => lb s' = b ∧ spl s' = spl s ∧ (word (hw s) irqs_addr = 0 → s' = set_duds (duds s + 1) s) ∧
        (word (hw s) irqs_addr ≠ 0 →
          hw s' = at_turn b (hw s) 32 ∧ duds s' = (if n =? 0 then 0 else duds s + n) ∧ duds s' ≤ 10000)
    | Halt k => k = Panic ∧ 0 < n ∧ 10000 < duds s + n
    | Fail _ => False
    end) s) as Hwp.
  { unfold lamebus_interrupt. wp_steps. apply wp_assert; [lia|]. wp_step. apply wp_read_cfg.
    change (cfg_addr LB_CONTROLLER_SLOT CTLREG_IRQS) with irqs_addr.
    destruct (Z.eqb_spec (word (hw s) irqs_addr) 0) as [Hz|Hne]; [wp_steps; by split_and!|]. wp_step.
    change LB_NSLOTS with 32. apply irq_loop_spec; [done|done|intros k Hk; apply elem_of_seqZ in Hk; lia|]. fold b n. cbv zeta.
    assert (foldl (slot_turn b) (hw s) (seqZ 0 32) = at_turn b (hw s) 32) as -> by (unfold at_turn; reflexivity).
    generalize (at_turn b (hw s) 32). clearbody n. intros h.
    rewrite Z.add_0_l. wp_steps. destruct (Z.eqb_spec n 0) as [->|Hnz]; simpl.
    - rewrite Z.add_0_r. destruct (Z.gtb_spec (duds s) 0); simpl; [wp_step; by split_and!|].
      apply wp_assert; [lia|]. split_and!; try done. intros _. split_and!; [done|simpl; lia..].
    - apply wp_assert_or; intros Hc; [|split_and!; [done|lia|]; destruct (Z.gtb_spec (duds s + n) 10000); [lia|done]].
      split_and!; try done. intros _. split_and!; [done|done|]. simpl. destruct (Z.gtb_spec (duds s + n) 10000); [done|lia]. }
  apply wp_elim in Hwp. destruct (lamebus_interrupt s) as [[[]|e|k] s']; [|done|done].
  destruct Hwp as (? & ? & ? & Hre). split_and!; try done. intros Hne. destruct (Hre Hne) as (Hhw & ? & ?).
  split_and!; try done. rewrite Hhw. intros Hcl k Hk Hsv. by apply raised_later.
Qed.
End laws.

(** ** A bus with two cards

    A disk in slot 2 and a serial port in slot 5, each with interrupts raised by
    a bit of [sc_irqs].  A handler clears the bit of the slot its device data
    name; the one with the number 78 also flips those of the slots 5 and 9. *)

Record simcards := { sc_ids : list (Z * Z); sc_irqs : Z }.

Definition sim_word (h : simcards) (p : Z) : Z :=
  if p =? irqs_addr then sc_irqs h
  else
    match list_find (λ c, p = cfg_addr c.1 CFGREG_VID ∨ p = cfg_addr c.1 CFGREG_DRL) (sc_ids h) with
    | Some _ => 1
    | None =>
        match list_find (λ c, p = cfg_addr c.1 CFGREG_DID) (sc_ids h) with
        | Some (_, c) => c.2
        | None => 0
        end
    end.

#[export] Instance sim_port : BusPort simcards := {
  read_word p h := (Ret (sim_word h p), h);
  call_irq f d h := (Ret (),
    {| sc_ids := sc_ids h;
       sc_irqs := Z.land (if f =? 78 then Z.lxor (sc_irqs h) 544 else sc_irqs h) (Z.lnot (Z.shiftl 1 d)) |});
}.
#[export] Instance sim_view : BusView simcards := { word := sim_word; serves f d slot := d = slot }.
#[export] Instance sim_laws : BusLaws simcards.
Proof. by split. Qed.

Definition sim_bus (irqs : Z) (b : lamebus) : busst simcards :=
  BusSt {| sc_ids := [(2, 3); (5, 4)]; sc_irqs := irqs |} b 7 1.

Lemma init_tidy : tidy lamebus_init.
Proof.
  intros k Hk _. unfold handler, zlookup. rewrite decide_True by lia.
  unfold lamebus_init, ls_irqfuncs. by rewrite lookup_replicate_2 by lia.
Qed.

Lemma lamebus_op_correct_witness :
  allowed (Mark 5) lamebus_init ∧ in_use 5 (lb (run_op (Mark 5) (sim_bus 0 lamebus_init)).2) = true.
Proof.
  pose proof (lamebus_op_correct (Mark 5) (sim_bus 0 lamebus_init) lamebus_init_wf) as Hop.
  assert ((run_op (Mark 5) (sim_bus 0 lamebus_init)).1 = Ret ()) as Hr by (vm_compute; reflexivity).
  destruct (run_op (Mark 5) (sim_bus 0 lamebus_init)) as [r s']. cbn [fst snd] in *. subst r.
  destruct Hop as (Ha & _ & _ & Hk). split; [exact Ha|]. destruct (Hk 5 ltac:(lia)) as [-> _]. reflexivity.
Defined.

(** The driver of the serial port attaches, with the slot as its data. *)
Definition attached : busst simcards :=
  (attach_to_lamebus 4 1 1 77 (Some 5) (sim_bus 0 lamebus_init)).2.

Lemma attach_correct_witness :
  attach_to_lamebus 4 1 1 77 (Some 5) (sim_bus 0 lamebus_init) = (Ret (Some (5, 5)), attached) ∧
  lb_wf (lb attached) ∧ handler 5 (lb attached) = Some (77, 5).
Proof.
  pose proof (attach_correct 4 1 1 77 (Some 5) (sim_bus 0 lamebus_init) lamebus_init_wf init_tidy) as Ha.
  unfold attached.
  assert ((attach_to_lamebus 4 1 1 77 (Some 5) (sim_bus 0 lamebus_init)).1 = Ret (Some (5, 5))) as Hr
    by (vm_compute; reflexivity).
  destruct (attach_to_lamebus 4 1 1 77 (Some 5) (sim_bus 0 lamebus_init)) as [r s']. cbn [fst snd] in *. subst r.
  destruct Ha as (_ & _ & _ & Hwf & _ & Hk). split; [reflexivity|]. split; [exact Hwf|].
  destruct (Hk 5 ltac:(lia)) as [_ ->]. reflexivity.
Defined.

(** The disk interrupts, together with a slot 9 that has no driver.  Its handler
    makes the serial port raise an interrupt, which is served by the same call,
    and the slot 9 lower its own, which is no dud any more. *)
Definition two_drivers : lamebus :=
  {| ls_slotsinuse := Z.lor (Z.shiftl 1 31) (Z.lor (Z.shiftl 1 5) (Z.shiftl 1 2));
     ls_devdata := <[2%nat := Some 2]> (<[5%nat := Some 5]> (replicate 32 None));
     ls_irqfuncs := <[2%nat := Some 78]> (<[5%nat := Some 77]> (replicate 32 None)) |}.

Lemma two_drivers_wf : lb_wf two_drivers.
Proof.
  split; [done|done|done|]. intros k. simpl ls_irqfuncs. simpl ls_devdata.
  do 6 (destruct k as [|k]; [done|]). done.
Qed.

Lemma two_drivers_ok : drivers_ok (Hw := simcards) two_drivers.
Proof.
  intros k f d Hk _ Hh. change (d = k).
  assert (∀ k, k ∈ seqZ 0 32 → match handler k two_drivers with Some (_, d) => d =? k | None => true end = true) as Hall.
  { apply Forall_forall. apply (bool_decide_unpack _). vm_compute. exact I. }
  specialize (Hall k ltac:(apply elem_of_seqZ; lia)). rewrite Hh in Hall. lia.
Qed.

Lemma lamebus_interrupt_correct_witness :
  ∃ s', lamebus_interrupt (sim_bus 516 two_drivers) = (Ret (), s') ∧ duds s' = 0 ∧ sc_irqs (hw s') = 0.
Proof.
  pose proof (lamebus_interrupt_correct (sim_bus 516 two_drivers) two_drivers_wf two_drivers_ok
    eq_refl ltac:(done)) as Hi. cbv zeta in Hi.
  assert ((lamebus_interrupt (sim_bus 516 two_drivers)).1 = Ret ()) as Hr by (vm_compute; reflexivity).
  destruct (lamebus_interrupt (sim_bus 516 two_drivers)) as [r s']. cbn [fst] in Hr. subst r. exists s'.
  split; [reflexivity|]. destruct Hi as (_ & _ & _ & Hi).
  destruct Hi as (Hh & Hd & _); [discriminate|]. rewrite Hd, Hh. vm_compute. split; reflexivity.
Defined.
