(* ===== verification/Timer.v ===== *)
(** * The timer cards (kern/dev/lamebus/ltimer.c, kern/dev/generic/rtclock.c, beep.c)

    A card gives clock interrupts, the time of day and a beep; one card of the
    machine drives [hardclock], one is the generic clock, one beeps.  A card's
    registers are hardware, behind the class [TimerPort].  Its law for the time
    of day is that the registers show the seconds and the nanoseconds of a time
    that goes on while they are read.  The interval of [getinterval] (menu.c),
    which times the commands of the menu, is here too. *)

From S2P Require Import Prelude.

Definition LT_GRANULARITY : Z := 1000000.
Definition LT_HZ : Z := 100.
Definition BILLION : Z := 1000000000.

(** The register accesses of one card. *)
Class TimerPort (Hw : Type) := {
  read_sec : M Hw Z;
  read_nsec : M Hw Z;
  read_irq : M Hw Z;
  write_roe : Z → M Hw unit;
  write_count : Z → M Hw unit;
  write_spkr : Z → M Hw unit;
}.

(** A card with the [lt_hardclock] of its [ltimer_softc]. *)
Record ltimer (Hw : Type) := Ltimer { lt_card : Hw; lt_hardclock : bool }.
Arguments Ltimer {Hw}.
Arguments lt_card {Hw}.
Arguments lt_hardclock {Hw}.

(** The cards and the statics of the three files; [hardclock] is in Synch.v,
    here its calls are counted.  The generic devices refer to a card. *)
Record timers (Hw : Type) := Timers {
  cards : list (ltimer Hw);
  haveclock : bool;
  the_clock : option nat;
  the_beep : option nat;
  hardclocks : nat;
  beep_warnings : nat;
}.
Arguments Timers {Hw}.
Arguments cards {Hw}.
Arguments haveclock {Hw}.
Arguments the_clock {Hw}.
Arguments the_beep {Hw}.
Arguments hardclocks {Hw}.
Arguments beep_warnings {Hw}.

Section ops.
Context {Hw : Type} `{TimerPort Hw}.

Definition set_cards (v : list (ltimer Hw)) (t : timers Hw) : timers Hw :=
  Timers v (haveclock t) (the_clock t) (the_beep t) (hardclocks t) (beep_warnings t).

(** An access to the registers of card [lt], and to its flag. *)
Definition on_card {A} (lt : nat) (m : M Hw A) : M (timers Hw) A := λ t,
  match cards t !! lt with
  | None => (Halt Undef, t)
  | Some c =>
      let '(r, h) := m (lt_card c) in
      (r, set_cards (<[lt := Ltimer h (lt_hardclock c)]> (cards t)) t)
  end.
Definition set_lt_hardclock (lt : nat) (b : bool) : M (timers Hw) unit :=
  cs ← gets cards;
  c ← deref (cs !! lt);
  modify (set_cards (<[lt := Ltimer (lt_card c) b]> cs)).

Definition config_ltimer (lt : nat) : M (timers Hw) unit :=
  have ← gets haveclock;
  if negb have then
    _ ← modify (λ t, Timers (cards t) true (the_clock t) (the_beep t) (hardclocks t) (beep_warnings t));
    _ ← set_lt_hardclock lt true;
    _ ← on_card lt (write_roe 1);
    on_card lt (write_count (LT_GRANULARITY / LT_HZ))
  else set_lt_hardclock lt false.

Definition ltimer_irq (lt : nat) : M (timers Hw) unit :=
  val ← on_card lt read_irq;
  if negb (val =? 0) then
    cs ← gets cards;
    c ← deref (cs !! lt);
    if lt_hardclock c then
      modify (λ t, Timers (cards t) (haveclock t) (the_clock t) (the_beep t) (S (hardclocks t)) (beep_warnings t))
    else mret ()
  else mret ().

Definition ltimer_beep (lt : nat) : M (timers Hw) unit := on_card lt (write_spkr 440).

(** [time_t] is a signed 32-bit type, the registers are unsigned. *)
Definition ltimer_gettime (lt : nat) : M (timers Hw) (Z * Z) :=
  secs1 ← on_card lt read_sec;
  nsecs ← on_card lt read_nsec;
  secs2 ← on_card lt read_sec;
  mret (s32 (if nsecs <? 5000000 then secs2 else secs1), nsecs).

Definition config_rtclock (rtc : nat) (unit : Z) : M (timers Hw) () :=
  if negb (unit =? 0) then fail ENODEV
  else
    c ← gets the_clock;
    _ ← assert (bool_decide (c = None));
    modify (λ t, Timers (cards t) (haveclock t) (Some rtc) (the_beep t) (hardclocks t) (beep_warnings t)).

Definition gettime : M (timers Hw) (Z * Z) :=
  c ← gets the_clock;
  match c with None => panic | Some lt => ltimer_gettime lt end.

Definition config_beep (bs : nat) (unit : Z) : M (timers Hw) () :=
  if negb (unit =? 0) then fail ENODEV
  else
    c ← gets the_beep;
    _ ← assert (bool_decide (c = None));
    modify (λ t, Timers (cards t) (haveclock t) (the_clock t) (Some bs) (hardclocks t) (beep_warnings t)).

Definition beep : M (timers Hw) unit :=
  c ← gets the_beep;
  match c with
  | Some lt => ltimer_beep lt
  | None =>
      modify (λ t, Timers (cards t) (haveclock t) (the_clock t) (the_beep t) (hardclocks t) (S (beep_warnings t)))
  end.
End ops.

Definition getinterval (s1 ns1 s2 ns2 : Z) : Z * Z :=
  let '(ns2, s2) := if ns2 <? ns1 then (u32 (ns2 + 1000000000), s32 (s2 - 1)) else (ns2, s2) in
  (s32 (s2 - s1), u32 (ns2 - ns1)).

(** ** The time of day *)

Class TimerView (Hw : Type) := now : Hw → Z.

(** A read shows the time at which it is done, in nanoseconds. *)
Class TimerLaws (Hw : Type) `{TimerPort Hw} `{TimerView Hw} := {
  now_law (h : Hw) : 0 ≤ now h;
  read_sec_law (h : Hw) : ∃ h', read_sec h = (Ret (u32 (now h / BILLION)), h') ∧ now h ≤ now h';
  read_nsec_law (h : Hw) : ∃ h', read_nsec h = (Ret (now h mod BILLION), h') ∧ now h ≤ now h';
}.

(** The card of the generic clock, and its time. *)
Definition clock_at {Hw} `{TimerView Hw} (t : timers Hw) (ns : Z) : Prop :=
  ∃ lt c, the_clock t = Some lt ∧ cards t !! lt = Some c ∧ now (lt_card c) = ns.

(** A time before 2^31 seconds, as [gettime] returns it. *)
Definition time_of (ns : Z) : Z * Z := (ns / BILLION, ns mod BILLION).

Section clock.
Context {Hw : Type} `{TimerLaws Hw}.

(** A time whose seconds are read at [x] and whose nanoseconds are read at [t],
    less than five milliseconds away. *)
Lemma same_second x t :
  0 ≤ x → 0 ≤ t → x < 2 ^ 31 * BILLION →
  (if t mod BILLION <? 5000000 then t ≤ x < t + 5000000 else x ≤ t < x + 5000000) →
  s32 (u32 (x / BILLION)) = t / BILLION.
Proof.
  unfold BILLION. intros Hx Ht Hb Hnear.
  assert (x / 1000000000 = t / 1000000000) as ->.
  { destruct (Z.ltb_spec (t mod 1000000000) 5000000); Z.div_mod_to_equations; lia. }
  assert (0 ≤ t / 1000000000 < 2 ^ 31).
  { split; [by apply Z.div_pos|]. apply Z.div_lt_upper_bound; [lia|].
    destruct (Z.ltb_spec (t mod 1000000000) 5000000); Z.div_mod_to_equations; lia. }
  rewrite u32_small by (unfold is_u32; lia). apply s32_small. lia.
Qed.

Lemma wp_on_card {A} lt (m : M Hw A) a h' (Q : result A → timers Hw → Prop) t c :
  cards t !! lt = Some c → m (lt_card c) = (Ret a, h') →
  Q (Ret a) (set_cards (<[lt := Ltimer h' (lt_hardclock c)]> (cards t)) t) →
  wp (on_card lt m) Q t.
Proof.
  intros Hc Hm HQ. unfold on_card, wp. by rewrite Hc, Hm.
Qed.

(** [gettime] returns the time of an instant of its run. *)
Lemma wp_gettime (Q : result (Z * Z) → timers Hw → Prop) t ns :
  clock_at t ns →
  (∀ secs nsecs ns' t', ns ≤ ns' → clock_at t' ns' →
     (ns' - ns < 5000000 → ns' < 2 ^ 31 * BILLION →
        ∃ x, ns ≤ x ≤ ns' ∧ (secs, nsecs) = time_of x) →
     Q (Ret (secs, nsecs)) t') →
  wp gettime Q t.
Proof.
  intros (lt & [h0 b] & Hclk & Hc & <-) HQ. unfold gettime. do 2 wp_step. rewrite Hclk. unfold ltimer_gettime.
  pose proof (lookup_lt_Some _ _ _ Hc) as Hlt. simpl in HQ.
  destruct (read_sec_law h0) as (h1 & Hr1 & Hle1).
  destruct (read_nsec_law h1) as (h2 & Hr2 & Hle2). destruct (read_sec_law h2) as (h3 & Hr3 & Hle3).
  wp_step. eapply wp_on_card; [done..|]. cbn beta iota.
  wp_step. eapply wp_on_card; [by apply list_lookup_insert_eq|done|]. cbn beta iota. cbn [lt_hardclock set_cards cards].
  rewrite list_insert_insert_eq.
  wp_step. eapply wp_on_card; [by apply list_lookup_insert_eq|done|]. cbn beta iota. cbn [lt_hardclock set_cards cards].
  rewrite list_insert_insert_eq. wp_step.
  apply (HQ _ _ (now h3)); [lia| |].
  - exists lt, (Ltimer h3 b). split_and!; [done| |done]. by apply list_lookup_insert_eq.
  - intros Hfast Hb. exists (now h1). split; [lia|]. unfold time_of. f_equal.
    pose proof (now_law h0). rewrite <- (same_second (if now h1 mod BILLION <? 5000000 then now h2 else now h0) (now h1)).
    + by destruct (_ <? _).
    + destruct (_ <? _); lia.
    + lia.
    + destruct (_ <? _); lia.
    + destruct (_ <? _); lia.
Qed.
End clock.

(** The interval of two times is their difference. *)
Lemma getinterval_spec x y :
  0 ≤ x ≤ y → y < 2 ^ 31 * BILLION →
  getinterval (time_of x).1 (time_of x).2 (time_of y).1 (time_of y).2 = time_of (y - x).
Proof.
  intros Hxy Hb. unfold getinterval, time_of, BILLION in *. simpl fst. simpl snd.
  pose proof (Z.mod_pos_bound x 1000000000). pose proof (Z.mod_pos_bound y 1000000000).
  assert (0 ≤ x / 1000000000 ≤ y / 1000000000 ∧ y / 1000000000 < 2 ^ 31).
  { split; [split; [apply Z.div_pos; lia|apply Z.div_le_mono; lia]|apply Z.div_lt_upper_bound; lia]. }
  destruct (Z.ltb_spec (y mod 1000000000) (x mod 1000000000)).
  - rewrite (u32_small (_ + _)) by (unfold is_u32; lia). rewrite (s32_small (_ - 1)) by lia.
    rewrite s32_small, u32_small by (unfold is_u32; lia).
    f_equal; Z.div_mod_to_equations; lia.
  - rewrite s32_small, u32_small by (unfold is_u32; lia). f_equal; Z.div_mod_to_equations; lia.
Qed.

(** The times before and after a command, and the interval between them, as
    in [cmd_dispatch]. *)
Definition timed {Hw} `{TimerPort Hw} (cmd : M (timers Hw) unit) : M (timers Hw) (Z * Z) :=
  before ← gettime;
  _ ← attempt cmd;
  after ← gettime;
  mret (getinterval before.1 before.2 after.1 after.2).

(** C38: the time that is reported for a command is the time it took.  For a
    command that returns, with the clock still running, [timed] returns, and when
    each of the two readings of the clock takes less than five milliseconds
    its interval is the time from an instant of the first reading to an instant of
    the second, to the nanosecond, also when a second turns over between two
    register reads; the clock shows less than 2^31 seconds. *)
Theorem timed_correct {Hw} `{TimerLaws Hw} (cmd : M (timers Hw) unit) t ns0 :
  clock_at t ns0 →
  (∀ t1 ns1, clock_at t1 ns1 →
     match cmd t1 with
     | (Halt _, _) => False
     | (_, t2) => ∃ ns2, ns1 ≤ ns2 ∧ clock_at t2 ns2
     end) →
  ∃ iv t3 ns1 ns2 ns3, timed cmd t = (Ret iv, t3) ∧ clock_at t3 ns3 ∧ ns0 ≤ ns1 ≤ ns2 ∧ ns2 ≤ ns3 ∧
    (ns1 - ns0 < 5000000 → ns3 - ns2 < 5000000 → ns3 < 2 ^ 31 * BILLION →
       ∃ x y, ns0 ≤ x ≤ ns1 ∧ ns2 ≤ y ≤ ns3 ∧ iv = time_of (y - x)).
Proof.
  intros Hclk Hcmd.
  cut (wp (timed cmd) (returns (λ iv t3, ∃ ns1 ns2 ns3, clock_at t3 ns3 ∧ ns0 ≤ ns1 ≤ ns2 ∧ ns2 ≤ ns3 ∧
    (ns1 - ns0 < 5000000 → ns3 - ns2 < 5000000 → ns3 < 2 ^ 31 * BILLION →
       ∃ x y, ns0 ≤ x ≤ ns1 ∧ ns2 ≤ y ≤ ns3 ∧ iv = time_of (y - x)))) t).
  { unfold wp, returns. destruct (timed cmd t) as [[iv|?|?] t3]; [|done..]. naive_solver. }
  assert (0 ≤ ns0) as Hpos by (destruct Hclk as (? & c & _ & _ & <-); apply now_law).
  unfold timed. wp_step. eapply wp_gettime; [done|]. intros s1 n1 ns1 t1 Hle1 Hclk1 Hb. cbn beta iota.
  assert (∃ a t2 ns2, attempt cmd t1 = (Ret a, t2) ∧ ns1 ≤ ns2 ∧ clock_at t2 ns2) as (a & t2 & ns2 & Hrun & Hle2 & Hclk2).
  { specialize (Hcmd t1 ns1 Hclk1). unfold attempt. destruct (cmd t1) as [[] t2]; naive_solver. }
  wp_step. eapply wp_eq; [exact Hrun|]. cbv beta iota. wp_step. eapply wp_gettime; [done|].
  intros s2 n2 ns3 t3 Hle3 Hclk3 Hb'. cbn beta iota. wp_step. exists ns1, ns2, ns3. split_and!; [done..|].
  intros Hf1 Hf2 Hmax. destruct (Hb Hf1 ltac:(lia)) as (x & Hx & [= -> ->]).
  destruct (Hb' Hf2 Hmax) as (y & Hy & [= -> ->]). exists x, y. split_and!; [lia..|].
  by apply getinterval_spec; lia.
Qed.

(** A card on which a read takes a microsecond. *)
Definition simtimer : Type := N.
#[export] Instance simtimer_port : TimerPort simtimer := {
  read_sec h := (Ret (u32 (Z.of_N h / BILLION)), (h + 1000)%N);
  read_nsec h := (Ret (Z.of_N h mod BILLION), (h + 1000)%N);
  read_irq h := (Ret 1, h);
  write_roe _ h := (Ret (), h);
  write_count _ h := (Ret (), h);
  write_spkr _ h := (Ret (), h);
}.
#[export] Instance simtimer_view : TimerView simtimer := Z.of_N.
#[export] Instance simtimer_laws : TimerLaws simtimer.
Proof.
  split; intros h; unfold now, simtimer_view; [lia|..].
  - exists (h + 1000)%N. split; [done|lia].
  - exists (h + 1000)%N. split; [done|lia].
Qed.

(** A second turns over between the first two reads. *)
Definition at_five : timers simtimer := Timers [Ltimer 4999999500%N true] true (Some 0%nat) None 0 0.

Lemma timed_correct_witness :
  ∃ iv t3 ns1 ns2 ns3, timed (mret ()) at_five = (Ret iv, t3) ∧ clock_at t3 ns3 ∧ 4999999500 ≤ ns1 ≤ ns2 ∧ ns2 ≤ ns3 ∧
    (ns1 - 4999999500 < 5000000 → ns3 - ns2 < 5000000 → ns3 < 2 ^ 31 * BILLION →
       ∃ x y, 4999999500 ≤ x ≤ ns1 ∧ ns2 ≤ y ≤ ns3 ∧ iv = time_of (y - x)).
Proof.
  apply (timed_correct (mret ()) at_five 4999999500).
  - exists 0%nat, (Ltimer 4999999500%N true). done.
  - intros t1 ns1 Hclk. exists ns1. split; [lia|done].
Defined.

Lemma gettime_turnover : (gettime at_five).1 = Ret (5, 500).
Proof. vm_compute. reflexivity. Qed.

(** ** One card drives [hardclock] *)

Class TimerWrites (Hw : Type) `{TimerPort Hw} := {
  write_roe_law v (h : Hw) : ∃ h', write_roe v h = (Ret (), h');
  write_count_law v (h : Hw) : ∃ h', write_count v h = (Ret (), h');
}.

Section drive.
Context {Hw : Type} `{TimerWrites Hw}.

Definition flags (t : timers Hw) : list bool := lt_hardclock <$> cards t.

Lemma flags_insert (t : timers Hw) lt c :
  flags (set_cards (<[lt := c]> (cards t)) t) = <[lt := lt_hardclock c]> (flags t).
Proof. unfold flags. cbn [set_cards cards]. by rewrite list_fmap_insert. Qed.

(** An access leaves the flags of the cards. *)
Lemma wp_on_card_flags {A} lt (m : M Hw A) (Q : result A → timers Hw → Prop) t :
  (lt < length (cards t))%nat → (∀ h, ∃ a h', m h = (Ret a, h')) →
  (∀ a t', flags t' = flags t → haveclock t' = haveclock t → hardclocks t' = hardclocks t → Q (Ret a) t') →
  wp (on_card lt m) Q t.
Proof.
  intros [c Hc]%lookup_lt_is_Some_2 Hm HQ. destruct (Hm (lt_card c)) as (a & h' & Hrun).
  eapply wp_on_card; [done..|]. apply HQ; [|done..].
  rewrite flags_insert. apply list_insert_id. unfold flags. by rewrite list_lookup_fmap, Hc.
Qed.

Lemma flags_length (t : timers Hw) : length (cards t) = length (flags t).
Proof. unfold flags. by rewrite length_fmap. Qed.

(** The first card that is configured drives [hardclock], later ones do not. *)
Lemma wp_config_ltimer lt (Q : result unit → timers Hw → Prop) t :
  (lt < length (flags t))%nat →
  (∀ t', flags t' = <[lt := negb (haveclock t)]> (flags t) → haveclock t' = true →
     hardclocks t' = hardclocks t → Q (Ret ()) t') →
  wp (config_ltimer lt) Q t.
Proof.
  intros Hlt HQ. pose proof Hlt as Hlt'. rewrite <- flags_length in Hlt'.
  destruct (proj2 (lookup_lt_is_Some _ _) Hlt') as [c Hc].
  unfold config_ltimer. do 2 wp_step. destruct (haveclock t) eqn:Hh; cbn [negb] in *.
  { unfold set_lt_hardclock. do 2 wp_step. wp_step. eapply wp_deref; [done|]. wp_step.
    apply HQ; [apply flags_insert|done|done]. }
  do 2 wp_step. unfold set_lt_hardclock. wp_step. do 2 wp_step. wp_step. eapply wp_deref; [done|]. wp_step.
  set (t1 := set_cards _ _).
  assert (flags t1 = <[lt := true]> (flags t)) as Hf1 by apply (flags_insert t lt (Ltimer (lt_card c) true)).
  wp_step. eapply wp_on_card_flags.
  { rewrite flags_length, Hf1, length_insert. done. }
  { intros h. destruct (write_roe_law 1 h) as [h' ?]. eauto. }
  intros [] t2 Hf2 Hh2 Hn2. cbv beta iota. eapply wp_on_card_flags.
  { rewrite flags_length, Hf2, Hf1, length_insert. done. }
  { intros h. destruct (write_count_law (LT_GRANULARITY / LT_HZ) h) as [h' ?]. eauto. }
  intros [] t3 Hf3 Hh3 Hn3. apply HQ; [congruence|by rewrite Hh3, Hh2|by rewrite Hn3, Hn2].
Qed.

Lemma config_rest lts (Q : result unit → timers Hw → Prop) t :
  Forall (λ lt, (lt < length (flags t))%nat) lts → haveclock t = true →
  (∀ t', flags t' = foldl (λ fs lt, <[lt := false]> fs) (flags t) lts → haveclock t' = true →
     hardclocks t' = hardclocks t → Q (Ret ()) t') →
  wp (forM lts config_ltimer) Q t.
Proof.
  revert t. induction lts as [|lt lts IH]; intros t Hall Hh HQ; [by apply HQ|].
  apply Forall_cons in Hall as [Hlt Hall]. cbn [forM]. wp_step. eapply wp_config_ltimer; [done|].
  rewrite Hh. intros t1 Hf1 Hh1 Hn1. cbv beta iota. apply IH; [|done|].
  - eapply Forall_impl; [exact Hall|]. intros k. by rewrite Hf1, length_insert.
  - intros t' Hf' Hh' Hn'. apply HQ; [|done|congruence]. rewrite Hf', Hf1. done.
Qed.

Lemma foldl_clear (fs : list bool) lts k :
  foldl (λ fs lt, <[lt := false]> fs) fs lts !! k =
  (if decide (k ∈ lts) then (λ _, false) <$> fs !! k else fs !! k).
Proof.
  revert fs. induction lts as [|lt lts IH]; intros fs; cbn [foldl]; [done|].
  rewrite IH. destruct (decide (k = lt)) as [->|Hne].
  - rewrite (decide_True (P := lt ∈ lt :: lts)) by set_solver.
    destruct (decide (lt < length fs)%nat) as [Hlt|Hge].
    + rewrite list_lookup_insert_eq by done. destruct (proj2 (lookup_lt_is_Some fs lt) Hlt) as [b ->].
      by destruct (decide _).
    + rewrite !(lookup_ge_None_2 _ lt) by (rewrite ?length_insert; lia). by destruct (decide _).
  - rewrite list_lookup_insert_ne by done. destruct (decide (k ∈ lts)), (decide (k ∈ lt :: lts)); set_solver.
Qed.

(** Whatever the flags of the cards were, when all are configured in turn the
    first drives [hardclock] and no other does. *)
Lemma config_all n (t : timers Hw) :
  length (flags t) = S n → haveclock t = false →
  wp (forM (seq 0 (S n)) config_ltimer)
     (returns (λ _ t', ∀ lt b, flags t' !! lt = Some b → b = bool_decide (lt = 0%nat))) t.
Proof.
  intros Hlen Hh. cbn [seq forM]. wp_step. eapply wp_config_ltimer; [lia|]. rewrite Hh. cbn [negb].
  intros t1 Hf1 Hh1 Hn1. cbv beta iota. apply config_rest; [|done|].
  { apply Forall_forall. intros k Hk%elem_of_seq. rewrite Hf1, length_insert. lia. }
  intros t' Hf' _ _ lt b. rewrite Hf', foldl_clear, Hf1.
  destruct (decide _) as [Hin|Hnin].
  - apply elem_of_seq in Hin. rewrite list_lookup_insert_ne by lia. rewrite bool_decide_eq_false_2 by lia.
    destruct (flags t !! lt); simpl; congruence.
  - rewrite elem_of_seq in Hnin. intros Hb. pose proof (lookup_lt_Some _ _ _ Hb) as Hlt.
    rewrite length_insert in Hlt. assert (lt = 0%nat) as -> by lia.
    rewrite list_lookup_insert_eq in Hb by lia. by injection Hb as <-.
Qed.

(** An interrupt calls [hardclock] when the card raised it and drives it. *)
Lemma irq_hardclock lt v h' (Q : result unit → timers Hw → Prop) t c :
  cards t !! lt = Some c → read_irq (lt_card c) = (Ret v, h') →
  (∀ t', flags t' = flags t →
     hardclocks t' = (if bool_decide (v ≠ 0) && lt_hardclock c then S (hardclocks t) else hardclocks t) →
     Q (Ret ()) t') →
  wp (ltimer_irq lt) Q t.
Proof.
  intros Hc Hv HQ. pose proof (lookup_lt_Some _ _ _ Hc) as Hlt.
  unfold ltimer_irq. wp_step. eapply wp_on_card; [done..|]. cbn beta iota.
  set (t1 := set_cards _ _).
  assert (flags t1 = flags t) as Hf1.
  { unfold t1. rewrite flags_insert. apply list_insert_id. unfold flags. by rewrite list_lookup_fmap, Hc. }
  destruct (Z.eqb_spec v 0) as [->|Hv0]; cbn [negb].
  { wp_step. by apply HQ. }
  rewrite bool_decide_eq_true_2 in HQ by done. cbn [andb] in HQ.
  do 2 wp_step. wp_step. eapply wp_deref; [by apply list_lookup_insert_eq|]. cbn [lt_hardclock].
  destruct (lt_hardclock c); wp_step; by apply HQ.
Qed.
End drive.

#[export] Instance simtimer_writes : TimerWrites simtimer.
Proof. split; intros v h; by exists h. Qed.
