(* ===== verification/Menu.v ===== *)
(** * The kernel menu (kern/main/menu.c)

    A line of the menu holds commands separated by semicolons, a command holds
    words separated by blanks and tabs.  [menu_execute] and [cmd_dispatch] split
    the one line in place, each with a [strtok_r] of its own, the inner one inside
    the string the outer one found.  The line and the rest of the system are the
    state.  The command table, the clock and [kprintf] are the class [MenuEnv]. *)

From S2P Require Import Prelude Libc Timer.

Definition MAXMENUARGS : nat := 16.

(** What the menu prints. *)
Inductive message :=
  | TooManyWords
  | OperationTook (secs nsecs : Z)
  | CommandNotFound (arg0 : list Z)
  | Kernel (command : list Z)
  | CommandFailed (result : errno).

(** A command is called with its words; a name is the array of its string. *)
Class MenuEnv (E : Type) := {
  cmdtable : list (list Z * option (list (list Z) → M E unit));
  menu_gettime : M E (Z * Z);
  menu_kprintf : message → M E unit;
}.

Section ops.
Context {E : Type} `{MenuEnv E}.

(** The string at [h]. *)
Definition word_at (buf : list Z) (h : nat) : option (list Z) :=
  n ← strlen (drop h buf); Some (take (Z.to_nat n) (drop h buf)).

(** [for (word = strtok_r(cmd, " \t", &context); ...)]: the positions of the
    words, [None] when they are too many. *)
Fixpoint split_args (fuel : nat) (start : bool) (args : list nat) : M (list Z * option nat) (option (list nat)) :=
  match fuel with
  | O => nofuel
  | S fuel' =>
      word ← strtok_r start [32; 9; 0];
      match word with
      | None => mret (Some args)
      | Some h =>
          if (MAXMENUARGS <=? length args)%nat then mret None
          else split_args fuel' false (args ++ [h])
      end
  end.

(** The words of the string at [cmd]; [context] is a local of the caller. *)
Definition split_cmd (cmd : nat) : M (list Z * E) (option (list nat)) := λ '(buf, e),
  let '(r, (sub, _)) := split_args (S (length buf)) true [] (drop cmd buf, None) in
  (r, (take cmd buf ++ sub, e)).

(** The loop over the command table. *)
Fixpoint find_command (table : list (list Z * option (list (list Z) → M E unit))) (arg0 : list Z) :
    M (list Z * E) (option (option (list (list Z) → M E unit))) :=
  match table with
  | [] => mret None
  | (name, func) :: table' =>
      c ← deref (name !! 0%nat);
      if negb (c =? 0) then
        r ← deref (strcmp arg0 name);
        if r =? 0 then mret (Some func) else find_command table' arg0
      else find_command table' arg0
  end.

(** From [if (nargs==0)] on: [args] are positions in the command. *)
Definition call_command (cmd : nat) (args : list nat) : M (list Z * E) unit :=
  match args with
  | [] => mret ()
  | a0 :: _ =>
      line ← gets fst;
      f ← find_command cmdtable (drop a0 (drop cmd line));
      match f with
      | None =>
          w ← deref (word_at (drop cmd line) a0);
          _ ← on_snd (menu_kprintf (CommandNotFound w));
          fail EINVAL
      | Some None => panic
      | Some (Some func) =>
          before ← on_snd menu_gettime;
          ws ← deref (mapM (word_at (drop cmd line)) args);
          result ← attempt (on_snd (func ws));
          after ← on_snd menu_gettime;
          let '(secs, nsecs) := getinterval before.1 before.2 after.1 after.2 in
          _ ← on_snd (menu_kprintf (OperationTook secs nsecs));
          result_of result
      end
  end.

Definition cmd_dispatch (cmd : nat) : M (list Z * E) unit :=
  o ← split_cmd cmd;
  match o with
  | None => _ ← on_snd (menu_kprintf TooManyWords); fail E2BIG
  | Some args => call_command cmd args
  end.

(** [strtok_r(line or NULL, ";", &context)]: a command and the new context. *)
Definition next_command (start : bool) (context : option nat) : M (list Z * E) (option nat * option nat) := λ '(buf, e),
  match strtok_r start [59; 0] (buf, context) with
  | (Ret h, (buf', context')) => (Ret (h, context'), (buf', e))
  | (Fail k, (buf', _)) => (Fail k, (buf', e))
  | (Halt k, (buf', _)) => (Halt k, (buf', e))
  end.

(** The body of the loop of [menu_execute]. *)
Definition execute_command (isargs : bool) (cmd : nat) : M (list Z * E) unit :=
  line ← gets fst;
  _ ← (if isargs then w ← deref (word_at line cmd); on_snd (menu_kprintf (Kernel w)) else mret ());
  result ← attempt (cmd_dispatch cmd);
  match result with
  | inl _ => mret ()
  | inr e => _ ← on_snd (menu_kprintf (CommandFailed e)); if isargs then panic else mret ()
  end.

Fixpoint menu_loop (fuel : nat) (isargs start : bool) (context : option nat) : M (list Z * E) unit :=
  match fuel with
  | O => nofuel
  | S fuel' =>
      r ← next_command start context;
      match r with
      | (None, _) => mret ()
      | (Some cmd, context') => _ ← execute_command isargs cmd; menu_loop fuel' isargs false context'
      end
  end.

Definition menu_execute (isargs : bool) : M (list Z * E) unit :=
  line ← gets fst; menu_loop (S (length line)) isargs true None.
End ops.

(** ** What a line means *)

Section spec.
Context {E : Type} `{MenuEnv E}.

(** The string of an array. *)
Definition name_of (a : list Z) : list Z := default [] (word_at a 0).

(** The command with a name, the first of the table. *)
Definition command (name : list Z) : option (option (list (list Z) → M E unit)) :=
  snd <$> find (λ c, bool_decide (name_of c.1 ≠ [] ∧ name_of c.1 = name)) cmdtable.

(** A command is called with its words, timed, and its result returned. *)
Definition run_words (ws : list (list Z)) : M E unit :=
  if (MAXMENUARGS <? length ws)%nat then _ ← menu_kprintf TooManyWords; fail E2BIG
  else
    match ws with
    | [] => mret ()
    | w :: _ =>
        match command w with
        | None => _ ← menu_kprintf (CommandNotFound w); fail EINVAL
        | Some None => panic
        | Some (Some func) =>
            before ← menu_gettime;
            result ← attempt (func ws);
            after ← menu_gettime;
            let '(secs, nsecs) := getinterval before.1 before.2 after.1 after.2 in
            _ ← menu_kprintf (OperationTook secs nsecs);
            result_of result
        end
    end.

(** A command that fails is reported, and stops the system when it came with
    the kernel's arguments. *)
Definition run_command (isargs : bool) (cmd : list Z) : M E unit :=
  _ ← (if isargs then menu_kprintf (Kernel cmd) else mret ());
  result ← attempt (run_words (words [32; 9] cmd));
  match result with
  | inl _ => mret ()
  | inr e => _ ← menu_kprintf (CommandFailed e); if isargs then panic else mret ()
  end.

Definition run_line (isargs : bool) (line : list Z) : M E unit := forM (words [59] line) (run_command isargs).
End spec.

(** ** Splitting a command *)

Lemma cstr_at buf h w : cstr (drop h buf) w → word_at buf h = Some w.
Proof.
  intros Hw. unfold word_at. rewrite (strlen_cstr _ _ Hw). destruct Hw as [_ [rest ->]].
  simpl. unfold zlen. by rewrite Nat2Z.id, take_app_length.
Qed.

(** A string that lies before [h] is kept when the memory before [h] is. *)
Lemma cstr_before b b' p w h :
  cstr (drop p b) w → (p + length w < h)%nat → take h b' = take h b → cstr (drop p b') w.
Proof.
  intros [Hw [rest Hb]] Hlt Htk.
  assert (drop p (take h b) = w ++ 0 :: take (h - p - length w - 1) rest) as Hd.
  { rewrite skipn_firstn_comm, Hb, take_app_ge by lia.
    destruct (h - p - length w)%nat as [|n] eqn:Hn; [lia|]. cbn [take]. do 3 f_equal. lia. }
  rewrite <- Htk, skipn_firstn_comm in Hd. split; [done|].
  rewrite <- (take_drop (h - p) (drop p b')), Hd, <- app_assoc. by eexists.
Qed.

(** The words found so far, all before the context. *)
Definition found (b : list Z) (ctx : option nat) (args : list nat) (ws : list (list Z)) : Prop :=
  Forall2 (λ p w, cstr (drop p b) w ∧ match ctx with Some c => p + length w < c | None => True end)%nat args ws.

Definition ends (ctx : option nat) (s : list Z) (stop : nat) : Prop :=
  match ctx with Some c => (c + length s = stop)%nat | None => True end.

Lemma found_step h0 s b h w s' b' ctx' args ws :
  found b (Some h0) args ws → tok_moved h0 s b h w s' b' ctx' → cstr (drop h b') w → take h b' = take h b →
  found b' ctx' (args ++ [h]) (ws ++ [w]).
Proof.
  intros Hf (Hh & Hlen & Hdrop & Hdec & Hctx) Hw Htk. apply Forall2_app; [|apply Forall2_cons; split; [|done]].
  - eapply Forall2_impl; [exact Hf|]. intros p v [Hv Hlt]. split; [eapply cstr_before; [done| |done]; lia|].
    destruct ctx'; lia || done.
  - split; [done|]. destruct ctx'; lia || done.
Qed.

Lemma blanks_cstr : cstr [32; 9; 0] [32; 9].
Proof. split; [repeat constructor; discriminate|by exists []]. Qed.
Lemma semicolon_cstr : cstr [59; 0] [59].
Proof. split; [repeat constructor; discriminate|by exists []]. Qed.

(** The loop collects the words that are left, when there is room for them,
    and writes nothing behind the command. *)
Lemma split_args_spec fuel start b ctx s args ws stop Q :
  (length s < fuel)%nat → Forall is_u8 s →
  tok_rest (b, if (start : bool) then Some O else ctx) s →
  found b (if start then Some O else ctx) args ws → ends (if start then Some O else ctx) s stop →
  (length args ≤ MAXMENUARGS)%nat →
  (∀ b' ctx' args', length b' = length b → drop stop b' = drop stop b →
     found b' None args' (ws ++ words [32; 9] s) →
     (length args' ≤ MAXMENUARGS)%nat → Q (Ret (Some args')) (b', ctx')) →
  (∀ b' ctx', length b' = length b → drop stop b' = drop stop b →
     (MAXMENUARGS < length (ws ++ words [32; 9]%Z s))%nat → Q (Ret None) (b', ctx')) →
  wp (split_args fuel start args) Q (b, ctx).
Proof.
  revert start b ctx s args ws. induction fuel as [|fuel IH]; intros start b ctx s args ws Hfuel Hus Hrest Hf Hend Hmax HS HN; [lia|].
  cbn [split_args]. wp_step. eapply strtok_r_spec; [apply blanks_cstr|repeat constructor; discriminate|done|done| |].
  { intros Hw. wp_step. apply HS; [done..| |done]. rewrite Hw, app_nil_r.
    eapply Forall2_impl; [exact Hf|]. naive_solver. }
  intros h0 h w s' b' ctx' Hw Hcw Htk Hrest' Hus' Hctx Hm. rewrite Hctx in *. cbn [ends] in Hend.
  pose proof Hm as (Hh & Hlen & Hdrop & Hdec & Hc). rewrite Hend in Hdrop.
  pose proof (found_step _ _ _ _ _ _ _ _ _ _ Hf Hm Hcw Htk) as Hf'.
  destruct (Nat.leb_spec MAXMENUARGS (length args)) as [Hle|Hgt].
  { wp_step. apply HN; [done..|]. apply Forall2_length in Hf. rewrite Hw, length_app, length_cons. lia. }
  eapply (IH false b' ctx' s' (args ++ [h]) (ws ++ [w])); [lia|done|done|done| | |..].
  - destruct ctx'; [|done]. cbn [ends]. lia.
  - rewrite length_app. simpl. lia.
  - intros b2 ctx2 args2 Hl2 Hd2. rewrite <- app_assoc. cbn [app]. rewrite <- Hw. apply HS; congruence.
  - intros b2 ctx2 Hl2 Hd2. rewrite <- app_assoc. cbn [app]. rewrite <- Hw. apply HN; congruence.
Qed.

Lemma words_from_all (P : Z → Prop) seps s word :
  Forall P s → Forall P word → Forall (Forall P) (words_from seps s word).
Proof.
  intros Hs. revert word. induction Hs as [|c s Hc _ IH]; intros word Hw; simpl.
  { destruct word; [by apply Forall_nil|]. apply Forall_cons. by split. }
  destruct (is_sep seps c).
  - destruct word; [by apply IH|]. constructor; [done|by apply IH].
  - apply IH, Forall_app. by repeat constructor.
Qed.

(** ** Running a line *)

Section refine.
Context {E : Type} `{MenuEnv E}.
Implicit Types (e : E) (buf : list Z).

(** The names of the table are strings. *)
Definition names_ok : Prop := Forall (λ c, ∃ n, cstr c.1 n ∧ Forall is_u8 n) cmdtable.

Lemma find_command_spec table arg0 w (s : list Z * E) :
  Forall (λ c, ∃ n, cstr c.1 n ∧ Forall is_u8 n) table → cstr arg0 w → Forall is_u8 w →
  find_command table arg0 s =
  (Ret (snd <$> find (λ c, bool_decide (name_of c.1 ≠ [] ∧ name_of c.1 = w)) table), s).
Proof.
  intros Htab Hw Huw. induction Htab as [|[name func] table (n & Hn & Hun) _ IH]; [done|]. cbn [find_command find fst] in *.
  assert (name_of name = n) as -> by (unfold name_of; by rewrite (cstr_at name 0 n)).
  destruct (cstr_head _ _ Hn) as (c & Hc & Hz & _). rewrite Hc.
  destruct (strcmp_spec arg0 name w n Hw Hn Huw Hun) as (r & Hr & Hr0 & _). rewrite Hr.
  unfold deref, mbind, M_bind, mret, M_ret.
  destruct (Z.eqb_spec c 0) as [Hc0|Hc0]; cbn [negb].
  { rewrite bool_decide_eq_false_2 by tauto. apply IH. }
  destruct (Z.eqb_spec r 0) as [Hr'|Hr'].
  - rewrite bool_decide_eq_true_2 by (split; [tauto|symmetry; tauto]). done.
  - rewrite bool_decide_eq_false_2 by (intros [_ ?]; apply Hr', Hr0; done). apply IH.
Qed.

(** [m] does on the rest of the system what [m'] does, and leaves the line as
    [buf']. *)
Definition does {A} (m : M (list Z * E) A) (buf buf' : list Z) (m' : M E A) : Prop :=
  ∀ e, m (buf, e) = let '(r, e') := m' e in (r, (buf', e')).

Lemma does_on_snd {A} buf (m : M E A) : does (on_snd m) buf buf m.
Proof. intros e. unfold on_snd. simpl. by destruct (m e). Qed.
Lemma does_ret {A} buf (a : A) : does (mret a) buf buf (mret a).
Proof. done. Qed.
Lemma does_fail {A} buf k : does (@fail _ A k) buf buf (fail k).
Proof. done. Qed.
Lemma does_panic {A} buf : does (@panic _ A) buf buf panic.
Proof. done. Qed.
Lemma does_attempt {A} buf buf' (m : M (list Z * E) A) m' : does m buf buf' m' → does (attempt m) buf buf' (attempt m').
Proof. intros Hm e. unfold attempt. rewrite Hm. by destruct (m' e) as [[] ?]. Qed.
Lemma does_deref {A B} buf buf' (o : option A) a (k : A → M (list Z * E) B) k' :
  o = Some a → does (k a) buf buf' k' → does (deref o ≫= k) buf buf' k'.
Proof. intros -> Hk e. apply Hk. Qed.
Lemma does_line {B} buf buf' (k : list Z → M (list Z * E) B) k' :
  does (k buf) buf buf' k' → does (gets fst ≫= k) buf buf' k'.
Proof. intros Hk e. apply Hk. Qed.

(** A part that does not change the line, then the rest. *)
Lemma does_seq {A B} buf (m : M (list Z * E) A) m' (k : A → M (list Z * E) B) k' :
  does m buf buf m' → (∀ a, does (k a) buf buf (k' a)) → does (m ≫= k) buf buf (m' ≫= k').
Proof.
  intros Hm Hk e. unfold mbind, M_bind. rewrite Hm. destruct (m' e) as [[a|?|?] e']; [apply Hk|done..].
Qed.

Lemma does_result {A} buf (r : A + errno) : does (result_of r) buf buf (result_of r).
Proof. by destruct r. Qed.

(** The command that is called, once the words are found. *)
Lemma call_command_does buf cmd args ws :
  found (drop cmd buf) None args ws → Forall (Forall is_u8) ws → names_ok → (length args ≤ MAXMENUARGS)%nat →
  does (call_command cmd args) buf buf (run_words ws).
Proof.
  intros Hf Hu Hnames Hmax. unfold run_words, call_command.
  pose proof (Forall2_length _ _ _ Hf) as Hlen. rewrite (proj2 (Nat.ltb_ge _ _)) by lia.
  assert (mapM (word_at (drop cmd buf)) args = Some ws) as Hws.
  { apply mapM_Some_2. eapply Forall2_impl; [exact Hf|]. intros p w [Hw _]. by apply cstr_at. }
  destruct Hf as [|a0 w args ws [Hw _] Hf]; [apply does_ret|].
  apply Forall_cons in Hu as [Huw _]. apply does_line. intros e. unfold mbind at 1, M_bind at 1.
  rewrite (find_command_spec _ _ w) by done. fold (command w). revert e.
  destruct (command w) as [[func|]|]; [|done|].
  - apply does_seq; [apply does_on_snd|]. intros before. eapply does_deref; [exact Hws|].
    apply does_seq; [apply does_attempt, does_on_snd|]. intros result.
    apply does_seq; [apply does_on_snd|]. intros after. destruct (getinterval _ _ _ _) as [secs nsecs].
    apply does_seq; [apply does_on_snd|]. intros _. apply does_result.
  - eapply does_deref; [by apply cstr_at|]. apply does_seq; [apply does_on_snd|done].
Qed.
(** [cmd_dispatch] runs the words of a command and writes only inside it. *)
Lemma cmd_dispatch_does buf cmd c :
  cstr (drop cmd buf) c → (cmd < length buf)%nat → Forall is_u8 c → names_ok →
  ∃ buf', length buf' = length buf ∧ drop (cmd + length c) buf' = drop (cmd + length c) buf ∧
    does (cmd_dispatch cmd) buf buf' (run_words (words [32; 9] c)).
Proof.
  intros Hc Hlt Huc Hnames.
  assert (∀ sub, length sub = length (drop cmd buf) → drop (length c) sub = drop (length c) (drop cmd buf) →
    length (take cmd buf ++ sub) = length buf ∧
    drop (cmd + length c) (take cmd buf ++ sub) = drop (cmd + length c) buf ∧ drop cmd (take cmd buf ++ sub) = sub) as Hline.
  { intros sub Hl Hd. rewrite length_drop in Hl. split_and!.
    - rewrite length_app, length_take. lia.
    - rewrite <- !drop_drop, drop_app_length' by (rewrite length_take; lia). by rewrite Hd.
    - rewrite drop_app_length'; [done|]. rewrite length_take. lia. }
  cut (wp (split_args (S (length buf)) true []) (λ r st, ∃ o, r = Ret o ∧
    length st.1 = length (drop cmd buf) ∧ drop (length c) st.1 = drop (length c) (drop cmd buf) ∧
    match o with
    | None => (MAXMENUARGS < length (words [32; 9]%Z c))%nat
    | Some args => found st.1 None args (words [32; 9] c) ∧ (length args ≤ MAXMENUARGS)%nat
    end) (drop cmd buf, None)).
  - unfold wp. destruct (split_args _ _ _ _) as [r [sub ctx]] eqn:Hrun. cbn [fst snd].
    intros (o & -> & Hl & Hd & Ho). destruct (Hline sub Hl Hd) as (Hl' & Hd' & Hsub).
    exists (take cmd buf ++ sub). split_and!; [done..|]. intros e. unfold cmd_dispatch, mbind at 1, M_bind at 1.
    unfold split_cmd. rewrite Hrun. revert e. destruct o as [args|].
    + destruct Ho as [Hf Hmax]. apply call_command_does; [by rewrite Hsub| |done..].
      by apply words_from_all.
    + intros e. unfold run_words. rewrite (proj2 (Nat.ltb_lt _ _)) by done. revert e.
      apply does_seq; [apply does_on_snd|done].
  - eapply (split_args_spec _ true _ None c [] [] (length c)).
    + destruct Hc as [_ [rest Hc]]. apply (f_equal length) in Hc. rewrite length_drop, length_app in Hc. simpl in Hc. lia.
    + done.
    + split; [by rewrite drop_0|]. simpl. rewrite length_drop. lia.
    + constructor.
    + done.
    + unfold MAXMENUARGS. simpl. lia.
    + intros b' ctx' args' Hl Hd Hf Hmax. by exists (Some args').
    + intros b' ctx' Hl Hd Hmax. by exists None.
Qed.

(** As [does], with the line known when the result is a value. *)
Definition runs {A} (m : M (list Z * E) A) (buf buf' : list Z) (m' : M E A) : Prop :=
  ∀ e, ∃ b, (m (buf, e) = let '(r, e') := m' e in (r, (b, e'))) ∧
    match (m' e).1 with Ret _ => b = buf' | _ => True end.

Lemma does_runs {A} (m : M (list Z * E) A) buf buf' m' : does m buf buf' m' → runs m buf buf' m'.
Proof. intros Hm e. exists buf'. split; [apply Hm|]. by destruct (m' e).1. Qed.

Lemma runs_seq {A B} buf buf1 buf2 (m : M (list Z * E) A) m' (k : A → M (list Z * E) B) k' :
  runs m buf buf1 m' → (∀ a, runs (k a) buf1 buf2 (k' a)) → runs (m ≫= k) buf buf2 (m' ≫= k').
Proof.
  intros Hm Hk e. destruct (Hm e) as (b & Hrun & Hb). unfold mbind, M_bind. rewrite Hrun.
  destruct (m' e) as [[a|?|?] e']; simpl in Hb; [subst b; apply Hk|by exists b..].
Qed.

Lemma runs_line {A} (k : list Z → M (list Z * E) A) buf buf' k' :
  runs (k buf) buf buf' k' → runs (gets fst ≫= k) buf buf' k'.
Proof. intros Hk e. apply Hk. Qed.

Lemma execute_command_runs isargs buf cmd c :
  cstr (drop cmd buf) c → (cmd < length buf)%nat → Forall is_u8 c → names_ok →
  ∃ buf', length buf' = length buf ∧ drop (cmd + length c) buf' = drop (cmd + length c) buf ∧
    runs (execute_command isargs cmd) buf buf' (run_command isargs c).
Proof.
  intros Hc Hlt Huc Hnames. destruct (cmd_dispatch_does buf cmd c Hc Hlt Huc Hnames) as (buf' & Hl & Hd & Hdo).
  exists buf'. split_and!; [done..|]. apply (runs_line (λ line, _)). unfold run_command.
  eapply (runs_seq buf buf buf'); [apply does_runs; destruct isargs|intros _].
  { eapply does_deref; [by apply cstr_at|apply does_on_snd]. }
  { apply does_ret. }
  eapply (runs_seq buf buf' buf'); [by apply does_runs, does_attempt|]. intros [?|k]; [apply does_runs, does_ret|].
  apply does_runs, does_seq; [apply does_on_snd|]. intros _. by destruct isargs.
Qed.

Lemma runs_first {A B} buf buf1 buf2 (m : M (list Z * E) A) a (k : A → M (list Z * E) B) k' :
  (∀ e, m (buf, e) = (Ret a, (buf1, e))) → runs (k a) buf1 buf2 k' → runs (m ≫= k) buf buf2 k'.
Proof. intros Hm Hk e. unfold mbind, M_bind. rewrite Hm. apply Hk. Qed.

(** The loop runs the commands that are left. *)
Lemma menu_loop_runs fuel isargs start buf ctx s :
  (length s < fuel)%nat → Forall is_u8 s → names_ok →
  tok_rest (buf, if (start : bool) then Some O else ctx) s →
  ∃ buf', runs (menu_loop fuel isargs start ctx) buf buf' (run_line isargs s).
Proof.
  revert start buf ctx s. induction fuel as [|fuel IH]; intros start buf ctx s Hfuel Hus Hnames Hrest; [lia|].
  cut (wp (strtok_r start [59; 0]) (λ r st, ∃ o, r = Ret o ∧
    match o with
    | None => words [59] s = []
    | Some h => ∃ w s', words [59] s = w :: words [59] s' ∧ cstr (drop h st.1) w ∧ (h < length st.1)%nat ∧ Forall is_u8 w ∧
        (length s' < length s)%nat ∧ Forall is_u8 s' ∧ tok_rest st s' ∧
        match st.2 with None => True | Some c => (h + length w < c)%nat end
    end) (buf, ctx)).
  - unfold wp. destruct (strtok_r start [59; 0] (buf, ctx)) as [r [buf1 ctx1]] eqn:Hrun. cbn [fst snd].
    intros (o & -> & Ho). cbn [menu_loop]. unfold run_line.
    assert (∀ e, next_command start ctx (buf, e) = (Ret (o, ctx1), (buf1, e))) as Hnext.
    { intros e. unfold next_command. by rewrite Hrun. }
    destruct o as [h|].
    + destruct Ho as (w & s' & Hw & Hc & Hlt & Huw & Hdec & Hus' & Hrest' & Hctx). rewrite Hw. cbn [forM].
      destruct (execute_command_runs isargs buf1 h w Hc Hlt Huw Hnames) as (buf2 & Hl2 & Hd2 & Hrun2).
      destruct (IH false buf2 ctx1 s') as [buf3 Hrun3]; [lia|done|done| |].
      { destruct ctx1 as [c|]; [|done]. unfold tok_rest in *. cbn [fst snd] in *. rewrite Hl2.
        destruct Hrest' as [Hs' Hltc]. split; [|done].
        replace c with (h + length w + (c - (h + length w)))%nat by lia.
        rewrite <- drop_drop, Hd2, drop_drop. by replace (h + length w + (c - (h + length w)))%nat with c by lia. }
      exists buf3. eapply runs_first; [exact Hnext|]. eapply runs_seq; [done|]. intros _. done.
    + rewrite Ho. exists buf1. eapply runs_first; [exact Hnext|]. apply does_runs, does_ret.
  - eapply strtok_r_spec; [apply semicolon_cstr|repeat constructor; discriminate|done|done| |].
    { intros Hw. by exists None. }
    intros h0 h w s' buf' ctx' Hw Hcw Htk Hrest' Hus' Hctx (Hh & Hlen & Hdrop & Hdec & Hc).
    exists (Some h). split; [done|]. exists w, s'. split_and!; [done|done| | |done|done|done|].
    + destruct Hcw as [_ [rest Hr]]. apply (f_equal length) in Hr. rewrite length_drop, length_app in Hr. simpl in *. lia.
    + pose proof (words_from_all is_u8 [59] s [] Hus ltac:(done)) as Hall. fold (words [59] s) in Hall.
      rewrite Hw in Hall. by apply Forall_cons in Hall as [? _].
    + simpl. destruct ctx'; [lia|done].
Qed.
(** C27: a line of the menu runs its commands.  [menu_execute], which splits the
    line in place with two nested [strtok_r], does on the system what the
    reading of the line means: its commands between the semicolons in turn, each
    with its words between blanks and tabs, the first the name looked up in the
    command table; a command of more than 16 words or with an unknown name is
    refused, a failure is reported, and is fatal for the kernel's arguments; the
    time a command took is reported.  It never leaves the line and it ends. *)
Theorem menu_execute_correct isargs buf line e :
  cstr buf line → Forall is_u8 line → names_ok →
  ∃ buf', menu_execute isargs (buf, e) = let '(r, e') := run_line isargs line e in (r, (buf', e')).
Proof.
  intros Hline Hu Hnames. destruct (menu_loop_runs (S (length buf)) isargs true buf None line) as [buf' Hrun].
  - destruct Hline as [_ [rest ->]]. rewrite length_app. lia.
  - done.
  - done.
  - destruct Hline as [Hz [rest ->]]. split; [by apply cstr_app|]. simpl. rewrite length_app. simpl. lia.
  - destruct (Hrun e) as (b & Hb & _). exists b. exact Hb.
Qed.
End refine.

(** A system with a clock, a log of what is printed, and two commands: [sync],
    and [cd], which wants an argument. *)
Definition simmenu : Type := timers simtimer * list message.
#[export] Instance simmenu_env : MenuEnv simmenu := {
  cmdtable := [([115; 121; 110; 99; 0], Some (λ _, mret ()));
               ([99; 100; 0], Some (λ ws, if (length ws =? 2)%nat then mret () else fail EINVAL))];
  menu_gettime := on_fst gettime;
  menu_kprintf m := on_snd (modify (λ log, log ++ [m]));
}.

Lemma simmenu_names : names_ok (E := simmenu).
Proof.
  repeat constructor.
  - exists [115; 121; 110; 99]. split; [split; [repeat constructor; discriminate|by exists []]|repeat constructor; discriminate].
  - exists [99; 100]. split; [split; [repeat constructor; discriminate|by exists []]|repeat constructor; discriminate].
Qed.

(** The line [cd  a;sync ; cd]. *)
Definition simline : list Z := [99; 100; 32; 32; 97; 59; 115; 121; 110; 99; 32; 59; 32; 99; 100].

Lemma menu_execute_correct_witness :
  ∃ buf', menu_execute false (simline ++ [0], (at_five, [])) =
          let '(r, e') := run_line false simline (at_five, []) in (r, (buf', e')).
Proof.
  apply (menu_execute_correct false (simline ++ [0]) simline (at_five, [])).
  - split; [repeat constructor; discriminate|by exists []].
  - repeat constructor; discriminate.
  - apply simmenu_names.
Defined.

Lemma simline_run :
  (λ x, x.2.2.2) (menu_execute false (simline ++ [0], (at_five, []))) =
  [OperationTook 0 3000; OperationTook 0 3000; OperationTook 0 3000; CommandFailed EINVAL].
Proof. vm_compute. reflexivity. Qed.
