(* ===== verification/Machine.v ===== *)
(** * The state of the running kernel, and the priority level (arch/mips/mips/spl.c)

    [kstate] holds the globals of the thread system and of the layers under it:
    the processor's status register and [curspl] (spl.c), [in_interrupt]
    (interrupt.c), [curkstack] (pcb.c), the lists of thread.c and scheduler.c,
    the semaphores and locks (synch.c), the tick counter of hardclock.c, the
    process table (pid.c), the memory system (dumbvm.c, ram.c), and the outcomes
    of the next calls of [kmalloc].

    A context switch changes the kernel stack, so the stack is data here: the
    list of the calls that are still to return, innermost first.  A [frame] is
    one pending call, with the local variables it still needs.  [KUser] stands
    for the code that uses the thread system. *)

From S2P Require Import Prelude Array Queue Vnode.

Definition addr : Type := Z.
(** A [struct thread *]; NULL is the [None] of [option tid]. *)
Definition tid : Type := addr.

Inductive irq := irq_timer | irq_V (sem : addr).

Inductive frame :=
  | KUser
  | KStart                              (* mips_threadstart: calls mi_threadstart *)
  | KExit                               (* mi_threadstart, in func() *)
  | KDead                               (* thread_exit, in mi_switch *)
  | KSched (cur : tid)                  (* mi_switch, in scheduler *)
  | KSwitched                           (* mi_switch, in md_switch *)
  | KYield (spl : Z)                    (* thread_yield, in mi_switch *)
  | KSleep                              (* thread_sleep, in mi_switch *)
  | KP (sem : addr) (spl : Z)           (* P, in thread_sleep *)
  | KLock (lock : addr) (spl : Z)       (* lock_acquire, in thread_sleep *)
  | KCv (cv lock : addr) (spl : Z)      (* cv_wait, in thread_sleep *)
  | KCvLock (cv lock : addr) (spl : Z)  (* cv_wait, in lock_acquire *)
  | KClock (num_secs : Z) (spl : Z)     (* clocksleep, in thread_sleep *)
  | KIrq (irqs : list irq)              (* lamebus_interrupt, handlers to call *)
  | KTrap (old_in savespl status : Z).  (* mips_trap, in mips_interrupt *)

Record pcb := {
  pcb_switchstack : list frame;
  pcb_kstack : Z;
  pcb_ininterrupt : Z;
}.

(** [t_stack] is NULL for the first thread; of another thread's stack it holds
    the four bytes at the bottom end.  [t_filetable] is [None] while the field
    has not been written. *)
Record thread := {
  t_pcb : pcb;
  t_name : string;
  t_sleepaddr : option addr;
  t_stack : option (list Z);
  t_vmspace : option addr;
  t_cwd : option addr;
  t_pid : Z;
  t_filetable : option (list (option addr));
}.

Record pidinfo := {
  pid : Z; parent_pid : Z; hasexited : Z; exitstatus : Z; exitcv : option addr;
}.
Record pidstate := { nextpid : Z; pidinfoTable : array pidinfo }.

Record addrspace := {
  as_vbase1 : Z; as_pbase1 : Z; as_npages1 : Z;
  as_vbase2 : Z; as_pbase2 : Z; as_npages2 : Z;
  as_stackpbase : Z;
}.

(** The TLB, as the pairs of words [TLB_Read] gives, the address spaces by
    their address, the bounds of ram.c, and the bytes of physical memory. *)
Record vmstate := {
  tlb : list (Z * Z);
  addrspaces : gmap addr addrspace;
  firstpaddr : Z;
  lastpaddr : Z;
  ram : Z → Z;
}.

Record kstate := {
  status : Z;
  curspl : Z;
  in_interrupt : Z;
  curkstack : Z;
  stack : list frame;
  curthread : option tid;
  runqueue : queue tid;
  sleepers : array tid;
  zombies : array tid;
  numthreads : Z;
  threads : gmap tid thread;
  sems : gmap addr Z;
  locks : gmap addr (option tid);
  lbolt_counter : Z;
  pids : pidstate;
  vm : vmstate;
  vnodes : gmap addr vnode;
  allocs : list (option addr);
}.

Definition set_status v (σ : kstate) : kstate :=
  {| status := v; curspl := curspl σ; in_interrupt := in_interrupt σ; curkstack := curkstack σ;
     stack := stack σ; curthread := curthread σ; runqueue := runqueue σ; sleepers := sleepers σ;
     zombies := zombies σ; numthreads := numthreads σ; threads := threads σ; sems := sems σ;
     locks := locks σ; lbolt_counter := lbolt_counter σ; pids := pids σ; vm := vm σ;
     vnodes := vnodes σ; allocs := allocs σ |}.
Definition set_curspl v (σ : kstate) : kstate :=
  {| status := status σ; curspl := v; in_interrupt := in_interrupt σ; curkstack := curkstack σ;
     stack := stack σ; curthread := curthread σ; runqueue := runqueue σ; sleepers := sleepers σ;
     zombies := zombies σ; numthreads := numthreads σ; threads := threads σ; sems := sems σ;
     locks := locks σ; lbolt_counter := lbolt_counter σ; pids := pids σ; vm := vm σ;
     vnodes := vnodes σ; allocs := allocs σ |}.
Definition set_in_interrupt v (σ : kstate) : kstate :=
  {| status := status σ; curspl := curspl σ; in_interrupt := v; curkstack := curkstack σ;
     stack := stack σ; curthread := curthread σ; runqueue := runqueue σ; sleepers := sleepers σ;
     zombies := zombies σ; numthreads := numthreads σ; threads := threads σ; sems := sems σ;
     locks := locks σ; lbolt_counter := lbolt_counter σ; pids := pids σ; vm := vm σ;
     vnodes := vnodes σ; allocs := allocs σ |}.
Definition set_curkstack v (σ : kstate) : kstate :=
  {| status := status σ; curspl := curspl σ; in_interrupt := in_interrupt σ; curkstack := v;
     stack := stack σ; curthread := curthread σ; runqueue := runqueue σ; sleepers := sleepers σ;
     zombies := zombies σ; numthreads := numthreads σ; threads := threads σ; sems := sems σ;
     locks := locks σ; lbolt_counter := lbolt_counter σ; pids := pids σ; vm := vm σ;
     vnodes := vnodes σ; allocs := allocs σ |}.
Definition set_stack v (σ : kstate) : kstate :=
  {| status := status σ; curspl := curspl σ; in_interrupt := in_interrupt σ;
     curkstack := curkstack σ; stack := v; curthread := curthread σ; runqueue := runqueue σ;
     sleepers := sleepers σ; zombies := zombies σ; numthreads := numthreads σ;
     threads := threads σ; sems := sems σ; locks := locks σ; lbolt_counter := lbolt_counter σ;
     pids := pids σ; vm := vm σ; vnodes := vnodes σ; allocs := allocs σ |}.
Definition set_curthread v (σ : kstate) : kstate :=
  {| status := status σ; curspl := curspl σ; in_interrupt := in_interrupt σ;
     curkstack := curkstack σ; stack := stack σ; curthread := v; runqueue := runqueue σ;
     sleepers := sleepers σ; zombies := zombies σ; numthreads := numthreads σ;
     threads := threads σ; sems := sems σ; locks := locks σ; lbolt_counter := lbolt_counter σ;
     pids := pids σ; vm := vm σ; vnodes := vnodes σ; allocs := allocs σ |}.
Definition set_runqueue v (σ : kstate) : kstate :=
  {| status := status σ; curspl := curspl σ; in_interrupt := in_interrupt σ;
     curkstack := curkstack σ; stack := stack σ; curthread := curthread σ; runqueue := v;
     sleepers := sleepers σ; zombies := zombies σ; numthreads := numthreads σ;
     threads := threads σ; sems := sems σ; locks := locks σ; lbolt_counter := lbolt_counter σ;
     pids := pids σ; vm := vm σ; vnodes := vnodes σ; allocs := allocs σ |}.
Definition set_sleepers v (σ : kstate) : kstate :=
  {| status := status σ; curspl := curspl σ; in_interrupt := in_interrupt σ;
     curkstack := curkstack σ; stack := stack σ; curthread := curthread σ;
     runqueue := runqueue σ; sleepers := v; zombies := zombies σ; numthreads := numthreads σ;
     threads := threads σ; sems := sems σ; locks := locks σ; lbolt_counter := lbolt_counter σ;
     pids := pids σ; vm := vm σ; vnodes := vnodes σ; allocs := allocs σ |}.
Definition set_zombies v (σ : kstate) : kstate :=
  {| status := status σ; curspl := curspl σ; in_interrupt := in_interrupt σ;
     curkstack := curkstack σ; stack := stack σ; curthread := curthread σ;
     runqueue := runqueue σ; sleepers := sleepers σ; zombies := v; numthreads := numthreads σ;
     threads := threads σ; sems := sems σ; locks := locks σ; lbolt_counter := lbolt_counter σ;
     pids := pids σ; vm := vm σ; vnodes := vnodes σ; allocs := allocs σ |}.
Definition set_numthreads v (σ : kstate) : kstate :=
  {| status := status σ; curspl := curspl σ; in_interrupt := in_interrupt σ;
     curkstack := curkstack σ; stack := stack σ; curthread := curthread σ;
     runqueue := runqueue σ; sleepers := sleepers σ; zombies := zombies σ; numthreads := v;
     threads := threads σ; sems := sems σ; locks := locks σ; lbolt_counter := lbolt_counter σ;
     pids := pids σ; vm := vm σ; vnodes := vnodes σ; allocs := allocs σ |}.
Definition set_threads v (σ : kstate) : kstate :=
  {| status := status σ; curspl := curspl σ; in_interrupt := in_interrupt σ;
     curkstack := curkstack σ; stack := stack σ; curthread := curthread σ;
     runqueue := runqueue σ; sleepers := sleepers σ; zombies := zombies σ;
     numthreads := numthreads σ; threads := v; sems := sems σ; locks := locks σ;
     lbolt_counter := lbolt_counter σ; pids := pids σ; vm := vm σ; vnodes := vnodes σ;
     allocs := allocs σ |}.
Definition set_sems v (σ : kstate) : kstate :=
  {| status := status σ; curspl := curspl σ; in_interrupt := in_interrupt σ;
     curkstack := curkstack σ; stack := stack σ; curthread := curthread σ;
     runqueue := runqueue σ; sleepers := sleepers σ; zombies := zombies σ;
     numthreads := numthreads σ; threads := threads σ; sems := v; locks := locks σ;
     lbolt_counter := lbolt_counter σ; pids := pids σ; vm := vm σ; vnodes := vnodes σ;
     allocs := allocs σ |}.
Definition set_locks v (σ : kstate) : kstate :=
  {| status := status σ; curspl := curspl σ; in_interrupt := in_interrupt σ;
     curkstack := curkstack σ; stack := stack σ; curthread := curthread σ;
     runqueue := runqueue σ; sleepers := sleepers σ; zombies := zombies σ;
     numthreads := numthreads σ; threads := threads σ; sems := sems σ; locks := v;
     lbolt_counter := lbolt_counter σ; pids := pids σ; vm := vm σ; vnodes := vnodes σ;
     allocs := allocs σ |}.
Definition set_lbolt_counter v (σ : kstate) : kstate :=
  {| status := status σ; curspl := curspl σ; in_interrupt := in_interrupt σ;
     curkstack := curkstack σ; stack := stack σ; curthread := curthread σ;
     runqueue := runqueue σ; sleepers := sleepers σ; zombies := zombies σ;
     numthreads := numthreads σ; threads := threads σ; sems := sems σ; locks := locks σ;
     lbolt_counter := v; pids := pids σ; vm := vm σ; vnodes := vnodes σ; allocs := allocs σ |}.
Definition set_pids v (σ : kstate) : kstate :=
  {| status := status σ; curspl := curspl σ; in_interrupt := in_interrupt σ;
     curkstack := curkstack σ; stack := stack σ; curthread := curthread σ;
     runqueue := runqueue σ; sleepers := sleepers σ; zombies := zombies σ;
     numthreads := numthreads σ; threads := threads σ; sems := sems σ; locks := locks σ;
     lbolt_counter := lbolt_counter σ; pids := v; vm := vm σ; vnodes := vnodes σ;
     allocs := allocs σ |}.
Definition set_vm v (σ : kstate) : kstate :=
  {| status := status σ; curspl := curspl σ; in_interrupt := in_interrupt σ;
     curkstack := curkstack σ; stack := stack σ; curthread := curthread σ;
     runqueue := runqueue σ; sleepers := sleepers σ; zombies := zombies σ;
     numthreads := numthreads σ; threads := threads σ; sems := sems σ; locks := locks σ;
     lbolt_counter := lbolt_counter σ; pids := pids σ; vm := v; vnodes := vnodes σ;
     allocs := allocs σ |}.
Definition set_vnodes v (σ : kstate) : kstate :=
  {| status := status σ; curspl := curspl σ; in_interrupt := in_interrupt σ;
     curkstack := curkstack σ; stack := stack σ; curthread := curthread σ;
     runqueue := runqueue σ; sleepers := sleepers σ; zombies := zombies σ;
     numthreads := numthreads σ; threads := threads σ; sems := sems σ; locks := locks σ;
     lbolt_counter := lbolt_counter σ; pids := pids σ; vm := vm σ; vnodes := v;
     allocs := allocs σ |}.
Definition set_allocs v (σ : kstate) : kstate :=
  {| status := status σ; curspl := curspl σ; in_interrupt := in_interrupt σ;
     curkstack := curkstack σ; stack := stack σ; curthread := curthread σ;
     runqueue := runqueue σ; sleepers := sleepers σ; zombies := zombies σ;
     numthreads := numthreads σ; threads := threads σ; sems := sems σ; locks := locks σ;
     lbolt_counter := lbolt_counter σ; pids := pids σ; vm := vm σ; vnodes := vnodes σ;
     allocs := v |}.

(** ** Memory

    The next call of [kmalloc] gives the next outcome: a block, or NULL; with
    no outcome left there is no memory. *)
Definition kmalloc : M kstate (option addr) :=
  l ← gets allocs;
  match l with
  | [] => mret None
  | r :: l' => _ ← modify (set_allocs l'); mret r
  end.

(** ** The status register and the priority level (spl.c) *)

Definition CST_IEc : Z := 1.
Definition SPL_HIGH : Z := 15.

Definition interrupts_on : M kstate unit :=
  modify (λ σ, set_status (Z.lor (status σ) CST_IEc) σ).
Definition interrupts_off : M kstate unit :=
  modify (λ σ, set_status (Z.land (status σ) (Z.lnot CST_IEc)) σ).

Definition splx (newspl : Z) : M kstate Z :=
  _ ← (if newspl >? 0 then interrupts_off
       else if newspl =? 0 then interrupts_on else mret ());
  oldspl ← gets curspl;
  _ ← modify (set_curspl newspl);
  mret oldspl.

Definition splhigh : M kstate Z := splx SPL_HIGH.
Definition spl0 : M kstate Z := splx 0.

(** The call in progress. *)
Definition push (f : frame) : M kstate unit := modify (λ σ, set_stack (f :: stack σ) σ).

(** The test of an [assert] on the state. *)
Definition assert_state (p : kstate → bool) : M kstate unit := σ ← get; assert (p σ).

Definition zoom_runqueue {A} : M (queue tid) A → M kstate A := zoom runqueue set_runqueue.
Definition zoom_sleepers {A} : M (array tid) A → M kstate A := zoom sleepers set_sleepers.
Definition zoom_zombies {A} : M (array tid) A → M kstate A := zoom zombies set_zombies.
Definition zoom_vm {A} : M vmstate A → M kstate A := zoom vm set_vm.

(** [curthread->field] and the update of a field of a thread. *)
Definition get_thread (t : tid) : M kstate thread := σ ← get; deref (threads σ !! t).
Definition put_thread (t : tid) (th : thread) : M kstate unit :=
  _ ← get_thread t; modify (λ σ, set_threads (<[t := th]> (threads σ)) σ).
Definition cur : M kstate tid := σ ← get; deref (curthread σ).

Definition with_pcb (p : pcb) (th : thread) : thread :=
  {| t_pcb := p; t_name := t_name th; t_sleepaddr := t_sleepaddr th; t_stack := t_stack th;
     t_vmspace := t_vmspace th; t_cwd := t_cwd th; t_pid := t_pid th; t_filetable := t_filetable th |}.
Definition with_sleepaddr (a : option addr) (th : thread) : thread :=
  {| t_pcb := t_pcb th; t_name := t_name th; t_sleepaddr := a; t_stack := t_stack th;
     t_vmspace := t_vmspace th; t_cwd := t_cwd th; t_pid := t_pid th; t_filetable := t_filetable th |}.
Definition with_stack (s : option (list Z)) (th : thread) : thread :=
  {| t_pcb := t_pcb th; t_name := t_name th; t_sleepaddr := t_sleepaddr th; t_stack := s;
     t_vmspace := t_vmspace th; t_cwd := t_cwd th; t_pid := t_pid th; t_filetable := t_filetable th |}.
Definition with_vmspace (v : option addr) (th : thread) : thread :=
  {| t_pcb := t_pcb th; t_name := t_name th; t_sleepaddr := t_sleepaddr th; t_stack := t_stack th;
     t_vmspace := v; t_cwd := t_cwd th; t_pid := t_pid th; t_filetable := t_filetable th |}.
Definition with_cwd (v : option addr) (th : thread) : thread :=
  {| t_pcb := t_pcb th; t_name := t_name th; t_sleepaddr := t_sleepaddr th; t_stack := t_stack th;
     t_vmspace := t_vmspace th; t_cwd := v; t_pid := t_pid th; t_filetable := t_filetable th |}.
Definition with_pid (n : Z) (th : thread) : thread :=
  {| t_pcb := t_pcb th; t_name := t_name th; t_sleepaddr := t_sleepaddr th; t_stack := t_stack th;
     t_vmspace := t_vmspace th; t_cwd := t_cwd th; t_pid := n; t_filetable := t_filetable th |}.

(** ** Rules for the priority level *)

Definition spl_status (n st : Z) : Z :=
  if n >? 0 then Z.land st (Z.lnot CST_IEc) else if n =? 0 then Z.lor st CST_IEc else st.

(** The state after [splx(n)]. *)
Definition at_spl (n : Z) (σ : kstate) : kstate :=
  set_curspl n (set_status (spl_status n (status σ)) σ).

Lemma wp_splx n (Q : result Z → kstate → Prop) σ :
  Q (Ret (curspl σ)) (at_spl n σ) → wp (splx n) Q σ.
Proof.
  intros HQ. unfold splx, interrupts_on, interrupts_off, at_spl, spl_status in *.
  destruct (n >? 0); [|destruct (n =? 0)]; wp_steps; [done..|by destruct σ].
Qed.

Lemma wp_splhigh (Q : result Z → kstate → Prop) σ :
  Q (Ret (curspl σ)) (at_spl SPL_HIGH σ) → wp splhigh Q σ.
Proof. apply wp_splx. Qed.

(** Interrupts are enabled exactly at level 0. *)
Record flag_ok (σ : kstate) : Prop := {
  fo_spl : 0 ≤ curspl σ;
  fo_flag : Z.testbit (status σ) 0 = (curspl σ =? 0);
}.

Lemma spl_status_bit n st k : 0 ≤ k →
  Z.testbit (spl_status n st) k =
  if decide (k = 0 ∧ 0 ≤ n) then n =? 0 else Z.testbit st k.
Proof.
  intros Hk. unfold spl_status, CST_IEc. rewrite Z.gtb_ltb.
  destruct (Z.ltb_spec 0 n); [|destruct (Z.eqb_spec n 0)].
  - rewrite Z.land_spec, Z.lnot_spec by lia. change 1 with (2 ^ 0).
    rewrite Z.pow2_bits_eqb by lia. case_decide as Hd.
    + destruct Hd as [-> _]. rewrite andb_false_r. lia.
    + destruct (Z.eqb_spec 0 k); [lia|]. by rewrite andb_true_r.
  - rewrite Z.lor_spec. change 1 with (2 ^ 0). rewrite Z.pow2_bits_eqb by lia. case_decide as Hd.
    + destruct Hd as [-> _]. rewrite orb_true_r. lia.
    + destruct (Z.eqb_spec 0 k); [lia|]. by rewrite orb_false_r.
  - rewrite decide_False by lia. done.
Qed.

Lemma spl_status_flag n st : 0 ≤ n → Z.testbit (spl_status n st) 0 = (n =? 0).
Proof. intros. rewrite spl_status_bit, decide_True by lia. done. Qed.

Lemma at_spl_flag_ok n σ : 0 ≤ n → flag_ok (at_spl n σ).
Proof. intros. split; simpl; [lia|by apply spl_status_flag]. Qed.

(** Back at the level it had, the processor's status is what it was. *)
Lemma at_spl_restore σ n : flag_ok σ → 0 ≤ n → at_spl (curspl σ) (at_spl n σ) = σ.
Proof.
  intros [Hs Hf] Hn.
  assert (spl_status (curspl σ) (spl_status n (status σ)) = status σ) as Hst.
  { apply Z.bits_inj'. intros k Hk. rewrite !spl_status_bit by done.
    destruct (decide (k = 0)) as [->|Hk0].
    - rewrite decide_True by lia. done.
    - rewrite !decide_False by lia. done. }
  unfold at_spl. cbn [status set_curspl set_status]. rewrite Hst. by destruct σ.
Qed.

(** ** A running machine, for examples: one thread, nothing allocated *)

Definition boot_thread : thread :=
  {| t_pcb := {| pcb_switchstack := []; pcb_kstack := 0x80010000; pcb_ininterrupt := 0 |};
     t_name := "<boot/menu>"; t_sleepaddr := None; t_stack := None; t_vmspace := None;
     t_cwd := None; t_pid := 0; t_filetable := None |}.

Definition small_queue : queue tid :=
  {| size := 4; nextwrite := 0; nextread := 0; data := replicate 4 None |}.
Definition small_array : array tid := {| num := 0; max := 0; vec := None |}.

Definition boot_state : kstate :=
  {| status := 1; curspl := 0; in_interrupt := 0; curkstack := 0x80010000; stack := [KUser];
     curthread := Some 1; runqueue := small_queue; sleepers := small_array;
     zombies := small_array; numthreads := 1; threads := {[1 := boot_thread]};
     sems := ∅; locks := ∅; lbolt_counter := 0;
     pids := {| nextpid := 1; pidinfoTable := {| num := 0; max := 0; vec := None |} |};
     vm := {| tlb := replicate 64 (0, 0); addrspaces := ∅; firstpaddr := 0x20000;
              lastpaddr := 0x400000; ram := λ _, 0 |};
     vnodes := ∅; allocs := [] |}.
