(* ===== verification/Dumbvm.v ===== *)
(** * Physical memory and address spaces (arch/mips/mips/ram.c, arch/mips/mips/dumbvm.c)

    A [struct addrspace *] is an address, looked up in [addrspaces].  The TLB
    is the list of its [NUM_TLB] pairs of words.  Physical memory is seen
    through the direct-mapped kernel segment, so that the [memmove]s of
    [as_copy] move bytes of [ram].

    [as_translate] is the meaning of an address space: the physical address of
    a user address.  The theorems show that [vm_fault] loads exactly that
    translation, that [as_prepare_load] and [as_copy] give an address space
    frames that no other one has, and that the copy reads the same bytes. *)

From S2P Require Import Prelude Array Queue Vnode Machine.

Definition PAGE_SIZE : Z := 4096.
Definition PAGE_FRAME : Z := 0xfffff000.
Definition MIPS_KSEG0 : Z := 0x80000000.
Definition PADDR_TO_KVADDR (paddr : Z) : Z := u32 (paddr + MIPS_KSEG0).
Definition USERSTACK : Z := MIPS_KSEG0.
Definition NUM_TLB : Z := 64.
Definition TLBLO_DIRTY : Z := 0x400.
Definition TLBLO_VALID : Z := 0x200.
Definition TLBHI_INVALID (entryno : Z) : Z := Z.shiftl (0x80000 + entryno) 12.
Definition TLBLO_INVALID : Z := 0.
Definition DUMBVM_STACKPAGES : Z := 12.

Definition set_tlb v (s : vmstate) : vmstate :=
  {| tlb := v; addrspaces := addrspaces s; firstpaddr := firstpaddr s;
     lastpaddr := lastpaddr s; ram := ram s |}.
Definition set_addrspaces v (s : vmstate) : vmstate :=
  {| tlb := tlb s; addrspaces := v; firstpaddr := firstpaddr s;
     lastpaddr := lastpaddr s; ram := ram s |}.
Definition set_firstpaddr v (s : vmstate) : vmstate :=
  {| tlb := tlb s; addrspaces := addrspaces s; firstpaddr := v;
     lastpaddr := lastpaddr s; ram := ram s |}.
Definition set_lastpaddr v (s : vmstate) : vmstate :=
  {| tlb := tlb s; addrspaces := addrspaces s; firstpaddr := firstpaddr s;
     lastpaddr := v; ram := ram s |}.
Definition set_ram v (s : vmstate) : vmstate :=
  {| tlb := tlb s; addrspaces := addrspaces s; firstpaddr := firstpaddr s;
     lastpaddr := lastpaddr s; ram := v |}.

(** ** ram.c

    [ramsize] is what the bus controller reports, [firstfree] the first free
    virtual address, set by start.S. *)
Definition ram_bootstrap (ramsize firstfree : Z) : M vmstate unit :=
  let ramsize' := if ramsize >? 508 * 1024 * 1024 then 508 * 1024 * 1024 else ramsize in
  _ ← modify (set_lastpaddr ramsize');
  modify (set_firstpaddr (u32 (firstfree - MIPS_KSEG0))).

Definition ram_stealmem (npages : Z) : M vmstate Z :=
  s ← get;
  let size := u32 (npages * PAGE_SIZE) in
  if u32 (firstpaddr s + size) >? lastpaddr s then mret 0
  else
    let paddr := firstpaddr s in
    _ ← put (set_firstpaddr (u32 (firstpaddr s + size)) s);
    mret paddr.

Definition ram_getsize : M vmstate (Z * Z) :=
  s ← get;
  _ ← put (set_firstpaddr 0 (set_lastpaddr 0 s));
  mret (firstpaddr s, lastpaddr s).

(** ** dumbvm.c *)

Definition getppages (npages : Z) : M kstate Z :=
  spl ← splhigh;
  addr ← zoom_vm (ram_stealmem npages);
  _ ← splx spl;
  mret addr.

Definition alloc_kpages (npages : Z) : M kstate Z :=
  pa ← getppages (u32 npages);
  if pa =? 0 then mret 0 else mret (PADDR_TO_KVADDR pa).

Definition TLB_Write (ehi elo i : Z) : M vmstate unit :=
  s ← get;
  t ← deref (zstore (tlb s) i (ehi, elo));
  put (set_tlb t s).

Definition TLB_Read (i : Z) : M vmstate (Z * Z) :=
  s ← get; deref (tlb s !z i).

Inductive faulttype := VM_FAULT_READ | VM_FAULT_WRITE | VM_FAULT_READONLY | VM_FAULT_OTHER.

(** [for (i=0; i<NUM_TLB; i++)]: the first invalid entry is overwritten. *)
Fixpoint vm_fault_load (idxs : list Z) (faultaddress paddr spl : Z) : M kstate unit :=
  match idxs with
  | [] => _ ← splx spl; fail EFAULT
  | i :: idxs' =>
      e ← zoom_vm (TLB_Read i);
      if negb (Z.land e.2 TLBLO_VALID =? 0) then vm_fault_load idxs' faultaddress paddr spl
      else
        _ ← zoom_vm (TLB_Write faultaddress
                       (Z.lor (Z.lor paddr TLBLO_DIRTY) TLBLO_VALID) i);
        _ ← splx spl;
        mret ()
  end.

Definition as_checked (a : addrspace) : bool :=
  negb (as_vbase1 a =? 0) && negb (as_pbase1 a =? 0) && negb (as_npages1 a =? 0) &&
  negb (as_vbase2 a =? 0) && negb (as_pbase2 a =? 0) && negb (as_npages2 a =? 0) &&
  negb (as_stackpbase a =? 0) &&
  (Z.land (as_vbase1 a) PAGE_FRAME =? as_vbase1 a) &&
  (Z.land (as_pbase1 a) PAGE_FRAME =? as_pbase1 a) &&
  (Z.land (as_vbase2 a) PAGE_FRAME =? as_vbase2 a) &&
  (Z.land (as_pbase2 a) PAGE_FRAME =? as_pbase2 a) &&
  (Z.land (as_stackpbase a) PAGE_FRAME =? as_stackpbase a).

Definition within (lo x hi : Z) : bool := (lo <=? x) && (x <? hi).

Definition get_as (a : addr) : M kstate addrspace :=
  σ ← get; deref (addrspaces (vm σ) !! a).
Definition put_as (a : addr) (x : addrspace) : M kstate unit :=
  zoom_vm (modify (λ s, set_addrspaces (<[a := x]> (addrspaces s)) s)).

(** The [if] chain over the two regions and the stack; [None] is its last
    [else]. *)
Definition fault_frame (a : addrspace) (faultaddress : Z) : option Z :=
  let vtop1 := u32 (as_vbase1 a + as_npages1 a * PAGE_SIZE) in
  let vtop2 := u32 (as_vbase2 a + as_npages2 a * PAGE_SIZE) in
  let stackbase := USERSTACK - DUMBVM_STACKPAGES * PAGE_SIZE in
  if within (as_vbase1 a) faultaddress vtop1 then
    Some (u32 (faultaddress - as_vbase1 a + as_pbase1 a))
  else if within (as_vbase2 a) faultaddress vtop2 then
    Some (u32 (faultaddress - as_vbase2 a + as_pbase2 a))
  else if within stackbase faultaddress USERSTACK then
    Some (u32 (faultaddress - stackbase + as_stackpbase a))
  else None.

Definition vm_fault (ft : faulttype) (address : Z) : M kstate unit :=
  spl ← splhigh;
  let faultaddress := Z.land address PAGE_FRAME in
  match ft with
  | VM_FAULT_READONLY => panic
  | VM_FAULT_OTHER => _ ← splx spl; fail EINVAL
  | VM_FAULT_READ | VM_FAULT_WRITE =>
      t ← cur;
      th ← get_thread t;
      match t_vmspace th with
      | None => fail EFAULT
      | Some p =>
          a ← get_as p;
          _ ← assert (as_checked a);
          match fault_frame a faultaddress with
          | Some paddr =>
              _ ← assert (Z.land paddr PAGE_FRAME =? paddr);
              vm_fault_load (seqZ 0 NUM_TLB) faultaddress paddr spl
          | None => _ ← splx spl; fail EFAULT
          end
      end
  end.

Definition empty_as : addrspace :=
  {| as_vbase1 := 0; as_pbase1 := 0; as_npages1 := 0; as_vbase2 := 0; as_pbase2 := 0;
     as_npages2 := 0; as_stackpbase := 0 |}.

Definition as_create : M kstate (option addr) :=
  r ← kmalloc;
  match r with
  | None => mret None
  | Some p => _ ← put_as p empty_as; mret (Some p)
  end.

Definition as_destroy (p : addr) : M kstate unit :=
  zoom_vm (modify (λ s, set_addrspaces (delete p (addrspaces s)) s)).

Definition as_activate : M kstate unit :=
  spl ← splhigh;
  _ ← forM (seqZ 0 NUM_TLB) (λ i, zoom_vm (TLB_Write (TLBHI_INVALID i) TLBLO_INVALID i));
  _ ← splx spl;
  mret ().

Definition as_set_region1 (vbase npages : Z) (a : addrspace) : addrspace :=
  {| as_vbase1 := vbase; as_pbase1 := as_pbase1 a; as_npages1 := npages;
     as_vbase2 := as_vbase2 a; as_pbase2 := as_pbase2 a; as_npages2 := as_npages2 a;
     as_stackpbase := as_stackpbase a |}.
Definition as_set_region2 (vbase npages : Z) (a : addrspace) : addrspace :=
  {| as_vbase1 := as_vbase1 a; as_pbase1 := as_pbase1 a; as_npages1 := as_npages1 a;
     as_vbase2 := vbase; as_pbase2 := as_pbase2 a; as_npages2 := npages;
     as_stackpbase := as_stackpbase a |}.
Definition as_set_frames (p1 p2 sp : Z) (a : addrspace) : addrspace :=
  {| as_vbase1 := as_vbase1 a; as_pbase1 := p1; as_npages1 := as_npages1 a;
     as_vbase2 := as_vbase2 a; as_pbase2 := p2; as_npages2 := as_npages2 a;
     as_stackpbase := sp |}.

Definition as_define_region (p : addr) (vaddr sz : Z) : M kstate unit :=
  let sz := u32 (sz + Z.land vaddr (Z.lnot PAGE_FRAME)) in
  let vaddr := Z.land vaddr PAGE_FRAME in
  let sz := Z.land (u32 (sz + PAGE_SIZE - 1)) PAGE_FRAME in
  let npages := sz / PAGE_SIZE in
  a ← get_as p;
  if as_vbase1 a =? 0 then put_as p (as_set_region1 vaddr npages a)
  else if as_vbase2 a =? 0 then put_as p (as_set_region2 vaddr npages a)
  else fail EUNIMP.

(** [as->field = getppages(npages)], with the value for the test that follows. *)
Definition assign_frames (p : addr) (npages : Z) (field : Z → addrspace) : M kstate Z :=
  pa ← getppages npages;
  _ ← put_as p (field pa);
  mret pa.

Definition as_prepare_load (p : addr) : M kstate unit :=
  a ← get_as p;
  _ ← assert (as_pbase1 a =? 0);
  _ ← assert (as_pbase2 a =? 0);
  _ ← assert (as_stackpbase a =? 0);
  p1 ← assign_frames p (as_npages1 a)
         (λ p1, as_set_frames p1 (as_pbase2 a) (as_stackpbase a) a);
  if p1 =? 0 then fail ENOMEM
  else
    p2 ← assign_frames p (as_npages2 a) (λ p2, as_set_frames p1 p2 (as_stackpbase a) a);
    if p2 =? 0 then fail ENOMEM
    else
      sp ← assign_frames p DUMBVM_STACKPAGES (λ sp, as_set_frames p1 p2 sp a);
      if sp =? 0 then fail ENOMEM else mret ().

Definition as_define_stack (p : addr) : M kstate Z :=
  a ← get_as p;
  _ ← assert (negb (as_stackpbase a =? 0));
  mret USERSTACK.

(** [memmove((void * )PADDR_TO_KVADDR(dst), (void * )PADDR_TO_KVADDR(src), n)]. *)
Definition ram_move (dst src n : Z) : M kstate unit :=
  zoom_vm (modify (λ s, set_ram
    (λ p, if within dst p (dst + n) then ram s (src + (p - dst)) else ram s p) s)).

Definition as_copy (old : addr) : M kstate addr :=
  r ← as_create;
  match r with
  | None => fail ENOMEM
  | Some new =>
      o ← get_as old;
      _ ← put_as new {| as_vbase1 := as_vbase1 o; as_pbase1 := 0; as_npages1 := as_npages1 o;
                        as_vbase2 := as_vbase2 o; as_pbase2 := 0; as_npages2 := as_npages2 o;
                        as_stackpbase := 0 |};
      r ← attempt (as_prepare_load new);
      match r with
      | inr _ => _ ← as_destroy new; fail ENOMEM
      | inl _ =>
          n ← get_as new;
          _ ← assert (negb (as_pbase1 n =? 0));
          _ ← assert (negb (as_pbase2 n =? 0));
          _ ← assert (negb (as_stackpbase n =? 0));
          _ ← ram_move (as_pbase1 n) (as_pbase1 o) (u32 (as_npages1 o * PAGE_SIZE));
          _ ← ram_move (as_pbase2 n) (as_pbase2 o) (u32 (as_npages2 o * PAGE_SIZE));
          _ ← ram_move (as_stackpbase n) (as_stackpbase o) (DUMBVM_STACKPAGES * PAGE_SIZE);
          mret new
      end
  end.

(** ** Arithmetic of pages *)

Lemma page_frame_of x : is_u32 x → Z.land x PAGE_FRAME = x - x mod PAGE_SIZE.
Proof.
  intros Hx. assert (Z.land x PAGE_FRAME = Z.shiftl (Z.shiftr x 12) 12) as ->.
  - apply Z.bits_inj'. intros k Hk. rewrite Z.land_spec, Z.shiftl_spec by lia.
    destruct (decide (k < 12)).
    + rewrite (Z.testbit_neg_r _ (k - 12)) by lia. rewrite <- (andb_false_r (Z.testbit x k)). f_equal.
      change PAGE_FRAME with (Z.shiftl (Z.ones 20) 12). rewrite Z.shiftl_spec by lia.
      apply Z.testbit_neg_r; lia.
    + rewrite Z.shiftr_spec by lia. replace (k - 12 + 12) with k by lia.
      destruct (decide (k < 32)).
      * change PAGE_FRAME with (Z.shiftl (Z.ones 20) 12).
        rewrite Z.shiftl_spec, Z.ones_spec_low by lia. apply andb_true_r.
      * rewrite <- (Z.mod_small x (2 ^ 32)) by done. by rewrite Z.mod_pow2_bits_high by lia.
  - rewrite Z.shiftl_mul_pow2, Z.shiftr_div_pow2 by lia. unfold PAGE_SIZE.
    rewrite Z.mod_eq by lia. change (2 ^ 12) with 4096. lia.
Qed.

Definition aligned (x : Z) : Prop := x mod PAGE_SIZE = 0.

Lemma page_aligned x : is_u32 x → (Z.land x PAGE_FRAME =? x) = bool_decide (aligned x).
Proof.
  intros Hx. rewrite page_frame_of by done. unfold aligned.
  apply eq_bool_prop_intro. rewrite bool_decide_spec, Is_true_true, Z.eqb_eq. lia.
Qed.

Lemma aligned_add x y : aligned x → aligned y → aligned (x + y).
Proof. unfold aligned. intros Hx Hy. rewrite Z.add_mod, Hx, Hy by done. done. Qed.
Lemma aligned_sub x y : aligned x → aligned y → aligned (x - y).
Proof. unfold aligned. intros Hx Hy. rewrite Zminus_mod, Hx, Hy. done. Qed.
Lemma aligned_pages n : aligned (n * PAGE_SIZE).
Proof. unfold aligned. by apply Z.mod_mul. Qed.
Lemma aligned_page x : is_u32 x → aligned (Z.land x PAGE_FRAME).
Proof.
  intros. rewrite page_frame_of by done. unfold aligned. rewrite Zminus_mod_idemp_r.
  by rewrite Z.sub_diag.
Qed.

(** ** The meaning of an address space *)

Definition STACKBASE : Z := USERSTACK - DUMBVM_STACKPAGES * PAGE_SIZE.

Definition region (vbase pbase npages va : Z) : option Z :=
  if within vbase va (vbase + npages * PAGE_SIZE) then Some (va - vbase + pbase) else None.

Definition as_translate (a : addrspace) (va : Z) : option Z :=
  match region (as_vbase1 a) (as_pbase1 a) (as_npages1 a) va with
  | Some pa => Some pa
  | None =>
      match region (as_vbase2 a) (as_pbase2 a) (as_npages2 a) va with
      | Some pa => Some pa
      | None => region STACKBASE (as_stackpbase a) DUMBVM_STACKPAGES va
      end
  end.

(** The top of physical memory that ram.c uses. *)
Definition RAM_MAX : Z := 508 * 1024 * 1024.

(** A region in user space, and the frames it has. *)
Record shape_ok (vbase npages : Z) : Prop := {
  sh_pos : 0 < vbase;
  sh_aligned : aligned vbase;
  sh_pages : 0 < npages;
  sh_top : vbase + npages * PAGE_SIZE ≤ USERSTACK;
}.
Record frames_ok (pbase npages : Z) : Prop := {
  fr_pos : 0 < pbase;
  fr_aligned : aligned pbase;
  fr_top : pbase + npages * PAGE_SIZE ≤ RAM_MAX;
}.
Record as_shape (a : addrspace) : Prop := {
  as_region1 : shape_ok (as_vbase1 a) (as_npages1 a);
  as_region2 : shape_ok (as_vbase2 a) (as_npages2 a);
}.
Record as_ok (a : addrspace) : Prop := {
  as_ok_shape : as_shape a;
  as_frames1 : frames_ok (as_pbase1 a) (as_npages1 a);
  as_frames2 : frames_ok (as_pbase2 a) (as_npages2 a);
  as_frames3 : frames_ok (as_stackpbase a) DUMBVM_STACKPAGES;
}.

Ltac vm_consts := unfold USERSTACK, MIPS_KSEG0, PAGE_SIZE, RAM_MAX, STACKBASE, DUMBVM_STACKPAGES, is_u32 in *.

Lemma as_ok_checked a : as_ok a → as_checked a = true.
Proof.
  intros [[[] []] [] [] []]. unfold as_checked.
  rewrite !page_aligned by (vm_consts; lia). rewrite !bool_decide_true by done.
  repeat (rewrite (proj2 (Z.eqb_neq _ _)) by lia). done.
Qed.

Lemma region_Some vbase pbase npages va pa :
  region vbase pbase npages va = Some pa ↔
  vbase ≤ va < vbase + npages * PAGE_SIZE ∧ pa = va - vbase + pbase.
Proof.
  unfold region, within. destruct (Z.leb_spec vbase va), (Z.ltb_spec va (vbase + npages * PAGE_SIZE));
    simpl; split; naive_solver lia.
Qed.

Lemma region_None vbase pbase npages va :
  region vbase pbase npages va = None ↔ ¬ (vbase ≤ va < vbase + npages * PAGE_SIZE).
Proof.
  unfold region, within. destruct (Z.leb_spec vbase va), (Z.ltb_spec va (vbase + npages * PAGE_SIZE));
    simpl; split; naive_solver lia.
Qed.

(** [as_translate] names one of three ranges of frames. *)
Definition owns (a : addrspace) (pa : Z) : Prop :=
  as_pbase1 a ≤ pa < as_pbase1 a + as_npages1 a * PAGE_SIZE ∨
  as_pbase2 a ≤ pa < as_pbase2 a + as_npages2 a * PAGE_SIZE ∨
  as_stackpbase a ≤ pa < as_stackpbase a + DUMBVM_STACKPAGES * PAGE_SIZE.

Lemma as_translate_owns a va pa : as_translate a va = Some pa → owns a pa.
Proof.
  unfold as_translate, owns. intros H.
  destruct (region _ _ _ _) eqn:H1; simplify_eq; [apply region_Some in H1; lia|].
  destruct (region (as_vbase2 a) _ _ _) eqn:H2; simplify_eq; [apply region_Some in H2; lia|].
  apply region_Some in H. lia.
Qed.

(** A valid TLB entry maps a page to a frame. *)
Definition tlb_valid (e : Z * Z) : bool := negb (Z.land e.2 TLBLO_VALID =? 0).
Definition tlb_entry (va pa : Z) : Z * Z := (va, Z.lor (Z.lor pa TLBLO_DIRTY) TLBLO_VALID).

Lemma tlb_entry_valid va pa : tlb_valid (tlb_entry va pa) = true.
Proof.
  unfold tlb_valid, tlb_entry. cbn [snd]. change TLBLO_VALID with (2 ^ 9).
  rewrite land_pow2_zero, Z.lor_spec, Z.pow2_bits_true, orb_true_r by lia. done.
Qed.

Lemma tlb_entry_frame va pa :
  is_u32 pa → aligned pa → Z.land (tlb_entry va pa).2 PAGE_FRAME = pa.
Proof.
  intros Hu Ha. unfold tlb_entry. cbn [snd]. rewrite !Z.land_lor_distr_l.
  change (Z.land TLBLO_DIRTY PAGE_FRAME) with 0. change (Z.land TLBLO_VALID PAGE_FRAME) with 0.
  rewrite !Z.lor_0_r. apply Z.eqb_eq. rewrite page_aligned by done. by apply bool_decide_eq_true.
Qed.

(** ** The fault handler *)

Lemma vm_fault_load_spec n k va pa spl σ Q :
  0 ≤ k → k + Z.of_nat n = NUM_TLB → zlen (tlb (vm σ)) = NUM_TLB →
  let σf := at_spl spl σ in
  (∀ i e, k ≤ i → tlb (vm σ) !z i = Some e → tlb_valid e = false →
     Q (Ret ()) (set_vm (set_tlb (<[Z.to_nat i := tlb_entry va pa]> (tlb (vm σ))) (vm σ)) σf)) →
  ((∀ i e, k ≤ i → tlb (vm σ) !z i = Some e → tlb_valid e = true) → Q (Fail EFAULT) σf) →
  wp (vm_fault_load (seqZ k (Z.of_nat n)) va pa spl) Q σ.
Proof.
  revert k. induction n as [|n IH]; intros k Hk Hn Hlen σf HQ HF.
  - simpl. wp_step. apply wp_splx. wp_step. apply HF. intros i e Hi He%zlookup_Some_range. lia.
  - rewrite seqZ_cons by lia. cbn [vm_fault_load]. wp_step. unfold zoom_vm, TLB_Read. wp_steps.
    destruct (zlookup_in (tlb (vm σ)) k) as [e He]; [lia|]. eapply wp_deref; [done|].
    cbn beta iota. replace (set_vm (vm σ) σ) with σ by (by destruct σ). fold (tlb_valid e).
    destruct (tlb_valid e) eqn:Hv.
    + rewrite Nat2Z.inj_succ, Z.pred_succ. apply IH; [lia|lia|done| |].
      * intros i e' Hi. apply HQ. lia.
      * intros Hall. apply HF. intros i e' Hi He'.
        destruct (decide (i = k)) as [->|]; [naive_solver|]. eapply Hall; [|done]. lia.
    + unfold zoom_vm, TLB_Write. wp_steps. eapply wp_deref; [apply zstore_in; lia|]. wp_steps.
      apply wp_splx. wp_steps. by apply (HQ k e).
Qed.

(** What the handler does with a translation it has found. *)
Lemma fault_found_spec va pa σ Q :
  flag_ok σ → zlen (tlb (vm σ)) = NUM_TLB → is_u32 pa → aligned pa →
  (∀ i e, tlb (vm σ) !z i = Some e → tlb_valid e = false →
     Q (Ret ()) (set_vm (set_tlb (<[Z.to_nat i := tlb_entry va pa]> (tlb (vm σ))) (vm σ)) σ)) →
  (Forall (λ e, tlb_valid e = true) (tlb (vm σ)) → Q (Fail EFAULT) σ) →
  wp (_ ← assert (Z.land pa PAGE_FRAME =? pa);
      vm_fault_load (seqZ 0 NUM_TLB) va pa (curspl σ)) Q
     (at_spl SPL_HIGH σ).
Proof.
  intros Hf Hlen Hu Ha HQ HF. wp_step. apply wp_assert.
  { rewrite page_aligned by done. by apply bool_decide_eq_true. }
  change NUM_TLB with (Z.of_nat 64). apply vm_fault_load_spec; [done|done|done| |].
  - intros i e _ He Hv.
    change (set_vm ?v (at_spl ?n (at_spl ?m σ))) with (at_spl n (at_spl m (set_vm v σ))).
    rewrite (at_spl_restore (set_vm _ σ)) by (by destruct Hf). by apply (HQ i e).
  - intros Hall. rewrite at_spl_restore by done.
    apply HF, Forall_lookup. intros i e He. apply (Hall (Z.of_nat i)); [lia|].
    change (vm (at_spl ?n σ)) with (vm σ). rewrite zlookup_nat, Nat2Z.id by lia. done.
Qed.

(** ** The fault handler: the frame it chooses *)

Lemma u32_region vbase pbase npages va :
  shape_ok vbase npages → frames_ok pbase npages →
  (if within vbase va (u32 (vbase + npages * PAGE_SIZE))
   then Some (u32 (va - vbase + pbase)) else None) = region vbase pbase npages va.
Proof.
  intros [] []. rewrite (u32_small (vbase + _)) by (vm_consts; lia). unfold region.
  destruct (within _ _ _) eqn:Hw; [|done]. unfold within in Hw. f_equal. apply u32_small.
  vm_consts. lia.
Qed.

Lemma stack_shape : shape_ok STACKBASE DUMBVM_STACKPAGES.
Proof. by split. Qed.

Lemma fault_frame_translate a va : as_ok a → fault_frame a va = as_translate a va.
Proof.
  intros [[] H1 H2 H3]. unfold fault_frame, as_translate.
  rewrite <- !u32_region by (done || apply stack_shape). fold STACKBASE.
  change (u32 (STACKBASE + DUMBVM_STACKPAGES * PAGE_SIZE)) with USERSTACK.
  by repeat match goal with |- context [within ?x ?y ?z] => destruct (within x y z) end.
Qed.

Lemma as_translate_frame a va pa :
  as_ok a → aligned va → as_translate a va = Some pa → is_u32 pa ∧ aligned pa.
Proof.
  intros [[[] []] [] [] []] Hva. unfold as_translate.
  assert (aligned STACKBASE) by done.
  destruct (region (as_vbase1 a) _ _ _) eqn:Hr1;
    [|destruct (region (as_vbase2 a) _ _ _) eqn:Hr2; [|intros Hr3]]; intros; simplify_eq;
    match goal with H : region _ _ _ _ = Some _ |- _ => apply region_Some in H as [? ->] end;
    (split; [vm_consts; lia|by apply aligned_add; [apply aligned_sub|]]).
Qed.

Lemma vm_fault_spec ft address σ t th p a Q :
  flag_ok σ → zlen (tlb (vm σ)) = NUM_TLB → is_u32 address →
  curthread σ = Some t → threads σ !! t = Some th → t_vmspace th = Some p →
  addrspaces (vm σ) !! p = Some a → as_ok a → ft ≠ VM_FAULT_READONLY →
  let va := Z.land address PAGE_FRAME in
  (∀ i e pa, as_translate a va = Some pa →
     tlb (vm σ) !z i = Some e → tlb_valid e = false →
     Q (Ret ()) (set_vm (set_tlb (<[Z.to_nat i := tlb_entry va pa]> (tlb (vm σ))) (vm σ)) σ)) →
  (ft = VM_FAULT_OTHER → Q (Fail EINVAL) σ) →
  (as_translate a va = None ∨ Forall (λ e, tlb_valid e = true) (tlb (vm σ)) → Q (Fail EFAULT) σ) →
  wp (vm_fault ft address) Q σ.
Proof.
  intros Hf Hlen Hu Hcur Hth Hvm Has Hok Hft va HQ HI HF.
  assert (aligned va) as Hva by (by apply aligned_page).
  unfold vm_fault. wp_step. apply wp_splhigh.
  destruct ft; [| |done|wp_step; apply wp_splx; wp_step; rewrite at_spl_restore by done; auto].
  all: unfold cur, get_thread, get_as; wp_steps; (eapply wp_deref; [done|]); wp_steps;
    (eapply wp_deref; [done|]); rewrite Hvm; wp_steps; (eapply wp_deref; [done|]); wp_step;
    (apply wp_assert; [by apply as_ok_checked|]); fold va; rewrite fault_frame_translate by done;
    (destruct (as_translate a va) as [pa|] eqn:Htr;
     [|wp_step; apply wp_splx; wp_step; rewrite at_spl_restore by done; auto]);
    destruct (as_translate_frame a va pa) as [??]; [done..|];
    (apply fault_found_spec; [done..| |auto]); eauto.
Qed.

(** ** Physical memory *)

Record mem_ok (s : vmstate) : Prop := {
  mo_pos : 0 < firstpaddr s;
  mo_aligned : aligned (firstpaddr s);
  mo_last : firstpaddr s ≤ lastpaddr s ≤ RAM_MAX;
}.

Lemma getppages_spec n σ Q :
  flag_ok σ → mem_ok (vm σ) → 0 ≤ n < 2 ^ 19 →
  (firstpaddr (vm σ) + n * PAGE_SIZE ≤ lastpaddr (vm σ) →
   Q (Ret (firstpaddr (vm σ)))
     (set_vm (set_firstpaddr (firstpaddr (vm σ) + n * PAGE_SIZE) (vm σ)) σ)) →
  (lastpaddr (vm σ) < firstpaddr (vm σ) + n * PAGE_SIZE → Q (Ret 0) σ) →
  wp (getppages n) Q σ.
Proof.
  intros Hf [] Hn HQ H0. unfold getppages. wp_step. apply wp_splhigh. wp_step.
  unfold zoom_vm, ram_stealmem. wp_steps. change (vm (at_spl _ σ)) with (vm σ).
  rewrite (u32_small (n * _)) by (vm_consts; lia). rewrite u32_small by (vm_consts; lia).
  rewrite Z.gtb_ltb. destruct (Z.ltb_spec (lastpaddr (vm σ)) (firstpaddr (vm σ) + n * PAGE_SIZE)).
  - wp_steps. apply wp_splx. wp_step. replace (set_vm _ _) with (at_spl SPL_HIGH σ) by (by destruct σ).
    rewrite at_spl_restore by done. auto.
  - wp_steps. apply wp_splx. wp_step.
    change (set_vm ?v (at_spl ?m σ)) with (at_spl m (set_vm v σ)).
    rewrite (at_spl_restore (set_vm _ σ)) by (by destruct Hf). auto.
Qed.

(** ** Loading and copying address spaces *)

Definition disjoint_from (lo n lo' n' : Z) : Prop := lo + n ≤ lo' ∨ lo' + n' ≤ lo.

Record frames_disjoint (a : addrspace) : Prop := {
  fd_12 : disjoint_from (as_pbase1 a) (as_npages1 a * PAGE_SIZE) (as_pbase2 a) (as_npages2 a * PAGE_SIZE);
  fd_13 : disjoint_from (as_pbase1 a) (as_npages1 a * PAGE_SIZE)
            (as_stackpbase a) (DUMBVM_STACKPAGES * PAGE_SIZE);
  fd_23 : disjoint_from (as_pbase2 a) (as_npages2 a * PAGE_SIZE)
            (as_stackpbase a) (DUMBVM_STACKPAGES * PAGE_SIZE);
}.

(** Each loaded address space has frames of its own, in the memory that has
    been handed out. *)
Record vm_wf (s : vmstate) : Prop := {
  vw_tlb : zlen (tlb s) = NUM_TLB;
  vw_mem : mem_ok s;
  vw_below : ∀ p a pa, addrspaces s !! p = Some a → as_ok a → owns a pa → pa < firstpaddr s;
  vw_inner : ∀ p a, addrspaces s !! p = Some a → as_ok a → frames_disjoint a;
  vw_apart : ∀ p p' a a' pa, addrspaces s !! p = Some a → addrspaces s !! p' = Some a' →
    p ≠ p' → as_ok a → as_ok a' → owns a pa → ¬ owns a' pa;
}.

Definition fresh_frames (base : Z) (a : addrspace) : addrspace :=
  as_set_frames base (base + as_npages1 a * PAGE_SIZE)
    (base + as_npages1 a * PAGE_SIZE + as_npages2 a * PAGE_SIZE) a.

Definition as_pages (a : addrspace) : Z := as_npages1 a + as_npages2 a + DUMBVM_STACKPAGES.

Definition unloaded (a : addrspace) : Prop :=
  as_pbase1 a = 0 ∧ as_pbase2 a = 0 ∧ as_stackpbase a = 0.

Lemma shape_pages v n : shape_ok v n → 0 ≤ n < 2 ^ 19.
Proof. intros []. vm_consts. lia. Qed.

(** The state of memory after a call: frames taken, one address space set. *)
Definition vm_with (p : addr) (a : addrspace) (first : Z) (s : vmstate) : vmstate :=
  set_addrspaces (<[p := a]> (addrspaces s)) (set_firstpaddr first s).

Lemma vm_with_with p a n a' n' s : vm_with p a' n' (vm_with p a n s) = vm_with p a' n' s.
Proof. unfold vm_with, set_addrspaces, set_firstpaddr; cbn. by rewrite insert_insert_eq. Qed.

Lemma wp_get_as p a σ Q : addrspaces (vm σ) !! p = Some a → Q (Ret a) σ → wp (get_as p) Q σ.
Proof. intros Ha HQ. unfold get_as. wp_steps. by eapply wp_deref. Qed.

Lemma flag_ok_vm v σ : flag_ok σ → flag_ok (set_vm v σ).
Proof. intros []. by split. Qed.

Lemma assign_frames_spec p n field σ Q :
  flag_ok σ → mem_ok (vm σ) → 0 ≤ n < 2 ^ 19 →
  let first := firstpaddr (vm σ) in
  (first + n * PAGE_SIZE ≤ lastpaddr (vm σ) →
   Q (Ret first) (set_vm (vm_with p (field first) (first + n * PAGE_SIZE) (vm σ)) σ)) →
  (lastpaddr (vm σ) < first + n * PAGE_SIZE →
   Q (Ret 0) (set_vm (vm_with p (field 0) first (vm σ)) σ)) →
  wp (assign_frames p n field) Q σ.
Proof.
  intros Hf Hm Hn first HQ H0. unfold assign_frames, put_as, zoom_vm. wp_step.
  apply getppages_spec; [done..| |]; intros; wp_steps; [by apply HQ|].
  specialize (H0 H). unfold vm_with in H0.
  by replace (set_firstpaddr first (vm σ)) with (vm σ) in H0 by (by destruct (vm σ)).
Qed.

Lemma mem_ok_with p a first s :
  mem_ok s → aligned first → firstpaddr s ≤ first ≤ lastpaddr s → mem_ok (vm_with p a first s).
Proof. intros [] ??. split; cbn; [lia|done|lia]. Qed.

Ltac pages := unfold PAGE_SIZE, DUMBVM_STACKPAGES in *; lia.

(** Failing part way keeps the frames that were taken. *)
Lemma as_prepare_load_spec p a σ Q :
  flag_ok σ → mem_ok (vm σ) → addrspaces (vm σ) !! p = Some a → as_shape a → unloaded a →
  let first := firstpaddr (vm σ) in
  (first + as_pages a * PAGE_SIZE ≤ lastpaddr (vm σ) →
   Q (Ret ()) (set_vm (vm_with p (fresh_frames first a) (first + as_pages a * PAGE_SIZE) (vm σ)) σ)) →
  (∀ a' first', lastpaddr (vm σ) < first + as_pages a * PAGE_SIZE →
     first ≤ first' ≤ lastpaddr (vm σ) → aligned first' → as_stackpbase a' = 0 →
     Q (Fail ENOMEM) (set_vm (vm_with p a' first' (vm σ)) σ)) →
  wp (as_prepare_load p) Q σ.
Proof.
  intros Hf Hm Ha [H1 H2] (Hz1 & Hz2 & Hz3) first HQ HF.
  pose proof (shape_pages _ _ H1) as Hn1. pose proof (shape_pages _ _ H2) as Hn2.
  destruct (Hm) as [Hpos Hal Hlast]. unfold as_pages, DUMBVM_STACKPAGES in *. fold first in Hpos, Hal, Hlast.
  pose proof (aligned_add _ _ Hal (aligned_pages (as_npages1 a))) as Hal1.
  pose proof (aligned_add _ _ Hal1 (aligned_pages (as_npages2 a))) as Hal2.
  unfold as_prepare_load. wp_step. eapply wp_get_as; [done|].
  rewrite Hz1, Hz2, Hz3. do 3 (wp_step; apply wp_assert; [done|]). wp_step.
  apply assign_frames_spec; [done..| |]; fold first; intros Hr1;
    [rewrite (proj2 (Z.eqb_neq _ _)) by lia|apply HF; [pages..|done|done]].
  wp_step. apply assign_frames_spec;
    [by apply flag_ok_vm|apply mem_ok_with; [done..|pages]|done| |];
    cbn [vm set_vm firstpaddr lastpaddr vm_with set_addrspaces set_firstpaddr];
    change (set_vm ?v (set_vm ?w σ)) with (set_vm v σ); intros Hr2; rewrite vm_with_with;
    [rewrite (proj2 (Z.eqb_neq _ _)) by pages|apply HF; [pages..|done|done]].
  wp_step. apply assign_frames_spec;
    [by apply flag_ok_vm|apply mem_ok_with; [done..|pages]|done| |];
    cbn [vm set_vm firstpaddr lastpaddr vm_with set_addrspaces set_firstpaddr];
    change (set_vm ?v (set_vm ?w σ)) with (set_vm v σ); intros Hr3; rewrite vm_with_with;
    [rewrite (proj2 (Z.eqb_neq _ _)) by pages|apply HF; [pages..|done|done]].
  wp_step. unfold fresh_frames in HQ.
  replace (first + (as_npages1 a + as_npages2 a + 12) * PAGE_SIZE)
    with (first + as_npages1 a * PAGE_SIZE + as_npages2 a * PAGE_SIZE + 12 * PAGE_SIZE) in HQ by lia.
  by apply HQ.
Qed.

(** A loaded copy of the shape of an address space. *)
Lemma fresh_frames_ok first a :
  as_shape a → 0 < first → aligned first → first + as_pages a * PAGE_SIZE ≤ RAM_MAX →
  as_ok (fresh_frames first a).
Proof.
  intros [H1 H2] Hpos Hal Htop. destruct (H1), (H2). unfold as_pages, DUMBVM_STACKPAGES in *.
  pose proof (aligned_add _ _ Hal (aligned_pages (as_npages1 a))) as Hal1.
  pose proof (aligned_add _ _ Hal1 (aligned_pages (as_npages2 a))) as Hal2.
  split; [done|split; cbn; [pages|done|pages]..].
Qed.

Lemma fresh_frames_disjoint first a : as_shape a → frames_disjoint (fresh_frames first a).
Proof. intros [[] []]. split; cbn; unfold disjoint_from; pages. Qed.

Lemma fresh_frames_owns first a pa :
  as_shape a → owns (fresh_frames first a) pa →
  first ≤ pa < first + as_pages a * PAGE_SIZE.
Proof. intros [[] []]. unfold owns, as_pages, DUMBVM_STACKPAGES; cbn. pages. Qed.

Lemma vm_wf_fresh p a s :
  vm_wf s → as_shape a → firstpaddr s + as_pages a * PAGE_SIZE ≤ lastpaddr s →
  vm_wf (vm_with p (fresh_frames (firstpaddr s) a) (firstpaddr s + as_pages a * PAGE_SIZE) s).
Proof.
  intros [Htlb Hm Hbelow Hinner Hapart] Hsh Hroom.
  assert (0 ≤ as_pages a) by (destruct Hsh as [[] []]; unfold as_pages, DUMBVM_STACKPAGES; lia).
  assert (0 < PAGE_SIZE) by done. pose proof (aligned_add _ _ (mo_aligned _ Hm) (aligned_pages (as_pages a))).
  split; cbn [vm_with tlb addrspaces firstpaddr set_addrspaces set_firstpaddr]; [done| | | |].
  - apply mem_ok_with; [done..|nia].
  - intros p' a' pa [[_ <-]|[_ Ha']]%lookup_insert_Some Hok Ho.
    + apply fresh_frames_owns in Ho; [lia|done].
    + specialize (Hbelow p' a' pa Ha' Hok Ho). nia.
  - intros p' a' [[_ <-]|[_ Ha']]%lookup_insert_Some Hok; [by apply fresh_frames_disjoint|eauto].
  - intros p1 p2 a1 a2 pa [[<- <-]|[? Ha1]]%lookup_insert_Some [[? <-]|[? Ha2]]%lookup_insert_Some
      Hne Hok1 Hok2 Ho1 Ho2; [done| | |by eapply (Hapart p1 p2)].
    + apply fresh_frames_owns in Ho1; [|done]. specialize (Hbelow _ _ _ Ha2 Hok2 Ho2). lia.
    + apply fresh_frames_owns in Ho2; [|done]. specialize (Hbelow _ _ _ Ha1 Hok1 Ho1). lia.
Qed.

(** An address space that is not loaded holds no frames. *)
Lemma vm_wf_unloaded p a first s :
  vm_wf s → as_stackpbase a = 0 → firstpaddr s ≤ first ≤ lastpaddr s → aligned first →
  vm_wf (vm_with p a first s).
Proof.
  intros [Htlb Hm Hbelow Hinner Hapart] Hz Hfirst Hal.
  assert (¬ as_ok a) as Hno by (intros [_ _ _ []]; lia).
  split; cbn [vm_with tlb addrspaces firstpaddr set_addrspaces set_firstpaddr]; [done| | | |].
  - by apply mem_ok_with.
  - intros p' a' pa [[_ <-]|[_ Ha']]%lookup_insert_Some Hok Ho; [done|].
    specialize (Hbelow p' a' pa Ha' Hok Ho). lia.
  - intros p' a' [[_ <-]|[_ Ha']]%lookup_insert_Some Hok; [done|eauto].
  - intros p1 p2 a1 a2 pa [[_ <-]|[? Ha1]]%lookup_insert_Some [[? <-]|[? Ha2]]%lookup_insert_Some
      Hne Hok1 Hok2; [done..|by apply (Hapart p1 p2)].
Qed.

(** ** Copying an address space *)

Definition moved (dst src n : Z) (r : Z → Z) : Z → Z :=
  λ p, if within dst p (dst + n) then r (src + (p - dst)) else r p.

Lemma moved_in dst src n r p : dst ≤ p < dst + n → moved dst src n r p = r (src + (p - dst)).
Proof.
  intros. unfold moved, within. by rewrite (proj2 (Z.leb_le _ _)), (proj2 (Z.ltb_lt _ _)) by lia.
Qed.
Lemma moved_out dst src n r p : ¬ (dst ≤ p < dst + n) → moved dst src n r p = r p.
Proof.
  intros. unfold moved, within. destruct (Z.leb_spec dst p), (Z.ltb_spec p (dst + n)); simpl; [lia|done..].
Qed.

Lemma wp_ram_move dst src n σ Q :
  Q (Ret ()) (set_vm (set_ram (moved dst src n (ram (vm σ))) (vm σ)) σ) → wp (ram_move dst src n) Q σ.
Proof. intros. unfold ram_move, zoom_vm. by wp_steps. Qed.

(** The three moves, into frames above all those of [o]. *)
Definition copied_ram (first : Z) (o : addrspace) (r : Z → Z) : Z → Z :=
  let n := fresh_frames first o in
  moved (as_stackpbase n) (as_stackpbase o) (DUMBVM_STACKPAGES * PAGE_SIZE)
    (moved (as_pbase2 n) (as_pbase2 o) (as_npages2 o * PAGE_SIZE)
       (moved (as_pbase1 n) (as_pbase1 o) (as_npages1 o * PAGE_SIZE) r)).

Ltac cbn_as := cbn [fresh_frames as_set_frames as_vbase1 as_vbase2 as_npages1 as_npages2
  as_pbase1 as_pbase2 as_stackpbase].

Lemma copied_ram_below first o r pa : as_shape o → pa < first → copied_ram first o r pa = r pa.
Proof.
  intros [[] []] ?. unfold copied_ram. cbn_as. rewrite !moved_out by pages. done.
Qed.

Lemma region_moved vbase pbase pbase' npages va pa :
  region vbase pbase npages va = Some pa → region vbase pbase' npages va = Some (pa - pbase + pbase').
Proof. intros [? ->]%region_Some. apply region_Some. lia. Qed.

Lemma copied_ram_reads first o r va pa :
  as_ok o → (∀ pa, owns o pa → pa < first) → as_translate o va = Some pa →
  ∃ pa', as_translate (fresh_frames first o) va = Some pa' ∧ copied_ram first o r pa' = r pa.
Proof.
  intros [[[] []] _ _ _] Hbelow Htr. specialize (Hbelow pa (as_translate_owns _ _ _ Htr)).
  unfold as_translate, copied_ram in *; cbn_as.
  destruct (region (as_vbase1 o) (as_pbase1 o) _ va) as [x|] eqn:H1; simplify_eq.
  { erewrite region_moved by done. eexists; split; [done|]. apply region_Some in H1 as [? ->].
    rewrite moved_out, moved_out, moved_in by pages. f_equal. lia. }
  rewrite (proj2 (region_None _ _ _ va)) by (by eapply region_None).
  destruct (region (as_vbase2 o) (as_pbase2 o) _ va) as [x|] eqn:H2; simplify_eq.
  { erewrite region_moved by done. eexists; split; [done|]. apply region_Some in H2 as [? ->].
    rewrite moved_out, moved_in, moved_out by pages. f_equal. lia. }
  rewrite (proj2 (region_None _ _ _ va)) by (by eapply region_None).
  erewrite region_moved by done. eexists; split; [done|]. apply region_Some in Htr as [? ->].
  rewrite moved_in, moved_out, moved_out by pages. f_equal. lia.
Qed.

(** What [as_copy] gives: the same addresses are mapped, to frames that hold
    the same bytes; the original keeps its frames and their contents. *)
Record copied (o n : addrspace) (s s' : vmstate) : Prop := {
  cp_maps : ∀ va pa, as_translate o va = Some pa →
    ∃ pa', as_translate n va = Some pa' ∧ ram s' pa' = ram s pa;
  cp_none : ∀ va, as_translate o va = None → as_translate n va = None;
  cp_old : ∀ pa, pa < firstpaddr s → ram s' pa = ram s pa;
}.

Lemma fresh_frames_None first o va :
  as_translate o va = None → as_translate (fresh_frames first o) va = None.
Proof.
  unfold as_translate; cbn_as. intros H.
  destruct (region _ _ _ va) eqn:H1 in H; [done|]. destruct (region _ _ _ va) eqn:H2 in H; [done|].
  by rewrite !(proj2 (region_None _ _ _ va)) by (by eapply region_None).
Qed.

Lemma vm_wf_delete p s : vm_wf s → vm_wf (set_addrspaces (delete p (addrspaces s)) s).
Proof.
  intros [? [] Hbelow Hinner Hapart]. split; [done|done| | |]; cbn.
  - intros p' a pa [_ ?]%lookup_delete_Some. eauto.
  - intros p' a [_ ?]%lookup_delete_Some. eauto.
  - intros p1 p2 a a' pa [_ ?]%lookup_delete_Some [_ ?]%lookup_delete_Some. eauto.
Qed.

Definition unloaded_copy (o : addrspace) : addrspace := as_set_frames 0 0 0 o.

(** From the new, empty address space on. *)
Lemma as_copy_load_spec new o σ Q :
  flag_ok σ → vm_wf (vm σ) → addrspaces (vm σ) !! new = Some (unloaded_copy o) → as_ok o →
  (∀ pa, owns o pa → pa < firstpaddr (vm σ)) →
  (∀ n σ', addrspaces (vm σ') = <[new := n]> (addrspaces (vm σ)) → as_ok n → vm_wf (vm σ') →
     copied o n (vm σ) (vm σ') → Q (Ret new) σ') →
  (∀ σ', addrspaces (vm σ') = delete new (addrspaces (vm σ)) → ram (vm σ') = ram (vm σ) →
     vm_wf (vm σ') → Q (Fail ENOMEM) σ') →
  wp (r ← attempt (as_prepare_load new);
      match r with
      | inr _ => _ ← as_destroy new; fail ENOMEM
      | inl _ =>
          n ← get_as new;
          _ ← assert (negb (as_pbase1 n =? 0));
          _ ← assert (negb (as_pbase2 n =? 0));
          _ ← assert (negb (as_stackpbase n =? 0));
          _ ← ram_move (as_pbase1 n) (as_pbase1 o) (u32 (as_npages1 o * PAGE_SIZE));
          _ ← ram_move (as_pbase2 n) (as_pbase2 o) (u32 (as_npages2 o * PAGE_SIZE));
          _ ← ram_move (as_stackpbase n) (as_stackpbase o) (DUMBVM_STACKPAGES * PAGE_SIZE);
          mret new
      end) Q σ.
Proof.
  intros Hf Hwf Hnew Hok Hbelow HQ HF. destruct (Hok) as [Hsh _ _ _].
  destruct (vw_mem _ Hwf) as [Hpos Hal Hlast].
  assert (as_pages (unloaded_copy o) = as_pages o) as Hpg by done.
  wp_step. wp_step.
  apply (as_prepare_load_spec _ _ _ _ Hf (vw_mem _ Hwf) Hnew); [by destruct Hsh|done| |]; rewrite Hpg.
  - intros Hroom. change (fresh_frames ?f (unloaded_copy o)) with (fresh_frames f o).
    set (first := firstpaddr (vm σ)) in *. set (n := fresh_frames first o).
    pose proof (vm_wf_fresh new o _ Hwf Hsh Hroom) as Hwf'. fold first n in Hwf'.
    assert (as_ok n) as Hn by (apply fresh_frames_ok; [done..|lia]).
    destruct (Hn) as [[[] []] [] [] []].
    wp_step. eapply wp_get_as; [apply lookup_insert_eq|]. rewrite !u32_small by (vm_consts; cbn in *; lia).
    do 3 (wp_step; apply wp_assert; [lia|]). do 3 (wp_step; apply wp_ram_move). wp_step.
    apply (HQ n); [done|done| |].
    + destruct Hwf' as [? [] ? ? ?]. by split.
    + split.
      * intros va pa Htr. by apply copied_ram_reads.
      * intros va. apply fresh_frames_None.
      * intros pa Hpa. by apply copied_ram_below.
  - intros a' first' _ Hfirst Hal' Hz. wp_step. unfold as_destroy, zoom_vm. wp_steps.
    apply HF; cbn; [by rewrite delete_insert_eq|done|].
    apply (vm_wf_delete new (vm_with new a' first' (vm σ))). by apply vm_wf_unloaded.
Qed.

Lemma as_copy_spec old o σ Q :
  flag_ok σ → vm_wf (vm σ) → addrspaces (vm σ) !! old = Some o → as_ok o →
  (∀ new l, allocs σ = Some new :: l → addrspaces (vm σ) !! new = None) →
  (∀ new n σ', addrspaces (vm σ) !! new = None →
     addrspaces (vm σ') = <[new := n]> (addrspaces (vm σ)) → as_ok n → vm_wf (vm σ') →
     copied o n (vm σ) (vm σ') → Q (Ret new) σ') →
  (∀ σ', addrspaces (vm σ') = addrspaces (vm σ) → ram (vm σ') = ram (vm σ) →
     vm_wf (vm σ') → Q (Fail ENOMEM) σ') →
  wp (as_copy old) Q σ.
Proof.
  intros Hf Hwf Ho Hok Hfresh HQ HF. unfold as_copy, as_create, kmalloc. wp_steps.
  destruct (allocs σ) as [|[new|] l] eqn:Hal; wp_steps; [by apply HF| |by apply HF].
  specialize (Hfresh new l eq_refl). unfold put_as at 1, zoom_vm. wp_steps.
  assert (old ≠ new) as Hne by congruence.
  eapply wp_get_as; [cbn; by rewrite lookup_insert_ne|]. wp_step.
  unfold put_as at 1, zoom_vm. do 2 wp_step.
  pose proof (vm_wf_unloaded new (unloaded_copy o) (firstpaddr (vm σ)) _ Hwf eq_refl) as Hwf1.
  apply (as_copy_load_spec new o); cbn -[fresh_frames]; rewrite ?insert_insert_eq.
  - by destruct Hf.
  - unfold vm_with in Hwf1. destruct (vw_mem _ Hwf) as [? ? ?]. destruct Hwf1 as [? [] ? ? ?]; [lia|done|].
    cbn in *. split; cbn; rewrite ?insert_insert_eq; done.
  - apply lookup_insert_eq.
  - done.
  - intros pa Hpa. by apply (vw_below _ Hwf old o).
  - intros n σ' Has Hn Hwf' []. apply (HQ new n); [done| |done|done|by split].
    by rewrite Has, insert_insert_eq.
  - intros σ' Has Hram Hwf'. apply HF; [|done|done]. rewrite Has. by rewrite delete_insert_id.
Qed.

(** ** The TLB *)

(** Every valid entry agrees with the address space. *)
Definition tlb_ok (a : addrspace) (s : vmstate) : Prop :=
  ∀ e, e ∈ tlb s → tlb_valid e = true → aligned e.1 ∧ as_translate a e.1 = Some (Z.land e.2 PAGE_FRAME).

Lemma tlb_ok_insert a s i va pa :
  tlb_ok a s → as_ok a → aligned va → as_translate a va = Some pa →
  tlb_ok a (set_tlb (<[i := tlb_entry va pa]> (tlb s)) s).
Proof.
  intros Hok Ha Hva Htr e [j [[-> [<- Hj]]|[? Hj]]%list_lookup_insert_Some]%list_elem_of_lookup Hv.
  - destruct (as_translate_frame a va pa Ha Hva Htr) as [??].
    by rewrite tlb_entry_frame.
  - apply Hok; [by eapply list_elem_of_lookup_2|done].
Qed.

(** An address space maps a page to a whole frame. *)
Lemma as_translate_page a va pa off :
  as_ok a → aligned va → 0 ≤ off < PAGE_SIZE →
  as_translate a va = Some pa → owns a (pa + off).
Proof.
  intros [[[] []] [] [] []] Hva Hoff Htr. unfold as_translate, owns, aligned in *.
  assert (STACKBASE mod PAGE_SIZE = 0) by done.
  destruct (region _ _ _ va) eqn:H1 in Htr; simplify_eq; [|destruct (region _ _ _ va) eqn:H2 in Htr; simplify_eq];
    match goal with H : region _ _ _ _ = Some _ |- _ => apply region_Some in H as [? ->] end;
    unfold PAGE_SIZE in *; [left|right; left|right; right]; Z.div_mod_to_equations; lia.
Qed.

Lemma as_activate_spec σ Q :
  flag_ok σ → zlen (tlb (vm σ)) = NUM_TLB →
  (∀ l, zlen l = NUM_TLB → Forall (λ e, tlb_valid e = false) l →
     Q (Ret ()) (set_vm (set_tlb l (vm σ)) σ)) →
  wp as_activate Q σ.
Proof.
  intros Hf Hlen HQ. unfold as_activate. wp_step. apply wp_splhigh. wp_step.
  apply wp_forM with (I := λ i σ', ∃ l, σ' = set_vm (set_tlb l (vm σ)) (at_spl SPL_HIGH σ) ∧
    zlen l = NUM_TLB ∧ ∀ j e, (j < i)%nat → l !! j = Some e → tlb_valid e = false).
  - exists (tlb (vm σ)). split_and!; [by destruct σ as [? ? ? ? ? ? ? ? ? ? ? ? ? ? ? [] ? ?]|done|lia].
  - intros i x σ' [-> Hi]%lookup_seqZ (l & -> & Hl & Hinv). unfold zoom_vm, TLB_Write. wp_steps.
    eapply wp_deref; [apply zstore_in; cbn; lia|]. wp_steps. eexists. split_and!; [done| |].
    + by rewrite zlen_insert.
    + intros j e Hj [[_ [<- _]]|[Hne He]]%list_lookup_insert_Some; [done|].
      apply (Hinv j e); [|done]. rewrite Z.add_0_l, Nat2Z.id in Hne. lia.
  - intros σ' (l & -> & Hl & Hinv). wp_step. apply wp_splx. wp_step.
    change (set_vm ?v (at_spl ?m σ)) with (at_spl m (set_vm v σ)).
    rewrite (at_spl_restore (set_vm _ σ)) by (by destruct Hf). apply HQ; [done|].
    apply Forall_lookup. intros j e Hj. apply (Hinv j e); [|done].
    rewrite length_seqZ. apply lookup_lt_Some in Hj. unfold zlen, NUM_TLB in *. lia.
Qed.

(** A run of a thread in user mode: the address space is activated when the
    thread is switched to, then it faults on a sequence of addresses. *)
Fixpoint fault_run (faults : list (faulttype * Z)) : M kstate unit :=
  match faults with
  | [] => mret ()
  | (ft, va) :: l => _ ← attempt (vm_fault ft va); fault_run l
  end.

Section user_run.
Context (t p : addr) (th : thread) (a : addrspace).

(** [σ] with another TLB. *)
Definition tlb_step (σ σ' : kstate) : Prop :=
  ∃ l, σ' = set_vm (set_tlb l (vm σ)) σ ∧ zlen l = NUM_TLB.

Record in_user (σ : kstate) : Prop := {
  iu_flag : flag_ok σ;
  iu_tlb : zlen (tlb (vm σ)) = NUM_TLB;
  iu_cur : curthread σ = Some t;
  iu_thread : threads σ !! t = Some th;
  iu_vmspace : t_vmspace th = Some p;
  iu_as : addrspaces (vm σ) !! p = Some a;
  iu_ok : as_ok a;
}.

Lemma in_user_step σ σ' : in_user σ → tlb_step σ σ' → in_user σ'.
Proof. intros [[] ? ? ? ? ? ?] (l & -> & Hl). by split. Qed.

Lemma tlb_step_trans σ σ' σ'' : tlb_step σ σ' → tlb_step σ' σ'' → tlb_step σ σ''.
Proof. intros (l & -> & ?) (l' & -> & ?). by exists l'. Qed.

Lemma fault_run_spec faults σ Q :
  in_user σ → tlb_ok a (vm σ) →
  Forall (λ f, f.1 ≠ VM_FAULT_READONLY ∧ is_u32 f.2) faults →
  (∀ σ', tlb_step σ σ' → tlb_ok a (vm σ') → Q (Ret ()) σ') →
  wp (fault_run faults) Q σ.
Proof.
  revert σ. induction faults as [|[ft va] faults IH]; intros σ Hu Hok Hfs HQ; cbn [fault_run].
  { wp_step. apply HQ; [|done]. exists (tlb (vm σ)). destruct Hu. split; [|done].
    by destruct σ as [? ? ? ? ? ? ? ? ? ? ? ? ? ? ? [] ? ?]. }
  apply Forall_cons in Hfs as [[Hft Hva] Hfs]. destruct (Hu). do 2 wp_step.
  eapply vm_fault_spec; [done..| | |].
  - intros i e pa Htr He Hv.
    assert (zlen (<[Z.to_nat i:=tlb_entry (Z.land va PAGE_FRAME) pa]> (tlb (vm σ))) = NUM_TLB) as Hl
      by (by rewrite zlen_insert).
    apply IH; [|apply tlb_ok_insert; auto using aligned_page|done|].
    + eapply in_user_step; [done|]. by eexists.
    + intros σ' Hst ?. apply HQ; [|done]. eapply tlb_step_trans; [|done]. by eexists.
  - intros _. by apply IH.
  - intros _. by apply IH.
Qed.
End user_run.

(** C4: memory isolation.  When a thread has been switched to, its address
    space activated, and it has then faulted on any sequence of addresses, every
    byte that the TLB lets it reach belongs to its own address space, and to no
    other address space of the system. *)
Theorem user_memory_isolated t p th a σ faults :
  vm_wf (vm σ) → in_user t p th a σ →
  Forall (λ f, f.1 ≠ VM_FAULT_READONLY ∧ is_u32 f.2) faults →
  match (_ ← as_activate; fault_run faults) σ with
  | (Ret _, σ') => ∀ e off, e ∈ tlb (vm σ') → tlb_valid e = true → 0 ≤ off < PAGE_SIZE →
      as_translate a e.1 = Some (Z.land e.2 PAGE_FRAME) ∧
      owns a (Z.land e.2 PAGE_FRAME + off) ∧
      ∀ p' a', addrspaces (vm σ') !! p' = Some a' → p' ≠ p → as_ok a' →
        ¬ owns a' (Z.land e.2 PAGE_FRAME + off)
  | _ => False
  end.
Proof.
  intros Hwf Hu Hfs. apply (wp_elim _ (λ r σ', match r with Ret _ => _ | _ => False end)).
  destruct (Hu). wp_step. apply as_activate_spec; [done..|]. intros l Hl Hinv.
  eapply fault_run_spec; [eapply in_user_step; [done|by eexists]| |done|].
  { intros e He Hv. eapply Forall_forall in Hinv; [|exact He]. cbn in Hinv. congruence. }
  intros σ' (l' & -> & _) Hok e off He Hv Hoff. destruct (Hok e He Hv) as [Hal Htr].
  pose proof (as_translate_page a _ _ off iu_ok0 Hal Hoff Htr). split_and!; [done..|].
  intros p' a' Hp' Hne Ha' Ho. by eapply (vw_apart _ Hwf p p').
Qed.

(** [vm_fault] is correct: it installs the translation of the page in an
    entry of the TLB that was not valid, changing nothing else; it fails with
    EINVAL for a bad fault type, and with EFAULT exactly when the address space
    does not map the page or no entry of the TLB is free, and then nothing has
    changed, the priority level included. *)
Theorem vm_fault_correct ft address t p th a σ :
  in_user t p th a σ → is_u32 address → ft ≠ VM_FAULT_READONLY →
  let va := Z.land address PAGE_FRAME in
  match vm_fault ft address σ with
  | (Ret _, σ') => ∃ i e pa, tlb (vm σ) !z i = Some e ∧ tlb_valid e = false ∧
      as_translate a va = Some pa ∧
      σ' = set_vm (set_tlb (<[Z.to_nat i := tlb_entry va pa]> (tlb (vm σ))) (vm σ)) σ
  | (Fail e, σ') => σ' = σ ∧
      (e = EINVAL ∧ ft = VM_FAULT_OTHER ∨
       e = EFAULT ∧ (as_translate a va = None ∨ Forall (λ e, tlb_valid e = true) (tlb (vm σ))))
  | (Halt _, _) => False
  end.
Proof.
  intros [] Hu Hft va. eapply (wp_elim _ (λ r σ', match r with Ret _ => _ | Fail _ => _ | _ => False end)).
  eapply vm_fault_spec; [done..| | |]; eauto 10.
Qed.

(** C20: [as_copy] gives the child an address space that maps the same addresses
    to frames of its own with the same contents, and leaves the parent's memory
    as it was; when memory runs out it fails with ENOMEM and no address space has
    been added. *)
Theorem as_copy_correct old o σ :
  flag_ok σ → vm_wf (vm σ) → addrspaces (vm σ) !! old = Some o → as_ok o →
  (∀ new l, allocs σ = Some new :: l → addrspaces (vm σ) !! new = None) →
  match as_copy old σ with
  | (Ret new, σ') => addrspaces (vm σ) !! new = None ∧
      ∃ n, addrspaces (vm σ') = <[new := n]> (addrspaces (vm σ)) ∧ as_ok n ∧
           vm_wf (vm σ') ∧ copied o n (vm σ) (vm σ')
  | (Fail e, σ') => e = ENOMEM ∧ addrspaces (vm σ') = addrspaces (vm σ) ∧
      ram (vm σ') = ram (vm σ) ∧ vm_wf (vm σ')
  | (Halt _, _) => False
  end.
Proof.
  intros. eapply (wp_elim _ (λ r σ', match r with Ret _ => _ | Fail _ => _ | _ => False end)).
  eapply as_copy_spec; eauto 10.
Qed.

(** A fault of a thread with no address space returns with interrupts off. *)
Theorem vm_fault_leaves_interrupts_off address t th σ :
  curthread σ = Some t → threads σ !! t = Some th → t_vmspace th = None →
  vm_fault VM_FAULT_READ address σ = (Fail EFAULT, at_spl SPL_HIGH σ).
Proof.
  intros Hcur Hth Hvm. apply wp_eq_intro. unfold vm_fault, cur, get_thread. wp_step.
  apply wp_splhigh. wp_steps. eapply wp_deref; [done|]. wp_steps. eapply wp_deref; [done|].
  rewrite Hvm. by wp_step.
Qed.

(** ** Examples: two processes of two regions each *)

Definition example_as (vbase pbase : Z) : addrspace :=
  {| as_vbase1 := vbase; as_pbase1 := pbase; as_npages1 := 2;
     as_vbase2 := vbase + 0x10000; as_pbase2 := pbase + 0x2000; as_npages2 := 1;
     as_stackpbase := pbase + 0x3000 |}.
Definition example_as1 : addrspace := example_as 0x400000 0x20000.
Definition example_as2 : addrspace := example_as 0x400000 0x30000.
Definition user_thread : thread := with_vmspace (Some 100) boot_thread.
Definition user_state : kstate :=
  set_allocs [Some 300] (set_threads {[1 := user_thread]}
    (set_vm {| tlb := replicate 64 (0, 0);
               addrspaces := <[100 := example_as1]> {[200 := example_as2]};
               firstpaddr := 0x40000; lastpaddr := 0x400000; ram := λ p, p mod 256 |} boot_state)).

Lemma example_as_ok vbase pbase :
  0 < vbase ≤ 0x10000000 → 0 < pbase ≤ 0x1000000 → aligned vbase → aligned pbase →
  as_ok (example_as vbase pbase).
Proof.
  intros Hv Hp Hav Hap.
  assert (∀ x, aligned x → ∀ k, aligned (x + k * PAGE_SIZE)) as Hadd
    by (intros; apply aligned_add; auto using aligned_pages).
  split; [split|..]; split; cbn; first
    [pages|done|apply (Hadd vbase Hav 16)|apply (Hadd pbase Hap 2)|apply (Hadd pbase Hap 3)
    |vm_consts; lia].
Qed.

Lemma user_vm_wf : vm_wf (vm user_state).
Proof.
  split; [done|by split| | |]; cbn -[lookup insert singletonM owns].
  - intros p a pa [[_ <-]|[_ [_ <-]%lookup_singleton_Some]]%lookup_insert_Some _;
      unfold owns; cbn; unfold PAGE_SIZE, DUMBVM_STACKPAGES; lia.
  - intros p a [[_ <-]|[_ [_ <-]%lookup_singleton_Some]]%lookup_insert_Some _;
      split; unfold disjoint_from; cbn; unfold PAGE_SIZE, DUMBVM_STACKPAGES; lia.
  - intros p p' a a' pa [[<- <-]|[_ [<- <-]%lookup_singleton_Some]]%lookup_insert_Some
      [[<- <-]|[_ [<- <-]%lookup_singleton_Some]]%lookup_insert_Some Hne _ _; try done;
      unfold owns; cbn; unfold PAGE_SIZE, DUMBVM_STACKPAGES; lia.
Qed.

Lemma user_in_user : in_user 1 100 user_thread example_as1 user_state.
Proof. split; [by split|done..|]. by apply example_as_ok. Qed.

Lemma user_memory_isolated_witness :
  match (_ ← as_activate; fault_run [(VM_FAULT_READ, 0x400123); (VM_FAULT_WRITE, 0x7fffff00);
                                     (VM_FAULT_READ, 0)]) user_state with
  | (Ret _, σ') => ∀ e off, e ∈ tlb (vm σ') → tlb_valid e = true → 0 ≤ off < PAGE_SIZE →
      as_translate example_as1 e.1 = Some (Z.land e.2 PAGE_FRAME) ∧
      owns example_as1 (Z.land e.2 PAGE_FRAME + off) ∧
      ∀ p' a', addrspaces (vm σ') !! p' = Some a' → p' ≠ 100 → as_ok a' →
        ¬ owns a' (Z.land e.2 PAGE_FRAME + off)
  | _ => False
  end.
Proof.
  apply (user_memory_isolated 1 100 user_thread);
    [apply user_vm_wf|apply user_in_user|repeat constructor; done].
Defined.

Lemma vm_fault_correct_witness :
  ∃ σ', vm_fault VM_FAULT_READ 0x401abc user_state = (Ret (), σ') ∧
        ∃ i e pa, tlb (vm user_state) !z i = Some e ∧ tlb_valid e = false ∧
          as_translate example_as1 0x401000 = Some pa ∧
          σ' = set_vm (set_tlb (<[Z.to_nat i := tlb_entry 0x401000 pa]> (tlb (vm user_state)))
                        (vm user_state)) user_state.
Proof.
  pose proof (vm_fault_correct VM_FAULT_READ 0x401abc 1 100 user_thread example_as1 user_state
    user_in_user) as H.
  destruct (vm_fault _ _ _) as [r σ'] eqn:E in H. exists σ'.
  assert (r = Ret ()) as -> by (apply (f_equal fst) in E; vm_compute in E; congruence).
  split; [done|]. by apply H.
Defined.

Lemma as_copy_correct_witness :
  match as_copy 100 user_state with
  | (Ret new, σ') => addrspaces (vm user_state) !! new = None ∧
      ∃ n, addrspaces (vm σ') = <[new := n]> (addrspaces (vm user_state)) ∧ as_ok n ∧
           vm_wf (vm σ') ∧ copied example_as1 n (vm user_state) (vm σ')
  | (Fail e, σ') => e = ENOMEM ∧ addrspaces (vm σ') = addrspaces (vm user_state) ∧
      ram (vm σ') = ram (vm user_state) ∧ vm_wf (vm σ')
  | (Halt _, _) => False
  end.
Proof.
  apply as_copy_correct; [by split|apply user_vm_wf|done|by apply example_as_ok|].
  intros new l [= <- <-]. done.
Defined.

Lemma vm_fault_leaves_interrupts_off_witness :
  vm_fault VM_FAULT_READ 0 boot_state = (Fail EFAULT, at_spl SPL_HIGH boot_state).
Proof. by apply (vm_fault_leaves_interrupts_off 0 1 boot_thread). Defined.
