(* ===== verification/Trap.v ===== *)
(** * Exceptions and system calls (kern/arch/mips/mips/trap.c, syscall.c, interrupt.c)

    [mips_trap] gets the frame in which exception.S saved the registers, decides
    what happened, and returns, after which the registers are loaded from the
    frame again: the frame is the state here, beside the kernel.  The page faults
    go to [vm_fault] (Dumbvm.v).  The functions of the system calls are behind
    the interface [Syscalls]; [sys_getpid] is here.  The path of an interrupt
    through the scheduler is in Synch.v. *)

From S2P Require Import Prelude Array Queue Machine Dumbvm.

(** ** The frame *)

(** [tf_rest] are the registers that neither file mentions. *)
Record trapframe := {
  tf_vaddr : Z; tf_status : Z; tf_cause : Z; tf_v0 : Z;
  tf_a0 : Z; tf_a1 : Z; tf_a2 : Z; tf_a3 : Z; tf_sp : Z; tf_epc : Z; tf_rest : list Z;
}.

Definition set_epc (v : Z) (tf : trapframe) : trapframe :=
  {| tf_vaddr := tf_vaddr tf; tf_status := tf_status tf; tf_cause := tf_cause tf; tf_v0 := tf_v0 tf;
     tf_a0 := tf_a0 tf; tf_a1 := tf_a1 tf; tf_a2 := tf_a2 tf; tf_a3 := tf_a3 tf; tf_sp := tf_sp tf;
     tf_epc := v; tf_rest := tf_rest tf |}.
(** The results of a system call: [v0], [a3]. *)
Definition set_result (v0 a3 : Z) (tf : trapframe) : trapframe :=
  {| tf_vaddr := tf_vaddr tf; tf_status := tf_status tf; tf_cause := tf_cause tf; tf_v0 := v0;
     tf_a0 := tf_a0 tf; tf_a1 := tf_a1 tf; tf_a2 := tf_a2 tf; tf_a3 := a3; tf_sp := tf_sp tf;
     tf_epc := tf_epc tf; tf_rest := tf_rest tf |}.

Definition CST_IEp : Z := 0x4.
Definition CST_KUp : Z := 0x8.
Definition CST_IRQMASK : Z := 0xff00.
Definition CCA_CODE : Z := 0x3c.
Definition CCA_CODESHIFT : Z := 2.
Definition EX_IRQ : Z := 0.
Definition EX_MOD : Z := 1.
Definition EX_TLBL : Z := 2.
Definition EX_TLBS : Z := 3.
Definition EX_IBE : Z := 6.
Definition EX_DBE : Z := 7.
Definition EX_SYS : Z := 8.
Definition NTRAPCODES : Z := 13.
Definition LAMEBUS_IRQ_BIT : Z := 0x400.

Definition trap_code (tf : trapframe) : Z := Z.shiftr (Z.land (tf_cause tf) CCA_CODE) CCA_CODESHIFT.
Definition trap_iskern (tf : trapframe) : bool := Z.land (tf_status tf) CST_KUp =? 0.

Definition STACK_SIZE : Z := 4096.
Definition STACK_MASK : Z := 0xfffff000.
Definition SAME_STACK (p1 p2 : Z) : bool := Z.land p1 STACK_MASK =? Z.land p2 STACK_MASK.

(** ** System calls *)

(** The values of kern/errno.h for the codes a call can return. *)
Definition errcode (e : errno) : Z :=
  match e with
  | EINVAL => 1 | EFAULT => 2 | ENAMETOOLONG => 3 | ENOMEM => 4 | EIO => 5 | ENOENT => 6 | ENOTDIR => 7
  | EISDIR => 8 | EEXIST => 9 | EXDEV => 10 | EAGAIN => 11 | ESPIPE => 12 | EUNIMP => 13 | ENXIO => 14
  | ENODEV => 15 | EBUSY => 16 | EIOCTL => 17 | ENOTEMPTY => 18 | ERANGE => 19 | ENOSPC => 20
  | EMFILE => 21 | ENFILE => 22 | ENOSYS => 23 | ENOEXEC => 24 | E2BIG => 25 | EBADF => 26
  end.

Definition SYS__exit : Z := 0.
Definition SYS_execv : Z := 1.
Definition SYS_fork : Z := 2.
Definition SYS_waitpid : Z := 3.
Definition SYS_open : Z := 4.
Definition SYS_read : Z := 5.
Definition SYS_write : Z := 6.
Definition SYS_close : Z := 7.
Definition SYS_reboot : Z := 8.
Definition SYS_getpid : Z := 11.
Definition SYS_lseek : Z := 13.
Definition SYS_dup2 : Z := 26.

(** The functions of kern/include/syscall.h.  Each returns its [int]; those
    that get [&retval] return what they store there as well. *)
Class Syscalls := {
  sys_reboot : Z → M kstate Z;
  sys_fork : trapframe → M kstate (Z * Z);
  sys_execv : Z → Z → M kstate Z;
  sys_waitpid : Z → Z → M kstate (Z * Z);
  sys__exit : Z → M kstate unit;
  sys_open : Z → Z → M kstate Z;
  sys_read : Z → Z → Z → M kstate Z;
  sys_write : Z → Z → Z → M kstate Z;
  sys_lseek : Z → Z → Z → M kstate Z;
  sys_close : Z → M kstate Z;
  sys_dup2 : Z → Z → M kstate Z;
}.

Definition sys_getpid : M kstate (Z * Z) :=
  t ← cur; th ← get_thread t; mret (0, t_pid th).

Section trap.
Context `{Syscalls}.
(** The handlers of the devices, with all that may happen before they return. *)
Context (mips_lamebus_interrupt : M kstate unit).

(** [err = f(...)], with [retval] still 0. *)
Definition no_retval (call : M kstate Z) : M kstate (Z * Z) := err ← call; mret (err, 0).

(** The [switch] of [mips_syscall]: [err] and [retval]. *)
Definition syscall_switch (tf : trapframe) : M kstate (Z * Z) :=
  let callno := s32 (tf_v0 tf) in
  let '(a0, a1, a2) := (tf_a0 tf, tf_a1 tf, tf_a2 tf) in
  if callno =? SYS_reboot then no_retval (sys_reboot a0)
  else if callno =? SYS_getpid then sys_getpid
  else if callno =? SYS_fork then sys_fork tf
  else if callno =? SYS_execv then no_retval (sys_execv a0 a1)
  else if callno =? SYS_waitpid then sys_waitpid a0 a1
  else if callno =? SYS__exit then _ ← sys__exit a0; mret (0, 0)
  else if callno =? SYS_open then no_retval (sys_open a0 a1)
  else if callno =? SYS_read then no_retval (sys_read a0 a1 a2)
  else if callno =? SYS_write then no_retval (sys_write a0 a1 a2)
  else if callno =? SYS_lseek then no_retval (sys_lseek a0 a1 a2)
  else if callno =? SYS_close then no_retval (sys_close a0)
  else if callno =? SYS_dup2 then no_retval (sys_dup2 a0 a1)
  else mret (errcode ENOSYS, 0).

Definition spl_is_0 (σ : kstate) : bool := curspl σ =? 0.

Definition mips_syscall : M (kstate * trapframe) unit :=
  _ ← on_fst (assert_state spl_is_0);
  tf ← gets snd;
  r ← on_fst (syscall_switch tf);
  let '(err, retval) := r in
  _ ← on_snd (modify (λ tf, if negb (err =? 0) then set_result (u32 err) 1 tf
                             else set_result (u32 retval) 0 tf));
  _ ← on_snd (modify (λ tf, set_epc (u32 (tf_epc tf + 4)) tf));
  on_fst (assert_state spl_is_0).

(** ** Exceptions *)

Definition mips_interrupt (cause : Z) : M kstate unit :=
  old_in ← gets in_interrupt;
  _ ← modify (set_in_interrupt 1);
  _ ← assert_state (λ σ, 0 <? curspl σ);
  _ ← (if negb (Z.land cause LAMEBUS_IRQ_BIT =? 0) then mips_lamebus_interrupt else panic);
  modify (set_in_interrupt old_in).

(** It asserts that the code has a name and panics. *)
Definition kill_curthread : M (kstate * trapframe) unit := panic.

(** The check that the frame is on the stack of the thread, which ends at
    [pcb_kstack]; the first thread's [t_stack] is NULL. *)
Definition frame_on_stack (tfaddr : Z) : M kstate unit :=
  c ← gets curthread;
  match c with
  | None => mret ()
  | Some t =>
      th ← get_thread t;
      match t_stack th with
      | None => mret ()
      | Some _ =>
          _ ← assert (pcb_kstack (t_pcb th) - STACK_SIZE <? tfaddr);
          assert (tfaddr <? pcb_kstack (t_pcb th))
      end
  end.

(** The [vm_fault] of a code: whether it returned 0. *)
Definition trap_vm_fault (tf : trapframe) : M kstate bool :=
  let try ft := r ← attempt (vm_fault ft (tf_vaddr tf));
                mret (match r with inl _ => true | inr _ => false end) in
  let code := trap_code tf in
  if code =? EX_MOD then try VM_FAULT_READONLY
  else if code =? EX_TLBL then try VM_FAULT_READ
  else if code =? EX_TLBS then try VM_FAULT_WRITE
  else if (code =? EX_IBE) || (code =? EX_DBE) then panic
  else mret false.

(** What is not an interrupt: a system call, a page fault, or a fatal fault.
    [badfaultfunc] is the field [pcb_badfaultfunc] of the current thread, which
    copyinout.c sets. *)
Definition trap_exception (badfaultfunc : option Z) (tf : trapframe) : M (kstate * trapframe) unit :=
  if trap_code tf =? EX_SYS then
    _ ← on_fst (assert_state spl_is_0);
    mips_syscall
  else
    handled ← on_fst (trap_vm_fault tf);
    if handled : bool then mret ()
    else if negb (trap_iskern tf) then kill_curthread
    else
      c ← on_fst (gets curthread);
      match c, badfaultfunc with
      | Some _, Some f => on_snd (modify (set_epc f))
      | _, _ => panic
      end.

(** [mips_trap] with the frame at [tfaddr]. *)
Definition mips_trap (badfaultfunc : option Z) (tfaddr : Z) : M (kstate * trapframe) unit :=
  savespl ← on_fst (gets curspl);
  _ ← on_fst (modify (set_curspl SPL_HIGH));
  tf ← gets snd;
  _ ← assert (trap_code tf <? NTRAPCODES);
  _ ← on_fst (frame_on_stack tfaddr);
  _ ← (if trap_code tf =? EX_IRQ then on_fst (mips_interrupt (tf_cause tf))
       else _ ← on_fst (splx savespl); trap_exception badfaultfunc tf);
  _ ← on_fst splhigh;
  _ ← on_fst (modify (set_curspl savespl));
  k ← on_fst (gets curkstack);
  assert (SAME_STACK (k - 1) tfaddr).

(** An exception: the processor turns interrupts off, and the return from it
    restores the status register. *)
Definition exception (badfaultfunc : option Z) (tfaddr : Z) : M (kstate * trapframe) unit :=
  st ← on_fst (gets status);
  _ ← on_fst interrupts_off;
  _ ← mips_trap badfaultfunc tfaddr;
  on_fst (modify (set_status st)).

(** ** Entering user mode *)

Definition usermode_frame (argc argv stack entry : Z) : trapframe :=
  {| tf_vaddr := 0; tf_status := Z.lor (Z.lor CST_IRQMASK CST_IEp) CST_KUp; tf_cause := 0; tf_v0 := 0;
     tf_a0 := argc; tf_a1 := argv; tf_a2 := 0; tf_a3 := 0; tf_sp := stack; tf_epc := entry;
     tf_rest := replicate 27 0 |}.

(** The return from an exception takes the previous mode and interrupt bits of
    the saved status as the current ones. *)
Definition rfe (st : Z) : Z := Z.lor (Z.land st (Z.lnot 0xf)) (Z.land (Z.shiftr st 2) 0xf).

(** [md_usermode] with its frame at [tfaddr]: the frame is loaded at the end. *)
Definition md_usermode (tfaddr argc argv stack entry : Z) : M kstate trapframe :=
  let tf := usermode_frame argc argv stack entry in
  _ ← splhigh;
  _ ← modify (set_curspl 0);
  k ← gets curkstack;
  _ ← assert (SAME_STACK (k - 1) tfaddr);
  _ ← modify (set_status (rfe (tf_status tf)));
  mret tf.

(** ** Entry and return *)

(** The frame is where exception.S puts it. *)
Record frame_ok (tfaddr : Z) (σ : kstate) : Prop := {
  fr_stack : ∀ t th, curthread σ = Some t → threads σ !! t = Some th → is_Some (t_stack th) →
    pcb_kstack (t_pcb th) - STACK_SIZE < tfaddr < pcb_kstack (t_pcb th);
  fr_thread : ∀ t, curthread σ = Some t → is_Some (threads σ !! t);
  fr_kstack : SAME_STACK (curkstack σ - 1) tfaddr = true;
}.

Lemma frame_on_stack_spec tfaddr σ σ' Q :
  frame_ok tfaddr σ → curthread σ' = curthread σ → threads σ' = threads σ →
  Q (Ret ()) σ' → wp (frame_on_stack tfaddr) Q σ'.
Proof.
  intros [Hst Hth _] Hc Ht HQ. unfold frame_on_stack, get_thread. wp_steps. rewrite Hc.
  destruct (curthread σ) as [t|]; [|by wp_step]. destruct (Hth t eq_refl) as [th Hl].
  wp_steps. rewrite Ht. eapply wp_deref; [done|]. destruct (t_stack th) eqn:Hs; [|by wp_step].
  destruct (Hst t th eq_refl Hl) as [H1 H2]; [by rewrite Hs|].
  wp_step. apply wp_assert; [lia|]. apply wp_assert; [lia|done].
Qed.

(** The state after the return from the exception. *)
Definition trap_return (σ σ' : kstate) : kstate :=
  set_status (status σ) (set_curspl (curspl σ) (at_spl SPL_HIGH σ')).

Lemma trap_return_id σ σ' : status σ' = status σ → curspl σ' = curspl σ → trap_return σ σ' = σ'.
Proof. intros Hs Hc. unfold trap_return, at_spl. rewrite <- Hs, <- Hc. by destruct σ'. Qed.

(** The levels around an exception: it is handled in the state in which it
    occurred, and the return gives back the level and the status. *)
Lemma exception_spec bf tfaddr σ tf Q :
  flag_ok σ → frame_ok tfaddr σ → trap_code tf < NTRAPCODES → trap_code tf ≠ EX_IRQ →
  wp (trap_exception bf tf) (λ r p,
    match r with
    | Ret _ => SAME_STACK (curkstack p.1 - 1) tfaddr = true ∧ Q (Ret ()) (trap_return σ p.1, p.2)
    | Fail e => Q (Fail e) p
    | Halt k => Q (Halt k) p
    end) (σ, tf) →
  wp (exception bf tfaddr) Q (σ, tf).
Proof.
  intros Hf Hfr Hcode Hirq Hwp. unfold exception, mips_trap, interrupts_off. wp_steps. cbn [fst snd].
  apply wp_assert; [lia|]. wp_steps. eapply frame_on_stack_spec; [done|done|done|].
  rewrite (proj2 (Z.eqb_neq _ _)) by done. wp_steps. apply wp_splx.
  change (curspl (set_status _ σ)) with (curspl σ).
  change (set_curspl SPL_HIGH _) with (at_spl SPL_HIGH σ). rewrite at_spl_restore by done.
  eapply wp_mono; [exact Hwp|]. intros [[]|e|k] [σ' tf']; [|done..]. intros [Hk HQ]. cbn [fst snd] in *.
  wp_steps. apply wp_splhigh. wp_steps. apply wp_assert; [done|]. wp_steps. exact HQ.
Qed.

(** ** Page faults *)

Definition is_fault (tf : trapframe) : Prop := trap_code tf = EX_TLBL ∨ trap_code tf = EX_TLBS.

Lemma trap_vm_fault_spec tf σ t p th a Q :
  in_user t p th a σ → is_u32 (tf_vaddr tf) → is_fault tf →
  let va := Z.land (tf_vaddr tf) PAGE_FRAME in
  (∀ i e pa, as_translate a va = Some pa → tlb (vm σ) !z i = Some e → tlb_valid e = false →
     Q (Ret true) (set_vm (set_tlb (<[Z.to_nat i := tlb_entry va pa]> (tlb (vm σ))) (vm σ)) σ)) →
  (as_translate a va = None ∨ Forall (λ e, tlb_valid e = true) (tlb (vm σ)) → Q (Ret false) σ) →
  wp (trap_vm_fault tf) Q σ.
Proof.
  intros [Hfl Htlb Hcur Hth Hvm Has Hok] Hu Hcode va HQ HF. unfold trap_vm_fault.
  destruct Hcode as [-> | ->]; simpl; wp_steps;
    (eapply vm_fault_spec; [done..| | |]; [|done|]); intros; wp_steps; eauto.
Qed.

(** C21: a page fault is resolved or recovered.  When a thread with a well-formed
    address space misses the TLB, in user mode or in the kernel, then either
    the page is mapped and a free entry of the TLB gets its translation, with the
    frame unchanged, so that the instruction is run again; or the fault was in
    the kernel during an access to user memory, which continues at
    [pcb_badfaultfunc] with nothing changed; or the kernel panics, which happens for a fault of a
    program outside its regions, a full TLB, and a fault of the kernel itself.
    The level and the status of the processor are those before the fault. *)
Theorem page_fault_correct bf tfaddr σ tf t p th a :
  in_user t p th a σ → frame_ok tfaddr σ → is_u32 (tf_vaddr tf) → is_fault tf →
  let va := Z.land (tf_vaddr tf) PAGE_FRAME in
  let lost := as_translate a va = None ∨ Forall (λ e, tlb_valid e = true) (tlb (vm σ)) in
  match exception bf tfaddr (σ, tf) with
  | (Ret _, (σ', tf')) =>
      (∃ i e pa, as_translate a va = Some pa ∧ tlb (vm σ) !z i = Some e ∧ tlb_valid e = false ∧ tf' = tf ∧
         σ' = set_vm (set_tlb (<[Z.to_nat i := tlb_entry va pa]> (tlb (vm σ))) (vm σ)) σ) ∨
      lost ∧ trap_iskern tf = true ∧ σ' = σ ∧ ∃ f, bf = Some f ∧ tf' = set_epc f tf
  | (Halt k, _) => k = Panic ∧ lost ∧ (trap_iskern tf = false ∨ bf = None)
  | (Fail _, _) => False
  end.
Proof.
  intros Hin Hfr Hu Hcode va lost. destruct (Hin) as [Hfl _ Hcur _ _ _ _].
  assert (wp (exception bf tfaddr) (λ r st,
    match r with
    | Ret _ =>
        (∃ i e pa, as_translate a va = Some pa ∧ tlb (vm σ) !z i = Some e ∧ tlb_valid e = false ∧ st.2 = tf ∧
           st.1 = set_vm (set_tlb (<[Z.to_nat i := tlb_entry va pa]> (tlb (vm σ))) (vm σ)) σ) ∨
        lost ∧ trap_iskern tf = true ∧ st.1 = σ ∧ ∃ f, bf = Some f ∧ st.2 = set_epc f tf
    | Halt k => k = Panic ∧ lost ∧ (trap_iskern tf = false ∨ bf = None)
    | Fail _ => False
    end) (σ, tf)) as Hwp; [|apply wp_elim in Hwp; by destruct (exception _ _ _) as [[] [??]]].
  apply exception_spec; [done|done|destruct Hcode as [-> | ->]; done..|].
  unfold trap_exception. rewrite (proj2 (Z.eqb_neq _ EX_SYS)) by (by destruct Hcode as [-> | ->]).
  wp_steps. apply (trap_vm_fault_spec tf σ t p th a); [done..| |]; fold va.
  - intros i e pa Htr He Hinv. wp_step. split; [apply Hfr|]. rewrite trap_return_id by done. left. by exists i, e, pa.
  - intros Hlost. unfold kill_curthread.
    destruct (trap_iskern tf); simpl; [|split_and!; auto]. wp_steps. rewrite Hcur.
    destruct bf as [f|]; [|split_and!; auto]. wp_steps. split; [apply Hfr|].
    rewrite trap_return_id by done. right. eauto 10.
Qed.

(** ** System calls *)

Definition known_calls : list Z :=
  [SYS_reboot; SYS_getpid; SYS_fork; SYS_execv; SYS_waitpid; SYS__exit; SYS_open; SYS_read; SYS_write;
   SYS_lseek; SYS_close; SYS_dup2].

(** The frame after a call that gave [err] and [retval]. *)
Definition call_frame (err retval : Z) (tf : trapframe) : trapframe :=
  set_epc (u32 (tf_epc tf + 4))
    (if err =? 0 then set_result (u32 retval) 0 tf else set_result (u32 err) 1 tf).

Lemma syscall_spec bf tfaddr σ tf err retval σ1 :
  flag_ok σ → curspl σ = 0 → frame_ok tfaddr σ → trap_code tf = EX_SYS →
  syscall_switch tf σ = (Ret (err, retval), σ1) →
  curspl σ1 = 0 → SAME_STACK (curkstack σ1 - 1) tfaddr = true →
  exception bf tfaddr (σ, tf) = (Ret (), (trap_return σ σ1, call_frame err retval tf)).
Proof.
  intros Hf Hspl Hfr Hcode Hsw Hspl1 Hk1. apply wp_eq_intro.
  apply exception_spec; [done|done|by rewrite Hcode..|].
  unfold trap_exception, mips_syscall, assert_state. rewrite Hcode. simpl. wp_steps.
  apply wp_assert; [unfold spl_is_0; lia|]. wp_steps. apply wp_assert; [unfold spl_is_0; lia|]. wp_steps.
  eapply wp_eq; [exact Hsw|]. cbv beta iota. wp_steps. apply wp_assert; [unfold spl_is_0; simpl; lia|].
  split; [done|]. unfold call_frame. by destruct (err =? 0).
Qed.

Lemma syscall_unknown tf σ :
  s32 (tf_v0 tf) ∉ known_calls → syscall_switch tf σ = (Ret (errcode ENOSYS, 0), σ).
Proof.
  unfold known_calls. rewrite !not_elem_of_cons. intros Hn. unfold syscall_switch. cbv zeta.
  rewrite !(proj2 (Z.eqb_neq _ _)) by tauto. done.
Qed.

(** C22: a system call returns to the program as the calling convention says.
    When the function of the call gives an error code, the program finds it in [v0]
    and 1 in [a3], else the value in [v0] and 0 in [a3]; it goes on after the
    [syscall] instruction, with the other registers, the level and the status it
    had.  A number without a function gives ENOSYS and changes nothing else;
    [getpid] gives the process id of the thread. *)
Theorem syscall_correct bf tfaddr σ tf :
  flag_ok σ → curspl σ = 0 → frame_ok tfaddr σ → trap_code tf = EX_SYS →
  (∀ err retval σ1, syscall_switch tf σ = (Ret (err, retval), σ1) → curspl σ1 = 0 →
     curkstack σ1 = curkstack σ →
     ∃ σ', exception bf tfaddr (σ, tf) = (Ret (), (σ', call_frame err retval tf)) ∧
       status σ' = status σ ∧ curspl σ' = 0 ∧ threads σ' = threads σ1 ∧ vm σ' = vm σ1) ∧
  (s32 (tf_v0 tf) ∉ known_calls →
     exception bf tfaddr (σ, tf) = (Ret (), (σ, set_epc (u32 (tf_epc tf + 4)) (set_result 23 1 tf)))) ∧
  (∀ t th, s32 (tf_v0 tf) = SYS_getpid → curthread σ = Some t → threads σ !! t = Some th →
     exception bf tfaddr (σ, tf) =
       (Ret (), (σ, set_epc (u32 (tf_epc tf + 4)) (set_result (u32 (t_pid th)) 0 tf)))).
Proof.
  intros Hf Hspl Hfr Hcode. pose proof (fr_kstack _ _ Hfr) as Hk. split; [|split].
  - intros err retval σ1 Hsw Hspl1 Hk1. exists (trap_return σ σ1).
    split; [apply syscall_spec; [done..|by rewrite Hk1]|done].
  - intros Hn. pose proof (syscall_unknown tf σ Hn) as Hsw.
    rewrite (syscall_spec bf _ _ _ _ _ _ Hf Hspl Hfr Hcode Hsw Hspl Hk).
    by rewrite trap_return_id.
  - intros t th Hc Hcur Hth.
    assert (syscall_switch tf σ = (Ret (0, t_pid th), σ)) as Hsw.
    { unfold syscall_switch. rewrite Hc. simpl. apply wp_eq_intro. unfold sys_getpid, cur, get_thread.
      wp_steps. eapply wp_deref; [done|]. wp_steps. by eapply wp_deref. }
    rewrite (syscall_spec bf _ _ _ _ _ _ Hf Hspl Hfr Hcode Hsw Hspl Hk).
    by rewrite trap_return_id.
Qed.

(** [md_usermode] leaves the kernel in user mode with interrupts on, at level
    0, with the arguments of the program in its registers. *)
Lemma md_usermode_correct tfaddr argc argv sp entry σ :
  SAME_STACK (curkstack σ - 1) tfaddr = true →
  ∃ σ' tf, md_usermode tfaddr argc argv sp entry σ = (Ret tf, σ') ∧ flag_ok σ' ∧ curspl σ' = 0 ∧
    Z.testbit (status σ') 1 = true ∧ trap_iskern tf = false ∧
    tf_a0 tf = argc ∧ tf_a1 tf = argv ∧ tf_sp tf = sp ∧ tf_epc tf = entry.
Proof.
  intros Hk. eexists _, _. split.
  - apply wp_eq_intro. unfold md_usermode. wp_step. apply wp_splhigh. wp_steps.
    apply wp_assert; [exact Hk|]. wp_steps. reflexivity.
  - split_and!; try done.
Qed.
End trap.

(** ** Examples *)

Definition no_calls : Syscalls :=
  {| sys_reboot _ := mret 0; sys_fork _ := mret (0, 2); sys_execv _ _ := mret (errcode ENOENT);
     sys_waitpid _ _ := mret (0, 0); sys__exit _ := mret (); sys_open _ _ := mret 0;
     sys_read _ _ _ := mret 0; sys_write _ _ _ := mret 0; sys_lseek _ _ _ := mret 0;
     sys_close _ := mret (errcode EBADF); sys_dup2 _ _ := mret 0 |}.

Definition user_frame (code v0 vaddr status : Z) : trapframe :=
  {| tf_vaddr := vaddr; tf_status := status; tf_cause := 4 * code; tf_v0 := v0; tf_a0 := 0; tf_a1 := 0;
     tf_a2 := 0; tf_a3 := 0; tf_sp := 0x7fffff00; tf_epc := 0x400100; tf_rest := replicate 27 0 |}.

Lemma user_frame_ok : frame_ok 0x8000ff00 user_state.
Proof.
  split; [|intros t [= <-]; by eexists|done]. intros t th [= <-] [= <-] Hs. by destruct Hs.
Qed.

Lemma page_fault_correct_witness :
  let run tf := exception (H := no_calls) (mret ()) (Some 0x80001234) 0x8000ff00 (user_state, tf) in
  (run (user_frame EX_TLBL 0 0x400123 0xc)).1 = Ret () ∧
  (run (user_frame EX_TLBL 0 0x400123 0xc)).2.2 = user_frame EX_TLBL 0 0x400123 0xc ∧
  tf_epc (run (user_frame EX_TLBS 0 0x1000 0x4)).2.2 = 0x80001234.
Proof.
  cbv zeta.
  pose proof (page_fault_correct (H := no_calls) (mret ()) (Some 0x80001234) 0x8000ff00 user_state
    (user_frame EX_TLBL 0 0x400123 0xc) 1 100 user_thread example_as1 user_in_user user_frame_ok
    ltac:(done) (or_introl eq_refl)) as Hf.
  assert ((exception (H := no_calls) (mret ()) (Some 0x80001234) 0x8000ff00
    (user_state, user_frame EX_TLBL 0 0x400123 0xc)).1 = Ret ()) as Hr by (vm_compute; reflexivity).
  split; [exact Hr|]. split; [|vm_compute; reflexivity].
  destruct (exception _ _ _ _) as [r [σ' tf']]. cbn [fst snd] in *. subst r.
  destruct Hf as [(i & e & pa & _ & _ & _ & Htf & _)|[_ [Hk _]]]; [exact Htf|discriminate].
Defined.

Lemma syscall_correct_witness :
  exception (H := no_calls) (mret ()) None 0x8000ff00 (user_state, user_frame EX_SYS 99 0 0xc) =
    (Ret (), (user_state, set_epc 0x400104 (set_result 23 1 (user_frame EX_SYS 99 0 0xc)))).
Proof.
  apply (syscall_correct (H := no_calls) (mret ()) None 0x8000ff00 user_state (user_frame EX_SYS 99 0 0xc)
    ltac:(by split) eq_refl user_frame_ok eq_refl).
  apply (bool_decide_unpack _). vm_compute. exact I.
Defined.
