(* ===== verification/LoadElf.v ===== *)
(** * Loading executables (kern/userprog/loadelf.c, kern/include/elf.h)

    [load_elf] reads the headers of an ELF file, defines the regions of the
    address space of the current thread, and copies every segment to user
    memory.  The file is behind the interface [Readable]: an operation
    [VOP_READ] with the law that it moves the bytes of the file that the request
    names; SFS implements it.  The state is the file, the kernel with its address
    spaces (Dumbvm.v), and the memory user addresses reach, where any address
    may fault (CopyInOut.v).  [kprintf] messages are left out. *)

From S2P Require Import Prelude Array Queue Machine Dumbvm Bitmap CopyInOut Uio Device Lhd SfsDisk Vnode Sfs SfsMap SfsFile SfsSpec.

(** ** The file format *)

Record Elf_Ehdr := {
  e_ident : list Z; e_type : Z; e_machine : Z; e_version : Z; e_entry : Z; e_phoff : Z; e_shoff : Z;
  e_flags : Z; e_ehsize : Z; e_phentsize : Z; e_phnum : Z; e_shentsize : Z; e_shnum : Z; e_shstrndx : Z;
}.
Record Elf_Phdr := {
  p_type : Z; p_offset : Z; p_vaddr : Z; p_paddr : Z; p_filesz : Z; p_memsz : Z; p_flags : Z; p_align : Z;
}.

Definition sizeof_Ehdr : nat := 52.
Definition sizeof_Phdr : nat := 32.
Definition PT_NULL : Z := 0.
Definition PT_LOAD : Z := 1.
Definition PT_PHDR : Z := 6.
Definition PT_MIPS_REGINFO : Z := 0x70000000.
Definition PF_X : Z := 1.

(** The bytes of a struct as the machine, which is big-endian, reads them. *)
Definition elf_field (off len : nat) (bs : list Z) : Z := of_be (take len (drop off bs)).

Definition decode_ehdr (bs : list Z) : Elf_Ehdr :=
  {| e_ident := take 16 bs; e_type := elf_field 16 2 bs; e_machine := elf_field 18 2 bs;
     e_version := elf_field 20 4 bs; e_entry := elf_field 24 4 bs; e_phoff := elf_field 28 4 bs;
     e_shoff := elf_field 32 4 bs; e_flags := elf_field 36 4 bs; e_ehsize := elf_field 40 2 bs;
     e_phentsize := elf_field 42 2 bs; e_phnum := elf_field 44 2 bs; e_shentsize := elf_field 46 2 bs;
     e_shnum := elf_field 48 2 bs; e_shstrndx := elf_field 50 2 bs |}.
Definition decode_phdr (bs : list Z) : Elf_Phdr :=
  {| p_type := elf_field 0 4 bs; p_offset := elf_field 4 4 bs; p_vaddr := elf_field 8 4 bs;
     p_paddr := elf_field 12 4 bs; p_filesz := elf_field 16 4 bs; p_memsz := elf_field 20 4 bs;
     p_flags := elf_field 24 4 bs; p_align := elf_field 28 4 bs |}.

(** The check of the header: ELF, 32 bits, big-endian, version 1, an executable
    for MIPS. *)
Definition ehdr_ok (eh : Elf_Ehdr) : bool :=
  bool_decide (e_ident eh !! 0%nat = Some 0x7f) && bool_decide (e_ident eh !! 1%nat = Some 69) &&
  bool_decide (e_ident eh !! 2%nat = Some 76) && bool_decide (e_ident eh !! 3%nat = Some 70) &&
  bool_decide (e_ident eh !! 4%nat = Some 1) && bool_decide (e_ident eh !! 5%nat = Some 2) &&
  bool_decide (e_ident eh !! 6%nat = Some 1) && (e_version eh =? 1) && (e_type eh =? 2) &&
  (e_machine eh =? 8).

(** ** The loader *)

Class Readable (W : Type) := VOP_READ : M (W * uiost) unit.

Section ops.
Context {W : Type} `{Readable W}.

(** A read of a header into a kernel struct. *)
Definition read_struct (size : nat) (offset : Z) : M W (list Z) :=
  r ← with_kbuf VOP_READ (replicate size 0) offset UIO_READ;
  if negb (uio_resid r.2 =? 0) then fail ENOEXEC else mret r.1.

(** The read of a program header and the [switch] on its type; [None] is a
    header to skip. *)
Definition read_phdr (eh : Elf_Ehdr) (i : Z) : M W (option Elf_Phdr) :=
  bs ← read_struct sizeof_Phdr (s32 (e_phoff eh + i * e_phentsize eh));
  let ph := decode_phdr bs in
  if (p_type ph =? PT_NULL) || (p_type ph =? PT_PHDR) || (p_type ph =? PT_MIPS_REGINFO) then mret None
  else if p_type ph =? PT_LOAD then mret (Some ph)
  else fail ENOEXEC.

(** The read and the zero fill of [load_segment], on its descriptor. *)
Definition segment_io (memsize filesize : Z) : M (W * uiost) unit :=
  _ ← VOP_READ;
  p ← get;
  if negb (uio_resid (u p.2) =? 0) then fail ENOEXEC
  else
    let fillamt := u32 (memsize - filesize) in
    if fillamt >? 0 then
      _ ← on_snd (modify (λ s, set_u {| iov_base := iov_base (u s); iov_len := iov_len (u s);
                                        uio_offset := uio_offset (u s);
                                        uio_resid := u32 (uio_resid (u s) + fillamt);
                                        uio_segflg := uio_segflg (u s); uio_dir := uio_dir (u s);
                                        uio_space := uio_space (u s) |} s));
      on_snd (uiomovezeros fillamt)
    else mret ().

Definition segment_uio (offset vaddr memsize filesize : Z) (is_executable : bool) (space : option addr) : uio :=
  {| iov_base := vaddr; iov_len := memsize; uio_offset := offset; uio_resid := filesize;
     uio_segflg := if is_executable then UIO_USERISPACE else UIO_USERSPACE;
     uio_dir := UIO_READ; uio_space := space |}.

(** The file, the kernel, and the memory at user addresses. *)
Definition loader : Type := W * (kstate * memory).

(** Runs an operation on a descriptor of user memory. *)
Definition with_user (op : M (W * uiost) unit) (x : uio) (space : option addr) : M loader unit := λ '(w, (σ, m)),
  let '(r, (w', s)) := op (w, {| u := x; mem := m; t_vmspace := space |}) in (r, (w', (σ, mem s))).

Definition on_kernel {A} (op : M kstate A) : M loader A := on_snd (on_fst op).

(** [curthread->t_vmspace]. *)
Definition cur_vmspace : M kstate (option addr) :=
  t ← cur; th ← get_thread t; mret (Machine.t_vmspace th).

Definition load_segment (offset vaddr memsize filesize : Z) (is_executable : bool) : M loader unit :=
  let filesize := if filesize >? memsize then memsize else filesize in
  space ← on_kernel cur_vmspace;
  with_user (segment_io memsize filesize)
    (segment_uio offset vaddr memsize filesize is_executable space) space.

(** The body of the first loop, and of the second. *)
Definition define_phdr (eh : Elf_Ehdr) (i : Z) : M loader unit :=
  o ← on_fst (read_phdr eh i);
  match o with
  | None => mret ()
  | Some ph =>
      space ← on_kernel cur_vmspace;
      p ← deref space;
      on_kernel (as_define_region p (p_vaddr ph) (p_memsz ph))
  end.
Definition load_phdr (eh : Elf_Ehdr) (i : Z) : M loader unit :=
  o ← on_fst (read_phdr eh i);
  match o with
  | None => mret ()
  | Some ph => load_segment (s32 (p_offset ph)) (p_vaddr ph) (p_memsz ph) (p_filesz ph)
                 (negb (Z.land (p_flags ph) PF_X =? 0))
  end.

(** [as_complete_load] of dumbvm does nothing. *)
Definition load_elf : M loader Z :=
  bs ← on_fst (read_struct sizeof_Ehdr 0);
  let eh := decode_ehdr bs in
  if negb (ehdr_ok eh) then fail ENOEXEC
  else
    _ ← forM (seqZ 0 (e_phnum eh)) (define_phdr eh);
    space ← on_kernel cur_vmspace;
    p ← deref space;
    _ ← on_kernel (as_prepare_load p);
    _ ← forM (seqZ 0 (e_phnum eh)) (load_phdr eh);
    mret (e_entry eh).
End ops.

(** ** The interface of the file *)

(** The [n] bytes of the file at [off], or what there is of them. *)
Definition file_part (F : list Z) (off n : Z) : list Z := take (Z.to_nat n) (drop (Z.to_nat off) F).

Lemma file_part_len F off n :
  0 ≤ off → 0 ≤ n → zlen (file_part F off n) = Z.max 0 (Z.min n (zlen F - off)).
Proof. intros. unfold file_part, zlen. rewrite length_take, length_drop. lia. Qed.

(** [VOP_READ] moves the bytes of the file, and the file keeps them. *)
Class ReadableLaws (W : Type) `{Readable W} := {
  holds : W → list Z → Prop;
  read_error : errno → Prop;
  read_law w F s (Q : result unit → W * uiost → Prop) :
    holds w F → uio_ok s → uio_dir (u s) = UIO_READ → 0 ≤ uio_resid (u s) →
    0 ≤ uio_offset (u s) → uio_offset (u s) + uio_resid (u s) < 2 ^ 31 →
    (∀ w' s', holds w' F → moved_in s (file_part F (uio_offset (u s)) (uio_resid (u s))) s' →
       uio_ok s' → Q (Ret ()) (w', s')) →
    (∀ w' s' e, holds w' F → read_error e → Q (Fail e) (w', s')) →
    wp VOP_READ Q (w, s);
}.

Section specs.
Context {W : Type} `{ReadableLaws W}.
Implicit Types (w : W) (F : list Z) (m : memory) (ph : Elf_Phdr) (eh : Elf_Ehdr).

Lemma read_struct_spec w F size off Q :
  holds w F → (0 < size)%nat → 0 ≤ off → off + Z.of_nat size < 2 ^ 31 →
  (∀ w', holds w' F → off + Z.of_nat size ≤ zlen F → Q (Ret (file_part F off (Z.of_nat size))) w') →
  (∀ w', holds w' F → zlen F < off + Z.of_nat size → Q (Fail ENOEXEC) w') →
  (∀ w' e, holds w' F → read_error e → Q (Fail e) w') →
  wp (read_struct size off) Q w.
Proof.
  intros Hh Hsz Hoff Hend HQ HS HE. unfold read_struct. wp_step. apply with_kbuf_spec.
  set (buf := replicate size 0). assert (zlen buf = Z.of_nat size) as Hbl by (unfold zlen, buf; by rewrite length_replicate).
  apply (read_law w F (kbuf_request buf off UIO_READ)); simpl; rewrite ?Hbl; try done; try lia.
  { apply kbuf_request_ok; lia. }
  - intros w' s' Hh' [Hu Hm _] Hok'. cbn [kbuf_request u mem] in Hu, Hm. simpl in Hm.
    pose proof (file_part_len F off (Z.of_nat size) ltac:(lia) ltac:(lia)) as Hl.
    set (bs := file_part F off (Z.of_nat size)) in *.
    exists (bs ++ drop (length bs) buf).
    split_and!; [rewrite length_app, length_drop; unfold zlen in *; lia|apply kernel_buffer_stored; [lia|done]|].
    rewrite Hu. cbn [advance mk_kuio uio_resid fst snd]. rewrite Hbl, u32_small by (unfold is_u32; lia).
    destruct (Z.eqb_spec (Z.of_nat size - zlen bs) 0); simpl; wp_steps; [|by apply HS; [|lia]].
    rewrite drop_ge, app_nil_r by (unfold zlen in *; lia). by apply HQ; [|lia].
  - intros w' s' e Hh' He. by apply HE.
Qed.

(** ** Regions *)

(** The kernel with the address space [p] set and the frames below [first] taken. *)
Definition with_as (p : addr) (a : addrspace) (first : Z) (σ : kstate) : kstate :=
  set_vm (vm_with p a first (vm σ)) σ.

Lemma with_as_twice p a n a' n' σ : with_as p a' n' (with_as p a n σ) = with_as p a' n' σ.
Proof. unfold with_as. change (vm (set_vm ?v σ)) with v. by rewrite vm_with_with. Qed.

Lemma with_as_id p a σ : addrspaces (vm σ) !! p = Some a → with_as p a (firstpaddr (vm σ)) σ = σ.
Proof.
  intros Ha. unfold with_as, vm_with, set_addrspaces, set_firstpaddr. cbn.
  rewrite insert_id by done. destruct σ as [??????????????? [] ??]; done.
Qed.

(** The pages of a segment. *)
Definition seg_base ph : Z := p_vaddr ph - p_vaddr ph mod PAGE_SIZE.
Definition seg_pages ph : Z := (p_memsz ph + p_vaddr ph mod PAGE_SIZE + PAGE_SIZE - 1) / PAGE_SIZE.

Lemma page_offset x : is_u32 x → Z.land x (Z.lnot PAGE_FRAME) = x mod PAGE_SIZE.
Proof.
  intros Hx. pose proof (page_frame_of x Hx) as Hp.
  assert (x - Z.land x PAGE_FRAME = Z.land x (Z.lnot PAGE_FRAME)) as <-; [|lia].
  rewrite Z.sub_nocarry_ldiff.
  - apply Z.bits_inj'. intros k Hk. rewrite Z.ldiff_spec, !Z.land_spec, Z.lnot_spec by done.
    by destruct (Z.testbit x k), (Z.testbit PAGE_FRAME k).
  - apply Z.bits_inj'. intros k Hk. rewrite Z.ldiff_spec, Z.land_spec, Z.bits_0.
    by destruct (Z.testbit x k), (Z.testbit PAGE_FRAME k).
Qed.

(** The address space with the regions of the segments in order. *)
Definition add_region (a : addrspace) ph : addrspace :=
  if as_vbase1 a =? 0 then as_set_region1 (seg_base ph) (seg_pages ph) a
  else as_set_region2 (seg_base ph) (seg_pages ph) a.
Definition regions (phs : list Elf_Phdr) : addrspace := foldl add_region empty_as phs.

(** A segment in user space, above the first page, of at least one byte in
    memory, whose part in the file, possibly empty, is there. *)
Record segment_ok F ph : Prop := {
  sg_file : 0 ≤ p_filesz ph ≤ p_memsz ph;
  sg_mem : 0 < p_memsz ph;
  sg_off : 0 ≤ p_offset ph;
  sg_end : p_offset ph + p_filesz ph ≤ zlen F;
  sg_base : PAGE_SIZE ≤ p_vaddr ph;
  sg_top : p_vaddr ph + p_memsz ph ≤ USERSTACK;
}.

Lemma segment_shape F ph : segment_ok F ph → shape_ok (seg_base ph) (seg_pages ph).
Proof.
  intros []. unfold seg_base, seg_pages, PAGE_SIZE, USERSTACK, MIPS_KSEG0 in *.
  split; unfold aligned, PAGE_SIZE, USERSTACK, MIPS_KSEG0; Z.div_mod_to_equations; lia.
Qed.

Lemma segment_within F ph va :
  segment_ok F ph → p_vaddr ph ≤ va < p_vaddr ph + p_memsz ph →
  seg_base ph ≤ va < seg_base ph + seg_pages ph * PAGE_SIZE.
Proof.
  intros [] Hva. unfold seg_base, seg_pages, PAGE_SIZE in *. Z.div_mod_to_equations; lia.
Qed.

Lemma as_define_region_spec p a F ph σ Q :
  segment_ok F ph → addrspaces (vm σ) !! p = Some a → as_vbase1 a = 0 ∨ as_vbase2 a = 0 →
  Q (Ret ()) (with_as p (add_region a ph) (firstpaddr (vm σ)) σ) →
  wp (as_define_region p (p_vaddr ph) (p_memsz ph)) Q σ.
Proof.
  intros [] Ha Hfree HQ. unfold USERSTACK, MIPS_KSEG0, PAGE_SIZE in *.
  assert (is_u32 (p_vaddr ph)) by (unfold is_u32; lia).
  pose proof (Z.mod_pos_bound (p_vaddr ph) 4096 ltac:(done)).
  unfold as_define_region. cbv zeta. rewrite page_offset, page_frame_of by done. unfold PAGE_SIZE.
  rewrite (u32_small (p_memsz ph + _)) by (unfold is_u32; lia).
  rewrite (u32_small (_ - 1)) by (unfold is_u32; lia).
  rewrite page_frame_of by (unfold is_u32; lia). unfold PAGE_SIZE.
  replace (_ / 4096) with (seg_pages ph) by (unfold seg_pages, PAGE_SIZE; Z.div_mod_to_equations; lia).
  unfold with_as, vm_with, add_region, seg_base, PAGE_SIZE in HQ.
  replace (set_firstpaddr (firstpaddr (vm σ)) (vm σ)) with (vm σ) in HQ by (by destruct (vm σ)).
  wp_step. eapply wp_get_as; [done|]. unfold put_as, zoom_vm.
  destruct (Z.eqb_spec (as_vbase1 a) 0); [wp_steps; exact HQ|].
  destruct (Z.eqb_spec (as_vbase2 a) 0); [wp_steps; exact HQ|]. lia.
Qed.

(** ** Segments *)

Definition seg_bytes F ph : list Z :=
  file_part F (p_offset ph) (p_filesz ph) ++ replicate (Z.to_nat (p_memsz ph - p_filesz ph)) 0.

Lemma seg_bytes_len F ph : segment_ok F ph → zlen (seg_bytes F ph) = p_memsz ph.
Proof.
  intros []. unfold seg_bytes. rewrite zlen_app, file_part_len by lia.
  unfold zlen in *. rewrite length_replicate. lia.
Qed.

(** What a failing call may return. *)
Definition load_error (e : errno) : Prop := read_error e ∨ e = EFAULT.

Lemma segment_io_spec w F ph x m space Q :
  holds w F → segment_ok F ph → zlen F < 2 ^ 31 →
  x = segment_uio (p_offset ph) (p_vaddr ph) (p_memsz ph) (p_filesz ph) (negb (Z.land (p_flags ph) PF_X =? 0)) space →
  (∀ w' s, holds w' F → stored m (p_vaddr ph) (seg_bytes F ph) (mem s) → Q (Ret ()) (w', s)) →
  (∀ w' s e, holds w' F → load_error e → Q (Fail e) (w', s)) →
  wp (segment_io (p_memsz ph) (p_filesz ph)) Q (w, {| u := x; mem := m; t_vmspace := space |}).
Proof.
  intros Hh Hseg Hsz -> HQ HF. destruct (Hseg). unfold USERSTACK, MIPS_KSEG0, PAGE_SIZE in *.
  set (x := segment_uio _ _ _ _ _ _).
  assert (uio_segflg x ≠ UIO_SYSSPACE) as Hns by (unfold x; simpl; by destruct (negb _)).
  assert (uio_space_ok {| u := x; mem := m; t_vmspace := space |} = true) as Hsp.
  { unfold uio_space_ok, x; simpl. destruct (negb _); by apply bool_decide_eq_true_2. }
  unfold segment_io. wp_step. apply (read_law w F); simpl; [done| |done|lia|lia|lia| |].
  { split; simpl; unfold is_u32; [lia|lia|lia|done|lia|by destruct (negb _)..]. }
  2: { intros w' s' e Hh' He. apply HF; [done|by left]. }
  intros w' s' Hh' [Hu Hm Hvs] Hok'. simpl in Hu, Hm, Hvs.
  pose proof (file_part_len F (p_offset ph) (p_filesz ph) ltac:(lia) ltac:(lia)) as Hl.
  set (bs := file_part F (p_offset ph) (p_filesz ph)) in *.
  assert (zlen bs = p_filesz ph) as Hbl by lia.
  assert (uio_resid (u s') = 0) as Hr by (rewrite Hu; simpl; by rewrite Hbl, Z.sub_diag).
  wp_step. wp_step. cbn [fst snd]. rewrite Hr. cbn [negb Z.eqb]. rewrite u32_small by (unfold is_u32; lia).
  destruct (Z.gtb_spec (p_memsz ph - p_filesz ph) 0) as [Hfill|Hfill].
  2: { wp_steps. apply HQ; [done|]. unfold seg_bytes. fold bs.
       replace (p_memsz ph - p_filesz ph) with 0 by lia. by rewrite app_nil_r. }
  wp_steps. rewrite Hr, Z.add_0_l, u32_small by (unfold is_u32; lia).
  match goal with |- wp _ _ ?s => set (s1 := s) end.
  assert (iov_base (u s1) = p_vaddr ph + zlen bs ∧ iov_len (u s1) = p_memsz ph - p_filesz ph) as [Hb1 Hl1].
  { unfold s1; simpl. rewrite Hu; simpl. by rewrite Hbl, u32_small by (unfold is_u32; lia). }
  assert (uio_segflg (u s1) ≠ UIO_SYSSPACE) as Hns1 by (unfold s1; simpl; by rewrite Hu).
  apply (uiomovezeros_spec s1); [| |lia|left; simpl; lia| |].
  - split; rewrite ?Hb1, ?Hl1; try done; unfold is_u32; [simpl; lia|lia| | |lia].
    + unfold s1; simpl. apply Hok'.
    + unfold s1. destruct Hok'. unfold uio_space_ok in *. done.
  - unfold s1; simpl. by rewrite Hu.
  - intros s2 [_ Hm2 _] _. rewrite Hb1 in Hm2. apply HQ; [done|]. eapply stored_app; [done|].
    simpl in Hm2. by rewrite Z.min_id in Hm2.
  - intros s2 _ _. apply HF; [done|by right].
Qed.

(** ** Executables *)

Definition elf_ehdr F : Elf_Ehdr := decode_ehdr (file_part F 0 52).
Definition elf_phdr F (i : Z) : Elf_Phdr :=
  decode_phdr (file_part F (e_phoff (elf_ehdr F) + i * e_phentsize (elf_ehdr F)) 32).
Definition elf_phdrs F : list Elf_Phdr := elf_phdr F <$> seqZ 0 (e_phnum (elf_ehdr F)).

(** The segments to load. *)
Definition is_load ph : Prop := p_type ph = PT_LOAD.
#[local] Instance is_load_dec ph : Decision (is_load ph) := _.
Definition elf_loads F : list Elf_Phdr := filter is_load (elf_phdrs F).

(** An executable for the machine, by the bytes of the file: at least a header,
    the magic number 7f E L F, class 1 (32 bits), data encoding 2 (big-endian),
    version 1, and behind the identification the type 2 (executable), the machine
    8 (MIPS) and the version 1 again. *)
Definition mips_executable F : Prop :=
  52 ≤ zlen F ∧ take 7 F = [0x7f; 69; 76; 70; 1; 2; 1] ∧ take 8 (drop 16 F) = [0; 2] ++ [0; 8] ++ [0; 0; 0; 1].

(** The first 24 bytes of a file with a header. *)
Lemma ehdr_prefix F : 52 ≤ zlen F → ∃ bs rest, length bs = 24%nat ∧ F = bs ++ rest.
Proof.
  intros HF. exists (take 24 F), (drop 24 F). unfold zlen in HF.
  rewrite length_take, take_drop. split; [lia|done].
Qed.

Lemma ehdr_ok_executable F : mips_executable F → ehdr_ok (elf_ehdr F) = true.
Proof.
  intros (Hlen & H1 & H2). destruct (ehdr_prefix F Hlen) as (bs & rest & Hbs & ->).
  do 24 (destruct bs as [|? bs]; [done|]). destruct bs; [|done]. simpl in H1, H2. by simplify_eq.
Qed.

Lemma executable_ehdr_ok F :
  Forall is_u8 F → 52 ≤ zlen F → ehdr_ok (elf_ehdr F) = true → mips_executable F.
Proof.
  intros Hu Hlen Hok. destruct (ehdr_prefix F Hlen) as (bs & rest & Hbs & ->).
  apply Forall_app in Hu as [Hu _]. split; [done|]. clear Hlen.
  do 24 (destruct bs as [|? bs]; [done|]). destruct bs; [|done]. unfold ehdr_ok in Hok.
  rewrite !andb_true_iff, !bool_decide_eq_true, !Z.eqb_eq in Hok.
  unfold elf_ehdr, file_part, elf_field in Hok. cbn [decode_ehdr e_ident e_version e_type e_machine] in Hok.
  unfold elf_field, of_be in Hok. simpl in Hok. destruct_and!. simplify_eq.
  repeat match goal with H : Forall _ (_ :: _) |- _ => apply Forall_cons in H as [? H] end.
  unfold is_u8 in *. simpl. split; [done|]. repeat f_equal; lia.
Qed.

(** A file with an executable header whose program headers are in the file and
    of the known types. *)
Record elf_file F : Prop := {
  ef_small : zlen F < 2 ^ 31;
  ef_exec : mips_executable F;
  ef_phdrs : ∀ i, 0 ≤ i < e_phnum (elf_ehdr F) →
    0 ≤ e_phoff (elf_ehdr F) + i * e_phentsize (elf_ehdr F) ≤ zlen F - 32;
  ef_types : Forall (λ ph, p_type ph ∈ [PT_NULL; PT_LOAD; PT_PHDR; PT_MIPS_REGINFO]) (elf_phdrs F);
}.

Lemma elf_phdrs_lookup F k i :
  seqZ 0 (e_phnum (elf_ehdr F)) !! k = Some i →
  0 ≤ i < e_phnum (elf_ehdr F) ∧ elf_phdrs F !! k = Some (elf_phdr F i).
Proof.
  intros Hk. split; [apply lookup_seqZ in Hk; lia|]. unfold elf_phdrs. by rewrite list_lookup_fmap, Hk.
Qed.

Lemma read_phdr_spec w F i Q :
  holds w F → elf_file F → 0 ≤ i < e_phnum (elf_ehdr F) →
  (∀ w', holds w' F → ¬ is_load (elf_phdr F i) → Q (Ret None) w') →
  (∀ w', holds w' F → is_load (elf_phdr F i) → Q (Ret (Some (elf_phdr F i))) w') →
  (∀ w' e, holds w' F → read_error e → Q (Fail e) w') →
  wp (read_phdr (elf_ehdr F) i) Q w.
Proof.
  intros Hh [Hsm _ Hph Hty] Hi HN HS HE. specialize (Hph i Hi). unfold read_phdr.
  rewrite s32_small by lia. wp_step. apply (read_struct_spec w F); [done|unfold sizeof_Phdr; lia..| | |done].
  2: { unfold sizeof_Phdr. lia. }
  intros w' Hh' _. change (decode_phdr _) with (elf_phdr F i). set (ph := elf_phdr F i) in *.
  assert (p_type ph ∈ [PT_NULL; PT_LOAD; PT_PHDR; PT_MIPS_REGINFO]) as Hin.
  { rewrite Forall_forall in Hty. apply Hty. unfold elf_phdrs. apply list_elem_of_fmap. exists i.
    split; [done|]. by apply elem_of_seqZ. }
  unfold is_load in *. rewrite !elem_of_cons, elem_of_nil in Hin.
  destruct Hin as [Hp|[Hp|[Hp|[Hp|[]]]]]; rewrite Hp in *; simpl; wp_steps; auto.
Qed.

(** The current thread and its address space. *)
Record runs_in (t : tid) (th : thread) (p : addr) (σ : kstate) : Prop := {
  ri_cur : curthread σ = Some t;
  ri_thread : threads σ !! t = Some th;
  ri_vmspace : Machine.t_vmspace th = Some p;
}.

Lemma runs_in_as t th p a first σ : runs_in t th p σ → runs_in t th p (with_as p a first σ).
Proof. intros []. by split. Qed.

Lemma cur_vmspace_spec t th p σ Q : runs_in t th p σ → Q (Ret (Some p)) σ → wp cur_vmspace Q σ.
Proof.
  intros [Hc Ht Hv] HQ. unfold cur_vmspace, cur, get_thread. wp_steps. eapply wp_deref; [done|].
  wp_steps. eapply wp_deref; [done|]. wp_steps. by rewrite Hv.
Qed.

Lemma filter_snoc (l : list Elf_Phdr) k ph :
  l !! k = Some ph →
  filter is_load (take (S k) l) = filter is_load (take k l) ++ (if decide (is_load ph) then [ph] else []).
Proof.
  intros Hk. rewrite (take_S_r _ _ _ Hk), filter_app. done.
Qed.

Lemma filter_two (l : list Elf_Phdr) k ph s1 s2 :
  filter is_load l = [s1; s2] → l !! k = Some ph → is_load ph →
  filter is_load (take k l) = [] ∧ ph = s1 ∨ filter is_load (take k l) = [s1] ∧ ph = s2.
Proof.
  intros Hf Hk Hp. rewrite <- (take_drop_middle _ _ _ Hk) in Hf at 1.
  rewrite filter_app, filter_cons_True in Hf by done.
  destruct (filter is_load (take k l)) as [|x [|y r]]; simplify_eq/=; auto. by destruct r.
Qed.

(** The segments stored one after the other. *)
Fixpoint loaded F (phs : list Elf_Phdr) m m' : Prop :=
  match phs with
  | [] => m' = m
  | ph :: phs' => ∃ m1, stored m (p_vaddr ph) (seg_bytes F ph) m1 ∧ loaded F phs' m1 m'
  end.

Lemma loaded_snoc F phs ph m m1 m' :
  loaded F phs m m1 → stored m1 (p_vaddr ph) (seg_bytes F ph) m' → loaded F (phs ++ [ph]) m m'.
Proof.
  revert m. induction phs as [|x phs IH]; simpl; intros m; [intros <-; eauto|].
  intros (m2 & Hst & Hl) Hs. exists m2. split; [done|]. by apply IH.
Qed.

Lemma regions_snoc phs ph : regions (phs ++ [ph]) = add_region (regions phs) ph.
Proof. unfold regions. by rewrite foldl_app. Qed.

Section executable.
Context (F : list Z) (s1 s2 : Elf_Phdr).
Context (Helf : elf_file F) (Hloads : elf_loads F = [s1; s2]).
Context (Hseg1 : segment_ok F s1) (Hseg2 : segment_ok F s2).
Context (t : tid) (th : thread) (p : addr).

Lemma seg_base_pos ph : segment_ok F ph → seg_base ph ≠ 0.
Proof. intros Hs. destruct (segment_shape _ _ Hs). lia. Qed.

Definition segs (k : nat) : list Elf_Phdr := filter is_load (take k (elf_phdrs F)).

Lemma segs_step k ph :
  elf_phdrs F !! k = Some ph → is_load ph →
  segs (S k) = segs k ++ [ph] ∧ segment_ok F ph ∧
  (as_vbase1 (regions (segs k)) = 0 ∨ as_vbase2 (regions (segs k)) = 0).
Proof.
  intros Hk Hp. unfold segs. rewrite (filter_snoc _ _ _ Hk), decide_True by done. split; [done|].
  destruct (filter_two _ _ _ _ _ Hloads Hk Hp) as [[-> ->]|[-> ->]]; auto.
Qed.

Lemma segs_skip k ph : elf_phdrs F !! k = Some ph → ¬ is_load ph → segs (S k) = segs k.
Proof. intros Hk Hp. unfold segs. by rewrite (filter_snoc _ _ _ Hk), decide_False, app_nil_r. Qed.

Lemma segs_all : segs (length (seqZ 0 (e_phnum (elf_ehdr F)))) = [s1; s2].
Proof.
  unfold segs. rewrite take_ge; [exact Hloads|]. unfold elf_phdrs. by rewrite length_fmap.
Qed.

(** The first loop defines the regions. *)
Lemma define_loop_spec w σ m Q :
  holds w F → runs_in t th p σ → addrspaces (vm σ) !! p = Some empty_as →
  (∀ w', holds w' F →
     Q (Ret ()) (w', (with_as p (regions [s1; s2]) (firstpaddr (vm σ)) σ, m))) →
  (∀ w' a e, holds w' F → read_error e → Q (Fail e) (w', (with_as p a (firstpaddr (vm σ)) σ, m))) →
  wp (forM (seqZ 0 (e_phnum (elf_ehdr F))) (define_phdr (elf_ehdr F))) Q (w, (σ, m)).
Proof.
  intros Hh Hrun Has HQ HF. set (first := firstpaddr (vm σ)) in *.
  apply (wp_forM _ _ (λ k st, holds st.1 F ∧
    st.2 = (with_as p (regions (segs k)) first σ, m))).
  - split; [done|]. simpl. unfold first. by rewrite with_as_id.
  - intros k i [w1 st] Hk [Hh1 Hst]. simpl in Hh1, Hst. subst st.
    apply elf_phdrs_lookup in Hk as [Hi Hk]. unfold define_phdr. wp_steps.
    apply (read_phdr_spec w1 F); [done|done|done| | |intros w' e Hw' He; by apply HF].
    + intros w' Hw' Hp. wp_steps. split; [done|]. by rewrite (segs_skip _ _ Hk Hp).
    + intros w' Hw' Hp. destruct (segs_step _ _ Hk Hp) as (Hs & Hok & Hfree).
      unfold on_kernel. wp_steps. eapply cur_vmspace_spec; [by apply runs_in_as|]. wp_step.
      eapply wp_deref; [done|]. wp_steps. eapply as_define_region_spec; [done|apply lookup_insert_eq|done|].
      split; [done|]. simpl. rewrite with_as_twice, Hs, regions_snoc. done.
  - intros [w' st] [Hw' Hst]. cbn [fst snd] in Hst. subst st. rewrite segs_all. by apply HQ.
Qed.

(** The second loop stores the segments. *)
Lemma load_loop_spec w σ m Q :
  holds w F → runs_in t th p σ →
  (∀ w' m', holds w' F → loaded F [s1; s2] m m' → Q (Ret ()) (w', (σ, m'))) →
  (∀ w' m' e, holds w' F → load_error e → Q (Fail e) (w', (σ, m'))) →
  wp (forM (seqZ 0 (e_phnum (elf_ehdr F))) (load_phdr (elf_ehdr F))) Q (w, (σ, m)).
Proof.
  intros Hh Hrun HQ HF.
  apply (wp_forM _ _ (λ k st, holds st.1 F ∧ st.2.1 = σ ∧ loaded F (segs k) m st.2.2)).
  - split_and!; done.
  - intros k i [w1 [σ1 m1]] Hk (Hh1 & Hσ & Hld). simpl in Hh1, Hσ, Hld. subst σ1.
    apply elf_phdrs_lookup in Hk as [Hi Hk]. unfold load_phdr. wp_steps.
    apply (read_phdr_spec w1 F); [done|done|done| | |intros w' e Hw' He; apply HF; [done|by left]].
    + intros w' Hw' Hp. wp_steps. by rewrite (segs_skip _ _ Hk Hp).
    + intros w' Hw' Hp. destruct (segs_step _ _ Hk Hp) as (Hs & Hok & _). set (ph := elf_phdr F i) in *.
      destruct (Hok). pose proof (ef_small _ Helf). unfold load_segment, on_kernel. cbv zeta.
      replace (p_filesz ph >? p_memsz ph) with false by lia. rewrite s32_small by lia. wp_steps.
      eapply cur_vmspace_spec; [done|]. unfold with_user, wp.
      match goal with |- context [segment_io _ _ (?w, ?s)] =>
        pose proof (segment_io_spec w F ph (u s) (mem s) (t_vmspace s)
          (λ r st, match r with
                   | Ret _ => holds st.1 F ∧ stored m1 (p_vaddr ph) (seg_bytes F ph) (mem st.2)
                   | Fail e => holds st.1 F ∧ load_error e
                   | Halt _ => False end)) as Hio end.
      simpl in Hio. unfold wp in Hio.
      destruct (segment_io _ _ _) as [r [w2 st]]. simpl.
      assert (match r with
              | Ret _ => holds w2 F ∧ stored m1 (p_vaddr ph) (seg_bytes F ph) (mem st)
              | Fail e => holds w2 F ∧ load_error e | Halt _ => False end) as Hr by (apply Hio; auto).
      destruct r as [[]|e|]; [|destruct Hr; by apply HF|done]. destruct Hr as [Hw2 Hst].
      split_and!; [done|done|]. rewrite Hs. by eapply loaded_snoc.
  - intros [w' [σ' m']] (Hw' & Hσ & Hld). cbn [fst snd] in *. subst σ'. rewrite segs_all in Hld. by apply HQ.
Qed.

Lemma regions_two :
  regions [s1; s2] = as_set_region2 (seg_base s2) (seg_pages s2)
                       (as_set_region1 (seg_base s1) (seg_pages s1) empty_as).
Proof.
  unfold regions, add_region. simpl. by rewrite (proj2 (Z.eqb_neq _ _)) by (by apply seg_base_pos).
Qed.

Lemma regions_shape : as_shape (regions [s1; s2]) ∧ unloaded (regions [s1; s2]).
Proof. rewrite regions_two. repeat split; cbn; try by eapply segment_shape. Qed.

(** Every byte of a segment is in a region. *)
Lemma regions_translate first ph va :
  ph ∈ [s1; s2] → p_vaddr ph ≤ va < p_vaddr ph + p_memsz ph →
  is_Some (as_translate (fresh_frames first (regions [s1; s2])) va).
Proof.
  intros Hin Hva.
  assert (∀ b, region (seg_base ph) b (seg_pages ph) va ≠ None) as Hreg.
  { intros b Hn. apply region_None in Hn.
    assert (segment_ok F ph) as Hok by (rewrite !elem_of_cons, elem_of_nil in Hin; by destruct Hin as [->|[->|[]]]).
    pose proof (segment_within _ _ _ Hok Hva). lia. }
  rewrite regions_two. unfold as_translate. cbn.
  destruct (region (seg_base s1) _ _ _) eqn:H1; [done|].
  destruct (region (seg_base s2) _ _ _) eqn:H2; [done|].
  rewrite !elem_of_cons, elem_of_nil in Hin. destruct Hin as [->|[->|[]]]; exfalso; by eapply Hreg.
Qed.

Definition load_post σ m (r : result Z) (st : W * (kstate * memory)) : Prop :=
  holds st.1 F ∧ (∃ a first', st.2.1 = with_as p a first' σ) ∧
  match r with
  | Ret entry => entry = e_entry (elf_ehdr F) ∧ loaded F [s1; s2] m st.2.2 ∧
      firstpaddr (vm σ) + as_pages (regions [s1; s2]) * PAGE_SIZE ≤ lastpaddr (vm σ) ∧
      addrspaces (vm st.2.1) !! p = Some (fresh_frames (firstpaddr (vm σ)) (regions [s1; s2]))
  | Fail e => load_error e ∨
      e = ENOMEM ∧ lastpaddr (vm σ) < firstpaddr (vm σ) + as_pages (regions [s1; s2]) * PAGE_SIZE
  | Halt _ => False
  end.

Lemma load_elf_spec w σ m :
  holds w F → runs_in t th p σ → addrspaces (vm σ) !! p = Some empty_as → flag_ok σ → mem_ok (vm σ) →
  wp load_elf (load_post σ m) (w, (σ, m)).
Proof.
  intros Hh Hrun Has Hf Hm. destruct regions_shape as [Hsh Hun]. pose proof (ef_small _ Helf).
  assert (∀ w' a first' m' e, holds w' F → load_error e →
    load_post σ m (Fail e) (w', (with_as p a first' σ, m'))) as Herr.
  { intros w' a first' m' e Hw' He. split_and!; [done|by exists a, first'|by left]. }
  unfold load_elf. wp_steps. apply (read_struct_spec w F); [done|unfold sizeof_Ehdr; lia..| | |].
  2: { intros w' _ Hlt. pose proof (proj1 (ef_exec _ Helf)). unfold sizeof_Ehdr in Hlt. lia. }
  2: { intros w' e Hw' He. pose proof (Herr w' empty_as (firstpaddr (vm σ)) m e Hw' (or_introl He)) as HE.
       by rewrite (with_as_id p empty_as σ) in HE. }
  intros w1 Hw1 _. change (decode_ehdr _) with (elf_ehdr F). cbv zeta. rewrite (ehdr_ok_executable _ (ef_exec _ Helf)). simpl. wp_step.
  apply define_loop_spec; [done..| |intros; apply Herr; [done|by left]].
  intros w2 Hw2. set (σ1 := with_as p _ _ σ). unfold on_kernel. wp_steps.
  eapply cur_vmspace_spec; [by apply runs_in_as|]. wp_step. eapply wp_deref; [done|]. wp_steps.
  apply (as_prepare_load_spec p (regions [s1; s2]));
    [by apply flag_ok_vm|apply mem_ok_with; [done|apply Hm|destruct Hm; lia]|apply lookup_insert_eq|done|done| |].
  - intros Hroom. wp_step. change (set_vm (vm_with p ?a ?n (vm σ1)) σ1) with (with_as p a n σ1).
    unfold σ1. rewrite with_as_twice. apply load_loop_spec; [done|by apply runs_in_as| |].
    + intros w3 m' Hw3 Hld. wp_step. split_and!; [done|by eexists _, _|done|done|exact Hroom|].
      simpl. by rewrite lookup_insert_eq.
    + intros. by apply Herr.
  - intros a' first' Hfull _ _ _. change (set_vm (vm_with p ?a ?n (vm σ1)) σ1) with (with_as p a n σ1).
    unfold σ1. rewrite with_as_twice. split_and!; [done|by eexists _, _|]. right. split; [done|exact Hfull].
Qed.
End executable.

(** The memory after both segments were stored. *)
Lemma loaded_two F s1 s2 m m' :
  segment_ok F s1 → segment_ok F s2 → loaded F [s1; s2] m m' →
  p_vaddr s1 + p_memsz s1 ≤ p_vaddr s2 ∨ p_vaddr s2 + p_memsz s2 ≤ p_vaddr s1 →
  bytes_at m' (p_vaddr s1) (seg_bytes F s1) ∧ bytes_at m' (p_vaddr s2) (seg_bytes F s2) ∧
  ∀ va, (∀ ph, ph ∈ [s1; s2] → ¬ p_vaddr ph ≤ va < p_vaddr ph + p_memsz ph) →
    mbytes m' !! va = mbytes m !! va.
Proof.
  intros Hs1 Hs2 (m1 & Hst1 & m2 & Hst2 & ->) Hdis.
  pose proof (seg_bytes_len _ _ Hs1) as Hl1. pose proof (seg_bytes_len _ _ Hs2) as Hl2. split_and!.
  - intros i b Hb. destruct Hst2 as [_ Hm2]. rewrite Hm2. pose proof (lookup_lt_Some _ _ _ Hb).
    rewrite decide_False by (unfold zlen in *; lia). by eapply stored_bytes_at.
  - by eapply stored_bytes_at.
  - intros va Hva. destruct Hst1 as [_ Hm1], Hst2 as [_ Hm2].
    pose proof (Hva s1 ltac:(by left)). pose proof (Hva s2 ltac:(by right; left)).
    by rewrite Hm2, decide_False, Hm1, decide_False by lia.
Qed.

(** C9: [load_elf] brings an executable into memory.  The executable is a MIPS
    ELF file of less than 2^31 bytes, its program headers in the file and of the
    types the loader knows, with two loadable segments that are apart, in user
    space and above the first page ([load_elf_page_zero] is what happens there),
    each with at least one byte in memory and with its part in the file, possibly
    empty, inside the file.  For a thread with a new address space the call never
    panics; when it returns, the entry point is the one of the header, each
    segment holds its bytes of the file and then zeros up to its size in memory,
    every other byte is as it was, and the address space is well formed and maps
    every byte of the segments.  It fails with the errors of the file and of user
    memory, or with ENOMEM when the frames do not suffice; whatever happens, only
    the address space of the thread and the frames taken change in the kernel. *)
Theorem load_elf_correct w F σ m s1 s2 t th p :
  holds w F → elf_file F → elf_loads F = [s1; s2] → segment_ok F s1 → segment_ok F s2 →
  p_vaddr s1 + p_memsz s1 ≤ p_vaddr s2 ∨ p_vaddr s2 + p_memsz s2 ≤ p_vaddr s1 →
  runs_in t th p σ → addrspaces (vm σ) !! p = Some empty_as → flag_ok σ → mem_ok (vm σ) →
  match load_elf (w, (σ, m)) with
  | (r, (w', (σ', m'))) =>
      holds w' F ∧ (∃ a first', σ' = with_as p a first' σ) ∧
      match r with
      | Ret entry =>
          entry = e_entry (elf_ehdr F) ∧
          bytes_at m' (p_vaddr s1) (seg_bytes F s1) ∧ bytes_at m' (p_vaddr s2) (seg_bytes F s2) ∧
          (∀ va, (∀ ph, ph ∈ [s1; s2] → ¬ p_vaddr ph ≤ va < p_vaddr ph + p_memsz ph) →
             mbytes m' !! va = mbytes m !! va) ∧
          ∃ a, addrspaces (vm σ') !! p = Some a ∧ as_ok a ∧
            ∀ ph va, ph ∈ [s1; s2] → p_vaddr ph ≤ va < p_vaddr ph + p_memsz ph →
              is_Some (as_translate a va)
      | Fail e => read_error e ∨ e = EFAULT ∨
          e = ENOMEM ∧ lastpaddr (vm σ) < firstpaddr (vm σ) + as_pages (regions [s1; s2]) * PAGE_SIZE
      | Halt _ => False
      end
  end.
Proof.
  intros Hh Helf Hl Hs1 Hs2 Hdis Hrun Has Hf Hm.
  pose proof (load_elf_spec F s1 s2 Helf Hl Hs1 Hs2 t th p w σ m Hh Hrun Has Hf Hm) as Hwp.
  destruct (regions_shape F s1 s2 Hs1 Hs2) as [Hsh _].
  apply wp_elim in Hwp. destruct (load_elf (w, (σ, m))) as [r [w' [σ' m']]].
  destruct Hwp as (Hw' & Hfr & Hr). cbn [fst snd] in *. split_and!; [done|done|].
  destruct r as [entry|e|]; [|unfold load_error in Hr; tauto|done].
  destruct Hr as (-> & Hld & Hroom & Ha). split; [done|].
  destruct (loaded_two _ _ _ _ _ Hs1 Hs2 Hld Hdis) as (? & ? & ?). split_and!; [done..|].
  eexists. split_and!; [exact Ha| |].
  - destruct Hm. apply fresh_frames_ok; [done|done|done|lia].
  - intros ph va. by apply (regions_translate F).
Qed.

(** C39: [load_elf] refuses what is not an executable for the machine.  A file of
    bytes shorter than the header, or without the magic number, the class, the
    encoding, the versions, the type or the machine of a 32-bit big-endian MIPS
    executable in its first 24 bytes, gives ENOEXEC or an error of the file, and
    neither the kernel nor user memory is touched. *)
Theorem load_elf_refuses w F σ m :
  holds w F → Forall is_u8 F → ¬ mips_executable F →
  match load_elf (w, (σ, m)) with
  | (r, (w', (σ', m'))) => holds w' F ∧ σ' = σ ∧ m' = m ∧
      ∃ e, r = Fail e ∧ (e = ENOEXEC ∨ read_error e)
  end.
Proof.
  intros Hh Hu Hbad.
  assert (wp load_elf (λ r st, holds st.1 F ∧ st.2 = (σ, m) ∧
    ∃ e, r = Fail e ∧ (e = ENOEXEC ∨ read_error e)) (w, (σ, m))) as Hwp.
  { unfold load_elf. wp_steps. apply (read_struct_spec w F); [done|unfold sizeof_Ehdr; lia..| | |].
    - intros w' Hw' Hlen. change (decode_ehdr _) with (elf_ehdr F). cbv zeta.
      destruct (ehdr_ok (elf_ehdr F)) eqn:Hok; simpl; [|wp_steps; eauto 10].
      destruct Hbad. apply executable_ehdr_ok; [done|unfold sizeof_Ehdr in Hlen; lia|done].
    - intros w' Hw' _. eauto 10.
    - intros w' e Hw' He. eauto 10. }
  apply wp_elim in Hwp. destruct (load_elf (w, (σ, m))) as [r [w' [σ' m']]].
  destruct Hwp as (? & [= -> ->] & ?). auto.
Qed.
End specs.

(** ** Files of SFS *)

Section sfs.
Context {D : Type} `{BlockDeviceLaws D}.
Implicit Types (f : sfs_fs D) (sv : sfs_vnode).

#[export] Instance sfs_readable : Readable (sfs_fs D * sfs_vnode) := sfs_read.

Definition sfs_holds (w : sfs_fs D * sfs_vnode) (F : list Z) : Prop :=
  fs_ok w.1 ∧ file_ok w.1 (sv_i w.2) ∧ 0 ≤ sfi_size (sv_i w.2) < 2 ^ 31 ∧
  F = frange w.1 (sv_i w.2) 0 (sfi_size (sv_i w.2)).

Lemma frange_part f i (size off n : Z) :
  0 ≤ size → 0 ≤ off → 0 ≤ n →
  file_part (frange f i 0 size) off n = frange f i off (Z.max 0 (Z.min n (size - off))).
Proof.
  intros Hs Ho Hn. apply list_eq_same_length with (Z.to_nat (Z.max 0 (Z.min n (size - off)))).
  - pose proof (frange_len f i off (Z.max 0 (Z.min n (size - off)))) as Hl. unfold zlen in Hl. lia.
  - pose proof (file_part_len (frange f i 0 size) off n Ho Hn) as Hl.
    rewrite frange_len in Hl by done. unfold zlen in Hl. lia.
  - intros k x y Hk Hx Hy. unfold file_part in Hx. rewrite lookup_take_lt, lookup_drop in Hx by lia.
    unfold frange in Hx, Hy. apply list_lookup_fmap_Some in Hx as (z & -> & [-> _]%lookup_seqZ).
    apply list_lookup_fmap_Some in Hy as (z & -> & [-> _]%lookup_seqZ). f_equal. lia.
Qed.

#[export] Program Instance sfs_readable_laws : ReadableLaws (sfs_fs D * sfs_vnode) :=
  {| holds := sfs_holds; read_error := λ e, e ∈ [EIO; EFAULT; EINVAL] |}.
Next Obligation.
  intros [f sv] F s Q (Hfs & Hok & Hsz & ->) Huio Hdir Hres Hoff Hend HQ HF. cbn [fst snd] in *.
  assert (io_req f sv s UIO_READ) as Hreq by (by split).
  assert (∀ d', same_disk (sfs_device f) d' →
    sfs_holds (set_device d' f, sv) (frange f (sv_i sv) 0 (sfi_size (sv_i sv)))) as Hsame.
  { intros d' Hd. destruct (same_disk_quiet f sv d' Hfs Hok Hd) as [[[] _ _ _] _ _].
    split; [done|]. split; [done|]. split; [done|]. symmetry. apply frange_ext. intros o _. by apply fbyte_same_disk. }
  change VOP_READ with (sfs_read (D := D)). unfold sfs_read. wp_steps.
  apply wp_assert; [by apply bool_decide_eq_true_2|].
  eapply wp_mono; [apply sfs_io_read_spec; [done|done|lia]|].
  intros r [w' s'] [(d' & Hd & Hp & _) Hr]. cbn [fst snd] in Hp, Hr. subst w'.
  destruct r as [[]|e|]; [| |done].
  - destruct Hr as [Hmv Hok']. apply HQ; [by apply Hsame| |done]. rewrite frange_part by lia. exact Hmv.
  - apply HF; [by apply Hsame|]. rewrite !elem_of_cons. intuition.
Qed.
End sfs.

(** ** A small executable

    Three program headers: register information, three instructions at 0x400000,
    and four bytes of data with four more to be zeroed at 0x10000000. *)

Definition phdr_bytes (ty off vaddr filesz memsz flags : Z) : list Z :=
  be32 ty ++ be32 off ++ be32 vaddr ++ be32 vaddr ++ be32 filesz ++ be32 memsz ++ be32 flags ++ be32 4096.
Definition exec_text : list Z := be32 0x27bdfff8 ++ be32 0x0000000c ++ be32 0x1000ffff.
Definition exec_data : list Z := [1; 2; 3; 4].
Definition image (machine text : Z) : list Z :=
  [0x7f; 69; 76; 70; 1; 2; 1] ++ replicate 9 0 ++ be16 2 ++ be16 machine ++ be32 1 ++ be32 0x400000 ++ be32 52 ++
  be32 0 ++ be32 0 ++ be16 52 ++ be16 32 ++ be16 3 ++ be16 40 ++ be16 0 ++ be16 0 ++
  phdr_bytes PT_MIPS_REGINFO 148 0x400000 0 0 4 ++ phdr_bytes PT_LOAD 148 text 12 12 5 ++
  phdr_bytes PT_LOAD 160 0x10000000 4 8 6 ++ exec_text ++ exec_data.
Definition exec_image : list Z := image 8 0x400000.

Definition exec_phdr (i : Z) : Elf_Phdr := elf_phdr exec_image i.

Definition exec_inode : sfs_inode :=
  {| sfi_size := 164; sfi_type := SFS_TYPE_FILE; sfi_linkcount := 1;
     sfi_direct := 4 :: replicate 14 0; sfi_indirect := 0; sfi_waste := replicate 110 0 |}.
Definition image_fs (im : list Z) : sfs_fs (lhd_softc ramcard) :=
  set_device {| lh_hw := {| rc_sectors := <[4%nat := im ++ replicate 348 0]> example_sectors; rc_faults := [] |};
     lh_buf := replicate 512 0; lh_reg_sect := 0; lh_reg_stat := 0; lh_result := None;
     lh_clear := 1; lh_done := 0; lh_blocks := 12 |} (example_fs [] 240).
Definition exec_fs : sfs_fs (lhd_softc ramcard) := image_fs exec_image.
Definition exec_vnode : sfs_vnode :=
  {| sv_v := sv_v example_vnode; sv_i := exec_inode; sv_ino := 3; sv_dirty := false |}.

Definition exec_state : kstate := set_vm (set_addrspaces {[100 := empty_as]} (vm user_state)) user_state.
Definition exec_mem : memory :=
  {| mbytes := list_to_map ((λ a, (a, 0xaa)) <$> (seqZ 0x400000 16 ++ seqZ 0x10000000 16)); mro := ∅ |}.

Lemma image_holds machine text : holds (image_fs (image machine text), exec_vnode) (image machine text).
Proof.
  assert (fs_ok (image_fs (image machine text))) by (destruct (example_fs_ok []); split; try done).
  split; [done|]. split; [|split; [done|]].
  - apply file_ok_check; [|vm_compute; reflexivity].
    split; try done; (split; [done|]); repeat constructor; done.
  - vm_compute. reflexivity.
Qed.

Lemma exec_elf : elf_file exec_image.
Proof.
  split; [done|split; [done|vm_compute; auto]| |].
  - change (e_phnum (elf_ehdr exec_image)) with 3. change (e_phoff (elf_ehdr exec_image)) with 52.
    change (e_phentsize (elf_ehdr exec_image)) with 32. change (zlen exec_image) with 164. lia.
  - apply (bool_decide_unpack _). vm_compute. exact I.
Qed.

Lemma exec_loads : elf_loads exec_image = [exec_phdr 1; exec_phdr 2].
Proof. vm_compute. reflexivity. Qed.

Lemma exec_segments :
  segment_ok exec_image (exec_phdr 1) ∧ segment_ok exec_image (exec_phdr 2) ∧
  p_vaddr (exec_phdr 1) + p_memsz (exec_phdr 1) ≤ p_vaddr (exec_phdr 2).
Proof. repeat split; vm_compute; congruence. Qed.

Lemma exec_kernel :
  runs_in 1 user_thread 100 exec_state ∧ addrspaces (vm exec_state) !! 100 = Some empty_as ∧
  flag_ok exec_state ∧ mem_ok (vm exec_state).
Proof. repeat split; vm_compute; congruence. Qed.

Lemma exec_bytes :
  p_vaddr (exec_phdr 1) = 0x400000 ∧ seg_bytes exec_image (exec_phdr 1) = exec_text ∧
  p_vaddr (exec_phdr 2) = 0x10000000 ∧ seg_bytes exec_image (exec_phdr 2) = [1; 2; 3; 4; 0; 0; 0; 0].
Proof. vm_compute. auto. Qed.

Lemma load_elf_correct_witness :
  ∃ w σ m, load_elf ((exec_fs, exec_vnode), (exec_state, exec_mem)) = (Ret 0x400000, (w, (σ, m))) ∧
    bytes_at m 0x400000 exec_text ∧ bytes_at m 0x10000000 [1; 2; 3; 4; 0; 0; 0; 0].
Proof.
  destruct exec_segments as (Hs1 & Hs2 & Hd). destruct exec_kernel as (Hr & Ha & Hf & Hm).
  assert ((load_elf ((exec_fs, exec_vnode), (exec_state, exec_mem))).1 = Ret 0x400000) as Hret
    by (vm_compute; reflexivity).
  pose proof (load_elf_correct (exec_fs, exec_vnode) exec_image exec_state exec_mem
    (exec_phdr 1) (exec_phdr 2) 1 user_thread 100 (image_holds 8 0x400000) exec_elf exec_loads Hs1 Hs2
    (or_introl Hd) Hr Ha Hf Hm) as Hload.
  destruct (load_elf _) as [r [w [σ m]]]. cbn [fst] in Hret. subst r. exists w, σ, m.
  destruct exec_bytes as (<- & <- & <- & <-).
  split; [reflexivity|]. destruct Hload as (_ & _ & _ & H1 & H2 & _). exact (conj H1 H2).
Defined.

(** The same file for another machine (3, the i386). *)
Lemma load_elf_refuses_witness :
  ∃ w e, load_elf ((image_fs (image 3 0x400000), exec_vnode), (exec_state, exec_mem)) =
         (Fail e, (w, (exec_state, exec_mem))).
Proof.
  pose proof (load_elf_refuses (image_fs (image 3 0x400000), exec_vnode) (image 3 0x400000)
    exec_state exec_mem (image_holds 3 0x400000)) as Hload.
  destruct (load_elf _) as [r [w [σ m]]].
  destruct Hload as (_ & -> & -> & e & -> & _); [apply (bool_decide_unpack _); vm_compute; exact I| |by exists w, e].
  intros (_ & _ & Hm). vm_compute in Hm. discriminate Hm.
Defined.

(** ** The first page

    With the text of the executable at address 0, and user memory that takes the
    copies, [load_elf] returns and the text is not mapped.  A segment in page zero has the base 0, which
    [as_define_region] takes for a region that is not set: the next segment takes
    its place, and the assertion of [vm_fault] on the second region fails, for
    this address as for any other: the copy of the text is the first to fault. *)

Definition page_zero_mem : memory :=
  {| mbytes := list_to_map ((λ a, (a, 0xaa)) <$> (seqZ 0 16 ++ seqZ 0x10000000 16)); mro := ∅ |}.
Lemma load_elf_page_zero :
  match load_elf ((image_fs (image 8 0), exec_vnode), (exec_state, page_zero_mem)) with
  | (Ret _, (_, (σ, _))) =>
      (a ← addrspaces (vm σ) !! 100; as_translate a 0) = None ∧ (vm_fault VM_FAULT_READ 0 σ).1 = Halt Panic
  | _ => False
  end.
Proof. vm_compute. auto. Qed.
