(* ===== verification/Kheap.v ===== *)
(** * The kernel heap (kern/lib/kheap.c)

    Small objects live on pages of blocks of one size; each page has a
    [struct pageref] in a fixed table, two linked lists run through the table
    (all pages, and the pages of one size), and the free blocks of a page are a
    linked list through their first words.  A pointer to a [struct pageref] is
    its index in the table.  [hmem] is the memory of the kernel by the word, and
    [NULL] is 0.

    Pages come from the layer below: [KernelPages] is what the heap calls,
    [KernelPagesLaws] what it relies on.  dumbvm.c is shown to provide it at the
    end.

    What the heap promises is stated with [heap_repr h A]: the state [h] has the
    blocks [A] (address and size) allocated.  [kmalloc] adds a block that is
    disjoint from all others, [kfree] removes one, and neither touches the words
    of the other blocks. *)

From S2P Require Import Prelude Array Queue Vnode Machine Dumbvm.

Definition NSIZES : Z := 8.
Definition sizes : list Z := [16; 32; 64; 128; 256; 512; 1024; 2048].
Definition LARGEST_SUBPAGE_SIZE : Z := 2048.
Definition INVALID_OFFSET : Z := 0xffff.
Definition NPAGEREFS : Z := 256.
Definition INUSE_WORDS : Z := NPAGEREFS / 32.
Definition MIPS_KSEG1 : Z := 0xa0000000.
Definition DEADBEEF : Z := 0xdeadbeef.

Record pageref := {
  next_samesize : option Z;
  next_all : option Z;
  pageaddr_and_blocktype : Z;
  freelist_offset : Z;
  nfree : Z;
}.

Definition PR_PAGEADDR (r : pageref) : Z := Z.land (pageaddr_and_blocktype r) PAGE_FRAME.
Definition PR_BLOCKTYPE (r : pageref) : Z := Z.land (pageaddr_and_blocktype r) (u32 (Z.lnot PAGE_FRAME)).
Definition MKPAB (pa blk : Z) : Z := Z.lor (Z.land pa PAGE_FRAME) (Z.land blk (u32 (Z.lnot PAGE_FRAME))).

Definition set_next_samesize (p : option Z) (r : pageref) : pageref :=
  {| next_samesize := p; next_all := next_all r; pageaddr_and_blocktype := pageaddr_and_blocktype r;
     freelist_offset := freelist_offset r; nfree := nfree r |}.
Definition set_next_all (p : option Z) (r : pageref) : pageref :=
  {| next_samesize := next_samesize r; next_all := p; pageaddr_and_blocktype := pageaddr_and_blocktype r;
     freelist_offset := freelist_offset r; nfree := nfree r |}.
Definition set_pab (x : Z) (r : pageref) : pageref :=
  {| next_samesize := next_samesize r; next_all := next_all r; pageaddr_and_blocktype := x;
     freelist_offset := freelist_offset r; nfree := nfree r |}.
Definition set_freelist_offset (x : Z) (r : pageref) : pageref :=
  {| next_samesize := next_samesize r; next_all := next_all r; pageaddr_and_blocktype := pageaddr_and_blocktype r;
     freelist_offset := x; nfree := nfree r |}.
Definition set_nfree (n : Z) (r : pageref) : pageref :=
  {| next_samesize := next_samesize r; next_all := next_all r; pageaddr_and_blocktype := pageaddr_and_blocktype r;
     freelist_offset := freelist_offset r; nfree := n |}.

(** The layer below: the priority level of the processor and whole pages. *)
Class KernelPages (P : Type) := {
  kp_splhigh : M P Z;
  kp_splx : Z → M P Z;
  kp_alloc : Z → M P Z;
  kp_free : Z → M P unit;
}.

Record kheap (P : Type) := {
  pagerefs : list pageref;
  pagerefs_inuse : list Z;
  sizebases : list (option Z);
  allbase : option Z;
  hmem : gmap Z Z;
  below : P;
}.
Arguments pagerefs {_} _.
Arguments pagerefs_inuse {_} _.
Arguments sizebases {_} _.
Arguments allbase {_} _.
Arguments hmem {_} _.
Arguments below {_} _.

Section ops.
Context {P : Type} `{KernelPages P}.
Implicit Types (h : kheap P).

Definition set_pagerefs x h : kheap P :=
  {| pagerefs := x; pagerefs_inuse := pagerefs_inuse h; sizebases := sizebases h; allbase := allbase h;
     hmem := hmem h; below := below h |}.
Definition set_inuse x h : kheap P :=
  {| pagerefs := pagerefs h; pagerefs_inuse := x; sizebases := sizebases h; allbase := allbase h;
     hmem := hmem h; below := below h |}.
Definition set_sizebases x h : kheap P :=
  {| pagerefs := pagerefs h; pagerefs_inuse := pagerefs_inuse h; sizebases := x; allbase := allbase h;
     hmem := hmem h; below := below h |}.
Definition set_allbase x h : kheap P :=
  {| pagerefs := pagerefs h; pagerefs_inuse := pagerefs_inuse h; sizebases := sizebases h; allbase := x;
     hmem := hmem h; below := below h |}.
Definition set_hmem x h : kheap P :=
  {| pagerefs := pagerefs h; pagerefs_inuse := pagerefs_inuse h; sizebases := sizebases h; allbase := allbase h;
     hmem := x; below := below h |}.
Definition set_below x h : kheap P :=
  {| pagerefs := pagerefs h; pagerefs_inuse := pagerefs_inuse h; sizebases := sizebases h; allbase := allbase h;
     hmem := hmem h; below := x |}.

Definition on_below {A} : M P A → M (kheap P) A := zoom below set_below.

(** [*pr], and an assignment to its fields. *)
Definition get_pr (pr : Z) : M (kheap P) pageref := h ← get; deref (pagerefs h !z pr).
Definition update_pr (pr : Z) (f : pageref → pageref) : M (kheap P) unit :=
  h ← get;
  r ← deref (pagerefs h !z pr);
  rs ← deref (zstore (pagerefs h) pr (f r));
  put (set_pagerefs rs h).
Definition get_base (t : Z) : M (kheap P) (option Z) := h ← get; deref (sizebases h !z t).
Definition put_base (t : Z) (p : option Z) : M (kheap P) unit :=
  h ← get; bs ← deref (zstore (sizebases h) t p); put (set_sizebases bs h).

(** [fl->next], a word of memory. *)
Definition load (a : Z) : M (kheap P) Z := gets (λ h, hmem h !!! a).
Definition store (a w : Z) : M (kheap P) unit := modify (λ h, set_hmem (<[a := w]> (hmem h)) h).

Definition fill_deadbeef (ptr len : Z) : M (kheap P) unit :=
  forM (seqZ 0 (len / 4)) (λ i, store (ptr + 4 * i) DEADBEEF).

(** ** The table of pagerefs *)

Fixpoint allocpageref_bits (i : Z) (js : list Z) : M (kheap P) (option Z) :=
  match js with
  | [] => panic
  | j :: js' =>
      let k := u32 (Z.shiftl 1 j) in
      h ← get;
      w ← deref (pagerefs_inuse h !z i);
      if Z.land w k =? 0 then
        ws ← deref (zstore (pagerefs_inuse h) i (u32 (Z.lor w k)));
        _ ← put (set_inuse ws h);
        mret (Some (i * 32 + j))
      else allocpageref_bits i js'
  end.

Fixpoint allocpageref_words (is' : list Z) : M (kheap P) (option Z) :=
  match is' with
  | [] => mret None
  | i :: rest =>
      h ← get;
      w ← deref (pagerefs_inuse h !z i);
      if w =? 0xffffffff then allocpageref_words rest
      else allocpageref_bits i (seqZ 0 32)
  end.

Definition allocpageref : M (kheap P) (option Z) := allocpageref_words (seqZ 0 INUSE_WORDS).

Definition freepageref (p : Z) : M (kheap P) unit :=
  let j := p in
  _ ← assert (j <? NPAGEREFS);
  let i := j / 32 in
  let k := u32 (Z.shiftl 1 (j mod 32)) in
  h ← get;
  w ← deref (pagerefs_inuse h !z i);
  _ ← assert (negb (Z.land w k =? 0));
  ws ← deref (zstore (pagerefs_inuse h) i (Z.land w (u32 (Z.lnot k))));
  put (set_inuse ws h).

(** The loops over pointers [guy] to pointers, along the list of the pages of one
    size and along the list of all pages: [prev] is the pageref whose field [guy]
    points to, if it does not point to the head of the list. *)
Fixpoint unlink (get_head : M (kheap P) (option Z)) (put_head : option Z → M (kheap P) unit)
    (next : pageref → option Z) (set_next : option Z → pageref → pageref)
    (fuel : nat) (prev : option Z) (pr : Z) : M (kheap P) unit :=
  match fuel with
  | O => nofuel
  | S fuel' =>
      guy ← match prev with None => get_head | Some q => r ← get_pr q; mret (next r) end;
      match guy with
      | None => mret ()
      | Some g =>
          if g =? pr then
            r ← get_pr pr;
            match prev with
            | None => put_head (next r)
            | Some q => update_pr q (set_next (next r))
            end
          else unlink get_head put_head next set_next fuel' (Some g) pr
      end
  end.

(** The lists have at most [NPAGEREFS] elements. *)
Definition list_fuel : nat := S (Z.to_nat NPAGEREFS).

Definition remove_lists (pr blktype : Z) : M (kheap P) unit :=
  _ ← assert ((0 <=? blktype) && (blktype <? NSIZES));
  _ ← unlink (get_base blktype) (put_base blktype) next_samesize set_next_samesize list_fuel None pr;
  unlink (gets allbase) (λ p, modify (set_allbase p)) next_all set_next_all list_fuel None pr.

(** ** Allocation *)

Fixpoint blocktype_from (i : Z) (ss : list Z) (sz : Z) : M (kheap P) Z :=
  match ss with
  | [] => panic
  | s :: ss' => if sz <=? s then mret i else blocktype_from (i + 1) ss' sz
  end.
Definition blocktype (sz : Z) : M (kheap P) Z := blocktype_from 0 sizes sz.

(** The code at [doalloc]: take the first free block of the page. *)
Definition doalloc (pr : Z) : M (kheap P) Z :=
  r ← get_pr pr;
  _ ← assert (freelist_offset r <? PAGE_SIZE);
  let prpage := PR_PAGEADDR r in
  let fla := u32 (prpage + freelist_offset r) in
  fl ← load fla;
  _ ← update_pr pr (set_nfree (u16 (nfree r - 1)));
  r ← get_pr pr;
  _ ← (if negb (fl =? 0) then
         _ ← assert (nfree r >? 0);
         _ ← assert (u32 (fl - prpage) <? PAGE_SIZE);
         update_pr pr (set_freelist_offset (u16 (fl - prpage)))
       else
         _ ← assert (nfree r =? 0);
         update_pr pr (set_freelist_offset INVALID_OFFSET));
  mret fla.

(** The search for a page with a free block. *)
Fixpoint find_page (fuel : nat) (pr : option Z) (blktype : Z) : M (kheap P) (option Z) :=
  match pr with
  | None => mret None
  | Some p =>
      match fuel with
      | O => nofuel
      | S fuel' =>
          r ← get_pr p;
          _ ← assert (PR_BLOCKTYPE r =? blktype);
          if nfree r >? 0 then mret (Some p) else find_page fuel' (next_samesize r) blktype
      end
  end.

(** The free list of a new page at [fla] with [n] blocks of size [sz]; the
    address of its head. *)
Definition make_freelist (fla sz n : Z) : M (kheap P) Z :=
  _ ← store fla 0;
  _ ← forM (seqZ 1 (n - 1)) (λ i,
        let fl := u32 (fla + i * sz) in
        let next := u32 (fla + (i - 1) * sz) in
        _ ← store fl next;
        assert (negb (fl =? next)));
  mret (if n >? 1 then u32 (fla + (n - 1) * sz) else fla).

(** A new page; [None] when there is no room for it. *)
Definition new_page (blktype sz : Z) : M (kheap P) (option Z) :=
  p ← allocpageref;
  match p with
  | None => mret None
  | Some pr =>
      prpage ← on_below (kp_alloc 1);
      if prpage =? 0 then
        _ ← freepageref pr;
        mret None
      else
        _ ← update_pr pr (λ r, set_nfree (u16 (PAGE_SIZE / sz)) (set_pab (MKPAB prpage blktype) r));
        r ← get_pr pr;
        fla ← make_freelist prpage sz (nfree r);
        _ ← update_pr pr (set_freelist_offset (u16 (fla - prpage)));
        r ← get_pr pr;
        _ ← assert (freelist_offset r =? (nfree r - 1) * sz);
        base ← get_base blktype;
        _ ← update_pr pr (set_next_samesize base);
        _ ← put_base blktype (Some pr);
        all ← gets allbase;
        _ ← update_pr pr (set_next_all all);
        _ ← modify (set_allbase (Some pr));
        mret (Some pr)
  end.

(** A page with a free block, old or new. *)
Definition pick_page (blktype sz : Z) : M (kheap P) (option Z) :=
  base ← get_base blktype;
  found ← find_page list_fuel base blktype;
  match found with
  | Some pr => mret (Some pr)
  | None => new_page blktype sz
  end.

Definition subpage_kmalloc (sz : Z) : M (kheap P) Z :=
  blktype ← blocktype sz;
  sz ← deref (sizes !z blktype);
  spl ← on_below kp_splhigh;
  pr ← pick_page blktype sz;
  match pr with
  | None => _ ← on_below (kp_splx spl); mret 0
  | Some pr =>
      retptr ← doalloc pr;
      _ ← on_below (kp_splx spl);
      mret retptr
  end.

(** ** Freeing *)

(** The pageref of the page that [ptraddr] is on. *)
Fixpoint find_owner (fuel : nat) (pr : option Z) (ptraddr : Z) : M (kheap P) (option Z) :=
  match pr with
  | None => mret None
  | Some p =>
      match fuel with
      | O => nofuel
      | S fuel' =>
          r ← get_pr p;
          let prpage := PR_PAGEADDR r in
          let blktype := PR_BLOCKTYPE r in
          _ ← assert ((0 <=? blktype) && (blktype <? NSIZES));
          if (prpage <=? ptraddr) && (ptraddr <? u32 (prpage + PAGE_SIZE)) then mret (Some p)
          else find_owner fuel' (next_all r) ptraddr
      end
  end.

(** The block at [ptraddr] goes on the free list of its page. *)
Definition put_back (pr : Z) (r : pageref) (ptraddr sz : Z) : M (kheap P) unit :=
  let prpage := PR_PAGEADDR r in
  let offset := u32 (ptraddr - prpage) in
  _ ← fill_deadbeef ptraddr sz;
  let fla := u32 (prpage + offset) in
  _ ← (if freelist_offset r =? INVALID_OFFSET then store fla 0
       else store fla (u32 (prpage + freelist_offset r)));
  update_pr pr (λ r, set_nfree (u16 (nfree r + 1)) (set_freelist_offset (u16 offset) r)).

(** A page all of whose blocks are free is given back. *)
Definition release_page (pr blktype prpage : Z) : M (kheap P) unit :=
  _ ← remove_lists pr blktype;
  _ ← on_below (kp_free prpage);
  freepageref pr.

(** Returns whether the block was on one of the pages. *)
Definition subpage_kfree (ptraddr : Z) : M (kheap P) bool :=
  spl ← on_below kp_splhigh;
  all ← gets allbase;
  owner ← find_owner list_fuel all ptraddr;
  match owner with
  | None => _ ← on_below (kp_splx spl); mret false
  | Some pr =>
      r ← get_pr pr;
      let prpage := PR_PAGEADDR r in
      let blktype := PR_BLOCKTYPE r in
      sz ← deref (sizes !z blktype);
      let offset := u32 (ptraddr - prpage) in
      if (PAGE_SIZE <=? offset) || negb (offset mod sz =? 0) then panic else
      _ ← put_back pr r ptraddr sz;
      r ← get_pr pr;
      _ ← assert (nfree r <=? PAGE_SIZE / sz);
      _ ← (if nfree r =? PAGE_SIZE / sz then release_page pr blktype prpage else mret ());
      _ ← on_below (kp_splx spl);
      mret true
  end.

Definition kmalloc (sz : Z) : M (kheap P) Z :=
  if LARGEST_SUBPAGE_SIZE <=? sz then
    let npages := u32 (sz + PAGE_SIZE - 1) / PAGE_SIZE in
    address ← on_below (kp_alloc npages);
    if address =? 0 then mret 0 else mret address
  else subpage_kmalloc sz.

Definition kfree (ptr : Z) : M (kheap P) unit :=
  if ptr =? 0 then mret ()
  else
    onpage ← subpage_kfree ptr;
    if (onpage : bool) then mret ()
    else
      _ ← assert (ptr mod PAGE_SIZE =? 0);
      on_below (kp_free ptr).
End ops.

(** ** The layer below *)

Class KernelPagesLaws (P : Type) `{KernelPages P} := {
  kp_ok : P → Prop;
  kp_level : P → Z;
  (** [n] pages at [a] have been handed out and not given back. *)
  kp_sized : P → Z → Z → Prop;
  kp_range : ∀ p a n, kp_ok p → kp_sized p a n →
    a mod PAGE_SIZE = 0 ∧ MIPS_KSEG0 ≤ a ∧ 0 < n ∧ a + n * PAGE_SIZE ≤ MIPS_KSEG1;
  kp_fun : ∀ p a n m, kp_ok p → kp_sized p a n → kp_sized p a m → n = m;
  kp_apart : ∀ p a n b m, kp_ok p → kp_sized p a n → kp_sized p b m → a ≠ b →
    a + n * PAGE_SIZE ≤ b ∨ b + m * PAGE_SIZE ≤ a;
  same_blocks := λ p p', ∀ a n, kp_sized p' a n ↔ kp_sized p a n;
  kp_splhigh_law : ∀ p (Q : result Z → P → Prop), kp_ok p →
    (∀ p', kp_ok p' → same_blocks p p' → Q (Ret (kp_level p)) p') → wp kp_splhigh Q p;
  kp_splx_law : ∀ p l (Q : result Z → P → Prop), kp_ok p → 0 ≤ l →
    (∀ p' x, kp_ok p' → same_blocks p p' → kp_level p' = l → Q (Ret x) p') → wp (kp_splx l) Q p;
  kp_level_pos : ∀ p, kp_ok p → 0 ≤ kp_level p;
  kp_alloc_law : ∀ p n (Q : result Z → P → Prop), kp_ok p → 0 < n < 2 ^ 19 →
    (∀ p' a, kp_ok p' → kp_level p' = kp_level p → a ≠ 0 → (∀ m, ¬ kp_sized p a m) →
       (∀ b m, kp_sized p' b m ↔ kp_sized p b m ∨ b = a ∧ m = n) → Q (Ret a) p') →
    (∀ p', kp_ok p' → kp_level p' = kp_level p → same_blocks p p' → Q (Ret 0) p') →
    wp (kp_alloc n) Q p;
  kp_free_law : ∀ p a n (Q : result unit → P → Prop), kp_ok p → kp_sized p a n →
    (∀ p', kp_ok p' → kp_level p' = kp_level p → (∀ b m, kp_sized p' b m ↔ kp_sized p b m ∧ b ≠ a) →
       Q (Ret ()) p') →
    wp (kp_free a) Q p;
}.

(** ** The state of the heap *)

Definition size_of (t : Z) : Z := default 0 (sizes !z t).

(** A page of blocks of the size [pg_type]; [pg_free] are the offsets of its free
    blocks, in the order of the list. *)
Record page := { pg_ref : Z; pg_addr : Z; pg_type : Z; pg_free : list Z }.
#[export] Instance page_eq_dec : EqDecision page.
Proof. solve_decision. Defined.

(** The linked list from [base] on. *)
Fixpoint linked (next : Z → option Z) (base : option Z) (l : list Z) : Prop :=
  match l with
  | [] => base = None
  | x :: l' => base = Some x ∧ linked next (next x) l'
  end.

Definition nxt (next : pageref → option Z) (rs : list pageref) (p : Z) : option Z :=
  match rs !z p with Some r => next r | None => None end.

(** The free blocks in memory. *)
Fixpoint fl_chain (m : gmap Z Z) (a : Z) (free : list Z) : Prop :=
  match free with
  | [] => True
  | o :: rest => m !!! (a + o) = match rest with [] => 0 | o' :: _ => a + o' end ∧ fl_chain m a rest
  end.

Definition block_at (t o : Z) : Prop := 0 ≤ o < PAGE_SIZE ∧ o mod size_of t = 0.

Record page_ok (rs : list pageref) (m : gmap Z Z) (pg : page) : Prop := {
  po_ref : ∃ r, rs !z (pg_ref pg) = Some r ∧ pageaddr_and_blocktype r = pg_addr pg + pg_type pg ∧
    nfree r = zlen (pg_free pg) ∧
    freelist_offset r = match pg_free pg with [] => INVALID_OFFSET | o :: _ => o end;
  po_type : 0 ≤ pg_type pg < NSIZES;
  po_free : NoDup (pg_free pg) ∧ Forall (block_at (pg_type pg)) (pg_free pg);
  po_chain : fl_chain m (pg_addr pg) (pg_free pg);
}.

Definition of_type (t : Z) (L : list page) : list page := filter (λ pg, pg_type pg = t) L.

Section inv.
Context {P : Type} `{KernelPagesLaws P}.
Implicit Types (h : kheap P) (L : list page) (A : gmap Z Z).

(** Bit [j] of the table of pagerefs in use. *)
Definition inuse_bit (ws : list Z) (j : Z) : bool := Z.testbit (default 0 (ws !z (j / 32))) (j mod 32).

(** The pagerefs in use are [refs]. *)
Record table_ok h (refs : list Z) : Prop := {
  to_refs : NoDup refs ∧ Forall (λ p, 0 ≤ p < NPAGEREFS) refs;
  to_len : zlen (pagerefs h) = NPAGEREFS;
  to_words : zlen (pagerefs_inuse h) = INUSE_WORDS ∧ Forall is_u32 (pagerefs_inuse h);
  to_inuse : ∀ j, 0 ≤ j < NPAGEREFS → inuse_bit (pagerefs_inuse h) j = bool_decide (j ∈ refs);
}.

Record heap_inv h L : Prop := {
  hi_table : table_ok h (pg_ref <$> L);
  hi_all : linked (nxt next_all (pagerefs h)) (allbase h) (pg_ref <$> L);
  hi_bases : zlen (sizebases h) = NSIZES;
  hi_same : ∀ t, 0 ≤ t < NSIZES → ∃ b, sizebases h !z t = Some b ∧
    linked (nxt next_samesize (pagerefs h)) b (pg_ref <$> of_type t L);
  hi_pages : Forall (page_ok (pagerefs h) (hmem h)) L;
  hi_addrs : NoDup (pg_addr <$> L);
  hi_owned : Forall (λ pg, kp_sized (below h) (pg_addr pg) 1) L;
  hi_ok : kp_ok (below h);
}.

(** The block of [n] bytes at [a] is allocated: a block of a page of blocks that
    is not free, or whole pages. *)
Definition live (p : P) L (a n : Z) : Prop :=
  (∃ pg o, pg ∈ L ∧ block_at (pg_type pg) o ∧ (o ∉ pg_free pg) ∧ a = pg_addr pg + o ∧ n = size_of (pg_type pg)) ∨
  (∃ k, kp_sized p a k ∧ (a ∉ pg_addr <$> L) ∧ n = k * PAGE_SIZE).

Definition heap_repr h A : Prop :=
  ∃ L, heap_inv h L ∧ ∀ a n, A !! a = Some n ↔ live (below h) L a n.
End inv.

(** ** Facts *)

(** A page of the heap is where the direct-mapped segment is. *)
Definition page_addr (a : Z) : Prop := a mod PAGE_SIZE = 0 ∧ MIPS_KSEG0 ≤ a ∧ a + PAGE_SIZE ≤ MIPS_KSEG1.

Ltac heap_consts :=
  change INUSE_WORDS with 8 in *;
  unfold page_addr, MIPS_KSEG0, MIPS_KSEG1, PAGE_SIZE, NSIZES, NPAGEREFS, INVALID_OFFSET, is_u32, is_u16 in *.

Lemma offset_mask x : Z.land x (u32 (Z.lnot PAGE_FRAME)) = x mod PAGE_SIZE.
Proof. change (u32 (Z.lnot PAGE_FRAME)) with (Z.ones 12). apply (Z.land_ones x 12). lia. Qed.

Lemma pab_fields r a t :
  page_addr a → 0 ≤ t < NSIZES → pageaddr_and_blocktype r = a + t → PR_PAGEADDR r = a ∧ PR_BLOCKTYPE r = t.
Proof.
  intros Ha Ht Hr. unfold PR_PAGEADDR, PR_BLOCKTYPE. rewrite Hr, offset_mask, page_frame_of by (heap_consts; lia).
  assert ((a + t) mod PAGE_SIZE = t) as ->; [|lia]. heap_consts. Z.div_mod_to_equations. lia.
Qed.

Lemma MKPAB_fields a t : page_addr a → 0 ≤ t < NSIZES → MKPAB a t = a + t.
Proof.
  intros Ha Ht. unfold MKPAB. rewrite offset_mask, page_frame_of by (heap_consts; lia).
  assert (t mod PAGE_SIZE = t) as -> by (apply Z.mod_small; heap_consts; lia).
  assert (a mod PAGE_SIZE = 0) as -> by apply Ha. rewrite Z.sub_0_r.
  rewrite <- Z.add_lor_land. assert (Z.land a t = 0) as ->; [|lia].
  apply Z.bits_inj'. intros k Hk. rewrite Z.land_spec, Z.bits_0.
  destruct (decide (k < 12)).
  - replace a with (Z.shiftl (Z.shiftr a 12) 12); [by rewrite Z.shiftl_spec_low|].
    rewrite Z.shiftl_mul_pow2, Z.shiftr_div_pow2 by lia. change (2 ^ 12) with 4096.
    destruct Ha as [Ha _]. unfold PAGE_SIZE in Ha. Z.div_mod_to_equations. lia.
  - rewrite (Z.bits_above_log2 t), andb_false_r; [done|lia|].
    destruct (decide (t = 0)) as [->|]; [simpl; lia|]. apply Z.log2_lt_pow2; [lia|].
    assert (2 ^ 12 ≤ 2 ^ k) by (apply Z.pow_le_mono_r; lia). heap_consts. lia.
Qed.

Lemma size_of_cases t : 0 ≤ t < NSIZES → sizes !z t = Some (size_of t) ∧ size_of t ∈ sizes.
Proof.
  intros Ht. unfold size_of. destruct (zlookup_in sizes t) as [s Hs]; [done|]. rewrite Hs. split; [done|]. simpl.
  rewrite zlookup_nat in Hs by lia. by eapply list_elem_of_lookup_2.
Qed.

Lemma size_of_bounds t : 0 ≤ t < NSIZES →
  16 ≤ size_of t ≤ 2048 ∧ size_of t mod 16 = 0 ∧ PAGE_SIZE / size_of t * size_of t = PAGE_SIZE ∧
  2 ≤ PAGE_SIZE / size_of t ≤ 256.
Proof.
  intros Ht. destruct (size_of_cases t Ht) as [_ Hin]. unfold sizes in Hin.
  repeat (apply elem_of_cons in Hin as [->|Hin]; [vm_compute; intuition congruence|]). by apply elem_of_nil in Hin.
Qed.

Lemma linked_ext next next' base l :
  (∀ x, x ∈ l → next' x = next x) → linked next base l → linked next' base l.
Proof.
  revert base. induction l as [|x l IH]; intros base Heq; [done|]. intros [-> Hl]. split; [done|].
  rewrite Heq by left. apply IH; [|done]. intros y Hy. apply Heq. by right.
Qed.

Lemma linked_next next base l1 x l2 : linked next base (l1 ++ x :: l2) → linked next (next x) l2.
Proof. revert base. induction l1 as [|y l1 IH]; intros base [_ Hl]; [done|by eapply IH]. Qed.

(** Taking an element out of a list. *)
Definition without (next : Z → option Z) (x : Z) (prev : option Z) (y : Z) : option Z :=
  if decide (prev = Some y) then next x else next y.

Lemma linked_remove next base l1 x l2 :
  NoDup (l1 ++ x :: l2) → linked next base (l1 ++ x :: l2) →
  linked (without next x (last l1)) (if l1 is [] then next x else base) (l1 ++ l2).
Proof.
  intros Hnd Hl. destruct l1 as [|z l1]; [by apply Hl|].
  revert z base Hnd Hl. induction l1 as [|y l1 IH]; intros z base Hnd [-> Hl]; (split; [done|]).
  - destruct Hl as [Hz Hl]. assert (without next x (last [z]) z = next x) as -> by (unfold without; by rewrite decide_True).
    eapply linked_ext; [|exact Hl]. intros w Hw. unfold without. rewrite decide_False; [done|]. intros [= ->].
    apply NoDup_cons in Hnd as [Hnd _]. apply Hnd. simpl. by right.
  - apply NoDup_cons in Hnd as [Hz Hnd]. specialize (IH y (next z) Hnd Hl).
    assert (without next x (last (z :: y :: l1)) z = next z) as ->; [|exact IH]. unfold without.
    rewrite decide_False; [done|]. change (last (z :: y :: l1)) with (last (y :: l1)). intros Hlast.
    apply last_Some_elem_of in Hlast. apply Hz, (elem_of_app (y :: l1)). by left.
Qed.

Lemma fl_chain_ext m m' a free :
  (∀ o, o ∈ free → m' !!! (a + o) = m !!! (a + o)) → fl_chain m a free → fl_chain m' a free.
Proof.
  induction free as [|o free IH]; [done|]. intros Heq [Ho Hc]. split; [by rewrite Heq by left|].
  apply IH; [|done]. intros x Hx. apply Heq. by right.
Qed.

(** The fields besides the links. *)
Definition same_body (r r' : pageref) : Prop :=
  pageaddr_and_blocktype r' = pageaddr_and_blocktype r ∧ freelist_offset r' = freelist_offset r ∧ nfree r' = nfree r.

Lemma page_ok_other rs rs' m m' pg :
  page_ok rs m pg →
  (∀ r, rs !z (pg_ref pg) = Some r → ∃ r', rs' !z (pg_ref pg) = Some r' ∧ same_body r r') →
  (∀ o, o ∈ pg_free pg → m' !!! (pg_addr pg + o) = m !!! (pg_addr pg + o)) → page_ok rs' m' pg.
Proof.
  intros [(r & Hr & Hpab & Hnf & Hoff) Ht Hfree Hc] Hrs Hm. destruct (Hrs r Hr) as (r' & Hr' & Hb & Ho & Hn).
  split; [|done|done|by eapply fl_chain_ext]. exists r'. split; [done|]. rewrite Hb, Ho, Hn. done.
Qed.

Lemma nxt_insert next rs p r x :
  0 ≤ p < zlen rs → nxt next (<[Z.to_nat p := r]> rs) x = if decide (p = x) then next r else nxt next rs x.
Proof.
  intros Hp. unfold nxt. destruct (decide (0 ≤ x)); [rewrite zlookup_insert by done; by case_decide|].
  rewrite decide_False by lia. unfold zlookup. by rewrite !decide_False.
Qed.

(** An assignment to another field. *)
Lemma nxt_insert_same next rs p r r' x :
  rs !z p = Some r → next r' = next r → nxt next (<[Z.to_nat p := r']> rs) x = nxt next rs x.
Proof.
  intros Hr He. apply zlookup_Some_range in Hr as Hp. rewrite nxt_insert by done. case_decide; [subst|done].
  unfold nxt. by rewrite Hr.
Qed.

Lemma nodup_range (l : list Z) n : NoDup l → Forall (λ p, 0 ≤ p < n) l → zlen l ≤ Z.max 0 n.
Proof.
  intros Hnd Hr. assert (l ⊆+ seqZ 0 n) as Hsub.
  { apply NoDup_submseteq; [done|]. intros x Hx. rewrite Forall_forall in Hr. apply elem_of_seqZ. specialize (Hr x Hx). lia. }
  apply submseteq_length in Hsub. rewrite length_seqZ in Hsub. unfold zlen. lia.
Qed.

(** A page has no more free blocks than blocks. *)
Lemma free_bound t free :
  0 ≤ t < NSIZES → NoDup free → Forall (block_at t) free → zlen free ≤ PAGE_SIZE / size_of t.
Proof.
  intros Ht Hnd Hf. destruct (size_of_bounds t Ht) as (Hs & _ & Hmul & Hcap).
  assert (NoDup ((λ o, o / size_of t) <$> free)) as Hnd'.
  { apply NoDup_fmap_2_strong; [|done]. intros x y Hx Hy Heq. rewrite Forall_forall in Hf.
    destruct (Hf x Hx) as [_ Hmx], (Hf y Hy) as [_ Hmy].
    rewrite (Z.div_mod x (size_of t)), (Z.div_mod y (size_of t)), Hmx, Hmy, Heq by lia. done. }
  apply (nodup_range _ (PAGE_SIZE / size_of t)) in Hnd'; [unfold zlen in *; rewrite length_fmap in Hnd'; lia|].
  apply Forall_fmap. eapply Forall_impl; [exact Hf|]. intros o [Ho _]. simpl. split; [apply Z.div_pos; lia|].
  apply Z.div_lt_upper_bound; lia.
Qed.

Section specs.
Context {P : Type} `{KernelPagesLaws P}.
Implicit Types (h : kheap P) (L : list page) (A : gmap Z Z).

Lemma wp_get_pr p r (Q : result pageref → kheap P → Prop) h :
  pagerefs h !z p = Some r → Q (Ret r) h → wp (get_pr p) Q h.
Proof. intros Hr HQ. unfold get_pr. wp_steps. by eapply wp_deref. Qed.

Lemma wp_update_pr p f r (Q : result unit → kheap P → Prop) h :
  pagerefs h !z p = Some r → Q (Ret ()) (set_pagerefs (<[Z.to_nat p := f r]> (pagerefs h)) h) → wp (update_pr p f) Q h.
Proof.
  intros Hr HQ. unfold update_pr. wp_steps. eapply wp_deref; [done|]. wp_steps.
  eapply wp_deref; [apply zstore_in; by eapply zlookup_Some_range|]. by wp_steps.
Qed.

Lemma wp_get_base t b (Q : result (option Z) → kheap P → Prop) h :
  sizebases h !z t = Some b → Q (Ret b) h → wp (get_base t) Q h.
Proof. intros Hb HQ. unfold get_base. wp_steps. by eapply wp_deref. Qed.

Lemma wp_put_base t b (Q : result unit → kheap P → Prop) h :
  0 ≤ t < zlen (sizebases h) → Q (Ret ()) (set_sizebases (<[Z.to_nat t := b]> (sizebases h)) h) → wp (put_base t b) Q h.
Proof. intros Hb HQ. unfold put_base. wp_steps. eapply wp_deref; [by apply zstore_in|]. by wp_steps. Qed.

Lemma inv_ref h L pg : heap_inv h L → pg ∈ L →
  page_ok (pagerefs h) (hmem h) pg ∧ 0 ≤ pg_ref pg < NPAGEREFS ∧ kp_sized (below h) (pg_addr pg) 1 ∧ page_addr (pg_addr pg).
Proof.
  intros [[[_ Hr] _ _ _] _ _ _ Hp _ Ho Hok] Hin. rewrite Forall_fmap in Hr. rewrite Forall_forall in Hr, Hp, Ho.
  split; [auto|]. split; [by apply Hr|]. split; [auto|]. destruct (kp_range _ _ _ Hok (Ho pg Hin)) as (? & ? & ? & ?).
  heap_consts. lia.
Qed.

Lemma inv_length h L : heap_inv h L → (length L < list_fuel)%nat.
Proof.
  intros [[[Hnd Hr] _ _ _] _ _ _ _ _ _ _]. apply (nodup_range _ _ Hnd) in Hr.
  unfold zlen, list_fuel in *. rewrite length_fmap in Hr. heap_consts. lia.
Qed.

(** A page gets another free list. *)
Definition with_free (free : list Z) (pg : page) : page :=
  {| pg_ref := pg_ref pg; pg_addr := pg_addr pg; pg_type := pg_type pg; pg_free := free |}.

Lemma repage_fmap {B} (f : page → B) L1 pg free L2 :
  f (with_free free pg) = f pg → f <$> (L1 ++ with_free free pg :: L2) = f <$> (L1 ++ pg :: L2).
Proof. intros Hf. rewrite !fmap_app, !fmap_cons. by rewrite Hf. Qed.

Lemma repage_type t L1 pg free L2 :
  pg_ref <$> of_type t (L1 ++ with_free free pg :: L2) = pg_ref <$> of_type t (L1 ++ pg :: L2).
Proof.
  unfold of_type. rewrite !filter_app, !filter_cons, !fmap_app. f_equal.
  destruct (decide (pg_type pg = t)); [rewrite !decide_True by done|rewrite !decide_False by done]; done.
Qed.

(** Two pages of the heap are different pages. *)
Lemma inv_apart h L1 pg L2 q :
  heap_inv h (L1 ++ pg :: L2) → q ∈ L1 ++ L2 →
  pg_ref q ≠ pg_ref pg ∧ (pg_addr q + PAGE_SIZE ≤ pg_addr pg ∨ pg_addr pg + PAGE_SIZE ≤ pg_addr q).
Proof.
  intros Hinv Hq. destruct (inv_ref h _ q Hinv) as (_ & _ & Hqs & _).
  { rewrite elem_of_app in Hq. rewrite elem_of_app, elem_of_cons. tauto. }
  destruct (inv_ref h _ pg Hinv) as (_ & _ & Hps & _); [rewrite elem_of_app, elem_of_cons; auto|].
  destruct Hinv as [[[Hnd _] _ _ _] _ _ _ _ Haddr _ Hok].
  assert (∀ f : page → Z, NoDup (f <$> L1 ++ pg :: L2) → f q ≠ f pg) as Hne.
  { intros f Hf Heq. rewrite <- Permutation_middle, fmap_cons in Hf. apply NoDup_cons in Hf as [Hf _].
    apply Hf. rewrite <- Heq. by apply list_elem_of_fmap_2. }
  split; [by apply Hne|]. destruct (kp_apart _ _ _ _ _ Hok Hqs Hps (Hne _ Haddr)); lia.
Qed.

Lemma inv_repage h L1 pg L2 free r r' m' :
  heap_inv h (L1 ++ pg :: L2) → pagerefs h !z (pg_ref pg) = Some r →
  next_all r' = next_all r → next_samesize r' = next_samesize r →
  page_ok (<[Z.to_nat (pg_ref pg) := r']> (pagerefs h)) m' (with_free free pg) →
  (∀ w, ¬ (pg_addr pg ≤ w < pg_addr pg + PAGE_SIZE) → m' !!! w = hmem h !!! w) →
  heap_inv (set_hmem m' (set_pagerefs (<[Z.to_nat (pg_ref pg) := r']> (pagerefs h)) h)) (L1 ++ with_free free pg :: L2).
Proof.
  intros Hinv Hr Hna Hns Hpg Hm.
  apply zlookup_Some_range in Hr as Hrange.
  pose proof Hinv as [[[Hnd Hrg] Hlen Hw Hu] Hall Hbl Hsame Hpages Haddr Hown Hok].
  split; cbn [pagerefs hmem below allbase sizebases pagerefs_inuse set_hmem set_pagerefs]; rewrite ?(repage_fmap pg_ref), ?(repage_fmap pg_addr) by done; try done.
  - split; simpl; try done. by rewrite zlen_insert.
  - eapply linked_ext; [|exact Hall]. intros x _. by eapply nxt_insert_same.
  - intros t Ht. destruct (Hsame t Ht) as (b & Hb & Hl). exists b. split; [done|]. rewrite repage_type.
    eapply linked_ext; [|exact Hl]. intros x _. by eapply nxt_insert_same.
  - apply Forall_app in Hpages as [Hp1 Hp2]. apply Forall_cons in Hp2 as [_ Hp2].
    assert (∀ q, q ∈ L1 ∨ q ∈ L2 → page_ok (<[Z.to_nat (pg_ref pg) := r']> (pagerefs h)) m' q) as Hoth.
    { intros q Hqin. rewrite <- elem_of_app in Hqin. destruct (inv_apart h L1 pg L2 q Hinv Hqin) as [Hne Hap].
      destruct (inv_ref h _ q Hinv) as (Hqok & Hqr & _); [rewrite elem_of_app in *; rewrite elem_of_cons; tauto|].
      eapply page_ok_other; [exact Hqok| |].
      - intros r0 Hr0. exists r0. split; [|done]. rewrite zlookup_insert by lia. by rewrite decide_False.
      - intros o Ho. apply Hm. destruct (po_free _ _ _ Hqok) as [_ Hf]. rewrite Forall_forall in Hf. destruct (Hf o Ho) as [Hob _]. lia. }
    apply Forall_app. split; [apply Forall_forall; auto|]. apply Forall_cons. split; [done|apply Forall_forall; auto].
  - apply Forall_app in Hown as [Ho1 Ho2]. apply Forall_cons in Ho2 as [Ho Ho2]. apply Forall_app. split; [done|]. by apply Forall_cons.
Qed.

Lemma doalloc_spec h L1 pg L2 o rest Q :
  heap_inv h (L1 ++ pg :: L2) → pg_free pg = o :: rest →
  (∀ rs, heap_inv (set_pagerefs rs h) (L1 ++ with_free rest pg :: L2) →
     Q (Ret (pg_addr pg + o)) (set_pagerefs rs h)) →
  wp (doalloc (pg_ref pg)) Q h.
Proof.
  intros Hinv Hfree HQ. destruct (inv_ref h _ pg Hinv) as (Hpg & Hrange & _ & Ha); [rewrite elem_of_app, elem_of_cons; auto|].
  destruct Hpg as [(r & Hr & Hpab & Hnf & Hoff) Ht [Hnd Hf] Hc]. rewrite Hfree in *.
  destruct (pab_fields r _ _ Ha Ht Hpab) as [Hpa Hbt]. apply NoDup_cons in Hnd as [Hno Hnd].
  apply Forall_cons in Hf as [[Ho Hmod] Hf]. destruct Hc as [Ho0 Hc].
  assert (1 ≤ zlen (o :: rest) ≤ 256) as Hz.
  { destruct (size_of_bounds _ Ht) as (_ & _ & _ & Hcap). assert (zlen (o :: rest) ≤ PAGE_SIZE / size_of (pg_type pg)); [|unfold zlen in *; simpl in *; lia].
    apply free_bound; [done|by apply NoDup_cons|by apply Forall_cons]. }
  assert (zlen (o :: rest) - 1 = zlen rest) as Hz1 by (unfold zlen; simpl; lia).
  assert (u16 (nfree r - 1) = zlen rest) as Hn1 by (rewrite Hnf, Hz1; apply u16_small; heap_consts; lia).
  unfold doalloc. wp_step. eapply wp_get_pr; [exact Hr|]. wp_step. apply wp_assert; [rewrite Hoff; lia|].
  rewrite Hn1, Hpa, Hoff, u32_small by (heap_consts; lia). wp_step. unfold load. wp_step. wp_step.
  eapply wp_update_pr; [exact Hr|]. set (rs1 := <[_ := _]> (pagerefs h)).
  apply zlookup_Some_range in Hr as Hin.
  assert (rs1 !z (pg_ref pg) = Some (set_nfree (zlen rest) r)) as Hr1.
  { unfold rs1. rewrite zlookup_insert by lia. by rewrite decide_True. }
  wp_step. eapply wp_get_pr; [exact Hr1|]. cbn [nfree set_nfree]. wp_step.
  set (off := match rest with [] => INVALID_OFFSET | o' :: _ => o' end).
  assert (wp (if negb (hmem h !!! (pg_addr pg + o) =? 0) then
         _ ← assert (zlen rest >? 0); _ ← assert (u32 (hmem h !!! (pg_addr pg + o) - pg_addr pg) <? PAGE_SIZE);
         update_pr (pg_ref pg) (set_freelist_offset (u16 (hmem h !!! (pg_addr pg + o) - pg_addr pg)))
       else _ ← assert (zlen rest =? 0); update_pr (pg_ref pg) (set_freelist_offset INVALID_OFFSET))
    (λ x h', x = Ret () ∧ h' = set_pagerefs (<[Z.to_nat (pg_ref pg) := set_freelist_offset off (set_nfree (zlen rest) r)]> rs1) h)
    (set_pagerefs rs1 h)) as Hstep.
  { rewrite Ho0. unfold off. destruct rest as [|o' rest].
    - cbn [Z.eqb negb]. wp_step. apply wp_assert; [done|]. by eapply wp_update_pr.
    - apply Forall_cons in Hf as [[Ho' _] _]. rewrite (proj2 (Z.eqb_neq _ 0)) by (heap_consts; lia). cbn [negb]. wp_step.
      apply wp_assert; [done|]. replace (pg_addr pg + o' - pg_addr pg) with o' by lia.
      rewrite u32_small, u16_small by (heap_consts; lia). wp_step. apply wp_assert; [lia|]. by eapply wp_update_pr. }
  eapply wp_mono; [exact Hstep|]. intros ? ? [-> ->]. wp_step. unfold rs1. rewrite list_insert_insert_eq. apply HQ.
  pose proof (inv_repage h L1 pg L2 rest r (set_freelist_offset off (set_nfree (zlen rest) r)) (hmem h) Hinv Hr eq_refl eq_refl) as Hre.
  apply Hre; [|done]. split; simpl; [|done|done|done]. rewrite zlookup_insert by lia. rewrite decide_True by done. eauto.
Qed.

Lemma find_page_spec h L t pgs base fuel Q :
  heap_inv h L → 0 ≤ t < NSIZES → (∀ pg, pg ∈ pgs → pg ∈ L ∧ pg_type pg = t) →
  linked (nxt next_samesize (pagerefs h)) base (pg_ref <$> pgs) → (length pgs < fuel)%nat →
  (∀ pg, pg ∈ pgs → pg_free pg ≠ [] → Q (Ret (Some (pg_ref pg))) h) → Q (Ret None) h →
  wp (find_page fuel base t) Q h.
Proof.
  intros Hinv Ht. revert base fuel. induction pgs as [|pg pgs IH]; intros base fuel Hsub Hl Hfuel HQ HN.
  { simpl in Hl. subst. by destruct fuel. }
  destruct Hl as [-> Hl]. destruct fuel as [|fuel]; [simpl in Hfuel; lia|].
  destruct (Hsub pg ltac:(left)) as [Hin Hty]. destruct (inv_ref h L pg Hinv Hin) as ([(r & Hr & Hpab & Hnf & _) Htp _ _] & _ & _ & Ha).
  destruct (pab_fields r _ _ Ha Htp Hpab) as [_ Hbt].
  cbn [find_page]. wp_step. eapply wp_get_pr; [exact Hr|]. wp_step. apply wp_assert; [rewrite Hbt; lia|].
  rewrite Hnf. destruct (pg_free pg) as [|o free] eqn:Hfree.
  - change (zlen [] >? 0) with false. apply IH; [intros q Hq; apply Hsub; by right| |simpl in Hfuel; lia|intros q Hq; apply HQ; by right|done].
    unfold nxt in Hl at 2. by rewrite Hr in Hl.
  - change (zlen (o :: free) >? 0) with true. cbv iota. wp_step. apply HQ; [left|congruence].
Qed.

(** The page an address is on. *)
Definition on_page (a : Z) (pg : page) : Prop := pg_addr pg ≤ a < pg_addr pg + PAGE_SIZE.

Lemma find_owner_spec h L pgs base a fuel Q :
  heap_inv h L → (∀ pg, pg ∈ pgs → pg ∈ L) →
  linked (nxt next_all (pagerefs h)) base (pg_ref <$> pgs) → (length pgs < fuel)%nat →
  (∀ pg, pg ∈ pgs → on_page a pg → Q (Ret (Some (pg_ref pg))) h) →
  ((∀ pg, pg ∈ pgs → ¬ on_page a pg) → Q (Ret None) h) →
  wp (find_owner fuel base a) Q h.
Proof.
  intros Hinv. revert base fuel. induction pgs as [|pg pgs IH]; intros base fuel Hsub Hl Hfuel HQ HN.
  { simpl in Hl. subst. destruct fuel; apply HN; by intros ? ?%not_elem_of_nil. }
  destruct Hl as [-> Hl]. destruct fuel as [|fuel]; [simpl in Hfuel; lia|].
  destruct (inv_ref h L pg Hinv (Hsub pg ltac:(left))) as ([(r & Hr & Hpab & _ & _) Htp _ _] & _ & _ & Ha).
  destruct (pab_fields r _ _ Ha Htp Hpab) as [Hpa Hbt].
  cbn [find_owner]. wp_step. eapply wp_get_pr; [exact Hr|]. wp_step.
  apply wp_assert; [rewrite Hbt; heap_consts; lia|]. rewrite Hpa, u32_small by (heap_consts; lia).
  destruct (decide (on_page a pg)) as [Hon|Hoff].
  - rewrite (proj2 (andb_true_iff _ _)) by (unfold on_page in Hon; lia). cbv iota. wp_step. apply HQ; [left|done].
  - rewrite (proj2 (andb_false_iff _ _)) by (unfold on_page in Hoff; lia).
    apply IH; [intros q Hq; apply Hsub; by right| |simpl in Hfuel; lia|intros q Hq; apply HQ; by right|].
    + unfold nxt in Hl at 2. by rewrite Hr in Hl.
    + intros Hno. apply HN. intros q [->|Hq]%elem_of_cons; [done|auto].
Qed.

(** ** The table of pagerefs *)

Lemma inuse_bit_store ws i w j :
  0 ≤ i < zlen ws → 0 ≤ j →
  inuse_bit (<[Z.to_nat i := w]> ws) j = if decide (j / 32 = i) then Z.testbit w (j mod 32) else inuse_bit ws j.
Proof.
  intros Hi Hj. unfold inuse_bit. rewrite zlookup_insert by (try done; Z.div_mod_to_equations; lia).
  repeat case_decide; subst; done.
Qed.

Lemma u32_not_all_ones w : is_u32 w → w ≠ 0xffffffff → ∃ k, 0 ≤ k < 32 ∧ Z.testbit w k = false.
Proof.
  intros Hw Hne. destruct (decide (Exists (λ k, Z.testbit w k = false) (seqZ 0 32))) as [Hex|Hno].
  { apply Exists_exists in Hex as (k & Hk%elem_of_seqZ & ?). eauto with lia. }
  exfalso; apply Hne. apply Z.bits_inj'; intros j Hj. change 0xffffffff with (Z.ones 32). destruct (decide (j < 32)).
  - rewrite Z.ones_spec_low by lia. apply not_false_is_true. intros Hf.
    apply Hno, Exists_exists. exists j. rewrite elem_of_seqZ. auto with lia.
  - rewrite Z.ones_spec_high by lia. rewrite <- (u32_small w Hw). unfold u32. apply Z.mod_pow2_bits_high. lia.
Qed.

Lemma land_u32 w y : is_u32 w → is_u32 (Z.land w y).
Proof.
  intros Hw. assert (Z.land w y = u32 (Z.land w y)) as ->; [|apply u32_range]. rewrite <- (u32_small w Hw) at 1.
  unfold u32. rewrite <- !Z.land_ones by lia. rewrite <- !Z.land_assoc. f_equal. apply Z.land_comm.
Qed.

(** Word [i] is replaced by one that differs in bit [b] only. *)
Lemma table_change h refs refs' i b w' :
  table_ok h refs → 0 ≤ i < INUSE_WORDS → 0 ≤ b < 32 → is_u32 w' →
  (∀ k, 0 ≤ k < 32 → Z.testbit w' k = if decide (k = b) then bool_decide (i * 32 + b ∈ refs')
                                      else Z.testbit (default 0 (pagerefs_inuse h !z i)) k) →
  NoDup refs' ∧ Forall (λ p, 0 ≤ p < NPAGEREFS) refs' → (∀ j, j ≠ i * 32 + b → j ∈ refs' ↔ j ∈ refs) →
  table_ok (set_inuse (<[Z.to_nat i := w']> (pagerefs_inuse h)) h) refs'.
Proof.
  intros [_ Hlen [Hwl Hwu] Hin] Hi Hb Hw' Hbit Href Hiff. split; simpl; [done|done| |].
  - split; [by rewrite zlen_insert|by apply Forall_insert].
  - intros j Hj. rewrite inuse_bit_store by lia. destruct (decide (j / 32 = i)) as [Hji|Hji].
    + rewrite Hbit by (apply Z.mod_pos_bound; lia). destruct (decide (j mod 32 = b)) as [Hb'|Hb'].
      * pose proof (Z.div_mod j 32 ltac:(lia)). assert (i * 32 + b = j) as -> by lia. done.
      * rewrite <- Hji. etrans; [exact (Hin j Hj)|]. apply bool_decide_ext. symmetry. apply Hiff. Z.div_mod_to_equations. lia.
    + rewrite Hin by done. apply bool_decide_ext. symmetry. apply Hiff. Z.div_mod_to_equations. lia.
Qed.

Lemma inuse_word h refs i :
  table_ok h refs → 0 ≤ i < INUSE_WORDS → ∃ w, pagerefs_inuse h !z i = Some w ∧ is_u32 w ∧
    ∀ k, 0 ≤ k < 32 → Z.testbit w k = bool_decide (i * 32 + k ∈ refs).
Proof.
  intros [_ _ [Hl Hu] Hin] Hi. destruct (zlookup_in (pagerefs_inuse h) i) as [w Hw]; [lia|]. exists w. split; [done|]. split.
  - rewrite zlookup_nat in Hw by lia. by eapply Forall_lookup_1.
  - intros k Hk. rewrite <- Hin by (heap_consts; lia). unfold inuse_bit.
    assert ((i * 32 + k) / 32 = i ∧ (i * 32 + k) mod 32 = k) as [-> ->] by (Z.div_mod_to_equations; lia). by rewrite Hw.
Qed.

Lemma allocpageref_bits_spec h refs i n k Q :
  table_ok h refs → 0 ≤ i < INUSE_WORDS → 0 ≤ k → k + Z.of_nat n = 32 →
  (∃ m, k ≤ m < 32 ∧ i * 32 + m ∉ refs) →
  (∀ j ws, 0 ≤ j < NPAGEREFS → j ∉ refs → table_ok (set_inuse ws h) (j :: refs) → Q (Ret (Some j)) (set_inuse ws h)) →
  wp (allocpageref_bits i (seqZ k (Z.of_nat n))) Q h.
Proof.
  intros Htab Hi. destruct (inuse_word h refs i Htab Hi) as (w & Hw & Hu & Hbit).
  revert k. induction n as [|n IH]; intros k Hk Hn (m & Hm & Hclear) HQ; [lia|].
  rewrite seqZ_cons by lia. cbn [allocpageref_bits]. wp_steps. eapply wp_deref; [exact Hw|].
  rewrite Z.shiftl_1_l, (u32_small (2 ^ k)) by (split; [lia|apply Z.pow_lt_mono_r; lia]).
  rewrite land_pow2_zero, Hbit, <- bool_decide_not by lia. case_bool_decide as Hk'.
  - wp_steps. apply zlookup_Some_range in Hw as Hr. eapply wp_deref; [by apply zstore_in|]. wp_steps.
    assert (0 ≤ i * 32 + k < NPAGEREFS) as Hj by (heap_consts; lia).
    destruct Htab as [[Hnd Hrg] Hlen Hws Hin] eqn:E. clear E. apply HQ; [done|done|].
    apply (table_change h refs _ i k); [by split|done|lia|apply u32_range| | |].
    + intros k' Hk0. rewrite Hw. simpl. unfold u32. rewrite Z.mod_pow2_bits_low, Z.lor_spec, Z.pow2_bits_eqb by lia.
      case_decide as E.
      * subst. rewrite Z.eqb_refl, orb_true_r. symmetry. apply bool_decide_eq_true. left.
      * rewrite (proj2 (Z.eqb_neq _ _)), orb_false_r; [done|lia].
    + split; [by apply NoDup_cons|by apply Forall_cons].
    + intros j Hne. rewrite elem_of_cons. tauto.
  - replace (Z.of_nat (S n) - 1) with (Z.of_nat n) by lia. rewrite Nat2Z.inj_succ, Z.pred_succ. apply IH; [lia|lia| |done].
    exists m. split; [|done]. assert (m ≠ k) by (intros ->; tauto). lia.
Qed.

Lemma allocpageref_spec h refs Q :
  table_ok h refs →
  (∀ j ws, 0 ≤ j < NPAGEREFS → j ∉ refs → table_ok (set_inuse ws h) (j :: refs) → Q (Ret (Some j)) (set_inuse ws h)) →
  Q (Ret None) h → wp allocpageref Q h.
Proof.
  intros Htab HQ HN. unfold allocpageref.
  assert (Forall (λ i, 0 ≤ i < INUSE_WORDS) (seqZ 0 INUSE_WORDS)) as Hall.
  { apply Forall_forall. intros i Hi%elem_of_seqZ. lia. }
  induction Hall as [|i is' Hi _ IH]; cbn [allocpageref_words]; [by wp_steps|]. wp_steps.
  destruct (inuse_word h refs i Htab Hi) as (w & Hw & Hu & Hbit). eapply wp_deref; [exact Hw|].
  destruct (Z.eqb_spec w 0xffffffff) as [|Hne]; [apply IH|].
  apply (allocpageref_bits_spec h refs i 32 0); [done|done|lia|done| |done].
  destruct (u32_not_all_ones w Hu Hne) as (m & Hm & Hclear). exists m. split; [done|].
  rewrite Hbit in Hclear by done. by apply bool_decide_eq_false in Hclear.
Qed.

Lemma freepageref_spec h l1 j l2 Q :
  table_ok h (l1 ++ j :: l2) →
  (∀ ws, table_ok (set_inuse ws h) (l1 ++ l2) → Q (Ret ()) (set_inuse ws h)) → wp (freepageref j) Q h.
Proof.
  intros Htab HQ. pose proof Htab as [[Hnd Hrg] _ _ _].
  assert (0 ≤ j < NPAGEREFS) as Hj by (apply Forall_app in Hrg as [_ Hrg]; by apply Forall_cons in Hrg as [? _]).
  assert (0 ≤ j / 32 < INUSE_WORDS ∧ j / 32 * 32 + j mod 32 = j ∧ 0 ≤ j mod 32 < 32) as (Hi & Heq & Hb).
  { heap_consts. Z.div_mod_to_equations. lia. }
  destruct (inuse_word h _ _ Htab Hi) as (w & Hw & Hu & Hbit). apply zlookup_Some_range in Hw as Hr.
  assert (u32 (Z.shiftl 1 (j mod 32)) = 2 ^ (j mod 32)) as Hk.
  { rewrite Z.shiftl_1_l. apply u32_small. split; [lia|]. apply Z.pow_lt_mono_r; lia. }
  unfold freepageref. rewrite Hk. wp_step. apply wp_assert; [lia|]. wp_steps. eapply wp_deref; [exact Hw|]. wp_step.
  apply wp_assert.
  { rewrite land_pow2_zero, Hbit, Heq, negb_involutive by lia. apply bool_decide_eq_true, elem_of_app. right. left. }
  wp_steps. eapply wp_deref; [by apply zstore_in|]. wp_steps. apply HQ.
  assert (j ∉ l1 ++ l2) as Hno.
  { rewrite <- Permutation_middle in Hnd. by apply NoDup_cons in Hnd as [? _]. }
  apply (table_change h (l1 ++ j :: l2) _ (j / 32) (j mod 32)); [done|done|done| | | |].
  - by apply land_u32.
  - intros k Hk0. rewrite Hw, Heq. simpl. rewrite Z.land_spec. unfold u32.
    rewrite Z.mod_pow2_bits_low, Z.lnot_spec, Z.pow2_bits_eqb by lia. case_decide as E.
    + subst. rewrite Z.eqb_refl, andb_false_r. symmetry. by apply bool_decide_eq_false.
    + rewrite (proj2 (Z.eqb_neq _ _)), andb_true_r; [done|lia].
  - split; [|].
    + rewrite <- Permutation_middle in Hnd. by apply NoDup_cons in Hnd as [_ ?].
    + rewrite Forall_app, Forall_cons in Hrg. rewrite Forall_app. tauto.
  - intros x Hx. rewrite !elem_of_app, elem_of_cons. rewrite Heq in Hx. tauto.
Qed.

(** ** New pages *)

(** The offsets of [k] blocks, from the last. *)
Fixpoint down (k : nat) (sz : Z) : list Z :=
  match k with O => [] | S k' => Z.of_nat k' * sz :: down k' sz end.

Lemma elem_of_down k sz o : o ∈ down k sz ↔ ∃ j, (j < k)%nat ∧ o = Z.of_nat j * sz.
Proof.
  induction k as [|k IH]; simpl.
  - split; [by intros ?%not_elem_of_nil|]. intros (j & ? & _). lia.
  - rewrite elem_of_cons, IH. split.
    + intros [->|(j & ? & ->)]; [exists k|exists j]; split; done || lia.
    + intros (j & ? & ->). destruct (decide (j = k)) as [->|]; [by left|]. right. exists j. split; [lia|done].
Qed.

Lemma down_props t :
  0 ≤ t < NSIZES → let n := Z.to_nat (PAGE_SIZE / size_of t) in let free := down n (size_of t) in
  NoDup free ∧ zlen free = PAGE_SIZE / size_of t ∧ (∀ o, o ∈ free ↔ block_at t o).
Proof.
  intros Ht n free. destruct (size_of_bounds t Ht) as (Hs & _ & Hmul & Hcap). unfold free. split_and!.
  - clearbody n. induction n as [|k IH]; simpl; [constructor|]. apply NoDup_cons. split; [|done].
    intros (j & Hj & Heq)%elem_of_down. nia.
  - assert (∀ k, length (down k (size_of t)) = k) as Hl by (induction k; simpl; congruence).
    unfold zlen. rewrite Hl. unfold n. lia.
  - intros o. rewrite elem_of_down. unfold block_at, n. split.
    + intros (j & Hj & ->). split; [nia|]. by apply Z.mod_mul; lia.
    + intros [Ho Hm]. exists (Z.to_nat (o / size_of t)).
      assert (0 ≤ o / size_of t < PAGE_SIZE / size_of t).
      { split; [apply Z.div_pos; lia|]. apply Z.div_lt_upper_bound; lia. }
      split; [lia|]. pose proof (Z.div_mod o (size_of t)). lia.
Qed.

Lemma make_freelist_spec h a t Q :
  page_addr a → 0 ≤ t < NSIZES → let n := PAGE_SIZE / size_of t in
  (∀ m', fl_chain m' a (down (Z.to_nat n) (size_of t)) →
     (∀ w, ¬ (a ≤ w < a + PAGE_SIZE) → m' !!! w = hmem h !!! w) →
     Q (Ret (a + (n - 1) * size_of t)) (set_hmem m' h)) →
  wp (make_freelist a (size_of t) n) Q h.
Proof.
  intros Ha Ht n HQ. destruct (size_of_bounds t Ht) as (Hs & _ & Hmul & Hcap). fold n in Hmul, Hcap.
  set (sz := size_of t) in *. unfold make_freelist. wp_step. unfold store. wp_step. wp_step.
  assert (∀ i, 0 ≤ i < n → 0 ≤ i * sz ≤ PAGE_SIZE - sz ∧ u32 (a + i * sz) = a + i * sz) as Hu.
  { intros i Hi. assert (0 ≤ i * sz ≤ PAGE_SIZE - sz) by nia. split; [done|]. apply u32_small. heap_consts. lia. }
  apply (wp_forM _ _ (λ k h', ∃ m', h' = set_hmem m' h ∧ fl_chain m' a (down (S k) sz) ∧
    ∀ w, ¬ (a ≤ w < a + PAGE_SIZE) → m' !!! w = hmem h !!! w)).
  - exists (<[a := 0]> (hmem h)). split; [done|]. split.
    + simpl. rewrite Z.add_0_r. split; [|done]. by rewrite lookup_total_insert_eq.
    + intros w Hw. rewrite lookup_total_insert_ne; [done|]. heap_consts. lia.
  - intros k x h' [-> Hk]%lookup_seqZ_inv (m' & -> & Hc & Hf). wp_steps.
    destruct (Hu (1 + Z.of_nat k) ltac:(lia)) as [Hb1 ->]. destruct (Hu (1 + Z.of_nat k - 1) ltac:(lia)) as [_ ->].
    apply wp_assert; [rewrite (proj2 (Z.eqb_neq _ _)); [done|nia]|]. eexists. split; [done|]. cbn [hmem set_hmem]. split.
    + split.
      * rewrite Nat2Z.inj_succ. replace (a + Z.succ (Z.of_nat k) * sz) with (a + (1 + Z.of_nat k) * sz) by lia.
        rewrite lookup_total_insert_eq. f_equal. lia.
      * eapply fl_chain_ext; [|exact Hc]. intros o (j & Hj & ->)%elem_of_down. rewrite lookup_total_insert_ne; [done|]. nia.
    + intros w Hw. rewrite lookup_total_insert_ne; [by apply Hf|]. lia.
  - intros h' (m' & -> & Hc & Hf). wp_steps. rewrite length_seqZ in Hc.
    replace (S (Z.to_nat (n - 1))) with (Z.to_nat n) in Hc by lia.
    rewrite Z.gtb_ltb, (proj2 (Z.ltb_lt _ _)) by lia. destruct (Hu (n - 1) ltac:(lia)) as [_ ->]. by apply HQ.
Qed.

Definition fresh_page (j a t : Z) : page :=
  {| pg_ref := j; pg_addr := a; pg_type := t; pg_free := down (Z.to_nat (PAGE_SIZE / size_of t)) (size_of t) |}.

Lemma inv_ref_pos h L x : heap_inv h L → x ∈ pg_ref <$> L → 0 ≤ x < NPAGEREFS.
Proof. intros [[[_ Hr] _ _ _] _ _ _ _ _ _ _] Hx. rewrite Forall_forall in Hr. by apply Hr. Qed.

Lemma of_type_ref t L x : x ∈ pg_ref <$> of_type t L → x ∈ pg_ref <$> L.
Proof.
  intros (q & -> & Hq)%list_elem_of_fmap. apply list_elem_of_fmap. exists q. split; [done|].
  by apply list_elem_of_filter in Hq as [_ ?].
Qed.

Lemma inv_new h L j ws a t r m' p' base :
  heap_inv h L → 0 ≤ t < NSIZES → j ∉ pg_ref <$> L → table_ok (set_inuse ws h) (j :: (pg_ref <$> L)) →
  kp_ok p' → (∀ m, ¬ kp_sized (below h) a m) → (∀ b m, kp_sized p' b m ↔ kp_sized (below h) b m ∨ b = a ∧ m = 1) →
  sizebases h !z t = Some base → next_samesize r = base → next_all r = allbase h →
  page_ok (<[Z.to_nat j := r]> (pagerefs h)) m' (fresh_page j a t) →
  (∀ w, ¬ (a ≤ w < a + PAGE_SIZE) → m' !!! w = hmem h !!! w) →
  heap_inv {| pagerefs := <[Z.to_nat j := r]> (pagerefs h); pagerefs_inuse := ws;
              sizebases := <[Z.to_nat t := Some j]> (sizebases h); allbase := Some j; hmem := m'; below := p' |}
           (fresh_page j a t :: L).
Proof.
  intros Hinv Ht Hj [Href Hlen Hws Hin] Hok' Hnew Hsized Hbase Hns Hna Hpg Hm. simpl in Hlen, Hws, Hin.
  assert (0 ≤ j < zlen (pagerefs h)) as Hjr by (rewrite Hlen; destruct Href as [_ Hr]; by apply Forall_cons in Hr as [? _]).
  assert (∀ next x, x ∈ pg_ref <$> L → nxt next (<[Z.to_nat j := r]> (pagerefs h)) x = nxt next (pagerefs h) x) as Hnxt.
  { intros next x Hx. pose proof (inv_ref_pos _ _ _ Hinv Hx). rewrite nxt_insert by lia. case_decide; [by subst|done]. }
  assert (∀ next, nxt next (<[Z.to_nat j := r]> (pagerefs h)) j = next r) as Hnxtj
    by (intros next; rewrite nxt_insert by lia; by rewrite decide_True).
  pose proof Hinv as [_ Hall Hbl Hsame Hpages Haddr Hown Hok]. split; cbn [pagerefs pagerefs_inuse sizebases allbase hmem below].
  - split; simpl; [done| |done|done]. by rewrite zlen_insert.
  - split; [done|]. simpl. rewrite Hnxtj, Hna. eapply linked_ext; [|exact Hall]. intros x Hx. by apply Hnxt.
  - by rewrite zlen_insert.
  - intros t' Ht'. rewrite zlookup_insert by lia. unfold of_type. rewrite filter_cons. simpl. destruct (Hsame t' Ht') as (b & Hb & Hl).
    assert (linked (nxt next_samesize (<[Z.to_nat j := r]> (pagerefs h))) b (pg_ref <$> of_type t' L)) as Hl'.
    { eapply linked_ext; [|exact Hl]. intros x Hx. apply Hnxt. by eapply of_type_ref. }
    destruct (decide (t = t')) as [<-|Hne]; [|by exists b]. exists (Some j). split; [done|]. split; [done|]. simpl.
    rewrite Hnxtj, Hns. by rewrite Hbase in Hb; injection Hb as <-.
  - apply Forall_cons. split; [done|]. rewrite Forall_forall. intros q Hq.
    destruct (inv_ref h L q Hinv Hq) as (Hqok & Hqr & Hqs & _). eapply page_ok_other; [exact Hqok| |].
    + intros r0 Hr0. exists r0. split; [|done]. rewrite zlookup_insert by lia. rewrite decide_False; [done|].
      intros ->. apply Hj. by apply list_elem_of_fmap_2.
    + intros o Ho. apply Hm. destruct (po_free _ _ _ Hqok) as [_ Hf]. rewrite Forall_forall in Hf. destruct (Hf o Ho) as [Hob _].
      assert (pg_addr q ≠ a) as Hne by (intros <-; by apply (Hnew 1)).
      destruct (kp_apart p' (pg_addr q) 1 a 1 Hok') as [?|?]; [apply Hsized; auto|apply Hsized; auto|done|lia|lia].
  - simpl. apply NoDup_cons. split; [|done]. intros (q & Heq & Hq)%list_elem_of_fmap.
    destruct (inv_ref h L q Hinv Hq) as (_ & _ & Hqs & _). apply (Hnew 1). by rewrite Heq.
  - apply Forall_cons. split; [apply Hsized; auto|]. eapply Forall_impl; [exact Hown|]. intros q Hq. apply Hsized. by left.
  - done.
Qed.

(** The rest of the state after a step: the priority level, and the words of all
    pages but one. *)
Definition keeps_level h h' : Prop := kp_level (below h') = kp_level (below h).

Lemma new_page_spec h L t Q :
  heap_inv h L → 0 ≤ t < NSIZES →
  (∀ h' j a, heap_inv h' (fresh_page j a t :: L) → keeps_level h h' → (∀ m, ¬ kp_sized (below h) a m) →
     (∀ b m, kp_sized (below h') b m ↔ kp_sized (below h) b m ∨ b = a ∧ m = 1) →
     (∀ w, ¬ (a ≤ w < a + PAGE_SIZE) → hmem h' !!! w = hmem h !!! w) → Q (Ret (Some j)) h') →
  (∀ h', heap_inv h' L → keeps_level h h' → same_blocks (below h) (below h') → hmem h' = hmem h → Q (Ret None) h') →
  wp (new_page t (size_of t)) Q h.
Proof.
  intros Hinv Ht HQ HN. destruct (size_of_bounds t Ht) as (Hs & _ & Hmul & Hcap).
  pose proof (hi_table _ _ Hinv) as Htab. pose proof (hi_ok _ _ Hinv) as Hok. unfold new_page. wp_step.
  apply (allocpageref_spec h _ _ Htab); [|wp_step; by apply HN]. intros j ws Hj Hno Htab'. wp_step. unfold on_below. wp_step.
  apply kp_alloc_law; [done|lia| |].
  2: { intros p' Hok' Hlv Hsb. simpl. wp_step. eapply (freepageref_spec _ [] j (pg_ref <$> L)).
       { destruct Htab' as [? ? ? ?]. by split. }
       intros ws' Htab''. wp_step. apply HN; [|done|done|done].
       destruct Hinv as [_ ? ? ? ? ? Ho _], Htab''. split; try done.
       eapply Forall_impl; [exact Ho|]. intros q Hq. by apply Hsb. }
  intros p' a Hok' Hlv Ha0 Hnew Hsized. destruct (kp_range p' a 1 Hok') as (Hmod & Hlo & _ & Hhi); [apply Hsized; auto|].
  assert (page_addr a) as Ha by (heap_consts; lia).
  rewrite (proj2 (Z.eqb_neq _ _)) by done. destruct (zlookup_in (pagerefs h) j) as [r Hr]; [destruct Htab as [_ -> _ _]; done|].
  apply zlookup_Some_range in Hr as Hjr.
  assert (∀ (h0 : kheap P) x, pagerefs h0 = <[Z.to_nat j := x]> (pagerefs h) → pagerefs h0 !z j = Some x) as Hget.
  { intros h0 x ->. rewrite zlookup_insert by lia. by rewrite decide_True. }
  wp_step. eapply wp_update_pr; [exact Hr|]. wp_step. eapply wp_get_pr; [by apply Hget|]. cbn [nfree set_nfree].
  rewrite u16_small, MKPAB_fields by (done || heap_consts; lia). wp_step. apply make_freelist_spec; [done|done|].
  intros m' Hc Hm. wp_step. eapply wp_update_pr; [by apply Hget|]. wp_step. cbn [pagerefs set_pagerefs set_hmem set_below set_inuse].
  rewrite list_insert_insert_eq. eapply wp_get_pr; [by apply Hget|]. cbn [nfree freelist_offset set_nfree set_freelist_offset set_pab].
  replace (a + (PAGE_SIZE / size_of t - 1) * size_of t - a) with ((PAGE_SIZE / size_of t - 1) * size_of t) by lia.
  assert (0 ≤ (PAGE_SIZE / size_of t - 1) * size_of t < PAGE_SIZE) as Hoff by nia.
  rewrite u16_small by (heap_consts; lia). wp_step. apply wp_assert; [lia|]. wp_step.
  destruct (hi_same _ _ Hinv t Ht) as (base & Hbase & _). eapply wp_get_base; [exact Hbase|]. wp_step.
  eapply wp_update_pr; [by apply Hget|]. wp_step. apply wp_put_base; [change (0 ≤ t < zlen (sizebases h)); rewrite (hi_bases _ _ Hinv); lia|].
  wp_step. wp_step. wp_step. cbn [pagerefs set_pagerefs set_hmem set_below set_inuse set_sizebases allbase]. rewrite list_insert_insert_eq.
  eapply wp_update_pr; [by apply Hget|]. wp_steps.
  cbn [pagerefs set_pagerefs set_hmem set_below set_inuse set_sizebases set_allbase allbase sizebases below hmem pagerefs_inuse].
  rewrite list_insert_insert_eq. apply (HQ _ j a); [|done|done|done|done].
  destruct (down_props t Ht) as (Hnd & Hlen & Hmem).
  eapply inv_new; [exact Hinv|done|done|done|done|done|done|exact Hbase|done|done| |done]. split; cbn [fresh_page pg_ref pg_addr pg_type pg_free].
  - eexists. split; [rewrite zlookup_insert by lia; by rewrite decide_True|]. cbn [pageaddr_and_blocktype nfree freelist_offset set_next_all set_next_samesize set_freelist_offset set_nfree set_pab].
    split; [done|]. split; [done|].
    replace (Z.to_nat (PAGE_SIZE / size_of t)) with (S (Z.to_nat (PAGE_SIZE / size_of t - 1))) by lia. cbn [down]. rewrite Z2Nat.id by lia. done.
  - done.
  - split; [done|]. apply Forall_forall. intros o Ho. by apply Hmem.
  - done.
Qed.

(** ** Allocated blocks *)

Lemma block_fits t o : 0 ≤ t < NSIZES → block_at t o → o + size_of t ≤ PAGE_SIZE.
Proof.
  intros Ht [Ho Hm]. destruct (size_of_bounds t Ht) as (Hs & _ & Hmul & Hcap).
  pose proof (Z.div_mod o (size_of t)) as Hd.
  assert (o / size_of t < PAGE_SIZE / size_of t) by (apply Z.div_lt_upper_bound; lia). nia.
Qed.

Lemma page_unique h L pg qg : heap_inv h L → pg ∈ L → qg ∈ L → pg_addr pg = pg_addr qg → pg = qg.
Proof.
  intros Hinv [i Hi]%list_elem_of_lookup [i' Hi']%list_elem_of_lookup Heq. assert (i = i') as <-; [|congruence].
  eapply (NoDup_lookup (pg_addr <$> L) i i' (pg_addr pg)); [apply (hi_addrs _ _ Hinv)|by rewrite list_lookup_fmap, Hi|].
  rewrite list_lookup_fmap, Hi'. simpl. congruence.
Qed.

(** The page and the offset of a block, from its address. *)
Lemma block_home h L pg o q y :
  heap_inv h L → pg ∈ L → block_at (pg_type pg) o → q ∈ L → block_at (pg_type q) y →
  pg_addr pg + o = pg_addr q + y → pg = q ∧ o = y.
Proof.
  intros Hinv Hpg [Ho _] Hq [Hy _] Heq.
  destruct (inv_ref h L pg Hinv Hpg) as (_ & _ & _ & [Ha _]), (inv_ref h L q Hinv Hq) as (_ & _ & _ & [Hb _]).
  assert (pg_addr pg = pg_addr q) as Hpq by (heap_consts; Z.div_mod_to_equations; lia). split; [by eapply page_unique|lia].
Qed.

Lemma block_not_big h L pg o k :
  heap_inv h L → pg ∈ L → block_at (pg_type pg) o → kp_sized (below h) (pg_addr pg + o) k →
  pg_addr pg + o ∈ pg_addr <$> L.
Proof.
  intros Hinv Hpg [Ho _] Hk. destruct (inv_ref h L pg Hinv Hpg) as (_ & _ & _ & [Ha _]).
  destruct (kp_range _ _ _ (hi_ok _ _ Hinv) Hk) as (Hm & _).
  assert (o = 0) as -> by (heap_consts; Z.div_mod_to_equations; lia). rewrite Z.add_0_r. by apply list_elem_of_fmap_2.
Qed.

Lemma multiples_apart s x y : 0 < s → x mod s = 0 → y mod s = 0 → x ≠ y → x + s ≤ y ∨ y + s ≤ x.
Proof.
  intros Hs Hx Hy Hne. apply Z.mod_divide in Hx as [q ->], Hy as [q' ->]; [|lia..].
  destruct (decide (q < q')); [left; nia|right]. assert (q ≠ q') by congruence. nia.
Qed.

(** Two allocated blocks do not overlap. *)
Lemma live_disjoint h L a n b m :
  heap_inv h L → live (below h) L a n → live (below h) L b m → a ≠ b → a + n ≤ b ∨ b + m ≤ a.
Proof.
  intros Hinv Ha Hb Hne. pose proof (hi_ok _ _ Hinv) as Hok.
  assert (∀ pg o c k, pg ∈ L → block_at (pg_type pg) o → kp_sized (below h) c k → c ∉ pg_addr <$> L →
    pg_addr pg + o + size_of (pg_type pg) ≤ c ∨ c + k * PAGE_SIZE ≤ pg_addr pg + o) as Hmix.
  { intros pg o c k Hpg Ho Hc Hno. destruct (inv_ref h L pg Hinv Hpg) as (Hpok & _ & Hps & _).
    pose proof (block_fits _ _ (po_type _ _ _ Hpok) Ho). destruct Ho as [? _].
    destruct (kp_apart _ _ _ _ _ Hok Hps Hc); [intros <-; apply Hno; by apply list_elem_of_fmap_2|lia|lia]. }
  destruct Ha as [(pg & o & Hpg & Ho & Hfo & -> & ->)|(k & Hk & Hno & ->)],
    Hb as [(qg & o' & Hqg & Ho' & Hfo' & -> & ->)|(k' & Hk' & Hno' & ->)].
  - destruct (inv_ref h L pg Hinv Hpg) as (Hpok & _ & Hps & _), (inv_ref h L qg Hinv Hqg) as (Hqok & _ & Hqs & _).
    destruct (decide (pg_addr pg = pg_addr qg)) as [Heq|Hneq].
    + assert (pg = qg) as <- by (by eapply page_unique). destruct (size_of_bounds _ (po_type _ _ _ Hpok)) as (Hs & _).
      destruct Ho as [_ Ho], Ho' as [_ Ho']. destruct (multiples_apart (size_of (pg_type pg)) o o'); lia || congruence.
    + pose proof (block_fits _ _ (po_type _ _ _ Hpok) Ho). pose proof (block_fits _ _ (po_type _ _ _ Hqok) Ho').
      destruct Ho as [? _], Ho' as [? _]. destruct (kp_apart _ _ _ _ _ Hok Hps Hqs Hneq); lia.
  - by apply Hmix.
  - destruct (Hmix qg o' a k); auto.
  - by eapply kp_apart.
Qed.

(** The page of an allocated block was handed out. *)
Lemma live_in_pages h L b m :
  heap_inv h L → live (below h) L b m →
  0 < m ∧ ∃ c k, kp_sized (below h) c k ∧ c ≤ b ∧ b + m ≤ c + k * PAGE_SIZE.
Proof.
  intros Hinv [(pg & o & Hpg & Hb & _ & -> & ->)|(k & Hk & Hno & ->)].
  - destruct (inv_ref h L pg Hinv Hpg) as (Hok & _ & Hs & _).
    pose proof (block_fits _ _ (po_type _ _ _ Hok) Hb). destruct (size_of_bounds _ (po_type _ _ _ Hok)) as (? & _). destruct Hb as [? _].
    split; [lia|]. exists (pg_addr pg), 1. split; [done|lia].
  - destruct (kp_range _ _ _ (hi_ok _ _ Hinv) Hk) as (_ & _ & ? & _). split; [heap_consts; lia|]. exists b, k. split; [done|lia].
Qed.

(** A page that is new holds no words of allocated blocks. *)
Lemma live_fresh h L a k p' b m w :
  heap_inv h L → kp_ok p' → (∀ m, ¬ kp_sized (below h) a m) →
  (∀ b m, kp_sized p' b m ↔ kp_sized (below h) b m ∨ b = a ∧ m = k) →
  live (below h) L b m → b ≤ w < b + m → ¬ (a ≤ w < a + k * PAGE_SIZE).
Proof.
  intros Hinv Hok' Hnew Hs Hb Hw. destruct (live_in_pages h L b m Hinv Hb) as (_ & c & l & Hc & ? & ?).
  assert (c ≠ a) by (intros ->; by apply (Hnew l)).
  destruct (kp_apart p' c l a k Hok') as [?|?]; [apply Hs; auto..|done|lia|lia].
Qed.

(** A block is taken from a page. *)
Lemma live_take p L1 pg L2 o rest :
  (∀ q, q ∈ L1 ++ L2 → pg_addr q ≠ pg_addr pg) → pg_free pg = o :: rest → NoDup (pg_free pg) → Forall (block_at (pg_type pg)) (pg_free pg) →
  ∀ b m, live p (L1 ++ with_free rest pg :: L2) b m ↔
    live p (L1 ++ pg :: L2) b m ∨ b = pg_addr pg + o ∧ m = size_of (pg_type pg).
Proof.
  intros Hne Hfree Hnd Hf b m. rewrite Hfree in Hnd, Hf. apply NoDup_cons in Hnd as [Hno Hnd]. apply Forall_cons in Hf as [Ho Hf].
  unfold live. rewrite (repage_fmap pg_addr) by done. setoid_rewrite elem_of_app. setoid_rewrite elem_of_cons. split.
  - intros [(q & x & Hq & Hx & Hn & -> & ->)|Hbig]; [|by left; right].
    destruct Hq as [Hq|[->|Hq]]; [left; left; exists q, x; auto 10| |left; left; exists q, x; auto 10].
    simpl in *. destruct (decide (x = o)) as [->|Hxo]; [by right|]. left. left. exists pg, x. split; [auto|]. split; [done|].
    split; [|done]. rewrite Hfree. by apply not_elem_of_cons.
  - intros [[(q & x & Hq & Hx & Hn & -> & ->)|Hbig]|[-> ->]]; [left|by right|left].
    + destruct Hq as [Hq|[->|Hq]]; [exists q, x; auto 10| |exists q, x; auto 10].
      exists (with_free rest pg), x. split; [auto|]. split; [done|]. split; [|done]. simpl. intros Hin. apply Hn. rewrite Hfree. by right.
    + exists (with_free rest pg), o. split; [auto|]. done.
Qed.

(** A page of free blocks has no allocated ones. *)
Lemma live_new h L a p' j t :
  heap_inv h L → 0 ≤ t < NSIZES → (∀ m, ¬ kp_sized (below h) a m) →
  (∀ b m, kp_sized p' b m ↔ kp_sized (below h) b m ∨ b = a ∧ m = 1) →
  ∀ b m, live p' (fresh_page j a t :: L) b m ↔ live (below h) L b m.
Proof.
  intros Hinv Ht Hnew Hs b m. unfold live. destruct (down_props t Ht) as (_ & _ & Hdown).
  rewrite fmap_cons. setoid_rewrite elem_of_cons. setoid_rewrite Hs. split.
  - intros [(q & x & [->|Hq] & Hx & Hn & -> & ->)|(k & [Hk|[-> ->]] & Hno & ->)].
    + exfalso. apply Hn. by apply Hdown.
    + left. exists q, x. auto 10.
    + right. exists k. split; [done|]. split; [|done]. intros Hin. apply Hno. by right.
    + exfalso. apply Hno. by left.
  - intros [(q & x & Hq & Hx & Hn & -> & ->)|(k & Hk & Hno & ->)].
    + left. exists q, x. auto 10.
    + right. exists k. split; [by left|]. split; [|done]. intros [->|Hin]; [by apply (Hnew k)|done].
Qed.

Lemma blocktype_spec sz h Q :
  sz ≤ 2048 → (∀ t, 0 ≤ t < NSIZES → sz ≤ size_of t → Q (Ret t) h) → wp (blocktype sz) Q h.
Proof.
  intros Hsz HQ. unfold blocktype, sizes. cbn [blocktype_from].
  repeat (match goal with |- context [sz <=? ?s] => destruct (Z.leb_spec sz s) end;
    [wp_step; apply HQ; [done|match goal with |- _ ≤ ?x => let v := eval vm_compute in x in change (sz ≤ v) end; lia]|]).
  lia.
Qed.

(** What a successful allocation of the block [n] at [a] does. *)
Record allocated h L h' L' (a n : Z) : Prop := {
  al_inv : heap_inv h' L';
  al_level : keeps_level h h';
  al_new : ∀ m, ¬ live (below h) L a m;
  al_live : ∀ b m, live (below h') L' b m ↔ live (below h) L b m ∨ b = a ∧ m = n;
  al_words : ∀ b m w, live (below h) L b m → b ≤ w < b + m → hmem h' !!! w = hmem h !!! w;
  al_align : a mod 16 = 0;
  al_range : MIPS_KSEG0 ≤ a ∧ a + n ≤ MIPS_KSEG1;
}.

(** An allocation that fails changes nothing. *)
Record unchanged h L h' : Prop := {
  un_inv : heap_inv h' L;
  un_level : keeps_level h h';
  un_blocks : same_blocks (below h) (below h');
  un_words : hmem h' = hmem h;
}.

Lemma live_same p p' L : same_blocks p p' → ∀ b m, live p' L b m ↔ live p L b m.
Proof. intros Hs b m. unfold live. setoid_rewrite (Hs _ _). done. Qed.

Lemma inv_below h L p' : heap_inv h L → kp_ok p' → same_blocks (below h) p' → heap_inv (set_below p' h) L.
Proof.
  intros [[] ? ? ? ? ? Ho _] Hok Hs. split; try done. eapply Forall_impl; [exact Ho|]. intros q Hq. by apply Hs.
Qed.

(** Finding a page with a free block, or making one. *)
Lemma pick_page_spec h L t Q :
  heap_inv h L → 0 ≤ t < NSIZES →
  (∀ h' L1 pg L2, heap_inv h' (L1 ++ pg :: L2) → pg_type pg = t → pg_free pg ≠ [] → keeps_level h h' →
     (∀ b m, live (below h') (L1 ++ pg :: L2) b m ↔ live (below h) L b m) →
     (∀ b m w, live (below h) L b m → b ≤ w < b + m → hmem h' !!! w = hmem h !!! w) → Q (Ret (Some (pg_ref pg))) h') →
  (∀ h', unchanged h L h' → Q (Ret None) h') →
  wp (pick_page t (size_of t)) Q h.
Proof.
  intros Hinv Ht HQ HN. destruct (hi_same _ _ Hinv t Ht) as (base & Hbase & Hl). unfold pick_page. wp_step. eapply wp_get_base; [exact Hbase|]. wp_step.
  eapply (find_page_spec h L t (of_type t L)); [done|done| |exact Hl| | |].
  - intros pg Hpg. by apply list_elem_of_filter in Hpg as [? ?].
  - pose proof (inv_length _ _ Hinv). pose proof (length_filter (λ pg, pg_type pg = t) L). unfold of_type. lia.
  - intros pg Hpg Hfree. wp_step. apply list_elem_of_filter in Hpg as [Hty Hpg].
    apply list_elem_of_split in Hpg as (L1 & L2 & ->). by apply (HQ h L1 pg L2).
  - apply (new_page_spec h L t); [done|done| |].
    + intros h' j a Hinv' Hlv Hnew Hs Hw. destruct (size_of_bounds t Ht) as (_ & _ & _ & Hcap).
      apply (HQ h' [] (fresh_page j a t) L); [done|done| |done|by apply (live_new h)|].
      * simpl. by replace (Z.to_nat (PAGE_SIZE / size_of t)) with (S (Z.to_nat (PAGE_SIZE / size_of t - 1))) by lia.
      * intros b m w Hb Hbw. apply Hw. rewrite <- (Z.mul_1_l PAGE_SIZE). by eapply (live_fresh h L); [|apply Hinv'|..].
    + intros h' Hinv' Hlv Hsb Hm. by apply HN.
Qed.

(** The first free block of a page becomes an allocated one. *)
Lemma doalloc_allocated h L1 pg L2 Q :
  heap_inv h (L1 ++ pg :: L2) → pg_free pg ≠ [] →
  (∀ h' L' a, allocated h (L1 ++ pg :: L2) h' L' a (size_of (pg_type pg)) → Q (Ret a) h') →
  wp (doalloc (pg_ref pg)) Q h.
Proof.
  intros Hinv Hfree HQ. destruct (pg_free pg) as [|o rest] eqn:Hpf; [done|].
  apply (doalloc_spec h L1 pg L2 o rest); [done|done|]. intros rs Hinv'.
  assert (pg ∈ L1 ++ pg :: L2) as Hpg by (rewrite elem_of_app, elem_of_cons; auto).
  destruct (inv_ref h _ pg Hinv Hpg) as (Hpok & _ & _ & Ha). destruct (po_free _ _ _ Hpok) as [Hnd Hf].
  assert (∀ q, q ∈ L1 ++ L2 → pg_addr q ≠ pg_addr pg) as Hne.
  { intros q Hq. destruct (inv_apart h L1 pg L2 q Hinv Hq) as [_ ?]. heap_consts. lia. }
  pose proof (live_take (below h) L1 pg L2 o rest Hne Hpf Hnd Hf) as Htake. rewrite Hpf in Hf, Hnd.
  apply Forall_cons in Hf as [Ho Hf]. apply NoDup_cons in Hnd as [Hno _].
  pose proof (block_fits _ _ (po_type _ _ _ Hpok) Ho). destruct (size_of_bounds _ (po_type _ _ _ Hpok)) as (Hs & Hs16 & _).
  apply (HQ _ (L1 ++ with_free rest pg :: L2)). split; [done|done| |done|done| |].
  - intros m [(q & y & Hq & Hy & Hny & Heq & _)|(k & Hk & Hkn & _)].
    + destruct (block_home h _ pg o q y Hinv Hpg Ho Hq Hy Heq) as [<- <-]. apply Hny. rewrite Hpf. left.
    + by apply Hkn, (block_not_big h _ pg o k Hinv).
  - destruct Ho as [_ [q Hq]%Z.mod_divide]; [|lia]. apply Z.mod_divide in Hs16 as [q' Hq']; [|lia].
    destruct Ha as [[q2 Hq2]%Z.mod_divide _]; [|done]. rewrite Hq, Hq', Hq2. apply Z.mod_divide; [done|].
    exists (q2 * 256 + q * q'). unfold PAGE_SIZE. lia.
  - destruct Ho as [? _]. heap_consts. lia.
Qed.

(** Steps before and after it that leave the allocated blocks as they are. *)
Lemma allocated_between h L h1 L1 h2 L2 p3 a n :
  (∀ b m, live (below h1) L1 b m ↔ live (below h) L b m) →
  (∀ b m w, live (below h) L b m → b ≤ w < b + m → hmem h1 !!! w = hmem h !!! w) →
  allocated h1 L1 h2 L2 a n → kp_ok p3 → same_blocks (below h2) p3 → kp_level p3 = kp_level (below h) →
  allocated h L (set_below p3 h2) L2 a n.
Proof.
  intros Hl Hw [Hinv _ Hnew Hlive Hwords Hal Hrng] Hok Hs Hlv. split; [by apply inv_below|done| | | |done|done].
  - intros m Hm. by apply (Hnew m), Hl.
  - intros b m. etrans; [by apply live_same|]. by rewrite Hlive, Hl.
  - intros b m w Hb Hbw. simpl. rewrite (Hwords b m), (Hw b m); [done|done|done|by apply Hl|done].
Qed.

Lemma subpage_kmalloc_spec h L sz Q :
  heap_inv h L → sz ≤ 2048 →
  (∀ h' L' a n, allocated h L h' L' a n → sz ≤ n → Q (Ret a) h') → (∀ h', unchanged h L h' → Q (Ret 0) h') →
  wp (subpage_kmalloc sz) Q h.
Proof.
  intros Hinv Hsz HQ HN. pose proof (hi_ok _ _ Hinv) as Hok. unfold subpage_kmalloc. wp_step. apply blocktype_spec; [done|].
  intros t Ht Hn. destruct (size_of_cases t Ht) as [Hst _]. wp_step. eapply wp_deref; [exact Hst|]. wp_step. unfold on_below. wp_step.
  apply kp_splhigh_law; [done|]. intros p1 Hok1 Hs1. set (h1 := set_below p1 h).
  assert (heap_inv h1 L) as Hinv1 by (by apply inv_below). pose proof (kp_level_pos _ Hok) as Hlv.
  assert (∀ b m, live (below h1) L b m ↔ live (below h) L b m) as Hl1 by (by apply live_same).
  wp_step. apply (pick_page_spec h1 L t); [done|done| |].
  - intros h2 L1 pg L2 Hinv2 Hty Hfree _ Hl2 Hw2. wp_step. apply (doalloc_allocated h2 L1 pg L2); [done|done|].
    intros h3 L3 a Hal. wp_step. unfold on_below. wp_step. apply kp_splx_law; [apply Hal|done|]. intros p4 x Hok4 Hs4 Hlv4. wp_step.
    rewrite Hty in Hal. apply (HQ _ L3 a (size_of t)); [|done].
    eapply (allocated_between h L h2); [| |exact Hal|done|done|done].
    + intros b m. by rewrite Hl2, Hl1.
    + intros b m w Hb Hw. rewrite (Hw2 b m); [done|by apply Hl1|done].
  - intros h2 [Hinv2 _ Hs2 Hw2]. wp_step. unfold on_below. wp_step. apply kp_splx_law; [apply Hinv2|done|].
    intros p3 x Hok3 Hs3 Hlv3. wp_step. apply HN. split; [by apply inv_below|done| |done].
    intros b m. etrans; [apply Hs3|]. etrans; [apply Hs2|apply Hs1].
Qed.

(** ** Taking a page off the lists *)

Lemma unlink_spec get_head put_head next set_next hd set_head pr l2 h fuel : ∀ prev base l1 Q,
  (∀ Q : result (option Z) → kheap P → Prop, Q (Ret hd) h → wp get_head Q h) →
  (∀ x (Q : result unit → kheap P → Prop), Q (Ret ()) (set_head x h) → wp (put_head x) Q h) →
  (∀ x, x ∈ l1 ++ pr :: l2 → is_Some (pagerefs h !z x)) → NoDup (l1 ++ pr :: l2) →
  match prev with None => hd = base | Some q => is_Some (pagerefs h !z q) ∧ nxt next (pagerefs h) q = base end →
  linked (nxt next (pagerefs h)) base (l1 ++ pr :: l2) → (length l1 < fuel)%nat →
  (match last l1 with Some q => Some q | None => prev end = None → Q (Ret ()) (set_head (nxt next (pagerefs h) pr) h)) →
  (∀ q rq, match last l1 with Some q => Some q | None => prev end = Some q → pagerefs h !z q = Some rq →
     Q (Ret ()) (set_pagerefs (<[Z.to_nat q := set_next (nxt next (pagerefs h) pr) rq]> (pagerefs h)) h)) →
  wp (unlink get_head put_head next set_next fuel prev pr) Q h.
Proof.
  induction fuel as [|fuel IH]; intros prev base l1 Q Hget Hput Hin Hnd Hprev Hl Hfuel HN HS; [lia|]. cbn [unlink]. wp_step.
  assert (∀ Q : result (option Z) → kheap P → Prop, Q (Ret base) h →
    wp (match prev with None => get_head | Some q => r ← get_pr q; mret (next r) end) Q h) as Hguy.
  { intros Q' HQ'. destruct prev as [q|]; [|apply Hget; by rewrite Hprev]. destruct Hprev as [[rq Hq] Hn]. wp_step.
    eapply wp_get_pr; [exact Hq|]. wp_step. unfold nxt in Hn. rewrite Hq in Hn. by rewrite Hn. }
  apply Hguy. clear Hguy. destruct (Hin pr) as [r Hr]; [rewrite elem_of_app, elem_of_cons; auto|].
  assert (nxt next (pagerefs h) pr = next r) as Hnr by (unfold nxt; by rewrite Hr).
  destruct l1 as [|x l1]; destruct Hl as [-> Hl].
  - rewrite Z.eqb_refl. wp_step. eapply wp_get_pr; [exact Hr|]. simpl in HN, HS. destruct prev as [q|].
    + destruct Hprev as [[rq Hq] _]. eapply wp_update_pr; [exact Hq|]. rewrite <- Hnr. by apply HS.
    + apply Hput. rewrite <- Hnr. by apply HN.
  - rewrite (proj2 (Z.eqb_neq _ _)).
    2: { intros ->. apply NoDup_cons in Hnd as [Hnd _]. apply Hnd. rewrite elem_of_app, elem_of_cons. auto. }
    apply NoDup_cons in Hnd as [_ Hnd].
    apply (IH (Some x) (nxt next (pagerefs h) x) l1); [done|done| |done| |done|simpl in Hfuel; lia| |].
    + intros y Hy. apply Hin. by right.
    + split; [|done]. apply Hin. left.
    + destruct (last l1) eqn:E; [|done]. done.
    + intros q rq Hq Hrq. apply HS; [|done]. rewrite last_cons. by destruct (last l1).
Qed.

(** The rest of a table whose links have changed. *)
Definition relinked (rs rs' : list pageref) : Prop :=
  zlen rs' = zlen rs ∧ ∀ x r, rs !z x = Some r → ∃ r', rs' !z x = Some r' ∧ same_body r r'.

Lemma relinked_refl rs : relinked rs rs.
Proof. split; [done|]. intros x r Hr. by exists r. Qed.

Lemma relinked_insert rs q rq rq' :
  rs !z q = Some rq → same_body rq rq' → relinked rs (<[Z.to_nat q := rq']> rs).
Proof.
  intros Hq Hb. apply zlookup_Some_range in Hq as Hr. split; [by rewrite zlen_insert|]. intros x r Hx.
  apply zlookup_Some_range in Hx as Hxr. rewrite zlookup_insert by lia. case_decide; [subst|by exists r].
  exists rq'. split; [done|]. congruence.
Qed.

Lemma relinked_trans rs rs' rs'' : relinked rs rs' → relinked rs' rs'' → relinked rs rs''.
Proof.
  intros [Hl H1] [Hl' H2]. split; [congruence|]. intros x r Hr. destruct (H1 x r Hr) as (r' & Hr' & ? & ? & ?).
  destruct (H2 x r' Hr') as (r'' & Hr'' & ? & ? & ?). exists r''. split; [done|]. unfold same_body. split_and!; congruence.
Qed.

(** One list of the table with an element taken out. *)
Lemma unlink_list get_head put_head next set_next hd set_head pr h l1 l2 Q :
  (∀ Q : result (option Z) → kheap P → Prop, Q (Ret hd) h → wp get_head Q h) →
  (∀ x (Q : result unit → kheap P → Prop), Q (Ret ()) (set_head x h) → wp (put_head x) Q h) →
  (∀ x r, next (set_next x r) = x ∧ same_body r (set_next x r)) →
  (∀ x, x ∈ l1 ++ pr :: l2 → is_Some (pagerefs h !z x)) → NoDup (l1 ++ pr :: l2) → (length l1 < list_fuel)%nat →
  linked (nxt next (pagerefs h)) hd (l1 ++ pr :: l2) →
  (linked (nxt next (pagerefs h)) (nxt next (pagerefs h) pr) (l1 ++ l2) → Q (Ret ()) (set_head (nxt next (pagerefs h) pr) h)) →
  (∀ q rq x, q ∈ l1 → pagerefs h !z q = Some rq → let rs' := <[Z.to_nat q := set_next x rq]> (pagerefs h) in
     linked (nxt next rs') hd (l1 ++ l2) → Q (Ret ()) (set_pagerefs rs' h)) →
  wp (unlink get_head put_head next set_next list_fuel None pr) Q h.
Proof.
  intros Hget Hput Hset Hin Hnd Hlen Hl HN HS. pose proof (linked_remove _ _ _ _ _ Hnd Hl) as Hrem.
  eapply (unlink_spec get_head put_head next set_next hd set_head pr l2 h list_fuel None hd l1); try done.
  - intros Hlast. apply HN. destruct l1 as [|x l1]; [exact Hrem|]. by destruct (last (x :: l1)) eqn:E; [|apply last_None in E].
  - intros q rq Hlast Hq. destruct (last l1) as [q'|] eqn:E; [|done]. injection Hlast as ->.
    apply HS; [by apply last_Some_elem_of|done|]. destruct l1 as [|x l1]; [done|].
    eapply linked_ext; [|exact Hrem]. intros y Hy. apply zlookup_Some_range in Hq as Hr.
    destruct (Hin y) as [ry Hry]; [apply elem_of_app in Hy; apply elem_of_app; rewrite (elem_of_cons l2); tauto|]. apply zlookup_Some_range in Hry.
    rewrite nxt_insert by lia. unfold without. destruct (decide (q = y)) as [<-|Hne].
    + rewrite decide_True by done. apply Hset.
    + rewrite decide_False by congruence. done.
Qed.

Lemma of_type_split t L1 pg L2 :
  of_type t (L1 ++ pg :: L2) = if decide (pg_type pg = t) then of_type t L1 ++ pg :: of_type t L2 else of_type t (L1 ++ L2).
Proof. unfold of_type. rewrite !filter_app, filter_cons. by case_decide. Qed.

Lemma of_type_nodup t L : NoDup (pg_ref <$> L) → NoDup (pg_ref <$> of_type t L).
Proof. intros Hnd. eapply sublist_NoDup; [exact Hnd|]. apply fmap_sublist, sublist_filter. Qed.

Lemma of_type_unique L t t' x :
  NoDup (pg_ref <$> L) → x ∈ pg_ref <$> of_type t L → x ∈ pg_ref <$> of_type t' L → t = t'.
Proof.
  intros Hnd (p & -> & [Hpt Hp]%list_elem_of_filter)%list_elem_of_fmap (q & Heq & [Hqt Hq]%list_elem_of_filter)%list_elem_of_fmap.
  apply list_elem_of_lookup in Hp as [i Hi], Hq as [j Hj].
  assert (i = j) as <-; [|congruence].
  eapply (NoDup_lookup (pg_ref <$> L) i j (pg_ref p)); [done|by rewrite list_lookup_fmap, Hi|].
  rewrite list_lookup_fmap, Hj. simpl. congruence.
Qed.

(** The lists without the page [pg]. *)
Definition lists_ok (rs : list pageref) (bs : list (option Z)) (ab : option Z) L : Prop :=
  linked (nxt next_all rs) ab (pg_ref <$> L) ∧ zlen bs = NSIZES ∧
  ∀ t, 0 ≤ t < NSIZES → ∃ b, bs !z t = Some b ∧ linked (nxt next_samesize rs) b (pg_ref <$> of_type t L).

Lemma remove_same_spec h L1 pg L2 Q :
  heap_inv h (L1 ++ pg :: L2) →
  (∀ rs bs, relinked (pagerefs h) rs → (∀ x, nxt next_all rs x = nxt next_all (pagerefs h) x) → zlen bs = NSIZES →
     (∀ t, 0 ≤ t < NSIZES → ∃ b, bs !z t = Some b ∧ linked (nxt next_samesize rs) b (pg_ref <$> of_type t (L1 ++ L2))) →
     Q (Ret ()) (set_sizebases bs (set_pagerefs rs h))) →
  wp (unlink (get_base (pg_type pg)) (put_base (pg_type pg)) next_samesize set_next_samesize list_fuel None (pg_ref pg)) Q h.
Proof.
  intros Hinv HQ. set (t := pg_type pg). pose proof Hinv as [[[Hnd Hrg] Hlen _ _] _ Hbl Hsame Hpages _ _ _].
  assert (0 ≤ t < NSIZES) as Ht by (apply Forall_app in Hpages as [_ Hp]; apply Forall_cons in Hp as [Hp _]; apply Hp).
  assert (∀ x, x ∈ pg_ref <$> L1 ++ pg :: L2 → is_Some (pagerefs h !z x)) as Hin.
  { intros x Hx. apply zlookup_in. rewrite Hlen. rewrite Forall_forall in Hrg. by apply Hrg. }
  destruct (Hsame t Ht) as (b & Hb & Hl). pose proof (of_type_split t L1 pg L2) as Hot. rewrite decide_True in Hot by done.
  rewrite Hot, fmap_app, fmap_cons in Hl.
  assert (∀ x, x ∈ (pg_ref <$> of_type t L1) ++ pg_ref pg :: (pg_ref <$> of_type t L2) → x ∈ pg_ref <$> L1 ++ pg :: L2) as Hsub.
  { intros x Hx. apply (of_type_ref t). by rewrite Hot, fmap_app, fmap_cons. }
  assert (∀ t', t' ≠ t → pg_ref <$> of_type t' (L1 ++ pg :: L2) = pg_ref <$> of_type t' (L1 ++ L2)) as Hoth.
  { intros t' Hne. rewrite of_type_split, decide_False by done. done. }
  assert (pg_ref <$> of_type t (L1 ++ L2) = (pg_ref <$> of_type t L1) ++ (pg_ref <$> of_type t L2)) as Hno
    by (unfold of_type; by rewrite filter_app, fmap_app).
  eapply (unlink_list _ _ next_samesize set_next_samesize b (λ x h, set_sizebases (<[Z.to_nat t := x]> (sizebases h)) h) (pg_ref pg)
    h (pg_ref <$> of_type t L1) (pg_ref <$> of_type t L2)).
  - intros Q' HQ'. by eapply wp_get_base.
  - intros x Q' HQ'. apply wp_put_base; [lia|done].
  - intros x r. done.
  - intros x Hx. by apply Hin, Hsub.
  - rewrite <- fmap_cons, <- fmap_app, <- Hot. by apply of_type_nodup.
  - pose proof (inv_length _ _ Hinv) as Hlf. rewrite length_app in Hlf. pose proof (length_filter (λ pg, pg_type pg = t) L1).
    rewrite length_fmap. unfold of_type. lia.
  - done.
  - intros Hl'. apply (HQ (pagerefs h)); [apply relinked_refl|done|by rewrite zlen_insert|]. intros t' Ht'. rewrite zlookup_insert by lia.
    destruct (decide (t = t')) as [<-|Hne]; [by rewrite Hno; eexists|]. destruct (Hsame t' Ht') as (b' & Hb' & Hl2).
    exists b'. split; [done|]. by rewrite <- Hoth.
  - intros q rq x Hq Hrq rs' Hl'. apply zlookup_Some_range in Hrq as Hr. replace (set_pagerefs rs' h) with (set_sizebases (sizebases h) (set_pagerefs rs' h)) by (by destruct h).
    apply HQ; [by eapply relinked_insert| |done|].
    + intros y. by eapply nxt_insert_same.
    + intros t' Ht'. destruct (Hsame t' Ht') as (b' & Hb' & Hl2). exists b'. split; [done|]. destruct (decide (t' = t)) as [->|Hne].
      * rewrite Hno. congruence.
      * rewrite <- Hoth by done. eapply linked_ext; [|exact Hl2]. intros y Hy.
        unfold rs'. rewrite nxt_insert by lia. rewrite decide_False; [done|]. intros <-. apply Hne.
        apply (of_type_unique (L1 ++ pg :: L2) _ _ q Hnd Hy). rewrite Hot, fmap_app. apply elem_of_app. by left.
Qed.

Lemma remove_lists_spec h L1 pg L2 Q :
  heap_inv h (L1 ++ pg :: L2) →
  (∀ rs bs ab, relinked (pagerefs h) rs → lists_ok rs bs ab (L1 ++ L2) →
     Q (Ret ()) (set_allbase ab (set_sizebases bs (set_pagerefs rs h)))) →
  wp (remove_lists (pg_ref pg) (pg_type pg)) Q h.
Proof.
  intros Hinv HQ. pose proof Hinv as [[[Hnd Hrg] Hlen _ _] Hall _ _ Hpages _ _ _].
  assert (0 ≤ pg_type pg < NSIZES) as Ht by (apply Forall_app in Hpages as [_ Hp]; apply Forall_cons in Hp as [Hp _]; apply Hp).
  unfold remove_lists. wp_step. apply wp_assert; [lia|]. wp_step. apply (remove_same_spec h L1 pg L2); [done|].
  intros rs bs Hre Hna Hbl Hsame. set (h1 := set_sizebases bs (set_pagerefs rs h)). destruct Hre as [Hlr Hre].
  rewrite fmap_app, fmap_cons in Hall, Hnd, Hrg.
  eapply (unlink_list _ _ next_all set_next_all (allbase h) (λ x h, set_allbase x h) (pg_ref pg) h1 (pg_ref <$> L1) (pg_ref <$> L2)).
  - intros Q' HQ'. by wp_step.
  - intros x Q' HQ'. by wp_step.
  - intros x r. done.
  - intros x Hx. apply zlookup_in. simpl. rewrite Hlr, Hlen. rewrite Forall_forall in Hrg. by apply Hrg.
  - done.
  - pose proof (inv_length _ _ Hinv) as Hlf. rewrite length_app in Hlf. rewrite length_fmap. simpl in Hlf. lia.
  - eapply linked_ext; [|exact Hall]. intros x _. apply Hna.
  - intros Hl. apply HQ; [by split|]. split; [|done]. by rewrite fmap_app.
  - intros q rq x Hq Hrq rs' Hl. replace (set_pagerefs rs' h1) with (set_allbase (allbase h) (set_sizebases bs (set_pagerefs rs' h))) by (by destruct h).
    apply HQ.
    + eapply relinked_trans; [by split|]. by eapply relinked_insert.
    + split; [by rewrite fmap_app|]. split; [done|]. intros t' Ht'. destruct (Hsame t' Ht') as (b & Hb & Hl2). exists b. split; [done|].
      eapply linked_ext; [|exact Hl2]. intros y _. by eapply nxt_insert_same.
Qed.

(** A page is given back. *)
Lemma inv_remove h L1 pg L2 rs bs ab ws m' p' :
  heap_inv h (L1 ++ pg :: L2) → relinked (pagerefs h) rs → lists_ok rs bs ab (L1 ++ L2) →
  table_ok (set_inuse ws h) (pg_ref <$> L1 ++ L2) → kp_ok p' →
  (∀ b m, kp_sized p' b m ↔ kp_sized (below h) b m ∧ b ≠ pg_addr pg) →
  (∀ w, ¬ (pg_addr pg ≤ w < pg_addr pg + PAGE_SIZE) → m' !!! w = hmem h !!! w) →
  heap_inv {| pagerefs := rs; pagerefs_inuse := ws; sizebases := bs; allbase := ab; hmem := m'; below := p' |} (L1 ++ L2).
Proof.
  intros Hinv [Hlr Hre] (Hall & Hbl & Hsame) [Href Hlen Hw Hin] Hok Hs Hm. simpl in *.
  assert (∀ q, q ∈ L1 ++ L2 → q ∈ L1 ++ pg :: L2) as Hsub by (intros q; rewrite !elem_of_app, elem_of_cons; tauto).
  split; cbn [pagerefs pagerefs_inuse sizebases allbase hmem below]; try done.
  - split; simpl; [done|congruence|done|done].
  - apply Forall_forall. intros q Hq. destruct (inv_ref h _ q Hinv (Hsub q Hq)) as (Hqok & _).
    destruct (inv_apart h L1 pg L2 q Hinv Hq) as [_ Hap]. eapply page_ok_other; [exact Hqok|apply Hre|].
    intros o Ho. apply Hm. destruct (po_free _ _ _ Hqok) as [_ Hf]. rewrite Forall_forall in Hf. destruct (Hf o Ho) as [Hob _]. lia.
  - pose proof (hi_addrs _ _ Hinv) as Hnd. rewrite <- Permutation_middle, fmap_cons in Hnd. by apply NoDup_cons in Hnd as [_ ?].
  - apply Forall_forall. intros q Hq. destruct (inv_ref h _ q Hinv (Hsub q Hq)) as (_ & _ & Hqs & _). apply Hs. split; [done|].
    destruct (inv_apart h L1 pg L2 q Hinv Hq) as [_ Hap]. heap_consts. lia.
Qed.

Lemma fill_deadbeef_spec h a len Q :
  0 ≤ len →
  (∀ m', (∀ w, ¬ (a ≤ w < a + len) → m' !!! w = hmem h !!! w) → Q (Ret ()) (set_hmem m' h)) →
  wp (fill_deadbeef a len) Q h.
Proof.
  intros Hlen HQ. unfold fill_deadbeef.
  apply (wp_forM _ _ (λ k h', ∃ m', h' = set_hmem m' h ∧ ∀ w, ¬ (a ≤ w < a + len) → m' !!! w = hmem h !!! w)).
  - exists (hmem h). split; [by destruct h|done].
  - intros k x h' [-> Hk]%lookup_seqZ_inv (m' & -> & Hm). unfold store. wp_step. eexists. split; [done|].
    intros w Hw. cbn [hmem set_hmem]. rewrite lookup_total_insert_ne; [by apply Hm|]. Z.div_mod_to_equations. lia.
  - intros h' (m' & -> & Hm). by apply HQ.
Qed.

(** A block is put back on its page. *)
Lemma live_put h L1 pg L2 o :
  heap_inv h (L1 ++ pg :: L2) → block_at (pg_type pg) o → o ∉ pg_free pg →
  ∀ b m, live (below h) (L1 ++ with_free (o :: pg_free pg) pg :: L2) b m ↔
    live (below h) (L1 ++ pg :: L2) b m ∧ b ≠ pg_addr pg + o.
Proof.
  intros Hinv Ho Hno b m. assert (pg ∈ L1 ++ pg :: L2) as Hpg by (rewrite elem_of_app, elem_of_cons; auto).
  assert (∀ q, q ∈ L1 ∨ q ∈ L2 → q ∈ L1 ++ pg :: L2 ∧ pg ≠ q) as Hq.
  { intros q Hq. split; [rewrite elem_of_app, elem_of_cons; tauto|]. intros <-. rewrite <- elem_of_app in Hq.
    by destruct (inv_apart h L1 pg L2 pg Hinv Hq). }
  unfold live. rewrite (repage_fmap pg_addr) by done. split.
  - intros [(q & x & Hqin & Hx & Hn & -> & ->)|(k & Hk & Hkn & ->)].
    + rewrite elem_of_app, elem_of_cons in Hqin. destruct (decide (q = with_free (o :: pg_free pg) pg)) as [->|Hne].
      * simpl in *. apply not_elem_of_cons in Hn as [Hxo Hn]. split; [left; by exists pg, x|lia].
      * assert (q ∈ L1 ∨ q ∈ L2) as Hq' by tauto. destruct (Hq q Hq') as [Hqin' Hpq]. split; [left; by exists q, x|].
        intros Heq. by destruct (block_home h _ pg o q x Hinv Hpg Ho Hqin' Hx ltac:(lia)).
    + split; [right; by exists k|]. intros ->. by apply Hkn, (block_not_big h _ pg o k Hinv).
  - intros [[(q & x & Hqin & Hx & Hn & -> & ->)|Hbig] Hne]; [left|by right].
    rewrite elem_of_app, elem_of_cons in Hqin. destruct (decide (q = pg)) as [->|Hqp].
    + exists (with_free (o :: pg_free pg) pg), x. split; [rewrite elem_of_app, elem_of_cons; auto|]. split; [done|]. split; [|done].
      simpl. apply not_elem_of_cons. split; [intros ->; done|done].
    + exists q, x. split; [rewrite elem_of_app, elem_of_cons; tauto|done].
Qed.

(** A page all of whose blocks are free has no allocated ones. *)
Lemma live_drop p p' L1 pg L2 :
  (∀ o, block_at (pg_type pg) o → o ∈ pg_free pg) →
  (∀ b m, kp_sized p' b m ↔ kp_sized p b m ∧ b ≠ pg_addr pg) →
  ∀ b m, live p' (L1 ++ L2) b m ↔ live p (L1 ++ pg :: L2) b m.
Proof.
  intros Hfull Hs b m. unfold live. rewrite !fmap_app, fmap_cons.
  setoid_rewrite Hs. setoid_rewrite elem_of_app. setoid_rewrite elem_of_cons. split.
  - intros [(q & x & Hq & Hx)|(k & [Hk Hne] & Hno & ->)]; [left; exists q, x; tauto|]. right. exists k. split; [done|]. split; [tauto|done].
  - intros [(q & x & Hq & Hx & Hn & Hrest)|(k & Hk & Hno & ->)].
    + left. exists q, x. split; [|done]. destruct Hq as [?|[->|?]]; [by left| |by right]. exfalso. by apply Hn, Hfull.
    + right. exists k. split; [split; [done|tauto]|]. split; [tauto|done].
Qed.

Lemma free_full t free :
  0 ≤ t < NSIZES → NoDup free → Forall (block_at t) free → zlen free = PAGE_SIZE / size_of t →
  ∀ o, block_at t o → o ∈ free.
Proof.
  intros Ht Hnd Hf Hlen o Ho. destruct (down_props t Ht) as (Hnd' & Hlen' & Hmem).
  assert (free ≡ₚ down (Z.to_nat (PAGE_SIZE / size_of t)) (size_of t)) as ->; [|by apply Hmem].
  apply submseteq_length_Permutation; [|unfold zlen in *; lia].
  apply NoDup_submseteq; [done|]. intros x Hx. rewrite Forall_forall in Hf. by apply Hmem, Hf.
Qed.

(** What giving back the block at [a] does. *)
Record freed h L h' L' (a n : Z) : Prop := {
  fr_inv : heap_inv h' L';
  fr_level : keeps_level h h';
  fr_live : ∀ b m, live (below h') L' b m ↔ live (below h) L b m ∧ b ≠ a;
  fr_words : ∀ w, ¬ (a ≤ w < a + n) → hmem h' !!! w = hmem h !!! w;
}.

(** The block goes on the free list of its page. *)
Lemma put_back_spec h L1 pg L2 o r Q :
  heap_inv h (L1 ++ pg :: L2) → block_at (pg_type pg) o → o ∉ pg_free pg → pagerefs h !z (pg_ref pg) = Some r →
  let a := pg_addr pg + o in let sz := size_of (pg_type pg) in let pg' := with_free (o :: pg_free pg) pg in
  (∀ h', heap_inv h' (L1 ++ pg' :: L2) → below h' = below h →
     (∀ w, ¬ (a ≤ w < a + sz) → hmem h' !!! w = hmem h !!! w) →
     (∃ r', pagerefs h' !z (pg_ref pg) = Some r' ∧ nfree r' = zlen (o :: pg_free pg)) → Q (Ret ()) h') →
  wp (put_back (pg_ref pg) r a sz) Q h.
Proof.
  intros Hinv Ho Hno Hr a sz pg' HQ. destruct (inv_ref h _ pg Hinv) as (Hpok & Hrng & _ & Ha); [rewrite elem_of_app, elem_of_cons; auto|].
  destruct Hpok as [(r0 & Hr0 & Hpab & Hnf & Hoff) Ht [Hnd Hf] Hc]. rewrite Hr in Hr0. injection Hr0 as <-.
  pose proof (block_fits _ _ Ht Ho) as Hfit. destruct (size_of_bounds _ Ht) as (Hs & _ & _ & Hcap). fold sz in Hfit, Hs, Hcap. destruct Ho as [Hob Hom].
  assert (NoDup (o :: pg_free pg) ∧ Forall (block_at (pg_type pg)) (o :: pg_free pg)) as [Hnd' Hf']
    by (split; [by apply NoDup_cons|by apply Forall_cons]).
  assert (1 ≤ zlen (o :: pg_free pg) ≤ 256 ∧ zlen (o :: pg_free pg) = zlen (pg_free pg) + 1) as [Hz Hz1].
  { pose proof (free_bound _ _ Ht Hnd' Hf'). fold sz in H1. unfold zlen in *. simpl in *. lia. }
  destruct (pab_fields r _ _ Ha Ht Hpab) as [Hpa _]. unfold put_back. rewrite Hpa.
  replace (a - pg_addr pg) with o by (unfold a; lia). rewrite (u32_small o) by (heap_consts; lia). fold a.
  rewrite (u32_small a) by (unfold a; heap_consts; lia).
  wp_step. apply fill_deadbeef_spec; [lia|]. intros m1 Hm1. wp_step.
  set (next := match pg_free pg with [] => 0 | x :: _ => pg_addr pg + x end).
  assert (wp (if freelist_offset r =? INVALID_OFFSET then store a 0 else store a (u32 (pg_addr pg + freelist_offset r)))
    (λ x h', x = Ret () ∧ h' = set_hmem (<[a := next]> m1) h) (set_hmem m1 h)) as Hst.
  { unfold next. rewrite Hoff. destruct (pg_free pg) as [|x free]; [rewrite Z.eqb_refl; unfold store; by wp_step|].
    apply Forall_cons in Hf as [[Hx _] _]. rewrite (proj2 (Z.eqb_neq _ _)) by (heap_consts; lia). unfold store. wp_step.
    rewrite u32_small by (heap_consts; lia). done. }
  eapply wp_mono; [exact Hst|]. intros ? ? [-> ->]. eapply wp_update_pr; [exact Hr|]. cbn [pagerefs set_hmem].
  assert (∀ w, ¬ (a ≤ w < a + sz) → (<[a := next]> m1) !!! w = hmem h !!! w) as Hm.
  { intros w Hw. rewrite lookup_total_insert_ne by lia. by apply Hm1. }
  apply HQ; [|done|done|].
  - pose proof (inv_repage h L1 pg L2 (o :: pg_free pg) r (set_nfree (u16 (nfree r + 1)) (set_freelist_offset (u16 o) r))
      (<[a := next]> m1) Hinv Hr eq_refl eq_refl) as Hre.
    apply Hre; [|intros w Hw; apply Hm; unfold a; lia]. split; cbn [with_free pg_ref pg_addr pg_type pg_free]; [|done|done|].
    + eexists. split; [rewrite zlookup_insert by (apply zlookup_Some_range in Hr; lia); by rewrite decide_True|]. simpl.
      rewrite Hnf, !u16_small by (heap_consts; lia). split; [done|]. split; [lia|done].
    + split; [apply lookup_total_insert_eq|]. eapply fl_chain_ext; [|exact Hc]. intros x Hx. apply Hm. unfold a.
      rewrite Forall_forall in Hf. destruct (Hf x Hx) as [_ Hxm].
      destruct (multiples_apart sz o x); [lia|done|done|congruence|lia|lia].
  - eexists. split; [simpl; rewrite zlookup_insert by (apply zlookup_Some_range in Hr; lia); by rewrite decide_True|]. simpl.
    rewrite Hnf, u16_small by (heap_consts; lia). lia.
Qed.

Lemma release_page_spec h L1 pg L2 Q :
  heap_inv h (L1 ++ pg :: L2) → (∀ o, block_at (pg_type pg) o → o ∈ pg_free pg) →
  (∀ h', heap_inv h' (L1 ++ L2) → keeps_level h h' →
     (∀ b m, live (below h') (L1 ++ L2) b m ↔ live (below h) (L1 ++ pg :: L2) b m) → hmem h' = hmem h → Q (Ret ()) h') →
  wp (release_page (pg_ref pg) (pg_type pg) (pg_addr pg)) Q h.
Proof.
  intros Hinv Hfull HQ. destruct (inv_ref h _ pg Hinv) as (_ & _ & Hsz & _); [apply elem_of_app; right; left|].
  unfold release_page. wp_step. apply (remove_lists_spec h L1 pg L2); [done|]. intros rs bs ab Hre Hlists. wp_step. unfold on_below. wp_step.
  eapply kp_free_law; [apply Hinv|exact Hsz|]. intros p3 Hok3 Hlv3 Hs3. pose proof (hi_table _ _ Hinv) as Htab.
  rewrite fmap_app, fmap_cons in Htab. destruct (Hre) as [Hlr _].
  eapply (freepageref_spec _ (pg_ref <$> L1) (pg_ref pg) (pg_ref <$> L2)).
  { destruct Htab as [? Htl ? ?]. split; simpl; [done|congruence|done|done]. }
  intros ws Htab3. apply HQ; [|done| |done].
  - apply (inv_remove h L1 pg L2 rs bs ab ws (hmem h) p3); [done|done|done| |done|done|done].
    rewrite fmap_app. destruct Htab3 as [? Htl3 ? ?]. split; simpl in *; [done| |done|done]. congruence.
  - by apply live_drop.
Qed.

(** The page that [find_owner] finds for a block. *)
Lemma block_owner h L pg qg o :
  heap_inv h L → pg ∈ L → block_at (pg_type pg) o → qg ∈ L → on_page (pg_addr pg + o) qg → qg = pg.
Proof.
  intros Hinv Hpg [Ho _] Hqg Hon. eapply page_unique; [exact Hinv|done|done|].
  destruct (inv_ref h L pg Hinv Hpg) as (_ & _ & _ & [Ha _]), (inv_ref h L qg Hinv Hqg) as (_ & _ & _ & [Hb _]).
  unfold on_page in Hon. heap_consts. Z.div_mod_to_equations. lia.
Qed.

Lemma subpage_kfree_spec h L1 pg L2 o Q :
  heap_inv h (L1 ++ pg :: L2) → block_at (pg_type pg) o → o ∉ pg_free pg →
  (∀ h' L', freed h (L1 ++ pg :: L2) h' L' (pg_addr pg + o) (size_of (pg_type pg)) → Q (Ret true) h') →
  wp (subpage_kfree (pg_addr pg + o)) Q h.
Proof.
  intros Hinv Ho Hno HQ. set (L := L1 ++ pg :: L2) in *. set (a := pg_addr pg + o) in *. set (sz := size_of (pg_type pg)) in *.
  pose proof (hi_ok _ _ Hinv) as Hok. pose proof (kp_level_pos _ Hok) as Hlv. assert (pg ∈ L) as Hpg by (apply elem_of_app; right; left).
  unfold subpage_kfree. wp_step. unfold on_below. wp_step. apply kp_splhigh_law; [done|]. intros p1 Hok1 Hs1. set (h1 := set_below p1 h).
  assert (heap_inv h1 L) as Hinv1 by (by apply inv_below). pose proof (live_same _ _ L Hs1) as Hl1. wp_step. wp_step. wp_step.
  apply (find_owner_spec h1 L L); [done|done|apply Hinv1|by eapply inv_length| |].
  2: { intros Hnone. exfalso. apply (Hnone pg Hpg). unfold on_page, a. destruct Ho. lia. }
  intros qg Hqg Hon. assert (qg = pg) as -> by (by eapply block_owner).
  destruct (inv_ref h1 L pg Hinv1 Hpg) as ([(r & Hr & Hpab & Hnf & Hoff) Ht [Hnd Hf] _] & _ & Hsz & Ha).
  destruct (pab_fields r _ _ Ha Ht Hpab) as [Hpa Hbt]. destruct (size_of_cases _ Ht) as [Hst _].
  wp_step. eapply wp_get_pr; [exact Hr|]. rewrite Hbt, Hpa. wp_step. eapply wp_deref; [exact Hst|].
  assert (u32 (a - pg_addr pg) = o) as -> by (unfold a; replace (pg_addr pg + o - pg_addr pg) with o by lia; apply u32_small; destruct Ho; heap_consts; lia).
  rewrite (proj2 (orb_false_iff _ _)) by (destruct Ho as [? ->]; simpl; heap_consts; lia). wp_step.
  apply (put_back_spec h1 L1 pg L2 o r); [done|done|done|done|]. intros h2 Hinv2 Hb2 Hw2 (r2 & Hr2 & Hnf2).
  assert (∀ b m, live (below h2) (L1 ++ with_free (o :: pg_free pg) pg :: L2) b m ↔ live (below h) L b m ∧ b ≠ a) as Hl2.
  { intros b m. rewrite Hb2. etrans; [by apply (live_put h1)|]. by rewrite <- Hl1. }
  assert (zlen (o :: pg_free pg) ≤ PAGE_SIZE / sz) as Hcap
    by (apply free_bound; [done|by apply NoDup_cons|by apply Forall_cons]).
  wp_step. eapply wp_get_pr; [exact Hr2|]. wp_step. apply wp_assert; [fold sz; lia|]. rewrite Hnf2. wp_step. fold sz.
  destruct (Z.eqb_spec (zlen (o :: pg_free pg)) (PAGE_SIZE / sz)) as [Hfull|_].
  - apply (release_page_spec h2 L1 (with_free (o :: pg_free pg) pg) L2); [done| |].
    { simpl. apply free_full; [done|by apply NoDup_cons|by apply Forall_cons|done]. }
    intros h3 Hinv3 _ Hl3 Hm3. wp_step. wp_step. apply kp_splx_law; [apply Hinv3|done|]. intros p4 x Hok4 Hs4 Hlv4. wp_step.
    apply (HQ _ (L1 ++ L2)). split; [by apply inv_below|done| |].
    + intros b m. etrans; [apply live_same; exact Hs4|]. by rewrite Hl3.
    + intros w Hw. simpl. rewrite Hm3. rewrite Hw2; done.
  - wp_step. wp_step. wp_step. apply kp_splx_law; [apply Hinv2|done|]. intros p4 x Hok4 Hs4 Hlv4. wp_step.
    apply (HQ _ (L1 ++ with_free (o :: pg_free pg) pg :: L2)). split; [by apply inv_below|done| |].
    + intros b m. etrans; [apply live_same; exact Hs4|]. apply Hl2.
    + intros w Hw. simpl. rewrite Hw2; done.
Qed.

(** ** The heap *)

Lemma kmalloc_big_spec h L npages Q :
  heap_inv h L → 0 < npages < 2 ^ 19 →
  (∀ h' a, allocated h L h' L a (npages * PAGE_SIZE) → a ≠ 0 → Q (Ret a) h') → (∀ h', unchanged h L h' → Q (Ret 0) h') →
  wp (address ← on_below (kp_alloc npages); if address =? 0 then mret 0 else mret address) Q h.
Proof.
  intros Hinv Hn HQ HN. wp_step. unfold on_below. wp_step. pose proof (hi_ok _ _ Hinv) as Hok. apply kp_alloc_law; [done|done| |].
  2: { intros p' Hok' Hlv Hs. simpl. wp_step. apply HN. split; [by apply inv_below|done|done|done]. }
  intros p' a Hok' Hlv Ha0 Hnew Hs. rewrite (proj2 (Z.eqb_neq _ _)) by done. wp_step.
  destruct (kp_range p' a npages Hok') as (Hmod & Hlo & _ & Hhi); [apply Hs; auto|].
  assert (a ∉ pg_addr <$> L) as Hno.
  { intros (q & -> & Hq)%list_elem_of_fmap. destruct (inv_ref h L q Hinv Hq) as (_ & _ & Hqs & _). by apply (Hnew 1). }
  apply HQ; [|done]. split; [|done| | |done| |done].
  - destruct Hinv as [[] ? ? ? ? ? Ho _]. split; try done. eapply Forall_impl; [exact Ho|]. intros q Hq. apply Hs. by left.
  - intros m [(q & o & Hq & Ho & _ & -> & _)|(k & Hk & _)]; [|by apply (Hnew k)].
    destruct (inv_ref h L q Hinv Hq) as (_ & _ & Hqs & [Hqm _]). destruct Ho as [Ho _].
    assert (o = 0) as -> by (heap_consts; Z.div_mod_to_equations; lia). rewrite Z.add_0_r in Hnew. by apply (Hnew 1).
  - intros b m. unfold live. simpl. setoid_rewrite Hs. split.
    + intros [Hsm|(k & [Hk|[-> ->]] & Hkn & ->)]; [by left; left|left; right; by exists k|by right].
    + intros [[Hsm|(k & Hk & Hkn & ->)]|[-> ->]]; [by left|right; exists k; auto|right; exists npages; auto].
  - unfold PAGE_SIZE in Hmod. Z.div_mod_to_equations. lia.
Qed.

Lemma kmalloc_spec h L sz Q :
  heap_inv h L → 0 ≤ sz ≤ 2 ^ 31 - PAGE_SIZE →
  (∀ h' L' a n, allocated h L h' L' a n → sz ≤ n → a ≠ 0 → Q (Ret a) h') → (∀ h', unchanged h L h' → Q (Ret 0) h') →
  wp (kmalloc sz) Q h.
Proof.
  intros Hinv Hsz HQ HN. unfold kmalloc, LARGEST_SUBPAGE_SIZE. destruct (Z.leb_spec 2048 sz).
  - rewrite u32_small by (heap_consts; lia). apply (kmalloc_big_spec h L); [done|heap_consts; Z.div_mod_to_equations; lia| |done].
    intros h' a Hal Ha. apply (HQ h' L a _ Hal); [|done]. heap_consts. Z.div_mod_to_equations. lia.
  - apply (subpage_kmalloc_spec h L); [done|lia| |done]. intros h' L' a n Hal Hn. apply (HQ h' L' a n); [done|done|].
    destruct (al_range _ _ _ _ _ _ Hal). heap_consts. lia.
Qed.

(** An address that is not on a page of blocks. *)
Lemma subpage_kfree_none h L a k Q :
  heap_inv h L → kp_sized (below h) a k → a ∉ pg_addr <$> L → (∀ h', unchanged h L h' → Q (Ret false) h') →
  wp (subpage_kfree a) Q h.
Proof.
  intros Hinv Ha Hno HQ. pose proof (hi_ok _ _ Hinv) as Hok. pose proof (kp_level_pos _ Hok) as Hlv.
  unfold subpage_kfree. wp_step. unfold on_below. wp_step. apply kp_splhigh_law; [done|]. intros p1 Hok1 Hs1. set (h1 := set_below p1 h).
  assert (heap_inv h1 L) as Hinv1 by (by apply inv_below). wp_step. wp_step. wp_step.
  apply (find_owner_spec h1 L L); [done|done|apply Hinv1|by eapply inv_length| |].
  - intros pg Hpg Hon. exfalso. apply Hno. destruct (decide (pg_addr pg = a)) as [<-|Hne]; [by apply list_elem_of_fmap_2|].
    destruct (inv_ref h L pg Hinv Hpg) as (_ & _ & Hps & _). destruct (kp_range _ _ _ Hok Ha) as (_ & _ & ? & _).
    unfold on_page in Hon. destruct (kp_apart _ _ _ _ _ Hok Hps Ha Hne); heap_consts; lia.
  - intros _. wp_step. wp_step. apply kp_splx_law; [done|done|]. intros p2 x Hok2 Hs2 Hlv2. wp_step. apply HQ.
    split; [by apply inv_below|done| |done]. intros b m. etrans; [apply Hs2|apply Hs1].
Qed.

Lemma kfree_spec h L a n Q :
  heap_inv h L → live (below h) L a n → (∀ h' L', freed h L h' L' a n → Q (Ret ()) h') → wp (kfree a) Q h.
Proof.
  intros Hinv Hlive HQ. destruct (live_in_pages h L a n Hinv Hlive) as (_ & c & k & Hc & Hca & _).
  destruct (kp_range _ _ _ (hi_ok _ _ Hinv) Hc) as (_ & Hlo & _). unfold kfree.
  rewrite (proj2 (Z.eqb_neq a 0)) by (heap_consts; lia). wp_step.
  destruct Hlive as [(pg & o & Hpg & Ho & Hno & -> & ->)|(k' & Hk' & Hno & ->)].
  - apply list_elem_of_split in Hpg as (L1 & L2 & ->). apply (subpage_kfree_spec h L1 pg L2 o); [done..|].
    intros h' L' Hfr. wp_step. by apply (HQ h' L').
  - apply (subpage_kfree_none h L a k'); [done..|]. intros h1 [Hinv1 Hlv1 Hs1 Hm1].
    destruct (kp_range _ _ _ (hi_ok _ _ Hinv) Hk') as (Hmod & _). wp_step. apply wp_assert; [lia|]. unfold on_below. wp_step.
    eapply kp_free_law; [apply Hinv1|by apply Hs1|]. intros p2 Hok2 Hlv2 Hs2. apply (HQ _ L).
    assert (∀ b m, kp_sized p2 b m ↔ kp_sized (below h) b m ∧ b ≠ a) as Hs by (intros b m; rewrite Hs2; by rewrite (Hs1 b m)).
    split; [|unfold keeps_level in *; simpl; congruence| |intros w _; simpl; by rewrite Hm1].
    + destruct Hinv1 as [[] ? ? ? ? ? Ho _]. split; try done. apply Forall_forall. intros q Hq. rewrite Forall_forall in Ho.
      apply Hs2. split; [by apply Ho|]. intros Heq. apply Hno. rewrite <- Heq. by apply list_elem_of_fmap_2.
    + intros b m. unfold live. simpl. setoid_rewrite Hs. split.
      * intros [(q & o & Hq & Ho & Hfo & -> & ->)|(j & [Hj Hne] & Hjn & ->)]; [|split; [right; by exists j|done]].
        split; [left; by exists q, o|]. intros Heq. apply Hno. rewrite <- Heq. apply (block_not_big h L q o k' Hinv Hq Ho). by rewrite Heq.
      * intros [[Hsm|(j & Hj & Hjn & ->)] Hne]; [by left|right; exists j; auto].
Qed.

(** C16: [kmalloc] of at most 2^31 - 4096 bytes gives out memory of its own (for
    sizes close to 2^32 the rounding to pages wraps around, [kmalloc_wraps]).
    Given the blocks [A] that are allocated, it returns a block of at least [sz]
    bytes, aligned, in the direct-mapped segment and disjoint from all of [A],
    and adds it to [A]; or it returns NULL and changes nothing.  It never stops
    (all its assertions hold), the words of the blocks of [A] keep their values,
    and the priority level is restored. *)
Theorem kmalloc_correct h A sz :
  heap_repr h A → 0 ≤ sz ≤ 2 ^ 31 - PAGE_SIZE →
  match kmalloc sz h with
  | (Ret a, h') =>
      kp_level (below h') = kp_level (below h) ∧
      (∀ b m w, A !! b = Some m → b ≤ w < b + m → hmem h' !!! w = hmem h !!! w) ∧
      (a = 0 ∧ heap_repr h' A ∨
       ∃ n, sz ≤ n ∧ a mod 16 = 0 ∧ MIPS_KSEG0 ≤ a ∧ a + n ≤ MIPS_KSEG1 ∧
         (∀ b m, A !! b = Some m → a + n ≤ b ∨ b + m ≤ a) ∧ heap_repr h' (<[a := n]> A))
  | _ => False
  end.
Proof.
  intros (L & Hinv & HA) Hsz. apply (wp_elim (kmalloc sz) (λ r h', match r with Ret a => _ | _ => False end) h).
  apply (kmalloc_spec h L); [done|done| |].
  - intros h' L' a n [Hinv' Hlv Hnew Hlive Hw Hal [Hlo Hhi]] Hn _. split; [done|]. split; [intros b m w Hb; apply Hw; by apply HA|].
    right. exists n. do 4 (split; [done|]). split.
    + intros b m Hb. apply HA in Hb. apply (live_disjoint h' L'); [done|apply Hlive; auto|apply Hlive; auto|].
      intros ->. by apply (Hnew m).
    + exists L'. split; [done|]. intros b m. rewrite Hlive, lookup_insert_Some, HA. split.
      * intros [[<- <-]|[_ ?]]; [by right|by left].
      * intros [Hb|[-> ->]]; [right; split; [intros <-; by apply (Hnew m)|done]|by left].
  - intros h' [Hinv' Hlv Hs Hm]. split; [done|]. split; [by rewrite Hm|]. left. split; [done|]. exists L. split; [done|].
    intros b m. rewrite HA. symmetry. by apply live_same.
Qed.

(** C17: [kfree] of an allocated block (or of NULL) returns; the block is no longer
    allocated, every other block is, with the same contents, and the priority
    level is restored. *)
Theorem kfree_correct h A a n :
  heap_repr h A → A !! a = Some n ∨ a = 0 →
  match kfree a h with
  | (Ret _, h') =>
      kp_level (below h') = kp_level (below h) ∧ heap_repr h' (delete a A) ∧
      ∀ b m w, A !! b = Some m → b ≠ a → b ≤ w < b + m → hmem h' !!! w = hmem h !!! w
  | _ => False
  end.
Proof.
  intros (L & Hinv & HA) Ha. apply (wp_elim (kfree a) (λ r h', match r with Ret _ => _ | _ => False end) h).
  destruct Ha as [Ha| ->].
  2: { unfold kfree. simpl. wp_step. split; [done|]. split; [|done]. exists L. split; [done|]. intros b m.
       rewrite lookup_delete_Some, HA. split; [by intros [_ ?]|]. intros Hb. split; [|done]. intros <-.
       destruct (live_in_pages h L 0 m Hinv Hb) as (_ & c & k & Hc & ? & _).
       destruct (kp_range _ _ _ (hi_ok _ _ Hinv) Hc) as (_ & ? & _). heap_consts. lia. }
  apply HA in Ha as Hlive. apply (kfree_spec h L a n); [done|done|]. intros h' L' [Hinv' Hlv Hl Hw]. split; [done|]. split.
  - exists L'. split; [done|]. intros b m. rewrite lookup_delete_Some, HA, Hl. split; intros [? ?]; by split.
  - intros b m w Hb Hne Hbw. apply Hw. apply HA in Hb. destruct (live_disjoint h L a n b m Hinv Hlive Hb); [done|lia|lia].
Qed.

(** The blocks of the heap do not overlap. *)
Theorem heap_blocks_disjoint h A a n b m :
  heap_repr h A → A !! a = Some n → A !! b = Some m → a ≠ b → a + n ≤ b ∨ b + m ≤ a.
Proof. intros (L & Hinv & HA) Ha%HA Hb%HA Hne. by eapply live_disjoint. Qed.

(** The heap the kernel starts with. *)
Definition heap_start (p : P) : kheap P :=
  {| pagerefs := replicate (Z.to_nat NPAGEREFS)
       {| next_samesize := None; next_all := None; pageaddr_and_blocktype := 0; freelist_offset := 0; nfree := 0 |};
     pagerefs_inuse := replicate (Z.to_nat INUSE_WORDS) 0; sizebases := replicate (Z.to_nat NSIZES) None;
     allbase := None; hmem := ∅; below := p |}.

Lemma heap_start_repr p : kp_ok p → (∀ a n, ¬ kp_sized p a n) → heap_repr (heap_start p) ∅.
Proof.
  intros Hok Hnone. exists []. split.
  - split; try done; [|intros t Ht|constructor].
    + split; [split; constructor|done| |].
      * split; [done|]. by apply Forall_replicate.
      * intros j Hj. unfold inuse_bit. etrans; [|symmetry; apply bool_decide_eq_false_2, not_elem_of_nil].
        cbn [pagerefs_inuse heap_start]. destruct (replicate _ 0 !z _) as [w|] eqn:E; [|apply Z.bits_0]. unfold zlookup in E. case_decide; [|done].
        apply lookup_replicate in E as [-> _]. apply Z.bits_0.
    + exists None. split; [|done]. rewrite zlookup_nat by lia. apply lookup_replicate. split; [done|]. unfold NSIZES in *. lia.
  - intros a n. rewrite lookup_empty. split; [done|]. intros [(q & o & Hq & _)|(k & Hk & _)]; [by apply not_elem_of_nil in Hq|by destruct (Hnone a k)].
Qed.
End specs.

(** ** Pages from dumbvm.c

    dumbvm.c never takes a page back and does not record what it has handed out;
    the second component of the state does, for the specification. *)

Definition free_kpages (a : Z) : M kstate unit := mret ().

#[export] Instance dumbvm_pages : KernelPages (kstate * gmap Z Z) := {
  kp_splhigh := on_fst splhigh;
  kp_splx l := on_fst (splx l);
  kp_alloc n :=
    a ← on_fst (alloc_kpages n);
    _ ← modify (λ p, if a =? 0 then p else (p.1, <[a := n]> p.2));
    mret a;
  kp_free a := _ ← on_fst (free_kpages a); modify (λ p, (p.1, delete a p.2));
}.

Record handed_out (σ : kstate) (g : gmap Z Z) : Prop := {
  ho_flag : flag_ok σ;
  ho_mem : mem_ok (vm σ);
  ho_range : ∀ a n, g !! a = Some n →
    a mod PAGE_SIZE = 0 ∧ MIPS_KSEG0 ≤ a ∧ 0 < n ∧ a + n * PAGE_SIZE ≤ MIPS_KSEG0 + firstpaddr (vm σ);
  ho_apart : ∀ a n b m, g !! a = Some n → g !! b = Some m → a ≠ b → a + n * PAGE_SIZE ≤ b ∨ b + m * PAGE_SIZE ≤ a;
}.

Lemma handed_out_spl σ g l : handed_out σ g → 0 ≤ l → handed_out (at_spl l σ) g.
Proof. intros [Hf Hm Hr Ha] Hl. split; [by apply at_spl_flag_ok|done|done|done]. Qed.

Lemma dumbvm_alloc_law p n (Q : result Z → kstate * gmap Z Z → Prop) :
  handed_out p.1 p.2 → 0 < n < 2 ^ 19 →
  (∀ p' a, handed_out p'.1 p'.2 → curspl p'.1 = curspl p.1 → a ≠ 0 → (∀ m, ¬ p.2 !! a = Some m) →
     (∀ b m, p'.2 !! b = Some m ↔ p.2 !! b = Some m ∨ b = a ∧ m = n) → Q (Ret a) p') →
  (∀ p', handed_out p'.1 p'.2 → curspl p'.1 = curspl p.1 → (∀ b m, p'.2 !! b = Some m ↔ p.2 !! b = Some m) → Q (Ret 0) p') →
  wp (kp_alloc n) Q p.
Proof.
  destruct p as [σ g]. cbn [fst snd]. intros [Hf Hm Hr Ha] Hn HQ HN. pose proof Hm as [Hpos Hal Hlast]. simpl. wp_step. wp_step.
  unfold alloc_kpages. wp_step. rewrite u32_small by (heap_consts; lia). apply getppages_spec; [done|done|lia| |].
  2: { intros _. simpl. wp_step. wp_step. wp_step. wp_step. by apply HN. }
  intros Hfit. unfold RAM_MAX in *. rewrite (proj2 (Z.eqb_neq _ 0)) by lia. wp_step.
  assert (PADDR_TO_KVADDR (firstpaddr (vm σ)) = MIPS_KSEG0 + firstpaddr (vm σ)) as Hkv.
  { unfold PADDR_TO_KVADDR. rewrite u32_small by (heap_consts; lia). lia. }
  rewrite Hkv. set (a := MIPS_KSEG0 + firstpaddr (vm σ)) in *. wp_step. wp_step.
  assert (a ≠ 0) as Ha0 by (unfold a; heap_consts; lia). rewrite (proj2 (Z.eqb_neq a 0)) by done. wp_step.
  assert (∀ m, ¬ g !! a = Some m) as Hnew by (intros m Hg; destruct (Hr a m Hg) as (_ & _ & ? & ?); unfold a in *; heap_consts; lia).
  apply HQ; [|done|done|done|].
  - split; cbn [fst snd].
    + by apply flag_ok_vm.
    + split; simpl; [heap_consts; lia|by apply aligned_add, aligned_pages|unfold RAM_MAX; heap_consts; lia].
    + intros b m [[<- <-]|[_ Hg]]%lookup_insert_Some.
      * unfold a. simpl. split; [by apply (aligned_add MIPS_KSEG0)|]. heap_consts. lia.
      * destruct (Hr b m Hg) as (? & ? & ? & ?). simpl. heap_consts. lia.
    + assert (∀ c k, g !! c = Some k → c + k * PAGE_SIZE ≤ a) as Hbelow by (intros c k Hg; by destruct (Hr c k Hg) as (_ & _ & _ & ?)).
      intros b m c k [[<- <-]|[_ Hb]]%lookup_insert_Some [[<- <-]|[_ Hc]]%lookup_insert_Some Hne; [done|right; eauto|left; eauto|eauto].
  - intros b m. cbn [snd]. rewrite lookup_insert_Some. split.
    + intros [[<- <-]|[_ ?]]; auto.
    + intros [Hb|[-> ->]]; [right; split; [intros <-; by apply (Hnew m)|done]|auto].
Qed.

#[export] Program Instance dumbvm_pages_laws : KernelPagesLaws (kstate * gmap Z Z) := {
  kp_ok p := handed_out p.1 p.2;
  kp_level p := curspl p.1;
  kp_sized p a n := p.2 !! a = Some n;
}.
Next Obligation.
  intros [σ g] a n [_ [_ _ Hlast] Hr _] Ha. destruct (Hr a n Ha) as (? & ? & ? & ?). cbn [fst snd] in *.
  unfold RAM_MAX in *. heap_consts. lia.
Qed.
Next Obligation. intros [σ g] a n m _ Ha Hb. cbn [snd] in *. congruence. Qed.
Next Obligation. intros [σ g] a n b m [_ _ _ Hap]. apply Hap. Qed.
Next Obligation.
  intros [σ g] Q Hok HQ. simpl. wp_step. apply wp_splhigh. apply (HQ (at_spl SPL_HIGH σ, g)); [|done].
  by apply handed_out_spl.
Qed.
Next Obligation.
  intros [σ g] l Q Hok Hl HQ. simpl. wp_step. apply wp_splx. apply (HQ (at_spl l σ, g)); [by apply handed_out_spl|done|done].
Qed.
Next Obligation. intros [σ g] [[Hf _] _ _ _]. done. Qed.
Next Obligation. intros p n Q Hok Hn HQ HN. by apply dumbvm_alloc_law. Qed.
Next Obligation.
  intros [σ g] a n Q [Hf Hm Hr Hap] Ha HQ. simpl. unfold free_kpages. wp_steps. apply (HQ (σ, delete a g)); [|done|].
  - split; [done|done| |]; cbn [fst snd].
    + intros b m [_ Hb]%lookup_delete_Some. by apply Hr.
    + intros b m c k [_ Hb]%lookup_delete_Some [_ Hc]%lookup_delete_Some. by apply Hap.
  - intros b m. cbn [snd]. rewrite lookup_delete_Some. split; intros [? ?]; by split.
Qed.

(** ** A heap over dumbvm.c *)

Definition first_heap : kheap (kstate * gmap Z Z) := heap_start (user_state, ∅).

Lemma first_heap_repr : heap_repr first_heap ∅.
Proof.
  apply heap_start_repr; [|by intros a n Ha]. split; cbn [fst snd].
  - apply user_in_user.
  - apply user_vm_wf.
  - by intros a n Ha.
  - by intros a n b m Ha.
Qed.

Lemma kmalloc_correct_witness :
  match kmalloc 100 first_heap with
  | (Ret a, h') => kp_level (below h') = 0 ∧ (a = 0 ∨ ∃ n, 100 ≤ n ∧ heap_repr h' {[a := n]})
  | _ => False
  end.
Proof.
  pose proof (kmalloc_correct first_heap ∅ 100 first_heap_repr ltac:(unfold PAGE_SIZE; lia)) as Hc.
  destruct (kmalloc 100 first_heap) as [[a| |] h']; [|done..]. destruct Hc as (Hlv & _ & Hc). split; [exact Hlv|].
  destruct Hc as [[-> _]|(n & Hn & _ & _ & _ & _ & Hr)]; [by left|]. right. by exists n.
Defined.

(** The block that [kmalloc] of 100 bytes returns. *)
Definition second_heap : kheap (kstate * gmap Z Z) := (kmalloc 100 first_heap).2.
Definition first_block : Z := 0x80040f80.

Lemma second_heap_repr : ∃ n, heap_repr second_heap {[first_block := n]}.
Proof.
  destruct first_heap_repr as (L & Hinv & HA).
  assert (wp (kmalloc 100) (λ r h', r = Ret first_block → ∃ n, heap_repr h' {[first_block := n]}) first_heap) as Hwp.
  { apply (kmalloc_spec first_heap L); [done|unfold PAGE_SIZE; lia| |by intros h' _ [=]]. intros h' L' a n Hal _ _ [= ->].
    exists n, L'. split; [apply Hal|]. intros b m. rewrite (al_live _ _ _ _ _ _ Hal), <- HA, lookup_empty.
    rewrite lookup_singleton_Some. split; [by intros [<- <-]; right|by intros [?|[-> ->]]]. }
  apply Hwp. vm_compute. reflexivity.
Qed.

Lemma kfree_correct_witness :
  match kfree first_block second_heap with
  | (Ret _, h') => kp_level (below h') = kp_level (below second_heap) ∧ heap_repr h' ∅
  | _ => False
  end.
Proof.
  destruct second_heap_repr as [n Hr].
  pose proof (kfree_correct second_heap {[first_block := n]} first_block n Hr (or_introl (lookup_singleton_eq _ _))) as Hc.
  destruct (kfree first_block second_heap) as [[u| |] h']; [|done..]. destruct Hc as (Hlv & Hr' & _). split; [done|].
  by rewrite delete_singleton_eq in Hr'.
Defined.

(** A size close to 2^32 wraps around when it is rounded up to pages: no page is
    taken, and the pointer that is returned is that of the next allocation. *)
Theorem kmalloc_wraps :
  (kmalloc 0xffffffff first_heap).1 = Ret 0x80040000 ∧
  (kmalloc 4096 (kmalloc 0xffffffff first_heap).2).1 = Ret 0x80040000.
Proof. split; vm_compute; reflexivity. Qed.
