(* ===== verification/Thread.v ===== *)
(** * Threads (kern/thread/thread.c, scheduler.c, pid.c, file.c, arch/mips/mips/pcb.c)

    The operations of the thread system, cut where they give up the processor:
    an operation that switches pushes the [frame] of what remains to be done
    and ends, and the code after the call of [mi_switch] is the definition named
    in the comment of that frame.  [mips_switch] exchanges the stacks.

    The process table of pid.c reads a [t_pid] out of a [struct pidinfo], which
    is shorter, and stores through a pointer that was never set; both are
    undefined, and the definitions say so. *)

From S2P Require Import Prelude Array Queue Vnode Machine Dumbvm.

Inductive threadstate_t := S_RUN | S_READY | S_SLEEP | S_ZOMB.

(** ** scheduler.c *)

Definition curspl_pos (σ : kstate) : bool := 0 <? curspl σ.

Definition make_runnable (t : tid) : M kstate unit :=
  _ ← assert_state curspl_pos;
  mem ← kmalloc;
  zoom_runqueue (q_addtail (bool_decide (is_Some mem)) t).

(** [while (q_empty(runqueue)) cpu_idle();]: with an empty queue the processor
    waits for an interrupt. *)
Definition scheduler : M kstate tid :=
  _ ← assert_state curspl_pos;
  q ← gets runqueue;
  if q_empty q then blocked else zoom_runqueue q_remhead.

Definition scheduler_preallocate (nthreads : Z) : M kstate unit :=
  _ ← assert_state curspl_pos;
  mem ← kmalloc;
  zoom_runqueue (q_preallocate (bool_decide (is_Some mem)) nthreads).

(** [while (!q_empty(runqueue)) q_remhead(runqueue);] *)
Fixpoint drop_all (fuel : nat) : M (queue tid) unit :=
  q ← get;
  if q_empty q then mret ()
  else match fuel with
       | O => nofuel
       | S fuel' => _ ← q_remhead; drop_all fuel'
       end.

Definition scheduler_killall : M kstate unit :=
  _ ← assert_state curspl_pos;
  q ← gets runqueue;
  zoom_runqueue (drop_all (Z.to_nat (size q))).

(** ** pid.c and file.c *)

Definition zoom_pids {A} (m : M (array pidinfo) A) : M kstate A :=
  zoom (λ σ, pidinfoTable (pids σ))
       (λ a σ, set_pids {| nextpid := nextpid (pids σ); pidinfoTable := a |} σ) m.

(** The loop reads the field [t_pid] of the first entry, which lies outside the
    [struct pidinfo] it points to. *)
Definition findpidindex (pid : Z) : M kstate (option Z) :=
  n ← zoom_pids (gets array_getnum);
  if 0 <? n then _ ← zoom_pids (array_getguy 0); undef else mret None.

(** The result code; -1 when the process is not found. *)
Definition pid_destroy (dpid : Z) : M kstate Z :=
  r ← findpidindex dpid;
  match r with
  | None => mret (-1)
  | Some i => _ ← zoom_pids (array_getguy i); _ ← zoom_pids (array_remove i); mret 0
  end.

Definition pid_sethasexited (spid : Z) : M kstate Z :=
  r ← findpidindex spid;
  match r with
  | None => mret (-1)
  | Some i => undef
  end.

(** The pointer [retval] is [None] when it was never set.  The value is what is
    stored through it, [None] for the result -1. *)
Definition pid_create (retval : option unit) (ppid status : Z) : M kstate (option Z) :=
  _ ← assert (0 <=? ppid);
  new_info ← kmalloc;
  match new_info with
  | None => mret None
  | Some _ =>
      exitcv ← kmalloc;
      mem ← kmalloc;
      pid ← gets (λ σ, nextpid (pids σ));
      _ ← zoom_pids (array_add (bool_decide (is_Some mem))
            {| pid := pid; parent_pid := ppid; hasexited := 0; exitstatus := status; exitcv := exitcv |});
      _ ← deref retval;
      _ ← modify (λ σ, set_pids {| nextpid := if pid + 1 =? 2147483647 then 1 else pid + 1;
                                   pidinfoTable := pidinfoTable (pids σ) |} σ);
      mret (Some pid)
  end.

Definition OPEN_MAX : Z := 100.

(** The open files are freed; the table itself is not. *)
Definition filetable_destroy (ft : option (list (option addr))) : M kstate unit :=
  l ← deref ft;
  forM (seqZ 0 OPEN_MAX) (λ i, _ ← deref (l !z i); mret ()).

(** ** pcb.c *)

Definition pcb_init (stacktop : Z) (k : list frame) : pcb :=
  {| pcb_switchstack := k; pcb_kstack := stacktop; pcb_ininterrupt := 0 |}.

Definition STACK_SIZE : Z := 4096.

(** The new stack holds one frame, which starts in [mips_threadstart]. *)
Definition md_initpcb (stack : Z) : pcb := pcb_init (u32 (stack + STACK_SIZE)) [KStart].

(** The stack pointer is saved in one pcb and loaded from the other. *)
Definition mips_switch (old nu : tid) : M kstate unit :=
  th ← get_thread old;
  σ ← get;
  _ ← put_thread old (with_pcb {| pcb_switchstack := stack σ; pcb_kstack := pcb_kstack (t_pcb th);
                                  pcb_ininterrupt := pcb_ininterrupt (t_pcb th) |} th);
  th' ← get_thread nu;
  modify (set_stack (pcb_switchstack (t_pcb th'))).

Definition md_switch (old nu : tid) : M kstate unit :=
  if decide (old = nu) then mret ()
  else
    th ← get_thread old;
    σ ← get;
    _ ← put_thread old (with_pcb {| pcb_switchstack := pcb_switchstack (t_pcb th);
                                    pcb_kstack := curkstack σ;
                                    pcb_ininterrupt := in_interrupt σ |} th);
    th' ← get_thread nu;
    _ ← modify (λ σ, set_in_interrupt (pcb_ininterrupt (t_pcb th'))
                       (set_curkstack (pcb_kstack (t_pcb th')) σ));
    mips_switch old nu.

(** ** thread.c *)

(** The magic number at the bottom end of a stack. *)
Definition stack_magic : list Z := [0xae; 0x11; 0xda; 0x33].
Definition magic_ok (s : list Z) : bool := bool_decide (take 4 s = stack_magic).
Definition check_stack (th : thread) : M kstate unit :=
  match t_stack th with
  | None => mret ()
  | Some s => assert (magic_ok s)
  end.

Definition thread_create (name : string) : M kstate (option tid) :=
  p ← kmalloc;
  match p with
  | None => mret None
  | Some t =>
      n ← kmalloc;
      match n with
      | None => mret None
      | Some _ =>
          _ ← modify (λ σ, set_threads (<[t :=
                {| t_pcb := pcb_init 0 []; t_name := name; t_sleepaddr := None; t_stack := None;
                   t_vmspace := None; t_cwd := None; t_pid := 0; t_filetable := None |}]> (threads σ)) σ);
          mret (Some t)
      end
  end.

Definition thread_free (t : tid) : M kstate unit :=
  modify (λ σ, set_threads (delete t (threads σ)) σ).

Definition thread_destroy (z : tid) : M kstate unit :=
  _ ← assert_state (λ σ, bool_decide (curthread σ ≠ Some z));
  th ← get_thread z;
  _ ← assert (bool_decide (t_vmspace th = None));
  _ ← assert (bool_decide (t_cwd th = None));
  c ← cur;
  cth ← get_thread c;
  result ← pid_destroy (t_pid cth);
  if negb (result =? 0) then panic
  else
    _ ← filetable_destroy (t_filetable cth);
    thread_free z.

Definition exorcise : M kstate unit :=
  _ ← assert_state curspl_pos;
  n ← gets (λ σ, array_getnum (zombies σ));
  _ ← forM (seqZ 0 n) (λ i,
        z ← zoom_zombies (array_getguy i);
        _ ← assert_state (λ σ, bool_decide (curthread σ ≠ Some z));
        thread_destroy z);
  r ← attempt (zoom_zombies (array_setsize true 0));
  assert (if r is inl _ then true else false).

Definition thread_killall : M kstate unit :=
  _ ← assert_state curspl_pos;
  r ← attempt (zoom_sleepers (array_setsize true 0));
  assert (if r is inl _ then true else false).

Definition thread_panic : M kstate unit :=
  _ ← assert_state curspl_pos;
  _ ← thread_killall;
  scheduler_killall.

(** [array_add(list, cur)]. *)
Definition add_to (z : M (array tid) unit → M kstate unit) (t : tid) : M kstate unit :=
  mem ← kmalloc;
  z (array_add (bool_decide (is_Some mem)) t).

(** Up to the call of [scheduler]. *)
Definition mi_switch (nextstate : threadstate_t) : M kstate unit :=
  _ ← assert_state curspl_pos;
  c ← gets curthread;
  match c with
  | None => mret ()
  | Some t =>
      th ← get_thread t;
      _ ← check_stack th;
      _ ← modify (set_curthread None);
      result ← attempt (match nextstate with
                        | S_READY => make_runnable t
                        | S_SLEEP => add_to zoom_sleepers t
                        | S_ZOMB => add_to zoom_zombies t
                        | S_RUN => panic
                        end);
      _ ← assert (if result is inl _ then true else false);
      push (KSched t)
  end.

(** The frame [KSched]: from the call of [scheduler] to that of [md_switch]. *)
Definition mi_switch_pick (old : tid) : M kstate unit :=
  next ← scheduler;
  _ ← modify (set_curthread (Some next));
  _ ← push KSwitched;
  md_switch old next.

Definition activate_cur : M kstate unit :=
  t ← cur;
  th ← get_thread t;
  match t_vmspace th with
  | Some _ => as_activate
  | None => mret ()
  end.

(** The frame [KSwitched]: after [md_switch]. *)
Definition mi_switch_done : M kstate unit := _ ← exorcise; activate_cur.

Section cwd.
(** The file system's reclaim operation, run when the last reference to a
    vnode is dropped; the model takes it as one step, with no context switch. *)
Context (vop_reclaim : addr → M (gmap addr vnode) unit).

Definition on_vnode (v : addr) (A : Type) (m : M vnode A) : M (gmap addr vnode) A := λ s,
  match s !! v with
  | None => (Halt Undef, s)
  | Some vn => let '(r, vn') := m vn in (r, <[v := vn']> s)
  end.

Definition VOP_DECREF (v : addr) : M kstate unit :=
  zoom vnodes set_vnodes (vnode_decref (on_vnode v) (vop_reclaim v)).
Definition VOP_INCREF (v : addr) : M kstate unit :=
  zoom vnodes set_vnodes (on_vnode v unit vnode_incref).

(** Ends in [mi_switch]; the frame [KDead] is the call of [panic] after it. *)
Definition thread_exit : M kstate unit :=
  t ← cur;
  th ← get_thread t;
  _ ← check_stack th;
  _ ← splhigh;
  _ ← match t_vmspace th with
      | Some a => _ ← put_thread t (with_vmspace None th); as_destroy a
      | None => mret ()
      end;
  th ← get_thread t;
  _ ← match t_cwd th with
      | Some v => _ ← VOP_DECREF v; put_thread t (with_cwd None th)
      | None => mret ()
      end;
  _ ← pid_sethasexited (t_pid th);
  _ ← assert_state (λ σ, 0 <? numthreads σ);
  _ ← modify (λ σ, set_numthreads (numthreads σ - 1) σ);
  _ ← push KDead;
  mi_switch S_ZOMB.

(** The part of [thread_fork] after the process id has been set.  [fork_fail]
    is the label [fail]. *)
Definition fork_fail {A} (newguy : tid) (s : Z) (e : errno) : M kstate A :=
  _ ← splx s;
  th ← get_thread newguy;
  _ ← match t_cwd th with Some v => VOP_DECREF v | None => mret () end;
  _ ← thread_free newguy;
  fail e.

(** The calls under [splhigh]. *)
Definition fork_enqueue (newguy : tid) : M kstate unit :=
  n ← gets numthreads;
  mem1 ← kmalloc;
  _ ← zoom_sleepers (array_preallocate (bool_decide (is_Some mem1)) (n + 1));
  mem2 ← kmalloc;
  _ ← zoom_zombies (array_preallocate (bool_decide (is_Some mem2)) (n + 1));
  _ ← scheduler_preallocate (n + 1);
  make_runnable newguy.

Definition thread_fork_start (newguy : tid) : M kstate tid :=
  stk ← kmalloc;
  match stk with
  | None => _ ← thread_free newguy; fail ENOMEM
  | Some stk =>
      th ← get_thread newguy;
      _ ← put_thread newguy (with_stack (Some stack_magic) th);
      c ← cur;
      cth ← get_thread c;
      _ ← match t_cwd cth with
          | Some v => _ ← VOP_INCREF v;
                      th ← get_thread newguy;
                      put_thread newguy (with_cwd (Some v) th)
          | None => mret ()
          end;
      th ← get_thread newguy;
      _ ← put_thread newguy (with_pcb (md_initpcb stk) th);
      s ← splhigh;
      result ← attempt (fork_enqueue newguy);
      match result with
      | inr e => fork_fail newguy s e
      | inl _ =>
          _ ← modify (λ σ, set_numthreads (numthreads σ + 1) σ);
          _ ← splx s;
          mret newguy
      end
  end.

(** The pointer handed to [pid_create] has no value; when it fails the code at
    [fail] reads the variable [s], which has none either. *)
Definition thread_fork (name : string) : M kstate tid :=
  p ← thread_create name;
  match p with
  | None => fail ENOMEM
  | Some newguy =>
      c ← cur;
      cth ← get_thread c;
      result ← attempt (pid_create None (t_pid cth) 0);
      match result with
      | inl (Some pid) =>
          th ← get_thread newguy;
          _ ← put_thread newguy (with_pid pid th);
          thread_fork_start newguy
      | inl None | inr _ => undef
      end
  end.
End cwd.

Definition thread_yield : M kstate unit :=
  spl ← splhigh;
  _ ← push (KYield spl);
  mi_switch S_READY.

Definition thread_sleep (a : addr) : M kstate unit :=
  _ ← assert_state (λ σ, in_interrupt σ =? 0);
  t ← cur;
  th ← get_thread t;
  _ ← put_thread t (with_sleepaddr (Some a) th);
  _ ← push KSleep;
  mi_switch S_SLEEP.

(** The frame [KSleep]. *)
Definition thread_sleep_done : M kstate unit :=
  t ← cur;
  th ← get_thread t;
  put_thread t (with_sleepaddr None th).

(** [array_remove(sleepers, i); result = make_runnable(t); assert(result==0);] *)
Definition wake (i : Z) (t : tid) : M kstate unit :=
  _ ← zoom_sleepers (array_remove i);
  result ← attempt (make_runnable t);
  assert (if result is inl _ then true else false).

(** The loop of [thread_wakeup] from index [i] on: after a removal it looks at
    the same index again. *)
Fixpoint wakeup_from (fuel : nat) (a : addr) (i : Z) : M kstate unit :=
  n ← gets (λ σ, array_getnum (sleepers σ));
  if i <? n then
    match fuel with
    | O => nofuel
    | S fuel' =>
        t ← zoom_sleepers (array_getguy i);
        th ← get_thread t;
        if decide (t_sleepaddr th = Some a)
        then _ ← wake i t; wakeup_from fuel' a i
        else wakeup_from fuel' a (i + 1)
    end
  else mret ().

Definition thread_wakeup (a : addr) : M kstate unit :=
  _ ← assert_state curspl_pos;
  n ← gets (λ σ, array_getnum (sleepers σ));
  wakeup_from (Z.to_nat n) a 0.

(** The first index from [i] on whose thread sleeps on [a]. *)
Fixpoint find_sleeper (fuel : nat) (a : addr) (i : Z) : M kstate (option (Z * tid)) :=
  n ← gets (λ σ, array_getnum (sleepers σ));
  if i <? n then
    match fuel with
    | O => nofuel
    | S fuel' =>
        t ← zoom_sleepers (array_getguy i);
        th ← get_thread t;
        if decide (t_sleepaddr th = Some a) then mret (Some (i, t))
        else find_sleeper fuel' a (i + 1)
    end
  else mret None.

Definition thread_wakeone (a : addr) : M kstate unit :=
  _ ← assert_state curspl_pos;
  n ← gets (λ σ, array_getnum (sleepers σ));
  r ← find_sleeper (Z.to_nat n) a 0;
  match r with
  | Some (i, t) => wake i t
  | None => mret ()
  end.

Definition thread_hassleepers (a : addr) : M kstate bool :=
  _ ← assert_state curspl_pos;
  n ← gets (λ σ, array_getnum (sleepers σ));
  r ← find_sleeper (Z.to_nat n) a 0;
  mret (bool_decide (is_Some r)).

(** The frame [KStart], up to the call of [func]. *)
Definition mi_threadstart : M kstate unit :=
  _ ← activate_cur;
  _ ← spl0;
  _ ← push KExit;
  push KUser.
