(* ===== verification/Sched.v ===== *)
(** * The lists of threads

    The run queue, the sleepers and the zombies as lists of threads, and what
    the operations of thread.c and scheduler.c do to them.  The lists are
    stored in a ring buffer and two arrays; an operation may store them anew,
    and [relisted] says that it changed nothing else. *)

From S2P Require Import Prelude Array Queue Vnode Machine Dumbvm Thread.

Record lists (σ : kstate) (rq sl zs : list tid) : Prop := {
  ls_rq : queue_repr (runqueue σ) rq;
  ls_sl : array_repr (sleepers σ) sl;
  ls_zs : array_repr (zombies σ) zs;
}.

(** Few enough threads for the indices of queue.c and array.c. *)
Definition few (rq sl zs : list tid) : Prop := zlen rq + zlen sl + zlen zs < 2 ^ 28.

Definition relist (q : queue tid) (s z : array tid) (al : list (option addr)) (σ : kstate) : kstate :=
  set_runqueue q (set_sleepers s (set_zombies z (set_allocs al σ))).

Record relisted (σ σ' : kstate) (rq sl zs : list tid) : Prop := {
  rl_eq : σ' = relist (runqueue σ') (sleepers σ') (zombies σ') (allocs σ') σ;
  rl_lists : lists σ' rq sl zs;
  rl_rq : size (runqueue σ) ≤ size (runqueue σ');
  rl_sl : max (sleepers σ) ≤ max (sleepers σ');
}.

Lemma relisted_refl σ rq sl zs : lists σ rq sl zs → relisted σ σ rq sl zs.
Proof. intros. split; [by destruct σ|done|lia|lia]. Qed.

Lemma relisted_trans σ σ' σ'' rq sl zs rq' sl' zs' :
  relisted σ σ' rq sl zs → relisted σ' σ'' rq' sl' zs' → relisted σ σ'' rq' sl' zs'.
Proof.
  intros [E _ ? ?] [E' ? ? ?]. split; [|done|lia|lia]. rewrite E', E. by destruct σ''.
Qed.

Lemma relisted_allocs σ al rq sl zs σ' :
  relisted (set_allocs al σ) σ' rq sl zs → relisted σ σ' rq sl zs.
Proof. intros [E ? ? ?]. by split. Qed.

(** The queue can hold every thread that is ready or asleep. *)
Definition queue_room (σ : kstate) (rq sl : list tid) : Prop :=
  zlen rq + zlen sl < size (runqueue σ).

Lemma wp_kmalloc σ (Q : result (option addr) → kstate → Prop) :
  (∀ r al, Q (Ret r) (set_allocs al σ)) → wp kmalloc Q σ.
Proof.
  intros HQ. unfold kmalloc. wp_steps. destruct (allocs σ) as [|r l] eqn:Hal; wp_steps; [|done].
  specialize (HQ None (allocs σ)). by replace (set_allocs (allocs σ) σ) with σ in HQ by (by destruct σ).
Qed.

Lemma wp_assert_state p σ (Q : result unit → kstate → Prop) :
  p σ = true → Q (Ret ()) σ → wp (assert_state p) Q σ.
Proof. intros. unfold assert_state. wp_steps. by apply wp_assert. Qed.

Lemma wp_curspl_pos σ (Q : result unit → kstate → Prop) :
  0 < curspl σ → Q (Ret ()) σ → wp (assert_state curspl_pos) Q σ.
Proof. intros. apply wp_assert_state; [|done]. unfold curspl_pos. lia. Qed.

Lemma wp_get_thread σ t th (Q : result thread → kstate → Prop) :
  threads σ !! t = Some th → Q (Ret th) σ → wp (get_thread t) Q σ.
Proof. intros. unfold get_thread. wp_steps. by eapply wp_deref. Qed.

Lemma wp_put_thread σ t th th' (Q : result unit → kstate → Prop) :
  threads σ !! t = Some th' → Q (Ret ()) (set_threads (<[t := th]> (threads σ)) σ) →
  wp (put_thread t th) Q σ.
Proof. intros. unfold put_thread. wp_step. eapply wp_get_thread; [done|]. by wp_step. Qed.

Lemma wp_cur σ t (Q : result tid → kstate → Prop) :
  curthread σ = Some t → Q (Ret t) σ → wp cur Q σ.
Proof. intros. unfold cur. wp_steps. by eapply wp_deref. Qed.

Section lists.
Context (σ : kstate) (rq sl zs : list tid) (Hls : lists σ rq sl zs) (Hfew : few rq sl zs).

Lemma make_runnable_spec t Q :
  0 < curspl σ →
  (∀ σ', relisted σ σ' (rq ++ [t]) sl zs → Q (Ret ()) σ') →
  (∀ σ', zlen rq + 1 = size (runqueue σ) → Q (Fail ENOMEM) σ') →
  wp (make_runnable t) Q σ.
Proof.
  intros Hspl HQ HF. destruct Hls as [Hq Hs Hz]. unfold make_runnable, few in *.
  pose proof (zlen_nonneg sl). pose proof (zlen_nonneg zs).
  wp_step. apply wp_curspl_pos; [done|]. wp_step. apply wp_kmalloc. intros mem al.
  unfold zoom_runqueue. wp_step. eapply q_addtail_spec; [done|lia| |].
  - intros q' Hq' Hle. apply HQ. split; [by destruct σ|by split|done|cbn; lia].
  - intros _ Hfull. by apply HF.
Qed.

Lemma add_sleepers_spec t Q :
  (∀ σ', relisted σ σ' rq (sl ++ [t]) zs → Q (Ret ()) σ') →
  (∀ σ', zlen sl = max (sleepers σ) → Q (Fail ENOMEM) σ') →
  wp (add_to zoom_sleepers t) Q σ.
Proof.
  intros HQ HF. destruct Hls as [Hq Hs Hz]. unfold add_to, zoom_sleepers, few in *.
  pose proof (zlen_nonneg rq). pose proof (zlen_nonneg zs).
  wp_step. apply wp_kmalloc. intros mem al. wp_step. eapply array_add_spec; [done|lia| |].
  - intros a' Ha' Hle. apply HQ. split; [by destruct σ|by split|cbn; lia|done].
  - intros _ Hfull. apply HF. by rewrite <- (repr_num _ _ Hs).
Qed.

Lemma add_zombies_spec t Q :
  (∀ σ', relisted σ σ' rq sl (zs ++ [t]) → Q (Ret ()) σ') →
  (∀ σ', zlen zs = max (zombies σ) → Q (Fail ENOMEM) σ') →
  wp (add_to zoom_zombies t) Q σ.
Proof.
  intros HQ HF. destruct Hls as [Hq Hs Hz]. unfold add_to, zoom_zombies, few in *.
  pose proof (zlen_nonneg rq). pose proof (zlen_nonneg sl).
  wp_step. apply wp_kmalloc. intros mem al. wp_step. eapply array_add_spec; [done|lia| |].
  - intros a' Ha' Hle. apply HQ. split; [by destruct σ|by split|cbn; lia|cbn; lia].
  - intros _ Hfull. apply HF. by rewrite <- (repr_num _ _ Hz).
Qed.

(** The head of the queue is taken; an empty queue is the idle loop. *)
Lemma scheduler_spec Q :
  0 < curspl σ →
  (∀ t rq' σ', rq = t :: rq' → relisted σ σ' rq' sl zs → Q (Ret t) σ') →
  (rq = [] → Q (Halt Blocked) σ) →
  wp scheduler Q σ.
Proof.
  clear Hfew. intros Hspl HQ HB. destruct Hls as [Hq Hs Hz]. unfold scheduler.
  wp_step. apply wp_curspl_pos; [done|]. wp_steps. rewrite (q_empty_iff _ _ Hq).
  destruct rq as [|t rq']; cbn; [by apply HB|]. unfold zoom_runqueue. wp_step.
  eapply q_remhead_spec; [done|]. intros q' Hq' Hsz. eapply HQ; [done|].
  split; [by destruct σ|by split|cbn; lia|cbn; lia].
Qed.
End lists.

(** ** Waking sleepers *)

Definition sleeps_on (ths : gmap tid thread) (a : addr) (t : tid) : Prop :=
  ∃ th, ths !! t = Some th ∧ t_sleepaddr th = Some a.

#[export] Instance sleeps_on_dec ths a t : Decision (sleeps_on ths a t).
Proof.
  destruct (ths !! t) as [th|] eqn:Hth.
  - destruct (decide (t_sleepaddr th = Some a)) as [H|H].
    + left. by exists th.
    + right. intros (th' & ? & ?). congruence.
  - right. intros (th' & ? & ?). congruence.
Defined.

Definition all_known (σ : kstate) (l : list tid) : Prop := ∀ t, t ∈ l → is_Some (threads σ !! t).

Section wakeup.
Context (zs : list tid) (a : addr).

Lemma wake_spec σ rq l1 t l2 Q :
  lists σ rq (l1 ++ t :: l2) zs → few rq (l1 ++ t :: l2) zs → 0 < curspl σ →
  (∀ σ', relisted σ σ' (rq ++ [t]) (l1 ++ l2) zs → Q (Ret ()) σ') →
  (∀ σ', zlen rq + 1 = size (runqueue σ) → Q (Halt Panic) σ') →
  wp (wake (zlen l1) t) Q σ.
Proof.
  intros Hls Hfew Hspl HQ HP. unfold wake, zoom_sleepers. wp_step. wp_step.
  destruct (Hls) as [Hq Hs Hz]. pose proof (repr_num _ _ Hs) as Hnum.
  rewrite zlen_app in Hnum. pose proof (zlen_nonneg l1).
  assert (zlen (t :: l2) = 1 + zlen l2) as Hcons by (unfold zlen; simpl; lia).
  pose proof (zlen_nonneg l2).
  eapply array_remove_spec; [done|lia|]. intros a' Ha' Hmax.
  assert (delete (Z.to_nat (zlen l1)) (l1 ++ t :: l2) = l1 ++ l2) as Hdel
    by (unfold zlen; rewrite Nat2Z.id; apply delete_middle).
  rewrite Hdel in Ha'.
  wp_step. wp_step. eapply (make_runnable_spec _ rq (l1 ++ l2) zs); [by split| |done| |].
  - unfold few in *. rewrite !zlen_app in *. lia.
  - intros σ' Hrl. apply wp_assert; [done|]. apply HQ. destruct Hrl as [E ? ? ?]. split; [by rewrite E|done|done|cbn in *; lia].
  - intros σ' Hfull. by apply HP.
Qed.

Lemma zlookup_middle {A} (l1 l2 : list A) x : (l1 ++ x :: l2) !! Z.to_nat (zlen l1) = Some x.
Proof. unfold zlen. rewrite Nat2Z.id. by apply list_lookup_middle. Qed.

Lemma zlen_cons {A} (x : A) l : zlen (x :: l) = 1 + zlen l.
Proof. unfold zlen. simpl. lia. Qed.

(** Looking at [sleepers[i]]. *)
Lemma sleeper_at_spec σ rq l1 t l2 Q :
  lists σ rq (l1 ++ t :: l2) zs → Q (Ret t) σ → wp (zoom_sleepers (array_getguy (zlen l1))) Q σ.
Proof.
  intros [_ Hs _] HQ. unfold zoom_sleepers. wp_step. pose proof (zlen_nonneg l1). pose proof (zlen_nonneg l2).
  eapply array_getguy_spec; [done| |].
  - rewrite (repr_num _ _ Hs), zlen_app, zlen_cons. lia.
  - intros x. rewrite zlookup_middle. intros [= <-]. by replace (set_sleepers _ _) with σ by (by destruct σ).
Qed.

Lemma wakeup_from_spec fuel l2 σ rq l1 Q :
  lists σ rq (l1 ++ l2) zs → few rq (l1 ++ l2) zs → 0 < curspl σ → all_known σ (l1 ++ l2) →
  (length l2 ≤ fuel)%nat →
  (∀ σ', relisted σ σ' (rq ++ filter (sleeps_on (threads σ) a) l2) (l1 ++ filter (λ t, ¬ sleeps_on (threads σ) a t) l2) zs →
     Q (Ret ()) σ') →
  (∀ σ', ¬ queue_room σ rq (l1 ++ l2) → Q (Halt Panic) σ') →
  wp (wakeup_from fuel a (zlen l1)) Q σ.
Proof.
  revert l2 σ rq l1. induction fuel as [|fuel IH]; intros l2 σ rq l1 Hls Hfew Hspl Hkn Hfuel HQ HP.
  all: cbn [wakeup_from]; wp_steps; unfold array_getnum;
    rewrite (repr_num _ _ (ls_sl _ _ _ _ Hls)), zlen_app.
  all: destruct l2 as [|t l2];
    [rewrite (proj2 (Z.ltb_ge _ _)) by (unfold zlen; simpl; lia); wp_step;
     apply HQ; rewrite !filter_nil, app_nil_r; by apply relisted_refl|].
  { simpl in Hfuel. lia. }
  pose proof (zlen_nonneg l2). rewrite zlen_cons, (proj2 (Z.ltb_lt _ _)) by lia.
  wp_step. eapply sleeper_at_spec; [done|]. wp_step.
  destruct (Hkn t) as [th Hth]; [set_solver|]. eapply wp_get_thread; [done|].
  rewrite !filter_cons in HQ. destruct (decide (t_sleepaddr th = Some a)) as [Hon|Hoff].
  - rewrite decide_True in HQ by (by exists th).
    rewrite (decide_False (P := ¬ sleeps_on (threads σ) a t)) in HQ by (intros []; by exists th).
    wp_step. eapply wake_spec; [done..| |].
    + intros σ' Hrl.
      assert (curspl σ' = curspl σ ∧ threads σ' = threads σ) as [Hc Ht]
        by (destruct Hrl as [E _ _ _]; by rewrite E).
      apply IH with (l2 := l2) (rq := rq ++ [t]).
      * apply Hrl.
      * unfold few in *. rewrite !zlen_app, zlen_cons in *. unfold zlen at 2. simpl. lia.
      * by rewrite Hc.
      * intros x Hx. rewrite Ht. apply Hkn. set_solver.
      * simpl in Hfuel. lia.
      * intros σ'' Hrl'. apply HQ. rewrite Ht, <- app_assoc in Hrl'. by eapply relisted_trans.
      * intros σ'' Hnr. apply HP. intros Hr. apply Hnr. unfold queue_room in *.
        destruct Hrl as [_ _ Hsz _]. rewrite !zlen_app, zlen_cons in *. unfold zlen at 2. simpl. lia.
    + intros σ' Hfull. apply HP. unfold queue_room. rewrite zlen_app, zlen_cons.
      pose proof (zlen_nonneg l1). lia.
  - assert (¬ sleeps_on (threads σ) a t) as Hno by (intros (th' & ? & ?); congruence).
    rewrite (decide_False (P := sleeps_on (threads σ) a t)) in HQ by done. rewrite decide_True in HQ by done.
    replace (zlen l1 + 1) with (zlen (l1 ++ [t])) by (rewrite zlen_app; done).
    apply IH with (l2 := l2) (rq := rq); rewrite <- ?(assoc_L (++)); simpl; try done.
    simpl in Hfuel. lia.
Qed.
End wakeup.

(** A change of the state that does not touch the lists. *)
Record keeps_lists (f : kstate → kstate) : Prop := {
  kl_relist : ∀ q s z al σ, f (relist q s z al σ) = relist q s z al (f σ);
  kl_runqueue : ∀ σ, runqueue (f σ) = runqueue σ;
  kl_sleepers : ∀ σ, sleepers (f σ) = sleepers σ;
  kl_zombies : ∀ σ, zombies (f σ) = zombies σ;
  kl_allocs : ∀ σ, allocs (f σ) = allocs σ;
}.

Lemma relisted_lift f σ σ' rq sl zs :
  keeps_lists f → relisted σ σ' rq sl zs → relisted (f σ) (f σ') rq sl zs.
Proof.
  intros [Hf Hq Hs Hz Ha] [E [] ? ?]. split; rewrite ?Hq, ?Hs, ?Hz, ?Ha; [|split|done..].
  - rewrite <- Hf. by rewrite <- E.
  - by rewrite Hq.
  - by rewrite Hs.
  - by rewrite Hz.
Qed.

Lemma lists_lift f σ rq sl zs : keeps_lists f → lists σ rq sl zs → lists (f σ) rq sl zs.
Proof. intros [? Hq Hs Hz ?] []. split; [by rewrite Hq|by rewrite Hs|by rewrite Hz]. Qed.

Lemma kl_at_spl n : keeps_lists (at_spl n).
Proof. by split. Qed.
Lemma kl_stack k : keeps_lists (set_stack k).
Proof. by split. Qed.
Lemma kl_curthread c : keeps_lists (set_curthread c).
Proof. by split. Qed.
Lemma kl_threads ths : keeps_lists (set_threads ths).
Proof. by split. Qed.
Lemma kl_sems m : keeps_lists (set_sems m).
Proof. by split. Qed.
Lemma kl_locks m : keeps_lists (set_locks m).
Proof. by split. Qed.
Lemma kl_vm v : keeps_lists (set_vm v).
Proof. by split. Qed.
Lemma kl_numthreads n : keeps_lists (set_numthreads n).
Proof. by split. Qed.
#[export] Hint Resolve kl_at_spl kl_stack kl_curthread kl_threads kl_sems kl_locks kl_vm
  kl_numthreads : os.

Section operations.
Context (rq sl zs : list tid).
Implicit Types σ : kstate.

Lemma thread_wakeup_spec a σ Q :
  lists σ rq sl zs → few rq sl zs → 0 < curspl σ → all_known σ sl →
  (∀ σ', relisted σ σ' (rq ++ filter (sleeps_on (threads σ) a) sl)
           (filter (λ t, ¬ sleeps_on (threads σ) a t) sl) zs → Q (Ret ()) σ') →
  (∀ σ', ¬ queue_room σ rq sl → Q (Halt Panic) σ') →
  wp (thread_wakeup a) Q σ.
Proof.
  intros Hls Hfew Hspl Hkn HQ HP. unfold thread_wakeup. wp_step. apply wp_curspl_pos; [done|]. wp_steps.
  apply (wakeup_from_spec zs a _ sl σ rq []); [done..| |done|done].
  unfold array_getnum. rewrite (repr_num _ _ (ls_sl _ _ _ _ Hls)). unfold zlen. lia.
Qed.

Lemma find_sleeper_spec a fuel l1 l2 σ Q :
  lists σ rq (l1 ++ l2) zs → all_known σ (l1 ++ l2) → (length l2 ≤ fuel)%nat →
  Forall (λ t, ¬ sleeps_on (threads σ) a t) l1 →
  (∀ k1 t k2, l1 ++ l2 = k1 ++ t :: k2 → Forall (λ t, ¬ sleeps_on (threads σ) a t) k1 →
     sleeps_on (threads σ) a t → Q (Ret (Some (zlen k1, t))) σ) →
  (Forall (λ t, ¬ sleeps_on (threads σ) a t) (l1 ++ l2) → Q (Ret None) σ) →
  wp (find_sleeper fuel a (zlen l1)) Q σ.
Proof.
  intros Hls Hkn Hfuel Hno HQ HN.
  revert l1 l2 Hls Hkn Hfuel Hno HQ HN. induction fuel as [|fuel IH]; intros l1 l2 Hls Hkn Hfuel Hno HQ HN.
  all: cbn [find_sleeper]; wp_steps; unfold array_getnum;
    rewrite (repr_num _ _ (ls_sl _ _ _ _ Hls)), zlen_app.
  all: destruct l2 as [|t l2];
    [rewrite (proj2 (Z.ltb_ge _ _)) by (unfold zlen; simpl; lia); wp_step;
     apply HN; by rewrite app_nil_r|].
  { simpl in Hfuel. lia. }
  pose proof (zlen_nonneg l2). rewrite zlen_cons, (proj2 (Z.ltb_lt _ _)) by lia.
  wp_step. eapply sleeper_at_spec; [done|]. wp_step.
  destruct (Hkn t) as [th Hth]; [set_solver|]. eapply wp_get_thread; [done|].
  destruct (decide (t_sleepaddr th = Some a)) as [Hon|Hoff].
  - wp_step. apply (HQ l1 t l2); [done|done|by exists th].
  - replace (zlen l1 + 1) with (zlen (l1 ++ [t])) by (rewrite zlen_app; done).
    apply (IH _ l2); rewrite <- ?(assoc_L (++)); simpl; [done|done|simpl in Hfuel; lia| |done|done].
    apply Forall_app. split; [done|]. constructor; [|done]. intros (th' & ? & ?). congruence.
Qed.

(** The thread that has slept longest is woken. *)
Lemma thread_wakeone_spec a σ Q :
  lists σ rq sl zs → few rq sl zs → 0 < curspl σ → all_known σ sl →
  (∀ l1 t l2 σ', sl = l1 ++ t :: l2 → Forall (λ t, ¬ sleeps_on (threads σ) a t) l1 →
     sleeps_on (threads σ) a t → relisted σ σ' (rq ++ [t]) (l1 ++ l2) zs → Q (Ret ()) σ') →
  (Forall (λ t, ¬ sleeps_on (threads σ) a t) sl → Q (Ret ()) σ) →
  (∀ σ', ¬ queue_room σ rq sl → Q (Halt Panic) σ') →
  wp (thread_wakeone a) Q σ.
Proof.
  intros Hls Hfew Hspl Hkn HQ HN HP. unfold thread_wakeone. wp_step. apply wp_curspl_pos; [done|].
  do 3 wp_step. unfold array_getnum. rewrite (repr_num _ _ (ls_sl _ _ _ _ Hls)).
  apply (find_sleeper_spec a _ [] sl); [done|done|unfold zlen; lia|done| |].
  - intros l1 t l2 Heq Hl1 Ht. simpl in Heq. rewrite Heq in Hls, Hfew.
    apply (wake_spec zs σ rq l1 t l2); [done..| |].
    + intros σ' Hrl. by apply (HQ l1 t l2).
    + intros σ' Hfull. apply HP. unfold queue_room. rewrite Heq, zlen_app, zlen_cons.
      pose proof (zlen_nonneg l1). pose proof (zlen_nonneg l2). lia.
  - intros Hall. wp_step. by apply HN.
Qed.

Lemma thread_hassleepers_spec a σ Q :
  lists σ rq sl zs → 0 < curspl σ → all_known σ sl →
  (∀ b, b = bool_decide (Exists (sleeps_on (threads σ) a) sl) → Q (Ret b) σ) →
  wp (thread_hassleepers a) Q σ.
Proof.
  intros Hls Hspl Hkn HQ. unfold thread_hassleepers. wp_step. apply wp_curspl_pos; [done|].
  do 3 wp_step. unfold array_getnum. rewrite (repr_num _ _ (ls_sl _ _ _ _ Hls)).
  apply (find_sleeper_spec a _ [] sl); [done|done|unfold zlen; lia|done| |].
  - intros l1 t l2 Heq Hl1 Ht. wp_step. apply HQ. rewrite (bool_decide_true (is_Some _)) by eauto.
    symmetry. apply bool_decide_true. simpl in Heq. rewrite Heq. apply Exists_app. by right; left.
  - intros Hall. wp_step. apply HQ. symmetry. rewrite (bool_decide_false (is_Some _)) by (by intros []).
    apply bool_decide_false. by apply Forall_not_Exists.
Qed.

(** ** Giving up the processor *)

Definition stashed (st : threadstate_t) (t : tid) : list tid * list tid * list tid :=
  match st with
  | S_READY => (rq ++ [t], sl, zs)
  | S_SLEEP => (rq, sl ++ [t], zs)
  | _ => (rq, sl, zs ++ [t])
  end.

Definition stash_room (σ : kstate) (st : threadstate_t) : Prop :=
  match st with
  | S_READY => zlen rq + 1 < size (runqueue σ)
  | S_SLEEP => zlen sl < max (sleepers σ)
  | _ => zlen zs < max (zombies σ)
  end.

Definition magic (th : thread) : Prop :=
  match t_stack th with Some s => magic_ok s = true | None => True end.

Lemma mi_switch_spec st t th σ Q :
  lists σ rq sl zs → few rq sl zs → 0 < curspl σ → curthread σ = Some t →
  threads σ !! t = Some th → magic th → st ≠ S_RUN →
  (∀ σ', let '(rq', sl', zs') := stashed st t in
     relisted (set_stack (KSched t :: stack σ) (set_curthread None σ)) σ' rq' sl' zs' → Q (Ret ()) σ') →
  (∀ σ', ¬ stash_room σ st → Q (Halt Panic) σ') →
  wp (mi_switch st) Q σ.
Proof.
  intros Hls Hfew Hspl Hcur Hth Hmag Hst HQ HP. unfold mi_switch.
  wp_step. apply wp_curspl_pos; [done|]. do 2 wp_step. rewrite Hcur.
  wp_step. eapply wp_get_thread; [done|]. wp_step. unfold check_stack, magic in *.
  assert (∀ (Q : result unit → kstate → Prop), Q (Ret ()) σ →
    wp (match t_stack th with Some s => assert (magic_ok s) | None => mret () end) Q σ) as Hck.
  { intros Q' HQ'. destruct (t_stack th); [by apply wp_assert|by wp_step]. }
  apply Hck. do 4 wp_step. assert (lists (set_curthread None σ) rq sl zs) as Hls'
    by (apply lists_lift; [apply kl_curthread|done]).
  assert (∀ rq' sl' zs' σ', relisted (set_curthread None σ) σ' rq' sl' zs' →
    relisted (set_stack (KSched t :: stack σ) (set_curthread None σ))
      (set_stack (KSched t :: stack σ') σ') rq' sl' zs') as Hpush.
  { intros rq' sl' zs' σ' Hrl. destruct (Hrl) as [E _ _ _].
    assert (stack σ' = stack σ) as -> by (by rewrite E).
    apply (relisted_lift (set_stack _)); [apply kl_stack|done]. }
  unfold push. destruct st; [done| | |]; cbn in HQ, HP.
  - eapply make_runnable_spec; [done..| |].
    + intros σ' Hrl. wp_step. apply wp_assert; [done|]. wp_step. by apply HQ, Hpush.
    + intros σ' Hfull. wp_step. apply HP. cbn in Hfull. lia.
  - eapply add_sleepers_spec; [done..| |].
    + intros σ' Hrl. wp_step. apply wp_assert; [done|]. wp_step. by apply HQ, Hpush.
    + intros σ' Hfull. wp_step. apply HP. cbn in Hfull. lia.
  - eapply add_zombies_spec; [done..| |].
    + intros σ' Hrl. wp_step. apply wp_assert; [done|]. wp_step. by apply HQ, Hpush.
    + intros σ' Hfull. wp_step. apply HP. cbn in Hfull. lia.
Qed.
End operations.

(** ** Taking the processor *)

Definition switched_in (old nu : tid) (tho thn : thread) (σ : kstate) : kstate :=
  if decide (old = nu) then set_stack (KSwitched :: stack σ) (set_curthread (Some nu) σ)
  else
    set_stack (pcb_switchstack (t_pcb thn))
      (set_in_interrupt (pcb_ininterrupt (t_pcb thn))
        (set_curkstack (pcb_kstack (t_pcb thn))
          (set_threads (<[old := with_pcb {| pcb_switchstack := KSwitched :: stack σ;
                                             pcb_kstack := curkstack σ;
                                             pcb_ininterrupt := in_interrupt σ |} tho]> (threads σ))
            (set_curthread (Some nu) σ)))).

Lemma kl_switched_in old nu tho thn : keeps_lists (switched_in old nu tho thn).
Proof. unfold switched_in. split; intros; destruct (decide _); done. Qed.

Lemma mi_switch_pick_spec old tho σ rq sl zs Q :
  lists σ rq sl zs → 0 < curspl σ → threads σ !! old = Some tho → all_known σ rq →
  (∀ nu rq' thn σ', rq = nu :: rq' → threads σ !! nu = Some thn →
     relisted (switched_in old nu tho thn σ) σ' rq' sl zs → Q (Ret ()) σ') →
  (rq = [] → Q (Halt Blocked) σ) →
  wp (mi_switch_pick old) Q σ.
Proof.
  intros Hls Hspl Hold Hkn HQ HB. unfold mi_switch_pick. wp_step.
  eapply scheduler_spec; [done|done| |done]. intros nu rq' σ1 -> Hrl.
  destruct (Hkn nu) as [thn Hnu]; [set_solver|].
  apply (relisted_lift (switched_in old nu tho thn)) in Hrl as Hrl'; [|apply kl_switched_in].
  specialize (HQ nu rq' thn _ eq_refl Hnu Hrl').
  assert (threads σ1 = threads σ) as Ht by (destruct Hrl as [E _ _ _]; by rewrite E).
  rewrite <- Ht in Hold, Hnu. clear Hrl Hrl' Ht. unfold switched_in in HQ.
  wp_step. wp_step. unfold push. wp_step. wp_step. unfold md_switch.
  destruct (decide (old = nu)) as [->|Hne]; [wp_step; done|].
  wp_step. eapply wp_get_thread; [done|]. do 2 wp_step. wp_step.
  eapply wp_put_thread; [done|]. wp_step.
  eapply wp_get_thread; [cbn; by rewrite lookup_insert_ne|]. do 2 wp_step. unfold mips_switch.
  wp_step. eapply wp_get_thread; [apply lookup_insert_eq|]. do 2 wp_step. wp_step.
  eapply wp_put_thread; [apply lookup_insert_eq|]. wp_step.
  eapply wp_get_thread; [cbn; by rewrite !lookup_insert_ne|]. wp_step. cbn.
  by rewrite insert_insert_eq.
Qed.

(** ** After the switch *)

Lemma wp_assert_any {St} b (σ : St) (Q : result unit → St → Prop) :
  (b = true → Q (Ret ()) σ) → Q (Halt Panic) σ → wp (assert b) Q σ.
Proof. destruct b; intros H H'; [by apply H|done]. Qed.
Lemma wp_deref_any {St A} (o : option A) (σ : St) (Q : result A → St → Prop) :
  (∀ a, o = Some a → Q (Ret a) σ) → Q (Halt Undef) σ → wp (deref o) Q σ.
Proof. destruct o; intros H H'; [by apply H|done]. Qed.

Lemma wp_any {St A} (m : M St A) (σ : St) (Q : result A → St → Prop) :
  (∀ a σ', Q (Ret a) σ') → (∀ e σ', Q (Fail e) σ') → (∀ h σ', Q (Halt h) σ') → wp m Q σ.
Proof. intros H1 H2 H3. unfold wp. destruct (m σ) as [[] ?]; [apply H1|apply H2|apply H3]. Qed.

Definition halts {A} (r : result A) (σ : kstate) : Prop := ∃ k, r = Halt k.

(** No thread is ever destroyed: the process table gives up first. *)
Lemma thread_destroy_halts z σ : wp (thread_destroy z) halts σ.
Proof.
  assert (∀ A k (σ : kstate), @halts A (Halt k) σ) as Hh by (by intros; eexists).
  unfold thread_destroy, assert_state, get_thread, cur. do 2 wp_step. wp_step.
  apply wp_assert_any; [intros _|done]. do 2 wp_step. wp_step.
  apply wp_deref_any; [intros th _|done]. wp_step. apply wp_assert_any; [intros _|done].
  wp_step. apply wp_assert_any; [intros _|done]. do 2 wp_step. wp_step.
  apply wp_deref_any; [intros c _|done]. do 2 wp_step. wp_step.
  apply wp_deref_any; [intros cth _|done]. wp_step. unfold pid_destroy, findpidindex.
  wp_step. wp_step. unfold zoom_pids. do 2 wp_step. destruct (0 <? _).
  - wp_step. wp_step. unfold array_getguy. do 2 wp_step. wp_step. apply wp_assert_any; [intros _|apply Hh].
    wp_step. apply wp_assert_any; [intros _|apply Hh]. wp_step. apply wp_deref_any; [intros w _|apply Hh].
    wp_step. apply wp_deref_any; [intros slot _|apply Hh]. apply wp_deref_any; [intros p _|]; apply Hh.
  - wp_step. wp_step. apply Hh.
Qed.

Lemma exorcise_spec σ rq sl zs Q :
  lists σ rq sl zs → 0 < curspl σ →
  (∀ σ', zs = [] → relisted σ σ' rq sl zs → Q (Ret ()) σ') →
  (∀ k σ', zs ≠ [] → Q (Halt k) σ') →
  wp exorcise Q σ.
Proof.
  intros Hls Hspl HQ HH. destruct (Hls) as [Hq Hs Hz]. unfold exorcise, array_getnum.
  wp_step. apply wp_curspl_pos; [done|]. do 2 wp_step. rewrite (repr_num _ _ Hz).
  destruct zs as [|z zs'].
  - change (seqZ 0 (zlen [])) with (@nil Z). cbn [forM]. wp_step. wp_step. wp_step. wp_step.
    unfold zoom_zombies. wp_step. eapply array_setsize_shrink_spec; [done|by rewrite (repr_num _ _ Hz)|].
    intros a' Ha' _. apply wp_assert; [done|]. apply HQ; [done|].
    split; [by destruct σ|by split|cbn; lia|cbn; lia].
  - rewrite zlen_cons, seqZ_cons by (pose proof (zlen_nonneg zs'); lia).
    wp_step. cbn [forM]. wp_step. unfold zoom_zombies. do 2 wp_step.
    eapply array_getguy_spec; [done|rewrite (repr_num _ _ Hz), zlen_cons; pose proof (zlen_nonneg zs'); lia|].
    intros x _. wp_step. unfold assert_state. do 2 wp_step. apply wp_assert_any; [intros _|by apply HH].
    eapply wp_mono; [apply thread_destroy_halts|]. intros r σ' [k ->]. by apply HH.
Qed.

Definition tlb_changed (σ σ' : kstate) : Prop :=
  ∃ l, σ' = set_vm (set_tlb l (vm σ)) σ ∧ zlen l = NUM_TLB.

Lemma activate_cur_spec t th σ Q :
  flag_ok σ → zlen (tlb (vm σ)) = NUM_TLB → curthread σ = Some t → threads σ !! t = Some th →
  (∀ σ', tlb_changed σ σ' → Q (Ret ()) σ') → wp activate_cur Q σ.
Proof.
  intros Hf Htlb Hcur Hth HQ. unfold activate_cur. wp_step. eapply wp_cur; [done|]. wp_step.
  eapply wp_get_thread; [done|]. destruct (t_vmspace th).
  - apply as_activate_spec; [done..|]. intros l Hl _. apply HQ. by exists l.
  - wp_step. apply HQ. exists (tlb (vm σ)). split; [|done].
    by destruct σ as [? ? ? ? ? ? ? ? ? ? ? ? ? ? ? [] ? ?].
Qed.

(** ** Sleeping and yielding *)

Definition slept (t : tid) (a : addr) (th : thread) (σ : kstate) : kstate :=
  set_stack (KSched t :: KSleep :: stack σ)
    (set_curthread None (set_threads (<[t := with_sleepaddr (Some a) th]> (threads σ)) σ)).

Lemma thread_sleep_spec a t th σ rq sl zs Q :
  lists σ rq sl zs → few rq sl zs → 0 < curspl σ → in_interrupt σ = 0 → curthread σ = Some t →
  threads σ !! t = Some th → magic th →
  (∀ σ', relisted (slept t a th σ) σ' rq (sl ++ [t]) zs → Q (Ret ()) σ') →
  (∀ σ', max (sleepers σ) ≤ zlen sl → Q (Halt Panic) σ') →
  wp (thread_sleep a) Q σ.
Proof.
  intros Hls Hfew Hspl Hint Hcur Hth Hmag HQ HP. unfold thread_sleep.
  wp_step. apply wp_assert_state; [by apply Z.eqb_eq|]. wp_step. eapply wp_cur; [done|]. wp_step.
  eapply wp_get_thread; [done|]. wp_step. eapply wp_put_thread; [done|]. unfold push. do 2 wp_step.
  eapply (mi_switch_spec rq sl zs S_SLEEP);
    [apply (lists_lift (set_stack _)), (lists_lift (set_threads _)); [auto with os..|done]|done|done|done
    |apply lookup_insert_eq|done|done| |].
  - intros σ' Hrl. by apply HQ.
  - intros σ' Hno. apply HP. cbn in Hno. lia.
Qed.

Definition yielded (t : tid) (spl : Z) (σ : kstate) : kstate :=
  set_stack (KSched t :: KYield spl :: stack σ) (set_curthread None (at_spl SPL_HIGH σ)).

(** In the idle loop there is no thread to put aside. *)
Lemma thread_yield_spec σ rq sl zs Q :
  lists σ rq sl zs → few rq sl zs →
  (∀ t, curthread σ = Some t → ∃ th, threads σ !! t = Some th ∧ magic th) →
  (∀ t σ', curthread σ = Some t → relisted (yielded t (curspl σ) σ) σ' (rq ++ [t]) sl zs → Q (Ret ()) σ') →
  (curthread σ = None → Q (Ret ()) (set_stack (KYield (curspl σ) :: stack σ) (at_spl SPL_HIGH σ))) →
  (∀ σ', curthread σ ≠ None → size (runqueue σ) ≤ zlen rq + 1 → Q (Halt Panic) σ') →
  wp thread_yield Q σ.
Proof.
  intros Hls Hfew Hth HQ HN HP. unfold thread_yield. wp_step. apply wp_splhigh.
  unfold push. do 2 wp_step. destruct (curthread σ) as [t|] eqn:Hcur.
  - destruct (Hth t eq_refl) as (th & Ht & Hmag).
    eapply (mi_switch_spec rq sl zs S_READY);
      [apply (lists_lift (set_stack _)), (lists_lift (at_spl _)); [auto with os..|done]|done|done|done
      |done|done|done| |].
    + intros σ' Hrl. by eapply HQ.
    + intros σ' Hno. apply HP; [done|]. cbn in Hno. lia.
  - unfold mi_switch. wp_step. apply wp_curspl_pos; [done|]. do 2 wp_step. cbn. rewrite Hcur.
    wp_step. by apply HN.
Qed.
