(* ===== verification/Synch.v ===== *)
(** * Synchronization and interrupts (kern/thread/synch.c, hardclock.c, arch/mips/mips/interrupt.c, trap.c)

    Semaphores, locks and condition variables are looked up by address.  Each
    operation runs at [splhigh], so that it is one step up to the point where it
    sleeps; what it does when it is woken is the definition of its frame.

    The last part puts the pieces together: [run_frame] is the return of
    the innermost pending call, [run_call] a call from the code that uses the
    thread system, and [step] one step of the processor: a call, a return, or an
    interrupt. *)

From S2P Require Import Prelude Array Queue Vnode Machine Dumbvm Thread.

(** ** synch.c: semaphores *)

Definition get_sem (s : addr) : M kstate Z := σ ← get; deref (sems σ !! s).
Definition put_sem (s : addr) (n : Z) : M kstate unit :=
  modify (λ σ, set_sems (<[s := n]> (sems σ)) σ).

Definition sem_create (initial_count : Z) : M kstate (option addr) :=
  p ← kmalloc;
  match p with
  | None => mret None
  | Some s =>
      name ← kmalloc;
      match name with
      | None => mret None
      | Some _ => _ ← put_sem s initial_count; mret (Some s)
      end
  end.

Definition sem_destroy (s : addr) : M kstate unit :=
  spl ← splhigh;
  b ← thread_hassleepers s;
  _ ← assert (negb b);
  _ ← splx spl;
  _ ← get_sem s;
  modify (λ σ, set_sems (delete s (sems σ)) σ).

(** Whether the function has returned, or is waiting in [thread_sleep]. *)
Inductive flow := Returned | Waiting.

(** [while (sem->count==0) thread_sleep(sem);] and the rest of [P]: the frame
    [KP], and the part of [P] after [splhigh]. *)
Definition P_loop (s : addr) (spl : Z) : M kstate flow :=
  count ← get_sem s;
  if count =? 0 then
    _ ← push (KP s spl);
    _ ← thread_sleep s;
    mret Waiting
  else
    _ ← assert (0 <? count);
    _ ← put_sem s (count - 1);
    _ ← splx spl;
    mret Returned.

Definition P (s : addr) : M kstate flow :=
  _ ← assert_state (λ σ, in_interrupt σ =? 0);
  spl ← splhigh;
  P_loop s spl.

Definition V (s : addr) : M kstate unit :=
  spl ← splhigh;
  count ← get_sem s;
  let count' := s32 (count + 1) in
  _ ← put_sem s count';
  _ ← assert (0 <? count');
  _ ← thread_wakeup s;
  _ ← splx spl;
  mret ().

(** ** synch.c: locks *)

Definition get_holder (l : addr) : M kstate (option tid) := σ ← get; deref (locks σ !! l).
Definition put_holder (l : addr) (h : option tid) : M kstate unit :=
  modify (λ σ, set_locks (<[l := h]> (locks σ)) σ).

Definition lock_create : M kstate (option addr) :=
  p ← kmalloc;
  match p with
  | None => mret None
  | Some l =>
      name ← kmalloc;
      match name with
      | None => mret None
      | Some _ => _ ← put_holder l None; mret (Some l)
      end
  end.

(** The holder is freed too. *)
Definition lock_destroy (l : addr) : M kstate unit :=
  h ← get_holder l;
  _ ← match h with Some t => thread_free t | None => mret () end;
  modify (λ σ, set_locks (delete l (locks σ)) σ).

Definition lock_do_i_hold (l : addr) : M kstate bool :=
  spl ← splhigh;
  h ← get_holder l;
  c ← gets curthread;
  let same := bool_decide (h = c) in
  _ ← splx spl;
  mret same.

(** [while (lock->holder != NULL) thread_sleep(lock);] and the rest of
    [lock_acquire]: the frame [KLock], and the part after the test for
    deadlock. *)
Definition lock_loop (l : addr) (spl : Z) : M kstate flow :=
  h ← get_holder l;
  if (h : option tid) is Some _ then
    _ ← push (KLock l spl);
    _ ← thread_sleep l;
    mret Waiting
  else
    c ← gets curthread;
    _ ← put_holder l c;
    _ ← splx spl;
    mret Returned.

Definition lock_acquire (l : addr) : M kstate flow :=
  spl ← splhigh;
  b ← lock_do_i_hold l;
  if (b : bool) then panic else lock_loop l spl.

Definition lock_release (l : addr) : M kstate unit :=
  spl ← splhigh;
  b ← lock_do_i_hold l;
  if negb b then panic
  else
    _ ← put_holder l None;
    _ ← thread_wakeup l;
    _ ← splx spl;
    mret ().

(** ** synch.c: condition variables

    A condition variable has no state but its address. *)

Definition cv_create : M kstate (option addr) :=
  p ← kmalloc;
  match p with
  | None => mret None
  | Some cv =>
      name ← kmalloc;
      match name with
      | None => mret None
      | Some _ => mret (Some cv)
      end
  end.

Definition cv_wait (cv l : addr) : M kstate flow :=
  spl ← splhigh;
  _ ← lock_release l;
  _ ← push (KCv cv l spl);
  _ ← thread_sleep cv;
  mret Waiting.

(** The frame [KCv]: [lock_acquire(lock)]. *)
Definition cv_relock (cv l : addr) (spl : Z) : M kstate unit :=
  _ ← push (KCvLock cv l spl);
  _ ← lock_acquire l;
  mret ().

Definition cv_signal (cv l : addr) : M kstate unit :=
  spl ← splhigh; _ ← thread_wakeone cv; _ ← splx spl; mret ().

Definition cv_broadcast (cv l : addr) : M kstate unit :=
  spl ← splhigh; _ ← thread_wakeup cv; _ ← splx spl; mret ().

(** ** hardclock.c *)

Definition HZ : Z := 100.
(** The address of the variable [lbolt]. *)
Definition lbolt : addr := 4.

Definition hardclock : M kstate unit :=
  n ← gets lbolt_counter;
  _ ← (if n + 1 >=? HZ then _ ← modify (set_lbolt_counter 0); thread_wakeup lbolt
       else modify (set_lbolt_counter (n + 1)));
  thread_yield.

(** [while (num_secs > 0) ...] of [clocksleep], and its end. *)
Definition clock_loop (num_secs spl : Z) : M kstate flow :=
  if num_secs >? 0 then
    _ ← push (KClock num_secs spl);
    _ ← thread_sleep lbolt;
    mret Waiting
  else
    _ ← splx spl;
    mret Returned.

Definition clocksleep (num_secs : Z) : M kstate flow :=
  s ← splhigh; clock_loop num_secs s.

(** ** Interrupts

    The processor clears the interrupt enable bit when it takes an interrupt;
    the return from the exception restores the status register.  [irqs] are the
    handlers that [lamebus_interrupt] finds to call: the timer's, which calls
    [hardclock], or a device's, which wakes the thread that waits for it with
    [V].  In the idle loop [cpu_idle] sets the enable bit and clears it again
    around the interrupt; the step [step_idle] saves the status as it is after
    that. *)

Definition mips_trap_irq (irqs : list irq) : M kstate unit :=
  st ← gets status;
  _ ← interrupts_off;
  savespl ← gets curspl;
  _ ← modify (set_curspl SPL_HIGH);
  old_in ← gets in_interrupt;
  _ ← modify (set_in_interrupt 1);
  _ ← assert_state curspl_pos;
  _ ← push (KTrap old_in savespl st);
  push (KIrq irqs).

Definition irq_handler (i : irq) : M kstate unit :=
  match i with
  | irq_timer => hardclock
  | irq_V s => V s
  end.

(** The frame [KTrap]. *)
Definition mips_trap_done (old_in savespl st : Z) : M kstate unit :=
  _ ← modify (set_in_interrupt old_in);
  _ ← splhigh;
  _ ← modify (set_curspl savespl);
  modify (set_status st).

(** ** The machine *)

Section machine.
Context (vop_reclaim : addr → M (gmap addr vnode) unit).

(** The calls of the code that uses the thread system: all but those that
    destroy an object. *)
Inductive call :=
  | CP (s : addr) | CV (s : addr)
  | CAcquire (l : addr) | CRelease (l : addr)
  | CWait (cv l : addr) | CSignal (cv l : addr) | CBroadcast (cv l : addr)
  | CClocksleep (n : Z) | CYield | CExit
  | CSplhigh | CSplx (n : Z)
  | CSemCreate (n : Z) | CLockCreate | CCvCreate | CFork (name : string).

Definition returned (m : M kstate unit) : M kstate flow := _ ← m; mret Returned.
Definition waiting (m : M kstate unit) : M kstate flow := _ ← m; mret Waiting.

Definition run_call (c : call) : M kstate flow :=
  match c with
  | CP s => P s
  | CV s => returned (V s)
  | CAcquire l => lock_acquire l
  | CRelease l => returned (lock_release l)
  | CWait cv l => cv_wait cv l
  | CSignal cv l => returned (cv_signal cv l)
  | CBroadcast cv l => returned (cv_broadcast cv l)
  | CClocksleep n => clocksleep n
  | CYield => waiting thread_yield
  | CExit => waiting (thread_exit vop_reclaim)
  | CSplhigh => returned (_ ← splhigh; mret ())
  | CSplx n => returned (_ ← splx n; mret ())
  | CSemCreate n => returned (_ ← sem_create n; mret ())
  | CLockCreate => returned (_ ← lock_create; mret ())
  | CCvCreate => returned (_ ← cv_create; mret ())
  | CFork name => returned (_ ← attempt (thread_fork vop_reclaim name); mret ())
  end.

(** The innermost call returns: [f] has been popped. *)
Definition run_frame (f : frame) : M kstate flow :=
  match f with
  | KUser => mret Waiting
  | KStart => waiting mi_threadstart
  | KExit => waiting (thread_exit vop_reclaim)
  | KDead => panic
  | KSched old => waiting (mi_switch_pick old)
  | KSwitched => waiting mi_switch_done
  | KYield spl => returned (_ ← splx spl; mret ())
  | KSleep => waiting thread_sleep_done
  | KP s spl => P_loop s spl
  | KLock l spl => lock_loop l spl
  | KCv cv l spl => waiting (cv_relock cv l spl)
  | KCvLock cv l spl => returned (_ ← splx spl; mret ())
  | KClock n spl => clock_loop (n - 1) spl
  | KIrq [] => mret Waiting
  | KIrq (i :: irqs) => waiting (_ ← push (KIrq irqs); irq_handler i)
  | KTrap old_in savespl st => waiting (mips_trap_done old_in savespl st)
  end.

(** The call that returns when a frame does. *)
Definition frame_call (f : frame) : option call :=
  match f with
  | KP s _ => Some (CP s)
  | KLock l _ => Some (CAcquire l)
  | KCvLock cv l _ => Some (CWait cv l)
  | KClock n _ => Some (CClocksleep n)
  | KYield _ => Some CYield
  | _ => None
  end.

(** What an observer sees. *)
Inductive event :=
  | ECall (t : tid) (c : call)
  | EReturn (t : tid) (c : call)
  | EIrqV (s : addr)
  | EDispatch (t : tid).

(** A call made by the client code returns to it: its frame lies on [KUser]. *)
Definition call_events (t : tid) (c : call) (w : flow) : list event :=
  ECall t c :: match w with Returned => [EReturn t c] | Waiting => [] end.

Definition return_events (σ : kstate) (f : frame) (k : list frame) (w : flow) (σ' : kstate) : list event :=
  match f with
  | KSched _ => match curthread σ' with Some t => [EDispatch t] | None => [] end
  | KIrq (irq_V s :: _) => [EIrqV s]
  | _ =>
      match w, k, curthread σ, frame_call f with
      | Returned, KUser :: _, Some t, Some c => [EReturn t c]
      | _, _, _, _ => []
      end
  end.

(** The memory that the next [kmalloc] gives, if it does, is in nobody's use. *)
Definition unused (σ : kstate) (a : addr) : Prop :=
  a ≠ lbolt ∧ sems σ !! a = None ∧ locks σ !! a = None ∧ map_Forall (λ _ th, t_sleepaddr th ≠ Some a) (threads σ).
Definition next_unused (σ : kstate) : Prop :=
  match allocs σ with Some a :: _ => unused σ a | _ => True end.

(** What the client owes: a condition variable apart from the semaphores and
    locks, a level that [splx] takes, a count that is an [int] and not negative;
    and of [kmalloc], that the memory for a new object is in nobody's use. *)
Definition call_ok (σ : kstate) (c : call) : Prop :=
  match c with
  | CWait cv _ => sems σ !! cv = None ∧ locks σ !! cv = None
  | CSplx n => 0 ≤ n
  | CSemCreate n => 0 ≤ n < 2 ^ 31 ∧ next_unused σ
  | CLockCreate => next_unused σ
  | _ => True
  end.

Inductive step : kstate → list event → kstate → Prop :=
  | step_call σ t k c w σ' :
      stack σ = KUser :: k → curthread σ = Some t → call_ok σ c →
      run_call c σ = (Ret w, σ') →
      step σ (call_events t c w) σ'
  | step_leave σ k :
      stack σ = KUser :: KExit :: k →
      step σ [] (set_stack (KExit :: k) σ)
  | step_return σ f k w σ' :
      stack σ = f :: k → f ≠ KUser →
      run_frame f (set_stack k σ) = (Ret w, σ') →
      step σ (return_events σ f k w σ') σ'
  | step_interrupt σ irqs σ' :
      Z.testbit (status σ) 0 = true →
      mips_trap_irq irqs σ = (Ret (), σ') →
      step σ [] σ'
  | step_idle σ old k irqs σ' :
      stack σ = KSched old :: k → q_empty (runqueue σ) = true →
      mips_trap_irq irqs σ = (Ret (), σ') →
      step σ [] σ'.

(** Executions, with their history. *)
Inductive steps : kstate → list event → kstate → Prop :=
  | steps_refl σ : steps σ [] σ
  | steps_snoc σ h σ' e σ'' : steps σ h σ' → step σ' e σ'' → steps σ (h ++ e) σ''.
End machine.
