(* ===== verification/Kernel.v ===== *)
(** * The invariant of the running kernel

    [wf σ rq sl zs]: every thread is in exactly one place (running, on the run
    queue [rq], asleep in [sl], dead in [zs]); every saved stack is one that
    [mi_switch] can return to; interrupts are off whenever the innermost call
    relies on it; and no thread sleeps on a semaphore that is positive or a lock
    that is free.  Each call, each return and each interrupt preserves it. *)

From S2P Require Import Prelude Array Queue Vnode Machine Dumbvm Thread Sched Synch.

(** ** Stacks *)

(** The calls that run with interrupts off. *)
Definition high (f : frame) : bool :=
  match f with KUser | KExit => false | _ => true end.

Definition is_trap (f : frame) : bool :=
  match f with KTrap _ _ _ => true | _ => false end.
Definition in_trap (k : list frame) : Z := if existsb is_trap k then 1 else 0.

Definition no_sched (k : list frame) : Prop :=
  Forall (λ f, match f with KSched _ => False | _ => True end) k.

(** Which call can be made from which. *)
Definition frame_on (f : frame) (k : list frame) : Prop :=
  match f, k with
  | KUser, [] => True
  | KUser, [KExit] => True
  | KExit, [] => True
  | KStart, [] => True
  | KDead, [] => True
  | KDead, KUser :: _ => True
  | KSched _, f' :: _ | KSwitched, f' :: _ =>
      match f' with KYield _ | KSleep | KDead => True | _ => False end
  | KYield spl, KUser :: _ => 0 ≤ spl
  | KYield spl, KIrq _ :: _ => 0 < spl
  | KSleep, f' :: _ => match f' with KP _ _ | KLock _ _ | KCv _ _ _ | KClock _ _ => True | _ => False end
  | KP _ spl, KUser :: _ => 0 ≤ spl
  | KClock _ spl, KUser :: _ => 0 ≤ spl
  | KCv _ _ spl, KUser :: _ => 0 ≤ spl
  | KCvLock _ _ spl, KUser :: _ => 0 ≤ spl
  | KLock _ spl, KUser :: _ => 0 ≤ spl
  | KLock l spl, KCvLock _ l' _ :: _ => 0 < spl ∧ l = l'
  | KIrq _, KTrap _ _ _ :: _ => True
  | KTrap old_in savespl st, f' :: _ =>
      old_in = in_trap k ∧ 0 ≤ savespl ∧ Z.testbit st 0 = (savespl =? 0) ∧
      match f' with
      | KUser | KExit => True
      | KSched _ => 0 < savespl
      | _ => False
      end
  | _, _ => False
  end.

Fixpoint stack_ok (k : list frame) : Prop :=
  match k with
  | [] => True
  | f :: k' => frame_on f k' ∧ stack_ok k'
  end.

(** A stack that [md_switch] has left, or a new one. *)
Record saved_ok (th : thread) : Prop := {
  sv_stack : stack_ok (pcb_switchstack (t_pcb th));
  sv_top : match pcb_switchstack (t_pcb th) with (KStart | KSwitched) :: _ => True | _ => False end;
  sv_sched : no_sched (pcb_switchstack (t_pcb th));
  sv_int : pcb_ininterrupt (t_pcb th) = in_trap (pcb_switchstack (t_pcb th));
}.

(** What can lie on the idle loop: an interrupt handler. *)
Definition idle_pre (pre : list frame) : Prop :=
  match pre with
  | [] | [KTrap _ _ _] | [KIrq _; KTrap _ _ _] | [KYield _; KIrq _; KTrap _ _ _] => True
  | _ => False
  end.

(** The thread whose stack is in use: in the idle loop it is the last one that
    ran. *)
Definition owned_by (σ : kstate) (t : tid) : Prop :=
  match curthread σ with
  | Some t' => t' = t ∧ no_sched (stack σ)
  | None => ∃ pre k, stack σ = pre ++ KSched t :: k ∧ idle_pre pre ∧ no_sched k
  end.

(** The lock is held when [lock_acquire] has returned to [cv_wait]. *)
Definition relocked (σ : kstate) : Prop :=
  match stack σ, curthread σ with
  | KCvLock _ l _ :: _, Some t => locks σ !! l = Some (Some t)
  | _, _ => True
  end.

(** [zs] are the threads that have exited: only they have a stack that would
    come back from the dead. *)
Record ctl (σ : kstate) (t : tid) (zs : list tid) : Prop := {
  ct_flag : flag_ok σ;
  ct_tlb : zlen (tlb (vm σ)) = NUM_TLB;
  ct_stack : stack_ok (stack σ);
  ct_high : match stack σ with f :: _ => high f = true → 0 < curspl σ | [] => False end;
  ct_int : in_interrupt σ = in_trap (stack σ);
  ct_owner : owned_by σ t;
  ct_known : is_Some (threads σ !! t);
  ct_saved : ∀ t' th, threads σ !! t' = Some th → t' ≠ t → saved_ok th;
  ct_magic : ∀ t' th, threads σ !! t' = Some th → magic th;
  ct_dead : t ∉ zs → KDead ∉ stack σ;
  ct_undead : ∀ t' th, threads σ !! t' = Some th → t' ≠ t → t' ∉ zs →
    KDead ∉ pcb_switchstack (t_pcb th);
  ct_relocked : relocked σ;
}.

(** ** Places *)

Definition running (σ : kstate) : list tid := option_list (curthread σ).

Record place (σ : kstate) (rq sl zs : list tid) : Prop := {
  pl_lists : lists σ rq sl zs;
  pl_nodup : NoDup (running σ ++ rq ++ sl ++ zs);
  pl_dom : ∀ t, is_Some (threads σ !! t) ↔ t ∈ running σ ++ rq ++ sl ++ zs;
  pl_num : numthreads σ = zlen (running σ ++ rq ++ sl);
  pl_few : zlen (running σ ++ rq ++ sl ++ zs) < 2 ^ 28;
}.

(** ** Semaphores and locks *)

Record sync_ok (σ : kstate) (sl : list tid) : Prop := {
  sy_asleep : ∀ t, t ∈ sl → ∃ a, sleeps_on (threads σ) a t;
  sy_count : ∀ s n, sems σ !! s = Some n → 0 ≤ n < 2 ^ 31;
  sy_sems : ∀ s n t, sems σ !! s = Some n → 0 < n → t ∈ sl → ¬ sleeps_on (threads σ) s t;
  sy_locks : ∀ l t, locks σ !! l = Some None → t ∈ sl → ¬ sleeps_on (threads σ) l t;
  sy_apart : ∀ a, is_Some (sems σ !! a) → locks σ !! a = None;
  sy_lbolt : sems σ !! lbolt = None ∧ locks σ !! lbolt = None;
}.

Record wf (σ : kstate) (rq sl zs : list tid) : Prop := {
  wf_place : place σ rq sl zs;
  wf_sync : sync_ok σ sl;
  wf_ctl : ∃ t, ctl σ t zs;
}.

(** ** Facts about stacks *)

Lemma in_trap_cons f k : is_trap f = false → in_trap (f :: k) = in_trap k.
Proof. intros H. unfold in_trap. simpl. by rewrite H. Qed.

Lemma owned_by_cur σ t t' : curthread σ = Some t → owned_by σ t' → t' = t.
Proof. unfold owned_by. intros ->. naive_solver. Qed.

(** The client's stack holds no interrupt. *)
Lemma user_stack k : stack_ok (KUser :: k) → (k = [] ∨ k = [KExit]) ∧ in_trap (KUser :: k) = 0 ∧ no_sched (KUser :: k).
Proof.
  intros [H _]. destruct k as [|[] [|]]; try done; split_and!; auto; repeat constructor.
Qed.

Lemma few_running σ rq sl zs : place σ rq sl zs → few rq sl zs.
Proof.
  intros [_ _ _ _ Hf]. unfold few. rewrite !zlen_app in Hf. pose proof (zlen_nonneg (running σ)). lia.
Qed.

Lemma known_sl σ rq sl zs : place σ rq sl zs → all_known σ sl.
Proof. intros [_ _ Hd _ _] t Ht. apply Hd. set_solver. Qed.

Lemma known_rq σ rq sl zs : place σ rq sl zs → all_known σ rq.
Proof. intros [_ _ Hd _ _] t Ht. apply Hd. set_solver. Qed.

Lemma known_cur σ rq sl zs t : place σ rq sl zs → curthread σ = Some t → ∃ th, threads σ !! t = Some th.
Proof. intros [_ _ Hd _ _] Hc. apply Hd. unfold running. rewrite Hc. set_solver. Qed.

Lemma running_cur σ t : curthread σ = Some t → running σ = [t].
Proof. unfold running. by intros ->. Qed.
Lemma running_none σ : curthread σ = None → running σ = [].
Proof. unfold running. by intros ->. Qed.

Lemma cur_not_asleep σ rq sl zs t : place σ rq sl zs → curthread σ = Some t → t ∉ rq ++ sl ++ zs.
Proof.
  intros [_ Hnd _ _ _] Hc. rewrite (running_cur _ _ Hc) in Hnd. by apply NoDup_cons in Hnd as [? _].
Qed.

(** ** What a step does *)

Definition delta (s : addr) (e : event) : Z :=
  match e with
  | ECall _ (CV s') | EIrqV s' => if decide (s' = s) then 1 else 0
  | EReturn _ (CP s') => if decide (s' = s) then -1 else 0
  | _ => 0
  end.
Definition deltas (s : addr) (es : list event) : Z := foldr (λ e n, delta s e + n) 0 es.

Definition dispatched (es : list event) : list tid :=
  omap (λ e, match e with EDispatch t => Some t | _ => None end) es.

Definition releases (t : tid) (l : addr) (es : list event) : Prop :=
  ECall t (CRelease l) ∈ es ∨ ∃ cv, ECall t (CWait cv l) ∈ es.
Definition acquires (t : tid) (l : addr) (es : list event) : Prop :=
  EReturn t (CAcquire l) ∈ es ∨ ∃ cv, EReturn t (CWait cv l) ∈ es.

Record effect (σ σ' : kstate) (es : list event) (rq rq' : list tid) : Prop := {
  ef_fifo : ∃ enq, rq ++ enq = dispatched es ++ rq';
  ef_sems : ∀ s n, sems σ !! s = Some n → sems σ' !! s = Some (n + deltas s es);
  ef_locks : ∀ l t, locks σ !! l = Some (Some t) → locks σ' !! l = Some (Some t) ∨ releases t l es;
  ef_acquire : ∀ l t, acquires t l es → locks σ' !! l = Some (Some t);
}.

Definition good (σ : kstate) (rq : list tid) (es : list event) (σ' : kstate) : Prop :=
  ∃ rq' sl' zs', wf σ' rq' sl' zs' ∧ effect σ σ' es rq rq'.

(** ** Preserving the parts of the invariant *)

Lemma place_same σ σ' rq sl zs rq' sl' :
  place σ rq sl zs → lists σ' rq' sl' zs →
  running σ' ++ rq' ++ sl' ≡ₚ running σ ++ rq ++ sl →
  numthreads σ' = numthreads σ →
  (∀ t, is_Some (threads σ' !! t) ↔ is_Some (threads σ !! t)) →
  place σ' rq' sl' zs.
Proof.
  intros [Hls Hnd Hdom Hnum Hfew] Hls' Hp Hn Hth.
  assert (running σ' ++ rq' ++ sl' ++ zs ≡ₚ running σ ++ rq ++ sl ++ zs) as Hp'
    by (rewrite !(assoc_L (++)) in *; by rewrite Hp).
  assert (zlen (running σ' ++ rq' ++ sl') = zlen (running σ ++ rq ++ sl)) as Hl
    by (unfold zlen; by rewrite Hp).
  assert (zlen (running σ' ++ rq' ++ sl' ++ zs) = zlen (running σ ++ rq ++ sl ++ zs)) as Hl'
    by (unfold zlen; by rewrite Hp').
  split; [done|by rewrite Hp'| |lia|lia]. intros t. rewrite Hth, Hp'. apply Hdom.
Qed.

(** Fewer sleepers, or sleepers on other objects. *)
Lemma sync_ok_sub σ σ' sl sl' :
  sync_ok σ sl → sems σ' = sems σ → locks σ' = locks σ → sl' ⊆ sl →
  (∀ t, t ∈ sl' → threads σ' !! t = threads σ !! t) → sync_ok σ' sl'.
Proof.
  intros [] Hs Hl Hsub Hth.
  assert (∀ a t, t ∈ sl' → sleeps_on (threads σ') a t ↔ sleeps_on (threads σ) a t) as Hso
    by (intros a t Ht; unfold sleeps_on; by rewrite Hth).
  split; rewrite ?Hs, ?Hl; auto.
  - intros t Ht. destruct (sy_asleep0 t) as [a Ha]; [auto|]. exists a. by apply Hso.
  - intros s n t Hn Hpos Ht. rewrite Hso by done. eauto.
  - intros l t Hn Ht. rewrite Hso by done. eauto.
Qed.

(** One more sleeper. *)
Lemma sync_ok_sleep σ σ' sl t a :
  sync_ok σ sl → sems σ' = sems σ → locks σ' = locks σ → t ∉ sl →
  (∀ t', t' ≠ t → threads σ' !! t' = threads σ !! t') →
  sleeps_on (threads σ') a t →
  (∀ n, sems σ !! a = Some n → n ≤ 0) → locks σ !! a ≠ Some None →
  sync_ok σ' (sl ++ [t]).
Proof.
  intros [] Hs Hl Hnot Hth Ha Hsem Hlock.
  assert (∀ b t', t' ∈ sl → sleeps_on (threads σ') b t' ↔ sleeps_on (threads σ) b t') as Hso
    by (intros b t' Ht; unfold sleeps_on; rewrite Hth; [done|by intros ->]).
  assert (∀ b, sleeps_on (threads σ') b t → b = a) as Huniq.
  { intros b (th & Hth1 & Hb). destruct Ha as (th' & ? & ?). congruence. }
  split; rewrite ?Hs, ?Hl; auto.
  - intros t' [Ht|Ht%list_elem_of_singleton]%elem_of_app; [|subst t'; by exists a].
    destruct (sy_asleep0 t' Ht) as [b Hb]. exists b. by apply Hso.
  - intros s n t' Hn Hpos [Ht|Ht%list_elem_of_singleton]%elem_of_app;
      [rewrite Hso by done; eauto|subst t'].
    intros Hon%Huniq. subst s. specialize (Hsem n Hn). lia.
  - intros l t' Hn [Ht|Ht%list_elem_of_singleton]%elem_of_app;
      [rewrite Hso by done; eauto|subst t'].
    intros Hon%Huniq. by subst l.
Qed.

(** Everyone who slept on [a] has been woken: the object [a] may be free. *)
Lemma sync_ok_wake σ σ' sl a :
  sync_ok σ sl → threads σ' = threads σ →
  (∀ b, b ≠ a → sems σ' !! b = sems σ !! b ∧ locks σ' !! b = locks σ !! b) →
  (is_Some (sems σ' !! a) → is_Some (sems σ !! a)) →
  (is_Some (locks σ' !! a) → is_Some (locks σ !! a)) →
  (∀ n, sems σ' !! a = Some n → 0 ≤ n < 2 ^ 31) →
  sync_ok σ' (filter (λ t, ¬ sleeps_on (threads σ) a t) sl).
Proof.
  intros [] Hth Hb Hds Hdl Hcount. split; rewrite ?Hth.
  - intros t [_ Ht]%list_elem_of_filter. auto.
  - intros s n. destruct (decide (s = a)) as [->|Hne]; [auto|]. rewrite (proj1 (Hb s Hne)). eauto.
  - intros s n t Hn Hpos [Hns Ht]%list_elem_of_filter. destruct (decide (s = a)) as [->|Hne]; [done|].
    rewrite (proj1 (Hb s Hne)) in Hn. eauto.
  - intros l t Hn [Hns Ht]%list_elem_of_filter. destruct (decide (l = a)) as [->|Hne]; [done|].
    rewrite (proj2 (Hb l Hne)) in Hn. eauto.
  - intros b Hs. destruct (decide (b = a)) as [->|Hne].
    + apply eq_None_not_Some. intros Hl. apply Hdl in Hl. specialize (sy_apart0 a (Hds Hs)).
      rewrite sy_apart0 in Hl. by destruct Hl.
    + rewrite (proj2 (Hb b Hne)). apply sy_apart0. by rewrite <- (proj1 (Hb b Hne)).
  - destruct (decide (lbolt = a)) as [<-|Hne].
    + destruct sy_lbolt0 as [H1 H2]. rewrite H1 in Hds. rewrite H2 in Hdl.
      split; apply eq_None_not_Some; intros H; [by destruct (Hds H)|by destruct (Hdl H)].
    + by rewrite (proj1 (Hb _ Hne)), (proj2 (Hb _ Hne)).
Qed.

(** A semaphore nobody sleeps on, and a lock that is taken. *)
Lemma sync_ok_sem σ σ' sl s n m :
  sync_ok σ sl → sems σ !! s = Some n → 0 < n → 0 ≤ m < 2 ^ 31 →
  sems σ' = <[s := m]> (sems σ) → locks σ' = locks σ → threads σ' = threads σ → sync_ok σ' sl.
Proof.
  intros [] Hs Hn Hm Es El Et. split; rewrite ?Es, ?El, ?Et; auto.
  - intros s' n' [[<- <-]|[_ H]]%lookup_insert_Some; eauto.
  - intros s' n' t [[<- <-]|[_ H]]%lookup_insert_Some; eauto.
  - intros a Ha%lookup_insert_is_Some'. destruct Ha as [<-|Ha]; [|auto]. apply sy_apart0. by eexists.
  - split; [|apply sy_lbolt0]. rewrite lookup_insert_ne; [apply sy_lbolt0|]. intros ->.
    destruct sy_lbolt0. congruence.
Qed.

Lemma sync_ok_lock σ σ' sl l h t :
  sync_ok σ sl → locks σ !! l = Some h →
  locks σ' = <[l := Some t]> (locks σ) → sems σ' = sems σ → threads σ' = threads σ → sync_ok σ' sl.
Proof.
  intros [] Hl El Es Et. split; rewrite ?Es, ?El, ?Et; auto.
  - intros l' t' [[_ ?]|[_ H]]%lookup_insert_Some; [done|]. eauto.
  - intros a Ha. rewrite lookup_insert_ne; [auto|]. intros ->. specialize (sy_apart0 a Ha). congruence.
  - split; [apply sy_lbolt0|]. rewrite lookup_insert_ne; [apply sy_lbolt0|]. intros ->.
    destruct sy_lbolt0. congruence.
Qed.

(** A new semaphore, and a new lock. *)
Lemma sync_ok_new_sem σ σ' sl a n :
  sync_ok σ sl → unused σ a → 0 ≤ n < 2 ^ 31 →
  sems σ' = <[a := n]> (sems σ) → locks σ' = locks σ → threads σ' = threads σ → sync_ok σ' sl.
Proof.
  intros [] (Hlb & Hs & Hl & Hno) Hn Es El Et. split; rewrite ?Es, ?El, ?Et; auto.
  - intros s' n' [[<- <-]|[_ H]]%lookup_insert_Some; eauto.
  - intros s' n' t [[<- <-]|[_ H]]%lookup_insert_Some; [|by eauto]. intros _ _ (th & Hth & Hon). by apply (Hno t th).
  - intros b Hb%lookup_insert_is_Some'. destruct Hb as [<-|Hb]; auto.
  - split; [|apply sy_lbolt0]. rewrite lookup_insert_ne by done. apply sy_lbolt0.
Qed.

Lemma sync_ok_new_lock σ σ' sl a :
  sync_ok σ sl → unused σ a →
  locks σ' = <[a := None]> (locks σ) → sems σ' = sems σ → threads σ' = threads σ → sync_ok σ' sl.
Proof.
  intros [] (Hlb & Hs & Hl & Hno) El Es Et. split; rewrite ?Es, ?El, ?Et; auto.
  - intros l t [[<- _]|[_ H]]%lookup_insert_Some; [|by eauto]. intros _ (th & Hth & Hon). by apply (Hno t th).
  - intros b Hb. rewrite lookup_insert_ne; [auto|]. intros ->. rewrite Hs in Hb. by destruct Hb.
  - split; [apply sy_lbolt0|]. rewrite lookup_insert_ne by done. apply sy_lbolt0.
Qed.

(** ** Control *)

Record threads_ok (ths : gmap tid thread) (t : tid) (zs : list tid) : Prop := {
  to_known : is_Some (ths !! t);
  to_saved : ∀ t' th, ths !! t' = Some th → t' ≠ t → saved_ok th;
  to_magic : ∀ t' th, ths !! t' = Some th → magic th;
  to_undead : ∀ t' th, ths !! t' = Some th → t' ≠ t → t' ∉ zs → KDead ∉ pcb_switchstack (t_pcb th);
}.

Lemma ctl_threads σ t zs : ctl σ t zs → threads_ok (threads σ) t zs.
Proof. intros []. by split. Qed.

Lemma threads_ok_update ths t th zs :
  threads_ok ths t zs → magic th → threads_ok (<[t := th]> ths) t zs.
Proof.
  intros [Hk Hs Hm Hu] Hth. split.
  - rewrite lookup_insert_eq. by eexists.
  - intros t' th' [[<- _]|[_ H]]%lookup_insert_Some; [done|]. by apply (Hs t').
  - intros t' th' [[_ <-]|[_ H]]%lookup_insert_Some; [done|]. by apply (Hm t').
  - intros t' th' [[<- _]|[_ H]]%lookup_insert_Some; [done|]. by apply (Hu t').
Qed.

Lemma threads_ok_dead ths t zs t' : threads_ok ths t zs → threads_ok ths t (zs ++ [t']).
Proof. intros [Hk Hs Hm Hu]. split; [done..|]. intros t'' th Hth Hne Hnot. apply (Hu t''); set_solver. Qed.

(** The client goes on. *)
Lemma ctl_user σ σ' t k zs :
  ctl σ t zs → stack σ = KUser :: k → stack σ' = KUser :: k → curthread σ' = curthread σ →
  threads σ' = threads σ → in_interrupt σ' = in_interrupt σ → vm σ' = vm σ → flag_ok σ' → ctl σ' t zs.
Proof.
  intros [] Hk Hk' Hc Ht Hi Hv Hf. split; rewrite ?Hk', ?Ht, ?Hv, ?Hi; try done.
  - by rewrite Hk in ct_stack0.
  - by rewrite <- Hk.
  - unfold owned_by in *. by rewrite Hc, Hk', <- Hk.
  - by rewrite <- Hk.
  - unfold relocked. by rewrite Hk'.
Qed.

(** A thread has been put aside. *)
Lemma ctl_sched σ t k zs :
  stack σ = KSched t :: k → stack_ok (KSched t :: k) → no_sched k → curthread σ = None →
  0 < curspl σ → flag_ok σ → in_interrupt σ = in_trap k → zlen (tlb (vm σ)) = NUM_TLB →
  threads_ok (threads σ) t zs → (t ∉ zs → KDead ∉ k) → ctl σ t zs.
Proof.
  intros Hk Hok Hns Hc Hspl Hf Hi Htlb [] Hd. split; rewrite ?Hk; try done.
  - unfold owned_by. rewrite Hc. by exists [], k.
  - intros Hnot. apply not_elem_of_cons. split; [done|auto].
  - unfold relocked. by rewrite Hk.
Qed.

(** The thread that runs returns from a call. *)
Lemma ctl_pop σ σ' t f k zs :
  ctl σ t zs → stack σ = f :: k → is_trap f = false → high f = true → (∀ o, f ≠ KSched o) →
  stack σ' = k → curthread σ' = curthread σ → in_interrupt σ' = in_interrupt σ →
  zlen (tlb (vm σ')) = NUM_TLB → flag_ok σ' →
  match k with g :: _ => high g = true → 0 < curspl σ' | [] => False end →
  threads_ok (threads σ') t zs → relocked σ' → ctl σ' t zs.
Proof.
  intros [] Hk Htr Hhi Hns Hk' Hc Hi Htlb Hf Hh [] Hrl.
  rewrite Hk in *. split; rewrite ?Hk', ?Hi; try done.
  - apply ct_stack0.
  - by rewrite ct_int0, in_trap_cons.
  - unfold owned_by in *. rewrite Hc, Hk', Hk in *. destruct (curthread σ) as [t'|].
    + destruct ct_owner0 as [-> Hno]. inversion Hno. done.
    + destruct ct_owner0 as (pre & k0 & E & Hpre & Hno).
      destruct pre as [|g pre]; simplify_eq/=; [by edestruct Hns|].
      exists pre, k0. split_and!; [done| |done].
      destruct g; try done; destruct pre as [|[] [|[] [|]]]; done.
  - intros Hnot. by apply not_elem_of_cons in ct_dead0 as [_ ?].
Qed.

(** A thread is dispatched. *)
Lemma ctl_switched σ σ' old k nu tho thn zs :
  ctl σ old zs → stack σ = KSched old :: k → curthread σ = None →
  threads σ !! old = Some tho → threads σ !! nu = Some thn → nu ∉ zs →
  let σ1 := switched_in old nu tho thn (set_stack k σ) in
  stack σ' = stack σ1 → curthread σ' = curthread σ1 → in_interrupt σ' = in_interrupt σ1 →
  threads σ' = threads σ1 → vm σ' = vm σ → flag_ok σ' → curspl σ' = curspl σ → ctl σ' nu zs.
Proof.
  intros [] Hk Hc Hold Hnu Hnz σ1 Ek Ec Ei Et Ev Hf Es.
  rewrite Hk in *. cbn in ct_high0. specialize (ct_high0 eq_refl).
  unfold owned_by in ct_owner0. rewrite Hc in ct_owner0.
  destruct ct_owner0 as (pre & k0 & E & Hpre & Hno). rewrite Hk in E.
  assert (pre = [] ∧ k0 = k) as [-> ->].
  { destruct pre as [|g pre]; [by simplify_eq/=|]. simplify_eq/=. by destruct pre as [|? [|]]. }
  destruct ct_stack0 as [Hon Hok]. rewrite in_trap_cons in ct_int0 by done.
  assert (stack_ok (KSwitched :: k)) as Hok' by done.
  unfold σ1, switched_in in *. destruct (decide (old = nu)) as [->|Hne]; cbn in Ek, Ec, Ei, Et.
  - split; rewrite ?Ek, ?Et, ?Ev, ?Es, ?Ei; try done.
    + unfold owned_by. rewrite Ec, Ek. split; [done|]. by constructor.
    + intros _. specialize (ct_dead0 Hnz). set_solver.
    + unfold relocked. by rewrite Ek.
  - destruct (ct_saved0 nu thn Hnu) as [Hs1 Hs2 Hs3 Hs4]; [done|].
    split; rewrite ?Ek, ?Et, ?Ev, ?Es, ?Ei; try done.
    + by destruct (pcb_switchstack _) as [|[]].
    + unfold owned_by. by rewrite Ec, Ek.
    + rewrite lookup_insert_ne; eauto.
    + intros t' th [[<- <-]|[? H]]%lookup_insert_Some Hne'; [|apply (ct_saved0 t'); [done|congruence]].
      split; cbn; [done|done|by constructor|by rewrite in_trap_cons].
    + intros t' th [[<- <-]|[_ H]]%lookup_insert_Some; [exact (ct_magic0 old tho Hold)|by apply (ct_magic0 t')].
    + intros _. by apply (ct_undead0 nu).
    + intros t' th [[<- <-]|[? H]]%lookup_insert_Some Hne' Hnot; [|apply (ct_undead0 t'); [done|congruence|done]].
      cbn. specialize (ct_dead0 Hnot). set_solver.
    + unfold relocked. rewrite Ek. by destruct (pcb_switchstack _) as [|[]].
Qed.

(** ** Specifications of the primitives *)

(** A critical section ends at the level it began with. *)
Lemma relisted_restore f σ σ' rq sl zs :
  flag_ok σ → (∀ n σ, at_spl n (f σ) = f (at_spl n σ)) →
  relisted (f (at_spl SPL_HIGH σ)) σ' rq sl zs →
  relisted (f σ) (at_spl (curspl σ) σ') rq sl zs.
Proof.
  intros Hf Hcomm Hrl. apply (relisted_lift (at_spl (curspl σ))) in Hrl; [|apply kl_at_spl].
  by rewrite Hcomm, at_spl_restore in Hrl by done.
Qed.

Section primitives.
Context (σ : kstate) (rq sl zs : list tid).
Context (Hls : lists σ rq sl zs) (Hfew : few rq sl zs) (Hknown : all_known σ sl).

Lemma lists_high : lists (at_spl SPL_HIGH σ) rq sl zs.
Proof. by apply (lists_lift (at_spl _)); [apply kl_at_spl|]. Qed.

Abbreviation woken a := (filter (sleeps_on (threads σ) a) sl).
Abbreviation unwoken a := (filter (λ t, ¬ sleeps_on (threads σ) a t) sl).

Lemma V_spec s n Q :
  flag_ok σ → sems σ !! s = Some n → 0 ≤ n < 2 ^ 31 →
  (∀ σ', n + 1 < 2 ^ 31 →
     relisted (set_sems (<[s := n + 1]> (sems σ)) σ) σ' (rq ++ woken s) (unwoken s) zs → Q (Ret ()) σ') →
  (∀ σ', n + 1 = 2 ^ 31 ∨ ¬ queue_room σ rq sl → Q (Halt Panic) σ') →
  wp (V s) Q σ.
Proof.
  intros Hf Hs Hn HQ HP. unfold V, get_sem, put_sem. wp_step. apply wp_splhigh. do 3 wp_step.
  eapply wp_deref; [done|]. do 2 wp_step. wp_step.
  destruct (decide (n + 1 < 2 ^ 31)) as [Hlt|Hge].
  2: { assert (n + 1 = 2 ^ 31) as -> by lia. apply HP. left. lia. }
  rewrite s32_small by lia. apply wp_assert; [lia|]. wp_step.
  eapply (thread_wakeup_spec rq sl zs);
    [apply (lists_lift (set_sems _)); [apply kl_sems|apply lists_high]|done|done|done| |].
  - intros σ' Hrl. wp_step. apply wp_splx. wp_step. apply HQ; [done|].
    by apply (relisted_restore (set_sems _)).
  - intros σ' Hno. apply HP. by right.
Qed.

(** [lock_release], [cv_signal], [cv_broadcast]. *)
Lemma lock_release_spec l t Q :
  flag_ok σ → locks σ !! l = Some (Some t) → curthread σ = Some t →
  (∀ σ', relisted (set_locks (<[l := None]> (locks σ)) σ) σ' (rq ++ woken l) (unwoken l) zs → Q (Ret ()) σ') →
  (∀ σ', ¬ queue_room σ rq sl → Q (Halt Panic) σ') →
  wp (lock_release l) Q σ.
Proof.
  intros Hf Hl Hc HQ HP. unfold lock_release, lock_do_i_hold, get_holder, put_holder.
  wp_step. apply wp_splhigh. do 2 wp_step. apply wp_splhigh. do 3 wp_step. eapply wp_deref; [done|].
  do 3 wp_step. apply wp_splx. rewrite at_spl_restore by (done || by apply at_spl_flag_ok). wp_step.
  cbn. rewrite Hc, bool_decide_true by done. cbn [negb]. do 2 wp_step. wp_step.
  eapply (thread_wakeup_spec rq sl zs);
    [apply (lists_lift (set_locks _)); [apply kl_locks|apply lists_high]|done|done|done| |].
  - intros σ' Hrl. wp_step. apply wp_splx. wp_step. apply HQ.
    by apply (relisted_restore (set_locks _)).
  - intros σ' Hno. by apply HP.
Qed.

Lemma cv_signal_spec cv l Q :
  flag_ok σ →
  (∀ l1 t l2 σ', sl = l1 ++ t :: l2 → Forall (λ t, ¬ sleeps_on (threads σ) cv t) l1 →
     sleeps_on (threads σ) cv t → relisted σ σ' (rq ++ [t]) (l1 ++ l2) zs → Q (Ret ()) σ') →
  (Forall (λ t, ¬ sleeps_on (threads σ) cv t) sl → Q (Ret ()) σ) →
  (∀ σ', ¬ queue_room σ rq sl → Q (Halt Panic) σ') →
  wp (cv_signal cv l) Q σ.
Proof.
  intros Hf HQ HN HP. unfold cv_signal. wp_step. apply wp_splhigh. wp_step.
  eapply (thread_wakeone_spec rq sl zs); [apply lists_high|done|done|done| | |].
  - intros l1 t l2 σ' E H1 Ht Hrl. wp_step. apply wp_splx. wp_step. eapply HQ; [done..|].
    by apply (relisted_restore (λ σ, σ)).
  - intros Hall. wp_step. apply wp_splx. wp_step. rewrite at_spl_restore by done. by apply HN.
  - intros σ' Hno. by apply HP.
Qed.

Lemma cv_broadcast_spec cv l Q :
  flag_ok σ →
  (∀ σ', relisted σ σ' (rq ++ woken cv) (unwoken cv) zs → Q (Ret ()) σ') →
  (∀ σ', ¬ queue_room σ rq sl → Q (Halt Panic) σ') →
  wp (cv_broadcast cv l) Q σ.
Proof.
  intros Hf HQ HP. unfold cv_broadcast. wp_step. apply wp_splhigh. wp_step.
  eapply (thread_wakeup_spec rq sl zs); [apply lists_high|done|done|done| |].
  - intros σ' Hrl. wp_step. apply wp_splx. wp_step. apply HQ. by apply (relisted_restore (λ σ, σ)).
  - intros σ' Hno. by apply HP.
Qed.

Context (t : tid) (th : thread).
Context (Hcur : curthread σ = Some t) (Hth : threads σ !! t = Some th) (Hmag : magic th).
Context (Hint : in_interrupt σ = 0) (Hspl : 0 < curspl σ).

(** Sleeping in a call with frame [f] on object [a]. *)
Lemma push_sleep_spec {A} f a (w : A) Q :
  (∀ σ', relisted (slept t a th (set_stack (f :: stack σ) σ)) σ' rq (sl ++ [t]) zs → Q (Ret w) σ') →
  (∀ σ', max (sleepers σ) ≤ zlen sl → Q (Halt Panic) σ') →
  wp (_ ← push f; _ ← thread_sleep a; mret w) Q σ.
Proof.
  intros HQ HP. unfold push. do 3 wp_step. eapply (thread_sleep_spec a t th _ rq sl zs);
    [apply (lists_lift (set_stack _)); [apply kl_stack|done]|done..| |].
  - intros σ' Hrl. wp_step. by apply HQ.
  - intros σ' Hno. by apply HP.
Qed.

Lemma P_loop_spec s spl n Q :
  sems σ !! s = Some n → 0 ≤ n →
  (0 < n → Q (Ret Returned) (at_spl spl (set_sems (<[s := n - 1]> (sems σ)) σ))) →
  (∀ σ', n = 0 → relisted (slept t s th (set_stack (KP s spl :: stack σ) σ)) σ' rq (sl ++ [t]) zs →
     Q (Ret Waiting) σ') →
  (∀ σ', max (sleepers σ) ≤ zlen sl → Q (Halt Panic) σ') →
  wp (P_loop s spl) Q σ.
Proof.
  intros Hs Hn HQ HW HP. unfold P_loop, get_sem, put_sem. do 3 wp_step. eapply wp_deref; [done|].
  destruct (Z.eqb_spec n 0) as [->|Hne].
  - apply push_sleep_spec; auto.
  - wp_step. apply wp_assert; [lia|]. do 2 wp_step. wp_step. apply wp_splx. wp_step. apply HQ. lia.
Qed.

Lemma lock_loop_spec l spl h Q :
  locks σ !! l = Some h →
  (h = None → Q (Ret Returned) (at_spl spl (set_locks (<[l := Some t]> (locks σ)) σ))) →
  (∀ σ', h ≠ None → relisted (slept t l th (set_stack (KLock l spl :: stack σ) σ)) σ' rq (sl ++ [t]) zs →
     Q (Ret Waiting) σ') →
  (∀ σ', max (sleepers σ) ≤ zlen sl → Q (Halt Panic) σ') →
  wp (lock_loop l spl) Q σ.
Proof.
  intros Hl HQ HW HP. unfold lock_loop, get_holder, put_holder. do 3 wp_step. eapply wp_deref; [done|].
  destruct h as [t'|].
  - apply push_sleep_spec; auto.
  - do 5 wp_step. apply wp_splx. wp_step. rewrite Hcur. by apply HQ.
Qed.

Lemma clock_loop_spec n spl Q :
  (n ≤ 0 → Q (Ret Returned) (at_spl spl σ)) →
  (∀ σ', 0 < n → relisted (slept t lbolt th (set_stack (KClock n spl :: stack σ) σ)) σ' rq (sl ++ [t]) zs →
     Q (Ret Waiting) σ') →
  (∀ σ', max (sleepers σ) ≤ zlen sl → Q (Halt Panic) σ') →
  wp (clock_loop n spl) Q σ.
Proof.
  intros HQ HW HP. unfold clock_loop. rewrite Z.gtb_ltb. destruct (Z.ltb_spec 0 n).
  - apply push_sleep_spec; auto.
  - wp_step. apply wp_splx. wp_step. by apply HQ.
Qed.
End primitives.

(** ** Calls of the client *)

(** Everything but the lists. *)
Record same_rest (σ σ' : kstate) : Prop := {
  sr_stack : stack σ' = stack σ;
  sr_cur : curthread σ' = curthread σ;
  sr_threads : threads σ' = threads σ;
  sr_int : in_interrupt σ' = in_interrupt σ;
  sr_vm : vm σ' = vm σ;
  sr_num : numthreads σ' = numthreads σ;
  sr_spl : curspl σ' = curspl σ;
  sr_status : status σ' = status σ;
  sr_sems : sems σ' = sems σ;
  sr_locks : locks σ' = locks σ;
}.

Lemma relisted_same σ σ' rq sl zs : relisted σ σ' rq sl zs → same_rest σ σ'.
Proof. intros [E _ _ _]. split; by rewrite E. Qed.

Lemma same_flag σ σ' : same_rest σ σ' → flag_ok σ → flag_ok σ'.
Proof. intros [] []. split; congruence. Qed.

(** The state a call hands back to the client, before the lists. *)
Record client_same (σ σ' : kstate) : Prop := {
  cs_stack : stack σ' = stack σ;
  cs_cur : curthread σ' = curthread σ;
  cs_threads : threads σ' = threads σ;
  cs_int : in_interrupt σ' = in_interrupt σ;
  cs_vm : vm σ' = vm σ;
  cs_num : numthreads σ' = numthreads σ;
  cs_flag : flag_ok σ';
}.

Section client.
Context (σ : kstate) (rq sl zs : list tid) (t : tid) (k : list frame).
Context (Hwf : wf σ rq sl zs) (Hk : stack σ = KUser :: k) (Hcur : curthread σ = Some t).

Lemma client_ctl : ctl σ t zs.
Proof. destruct Hwf as [_ _ [t' Hc]]. by rewrite <- (owned_by_cur _ _ t' Hcur (ct_owner _ _ _ Hc)). Qed.

Lemma client_int : in_interrupt σ = 0.
Proof.
  pose proof client_ctl as []. rewrite ct_int0, Hk. apply user_stack. by rewrite <- Hk.
Qed.

Lemma client_undead : KDead ∉ stack σ.
Proof.
  apply (ct_dead _ _ _ client_ctl). pose proof (cur_not_asleep _ _ _ _ _ (wf_place _ _ _ _ Hwf) Hcur).
  set_solver.
Qed.

Lemma client_thread : ∃ th, threads σ !! t = Some th ∧ magic th.
Proof. pose proof client_ctl as []. destruct ct_known0 as [th Hth]. eauto. Qed.

Lemma good_stay es σb σ' rq' sl' :
  relisted σb σ' rq' sl' zs → client_same σ σb → rq' ++ sl' ≡ₚ rq ++ sl →
  sync_ok σ' sl' → effect σ σ' es rq rq' → good σ rq es σ'.
Proof.
  intros Hrl [] Hp Hsy Hef. pose proof (relisted_same _ _ _ _ _ Hrl) as Hsr. destruct (Hsr).
  exists rq', sl', zs. split; [split; [|done|exists t]|done].
  - apply (place_same σ σ' rq sl zs rq' sl'); [apply Hwf|apply Hrl| |congruence|].
    + unfold running. rewrite sr_cur0, cs_cur0. by rewrite Hp.
    + intros t'. by rewrite sr_threads0, cs_threads0.
  - apply (ctl_user σ σ' t k); [apply client_ctl|done|congruence..|]. by eapply same_flag.
Qed.

Lemma same_id : client_same σ σ.
Proof. split; try done. apply client_ctl. Qed.

Lemma same_sems m : client_same σ (set_sems m σ).
Proof. split; try done. destruct (ct_flag _ _ _ client_ctl). by split. Qed.
Lemma same_locks m : client_same σ (set_locks m σ).
Proof. split; try done. destruct (ct_flag _ _ _ client_ctl). by split. Qed.

Lemma effect_quiet es σ' rq' :
  (∃ enq, rq' = rq ++ enq) → dispatched es = [] → (∀ s, deltas s es = 0) →
  sems σ' = sems σ → locks σ' = locks σ → (∀ t l, ¬ acquires t l es) → effect σ σ' es rq rq'.
Proof.
  intros [enq ->] Hd Hde Hs Hl Hacq. split.
  - exists enq. by rewrite Hd.
  - intros s n Hn. by rewrite Hs, Hde, Z.add_0_r.
  - intros l t' Hl'. left. by rewrite Hl.
  - intros l t' Ha. by destruct (Hacq t' l).
Qed.

Lemma wake_perm a :
  (rq ++ filter (sleeps_on (threads σ) a) sl) ++ filter (λ t, ¬ sleeps_on (threads σ) a t) sl ≡ₚ rq ++ sl.
Proof. by rewrite <- (assoc_L (++)), filter_app_complement. Qed.
End client.

(** No event of the list acquires a lock. *)
Ltac no_acquire :=
  let cv := fresh in let H := fresh in
  intros [H|[cv H]]; unfold call_events in H; cbn in H;
  repeat (apply elem_of_cons in H as [H|H]; [discriminate H|]); by apply elem_of_nil in H.

(** The lock that is acquired when a call returns. *)
Definition call_lock (c : call) : option addr :=
  match c with CAcquire l | CWait _ l => Some l | _ => None end.

Lemma acquire_event t t' l l' c es :
  acquires t' l' es → (∀ e, e ∈ es → e = ECall t c ∨ e = EReturn t c) → call_lock c = Some l →
  t' = t ∧ l' = l.
Proof. intros [H|[cv H]] Hes Hc; apply Hes in H as [?|?]; simplify_eq/=; done. Qed.

Lemma call_events_in t c w e : e ∈ call_events t c w → e = ECall t c ∨ e = EReturn t c.
Proof.
  unfold call_events. destruct w; rewrite ?elem_of_cons, ?elem_of_nil; naive_solver.
Qed.

Section client_calls.
Context (vop_reclaim : addr → M (gmap addr vnode) unit).
Context (σ : kstate) (rq sl zs : list tid) (t : tid) (k : list frame).
Context (Hwf : wf σ rq sl zs) (Hk : stack σ = KUser :: k) (Hcur : curthread σ = Some t).

Abbreviation goodw c r σ' :=
  (match r with Ret w => good σ rq (call_events t c w) σ' | Fail _ => False | Halt _ => True end).

Lemma call_V s : wp (run_call vop_reclaim (CV s)) (λ r σ', goodw (CV s) r σ') σ.
Proof.
  destruct (Hwf) as [Hpl Hsy _]. pose proof (client_ctl _ _ _ _ _ Hwf Hcur) as Hctl.
  cbn [run_call]. unfold returned. wp_step. destruct (sems σ !! s) as [n|] eqn:Hs.
  2: { unfold V, get_sem. wp_step. apply wp_splhigh. do 3 wp_step. cbn. rewrite Hs. done. }
  pose proof (sy_count _ _ Hsy s n Hs) as Hn.
  eapply (V_spec σ rq sl zs); [apply Hpl|by eapply few_running|by eapply known_sl|apply Hctl|done|done| |done].
  intros σ' Hmax Hrl. wp_step. pose proof (relisted_same _ _ _ _ _ Hrl) as []. cbn in *.
  eapply (good_stay σ rq sl zs t k); [done..|by eapply same_sems|apply wake_perm| |].
  - eapply (sync_ok_wake σ); [done|done| | | |].
    + intros b Hb. rewrite sr_sems0, sr_locks0, lookup_insert_ne by done. done.
    + intros _. by eexists.
    + by rewrite sr_locks0.
    + intros n'. rewrite sr_sems0, lookup_insert_eq. intros [= <-]. lia.
  - split.
    + eexists. done.
    + intros s' n' Hs'. rewrite sr_sems0. simpl. unfold delta. destruct (decide (s = s')) as [<-|Hne].
      * rewrite lookup_insert_eq. f_equal. simplify_eq. lia.
      * rewrite lookup_insert_ne by done. rewrite Hs'. f_equal. lia.
    + intros l t' Hl. left. by rewrite sr_locks0.
    + intros l t'. no_acquire.
Qed.

(** Removing sleepers from the list. *)
Lemma good_woken es σ' rq' sl' :
  relisted σ σ' rq' sl' zs → rq' ++ sl' ≡ₚ rq ++ sl → sl' ⊆ sl → (∃ enq, rq' = rq ++ enq) →
  dispatched es = [] → (∀ s, deltas s es = 0) → (∀ t l, ¬ acquires t l es) → good σ rq es σ'.
Proof.
  intros Hrl Hp Hsub Henq Hd Hde Hacq. pose proof (relisted_same _ _ _ _ _ Hrl) as [].
  eapply (good_stay σ rq sl zs t k); [done..|by eapply same_id|done| |by apply effect_quiet].
  apply (sync_ok_sub σ _ sl); [apply Hwf|done|done|done|]. intros. by rewrite sr_threads0.
Qed.

Lemma call_broadcast cv l : wp (run_call vop_reclaim (CBroadcast cv l)) (λ r σ', goodw (CBroadcast cv l) r σ') σ.
Proof.
  destruct (Hwf) as [Hpl _ _]. pose proof (client_ctl _ _ _ _ _ Hwf Hcur) as Hctl.
  cbn [run_call]. unfold returned. wp_step.
  eapply (cv_broadcast_spec σ rq sl zs); [apply Hpl|by eapply few_running|by eapply known_sl|apply Hctl| |done].
  intros σ' Hrl. wp_step.
  eapply good_woken; [done|apply wake_perm|intros ? []%list_elem_of_filter; done|by eexists|done|done|].
  intros t' l'. no_acquire.
Qed.

Lemma call_signal cv l : wp (run_call vop_reclaim (CSignal cv l)) (λ r σ', goodw (CSignal cv l) r σ') σ.
Proof.
  destruct (Hwf) as [Hpl _ _]. pose proof (client_ctl _ _ _ _ _ Hwf Hcur) as Hctl.
  cbn [run_call]. unfold returned. wp_step.
  eapply (cv_signal_spec σ rq sl zs); [apply Hpl|by eapply few_running|by eapply known_sl|apply Hctl| | |done].
  - intros l1 t' l2 σ' Heq _ _ Hrl. wp_step.
    eapply good_woken; [done| |rewrite Heq; set_solver|by eexists|done|done|intros ? ?; no_acquire].
    rewrite Heq, <- (assoc_L (++)). simpl. by rewrite Permutation_middle.
  - intros _. wp_step.
    eapply good_woken; [apply relisted_refl, Hpl|done|done|exists []; by rewrite app_nil_r|done|done|].
    intros ? ?; no_acquire.
Qed.

Lemma call_splx c n :
  0 ≤ n → (∀ s, deltas s (call_events t c Returned) = 0) → call_lock c = None →
  wp (returned (_ ← splx n; mret ())) (λ r σ', goodw c r σ') σ.
Proof.
  intros Hn Hde Hc. destruct (Hwf) as [Hpl _ _]. unfold returned. do 2 wp_step.
  apply wp_splx. do 2 wp_step.
  eapply (good_stay σ rq sl zs t k); [done..|apply relisted_refl; apply (lists_lift (at_spl n)); [apply kl_at_spl|apply Hpl]| |done| |].
  - split; try done. by apply at_spl_flag_ok.
  - apply (sync_ok_sub σ _ sl); [apply Hwf|done..].
  - apply effect_quiet; [exists []; by rewrite app_nil_r|done..|]. intros t' l [H|[cv H]];
      apply call_events_in in H as [?|?]; by simplify_eq/=.
Qed.

Lemma call_release l : wp (run_call vop_reclaim (CRelease l)) (λ r σ', goodw (CRelease l) r σ') σ.
Proof.
  destruct (Hwf) as [Hpl Hsy _]. pose proof (client_ctl _ _ _ _ _ Hwf Hcur) as Hctl.
  cbn [run_call]. unfold returned. wp_step.
  destruct (decide (locks σ !! l = Some (Some t))) as [Hl|Hl].
  2: { unfold lock_release, lock_do_i_hold, get_holder. wp_step. apply wp_splhigh. wp_step. wp_step.
       apply wp_splhigh. do 3 wp_step. apply wp_deref_any; [|done]. intros h Hh. do 3 wp_step.
       apply wp_splx. wp_step. cbn in *. rewrite Hcur, bool_decide_false by congruence. done. }
  eapply (lock_release_spec σ rq sl zs); [apply Hpl|by eapply few_running|by eapply known_sl|apply Hctl|done|done| |done].
  intros σ' Hrl. wp_step. pose proof (relisted_same _ _ _ _ _ Hrl) as []. cbn in *.
  eapply (good_stay σ rq sl zs t k); [done..|by eapply same_locks|apply wake_perm| |].
  - eapply (sync_ok_wake σ); [done|done| | | |].
    + intros b Hb. rewrite sr_sems0, sr_locks0, lookup_insert_ne by done. done.
    + by rewrite sr_sems0.
    + by intros _.
    + rewrite sr_sems0. apply Hsy.
  - split.
    + by eexists.
    + intros s n Hs. rewrite sr_sems0, Hs. f_equal. simpl. lia.
    + intros l' t' Hl'. rewrite sr_locks0. destruct (decide (l = l')) as [<-|Hne].
      * right. assert (t' = t) as -> by congruence. left. by left.
      * left. by rewrite lookup_insert_ne.
    + intros l' t'. no_acquire.
Qed.
End client_calls.

(** ** Putting a thread aside *)

Definition can_sleep (f : frame) : Prop :=
  match f with KP _ _ | KLock _ _ | KCv _ _ _ | KClock _ _ => True | _ => False end.

(** What the code that gives up the processor has established. *)
Record giving_up (σ : kstate) (t : tid) (th : thread) (zs : list tid) : Prop := {
  gu_cur : curthread σ = Some t;
  gu_thread : threads σ !! t = Some th;
  gu_threads : threads_ok (threads σ) t zs;
  gu_dead : KDead ∉ stack σ;
  gu_spl : 0 < curspl σ;
  gu_flag : flag_ok σ;
  gu_stack : stack_ok (stack σ);
  gu_sched : no_sched (stack σ);
  gu_int : in_interrupt σ = in_trap (stack σ);
  gu_tlb : zlen (tlb (vm σ)) = NUM_TLB;
}.

Lemma flag_high σ st : curspl σ = SPL_HIGH → status σ = spl_status SPL_HIGH st → flag_ok σ.
Proof. intros Hs Hst. split; rewrite Hs, ?Hst; [done|]. by apply spl_status_flag. Qed.

Lemma wf_slept σb rq sl zs t th a f k σ' :
  place σb rq sl zs → sync_ok σb sl → giving_up σb t th zs → stack σb = f :: k → can_sleep f →
  (∀ n, sems σb !! a = Some n → n ≤ 0) → locks σb !! a ≠ Some None →
  relisted (slept t a th σb) σ' rq (sl ++ [t]) zs → wf σ' rq (sl ++ [t]) zs.
Proof.
  intros Hpl Hsy [] Hk Hcs Hsem Hlock Hrl. pose proof (relisted_same _ _ _ _ _ Hrl) as Hsr.
  destruct (Hsr). cbn in *. rewrite Hk in *.
  split; [|apply (sync_ok_sleep σb _ sl t a)|exists t].
  - apply (place_same σb σ' rq sl zs); [done|apply Hrl| |done|].
    + rewrite (running_cur _ _ gu_cur0), (running_none _ sr_cur0).
      simpl. rewrite (assoc_L (++)). by rewrite Permutation_app_comm.
    + intros t'. rewrite sr_threads0, lookup_insert_is_Some'. split; [|by right].
      intros [<-|?]; [by eexists|done].
  - done.
  - done.
  - done.
  - pose proof (cur_not_asleep _ _ _ _ _ Hpl gu_cur0). set_solver.
  - intros t' Hne. by rewrite sr_threads0, lookup_insert_ne.
  - rewrite sr_threads0. eexists. by rewrite lookup_insert_eq.
  - done.
  - done.
  - apply (ctl_sched σ' t (KSleep :: f :: k)).
    + done.
    + split; [done|]. split; [by destruct f|done].
    + by constructor.
    + done.
    + by rewrite sr_spl0.
    + destruct gu_flag0. split; congruence.
    + by rewrite sr_int0, in_trap_cons.
    + by rewrite sr_vm0.
    + rewrite sr_threads0. apply threads_ok_update; [done|].
      exact (to_magic _ _ _ gu_threads0 t th gu_thread0).
    + intros _. set_solver.
Qed.

Lemma wf_yielded σ rq sl zs t th σ' :
  place σ rq sl zs → sync_ok σ sl → curthread σ = Some t → threads σ !! t = Some th → threads_ok (threads σ) t zs → KDead ∉ stack σ →
  stack_ok (KYield (curspl σ) :: stack σ) → no_sched (stack σ) → in_interrupt σ = in_trap (stack σ) →
  zlen (tlb (vm σ)) = NUM_TLB →
  relisted (yielded t (curspl σ) σ) σ' (rq ++ [t]) sl zs → wf σ' (rq ++ [t]) sl zs.
Proof.
  intros Hpl Hsy Hcur Hth Hths Hdead Hok Hns Hint Htlb Hrl. pose proof (relisted_same _ _ _ _ _ Hrl) as Hsr.
  destruct (Hsr). cbn in *.
  split; [|apply (sync_ok_sub σ _ sl)|exists t].
  - apply (place_same σ σ' rq sl zs); [done|apply Hrl| |done|].
    + rewrite (running_cur _ _ Hcur), (running_none _ sr_cur0).
      simpl. rewrite <- (assoc_L (++)). simpl. by rewrite Permutation_middle.
    + intros t'. by rewrite sr_threads0.
  - done.
  - done.
  - done.
  - done.
  - intros. by rewrite sr_threads0.
  - apply (ctl_sched σ' t (KYield (curspl σ) :: stack σ)).
    + done.
    + done.
    + by constructor.
    + done.
    + by rewrite sr_spl0.
    + by apply (flag_high _ (status σ)).
    + by rewrite sr_int0, in_trap_cons.
    + by rewrite sr_vm0.
    + by rewrite sr_threads0.
    + intros _. set_solver.
Qed.

Lemma flag_stack k σ : flag_ok σ → flag_ok (set_stack k σ).
Proof. intros []. by split. Qed.

Section blocking_calls.
Context (vop_reclaim : addr → M (gmap addr vnode) unit).
Context (σ : kstate) (rq sl zs : list tid) (t : tid) (k : list frame).
Context (Hwf : wf σ rq sl zs) (Hk : stack σ = KUser :: k) (Hcur : curthread σ = Some t).

Abbreviation goodw c r σ' :=
  (match r with Ret w => good σ rq (call_events t c w) σ' | Fail _ => False | Halt _ => True end).

(** A client that is about to sleep at [splhigh] in the call of frame [f]. *)
Lemma client_giving_up th f :
  threads σ !! t = Some th → frame_on f (stack σ) → can_sleep f →
  giving_up (set_stack (f :: stack σ) (at_spl SPL_HIGH σ)) t th zs.
Proof.
  intros Hth Hon Hcs. pose proof (client_ctl _ _ _ _ _ Hwf Hcur) as Hctl. destruct (Hctl).
  assert (is_trap f = false ∧ no_sched [f] ∧ f ≠ KDead) as (Htr & Hns & Hnd)
    by (destruct f; try done; split_and!; by repeat constructor).
  rewrite Hk in *. destruct (user_stack k ct_stack0) as (_ & Hin & Hno).
  split; try done.
  - pose proof (client_undead _ _ _ _ _ _ Hwf Hk Hcur) as Hun. rewrite Hk in Hun. cbn. set_solver.
  - by apply flag_stack, at_spl_flag_ok.
  - inversion Hns. by constructor.
  - cbn. by rewrite in_trap_cons, ct_int0.
Qed.

Lemma client_place f : place (set_stack f (at_spl SPL_HIGH σ)) rq sl zs.
Proof.
  destruct Hwf as [Hpl _ _]. apply (place_same σ _ rq sl zs); [done| |done..].
  by apply (lists_lift (set_stack _)), (lists_lift (at_spl _)), Hpl; auto with os.
Qed.

Lemma client_sync f : sync_ok (set_stack f (at_spl SPL_HIGH σ)) sl.
Proof. destruct Hwf as [_ Hsy _]. by apply (sync_ok_sub σ _ sl). Qed.

(** The client sleeps on [a]. *)
Lemma good_slept c th a f σ' :
  threads σ !! t = Some th → frame_on f (stack σ) → can_sleep f →
  (∀ n, sems σ !! a = Some n → n ≤ 0) → locks σ !! a ≠ Some None →
  (∀ s, deltas s [ECall t c] = 0) →
  relisted (slept t a th (set_stack (f :: stack σ) (at_spl SPL_HIGH σ))) σ' rq (sl ++ [t]) zs →
  good σ rq (call_events t c Waiting) σ'.
Proof.
  intros Hth Hon Hcs Hsem Hlock Hde Hrl. exists rq, (sl ++ [t]), zs. split.
  - eapply (wf_slept _ rq sl zs t th a f (stack σ));
      [apply client_place|apply client_sync|by apply client_giving_up|done..].
  - pose proof (relisted_same _ _ _ _ _ Hrl) as []. cbn in *.
    apply effect_quiet; [exists []; by rewrite app_nil_r|done|done|done|done|]. intros ? ?; no_acquire.
Qed.

Lemma call_P s : wp (run_call vop_reclaim (CP s)) (λ r σ', goodw (CP s) r σ') σ.
Proof.
  destruct (Hwf) as [Hpl Hsy _]. pose proof (client_ctl _ _ _ _ _ Hwf Hcur) as Hctl.
  destruct (client_thread _ _ _ _ _ Hwf Hcur) as (th & Hth & Hmag).
  pose proof (client_int _ _ _ _ _ _ Hwf Hk Hcur) as Hint.
  cbn [run_call]. unfold P. wp_step. apply wp_assert_state; [by apply Z.eqb_eq|]. wp_step.
  apply wp_splhigh. destruct (sems σ !! s) as [n|] eqn:Hs.
  2: { unfold P_loop, get_sem. do 3 wp_step. cbn. rewrite Hs. done. }
  pose proof (sy_count _ _ Hsy s n Hs) as Hn.
  eapply (P_loop_spec _ rq sl zs) with (t := t);
    [apply lists_high; apply Hpl|by eapply few_running|done..|lia| | |done].
  - intros Hpos. change (at_spl ?n (set_sems ?m (at_spl ?n' σ))) with (set_sems m (at_spl n (at_spl n' σ))).
    rewrite at_spl_restore by (done || apply Hctl). cbn [sems at_spl set_curspl set_status].
    eapply (good_stay σ rq sl zs t k); [done..| |by eapply same_sems|done| |].
    + apply relisted_refl, (lists_lift (set_sems _)); [apply kl_sems|apply Hpl].
    + by apply (sync_ok_sem σ _ sl s n (n - 1)); [done..|lia| | |].
    + split; cbn.
      * exists []. by rewrite app_nil_r.
      * intros s' n' Hs'. unfold delta. destruct (decide (s = s')) as [<-|Hne].
        -- rewrite lookup_insert_eq. f_equal. simplify_eq. lia.
        -- rewrite lookup_insert_ne by done. rewrite Hs'. f_equal. lia.
      * intros l t' Hl. by left.
      * intros l t'. no_acquire.
  - intros σ' -> Hrl. apply (good_slept (CP s) th s (KP s (curspl σ))); try done.
    + rewrite Hk. apply Hctl.
    + intros n. rewrite Hs. intros [= <-]. done.
    + rewrite (sy_apart _ _ Hsy); [done|]. by eexists.
Qed.

Lemma call_clocksleep n : wp (run_call vop_reclaim (CClocksleep n)) (λ r σ', goodw (CClocksleep n) r σ') σ.
Proof.
  destruct (Hwf) as [Hpl Hsy _]. pose proof (client_ctl _ _ _ _ _ Hwf Hcur) as Hctl.
  destruct (client_thread _ _ _ _ _ Hwf Hcur) as (th & Hth & Hmag).
  pose proof (client_int _ _ _ _ _ _ Hwf Hk Hcur) as Hint.
  cbn [run_call]. unfold clocksleep. wp_step. apply wp_splhigh.
  eapply (clock_loop_spec _ rq sl zs) with (t := t);
    [apply lists_high; apply Hpl|by eapply few_running|done..| | |done].
  - intros Hpos. rewrite at_spl_restore by (done || apply Hctl).
    eapply (good_stay σ rq sl zs t k); [done..|apply relisted_refl, Hpl|by eapply same_id|done|done|].
    apply effect_quiet; [exists []; by rewrite app_nil_r|done..|]. intros ? ?; no_acquire.
  - intros σ' Hn Hrl. apply (good_slept (CClocksleep n) th lbolt (KClock n (curspl σ))); try done.
    + rewrite Hk. apply Hctl.
    + by rewrite (proj1 (sy_lbolt _ _ Hsy)).
    + by rewrite (proj2 (sy_lbolt _ _ Hsy)).
Qed.

(** Testing for the holder does not change the state. *)
Lemma lock_do_i_hold_spec l h σ1 Q :
  flag_ok σ1 → locks σ1 !! l = Some h → Q (Ret (bool_decide (h = curthread σ1))) σ1 →
  wp (lock_do_i_hold l) Q σ1.
Proof.
  intros Hf Hl HQ. unfold lock_do_i_hold, get_holder. wp_step. apply wp_splhigh. do 3 wp_step.
  eapply wp_deref; [done|]. do 3 wp_step. apply wp_splx. rewrite at_spl_restore by done. by wp_step.
Qed.

Lemma call_acquire l : wp (run_call vop_reclaim (CAcquire l)) (λ r σ', goodw (CAcquire l) r σ') σ.
Proof.
  destruct (Hwf) as [Hpl Hsy _]. pose proof (client_ctl _ _ _ _ _ Hwf Hcur) as Hctl.
  destruct (client_thread _ _ _ _ _ Hwf Hcur) as (th & Hth & Hmag).
  pose proof (client_int _ _ _ _ _ _ Hwf Hk Hcur) as Hint.
  cbn [run_call]. unfold lock_acquire. wp_step. apply wp_splhigh. wp_step.
  destruct (locks σ !! l) as [h|] eqn:Hl.
  2: { unfold lock_do_i_hold, get_holder. wp_step. apply wp_splhigh. do 3 wp_step. cbn. by rewrite Hl. }
  eapply lock_do_i_hold_spec; [by apply at_spl_flag_ok|done|]. cbn. rewrite Hcur.
  case_bool_decide as Hh; [done|].
  eapply (lock_loop_spec _ rq sl zs) with (t := t);
    [apply lists_high; apply Hpl|by eapply few_running|done..| | |done].
  - intros ->. change (at_spl ?n (set_locks ?m (at_spl ?n' σ))) with (set_locks m (at_spl n (at_spl n' σ))).
    rewrite at_spl_restore by (done || apply Hctl). cbn [locks at_spl set_curspl set_status].
    eapply (good_stay σ rq sl zs t k); [done..| |by eapply same_locks|done| |].
    + apply relisted_refl, (lists_lift (set_locks _)); [apply kl_locks|apply Hpl].
    + by eapply (sync_ok_lock σ _ sl l).
    + split; cbn.
      * exists []. by rewrite app_nil_r.
      * intros s' n' Hs'. by rewrite Hs', Z.add_0_r.
      * intros l' t' Hl'. left. rewrite lookup_insert_ne; [done|congruence].
      * intros l' t' Ha. destruct (acquire_event t t' l l' (CAcquire l) _ Ha) as [-> ->]; [|done|].
        { apply call_events_in. }
        apply lookup_insert_eq.
  - intros σ' Hne Hrl. apply (good_slept (CAcquire l) th l (KLock l (curspl σ))); try done.
    + rewrite Hk. apply Hctl.
    + intros n Hn. pose proof (sy_apart _ _ Hsy l) as Hap. rewrite Hn, Hl in Hap.
      discriminate Hap. by eexists.
    + rewrite Hl. congruence.
Qed.

Lemma call_wait cv l :
  call_ok σ (CWait cv l) → wp (run_call vop_reclaim (CWait cv l)) (λ r σ', goodw (CWait cv l) r σ') σ.
Proof.
  intros [Hcs Hcl]. destruct (Hwf) as [Hpl Hsy _]. pose proof (client_ctl _ _ _ _ _ Hwf Hcur) as Hctl.
  destruct (client_thread _ _ _ _ _ Hwf Hcur) as (th & Hth & Hmag).
  pose proof (client_int _ _ _ _ _ _ Hwf Hk Hcur) as Hint.
  cbn [run_call]. unfold cv_wait. wp_step. apply wp_splhigh. wp_step.
  destruct (decide (locks σ !! l = Some (Some t))) as [Hl|Hl].
  2: { unfold lock_release, lock_do_i_hold, get_holder. wp_step. apply wp_splhigh. wp_step. wp_step.
       apply wp_splhigh. do 3 wp_step. apply wp_deref_any; [|done]. intros h Hh. do 3 wp_step.
       apply wp_splx. wp_step. cbn in *. rewrite Hcur, bool_decide_false by congruence. done. }
  eapply (lock_release_spec _ rq sl zs);
    [apply lists_high; apply Hpl|by eapply few_running|exact (known_sl _ _ _ _ Hpl)|by apply at_spl_flag_ok|done|done| |done].
  intros σ1 Hrl. cbn in Hrl. pose proof (relisted_same _ _ _ _ _ Hrl) as []. cbn in *.
  set (rq1 := rq ++ _) in *. set (sl1 := filter (λ t, ¬ _) sl) in *.
  assert (place σ1 rq1 sl1 zs) as Hpl1.
  { apply (place_same σ _ rq sl); [done|apply Hrl| |done|by rewrite sr_threads0].
    rewrite (running_cur _ _ Hcur), (running_cur _ t) by congruence. apply Permutation_app_head, wake_perm. }
  assert (sync_ok σ1 sl1) as Hsy1.
  { eapply (sync_ok_wake σ); [done|done| | | |].
    - intros b Hb. rewrite sr_sems0, sr_locks0, lookup_insert_ne by done. done.
    - by rewrite sr_sems0.
    - by intros _.
    - rewrite sr_sems0. apply Hsy. }
  eapply (push_sleep_spec σ1 rq1 sl1 zs) with (t := t);
    [apply Hrl|by eapply few_running|congruence|by rewrite sr_threads0|done|by rewrite sr_int0|by rewrite sr_spl0| |done].
  intros σ' Hrl'. exists rq1, (sl1 ++ [t]), zs. split.
  - eapply (wf_slept (set_stack (KCv cv l (curspl σ) :: stack σ1) σ1) rq1 sl1 zs t th cv); [| | |done|done| | |done].
    + by apply (place_same σ1 _ rq1 sl1); [|apply (lists_lift (set_stack _)); [apply kl_stack|apply Hrl]|..].
    + by apply (sync_ok_sub σ1 _ sl1).
    + destruct (client_giving_up th (KCv cv l (curspl σ))) as []; [done| |done|].
      { rewrite Hk. apply Hctl. }
      cbn in *. split; cbn; rewrite ?sr_threads0, ?sr_spl0, ?sr_int0, ?sr_vm0, ?sr_stack0; try congruence.
      apply flag_stack. by apply (flag_high _ (status σ)).
    + cbn. rewrite sr_sems0, Hcs. done.
    + cbn. rewrite sr_locks0. destruct (decide (l = cv)) as [->|]; [congruence|].
      by rewrite lookup_insert_ne, Hcl.
  - pose proof (relisted_same _ _ _ _ _ Hrl') as []. cbn in *. split.
    + eexists. done.
    + intros s n Hs. rewrite sr_sems1, sr_sems0, Hs. f_equal. simpl. lia.
    + intros l' t' Hl'. rewrite sr_locks1, sr_locks0. destruct (decide (l = l')) as [<-|Hne].
      * right. assert (t' = t) as -> by congruence. right. exists cv. by left.
      * left. by rewrite lookup_insert_ne.
    + intros l' t'. no_acquire.
Qed.
End blocking_calls.

(** ** Exit *)

(** The state in [thread_exit] before the switch: the thread has given back its
    address space and its directory. *)
Record exiting (σ : kstate) (t : tid) (σ1 : kstate) : Prop := {
  ex_same : same_rest (at_spl SPL_HIGH (set_threads (threads σ1) (set_vm (vm σ1) σ))) σ1;
  ex_runqueue : runqueue σ1 = runqueue σ;
  ex_sleepers : sleepers σ1 = sleepers σ;
  ex_zombies : zombies σ1 = zombies σ;
  ex_tlb : tlb (vm σ1) = tlb (vm σ);
  ex_threads : ∃ th, threads σ1 = <[t := th]> (threads σ) ∧ magic th;
}.

Definition no_fail {A St} (r : result A) (_ : St) : Prop := match r with Fail _ => False | _ => True end.

Lemma vnode_decref_no_fail v m s : wp (vnode_decref (on_vnode v) m) no_fail s.
Proof.
  assert (∀ A (p : M vnode A) s', (∀ vn, no_fail (p vn).1 ()) → wp (on_vnode v A p) no_fail s') as Hon.
  { intros A p s' Hp. unfold wp, on_vnode. destruct (s' !! v) as [vn|]; [|done].
    specialize (Hp vn). by destruct (p vn) as [[]]. }
  assert (∀ b (vn : vnode), no_fail (vnode_check b vn).1 ()) as Hck.
  { intros b vn. change (wp (vnode_check b) (λ r _, no_fail r ()) vn). unfold vnode_check. do 2 wp_step.
    repeat (wp_step; apply wp_assert_any; [intros _|done]). by apply wp_assert_any. }
  unfold vnode_decref. wp_step.
  eapply wp_mono; [apply Hon|]; cbn.
  - intros vn. unfold vnode_decref_count, assert, get, put, mbind, M_bind. cbn.
    destruct (vn_refcount vn >? 0); cbn; [|done]. by destruct (vn_refcount vn >? 1).
  - intros [[]|e|] s' H; [|by wp_step|done|done]. wp_step. eapply wp_mono; [by apply Hon|].
    intros [] s'' H'; [|done|done]. wp_step. wp_step. unfold wp. by destruct (m s'') as [[]].
Qed.

Lemma pid_sethasexited_spec p σ Q :
  (∀ r, Q (Ret r) σ) → (∀ k σ', Q (Halt k) σ') → wp (pid_sethasexited p) Q σ.
Proof.
  intros HQ HH. unfold pid_sethasexited, findpidindex. do 2 wp_step. unfold zoom_pids. do 2 wp_step.
  replace (set_pids _ σ) with σ by (by destruct σ as [? ? ? ? ? ? ? ? ? ? ? ? ? ? [] ? ? ?]).
  destruct (0 <? _); [|by do 2 wp_step].
  wp_step. wp_step. unfold array_getguy. do 2 wp_step. wp_step.
  apply wp_assert_any; [intros _|apply HH]. wp_step. apply wp_assert_any; [intros _|apply HH]. wp_step.
  apply wp_deref_any; [intros w _|apply HH]. wp_step. apply wp_deref_any; [intros slot _|apply HH].
  apply wp_deref_any; [intros pi _|]; apply HH.
Qed.

Lemma thread_exit_spec vop_reclaim t th σ rq sl zs (Q : result unit → kstate → Prop) :
  lists σ rq sl zs → few rq sl zs → curthread σ = Some t → threads σ !! t = Some th → magic th →
  (∀ σ1 σ', exiting σ t σ1 →
     relisted (set_stack (KSched t :: KDead :: stack σ) (set_curthread None (set_numthreads (numthreads σ - 1) σ1)))
       σ' rq sl (zs ++ [t]) → Q (Ret ()) σ') →
  (∀ k σ', Q (Halt k) σ') →
  wp (thread_exit vop_reclaim) Q σ.
Proof.
  intros Hls Hfew Hcur Hth Hmag HQ HH. unfold thread_exit. wp_step. eapply wp_cur; [done|]. wp_step.
  eapply wp_get_thread; [done|]. wp_step. unfold check_stack.
  assert (∀ (Q : result unit → kstate → Prop), Q (Ret ()) σ →
    wp (match t_stack th with Some s => assert (magic_ok s) | None => mret () end) Q σ) as Hck.
  { intros Q' HQ'. unfold magic in Hmag. destruct (t_stack th); [by apply wp_assert|by wp_step]. }
  apply Hck. wp_step. apply wp_splhigh. wp_step.
  eapply wp_mono.
  { instantiate (1 := λ r σ1, match r with Ret _ => exiting σ t σ1 | _ => False end).
    destruct (t_vmspace th).
    - wp_step. eapply wp_put_thread; [done|]. unfold as_destroy, zoom_vm. do 2 wp_step.
      split; [by split|done..|]. eexists. by split; [done|].
    - wp_step. split; [by split|done..|]. exists th. by rewrite insert_id. }
  intros [[]|e|] σ1 Hex; [|done|done]. destruct (Hex) as [[] Hq Hs Hz Htlb (th1 & Hth1 & Hmag1)].
  wp_step. eapply wp_get_thread; [rewrite Hth1; apply lookup_insert_eq|]. wp_step.
  eapply wp_mono.
  { instantiate (1 := λ r σ2, match r with Ret _ => exiting σ t σ2 | Fail _ => False | _ => True end).
    destruct (t_cwd th1) as [v|]; [|by wp_step]. wp_step. unfold VOP_DECREF. wp_step.
    eapply wp_mono; [apply vnode_decref_no_fail|]. intros [] s' Hnf; [|done|done].
    eapply wp_put_thread; [cbn; rewrite Hth1; apply lookup_insert_eq|].
    split; [by split|done..|]. cbn. rewrite Hth1, insert_insert_eq. eexists. by split; [done|]. }
  intros [[]|e|] σ2 Hex2; [|done|apply HH]. clear Hex sr_stack0 sr_cur0 sr_threads0 sr_int0 sr_vm0 sr_num0
    sr_spl0 sr_status0 sr_sems0 sr_locks0 Hq Hs Hz Htlb.
  destruct (Hex2) as [[] Hq Hs Hz Htlb (th2 & Hth2 & Hmag2)]. cbn in *.
  wp_step. apply pid_sethasexited_spec; [intros _|done]. wp_step. unfold assert_state. do 2 wp_step.
  apply wp_assert_any; [intros _|apply HH]. unfold push. do 3 wp_step. wp_step.
  eapply (mi_switch_spec rq sl zs S_ZOMB) with (t := t); [|done| | | |done|done| |done].
  - destruct Hls. by split; cbn; rewrite ?Hq, ?Hs, ?Hz.
  - cbn. by rewrite sr_spl0.
  - cbn. by rewrite sr_cur0.
  - cbn. rewrite Hth2. apply lookup_insert_eq.
  - cbn. intros σ' Hrl. rewrite sr_stack0, sr_num0 in Hrl. by apply (HQ σ2).
Qed.

Lemma wf_exited σ rq sl zs t σ1 σ' :
  place σ rq sl zs → sync_ok σ sl → curthread σ = Some t → threads_ok (threads σ) t zs →
  stack_ok (KDead :: stack σ) → no_sched (stack σ) → in_interrupt σ = in_trap (stack σ) →
  zlen (tlb (vm σ)) = NUM_TLB → exiting σ t σ1 →
  relisted (set_stack (KSched t :: KDead :: stack σ) (set_curthread None (set_numthreads (numthreads σ - 1) σ1)))
    σ' rq sl (zs ++ [t]) → wf σ' rq sl (zs ++ [t]).
Proof.
  intros Hpl Hsy Hcur Hths Hok Hns Hint Htlb [[] _ _ _ Htlb' (th & Hth & Hmag)] Hrl.
  pose proof (relisted_same _ _ _ _ _ Hrl) as []. cbn in *.
  assert (∀ t', is_Some (threads σ' !! t') ↔ is_Some (threads σ !! t')) as Hdom.
  { intros t'. rewrite sr_threads1, Hth, lookup_insert_is_Some'. split; [|by right].
    intros [<-|?]; [apply Hths|done]. }
  pose proof (cur_not_asleep _ _ _ _ _ Hpl Hcur) as Hnot.
  split; [|apply (sync_ok_sub σ _ sl)|exists t].
  - destruct Hpl as [Hls Hnd Hd Hnum Hfew]. rewrite (running_cur _ _ Hcur) in *.
    assert (rq ++ sl ++ zs ++ [t] ≡ₚ [t] ++ rq ++ sl ++ zs) as Hp
      by (rewrite !(assoc_L (++)); by rewrite Permutation_app_comm).
    split; rewrite ?(running_none _ sr_cur1); simpl.
    + apply Hrl.
    + by rewrite Hp.
    + intros t'. by rewrite Hdom, Hp.
    + rewrite sr_num1, Hnum. rewrite !zlen_app. unfold zlen at 1. simpl. lia.
    + unfold zlen in *. by rewrite Hp.
  - done.
  - by rewrite sr_sems1, sr_sems0.
  - by rewrite sr_locks1, sr_locks0.
  - done.
  - intros t' Ht'. rewrite sr_threads1, Hth, lookup_insert_ne; [done|]. intros ->. set_solver.
  - apply (ctl_sched σ' t (KDead :: stack σ)).
    + done.
    + done.
    + by constructor.
    + done.
    + by rewrite sr_spl1, sr_spl0.
    + apply (flag_high _ (status σ)); [congruence|by rewrite sr_status1, sr_status0].
    + by rewrite sr_int1, sr_int0, in_trap_cons.
    + by rewrite sr_vm1, Htlb'.
    + rewrite sr_threads1, Hth. apply threads_ok_update; [|done]. by apply threads_ok_dead.
    + set_solver.
Qed.

Section switching_calls.
Context (vop_reclaim : addr → M (gmap addr vnode) unit).
Context (σ : kstate) (rq sl zs : list tid) (t : tid) (k : list frame).
Context (Hwf : wf σ rq sl zs) (Hk : stack σ = KUser :: k) (Hcur : curthread σ = Some t).

Abbreviation goodw c r σ' :=
  (match r with Ret w => good σ rq (call_events t c w) σ' | Fail _ => False | Halt _ => True end).

Lemma call_exit : wp (run_call vop_reclaim CExit) (λ r σ', goodw CExit r σ') σ.
Proof.
  destruct (Hwf) as [Hpl Hsy _]. pose proof (client_ctl _ _ _ _ _ Hwf Hcur) as Hctl.
  destruct (client_thread _ _ _ _ _ Hwf Hcur) as (th & Hth & Hmag). destruct (Hctl).
  cbn [run_call]. unfold waiting. wp_step.
  eapply (thread_exit_spec _ t th σ rq sl zs); [apply Hpl|by eapply few_running|done..| |done].
  intros σ1 σ' Hex Hrl. wp_step. exists rq, sl, (zs ++ [t]). rewrite Hk in *. split.
  - eapply (wf_exited σ rq sl zs t σ1); rewrite ?Hk; try done.
    by destruct (user_stack k ct_stack0) as (_ & _ & ?).
  - pose proof (relisted_same _ _ _ _ _ Hrl) as []. destruct Hex as [[] _ _ _ _ _]. cbn in *.
    apply effect_quiet; [exists []; by rewrite app_nil_r|done|done|congruence..|]. intros ? ?; no_acquire.
Qed.

Lemma call_yield : wp (run_call vop_reclaim CYield) (λ r σ', goodw CYield r σ') σ.
Proof.
  destruct (Hwf) as [Hpl Hsy _]. pose proof (client_ctl _ _ _ _ _ Hwf Hcur) as Hctl.
  destruct (client_thread _ _ _ _ _ Hwf Hcur) as (th & Hth & Hmag). destruct (Hctl).
  cbn [run_call]. unfold waiting. wp_step.
  eapply (thread_yield_spec σ rq sl zs); [apply Hpl|by eapply few_running| | |by rewrite Hcur|done].
  { intros t'. rewrite Hcur. intros [= <-]. eauto. }
  intros t' σ'. rewrite Hcur. intros [= <-] Hrl. wp_step. exists (rq ++ [t]), sl, zs. split.
  - eapply (wf_yielded σ rq sl zs t th); rewrite ?Hk in *; try done.
    + rewrite <- Hk. by eapply client_undead.
    + split; [apply Hctl|done].
    + by destruct (user_stack k ct_stack0) as (_ & _ & ?).
  - pose proof (relisted_same _ _ _ _ _ Hrl) as []. cbn in *.
    apply effect_quiet; [by eexists|done|done|done..|]. intros ? ?; no_acquire.
Qed.

(** New objects. *)
Lemma good_created c σb σ' :
  relisted σb σ' rq sl zs → client_same σ σb → sync_ok σ' sl →
  (∀ s n, sems σ !! s = Some n → sems σb !! s = Some n) →
  (∀ l h, locks σ !! l = Some (Some h) → locks σb !! l = Some (Some h)) →
  (∀ s, deltas s (call_events t c Returned) = 0) → call_lock c = None →
  good σ rq (call_events t c Returned) σ'.
Proof.
  intros Hrl Hsame Hsy Hs Hl Hde Hc. pose proof (relisted_same _ _ _ _ _ Hrl) as [].
  eapply (good_stay σ rq sl zs t k); [done..|]. split.
  - exists []. by rewrite app_nil_r.
  - intros s n Hn. rewrite Hde, Z.add_0_r, sr_sems0. by apply Hs.
  - intros l t' Hl'. left. rewrite sr_locks0. by apply Hl.
  - intros l t' [H|[cv H]]; apply call_events_in in H as [?|?]; by simplify_eq/=.
Qed.

(** The state after an allocation. *)
Lemma kmalloc_relisted σb (Q : result (option addr) → kstate → Prop) :
  lists σb rq sl zs → (∀ r σ', relisted σb σ' rq sl zs → (∀ a, r = Some a → next_unused σb → unused σb a) → Q (Ret r) σ') →
  wp kmalloc Q σb.
Proof.
  intros Hls HQ. unfold kmalloc. do 2 wp_step. destruct (allocs σb) as [|r al] eqn:Hal.
  { wp_step. apply HQ; [by apply relisted_refl|done]. }
  do 2 wp_step. wp_step. apply HQ.
  - apply (relisted_allocs _ al), relisted_refl. by destruct Hls.
  - intros a -> Hu. unfold next_unused in Hu. by rewrite Hal in Hu.
Qed.

Lemma good_quiet_create c σ' :
  relisted σ σ' rq sl zs → (∀ s, deltas s (call_events t c Returned) = 0) → call_lock c = None →
  good σ rq (call_events t c Returned) σ'.
Proof.
  intros Hrl Hde Hc. eapply good_created; [exact Hrl|by eapply same_id|..]; [|done..].
  pose proof (relisted_same _ _ _ _ _ Hrl) as []. apply (sync_ok_sub σ _ sl); [apply Hwf|done..|]. intros. by rewrite sr_threads0.
Qed.

(** Two allocations, the second for the name. *)
Lemma create_spec {A} (Q : result A → kstate → Prop) (none : A) (some : addr → M kstate A) :
  (∀ a σ', relisted σ σ' rq sl zs → (next_unused σ → unused σ a) → wp (some a) Q σ') →
  (∀ σ', relisted σ σ' rq sl zs → Q (Ret none) σ') →
  wp (p ← kmalloc;
      match p with
      | None => mret none
      | Some a => name ← kmalloc; match name with None => mret none | Some _ => some a end
      end) Q σ.
Proof.
  intros HQ HN. wp_step. apply (kmalloc_relisted σ); [apply Hwf|]. intros [a|] σ1 Hrl1 Ha; [|wp_step; by apply HN].
  wp_step. apply (kmalloc_relisted σ1); [apply Hrl1|]. intros [b|] σ2 Hrl2 _; pose proof (relisted_trans _ _ _ _ _ _ _ _ _ Hrl1 Hrl2).
  - apply HQ; auto.
  - wp_step. by apply HN.
Qed.

Lemma call_sem_create n :
  0 ≤ n < 2 ^ 31 → next_unused σ → wp (run_call vop_reclaim (CSemCreate n)) (λ r σ', goodw (CSemCreate n) r σ') σ.
Proof.
  intros Hn Hu. cbn [run_call]. unfold returned. wp_step. wp_step. unfold sem_create. apply create_spec.
  2: { intros σ' Hrl. do 2 wp_step. by apply good_quiet_create. }
  intros a σ' Hrl Ha. specialize (Ha Hu). unfold put_sem. do 4 wp_step. pose proof (relisted_same _ _ _ _ _ Hrl) as [].
  rewrite sr_sems0. eapply (good_created _ (set_sems (<[a := n]> (sems σ)) σ)).
  - apply (relisted_lift (set_sems (<[a := n]> (sems σ)))); [apply kl_sems|done].
  - by eapply same_sems.
  - by eapply (sync_ok_new_sem σ _ sl a n); [apply Hwf|..].
  - intros s n' Hs. cbn. rewrite lookup_insert_ne; [done|]. intros ->. destruct Ha as (_ & ? & _). congruence.
  - done.
  - done.
  - done.
Qed.

Lemma call_lock_create :
  next_unused σ → wp (run_call vop_reclaim CLockCreate) (λ r σ', goodw CLockCreate r σ') σ.
Proof.
  intros Hu. cbn [run_call]. unfold returned. wp_step. wp_step. unfold lock_create. apply create_spec.
  2: { intros σ' Hrl. do 2 wp_step. by apply good_quiet_create. }
  intros a σ' Hrl Ha. specialize (Ha Hu). unfold put_holder. do 4 wp_step. pose proof (relisted_same _ _ _ _ _ Hrl) as [].
  rewrite sr_locks0. eapply (good_created _ (set_locks (<[a := None]> (locks σ)) σ)).
  - apply (relisted_lift (set_locks (<[a := None]> (locks σ)))); [apply kl_locks|done].
  - by eapply same_locks.
  - by eapply (sync_ok_new_lock σ _ sl a); [apply Hwf|..].
  - done.
  - intros l h Hl. cbn. rewrite lookup_insert_ne; [done|]. intros ->. destruct Ha as (_ & _ & ? & _). congruence.
  - done.
  - done.
Qed.

Lemma call_cv_create : wp (run_call vop_reclaim CCvCreate) (λ r σ', goodw CCvCreate r σ') σ.
Proof.
  cbn [run_call]. unfold returned. wp_step. wp_step. unfold cv_create. apply create_spec; intros; do 3 try wp_step; by apply good_quiet_create.
Qed.

Local Ltac fork_stops := intros; repeat wp_step; by eexists.

(** [thread_fork] comes back only when there is no memory for the thread. *)
Lemma fork_stops newguy σb :
  wp (c ← cur;
      cth ← get_thread c;
      result ← attempt (pid_create None (t_pid cth) 0);
      match result with
      | inl (Some pid) => th ← get_thread newguy; _ ← put_thread newguy (with_pid pid th); thread_fork_start vop_reclaim newguy
      | inl None | inr _ => undef
      end) (λ r _, ∃ h, r = Halt h) σb.
Proof.
  unfold cur, get_thread. wp_step. do 2 wp_step. apply wp_deref_any; [intros c _|by eexists]. do 3 wp_step.
  apply wp_deref_any; [intros cth _|by eexists]. wp_step. wp_step. unfold pid_create.
  wp_step. apply wp_any; [intros _ σ4|fork_stops|by eexists]. wp_step.
  apply wp_any; [intros [a|] σ5|fork_stops|by eexists]; [|fork_stops].
  wp_step. apply wp_any; [intros cv σ6|fork_stops|by eexists].
  wp_step. apply wp_any; [intros mem σ7|fork_stops|by eexists]. do 2 wp_step. wp_step.
  apply wp_any; [intros [] σ8|fork_stops|by eexists]. fork_stops.
Qed.

Lemma call_fork name : wp (run_call vop_reclaim (CFork name)) (λ r σ', goodw (CFork name) r σ') σ.
Proof.
  cbn [run_call]. unfold returned. wp_step. wp_step. wp_step. unfold thread_fork. wp_step. unfold thread_create. apply create_spec.
  2: { intros σ' Hrl. do 2 wp_step. by apply good_quiet_create. }
  intros a σ' Hrl Ha. do 3 wp_step. eapply wp_mono; [apply fork_stops|]. by intros ? ? [h ->].
Qed.

(** Every call of the client preserves the invariant. *)
Lemma run_call_good c :
  call_ok σ c → wp (run_call vop_reclaim c) (λ r σ', goodw c r σ') σ.
Proof.
  destruct c; intros Hok.
  - by eapply call_P.
  - by eapply call_V.
  - by eapply call_acquire.
  - by eapply call_release.
  - by eapply call_wait.
  - by eapply call_signal.
  - by eapply call_broadcast.
  - by eapply call_clocksleep.
  - apply call_yield.
  - apply call_exit.
  - by eapply (call_splx _ _ _ _ _ _ Hwf Hk Hcur CSplhigh SPL_HIGH).
  - by eapply (call_splx _ _ _ _ _ _ Hwf Hk Hcur (CSplx n) n).
  - destruct Hok. by apply call_sem_create.
  - by apply call_lock_create.
  - apply call_cv_create.
  - apply call_fork.
Qed.
End switching_calls.
