(* ===== verification/KernelStep.v ===== *)
(** * Every step of the kernel preserves the invariant

    The returns of the pending calls and the interrupts; the calls of the client
    are in Kernel.v. *)

From S2P Require Import Prelude Array Queue Vnode Machine Dumbvm Thread Sched Synch Kernel.

(** The fields that an operation on the lists leaves. *)
Ltac rest_of H :=
  pose proof (relisted_same _ _ _ _ _ H) as [Estk Ecur Eths Eint Evm Enum Espl Est Esems Elocks];
  cbn in Estk, Ecur, Eths, Eint, Evm, Enum, Espl, Est, Esems, Elocks.

(** ** When a return may stop the machine *)

(** Room for every thread in the run queue and among the sleepers. *)
Definition room (σ : kstate) : Prop :=
  numthreads σ < size (runqueue σ) ∧ numthreads σ ≤ max (sleepers σ).

(** The object a frame waits for does not exist. *)
Definition missing (σ : kstate) (f : frame) : Prop :=
  match f with
  | KP s _ | KIrq (irq_V s :: _) => sems σ !! s = None
  | KLock l _ | KCv _ l _ => locks σ !! l = None
  | _ => False
  end.

Definition may_halt (σ : kstate) (rq zs : list tid) (f : frame) (h : stop) : Prop :=
  match f with
  | KSched _ => h = Blocked ∧ rq = []
  | KSwitched => zs ≠ []
  | KExit => True
  | _ =>
      h = Undef ∧ missing σ f ∨
      h = Panic ∧ (¬ room σ ∨
        match f with
        | KIrq (irq_V s :: _) => sems σ !! s = Some (2 ^ 31 - 1)
        | KCv _ l _ => ∃ t, curthread σ = Some t ∧ locks σ !! l = Some (Some t)
        | _ => False
        end)
  end.

Lemma room_queue σ rq sl zs : place σ rq sl zs → room σ → queue_room σ rq sl.
Proof.
  intros [_ _ _ Hn _] [Hr _]. unfold queue_room. rewrite Hn, !zlen_app in Hr.
  pose proof (zlen_nonneg (running σ)). lia.
Qed.

Lemma room_sleep σ rq sl zs t : place σ rq sl zs → curthread σ = Some t → room σ → zlen sl < max (sleepers σ).
Proof.
  intros [_ _ _ Hn _] Hc [_ Hr]. rewrite Hn, (running_cur _ _ Hc), !zlen_app in Hr.
  pose proof (zlen_nonneg rq). unfold zlen at 1 in Hr. simpl in Hr. lia.
Qed.

Lemma room_yield σ rq sl zs t : place σ rq sl zs → curthread σ = Some t → room σ → zlen rq + 1 < size (runqueue σ).
Proof.
  intros [_ _ _ Hn _] Hc [Hr _]. rewrite Hn, (running_cur _ _ Hc), !zlen_app in Hr.
  pose proof (zlen_nonneg sl). unfold zlen at 1 in Hr. simpl in Hr. lia.
Qed.

(** The code that runs outside the idle loop belongs to the current thread. *)
Lemma top_running σ t zs f k :
  ctl σ t zs → stack σ = f :: k →
  match f with KSched _ | KTrap _ _ _ | KIrq _ | KYield _ => False | _ => True end →
  curthread σ = Some t.
Proof.
  intros Hctl Hk Hf. pose proof (ct_owner _ _ _ Hctl) as Hown. unfold owned_by in Hown.
  destruct (curthread σ) as [t'|]; [by destruct Hown as [-> _]|].
  destruct Hown as (pre & k0 & E & Hpre & _). rewrite Hk in E.
  destruct pre as [|g pre]; simplify_eq/=; [done|]. by destruct g.
Qed.

Lemma running_no_sched σ t zs : ctl σ t zs → curthread σ = Some t → no_sched (stack σ).
Proof.
  intros Hctl Hc. pose proof (ct_owner _ _ _ Hctl) as Hown. unfold owned_by in Hown. rewrite Hc in Hown.
  apply Hown.
Qed.

(** The current thread runs with another stack. *)
Lemma ctl_running σ t zs :
  curthread σ = Some t → stack_ok (stack σ) → no_sched (stack σ) → in_interrupt σ = in_trap (stack σ) →
  KDead ∉ stack σ → zlen (tlb (vm σ)) = NUM_TLB → flag_ok σ →
  match stack σ with g :: _ => high g = true → 0 < curspl σ | [] => False end →
  threads_ok (threads σ) t zs → relocked σ → ctl σ t zs.
Proof.
  intros Hcur Hok Hns Hint Hd Htlb Hf Hh [] Hre. split; try done.
  unfold owned_by. by rewrite Hcur.
Qed.

Section returns.
Context (σ : kstate) (rq sl zs : list tid) (t : tid) (f : frame) (k : list frame).
Context (Hwf : wf σ rq sl zs) (Hctl : ctl σ t zs) (Hk : stack σ = f :: k).

Abbreviation σp := (set_stack k σ).

Lemma pop_place : place σp rq sl zs.
Proof.
  destruct Hwf as [Hpl _ _]. apply (place_same σ _ rq sl zs); [done| |done..].
  by apply (lists_lift (set_stack _)), Hpl; apply kl_stack.
Qed.

Lemma pop_sync : sync_ok σp sl.
Proof. destruct Hwf as [_ Hsy _]. by apply (sync_ok_sub σ _ sl). Qed.

Lemma pop_ok : stack_ok k ∧ frame_on f k.
Proof. pose proof (ct_stack _ _ _ Hctl) as Hok. rewrite Hk in Hok. by destruct Hok. Qed.

Lemma pop_high : high f = true → 0 < curspl σ.
Proof. pose proof (ct_high _ _ _ Hctl) as Hh. by rewrite Hk in Hh. Qed.

Lemma pop_known : ∃ th, threads σ !! t = Some th ∧ magic th.
Proof. destruct (ct_known _ _ _ Hctl) as [th Hth]. exists th. split; [done|]. by eapply (ct_magic _ _ _ Hctl). Qed.

Lemma pop_flag : flag_ok σp.
Proof. apply flag_stack, Hctl. Qed.

Lemma effect_none es σ' :
  dispatched es = [] → (∀ s, deltas s es = 0) → (∀ t l, ¬ acquires t l es) →
  sems σ' = sems σ → locks σ' = locks σ → effect σ σ' es rq rq.
Proof. intros. apply effect_quiet; try done. exists []. by rewrite app_nil_r. Qed.

Lemma acquires_nil t' l : ¬ acquires t' l [].
Proof. no_acquire. Qed.

(** The call returns: the control changes, perhaps a semaphore or a lock. *)
Lemma good_pop_sync es σ' :
  is_trap f = false → high f = true → (∀ o, f ≠ KSched o) →
  relisted (set_stack k (set_curspl (curspl σ') (set_status (status σ') (set_threads (threads σ')
     (set_sems (sems σ') (set_locks (locks σ') (set_vm (vm σ') σ))))))) σ' rq sl zs →
  zlen (tlb (vm σ')) = NUM_TLB → flag_ok σ' →
  match k with g :: _ => high g = true → 0 < curspl σ' | [] => False end →
  threads_ok (threads σ') t zs → (∀ t', t' ≠ t → threads σ' !! t' = threads σ !! t') →
  relocked σ' → sync_ok σ' sl → effect σ σ' es rq rq → good σ rq es σ'.
Proof.
  intros Htr Hhi Hns Hrl Htlb Hf Hh Hths Hother Hre Hsy Hef. rest_of Hrl.
  exists rq, sl, zs. split; [split; [|done|exists t]|done].
  - destruct Hwf as [Hpl _ _]. apply (place_same σ _ rq sl zs); [done|apply Hrl| |done|].
    + unfold running. by rewrite Ecur.
    + intros t'. destruct (decide (t' = t)) as [->|Hne]; [|by rewrite Hother].
      split; intros _; [apply Hctl|apply Hths].
  - by apply (ctl_pop σ σ' t f k zs).
Qed.

(** The call returns, and nothing but the control changes. *)
Lemma good_pop es σ' :
  is_trap f = false → high f = true → (∀ o, f ≠ KSched o) →
  relisted (set_stack k (set_curspl (curspl σ') (set_status (status σ') (set_threads (threads σ')
     (set_vm (vm σ') σ))))) σ' rq sl zs →
  zlen (tlb (vm σ')) = NUM_TLB → flag_ok σ' →
  match k with g :: _ => high g = true → 0 < curspl σ' | [] => False end →
  threads_ok (threads σ') t zs → (∀ t', t' ≠ t → threads σ' !! t' = threads σ !! t') →
  curthread σ = Some t ∨ threads σ' = threads σ →
  relocked σ' → dispatched es = [] → (∀ s, deltas s es = 0) →
  (∀ l t, acquires t l es → locks σ' !! l = Some (Some t)) → good σ rq es σ'.
Proof.
  intros Htr Hhi Hns Hrl Htlb Hf Hh Hths Hother Hcur Hre Hd Hde Hacq. rest_of Hrl.
  apply good_pop_sync; [done|done|done| |done|done|done|done|done|done| |].
  - destruct Hrl as [E ? ? ?]. split; [|done|done|done]. rewrite Esems, Elocks. rewrite E at 1. by destruct σ.
  - destruct Hwf as [Hpl Hsy _]. apply (sync_ok_sub σ _ sl); [done..|].
    intros t' Ht'. destruct Hcur as [Hcur|Hcur]; [|by rewrite Hcur]. apply Hother. intros ->.
    pose proof (cur_not_asleep _ _ _ _ _ Hpl Hcur). set_solver.
  - split.
    + exists []. by rewrite app_nil_r, Hd.
    + intros s n Hs. by rewrite Esems, Hs, Hde, Z.add_0_r.
    + intros l t' Hl. left. by rewrite Elocks.
    + done.
Qed.
End returns.

(** What a switch leaves alone. *)
Record switch_same (σ σ1 : kstate) : Prop := {
  ss_vm : vm σ1 = vm σ;
  ss_num : numthreads σ1 = numthreads σ;
  ss_spl : curspl σ1 = curspl σ;
  ss_status : status σ1 = status σ;
  ss_sems : sems σ1 = sems σ;
  ss_locks : locks σ1 = locks σ;
  ss_dom : ∀ t, is_Some (threads σ1 !! t) ↔ is_Some (threads σ !! t);
  ss_sleeps : ∀ a t, sleeps_on (threads σ1) a t ↔ sleeps_on (threads σ) a t;
}.

Lemma switched_in_same old nu tho thn σ :
  threads σ !! old = Some tho → switch_same σ (switched_in old nu tho thn σ).
Proof.
  intros Hold. unfold switched_in. destruct (decide (old = nu)); [by split|].
  split; try done; cbn.
  - intros t. rewrite lookup_insert_is_Some'. split; [|by right]. intros [<-|?]; [by eexists|done].
  - intros a t. unfold sleeps_on. destruct (decide (old = t)) as [<-|Hne].
    + rewrite lookup_insert_eq, Hold. split; intros (th & [= <-] & Ha); by eexists.
    + by rewrite lookup_insert_ne.
Qed.

(** Sleepers are the same if their sleep addresses are. *)
Lemma sync_ok_ext σ σ' sl :
  sync_ok σ sl → sems σ' = sems σ → locks σ' = locks σ →
  (∀ a t, sleeps_on (threads σ') a t ↔ sleeps_on (threads σ) a t) → sync_ok σ' sl.
Proof.
  intros [Ha Hc Hs Hl Hap Hb] Es El Hso. split; rewrite ?Es, ?El; auto.
  - intros t Ht. destruct (Ha t Ht) as [a Hat]. exists a. by apply Hso.
  - intros s n t Hn Hpos Ht. rewrite Hso. eauto.
  - intros l t Hn Ht. rewrite Hso. eauto.
Qed.

Section frames.
Context (vop_reclaim : addr → M (gmap addr vnode) unit).
Context (σ : kstate) (rq sl zs : list tid) (t : tid) (k : list frame).
Context (Hwf : wf σ rq sl zs) (Hctl : ctl σ t zs).

Abbreviation goodr f r σ' :=
  (match r with
   | Ret w => good σ rq (return_events σ f k w σ') σ'
   | Fail _ => False
   | Halt h => may_halt σ rq zs f h
   end).
Abbreviation σp := (set_stack k σ).

Lemma lists_here : lists σ rq sl zs.
Proof. apply Hwf. Qed.
Lemma few_here : few rq sl zs.
Proof. eapply few_running, Hwf. Qed.
Lemma lists_pop : lists σp rq sl zs.
Proof. apply (lists_lift (set_stack _)), lists_here. apply kl_stack. Qed.

Lemma frame_yield spl :
  stack σ = KYield spl :: k → wp (run_frame vop_reclaim (KYield spl)) (λ r σ', goodr (KYield spl) r σ') σp.
Proof.
  intros Hk. destruct (pop_ok _ _ _ _ _ Hctl Hk) as [Hok Hon]. cbn [run_frame]. unfold returned.
  do 2 wp_step. apply wp_splx. do 2 wp_step.
  assert (0 ≤ spl) by (destruct k as [|[]]; cbn in Hon; try done; lia).
  eapply (good_pop _ rq sl zs t (KYield spl) k Hwf Hctl Hk); [done|done|done|..].
  - apply relisted_refl, (lists_lift (at_spl _)), lists_pop. apply kl_at_spl.
  - apply Hctl.
  - by apply at_spl_flag_ok.
  - destruct k as [|[]]; cbn in Hon |- *; try done; lia.
  - exact (ctl_threads _ _ _ Hctl).
  - done.
  - by right.
  - unfold relocked. cbn. by destruct k as [|[]].
  - unfold return_events. cbn. by destruct k as [|[]], (curthread σ).
  - intros s. unfold return_events. cbn. by destruct k as [|[]], (curthread σ).
  - intros l t'. unfold return_events. cbn. destruct k as [|[]], (curthread σ); no_acquire.
Qed.

Lemma frame_sleep :
  stack σ = KSleep :: k → wp (run_frame vop_reclaim KSleep) (λ r σ', goodr KSleep r σ') σp.
Proof.
  intros Hk. destruct (pop_ok _ _ _ _ _ Hctl Hk) as [Hok Hon]. cbn [run_frame]. unfold waiting, thread_sleep_done.
  pose proof (top_running _ _ _ _ _ Hctl Hk I) as Hcur. destruct (pop_known _ _ _ Hctl) as (th & Hth & Hmag).
  pose proof (pop_high _ _ _ _ _ Hctl Hk eq_refl) as Hspl.
  do 2 wp_step. eapply wp_cur; [done|]. wp_step. eapply wp_get_thread; [done|].
  eapply wp_put_thread; [done|]. wp_step.
  eapply (good_pop _ rq sl zs t KSleep k Hwf Hctl Hk); [done|done|done|..].
  - apply relisted_refl, (lists_lift (set_threads _)), lists_pop. apply kl_threads.
  - apply Hctl.
  - destruct (ct_flag _ _ _ Hctl). by split.
  - by destruct k as [|[]].
  - apply threads_ok_update; [exact (ctl_threads _ _ _ Hctl)|done].
  - intros t' Hne. cbn. by rewrite lookup_insert_ne.
  - by left.
  - unfold relocked. cbn. by destruct k as [|[]].
  - done.
  - done.
  - intros l t'. no_acquire.
Qed.

Lemma frame_switched :
  stack σ = KSwitched :: k → wp (run_frame vop_reclaim KSwitched) (λ r σ', goodr KSwitched r σ') σp.
Proof.
  intros Hk. destruct (pop_ok _ _ _ _ _ Hctl Hk) as [Hok Hon]. cbn [run_frame]. unfold waiting, mi_switch_done.
  pose proof (top_running _ _ _ _ _ Hctl Hk I) as Hcur. destruct (pop_known _ _ _ Hctl) as (th & Hth & Hmag).
  pose proof (pop_high _ _ _ _ _ Hctl Hk eq_refl) as Hspl.
  do 2 wp_step. eapply exorcise_spec; [apply lists_pop|done| |done].
  intros σ1 Hz Hrl. rest_of Hrl. assert (flag_ok σ1) as Hf1 by (destruct (ct_flag _ _ _ Hctl); split; congruence).
  eapply activate_cur_spec; [done|rewrite Evm; apply Hctl|by rewrite Ecur|by rewrite Eths|].
  intros σ2 (l & -> & Hl). wp_step.
  eapply (good_pop _ rq sl zs t KSwitched k Hwf Hctl Hk); [done|done|done|..]; cbn.
  - apply (relisted_lift (set_vm (set_tlb l (vm σ1)))) in Hrl; [|apply kl_vm].
    destruct Hrl as [E Hls' Hq Hs]. split; [|done|done|done]. cbn in *. rewrite E. by rewrite Espl, Est, Eths.
  - done.
  - by apply flag_ok_vm.
  - rewrite Espl. by destruct k as [|[]].
  - rewrite Eths. exact (ctl_threads _ _ _ Hctl).
  - intros t' _. by rewrite Eths.
  - by left.
  - unfold relocked. cbn. rewrite Estk. by destruct k as [|[]].
  - done.
  - done.
  - intros l' t'. no_acquire.
Qed.

(** The client's part of a stack. *)
Definition client_part (k : list frame) : Prop :=
  match k with KUser :: _ | KCvLock _ _ _ :: _ => True | _ => False end.

Lemma client_part_int k' : stack_ok k' → client_part k' → in_trap k' = 0 ∧ no_sched k'.
Proof.
  destruct k' as [|g k']; [done|]. intros Hok Hcp. destruct g; try done.
  - by destruct (user_stack _ Hok) as (_ & ? & ?).
  - destruct Hok as [Hon Hok]. destruct k' as [|g k']; [done|]. destruct g; try done.
    destruct (user_stack _ Hok) as (_ & ? & ?). split; [done|by constructor].
Qed.

Lemma pop_giving_up f f' th :
  stack σ = f :: k → is_trap f = false → high f = true → curthread σ = Some t → threads σ !! t = Some th →
  client_part k → can_sleep f' → frame_on f' k → giving_up (set_stack (f' :: k) σp) t th zs.
Proof.
  intros Hk Htr Hhi Hcur Hth Hcp Hcs Hon. destruct (pop_ok _ _ _ _ _ Hctl Hk) as [Hok _].
  destruct (client_part_int k Hok Hcp) as [Hint Hns].
  assert (KDead ∉ stack σ) as Hun.
  { apply (ct_dead _ _ _ Hctl). pose proof (cur_not_asleep _ _ _ _ _ (wf_place _ _ _ _ Hwf) Hcur). set_solver. }
  assert (is_trap f' = false ∧ no_sched [f'] ∧ f' ≠ KDead) as (Htr' & Hns' & Hnd)
    by (destruct f'; try done; split_and!; by repeat constructor).
  pose proof (pop_high _ _ _ _ _ Hctl Hk Hhi) as Hspl.
  split; [done|done|exact (ctl_threads _ _ _ Hctl)| |done| |done| | |apply Hctl]; cbn.
  - rewrite Hk in Hun. set_solver.
  - apply flag_stack, flag_stack, Hctl.
  - apply Forall_app_2 with (l1 := [f']); done.
  - rewrite (ct_int _ _ _ Hctl), Hk, !in_trap_cons; done.
Qed.

(** A thread that was woken sleeps again. *)
Lemma good_resleep f f' a th es σ' :
  stack σ = f :: k → is_trap f = false → high f = true → curthread σ = Some t → threads σ !! t = Some th →
  client_part k → can_sleep f' → frame_on f' k →
  (∀ n, sems σ !! a = Some n → n ≤ 0) → locks σ !! a ≠ Some None →
  dispatched es = [] → (∀ s, deltas s es = 0) → (∀ t l, ¬ acquires t l es) →
  relisted (slept t a th (set_stack (f' :: k) σp)) σ' rq (sl ++ [t]) zs → good σ rq es σ'.
Proof.
  intros Hk Htr Hhi Hcur Hth Hcp Hcs Hon Hsem Hlock Hd Hde Hacq Hrl.
  exists rq, (sl ++ [t]), zs. split.
  - eapply (wf_slept (set_stack (f' :: k) σp) rq sl zs t th a f' k); [| | |done|done|done|done|done].
    + apply (place_same σ _ rq sl); [apply Hwf| |done|done|done].
      apply (lists_lift (set_stack _)), lists_pop. apply kl_stack.
    + apply (sync_ok_sub σ _ sl); [apply Hwf|done..].
    + by apply (pop_giving_up f).
  - rest_of Hrl. by apply effect_none.
Qed.

Lemma pop_int f : stack σ = f :: k → is_trap f = false → client_part k → in_interrupt σ = 0.
Proof.
  intros Hk Htr Hcp. destruct (pop_ok _ _ _ _ _ Hctl Hk) as [Hok _].
  rewrite (ct_int _ _ _ Hctl), Hk, in_trap_cons by done. by apply client_part_int.
Qed.

Lemma no_room_sleep h : curthread σ = Some t → max (sleepers σ) ≤ zlen sl → h = Panic → h = Panic ∧ ¬ room σ.
Proof.
  intros Hcur Hmax ->. split; [done|]. intros Hr.
  pose proof (room_sleep _ _ _ _ _ (wf_place _ _ _ _ Hwf) Hcur Hr). lia.
Qed.

Lemma frame_P s spl :
  stack σ = KP s spl :: k → wp (run_frame vop_reclaim (KP s spl)) (λ r σ', goodr (KP s spl) r σ') σp.
Proof.
  intros Hk. destruct (pop_ok _ _ _ _ _ Hctl Hk) as [Hok Hon]. cbn [run_frame].
  pose proof (top_running _ _ _ _ _ Hctl Hk I) as Hcur. destruct (pop_known _ _ _ Hctl) as (th & Hth & Hmag).
  pose proof (pop_high _ _ _ _ _ Hctl Hk eq_refl) as Hspl.
  assert (client_part k ∧ 0 ≤ spl ∧ ∃ k', k = KUser :: k') as (Hcp & Hpos & k' & Ek)
    by (destruct k as [|[]]; cbn in Hon; naive_solver).
  pose proof (pop_int _ Hk eq_refl Hcp) as Hint.
  destruct (sems σ !! s) as [n|] eqn:Hs.
  2: { unfold P_loop, get_sem. do 3 wp_step. cbn. rewrite Hs. by left. }
  destruct (wf_sync _ _ _ _ Hwf) as [_ Hcount _ _ Hapart _]. pose proof (Hcount s n Hs) as Hn.
  eapply (P_loop_spec σp rq sl zs) with (t := t); [apply lists_pop|apply few_here|done..|lia| | |].
  - intros Hn'. eapply (good_pop_sync _ rq sl zs t (KP s spl) k Hwf Hctl Hk); [done|done|done|..].
    + apply relisted_refl. apply (lists_lift (at_spl _)), (lists_lift (set_sems _)), lists_pop; auto with os.
    + apply Hctl.
    + by apply at_spl_flag_ok.
    + by rewrite Ek.
    + exact (ctl_threads _ _ _ Hctl).
    + done.
    + unfold relocked. cbn. by rewrite Ek.
    + by apply (sync_ok_sem σ _ sl s n (n - 1)); [apply Hwf|done|done|lia|..].
    + split.
      * exists []. by rewrite app_nil_r, Ek; cbn; rewrite Hcur.
      * intros s' n' Hs'. rewrite Ek. cbn. rewrite Hcur. cbn. destruct (decide (s = s')) as [<-|Hne].
        -- rewrite lookup_insert_eq. f_equal. simplify_eq. lia.
        -- rewrite lookup_insert_ne by done. rewrite Hs'. f_equal. lia.
      * intros l t' Hl. by left.
      * intros l t'. rewrite Ek. cbn. rewrite Hcur. no_acquire.
  - intros σ' -> Hrl. eapply (good_resleep (KP s spl) (KP s spl) s th); try done; cbn.
    + rewrite Hs. by intros ? [= <-].
    + rewrite Hapart; [done|by eexists].
    + intros ? ?; no_acquire.
  - intros σ' Hmax. right. destruct (no_room_sleep Panic Hcur Hmax eq_refl). auto.
Qed.

(** [lock_acquire] takes the lock: the caller is the client, or [cv_wait]. *)
Lemma good_locked f l spl es :
  stack σ = f :: k → is_trap f = false → high f = true → (∀ o, f ≠ KSched o) → curthread σ = Some t →
  frame_on (KLock l spl) k → locks σ !! l = Some None →
  dispatched es = [] → (∀ s, deltas s es = 0) → (∀ l' t', acquires t' l' es → t' = t ∧ l' = l) →
  good σ rq es (at_spl spl (set_locks (<[l := Some t]> (locks σ)) σp)).
Proof.
  intros Hk Htr Hhi Hns Hcur Hon Hl Hd Hde Hacq.
  assert (0 ≤ spl) by (destruct k as [|[]]; cbn in Hon; try done; lia).
  eapply (good_pop_sync _ rq sl zs t f k Hwf Hctl Hk); [done|done|done|..].
  - apply relisted_refl. apply (lists_lift (at_spl _)), (lists_lift (set_locks _)), lists_pop; auto with os.
  - apply Hctl.
  - by apply at_spl_flag_ok.
  - destruct k as [|[]]; cbn in Hon |- *; try done; lia.
  - exact (ctl_threads _ _ _ Hctl).
  - done.
  - unfold relocked. cbn. rewrite Hcur. destruct k as [|[]]; cbn in Hon; try done.
    destruct Hon as [_ <-]. apply lookup_insert_eq.
  - by eapply (sync_ok_lock σ _ sl l None t); [apply Hwf|..].
  - split.
    + exists []. by rewrite app_nil_r, Hd.
    + intros s n Hs. by rewrite Hde, Z.add_0_r.
    + intros l' t' Hl'. left. cbn. rewrite lookup_insert_ne; [done|congruence].
    + intros l' t' [-> ->]%Hacq. apply lookup_insert_eq.
Qed.

Lemma lock_on_client l spl : frame_on (KLock l spl) k → client_part k.
Proof. by destruct k as [|[]]. Qed.

Lemma frame_lock l spl :
  stack σ = KLock l spl :: k → wp (run_frame vop_reclaim (KLock l spl)) (λ r σ', goodr (KLock l spl) r σ') σp.
Proof.
  intros Hk. destruct (pop_ok _ _ _ _ _ Hctl Hk) as [Hok Hon]. cbn [run_frame].
  pose proof (top_running _ _ _ _ _ Hctl Hk I) as Hcur. destruct (pop_known _ _ _ Hctl) as (th & Hth & Hmag).
  pose proof (pop_high _ _ _ _ _ Hctl Hk eq_refl) as Hspl.
  pose proof (lock_on_client _ _ Hon) as Hcp. pose proof (pop_int _ Hk eq_refl Hcp) as Hint.
  destruct (locks σ !! l) as [h|] eqn:Hl.
  2: { unfold lock_loop, get_holder. do 3 wp_step. cbn. rewrite Hl. by left. }
  destruct (wf_sync _ _ _ _ Hwf) as [_ _ _ _ Hapart _].
  eapply (lock_loop_spec σp rq sl zs) with (t := t); [apply lists_pop|apply few_here|done..| | |].
  - intros ->. eapply (good_locked (KLock l spl)); try done.
    + cbn. rewrite Hcur. by destruct k as [|[]].
    + intros s. cbn. rewrite Hcur. by destruct k as [|[]].
    + intros l' t'. cbn. rewrite Hcur. destruct k as [|[]]; try no_acquire.
      intros Ha. eapply (acquire_event t t' l l' (CAcquire l)); [done| |done].
      intros e ->%list_elem_of_singleton. by right.
  - intros σ' Hne Hrl. eapply (good_resleep (KLock l spl) (KLock l spl) l th); try done; cbn.
    + intros n Hn. rewrite (Hapart l) in Hl; [done|by eexists].
    + rewrite Hl. congruence.
    + intros ? ?; no_acquire.
  - intros σ' Hmax. right. destruct (no_room_sleep Panic Hcur Hmax eq_refl). auto.
Qed.

Lemma frame_cv cv l spl :
  stack σ = KCv cv l spl :: k → wp (run_frame vop_reclaim (KCv cv l spl)) (λ r σ', goodr (KCv cv l spl) r σ') σp.
Proof.
  intros Hk. destruct (pop_ok _ _ _ _ _ Hctl Hk) as [Hok Hon]. cbn [run_frame]. unfold waiting, cv_relock, push.
  pose proof (top_running _ _ _ _ _ Hctl Hk I) as Hcur. destruct (pop_known _ _ _ Hctl) as (th & Hth & Hmag).
  pose proof (pop_high _ _ _ _ _ Hctl Hk eq_refl) as Hspl.
  assert (client_part k ∧ 0 ≤ spl ∧ ∃ k', k = KUser :: k') as (Hcp & Hpos & k' & Ek)
    by (destruct k as [|[]]; cbn in Hon; naive_solver).
  pose proof (pop_int _ Hk eq_refl Hcp) as Hint. do 3 wp_step. unfold lock_acquire. do 2 wp_step.
  apply wp_splhigh. wp_step.
  destruct (locks σ !! l) as [h|] eqn:Hl.
  2: { unfold lock_do_i_hold, get_holder. wp_step. apply wp_splhigh. do 3 wp_step. cbn. rewrite Hl. by left. }
  eapply lock_do_i_hold_spec; [apply at_spl_flag_ok; done|done|].
  cbn [curthread at_spl set_curspl set_status set_stack]. rewrite Hcur. case_bool_decide as Hh.
  { right. split; [done|]. right. exists t. by subst. }
  assert (frame_on (KLock l (curspl σ)) (KCvLock cv l spl :: k)) as Hon' by done.
  assert (stack_ok (KCvLock cv l spl :: k)) as Hok' by (rewrite Ek in *; done).
  destruct (client_part_int _ Hok' I) as [Hint' Hns'].
  assert (KDead ∉ KCvLock cv l spl :: k) as Hun.
  { pose proof (ct_dead _ _ _ Hctl) as Hun.
    pose proof (cur_not_asleep _ _ _ _ _ (wf_place _ _ _ _ Hwf) Hcur). rewrite Hk in Hun. set_solver. }
  destruct (wf_sync _ _ _ _ Hwf) as [_ _ _ _ Hapart _].
  set (σc := at_spl SPL_HIGH (set_stack (KCvLock cv l spl :: k) σp)).
  assert (lists σc rq sl zs) as Hlc.
  { apply (lists_lift (at_spl _)), (lists_lift (set_stack _)), lists_pop; auto with os. }
  eapply (lock_loop_spec σc rq sl zs) with (t := t); [done|apply few_here|done..| | |].
  - intros ->. wp_step. wp_step.
    set (σd := set_locks (<[l := Some t]> (locks σ)) (set_stack (KCvLock cv l spl :: k) σ)).
    assert (flag_ok σd) as Hfd by (destruct (ct_flag _ _ _ Hctl); by split).
    match goal with |- good _ _ _ ?x =>
      replace x with σd by (symmetry; by apply (at_spl_restore σd SPL_HIGH)) end.
    exists rq, sl, zs. split; [split; [| |exists t]|].
    + apply (place_same σ _ rq sl); [apply Hwf| |done..].
      apply (lists_lift (set_locks _)), (lists_lift (set_stack _)), lists_here; auto with os.
    + by eapply (sync_ok_lock σ _ sl l None t); [apply Hwf|..].
    + apply ctl_running; cbn; [done..| |done|apply Hctl|done| |exact (ctl_threads _ _ _ Hctl)|].
      * by rewrite Hint, Hint'.
      * done.
      * unfold relocked. cbn. rewrite Hcur. apply lookup_insert_eq.
    + split.
      * exists []. by rewrite app_nil_r.
      * intros s n Hs. cbn. by rewrite Hs, Z.add_0_r.
      * intros l' t' Hl'. left. cbn. rewrite lookup_insert_ne; [done|congruence].
      * intros l' t'. no_acquire.
  - intros σ' Hne Hrl. wp_step. wp_step. exists rq, (sl ++ [t]), zs. split.
    + eapply (wf_slept (set_stack (KLock l (curspl σ) :: KCvLock cv l spl :: k) σc) rq sl zs t th l);
        [| | |done|done| | |done].
      * apply (place_same σ _ rq sl); [apply Hwf| |done..]. by apply (lists_lift (set_stack _)); [apply kl_stack|].
      * apply (sync_ok_sub σ _ sl); [apply Hwf|done..].
      * split; [done|done|exact (ctl_threads _ _ _ Hctl)| |done| |done| | |apply Hctl]; cbn.
        -- set_solver.
        -- by apply flag_stack, at_spl_flag_ok.
        -- by constructor.
        -- by rewrite Hint, in_trap_cons, Hint'.
      * intros n Hn. cbn in Hn. rewrite (Hapart l) in Hl; [done|by eexists].
      * cbn. rewrite Hl. congruence.
    + rest_of Hrl. apply effect_none; try done. intros ? ?; no_acquire.
  - intros σ' Hmax. right. destruct (no_room_sleep Panic Hcur Hmax eq_refl). auto.
Qed.

Lemma frame_cvlock cv l spl :
  stack σ = KCvLock cv l spl :: k →
  wp (run_frame vop_reclaim (KCvLock cv l spl)) (λ r σ', goodr (KCvLock cv l spl) r σ') σp.
Proof.
  intros Hk. destruct (pop_ok _ _ _ _ _ Hctl Hk) as [Hok Hon]. cbn [run_frame]. unfold returned.
  pose proof (top_running _ _ _ _ _ Hctl Hk I) as Hcur.
  assert (0 ≤ spl ∧ ∃ k', k = KUser :: k') as (Hpos & k' & Ek) by (destruct k as [|[]]; cbn in Hon; naive_solver).
  do 2 wp_step. apply wp_splx. do 2 wp_step.
  eapply (good_pop _ rq sl zs t (KCvLock cv l spl) k Hwf Hctl Hk); [done|done|done|..].
  - apply relisted_refl, (lists_lift (at_spl _)), lists_pop. apply kl_at_spl.
  - apply Hctl.
  - by apply at_spl_flag_ok.
  - by rewrite Ek.
  - exact (ctl_threads _ _ _ Hctl).
  - done.
  - by right.
  - unfold relocked. cbn. by rewrite Ek.
  - rewrite Ek. cbn. by rewrite Hcur.
  - intros s. rewrite Ek. cbn. by rewrite Hcur.
  - intros l' t'. rewrite Ek. cbn. rewrite Hcur. intros Ha.
    destruct (acquire_event t t' l l' (CWait cv l) _ Ha) as [-> ->]; [|done|].
    { intros e ->%list_elem_of_singleton. by right. }
    pose proof (ct_relocked _ _ _ Hctl) as Hre. unfold relocked in Hre. by rewrite Hk, Hcur in Hre.
Qed.

Lemma frame_clock n spl :
  stack σ = KClock n spl :: k → wp (run_frame vop_reclaim (KClock n spl)) (λ r σ', goodr (KClock n spl) r σ') σp.
Proof.
  intros Hk. destruct (pop_ok _ _ _ _ _ Hctl Hk) as [Hok Hon]. cbn [run_frame].
  pose proof (top_running _ _ _ _ _ Hctl Hk I) as Hcur. destruct (pop_known _ _ _ Hctl) as (th & Hth & Hmag).
  pose proof (pop_high _ _ _ _ _ Hctl Hk eq_refl) as Hspl.
  assert (client_part k ∧ 0 ≤ spl ∧ ∃ k', k = KUser :: k') as (Hcp & Hpos & k' & Ek)
    by (destruct k as [|[]]; cbn in Hon; naive_solver).
  pose proof (pop_int _ Hk eq_refl Hcp) as Hint.
  destruct (wf_sync _ _ _ _ Hwf) as [_ _ _ _ _ [Hb1 Hb2]].
  eapply (clock_loop_spec σp rq sl zs) with (t := t); [apply lists_pop|apply few_here|done..| | |].
  - intros Hn. eapply (good_pop _ rq sl zs t (KClock n spl) k Hwf Hctl Hk); [done|done|done|..].
    + apply relisted_refl, (lists_lift (at_spl _)), lists_pop. apply kl_at_spl.
    + apply Hctl.
    + by apply at_spl_flag_ok.
    + by rewrite Ek.
    + exact (ctl_threads _ _ _ Hctl).
    + done.
    + by right.
    + unfold relocked. cbn. by rewrite Ek.
    + rewrite Ek. cbn. by rewrite Hcur.
    + intros s. rewrite Ek. cbn. by rewrite Hcur.
    + intros l' t'. rewrite Ek. cbn. rewrite Hcur. no_acquire.
  - intros σ' Hn Hrl. eapply (good_resleep (KClock n spl) (KClock (n - 1) spl) lbolt th); try done; cbn.
    + by rewrite Hb1.
    + by rewrite Hb2.
    + intros ? ?; no_acquire.
  - intros σ' Hmax. right. destruct (no_room_sleep Panic Hcur Hmax eq_refl). auto.
Qed.

Lemma frame_start :
  stack σ = KStart :: k → wp (run_frame vop_reclaim KStart) (λ r σ', goodr KStart r σ') σp.
Proof.
  intros Hk. destruct (pop_ok _ _ _ _ _ Hctl Hk) as [Hok Hon]. cbn [run_frame]. unfold waiting, mi_threadstart, push.
  pose proof (top_running _ _ _ _ _ Hctl Hk I) as Hcur. destruct (pop_known _ _ _ Hctl) as (th & Hth & Hmag).
  assert (k = []) as Ek by (by destruct k).
  do 2 wp_step. eapply activate_cur_spec; [by apply flag_stack, Hctl|apply Hctl|done|done|].
  intros σ1 (l & -> & Hl). wp_step. change spl0 with (splx 0). apply wp_splx. do 4 wp_step.
  exists rq, sl, zs. split; [split; [| |exists t]|].
  - apply (place_same σ _ rq sl); [apply Hwf| |done..].
    apply (lists_lift (set_stack _)), (lists_lift (set_stack _)), (lists_lift (at_spl _)), (lists_lift (set_vm _)), lists_pop;
      auto with os.
  - apply (sync_ok_sub σ _ sl); [apply Hwf|done..].
  - apply ctl_running; cbn; rewrite ?Ek; [done|done| | |set_solver|done| |done|exact (ctl_threads _ _ _ Hctl)|done].
    + by repeat constructor.
    + by rewrite (ct_int _ _ _ Hctl), Hk, Ek.
    + by apply flag_stack, flag_stack, at_spl_flag_ok.
  - apply effect_none; try done. intros ? ?; no_acquire.
Qed.

Lemma frame_exit :
  stack σ = KExit :: k → wp (run_frame vop_reclaim KExit) (λ r σ', goodr KExit r σ') σp.
Proof.
  intros Hk. destruct (pop_ok _ _ _ _ _ Hctl Hk) as [Hok Hon]. cbn [run_frame]. unfold waiting.
  pose proof (top_running _ _ _ _ _ Hctl Hk I) as Hcur. destruct (pop_known _ _ _ Hctl) as (th & Hth & Hmag).
  assert (k = []) as Ek by (by destruct k).
  wp_step. eapply (thread_exit_spec _ t th σp rq sl zs); [apply lists_pop|apply few_here|done..| |done].
  intros σ1 σ' Hex Hrl. wp_step. exists rq, sl, (zs ++ [t]). split.
  - eapply (wf_exited σp rq sl zs t σ1);
      [by eapply pop_place|by eapply pop_sync|done|exact (ctl_threads _ _ _ Hctl)| | | |apply Hctl|done|done]; cbn.
    + by rewrite Ek.
    + rewrite Ek. constructor.
    + by rewrite (ct_int _ _ _ Hctl), Hk, Ek.
  - destruct Hex as [[? ? ? ? ? ? ? ? Es El] _ _ _ _ _]. rest_of Hrl. cbn in Es, El.
    apply effect_none; [done|done|intros ? ?; no_acquire|congruence|congruence].
Qed.

(** No thread comes back from the dead. *)
Lemma frame_dead : stack σ ≠ KDead :: k.
Proof.
  intros Hk. pose proof (top_running _ _ _ _ _ Hctl Hk I) as Hcur.
  assert (KDead ∉ stack σ) as Hun.
  { apply (ct_dead _ _ _ Hctl). pose proof (cur_not_asleep _ _ _ _ _ (wf_place _ _ _ _ Hwf) Hcur). set_solver. }
  rewrite Hk in Hun. set_solver.
Qed.

Lemma frame_sched old :
  stack σ = KSched old :: k → wp (run_frame vop_reclaim (KSched old)) (λ r σ', goodr (KSched old) r σ') σp.
Proof.
  intros Hk. destruct (pop_ok _ _ _ _ _ Hctl Hk) as [Hok Hon]. cbn [run_frame]. unfold waiting.
  pose proof (pop_high _ _ _ _ _ Hctl Hk eq_refl) as Hspl.
  assert (curthread σ = None ∧ t = old) as [Hcur ->].
  { pose proof (ct_owner _ _ _ Hctl) as Hown. unfold owned_by in Hown. rewrite Hk in Hown.
    destruct (curthread σ); [destruct Hown as [_ Hno]; by inversion Hno|].
    destruct Hown as (pre & k0 & E & Hpre & _). split; [done|].
    destruct pre as [|g pre]; simplify_eq/=; [done|]. by destruct pre as [|? [|]]. }
  destruct (pop_known _ _ _ Hctl) as (tho & Hold & _). destruct (wf_place _ _ _ _ Hwf) as [Hls Hnd Hdom Hnum Hfew].
  rewrite (running_none _ Hcur) in *. cbn in Hnd, Hdom, Hnum, Hfew.
  wp_step. eapply (mi_switch_pick_spec old tho σp rq sl zs); [apply lists_pop|done|done| | |].
  { intros t' Ht'. apply Hdom. set_solver. }
  2: { intros ->. done. }
  intros nu rq' thn σ' Erq Hnu Hrl. wp_step. rest_of Hrl.
  assert (curthread σ' = Some nu) as Hcur' by (rewrite Ecur; unfold switched_in; by destruct (decide _)).
  destruct (switched_in_same old nu tho thn σp Hold) as [E1 E2 E3 E4 E5 E6 E7 E8].
  cbn in E1, E2, E3, E4, E5, E6, E7, E8. exists rq', sl, zs. split; [split; [| |exists nu]|].
  - apply (place_same σ σ' rq sl); [apply Hwf|apply Hrl| |congruence|].
    + rewrite (running_none _ Hcur), (running_cur _ _ Hcur'). by rewrite Erq.
    + intros t'. by rewrite Eths.
  - apply (sync_ok_ext σ); [apply Hwf|congruence|congruence|]. intros a t'. by rewrite Eths.
  - apply (ctl_switched σ σ' old k nu tho thn); [done|done|done|done|done| |done|done|done|done|congruence| |congruence].
    + rewrite Erq in Hnd. apply NoDup_cons in Hnd as [Hnot _]. set_solver.
    + destruct (ct_flag _ _ _ Hctl). split; congruence.
  - unfold return_events. rewrite Hcur'. split.
    + exists []. rewrite app_nil_r. by rewrite Erq.
    + intros s n Hs. rewrite Esems, E5, Hs. f_equal. cbn. lia.
    + intros l t' Hl. left. by rewrite Elocks, E6.
    + intros l t'. no_acquire.
Qed.
End frames.

(** ** Interrupts *)

Lemma kl_lbolt n : keeps_lists (set_lbolt_counter n).
Proof. by split. Qed.

(** The handler goes on, perhaps with other work left. *)
Lemma ctl_irq σ σ' t irqs irqs' k zs :
  ctl σ t zs → stack σ = KIrq irqs :: k → stack σ' = KIrq irqs' :: k → curthread σ' = curthread σ →
  threads σ' = threads σ → in_interrupt σ' = in_interrupt σ → vm σ' = vm σ → curspl σ' = curspl σ →
  status σ' = status σ → ctl σ' t zs.
Proof.
  intros [Cflag Ctlb Cstack Chigh Cint Cown Cknown Csaved Cmagic Cdead Cundead Crel] Hk Hk' Hc Ht Hi Hv Hs Hst.
  rewrite Hk in *.
  split; rewrite ?Hk', ?Ht, ?Hv, ?Hi, ?Hs; try done.
  - destruct Cflag. split; congruence.
  - unfold owned_by in *. rewrite Hc, Hk', Hk in *. destruct (curthread σ).
    + destruct Cown as [-> Hno]. inversion Hno. split; [done|by constructor].
    + destruct Cown as (pre & k0 & E & Hpre & Hno). destruct pre as [|g pre]; simplify_eq/=.
      exists (KIrq irqs' :: pre), k0. split_and!; [done| |done]. by destruct pre as [|[] [|]].
  - intros Hnot. specialize (Cdead Hnot). set_solver.
  - unfold relocked. by rewrite Hk'.
Qed.

Lemma wf_irq σ irqs irqs' k rq sl zs :
  wf σ rq sl zs → stack σ = KIrq irqs :: k → wf (set_stack (KIrq irqs' :: k) σ) rq sl zs.
Proof.
  intros [Hpl Hsy [t Hctl]] Hk. split; [| |exists t].
  - by apply (place_same σ _ rq sl zs); [|apply (lists_lift (set_stack _)); [apply kl_stack|apply Hpl]|..].
  - by apply (sync_ok_sub σ _ sl).
  - by eapply ctl_irq.
Qed.

Section handlers.
Context (σ : kstate) (rq sl zs : list tid) (irqs : list irq) (k : list frame).
Context (Hwf : wf σ rq sl zs) (Hk : stack σ = KIrq irqs :: k).

Abbreviation woken a := (filter (sleeps_on (threads σ) a) sl).
Abbreviation unwoken a := (filter (λ t, ¬ sleeps_on (threads σ) a t) sl).

(** The sleepers on [a] have been woken. *)
Lemma wf_woken a σb σ' :
  relisted σb σ' (rq ++ woken a) (unwoken a) zs →
  same_rest (set_sems (sems σb) σ) σb →
  (∀ b, b ≠ a → sems σb !! b = sems σ !! b) →
  (is_Some (sems σb !! a) → is_Some (sems σ !! a)) →
  (∀ n, sems σb !! a = Some n → 0 ≤ n < 2 ^ 31) →
  wf σ' (rq ++ woken a) (unwoken a) zs.
Proof.
  intros Hrl [Sstk Scur Sths Sint Svm Snum Sspl Sst Ssems Slocks] Hb Hds Hcount. cbn in *. rest_of Hrl. destruct Hwf as [Hpl Hsy [t Hctl]].
  split; [| |exists t].
  - apply (place_same σ σ' rq sl zs); [done|apply Hrl| |congruence|].
    + unfold running. rewrite Ecur, Scur. apply Permutation_app_head, wake_perm.
    + intros t'. by rewrite Eths, Sths.
  - eapply (sync_ok_wake σ); [done|congruence|rewrite ?Esems, ?Elocks, ?Slocks..].
    + intros b ?. rewrite Hb; done.
    + done.
    + done.
    + done.
  - by apply (ctl_irq σ σ' t irqs irqs k); [|congruence..].
Qed.

Lemma irq_V_good s (Q : result unit → kstate → Prop) :
  (∀ n σ' rq' sl', sems σ !! s = Some n → sems σ' = <[s := n + 1]> (sems σ) → locks σ' = locks σ →
     (∃ enq, rq' = rq ++ enq) → wf σ' rq' sl' zs → Q (Ret ()) σ') →
  (∀ h σ', h = Undef ∧ sems σ !! s = None ∨ h = Panic ∧ (¬ room σ ∨ sems σ !! s = Some (2 ^ 31 - 1)) →
     Q (Halt h) σ') →
  wp (V s) Q σ.
Proof.
  intros HQ HH. destruct (Hwf) as [Hpl Hsy [t Hctl]]. destruct (sems σ !! s) as [n|] eqn:Hs.
  2: { unfold V, get_sem. wp_step. apply wp_splhigh. do 3 wp_step. cbn. rewrite Hs. apply HH. by left. }
  pose proof (sy_count _ _ Hsy s n Hs) as Hn.
  eapply (V_spec σ rq sl zs); [apply Hpl|by eapply few_running|by eapply known_sl|apply Hctl|done|done| |].
  - intros σ' Hmax Hrl. rest_of Hrl. eapply (HQ n); [done|done|done|by eexists|].
    eapply (wf_woken s); [done|by split|..]; cbn.
    + intros b Hb. by rewrite lookup_insert_ne.
    + intros _. by eexists.
    + intros n'. rewrite lookup_insert_eq. intros [= <-]. lia.
  - intros σ' [Hov|Hno]; apply HH; right; (split; [done|]).
    + right. f_equal. lia.
    + left. intros Hr. by apply Hno, (room_queue _ _ _ zs).
Qed.
End handlers.

Lemma irq_stack σ t zs irqs k : ctl σ t zs → stack σ = KIrq irqs :: k → 0 < curspl σ.
Proof. intros Hctl Hk. by eapply (pop_high _ _ _ _ _ Hctl Hk). Qed.

(** The handler yields; in the idle loop there is nothing to switch from. *)
Lemma irq_yield_good σ rq sl zs irqs k (Q : result unit → kstate → Prop) :
  wf σ rq sl zs → stack σ = KIrq irqs :: k →
  (∀ σ' rq', sems σ' = sems σ → locks σ' = locks σ → (∃ enq, rq' = rq ++ enq) → wf σ' rq' sl zs → Q (Ret ()) σ') →
  (∀ σ', ¬ room σ → Q (Halt Panic) σ') →
  wp thread_yield Q σ.
Proof.
  intros [Hpl Hsy [t Hctl]] Hk HQ HP. pose proof (irq_stack _ _ _ _ _ Hctl Hk) as Hspl.
  destruct (pop_ok _ _ _ _ _ Hctl Hk) as [Hok Hon].
  assert (frame_on (KYield (curspl σ)) (stack σ)) as Hyon by (by rewrite Hk).
  eapply (thread_yield_spec σ rq sl zs); [apply Hpl|by eapply few_running| | | |].
  - intros t' Hcur. rewrite <- (owned_by_cur _ _ t Hcur (ct_owner _ _ _ Hctl)). by eapply pop_known.
  - intros t' σ' Hcur Hrl.
    assert (t = t') as <- by exact (owned_by_cur _ _ t Hcur (ct_owner _ _ _ Hctl)). rest_of Hrl.
    destruct (pop_known _ _ _ Hctl) as (th & Hth & _).
    apply (HQ σ' (rq ++ [t])); [done|done|by eexists|].
    apply (wf_yielded σ rq sl zs t th); [done|done|done|done|by apply ctl_threads| | | |apply Hctl|apply Hctl|done].
    + apply (ct_dead _ _ _ Hctl). pose proof (cur_not_asleep _ _ _ _ _ Hpl Hcur). set_solver.
    + split; [done|apply Hctl].
    + by eapply running_no_sched.
  - intros Hcur. apply (HQ _ rq); [done|done|exists []; by rewrite app_nil_r|]. split; [| |exists t].
    + apply (place_same σ _ rq sl zs); [done| |done|done|done].
      apply (lists_lift (set_stack _)), (lists_lift (at_spl _)), Hpl; auto with os.
    + by apply (sync_ok_sub σ _ sl).
    + destruct Hctl as [Cflag Ctlb Cstack Chigh Cint Cown Cknown Csaved Cmagic Cdead Cundead Crel].
      split; try done; cbn.
      * by apply flag_stack, at_spl_flag_ok.
      * unfold owned_by in *. cbn. rewrite Hcur, Hk in *.
        destruct Cown as (pre & k0 & E & Hpre & Hno). destruct pre as [|g pre]; simplify_eq/=.
        exists (KYield (curspl σ) :: KIrq irqs :: pre), k0. split_and!; [done| |done].
        by destruct pre as [|[] [|]].
      * intros Hnot. specialize (Cdead Hnot). set_solver.
  - intros σ' Hne Hsz. apply HP. intros Hr. destruct (curthread σ) as [t'|] eqn:Hcur; [|done].
    pose proof (room_yield _ _ _ _ _ Hpl Hcur Hr). lia.
Qed.

Lemma irq_timer_good σ rq sl zs irqs k (Q : result unit → kstate → Prop) :
  wf σ rq sl zs → stack σ = KIrq irqs :: k →
  (∀ σ' rq' sl', sems σ' = sems σ → locks σ' = locks σ → (∃ enq, rq' = rq ++ enq) →
     wf σ' rq' sl' zs → Q (Ret ()) σ') →
  (∀ σ', ¬ room σ → Q (Halt Panic) σ') →
  wp hardclock Q σ.
Proof.
  intros Hwf Hk HQ HP. destruct (Hwf) as [Hpl Hsy [t Hctl]]. unfold hardclock. do 2 wp_step. wp_step.
  destruct (_ >=? HZ).
  - do 2 wp_step. eapply (thread_wakeup_spec rq sl zs);
      [apply (lists_lift (set_lbolt_counter _)); [apply kl_lbolt|apply Hpl]|by eapply few_running
      |exact (irq_stack _ _ _ _ _ Hctl Hk)|exact (known_sl _ _ _ _ Hpl)| |].
    + intros σ1 Hrl. cbn in Hrl. rest_of Hrl.
      eapply (irq_yield_good σ1);
        [eapply (wf_woken σ rq sl zs irqs k Hwf Hk lbolt); [done|by split|done|done|apply Hsy]|by rewrite Estk| |].
      * intros σ' rq' Es El [enq ->] Hwf'. eapply HQ; [congruence|congruence| |done].
        eexists. by rewrite <- (assoc_L (++)).
      * intros σ' Hno. apply HP. intros [Hr1 Hr2]. apply Hno. destruct Hrl as [_ _ Hs1 Hs2]. cbn in Hs1, Hs2.
        split; rewrite Enum; lia.
    + intros σ' Hno. apply HP. intros Hr. apply Hno. by apply (room_queue σ _ _ zs).
  - wp_step. eapply (irq_yield_good _ rq sl zs irqs k); [|done| |done].
    + split; [| |exists t].
      * apply (place_same σ _ rq sl zs); [done| |done|done|done].
        apply (lists_lift (set_lbolt_counter _)), Hpl. apply kl_lbolt.
      * by apply (sync_ok_sub σ _ sl).
      * by apply (ctl_irq σ _ t irqs irqs k).
    + intros σ' rq' Es El Henq Hwf'. by eapply HQ.
Qed.

Section trap_frames.
Context (vop_reclaim : addr → M (gmap addr vnode) unit).
Context (σ : kstate) (rq sl zs : list tid) (t : tid) (k : list frame).
Context (Hwf : wf σ rq sl zs) (Hctl : ctl σ t zs).

Abbreviation goodr f r σ' :=
  (match r with
   | Ret w => good σ rq (return_events σ f k w σ') σ'
   | Fail _ => False
   | Halt h => may_halt σ rq zs f h
   end).
Abbreviation σp := (set_stack k σ).

Lemma frame_irq irqs :
  stack σ = KIrq irqs :: k → wp (run_frame vop_reclaim (KIrq irqs)) (λ r σ', goodr (KIrq irqs) r σ') σp.
Proof.
  intros Hk. destruct (pop_ok _ _ _ _ _ Hctl Hk) as [Hok Hon]. pose proof (irq_stack _ _ _ _ _ Hctl Hk) as Hspl.
  destruct irqs as [|i irqs]; cbn [run_frame]; unfold waiting, push.
  - wp_step. eapply (good_pop _ rq sl zs t (KIrq []) k Hwf Hctl Hk); [done|done|done|..].
    + apply relisted_refl, (lists_pop σ rq sl zs k Hwf).
    + apply Hctl.
    + by apply flag_stack, Hctl.
    + by destruct k as [|[]].
    + exact (ctl_threads _ _ _ Hctl).
    + done.
    + by right.
    + unfold relocked. cbn. by destruct k as [|[]].
    + done.
    + done.
    + intros l t'. no_acquire.
  - do 3 wp_step. pose proof (wf_irq σ _ irqs k rq sl zs Hwf Hk) as Hwf'. destruct i as [|s]; cbn [irq_handler].
    + eapply (irq_timer_good _ rq sl zs irqs k _ Hwf'); [done| |].
      * intros σ' rq' sl' Es El Henq Hgood. wp_step. exists rq', sl', zs. split; [done|].
        apply effect_quiet; [done|done|done|done|done|]. intros ? ?; no_acquire.
      * intros σ' Hno. right. split; [done|by left].
    + eapply (irq_V_good _ rq sl zs irqs k Hwf'); [done| |].
      * intros n σ' rq' sl' Hs Es El [enq ->] Hgood. wp_step. exists (rq ++ enq), sl', zs. split; [done|]. split.
        -- by exists enq.
        -- intros s' n' Hs'. rewrite Es. cbn in Hs |- *. unfold delta. destruct (decide (s = s')) as [<-|Hne].
           ++ rewrite lookup_insert_eq. f_equal. simplify_eq. lia.
           ++ rewrite lookup_insert_ne by done. rewrite Hs'. f_equal. lia.
        -- intros l t' Hl. left. by rewrite El.
        -- intros l t'. no_acquire.
      * intros h σ' Hh. exact Hh.
Qed.

Lemma frame_trap old_in savespl st :
  stack σ = KTrap old_in savespl st :: k →
  wp (run_frame vop_reclaim (KTrap old_in savespl st)) (λ r σ', goodr (KTrap old_in savespl st) r σ') σp.
Proof.
  intros Hk. destruct (pop_ok _ _ _ _ _ Hctl Hk) as [Hok Hon]. cbn [run_frame]. unfold waiting, mips_trap_done.
  do 3 wp_step. wp_step. apply wp_splhigh. do 4 wp_step.
  destruct k as [|g k'] eqn:Ek; [done|]. cbn in Hon. destruct Hon as (Hin & Hpos & Hst & Hg).
  exists rq, sl, zs. split; [split; [| |exists t]|].
  - apply (place_same σ _ rq sl zs); [apply Hwf| |done|done|done]. destruct (lists_here σ rq sl zs Hwf). by split.
  - apply (sync_ok_sub σ _ sl); [apply Hwf|done..].
  - destruct Hctl as [Cflag Ctlb Cstack Chigh Cint Cown Cknown Csaved Cmagic Cdead Cundead Crel].
    split; try done; cbn.
    + intros Hhi. destruct g; try done.
    + unfold owned_by in *. cbn. rewrite Hk in Cown. destruct (curthread σ).
      * destruct Cown as [-> Hno]. by inversion Hno.
      * destruct Cown as (pre & k0 & E & Hpre & Hno). destruct pre as [|f pre]; simplify_eq/=.
        destruct pre as [|? ?]; [|done]. by exists [], k0.
    + intros Hnot. specialize (Cdead Hnot). rewrite Hk in Cdead. set_solver.
    + unfold relocked. cbn. by destruct g.
  - apply effect_none; try done. intros ? ?; no_acquire.
Qed.

(** Every return preserves the invariant, or stops the machine for a reason
    that is known. *)
Lemma run_frame_good f :
  stack σ = f :: k → f ≠ KUser → wp (run_frame vop_reclaim f) (λ r σ', goodr f r σ') σp.
Proof.
  intros Hk Hne. destruct f.
  - done.
  - by eapply frame_start.
  - by eapply frame_exit.
  - by edestruct (frame_dead vop_reclaim σ rq sl zs t k).
  - by eapply frame_sched.
  - by eapply frame_switched.
  - by eapply frame_yield.
  - by eapply frame_sleep.
  - by eapply frame_P.
  - by eapply frame_lock.
  - by eapply frame_cv.
  - by eapply frame_cvlock.
  - by eapply frame_clock.
  - by apply frame_irq.
  - by apply frame_trap.
Qed.
End trap_frames.

(** An interrupt is taken by a client, by the end of a thread, or in the idle
    loop. *)
Lemma interrupt_good σ rq sl zs irqs :
  wf σ rq sl zs →
  match stack σ with (KUser | KExit | KSched _) :: _ => True | _ => False end →
  wp (mips_trap_irq irqs) (λ r σ', r = Ret () ∧ wf σ' rq sl zs ∧ sems σ' = sems σ ∧ locks σ' = locks σ) σ.
Proof.
  intros [Hpl Hsy [t Hctl]] Htop. unfold mips_trap_irq, interrupts_off, push. do 12 wp_step.
  wp_step. apply wp_curspl_pos; [done|]. do 3 wp_step. split_and!; [done| |done|done].
  destruct Hctl as [[Cpos Cbit] Ctlb Cstack Chigh Cint Cown Cknown Csaved Cmagic Cdead Cundead Crel].
  split; [| |exists t].
  - apply (place_same σ _ rq sl zs); [done| |done|done|done]. destruct (pl_lists _ _ _ _ Hpl). by split.
  - by apply (sync_ok_sub σ _ sl).
  - split; try done; cbn.
    + split; [done|]. change (Z.testbit (Z.land (status σ) (Z.lnot CST_IEc)) 0 = false). rewrite Z.land_spec, Z.lnot_spec by done. by rewrite andb_false_r.
    + split; [done|]. split; [|done]. destruct (stack σ) as [|f k]; [done|].
      split_and!; [done|done|done|]. destruct f; try done. by apply Chigh.
    + unfold owned_by in *. cbn. destruct (curthread σ).
      * destruct Cown as [-> Hno]. split; [done|by repeat constructor].
      * destruct Cown as (pre & k0 & E & Hpre & Hno). destruct pre as [|f pre]; rewrite E in *.
        -- eexists [_; _], k0. by split_and!.
        -- by destruct f.
    + intros Hnot. specialize (Cdead Hnot). set_solver.
Qed.

(** The function that the thread runs returns. *)
Lemma leave_good σ rq sl zs k :
  wf σ rq sl zs → stack σ = KUser :: KExit :: k → good σ rq [] (set_stack (KExit :: k) σ).
Proof.
  intros Hwf Hk. destruct (Hwf) as [Hpl Hsy [t Hctl]]. destruct (pop_ok _ _ _ _ _ Hctl Hk) as [Hok Hon].
  pose proof (top_running _ _ _ _ _ Hctl Hk I) as Hcur. pose proof (running_no_sched _ _ _ Hctl Hcur) as Hns.
  exists rq, sl, zs. split; [split; [| |exists t]|].
  - by eapply pop_place.
  - by eapply pop_sync.
  - apply ctl_running; [done|done| | | |apply Hctl|by apply flag_stack, Hctl|done|exact (ctl_threads _ _ _ Hctl)|done]; cbn.
    + rewrite Hk in Hns. by inversion Hns.
    + rewrite (ct_int _ _ _ Hctl), Hk. by apply in_trap_cons.
    + assert (KDead ∉ stack σ) as Hun; [|rewrite Hk in Hun; set_solver].
      apply (ct_dead _ _ _ Hctl). pose proof (cur_not_asleep _ _ _ _ _ Hpl Hcur). set_solver.
  - apply effect_none; try done. intros ? ?; no_acquire.
Qed.

(** ** Steps *)

Section steps.
Context (vop_reclaim : addr → M (gmap addr vnode) unit).

Lemma interrupt_effect σ rq sl zs irqs σ' :
  wf σ rq sl zs → match stack σ with (KUser | KExit | KSched _) :: _ => True | _ => False end →
  mips_trap_irq irqs σ = (Ret (), σ') → good σ rq [] σ'.
Proof.
  intros Hwf Htop E. pose proof (interrupt_good σ rq sl zs irqs Hwf Htop) as Hg. unfold wp in Hg. rewrite E in Hg.
  destruct Hg as (_ & Hwf' & Es & El). exists rq, sl, zs. split; [done|]. apply effect_none; try done.
  intros ? ?; no_acquire.
Qed.

Lemma step_good σ rq sl zs es σ' : wf σ rq sl zs → step vop_reclaim σ es σ' → good σ rq es σ'.
Proof.
  intros Hwf Hstep. destruct (Hwf) as [_ _ [t Hctl]].
  destruct Hstep as [σ t' k c w σ' Hk Hcur Hok E|σ k Hk|σ f k w σ' Hk Hne E|σ irqs σ' Hst E|σ old k irqs σ' Hk _ E].
  - pose proof (run_call_good vop_reclaim σ rq sl zs t' k Hwf Hk Hcur c Hok) as Hg. unfold wp in Hg.
    by rewrite E in Hg.
  - by eapply leave_good.
  - pose proof (run_frame_good vop_reclaim σ rq sl zs t k Hwf Hctl f Hk Hne) as Hg. unfold wp in Hg.
    by rewrite E in Hg.
  - eapply interrupt_effect; [done| |done]. pose proof (ct_high _ _ _ Hctl) as Hh.
    destruct (ct_flag _ _ _ Hctl) as [_ Hbit]. rewrite Hst in Hbit.
    destruct (stack σ) as [|f k]; [done|]. destruct f; try done; specialize (Hh eq_refl); lia.
  - eapply interrupt_effect; [done| |done]. by rewrite Hk.
Qed.

(** ** Executions *)

Lemma deltas_app s es es' : deltas s (es ++ es') = deltas s es + deltas s es'.
Proof. induction es as [|e es IH]; simpl; [done|]. fold (deltas s). lia. Qed.

(** A thread has a lock when it acquired it and has not released it since. *)
Definition holds (t : tid) (l : addr) (h : list event) : Prop :=
  ∃ h1 e h2, h = h1 ++ e :: h2 ∧ acquires t l [e] ∧ ¬ releases t l h2.

Lemma acquires_elem t l e es : e ∈ es → acquires t l [e] → acquires t l es.
Proof. intros He [H|[cv H]]; apply list_elem_of_singleton in H as <-; [by left|right; by exists cv]. Qed.

Lemma releases_app t l es es' : releases t l es ∨ releases t l es' → releases t l (es ++ es').
Proof. unfold releases. setoid_rewrite elem_of_app. naive_solver. Qed.

(** What an execution does, as [effect] says it of a step. *)
Record trace (σ σ' : kstate) (h : list event) (rq rq' : list tid) : Prop := {
  tr_fifo : ∃ enq, rq ++ enq = dispatched h ++ rq';
  tr_sems : ∀ s n, sems σ !! s = Some n → sems σ' !! s = Some (n + deltas s h);
  tr_locks : ∀ t l, holds t l h → locks σ' !! l = Some (Some t);
}.

Lemma holds_snoc t l h es :
  holds t l (h ++ es) → acquires t l es ∨ holds t l h ∧ ¬ releases t l es.
Proof.
  intros (h1 & e & h2 & E & Ha & Hr).
  apply app_eq_app in E as (m & [[Eh Ees]|[Eh Ees]]).
  - destruct m as [|e' m]; cbn in Ees; [rewrite <- Ees|injection Ees as <- ->; subst h].
    + left. apply (acquires_elem t l e); [set_solver|done].
    + right. split; [exists h1, e, m; split_and!; [done|done|]|]; intros H; apply Hr, releases_app; auto.
  - left. apply (acquires_elem t l e); [|done]. rewrite Ees. set_solver.
Qed.

Lemma steps_good σ rq sl zs h σ' :
  wf σ rq sl zs → steps vop_reclaim σ h σ' →
  ∃ rq' sl' zs', wf σ' rq' sl' zs' ∧ trace σ σ' h rq rq'.
Proof.
  intros Hwf Hsteps. induction Hsteps as [σ|σ h σ' e σ'' _ IH Hstep].
  - exists rq, sl, zs. split; [done|]. split.
    + exists []. by rewrite app_nil_r.
    + intros s n ->. by rewrite Z.add_0_r.
    + intros t l (h1 & e & h2 & E & _). by destruct h1.
  - destruct (IH Hwf) as (rq1 & sl1 & zs1 & Hwf1 & [[enq1 Hf1] Hs1 Hl1]).
    destruct (step_good _ _ _ _ _ _ Hwf1 Hstep) as (rq2 & sl2 & zs2 & Hwf2 & [[enq2 Hf2] Hs2 Hl2 Ha2]).
    exists rq2, sl2, zs2. split; [done|]. split.
    + exists (enq1 ++ enq2). unfold dispatched in *. rewrite omap_app.
      by rewrite (assoc_L (++)), Hf1, <- !(assoc_L (++)), Hf2.
    + intros s n Hn. rewrite (Hs2 s _ (Hs1 s n Hn)), deltas_app. f_equal. lia.
    + intros t l Hh. apply holds_snoc in Hh as [Ha|[Hh Hr]]; [by apply Ha2|].
      destruct (Hl2 l t (Hl1 t l Hh)); done.
Qed.
End steps.
