(* ===== verification/KernelSafety.v ===== *)
(** * What the kernel guarantees to the code that uses it

    Theorems about every execution of the machine of Synch.v from a state that
    satisfies the invariant of Kernel.v: the invariant is kept; locks exclude;
    semaphores count; nobody sleeps on an object that is free; threads are
    dispatched in the order in which they became ready.

    [exec] runs the machine on a list of choices; the examples evaluate it. *)

From S2P Require Import Prelude Array Queue Vnode Machine Dumbvm Thread Sched Synch Kernel KernelStep.

(** ** Running the machine *)

Inductive choice :=
  | DoCall (c : call)
  | DoLeave
  | DoReturn
  | DoIrq (irqs : list irq).

#[export] Instance unused_dec σ a : Decision (unused σ a).
Proof. unfold unused. apply _. Defined.
#[export] Instance next_unused_dec σ : Decision (next_unused σ).
Proof. unfold next_unused. destruct (allocs σ) as [|[] ?]; apply _. Defined.
#[export] Instance call_ok_dec σ c : Decision (call_ok σ c).
Proof. destruct c; cbn; apply _. Defined.

Section exec.
Context (vop_reclaim : addr → M (gmap addr vnode) unit).

Definition exec_step (σ : kstate) (ch : choice) : option (list event * kstate) :=
  match ch, stack σ with
  | DoCall c, KUser :: _ =>
      match curthread σ with
      | Some t =>
          if decide (call_ok σ c) then
            match run_call vop_reclaim c σ with
            | (Ret w, σ') => Some (call_events t c w, σ')
            | _ => None
            end
          else None
      | None => None
      end
  | DoLeave, KUser :: KExit :: k => Some ([], set_stack (KExit :: k) σ)
  | DoReturn, KUser :: _ => None
  | DoReturn, f :: k =>
      match run_frame vop_reclaim f (set_stack k σ) with
      | (Ret w, σ') => Some (return_events σ f k w σ', σ')
      | _ => None
      end
  | DoIrq irqs, f :: _ =>
      if Z.testbit (status σ) 0 || match f with KSched _ => q_empty (runqueue σ) | _ => false end then
        match mips_trap_irq irqs σ with
        | (Ret _, σ') => Some ([], σ')
        | _ => None
        end
      else None
  | _, _ => None
  end.

Fixpoint exec (σ : kstate) (chs : list choice) : option (list event * kstate) :=
  match chs with
  | [] => Some ([], σ)
  | ch :: chs' =>
      '(es, σ') ← exec_step σ ch;
      '(h, σ'') ← exec σ' chs';
      Some (es ++ h, σ'')
  end.

Lemma exec_step_sound σ ch es σ' : exec_step σ ch = Some (es, σ') → step vop_reclaim σ es σ'.
Proof.
  unfold exec_step. intros E. destruct (stack σ) as [|f k] eqn:Hk; [by destruct ch|].
  destruct ch as [c| | |irqs].
  - destruct f; try done. destruct (curthread σ) as [t|] eqn:Hcur; [|done].
    destruct (decide _); [|done]. destruct (run_call _ _ _) as [[w| |] σ1] eqn:Er; simplify_eq.
    by eapply step_call.
  - destruct f, k as [|[] k]; simplify_eq. by apply step_leave.
  - assert (f ≠ KUser ∧ match run_frame vop_reclaim f (set_stack k σ) with
      | (Ret w, σ') => Some (return_events σ f k w σ', σ') | _ => None end = Some (es, σ')) as [Hne E']
      by (by destruct f).
    destruct (run_frame _ _ _) as [[w| |] σ1] eqn:Er; simplify_eq. by eapply step_return.
  - destruct (Z.testbit (status σ) 0) eqn:Hst; cbn in E.
    + destruct (mips_trap_irq _ _) as [[[]| |] σ1] eqn:Er; simplify_eq. by eapply step_interrupt.
    + destruct f; try done. destruct (q_empty _) eqn:Hq; [|done].
      destruct (mips_trap_irq _ _) as [[[]| |] σ1] eqn:Er; simplify_eq. by eapply step_idle.
Qed.

Lemma steps_cons σ es σ1 h σ2 : step vop_reclaim σ es σ1 → steps vop_reclaim σ1 h σ2 → steps vop_reclaim σ (es ++ h) σ2.
Proof.
  intros Hs Hss. induction Hss as [σ1|σ1 h σ2 e σ3 _ IH Hs'].
  - rewrite app_nil_r. apply (steps_snoc _ _ [] σ); [constructor|done].
  - rewrite (assoc_L (++)). eapply steps_snoc; [by apply IH|done].
Qed.

Lemma exec_sound chs σ h σ' : exec σ chs = Some (h, σ') → steps vop_reclaim σ h σ'.
Proof.
  revert σ h. induction chs as [|ch chs IH]; intros σ h E; cbn in E; [simplify_eq; constructor|].
  destruct (exec_step σ ch) as [[es σ1]|] eqn:E1; [|done]. cbn in E.
  destruct (exec σ1 chs) as [[h2 σ2]|] eqn:E2; [|done]. simplify_eq/=.
  eapply steps_cons; [by eapply exec_step_sound|by apply IH].
Qed.
End exec.

(** ** An example: two threads, a semaphore, a lock *)

Definition demo_thread : thread :=
  with_stack (Some stack_magic) (with_pcb (md_initpcb 0x80020000) boot_thread).

Definition demo_state : kstate :=
  set_runqueue {| size := 8; nextwrite := 1; nextread := 0; data := Some 2 :: replicate 7 None |}
    (set_sleepers {| num := 0; max := 8; vec := Some (replicate 8 None) |}
      (set_numthreads 2
        (set_threads {[1 := boot_thread; 2 := demo_thread]}
          (set_sems {[100 := 0]} (set_locks {[200 := None]} boot_state))))).

Definition demo_reclaim (v : addr) : M (gmap addr vnode) unit := mret ().

(** Thread 1 takes the lock; the clock interrupts it; thread 2 starts, and
    sleeps for the lock; thread 1 goes on. *)
Definition demo_choices : list choice :=
  [DoCall (CAcquire 200); DoIrq [irq_timer; irq_V 100]; DoReturn; DoReturn; DoReturn;
   DoCall (CAcquire 200); DoReturn; DoReturn; DoReturn; DoReturn; DoReturn; DoReturn].

Definition demo_end : list event * kstate :=
  default ([], demo_state) (exec demo_reclaim demo_state demo_choices).

Lemma demo_lists : lists demo_state [2] [] [].
Proof.
  split; cbn.
  - split; try done. by intros [|[]] x; [intros [= <-]|..].
  - by split; [split|..].
  - by split; [split|..].
Qed.

Lemma demo_threads t th :
  threads demo_state !! t = Some th → t = 1 ∧ th = boot_thread ∨ t = 2 ∧ th = demo_thread.
Proof.
  cbn. intros [[<- <-]|[_ H]]%lookup_insert_Some; [by left|].
  apply lookup_singleton_Some in H as [<- <-]. by right.
Qed.

Lemma demo_wf : wf demo_state [2] [] [].
Proof.
  split; [split| |exists 1; split]; try done.
  - apply demo_lists.
  - cbn. repeat constructor; set_solver.
  - intros t. cbn. rewrite lookup_insert_is_Some', lookup_singleton_is_Some. set_solver.
  - split; try done; cbn.
    + set_solver.
    + intros s n [<- <-]%lookup_singleton_Some. done.
    + set_solver.
    + set_solver.
    + intros a [n Hn]. apply lookup_singleton_Some in Hn as [<- _]. done.
  - cbn. split; [done|]. by repeat constructor.
  - intros t th [[-> ->]|[-> ->]]%demo_threads Hne; [done|]. split; try done. by repeat constructor.
  - intros t th [[-> ->]|[-> ->]]%demo_threads; done.
  - intros _. set_solver.
  - intros t th [[-> ->]|[-> ->]]%demo_threads Hne _; [done|]. set_solver.
Qed.

Lemma demo_steps : steps demo_reclaim demo_state demo_end.1 demo_end.2.
Proof. apply (exec_sound _ demo_choices). by vm_compute. Qed.

(** ** The theorems *)

(** C7: Let the client threads make calls in any order, and the clock and the
    devices interrupt at any time that interrupts are on.  The calls are P, V,
    lock_acquire, lock_release, cv_wait, cv_signal, cv_broadcast, clocksleep,
    thread_yield, thread_exit, splhigh, splx, thread_fork (which comes back only
    with ENOMEM) and the creation of semaphores, locks and condition variables;
    not their destruction (lock_destroy frees the thread that holds the lock).
    They keep to [call_ok]: cv_wait is given no semaphore or lock as its
    condition variable, splx no negative level, sem_create a count from 0 to the
    largest int, and the memory kmalloc gives for a new object is in nobody's
    use.  Then the kernel keeps its invariant: every
    thread is in exactly one of the running slot, the run queue, the sleepers
    and the zombies; [numthreads] counts them; every stack that is put aside
    can be resumed; the priority level and the interrupt enable bit agree; code
    that relies on interrupts being off runs with them off. *)
Theorem kernel_invariant vop_reclaim σ rq sl zs h σ' :
  wf σ rq sl zs → steps vop_reclaim σ h σ' → ∃ rq' sl' zs', wf σ' rq' sl' zs'.
Proof. intros Hwf Hs. destruct (steps_good _ _ _ _ _ _ _ Hwf Hs) as (rq' & sl' & zs' & Hwf' & _). eauto. Qed.

Lemma kernel_invariant_witness : ∃ rq' sl' zs', wf demo_end.2 rq' sl' zs'.
Proof. apply (kernel_invariant demo_reclaim demo_state [2] [] [] demo_end.1); [apply demo_wf|apply demo_steps]. Defined.

(** C2: Mutual exclusion: if two threads have each acquired a lock, with
    [lock_acquire] or by returning from [cv_wait], and have not given it up
    since, they are the same thread, and the lock records it as the holder. *)
Theorem mutual_exclusion vop_reclaim σ rq sl zs h σ' t t' l :
  wf σ rq sl zs → steps vop_reclaim σ h σ' → holds t l h → holds t' l h →
  t = t' ∧ locks σ' !! l = Some (Some t).
Proof.
  intros Hwf Hs Ht Ht'. destruct (steps_good _ _ _ _ _ _ _ Hwf Hs) as (rq' & sl' & zs' & _ & [_ _ Hl]).
  pose proof (Hl _ _ Ht) as H1. pose proof (Hl _ _ Ht') as H2. split; [congruence|done].
Qed.

Lemma demo_holds : holds 1 200 demo_end.1.
Proof.
  exists [ECall 1 (CAcquire 200)], (EReturn 1 (CAcquire 200)), (drop 2 demo_end.1).
  split_and!; [by vm_compute|left; set_solver|]. vm_compute.
  intros [H|[cv H]]; repeat (apply elem_of_cons in H as [H|H]; [discriminate H|]); by apply elem_of_nil in H.
Qed.

Lemma mutual_exclusion_witness : 1 = 1 ∧ locks demo_end.2 !! 200 = Some (Some 1).
Proof.
  apply (mutual_exclusion demo_reclaim demo_state [2] [] [] demo_end.1);
    [apply demo_wf|apply demo_steps|apply demo_holds|apply demo_holds].
Defined.

(** C13: The count of a semaphore is its first count, plus the calls of [V] by
    threads and by interrupt handlers, minus the calls of [P] that have
    returned; it is never negative and never passes the largest int. *)
Theorem semaphore_count vop_reclaim σ rq sl zs h σ' s n :
  wf σ rq sl zs → steps vop_reclaim σ h σ' → sems σ !! s = Some n →
  sems σ' !! s = Some (n + deltas s h) ∧ 0 ≤ n + deltas s h < 2 ^ 31.
Proof.
  intros Hwf Hs Hn. destruct (steps_good _ _ _ _ _ _ _ Hwf Hs) as (rq' & sl' & zs' & [_ Hsy _] & [_ Hc _]).
  split; [by apply Hc|]. by eapply (sy_count _ _ Hsy), Hc.
Qed.

Lemma semaphore_count_witness :
  sems demo_end.2 !! 100 = Some (0 + deltas 100 demo_end.1) ∧ 0 ≤ 0 + deltas 100 demo_end.1 < 2 ^ 31.
Proof.
  apply (semaphore_count demo_reclaim demo_state [2] [] []); [apply demo_wf|apply demo_steps|reflexivity].
Defined.

(** C14: No wakeup is lost: a thread that waits in the list of sleepers waits on
    a semaphore only while its count is zero, and on a lock only while some
    thread has it. *)
Theorem no_lost_wakeup vop_reclaim σ rq sl zs h σ' :
  wf σ rq sl zs → steps vop_reclaim σ h σ' →
  ∃ sl', array_repr (sleepers σ') sl' ∧
    (∀ t s n, t ∈ sl' → sleeps_on (threads σ') s t → sems σ' !! s = Some n → n = 0) ∧
    (∀ t l h, t ∈ sl' → sleeps_on (threads σ') l t → locks σ' !! l = Some h → is_Some h).
Proof.
  intros Hwf Hs. destruct (steps_good _ _ _ _ _ _ _ Hwf Hs) as (rq' & sl' & zs' & [Hpl Hsy _] & _).
  exists sl'. split_and!.
  - apply Hpl.
  - intros t s n Ht Hon Hn. pose proof (sy_count _ _ Hsy s n Hn).
    destruct (decide (0 < n)) as [Hpos|]; [|lia]. by edestruct (sy_sems _ _ Hsy s n t).
  - intros t l [t'|] Ht Hon Hl; [by eexists|]. by edestruct (sy_locks _ _ Hsy l t).
Qed.

Lemma no_lost_wakeup_witness :
  ∃ sl', array_repr (sleepers demo_end.2) sl' ∧
    (∀ t s n, t ∈ sl' → sleeps_on (threads demo_end.2) s t → sems demo_end.2 !! s = Some n → n = 0) ∧
    (∀ t l h, t ∈ sl' → sleeps_on (threads demo_end.2) l t → locks demo_end.2 !! l = Some h → is_Some h).
Proof. apply (no_lost_wakeup demo_reclaim demo_state [2] [] [] demo_end.1); [apply demo_wf|apply demo_steps]. Defined.

(** C15: Dispatch is first in, first out: the thread in place [i] of the run
    queue is the [i]-th thread to be dispatched, so no ready thread is passed
    over. *)
Theorem round_robin vop_reclaim σ rq sl zs h σ' i t :
  wf σ rq sl zs → steps vop_reclaim σ h σ' → rq !! i = Some t → (i < length (dispatched h))%nat →
  dispatched h !! i = Some t.
Proof.
  intros Hwf Hs Hi Hlt. destruct (steps_good _ _ _ _ _ _ _ Hwf Hs) as (rq' & sl' & zs' & _ & [[enq E] _ _]).
  rewrite <- (lookup_app_l _ rq' i Hlt), <- E. rewrite lookup_app_l; [done|]. by eapply lookup_lt_Some.
Qed.

Lemma round_robin_witness : dispatched demo_end.1 !! 0%nat = Some 2.
Proof.
  apply (round_robin demo_reclaim demo_state [2] [] [] demo_end.1 demo_end.2);
    [apply demo_wf|apply demo_steps|reflexivity|vm_compute; lia].
Defined.

(** The reasons for which a pending call can stop the machine. *)
Definition kernel_stop (σ : kstate) (rq : list tid) (f : frame) (h : stop) : Prop :=
  match h with
  | Blocked => (∃ old, f = KSched old) ∧ rq = []
  | Undef => missing σ f
  | Panic =>
      (∃ s irqs, f = KIrq (irq_V s :: irqs) ∧ sems σ !! s = Some (2 ^ 31 - 1)) ∨
      (∃ cv l spl t, f = KCv cv l spl ∧ curthread σ = Some t ∧ locks σ !! l = Some (Some t))
  | NoFuel | Exited _ => False
  end.

(** While the run queue and the list of sleepers have room for all threads
    and no thread has exited, a pending call of the kernel returns, goes to
    sleep or switches: it stops only in the idle loop, when no thread is ready,
    or if a semaphore or lock it needs is gone, a semaphore is at the largest
    int, or [cv_wait] takes a lock its thread already has. *)
Theorem kernel_no_panic vop_reclaim σ rq sl f k :
  wf σ rq sl [] → room σ → stack σ = f :: k → f ≠ KUser → f ≠ KExit →
  match run_frame vop_reclaim f (set_stack k σ) with
  | (Ret w, σ') => good σ rq (return_events σ f k w σ') σ'
  | (Fail _, _) => False
  | (Halt h, _) => kernel_stop σ rq f h
  end.
Proof.
  intros Hwf Hroom Hk Hne Hne'. destruct (Hwf) as [_ _ [t Hctl]].
  pose proof (run_frame_good vop_reclaim σ rq sl [] t k Hwf Hctl f Hk Hne) as Hg. unfold wp in Hg.
  destruct (run_frame vop_reclaim f (set_stack k σ)) as [[w|e|hh] σ']; [done|done|].
  destruct f; cbn in Hg; try done; try (destruct hh; naive_solver).
  destruct irqs as [|[|s] irqs]; destruct hh; naive_solver.
Qed.

(** A device interrupts thread 1. *)
Definition demo_irq : kstate := (mips_trap_irq [irq_V 100] demo_state).2.
Lemma demo_irq_wf : wf demo_irq [2] [] [].
Proof.
  pose proof (interrupt_good demo_state [2] [] [] [irq_V 100] demo_wf I) as H. unfold wp in H.
  unfold demo_irq. destruct (mips_trap_irq _ _). apply H.
Qed.

Lemma kernel_no_panic_witness :
  match run_frame demo_reclaim (KIrq [irq_V 100]) (set_stack (tail (stack demo_irq)) demo_irq) with
  | (Ret w, σ') => good demo_irq [2] (return_events demo_irq (KIrq [irq_V 100]) (tail (stack demo_irq)) w σ') σ'
  | (Fail _, _) => False
  | (Halt h, _) => kernel_stop demo_irq [2] (KIrq [irq_V 100]) h
  end.
Proof.
  apply (kernel_no_panic demo_reclaim demo_irq [2] []);
    [apply demo_irq_wf|by split; vm_compute|reflexivity|discriminate|discriminate].
Defined.

(** ** Threads that end and threads that start *)

(** After a thread has exited, the next thread to be dispatched stops the
    machine: [thread_destroy] looks up the process id of the wrong thread in a
    table that cannot be searched. *)
Theorem exit_stops_kernel vop_reclaim σ rq sl zs k :
  wf σ rq sl zs → zs ≠ [] → stack σ = KSwitched :: k →
  ∃ h, (run_frame vop_reclaim KSwitched (set_stack k σ)).1 = Halt h.
Proof.
  intros Hwf Hz Hk. destruct (Hwf) as [Hpl _ [t Hctl]].
  assert (wp (run_frame vop_reclaim KSwitched) halts (set_stack k σ)) as H.
  { cbn [run_frame]. unfold waiting, mi_switch_done. do 2 wp_step.
    eapply exorcise_spec; [by apply (lists_pop σ rq sl zs)|by eapply (pop_high _ _ _ _ _ Hctl Hk)| |].
    - intros σ' E _. by destruct Hz.
    - intros h σ' _. by exists h. }
  unfold wp in H. by destruct (run_frame _ _ _).
Qed.

(** [thread_fork] never makes a thread: [pid_create] stores through a pointer
    that has no value. *)
Theorem thread_fork_never_returns vop_reclaim name σ t :
  (thread_fork vop_reclaim name σ).1 ≠ Ret t.
Proof.
  assert (wp (thread_fork vop_reclaim name) (λ r _, ∀ t, r ≠ Ret t) σ) as H.
  { unfold thread_fork. wp_step.
    apply wp_any; [|done|done]. intros [t'|] σ1; [|done]. wp_step. apply wp_any; [intros c σ2|done|done].
    wp_step. apply wp_any; [intros cth σ3|done|done]. wp_step. wp_step. unfold pid_create.
    wp_step. apply wp_any; [intros _ σ4|intros ? ?; by repeat wp_step|done]. wp_step.
    apply wp_any; [intros [a|] σ5|intros ? ?; by repeat wp_step|done]; [|by repeat wp_step].
    wp_step. apply wp_any; [intros cv σ6|intros ? ?; by repeat wp_step|done].
    wp_step. apply wp_any; [intros mem σ7|intros ? ?; by repeat wp_step|done]. do 2 wp_step. wp_step.
    apply wp_any; [intros [] σ8|intros ? ?; by repeat wp_step|done]. by repeat wp_step. }
  unfold wp in H. destruct (thread_fork _ _ _). apply H.
Qed.

(** [lock_destroy] frees the thread that has the lock. *)
Theorem lock_destroy_frees_holder l t σ :
  locks σ !! l = Some (Some t) →
  lock_destroy l σ = (Ret (), set_locks (delete l (locks σ)) (set_threads (delete t (threads σ)) σ)).
Proof. intros Hl. unfold lock_destroy, get_holder, get, deref, mbind, M_bind. cbn. by rewrite Hl. Qed.
