(* ===== verification/CatLock.v ===== *)
(** * Cats and mice with locks and condition variables (kern/asst1/catlock.c)

    Cats and mice share a kitchen with two dishes.  Each animal is a thread that
    runs [catlock] or [mouselock]; the two functions are the same with cats and
    mice exchanged, so they are one program over the [kind] of the animal.

    All shared variables but the counters of animals that are done are used
    under the lock [mutex].  A thread is where it is in its program ([pc]); the
    code between two operations on the lock is one step, taken by the thread
    that has the lock.  The lock and the condition variables are as synch.h
    describes them: [lock_acquire] waits until nobody has the lock, [cv_wait]
    releases it and sleeps, [cv_signal] wakes one sleeper and [cv_broadcast]
    all, and a thread that was woken acquires the lock again before it goes on.

    For any number of cats and mice and any scheduling the theorems show that
    cats and mice never eat together, that no two animals eat from the same
    dish, and that every execution ends with every animal having eaten.  The
    counters of animals that are done are incremented without the lock, and an
    increment can be lost. *)

From S2P Require Import Prelude.

Inductive turn := NOCATMOUSE | CATS | MICE.
Inductive kind := Cat | Mouse.

#[export] Instance turn_eq_dec : EqDecision turn.
Proof. solve_decision. Defined.
#[export] Instance kind_eq_dec : EqDecision kind.
Proof. solve_decision. Defined.

(** The variables [cats_wait_count], ..., or [mice_wait_count], ... *)
Record side := {
  wait_count : Z;
  in_this_turn : Z;
  eat_count : Z;
  done_count : Z;
}.

Record kitchen := {
  turn_type : turn;
  dish1_busy : Z;
  dish2_busy : Z;
  cats : side;
  mice : side;
}.

Definition mine (k : kind) (s : kitchen) : side := match k with Cat => cats s | Mouse => mice s end.
Definition other (k : kind) : kind := match k with Cat => Mouse | Mouse => Cat end.
Definition turn_of (k : kind) : turn := match k with Cat => CATS | Mouse => MICE end.

Definition set_mine (k : kind) (x : side) (s : kitchen) : kitchen :=
  {| turn_type := turn_type s; dish1_busy := dish1_busy s; dish2_busy := dish2_busy s;
     cats := match k with Cat => x | Mouse => cats s end;
     mice := match k with Cat => mice s | Mouse => x end |}.
Definition set_turn (t : turn) (s : kitchen) : kitchen :=
  {| turn_type := t; dish1_busy := dish1_busy s; dish2_busy := dish2_busy s; cats := cats s; mice := mice s |}.
Definition set_dishes (d1 d2 : Z) (s : kitchen) : kitchen :=
  {| turn_type := turn_type s; dish1_busy := d1; dish2_busy := d2; cats := cats s; mice := mice s |}.

Definition add_wait (n : Z) (x : side) : side :=
  {| wait_count := wait_count x + n; in_this_turn := in_this_turn x; eat_count := eat_count x;
     done_count := done_count x |}.
Definition set_in_turn (n : Z) (x : side) : side :=
  {| wait_count := wait_count x; in_this_turn := n; eat_count := eat_count x; done_count := done_count x |}.
Definition add_eat (n : Z) (x : side) : side :=
  {| wait_count := wait_count x; in_this_turn := in_this_turn x; eat_count := eat_count x + n;
     done_count := done_count x |}.
Definition set_done (n : Z) (x : side) : side :=
  {| wait_count := wait_count x; in_this_turn := in_this_turn x; eat_count := eat_count x; done_count := n |}.

(** ** The code *)

(** The new state, and the kind of animal whose sleepers are woken: the cats
    wait on [turn_cv], the mice on [done_cv]. *)
Definition change_turn (s : kitchen) : kitchen * option kind :=
  if negb (wait_count (mice s) =? 0) then
    (set_mine Mouse (set_in_turn 2 (mice s)) (set_turn MICE s), Some Mouse)
  else if negb (wait_count (cats s) =? 0) then
    (set_mine Cat (set_in_turn 2 (cats s)) (set_turn CATS s), Some Cat)
  else (set_turn NOCATMOUSE s, None).

(** After the first [lock_acquire], up to the loop. *)
Definition arrive (k : kind) (s : kitchen) : kitchen :=
  let s := set_mine k (add_wait 1 (mine k s)) s in
  if decide (turn_type s = NOCATMOUSE) then
    set_mine k (set_in_turn 2 (mine k s)) (set_turn (turn_of k) s)
  else s.

(** The condition of the loop. *)
Definition must_wait (k : kind) (s : kitchen) : bool :=
  negb (bool_decide (turn_type s = turn_of k)) || (in_this_turn (mine k s) =? 0).

(** From the loop to [lock_release]; the dish is [mydish]. *)
Definition enter (k : kind) (s : kitchen) : kitchen * Z :=
  let s := set_mine k (set_in_turn (in_this_turn (mine k s) - 1) (mine k s)) s in
  let s := set_mine k (add_eat 1 (mine k s)) s in
  if dish1_busy s =? 0 then (set_dishes 1 (dish2_busy s) s, 1)
  else (set_dishes (dish1_busy s) 1 s, 2).

(** From the second [lock_acquire] to the [cv_signal]; whether it is called. *)
Definition finish (k : kind) (mydish : Z) (s : kitchen) : kitchen * bool :=
  let s := if mydish =? 1 then set_dishes 0 (dish2_busy s) s else set_dishes (dish1_busy s) 0 s in
  let s := set_mine k (add_eat (-1) (mine k s)) s in
  let s := set_mine k (add_wait (-1) (mine k s)) s in
  if (wait_count (mine (other k) s) =? 0) && negb (wait_count (mine k s) =? 0) then
    (set_mine k (set_in_turn (in_this_turn (mine k s) + 1) (mine k s)) s, true)
  else (s, false).

(** [if (cats_eat_count == 0) change_turn();] *)
Definition next_turn (k : kind) (s : kitchen) : kitchen * option kind :=
  if eat_count (mine k s) =? 0 then change_turn s else (s, None).

(** ** Threads *)

Inductive pc :=
  | Start                (* before the first lock_acquire *)
  | Arriving             (* has the lock *)
  | Testing              (* at the head of the loop, has the lock *)
  | Asleep               (* in cv_wait *)
  | Woken                (* in cv_wait, acquiring the lock *)
  | Entering             (* after the loop, has the lock *)
  | Eating (dish : Z)    (* in clocksleep, then in lock_acquire *)
  | Finishing (dish : Z) (* has the lock *)
  | Leaving              (* has released the lock *)
  | Storing (v : Z)      (* in cats_done++, has read v *)
  | Done.

Definition animal : Type := kind * pc.

Record world := {
  shared : kitchen;
  mutex : option nat;
  animals : list animal;
}.

(** What [lock_acquire] leads to. *)
Definition after_acquire (p : pc) : option pc :=
  match p with
  | Start => Some Arriving
  | Woken => Some Testing
  | Eating d => Some (Finishing d)
  | _ => None
  end.

Definition asleep (k : kind) (a : animal) : bool :=
  bool_decide (a.1 = k) && match a.2 with Asleep => true | _ => false end.

Definition wake_all (k : kind) (l : list animal) : list animal :=
  (λ a, if asleep k a then (a.1, Woken) else a) <$> l.

(** [cv_signal] wakes one sleeper if there is one. *)
Inductive wake_one (k : kind) : list animal → list animal → Prop :=
  | wake_some l i : asleep k <$> (l !! i) = Some true → wake_one k l (<[i := (k, Woken)]> l)
  | wake_none l : Forall (λ a, asleep k a = false) l → wake_one k l l.

Inductive kitchen_step : world → world → Prop :=
  | kitchen_acquire s l i k p p' :
      l !! i = Some (k, p) → after_acquire p = Some p' →
      kitchen_step {| shared := s; mutex := None; animals := l |}
           {| shared := s; mutex := Some i; animals := <[i := (k, p')]> l |}
  | kitchen_arrive s m l i k :
      l !! i = Some (k, Arriving) →
      kitchen_step {| shared := s; mutex := m; animals := l |}
           {| shared := arrive k s; mutex := m; animals := <[i := (k, Testing)]> l |}
  | kitchen_wait s m l i k :
      l !! i = Some (k, Testing) → must_wait k s = true →
      kitchen_step {| shared := s; mutex := m; animals := l |}
           {| shared := s; mutex := None; animals := <[i := (k, Asleep)]> l |}
  | kitchen_pass s m l i k :
      l !! i = Some (k, Testing) → must_wait k s = false →
      kitchen_step {| shared := s; mutex := m; animals := l |}
           {| shared := s; mutex := m; animals := <[i := (k, Entering)]> l |}
  | kitchen_enter s m l i k s' d :
      l !! i = Some (k, Entering) → enter k s = (s', d) →
      kitchen_step {| shared := s; mutex := m; animals := l |}
           {| shared := s'; mutex := None; animals := <[i := (k, Eating d)]> l |}
  | kitchen_finish s m l i k d s' (sig : bool) s'' b l' :
      l !! i = Some (k, Finishing d) → finish k d s = (s', sig) → next_turn k s' = (s'', b) →
      (if sig then wake_one k l l' else l' = l) →
      kitchen_step {| shared := s; mutex := m; animals := l |}
           {| shared := s''; mutex := None;
              animals := <[i := (k, Leaving)]> (if b is Some k' then wake_all k' l' else l') |}
  | kitchen_load s m l i k :
      l !! i = Some (k, Leaving) →
      kitchen_step {| shared := s; mutex := m; animals := l |}
           {| shared := s; mutex := m; animals := <[i := (k, Storing (done_count (mine k s)))]> l |}
  | kitchen_store s m l i k v :
      l !! i = Some (k, Storing v) →
      kitchen_step {| shared := s; mutex := m; animals := l |}
           {| shared := set_mine k (set_done (v + 1) (mine k s)) s; mutex := m;
              animals := <[i := (k, Done)]> l |}.

(** [catmouselock]: the variables are set, one thread is started for each
    animal. *)
Definition no_side : side := {| wait_count := 0; in_this_turn := 0; eat_count := 0; done_count := 0 |}.
Definition init (ks : list kind) : world :=
  {| shared := {| turn_type := NOCATMOUSE; dish1_busy := 0; dish2_busy := 0; cats := no_side; mice := no_side |};
     mutex := None; animals := (λ k, (k, Start)) <$> ks |}.

(** Executions with their length. *)
Inductive kitchen_steps : nat → world → world → Prop :=
  | kitchen_steps_0 w : kitchen_steps 0 w w
  | kitchen_steps_S n w w' w'' : kitchen_steps n w w' → kitchen_step w' w'' → kitchen_steps (S n) w w''.

(** ** Counting *)

Definition b2z (b : bool) : Z := if b then 1 else 0.
Fixpoint count (P : animal → bool) (l : list animal) : Z :=
  match l with
  | [] => 0
  | a :: l' => b2z (P a) + count P l'
  end.

Lemma b2z_range b : 0 ≤ b2z b ≤ 1.
Proof. destruct b; simpl; lia. Qed.

Lemma count_nonneg P l : 0 ≤ count P l.
Proof. induction l as [|a l IH]; simpl; [done|]. pose proof (b2z_range (P a)). lia. Qed.

Lemma count_insert P l i x y :
  l !! i = Some x → count P (<[i := y]> l) = count P l - b2z (P x) + b2z (P y).
Proof.
  revert i. induction l as [|a l IH]; intros [|i] Hi; simplify_eq/=; [lia|]. rewrite (IH i) by done. lia.
Qed.

Lemma count_lookup P l i x : l !! i = Some x → P x = true → 1 ≤ count P l.
Proof.
  revert i. induction l as [|a l IH]; intros [|i] Hi Hx; simplify_eq/=.
  - rewrite Hx. pose proof (count_nonneg P l). simpl. lia.
  - pose proof (IH i Hi Hx). pose proof (b2z_range (P a)). lia.
Qed.

(** Two animals that are counted make two. *)
Lemma count_two P l i j x y :
  l !! i = Some x → l !! j = Some y → P x = true → P y = true → i ≠ j → 2 ≤ count P l.
Proof.
  revert i j. induction l as [|a l IH]; intros [|i] [|j] Hi Hj Hx Hy Hne; simplify_eq/=.
  - rewrite Hx. pose proof (count_lookup P l j y Hj Hy). simpl. lia.
  - rewrite Hy. pose proof (count_lookup P l i x Hi Hx). simpl. lia.
  - pose proof (b2z_range (P a)). assert (2 ≤ count P l); [|lia]. apply (IH i j); auto.
Qed.

Lemma count_pos P l : 0 < count P l → ∃ i x, l !! i = Some x ∧ P x = true.
Proof.
  induction l as [|a l IH]; simpl; [lia|]. destruct (P a) eqn:Ha; simpl; intros H.
  - by exists 0%nat, a.
  - destruct IH as (i & x & Hi & Hx); [lia|]. by exists (S i), x.
Qed.

Lemma count_add P Q R l : (∀ a, b2z (P a) = b2z (Q a) + b2z (R a)) → count P l = count Q l + count R l.
Proof. intros H. induction l as [|a l IH]; simpl; [done|]. rewrite H. lia. Qed.

(** ** Places in the program *)

Definition is_kind (k : kind) (a : animal) : bool := bool_decide (a.1 = k).
(** Has the lock. *)
Definition locked (p : pc) : bool :=
  match p with Arriving | Testing | Entering | Finishing _ => true | _ => false end.
(** Has a dish. *)
Definition eating (k : kind) (a : animal) : bool :=
  is_kind k a && match a.2 with Eating _ | Finishing _ => true | _ => false end.
Definition at_dish (d : Z) (a : animal) : bool :=
  match a.2 with Eating d' | Finishing d' => d' =? d | _ => false end.
Definition odd_dish (a : animal) : bool := (eating Cat a || eating Mouse a) && negb (at_dish 1 a || at_dish 2 a).
(** Waits for its turn, and will look whether it has come. *)
Definition ready (k : kind) (a : animal) : bool :=
  is_kind k a && match a.2 with Testing | Woken | Entering => true | _ => false end.
Definition waiting (k : kind) (a : animal) : bool := is_kind k a && (ready k a || asleep k a || eating k a).

Lemma waiting_split k l : count (waiting k) l = count (ready k) l + count (asleep k) l + count (eating k) l.
Proof.
  rewrite (count_add (waiting k) (λ a, ready k a || asleep k a) (eating k)).
  - rewrite (count_add _ (ready k) (asleep k)); [done|].
    intros [k' []]; unfold ready, asleep, is_kind; simpl; by case_bool_decide.
  - intros [k' []]; unfold waiting, eating, ready, asleep, is_kind; simpl; by case_bool_decide.
Qed.

(** Some sleepers have been woken. *)
Definition woken (a a' : animal) : Prop := a' = a ∨ a.2 = Asleep ∧ a' = (a.1, Woken).

Lemma wake_all_woken k l : Forall2 woken l (wake_all k l).
Proof.
  unfold wake_all. apply Forall2_fmap_r, Forall_Forall2_diag, Forall_true. intros [k' p].
  unfold woken, asleep. simpl. case_bool_decide; destruct p; simpl; auto.
Qed.

Lemma wake_one_woken k l l' : wake_one k l l' → Forall2 woken l l'.
Proof.
  assert (∀ l, Forall2 woken l l) as Hrefl by (intros l0; apply Forall_Forall2_diag, Forall_true; by left).
  intros [l0 i Hi|l0 _]; [|done].
  destruct (l0 !! i) as [[k' p]|] eqn:E; [|done]. unfold asleep in Hi. simpl in Hi.
  destruct (bool_decide (k' = k)) eqn:Hk; [|done]. apply bool_decide_eq_true in Hk as ->.
  destruct p; try done. rewrite <- (list_insert_id l0 i (k, Asleep)) at 1 by done.
  apply Forall2_insert; [done|]. by right.
Qed.

Lemma woken_trans l1 l2 l3 : Forall2 woken l1 l2 → Forall2 woken l2 l3 → Forall2 woken l1 l3.
Proof.
  intros H. revert l3. induction H as [|a1 a2 l1 l2 Ha _ IH]; intros l3 H'; [done|].
  inversion H' as [|? a3 ? l4 Hb H4]; subst. constructor; [|by apply IH].
  destruct Ha as [->|[Ha ->]]; [done|]. destruct Hb as [->|[Hb _]]; [by right|done].
Qed.

Lemma woken_count P l l' :
  (∀ k, P (k, Woken) = P (k, Asleep)) → Forall2 woken l l' → count P l' = count P l.
Proof.
  intros HP. induction 1 as [|a a' l l' Ha _ IH]; simpl; [done|]. rewrite IH.
  destruct Ha as [->|[Hp ->]]; [done|]. destruct a as [k p]. simpl in *. subst p. by rewrite HP.
Qed.

Lemma woken_ready k l l' : Forall2 woken l l' → count (ready k) l ≤ count (ready k) l'.
Proof.
  induction 1 as [|a a' l l' Ha _ IH]; simpl; [done|].
  destruct Ha as [->|[Hp ->]]; [lia|]. destruct a as [k' p]. simpl in *. subst p.
  assert (ready k (k', Asleep) = false) as -> by apply andb_false_r. simpl.
  pose proof (b2z_range (ready k (k', Woken))). lia.
Qed.

Lemma wake_all_asleep k l : count (asleep k) (wake_all k l) = 0.
Proof.
  induction l as [|a l IH]; simpl; [done|]. rewrite IH. destruct (asleep k a) eqn:Ha; [|by rewrite Ha].
  unfold asleep. simpl. by rewrite andb_false_r.
Qed.

Lemma woken_lookup l l' i k p :
  Forall2 woken l l' → l' !! i = Some (k, p) → p ≠ Woken → l !! i = Some (k, p).
Proof.
  intros Hw Hi Hp. destruct (Forall2_lookup_r _ _ _ _ _ Hw Hi) as (a & Ha & [->|[_ E]]); [done|].
  by simplify_eq.
Qed.

Lemma woken_lookup_r l l' i k p :
  Forall2 woken l l' → l !! i = Some (k, p) → p ≠ Asleep → l' !! i = Some (k, p).
Proof.
  intros Hw Hi Hp. destruct (Forall2_lookup_l _ _ _ _ _ Hw Hi) as (a & Ha & [->|[E _]]); [done|done].
Qed.

(** ** The invariant *)

(** Exactly the thread that has the lock is in code that needs it. *)
Record lock_ok (m : option nat) (l : list animal) : Prop := {
  lo_locked : ∀ i k p, l !! i = Some (k, p) → locked p = true → m = Some i;
  lo_holder : ∀ i, m = Some i → ∃ k p, l !! i = Some (k, p) ∧ locked p = true;
}.

(** The counters count; only animals whose turn it is eat; each dish has at most
    one animal; and when it is the turn of a kind and nobody eats, one of that
    kind is about to look. *)
Record data_ok (s : kitchen) (l : list animal) : Prop := {
  da_wait : ∀ k, wait_count (mine k s) = count (waiting k) l;
  da_eat : ∀ k, eat_count (mine k s) = count (eating k) l;
  da_turn : ∀ k, eat_count (mine k s) ≠ 0 → turn_type s = turn_of k;
  da_room : ∀ k, turn_type s = turn_of k →
    0 ≤ in_this_turn (mine k s) ∧ eat_count (mine k s) + in_this_turn (mine k s) ≤ 2;
  da_free : turn_type s = NOCATMOUSE → ∀ k, wait_count (mine k s) = 0;
  da_dishes : count (eating Cat) l + count (eating Mouse) l = count (at_dish 1) l + count (at_dish 2) l;
  da_odd : count odd_dish l = 0;
  da_busy1 : dish1_busy s = count (at_dish 1) l;
  da_busy2 : dish2_busy s = count (at_dish 2) l;
  da_one : count (at_dish 1) l ≤ 1 ∧ count (at_dish 2) l ≤ 1;
  da_next : ∀ k, turn_type s = turn_of k → eat_count (mine k s) = 0 →
    in_this_turn (mine k s) = 2 ∧ 0 < count (ready k) l;
}.

Record inv (w : world) : Prop := {
  i_lock : lock_ok (mutex w) (animals w);
  i_data : data_ok (shared w) (animals w);
  i_enter : ∀ i k, animals w !! i = Some (k, Entering) → must_wait k (shared w) = false;
}.

Lemma lock_ok_insert m m' l i k p p' :
  lock_ok m l → l !! i = Some (k, p) →
  m' = (if locked p' then Some i else if locked p then None else m) →
  (locked p' = true → locked p = true ∨ m = None) →
  lock_ok m' (<[i := (k, p')]> l).
Proof.
  intros [Hl Hh] Hi Hm Hp. pose proof (Hl _ _ _ Hi) as Hi'. pose proof (lookup_lt_Some _ _ _ Hi) as Hlt. split.
  - intros j k0 p0 [(-> & E & _)|[Hne Hj]]%list_lookup_insert_Some Hlk; simplify_eq; [by rewrite Hlk|].
    pose proof (Hl _ _ _ Hj Hlk) as Hmj. destruct (locked p'), (locked p); try done; naive_solver.
  - intros j Hj. destruct (decide (j = i)) as [->|Hne].
    + exists k, p'. rewrite list_lookup_insert_eq by done. split; [done|].
      destruct (locked p'), (locked p) eqn:Hlp; simplify_eq; [done|done|].
      destruct (Hh i) as (k0 & p0 & Hi0 & Hp0); [done|]. simplify_eq. congruence.
    + rewrite list_lookup_insert_ne by done. destruct (locked p'), (locked p); simplify_eq. auto.
Qed.

Lemma lock_ok_woken m l l' : lock_ok m l → Forall2 woken l l' → lock_ok m l'.
Proof.
  intros [Hl Hh] Hw. split.
  - intros i k p Hi Hp. apply (Hl i k p); [|done]. eapply woken_lookup; [done..|]. by intros ->.
  - intros i Hm. destruct (Hh i Hm) as (k & p & Hi & Hp). exists k, p. split; [|done].
    eapply woken_lookup_r; [done..|]. by intros ->.
Qed.

(** A step of the thread itself, which no count but that of the ready ones
    notices. *)
Lemma data_ok_same s s' l i k p p' :
  data_ok s l → l !! i = Some (k, p) →
  (∀ k0, eating k0 (k, p') = eating k0 (k, p) ∧ waiting k0 (k, p') = waiting k0 (k, p)) →
  (∀ d, at_dish d (k, p') = at_dish d (k, p)) →
  (∀ k0, turn_type s = turn_of k0 → in_this_turn (mine k0 s) = 2 →
     b2z (ready k0 (k, p)) ≤ b2z (ready k0 (k, p'))) →
  turn_type s' = turn_type s → dish1_busy s' = dish1_busy s → dish2_busy s' = dish2_busy s →
  (∀ k0, wait_count (mine k0 s') = wait_count (mine k0 s) ∧ eat_count (mine k0 s') = eat_count (mine k0 s) ∧
         in_this_turn (mine k0 s') = in_this_turn (mine k0 s)) →
  data_ok s' (<[i := (k, p')]> l).
Proof.
  intros [] Hi Hew Hd Hr Et E1 E2 Es.
  split.
  - intros k0. destruct (Hew k0) as [_ E]. destruct (Es k0) as (-> & _ & _).
    rewrite (count_insert _ _ _ _ _ Hi), E, da_wait0. lia.
  - intros k0. destruct (Hew k0) as [E _]. destruct (Es k0) as (_ & -> & _).
    rewrite (count_insert _ _ _ _ _ Hi), E, da_eat0. lia.
  - intros k0. destruct (Es k0) as (_ & -> & _). rewrite Et. auto.
  - intros k0. destruct (Es k0) as (_ & -> & ->). rewrite Et. auto.
  - rewrite Et. intros Ht k0. destruct (Es k0) as (-> & _ & _). auto.
  - destruct (Hew Cat) as [Ec _], (Hew Mouse) as [Em _].
    rewrite !(count_insert _ _ _ _ _ Hi), !Hd, Ec, Em. lia.
  - rewrite (count_insert _ _ _ _ _ Hi). unfold odd_dish at 2 3.
    destruct (Hew Cat) as [-> _], (Hew Mouse) as [-> _]. rewrite !Hd. lia.
  - rewrite E1, (count_insert _ _ _ _ _ Hi), Hd. lia.
  - rewrite E2, (count_insert _ _ _ _ _ Hi), Hd. lia.
  - rewrite !(count_insert _ _ _ _ _ Hi), !Hd. lia.
  - intros k0. destruct (Es k0) as (_ & -> & ->). rewrite Et. intros Ht He.
    destruct (da_next0 k0 Ht He) as [H2 Hpos]. split; [done|].
    rewrite (count_insert _ _ _ _ _ Hi). pose proof (Hr k0 Ht H2). lia.
Qed.

(** The facts about both kinds, and cases on whose turn it is. *)
Lemma eating_waiting k l : 0 ≤ count (eating k) l ≤ count (waiting k) l.
Proof.
  rewrite waiting_split. pose proof (count_nonneg (ready k) l). pose proof (count_nonneg (asleep k) l).
  pose proof (count_nonneg (eating k) l). lia.
Qed.

Ltac both H := let H1 := fresh in let H2 := fresh in pose proof (H Cat) as H1; pose proof (H Mouse) as H2; clear H.
Ltac facts l :=
  pose proof (λ k, eating_waiting k l); pose proof (λ k, count_nonneg (ready k) l);
  pose proof (λ k, count_nonneg (asleep k) l); pose proof (λ k, waiting_split k l);
  repeat match goal with H : ∀ k : kind, _ |- _ => both H end.
Ltac by_turn s :=
  destruct (turn_type s) eqn:?; simpl in *; repeat match goal with
    | H : ?x = ?x → _ |- _ => specialize (H eq_refl)
    | H : ∀ k : kind, _ |- _ => both H; simpl in *
    | H : _ ≠ 0 → ?t = ?t |- _ => clear H
    | H : ?x ≠ 0 → _ = _ :> turn |- _ =>
        assert (x = 0) by (destruct (decide (x = 0)) as [|Hn]; [done|by specialize (H Hn)]); clear H
    | H : CATS = _ → _ |- _ => clear H
    | H : MICE = _ → _ |- _ => clear H
    | H : NOCATMOUSE = _ → _ |- _ => clear H
    end.
Ltac arith := try done; try congruence; try lia; try (intuition lia).

(** An animal arrives. *)
Lemma data_ok_arrive s l i k :
  data_ok s l → l !! i = Some (k, Arriving) → data_ok (arrive k s) (<[i := (k, Testing)]> l).
Proof.
  intros [] Hi. facts l. unfold arrive. cbn [turn_type set_mine]. case_decide as Ht.
  - split; intros; rewrite ?(count_insert _ _ _ _ _ Hi); destruct k; try destruct k0; by_turn s; arith.
  - split; intros; rewrite ?(count_insert _ _ _ _ _ Hi); destruct k; try destruct k0; by_turn s; arith.
Qed.

(** An animal enters the kitchen. *)
Lemma data_ok_enter s l i k s' d :
  data_ok s l → l !! i = Some (k, Entering) → must_wait k s = false → enter k s = (s', d) →
  data_ok s' (<[i := (k, Eating d)]> l).
Proof.
  intros [] Hi Hmw E. apply orb_false_iff in Hmw as [Ht%negb_false_iff%bool_decide_eq_true Hin%Z.eqb_neq].
  facts l. pose proof (count_nonneg (at_dish 1) l). pose proof (count_nonneg (at_dish 2) l).
  unfold enter in E. destruct k; simpl in *; destruct (Z.eqb_spec (dish1_busy s) 0) as [E1|E1]; simplify_eq/=.
  all: split; intros; rewrite ?(count_insert _ _ _ _ _ Hi); try destruct k; by_turn s; arith.
Qed.

(** An animal leaves, and wakes others. *)
Lemma data_ok_finish s l i k d s' sig s'' b l2 :
  data_ok s l → l !! i = Some (k, Finishing d) → finish k d s = (s', sig) → next_turn k s' = (s'', b) →
  Forall2 woken l l2 → (∀ k', b = Some k' → count (asleep k') l2 = 0) →
  data_ok s'' (<[i := (k, Leaving)]> l2).
Proof.
  intros [] Hi Ef En Hw Hb.
  assert (d = 1 ∨ d = 2) as Hd.
  { destruct (odd_dish (k, Finishing d)) eqn:Ho; [pose proof (count_lookup _ _ _ _ Hi Ho); lia|].
    unfold odd_dish, eating, at_dish, is_kind in Ho. destruct k; simpl in Ho; lia. }
  pose proof (λ k, count_lookup (eating k) _ _ _ Hi) as Heat.
  assert (∀ P, (∀ k, P (k, Woken) = P (k, Asleep)) → count P l2 = count P l) as Hcnt
    by (intros P HP; by apply woken_count).
  assert (l2 !! i = Some (k, Finishing d)) as Hi2 by (by apply (woken_lookup_r l)).
  assert (∀ k0, count (waiting k0) l2 = count (waiting k0) l) as Hwt.
  { intros k0. apply Hcnt. intros k1. unfold waiting, ready, asleep, eating, is_kind. simpl. by case_bool_decide. }
  assert (∀ k0, count (eating k0) l2 = count (eating k0) l) as Het by (intros k0; by apply Hcnt).
  assert (∀ d, count (at_dish d) l2 = count (at_dish d) l) as Hdi by (intros d0; by apply Hcnt).
  assert (count odd_dish l2 = count odd_dish l) as Hod by (by apply Hcnt).
  pose proof (λ k, woken_ready k _ _ Hw) as Hrd. pose proof (Hb Cat) as Hbc. pose proof (Hb Mouse) as Hbm. clear Hb Hcnt Hw.
  assert (turn_type s = turn_of k) as Ht.
  { apply da_turn0. rewrite da_eat0. enough (1 ≤ count (eating k) l) by lia. apply Heat. by destruct k. }
  assert (eat_count (mine (other k) s) = 0) as Hother.
  { destruct (decide (eat_count (mine (other k) s) = 0)) as [|Hn]; [done|]. apply da_turn0 in Hn. by destruct k; rewrite Ht in Hn. }
  assert (1 ≤ count (at_dish d) l) as Hat by (apply (count_lookup _ _ _ _ Hi), Z.eqb_refl).
  pose proof (Hdi 1) as Hd1. pose proof (Hdi 2) as Hd2. clear Hdi da_turn0.
  facts l2. unfold finish, next_turn, change_turn in *.
  destruct k; simpl in *; destruct Hd as [->| ->]; simpl in *.
  all: repeat (match type of Ef with context [?x =? ?y] => destruct (Z.eqb_spec x y) end; simpl in *); simplify_eq/=.
  all: repeat (match type of En with context [?x =? ?y] => destruct (Z.eqb_spec x y) end; simpl in *); simplify_eq/=.
  all: repeat match goal with
    | H : ?x = ?x → _ |- _ => specialize (H eq_refl)
    | H : turn_type ?x = ?t → _, Ht : turn_type ?x = ?t |- _ => specialize (H Ht)
    | H : Some _ = Some _ → _ |- _ => clear H
    | H : None = Some _ → _ |- _ => clear H
    end.
  all: split; intros; rewrite ?(count_insert _ _ _ _ _ Hi2); try destruct k; simpl in *; arith.
Qed.

(** ** Every step preserves the invariant *)

Lemma inv_init ks : inv (init ks).
Proof.
  assert (∀ P : animal → bool, (∀ k, P (k, Start) = false) → count P ((λ k, (k, Start)) <$> ks) = 0) as H0.
  { intros P HP. induction ks as [|k ks IH]; [done|]. rewrite fmap_cons. cbn [count]. by rewrite HP, IH. }
  assert (∀ i k p, ((λ k, (k, Start)) <$> ks) !! i = Some (k, p) → p = Start) as Hs.
  { intros i k p Hi. apply list_lookup_fmap_Some in Hi as (k' & ? & ?). by simplify_eq. }
  split; simpl.
  - split; [|done]. by intros i k p ->%Hs.
  - split; intros; rewrite ?H0; try destruct k; try done;
      intros k'; unfold waiting, eating, odd_dish, eating, ready, asleep; simpl; by rewrite ?andb_false_r.
  - by intros i k ?%Hs.
Qed.

(** Nobody else is in code that needs the lock. *)
Lemma entering_alone m l i k p j k' :
  lock_ok m l → l !! i = Some (k, p) → locked p = true → l !! j = Some (k', Entering) → j = i.
Proof. intros [Hl _] Hi Hp Hj. pose proof (Hl _ _ _ Hi Hp). pose proof (Hl _ _ _ Hj eq_refl). congruence. Qed.

Lemma inv_step w w' : inv w → kitchen_step w w' → inv w'.
Proof.
  intros [Hlock Hdata Hent] Hs.
  destruct Hs as [s l i k p p' Hi Ha|s m l i k Hi|s m l i k Hi Hm|s m l i k Hi Hm|s m l i k s' d Hi E
    |s m l i k d s' sig s'' b l' Hi Ef En Hw|s m l i k Hi|s m l i k v Hi]; simpl in *.
  - split; simpl.
    + apply (lock_ok_insert None _ l i k p); [done|done| |by right]. by destruct p; simplify_eq/=.
    + apply (data_ok_same s s l i k p); try done; destruct p; simplify_eq/=; try done.
    + intros j k0 [(_ & E & _)|[_ Hj]]%list_lookup_insert_Some; [|by apply (Hent j)]. by destruct p; simplify_eq/=.
  - pose proof (lo_locked _ _ Hlock _ _ _ Hi eq_refl) as ->. split; simpl.
    + by apply (lock_ok_insert (Some i) _ l i k Arriving); auto.
    + by apply data_ok_arrive.
    + intros j k0 [(_ & E & _)|[Hne Hj]]%list_lookup_insert_Some; [done|].
      by pose proof (entering_alone _ _ _ _ _ _ _ Hlock Hi eq_refl Hj).
  - pose proof (lo_locked _ _ Hlock _ _ _ Hi eq_refl) as ->. split; simpl.
    + by apply (lock_ok_insert (Some i) _ l i k Testing); auto.
    + apply (data_ok_same s s l i k Testing); try done.
      * intros k0. unfold waiting, ready, asleep, eating, is_kind. simpl. by case_bool_decide.
      * intros k0 Ht H2. unfold ready, is_kind. simpl. case_bool_decide as Hk; [|done]. subst k0.
        unfold must_wait in Hm. rewrite H2, bool_decide_true in Hm by done. done.
    + intros j k0 [(_ & E & _)|[_ Hj]]%list_lookup_insert_Some; [done|by apply (Hent j)].
  - pose proof (lo_locked _ _ Hlock _ _ _ Hi eq_refl) as ->. split; simpl.
    + by apply (lock_ok_insert (Some i) _ l i k Testing); auto.
    + by apply (data_ok_same s s l i k Testing).
    + intros j k0 [(-> & E & _)|[_ Hj]]%list_lookup_insert_Some; [by simplify_eq|by apply (Hent j)].
  - pose proof (lo_locked _ _ Hlock _ _ _ Hi eq_refl) as ->. split; simpl.
    + by apply (lock_ok_insert (Some i) _ l i k Entering); auto.
    + eapply data_ok_enter; eauto.
    + intros j k0 [(_ & E' & _)|[Hne Hj]]%list_lookup_insert_Some; [done|].
      by pose proof (entering_alone _ _ _ _ _ _ _ Hlock Hi eq_refl Hj).
  - pose proof (lo_locked _ _ Hlock _ _ _ Hi eq_refl) as ->.
    assert (∃ l2, Forall2 woken l l2 ∧ (∀ k', b = Some k' → count (asleep k') l2 = 0) ∧
      (if b is Some k' then wake_all k' l' else l') = l2) as (l2 & Hw2 & Hz & ->).
    { assert (Forall2 woken l l') as Hw1.
      { destruct sig; [by eapply wake_one_woken|]. subst l'. apply Forall_Forall2_diag, Forall_true. by left. }
      eexists. split_and!; [|..|done].
      - destruct b as [k'|]; [|done]. eapply woken_trans; [done|apply wake_all_woken].
      - intros k' ->. apply wake_all_asleep. }
    split; simpl.
    + apply (lock_ok_insert (Some i) _ l2 i k (Finishing d)); auto.
      * by eapply lock_ok_woken.
      * by eapply woken_lookup_r.
    + by eapply data_ok_finish.
    + intros j k0 [(_ & E' & _)|[Hne Hj]]%list_lookup_insert_Some; [done|].
      apply (woken_lookup l) in Hj; [|done|done].
      by pose proof (entering_alone _ _ _ _ _ _ _ Hlock Hi eq_refl Hj).
  - split; simpl.
    + by apply (lock_ok_insert m _ l i k Leaving); auto.
    + by apply (data_ok_same s s l i k Leaving).
    + intros j k0 [(_ & E & _)|[_ Hj]]%list_lookup_insert_Some; [done|by apply (Hent j)].
  - split; simpl.
    + by apply (lock_ok_insert m _ l i k (Storing v)); auto.
    + apply (data_ok_same s _ l i k (Storing v)); try done. intros k0. by destruct k, k0.
    + intros j k0 [(_ & E & _)|[_ Hj]]%list_lookup_insert_Some; [done|]. rewrite <- (Hent j k0 Hj). by destruct k, k0.
Qed.

Lemma inv_steps ks n w : kitchen_steps n (init ks) w → inv w.
Proof.
  intros Hs. remember (init ks) as w0 eqn:E. revert E.
  induction Hs as [w|n w w' w'' _ IH Hstep]; intros ->; [apply inv_init|]. by eapply inv_step; [apply IH|].
Qed.

(** ** Termination *)

(** An upper bound on the steps an animal of [N] can still take, counting those
    it can make others take. *)
Definition rank (N : Z) (a : animal) : Z :=
  match a.2 with
  | Start => 3 * N + 11
  | Arriving => 3 * N + 10
  | Woken => 3 * N + 9
  | Testing => 3 * N + 8
  | Asleep => 3 * N + 6
  | Entering => 3 * N + 5
  | Eating _ => 3 * N + 4
  | Finishing _ => 3 * N + 3
  | Leaving => 2
  | Storing _ => 1
  | Done => 0
  end.
Fixpoint total (N : Z) (l : list animal) : Z :=
  match l with
  | [] => 0
  | a :: l' => rank N a + total N l'
  end.

Lemma total_cons N a l : total N (a :: l) = rank N a + total N l.
Proof. done. Qed.

Lemma total_insert N l i x y :
  l !! i = Some x → total N (<[i := y]> l) = total N l - rank N x + rank N y.
Proof.
  revert i. induction l as [|a l IH]; intros [|i] Hi; [done|done|..]; simpl in Hi |- *.
  - injection Hi as ->. lia.
  - rewrite (IH i) by done. lia.
Qed.

Lemma total_woken N l l' : Forall2 woken l l' → total N l' ≤ total N l + 3 * zlen l.
Proof.
  unfold zlen. induction 1 as [|a a' l l' Ha _ IH]; [done|]. rewrite !total_cons. simpl length.
  assert (rank N a' ≤ rank N a + 3); [|lia].
  destruct Ha as [->|[Ha ->]]; [lia|]. unfold rank. rewrite Ha. simpl. lia.
Qed.

Lemma total_nonneg N l : 0 ≤ N → 0 ≤ total N l.
Proof.
  intros HN. induction l as [|a l IH]; [done|]. rewrite total_cons.
  assert (0 ≤ rank N a); [|lia]. unfold rank. destruct (a.2); lia.
Qed.

Lemma step_decreases w w' :
  kitchen_step w w' →
  zlen (animals w') = zlen (animals w) ∧
  total (zlen (animals w)) (animals w') < total (zlen (animals w)) (animals w).
Proof.
  intros Hs.
  destruct Hs as [s l i k p p' Hi Ha|s m l i k Hi|s m l i k Hi Hm|s m l i k Hi Hm|s m l i k s' d Hi E
    |s m l i k d s' sig s'' b l' Hi Ef En Hw|s m l i k Hi|s m l i k v Hi]; simpl in *.
  6: {
    assert (Forall2 woken l l') as Hw1.
    { destruct sig; [by eapply wake_one_woken|]. subst l'. apply Forall_Forall2_diag, Forall_true. by left. }
    assert (Forall2 woken l (if b is Some k' then wake_all k' l' else l')) as Hw2.
    { destruct b; [|done]. eapply woken_trans; [done|apply wake_all_woken]. }
    pose proof (total_woken (zlen l) _ _ Hw2). pose proof (Forall2_length _ _ _ Hw2) as Hlen.
    assert ((if b is Some k' then wake_all k' l' else l') !! i = Some (k, Finishing d)) as Hi2
      by (by eapply woken_lookup_r).
    rewrite (total_insert _ _ _ _ _ Hi2). split; [unfold zlen in *; rewrite length_insert; lia|]. simpl. unfold rank in *. simpl in *. lia. }
  all: split; [unfold zlen; by rewrite length_insert|]; rewrite (total_insert _ _ _ _ _ Hi); try (unfold rank; simpl; lia).
  destruct p; simplify_eq/=; unfold rank; simpl; lia.
Qed.

Lemma steps_bounded ks n w :
  kitchen_steps n (init ks) w →
  zlen (animals w) = zlen ks ∧
  Z.of_nat n + total (zlen ks) (animals w) ≤ zlen ks * (3 * zlen ks + 11).
Proof.
  intros Hs. remember (init ks) as w0 eqn:E. revert E.
  induction Hs as [w|n w w' w'' _ IH Hstep]; intros ->.
  - simpl. split; [unfold zlen; by rewrite length_fmap|]. 
    assert (∀ N, total N ((λ k, (k, Start)) <$> ks) = zlen ks * (3 * N + 11)) as ->; [|lia]. intros N.
    induction ks as [|k ks IH]; [done|]. rewrite fmap_cons, total_cons, IH. unfold zlen. simpl length.
    rewrite Nat2Z.inj_succ. unfold rank. simpl snd. lia.
  - destruct (IH eq_refl) as [Hl Ht]. destruct (step_decreases _ _ Hstep) as [Hl' Hd]. rewrite Hl in *. lia.
Qed.

(** ** No deadlock *)

Lemma wake_one_total k l : ∃ l', wake_one k l l'.
Proof.
  destruct (decide (Exists (λ a, asleep k a = true) l)) as [He|Hn].
  - apply Exists_exists in He as (a & [i Hi]%list_elem_of_lookup & Ha). eexists. apply (wake_some k l i).
    by rewrite Hi; simpl; rewrite Ha.
  - exists l. apply wake_none. apply Forall_forall. intros a Ha. destruct (asleep k a) eqn:E; [|done].
    destruct Hn. apply Exists_exists. eauto.
Qed.

Lemma locked_steps s m l i k p :
  l !! i = Some (k, p) → locked p = true → ∃ w', kitchen_step {| shared := s; mutex := m; animals := l |} w'.
Proof.
  intros Hi Hp. destruct p; try done.
  - eexists. by eapply kitchen_arrive.
  - destruct (must_wait k s) eqn:Hm; eexists; [by eapply kitchen_wait|by eapply kitchen_pass].
  - destruct (enter k s) as [s' d] eqn:E. eexists. by eapply kitchen_enter.
  - destruct (finish k dish s) as [s' sig] eqn:E. destruct (next_turn k s') as [s'' b] eqn:E'.
    destruct (wake_one_total k l) as [l' Hw]. destruct sig.
    + eexists. by eapply (kitchen_finish s m l i k dish s' true s'' b l').
    + eexists. by eapply (kitchen_finish s m l i k dish s' false s'' b l).
Qed.

Lemma stuck_done w : inv w → (∀ w', ¬ kitchen_step w w') → Forall (λ a, a.2 = Done) (animals w).
Proof.
  intros [Hlock Hdata _] Hstuck. destruct w as [s m l]. simpl in *.
  assert (∀ i k p, l !! i = Some (k, p) → locked p = false) as Hno.
  { intros i k p Hi. destruct (locked p) eqn:Hp; [|done]. destruct (locked_steps s m l i k p Hi Hp) as [w' Hw].
    by destruct (Hstuck w'). }
  assert (m = None) as ->.
  { destruct m as [i|]; [|done]. destruct (lo_holder _ _ Hlock i eq_refl) as (k & p & Hi & Hp).
    by rewrite (Hno _ _ _ Hi) in Hp. }
  assert (∀ i k p, l !! i = Some (k, p) → p = Asleep ∨ p = Done) as Hpc.
  { intros i k p Hi. pose proof (Hno _ _ _ Hi). destruct p; auto; try done; exfalso; eapply Hstuck.
    - by eapply kitchen_acquire.
    - by eapply kitchen_acquire.
    - by eapply kitchen_acquire.
    - by eapply kitchen_load.
    - by eapply kitchen_store. }
  assert (∀ P, (∀ k, P (k, Asleep) = false ∧ P (k, Done) = false) → count P l = 0) as Hzero.
  { intros P HP. destruct (decide (0 < count P l)) as [Hpos|]; [|pose proof (count_nonneg P l); lia].
    apply count_pos in Hpos as (i & [k p] & Hi & Hx). destruct (HP k). destruct (Hpc i k p Hi) as [->| ->]; congruence. }
  apply Forall_lookup. intros i [k p] Hi. destruct (Hpc i k p Hi) as [->|]; [|done]. exfalso.
  assert (1 ≤ count (waiting k) l) as Hw
    by (apply (count_lookup _ _ _ _ Hi); unfold waiting, ready, asleep, is_kind; simpl; by rewrite bool_decide_true).
  destruct Hdata. rewrite <- da_wait0 in Hw.
  assert (∃ k0, turn_type s = turn_of k0) as [k0 Ht].
  { destruct (turn_type s) eqn:Ht; [specialize (da_free0 eq_refl k); lia|by exists Cat|by exists Mouse]. }
  destruct (da_next0 k0 Ht) as [_ Hr].
  - rewrite da_eat0. apply Hzero. intros k1. by unfold eating; rewrite !andb_false_r.
  - rewrite Hzero in Hr; [lia|]. intros k1. by unfold ready; rewrite !andb_false_r.
Qed.

(** ** Running a schedule *)

(** The first sleeper, as [thread_wakeone] takes it. *)
Fixpoint wake_first (k : kind) (l : list animal) : list animal :=
  match l with
  | [] => []
  | a :: l' => if asleep k a then (k, Woken) :: l' else a :: wake_first k l'
  end.

Lemma wake_first_one k l : wake_one k l (wake_first k l).
Proof.
  assert (Forall (λ a, asleep k a = false) l ∧ wake_first k l = l ∨
    ∃ i, asleep k <$> (l !! i) = Some true ∧ wake_first k l = <[i := (k, Woken)]> l) as [[H ->]|(i & Hi & ->)];
    [|by apply wake_none|by apply wake_some].
  induction l as [|a l IH]; simpl; [by left|]. destruct (asleep k a) eqn:Ha.
  - right. exists 0%nat. simpl. by rewrite Ha.
  - destruct IH as [[H ->]|(i & Hi & ->)]; [left; auto|right]. by exists (S i).
Qed.

(** The next step of animal [i]. *)
Definition run_one (w : world) (i : nat) : option world :=
  let s := shared w in
  let l := animals w in
  let go s' m' k p := Some {| shared := s'; mutex := m'; animals := <[i := (k, p)]> l |} in
  match l !! i with
  | None => None
  | Some (k, p) =>
      match p with
      | Start | Woken | Eating _ =>
          match mutex w, after_acquire p with
          | None, Some p' => go s (Some i) k p'
          | _, _ => None
          end
      | Arriving => go (arrive k s) (mutex w) k Testing
      | Testing => if must_wait k s then go s None k Asleep else go s (mutex w) k Entering
      | Entering => let '(s', d) := enter k s in go s' None k (Eating d)
      | Finishing d =>
          let '(s', sig) := finish k d s in
          let '(s'', b) := next_turn k s' in
          let l' := if sig then wake_first k l else l in
          Some {| shared := s''; mutex := None;
                  animals := <[i := (k, Leaving)]> (if b is Some k' then wake_all k' l' else l') |}
      | Leaving => go s (mutex w) k (Storing (done_count (mine k s)))
      | Storing v => go (set_mine k (set_done (v + 1) (mine k s)) s) (mutex w) k Done
      | Asleep | Done => None
      end
  end.

Fixpoint run (w : world) (sched : list nat) : option world :=
  match sched with
  | [] => Some w
  | i :: sched' => w' ← run_one w i; run w' sched'
  end.

Lemma run_one_sound w i w' : run_one w i = Some w' → kitchen_step w w'.
Proof.
  unfold run_one. destruct w as [s m l]. simpl. destruct (l !! i) as [[k p]|] eqn:Hi; [|done].
  destruct p; intros E.
  - destruct m; simplify_eq/=. by eapply kitchen_acquire.
  - simplify_eq/=. by apply kitchen_arrive.
  - destruct (must_wait k s) eqn:Hm; simplify_eq/=; [by apply kitchen_wait|by apply kitchen_pass].
  - done.
  - destruct m; simplify_eq/=. by eapply kitchen_acquire.
  - destruct (enter k s) as [s' d] eqn:Ee. simplify_eq/=. by eapply kitchen_enter.
  - destruct m; simplify_eq/=. by eapply kitchen_acquire.
  - destruct (finish k dish s) as [s' sig] eqn:Ef. destruct (next_turn k s') as [s'' b] eqn:En. simplify_eq/=.
    eapply kitchen_finish; [done..|]. destruct sig; [apply wake_first_one|done].
  - simplify_eq/=. by apply kitchen_load.
  - simplify_eq/=. by apply kitchen_store.
  - done.
Qed.

Lemma steps_trans n1 n2 w1 w2 w3 :
  kitchen_steps n1 w1 w2 → kitchen_steps n2 w2 w3 → kitchen_steps (n2 + n1) w1 w3.
Proof.
  intros H1 H2. induction H2 as [w|n w w' w'' _ IH Hs]; [done|]. simpl. eapply kitchen_steps_S; [by apply IH|done].
Qed.

Lemma run_sound sched w w' : run w sched = Some w' → kitchen_steps (length sched) w w'.
Proof.
  revert w. induction sched as [|i sched IH]; intros w E; simpl in E; [simplify_eq; constructor|].
  destruct (run_one w i) as [w1|] eqn:E1; [|done]. simpl in E. simpl.
  rewrite <- Nat.add_1_r. apply (steps_trans 1 (length sched) w w1 w'); [|by apply IH].
  eapply kitchen_steps_S; [apply kitchen_steps_0|by eapply run_one_sound].
Qed.

(** ** The theorems *)

(** The animals of [catmouselock]. *)
Definition NCATS : nat := 6.
Definition NMICE : nat := 2.
Definition residents : list kind := replicate NCATS Cat ++ replicate NMICE Mouse.

(** [catmouselock] waits as long as this holds. *)
Definition driver_waits (s : kitchen) : bool :=
  (done_count (cats s) <? Z.of_nat NCATS) || (done_count (mice s) <? Z.of_nat NMICE).

(** Animal [i] is a [k] that eats from dish [d]. *)
Definition eats (w : world) (i : nat) (k : kind) (d : Z) : Prop := animals w !! i = Some (k, Eating d).

(** C24: Cats and mice never eat at the same time, and no two animals eat from the
    same dish, of which there are two, whatever the number of animals and
    whatever the scheduling. *)
Theorem kitchen_safe ks n w :
  kitchen_steps n (init ks) w →
  (∀ i j d d', eats w i Cat d → eats w j Mouse d' → False) ∧
  (∀ i j k k' d, eats w i k d → eats w j k' d → i = j) ∧
  (∀ i k d, eats w i k d → d = 1 ∨ d = 2).
Proof.
  intros Hs%inv_steps. destruct Hs as [_ [] _].
  assert (∀ i k d, eats w i k d → 1 ≤ count (eating k) (animals w)) as He
    by (intros i k d Hi; apply (count_lookup _ _ _ _ Hi); by destruct k).
  assert (∀ i k d, eats w i k d → d = 1 ∨ d = 2) as Hd.
  { intros i k d Hi. destruct (odd_dish (k, Eating d)) eqn:Ho; [pose proof (count_lookup _ _ _ _ Hi Ho); lia|].
    unfold odd_dish, eating, at_dish, is_kind in Ho. destruct k; simpl in Ho; lia. }
  split_and!; [| |done].
  - intros i j d d' Hi%He Hj%He. rewrite <- da_eat0 in Hi, Hj.
    pose proof (da_turn0 Cat) as H1. pose proof (da_turn0 Mouse) as H2. rewrite H1 in H2 by lia. specialize (H2 ltac:(lia)). done.
  - intros i j k k' d Hi Hj. destruct (decide (i = j)) as [|Hne]; [done|].
    pose proof (count_two (at_dish d) _ _ _ _ _ Hi Hj (Z.eqb_refl d) (Z.eqb_refl d) Hne).
    destruct (Hd i k d Hi) as [->| ->]; lia.
Qed.

(** A cat and a second cat are let in, a mouse has to wait. *)
Definition some_schedule : list nat :=
  [0; 0; 0; 0; 6; 6; 6; 1; 1; 1; 1]%nat.
Definition some_world : world := default (init residents) (run (init residents) some_schedule).

Lemma some_world_steps : kitchen_steps (length some_schedule) (init residents) some_world.
Proof. apply run_sound. by vm_compute. Qed.

Lemma kitchen_safe_witness :
  (∀ i j d d', eats some_world i Cat d → eats some_world j Mouse d' → False) ∧
  (∀ i j k k' d, eats some_world i k d → eats some_world j k' d → i = j) ∧
  (∀ i k d, eats some_world i k d → d = 1 ∨ d = 2).
Proof. apply (kitchen_safe residents (length some_schedule)), some_world_steps. Defined.

(** C25: Every animal gets to eat: an execution takes no more than [N(3N+11)] steps,
    and it can only end when all [N] animals are done. *)
Theorem kitchen_live ks n w :
  kitchen_steps n (init ks) w →
  Z.of_nat n ≤ zlen ks * (3 * zlen ks + 11) ∧
  ((∀ w', ¬ kitchen_step w w') → Forall (λ a, a.2 = Done) (animals w)).
Proof.
  intros Hs. destruct (steps_bounded _ _ _ Hs) as [_ Hb]. split.
  - pose proof (total_nonneg (zlen ks) (animals w) (zlen_nonneg ks)). lia.
  - apply stuck_done. by eapply inv_steps.
Qed.

(** All animals in turn; two cats read the counter before either of them stores
    it. *)
Definition lossy_schedule : list nat :=
  [0; 0; 0; 0; 0; 0; 1; 1; 1; 1; 1; 1; 0; 1; 0; 1]%nat ++
  mjoin ((λ i, replicate 8 i) <$> seq 2 6).
Definition lossy_world : world := default (init residents) (run (init residents) lossy_schedule).

Lemma lossy_world_steps : kitchen_steps (length lossy_schedule) (init residents) lossy_world.
Proof. apply run_sound. by vm_compute. Qed.

Lemma kitchen_live_witness :
  Z.of_nat (length lossy_schedule) ≤ zlen residents * (3 * zlen residents + 11) ∧
  ((∀ w', ¬ kitchen_step lossy_world w') → Forall (λ a, a.2 = Done) (animals lossy_world)).
Proof. apply (kitchen_live residents), lossy_world_steps. Defined.

(** The increment of [cats_done] is outside the critical section: all eight
    animals can be done while the counter says that only five of the six cats
    are, and [catmouselock] then waits forever. *)
Theorem done_count_lost :
  kitchen_steps (length lossy_schedule) (init residents) lossy_world ∧
  Forall (λ a, a.2 = Done) (animals lossy_world) ∧
  driver_waits (shared lossy_world) = true.
Proof. split; [apply lossy_world_steps|]. split; [by vm_compute; repeat constructor|by vm_compute]. Qed.
