(* ===== verification/CatSem.v ===== *)
(** * Cats and mice with a semaphore (kern/asst1/catsem.c)

    The other solution of the problem of CatLock.v.  A semaphore [mutex] of count
    two lets two animals in; that they are of one kind is left to variables that
    are read and written without protection.  One step is one access to the
    shared variables (an increment, or the condition of the loop, is taken as
    one access), or one operation on the semaphore.

    The semaphore does its part: at most two animals are inside at a time.  The
    variables do not: a cat and a mouse can eat together, and two animals can
    eat from the same dish. *)

From S2P Require Import Prelude CatLock.

Record room := {
  count_sem : Z;          (* mutex->count *)
  catsInRoom : Z;
  miceInRoom : Z;
  dish_1_busy : Z;
  dish_2_busy : Z;
  waiting_kind : option kind;  (* -1 = mouse, 1 = cat, 0 = no one *)
  catsDone : Z;
  miceDone : Z;
}.

Inductive place_sem :=
  | Spinning             (* the condition of the while loop *)
  | Claiming             (* its body *)
  | Clearing             (* waiting = 0 *)
  | Counting             (* catsInRoom++ *)
  | Blocking             (* P(mutex) *)
  | Choosing             (* reads dish_1_busy *)
  | Taking (dish : Z)    (* marks the dish *)
  | Dining (dish : Z)    (* clocksleep, then frees the dish *)
  | Ending               (* catsDone++; catsInRoom--; *)
  | Opening              (* V(mutex) *)
  | Gone.

Definition in_room (k : kind) (r : room) : Z := match k with Cat => catsInRoom r | Mouse => miceInRoom r end.

Definition with_waiting (o : option kind) (r : room) : room :=
  {| count_sem := count_sem r; catsInRoom := catsInRoom r; miceInRoom := miceInRoom r;
     dish_1_busy := dish_1_busy r; dish_2_busy := dish_2_busy r; waiting_kind := o;
     catsDone := catsDone r; miceDone := miceDone r |}.
Definition add_room (k : kind) (n : Z) (r : room) : room :=
  {| count_sem := count_sem r;
     catsInRoom := catsInRoom r + match k with Cat => n | Mouse => 0 end;
     miceInRoom := miceInRoom r + match k with Cat => 0 | Mouse => n end;
     dish_1_busy := dish_1_busy r; dish_2_busy := dish_2_busy r; waiting_kind := waiting_kind r;
     catsDone := catsDone r; miceDone := miceDone r |}.
Definition add_done (k : kind) (r : room) : room :=
  {| count_sem := count_sem r; catsInRoom := catsInRoom r; miceInRoom := miceInRoom r;
     dish_1_busy := dish_1_busy r; dish_2_busy := dish_2_busy r; waiting_kind := waiting_kind r;
     catsDone := catsDone r + match k with Cat => 1 | Mouse => 0 end;
     miceDone := miceDone r + match k with Cat => 0 | Mouse => 1 end |}.
Definition with_dish (d n : Z) (r : room) : room :=
  {| count_sem := count_sem r; catsInRoom := catsInRoom r; miceInRoom := miceInRoom r;
     dish_1_busy := if d =? 1 then n else dish_1_busy r;
     dish_2_busy := if d =? 1 then dish_2_busy r else n; waiting_kind := waiting_kind r;
     catsDone := catsDone r; miceDone := miceDone r |}.
Definition with_count (n : Z) (r : room) : room :=
  {| count_sem := n; catsInRoom := catsInRoom r; miceInRoom := miceInRoom r;
     dish_1_busy := dish_1_busy r; dish_2_busy := dish_2_busy r; waiting_kind := waiting_kind r;
     catsDone := catsDone r; miceDone := miceDone r |}.

(** [while(miceInRoom>0||waiting==-1)]. *)
Definition must_spin (k : kind) (r : room) : bool :=
  (in_room (other k) r >? 0) || bool_decide (waiting_kind r = Some (other k)).

(** The next step of a thread that runs [catsem] or [mousesem]; [None] when it
    waits in [P] or has returned. *)
Definition sem_step (k : kind) (p : place_sem) (r : room) : option (room * place_sem) :=
  match p with
  | Spinning => Some (r, if must_spin k r then Claiming else Clearing)
  | Claiming => Some (if waiting_kind r is None then with_waiting (Some k) r else r, Spinning)
  | Clearing => Some (with_waiting None r, Counting)
  | Counting => Some (add_room k 1 r, Blocking)
  | Blocking => if count_sem r >? 0 then Some (with_count (count_sem r - 1) r, Choosing) else None
  | Choosing => Some (r, Taking (if dish_1_busy r =? 0 then 1 else 2))
  | Taking d => Some (with_dish d 1 r, Dining d)
  | Dining d => Some (with_dish d 0 r, Ending)
  | Ending => Some (add_room k (-1) (add_done k r), Opening)
  | Opening => Some (with_count (count_sem r + 1) r, Gone)
  | Gone => None
  end.

(** Threads of [catmousesem], scheduled in any order. *)
Definition sem_world : Type := room * list (kind * place_sem).

Definition sem_run_one (w : sem_world) (i : nat) : option sem_world :=
  match w.2 !! i with
  | Some (k, p) => '(r, p') ← sem_step k p w.1; Some (r, <[i := (k, p')]> w.2)
  | None => None
  end.

Fixpoint sem_run (w : sem_world) (sched : list nat) : option sem_world :=
  match sched with
  | [] => Some w
  | i :: sched' => w' ← sem_run_one w i; sem_run w' sched'
  end.

Definition sem_init (ks : list kind) : sem_world :=
  ({| count_sem := 2; catsInRoom := 0; miceInRoom := 0; dish_1_busy := 0; dish_2_busy := 0;
      waiting_kind := None; catsDone := 0; miceDone := 0 |},
   (λ k, (k, Spinning)) <$> ks).

(** Between [P] and [V]. *)
Definition inside (a : kind * place_sem) : Z :=
  match a.2 with Choosing | Taking _ | Dining _ | Ending | Opening => 1 | _ => 0 end.
Fixpoint insiders (l : list (kind * place_sem)) : Z :=
  match l with
  | [] => 0
  | a :: l' => inside a + insiders l'
  end.

Lemma insiders_insert l i x y :
  l !! i = Some x → insiders (<[i := y]> l) = insiders l - inside x + inside y.
Proof.
  revert i. induction l as [|a l IH]; intros [|i] Hi; [done|done|..]; simpl in Hi |- *.
  - injection Hi as ->. lia.
  - rewrite (IH i) by done. lia.
Qed.

Lemma sem_step_counts w i w' :
  sem_run_one w i = Some w' → 0 ≤ count_sem w.1 → count_sem w.1 + insiders w.2 = 2 →
  0 ≤ count_sem w'.1 ∧ count_sem w'.1 + insiders w'.2 = 2.
Proof.
  unfold sem_run_one. intros E Hpos Hsum. destruct (w.2 !! i) as [[k p]|] eqn:Hi; [|done].
  destruct (sem_step k p w.1) as [[r p']|] eqn:Es; simplify_eq/=. rewrite (insiders_insert _ _ _ _ Hi).
  destruct p; simplify_eq/=; try (unfold inside; simpl; lia).
  - destruct (must_spin _ _); unfold inside; simpl; lia.
  - destruct (waiting_kind w.1); unfold inside; simpl; lia.
  - destruct (Z.gtb_spec (count_sem w.1) 0); simplify_eq/=. unfold inside. simpl. lia.
Qed.

(** The semaphore bounds the animals inside: at any time at most two animals
    are between [P] and [V], whatever their number and the scheduling. *)
Theorem catsem_at_most_two ks sched w :
  sem_run (sem_init ks) sched = Some w → 0 ≤ count_sem w.1 ∧ insiders w.2 = 2 - count_sem w.1.
Proof.
  intros E. enough (0 ≤ count_sem w.1 ∧ count_sem w.1 + insiders w.2 = 2) by lia.
  assert (0 ≤ count_sem (sem_init ks).1 ∧ count_sem (sem_init ks).1 + insiders (sem_init ks).2 = 2) as H0.
  { assert (insiders ((λ k, (k, Spinning)) <$> ks) = 0) as Hz
      by (clear E; induction ks as [|k ks IH]; [done|exact IH]).
    unfold sem_init. cbn [fst snd count_sem]. rewrite Hz. lia. }
  revert H0 E. generalize (sem_init ks). induction sched as [|i sched IH]; intros w0 [H1 H2] E; simpl in E; [by simplify_eq|].
  destruct (sem_run_one w0 i) as [w1|] eqn:E1; [|done]. apply (IH w1); [|done]. by eapply sem_step_counts.
Qed.

(** A cat and a mouse both find the room empty before either has counted itself
    in. *)
Definition mixed_schedule : list nat :=
  [0; 1; 0; 0; 0; 0; 1; 1; 1; 1]%nat.
Definition mixed_world : sem_world :=
  default (sem_init [Cat; Mouse]) (sem_run (sem_init [Cat; Mouse]) mixed_schedule).

(** The check of the loop and the increment after it are not atomic: a cat and a
    mouse can eat at the same time, and from the same dish if they look at
    [dish_1_busy] before either has marked it. *)
Theorem catsem_mixes :
  sem_run (sem_init [Cat; Mouse]) mixed_schedule = Some mixed_world ∧
  mixed_world.2 = [(Cat, Taking 1); (Mouse, Taking 1)] ∧
  (∃ w, sem_run mixed_world [0; 1]%nat = Some w ∧ w.2 = [(Cat, Dining 1); (Mouse, Dining 1)]).
Proof. split_and!; [by vm_compute|by vm_compute|]. eexists. split; by vm_compute. Qed.

Lemma catsem_at_most_two_witness :
  0 ≤ count_sem mixed_world.1 ∧ insiders mixed_world.2 = 2 - count_sem mixed_world.1.
Proof. apply (catsem_at_most_two [Cat; Mouse] mixed_schedule). by vm_compute. Defined.
